(* ===== verification/_CoqProject ===== *)
-Q . S2P
Prelude.v
Height.v
Amount.v
BTree.v
Network.v
Subsidy.v
SubsidyFacts.v
Issuance.v
Reissuance.v
Payout.v
ValueBalance.v
ValuePools.v
Difficulty.v
DifficultyFacts.v
AdjustedDifficulty.v
AdjustedFacts.v
EvictionList.v
BSet.v
PeerCooldown.v
Zip317.v
EvictionCost.v
NodeData.v
Mmr.v
MmrFacts.v
MmrTruncate.v
HistoryTree.v
HistoryFacts.v
HistoryPush.v
Serialization.v
SerializationFacts.v
HashIter.v
Dependencies.v
Transparent.v
Merkle.v
TransparentFacts.v
MerkleFacts.v
BlockHeader.v
MempoolTx.v
Block.v
BlockCheck.v
BlockCheckFacts.v
CheckpointList.v
Checkpoint.v
CheckpointRange.v
CheckpointFacts.v
CheckpointChecks.v
CheckpointRun.v
HeightMap.v
SharedMap.v
AddressIndex.v
AddressFacts.v
SpendCheck.v
SpendFacts.v
TreeIndex.v
Chain.v
ChainContent.v
ChainBlocks.v
ChainTrees.v
ChainRun.v
ChainFacts.v
ContextChecks.v
NonFinalized.v
NonFinalizedSet.v
NonFinalizedFacts.v
NonFinalizedRun.v
VerifiedSet.v
VerifiedGraph.v
VerifiedCaches.v
VerifiedScores.v
VerifiedFacts.v
VerifiedInsert.v
EvictionSelect.v
Standard.v
PeerPolicy.v
Storage.v
StorageLists.v
StorageInsert.v
Downloads.v
Mempool.v
MempoolFacts.v
