(* ===== verification/Prelude.v ===== *)
(** * Zakura: consensus arithmetic, block checks, chains and the mempool

    A verification library for the Zakura node, a Zcash full node in Rust.  The
    sources are under [src/crates/]; paths below are relative to it.

    ** The program and its models

    Old blocks are accepted in ranges, by the hashes of a list of checkpoints.  A
    later block is accepted when its header meets the contextual difficulty and
    time rules, its header commits to its transactions and to the history of the
    chain, its coinbase pays the block subsidy as divided by the schedule, its
    transactions spend outputs that are there and reveal nullifiers that are new,
    and its value transfers keep the chain value pools in range.  It then extends
    a chain of the non-finalized state: the chains fork, the best one is that
    with the most work, and its oldest block is finalized in turn.  Transactions
    wait in the mempool until they are mined: peers gossip them, tasks download
    and verify them, the storage keeps those that pay best, and each new block
    removes what it mined or made invalid.
    The files model these parts, in dependency order:

    - [Prelude]: results with errors and panics ([res]), machine integers, byte
      strings, and the tactics and hint database [rust].
    - [Height] (zakura-chain/src/block/height.rs) and [Amount]
      (zakura-chain/src/amount.rs): heights and amounts with their constraints.
    - [BTree], [BSet]: [BTreeMap] and [BTreeSet] as sorted lists, and the binary
      search of [partition_point].
    - [Network] (zakura-chain/src/parameters/network_upgrade.rs, network.rs and
      network/testnet.rs): upgrades, activation heights, branch ids, spacings and
      averaging windows, on Mainnet and on every configured test network.
    - [Subsidy] (zakura-chain/src/parameters/network/subsidy.rs): halvings, block
      subsidy, closed-form issuance, ZIP 234 reissuance, funding streams, fee
      shares.  Its theorems are in [SubsidyFacts] (halvings), [Issuance] (the
      closed form), [Reissuance] (the crossing and the block subsidy) and
      [Payout] (the division of the subsidy).
    - [ValueBalance] (zakura-chain/src/value_balance.rs, block.rs, and the pool
      updates of zakura-state's non-finalized chain), with theorems in
      [ValuePools].
    - [Difficulty] (zakura-chain/src/work/difficulty.rs) with [DifficultyFacts],
      and [AdjustedDifficulty] (the contextual validation of
      zakura-header-chain) with [AdjustedFacts].
    - [NodeData], [Mmr] (zakura-mmr-tree/src): the Merkle mountain range of
      ZIP-221, its node metadata and the partially loaded tree.  [MmrSpec], in the
      file of [MmrFacts], is the reference mountain range, [MmrFacts] and
      [MmrTruncate] the refinement.
    - [HistoryTree] (zakura-chain/src/history_tree.rs and
      primitives/zcash_history.rs): the history tree over the mountain range.
      [HistoryFacts] is the cache of peaks, [HistoryPush] the chain of blocks.
    - [Zip317] (zakura-chain/src/transaction/unmined.rs and unmined/zip317.rs):
      conventional fees and mempool admission.
    - [EvictionCost], [EvictionList], [PeerCooldown]
      (zakurad/src/components/mempool): eviction order, the list of evicted
      transactions, and cooldowns of peers that send invalid transactions.
    - [Serialization] (zakura-chain/src/serialization): the bounded reader,
      compact sizes, byte and item vectors, with [SerializationFacts].  [Codec]
      is what it means for an encoding to be exact.
    - [Transparent] (zakura-chain/src/transparent.rs and transparent/): outpoints,
      inputs, outputs and dust, with [TransparentFacts].
    - [Merkle] (zakura-chain/src/block/merkle.rs): the transaction and authorizing
      data merkle roots, with [MerkleFacts].
    - [BlockHeader] (zakura-chain/src/block/header.rs, serialize.rs,
      work/equihash.rs; the context-free validation of zakura-header-chain): the
      header, its encoding, its hash, and its checks without a chain.
    - [Block] (zakura-chain/src/block.rs, transaction.rs, transparent/utxo.rs):
      what the checks read of a block and its transactions, the outputs it
      creates, and its value balance.
    - [BlockCheck] (zakura-consensus/src/block/check.rs): coinbase position,
      proof of work, subsidy, miner fees, shielded limits, merkle root; with
      [BlockCheckFacts].
    - [CheckpointList] (zakura-chain/src/parameters/checkpoint/list.rs) and
      [Checkpoint] (zakura-consensus/src/checkpoint.rs): the checkpoint verifier,
      a queue of blocks by height that is drained one checkpoint range at a time.
      [CheckpointTarget] is the choice of the range, [CheckpointRange] its
      traversal, [CheckpointFacts] the chain it accepts, [CheckpointChecks] the
      checks of each block, and [CheckpointRun] the verifier under any requests.
    - [HeightMap], [SharedMap] (zakura-state/src/service/non_finalized_state/chain):
      the chunked map by height and the hash-partitioned maps that the chains
      share, shown to be a [BTreeMap] and finite maps.
    - [AddressIndex] (index.rs of the same directory): the transfers of an
      address, with [AddressFacts].
    - [SpendCheck] (zakura-state/src/service/check/utxo.rs and nullifier.rs):
      transparent spends, coinbase maturity, remaining values and nullifiers,
      with [SpendFacts].
    - [TreeIndex] and [Chain] (chain.rs): a chain with its indexes of outputs,
      nullifiers, addresses, trees, subtrees, anchors and value pools; adding a
      block, removing the tip or the root, forking, treestates, and the order of
      chains.  [ChainContent] is what a list of transactions and a list of
      blocks put in the indexes, [ChainBlocks] and [ChainTrees] the refinement
      for the indexes and for the trees, [ChainRun] for the whole chain, and
      [ChainFacts] the chains that any such operations reach.
    - [ContextChecks] (zakura-chain/src/block/commitment.rs,
      zakura-state/src/service/check.rs and check/anchors.rs): what a header
      commits to, and the anchors of the transactions, against a chain;
      [AnchorFacts] is what the checks of the anchors accept.
    - [NonFinalized] (zakura-state/src/service/non_finalized_state.rs): the set of
      chains, with commits, the fork limit, finalization, invalidated blocks and
      the preferences of the operator.  [NonFinalizedSet] is the order of the
      chains and what chains with a common block share, [NonFinalizedFacts] the
      invariant with commits and finalization, and [NonFinalizedRun] the
      operator's requests and the states that any operations reach.
    - [HashIter]: [HashSet] and [HashMap], visited in any order.
    - [Dependencies] (zakura-node-services/src/mempool/transaction_dependencies.rs):
      which mempool transactions spend outputs of which.
    - [MempoolTx] (zakura-chain/src/transaction/unmined.rs; pending_outputs.rs of
      the mempool): verified transactions, and requests waiting for outputs.
    - [VerifiedSet] (zakurad/src/components/mempool/storage/verified_set.rs): the
      stored transactions and the eviction index.  [VerifiedGraph] has the walks
      over the dependencies, [VerifiedCaches] the totals and caches,
      [VerifiedScores] the index, [VerifiedFacts] the invariant, [VerifiedInsert]
      and [VerifiedRemove] the operations, [EvictionSelect] the choice of victims.
    - [Standard] (storage.rs and storage/policy.rs of the mempool,
      zakura-consensus/src/transaction/check.rs): the standard transaction rules.
    - [PeerPolicy] (zakurad/src/components/mempool.rs): what an invalid transaction
      costs the peer that relayed it.
    - [Storage] (zakurad/src/components/mempool/storage.rs): the verified set with
      its cost limit and the rejection lists; theorems in [StorageLists],
      [StorageInsert] and [StorageBlock].
    - [Downloads] (zakurad/src/components/mempool/downloads.rs): the queue of
      download and verification tasks.
    - [Mempool] (zakurad/src/components/mempool.rs): the service, its polls and its
      requests; [MempoolBlock], in the file of [MempoolFacts], is a new block,
      [MempoolFacts] the whole service.

    Definitions keep the names of the source.  A file of definitions is a
    translation, function by function; specifications and proofs are in the
    files named above or follow the definitions.

    ** How code is modelled

    A Rust computation is a value of [res E A]: [Ok], [Err], or [Panic] for
    [assert!], [expect], [unreachable!] and arithmetic overflow, as in builds
    with overflow checks.  Methods on [&mut self] return the new object, and keep
    it beside the error where an error leaves a change behind; the operations of
    the non-finalized state keep it beside every error ([NonFinalized.failing]).
    A [w]-bit integer
    is a [Z] whose range is checked at every operation.  The clock of
    [EvictionList] is a stream of non-decreasing instants, one per reading.  A
    stream delivers its bytes in chunks of any size.  An asynchronous task is a
    step that may happen at any time between two operations of its owner, with
    the answers it got from other services as an argument.

    Third-party code is a type class argument: [Difficulty.U256] for the
    primitive-types integer, with [U256Laws] its arithmetic;
    [NodeData.Blake2b] for the personalised hash, of which only the digest size
    is used; [Transparent.ZcashTransparent] for the number pushes and script
    bounds of coinbase inputs, with [PushNumLaws] the encoding of heights;
    [Standard.ZcashScript] for what is found in a script, with no law;
    [Merkle.Sha256] for SHA-256, of which the digest size is used;
    [BlockHeader.Equihash] for the solution verifier, with no law; and
    [Chain.NoteTrees] for the note commitment trees and the history tree of a
    chain, with [NoteTreesLaws] that a root determines its tree and that a batch
    of notes completes at most the next subtree; and [ContextChecks.Referred] for
    the anchors of a transaction and the hash of a history tree, with no law.  The
    finalized state is a record of its answers ([SpendCheck.ZakuraDb],
    [NonFinalized.FinalizedState]), and the payees of a network are a record of
    addresses.  The order in which a hash set is visited is [HashIter.HashOrder].
    Theorems quantify over every lawful instance; their witnesses use a concrete
    one.

    The theorems on the non-finalized state assume that a hash determines its
    block, that a block which is committed was verified for its height, one above
    its parent's, and that no address of a chain receives or spends more than
    the monetary base; [self_transfer_panics] is what happens otherwise.

    The theorems on the mempool assume of the transaction verifier that what it
    accepts fits in a block, pays a valid fee, and has the id that was asked for;
    of the chain tip, a valid height; of a new block, that it holds no
    transaction the storage already lists as mined; and of the configuration, a
    cost limit below 2^31.

    Loops that are not structural carry fuel, and a theorem shows that it is
    enough: [issuance_runs] has 70 rounds for at most 66 runs of equal subsidies;
    [bsearch] 32 halvings of a 32-bit range; [prune_loop] one round per entry
    and one more; [peak_positions] and the descents of [Mmr] 64, with at most 32
    altitudes for a 32-bit position; the walks of [VerifiedSet] are bounded by the
    stored transactions, since every edge joins two of them and at most three
    members of a group are expanded; [select_loop] has a round per stored
    transaction and one more; [remove_levels] one per entry of the dependents and
    two more; [read_exact] and [read_chunks] a round per byte;
    the merkle roots a round per hash; [pop_to] a round per block of the chain;
    and [evict] a round per chain.  Running out of fuel is a [Panic], which the
    theorems exclude.

    ** What the theorems show

    - Supply: the closed-form issuance is the sum of the block subsidies, the
      ZIP 234 height is the first crossing, halving heights are the least
      inverse, every division of the subsidy conserves it, and on every chain
      of blocks extended and reverted the pools with the NSM balance account
      for exactly the scheduled issuance, unless the network is configured with
      its own initial NSM balance.
    - Proof of work: compact difficulties convert as in the protocol
      specification, with rounding and work, and the adjusted threshold is
      ThresholdBits, which panics when the mean target is below the averaging
      timespan.
    - Chain history: appending, truncating, pruning and reloading keep the root
      of the reference mountain range, and the tree of any valid chain commits to
      exactly the blocks of the current upgrade.
    - Block checks: a header is read back from its encoding and from no other;
      a block passes the merkle check only with the transaction ids its header
      commits to; the subsidy check finds exactly the payments the schedule
      asks for, and a block that passes the fee check creates its subsidy and
      no more.
    - Checkpoints: a range that is accepted is the hash chain between two
      checkpoints; the blocks of an honest chain are accepted whatever blocks are
      queued beside them; and short of a hash collision the verifier never panics.
    - Chains: the indexes of a chain are those of its blocks, whatever was
      pushed, popped and finalized before; a fork undoes the blocks above it;
      no output is spent and no nullifier revealed twice along a chain; the
      spend checks accept exactly the spends of available, mature outputs whose
      value covers what is spent; and the anchor checks exactly the anchors that
      refer to treestates of the chain or of the finalized state.
    - Non-finalized state: over any run of its operations there are at most ten
      chains, linked above the finalized tip, with different tips; the best chain
      has the most work, and a commit never lowers it; finalizing returns the root
      of the best chain and keeps exactly the chains above it; invalidated blocks
      are in no chain and are not committed again until they are reconsidered,
      which replays them or changes nothing; and a preference decides between chains of equal work only.  The operations
      panic only where validation or adding a block to a chain does.
    - Mempool: admission is payment of the conventional fee, eviction costs
      compare as exact rationals, and the eviction list and cooldown table keep
      their bounds and drop only what they should.  Victim selection makes the
      greedy choice and ends; an insertion stores the transaction within the cost
      limit or changes nothing stored; a new block removes exactly what it mined,
      and what it conflicts with or lets expire with their dependents, and cancels
      the downloads of what it mined; the download queue keeps its limits and
      counts; ids to gossip are handed out once each; and the whole
      service, driven by any polls, requests and tasks, never panics and keeps
      its invariant.
    - Encodings: compact sizes are canonical, vectors decode the same from a
      message and from a stream, and transparent inputs decode from their
      encoding only.
    - Values: amount arithmetic, sums and encodings, heights, pool records and
      node metadata round trip and stay in range.
    - A panic of the code is shown by [self_transfer_panics].

    ** What is not modelled

    Code under [cfg(test)] and the [zfuture] and [indexer] flags; floating-point
    metrics and gauges; cryptographic proofs, signatures and script execution;
    the transaction format beyond its transparent part; databases, networking,
    RPC and the simulator; the asynchronous block and transaction verifiers; the
    background tasks that poll the mempool and gossip for it, and the channels on
    which it answers one caller.  Blocks and transactions are what the modelled
    code reads of them.  Of a chain, the preparation of block proposals and most
    address queries are left out, and of the non-finalized state the reuse of the
    results of proposals and the backup on disk.  Checks that run in parallel are
    in order.  Next in line: the queue of blocks without a parent, the address
    book states, and the transitions of the header graph. *)

From stdpp Require Import base numbers list option.
From Stdlib Require Import ZArith Lia.

#[global] Set Default Goal Selector "!".

(** ** Results, errors and panics

    [res E A] is a Rust computation of type [Result<A, E>] that can also panic
    ([assert!], [expect], [unreachable!], arithmetic overflow with overflow
    checks on).  A function whose Rust type has no error is polymorphic in [E];
    it can still panic. *)
Inductive res (E A : Type) : Type :=
| Ok (a : A)
| Err (e : E)
| Panic.
Arguments Ok {E A} _.
Arguments Err {E A} _.
Arguments Panic {E A}.

Declare Scope rust_scope.
Delimit Scope rust_scope with rust.

Definition res_bind {E A B} (c : res E A) (k : A -> res E B) : res E B :=
  match c with
  | Ok a => k a
  | Err e => Err e
  | Panic => Panic
  end.

(** The [?] operator. *)
Notation "'let?' x := c 'in' k" := (res_bind c (fun x => k))
  (at level 10, x pattern, c at level 100, k at level 200,
   format "'[v' 'let?'  x  :=  c  'in' '/' k ']'") : rust_scope.
#[global] Open Scope rust_scope.

(** [Result::map_err] *)
Definition map_err {E F A} (f : E -> F) (c : res E A) : res F A :=
  match c with
  | Ok a => Ok a
  | Err e => Err (f e)
  | Panic => Panic
  end.

(** [Option::ok_or] *)
Definition ok_or {E A} (e : E) (o : option A) : res E A :=
  match o with Some a => Ok a | None => Err e end.

(** [Option::expect] and [Option::unwrap] *)
Definition expect {E A} (o : option A) : res E A :=
  match o with Some a => Ok a | None => Panic end.

(** [Result::expect]: an error value becomes a panic, at any error type. *)
Definition expect_ok {E F A} (c : res E A) : res F A :=
  match c with Ok a => Ok a | Err _ => Panic | Panic => Panic end.

(** [assert!] *)
Definition rust_assert {E} (b : bool) : res E unit :=
  if b then Ok tt else Panic.

(** [Iterator::map] with a closure that can fail, collected *)
Fixpoint res_map {E A B} (f : A -> res E B) (l : list A) : res E (list B) :=
  match l with
  | [] => Ok []
  | x :: l => let? y := f x in let? ys := res_map f l in Ok (y :: ys)
  end.

Definition is_ok {E A} (c : res E A) : bool :=
  match c with Ok _ => true | _ => false end.

Lemma res_bind_Ok {E A B} (c : res E A) (k : A -> res E B) b :
  res_bind c k = Ok b <-> exists a, c = Ok a /\ k a = Ok b.
Proof.
  destruct c; simpl; split.
  - intros H. by eexists.
  - intros (a' & [= ->] & H). done.
  - done.
  - by intros (? & ? & _).
  - done.
  - by intros (? & ? & _).
Qed.

Lemma res_map_Ok {E A B} (f : A -> res E B) l ys :
  res_map f l = Ok ys <-> Forall2 (fun x y => f x = Ok y) l ys.
Proof.
  revert ys. induction l as [|x l IH]; intros ys; cbn.
  - split; [intros [= <-]; constructor|]. by inversion 1.
  - rewrite res_bind_Ok. setoid_rewrite res_bind_Ok. split.
    + intros (y & Hy & ys' & Hys & [= <-]). constructor; [done|by apply IH].
    + inversion 1 as [|? y ? ys' Hy Hys]; subst. exists y. split; [done|]. exists ys'. split; [by apply IH|done].
Qed.

Lemma filter_none {A} (P : A -> Prop) `{!forall x, Decision (P x)} (l : list A) :
  (forall x, x ∈ l -> ~ P x) -> filter P l = [].
Proof.
  induction l as [|x l IH]; intros Hl; [done|]. rewrite filter_cons_False by (apply Hl, list_elem_of_here).
  apply IH. intros y Hy. by apply Hl, list_elem_of_further.
Qed.

(** A fold whose state can be an error, which its step keeps *)
Lemma foldl_strict_cons {E A B} (F : res E A -> B -> res E A) s x (l : list B) s' :
  (forall r y, (forall a, r <> Ok a) -> forall a, F r y <> Ok a) ->
  foldl F (Ok s) (x :: l) = Ok s' <-> exists s1, F (Ok s) x = Ok s1 /\ foldl F (Ok s1) l = Ok s'.
Proof.
  intros Hstrict. cbn [foldl].
  assert (Hstuck : forall k r, (forall a, r <> Ok a) -> foldl F r k <> Ok s').
  { intros k. induction k as [|y k IH]; intros r Hr; [exact (Hr s')|]. cbn [foldl]. apply IH. by apply Hstrict. }
  split; [|by intros (s1 & -> & ?)].
  destruct (F (Ok s) x) as [s1| |] eqn:Hf; [by exists s1|..]; intros Hl; exfalso; by eapply Hstuck; [|exact Hl].
Qed.

Lemma foldl_bind_cons {E A B} (f : A -> B -> res E A) s x (l : list B) s' :
  foldl (fun acc x => let? s := acc in f s x) (Ok s) (x :: l) = Ok s' <->
  exists s1, f s x = Ok s1 /\ foldl (fun acc x => let? s := acc in f s x) (Ok s1) l = Ok s'.
Proof.
  apply (foldl_strict_cons (fun acc x => let? s := acc in f s x)).
  intros r y Hr a. destruct r as [b| |]; cbn; [by destruct (Hr b)|done..].
Qed.

Lemma map_err_Ok {E F A} (f : E -> F) (c : res E A) a :
  map_err f c = Ok a <-> c = Ok a.
Proof. destruct c; simpl; split; congruence. Qed.

Lemma expect_ok_Ok {E F A} (c : res E A) (a : A) :
  expect_ok (F := F) c = Ok a <-> c = Ok a.
Proof. destruct c; simpl; split; congruence. Qed.

Lemma ok_or_Ok {E A} (e : E) (o : option A) a :
  ok_or e o = Ok a <-> o = Some a.
Proof. destruct o; simpl; split; congruence. Qed.

Lemma expect_Ok {E A} (o : option A) (a : A) :
  expect (E := E) o = Ok a <-> o = Some a.
Proof. destruct o; simpl; split; congruence. Qed.

(** ** Machine integers

    A [w]-bit integer is a [Z] with its range written out. *)
#[global] Open Scope Z_scope.

Definition in_uint (w z : Z) : bool := (0 <=? z) && (z <? 2 ^ w).
Definition in_sint (w z : Z) : bool := (- 2 ^ (w - 1) <=? z) && (z <? 2 ^ (w - 1)).

(** [uN::try_from], [checked_add] and friends on the exact result. *)
Definition to_uint (w z : Z) : option Z := if in_uint w z then Some z else None.
Definition to_sint (w z : Z) : option Z := if in_sint w z then Some z else None.

(** The plain operators [+], [-], [*]: overflow is a panic. *)
Definition uint_arith {E} (w z : Z) : res E Z := if in_uint w z then Ok z else Panic.
Definition sint_arith {E} (w z : Z) : res E Z := if in_sint w z then Ok z else Panic.

(** [saturating_sub] on unsigned integers *)
Definition usat_sub (a b : Z) : Z := Z.max 0 (a - b).

(** [div_ceil] on unsigned integers *)
Definition div_ceil (a b : Z) : Z := (a + b - 1) / b.

Definition u8_max : Z := 2 ^ 8 - 1.
Definition u16_max : Z := 2 ^ 16 - 1.
Definition u32_max : Z := 2 ^ 32 - 1.
Definition u64_max : Z := 2 ^ 64 - 1.
Lemma in_uint_spec w z : in_uint w z = true <-> 0 <= z < 2 ^ w.
Proof. unfold in_uint. lia. Qed.

Lemma in_sint_spec w z : in_sint w z = true <-> - 2 ^ (w - 1) <= z < 2 ^ (w - 1).
Proof. unfold in_sint. lia. Qed.

Lemma uint_arith_Ok {E} w z : 0 <= z < 2 ^ w -> uint_arith (E := E) w z = Ok z.
Proof. intros H. unfold uint_arith. by rewrite (proj2 (in_uint_spec w z)). Qed.

Lemma sint_arith_Ok {E} w z :
  - 2 ^ (w - 1) <= z < 2 ^ (w - 1) -> sint_arith (E := E) w z = Ok z.
Proof. intros H. unfold sint_arith. by rewrite (proj2 (in_sint_spec w z)). Qed.

Lemma uint_arith_inv {E} w z z' :
  uint_arith (E := E) w z = Ok z' -> z' = z /\ 0 <= z < 2 ^ w.
Proof.
  unfold uint_arith. destruct (in_uint w z) eqn:H; [|done].
  intros [= <-]. by apply in_uint_spec in H.
Qed.

Lemma sint_arith_inv {E} w z z' :
  sint_arith (E := E) w z = Ok z' -> z' = z /\ - 2 ^ (w - 1) <= z < 2 ^ (w - 1).
Proof.
  unfold sint_arith. destruct (in_sint w z) eqn:H; [|done].
  intros [= <-]. by apply in_sint_spec in H.
Qed.

Lemma to_uint_Some w z z' : to_uint w z = Some z' <-> z' = z /\ 0 <= z < 2 ^ w.
Proof.
  unfold to_uint. destruct (in_uint w z) eqn:H.
  - apply in_uint_spec in H. split; [intros [= <-]; done|intros [-> _]; done].
  - split; [done|]. intros [_ H']. apply in_uint_spec in H'. congruence.
Qed.

Lemma to_sint_Some w z z' :
  to_sint w z = Some z' <-> z' = z /\ - 2 ^ (w - 1) <= z < 2 ^ (w - 1).
Proof.
  unfold to_sint. destruct (in_sint w z) eqn:H.
  - apply in_sint_spec in H. split; [intros [= <-]; done|intros [-> _]; done].
  - split; [done|]. intros [_ H']. apply in_sint_spec in H'. congruence.
Qed.

(** [div_ceil] is the least [q] with [a <= q * b]. *)
Lemma div_ceil_le a b q : 0 < b -> div_ceil a b <= q <-> a <= q * b.
Proof.
  intros Hb. unfold div_ceil. split; intros H.
  - pose proof (Z.mul_succ_div_gt (a + b - 1) b Hb). nia.
  - apply Z.lt_succ_r, Z.div_lt_upper_bound; nia.
Qed.

Lemma div_ceil_nonneg a b : 0 <= a -> 0 < b -> 0 <= div_ceil a b.
Proof. intros. unfold div_ceil. apply Z.div_pos; lia. Qed.

(** Truncated division moves towards zero. *)
Lemma quot_between z n : 0 < n -> Z.min 0 z <= Z.quot z n <= Z.max 0 z.
Proof.
  intros Hn. destruct (Z_le_gt_dec 0 z).
  - pose proof (Z.quot_le_upper_bound z n z). pose proof (Z.quot_pos z n). nia.
  - pose proof (Z.quot_le_upper_bound (- z) n (- z)). pose proof (Z.quot_pos (- z) n).
    rewrite Z.quot_opp_l in * by lia. nia.
Qed.

(** ** Little-endian byte strings

    A byte is a [Z] in [0, 256). *)
Fixpoint le_bytes (n : nat) (z : Z) : list Z :=
  match n with
  | O => []
  | S n => (z mod 256) :: le_bytes n (z / 256)
  end.

Fixpoint le_value (bs : list Z) : Z :=
  match bs with
  | [] => 0
  | b :: bs => b + 256 * le_value bs
  end.

Definition is_byte (b : Z) : Prop := 0 <= b < 256.

(** Two's complement: the signed value of a [w]-bit pattern. *)
Definition sint_of_bits (w z : Z) : Z := if z <? 2 ^ (w - 1) then z else z - 2 ^ w.

Lemma length_le_bytes n z : length (le_bytes n z) = n.
Proof. revert z; induction n; intros; simpl; auto. Qed.

Lemma le_bytes_is_byte n z : Forall is_byte (le_bytes n z).
Proof.
  revert z; induction n; intros; simpl; constructor; auto.
  unfold is_byte. apply Z.mod_pos_bound. lia.
Qed.

Lemma le_value_le_bytes n z : le_value (le_bytes n z) = z mod 256 ^ Z.of_nat n.
Proof.
  revert z; induction n as [|n IH]; intros z; cbn [le_bytes le_value].
  - by rewrite Z.mod_1_r.
  - rewrite IH, Nat2Z.inj_succ, Z.pow_succ_r by lia.
    assert (0 < 256 ^ Z.of_nat n) by (apply Z.pow_pos_nonneg; lia).
    rewrite Z.rem_mul_r by lia. lia.
Qed.

Lemma le_value_bound bs :
  Forall is_byte bs -> 0 <= le_value bs < 256 ^ Z.of_nat (length bs).
Proof.
  induction 1 as [|b bs Hb Hbs IH]; cbn [le_value length]; [lia|].
  rewrite Nat2Z.inj_succ, Z.pow_succ_r by lia. unfold is_byte in Hb. lia.
Qed.

Lemma le_bytes_le_value bs :
  Forall is_byte bs -> le_bytes (length bs) (le_value bs) = bs.
Proof.
  induction 1 as [|b bs Hb Hbs IH]; cbn [le_bytes le_value length]; [done|].
  unfold is_byte in Hb. f_equal.
  - rewrite Z.mul_comm, Z.mod_add, Z.mod_small by lia. done.
  - rewrite Z.mul_comm, Z.div_add, Z.div_small, Z.add_0_l by lia. done.
Qed.

Lemma sint_of_bits_mod w z :
  0 < w -> - 2 ^ (w - 1) <= z < 2 ^ (w - 1) -> sint_of_bits w (z mod 2 ^ w) = z.
Proof.
  intros Hw Hz. unfold sint_of_bits.
  assert (2 ^ w = 2 * 2 ^ (w - 1)) as Hpow.
  { rewrite <- Z.pow_succ_r by lia. f_equal. lia. }
  destruct (Z_lt_le_dec z 0).
  - replace (z mod 2 ^ w) with (z + 2 ^ w).
    + destruct (Z.ltb_spec (z + 2 ^ w) (2 ^ (w - 1))); lia.
    + rewrite <- (Z.mod_small (z + 2 ^ w) (2 ^ w)) by lia.
      rewrite <- (Z.mul_1_l (2 ^ w)) at 1. by rewrite Z.mod_add by lia.
  - rewrite Z.mod_small by lia. destruct (Z.ltb_spec z (2 ^ (w - 1))); lia.
Qed.

(** ** Automation *)

(** The database [rust]: arithmetic that stays in range is the exact result, and
    the facts on byte strings the codecs need.  [run_arith] runs checked
    arithmetic through its binds, discharging the ranges by [lia]. *)
Create HintDb rust.
Create Rewrite HintDb rust.
#[export] Hint Rewrite @uint_arith_Ok @sint_arith_Ok using lia : rust.
#[export] Hint Resolve length_le_bytes le_bytes_is_byte le_value_bound div_ceil_nonneg : rust.

Ltac run_arith := repeat progress (autorewrite with rust; cbn [res_bind]).

(** [res_inv] takes apart hypotheses [c = Ok a] built from the combinators. *)
Ltac res_inv :=
  repeat match goal with
  | H : Ok _ = Ok _ |- _ => injection H as H; subst
  | H : Err _ = Ok _ |- _ => discriminate H
  | H : Panic = Ok _ |- _ => discriminate H
  | H : res_bind _ _ = Ok _ |- _ =>
      apply res_bind_Ok in H; let a := fresh "a" in let Ha := fresh "Ha" in
      destruct H as (a & Ha & H)
  | H : map_err _ _ = Ok _ |- _ => apply map_err_Ok in H
  | H : expect_ok _ = Ok _ |- _ => apply expect_ok_Ok in H
  | H : ok_or _ _ = Ok _ |- _ => apply ok_or_Ok in H
  | H : expect _ = Ok _ |- _ => apply expect_Ok in H
  | H : uint_arith _ _ = Ok _ |- _ =>
      apply uint_arith_inv in H; destruct H as [? H]; subst
  | H : sint_arith _ _ = Ok _ |- _ =>
      apply sint_arith_inv in H; destruct H as [? H]; subst
  | H : to_uint _ _ = Some _ |- _ =>
      apply to_uint_Some in H; destruct H as [? H]; subst
  | H : to_sint _ _ = Some _ |- _ =>
      apply to_sint_Some in H; destruct H as [? H]; subst
  end.

(** [case_ifs] splits every boolean test of the goal and turns it into a
    linear-arithmetic fact. *)
Ltac case_ifs :=
  repeat match goal with
  | |- context [if ?b then _ else _] =>
      let H := fresh "Hif" in destruct b eqn:H
  end.
