(* ===== verification/Height.v ===== *)
(** * Block heights

    Model of [crates/zakura-chain/src/block/height.rs].  The newtype
    [Height(pub u32)] is its [u32], a [Z] in [0, 2^32); heights above
    [Height_MAX] are representable, as in the code, and the operations say what
    happens to them.  [HeightDiff] is an [i64]. *)

From stdpp Require Import base numbers list option.
From Stdlib Require Import ZArith Lia.
From S2P Require Import Prelude.
Local Open Scope Z_scope.

Module Height.

Definition MIN : Z := 0.
Definition MAX : Z := u32_max / 2.
Definition MAX_EXPIRY_HEIGHT : Z := 499999999.

Inductive HeightError := Overflow | Underflow.

(** The range of the representation type, and the documented range. *)
Definition is_u32 (h : Z) : Prop := 0 <= h < 2 ^ 32.
Definition is_i64 (d : Z) : Prop := - 2 ^ 63 <= d < 2 ^ 63.
Definition valid (h : Z) : Prop := MIN <= h <= MAX.

(** [TryFrom<u32>]; the argument is a [u32]. *)
Definition try_from_u32 (height : Z) : option Z :=
  if height <=? MAX then Some height else None.

(** [TryFrom<i64>]: only the representation range is checked. *)
Definition try_from_i64 (height : Z) : option Z := to_uint 32 height.

(** [TryIntoHeight] for [u64], [usize] and [i32]. *)
Definition try_into_height (n : Z) : option Z :=
  n32 ← to_uint 32 n; try_from_u32 n32.

(** [u32::from_str], on the bytes of the string. *)
Definition digit (b : Z) : option Z :=
  if (48 <=? b) && (b <=? 57) then Some (b - 48) else None.

Fixpoint parse_digits (bs : list Z) (acc : Z) : option Z :=
  match bs with
  | [] => Some acc
  | b :: bs =>
      d ← digit b;
      m ← to_uint 32 (acc * 10);
      a ← to_uint 32 (m + d);
      parse_digits bs a
  end.

Definition parse_u32 (bs : list Z) : option Z :=
  match bs with
  | [] => None
  | [43] | [45] => None
  | 43 :: bs => parse_digits bs 0
  | _ => parse_digits bs 0
  end.

Inductive ParseError := ExceedsMaximum | IntegerParse.

(** [FromStr] *)
Definition from_str (s : list Z) : res ParseError Z :=
  match parse_u32 s with
  | Some h => if h <=? MAX then Ok h else Err ExceedsMaximum
  | None => Err IntegerParse
  end.

(** [Sub<Height>]: the exact difference, always an [i64]. *)
Definition sub_height (self rhs : Z) : Z := self - rhs.

(** [Sub<HeightDiff>] *)
Definition sub_diff {E} (self rhs : Z) : res E (option Z) :=
  let? r := sint_arith 64 (self - rhs) in
  Ok (r32 ← to_uint 32 r; try_from_u32 r32).

(** [Add<HeightDiff>] *)
Definition add_diff {E} (self rhs : Z) : res E (option Z) :=
  let? r := sint_arith 64 (self + rhs) in
  Ok (r32 ← to_uint 32 r; try_from_u32 r32).

Definition next (self : Z) : res HeightError Z :=
  let? o := add_diff self 1 in ok_or Overflow o.

Definition previous (self : Z) : res HeightError Z :=
  let? o := sub_diff self 1 in ok_or Underflow o.

Definition is_min (self : Z) : bool := self =? MIN.

(** ** Lemmas *)

Lemma MAX_val : MAX = 2 ^ 31 - 1.
Proof. reflexivity. Qed.

Lemma bounded_cast r :
  (r32 ← to_uint 32 r; try_from_u32 r32)
  = if (0 <=? r) && (r <=? MAX) then Some r else None.
Proof.
  unfold to_uint, in_uint, try_from_u32. pose proof MAX_val.
  destruct (0 <=? r) eqn:H0, (r <? 2 ^ 32) eqn:H1; simpl; try done.
  destruct (Z.leb_spec r MAX); simpl; [lia|done].
Qed.

(** The arithmetic operators either overflow [i64] or return exactly the valid
    heights. *)
Lemma add_diff_spec {E} h d :
  add_diff (E := E) h d
  = if in_sint 64 (h + d)
    then Ok (if (0 <=? h + d) && (h + d <=? MAX) then Some (h + d) else None)
    else Panic.
Proof.
  unfold add_diff, sint_arith. destruct (in_sint 64 (h + d)); simpl; [|done].
  by rewrite bounded_cast.
Qed.

Lemma sub_diff_spec {E} h d :
  sub_diff (E := E) h d
  = if in_sint 64 (h - d)
    then Ok (if (0 <=? h - d) && (h - d <=? MAX) then Some (h - d) else None)
    else Panic.
Proof.
  unfold sub_diff, sint_arith. destruct (in_sint 64 (h - d)); simpl; [|done].
  by rewrite bounded_cast.
Qed.

Lemma next_valid h : valid h -> h < MAX -> next h = Ok (h + 1).
Proof.
  unfold valid, MIN, next. pose proof MAX_val. intros [? ?] ?.
  rewrite add_diff_spec. rewrite (proj2 (in_sint_spec 64 _)) by lia.
  rewrite (proj2 (andb_true_iff _ _)) by lia. done.
Qed.

Lemma previous_valid h : valid h -> 0 < h -> previous h = Ok (h - 1).
Proof.
  unfold valid, MIN, previous. pose proof MAX_val. intros [? ?] ?.
  rewrite sub_diff_spec. rewrite (proj2 (in_sint_spec 64 _)) by lia.
  rewrite (proj2 (andb_true_iff _ _)) by lia. done.
Qed.

(** On every pair of valid heights the difference and the addition are
    inverse, and neither overflows or leaves the valid range. *)
Lemma height_diff_roundtrip h1 h2 :
  valid h1 -> valid h2 ->
  is_i64 (sub_height h1 h2) /\
  add_diff (E := HeightError) h2 (sub_height h1 h2) = Ok (Some h1) /\
  sub_diff (E := HeightError) h1 (sub_height h1 h2) = Ok (Some h2).
Proof.
  unfold valid, MIN, is_i64, sub_height. pose proof MAX_val. intros [? ?] [? ?].
  rewrite add_diff_spec, sub_diff_spec.
  replace (h2 + (h1 - h2)) with h1 by lia.
  replace (h1 - (h1 - h2)) with h2 by lia.
  rewrite !(proj2 (in_sint_spec 64 _)), !(proj2 (andb_true_iff _ _)) by lia.
  repeat split; lia.
Qed.

(** ** Parsing *)

Definition digits_value (ds : list Z) (acc : Z) : Z :=
  fold_left (fun a d => a * 10 + d) ds acc.

Lemma digits_value_mono ds acc :
  Forall (fun d => 0 <= d <= 9) ds -> 0 <= acc -> acc <= digits_value ds acc.
Proof.
  intros H. revert acc. unfold digits_value.
  induction H as [|d ds Hd Hds IH]; intros acc Hacc; simpl; [lia|].
  specialize (IH (acc * 10 + d)). lia.
Qed.

(** A nonempty string of decimal digits parses to its value, and fails exactly
    when the value does not fit. *)
Lemma parse_digits_spec ds acc :
  Forall (fun d => 0 <= d <= 9) ds -> 0 <= acc < 2 ^ 32 ->
  parse_digits (map (Z.add 48) ds) acc = to_uint 32 (digits_value ds acc).
Proof.
  intros H. revert acc.
  induction H as [|d ds Hd Hds IH]; intros acc Hacc; cbn [map parse_digits].
  - unfold to_uint, in_uint, digits_value. simpl fold_left.
    by rewrite (proj2 (andb_true_iff _ _)) by lia.
  - unfold digit. rewrite (proj2 (andb_true_iff _ _)) by lia. cbn [mbind option_bind].
    replace (48 + d - 48) with d by lia.
    pose proof (digits_value_mono ds (acc * 10 + d) Hds) as Hm.
    assert (digits_value (d :: ds) acc = digits_value ds (acc * 10 + d)) as -> by done.
    assert (forall z, acc * 10 <= z -> z <= acc * 10 + d -> in_uint 32 z = false ->
              to_uint 32 (digits_value ds (acc * 10 + d)) = None) as Hover.
    { intros z Hz1 Hz2 Hf. unfold to_uint.
      destruct (in_uint 32 (digits_value _ _)) eqn:H3; [|done].
      apply in_uint_spec in H3. rewrite (proj2 (in_uint_spec 32 z)) in Hf by lia. done. }
    destruct (in_uint 32 (acc * 10)) eqn:H1;
      [|rewrite (Hover (acc * 10)) by (done || lia); unfold to_uint; by rewrite H1].
    destruct (in_uint 32 (acc * 10 + d)) eqn:H2.
    + unfold to_uint at 1 2. rewrite H1. cbn [mbind option_bind]. rewrite H2.
      apply IH. by apply in_uint_spec.
    + rewrite (Hover (acc * 10 + d)) by (done || lia). unfold to_uint. rewrite H1.
      cbn [mbind option_bind]. by rewrite H2.
Qed.

Lemma from_str_digits d ds :
  Forall (fun d => 0 <= d <= 9) (d :: ds) ->
  from_str (map (Z.add 48) (d :: ds))
  = let v := digits_value (d :: ds) 0 in
    if v <? 2 ^ 32 then (if v <=? MAX then Ok v else Err ExceedsMaximum)
    else Err IntegerParse.
Proof.
  intros H. unfold from_str.
  assert (parse_u32 (map (Z.add 48) (d :: ds)) = parse_digits (map (Z.add 48) (d :: ds)) 0) as ->.
  { inversion_clear H. cbn [map parse_u32].
    destruct (48 + d) as [|p|p] eqn:Hd; try lia.
    assert (p <> 43%positive /\ p <> 45%positive) as [? ?] by lia.
    repeat (destruct p as [p|p|]; try done; try lia); by destruct (map _ ds). }
  rewrite parse_digits_spec by (done || lia).
  pose proof (digits_value_mono (d :: ds) 0 H). unfold to_uint, in_uint. cbv zeta.
  set (v := digits_value (d :: ds) 0) in *.
  destruct (Z.leb_spec 0 v); [|lia]. cbn [andb].
  by destruct (v <? 2 ^ 32).
Qed.

End Height.
