(* ===== verification/Amount.v ===== *)
(** * Zatoshi amounts

    Model of [crates/zakura-chain/src/amount.rs].  [Amount<C>] is a record with
    the inner [i64] and a phantom constraint type [C]; the trait [Constraint] is
    a type class whose method is [valid_range], and its default method
    [validate] is a definition over it.  [i64], [u64] and [i128] values are [Z]
    with their ranges checked where the code checks them. *)

From stdpp Require Import base numbers list option.
From Stdlib Require Import ZArith Lia.
From S2P Require Import Prelude.
Local Open Scope Z_scope.

Module Amount.

Definition COIN : Z := 100000000.
Definition MAX_MONEY : Z := 21000000 * COIN.

Inductive Error :=
| ConstraintError (value : Z) (range : Z * Z)
| Convert (value : Z)
| MultiplicationOverflow (amount multiplier overflowing_result : Z)
| DivideByZero (amount : Z)
| SumOverflow (partial_sum : Z) (remaining_items : nat).

(** [Error::invalid_value] *)
Definition invalid_value (e : Error) : Z :=
  match e with
  | ConstraintError value _ => value
  | Convert value => value
  | MultiplicationOverflow _ _ overflowing_result => overflowing_result
  | DivideByZero amount => amount
  | SumOverflow partial_sum _ => partial_sum
  end.

(** The marker types and the trait. *)
Inductive NegativeAllowed := negative_allowed.
Inductive NonNegative := non_negative.
Inductive NegativeOrZero := negative_or_zero.

Class Constraint (C : Type) := valid_range : Z * Z.
#[export] Hint Mode Constraint ! : typeclass_instances.
#[export] Instance constraint_negative_allowed : Constraint NegativeAllowed :=
  (- MAX_MONEY, MAX_MONEY).
#[export] Instance constraint_non_negative : Constraint NonNegative := (0, MAX_MONEY).
#[export] Instance constraint_negative_or_zero : Constraint NegativeOrZero :=
  (- MAX_MONEY, 0).

Definition range_contains (r : Z * Z) (v : Z) : bool := (r.1 <=? v) && (v <=? r.2).

Definition validate (C : Type) `{Constraint C} (value : Z) : res Error Z :=
  let range := valid_range (C := C) in
  if negb (range_contains range value) then Err (ConstraintError value range)
  else Ok value.

Record Amount (C : Type) := mk { zatoshis : Z }.
Arguments mk {C} _.
Arguments zatoshis {C} _.

Section Operations.
Context {C : Type} `{Constraint C}.

(** [TryFrom<i32>] and [TryFrom<i64>]; the argument is an [i64]. *)
Definition try_from_i64 (value : Z) : res Error (Amount C) :=
  let? v := validate C value in Ok (mk v).

(** [TryFrom<u64>] *)
Definition try_from_u64 (value : Z) : res Error (Amount C) :=
  let? v := ok_or (Convert value) (to_sint 64 value) in
  let? v := validate C v in Ok (mk v).

(** [TryFrom<i128>] *)
Definition try_from_i128 (value : Z) : res Error (Amount C) :=
  let? v := ok_or (Convert value) (to_sint 64 value) in
  let? v := validate C v in Ok (mk v).

(** [Amount::zero]; [expect] on the conversion of 0 *)
Definition zero {E} : res E (Amount C) := expect_ok (try_from_i64 0).

Definition is_zero (a : Amount C) : bool := zatoshis a =? 0.

Definition to_bytes (a : Amount C) : list Z := le_bytes 8 (zatoshis a mod 2 ^ 64).

Definition from_bytes (bytes : list Z) : res Error (Amount C) :=
  try_from_i64 (sint_of_bits 64 (le_value bytes)).

(** [Add<Amount<C>>] *)
Definition add (self rhs : Amount C) : res Error (Amount C) :=
  let? value := expect (to_sint 64 (zatoshis self + zatoshis rhs)) in
  try_from_i64 value.

(** [Add<Amount<C>> for Result<Amount<C>>], and [AddAssign] on a result *)
Definition radd (self : res Error (Amount C)) (rhs : Amount C) : res Error (Amount C) :=
  let? lhs := self in add lhs rhs.

(** [Sub<Amount<C>>] *)
Definition sub (self rhs : Amount C) : res Error (Amount C) :=
  let? value := expect (to_sint 64 (zatoshis self - zatoshis rhs)) in
  try_from_i64 value.

(** [Sub<Amount<C>> for Result<Amount<C>>], and [SubAssign] on a result *)
Definition rsub (self : res Error (Amount C)) (rhs : Amount C) : res Error (Amount C) :=
  let? lhs := self in sub lhs rhs.

(** [Mul<u64>]: in [i128], any conversion error is reported as an overflow *)
Definition mul (self : Amount C) (rhs : Z) : res Error (Amount C) :=
  let? value := expect (to_sint 128 (zatoshis self * rhs)) in
  map_err (fun _ => MultiplicationOverflow (zatoshis self) rhs value)
    (try_from_i128 value).

(** [Div<u64>]: [i128] division truncates towards zero *)
Definition div (self : Amount C) (rhs : Z) : res Error (Amount C) :=
  let? quotient :=
    ok_or (DivideByZero (zatoshis self))
      (if rhs =? 0 then None else to_sint 128 (Z.quot (zatoshis self) rhs)) in
  expect_ok (try_from_i128 quotient).

(** [Iterator::try_fold] with [acc + amount]: the result and what the iterator
    still holds when it stops. *)
Fixpoint try_fold_add (acc : Amount C) (items : list (Amount C))
  : res Error (Amount C) * list (Amount C) :=
  match items with
  | [] => (Ok acc, [])
  | a :: items =>
      match add acc a with
      | Ok acc => try_fold_add acc items
      | Err e => (Err e, items)
      | Panic => (Panic, items)
      end
  end.

(** [Sum for Result<Amount<C>>] *)
Definition sum (items : list (Amount C)) : res Error (Amount C) :=
  let? z := zero in
  match try_fold_add z items with
  | (Ok s, _) => Ok s
  | (Err (ConstraintError value _), rest) => Err (SumOverflow value (length rest))
  | (Err _, _) => Panic
  | (Panic, _) => Panic
  end.

(** [Neg] *)
Definition neg {E} (self : Amount C) : res E (Amount NegativeAllowed) :=
  let? v := sint_arith 64 (- zatoshis self) in
  expect_ok (let? w := validate NegativeAllowed v in Ok (mk w)).

End Operations.

(** [Amount::constrain] *)
Definition constrain {C} (C2 : Type) `{Constraint C2} (self : Amount C)
  : res Error (Amount C2) := try_from_i64 (zatoshis self).

(** [Amount::checked_sub] *)
Definition checked_sub {C C2} (self : Amount C) (rhs : Amount C2)
  : option (Amount NegativeAllowed) :=
  match to_sint 64 (zatoshis self - zatoshis rhs) with
  | Some v => match try_from_i64 (C := NegativeAllowed) v with Ok a => Some a | _ => None end
  | None => None
  end.

(** [Amount::<NonNegative>::new], [new_from_zec] and [div_exact] *)
Definition new {E} (z : Z) : res E (Amount NonNegative) :=
  let? _ := rust_assert ((z <=? MAX_MONEY) && (0 <=? z)) in Ok (mk z).

Definition new_from_zec {E} (zec_value : Z) : res E (Amount NonNegative) :=
  let? z := expect (to_sint 64 (zec_value * COIN)) in new z.

Definition div_exact {E} (self : Amount NonNegative) (rhs : Z) : res E (Amount NonNegative) :=
  let? result :=
    expect (if rhs =? 0 then None else to_sint 64 (Z.quot (zatoshis self) rhs)) in
  if negb (Z.rem (zatoshis self) rhs =? 0) then Panic else Ok (mk result).

(** [ZcashSerialize] and [ZcashDeserialize] for [Amount<NonNegative>] and
    [Amount<NegativeAllowed>]; the readers take the first eight bytes. *)
Definition serialize_non_negative {E} (a : Amount NonNegative) : res E (list Z) :=
  let? v := expect (to_uint 64 (zatoshis a)) in Ok (le_bytes 8 v).

Definition serialize_negative_allowed (a : Amount NegativeAllowed) : list Z :=
  le_bytes 8 (zatoshis a mod 2 ^ 64).

Inductive ReadError := UnexpectedEof | AmountError (e : Error).

Definition read_u64 (bs : list Z) : res ReadError (Z * list Z) :=
  if (8 <=? length bs)%nat then Ok (le_value (take 8 bs), drop 8 bs) else Err UnexpectedEof.

Definition deserialize_non_negative (bs : list Z) : res ReadError (Amount NonNegative * list Z) :=
  let? (v, rest) := read_u64 bs in
  let? a := map_err AmountError (try_from_u64 v) in Ok (a, rest).

Definition deserialize_negative_allowed (bs : list Z)
  : res ReadError (Amount NegativeAllowed * list Z) :=
  let? (v, rest) := read_u64 bs in
  let? a := map_err AmountError (try_from_i64 (sint_of_bits 64 v)) in Ok (a, rest).

(** ** Well-formed amounts

    The inner field is private: every amount comes out of a validated
    constructor, so it lies in the range of its constraint. *)
Definition wf {C} `{Constraint C} (a : Amount C) : Prop :=
  range_contains (valid_range (C := C)) (zatoshis a) = true.

(** What the proofs use of a constraint: zero is valid and the bounds are within
    the monetary base. *)
Class ConstraintLaws (C : Type) `{Constraint C} : Prop := {
  range_lo : - MAX_MONEY <= (valid_range (C := C)).1 <= 0;
  range_hi : 0 <= (valid_range (C := C)).2 <= MAX_MONEY;
}.

Lemma MAX_MONEY_val : MAX_MONEY = 2100000000000000.
Proof. reflexivity. Qed.

#[export] Instance negative_allowed_laws : ConstraintLaws NegativeAllowed.
Proof. split; vm_compute; split; discriminate. Qed.
#[export] Instance non_negative_laws : ConstraintLaws NonNegative.
Proof. split; vm_compute; split; discriminate. Qed.
#[export] Instance negative_or_zero_laws : ConstraintLaws NegativeOrZero.
Proof. split; vm_compute; split; discriminate. Qed.

Lemma range_contains_spec r v : range_contains r v = true <-> r.1 <= v <= r.2.
Proof. unfold range_contains. lia. Qed.

Section Lemmas.
Context {C : Type} `{HC : Constraint C} {HL : ConstraintLaws C}.

Abbreviation lo := (valid_range (C := C)).1.
Abbreviation hi := (valid_range (C := C)).2.

Lemma wf_range (a : Amount C) : wf a <-> lo <= zatoshis a <= hi.
Proof. apply range_contains_spec. Qed.

Lemma wf_money (a : Amount C) : wf a -> - MAX_MONEY <= zatoshis a <= MAX_MONEY.
Proof. rewrite wf_range. pose proof (range_lo (C := C)). pose proof (range_hi (C := C)). lia. Qed.

Lemma try_from_i64_spec v :
  try_from_i64 (C := C) v
  = if range_contains (lo, hi) v then Ok (mk v) else Err (ConstraintError v (lo, hi)).
Proof.
  unfold try_from_i64, validate. rewrite <- surjective_pairing.
  by destruct (range_contains _ v).
Qed.

Lemma try_from_i64_Ok v a :
  try_from_i64 (C := C) v = Ok a <-> a = mk v /\ lo <= v <= hi.
Proof.
  rewrite try_from_i64_spec. destruct (range_contains (lo, hi) v) eqn:Hr.
  - apply range_contains_spec in Hr. split; [intros [= <-]; done|by intros [-> _]].
  - split; [done|]. intros [_ Hv].
    by rewrite (proj2 (range_contains_spec (lo, hi) v)) in Hr.
Qed.

Lemma try_from_i128_spec v :
  - 2 ^ 63 <= v < 2 ^ 63 -> try_from_i128 (C := C) v = try_from_i64 v.
Proof.
  intros Hv. unfold try_from_i128, to_sint.
  by rewrite (proj2 (in_sint_spec 64 v)).
Qed.

Lemma zero_Ok {E} : zero (C := C) (E := E) = Ok (mk 0).
Proof.
  unfold zero. rewrite (proj2 (try_from_i64_Ok 0 (mk 0))); [done|].
  pose proof (range_lo (C := C)). pose proof (range_hi (C := C)). split; [done|lia].
Qed.

Lemma add_spec (a b : Amount C) :
  wf a -> wf b -> add a b = try_from_i64 (zatoshis a + zatoshis b).
Proof.
  intros Ha%wf_money Hb%wf_money. rewrite MAX_MONEY_val in *.
  unfold add, to_sint. rewrite (proj2 (in_sint_spec 64 _)) by lia. done.
Qed.

Lemma sub_spec (a b : Amount C) :
  wf a -> wf b -> sub a b = try_from_i64 (zatoshis a - zatoshis b).
Proof.
  intros Ha%wf_money Hb%wf_money. rewrite MAX_MONEY_val in *.
  unfold sub, to_sint. rewrite (proj2 (in_sint_spec 64 _)) by lia. done.
Qed.

Lemma try_from_i64_wf v a : try_from_i64 (C := C) v = Ok a -> wf a.
Proof. intros [-> Hv]%try_from_i64_Ok. by apply wf_range. Qed.

Lemma zero_wf : wf (C := C) (mk 0).
Proof. pose proof (range_lo (C := C)). pose proof (range_hi (C := C)). apply wf_range. simpl. lia. Qed.

Lemma neg_spec {E} (a : Amount C) : wf a -> neg (E := E) a = Ok (mk (- zatoshis a)).
Proof.
  intros Ha%wf_money. unfold neg. rewrite MAX_MONEY_val in *.
  run_arith.
  unfold validate.
  rewrite (proj2 (range_contains_spec (valid_range (C := NegativeAllowed)) (- zatoshis a)));
    [done|]. change (- MAX_MONEY <= - zatoshis a <= MAX_MONEY). rewrite MAX_MONEY_val. lia.
Qed.

(** Division by a positive integer always stays within the constraint: the
    [expect] in [Div] does not fire. *)
Lemma div_spec (a : Amount C) n :
  wf a -> 0 <= n < 2 ^ 64 ->
  div a n = if n =? 0 then Err (DivideByZero (zatoshis a))
            else Ok (mk (Z.quot (zatoshis a) n)).
Proof.
  intros Ha Hn. unfold div. destruct (Z.eqb_spec n 0) as [->|Hn0]; [done|].
  pose proof (wf_money _ Ha) as Hm. apply wf_range in Ha.
  pose proof (range_lo (C := C)). pose proof (range_hi (C := C)). rewrite MAX_MONEY_val in *.
  pose proof (quot_between (zatoshis a) n ltac:(lia)) as Hq.
  unfold to_sint. rewrite (proj2 (in_sint_spec 128 _)) by lia. cbn [ok_or res_bind].
  rewrite try_from_i128_spec by lia.
  assert (lo <= Z.quot (zatoshis a) n <= hi) as Hr by lia.
  rewrite (proj2 (try_from_i64_Ok _ _) (conj eq_refl Hr)). done.
Qed.

Lemma mul_Ok (a b : Amount C) n :
  wf a -> 0 <= n < 2 ^ 64 ->
  mul a n = Ok b <-> b = mk (zatoshis a * n) /\ lo <= zatoshis a * n <= hi.
Proof.
  intros Ha Hn. unfold mul. pose proof (wf_money _ Ha) as Hm. rewrite MAX_MONEY_val in *.
  unfold to_sint. rewrite (proj2 (in_sint_spec 128 _)) by nia. cbn [expect res_bind].
  rewrite map_err_Ok. unfold try_from_i128, to_sint.
  destruct (in_sint 64 (zatoshis a * n)) eqn:Hin; cbn [ok_or res_bind].
  - apply (try_from_i64_Ok (zatoshis a * n)).
  - pose proof (range_lo (C := C)). pose proof (range_hi (C := C)). rewrite MAX_MONEY_val in *.
    split; [done|]. intros [_ Hr]. rewrite (proj2 (in_sint_spec 64 _)) in Hin by lia. done.
Qed.

(** Multiplication never panics: it is the exact product or an overflow error. *)
Lemma mul_total (a : Amount C) n :
  wf a -> 0 <= n < 2 ^ 64 ->
  mul a n = if range_contains (lo, hi) (zatoshis a * n) then Ok (mk (zatoshis a * n))
            else Err (MultiplicationOverflow (zatoshis a) n (zatoshis a * n)).
Proof.
  intros Ha Hn. destruct (range_contains (lo, hi) (zatoshis a * n)) eqn:Hr.
  { apply range_contains_spec in Hr. by apply mul_Ok. }
  unfold mul. pose proof (wf_money _ Ha) as Hm. rewrite MAX_MONEY_val in *.
  unfold to_sint. rewrite (proj2 (in_sint_spec 128 _)) by nia. cbn [expect res_bind].
  unfold try_from_i128, to_sint. destruct (in_sint 64 _); cbn [ok_or res_bind map_err]; [|done].
  change (map_err ?f (let? v := validate C ?x in Ok (mk v)))
    with (map_err f (try_from_i64 (C := C) x)).
  rewrite try_from_i64_spec. by rewrite Hr.
Qed.

(** The total of a list, and its partial sums. *)
Definition total (items : list (Amount C)) : Z :=
  fold_right (fun a t => zatoshis a + t) 0 items.

Definition partial_sum (n : nat) (items : list (Amount C)) : Z := total (take n items).

(** The reference for [Sum]: the first partial sum out of range decides. *)
Definition sum_outcome (acc : Z) (items : list (Amount C)) (r : res Error (Amount C)) : Prop :=
  match r with
  | Ok s =>
      zatoshis s = acc + total items /\
      forall n, (n <= length items)%nat -> lo <= acc + partial_sum n items <= hi
  | Err (SumOverflow p k) =>
      exists n, (n + k = length items)%nat /\ p = acc + partial_sum n items /\
        ~ (lo <= p <= hi) /\
        forall m, (m < n)%nat -> lo <= acc + partial_sum m items <= hi
  | _ => False
  end.

Definition fold_result (f : res Error (Amount C) * list (Amount C)) : res Error (Amount C) :=
  match f with
  | (Ok s, _) => Ok s
  | (Err (ConstraintError value _), rest) => Err (SumOverflow value (length rest))
  | (Err _, _) => Panic
  | (Panic, _) => Panic
  end.

Lemma total_cons a items : total (a :: items) = zatoshis a + total items.
Proof. reflexivity. Qed.

Lemma total_app items items' : total (items ++ items') = total items + total items'.
Proof.
  induction items as [|a items IH]; [done|]. cbn [app]. rewrite !total_cons, IH. lia.
Qed.

Lemma partial_sum_0 items : partial_sum 0 items = 0.
Proof. reflexivity. Qed.

Lemma partial_sum_S n a items : partial_sum (S n) (a :: items) = zatoshis a + partial_sum n items.
Proof. reflexivity. Qed.

Lemma try_fold_add_outcome acc items :
  wf acc -> Forall wf items ->
  sum_outcome (zatoshis acc) items (fold_result (try_fold_add acc items)).
Proof.
  intros Hacc Hit. revert acc Hacc.
  induction Hit as [|a items Ha Hit IH]; intros acc Hacc; pose proof Hacc as Hacc'%wf_range.
  { simpl. split; [lia|]. intros [|n] Hn; [|lia]. rewrite partial_sum_0. lia. }
  cbn [try_fold_add]. rewrite add_spec, try_from_i64_spec by done.
  destruct (range_contains _ _) eqn:Hr.
  - specialize (IH (mk (zatoshis acc + zatoshis a)) Hr). cbn [zatoshis] in IH.
    destruct (fold_result _) as [s|e|]; [|destruct e|]; try done.
    + destruct IH as [Hs IH]. split; [rewrite total_cons; lia|]. intros [|n] Hn.
      * rewrite partial_sum_0. lia.
      * rewrite partial_sum_S. specialize (IH n). cbn [length] in Hn. lia.
    + destruct IH as (n & Hlen & -> & Hnot & Hm). exists (S n). split; [cbn; lia|].
      rewrite partial_sum_S. split; [lia|]. split; [done|]. intros [|m] Hlt.
      * rewrite partial_sum_0. lia.
      * rewrite partial_sum_S. specialize (Hm m). lia.
  - exists 1%nat. split; [done|]. rewrite partial_sum_S, partial_sum_0.
    split; [lia|]. split; [intros Hc; by rewrite (proj2 (range_contains_spec (lo, hi) _)) in Hr|].
    intros [|m] Hm; [|lia]. rewrite partial_sum_0. lia.
Qed.

Lemma sum_fold_result items : sum items = fold_result (try_fold_add (C := C) (mk 0) items).
Proof. unfold sum. by rewrite zero_Ok. Qed.

Lemma sum_spec items : Forall wf items -> sum_outcome 0 items (sum items).
Proof.
  intros Hit. rewrite sum_fold_result.
  exact (try_fold_add_outcome (mk 0) items zero_wf Hit).
Qed.

End Lemmas.

Lemma wf_non_negative (a : Amount NonNegative) : wf a <-> 0 <= zatoshis a <= MAX_MONEY.
Proof. rewrite wf_range. reflexivity. Qed.

Lemma wf_negative_allowed (a : Amount NegativeAllowed) : wf a <-> - MAX_MONEY <= zatoshis a <= MAX_MONEY.
Proof. rewrite wf_range. reflexivity. Qed.

Lemma try_from_i64_non_negative v :
  0 <= v <= MAX_MONEY -> try_from_i64 (C := NonNegative) v = Ok (mk v).
Proof. intros Hv. by apply try_from_i64_Ok. Qed.

(** Summing well-formed amounts never panics (the [unreachable!] arm is dead):
    it returns the exact total when every partial sum is in range, and otherwise
    reports the first partial sum that leaves the range together with the number
    of items not yet read. *)
Lemma amount_sum_exact {C} `{HC : Constraint C} {HL : ConstraintLaws C} (items : list (Amount C)) :
  Forall wf items -> sum_outcome 0 items (sum items).
Proof. apply sum_spec. Qed.

(** For non-negative amounts the partial sums grow, so the sum succeeds exactly
    when the total fits in the monetary base. *)
Lemma total_nonneg (items : list (Amount NonNegative)) :
  Forall wf items -> 0 <= total items.
Proof.
  induction 1 as [|a items Ha Hit IH]; [done|].
  rewrite total_cons. apply wf_range in Ha. cbn in Ha. lia.
Qed.

Lemma partial_sum_le (items : list (Amount NonNegative)) n :
  Forall wf items -> 0 <= partial_sum n items <= total items.
Proof.
  intros Hit. unfold partial_sum.
  pose proof (total_nonneg (take n items) (Forall_take _ n _ Hit)).
  pose proof (total_nonneg (drop n items) (Forall_drop _ n _ Hit)).
  assert (total items = total (take n items) + total (drop n items)); [|lia].
  rewrite <- (take_drop n items) at 1. apply total_app.
Qed.

Lemma sum_non_negative_Ok (items : list (Amount NonNegative)) s :
  Forall wf items ->
  sum items = Ok s <-> s = mk (total items) /\ total items <= MAX_MONEY.
Proof.
  intros Hit. pose proof (sum_spec items Hit) as Hs.
  pose proof (partial_sum_le items) as Hp.
  destruct (sum items) as [s'|e|]; cbn in Hs; [|destruct e|]; try done.
  - destruct Hs as [Hv Hr]. specialize (Hr (length items) ltac:(lia)).
    unfold partial_sum in Hr. rewrite firstn_all in Hr. cbn in Hr.
    destruct s' as [v]; cbn in Hv; subst v. split.
    + intros [= <-]. split; [f_equal; lia|lia].
    + intros [-> _]. done.
  - destruct Hs as (n & _ & -> & Hnot & _). specialize (Hp n Hit). split; [done|].
    intros [_ Ht]. exfalso. apply Hnot. cbn. lia.
Qed.

(** An outcome that does not panic and whose value is well formed. *)
Definition sound {C} `{Constraint C} (r : res Error (Amount C)) : Prop :=
  match r with Ok a => wf a | Err _ => True | Panic => False end.

Lemma try_from_i64_sound {C} `{HC : Constraint C} {HL : ConstraintLaws C} v :
  sound (try_from_i64 (C := C) v).
Proof. rewrite try_from_i64_spec. by destruct (range_contains _ v) eqn:Hr. Qed.

(** The private-field invariant.  Every operation on well-formed amounts
    avoids all of its [expect]s and returns a well-formed amount or an error
    value: addition and subtraction stay within [i64], the product within
    [i128], the quotient within the constraint, and the negation is always a
    valid signed amount. *)
Lemma amount_operations_sound {C} `{HC : Constraint C} {HL : ConstraintLaws C}
  (a b : Amount C) (n : Z) :
  wf a -> wf b -> 0 <= n < 2 ^ 64 ->
  sound (add a b) /\ sound (sub a b) /\ sound (mul a n) /\ sound (div a n) /\
  neg (E := Error) a = Ok (mk (- zatoshis a)) /\ wf (C := NegativeAllowed) (mk (- zatoshis a)).
Proof.
  intros Ha Hb Hn. rewrite add_spec, sub_spec by done.
  repeat split; try apply try_from_i64_sound; try by apply neg_spec.
  - rewrite mul_total by done. by destruct (range_contains _ _) eqn:Hr.
  - rewrite div_spec by done.
    destruct (Z.eqb_spec n 0); [done|].
    cbn. apply wf_range. cbn. pose proof Ha as Ha'%wf_range.
    pose proof (range_lo (C := C)). pose proof (range_hi (C := C)).
    pose proof (quot_between (zatoshis a) n ltac:(lia)). lia.
  - apply wf_range. cbn. pose proof (wf_money _ Ha). lia.
Qed.

Lemma bytes_value_roundtrip z : 0 <= z < 2 ^ 64 -> le_value (le_bytes 8 z) = z.
Proof.
  intros Hz. rewrite le_value_le_bytes. change (256 ^ Z.of_nat 8) with (2 ^ 64).
  by apply Z.mod_small.
Qed.

Lemma bits_of_sint_of_bits z :
  0 <= z < 2 ^ 64 -> sint_of_bits 64 z mod 2 ^ 64 = z.
Proof.
  intros Hz. unfold sint_of_bits. destruct (Z.ltb_spec z (2 ^ (64 - 1))).
  - by apply Z.mod_small.
  - replace (z - 2 ^ 64) with (z + (-1) * 2 ^ 64) by lia.
    rewrite Z.mod_add by lia. by apply Z.mod_small.
Qed.

Lemma from_to_bytes {C} `{HC : Constraint C} {HL : ConstraintLaws C} (a : Amount C) :
  wf a -> from_bytes (to_bytes a) = Ok a.
Proof.
  intros Ha. unfold from_bytes, to_bytes.
  pose proof (wf_money _ Ha) as Hm. rewrite MAX_MONEY_val in Hm.
  rewrite bytes_value_roundtrip by (apply Z.mod_pos_bound; lia).
  rewrite sint_of_bits_mod by lia. apply try_from_i64_Ok.
  split; [by destruct a|by apply wf_range].
Qed.

(** The 8-byte little-endian encoding is exact in both directions: every
    well-formed amount is read back, and whatever decodes successfully is the
    encoding of the amount it decodes to (no second encoding of a value). *)
Lemma amount_bytes_roundtrip {C} `{HC : Constraint C} {HL : ConstraintLaws C} :
  (forall a : Amount C, wf a -> from_bytes (to_bytes a) = Ok a) /\
  (forall (bs : list Z) (a : Amount C),
     Forall is_byte bs /\ length bs = 8%nat /\ from_bytes bs = Ok a -> wf a /\ to_bytes a = bs).
Proof.
  split.
  - apply from_to_bytes.
  - intros bs a (Hb & Hl & Hd). unfold from_bytes in Hd.
    split; [by apply try_from_i64_wf in Hd|].
    apply try_from_i64_Ok in Hd as [-> _]. unfold to_bytes. cbn [zatoshis].
    pose proof (le_value_bound bs Hb) as Hv. rewrite Hl in Hv.
    change (256 ^ Z.of_nat 8) with (2 ^ 64) in Hv.
    rewrite bits_of_sint_of_bits by done. rewrite <- Hl. by apply le_bytes_le_value.
Qed.

(** The stream encodings of the two serializable constraints round trip, and the
    reader leaves the rest of the input. *)
Lemma serialize_non_negative_roundtrip (a : Amount NonNegative) rest :
  wf a -> exists bs, serialize_non_negative (E := ReadError) a = Ok bs /\
    deserialize_non_negative (bs ++ rest) = Ok (a, rest).
Proof.
  intros Ha. pose proof (wf_money _ Ha) as Hm. rewrite MAX_MONEY_val in Hm.
  pose proof Ha as Hr%wf_range. cbn in Hr.
  exists (le_bytes 8 (zatoshis a)). unfold serialize_non_negative, to_uint.
  rewrite (proj2 (in_uint_spec 64 _)) by lia. split; [done|].
  unfold deserialize_non_negative, read_u64.
  rewrite length_app, length_le_bytes. cbn [Nat.add Nat.leb res_bind].
  rewrite (take_app_length' _ _ 8), (drop_app_length' _ _ 8) by (by rewrite length_le_bytes).
  rewrite bytes_value_roundtrip by lia. unfold try_from_u64, to_sint.
  rewrite (proj2 (in_sint_spec 64 _)) by lia. cbn [ok_or res_bind].
  unfold validate. unfold wf in Ha. rewrite Ha. cbn. by destruct a.
Qed.

End Amount.
