(* ===== verification/BTree.v ===== *)
(** * Ordered maps and binary search

    [BTreeMap<K, V>] with an integer key is its sorted list of entries: keys
    strictly ascending.  The file has the operations of the standard library
    that the components use ([insert], [collect], [get], [range(..=k).next_back],
    [split_off], [extend], [remove], ...) with their laws, and the binary search
    loop that several functions write out. *)

From stdpp Require Import base numbers list option sets sorting.
From Stdlib Require Import ZArith Lia.
From S2P Require Import Prelude.
Local Open Scope Z_scope.

Section BTree.
Context {V : Type}.
Implicit Types (m : list (Z * V)) (k : Z) (v : V).

(** [BTreeMap::insert]: an existing entry is replaced in place. *)
Fixpoint bt_insert k v m : list (Z * V) :=
  match m with
  | [] => [(k, v)]
  | (k', v') :: m' =>
      if k <? k' then (k, v) :: m
      else if k =? k' then (k, v) :: m'
      else (k', v') :: bt_insert k v m'
  end.

(** [Iterator::collect] and [Extend::extend]: entries in order, later ones win. *)
Definition bt_extend m (l : list (Z * V)) : list (Z * V) :=
  fold_left (fun m kv => bt_insert kv.1 kv.2 m) l m.

Definition bt_collect (l : list (Z * V)) : list (Z * V) := bt_extend [] l.

(** [BTreeMap::get] and [contains_key] *)
Fixpoint bt_get k m : option V :=
  match m with
  | [] => None
  | (k', v) :: m' => if k =? k' then Some v else bt_get k m'
  end.

Definition bt_contains_key k m : bool :=
  match bt_get k m with Some _ => true | None => false end.

(** [range(..=k).next_back()] *)
Fixpoint bt_last_le k m : option (Z * V) :=
  match m with
  | [] => None
  | (k', v) :: m' =>
      if k' <=? k then
        match bt_last_le k m' with Some e => Some e | None => Some (k', v) end
      else None
  end.

(** [range((Excluded(k), Unbounded)).next()] *)
Fixpoint bt_first_gt k m : option (Z * V) :=
  match m with
  | [] => None
  | (k', v) :: m' => if k <? k' then Some (k', v) else bt_first_gt k m'
  end.

(** [split_off(&k)]: what stays (keys below [k]) and what is returned. *)
Definition bt_split_off k m : list (Z * V) * list (Z * V) :=
  (filter (fun kv => kv.1 < k) m, filter (fun kv => k <= kv.1) m).

(** [BTreeMap::remove] *)
Definition bt_remove k m : list (Z * V) := filter (fun kv => kv.1 <> k) m.

(** Keys strictly ascending. *)
Definition bt_wf m : Prop := StronglySorted Z.lt m.*1.

Lemma bt_wf_cons k v m :
  bt_wf ((k, v) :: m) <-> bt_wf m /\ Forall (fun kv => k < kv.1) m.
Proof.
  unfold bt_wf. cbn. split.
  - intros H. inversion_clear H. split; [done|]. by rewrite Forall_fmap in *.
  - intros [Hm Hk]. constructor; [done|]. by rewrite Forall_fmap.
Qed.

Lemma bt_insert_bound k0 k v m :
  k0 < k -> Forall (fun kv => k0 < kv.1) m -> Forall (fun kv => k0 < kv.1) (bt_insert k v m).
Proof.
  intros Hk Hm. induction Hm as [|[k' v'] m Hk' Hm IH]; cbn; [by repeat constructor|].
  case_ifs; repeat constructor; auto.
Qed.

Lemma bt_insert_last k v m : Forall (fun kv => kv.1 < k) m -> bt_insert k v m = m ++ [(k, v)].
Proof.
  induction 1 as [|[j c] m Hj _ IH]; [done|]. cbn in *.
  rewrite (proj2 (Z.ltb_ge k j)), (proj2 (Z.eqb_neq k j)) by lia. by rewrite IH.
Qed.

Lemma bt_insert_wf k v m : bt_wf m -> bt_wf (bt_insert k v m).
Proof.
  induction m as [|[k' v'] m IH]; intros Hm; cbn.
  { apply bt_wf_cons. split; [constructor|constructor]. }
  apply bt_wf_cons in Hm as [Hm Hk']. case_ifs.
  - apply bt_wf_cons. split; [by apply bt_wf_cons|].
    constructor; [cbn; lia|]. eapply Forall_impl; [exact Hk'|]. cbn. lia.
  - apply bt_wf_cons. split; [done|]. eapply Forall_impl; [exact Hk'|]. cbn. lia.
  - apply bt_wf_cons. split; [by apply IH|]. apply bt_insert_bound; [lia|done].
Qed.

(** Removing a fresh insertion restores the map. *)
Lemma bt_remove_insert k v m : Forall (fun kv => kv.1 <> k) m -> bt_remove k (bt_insert k v m) = m.
Proof.
  unfold bt_remove. induction 1 as [|[k' v'] m Hk Hm IH]; cbn [bt_insert fst] in *.
  { rewrite filter_cons. cbn [fst]. by rewrite decide_False by (intros []; done). }
  assert (Hid : filter (fun kv : Z * V => kv.1 <> k) m = m).
  { clear -Hm. induction Hm; [done|]. rewrite filter_cons. rewrite decide_True by done. by f_equal. }
  destruct (Z.ltb_spec k k'), (Z.eqb_spec k k'); try (exfalso; congruence).
  - rewrite !filter_cons. cbn [fst]. rewrite decide_False by (intros []; done).
    rewrite decide_True by done. by f_equal.
  - rewrite !filter_cons. cbn [fst]. rewrite decide_True by done. by rewrite IH.
Qed.

Lemma bt_extend_wf m l : bt_wf m -> bt_wf (bt_extend m l).
Proof.
  unfold bt_extend. revert m. induction l as [|kv l IH]; intros m Hm; cbn; [done|].
  by apply IH, bt_insert_wf.
Qed.

Lemma bt_collect_wf l : bt_wf (bt_collect l).
Proof. apply bt_extend_wf. constructor. Qed.

Lemma bt_get_insert k v m k' :
  bt_wf m -> bt_get k' (bt_insert k v m) = if k' =? k then Some v else bt_get k' m.
Proof.
  induction m as [|[j w] m IH]; intros Hm; cbn; [done|].
  apply bt_wf_cons in Hm as [Hm _].
  destruct (Z.ltb_spec k j), (Z.eqb_spec k j); try lia; cbn; [done|..].
  - subst j. by destruct (k' =? k).
  - rewrite IH by done. destruct (Z.eqb_spec k' j), (Z.eqb_spec k' k); try done. lia.
Qed.

Lemma bt_get_Some k v m : bt_wf m -> bt_get k m = Some v <-> (k, v) ∈ m.
Proof.
  induction m as [|[j w] m IH]; intros Hm; cbn.
  { split; [done|]. intros H. inversion H. }
  apply bt_wf_cons in Hm as [Hm Hj]. rewrite elem_of_cons.
  destruct (Z.eqb_spec k j) as [->|Hne].
  - split; [intros [= ->]; by left|]. intros [[= ->]|Hin]; [done|].
    rewrite Forall_forall in Hj. specialize (Hj _ Hin). cbn in Hj. lia.
  - rewrite IH by done. split; [by right|]. intros [[= -> ->]|?]; done.
Qed.

Lemma bt_wf_app m1 m2 :
  bt_wf (m1 ++ m2) <-> bt_wf m1 /\ bt_wf m2 /\ forall a b, a ∈ m1 -> b ∈ m2 -> a.1 < b.1.
Proof.
  induction m1 as [|[k v] m1 IH]; cbn.
  { split; [|by intros (_ & ? & _)]. intros H. split; [constructor|]. split; [done|].
    intros a b Ha. inversion Ha. }
  rewrite !bt_wf_cons, IH, Forall_app, !Forall_forall. set_solver.
Qed.

(** An ordered map is its lookups. *)
Lemma bt_ext m1 m2 : bt_wf m1 -> bt_wf m2 -> (forall k, bt_get k m1 = bt_get k m2) -> m1 = m2.
Proof.
  intros H1 H2 Heq. unfold bt_wf in *.
  assert (Hin : forall kv, kv ∈ m1 <-> kv ∈ m2).
  { intros [k v]. rewrite <- !bt_get_Some by done. by rewrite Heq. }
  clear Heq. revert m2 H2 Hin.
  induction m1 as [|[k v] m1 IH]; intros [|[k' v'] m2] H2 Hin; [done|set_solver..|].
  apply bt_wf_cons in H1 as [H1 Hk], H2 as [H2 Hk'].
  rewrite Forall_forall in Hk, Hk'.
  assert ((k, v) = (k', v')) as [= -> ->].
  { assert ((k, v) ∈ (k', v') :: m2) as [?|Hv]%elem_of_cons by set_solver; [done|].
    assert ((k', v') ∈ (k, v) :: m1) as [?|Hv']%elem_of_cons by set_solver; [done|].
    specialize (Hk _ Hv'). specialize (Hk' _ Hv). cbn in *. lia. }
  f_equal. apply IH; [done|done|]. intros kv. specialize (Hin kv). set_unfold.
  split; intros Hkv.
  - destruct (proj1 Hin (or_intror Hkv)) as [->|]; [|done]. specialize (Hk _ Hkv). cbn in Hk. lia.
  - destruct (proj2 Hin (or_intror Hkv)) as [->|]; [|done]. specialize (Hk' _ Hkv). cbn in Hk'. lia.
Qed.

Lemma bt_get_filter (P : Z -> Prop) {H : forall k, Decision (P k)} k m :
  bt_get k (filter (fun kv => P kv.1) m) = if decide (P k) then bt_get k m else None.
Proof.
  induction m as [|[j w] m IH]; [by destruct (decide _)|].
  rewrite filter_cons. cbn [fst]. destruct (decide (P j)) as [Hj|Hj]; cbn [bt_get]; rewrite IH.
  - destruct (Z.eqb_spec k j) as [->|]; [by rewrite decide_True|done].
  - destruct (Z.eqb_spec k j) as [->|]; [rewrite !(decide_False (P := P j)) by exact Hj; reflexivity|done].
Qed.

Lemma bt_filter_wf (P : Z * V -> Prop) `{!forall kv, Decision (P kv)} m : bt_wf m -> bt_wf (filter P m).
Proof.
  induction m as [|[j w] m IH]; intros Hm; [done|]. apply bt_wf_cons in Hm as [Hm Hj].
  rewrite filter_cons. destruct (decide _); [|by apply IH]. apply bt_wf_cons. split; [by apply IH|].
  rewrite Forall_forall in Hj |- *. intros x [_ Hx]%list_elem_of_filter. by apply Hj.
Qed.

Lemma bt_get_remove k k' m : bt_get k' (bt_remove k m) = if k' =? k then None else bt_get k' m.
Proof.
  unfold bt_remove. etrans; [apply (bt_get_filter (fun j => j <> k) (H := fun j => not_dec (decide_rel eq j k)))|].
  destruct (Z.eqb_spec k' k); [by rewrite decide_False by lia|by rewrite decide_True].
Qed.

Lemma bt_remove_wf k m : bt_wf m -> bt_wf (bt_remove k m).
Proof. apply bt_filter_wf. Qed.

Lemma bt_last_max k v m :
  bt_wf m -> (k, v) ∈ m -> (forall kv, kv ∈ m -> kv.1 <= k) -> last m = Some (k, v).
Proof.
  intros Hm Hin Hmax. destruct (last m) as [[k' v']|] eqn:Hlast.
  - apply last_Some in Hlast as [l ->]. apply bt_wf_app in Hm as (_ & _ & Hlt).
    apply elem_of_app in Hin as [Hin|Hin]; [|set_solver].
    specialize (Hlt _ (k', v') Hin ltac:(set_solver)). specialize (Hmax (k', v') ltac:(set_solver)).
    cbn in *. lia.
  - apply last_None in Hlast as ->. inversion Hin.
Qed.

Lemma bt_last_le_None k m :
  bt_wf m -> bt_last_le k m = None -> forall j w, (j, w) ∈ m -> k < j.
Proof.
  intros Hm Hlast. induction m as [|[a b] m IH]; intros j w Hin; [inversion Hin|].
  apply bt_wf_cons in Hm as [Hm Ha]. cbn in Hlast.
  destruct (Z.leb_spec a k); [by destruct (bt_last_le k m)|].
  rewrite Forall_forall in Ha.
  apply elem_of_cons in Hin as [[= -> ->]|Hin]; [lia|].
  specialize (Ha _ Hin). cbn in Ha. lia.
Qed.

Lemma bt_last_le_1 k m k' v' :
  bt_wf m -> bt_last_le k m = Some (k', v') ->
  (k', v') ∈ m /\ k' <= k /\ forall j w, (j, w) ∈ m -> j <= k -> j <= k'.
Proof.
  revert k' v'. induction m as [|[a b] m IH]; intros k' v' Hm Hlast; [done|].
  apply bt_wf_cons in Hm as [Hm Ha]. rewrite Forall_forall in Ha. cbn in Hlast.
  destruct (Z.leb_spec a k) as [Hle|]; [|done].
  destruct (bt_last_le k m) as [[k1 v1]|] eqn:Hl; injection Hlast as <- <-.
  - destruct (IH _ _ Hm eq_refl) as (Hin & Hk1 & Hmax).
    split; [by right|]. split; [done|]. intros j w Hj Hjk.
    apply elem_of_cons in Hj as [[= -> ->]|Hj]; [|eauto].
    specialize (Ha _ Hin). cbn in Ha. lia.
  - split; [by left|]. split; [done|]. intros j w Hj Hjk.
    apply elem_of_cons in Hj as [[= -> ->]|Hj]; [lia|].
    pose proof (bt_last_le_None k m Hm Hl j w Hj). lia.
Qed.

(** [range(..=k).next_back()] is the entry with the greatest key at most [k]. *)
Lemma bt_last_le_Some k m k' v' :
  bt_wf m ->
  bt_last_le k m = Some (k', v') <->
  (k', v') ∈ m /\ k' <= k /\ forall j w, (j, w) ∈ m -> j <= k -> j <= k'.
Proof.
  intros Hm. split; [by apply bt_last_le_1|]. intros (Hin & Hk & Hmax).
  destruct (bt_last_le k m) as [[k1 v1]|] eqn:Hl.
  - apply bt_last_le_1 in Hl as (Hin1 & Hk1 & Hmax1); [|done].
    pose proof (Hmax _ _ Hin1 Hk1). pose proof (Hmax1 _ _ Hin Hk).
    assert (k1 = k') as -> by lia.
    apply bt_get_Some in Hin, Hin1; [|done..]. congruence.
  - pose proof (bt_last_le_None k m Hm Hl _ _ Hin). lia.
Qed.

Lemma bt_last_le_is_Some k m k0 v0 m' :
  m = (k0, v0) :: m' -> k0 <= k -> exists e, bt_last_le k m = Some e.
Proof.
  intros -> Hk. cbn. rewrite (proj2 (Z.leb_le _ _)) by done.
  destruct (bt_last_le k m'); eauto.
Qed.

End BTree.

(** ** Binary search

    [while low < high { mid = low + (high - low) / 2;
       if p(mid) { high = mid } else { low = mid + 1 } }], with [p] a test that
    may panic.  Each round halves the interval, so [fuel] rounds are enough for
    an interval shorter than [2 ^ fuel]; [32] for [u32] bounds. *)
Fixpoint bsearch {E} (fuel : nat) (p : Z -> res E bool) (low high : Z) : res E Z :=
  if low <? high then
    match fuel with
    | O => Panic
    | S fuel =>
        let mid := low + (high - low) / 2 in
        let? b := p mid in
        if b then bsearch fuel p low mid else bsearch fuel p (mid + 1) high
    end
  else Ok low.

(** The search returns the least point of [low, high] where a monotone test
    holds, when the test holds at [high]. *)
Lemma bsearch_least {E} fuel (p : Z -> res E bool) (q : Z -> bool) low high :
  low <= high -> high - low < 2 ^ Z.of_nat fuel ->
  (forall x, low <= x < high -> p x = Ok (q x)) ->
  (forall x y, low <= x <= y -> y < high -> q x = true -> q y = true) ->
  exists r, bsearch fuel p low high = Ok r /\ low <= r <= high /\
    (forall x, low <= x < r -> q x = false) /\ (r < high -> q r = true).
Proof.
  revert low high. induction fuel as [|fuel IH]; intros low high Hle Hfuel Hp Hmono.
  { cbn in Hfuel. exists low. cbn. destruct (Z.ltb_spec low high); [lia|].
    split; [done|]. repeat split; lia. }
  cbn [bsearch]. destruct (Z.ltb_spec low high) as [Hlt|Hge].
  2: { exists low. repeat split; lia. }
  rewrite Nat2Z.inj_succ, Z.pow_succ_r in Hfuel by lia.
  set (mid := low + (high - low) / 2).
  assert (low <= mid < high) as Hmid.
  { unfold mid. pose proof (Z.div_lt_upper_bound (high - low) 2 (high - low)).
    pose proof (Z.div_pos (high - low) 2). lia. }
  assert (high - low = 2 * ((high - low) / 2) + (high - low) mod 2) as Hdiv
    by (apply Z.div_mod; lia).
  pose proof (Z.mod_pos_bound (high - low) 2 ltac:(lia)) as Hmod.
  rewrite Hp by lia. cbn [res_bind]. destruct (q mid) eqn:Hq.
  - destruct (IH low mid) as (r & Hr & Hb & Hf & Ht);
      [lia|unfold mid; lia|intros; apply Hp; lia|intros; eapply Hmono; eauto; lia|].
    exists r. split; [done|]. split; [lia|]. split; [done|].
    intros _. destruct (Z.eq_dec r mid) as [->|]; [done|]. apply Ht. lia.
  - destruct (IH (mid + 1) high) as (r & Hr & Hb & Hf & Ht);
      [lia|unfold mid; lia|intros; apply Hp; lia|intros; eapply Hmono; eauto; lia|].
    exists r. split; [done|]. split; [lia|]. split; [|done].
    intros x Hx. destruct (Z_le_gt_dec x mid); [|apply Hf; lia].
    destruct (q x) eqn:Hqx; [|done].
    rewrite (Hmono x mid) in Hq by (done || lia). done.
Qed.

(** ** Ranges of ordered maps *)

(** [std::ops::Bound] *)
Inductive Bound := Unbounded | Included (k : Z) | Excluded (k : Z).

Definition above (start : Bound) (k : Z) : bool :=
  match start with Unbounded => true | Included a => a <=? k | Excluded a => a <? k end.
Definition below (end_ : Bound) (k : Z) : bool :=
  match end_ with Unbounded => true | Included b => k <=? b | Excluded b => k <? b end.

(** [BTreeMap::range] panics when the start is above the end, or both exclude
    the same key. *)
Definition range_valid (start end_ : Bound) : bool :=
  match start, end_ with
  | Unbounded, _ | _, Unbounded => true
  | Excluded a, Excluded b => a <? b
  | Excluded a, Included b | Included a, Excluded b | Included a, Included b => a <=? b
  end.

Definition bt_range {E V} (start end_ : Bound) (m : list (Z * V)) : res E (list (Z * V)) :=
  let? _ := rust_assert (range_valid start end_) in
  Ok (filter (fun kv => above start kv.1 && below end_ kv.1) m).
