(* ===== verification/Network.v ===== *)
(** * Networks and network upgrades

    Model of [crates/zakura-chain/src/parameters/network_upgrade.rs], of the
    activation heights in [parameters/constants.rs], and of the parts of
    [parameters/network.rs] and [parameters/network/testnet.rs] that the height
    rules use: the network type, its accessors, and the builder that checks
    configured activation heights.  The build is the default one (no
    [zcash_unstable = "zfuture"]).  Durations are whole seconds, and a block time
    is its Unix timestamp. *)

From stdpp Require Import base numbers list option sorting finite.
From Stdlib Require Import ZArith Lia.
From S2P Require Import Prelude Height Amount BTree.
Local Open Scope Z_scope.

Module Network.

Inductive NetworkUpgrade :=
| Genesis | BeforeOverwinter | Overwinter | Sapling | Blossom | Heartwood | Canopy
| Nu5 | Nu6 | Nu6_1 | Nu6_2 | Nu6_3 | Nu7.

#[export] Instance network_upgrade_eq_dec : EqDecision NetworkUpgrade.
Proof. solve_decision. Defined.

Definition NETWORK_UPGRADES : list NetworkUpgrade :=
  [Genesis; BeforeOverwinter; Overwinter; Sapling; Blossom; Heartwood; Canopy;
   Nu5; Nu6; Nu6_1; Nu6_2; Nu6_3; Nu7].

(** The discriminant, which the derived [Ord] compares. *)
Definition index (nu : NetworkUpgrade) : Z :=
  match nu with
  | Genesis => 0 | BeforeOverwinter => 1 | Overwinter => 2 | Sapling => 3
  | Blossom => 4 | Heartwood => 5 | Canopy => 6 | Nu5 => 7 | Nu6 => 8
  | Nu6_1 => 9 | Nu6_2 => 10 | Nu6_3 => 11 | Nu7 => 12
  end.

Definition nu_lt (a b : NetworkUpgrade) : Prop := index a < index b.
Definition nu_ltb (a b : NetworkUpgrade) : bool := index a <? index b.
Definition nu_leb (a b : NetworkUpgrade) : bool := index a <=? index b.

Definition MAINNET_ACTIVATION_HEIGHTS : list (Z * NetworkUpgrade) :=
  [(0, Genesis); (1, BeforeOverwinter); (347500, Overwinter); (419200, Sapling);
   (653600, Blossom); (903000, Heartwood); (1046400, Canopy); (1687104, Nu5);
   (2726400, Nu6); (3146400, Nu6_1); (3364600, Nu6_2); (3428143, Nu6_3); (3543405, Nu7)].

Definition TESTNET_ACTIVATION_HEIGHTS : list (Z * NetworkUpgrade) :=
  [(0, Genesis); (1, BeforeOverwinter); (207500, Overwinter); (280000, Sapling);
   (584000, Blossom); (903800, Heartwood); (1028500, Canopy); (1842420, Nu5);
   (2976000, Nu6); (3536500, Nu6_1); (4052000, Nu6_2); (4134000, Nu6_3); (4465026, Nu7)].

Definition CONSENSUS_BRANCH_IDS : list (NetworkUpgrade * Z) :=
  [(Overwinter, 0x5ba81b19); (Sapling, 0x76b809bb); (Blossom, 0x2bb40e60);
   (Heartwood, 0xf5b9230b); (Canopy, 0xe9ff75a6); (Nu5, 0xc2d6d0b4);
   (Nu6, 0xc8e71055); (Nu6_1, 0x4dec4df0); (Nu6_2, 0x5437f330);
   (Nu6_3, 0x37a5165b); (Nu7, 0x77190ad9)].

(** [TryFrom<u32> for NetworkUpgrade] and [NetworkUpgrade::branch_id] *)
Definition try_from_branch_id (branch_id : Z) : option NetworkUpgrade :=
  fst <$> List.find (fun e => e.2 =? branch_id) CONSENSUS_BRANCH_IDS.

Definition branch_id (nu : NetworkUpgrade) : option Z :=
  snd <$> List.find (fun e => bool_decide (e.1 = nu)) CONSENSUS_BRANCH_IDS.

(** Funding streams, as the parameters hold them: a half-open height range and
    the recipients in the iteration order of their map, each with its numerator
    and the number of its addresses. *)
Inductive FundingStreamReceiver := Ecc | ZcashFoundation | MajorGrants | Deferred.

#[export] Instance receiver_eq_dec : EqDecision FundingStreamReceiver.
Proof. solve_decision. Defined.

Record FundingStreams := {
  fs_start : Z;
  fs_end : Z;
  fs_recipients : list (FundingStreamReceiver * (Z * nat));
}.

(** [testnet::Parameters], the fields the modelled rules read.  The comparison
    of all fields with [Parameters::default()] is the flag
    [p_is_default_testnet]; [p_is_regtest] is the one with the Regtest
    parameters. *)
Record Parameters := {
  p_is_default_testnet : bool;
  p_is_regtest : bool;
  p_activation_heights : list (Z * NetworkUpgrade);
  p_slow_start_interval : Z;
  p_slow_start_shift : Z;
  p_funding_streams : list FundingStreams;
  p_target_difficulty_limit : Z;
  p_disable_pow : bool;
  p_max_block_time_start_height : Z;
  p_should_allow_unshielded_coinbase_spends : bool;
  p_pre_blossom_halving_interval : Z;
  p_post_blossom_halving_interval : Z;
  p_temporary_orchard_disabling_soft_fork_height : option Z;
  p_initial_nsm_value_balance : option (Amount.Amount Amount.NonNegative);
}.

Inductive Network := Mainnet | Testnet (params : Parameters).

Definition is_a_test_network (net : Network) : bool :=
  match net with Mainnet => false | Testnet _ => true end.

Definition should_allow_unshielded_coinbase_spends (net : Network) : bool :=
  match net with Testnet p => p_should_allow_unshielded_coinbase_spends p | Mainnet => false end.

(** [Network::activation_map] (the Mainnet map is collected from its list) *)
Definition activation_map (net : Network) : list (Z * NetworkUpgrade) :=
  match net with
  | Mainnet => bt_collect MAINNET_ACTIVATION_HEIGHTS
  | Testnet params => p_activation_heights params
  end.

Definition SLOW_START_INTERVAL : Z := 20000.
Definition SLOW_START_SHIFT : Z := SLOW_START_INTERVAL / 2.

Definition slow_start_interval (net : Network) : Z :=
  match net with Testnet p => p_slow_start_interval p | Mainnet => SLOW_START_INTERVAL end.

Definition slow_start_shift (net : Network) : Z :=
  match net with Testnet p => p_slow_start_shift p | Mainnet => SLOW_START_SHIFT end.

(** [NetworkUpgrade::current_with_activation_height] and [current] *)
Definition current_with_activation_height {E} (net : Network) (height : Z)
  : res E (NetworkUpgrade * Z) :=
  let? (h, nu) := expect (bt_last_le height (activation_map net)) in Ok (nu, h).

Definition current {E} (net : Network) (height : Z) : res E NetworkUpgrade :=
  let? (_, nu) := expect (bt_last_le height (activation_map net)) in Ok nu.

(** [iter().skip_while(|nu| self != nu).nth(1)] *)
Fixpoint skip_while_ne (nu : NetworkUpgrade) (l : list NetworkUpgrade) : list NetworkUpgrade :=
  match l with
  | [] => []
  | x :: l' => if bool_decide (nu = x) then l else skip_while_ne nu l'
  end.

Definition next_upgrade (nu : NetworkUpgrade) : option NetworkUpgrade :=
  skip_while_ne nu NETWORK_UPGRADES !! 1%nat.

(** [iter().find(|(_, nu)| nu == self).map(|(height, _)| height)] *)
Definition find_height (m : list (Z * NetworkUpgrade)) (nu : NetworkUpgrade) : option Z :=
  fst <$> List.find (fun e => bool_decide (e.2 = nu)) m.

(** [NetworkUpgrade::activation_height]: an upgrade without an entry activates
    with the next one.  The recursion walks the list of upgrades, so its length
    bounds the calls. *)
Fixpoint activation_height_from (fuel : nat) (nu : NetworkUpgrade)
  (m : list (Z * NetworkUpgrade)) : option Z :=
  match find_height m nu with
  | Some h => Some h
  | None =>
      match fuel, next_upgrade nu with
      | S fuel, Some next_nu => activation_height_from fuel next_nu m
      | _, _ => None
      end
  end.

Definition activation_height (nu : NetworkUpgrade) (net : Network) : option Z :=
  activation_height_from (length NETWORK_UPGRADES) nu (activation_map net).

#[global] Arguments activation_height : simpl never.

Definition is_activation_height (net : Network) (height : Z) : bool :=
  bt_contains_key height (activation_map net).

(** [Network::full_activation_list] *)
Definition full_activation_list (net : Network) : list (Z * NetworkUpgrade) :=
  omap (fun nu => (fun h => (h, nu)) <$> activation_height nu net) NETWORK_UPGRADES.

Definition PRE_BLOSSOM_POW_TARGET_SPACING : Z := 150.
Definition POST_BLOSSOM_POW_TARGET_SPACING : Z := 75.
Definition POST_NU7_POW_TARGET_SPACING : Z := 25.
Definition NU7_POW_TARGET_SPACING_RATIO : Z :=
  POST_BLOSSOM_POW_TARGET_SPACING / POST_NU7_POW_TARGET_SPACING.
Definition PRE_NU7_POW_AVERAGING_WINDOW : Z := 17.
Definition POST_NU7_POW_AVERAGING_WINDOW : Z := 102.
Definition PRE_NU7_TESTNET_MINIMUM_DIFFICULTY_GAP_MULTIPLIER : Z := 6.
Definition POST_NU7_TESTNET_MINIMUM_DIFFICULTY_GAP_MULTIPLIER : Z := 18.
Definition TESTNET_MINIMUM_DIFFICULTY_START_HEIGHT : Z := 299188.
Definition TESTNET_MAX_TIME_START_HEIGHT : Z := 653606.

Definition target_spacing (nu : NetworkUpgrade) : Z :=
  match nu with
  | Genesis | BeforeOverwinter | Overwinter | Sapling => PRE_BLOSSOM_POW_TARGET_SPACING
  | Blossom | Heartwood | Canopy | Nu5 | Nu6 | Nu6_1 | Nu6_2 | Nu6_3 =>
      POST_BLOSSOM_POW_TARGET_SPACING
  | Nu7 => POST_NU7_POW_TARGET_SPACING
  end.

Definition target_spacing_for_height {E} (net : Network) (height : Z) : res E Z :=
  let? nu := current net height in Ok (target_spacing nu).

(** [NetworkUpgrade::target_spacings] *)
Definition target_spacings (net : Network) : list (Z * Z) :=
  omap (fun '(upgrade, spacing) => (fun h => (h, spacing)) <$> activation_height upgrade net)
    [(Genesis, PRE_BLOSSOM_POW_TARGET_SPACING);
     (Blossom, POST_BLOSSOM_POW_TARGET_SPACING);
     (Nu7, POST_NU7_POW_TARGET_SPACING)].

Definition minimum_difficulty_spacing_for_height {E} (net : Network) (height : Z)
  : res E (option Z) :=
  match net with
  | Testnet _ =>
      if height <? TESTNET_MINIMUM_DIFFICULTY_START_HEIGHT then Ok None
      else
        let? network_upgrade := current net height in
        let multiplier :=
          if nu_leb Nu7 network_upgrade
          then POST_NU7_TESTNET_MINIMUM_DIFFICULTY_GAP_MULTIPLIER
          else PRE_NU7_TESTNET_MINIMUM_DIFFICULTY_GAP_MULTIPLIER in
        Ok (Some (target_spacing network_upgrade * multiplier))
  | Mainnet => Ok None
  end.

Definition is_testnet_min_difficulty_block {E} (net : Network)
  (block_height block_time previous_block_time : Z) : res E bool :=
  let block_time_gap := block_time - previous_block_time in
  let? spacing := minimum_difficulty_spacing_for_height net block_height in
  Ok (match spacing with
      | Some min_difficulty_gap => min_difficulty_gap <? block_time_gap
      | None => false
      end).

Definition averaging_window (nu : NetworkUpgrade) : Z :=
  match nu with
  | Nu7 => POST_NU7_POW_AVERAGING_WINDOW
  | _ => PRE_NU7_POW_AVERAGING_WINDOW
  end.

Definition averaging_window_for_height {E} (net : Network) (height : Z) : res E Z :=
  let? nu := current net height in Ok (averaging_window nu).

Definition averaging_window_timespan (nu : NetworkUpgrade) : Z :=
  target_spacing nu * averaging_window nu.

Definition averaging_window_timespan_for_height {E} (net : Network) (height : Z) : res E Z :=
  let? nu := current net height in Ok (averaging_window_timespan nu).

Definition is_nu7_active {E} (net : Network) (height : Z) : res E bool :=
  let? nu := current net height in Ok (nu_leb Nu7 nu).

(** [ConsensusBranchId::current] *)
Definition current_branch_id {E} (net : Network) (height : Z) : res E (option Z) :=
  let? nu := current net height in Ok (branch_id nu).

(** [Network::mandatory_checkpoint_height] *)
Definition mandatory_checkpoint_height {E} (net : Network) : res E Z :=
  let? h := expect (activation_height Canopy net) in expect_ok (Height.previous h).

Definition is_max_block_time_enforced (net : Network) (height : Z) : bool :=
  match net with
  | Mainnet => true
  | Testnet p => p_max_block_time_start_height p <=? height
  end.

Definition MAINNET_TEMPORARY_ORCHARD_DISABLING_SOFT_FORK_HEIGHT : Z := 3363426.

Definition temporary_orchard_disabling_soft_fork_height (net : Network) : option Z :=
  match net with
  | Mainnet => Some MAINNET_TEMPORARY_ORCHARD_DISABLING_SOFT_FORK_HEIGHT
  | Testnet p => p_temporary_orchard_disabling_soft_fork_height p
  end.

Definition temporary_orchard_disabling_soft_fork_active (net : Network) (height : Z) : bool :=
  match temporary_orchard_disabling_soft_fork_height net with
  | Some h => h <=? height
  | None => false
  end.

Definition is_orchard_temporarily_disabled (net : Network) (height : Z) : bool :=
  temporary_orchard_disabling_soft_fork_active net height &&
  match activation_height Nu6_2 net with
  | Some nu6_2 => height <? nu6_2
  | None => true
  end.

(** ** Well-formed networks

    What the builder checks ([with_activation_heights], [with_halving_interval],
    [finish]) and what the Mainnet constants satisfy. *)

Definition entry_lt (p q : Z * NetworkUpgrade) : Prop := p.1 < q.1 /\ nu_lt p.2 q.2.

Definition pre_blossom_halving_interval (net : Network) : Z :=
  match net with Mainnet => 840000 | Testnet p => p_pre_blossom_halving_interval p end.

Definition post_blossom_halving_interval (net : Network) : Z :=
  match net with Mainnet => 840000 * 2 | Testnet p => p_post_blossom_halving_interval p end.

Record net_wf (net : Network) : Prop := {
  wf_sorted : StronglySorted entry_lt (activation_map net);
  wf_genesis : head (activation_map net) = Some (0, Genesis);
  wf_valid : Forall (fun e => Height.valid e.1) (activation_map net);
  wf_interval : 0 <= slow_start_interval net < 2 ^ 32;
  wf_shift : slow_start_shift net = slow_start_interval net / 2;
  wf_pre_interval : 0 < pre_blossom_halving_interval net * 150 < 2 ^ 63;
  wf_post_interval : post_blossom_halving_interval net = 2 * pre_blossom_halving_interval net;
  wf_seed : match net with
            | Testnet params => forall seed, p_initial_nsm_value_balance params = Some seed ->
                0 <= Amount.zatoshis seed <= Amount.MAX_MONEY
            | Mainnet => True
            end;
}.

(** Executable form of the conditions on the activation map. *)
Fixpoint entries_sortedb (m : list (Z * NetworkUpgrade)) : bool :=
  match m with
  | [] => true
  | e :: m' =>
      forallb (fun e' => (e.1 <? e'.1) && nu_ltb e.2 e'.2) m' && entries_sortedb m'
  end.

Lemma entries_sortedb_spec m : entries_sortedb m = true -> StronglySorted entry_lt m.
Proof.
  induction m as [|e m IH]; cbn; [constructor|].
  intros [Hall Hm]%andb_true_iff. constructor; [by apply IH|].
  rewrite forallb_forall in Hall. apply List.Forall_forall. intros e' He'.
  specialize (Hall e' He'). unfold entry_lt, nu_lt, nu_ltb in *. lia.
Qed.

Definition entries_validb (m : list (Z * NetworkUpgrade)) : bool :=
  forallb (fun e => (0 <=? e.1) && (e.1 <=? Height.MAX)) m.

Lemma entries_validb_spec m : entries_validb m = true -> Forall (fun e => Height.valid e.1) m.
Proof.
  unfold entries_validb. rewrite forallb_forall. intros H. apply List.Forall_forall.
  intros e He. specialize (H e He). unfold Height.valid, Height.MIN. lia.
Qed.

Lemma mainnet_wf : net_wf Mainnet.
Proof.
  split; [apply entries_sortedb_spec; vm_compute; reflexivity|vm_compute; reflexivity|
          apply entries_validb_spec; vm_compute; reflexivity| | | | |exact I];
    cbn [slow_start_interval slow_start_shift pre_blossom_halving_interval
         post_blossom_halving_interval]; unfold SLOW_START_SHIFT, SLOW_START_INTERVAL; lia.
Qed.

(** ** Lemmas *)

Lemma sorted_entries m a x b y :
  StronglySorted entry_lt m -> (a, x) ∈ m -> (b, y) ∈ m ->
  (a < b <-> index x < index y) /\ (a = b <-> x = y).
Proof.
  intros Hs. revert a x b y. induction Hs as [|e m Hs IH Hall]; intros a x b y Ha Hb.
  { inversion Ha. }
  rewrite Forall_forall in Hall.
  apply elem_of_cons in Ha as [<-|Ha]; apply elem_of_cons in Hb as [Hb|Hb].
  - injection Hb as <- <-. split; lia || done.
  - destruct (Hall _ Hb) as [H1 H2]. unfold nu_lt in H2. cbn in *.
    split; [lia|]. split; [lia|]. intros ->. lia.
  - subst e. destruct (Hall _ Ha) as [H1 H2]. unfold nu_lt in H2. cbn in *.
    split; [lia|]. split; [lia|]. intros ->. lia.
  - by apply IH.
Qed.

Lemma sorted_entries_le m a x b y :
  StronglySorted entry_lt m -> (a, x) ∈ m -> (b, y) ∈ m -> a <= b <-> index x <= index y.
Proof.
  intros Hs Ha Hb. destruct (sorted_entries m a x b y Hs Ha Hb) as [H1 H2].
  destruct (sorted_entries m b y a x Hs Hb Ha) as [H3 H4].
  destruct (Z.eq_dec a b) as [Heq|]; [|lia].
  assert (x = y) as -> by tauto. lia.
Qed.

Lemma sorted_bt_wf m : StronglySorted entry_lt m -> bt_wf m.
Proof.
  induction 1 as [|[k v] m Hs IH Hall]; [constructor|]. apply bt_wf_cons. split; [done|].
  eapply Forall_impl; [exact Hall|]. by intros ? [? _].
Qed.

Lemma index_inj x y : index x = index y -> x = y.
Proof. by destruct x, y. Qed.

Lemma next_upgrade_index nu :
  match next_upgrade nu with
  | Some nu' => index nu' = index nu + 1
  | None => nu = Nu7
  end.
Proof. destruct nu; vm_compute; reflexivity. Qed.

Lemma index_range nu : 0 <= index nu <= 12.
Proof. destruct nu; cbn; lia. Qed.

Lemma find_height_Some m nu h :
  StronglySorted entry_lt m -> find_height m nu = Some h <-> (h, nu) ∈ m.
Proof.
  intros Hs. unfold find_height. split.
  - intros Hf. apply fmap_Some in Hf as ([h' nu'] & Hf & ->).
    apply List.find_some in Hf as [Hin Heq%bool_decide_eq_true]. cbn in *. subst nu'.
    by apply list_elem_of_In.
  - intros Hin. destruct (List.find _ m) as [[h' nu']|] eqn:Hf; cbn.
    + apply List.find_some in Hf as [Hin' Heq%bool_decide_eq_true]. cbn in *. subst nu'.
      apply list_elem_of_In in Hin'. f_equal.
      by apply (sorted_entries m h' nu h nu Hs Hin' Hin).
    + apply list_elem_of_In in Hin. eapply List.find_none in Hf; [|exact Hin].
      by apply bool_decide_eq_false in Hf.
Qed.

(** The least height of an entry whose upgrade is at least [nu]. *)
Definition least_entry (m : list (Z * NetworkUpgrade)) (nu : NetworkUpgrade) (a : Z) : Prop :=
  (exists x, (a, x) ∈ m /\ index nu <= index x) /\
  forall b y, (b, y) ∈ m -> index nu <= index y -> a <= b.

Lemma activation_height_from_spec fuel m nu :
  StronglySorted entry_lt m -> 12 - index nu <= Z.of_nat fuel ->
  match activation_height_from fuel nu m with
  | Some a => least_entry m nu a
  | None => forall b y, (b, y) ∈ m -> index y < index nu
  end.
Proof.
  intros Hs. revert nu. induction fuel as [|fuel IH]; intros nu Hfuel;
    pose proof (index_range nu) as Hr; cbn [activation_height_from];
    destruct (find_height m nu) as [h|] eqn:Hf.
  1,3: (apply find_height_Some in Hf; [|done]; split; [by exists nu|];
        intros b y Hb Hy; by apply (sorted_entries_le m h nu b y Hs Hf Hb)).
  - intros b y Hb. destruct (Z.eq_dec (index y) (index nu)) as [Heq%index_inj|Hne].
    + subst y. apply find_height_Some in Hb; [congruence|done].
    + pose proof (index_range y). lia.
  - assert (Hno : forall b y, (b, y) ∈ m -> index y <> index nu).
    { intros b y Hb ->%index_inj. apply find_height_Some in Hb; [congruence|done]. }
    pose proof (next_upgrade_index nu) as Hn. destruct (next_upgrade nu) as [nu'|].
    + specialize (IH nu' ltac:(lia)).
      destruct (activation_height_from fuel nu' m) as [a|].
      * destruct IH as [(x & Hx & Hxi) Hmin]. split; [exists x; split; [done|lia]|].
        intros b y Hb Hy. specialize (Hno b y Hb). apply (Hmin b y Hb). lia.
      * intros b y Hb. specialize (IH b y Hb). specialize (Hno b y Hb). lia.
    + subst nu. intros b y Hb. specialize (Hno b y Hb). pose proof (index_range y).
      cbn in *. lia.
Qed.

Lemma activation_height_spec net nu :
  net_wf net ->
  match activation_height nu net with
  | Some a => least_entry (activation_map net) nu a
  | None => forall b y, (b, y) ∈ activation_map net -> index y < index nu
  end.
Proof.
  intros Hwf. apply activation_height_from_spec; [apply Hwf|].
  cbn. pose proof (index_range nu). lia.
Qed.

Lemma activation_height_from_S fuel nu m :
  activation_height_from (S fuel) nu m =
  match find_height m nu with
  | Some h => Some h
  | None =>
      match next_upgrade nu with
      | Some next_nu => activation_height_from fuel next_nu m
      | None => None
      end
  end.
Proof. reflexivity. Qed.

Lemma activation_height_from_fuel fuel m nu :
  12 - index nu <= Z.of_nat fuel ->
  activation_height_from (S fuel) nu m = activation_height_from fuel nu m.
Proof.
  revert nu. induction fuel as [|fuel IH]; intros nu Hf; pose proof (next_upgrade_index nu) as Hn;
    rewrite activation_height_from_S; [|rewrite activation_height_from_S];
    cbn [activation_height_from]; destruct (find_height m nu); try done;
    destruct (next_upgrade nu) as [nu'|]; try done.
  - pose proof (index_range nu'). lia.
  - apply IH. lia.
Qed.

(** The recursive equation of the code. *)
Lemma activation_height_equation net nu :
  activation_height nu net =
  match find_height (activation_map net) nu with
  | Some h => Some h
  | None =>
      match next_upgrade nu with
      | Some next_nu => activation_height next_nu net
      | None => None
      end
  end.
Proof.
  unfold activation_height. change (length NETWORK_UPGRADES) with 13%nat.
  pose proof (next_upgrade_index nu) as Hn. pose proof (index_range nu).
  rewrite (activation_height_from_S 12).
  destruct (find_height (activation_map net) nu), (next_upgrade nu) as [nu'|];
    [reflexivity|reflexivity| |reflexivity].
  symmetry. apply (activation_height_from_fuel 12). lia.
Qed.

Lemma current_Ok net h :
  net_wf net -> 0 <= h ->
  exists a nu, bt_last_le h (activation_map net) = Some (a, nu) /\
    (forall E, current (E := E) net h = Ok nu).
Proof.
  intros Hwf Hh. pose proof (wf_genesis net Hwf) as Hg.
  destruct (activation_map net) as [|[k v] m'] eqn:Hm; [done|]. injection Hg as -> ->.
  destruct (bt_last_le_is_Some h _ 0 Genesis m' eq_refl Hh) as [[a nu] He].
  exists a, nu. split; [done|]. intros E. unfold current. by rewrite Hm, He.
Qed.

(** An upgrade is in force exactly from its activation height. *)
Lemma current_ge net h nu c :
  net_wf net -> 0 <= h -> current (E := unit) net h = Ok c ->
  index nu <= index c <-> exists a, activation_height nu net = Some a /\ a <= h.
Proof.
  intros Hwf Hh Hc. destruct (current_Ok net h Hwf Hh) as (a0 & c' & Hlast & Hcur).
  rewrite Hcur in Hc. injection Hc as ->.
  pose proof (wf_sorted net Hwf) as Hs.
  apply bt_last_le_Some in Hlast as (Hin & Ha0 & Hmax); [|by apply sorted_bt_wf].
  pose proof (activation_height_spec net nu Hwf) as Hact. split.
  - intros Hi. destruct (activation_height nu net) as [a|].
    + exists a. split; [done|]. destruct Hact as [_ Hmin].
      specialize (Hmin _ _ Hin Hi). lia.
    + specialize (Hact _ _ Hin). lia.
  - intros (a & Ha & Hle). rewrite Ha in Hact. destruct Hact as [(x & Hx & Hxi) _].
    specialize (Hmax _ _ Hx Hle).
    pose proof (proj1 (sorted_entries_le _ _ _ _ _ Hs Hx Hin) Hmax). lia.
Qed.

Lemma genesis_activation net : net_wf net -> activation_height Genesis net = Some 0.
Proof.
  intros Hwf. rewrite activation_height_equation.
  pose proof (wf_genesis net Hwf) as Hg. unfold find_height.
  destruct (activation_map net) as [|e m]; [done|]. injection Hg as ->. done.
Qed.

(** Activation heights are ordered like the upgrades. *)
Lemma activation_height_mono net nu nu' a a' :
  net_wf net -> index nu <= index nu' ->
  activation_height nu net = Some a -> activation_height nu' net = Some a' -> a <= a'.
Proof.
  intros Hwf Hi Ha Ha'.
  pose proof (activation_height_spec net nu Hwf) as H. rewrite Ha in H.
  pose proof (activation_height_spec net nu' Hwf) as H'. rewrite Ha' in H'.
  destruct H as [_ Hmin]. destruct H' as [(x & Hx & Hxi) _]. apply (Hmin _ _ Hx). lia.
Qed.

Lemma activation_height_earlier net nu nu' a' :
  net_wf net -> index nu <= index nu' -> activation_height nu' net = Some a' ->
  exists a, activation_height nu net = Some a.
Proof.
  intros Hwf Hi Ha'.
  pose proof (activation_height_spec net nu Hwf) as H.
  pose proof (activation_height_spec net nu' Hwf) as H'. rewrite Ha' in H'.
  destruct (activation_height nu net); [eauto|].
  destruct H' as [(x & Hx & Hxi) _]. specialize (H _ _ Hx). lia.
Qed.

Lemma activation_height_valid net nu a :
  net_wf net -> activation_height nu net = Some a -> Height.valid a.
Proof.
  intros Hwf Ha. pose proof (activation_height_spec net nu Hwf) as H. rewrite Ha in H.
  destruct H as [(x & Hx & _) _]. pose proof (wf_valid net Hwf) as Hv.
  rewrite Forall_forall in Hv. by apply Hv in Hx.
Qed.

(** On every well-formed network an upgrade is in force at a height exactly
    when the height has reached the upgrade's activation height, where an
    upgrade without its own entry activates with the next configured one; and
    the lookup never hits its [expect]. *)
Lemma upgrade_active_iff_reached net h nu :
  net_wf net -> 0 <= h ->
  exists c, current (E := unit) net h = Ok c /\
    (nu_leb nu c = true <-> exists a, activation_height nu net = Some a /\ a <= h).
Proof.
  intros Hwf Hh. destruct (current_Ok net h Hwf Hh) as (a & c & _ & Hc).
  exists c. split; [apply Hc|]. unfold nu_leb. rewrite Z.leb_le. by apply current_ge.
Qed.

(** Consensus branch ids identify their upgrade. *)
Lemma branch_id_roundtrip nu b : branch_id nu = Some b -> try_from_branch_id b = Some nu.
Proof. destruct nu; vm_compute; intros [= <-]; reflexivity. Qed.

End Network.
