(* ===== verification/Subsidy.v ===== *)
(** * Block subsidies

    Model of [crates/zakura-chain/src/parameters/network/subsidy.rs]: halvings,
    the block subsidy with its slow start and spacing eras, founders reward,
    funding streams, the scheduled issuance and the ZIP 234 reissuance.  The
    trait [ParameterSubsidy] is a type class.  Loops carry fuel: 32 rounds for a
    binary search over [u32] heights, and 70 for the walk over subsidy runs (at
    most 64 paying halvings and two later spacing eras); the theorems show both
    are enough. *)

From stdpp Require Import base numbers list option sorting.
From Stdlib Require Import ZArith Lia.
From S2P Require Import Prelude Height Amount BTree Network.
Local Open Scope Z_scope.

Module Subsidy.
Import Network Amount.

Inductive SubsidyError :=
| NoCoinbase | FundingStreamNotFound | FoundersRewardNotFound
| OneTimeLockboxDisbursementNotFound | InvalidMinerFees | MissingNsmValueBalance
| NegativeNsmValueBalance | SubsidyOverflow | SubsidyUnderflow | UnsupportedHeight
| InvalidAmount (e : Amount.Error).

Definition MAX_BLOCK_SUBSIDY : Z := (25 * COIN) / 2.
Definition BLOSSOM_POW_TARGET_SPACING_RATIO : Z := 2.
Definition FUNDING_STREAM_RECEIVER_DENOMINATOR : Z := 100.
Definition BLOCK_SUBSIDY_FRACTION_NUMERATOR : Z := 1375.
Definition BLOCK_SUBSIDY_FRACTION_DENOMINATOR : Z := 10000000000.
Definition NSM_REISSUANCE_START_HALVING : Z := 3.

(** ** Halvings *)

(** The [while let Some(..) = eras.next()] loop of [halving]. *)
Fixpoint era_seconds {E} (eras : list (Z * Z)) (height total : Z) : res E Z :=
  match eras with
  | [] => Ok total
  | (era_start, era_spacing) :: eras =>
      let era_end := match eras with (next_start, _) :: _ => next_start | [] => height end in
      let? p := sint_arith 64 (Height.sub_height era_end era_start * era_spacing) in
      let? total := sint_arith 64 (total + p) in
      era_seconds eras height total
  end.

Definition halving {E} (height : Z) (net : Network) : res E Z :=
  let shift := slow_start_shift net in
  if height <? shift then Ok 0
  else
    let pre_blossom_spacing_seconds := target_spacing Genesis in
    let? total := sint_arith 64 (- shift * pre_blossom_spacing_seconds) in
    let eras := filter (fun e => e.1 <= height) (target_spacings net) in
    let? total := era_seconds eras height total in
    let? pre_blossom_denominator :=
      sint_arith 64 (pre_blossom_halving_interval net * pre_blossom_spacing_seconds) in
    let? q :=
      if pre_blossom_denominator =? 0 then Panic
      else sint_arith 64 (Z.quot total pre_blossom_denominator) in
    expect (to_uint 32 (Z.max q 0)).

(** [1u64.checked_shl(halving(height, network))] *)
Definition halving_divisor {E} (height : Z) (net : Network) : res E (option Z) :=
  let? n := halving height net in
  Ok (if n <? 64 then Some (2 ^ n) else None).

Definition height_for_halving {E} (n : Z) (net : Network) : res E (option Z) :=
  if n =? 0 then Ok (Some 0)
  else
    let? last := halving Height.MAX net in
    if last <? n then Ok None
    else
      let? low := bsearch 32 (fun middle => let? h := halving middle net in Ok (negb (h <? n)))
                    Height.MIN Height.MAX in
      Ok (Some low).

Definition halving_block_subsidy (height : Z) (net : Network)
  : res SubsidyError (Amount NonNegative) :=
  let? halving_div := halving_divisor height net in
  match halving_div with
  | None => zero
  | Some halving_div =>
      let slow_start_interval := slow_start_interval net in
      let? amount :=
        if height <? slow_start_interval then
          let? slow_start_rate :=
            if slow_start_interval =? 0 then Panic
            else Ok (MAX_BLOCK_SUBSIDY / slow_start_interval) in
          if height <? slow_start_shift net
          then uint_arith 64 (slow_start_rate * height)
          else
            let? h1 := uint_arith 64 (height + 1) in
            uint_arith 64 (slow_start_rate * h1)
        else
          let? current_spacing_seconds := target_spacing_for_height net height in
          let pre_blossom_spacing_seconds := target_spacing Genesis in
          let? scaled := uint_arith 64 (MAX_BLOCK_SUBSIDY * current_spacing_seconds) in
          Ok (scaled / pre_blossom_spacing_seconds / halving_div) in
      map_err InvalidAmount (try_from_u64 amount)
  end.

(** ** The issuance schedule *)

Definition first_overflowed_halving_height {E} (net : Network) (last : Z) : res E (option Z) :=
  match to_uint 32 last with
  | None => Ok None
  | Some last =>
      let? d := halving_divisor last net in
      match d with
      | Some _ => Ok None
      | None =>
          let? low := bsearch 32 (fun mid => let? d := halving_divisor mid net in
                                     Ok (match d with None => true | Some _ => false end)) 0 last in
          Ok (Some low)
      end
  end.

Definition next_subsidy_boundary {E} (height : Z) (net : Network) : res E (option Z) :=
  let? current_halving := halving height net in
  let next_spacing_era := List.find (fun era_start => height <? era_start) (target_spacings net).*1 in
  match to_uint 32 (height + 1) with
  | None => Ok None
  | Some low =>
      let high := Height.MAX in
      let? at_high := halving high net in
      let? next_halving :=
        if current_halving <? at_high then
          let? low := bsearch 32 (fun mid => let? h := halving mid net in
                                     Ok (current_halving <? h)) low high in
          Ok (Some low)
        else Ok None in
      Ok (match next_spacing_era, next_halving with
          | Some spacing, Some halving => Some (Z.min spacing halving)
          | boundary, None => boundary
          | None, boundary => boundary
          end)
  end.

(** The [while block <= height] walk of [scheduled_issuance_zatoshis]. *)
Fixpoint issuance_runs (fuel : nat) (net : Network) (block height total : Z)
  : res SubsidyError Z :=
  if block <=? height then
    match fuel with
    | O => Panic
    | S fuel =>
        let? d := halving_divisor block net in
        match d with
        | None => Ok total
        | Some _ =>
            let? a := halving_block_subsidy block net in
            let? subsidy := ok_or SubsidyOverflow (to_uint 128 (zatoshis a)) in
            let? boundary := next_subsidy_boundary block net in
            let? end_ :=
              match boundary with
              | Some boundary => expect_ok (Height.previous boundary)
              | None => Ok height
              end in
            let run_end := Z.min end_ height in
            let? len := uint_arith 32 (run_end - block) in
            let? total := uint_arith 128 (total + (len + 1) * subsidy) in
            if (run_end =? height) || (run_end =? u32_max) then Ok total
            else issuance_runs fuel net (run_end + 1) height total
        end
    end
  else Ok total.

Definition sum_from_one_through (n : Z) : Z := n * (n + 1) / 2.

(** The two slow-start phases. *)
Definition slow_start_issuance {E} (net : Network) (height : Z) : res E Z :=
  let shift := slow_start_shift net in
  let interval := slow_start_interval net in
  if (0 <? interval) && (0 <? shift) then
    let rate := MAX_BLOCK_SUBSIDY / interval in
    let? cutoff := first_overflowed_halving_height net (interval - 1) in
    let last_paying :=
      match cutoff with Some cutoff => usat_sub cutoff 1 | None => interval - 1 end in
    let slow_start_end := Z.min height last_paying in
    let first_phase_end := Z.min slow_start_end (shift - 1) in
    let? total := uint_arith 128 (sum_from_one_through first_phase_end * rate) in
    if shift <=? slow_start_end then
      uint_arith 128 (total +
        (sum_from_one_through (slow_start_end + 1) - sum_from_one_through shift) * rate)
    else Ok total
  else Ok 0.

Definition scheduled_issuance_zatoshis (height : Z) (net : Network) : res SubsidyError Z :=
  let? total := slow_start_issuance net height in
  let? block := ok_or SubsidyOverflow (to_uint 32 (Z.max (slow_start_interval net) 1)) in
  let? height := ok_or SubsidyOverflow (to_uint 32 height) in
  issuance_runs 70 net block height total.

Definition expected_issued_supply (height : Z) (net : Network)
  : res SubsidyError (Amount NonNegative) :=
  let? total := scheduled_issuance_zatoshis height net in
  let? max_money := ok_or SubsidyOverflow (to_uint 128 MAX_MONEY) in
  let? v := ok_or SubsidyOverflow (to_sint 64 (Z.min total max_money)) in
  map_err InvalidAmount (try_from_i64 v).

(** ** ZIP 234 reissuance *)

Definition amount_to_u128 {E} (a : Amount NonNegative) : res E Z :=
  expect (to_uint 128 (zatoshis a)).

Definition first_nsm_crossing_in_subsidy_run
  (first run_end supply_before_first subsidy max_money : Z) : res SubsidyError (option Z) :=
  if (run_end <? first) || (subsidy =? 0) then Ok None
  else
    let? m :=
      ok_or SubsidyOverflow
        (s ← to_uint 128 (subsidy - 1); to_uint 128 (s * BLOCK_SUBSIDY_FRACTION_DENOMINATOR)) in
    let max_reserve := m / BLOCK_SUBSIDY_FRACTION_NUMERATOR in
    let reserve := usat_sub max_money supply_before_first in
    let blocks_until_crossing := div_ceil (usat_sub reserve max_reserve) subsidy in
    let? crossing := ok_or SubsidyOverflow (to_uint 128 (first + blocks_until_crossing)) in
    if run_end <? crossing then Ok None
    else
      let? c := ok_or SubsidyOverflow (to_uint 32 crossing) in Ok (Some c).

Definition nsm_reissuance_crossing_height (net : Network) : res SubsidyError (option Z) :=
  match activation_height Nu7 net with
  | None => Ok None
  | Some nu7 =>
      let? third := height_for_halving NSM_REISSUANCE_START_HALVING net in
      match third with
      | None => Ok None
      | Some third_halving =>
          let? fourth := height_for_halving (NSM_REISSUANCE_START_HALVING + 1) net in
          let? run_end :=
            match fourth with
            | Some fourth_halving =>
                map_err (fun _ => UnsupportedHeight) (Height.previous fourth_halving)
            | None => Ok Height.MAX
            end in
          let? c := ok_or SubsidyOverflow (to_uint 32 (third_halving + 1)) in
          let first_candidate := Z.max c nu7 in
          if run_end <? first_candidate then Ok None
          else
            let? parent := map_err (fun _ => UnsupportedHeight) (Height.previous first_candidate) in
            let? supply_before_first := scheduled_issuance_zatoshis parent net in
            let? a := halving_block_subsidy first_candidate net in
            let? subsidy := amount_to_u128 a in
            let? max_money := ok_or SubsidyOverflow (to_uint 128 MAX_MONEY) in
            first_nsm_crossing_in_subsidy_run first_candidate run_end supply_before_first
              subsidy max_money
      end
  end.

(** [nsm_reissuance_height]; the [OnceLock] caches the same derivation. *)
Definition nsm_reissuance_height {E} (net : Network) : res E (option Z) :=
  match activation_height Nu7 net with
  | None => Ok None
  | Some _ => expect_ok (nsm_reissuance_crossing_height net)
  end.

Definition is_zip234_active {E} (net : Network) (height : Z) : res E bool :=
  let? start := nsm_reissuance_height net in
  Ok (match start with Some start => start <=? height | None => false end).

Definition parent_nsm_value_balance (nsm_value_balance : Amount NegativeAllowed)
  : res SubsidyError (Amount NonNegative) :=
  map_err (fun _ => NegativeNsmValueBalance) (constrain NonNegative nsm_value_balance).

Definition reissuance_amount (a : Amount NonNegative) : res SubsidyError (Amount NonNegative) :=
  let? v := amount_to_u128 a in
  let? m := ok_or SubsidyOverflow (to_uint 128 (v * BLOCK_SUBSIDY_FRACTION_NUMERATOR)) in
  let subsidy := div_ceil m BLOCK_SUBSIDY_FRACTION_DENOMINATOR in
  let? s := ok_or SubsidyOverflow (to_sint 64 subsidy) in
  map_err InvalidAmount (try_from_i64 s).

Definition reissuance_bonus (nsm_value_balance : Amount NonNegative)
  : res SubsidyError (Amount NonNegative) := reissuance_amount nsm_value_balance.

Definition block_subsidy (height : Z) (net : Network)
  (nsm_value_balance : option (Amount NonNegative)) : res SubsidyError (Amount NonNegative) :=
  let? zip234 := is_zip234_active net height in
  if zip234 then
    let? nsm_value_balance := ok_or MissingNsmValueBalance nsm_value_balance in
    let? halving_subsidy := halving_block_subsidy height net in
    let? bonus := reissuance_bonus nsm_value_balance in
    map_err InvalidAmount (add halving_subsidy bonus)
  else halving_block_subsidy height net.

(** ** Founders reward, funding streams and the miner subsidy *)

Definition founders_reward {E} (net : Network) (height : Z) : res E (Amount NonNegative) :=
  let? h := halving height net in
  let? nu := current net height in
  if (h <? 1) && nu_ltb nu Canopy then
    let? subsidy := expect_ok (halving_block_subsidy height net) in div_exact subsidy 5
  else zero.

(** [Network::funding_streams] *)
Definition funding_streams (all : list FundingStreams) (height : Z) : option FundingStreams :=
  List.find (fun s => (fs_start s <=? height) && (height <? fs_end s)) all.

Fixpoint stream_amounts (subsidy : Amount NonNegative)
  (recipients : list (FundingStreamReceiver * (Z * nat)))
  : res Amount.Error (list (FundingStreamReceiver * Amount NonNegative)) :=
  match recipients with
  | [] => Ok []
  | (receiver, (numerator, _)) :: recipients =>
      let? product := mul subsidy numerator in
      let? amount_value := div product FUNDING_STREAM_RECEIVER_DENOMINATOR in
      let? results := stream_amounts subsidy recipients in
      Ok ((receiver, amount_value) :: results)
  end.

(** [funding_stream_values]; [all] are the funding streams of the network. *)
Definition funding_stream_values (height : Z) (net : Network) (all : list FundingStreams)
  (expected_block_subsidy : Amount NonNegative)
  : res Amount.Error (list (FundingStreamReceiver * Amount NonNegative)) :=
  if is_zero expected_block_subsidy then Ok []
  else
    let? nu := current net height in
    if nu_leb Canopy nu then
      match funding_streams all height with
      | Some streams => stream_amounts expected_block_subsidy (fs_recipients streams)
      | None => Ok []
      end
    else Ok [].

Definition miner_subsidy (height : Z) (net : Network) (all : list FundingStreams)
  (expected_block_subsidy : Amount NonNegative) : res Amount.Error (Amount NonNegative) :=
  let? reward := founders_reward net height in
  let? values := funding_stream_values height net all expected_block_subsidy in
  let? funding_streams_sum := sum values.*2 in
  rsub (sub expected_block_subsidy reward) funding_streams_sum.

(** [miner_fee_share] (subsidy/fees.rs) *)
Definition miner_fee_share {E} (height : Z) (net : Network)
  (transaction_fees : Amount NonNegative) : res E (Amount NonNegative) :=
  let? nu := current net height in
  if nu_ltb nu Nu7 then Ok transaction_fees
  else
    let? product := expect (to_sint 128 (zatoshis transaction_fees * 6)) in
    let? nsm_contribution := expect_ok (try_from_i128 (Z.quot product 10)) in
    expect_ok (sub transaction_fees nsm_contribution).

(** [nu7_adjusted_funding_stream_height] *)
Definition nu7_adjusted_funding_stream_height {E} (height : Z) (nu7_activation : option Z)
  : res E (option Z) :=
  match nu7_activation with
  | Some nu7 =>
      if nu7 <? height then
        let? d := uint_arith 32 (height - nu7) in
        Ok (blocks ← to_uint 32 (d * NU7_POW_TARGET_SPACING_RATIO);
            h ← to_uint 32 (nu7 + blocks);
            if h <=? Height.MAX then Some h else None)
      else Ok (Some height)
  | None => Ok (Some height)
  end.

(** The trait [ParameterSubsidy]. *)
Class ParameterSubsidy (N : Type) := {
  ps_height_for_first_halving : N -> res SubsidyError Z;
  ps_post_blossom_halving_interval : N -> Z;
  ps_pre_blossom_halving_interval : N -> Z;
  ps_funding_stream_address_change_interval : N -> Z;
  ps_nu7_activation_height : N -> option Z;
  ps_initial_nsm_value_balance : N -> Amount NonNegative;
}.

(** [INITIAL_NSM_VALUE_BALANCE] (subsidy/constants/mainnet.rs) *)
Definition MAINNET_INITIAL_NSM_VALUE_BALANCE : Amount NonNegative := mk 36858445520.

(** [Parameters::initial_nsm_value_balance] on a Testnet, the constant on Mainnet *)
Definition network_initial_nsm_value_balance (net : Network) : Amount NonNegative :=
  match net with
  | Mainnet => MAINNET_INITIAL_NSM_VALUE_BALANCE
  | Testnet params =>
      match p_initial_nsm_value_balance params with Some seed => seed | None => mk 0 end
  end.

Definition TESTNET_FIRST_HALVING : Z := 1116000.

Definition height_for_first_halving (net : Network) : res SubsidyError Z :=
  match net with
  | Mainnet => expect (activation_height Canopy net)
  | Testnet params =>
      if p_is_default_testnet params then Ok TESTNET_FIRST_HALVING
      else let? h := height_for_halving 1 net in expect h
  end.

#[export] Instance parameter_subsidy_network : ParameterSubsidy Network := {|
  ps_height_for_first_halving := height_for_first_halving;
  ps_post_blossom_halving_interval := post_blossom_halving_interval;
  ps_pre_blossom_halving_interval := pre_blossom_halving_interval;
  ps_funding_stream_address_change_interval := fun net =>
    Z.quot (post_blossom_halving_interval net) 48;
  ps_nu7_activation_height := activation_height Nu7;
  ps_initial_nsm_value_balance := network_initial_nsm_value_balance;
|}.

(** [i64::div_euclid] *)
Definition div_euclid {E} (a b : Z) : res E Z :=
  if b =? 0 then Panic
  else sint_arith 64 (if 0 <? b then a / b else - (a / - b)).

(** [funding_stream_address_period] *)
Definition funding_stream_address_period {N} `{ParameterSubsidy N} (height : Z) (net : N)
  : res SubsidyError Z :=
  let period_offset (height : Z) : res SubsidyError Z :=
    let? first := ps_height_for_first_halving net in
    sint_arith 64 (Height.sub_height height first + ps_post_blossom_halving_interval net) in
  let change_interval := ps_funding_stream_address_change_interval net in
  let pre_nu7 :=
    let? o := period_offset height in div_euclid o change_interval in
  match ps_nu7_activation_height net with
  | Some nu7_activation =>
      if nu7_activation <=? height then
        let ratio := NU7_POW_TARGET_SPACING_RATIO in
        let? o := period_offset nu7_activation in
        let? ro := sint_arith 64 (ratio * o) in
        let? n := sint_arith 64 (ro + Height.sub_height height nu7_activation) in
        let? d := sint_arith 64 (ratio * change_interval) in
        div_euclid n d
      else pre_nu7
  | None => pre_nu7
  end.
End Subsidy.
