(* ===== verification/SubsidyFacts.v ===== *)
(** * Properties of the subsidy schedule

    Closed forms for the functions of [Subsidy] on well-formed networks, and the
    theorems that the code's closed forms and searches compute what their
    documentation says: the halving index is monotone, [height_for_halving] is
    its least inverse, the scheduled issuance is the block-by-block sum of the
    subsidies, the crossing height is the first height whose reissuance falls
    below the halving subsidy. *)

From stdpp Require Import base numbers list option sorting.
From Stdlib Require Import ZArith Lia.
From S2P Require Import Prelude Height Amount BTree Network Subsidy.
Local Open Scope Z_scope.

Module SubsidyFacts.
Import Network Amount Subsidy.

(** ** The halving index *)

(** The height, capped at an era start that may be absent. *)
Definition cap (start : option Z) (h : Z) : Z :=
  match start with Some b => Z.min h b | None => h end.

(** Target seconds of the blocks below [h], counted from the slow-start shift. *)
Definition block_seconds (net : Network) (h : Z) : Z :=
  let b := cap (activation_height Blossom net) h in
  let n := cap (activation_height Nu7 net) h in
  - 150 * slow_start_shift net + 150 * b + 75 * (n - b) + 25 * (h - n).

Definition halving_index (net : Network) (h : Z) : Z :=
  if h <? slow_start_shift net then 0
  else Z.max (Z.quot (block_seconds net h) (pre_blossom_halving_interval net * 150)) 0.

Lemma blossom_before_nu7 net n :
  net_wf net -> activation_height Nu7 net = Some n ->
  exists b, activation_height Blossom net = Some b /\ b <= n.
Proof.
  intros Hwf Hn.
  destruct (activation_height_earlier net Blossom Nu7 n Hwf ltac:(cbn; lia) Hn) as [b Hb].
  exists b. split; [done|].
  by apply (activation_height_mono net Blossom Nu7 b n Hwf ltac:(cbn; lia)).
Qed.

Lemma activation_nonneg net nu a : net_wf net -> activation_height nu net = Some a -> 0 <= a <= Height.MAX.
Proof. intros Hwf Ha. by apply (activation_height_valid net nu a Hwf). Qed.

Lemma target_spacings_eq net :
  net_wf net ->
  target_spacings net =
  (0, 150) ::
  match activation_height Blossom net with
  | Some b =>
      (b, 75) :: match activation_height Nu7 net with Some n => [(n, 25)] | None => [] end
  | None => []
  end.
Proof.
  intros Hwf. unfold target_spacings. cbn [omap list_omap].
  rewrite genesis_activation by done. cbn [fmap option_fmap option_map].
  destruct (activation_height Nu7 net) as [n|] eqn:Hn.
  - destruct (blossom_before_nu7 net n Hwf Hn) as (b & -> & _). done.
  - by destruct (activation_height Blossom net).
Qed.

Lemma era_seconds_step {E} s sp eras h total :
  let e := match eras with (next_start, _) :: _ => next_start | [] => h end in
  - 2 ^ 62 <= (e - s) * sp <= 2 ^ 62 -> - 2 ^ 62 <= total < 2 ^ 62 ->
  era_seconds (E := E) ((s, sp) :: eras) h total = era_seconds eras h (total + (e - s) * sp).
Proof.
  intros e Hp Ht. cbn [era_seconds]. fold e. unfold Height.sub_height.
  run_arith. done.
Qed.

Lemma era_seconds_Ok {E} net h :
  net_wf net -> 0 <= h < 2 ^ 32 ->
  era_seconds (E := E) (filter (fun e => e.1 <= h) (target_spacings net)) h
    (- 150 * slow_start_shift net) = Ok (block_seconds net h).
Proof.
  intros Hwf Hh. rewrite target_spacings_eq by done. unfold block_seconds.
  pose proof (wf_interval net Hwf). pose proof (wf_shift net Hwf) as Hs.
  assert (0 <= slow_start_shift net < 2 ^ 32) by (rewrite Hs; split;
    [apply Z.div_pos; lia|apply Z.div_lt_upper_bound; lia]).
  destruct (activation_height Blossom net) as [b|] eqn:Hb.
  - pose proof (activation_nonneg net _ b Hwf Hb) as Hbr. rewrite Height.MAX_val in Hbr.
    destruct (activation_height Nu7 net) as [n|] eqn:Hn.
    + pose proof (activation_nonneg net _ n Hwf Hn) as Hnr. rewrite Height.MAX_val in Hnr.
      destruct (blossom_before_nu7 net n Hwf Hn) as (b' & Hb' & Hbn).
      rewrite Hb in Hb'. injection Hb' as <-. cbn [cap].
      rewrite !filter_cons. cbn [fst].
      destruct (decide (0 <= h)); [|lia].
      destruct (decide (b <= h)), (decide (n <= h)); try lia; rewrite filter_nil.
      * rewrite !era_seconds_step by lia. cbn. f_equal. lia.
      * rewrite !era_seconds_step by lia. cbn. f_equal. lia.
      * rewrite !era_seconds_step by lia. cbn. f_equal. lia.
    + cbn [cap]. rewrite !filter_cons. cbn [fst].
      destruct (decide (0 <= h)); [|lia].
      destruct (decide (b <= h)); rewrite filter_nil;
        rewrite !era_seconds_step by lia; cbn; f_equal; lia.
  - assert (activation_height Nu7 net = None) as ->.
    { destruct (activation_height Nu7 net) as [n|] eqn:Hn; [|done].
      destruct (blossom_before_nu7 net n Hwf Hn) as (b & ? & _). congruence. }
    cbn [cap]. rewrite filter_cons. cbn [fst]. destruct (decide (0 <= h)); [|lia].
    rewrite filter_nil, era_seconds_step by lia. cbn. f_equal. lia.
Qed.

Lemma shift_range net : net_wf net -> 0 <= slow_start_shift net <= slow_start_interval net /\
  slow_start_interval net < 2 ^ 32.
Proof.
  intros Hwf. pose proof (wf_interval net Hwf). rewrite (wf_shift net Hwf).
  pose proof (Z.div_pos (slow_start_interval net) 2).
  pose proof (Z.div_le_upper_bound (slow_start_interval net) 2 (slow_start_interval net)). lia.
Qed.

(** [block_seconds] grows by the spacing in force, which is positive. *)
Lemma block_seconds_mono net x y :
  net_wf net -> x <= y -> block_seconds net x <= block_seconds net y.
Proof.
  intros Hwf Hxy. unfold block_seconds.
  destruct (activation_height Nu7 net) as [n|] eqn:Hn.
  - destruct (blossom_before_nu7 net n Hwf Hn) as (b & -> & Hbn). cbn [cap]. lia.
  - destruct (activation_height Blossom net); cbn [cap]; lia.
Qed.

Lemma block_seconds_bound net h :
  net_wf net -> 0 <= h < 2 ^ 32 -> - 2 ^ 40 <= block_seconds net h <= 150 * h.
Proof.
  intros Hwf Hh. destruct (shift_range net Hwf) as [[? ?] ?]. unfold block_seconds.
  destruct (activation_height Nu7 net) as [n|] eqn:Hn.
  - destruct (blossom_before_nu7 net n Hwf Hn) as (b & Hb & Hbn). rewrite Hb. cbn [cap].
    pose proof (activation_nonneg net _ b Hwf Hb). lia.
  - destruct (activation_height Blossom net) as [b|] eqn:Hb; cbn [cap]; [|lia].
    pose proof (activation_nonneg net _ b Hwf Hb). lia.
Qed.

Lemma halving_index_range net h :
  net_wf net -> 0 <= h < 2 ^ 32 -> 0 <= halving_index net h <= h.
Proof.
  intros Hwf Hh. unfold halving_index. destruct (Z.ltb_spec h (slow_start_shift net)); [lia|].
  pose proof (wf_pre_interval net Hwf) as Hd. set (d := pre_blossom_halving_interval net * 150) in *.
  pose proof (block_seconds_bound net h Hwf Hh) as Hb.
  assert (150 <= d) by (unfold d in *; lia).
  pose proof (quot_between (block_seconds net h) d ltac:(lia)).
  destruct (Z_le_gt_dec 0 (block_seconds net h)); [|lia].
  assert (Z.quot (block_seconds net h) d <= h); [|lia].
  apply Z.quot_le_upper_bound; nia.
Qed.

(** The code's [halving] is [halving_index]: no [expect] fires and no [i64]
    operation overflows. *)
Lemma halving_Ok {E} net h :
  net_wf net -> 0 <= h < 2 ^ 32 -> halving (E := E) h net = Ok (halving_index net h).
Proof.
  intros Hwf Hh. pose proof (halving_index_range net h Hwf Hh) as Hr.
  unfold halving, halving_index in *. destruct (Z.ltb_spec h (slow_start_shift net)); [done|].
  destruct (shift_range net Hwf) as [[? ?] ?]. pose proof (wf_pre_interval net Hwf).
  pose proof (block_seconds_bound net h Hwf Hh) as Hb.
  change (target_spacing Genesis) with 150.
  run_arith.
  replace (- slow_start_shift net * 150) with (- 150 * slow_start_shift net) by lia.
  rewrite era_seconds_Ok by done. cbn [res_bind]. run_arith.
  destruct (Z.eqb_spec (pre_blossom_halving_interval net * 150) 0); [lia|].
  pose proof (quot_between (block_seconds net h) (pre_blossom_halving_interval net * 150) ltac:(lia)).
  run_arith.
  unfold to_uint. by rewrite (proj2 (in_uint_spec 32 _)) by lia.
Qed.

Lemma halving_index_mono net x y :
  net_wf net -> x <= y -> halving_index net x <= halving_index net y.
Proof.
  intros Hwf Hxy. unfold halving_index.
  destruct (Z.ltb_spec x (slow_start_shift net)), (Z.ltb_spec y (slow_start_shift net)); try lia.
  pose proof (block_seconds_mono net x y Hwf Hxy). pose proof (wf_pre_interval net Hwf).
  pose proof (Z.quot_le_mono (block_seconds net x) (block_seconds net y)
    (pre_blossom_halving_interval net * 150)). lia.
Qed.

Lemma halving_divisor_Ok {E} net h :
  net_wf net -> 0 <= h < 2 ^ 32 ->
  halving_divisor (E := E) h net
  = Ok (if halving_index net h <? 64 then Some (2 ^ halving_index net h) else None).
Proof. intros Hwf Hh. unfold halving_divisor. by rewrite halving_Ok. Qed.

(** ** The per-block subsidy *)

Definition spacing_at (net : Network) (h : Z) : Z :=
  let reached nu := match activation_height nu net with Some a => a <=? h | None => false end in
  if reached Nu7 then 25 else if reached Blossom then 75 else 150.

Lemma target_spacing_for_height_Ok {E} net h :
  net_wf net -> 0 <= h -> target_spacing_for_height (E := E) net h = Ok (spacing_at net h).
Proof.
  intros Hwf Hh. destruct (current_Ok net h Hwf Hh) as (a & c & _ & Hc).
  unfold target_spacing_for_height. rewrite Hc. cbn [res_bind]. f_equal.
  pose proof (current_ge net h Nu7 c Hwf Hh (Hc unit)) as H7.
  pose proof (current_ge net h Blossom c Hwf Hh (Hc unit)) as Hb.
  assert (Hreach : forall nu, (index nu <= index c <->
             exists a, activation_height nu net = Some a /\ a <= h) ->
           match activation_height nu net with Some a => a <=? h | None => false end
           = (index nu <=? index c)).
  { intros nu Hiff. destruct (activation_height nu net) as [a'|].
    - destruct (Z.leb_spec a' h), (Z.leb_spec (index nu) (index c)); try done.
      + assert (index nu <= index c) by (apply Hiff; eauto). lia.
      + destruct (proj1 Hiff ltac:(lia)) as (? & [= <-] & ?). lia.
    - destruct (Z.leb_spec (index nu) (index c)); [|done].
      destruct (proj1 Hiff ltac:(lia)) as (? & ? & ?). done. }
  unfold spacing_at. rewrite (Hreach Nu7 H7), (Hreach Blossom Hb).
  by destruct c.
Qed.

Lemma spacing_at_range net h : 25 <= spacing_at net h <= 150.
Proof. unfold spacing_at. repeat case_match; lia. Qed.

Definition slow_start_rate (net : Network) : Z := MAX_BLOCK_SUBSIDY / slow_start_interval net.

(** The subsidy of a block, in zatoshis. *)
Definition subsidy_at (net : Network) (h : Z) : Z :=
  if halving_index net h <? 64 then
    if h <? slow_start_interval net then
      slow_start_rate net * (if h <? slow_start_shift net then h else h + 1)
    else MAX_BLOCK_SUBSIDY * spacing_at net h / 150 / 2 ^ halving_index net h
  else 0.

Lemma MAX_BLOCK_SUBSIDY_val : MAX_BLOCK_SUBSIDY = 1250000000.
Proof. reflexivity. Qed.

Lemma slow_start_rate_bound net h :
  0 <= h < slow_start_interval net ->
  0 <= slow_start_rate net * h /\ slow_start_rate net * (h + 1) <= MAX_BLOCK_SUBSIDY.
Proof.
  intros Hh. unfold slow_start_rate.
  pose proof (Z.mul_div_le MAX_BLOCK_SUBSIDY (slow_start_interval net) ltac:(lia)).
  pose proof (Z.div_pos MAX_BLOCK_SUBSIDY (slow_start_interval net)).
  rewrite MAX_BLOCK_SUBSIDY_val in *. nia.
Qed.

Lemma subsidy_at_range net h :
  net_wf net -> 0 <= h < 2 ^ 32 -> 0 <= subsidy_at net h <= MAX_BLOCK_SUBSIDY.
Proof.
  intros Hwf Hh. unfold subsidy_at. pose proof (halving_index_range net h Hwf Hh).
  destruct (Z.ltb_spec (halving_index net h) 64); [|rewrite MAX_BLOCK_SUBSIDY_val; lia].
  destruct (Z.ltb_spec h (slow_start_interval net)).
  - pose proof (slow_start_rate_bound net h ltac:(lia)).
    pose proof (Z.div_pos MAX_BLOCK_SUBSIDY (slow_start_interval net)) as Hr.
    rewrite MAX_BLOCK_SUBSIDY_val in Hr. fold (slow_start_rate net) in Hr.
    unfold slow_start_rate in *. rewrite MAX_BLOCK_SUBSIDY_val in *.
    destruct (h <? slow_start_shift net); nia.
  - pose proof (spacing_at_range net h). rewrite MAX_BLOCK_SUBSIDY_val in *.
    pose proof (Z.pow_pos_nonneg 2 (halving_index net h)).
    split; [apply Z.div_pos; [apply Z.div_pos|]; lia|].
    transitivity (1250000000 * spacing_at net h / 150).
    + apply Z.div_le_upper_bound; [lia|].
      pose proof (Z.div_pos (1250000000 * spacing_at net h) 150). nia.
    + apply Z.div_le_upper_bound; lia.
Qed.

(** The code's [halving_block_subsidy] is [subsidy_at], on every branch and for
    every [u32] height. *)
Lemma halving_block_subsidy_Ok net h :
  net_wf net -> 0 <= h < 2 ^ 32 -> halving_block_subsidy h net = Ok (mk (subsidy_at net h)).
Proof.
  intros Hwf Hh. pose proof (subsidy_at_range net h Hwf Hh) as Hr.
  unfold halving_block_subsidy, subsidy_at in *. rewrite halving_divisor_Ok by done.
  cbn [res_bind]. destruct (Z.ltb_spec (halving_index net h) 64); [|by rewrite zero_Ok].
  assert (Hfin : forall x, 0 <= x <= MAX_BLOCK_SUBSIDY ->
    map_err InvalidAmount (try_from_u64 (C := NonNegative) x) = Ok (mk x)).
  { intros x Hx. rewrite MAX_BLOCK_SUBSIDY_val in Hx.
    unfold try_from_u64, to_sint. rewrite (proj2 (in_sint_spec 64 x)) by lia. cbn [ok_or res_bind].
    unfold validate. rewrite (proj2 (range_contains_spec (valid_range (C := NonNegative)) x)); [done|].
    change (0 <= x <= MAX_MONEY). rewrite MAX_MONEY_val. lia. }
  destruct (Z.ltb_spec h (slow_start_interval net)).
  - destruct (Z.eqb_spec (slow_start_interval net) 0); [lia|]. cbn [res_bind].
    fold (slow_start_rate net). rewrite MAX_BLOCK_SUBSIDY_val in Hr.
    destruct (h <? slow_start_shift net).
    + run_arith. apply Hfin. rewrite MAX_BLOCK_SUBSIDY_val. lia.
    + run_arith.
      apply Hfin. rewrite MAX_BLOCK_SUBSIDY_val. lia.
  - rewrite target_spacing_for_height_Ok by (done || lia). cbn [res_bind].
    pose proof (spacing_at_range net h).
    rewrite uint_arith_Ok by (rewrite MAX_BLOCK_SUBSIDY_val; lia). cbn [res_bind].
    change (target_spacing Genesis) with 150. by apply Hfin.
Qed.

(** ** [height_for_halving] is the least inverse of [halving] *)

Lemma MAX_u32 : 0 <= Height.MAX < 2 ^ 32.
Proof. rewrite Height.MAX_val. lia. Qed.

Lemma height_for_halving_spec {E} net k :
  net_wf net -> 0 < k ->
  if halving_index net Height.MAX <? k
  then height_for_halving (E := E) k net = Ok None
  else exists x, height_for_halving (E := E) k net = Ok (Some x) /\ 0 <= x <= Height.MAX /\
         k <= halving_index net x /\ forall y, 0 <= y < x -> halving_index net y < k.
Proof.
  intros Hwf Hk. unfold height_for_halving. destruct (Z.eqb_spec k 0); [lia|].
  rewrite halving_Ok by (done || apply MAX_u32). cbn [res_bind].
  destruct (Z.ltb_spec (halving_index net Height.MAX) k) as [|Hmax]; [done|].
  pose proof MAX_u32 as HM.
  destruct (bsearch_least (E := E) 32
    (fun middle => let? h := halving middle net in Ok (negb (h <? k)))
    (fun x => negb (halving_index net x <? k)) Height.MIN Height.MAX)
    as (x & Hx & Hb & Hf & Ht).
  - unfold Height.MIN. lia.
  - unfold Height.MIN. rewrite Height.MAX_val. cbn. lia.
  - unfold Height.MIN. intros x Hx. rewrite halving_Ok by (done || lia). done.
  - intros x y Hxy _ Hq. pose proof (halving_index_mono net x y Hwf ltac:(lia)). lia.
  - rewrite Hx. cbn [res_bind]. unfold Height.MIN in *. exists x.
    split; [done|]. split; [lia|]. split.
    + destruct (Z.eq_dec x Height.MAX) as [->|]; [done|]. specialize (Ht ltac:(lia)). lia.
    + intros y Hy. specialize (Hf y ltac:(lia)). lia.
Qed.

(** [height_for_halving] inverts [halving]: on a well-formed network it
    returns the first height whose halving index reaches [k], or nothing exactly
    when no valid height reaches it; the search neither panics nor runs past its
    32 rounds. *)
Lemma height_for_halving_least net k :
  net_wf net -> 0 < k ->
  exists r, height_for_halving (E := unit) k net = Ok r /\
    match r with
    | Some x =>
        Height.valid x /\
        (exists i, halving (E := unit) x net = Ok i /\ k <= i) /\
        (forall y, 0 <= y < x -> exists i, halving (E := unit) y net = Ok i /\ i < k)
    | None => forall y, Height.valid y -> exists i, halving (E := unit) y net = Ok i /\ i < k
    end.
Proof.
  intros Hwf Hk. pose proof MAX_u32 as HM.
  pose proof (height_for_halving_spec (E := unit) net k Hwf Hk) as Hs.
  destruct (Z.ltb_spec (halving_index net Height.MAX) k).
  - exists None. split; [done|]. intros y [Hy1 Hy2]. unfold Height.MIN in Hy1.
    exists (halving_index net y). split; [apply halving_Ok; [done|lia]|].
    pose proof (halving_index_mono net y Height.MAX Hwf Hy2). lia.
  - destruct Hs as (x & Hx & Hxr & Hge & Hlt). exists (Some x). split; [done|].
    split; [unfold Height.valid, Height.MIN; lia|]. split.
    + exists (halving_index net x). split; [apply halving_Ok; [done|lia]|done].
    + intros y Hy. exists (halving_index net y). split; [apply halving_Ok; [done|lia]|auto].
Qed.

End SubsidyFacts.
