(* ===== verification/Issuance.v ===== *)
(** * The scheduled issuance is the sum of the block subsidies

    [scheduled_issuance_zatoshis] adds two arithmetic series for the slow start
    and then one product per run of equal subsidies.  This file proves that it
    equals the block-by-block sum of [halving_block_subsidy], for every
    well-formed network and valid height, and that its loop ends within its
    fuel. *)

From stdpp Require Import base numbers list option sorting.
From Stdlib Require Import ZArith Lia.
From S2P Require Import Prelude Height Amount BTree Network Subsidy SubsidyFacts.
Local Open Scope Z_scope.

Module Issuance.
Import Network Amount Subsidy SubsidyFacts.

(** The reference: add the subsidy of every block after genesis. *)
Fixpoint sum_block_subsidies (net : Network) (n : nat) : res SubsidyError Z :=
  match n with
  | O => Ok 0
  | S n =>
      let? total := sum_block_subsidies net n in
      let? a := halving_block_subsidy (Z.of_nat (S n)) net in
      Ok (total + zatoshis a)
  end.

Fixpoint issued_nat (net : Network) (n : nat) : Z :=
  match n with
  | O => 0
  | S n => issued_nat net n + subsidy_at net (Z.of_nat (S n))
  end.

Definition issued (net : Network) (h : Z) : Z := issued_nat net (Z.to_nat h).

Lemma sum_block_subsidies_Ok net n :
  net_wf net -> Z.of_nat n < 2 ^ 32 -> sum_block_subsidies net n = Ok (issued_nat net n).
Proof.
  intros Hwf. induction n as [|n IH]; intros Hn; [done|].
  cbn [sum_block_subsidies issued_nat]. rewrite IH by lia. cbn [res_bind].
  rewrite halving_block_subsidy_Ok by (done || lia). done.
Qed.

Lemma issued_0 net : issued net 0 = 0.
Proof. reflexivity. Qed.

Lemma issued_succ net h : 0 <= h -> issued net (h + 1) = issued net h + subsidy_at net (h + 1).
Proof.
  intros Hh. unfold issued. replace (Z.to_nat (h + 1)) with (S (Z.to_nat h)) by lia.
  cbn [issued_nat]. do 2 f_equal. lia.
Qed.

(** A range of heights on which the cumulative sum follows a given function. *)
Lemma issued_range net (f : Z -> Z) a b :
  0 <= a <= b -> (forall h, a <= h < b -> f (h + 1) = f h + subsidy_at net (h + 1)) ->
  issued net b = issued net a + (f b - f a).
Proof.
  intros Hab. replace b with (a + Z.of_nat (Z.to_nat (b - a))) by lia.
  generalize (Z.to_nat (b - a)). intros n. induction n as [|n IH]; intros Hf.
  { rewrite Z.add_0_r. lia. }
  replace (a + Z.of_nat (S n)) with (a + Z.of_nat n + 1) in * by lia.
  rewrite issued_succ, IH by (lia || (intros; apply Hf; lia)).
  rewrite (Hf (a + Z.of_nat n)) by lia. lia.
Qed.

(** A run of equal subsidies. *)
Lemma issued_run net s a b :
  0 <= a <= b -> (forall h, a < h <= b -> subsidy_at net h = s) ->
  issued net b = issued net a + (b - a) * s.
Proof.
  intros Hab Hs. rewrite (issued_range net (fun h => h * s) a b Hab); [lia|].
  intros h Hh. rewrite (Hs (h + 1)) by lia. lia.
Qed.

(** ** The slow start *)

Lemma sum_from_one_through_succ n :
  0 <= n -> sum_from_one_through (n + 1) = sum_from_one_through n + (n + 1).
Proof.
  intros Hn. unfold sum_from_one_through.
  replace ((n + 1) * (n + 1 + 1)) with (n * (n + 1) + (n + 1) * 2) by lia.
  by rewrite Z.div_add by lia.
Qed.

Lemma sum_from_one_through_bound n : 0 <= n -> 0 <= sum_from_one_through n <= n * (n + 1).
Proof.
  intros Hn. unfold sum_from_one_through.
  pose proof (Z.div_pos (n * (n + 1)) 2). pose proof (Z.div_le_upper_bound (n * (n + 1)) 2 (n * (n + 1))).
  nia.
Qed.

Lemma first_overflowed_halving_height_spec {E} net last :
  net_wf net -> 0 <= last < 2 ^ 32 ->
  exists r, first_overflowed_halving_height (E := E) net last = Ok r /\
    match r with
    | None => forall h, 0 <= h <= last -> halving_index net h < 64
    | Some c => 0 <= c <= last /\ (forall h, 0 <= h < c -> halving_index net h < 64) /\
                (forall h, c <= h -> 64 <= halving_index net h)
    end.
Proof.
  intros Hwf Hl. unfold first_overflowed_halving_height, to_uint.
  rewrite (proj2 (in_uint_spec 32 last)) by lia. rewrite halving_divisor_Ok by done. cbn [res_bind].
  destruct (Z.ltb_spec (halving_index net last) 64) as [Hlt|Hge].
  { exists None. split; [done|]. intros h Hh.
    pose proof (halving_index_mono net h last Hwf ltac:(lia)). lia. }
  destruct (bsearch_least (E := E) 32
    (fun mid => let? d := halving_divisor mid net in
                Ok (match d with None => true | Some _ => false end))
    (fun h => 64 <=? halving_index net h) 0 last) as (c & Hc & Hb & Hf & Ht).
  - lia.
  - cbn. lia.
  - intros x Hx. rewrite halving_divisor_Ok by (done || lia). cbn [res_bind].
    destruct (Z.ltb_spec (halving_index net x) 64), (Z.leb_spec 64 (halving_index net x));
      done || lia.
  - intros x y Hxy _ Hq. pose proof (halving_index_mono net x y Hwf ltac:(lia)). lia.
  - rewrite Hc. cbn [res_bind]. exists (Some c). split; [done|]. split; [lia|]. split.
    + intros h Hh. specialize (Hf h ltac:(lia)). lia.
    + intros h Hh. pose proof (halving_index_mono net c h Hwf Hh).
      destruct (Z.eq_dec c last) as [->|]; [lia|]. specialize (Ht ltac:(lia)). lia.
Qed.

(** The cumulative slow-start subsidy in units of the rate. *)
Definition slow_units (shift h : Z) : Z :=
  if h <? shift then sum_from_one_through h
  else sum_from_one_through (shift - 1) + (sum_from_one_through (h + 1) - sum_from_one_through shift).

Lemma slow_units_succ shift h :
  0 < shift -> 0 <= h ->
  slow_units shift (h + 1) = slow_units shift h + (if h + 1 <? shift then h + 1 else h + 1 + 1).
Proof.
  intros Hs Hh. unfold slow_units.
  pose proof (sum_from_one_through_succ h Hh).
  pose proof (sum_from_one_through_succ (h + 1) ltac:(lia)).
  destruct (Z.ltb_spec (h + 1) shift), (Z.ltb_spec h shift); try lia.
  assert (h = shift - 1) as -> by lia. replace (shift - 1 + 1) with shift in * by lia. lia.
Qed.

(** Paying slow-start heights. *)
Lemma issued_slow_start net x :
  0 < slow_start_shift net -> 0 <= x < slow_start_interval net ->
  (forall h, 0 <= h <= x -> halving_index net h < 64) ->
  issued net x = slow_start_rate net * slow_units (slow_start_shift net) x.
Proof.
  intros Hs Hx Hpay.
  rewrite (issued_range net (fun h => slow_start_rate net * slow_units (slow_start_shift net) h) 0 x);
    [|lia|].
  - rewrite issued_0. replace (slow_units (slow_start_shift net) 0) with 0; [lia|].
    unfold slow_units. by rewrite (proj2 (Z.ltb_lt _ _)) by lia.
  - intros h Hh. rewrite slow_units_succ by lia. unfold subsidy_at.
    rewrite (proj2 (Z.ltb_lt _ 64)) by (apply Hpay; lia).
    rewrite (proj2 (Z.ltb_lt (h + 1) (slow_start_interval net))) by lia. lia.
Qed.

(** The last height of the slow start that pays: before it every height does, and
    after it none. *)
Lemma slow_start_paying net r :
  net_wf net -> 0 < slow_start_shift net ->
  match r with
  | Some c => 0 <= c <= slow_start_interval net - 1 /\ (forall h, 0 <= h < c -> halving_index net h < 64) /\
      (forall h, c <= h -> 64 <= halving_index net h)
  | None => forall h, 0 <= h <= slow_start_interval net - 1 -> halving_index net h < 64
  end ->
  let lp := match r with Some c => usat_sub c 1 | None => slow_start_interval net - 1 end in
  slow_start_shift net - 1 <= lp <= slow_start_interval net - 1 /\
  (forall h, 0 <= h <= lp -> halving_index net h < 64) /\
  (forall h, lp < h <= slow_start_interval net - 1 -> 64 <= halving_index net h).
Proof.
  intros Hwf Hs Hspec. destruct (shift_range net Hwf) as [[Hs0 HsI] HI]. destruct r as [c|]; cbn zeta.
  - destruct Hspec as (Hc & Hlo & Hhi). unfold usat_sub.
    assert (slow_start_shift net <= c).
    { destruct (Z_lt_le_dec c (slow_start_shift net)); [|done].
      specialize (Hhi c ltac:(lia)). unfold halving_index in Hhi.
      rewrite (proj2 (Z.ltb_lt _ _)) in Hhi by lia. lia. }
    split; [lia|]. split; intros; [apply Hlo|apply Hhi]; lia.
  - split; [lia|]. split; [intros; apply Hspec; lia|lia].
Qed.

Lemma slow_start_rate_range net : 0 < slow_start_interval net -> 0 <= slow_start_rate net <= MAX_BLOCK_SUBSIDY.
Proof.
  intros HI0. unfold slow_start_rate. rewrite MAX_BLOCK_SUBSIDY_val. split; [apply Z.div_pos; lia|].
  apply Z.div_le_upper_bound; nia.
Qed.

Lemma slow_start_issuance_Ok {E} net height :
  net_wf net -> 0 <= height < 2 ^ 32 ->
  slow_start_issuance (E := E) net height
  = Ok (issued net (Z.min height (Z.max (slow_start_interval net) 1 - 1))).
Proof.
  intros Hwf Hh. unfold slow_start_issuance.
  destruct (shift_range net Hwf) as [[Hs0 HsI] HI]. pose proof (wf_shift net Hwf) as Hsh.
  destruct (Z.ltb_spec 0 (slow_start_interval net)) as [HI0|]; cbn [andb].
  2: { replace (Z.min _ _) with 0 by lia. done. }
  destruct (Z.ltb_spec 0 (slow_start_shift net)) as [Hs|].
  2: { assert (slow_start_interval net < 2).
       { destruct (Z_lt_le_dec (slow_start_interval net) 2); [done|].
         pose proof (Z.div_le_mono 2 (slow_start_interval net) 2 ltac:(lia) ltac:(lia)).
         change (2 / 2) with 1 in *. lia. }
       replace (Z.min _ _) with 0 by lia. done. }
  fold (slow_start_rate net).
  replace (Z.max (slow_start_interval net) 1) with (slow_start_interval net) by lia.
  destruct (first_overflowed_halving_height_spec (E := E) net (slow_start_interval net - 1) Hwf
    ltac:(lia)) as (r & Hr & Hspec). rewrite Hr. cbn [res_bind].
  set (lp := match r with Some c => usat_sub c 1 | None => slow_start_interval net - 1 end).
  destruct (slow_start_paying net r Hwf Hs Hspec) as (Hlpr & Hpay & Hzero). fold lp in Hlpr, Hpay, Hzero.
  set (e := Z.min height lp).
  assert (Hiss : issued net (Z.min height (slow_start_interval net - 1)) = issued net e).
  { rewrite (issued_run net 0 e); [lia|unfold e; lia|]. intros h Hh'. unfold subsidy_at.
    rewrite (proj2 (Z.ltb_ge _ 64)); [done|]. apply Hzero. unfold e in Hh'. lia. }
  rewrite Hiss, issued_slow_start by (done || (unfold e in *; try intros; try apply Hpay; lia)).
  pose proof (sum_from_one_through_bound (Z.min e (slow_start_shift net - 1)) ltac:(unfold e; lia)).
  pose proof (slow_start_rate_range net HI0) as Hrate.
  rewrite MAX_BLOCK_SUBSIDY_val in Hrate.
  rewrite uint_arith_Ok by (unfold e in *; nia). cbn [res_bind]. unfold slow_units.
  destruct (Z.leb_spec (slow_start_shift net) e) as [Hse|Hse].
  - rewrite (proj2 (Z.ltb_ge e _)) by lia.
    replace (Z.min e (slow_start_shift net - 1)) with (slow_start_shift net - 1) in * by lia.
    pose proof (sum_from_one_through_bound (e + 1) ltac:(lia)).
    pose proof (sum_from_one_through_bound (slow_start_shift net) ltac:(lia)).
    assert (sum_from_one_through (slow_start_shift net) <= sum_from_one_through (e + 1)).
    { unfold sum_from_one_through. apply Z.div_le_mono; nia. }
    rewrite uint_arith_Ok; [f_equal; lia|]. unfold e in *. nia.
  - rewrite (proj2 (Z.ltb_lt e _)) by lia. rewrite Z.min_l by lia. f_equal. lia.
Qed.

(** ** The walk over runs of equal subsidies *)

Definition eras_after (net : Network) (h : Z) : Z :=
  let later nu := match activation_height nu net with
                  | Some a => if h <? a then 1 else 0
                  | None => 0
                  end in
  later Blossom + later Nu7.

(** Runs left: the halvings to the 64th, and the spacing changes. *)
Definition runs_left (net : Network) (h : Z) : Z :=
  Z.max 0 (64 - halving_index net h) + eras_after net h.

Lemma eras_after_range net h : 0 <= eras_after net h <= 2.
Proof. unfold eras_after. repeat case_match; lia. Qed.

Lemma eras_after_mono net x y : x <= y -> eras_after net y <= eras_after net x.
Proof.
  intros Hxy. unfold eras_after.
  assert (Hl : forall o, match o with Some a => if y <? a then 1 else 0 | None => 0 end
            <= match o with Some a => if x <? a then 1 else 0 | None => 0 end).
  { intros [a|]; [|lia]. destruct (Z.ltb_spec y a), (Z.ltb_spec x a); lia. }
  pose proof (Hl (activation_height Blossom net)). pose proof (Hl (activation_height Nu7 net)). lia.
Qed.

(** The code's [next_spacing_era]. *)
Definition next_era (net : Network) (h : Z) : option Z :=
  List.find (fun era_start => h <? era_start) (target_spacings net).*1.

Lemma next_era_spec net h :
  net_wf net -> 0 <= h ->
  match next_era net h with
  | Some b => h < b <= Height.MAX /\ eras_after net b < eras_after net h /\
              forall x, h <= x < b -> spacing_at net x = spacing_at net h
  | None => forall x, h <= x -> spacing_at net x = spacing_at net h
  end.
Proof.
  intros Hwf Hh. unfold next_era. rewrite target_spacings_eq by done.
  unfold eras_after, spacing_at. cbn [fmap list_fmap List.find fst].
  rewrite (proj2 (Z.ltb_ge h 0)) by lia.
  destruct (activation_height Nu7 net) as [n|] eqn:Hn.
  - destruct (blossom_before_nu7 net n Hwf Hn) as (b & Hb & Hbn). rewrite Hb.
    pose proof (activation_nonneg net _ b Hwf Hb). pose proof (activation_nonneg net _ n Hwf Hn).
    cbn [fmap list_fmap List.find fst].
    destruct (Z.ltb_spec h b); [|destruct (Z.ltb_spec h n)].
    + split; [lia|]. split; [case_ifs; lia|]. intros x Hx. case_ifs; lia.
    + split; [lia|]. split; [case_ifs; lia|]. intros x Hx. case_ifs; lia.
    + intros x Hx. case_ifs; lia.
  - destruct (activation_height Blossom net) as [b|] eqn:Hb; cbn [fmap list_fmap List.find fst].
    + pose proof (activation_nonneg net _ b Hwf Hb). destruct (Z.ltb_spec h b).
      * split; [lia|]. split; [case_ifs; lia|]. intros x Hx. case_ifs; lia.
      * intros x Hx. case_ifs; lia.
    + done.
Qed.

(** The first height of [(h, MAX]] with a higher halving index. *)
Lemma next_halving_spec {E} net h :
  net_wf net -> 0 <= h < Height.MAX -> halving_index net h < halving_index net Height.MAX ->
  exists b, bsearch (E := E) 32 (fun mid => let? i := halving mid net in
                                   Ok (halving_index net h <? i)) (h + 1) Height.MAX = Ok b /\
    h < b <= Height.MAX /\ halving_index net h < halving_index net b /\
    forall x, h <= x < b -> halving_index net x = halving_index net h.
Proof.
  intros Hwf Hh Hlt. pose proof MAX_u32 as HM.
  destruct (bsearch_least (E := E) 32
    (fun mid => let? i := halving mid net in Ok (halving_index net h <? i))
    (fun x => halving_index net h <? halving_index net x) (h + 1) Height.MAX)
    as (b & Hb & Hr & Hf & Ht).
  - lia.
  - rewrite Height.MAX_val in *. cbn. lia.
  - intros x Hx. rewrite halving_Ok by (done || lia). done.
  - intros x y Hxy _ Hq. pose proof (halving_index_mono net x y Hwf ltac:(lia)). lia.
  - exists b. split; [done|]. split; [lia|]. split.
    + destruct (Z.eq_dec b Height.MAX) as [->|]; [done|]. specialize (Ht ltac:(lia)). lia.
    + intros x Hx. pose proof (halving_index_mono net h x Hwf ltac:(lia)).
      destruct (Z.eq_dec x h) as [->|]; [done|]. specialize (Hf x ltac:(lia)). lia.
Qed.

Definition same_run (net : Network) (x y : Z) : Prop :=
  halving_index net x = halving_index net y /\ spacing_at net x = spacing_at net y.

Lemma next_subsidy_boundary_spec {E} net h :
  net_wf net -> 0 <= h <= Height.MAX ->
  exists r, next_subsidy_boundary (E := E) h net = Ok r /\
    match r with
    | Some b => h < b <= Height.MAX /\ (forall x, h <= x < b -> same_run net x h) /\
                (halving_index net h < 64 -> runs_left net b < runs_left net h)
    | None => forall x, h <= x <= Height.MAX -> same_run net x h
    end.
Proof.
  intros Hwf Hh. pose proof MAX_u32 as HM. unfold next_subsidy_boundary.
  rewrite !halving_Ok by (done || lia). cbn [res_bind]. fold (next_era net h).
  unfold to_uint. rewrite (proj2 (in_uint_spec 32 (h + 1))) by (rewrite Height.MAX_val in *; lia).
  pose proof (next_era_spec net h Hwf ltac:(lia)) as He. unfold same_run, runs_left.
  pose proof (halving_index_mono net h Height.MAX Hwf ltac:(lia)) as Hmax.
  destruct (Z.ltb_spec (halving_index net h) (halving_index net Height.MAX)) as [Hlt|Hge].
  - destruct (next_halving_spec (E := E) net h Hwf) as (b & Hb & Hr & Hi & Hsame); [|done|].
    { destruct (Z.eq_dec h Height.MAX) as [->|]; lia. }
    rewrite Hb. cbn [res_bind]. destruct (next_era net h) as [s|].
    + destruct He as (Hs & Hcount & Hsp). exists (Some (Z.min s b)). split; [done|].
      split; [lia|]. split; [intros x Hx; split; [apply Hsame|apply Hsp]; lia|]. intros H64.
      pose proof (halving_index_mono net h (Z.min s b) Hwf ltac:(lia)).
      pose proof (eras_after_mono net h (Z.min s b) ltac:(lia)).
      destruct (Z.min_spec s b) as [[? Hm]|[? Hm]]; rewrite Hm in *; lia.
    + exists (Some b). split; [done|]. split; [lia|].
      split; [intros x Hx; split; [apply Hsame|apply He]; lia|].
      pose proof (eras_after_mono net h b ltac:(lia)). lia.
  - cbn [res_bind].
    assert (Hsame : forall x, h <= x <= Height.MAX -> halving_index net x = halving_index net h).
    { intros x Hx. pose proof (halving_index_mono net h x Hwf ltac:(lia)).
      pose proof (halving_index_mono net x Height.MAX Hwf ltac:(lia)). lia. }
    destruct (next_era net h) as [s|]; (eexists; split; [done|]).
    + destruct He as (Hs & Hcount & Hsp). split; [lia|].
      split; [intros x Hx; split; [apply Hsame|apply Hsp]; lia|].
      rewrite (Hsame s) by lia. lia.
    + intros x Hx. split; [by apply Hsame|]. apply He. lia.
Qed.

Lemma subsidy_same_run net x y :
  slow_start_interval net <= x -> slow_start_interval net <= y -> same_run net x y ->
  subsidy_at net x = subsidy_at net y.
Proof.
  intros Hx Hy [Hi Hsp]. unfold subsidy_at. rewrite Hi, Hsp.
  by rewrite !(proj2 (Z.ltb_ge _ (slow_start_interval net))) by lia.
Qed.

Lemma issued_bound net h :
  net_wf net -> 0 <= h < 2 ^ 32 -> 0 <= issued net h <= h * MAX_BLOCK_SUBSIDY.
Proof.
  intros Hwf Hh. unfold issued. rewrite <- (Z2Nat.id h) at 3 by lia.
  assert (Z.of_nat (Z.to_nat h) < 2 ^ 32) as Hn by lia. revert Hn. generalize (Z.to_nat h).
  intros n. induction n as [|n IH]; intros Hn; cbn [issued_nat]; [lia|].
  pose proof (subsidy_at_range net (Z.of_nat (S n)) Hwf ltac:(lia)).
  specialize (IH ltac:(lia)). lia.
Qed.

Lemma issuance_runs_Ok net height fuel block :
  net_wf net -> Height.valid height -> 1 <= block -> slow_start_interval net <= block ->
  block <= height + 1 -> runs_left net block < Z.of_nat fuel ->
  issuance_runs fuel net block height (issued net (block - 1)) = Ok (issued net height).
Proof.
  intros Hwf [Hh0 Hh1]. unfold Height.MIN in Hh0. pose proof MAX_u32 as HM.
  revert block. induction fuel as [|fuel IH]; intros block Hb1 HbI Hbh Hfuel.
  { pose proof (eras_after_range net block). unfold runs_left in Hfuel. lia. }
  cbn [issuance_runs]. destruct (Z.leb_spec block height) as [Hle|].
  2: { replace (block - 1) with height by lia. done. }
  rewrite halving_divisor_Ok by (done || lia). cbn [res_bind].
  destruct (Z.ltb_spec (halving_index net block) 64) as [H64|H64].
  2: { rewrite (issued_run net 0 (block - 1) height); [f_equal; lia|lia|]. intros x Hx.
       unfold subsidy_at. pose proof (halving_index_mono net block x Hwf ltac:(lia)).
       by rewrite (proj2 (Z.ltb_ge _ 64)) by lia. }
  rewrite halving_block_subsidy_Ok by (done || lia). cbn [res_bind zatoshis].
  pose proof (subsidy_at_range net block Hwf ltac:(lia)) as Hs.
  unfold to_uint. rewrite (proj2 (in_uint_spec 128 _)) by (rewrite MAX_BLOCK_SUBSIDY_val in Hs; lia).
  cbn [ok_or res_bind].
  destruct (next_subsidy_boundary_spec (E := SubsidyError) net block Hwf ltac:(lia)) as (r & Hr & Hspec).
  rewrite Hr. cbn [res_bind].
  set (last := match r with Some b => b - 1 | None => height end).
  assert (Hend : match r with
    | Some b => expect_ok (Height.previous b) | None => Ok height end = Ok (E := SubsidyError) last).
  { unfold last. destruct r as [b|]; [|done].
    rewrite Height.previous_valid by (unfold Height.valid, Height.MIN; lia). done. }
  rewrite Hend. cbn [res_bind].
  assert (Hrun : block <= Z.min last height /\
    (forall x, block <= x <= Z.min last height -> same_run net x block)).
  { unfold last. destruct r as [b|].
    - destruct Hspec as (? & Hsame & _). split; [lia|]. intros; apply Hsame; lia.
    - split; [lia|]. intros; apply Hspec; lia. }
  destruct Hrun as [Hlen Hsame].
  assert (Hiss : issued net (Z.min last height) =
    issued net (block - 1) + (Z.min last height - block + 1) * subsidy_at net block).
  { rewrite (issued_run net (subsidy_at net block) (block - 1)); [lia|lia|].
    intros x Hx. apply subsidy_same_run; [lia|lia|]. apply Hsame. lia. }
  pose proof (issued_bound net (Z.min last height) Hwf ltac:(lia)) as Hib.
  rewrite MAX_BLOCK_SUBSIDY_val in Hib.
  run_arith.
  rewrite <- Hiss. unfold u32_max.
  rewrite (proj2 (Z.eqb_neq (Z.min last height) (2 ^ 32 - 1))) by (rewrite Height.MAX_val in *; lia).
  rewrite orb_false_r. destruct (Z.eqb_spec (Z.min last height) height) as [->|Hne]; [done|].
  assert (Hb : r = Some (Z.min last height + 1)).
  { unfold last in *. destruct r as [b|]; [f_equal; lia|lia]. }
  rewrite Hb in Hspec. destruct Hspec as (_ & _ & Hdec). specialize (Hdec H64).
  replace (issued net (Z.min last height)) with (issued net (Z.min last height + 1 - 1))
    by (f_equal; lia). apply IH; lia.
Qed.

Lemma scheduled_issuance_Ok net height :
  net_wf net -> Height.valid height ->
  scheduled_issuance_zatoshis height net = Ok (issued net height).
Proof.
  intros Hwf Hv. pose proof Hv as [Hh0 Hh1]. unfold Height.MIN in Hh0. pose proof MAX_u32 as HM.
  destruct (shift_range net Hwf) as [_ HI]. unfold scheduled_issuance_zatoshis.
  rewrite slow_start_issuance_Ok by (done || lia). cbn [res_bind]. unfold to_uint.
  rewrite !(proj2 (in_uint_spec 32 _)) by lia. cbn [ok_or res_bind].
  set (block := Z.max (slow_start_interval net) 1) in *.
  destruct (Z_le_gt_dec block (height + 1)).
  - rewrite Z.min_r by lia. apply issuance_runs_Ok; try done; try lia.
    unfold runs_left. pose proof (eras_after_range net block).
    assert (0 <= halving_index net block); [|lia].
    unfold halving_index. case_ifs; lia.
  - rewrite Z.min_l by lia. cbn [issuance_runs].
    by rewrite (proj2 (Z.leb_gt block height)) by lia.
Qed.

(** C20: the scheduled issuance at a height is the sum of the halving subsidies
    of all blocks after genesis up to it: the closed forms for the slow start
    and the walk over runs of equal subsidies agree with the block-by-block sum
    for every well-formed network, without a panic, an overflow or an error. *)
Theorem scheduled_issuance_is_sum net height :
  net_wf net -> Height.valid height ->
  scheduled_issuance_zatoshis height net = sum_block_subsidies net (Z.to_nat height) /\
  is_ok (scheduled_issuance_zatoshis height net) = true.
Proof.
  intros Hwf Hv. rewrite scheduled_issuance_Ok by done. destruct Hv as [H0 H1]. unfold Height.MIN in H0.
  pose proof MAX_u32. split; [|done]. by rewrite sum_block_subsidies_Ok by (done || lia).
Qed.

Lemma scheduled_issuance_is_sum_witness :
  scheduled_issuance_zatoshis 1046400 Mainnet
  = sum_block_subsidies Mainnet (Z.to_nat 1046400) /\
  is_ok (scheduled_issuance_zatoshis 1046400 Mainnet) = true.
Proof.
  apply (scheduled_issuance_is_sum Mainnet 1046400).
  - apply mainnet_wf.
  - split; vm_compute; discriminate.
Defined.

End Issuance.
