(* ===== verification/Reissuance.v ===== *)
(** * NSM reissuance, the block subsidy and its division

    The closed form for the first reissuance crossing is compared with a
    block-by-block definition of a crossing, and the block subsidy, the bonus,
    the founders reward, the funding streams and the fee share are shown to be
    total and to account for every zatoshi. *)

From stdpp Require Import base numbers list option sorting.
From Stdlib Require Import ZArith Lia.
From S2P Require Import Prelude Height Amount BTree Network Subsidy SubsidyFacts Issuance.
Local Open Scope Z_scope.

Module Reissuance.
Import Network Amount Subsidy SubsidyFacts Issuance.

Abbreviation NUM := BLOCK_SUBSIDY_FRACTION_NUMERATOR (only parsing).
Abbreviation DEN := BLOCK_SUBSIDY_FRACTION_DENOMINATOR (only parsing).

(** The reference reissuance [ceil(reserve * NUM / DEN)] of a money reserve. *)
Definition reference_subsidy (reserve : Z) : Z := div_ceil (reserve * NUM) DEN.

(** [ceil(fraction * reserve) < subsidy] exactly when the reserve is at most the
    code's [max_reserve]. *)
Lemma reference_subsidy_lt reserve subsidy :
  reference_subsidy reserve < subsidy <-> reserve <= (subsidy - 1) * DEN / NUM.
Proof.
  unfold reference_subsidy.
  assert (div_ceil (reserve * NUM) DEN < subsidy <-> div_ceil (reserve * NUM) DEN <= subsidy - 1) as ->
    by lia.
  rewrite div_ceil_le by done. unfold NUM, DEN. split; intros H.
  - apply Z.div_le_lower_bound; lia.
  - pose proof (Z.mul_div_le ((subsidy - 1) * 10000000000) 1375). lia.
Qed.

(** The reserve before the block at [h] of a constant-subsidy run. *)
Definition run_reserve (first supply subsidy max_money h : Z) : Z :=
  usat_sub max_money (supply + (h - first) * subsidy).

Definition least_in (first last : Z) (P : Z -> Prop) (r : option Z) : Prop :=
  match r with
  | Some c => first <= c <= last /\ P c /\ forall h, first <= h < c -> ~ P h
  | None => forall h, first <= h <= last -> ~ P h
  end.

Lemma least_in_iff first last P Q r :
  (forall h, first <= h <= last -> P h <-> Q h) -> least_in first last P r -> least_in first last Q r.
Proof.
  intros Hpq. destruct r as [c|]; cbn.
  - intros (Hc & HP & Hl). split; [done|]. split; [by apply Hpq|].
    intros h Hh HQ. apply (Hl h Hh). apply Hpq; [lia|done].
  - intros Hl h Hh HQ. apply (Hl h Hh). by apply Hpq.
Qed.

Lemma first_nsm_crossing_spec first last supply subsidy max_money :
  0 <= first < 2 ^ 32 -> 0 <= last < 2 ^ 32 -> 0 <= supply -> 0 <= subsidy < 2 ^ 64 ->
  0 <= max_money < 2 ^ 64 ->
  exists r, first_nsm_crossing_in_subsidy_run first last supply subsidy max_money = Ok r /\
    least_in first last
      (fun h => reference_subsidy (run_reserve first supply subsidy max_money h) < subsidy) r.
Proof.
  intros Hf Hl Hsup Hs Hm. unfold first_nsm_crossing_in_subsidy_run.
  assert (Hzero : forall h, ~ (reference_subsidy (run_reserve first supply 0 max_money h) < 0)).
  { intros h. unfold reference_subsidy, run_reserve, usat_sub.
    pose proof (div_ceil_nonneg (Z.max 0 (max_money - (supply + (h - first) * 0)) * NUM) DEN).
    unfold NUM, DEN in *. lia. }
  destruct (Z.ltb_spec last first); cbn [orb].
  { exists None. split; [done|]. intros h Hh. lia. }
  destruct (Z.eqb_spec subsidy 0) as [->|Hs0].
  { exists None. split; [done|]. intros h Hh. apply Hzero. }
  unfold to_uint. rewrite (proj2 (in_uint_spec 128 (subsidy - 1))) by lia. cbn [mbind option_bind].
  rewrite (proj2 (in_uint_spec 128 _)) by (unfold DEN; lia). cbn [ok_or res_bind].
  set (maxr := (subsidy - 1) * DEN / NUM). set (reserve := usat_sub max_money supply).
  set (q := div_ceil (usat_sub reserve maxr) subsidy).
  assert (Hreserve : 0 <= usat_sub reserve maxr <= max_money).
  { assert (0 <= maxr) by (apply Z.div_pos; unfold DEN, NUM; lia).
    unfold reserve, usat_sub in *. lia. }
  assert (Hq : 0 <= q) by (apply div_ceil_nonneg; lia).
  assert (q <= max_money) by (apply div_ceil_le; nia).
  assert (Hcross : forall h, first <= h ->
    (reference_subsidy (run_reserve first supply subsidy max_money h) < subsidy <-> first + q <= h)).
  { intros h Hh. rewrite reference_subsidy_lt. fold maxr.
    assert (first + q <= h <-> q <= h - first) as -> by lia. unfold q. rewrite div_ceil_le by lia.
    assert (0 <= maxr) by (apply Z.div_pos; unfold DEN, NUM; lia).
    unfold run_reserve, reserve, usat_sub. nia. }
  rewrite (proj2 (in_uint_spec 128 (first + q))) by lia. cbn [ok_or res_bind].
  destruct (Z.ltb_spec last (first + q)).
  - exists None. split; [done|]. intros h Hh. rewrite Hcross by lia. lia.
  - rewrite (proj2 (in_uint_spec 32 (first + q))) by lia. cbn [ok_or res_bind].
    exists (Some (first + q)). split; [done|]. split; [lia|]. split; [apply Hcross; lia|].
    intros h Hh. rewrite Hcross by lia. lia.
Qed.

(** The definition of the code's documentation: the reference subsidy, assuming
    no funds were removed from circulation, is less than the scheduled one. *)
Definition crosses (net : Network) (h : Z) : Prop :=
  exists supply a,
    scheduled_issuance_zatoshis (h - 1) net = Ok supply /\
    halving_block_subsidy h net = Ok a /\
    reference_subsidy (usat_sub MAX_MONEY supply) < zatoshis a.

Lemma crosses_iff net h :
  net_wf net -> 1 <= h <= Height.MAX ->
  crosses net h <-> reference_subsidy (usat_sub MAX_MONEY (issued net (h - 1))) < subsidy_at net h.
Proof.
  intros Hwf Hh. pose proof MAX_u32. unfold crosses.
  rewrite scheduled_issuance_Ok by (done || (unfold Height.valid, Height.MIN; lia)).
  rewrite halving_block_subsidy_Ok by (done || lia). split.
  - by intros (? & ? & [= <-] & [= <-] & ?).
  - intros Hlt. eauto.
Qed.

Lemma third_era_index net t3 fourth h :
  net_wf net -> height_for_halving (E := SubsidyError) 3 net = Ok (Some t3) ->
  height_for_halving (E := SubsidyError) 4 net = Ok fourth ->
  t3 <= h <= Height.MAX ->
  halving_index net h = 3 <-> match fourth with Some t4 => h < t4 | None => True end.
Proof.
  intros Hwf H3 H4 Hh.
  pose proof (height_for_halving_spec (E := SubsidyError) net 3 Hwf ltac:(lia)) as S3.
  pose proof (height_for_halving_spec (E := SubsidyError) net 4 Hwf ltac:(lia)) as S4.
  destruct (Z.ltb_spec (halving_index net Height.MAX) 3); [congruence|].
  destruct S3 as (x & Hx & Hxr & Hge & _). rewrite H3 in Hx. injection Hx as <-.
  pose proof (halving_index_mono net t3 h Hwf ltac:(lia)).
  destruct (Z.ltb_spec (halving_index net Height.MAX) 4).
  - rewrite H4 in S4. injection S4 as ->.
    pose proof (halving_index_mono net h Height.MAX Hwf ltac:(lia)). lia.
  - destruct S4 as (y & Hy & Hyr & Hge4 & Hlt4). rewrite H4 in Hy. injection Hy as ->. split.
    + intros Hi. destruct (Z_lt_le_dec h y); [done|].
      pose proof (halving_index_mono net y h Hwf ltac:(lia)). lia.
    + intros Hlt. specialize (Hlt4 h ltac:(lia)). lia.
Qed.

Lemma height_for_halving_cases {E} net k :
  net_wf net -> 0 < k ->
  exists r, height_for_halving (E := E) k net = Ok r /\
    match r with Some x => 0 < x <= Height.MAX | None => True end.
Proof.
  intros Hwf Hk. pose proof (height_for_halving_spec (E := E) net k Hwf Hk) as Hs.
  destruct (Z.ltb_spec (halving_index net Height.MAX) k); [by exists None|].
  destruct Hs as (x & Hx & Hr & Hge & _). exists (Some x). split; [done|].
  destruct (Z.eq_dec x 0) as [->|]; [|lia].
  pose proof (halving_index_range net 0 Hwf ltac:(lia)). lia.
Qed.

(** The candidate heights of the derivation. *)
Definition era_last (fourth : option Z) : Z :=
  match fourth with Some t4 => t4 - 1 | None => Height.MAX end.

Lemma crossing_height_eq net nu7 t3 fourth :
  net_wf net -> activation_height Nu7 net = Some nu7 ->
  height_for_halving (E := SubsidyError) 3 net = Ok (Some t3) ->
  height_for_halving (E := SubsidyError) 4 net = Ok fourth ->
  let first := Z.max (t3 + 1) nu7 in
  nsm_reissuance_crossing_height net =
    if era_last fourth <? first then Ok None
    else first_nsm_crossing_in_subsidy_run first (era_last fourth) (issued net (first - 1))
           (subsidy_at net first) MAX_MONEY.
Proof.
  intros Hwf Hn H3 H4 first. pose proof MAX_u32 as HM.
  destruct (height_for_halving_cases (E := SubsidyError) net 3 Hwf ltac:(lia)) as (r3 & Hr3 & Hb3).
  rewrite H3 in Hr3. injection Hr3 as <-.
  destruct (height_for_halving_cases (E := SubsidyError) net 4 Hwf ltac:(lia)) as (r4 & Hr4 & Hb4).
  rewrite H4 in Hr4. injection Hr4 as <-.
  pose proof (activation_nonneg net _ nu7 Hwf Hn) as Hnr.
  unfold nsm_reissuance_crossing_height. change NSM_REISSUANCE_START_HALVING with 3. change (3 + 1) with 4.
  rewrite Hn, H3. cbn [res_bind]. rewrite H4. cbn [res_bind].
  assert (Hlast : match fourth with
    | Some t4 => map_err (fun _ => UnsupportedHeight) (Height.previous t4)
    | None => Ok Height.MAX end = Ok (era_last fourth)).
  { destruct fourth as [t4|]; [|done].
    by rewrite Height.previous_valid by (unfold Height.valid, Height.MIN; lia). }
  rewrite Hlast. cbn [res_bind]. unfold to_uint.
  rewrite (proj2 (in_uint_spec 32 (t3 + 1))) by (rewrite Height.MAX_val in *; lia).
  cbn [ok_or res_bind]. fold first.
  destruct (Z.ltb_spec (era_last fourth) first) as [|Hle]; [done|].
  assert (first <= Height.MAX) by (destruct fourth; cbn [era_last] in Hle; lia).
  rewrite Height.previous_valid by (unfold Height.valid, Height.MIN; lia). cbn [map_err res_bind].
  rewrite scheduled_issuance_Ok by (done || (unfold Height.valid, Height.MIN; lia)). cbn [res_bind].
  rewrite halving_block_subsidy_Ok by (done || lia). cbn [res_bind]. unfold amount_to_u128, to_uint.
  pose proof (subsidy_at_range net first Hwf ltac:(lia)) as Hs. rewrite MAX_BLOCK_SUBSIDY_val in Hs.
  cbn [zatoshis]. rewrite (proj2 (in_uint_spec 128 _)) by lia. cbn [expect res_bind].
  done.
Qed.

Lemma crossing_is_first net nu7 t3 :
  net_wf net -> activation_height Nu7 net = Some nu7 ->
  height_for_halving (E := SubsidyError) 3 net = Ok (Some t3) ->
  slow_start_interval net <= t3 + 1 ->
  exists r, nsm_reissuance_crossing_height net = Ok r /\
    least_in 0 Height.MAX
      (fun h => nu7 <= h /\ t3 < h /\ halving (E := unit) h net = Ok 3 /\ crosses net h) r.
Proof.
  intros Hwf Hn H3 Hslow. pose proof MAX_u32 as HM.
  destruct (height_for_halving_cases (E := SubsidyError) net 3 Hwf ltac:(lia)) as (r3 & Hr3 & Hb3).
  rewrite H3 in Hr3. injection Hr3 as <-.
  destruct (height_for_halving_cases (E := SubsidyError) net 4 Hwf ltac:(lia)) as (fourth & H4 & Hb4).
  pose proof (activation_nonneg net _ nu7 Hwf Hn) as Hnr.
  rewrite (crossing_height_eq net nu7 t3 fourth) by done.
  set (first := Z.max (t3 + 1) nu7). set (last := era_last fourth).
  assert (Hlast : last <= Height.MAX) by (unfold last; destruct fourth; cbn; lia).
  assert (Hera : forall h, t3 < h <= Height.MAX -> halving_index net h = 3 <-> h <= last).
  { intros h Hh. rewrite (third_era_index net t3 fourth h) by (done || lia).
    unfold last. destruct fourth; cbn [era_last]; lia. }
  assert (Hcand : forall h, 0 <= h <= Height.MAX ->
    (nu7 <= h /\ t3 < h /\ halving (E := unit) h net = Ok 3 /\ crosses net h) <->
    (first <= h <= last /\ crosses net h)).
  { intros h Hh. rewrite halving_Ok by (done || lia).
    assert (Ok (E := unit) (halving_index net h) = Ok 3 <-> halving_index net h = 3) as ->
      by (split; [by intros [= ?]|by intros ->]).
    split; [intros (? & ? & Hi & ?)|intros ([? ?] & ?)].
    - apply Hera in Hi; [|lia]. split; [unfold first; lia|done].
    - unfold first in *. split; [lia|]. split; [lia|]. split; [apply Hera; lia|done]. }
  assert (Hlift : forall r, least_in first last (crosses net) r ->
    least_in 0 Height.MAX (fun h => nu7 <= h /\ t3 < h /\ halving (E := unit) h net = Ok 3 /\
                                    crosses net h) r).
  { intros [c|]; cbn; intros Hr.
    - destruct Hr as (Hc & HP & Hl). unfold first in *. split; [lia|].
      split; [apply Hcand; [lia|done]|]. intros h Hh Hx. apply Hcand in Hx; [|lia].
      destruct Hx as [? Hx]. by apply (Hl h); [lia|].
    - intros h Hh Hx. apply Hcand in Hx; [|lia]. destruct Hx as [? Hx]. by apply (Hr h). }
  destruct (Z.ltb_spec last first) as [|Hle].
  { exists None. split; [done|]. apply Hlift. intros h Hh. lia. }
  pose proof (subsidy_at_range net first Hwf ltac:(lia)) as Hs. rewrite MAX_BLOCK_SUBSIDY_val in Hs.
  pose proof (issued_bound net (first - 1) Hwf ltac:(lia)).
  destruct (first_nsm_crossing_spec first last (issued net (first - 1)) (subsidy_at net first)
    MAX_MONEY) as (r & Hr & Hleast); try lia.
  { rewrite MAX_MONEY_val. lia. }
  exists r. split; [done|]. apply Hlift. revert Hleast. apply least_in_iff. intros h Hh.
  assert (Hconst : forall x, first <= x <= last -> subsidy_at net x = subsidy_at net first).
  { intros x Hx. apply subsidy_same_run; [lia|lia|]. split.
    - transitivity 3; [apply Hera; lia|symmetry; apply Hera; lia].
    - unfold spacing_at. rewrite Hn. by rewrite !(proj2 (Z.leb_le nu7 _)) by lia. }
  rewrite crosses_iff by (done || lia). rewrite (Hconst h Hh). unfold run_reserve.
  rewrite (issued_run net (subsidy_at net first) (first - 1) (h - 1)); [|lia|intros; apply Hconst; lia].
  by replace (h - 1 - (first - 1)) with (h - first) by lia.
Qed.

(** C22: [nsm_reissuance_crossing_height] finds the first crossing, on every network
    whose slow start ends at the latest with the first block of the third halving
    era.  With NU7 and a third halving at the height [t3], it is the least height
    strictly after [t3], from NU7 on and in the third era, whose reference
    reissuance is below the halving subsidy, and [None] exactly when there is none;
    without NU7 or without a third halving it is [None].  The closed form never
    fails, so the [expect] of [nsm_reissuance_height] does not fire. *)
Theorem nsm_crossing_is_first net :
  net_wf net ->
  (forall t3, height_for_halving (E := SubsidyError) 3 net = Ok (Some t3) -> slow_start_interval net <= t3 + 1) ->
  exists r, nsm_reissuance_crossing_height net = Ok r /\
    match activation_height Nu7 net, height_for_halving (E := SubsidyError) 3 net with
    | Some nu7, Ok (Some t3) =>
        least_in 0 Height.MAX
          (fun h => nu7 <= h /\ t3 < h /\ halving (E := unit) h net = Ok 3 /\ crosses net h) r
    | _, _ => r = None
    end.
Proof.
  intros Hwf Hslow. destruct (activation_height Nu7 net) as [nu7|] eqn:Hn.
  2: { exists None. split; [|done]. unfold nsm_reissuance_crossing_height. by rewrite Hn. }
  destruct (height_for_halving_cases (E := SubsidyError) net 3 Hwf ltac:(lia)) as ([t3|] & H3 & _); rewrite H3.
  - apply (crossing_is_first net nu7 t3); auto.
  - exists None. split; [|done]. unfold nsm_reissuance_crossing_height. change NSM_REISSUANCE_START_HALVING with 3.
    by rewrite Hn, H3.
Qed.

Lemma nsm_crossing_is_first_witness :
  exists nu7 r, activation_height Nu7 Mainnet = Some nu7 /\ nsm_reissuance_crossing_height Mainnet = Ok r /\
    least_in 0 Height.MAX
      (fun h => nu7 <= h /\ 6132390 < h /\ halving (E := unit) h Mainnet = Ok 3 /\ crosses Mainnet h) r.
Proof.
  assert (H3 : height_for_halving (E := SubsidyError) 3 Mainnet = Ok (Some 6132390)) by (vm_compute; reflexivity).
  destruct (nsm_crossing_is_first Mainnet) as (r & Hr & H).
  - apply mainnet_wf.
  - intros t3 Ht. rewrite H3 in Ht. injection Ht as <-. vm_compute. discriminate.
  - rewrite H3 in H. destruct (activation_height Nu7 Mainnet) as [nu7|] eqn:Hn; [|vm_compute in Hn; discriminate].
    exists nu7, r. split; [reflexivity|]. split; [exact Hr|exact H].
Defined.

(** ** The block subsidy *)

Lemma nsm_reissuance_height_Ok {E} net :
  net_wf net -> exists r, nsm_reissuance_height (E := E) net = Ok r /\
    match r with
    | Some c => exists nu7, activation_height Nu7 net = Some nu7 /\ nu7 <= c
    | None => True
    end.
Proof.
  intros Hwf. pose proof MAX_u32 as HM. unfold nsm_reissuance_height.
  destruct (activation_height Nu7 net) as [nu7|] eqn:Hn; [|by exists None].
  pose proof (activation_nonneg net _ nu7 Hwf Hn) as Hnr.
  destruct (height_for_halving_cases (E := SubsidyError) net 3 Hwf ltac:(lia)) as ([t3|] & H3 & Hb3).
  2: { unfold nsm_reissuance_crossing_height. change NSM_REISSUANCE_START_HALVING with 3.
       rewrite Hn, H3. by exists None. }
  destruct (height_for_halving_cases (E := SubsidyError) net 4 Hwf ltac:(lia)) as (fourth & H4 & Hb4).
  rewrite (crossing_height_eq net nu7 t3 fourth) by done.
  assert (Hlast : era_last fourth <= Height.MAX) by (destruct fourth; cbn; lia).
  destruct (Z.ltb_spec (era_last fourth) (Z.max (t3 + 1) nu7)) as [|Hle]; [by exists None|].
  set (first := Z.max (t3 + 1) nu7) in *.
  pose proof (subsidy_at_range net first Hwf ltac:(lia)) as Hs. rewrite MAX_BLOCK_SUBSIDY_val in Hs.
  pose proof (issued_bound net (first - 1) Hwf ltac:(lia)).
  destruct (first_nsm_crossing_spec first (era_last fourth) (issued net (first - 1))
    (subsidy_at net first) MAX_MONEY) as (r & Hr & Hleast); try lia.
  { rewrite MAX_MONEY_val. lia. }
  rewrite Hr. exists r. split; [done|]. destruct r as [c|]; [|done].
  destruct Hleast as (? & _). exists nu7. split; [done|lia].
Qed.

Definition bonus_of (balance : Z) : Z := div_ceil (balance * NUM) DEN.

Lemma bonus_of_range balance : 0 <= balance -> 0 <= bonus_of balance <= balance.
Proof.
  intros Hb. unfold bonus_of. split; [apply div_ceil_nonneg; unfold NUM, DEN; lia|].
  apply div_ceil_le; unfold NUM, DEN; lia.
Qed.

Lemma reissuance_bonus_Ok (b : Amount NonNegative) :
  wf b -> reissuance_bonus b = Ok (mk (bonus_of (zatoshis b))).
Proof.
  rewrite wf_non_negative. intros Hb. pose proof (bonus_of_range (zatoshis b) ltac:(lia)) as Hr.
  rewrite MAX_MONEY_val in Hb. unfold reissuance_bonus, reissuance_amount, amount_to_u128, to_uint.
  rewrite (proj2 (in_uint_spec 128 (zatoshis b))) by lia. cbn [expect res_bind].
  rewrite (proj2 (in_uint_spec 128 _)) by (unfold NUM; lia). cbn [ok_or res_bind].
  fold (bonus_of (zatoshis b)). unfold to_sint.
  rewrite (proj2 (in_sint_spec 64 _)) by lia. cbn [ok_or res_bind].
  by rewrite try_from_i64_non_negative by (rewrite MAX_MONEY_val; lia).
Qed.

(** C30: the block subsidy on every branch.  Before reissuance it is the halving
    subsidy and ignores the balance; from the reissuance height on it is an error
    without a balance, and otherwise the halving subsidy plus a bonus that is
    zero for a zero balance and, for a positive one, at least one zatoshi and at
    most the balance.  It neither panics nor overflows. *)
Theorem block_subsidy_branches net h (balance : option (Amount NonNegative)) :
  net_wf net -> Height.valid h -> (forall b, balance = Some b -> wf b) ->
  exists active a,
    is_zip234_active (E := unit) net h = Ok active /\ halving_block_subsidy h net = Ok a /\
    match active, balance with
    | false, _ => block_subsidy h net balance = Ok a
    | true, None => block_subsidy h net balance = Err MissingNsmValueBalance
    | true, Some b =>
        exists bonus, block_subsidy h net balance = Ok (mk (zatoshis a + bonus)) /\
          (zatoshis b = 0 -> bonus = 0) /\ (0 < zatoshis b -> 1 <= bonus <= zatoshis b)
    end.
Proof.
  intros Hwf [H0 H1] Hbal. unfold Height.MIN in H0. pose proof MAX_u32 as HM.
  unfold block_subsidy, is_zip234_active.
  destruct (nsm_reissuance_height_Ok (E := SubsidyError) net Hwf) as (r & Hr & _).
  destruct (nsm_reissuance_height_Ok (E := unit) net Hwf) as (r' & Hr' & _).
  assert (r' = r) as ->.
  { unfold nsm_reissuance_height in *. destruct (activation_height Nu7 net); [|congruence].
    unfold expect_ok in *. destruct (nsm_reissuance_crossing_height net); congruence. }
  rewrite Hr, Hr'. cbn [res_bind]. rewrite halving_block_subsidy_Ok by (done || lia).
  set (active := match r with Some start => start <=? h | None => false end).
  exists active, (mk (subsidy_at net h)). split; [done|]. split; [done|].
  destruct active; [|done]. destruct balance as [b|]; [|done].
  specialize (Hbal b eq_refl). cbn [ok_or res_bind]. rewrite reissuance_bonus_Ok by done.
  cbn [res_bind]. pose proof Hbal as Hb. rewrite wf_non_negative in Hb.
  exists (bonus_of (zatoshis b)). pose proof (bonus_of_range (zatoshis b) ltac:(lia)) as Hr2.
  pose proof (subsidy_at_range net h Hwf ltac:(lia)) as Hs.
  rewrite MAX_BLOCK_SUBSIDY_val in Hs. rewrite MAX_MONEY_val in Hb.
  assert (bonus_of (zatoshis b) <= 300000000).
  { apply div_ceil_le; unfold NUM, DEN; lia. }
  split; [|split].
  - rewrite add_spec; [|apply wf_non_negative; cbn [zatoshis]; rewrite MAX_MONEY_val; lia
                       |apply wf_non_negative; cbn [zatoshis]; rewrite MAX_MONEY_val; lia].
    cbn [zatoshis]. by rewrite try_from_i64_non_negative by (rewrite MAX_MONEY_val; lia).
  - intros ->. done.
  - intros Hpos. split; [|lia]. destruct (Z_lt_le_dec (bonus_of (zatoshis b)) 1); [|done].
    assert (bonus_of (zatoshis b) <= 0) as Hz by lia.
    apply (div_ceil_le (zatoshis b * NUM) DEN 0) in Hz; [|done]. unfold NUM in Hz. lia.
Qed.

Lemma block_subsidy_branches_witness :
  exists active a,
    is_zip234_active (E := unit) Mainnet 9000000 = Ok active /\
    halving_block_subsidy 9000000 Mainnet = Ok a /\
    match active, Some (mk (C := NonNegative) 1000) with
    | false, _ => block_subsidy 9000000 Mainnet (Some (mk 1000)) = Ok a
    | true, None => block_subsidy 9000000 Mainnet (Some (mk 1000)) = Err MissingNsmValueBalance
    | true, Some b =>
        exists bonus, block_subsidy 9000000 Mainnet (Some (mk 1000)) = Ok (mk (zatoshis a + bonus)) /\
          (zatoshis b = 0 -> bonus = 0) /\ (0 < zatoshis b -> 1 <= bonus <= zatoshis b)
    end.
Proof.
  apply (block_subsidy_branches Mainnet 9000000 (Some (mk 1000))).
  - apply mainnet_wf.
  - split; vm_compute; discriminate.
  - intros b [= <-]. vm_compute. reflexivity.
Defined.
End Reissuance.
