(* ===== verification/Payout.v ===== *)
(** * The division of the block subsidy and of the fees

    Founders reward, funding streams, miner subsidy, miner fee share and funding
    stream address periods: every zatoshi of the subsidy and of the fees is
    accounted for, and ZIP 218 keeps the address periods. *)

From stdpp Require Import base numbers list option sorting.
From Stdlib Require Import ZArith Lia.
From S2P Require Import Prelude Height Amount BTree Network Subsidy SubsidyFacts Issuance Reissuance.
Local Open Scope Z_scope.

Module Payout.
Import Network Amount Subsidy SubsidyFacts Issuance Reissuance.

(** ** Founders reward *)

(** The founders reward applies before the first halving and before Canopy. *)
Definition founders_era (net : Network) (h : Z) : bool :=
  (halving_index net h <? 1) &&
  negb (match activation_height Canopy net with Some a => a <=? h | None => false end).

Lemma current_ltb net h nu c :
  net_wf net -> 0 <= h -> (forall E, current (E := E) net h = Ok c) ->
  nu_ltb c nu = negb (match activation_height nu net with Some a => a <=? h | None => false end).
Proof.
  intros Hwf Hh Hc. pose proof (current_ge net h nu c Hwf Hh (Hc unit)) as Hiff. unfold nu_ltb.
  destruct (activation_height nu net) as [a|].
  - destruct (Z.leb_spec a h), (Z.ltb_spec (index c) (index nu)); try done.
    + assert (index nu <= index c) by (apply Hiff; eauto). lia.
    + destruct (proj1 Hiff ltac:(lia)) as (? & [= <-] & ?). lia.
  - destruct (Z.ltb_spec (index c) (index nu)); [done|].
    destruct (proj1 Hiff ltac:(lia)) as (? & ? & ?). done.
Qed.

(** Subsidies of the founders era divide by five when the slow-start rate does. *)
Lemma founders_subsidy_divides net h :
  net_wf net -> 0 <= h < 2 ^ 32 -> (5 | slow_start_rate net) -> founders_era net h = true ->
  (5 | subsidy_at net h).
Proof.
  intros Hwf Hh [k Hk] [Hi Hc]%andb_prop. unfold subsidy_at.
  pose proof (halving_index_range net h Hwf Hh).
  rewrite (proj2 (Z.ltb_lt (halving_index net h) 64)) by lia.
  destruct (Z.ltb_spec h (slow_start_interval net)).
  - rewrite Hk. exists (k * (if h <? slow_start_shift net then h else h + 1)). lia.
  - replace (halving_index net h) with 0 by lia. unfold spacing_at. rewrite MAX_BLOCK_SUBSIDY_val.
    assert (Hdiv : forall b : bool, (5 | 1250000000 * (if b then 75 else 150) / 150 / 2 ^ 0)).
    { intros []; [exists 125000000|exists 250000000]; reflexivity. }
    destruct (activation_height Nu7 net) as [n|] eqn:Hn; [|apply Hdiv].
    destruct (activation_height_earlier net Canopy Nu7 n Hwf ltac:(cbn; lia) Hn) as [c Hcan].
    pose proof (activation_height_mono net Canopy Nu7 c n Hwf ltac:(cbn; lia) Hcan Hn).
    rewrite Hcan in Hc. rewrite (proj2 (Z.leb_gt n h)) by lia. apply Hdiv.
Qed.

Lemma founders_reward_Ok {E} net h :
  net_wf net -> 0 <= h < 2 ^ 32 -> (5 | slow_start_rate net) ->
  founders_reward (E := E) net h
  = Ok (mk (if founders_era net h then subsidy_at net h / 5 else 0)).
Proof.
  intros Hwf Hh H5. unfold founders_reward. rewrite halving_Ok by done. cbn [res_bind].
  destruct (current_Ok net h Hwf ltac:(lia)) as (a & c & _ & Hc). rewrite Hc. cbn [res_bind].
  rewrite (current_ltb net h Canopy c Hwf ltac:(lia) Hc). fold (founders_era net h).
  destruct (founders_era net h) eqn:Hera; [|apply zero_Ok].
  rewrite halving_block_subsidy_Ok by done. cbn [expect_ok res_bind]. unfold div_exact. cbn [zatoshis].
  pose proof (subsidy_at_range net h Hwf Hh) as Hs. rewrite MAX_BLOCK_SUBSIDY_val in Hs.
  change (5 =? 0) with false. cbn iota. rewrite Z.quot_div_nonneg, Z.rem_mod_nonneg by lia.
  pose proof (Z.div_pos (subsidy_at net h) 5). pose proof (Z.div_le_upper_bound (subsidy_at net h) 5 (2 ^ 40)).
  unfold to_sint. rewrite (proj2 (in_sint_spec 64 _)) by lia. cbn [expect res_bind].
  rewrite (proj2 (Z.mod_divide _ 5 ltac:(lia))) by (by apply founders_subsidy_divides). done.
Qed.

(** ** Funding streams *)

Definition numerators (s : FundingStreams) : Z :=
  foldr Z.add 0 ((fun r => r.2.1) <$> fs_recipients s).

(** Non-negative numerators that share at most the whole subsidy. *)
Definition streams_wf (s : FundingStreams) : Prop :=
  Forall (fun r : FundingStreamReceiver * (Z * nat) => 0 <= r.2.1) (fs_recipients s) /\
  numerators s <= FUNDING_STREAM_RECEIVER_DENOMINATOR.

Definition shares (s : Z) (recipients : list (FundingStreamReceiver * (Z * nat))) :=
  (fun r => (r.1, mk (C := NonNegative) (s * r.2.1 / 100))) <$> recipients.

Lemma stream_amounts_Ok s recipients :
  0 <= s <= 2 ^ 33 ->
  Forall (fun r : FundingStreamReceiver * (Z * nat) => 0 <= r.2.1 <= 100) recipients ->
  stream_amounts (mk s) recipients = Ok (shares s recipients) /\
  Forall wf (shares s recipients).*2.
Proof.
  intros Hs. induction 1 as [|[receiver [n addresses]] recipients Hn _ [IH IHwf]]; [by split|].
  cbn [fst snd] in Hn. cbn [stream_amounts shares fmap list_fmap fst snd].
  assert (wf (C := NonNegative) (mk s)) by (apply wf_non_negative; cbn [zatoshis]; rewrite MAX_MONEY_val; lia).
  assert (wf (C := NonNegative) (mk (s * n))).
  { apply wf_non_negative. cbn [zatoshis]. rewrite MAX_MONEY_val. nia. }
  rewrite (proj2 (mul_Ok (mk s) (mk (s * n)) n H ltac:(lia))); cbn [zatoshis].
  2: { split; [done|]. by apply wf_range in H0. }
  cbn [res_bind]. rewrite div_spec by (done || (unfold FUNDING_STREAM_RECEIVER_DENOMINATOR; lia)).
  change (FUNDING_STREAM_RECEIVER_DENOMINATOR =? 0) with false. cbn [zatoshis res_bind].
  fold (shares s recipients). rewrite IH. cbn [res_bind].
  unfold FUNDING_STREAM_RECEIVER_DENOMINATOR. rewrite Z.quot_div_nonneg by nia.
  split; [done|]. constructor; [|done]. apply wf_non_negative. cbn [zatoshis]. rewrite MAX_MONEY_val.
  split; [apply Z.div_pos; nia|apply Z.div_le_upper_bound; nia].
Qed.

(** Rounding down each share never pays more than the subsidy. *)
Lemma shares_total s (recipients : list (FundingStreamReceiver * (Z * nat))) :
  0 <= s -> Forall (fun r : FundingStreamReceiver * (Z * nat) => 0 <= r.2.1) recipients ->
  100 * total (shares s recipients).*2
  <= s * foldr Z.add 0 ((fun r : FundingStreamReceiver * (Z * nat) => r.2.1) <$> recipients).
Proof.
  intros Hs. induction 1 as [|[receiver [n addresses]] recipients Hn _ IH]; [cbn; lia|].
  cbn [shares fmap list_fmap fst snd foldr] in *. rewrite total_cons. cbn [zatoshis].
  fold (shares s recipients) in *. pose proof (Z.mul_div_le (s * n) 100). lia.
Qed.

Lemma numerators_bound (recipients : list (FundingStreamReceiver * (Z * nat))) m :
  Forall (fun r : FundingStreamReceiver * (Z * nat) => 0 <= r.2.1) recipients ->
  foldr Z.add 0 ((fun r : FundingStreamReceiver * (Z * nat) => r.2.1) <$> recipients) <= m ->
  Forall (fun r : FundingStreamReceiver * (Z * nat) => 0 <= r.2.1 <= m) recipients.
Proof.
  intros H. assert (Hpos : 0 <= foldr Z.add 0
    ((fun r : FundingStreamReceiver * (Z * nat) => r.2.1) <$> recipients)).
  { induction H; cbn [fmap list_fmap foldr] in *; lia. }
  revert m. induction H as [|r recipients Hr Hrs IH]; intros m Hm; [constructor|].
  cbn [fmap list_fmap foldr] in *.
  assert (0 <= foldr Z.add 0 ((fun r : FundingStreamReceiver * (Z * nat) => r.2.1) <$> recipients)).
  { clear -Hrs. induction Hrs; cbn [fmap list_fmap foldr] in *; lia. }
  constructor; [lia|]. apply IH; lia.
Qed.

Lemma funding_stream_values_Ok net h all s :
  net_wf net -> 0 <= h -> Forall streams_wf all -> 0 <= s <= 2 ^ 33 ->
  exists values, funding_stream_values h net all (mk s) = Ok values /\
    Forall wf values.*2 /\ total values.*2 <= s /\
    (founders_era net h = true -> values = []).
Proof.
  intros Hwf Hh Hall Hs. unfold funding_stream_values.
  assert (Hnil : exists values : list (FundingStreamReceiver * Amount NonNegative),
    Ok (E := Amount.Error) [] = Ok values /\ Forall wf values.*2 /\ total values.*2 <= s /\
    (founders_era net h = true -> values = [])).
  { exists []. split; [done|]. split; [constructor|]. split; [cbn; lia|done]. }
  destruct (is_zero (mk s)); [done|].
  destruct (current_Ok net h Hwf Hh) as (a & c & _ & Hc). rewrite Hc. cbn [res_bind].
  pose proof (current_ltb net h Canopy c Hwf Hh Hc) as Hcan.
  destruct (nu_leb Canopy c) eqn:Hle; [|done].
  destruct (funding_streams all h) as [fs|] eqn:Hfs; [|done].
  apply find_some in Hfs as [Hin _].
  rewrite Forall_forall in Hall. apply list_elem_of_In in Hin. destruct (Hall fs Hin) as [Hpos Hsum].
  destruct (stream_amounts_Ok s (fs_recipients fs) Hs) as [Hok Hvalues].
  { by apply numerators_bound. }
  exists (shares s (fs_recipients fs)). split; [done|]. split; [done|]. split.
  - pose proof (shares_total s (fs_recipients fs) ltac:(lia) Hpos) as Ht. fold (numerators fs) in Ht.
    unfold FUNDING_STREAM_RECEIVER_DENOMINATOR in Hsum. nia.
  - unfold founders_era. rewrite <- Hcan. intros [_ Hlt]%andb_prop. unfold nu_ltb, nu_leb in *. lia.
Qed.

(** ** The miner subsidy *)

Lemma block_subsidy_Ok_bounds net h balance a :
  net_wf net -> 0 <= h < 2 ^ 32 -> (forall b, balance = Some b -> wf b) ->
  block_subsidy h net balance = Ok a ->
  subsidy_at net h <= zatoshis a <= 2 ^ 33.
Proof.
  intros Hwf Hh Hbal. unfold block_subsidy. pose proof (subsidy_at_range net h Hwf Hh) as Hs.
  rewrite halving_block_subsidy_Ok by done. rewrite MAX_BLOCK_SUBSIDY_val in Hs.
  destruct (is_zip234_active net h) as [[]|e|]; cbn [res_bind]; [|intros [= <-]; cbn; lia|done..].
  destruct balance as [b|]; [|done]. specialize (Hbal b eq_refl). cbn [ok_or res_bind].
  rewrite reissuance_bonus_Ok by done. apply wf_non_negative in Hbal. rewrite MAX_MONEY_val in Hbal.
  pose proof (bonus_of_range (zatoshis b) ltac:(lia)) as Hr.
  assert (bonus_of (zatoshis b) <= 300000000) by (apply div_ceil_le;
    unfold BLOCK_SUBSIDY_FRACTION_NUMERATOR, BLOCK_SUBSIDY_FRACTION_DENOMINATOR; lia).
  cbn [res_bind]. rewrite add_spec by (apply wf_non_negative; cbn [zatoshis]; rewrite MAX_MONEY_val; lia).
  cbn [zatoshis]. rewrite try_from_i64_non_negative by (rewrite MAX_MONEY_val; lia).
  intros [= <-]. cbn [zatoshis]. lia.
Qed.

Lemma sub_non_negative (x y : Z) :
  0 <= y <= x -> x <= MAX_MONEY ->
  sub (C := NonNegative) (mk x) (mk y) = Ok (mk (x - y)).
Proof.
  intros Hy Hx. rewrite sub_spec by (apply wf_non_negative; cbn [zatoshis]; lia).
  apply try_from_i64_non_negative. cbn [zatoshis]. lia.
Qed.

(** C28: the block subsidy is divided without loss.  For every subsidy the
    schedule produces, the founders reward, the funding streams and the miner
    subsidy exist, are non-negative and add up to it, whatever the streams of the
    network are, as long as their numerators share at most the whole; the
    [expect]s and the exact division do not panic when the slow-start rate is a
    multiple of five. *)
Theorem subsidy_division_conserves net h all balance subsidy :
  net_wf net -> Height.valid h -> (5 | slow_start_rate net) -> Forall streams_wf all ->
  (forall b, balance = Some b -> wf b) -> block_subsidy h net balance = Ok subsidy ->
  exists founders values miner,
    founders_reward (E := Amount.Error) net h = Ok founders /\
    funding_stream_values h net all subsidy = Ok values /\
    miner_subsidy h net all subsidy = Ok miner /\
    0 <= zatoshis founders /\ Forall wf values.*2 /\ 0 <= zatoshis miner /\
    zatoshis founders + total values.*2 + zatoshis miner = zatoshis subsidy.
Proof.
  intros Hwf [H0 H1] H5 Hall Hbal Hsub. unfold Height.MIN in H0. pose proof MAX_u32 as HM.
  pose proof (block_subsidy_Ok_bounds net h balance subsidy Hwf ltac:(lia) Hbal Hsub) as Hb.
  pose proof (subsidy_at_range net h Hwf ltac:(lia)) as Hs. destruct subsidy as [s]. cbn [zatoshis] in *.
  destruct (funding_stream_values_Ok net h all s Hwf ltac:(lia) Hall ltac:(lia))
    as (values & Hv & Hvwf & Htot & Hnone).
  pose proof (total_nonneg values.*2 Hvwf) as Htpos.
  set (f := if founders_era net h then subsidy_at net h / 5 else 0).
  assert (Hf : 0 <= f /\ f + total values.*2 <= s).
  { unfold f. destruct (founders_era net h); [|lia]. rewrite Hnone by done.
    pose proof (Z.div_pos (subsidy_at net h) 5).
    pose proof (Z.div_le_upper_bound (subsidy_at net h) 5 (subsidy_at net h)). cbn. lia. }
  exists (mk f), values, (mk (s - f - total values.*2)). unfold miner_subsidy.
  rewrite (founders_reward_Ok (E := Amount.Error)) by (done || lia). fold f. cbn [res_bind].
  rewrite Hv. cbn [res_bind].
  assert (total values.*2 <= MAX_MONEY) by (rewrite MAX_MONEY_val; lia).
  rewrite (proj2 (sum_non_negative_Ok values.*2 (mk (total values.*2)) Hvwf)) by done.
  cbn [res_bind]. unfold rsub. rewrite !sub_non_negative by (rewrite ?MAX_MONEY_val; lia).
  cbn [res_bind]. rewrite sub_non_negative by (rewrite ?MAX_MONEY_val; lia). cbn [zatoshis].
  repeat split; try done; lia.
Qed.

(** Fees are divided without loss.  Before NU7 the miner keeps them; from
    NU7 on the miner keeps all but [floor(6 * fees / 10)].  Neither the widened
    multiplication nor the conversions fail. *)
Lemma miner_fee_share_split {E} net h (fees : Amount NonNegative) :
  net_wf net -> Height.valid h -> wf fees ->
  exists share, miner_fee_share (E := E) h net fees = Ok share /\ wf share /\
    zatoshis share = zatoshis fees -
      match activation_height Nu7 net with
      | Some nu7 => if nu7 <=? h then 6 * zatoshis fees / 10 else 0
      | None => 0
      end.
Proof.
  intros Hwf [H0 _] Hfees. unfold Height.MIN in H0. unfold miner_fee_share.
  destruct (current_Ok net h Hwf H0) as (a & c & _ & Hc). rewrite Hc. cbn [res_bind].
  rewrite (current_ltb net h Nu7 c Hwf H0 Hc).
  assert (Hkeep : exists share, Ok (E := E) fees = Ok share /\ wf share /\
    zatoshis share = zatoshis fees - 0) by (exists fees; split; [done|]; split; [done|lia]).
  destruct (activation_height Nu7 net) as [nu7|]; [|done].
  destruct (nu7 <=? h); [|done]. cbn [negb].
  pose proof Hfees as Hr. apply wf_non_negative in Hr. destruct fees as [v]. cbn [zatoshis] in *.
  pose proof Hr as Hm. rewrite MAX_MONEY_val in Hm.
  unfold to_sint. rewrite (proj2 (in_sint_spec 128 _)) by lia. cbn [expect res_bind].
  rewrite Z.quot_div_nonneg by lia. rewrite (Z.mul_comm v 6).
  pose proof (Z.div_pos (6 * v) 10). pose proof (Z.div_le_upper_bound (6 * v) 10 v).
  rewrite try_from_i128_spec by lia. rewrite try_from_i64_non_negative by lia. cbn [expect_ok res_bind].
  rewrite sub_non_negative by lia. cbn [expect_ok]. exists (mk (v - 6 * v / 10)).
  split; [done|]. split; [apply wf_non_negative; cbn [zatoshis]; lia|done].
Qed.


Definition example_streams : FundingStreams := {|
  fs_start := 2000000; fs_end := 3000000;
  fs_recipients := [(Ecc, (7, 48%nat)); (ZcashFoundation, (5, 48%nat)); (MajorGrants, (8, 48%nat))] |}.

Lemma subsidy_division_conserves_witness :
  exists subsidy, block_subsidy 2500001 Mainnet None = Ok subsidy /\
  exists founders values miner,
    founders_reward (E := Amount.Error) Mainnet 2500001 = Ok founders /\
    funding_stream_values 2500001 Mainnet [example_streams] subsidy = Ok values /\
    miner_subsidy 2500001 Mainnet [example_streams] subsidy = Ok miner /\
    0 <= zatoshis founders /\ Forall wf values.*2 /\ 0 <= zatoshis miner /\
    zatoshis founders + total values.*2 + zatoshis miner = zatoshis subsidy.
Proof.
  eexists. split; [vm_compute; reflexivity|].
  apply (subsidy_division_conserves Mainnet 2500001 [example_streams] None).
  - apply mainnet_wf.
  - split; vm_compute; discriminate.
  - exists 12500. vm_compute. reflexivity.
  - repeat constructor; vm_compute; discriminate.
  - discriminate.
  - vm_compute. reflexivity.
Defined.

(** ** Funding stream address periods *)

(** What [funding_stream_address_period] relies on of the trait. *)
Class ParameterSubsidyLaws {N} `{ParameterSubsidy N} (net : N) : Prop := {
  psl_first : exists f, ps_height_for_first_halving net = Ok f /\ 0 <= f < 2 ^ 32;
  psl_post : 0 <= ps_post_blossom_halving_interval net < 2 ^ 58;
  psl_change : 0 < ps_funding_stream_address_change_interval net < 2 ^ 58;
  psl_nu7 : forall a, ps_nu7_activation_height net = Some a -> 0 <= a < 2 ^ 32;
}.

Section AddressPeriod.
Context {N : Type} `{PS : ParameterSubsidy N} (net : N) {PSL : ParameterSubsidyLaws net}.

(** [AddressPeriod(height)] of the specification, before ZIP 218. *)
Definition address_period (first h : Z) : Z :=
  (h - first + ps_post_blossom_halving_interval net) / ps_funding_stream_address_change_interval net.

(** The same from NU7 activation [a] on. *)
Definition address_period_nu7 (first a h : Z) : Z :=
  (3 * (a - first + ps_post_blossom_halving_interval net) + (h - a))
  / (3 * ps_funding_stream_address_change_interval net).

Lemma div_bound a b : 0 < b -> - 2 ^ 62 <= a < 2 ^ 62 -> - 2 ^ 62 <= a / b < 2 ^ 62.
Proof.
  intros Hb Ha. split; [apply Z.div_le_lower_bound; nia|apply Z.div_lt_upper_bound; nia].
Qed.

Lemma div_euclid_pos {E} a b :
  0 < b -> - 2 ^ 62 <= a < 2 ^ 62 -> div_euclid (E := E) a b = Ok (a / b).
Proof.
  intros Hb Ha. unfold div_euclid. destruct (Z.eqb_spec b 0); [lia|].
  rewrite (proj2 (Z.ltb_lt 0 b)) by lia. pose proof (div_bound a b Hb Ha).
  apply sint_arith_Ok. lia.
Qed.

Lemma address_period_Ok h f :
  ps_height_for_first_halving net = Ok f -> 0 <= h < 2 ^ 32 -> 0 <= f < 2 ^ 32 ->
  funding_stream_address_period h net =
    Ok (match ps_nu7_activation_height net with
        | Some a => if a <=? h then address_period_nu7 f a h else address_period f h
        | None => address_period f h
        end).
Proof.
  intros Hf Hh Hfr. pose proof psl_post as Hp. pose proof psl_change as Hc.
  pose proof psl_nu7 as Hn.
  unfold funding_stream_address_period, Height.sub_height. rewrite Hf. cbn [res_bind].
  assert (Hpre : (let? o := sint_arith 64 (h - f + ps_post_blossom_halving_interval net) in
    div_euclid o (ps_funding_stream_address_change_interval net)) = Ok (E := SubsidyError) (address_period f h)).
  { run_arith. by rewrite div_euclid_pos by lia. }
  destruct (ps_nu7_activation_height net) as [a|]; [|done].
  destruct (Z.leb_spec a h); [|done]. specialize (Hn a eq_refl).
  run_arith. change NU7_POW_TARGET_SPACING_RATIO with 3.
  run_arith. by rewrite div_euclid_pos by lia.
Qed.

Lemma div_step a b c : 0 < c -> a <= b <= a + c -> a / c <= b / c <= a / c + 1.
Proof.
  intros Hc Hab. pose proof (Z.div_le_mono a b c Hc ltac:(lia)).
  pose proof (Z.div_le_mono b (a + 1 * c) c Hc ltac:(lia)) as H2. rewrite Z.div_add in H2 by lia. lia.
Qed.

(** Both cases agree at the activation height. *)
Lemma address_period_nu7_at first a : address_period_nu7 first a a = address_period first a.
Proof.
  pose proof psl_change. unfold address_period_nu7, address_period.
  rewrite Z.sub_diag, Z.add_0_r. apply Z.div_mul_cancel_l; lia.
Qed.

Lemma address_period_moved first a h :
  address_period_nu7 first a (a + 3 * (h - a)) = address_period first h.
Proof.
  pose proof psl_change. unfold address_period_nu7, address_period.
  replace (3 * _ + _) with (3 * (h - first + ps_post_blossom_halving_interval net)) by lia.
  apply Z.div_mul_cancel_l; lia.
Qed.
End AddressPeriod.

(** ZIP 218 keeps the address periods.  The period is total and never
    decreases or skips from one block to the next, also across NU7 activation,
    and a funding stream boundary that [nu7_adjusted_funding_stream_height]
    moves keeps the address period it had under the old spacing.  Proved for
    every implementation of the [ParameterSubsidy] trait that satisfies its
    laws. *)
Lemma address_period_continuous {N} `{PS : ParameterSubsidy N} (net : N)
  {PSL : ParameterSubsidyLaws net} h :
  Height.valid h ->
  exists f, ps_height_for_first_halving net = Ok f /\
  (exists p p', funding_stream_address_period h net = Ok p /\
     funding_stream_address_period (h + 1) net = Ok p' /\ p <= p' <= p + 1) /\
  (forall h', nu7_adjusted_funding_stream_height (E := unit) h (ps_nu7_activation_height net) = Ok (Some h') ->
     funding_stream_address_period h' net = Ok (address_period net f h)).
Proof.
  intros [Hh0 Hh1]. unfold Height.MIN in Hh0. rewrite Height.MAX_val in Hh1.
  destruct psl_first as (f & Hf & Hfr). exists f. split; [done|].
  pose proof (psl_change (net := net)) as Hc. pose proof (psl_nu7 (net := net)) as Hn.
  pose proof (fun a => address_period_nu7_at net f a) as Hat. split.
  - rewrite !(address_period_Ok net _ f) by (done || lia). do 2 eexists. do 2 (split; [done|]).
    destruct (ps_nu7_activation_height net) as [a|]; [|apply div_step; lia].
    destruct (Z.leb_spec a h), (Z.leb_spec a (h + 1)); try lia.
    + apply div_step; lia.
    + assert (a = h + 1) as -> by lia. rewrite Hat. apply div_step; lia.
    + apply div_step; lia.
  - intros h'. unfold nu7_adjusted_funding_stream_height. change NU7_POW_TARGET_SPACING_RATIO with 3.
    destruct (ps_nu7_activation_height net) as [a|] eqn:Ha.
    2: { intros [= <-]. rewrite (address_period_Ok net _ f), Ha by (done || lia). done. }
    specialize (Hn a eq_refl). destruct (Z.ltb_spec a h).
    + run_arith. intros [= H1].
      apply bind_Some in H1 as (b & [-> Hb]%to_uint_Some & H1).
      apply bind_Some in H1 as (x & [-> Hx]%to_uint_Some & H1).
      destruct (_ <=? Height.MAX) in H1; [|done]. injection H1 as <-.
      rewrite (address_period_Ok net _ f), Ha by (done || lia).
      rewrite (proj2 (Z.leb_le a _)) by lia.
      replace (a + (h - a) * 3) with (a + 3 * (h - a)) by lia. by rewrite address_period_moved.
    + intros [= <-]. rewrite (address_period_Ok net _ f), Ha by (done || lia).
      destruct (Z.leb_spec a h); [|done]. assert (a = h) as -> by lia. by rewrite Hat.
Qed.

#[export] Instance mainnet_subsidy_laws : ParameterSubsidyLaws Mainnet.
Proof.
  split.
  - eexists. split; [vm_compute; reflexivity|]. lia.
  - vm_compute. split; [discriminate|reflexivity].
  - vm_compute. split; reflexivity.
  - intros a Ha. pose proof (activation_nonneg Mainnet Nu7 a mainnet_wf Ha). rewrite Height.MAX_val in *. lia.
Qed.

End Payout.
