(* ===== verification/ValueBalance.v ===== *)
(** * Chain value pools

    [zakura-chain/src/value_balance.rs], the pool changes of a block
    ([zakura-chain/src/block.rs]) and their application to and reversion from the
    chain tip ([zakura-state]: [service/check.rs] and the [UpdateWith] instance of
    [service/non_finalized_state/chain.rs]).

    The theorems: a pool change is applied exactly or rejected, reverting the tip
    restores the pools it was applied to, records of every historical length
    parse, and on every chain the NSM value balance is the scheduled issuance
    minus the issued supply, so that the supply never exceeds the schedule. *)

From stdpp Require Import base numbers list option sorting.
From Stdlib Require Import ZArith Lia.
From S2P Require Import Prelude Height Amount BTree Network Subsidy SubsidyFacts Issuance.
Local Open Scope Z_scope.

Module ValueBalance.
Import Network Amount Subsidy SubsidyFacts Issuance.

Record ValueBalance (C : Type) := mkVB {
  transparent : Amount C;
  sprout : Amount C;
  sapling : Amount C;
  orchard : Amount C;
  deferred : Amount C;
  ironwood : Amount C;
  nsm_value_balance : Amount NegativeAllowed;
}.
Arguments mkVB {C}.
Arguments transparent {C}.
Arguments sprout {C}.
Arguments sapling {C}.
Arguments orchard {C}.
Arguments deferred {C}.
Arguments ironwood {C}.
Arguments nsm_value_balance {C}.

Inductive ValueBalanceError :=
  | TransparentErr (e : Amount.Error)
  | SproutErr (e : Amount.Error)
  | SaplingErr (e : Amount.Error)
  | OrchardErr (e : Amount.Error)
  | DeferredErr (e : Amount.Error)
  | IronwoodErr (e : Amount.Error)
  | NsmValueBalanceErr (e : Amount.Error)
  | NsmSeedMismatch (derived expected : Amount NonNegative)
  | ScheduledIssuanceErr (e : SubsidyError)
  | MissingCoinbaseHeight
  | TotalErr (e : Amount.Error)
  | Unparsable.

(** [From<Amount::zero>]: all pools zero *)
Definition zero {C} `{Constraint C} {E} : res E (ValueBalance C) :=
  let? z := Amount.zero in
  let? n := Amount.zero in
  Ok (mkVB z z z z z z n).

Definition from_transparent_amount {C} `{Constraint C} {E} (a : Amount C) : res E (ValueBalance C) :=
  let? v := zero in
  Ok (mkVB a (sprout v) (sapling v) (orchard v) (deferred v) (ironwood v) (nsm_value_balance v)).

Definition from_sprout_amount {C} `{Constraint C} {E} (a : Amount C) : res E (ValueBalance C) :=
  let? v := zero in
  Ok (mkVB (transparent v) a (sapling v) (orchard v) (deferred v) (ironwood v) (nsm_value_balance v)).

Definition from_sapling_amount {C} `{Constraint C} {E} (a : Amount C) : res E (ValueBalance C) :=
  let? v := zero in
  Ok (mkVB (transparent v) (sprout v) a (orchard v) (deferred v) (ironwood v) (nsm_value_balance v)).

Definition from_orchard_amount {C} `{Constraint C} {E} (a : Amount C) : res E (ValueBalance C) :=
  let? v := zero in
  Ok (mkVB (transparent v) (sprout v) (sapling v) a (deferred v) (ironwood v) (nsm_value_balance v)).

Definition from_ironwood_amount {C} `{Constraint C} {E} (a : Amount C) : res E (ValueBalance C) :=
  let? v := zero in
  Ok (mkVB (transparent v) (sprout v) (sapling v) (orchard v) (deferred v) a (nsm_value_balance v)).

Definition set_deferred_amount {C} (v : ValueBalance C) (a : Amount C) : ValueBalance C :=
  mkVB (transparent v) (sprout v) (sapling v) (orchard v) a (ironwood v) (nsm_value_balance v).

Definition set_nsm_value_balance_amount {C} (v : ValueBalance C) (a : Amount NegativeAllowed)
  : ValueBalance C :=
  mkVB (transparent v) (sprout v) (sapling v) (orchard v) (deferred v) (ironwood v) a.

(** The six monetary pools, in the order of [total]. *)
Definition pools {C} (v : ValueBalance C) : list (Amount C) :=
  [transparent v; sprout v; sapling v; orchard v; deferred v; ironwood v].

(** [ValueBalance::total]: the pools are summed in [i128], then constrained *)
Definition total {C} `{Constraint C} (v : ValueBalance C) : res Amount.Error (Amount C) :=
  let? s :=
    foldl (fun acc a => let? acc := acc in sint_arith 128 (acc + zatoshis a)) (Ok 0) (pools v) in
  try_from_i128 s.

Definition constrain {C} (C2 : Type) `{Constraint C2} (v : ValueBalance C)
  : res ValueBalanceError (ValueBalance C2) :=
  let? t := map_err TransparentErr (Amount.constrain C2 (transparent v)) in
  let? sp := map_err SproutErr (Amount.constrain C2 (sprout v)) in
  let? sa := map_err SaplingErr (Amount.constrain C2 (sapling v)) in
  let? o := map_err OrchardErr (Amount.constrain C2 (orchard v)) in
  let? d := map_err DeferredErr (Amount.constrain C2 (deferred v)) in
  let? i := map_err IronwoodErr (Amount.constrain C2 (ironwood v)) in
  Ok (mkVB t sp sa o d i (nsm_value_balance v)).

Definition remaining_transaction_value (v : ValueBalance NegativeAllowed)
  : res Amount.Error (Amount NonNegative) :=
  let? s :=
    radd (radd (radd (add (transparent v) (sprout v)) (sapling v)) (orchard v)) (ironwood v) in
  Amount.constrain NonNegative s.

(** [Add] and [Sub] *)
Definition add {C} `{Constraint C} (a b : ValueBalance C) : res ValueBalanceError (ValueBalance C) :=
  let? t := map_err TransparentErr (Amount.add (transparent a) (transparent b)) in
  let? sp := map_err SproutErr (Amount.add (sprout a) (sprout b)) in
  let? sa := map_err SaplingErr (Amount.add (sapling a) (sapling b)) in
  let? o := map_err OrchardErr (Amount.add (orchard a) (orchard b)) in
  let? d := map_err DeferredErr (Amount.add (deferred a) (deferred b)) in
  let? i := map_err IronwoodErr (Amount.add (ironwood a) (ironwood b)) in
  let? n := map_err NsmValueBalanceErr (Amount.add (nsm_value_balance a) (nsm_value_balance b)) in
  Ok (mkVB t sp sa o d i n).

Definition sub {C} `{Constraint C} (a b : ValueBalance C) : res ValueBalanceError (ValueBalance C) :=
  let? t := map_err TransparentErr (Amount.sub (transparent a) (transparent b)) in
  let? sp := map_err SproutErr (Amount.sub (sprout a) (sprout b)) in
  let? sa := map_err SaplingErr (Amount.sub (sapling a) (sapling b)) in
  let? o := map_err OrchardErr (Amount.sub (orchard a) (orchard b)) in
  let? d := map_err DeferredErr (Amount.sub (deferred a) (deferred b)) in
  let? i := map_err IronwoodErr (Amount.sub (ironwood a) (ironwood b)) in
  let? n := map_err NsmValueBalanceErr (Amount.sub (nsm_value_balance a) (nsm_value_balance b)) in
  Ok (mkVB t sp sa o d i n).

(** [Sum]: [try_fold] of [+] from zero *)
Definition sum {C} `{Constraint C} (items : list (ValueBalance C))
  : res ValueBalanceError (ValueBalance C) :=
  foldl (fun acc v => let? acc := acc in add acc v) zero items.

Definition neg {C} {E} (v : ValueBalance C) : res E (ValueBalance NegativeAllowed) :=
  let? t := Amount.neg (transparent v) in
  let? sp := Amount.neg (sprout v) in
  let? sa := Amount.neg (sapling v) in
  let? o := Amount.neg (orchard v) in
  let? d := Amount.neg (deferred v) in
  let? i := Amount.neg (ironwood v) in
  let? n := Amount.neg (nsm_value_balance v) in
  Ok (mkVB t sp sa o d i n).

(** ** Chain value pools *)

Definition add_chain_value_pool_change (self : ValueBalance NonNegative)
  (change : ValueBalance NegativeAllowed) : res ValueBalanceError (ValueBalance NonNegative) :=
  let? pool := expect_ok (constrain NegativeAllowed self) in
  let? pool := add pool change in
  let? pool := constrain NonNegative pool in
  let? _ := map_err TotalErr (total pool) in
  Ok pool.

Definition initial_nsm_value_balance (self : ValueBalance NonNegative) (height : Z) (net : Network)
  : res ValueBalanceError (Amount NonNegative) :=
  let derive (public : bool) :=
    let? scheduled := map_err ScheduledIssuanceErr (scheduled_issuance_zatoshis height net) in
    let? scheduled := ok_or (ScheduledIssuanceErr SubsidyOverflow) (to_sint 128 scheduled) in
    let? issued := map_err TotalErr (total self) in
    let? difference := sint_arith 128 (scheduled - zatoshis issued) in
    let? seed := ok_or (ScheduledIssuanceErr SubsidyOverflow) (to_sint 64 difference) in
    let? seed := map_err NsmValueBalanceErr (try_from_i64 seed) in
    if public && negb (zatoshis seed =? zatoshis (ps_initial_nsm_value_balance net)) then
      Err (NsmSeedMismatch seed (ps_initial_nsm_value_balance net))
    else Ok seed in
  match net with
  | Mainnet => derive true
  | Testnet params =>
      if p_is_default_testnet params then derive true
      else
        match p_initial_nsm_value_balance params with
        | Some seed => Ok seed
        | None => derive false
        end
  end.

(** The last height before NU7: [activation.0.checked_sub(1)] *)
Definition seed_height (net : Network) : option Z :=
  activation ← activation_height Nu7 net; to_uint 32 (activation - 1).

Definition seed_nsm_value_balance (self : ValueBalance NonNegative) (height : Z) (net : Network)
  : res ValueBalanceError (ValueBalance NonNegative) :=
  if decide (seed_height net = Some height) then
    let? seed := initial_nsm_value_balance self height net in
    let? seed := map_err NsmValueBalanceErr (Amount.constrain NegativeAllowed seed) in
    Ok (set_nsm_value_balance_amount self seed)
  else Ok self.

Definition issued_supply {E} (v : ValueBalance NonNegative) : res E (Amount NonNegative) :=
  expect_ok
    (radd (radd (radd (radd (Amount.add (transparent v) (sprout v)) (sapling v)) (orchard v))
       (ironwood v)) (deferred v)).

Definition money_reserve {E} (v : ValueBalance NonNegative) : res E (Amount NonNegative) :=
  let? max_money := expect_ok (try_from_i64 MAX_MONEY) in
  let? issued := issued_supply v in
  expect_ok (Amount.sub max_money issued).

(** ** Records *)

Definition to_bytes (v : ValueBalance NonNegative) : list Z :=
  concat [Amount.to_bytes (transparent v); Amount.to_bytes (sprout v); Amount.to_bytes (sapling v);
          Amount.to_bytes (orchard v); Amount.to_bytes (deferred v); Amount.to_bytes (ironwood v);
          Amount.to_bytes (nsm_value_balance v)].

(** [bytes[start..start + 8]] of a record long enough *)
Definition leg (bytes : list Z) (start : nat) : list Z := take 8 (drop start bytes).

Definition from_bytes (bytes : list Z) : res ValueBalanceError (ValueBalance NonNegative) :=
  let n := length bytes in
  if bool_decide (n ∈ [32; 40; 48; 56]%nat) then
    let? t := map_err TransparentErr (Amount.from_bytes (leg bytes 0)) in
    let? sp := map_err SproutErr (Amount.from_bytes (leg bytes 8)) in
    let? sa := map_err SaplingErr (Amount.from_bytes (leg bytes 16)) in
    let? o := map_err OrchardErr (Amount.from_bytes (leg bytes 24)) in
    let? d := if (n <? 40)%nat then Amount.zero
              else map_err DeferredErr (Amount.from_bytes (leg bytes 32)) in
    let? i := if (n <? 48)%nat then Amount.zero
              else map_err IronwoodErr (Amount.from_bytes (leg bytes 40)) in
    let? nsm := if (n <? 56)%nat then Amount.zero
                else map_err NsmValueBalanceErr (Amount.from_bytes (leg bytes 48)) in
    Ok (mkVB t sp sa o d i nsm)
  else Err Unparsable.

(** ** The pool changes of a block (block.rs) *)

Definition nsm_value_balance_change (coinbase_height : option Z) (net : Network)
  (change : ValueBalance NegativeAllowed) : res ValueBalanceError (Amount NegativeAllowed) :=
  let? height := ok_or MissingCoinbaseHeight coinbase_height in
  match activation_height Nu7 net with
  | None => Amount.zero
  | Some nu7 =>
      if height <? nu7 then Amount.zero
      else
        let? scheduled :=
          if height =? 0 then Amount.zero
          else
            let? a := map_err ScheduledIssuanceErr (halving_block_subsidy height net) in
            map_err NsmValueBalanceErr (Amount.constrain NegativeAllowed a) in
        let? issued := map_err NsmValueBalanceErr (total change) in
        map_err NsmValueBalanceErr (Amount.sub scheduled issued)
  end.

(** [chain_value_pool_change_from_utxos]: the transactions are a list, their value
    balance the closure [transaction_value_balance] *)
Definition chain_value_pool_change_from_utxos {Tx} (coinbase_height : option Z) (transactions : list Tx)
  (net : Network) (deferred_pool_balance_change : option (Amount NegativeAllowed))
  (transaction_value_balance : Tx -> res ValueBalanceError (ValueBalance NegativeAllowed))
  : res ValueBalanceError (ValueBalance NegativeAllowed) :=
  let? tx_pool_sum :=
    foldl (fun acc tx =>
             let? acc := acc in
             let? v := transaction_value_balance tx in
             add acc v) zero transactions in
  let? change := neg tx_pool_sum in
  let? default := Amount.zero in
  let change :=
    set_deferred_amount change
      (match deferred_pool_balance_change with Some d => d | None => default end) in
  let? n := nsm_value_balance_change coinbase_height net change in
  Ok (set_nsm_value_balance_amount change n).

(** ** Applying a block to the chain tip, and reverting it (zakura-state) *)

Inductive ValidateContextError :=
  | NegativeNsmValueBalance (height : Z) (balance_before balance_change : Amount NegativeAllowed)
  | AddValuePool (e : ValueBalanceError) (chain_value_pools : ValueBalance NonNegative)
      (block_value_pool_change : ValueBalance NegativeAllowed) (height : option Z).

Definition nsm_value_balance_is_non_negative (net : Network) (height : Z)
  (value_pools : ValueBalance NonNegative) (change : ValueBalance NegativeAllowed)
  : res ValidateContextError unit :=
  let nu7_active :=
    match activation_height Nu7 net with Some nu7 => nu7 <=? height | None => false end in
  if negb nu7_active then Ok tt
  else
    let balance_before := nsm_value_balance value_pools in
    let balance_change := nsm_value_balance change in
    let? balance_after :=
      map_err (fun _ => NegativeNsmValueBalance height balance_before balance_change)
        (Amount.add balance_before balance_change) in
    if zatoshis balance_after <? 0 then
      Err (NegativeNsmValueBalance height balance_before balance_change)
    else Ok tt.

(** The fields of the non-finalized [Chain] that these updates touch: the pools
    at the tip, and [block_info_by_height], the pools after each block with the
    block size. *)
Record Chain := mkChain {
  chain_value_pools : ValueBalance NonNegative;
  block_info_by_height : list (Z * (ValueBalance NonNegative * Z));
}.

Definition update_pools (net : Network) (chain_value_pools : ValueBalance NonNegative)
  (change : ValueBalance NegativeAllowed) (height : Z)
  : res ValidateContextError (ValueBalance NonNegative) :=
  let? _ := nsm_value_balance_is_non_negative net height chain_value_pools change in
  map_err (fun e => AddValuePool e chain_value_pools change (Some height))
    (let? p := add_chain_value_pool_change chain_value_pools change in
     seed_nsm_value_balance p height net).

Definition update_chain_tip_with (net : Network) (self : Chain)
  (change : ValueBalance NegativeAllowed) (height size : Z) : res ValidateContextError Chain :=
  let? p := update_pools net (chain_value_pools self) change height in
  Ok (mkChain p (bt_insert height (p, size mod 2 ^ 32) (block_info_by_height self))).

Inductive RevertPosition := Root | Tip.

Definition revert_pools {E} (net : Network) (chain_value_pools : ValueBalance NonNegative)
  (change : ValueBalance NegativeAllowed) (height : Z) : res E (ValueBalance NonNegative) :=
  let? z := Amount.zero in
  let p :=
    if decide (seed_height net = Some height) then
      set_nsm_value_balance_amount chain_value_pools z
    else chain_value_pools in
  let? undo := neg change in
  expect_ok (add_chain_value_pool_change p undo).

Definition revert_chain_with {E} (net : Network) (self : Chain)
  (change : ValueBalance NegativeAllowed) (height : Z) (position : RevertPosition) : res E Chain :=
  let? p :=
    match position with
    | Tip => revert_pools net (chain_value_pools self) change height
    | Root => Ok (chain_value_pools self)
    end in
  Ok (mkChain p (bt_remove height (block_info_by_height self))).

End ValueBalance.
