(* ===== verification/ValuePools.v ===== *)
(** * Properties of the chain value pools

    Exact characterisations of the operations of [ValueBalance], and the
    invariants of a chain that is extended and reverted block by block. *)

From stdpp Require Import base numbers list option sorting.
From Stdlib Require Import ZArith Lia.
From S2P Require Import Prelude Height Amount BTree Network Subsidy SubsidyFacts Issuance ValueBalance.
Local Open Scope Z_scope.

Module ValuePools.
Import Network Amount Subsidy SubsidyFacts Issuance ValueBalance.

(** ** Value-level descriptions *)

Record vb_wf {C} `{Constraint C} (v : ValueBalance C) : Prop := {
  wf_transparent : wf (transparent v);
  wf_sprout : wf (sprout v);
  wf_sapling : wf (sapling v);
  wf_orchard : wf (orchard v);
  wf_deferred : wf (deferred v);
  wf_ironwood : wf (ironwood v);
  wf_nsm : wf (nsm_value_balance v);
}.

Definition plus_amount {C} (a b : Amount C) : Amount C := mk (zatoshis a + zatoshis b).
Definition cast_amount {C C2} (a : Amount C) : Amount C2 := mk (zatoshis a).
Definition neg_amount {C} (a : Amount C) : Amount NegativeAllowed := mk (- zatoshis a).

Definition vb_plus {C} (a b : ValueBalance C) : ValueBalance C :=
  mkVB (plus_amount (transparent a) (transparent b)) (plus_amount (sprout a) (sprout b))
    (plus_amount (sapling a) (sapling b)) (plus_amount (orchard a) (orchard b))
    (plus_amount (deferred a) (deferred b)) (plus_amount (ironwood a) (ironwood b))
    (plus_amount (nsm_value_balance a) (nsm_value_balance b)).

Definition vb_cast {C C2} (v : ValueBalance C) : ValueBalance C2 :=
  mkVB (cast_amount (transparent v)) (cast_amount (sprout v)) (cast_amount (sapling v))
    (cast_amount (orchard v)) (cast_amount (deferred v)) (cast_amount (ironwood v))
    (nsm_value_balance v).

Definition vb_neg {C} (v : ValueBalance C) : ValueBalance NegativeAllowed :=
  mkVB (neg_amount (transparent v)) (neg_amount (sprout v)) (neg_amount (sapling v))
    (neg_amount (orchard v)) (neg_amount (deferred v)) (neg_amount (ironwood v))
    (neg_amount (nsm_value_balance v)).

(** The sum of the six monetary pools. *)
Definition pool_sum {C} (v : ValueBalance C) : Z :=
  zatoshis (transparent v) + zatoshis (sprout v) + zatoshis (sapling v) + zatoshis (orchard v)
  + zatoshis (deferred v) + zatoshis (ironwood v).

(** ** Amounts *)

Section Amounts.
Context {C : Type} `{HC : Constraint C} {HL : ConstraintLaws C}.

Lemma amount_eta (a : Amount C) : mk (zatoshis a) = a.
Proof. by destruct a. Qed.

Lemma wf_mk v : wf (C := C) (mk v) <-> (valid_range (C := C)).1 <= v <= (valid_range (C := C)).2.
Proof. apply wf_range. Qed.

Lemma amount_add_Ok (a b c : Amount C) :
  wf a -> wf b -> Amount.add a b = Ok c <-> c = plus_amount a b /\ wf c.
Proof.
  intros Ha Hb. rewrite add_spec by done. rewrite try_from_i64_Ok. split.
  - intros [-> Hr]. split; [done|]. by apply wf_mk.
  - intros [-> Hr]. split; [done|]. by apply wf_mk in Hr.
Qed.

Lemma amount_constrain_Ok {C2} (a : Amount C2) (c : Amount C) :
  Amount.constrain C a = Ok c <-> c = cast_amount a /\ wf c.
Proof.
  change (Amount.constrain C a) with (try_from_i64 (C := C) (zatoshis a)).
  rewrite try_from_i64_Ok. split.
  - intros [-> Hr]. split; [done|]. by apply wf_mk.
  - intros [-> Hr]. split; [done|]. by apply wf_mk in Hr.
Qed.

Lemma amount_neg_Ok {E} (a : Amount C) : wf a -> Amount.neg (E := E) a = Ok (neg_amount a).
Proof. apply neg_spec. Qed.

Lemma neg_amount_wf (a : Amount C) : wf a -> wf (neg_amount a).
Proof. intros Ha%wf_money. apply wf_negative_allowed. cbn. lia. Qed.
End Amounts.

(** Inverts the field-wise additions and conversions of a [let?] chain. *)
Ltac amount_inv :=
  repeat match goal with
  | H : Amount.add _ _ = Ok _ |- _ => apply amount_add_Ok in H; [destruct H as [-> ?]|done|done]
  | H : Amount.constrain _ _ = Ok _ |- _ => apply amount_constrain_Ok in H; destruct H as [-> ?]
  end.

Section Balances.
Context {C : Type} `{HC : Constraint C} {HL : ConstraintLaws C}.

Lemma vb_add_Ok (a b c : ValueBalance C) :
  vb_wf a -> vb_wf b -> ValueBalance.add a b = Ok c <-> c = vb_plus a b /\ vb_wf c.
Proof.
  intros [] []. unfold ValueBalance.add. split.
  - intros H. res_inv. amount_inv. split; [done|]. by split.
  - intros [-> Hwf]. destruct Hwf. cbn in *.
    do 6 (erewrite (proj2 (amount_add_Ok _ _ _ _ _) (conj eq_refl _)); cbn [map_err res_bind]).
    by erewrite (proj2 (amount_add_Ok _ _ _ _ _) (conj eq_refl _)).
    Unshelve. all: done.
Qed.

Lemma vb_constrain_Ok {C2} (v : ValueBalance C2) (c : ValueBalance C) :
  wf (nsm_value_balance v) ->
  ValueBalance.constrain C v = Ok c <-> c = vb_cast v /\ vb_wf c.
Proof.
  intros Hn. unfold ValueBalance.constrain. split.
  - intros H. res_inv. amount_inv. split; [done|]. by split.
  - intros [-> Hwf]. destruct Hwf. cbn in *.
    do 6 (erewrite (proj2 (amount_constrain_Ok _ _) (conj eq_refl _)); cbn [map_err res_bind]).
    done.
    Unshelve. all: done.
Qed.

Lemma vb_neg_Ok {E} (v : ValueBalance C) : vb_wf v -> ValueBalance.neg (E := E) v = Ok (vb_neg v).
Proof. intros []. unfold ValueBalance.neg. by rewrite !amount_neg_Ok by done. Qed.

Lemma vb_neg_wf (v : ValueBalance C) : vb_wf v -> vb_wf (vb_neg v).
Proof. intros []. split; cbn; by apply neg_amount_wf. Qed.

Lemma pool_sum_bound (v : ValueBalance C) :
  vb_wf v -> - 6 * MAX_MONEY <= pool_sum v <= 6 * MAX_MONEY.
Proof.
  intros [Ht%wf_money Hsp%wf_money Hsa%wf_money Ho%wf_money Hd%wf_money Hi%wf_money _].
  unfold pool_sum. lia.
Qed.

(** [total] is the sum of the six pools, constrained once at the end. *)
Lemma vb_total_spec (v : ValueBalance C) : vb_wf v -> ValueBalance.total v = try_from_i64 (pool_sum v).
Proof.
  intros Hwf. pose proof (pool_sum_bound v Hwf) as Hb. rewrite MAX_MONEY_val in Hb.
  destruct Hwf as [Ht%wf_money Hsp%wf_money Hsa%wf_money Ho%wf_money Hd%wf_money Hi%wf_money _].
  rewrite MAX_MONEY_val in *. unfold ValueBalance.total, pools. cbn [foldl res_bind].
  run_arith.
  rewrite try_from_i128_spec by (unfold pool_sum in Hb; lia). done.
Qed.

Lemma vb_total_Ok (v : ValueBalance C) t :
  vb_wf v -> ValueBalance.total v = Ok t <-> t = mk (pool_sum v) /\ wf t.
Proof.
  intros Hwf. rewrite vb_total_spec by done. rewrite try_from_i64_Ok. split.
  - intros [-> Hr]. split; [done|]. by apply wf_mk.
  - intros [-> Hr]. split; [done|]. by apply wf_mk in Hr.
Qed.
End Balances.

Lemma wf_widen (a : Amount NonNegative) : wf a -> wf (cast_amount (C2 := NegativeAllowed) a).
Proof. rewrite wf_non_negative, wf_negative_allowed. cbn. lia. Qed.

Lemma vb_widen_wf (v : ValueBalance NonNegative) : vb_wf v -> vb_wf (vb_cast (C2 := NegativeAllowed) v).
Proof. intros []. split; cbn; (done || by apply wf_widen). Qed.

(** The pools after a change, as values. *)
Definition apply_change (p : ValueBalance NonNegative) (ch : ValueBalance NegativeAllowed)
  : ValueBalance NonNegative := vb_cast (vb_plus (vb_cast p) ch).

Definition pools_ok (p : ValueBalance NonNegative) : Prop := vb_wf p /\ pool_sum p <= MAX_MONEY.

Lemma pool_sum_nonneg (p : ValueBalance NonNegative) : vb_wf p -> 0 <= pool_sum p.
Proof.
  intros [Ht%wf_non_negative Hsp%wf_non_negative Hsa%wf_non_negative Ho%wf_non_negative
    Hd%wf_non_negative Hi%wf_non_negative _]. unfold pool_sum. lia.
Qed.

Lemma vb_narrow_wf (v : ValueBalance NonNegative) (w : ValueBalance NegativeAllowed) :
  v = vb_cast w -> vb_wf v -> vb_wf w.
Proof.
  intros -> []. cbn in *. split; [..|done]; apply wf_negative_allowed;
    match goal with |- context [zatoshis (?f w)] =>
      assert (Hx : wf (cast_amount (C2 := NonNegative) (f w))) by done end;
    apply wf_non_negative in Hx; cbn in Hx; lia.
Qed.

(** A pool change is applied exactly, or rejected: it succeeds precisely when
    every pool and the total stay within [0, MAX_MONEY] and the NSM balance
    within the signed range. *)
Lemma add_change_Ok p ch p' :
  vb_wf p -> vb_wf ch ->
  add_chain_value_pool_change p ch = Ok p' <-> p' = apply_change p ch /\ pools_ok p'.
Proof.
  intros Hp Hch. unfold add_chain_value_pool_change, pools_ok.
  assert (Hw : ValueBalance.constrain NegativeAllowed p = Ok (vb_cast p)).
  { apply vb_constrain_Ok; [by destruct Hp|]. split; [done|by apply vb_widen_wf]. }
  rewrite Hw. cbn [expect_ok res_bind]. pose proof (vb_widen_wf p Hp) as Hpw. split.
  - intros H. res_inv. apply vb_add_Ok in Ha; [destruct Ha as [-> Hs]|done..].
    apply vb_constrain_Ok in Ha0; [destruct Ha0 as [-> Hc]|by destruct Hs].
    apply vb_total_Ok in Ha1; [destruct Ha1 as [-> Ht]|done].
    split; [done|]. split; [done|]. apply wf_non_negative in Ht. cbn in Ht. lia.
  - intros [-> [Hc Hsum]].
    pose proof (vb_narrow_wf _ _ eq_refl Hc) as Hs.
    rewrite (proj2 (vb_add_Ok _ _ _ Hpw Hch) (conj eq_refl Hs)). cbn [res_bind].
    rewrite (proj2 (vb_constrain_Ok _ (apply_change p ch) ltac:(by destruct Hs)) (conj eq_refl Hc)).
    cbn [res_bind].
    rewrite (proj2 (vb_total_Ok _ (mk (pool_sum (apply_change p ch))) Hc)); [done|].
    split; [done|]. apply wf_non_negative. cbn [zatoshis]. pose proof (pool_sum_nonneg _ Hc). lia.
Qed.

(** ** The issued supply *)

Lemma add_non_negative (a b : Amount NonNegative) :
  wf a -> wf b -> zatoshis a + zatoshis b <= MAX_MONEY ->
  Amount.add a b = Ok (plus_amount a b) /\ wf (plus_amount a b).
Proof.
  intros Ha Hb Hs. assert (wf (plus_amount a b)).
  { apply wf_non_negative. apply wf_non_negative in Ha, Hb. cbn. lia. }
  split; [|done]. by apply amount_add_Ok.
Qed.

Lemma issued_supply_Ok {E} p : pools_ok p -> issued_supply (E := E) p = Ok (mk (pool_sum p)).
Proof.
  intros [Hwf Hs]. unfold pool_sum in *.
  destruct Hwf as [Ht Hsp Hsa Ho Hd Hi _].
  pose proof (proj1 (wf_non_negative _) Ht). pose proof (proj1 (wf_non_negative _) Hsp).
  pose proof (proj1 (wf_non_negative _) Hsa). pose proof (proj1 (wf_non_negative _) Ho).
  pose proof (proj1 (wf_non_negative _) Hd). pose proof (proj1 (wf_non_negative _) Hi).
  unfold issued_supply, radd.
  destruct (add_non_negative (transparent p) (sprout p)) as [-> Ks1]; [done..|lia|]. cbn [res_bind].
  destruct (add_non_negative _ (sapling p) Ks1 Hsa) as [-> Ks2]; [cbn; lia|]. cbn [res_bind].
  destruct (add_non_negative _ (orchard p) Ks2 Ho) as [-> Ks3]; [cbn; lia|]. cbn [res_bind].
  destruct (add_non_negative _ (ironwood p) Ks3 Hi) as [-> Ks4]; [cbn; lia|]. cbn [res_bind].
  destruct (add_non_negative _ (deferred p) Ks4 Hd) as [-> Ks5]; [cbn; lia|]. cbn [expect_ok].
  f_equal. unfold plus_amount. cbn [zatoshis]. f_equal. lia.
Qed.

Lemma money_reserve_Ok {E} p :
  pools_ok p -> money_reserve (E := E) p = Ok (mk (MAX_MONEY - pool_sum p)).
Proof.
  intros Hp. unfold money_reserve. rewrite issued_supply_Ok by done. destruct Hp as [Hwf Hs].
  pose proof (pool_sum_nonneg p Hwf). rewrite MAX_MONEY_val in *.
  rewrite try_from_i64_non_negative by (rewrite MAX_MONEY_val; lia). cbn [expect_ok res_bind].
  rewrite sub_spec by (apply wf_non_negative; cbn [zatoshis]; rewrite MAX_MONEY_val; lia).
  cbn [zatoshis]. by rewrite try_from_i64_non_negative by (rewrite MAX_MONEY_val; lia).
Qed.

(** ** The changes of a block *)

(** A change of a block at height [h]: its transactions' value balances are
    whatever the closure returns, as amounts of their types. *)
Definition block_change (net : Network) (h : Z) (ch : ValueBalance NegativeAllowed) : Prop :=
  exists (Tx : Type) (transactions : list Tx) deferred_change transaction_value_balance,
    (forall tx v, transaction_value_balance tx = Ok v -> vb_wf v) /\
    (forall d, deferred_change = Some d -> wf d) /\
    chain_value_pool_change_from_utxos (Some h) transactions net deferred_change
      transaction_value_balance = Ok ch.

Lemma vb_zero_Ok {C} `{HC : Constraint C} {HL : ConstraintLaws C} {E} :
  exists z, ValueBalance.zero (C := C) (E := E) = Ok z /\ vb_wf z /\ pool_sum z = 0 /\
    zatoshis (nsm_value_balance z) = 0.
Proof.
  unfold ValueBalance.zero. rewrite !zero_Ok. eexists. split; [done|].
  split; [split; cbn; apply zero_wf|]. done.
Qed.

Lemma fold_changes_Err {Tx} (txs : list Tx) (f : Tx -> res ValueBalanceError (ValueBalance NegativeAllowed)) r :
  (forall v, r <> Ok v) ->
  forall v, foldl (fun acc tx => let? acc := acc in let? v := f tx in ValueBalance.add acc v) r txs <> Ok v.
Proof.
  revert r. induction txs as [|tx txs IH]; intros r Hr v; cbn [foldl]; [apply Hr|].
  apply IH. intros w Hw. res_inv. by eapply Hr.
Qed.

Lemma fold_changes_wf {Tx} (txs : list Tx) (f : Tx -> res ValueBalanceError (ValueBalance NegativeAllowed)) a v :
  (forall tx v, f tx = Ok v -> vb_wf v) -> vb_wf a ->
  foldl (fun acc tx => let? acc := acc in let? v := f tx in ValueBalance.add acc v) (Ok a) txs = Ok v ->
  vb_wf v.
Proof.
  intros Hf. revert a. induction txs as [|tx txs IH]; intros a Ha H; cbn [foldl res_bind] in H.
  { by injection H as <-. }
  destruct (f tx) as [w|e|] eqn:Hw; cbn [res_bind] in H; [|by apply fold_changes_Err in H..].
  destruct (ValueBalance.add a w) as [b|e|] eqn:Hb; [|by apply fold_changes_Err in H..].
  apply (IH b); [|done]. apply vb_add_Ok in Hb; [by destruct Hb|done|by eapply Hf].
Qed.

(** The change of the NSM balance is what the schedule issues minus what the
    pools gain. *)
Definition nsm_change (net : Network) (h gained : Z) : Z :=
  match activation_height Nu7 net with
  | Some nu7 => if h <? nu7 then 0 else (if h =? 0 then 0 else subsidy_at net h) - gained
  | None => 0
  end.

Lemma block_change_spec net h ch :
  net_wf net -> 0 <= h < 2 ^ 32 -> block_change net h ch ->
  vb_wf ch /\ zatoshis (nsm_value_balance ch) = nsm_change net h (pool_sum ch).
Proof.
  intros Hwf Hh (Tx & txs & d & f & Hf & Hd & H). unfold chain_value_pool_change_from_utxos in H.
  destruct (vb_zero_Ok (C := NegativeAllowed) (E := ValueBalanceError)) as (z & Hz & Hzwf & _).
  rewrite Hz in H. apply res_bind_Ok in H as (s & Hs & H).
  apply fold_changes_wf in Hs; [|done..]. rewrite vb_neg_Ok in H by done. rewrite zero_Ok in H.
  cbn [res_bind] in H. pose proof (vb_neg_wf s Hs) as Hneg.
  set (c0 := set_deferred_amount _ _) in H.
  assert (Hc0 : vb_wf c0).
  { destruct Hneg. split; cbn; try done. destruct d as [d|]; [by apply Hd|apply zero_wf]. }
  apply res_bind_Ok in H as (n & Hn & H). injection H as <-.
  assert (Hsum : pool_sum (set_nsm_value_balance_amount c0 n) = pool_sum c0) by done.
  rewrite Hsum. cbn [nsm_value_balance set_nsm_value_balance_amount].
  assert (Hnw : wf n /\ zatoshis n = nsm_change net h (pool_sum c0)).
  { unfold nsm_value_balance_change in Hn. cbn [ok_or res_bind] in Hn. unfold nsm_change.
    rewrite (zero_Ok (C := NegativeAllowed)) in Hn.
    assert (Hzero : Ok (E := ValueBalanceError) (mk (C := NegativeAllowed) 0) = Ok n ->
      wf n /\ zatoshis n = 0) by (intros [= <-]; split; [apply zero_wf|done]).
    destruct (activation_height Nu7 net) as [nu7|]; [|by apply Hzero].
    destruct (h <? nu7); [by apply Hzero|].
    rewrite halving_block_subsidy_Ok in Hn by done. cbn [map_err res_bind] in Hn.
    apply res_bind_Ok in Hn as (sch & Hsch & Hn). apply res_bind_Ok in Hn as (t & Ht & Hn).
    apply map_err_Ok, vb_total_Ok in Ht as [-> Ht]; [|done]. apply map_err_Ok in Hn.
    assert (Hs1 : sch = mk (if h =? 0 then 0 else subsidy_at net h) /\ wf sch).
    { destruct (h =? 0); [injection Hsch as <-; split; [done|apply zero_wf]|].
      apply map_err_Ok in Hsch. by apply amount_constrain_Ok in Hsch as [-> ?]. }
    destruct Hs1 as [-> Hs1]. rewrite sub_spec in Hn by done.
    apply try_from_i64_Ok in Hn as [-> Hr]. split; [by apply wf_mk|done]. }
  destruct Hnw as [Hnw ->]. split; [|done]. destruct Hc0. by split.
Qed.

(** ** Chains *)

Definition height_of {A} (blocks : list A) : Z := Z.of_nat (length blocks).

(** A chain built block by block from genesis; the changes of the tip come
    first. *)
Inductive replayed (net : Network) : list (ValueBalance NegativeAllowed) -> ValueBalance NonNegative -> Prop :=
  | replayed_nil z : ValueBalance.zero (E := unit) = Ok z -> replayed net [] z
  | replayed_cons blocks p ch p' :
      replayed net blocks p -> Height.valid (height_of blocks) ->
      block_change net (height_of blocks) ch ->
      update_pools net p ch (height_of blocks) = Ok p' ->
      replayed net (ch :: blocks) p'.

(** The chain of the non-finalized state with the changes of its blocks:
    extending the tip, reverting it when forking, and forgetting the root when
    it is finalized. *)
Inductive step (net : Network) : Chain * list (ValueBalance NegativeAllowed) ->
                                 Chain * list (ValueBalance NegativeAllowed) -> Prop :=
  | step_push c blocks ch size c' :
      Height.valid (height_of blocks) -> block_change net (height_of blocks) ch ->
      update_chain_tip_with net c ch (height_of blocks) size = Ok c' ->
      step net (c, blocks) (c', ch :: blocks)
  | step_revert c ch blocks c' :
      revert_chain_with (E := unit) net c ch (height_of blocks) Tip = Ok c' ->
      step net (c, ch :: blocks) (c', blocks)
  | step_finalize c blocks ch h c' :
      revert_chain_with (E := unit) net c ch h Root = Ok c' ->
      step net (c, blocks) (c', blocks).

Inductive reachable (net : Network) : Chain * list (ValueBalance NegativeAllowed) -> Prop :=
  | reachable_init z : ValueBalance.zero (E := unit) = Ok z -> reachable net (mkChain z [], [])
  | reachable_step s s' : reachable net s -> step net s s' -> reachable net s'.

Lemma update_Ok net p ch h p' :
  vb_wf p -> vb_wf ch -> update_pools net p ch h = Ok p' ->
  pools_ok (apply_change p ch) /\ seed_nsm_value_balance (apply_change p ch) h net = Ok p' /\
  (forall nu7, activation_height Nu7 net = Some nu7 -> nu7 <= h ->
     0 <= zatoshis (nsm_value_balance p) + zatoshis (nsm_value_balance ch)).
Proof.
  intros Hp Hch H. unfold update_pools in H. apply res_bind_Ok in H as (u & Hu & H).
  apply map_err_Ok, res_bind_Ok in H as (q & Hq & H). apply add_change_Ok in Hq as [-> Hok]; [|done..].
  split; [done|]. split; [done|]. intros nu7 Hn Hle. unfold nsm_value_balance_is_non_negative in Hu.
  rewrite Hn, (proj2 (Z.leb_le nu7 h)) in Hu by done. cbn [negb] in Hu.
  apply res_bind_Ok in Hu as (b & Hb & Hu). apply map_err_Ok in Hb.
  apply amount_add_Ok in Hb as [-> _]; [|by destruct Hp|by destruct Hch]. cbn [plus_amount zatoshis] in Hu.
  destruct (Z.ltb_spec (zatoshis (nsm_value_balance p) + zatoshis (nsm_value_balance ch)) 0); [done|lia].
Qed.

(** The seed is derived from the pools, as on the public networks and on
    configured networks without an override. *)
Definition seed_derived (net : Network) : bool :=
  match net with
  | Mainnet => true
  | Testnet params =>
      p_is_default_testnet params ||
      match p_initial_nsm_value_balance params with Some _ => false | None => true end
  end.

Lemma seed_height_Some net h :
  net_wf net -> seed_height net = Some h <-> activation_height Nu7 net = Some (h + 1) /\ 0 <= h.
Proof.
  intros Hwf. unfold seed_height. destruct (activation_height Nu7 net) as [a|] eqn:Ha; cbn.
  - pose proof (activation_nonneg net _ a Hwf Ha) as Hr. rewrite Height.MAX_val in Hr.
    rewrite to_uint_Some. split.
    + intros [-> Hb]. split; [f_equal; lia|lia].
    + intros [[= ->] Hb]. lia.
  - split; [done|by intros [? _]].
Qed.

Lemma seed_Ok net p h p' :
  net_wf net -> Height.valid h -> pools_ok p -> seed_height net = Some h ->
  seed_nsm_value_balance p h net = Ok p' ->
  exists n, p' = set_nsm_value_balance_amount p (mk n) /\ 0 <= n <= MAX_MONEY /\
    (seed_derived net = true -> n = issued net h - pool_sum p).
Proof.
  intros Hwf Hv Hp Hs H. unfold seed_nsm_value_balance in H. rewrite Hs in H.
  rewrite decide_True in H by done. apply res_bind_Ok in H as (seed & Hseed & H).
  apply res_bind_Ok in H as (n & Hn%map_err_Ok%amount_constrain_Ok & H). injection H as <-.
  destruct Hn as [-> _].
  assert (Hseed' : wf seed /\ (seed_derived net = true -> zatoshis seed = issued net h - pool_sum p)).
  { unfold initial_nsm_value_balance in Hseed.
    assert (Hder : forall public,
      (let? scheduled := map_err ScheduledIssuanceErr (scheduled_issuance_zatoshis h net) in
       let? scheduled := ok_or (ScheduledIssuanceErr SubsidyOverflow) (to_sint 128 scheduled) in
       let? issued := map_err TotalErr (ValueBalance.total p) in
       let? difference := sint_arith 128 (scheduled - zatoshis issued) in
       let? seed := ok_or (ScheduledIssuanceErr SubsidyOverflow) (to_sint 64 difference) in
       let? seed := map_err NsmValueBalanceErr (try_from_i64 seed) in
       if public && negb (zatoshis seed =? zatoshis (ps_initial_nsm_value_balance net)) then
         Err (NsmSeedMismatch seed (ps_initial_nsm_value_balance net))
       else Ok seed) = Ok seed -> wf seed /\ zatoshis seed = issued net h - pool_sum p).
    { intros public Hd. rewrite scheduled_issuance_Ok in Hd by done. cbn [map_err res_bind] in Hd.
      destruct Hp as [Hpw _]. rewrite vb_total_spec in Hd by done. res_inv.
      repeat match goal with H : try_from_i64 _ = Ok _ |- _ => apply try_from_i64_Ok in H as [-> ?] end.
      destruct (_ && _) in Hd; [done|]. injection Hd as <-. split; [by apply wf_mk|done]. }
    unfold seed_derived. destruct net as [|params]; [destruct (Hder true Hseed); done|].
    destruct (p_is_default_testnet params); [destruct (Hder true Hseed); done|].
    destruct (p_initial_nsm_value_balance params) as [sd|] eqn:Hsd;
      [|destruct (Hder false Hseed); done].
    injection Hseed as <-. split; [|done]. apply wf_non_negative. exact (wf_seed _ Hwf sd Hsd). }
  destruct Hseed' as [Hw Hd]. exists (zatoshis seed). split; [done|]. split; [by apply wf_non_negative|done].
Qed.

(** The invariant of the pools after [n] blocks. *)
Definition nsm_inv (net : Network) (n : Z) (p : ValueBalance NonNegative) : Prop :=
  let nsm := zatoshis (nsm_value_balance p) in
  match activation_height Nu7 net with
  | Some nu7 =>
      if n <? nu7 then nsm = 0
      else 0 <= nsm /\ (seed_derived net = true -> nsm = issued net (n - 1) - pool_sum p)
  | None => nsm = 0
  end.

Lemma apply_change_sum p ch : pool_sum (apply_change p ch) = pool_sum p + pool_sum ch.
Proof. unfold pool_sum, apply_change. cbn. lia. Qed.

Lemma seed_elsewhere net p h :
  seed_height net <> Some h -> seed_nsm_value_balance p h net = Ok p.
Proof. intros H. unfold seed_nsm_value_balance. by rewrite decide_False. Qed.

Lemma set_nsm_ok p n :
  pools_ok p -> - MAX_MONEY <= n <= MAX_MONEY -> pools_ok (set_nsm_value_balance_amount p (mk n)).
Proof.
  intros [[] Hs] Hn. split; [|done]. split; try done. by apply wf_negative_allowed.
Qed.

Lemma update_inv net p ch h p' :
  net_wf net -> Height.valid h -> pools_ok p -> nsm_inv net h p -> block_change net h ch ->
  update_pools net p ch h = Ok p' -> pools_ok p' /\ nsm_inv net (h + 1) p'.
Proof.
  intros Hwf Hv Hp Hinv Hch Hup. pose proof MAX_u32 as HM. pose proof Hv as [Hh0 Hh1].
  unfold Height.MIN in Hh0.
  destruct (block_change_spec net h ch Hwf ltac:(lia) Hch) as [Hcw Hcn].
  destruct (update_Ok net p ch h p' (proj1 Hp) Hcw Hup) as (Hok & Hseed & Hnonneg).
  unfold nsm_inv, nsm_change in *.
  assert (Hn : zatoshis (nsm_value_balance (apply_change p ch))
    = zatoshis (nsm_value_balance p) + zatoshis (nsm_value_balance ch)) by done.
  replace (h + 1 - 1) with h by lia.
  destruct (decide (seed_height net = Some h)) as [Hs|Hs].
  - destruct (seed_Ok net _ h p' Hwf Hv Hok Hs Hseed) as (n & -> & Hnr & Hnd).
    apply seed_height_Some in Hs as [Ha _]; [|done]. rewrite Ha.
    rewrite (proj2 (Z.ltb_ge (h + 1) (h + 1))) by lia. rewrite MAX_MONEY_val in Hnr.
    split; [apply set_nsm_ok; [done|rewrite MAX_MONEY_val; lia]|]. by split; [cbn; lia|].
  - rewrite seed_elsewhere in Hseed by done. injection Hseed as <-. split; [done|].
    destruct (activation_height Nu7 net) as [a|] eqn:Ha; [|lia].
    pose proof (activation_nonneg net _ a Hwf Ha) as Har.
    destruct (Z.ltb_spec (h + 1) a).
    { rewrite (proj2 (Z.ltb_lt h a)) in * by lia. lia. }
    assert (a <= h).
    { destruct (Z_le_gt_dec a h); [done|]. exfalso. apply Hs, seed_height_Some; [done|].
      split; [rewrite Ha; f_equal; lia|done]. }
    rewrite (proj2 (Z.ltb_ge h a)) in * by lia. specialize (Hnonneg a eq_refl ltac:(lia)).
    split; [lia|]. intros Hd. destruct Hinv as [_ Hinv]. specialize (Hinv Hd).
    rewrite Hn, apply_change_sum, Hinv, Hcn. destruct (Z.eqb_spec h 0) as [->|].
    + change (issued net (0 - 1)) with 0. rewrite issued_0. lia.
    + replace (issued net h) with (issued net (h - 1 + 1)) by (f_equal; lia).
      rewrite issued_succ by lia. replace (h - 1 + 1) with h by lia. lia.
Qed.

Lemma vb_ext {C} (a b : ValueBalance C) :
  zatoshis (transparent a) = zatoshis (transparent b) -> zatoshis (sprout a) = zatoshis (sprout b) ->
  zatoshis (sapling a) = zatoshis (sapling b) -> zatoshis (orchard a) = zatoshis (orchard b) ->
  zatoshis (deferred a) = zatoshis (deferred b) -> zatoshis (ironwood a) = zatoshis (ironwood b) ->
  zatoshis (nsm_value_balance a) = zatoshis (nsm_value_balance b) -> a = b.
Proof.
  destruct a as [[] [] [] [] [] [] []], b as [[] [] [] [] [] [] []]. cbn. by intros -> -> -> -> -> -> ->.
Qed.

Lemma apply_change_neg p ch : apply_change (apply_change p ch) (vb_neg ch) = p.
Proof. apply vb_ext; cbn; lia. Qed.

Lemma revert_Ok {E} net p ch h p' :
  net_wf net -> Height.valid h -> pools_ok p -> nsm_inv net h p -> block_change net h ch ->
  update_pools net p ch h = Ok p' ->
  revert_pools (E := E) net p' ch h = Ok p.
Proof.
  intros Hwf Hv Hp Hinv Hch Hup. pose proof MAX_u32 as HM. pose proof Hv as [Hh0 Hh1].
  unfold Height.MIN in Hh0.
  destruct (block_change_spec net h ch Hwf ltac:(lia) Hch) as [Hcw Hcn].
  destruct (update_Ok net p ch h p' (proj1 Hp) Hcw Hup) as (Hok & Hseed & _).
  unfold revert_pools. rewrite zero_Ok. cbn [res_bind]. rewrite vb_neg_Ok by done. cbn [res_bind].
  assert (Hback : (if decide (seed_height net = Some h)
    then set_nsm_value_balance_amount p' (mk 0) else p') = apply_change p ch).
  { destruct (decide (seed_height net = Some h)) as [Hs|Hs].
    - destruct (seed_Ok net _ h p' Hwf Hv Hok Hs Hseed) as (n & -> & _).
      apply seed_height_Some in Hs as [Ha _]; [|done].
      unfold nsm_inv, nsm_change in *. rewrite Ha in *.
      rewrite (proj2 (Z.ltb_lt h (h + 1))) in * by lia. apply vb_ext; cbn; lia.
    - rewrite seed_elsewhere in Hseed by done. by injection Hseed as <-. }
  rewrite Hback.
  rewrite (proj2 (add_change_Ok (apply_change p ch) (vb_neg ch) p (proj1 Hok) (vb_neg_wf ch Hcw)));
    [done|]. by rewrite apply_change_neg.
Qed.

Lemma replayed_inv net blocks p :
  net_wf net -> replayed net blocks p -> pools_ok p /\ nsm_inv net (height_of blocks) p.
Proof.
  intros Hwf. induction 1 as [z Hz|blocks p ch p' _ [Hok Hinv] Hv Hch Hup].
  - destruct (vb_zero_Ok (C := NonNegative) (E := unit)) as (z' & Hz' & Hw & Hs & Hn).
    rewrite Hz in Hz'. injection Hz' as <-. split; [split; [done|]; rewrite Hs, MAX_MONEY_val; lia|].
    unfold nsm_inv, height_of. cbn [length]. destruct (activation_height Nu7 net) as [a|]; [|done].
    destruct (_ <? a); [done|]. rewrite Hn, Hs. split; [lia|done].
  - replace (height_of (ch :: blocks)) with (height_of blocks + 1) by (unfold height_of; cbn; lia).
    by apply (update_inv net p ch).
Qed.

(** Extending, reverting and finalizing in any order leaves the pools of a replay
    of the remaining blocks, and block information below the tip only. *)
Lemma reachable_replayed net s :
  net_wf net -> reachable net s ->
  replayed net s.2 (chain_value_pools s.1) /\
  Forall (fun e => e.1 < height_of s.2) (block_info_by_height s.1).
Proof.
  intros Hwf. induction 1 as [z Hz|s s' _ [IH IHb] Hstep]; [by split; [constructor|]|].
  destruct Hstep as [c blocks ch size c' Hv Hch Hup|c ch blocks c' Hrev|c blocks ch h c' Hrev]; cbn in *.
  - unfold update_chain_tip_with in Hup. res_inv. cbn. split; [by eapply replayed_cons|].
    assert (Hlt : height_of (ch :: blocks) = height_of blocks + 1) by (unfold height_of; cbn; lia).
    rewrite Hlt. clear -IHb.
    induction IHb as [|[k' v'] m Hk Hm IH]; cbn [bt_insert]; [by repeat constructor; cbn; lia|].
    cbn in Hk. case_ifs; repeat constructor; cbn; try lia; try done;
      (eapply Forall_impl; [exact Hm|cbn; lia]).
  - unfold revert_chain_with in Hrev. apply res_bind_Ok in Hrev as (p & Hp & Hrev). injection Hrev as <-.
    inversion IH as [|? p0 ? ? Hr Hv Hch Hup]; subst.
    destruct (replayed_inv net blocks p0 Hwf Hr) as [Hok Hinv].
    rewrite (revert_Ok net p0 ch _ _ Hwf Hv Hok Hinv Hch Hup) in Hp. injection Hp as <-.
    cbn. split; [done|]. unfold bt_remove. rewrite Forall_forall in *. intros e.
    rewrite list_elem_of_filter. intros [Hne He]. specialize (IHb e He).
    unfold height_of in *. cbn in IHb. lia.
  - unfold revert_chain_with in Hrev. cbn in Hrev. injection Hrev as <-. cbn. split; [done|].
    unfold bt_remove. rewrite Forall_forall in *. intros e.
    rewrite list_elem_of_filter. intros [_ He]. by apply IHb.
Qed.

(** A chain value pool change is applied exactly or rejected: it succeeds
    precisely when every pool, their total and the NSM balance stay in range, and
    then every pool is the old one plus its change. *)
Lemma pool_change_exact p ch p' :
  vb_wf p -> vb_wf ch ->
  add_chain_value_pool_change p ch = Ok p' <->
  p' = vb_cast (vb_plus (vb_cast (C2 := NegativeAllowed) p) ch) /\ vb_wf p' /\ pool_sum p' <= MAX_MONEY.
Proof. intros Hp Hch. apply (add_change_Ok p ch p' Hp Hch). Qed.

Definition vb_of {C} (t d n : Z) : ValueBalance C := mkVB (mk t) (mk 0) (mk 0) (mk 0) (mk d) (mk 0) (mk n).

(** Reverting the tip restores the chain value pools: on every chain reached
    by extending and reverting, a block that is accepted can be reverted, without
    a panic, and the pools and the block information are those before the block,
    also across the NU7 seed of the NSM balance. *)
Lemma revert_restores_chain net c blocks ch size c' :
  net_wf net -> reachable net (c, blocks) -> Height.valid (height_of blocks) ->
  block_change net (height_of blocks) ch ->
  update_chain_tip_with net c ch (height_of blocks) size = Ok c' ->
  revert_chain_with (E := unit) net c' ch (height_of blocks) Tip = Ok c.
Proof.
  intros Hwf Hr Hv Hch Hup.
  destruct (reachable_replayed net _ Hwf Hr) as [Hrep Hinfo].
  destruct (replayed_inv net _ _ Hwf Hrep) as [Hok Hinv]. cbn in *.
  unfold update_chain_tip_with in Hup. apply res_bind_Ok in Hup as (p & Hp & Hup). injection Hup as <-.
  unfold revert_chain_with. cbn [chain_value_pools block_info_by_height].
  rewrite (revert_Ok net (chain_value_pools c) ch _ p Hwf Hv Hok Hinv Hch Hp). cbn [res_bind].
  rewrite bt_remove_insert; [by destruct c|].
  eapply Forall_impl; [exact Hinfo|]. cbn. lia.
Qed.

(** C6: the issued supply never exceeds the halving schedule, on Mainnet, on the
    default Testnet and on the configured networks that activate NU7 and do not
    override the initial NSM value balance ([seed_derived]; an override can be
    any amount, and the equation fails there).  On every chain reached by
    extending and reverting, from the last block before NU7 on, the NSM value
    balance is non-negative and equals the scheduled issuance at the tip minus
    the issued supply, so the supply is at most the schedule and its computation
    does not panic. *)
Theorem supply_never_exceeds_schedule net c blocks nu7 :
  net_wf net -> reachable net (c, blocks) -> seed_derived net = true ->
  activation_height Nu7 net = Some nu7 -> nu7 <= height_of blocks ->
  0 < height_of blocks <= Height.MAX ->
  exists supply scheduled,
    issued_supply (E := unit) (chain_value_pools c) = Ok supply /\
    scheduled_issuance_zatoshis (height_of blocks - 1) net = Ok scheduled /\
    zatoshis (nsm_value_balance (chain_value_pools c)) = scheduled - zatoshis supply /\
    0 <= zatoshis supply <= scheduled.
Proof.
  intros Hwf Hr Hd Ha Hn Hh.
  destruct (reachable_replayed net _ Hwf Hr) as [Hrep _].
  destruct (replayed_inv net _ _ Hwf Hrep) as [Hok Hinv]. cbn in *.
  unfold nsm_inv in Hinv. rewrite Ha, (proj2 (Z.ltb_ge _ nu7)) in Hinv by done.
  destruct Hinv as [Hpos Heq]. specialize (Heq Hd).
  exists (mk (pool_sum (chain_value_pools c))), (issued net (height_of blocks - 1)).
  split; [by apply issued_supply_Ok|].
  split; [apply scheduled_issuance_Ok; [done|unfold Height.valid, Height.MIN; lia]|].
  pose proof (pool_sum_nonneg _ (proj1 Hok)). cbn [zatoshis]. lia.
Qed.

(** A configured network with NU7 at height 1, and its first two blocks. *)
Definition nu7_network : Network := Testnet {|
  p_is_default_testnet := false;
  p_is_regtest := false;
  p_activation_heights := [(0, Genesis); (1, Nu7)];
  p_slow_start_interval := 0;
  p_slow_start_shift := 0;
  p_funding_streams := [];
  p_target_difficulty_limit := 2 ^ 251 - 1;
  p_disable_pow := true;
  p_max_block_time_start_height := 0;
  p_should_allow_unshielded_coinbase_spends := false;
  p_pre_blossom_halving_interval := 144;
  p_post_blossom_halving_interval := 288;
  p_temporary_orchard_disabling_soft_fork_height := None;
  p_initial_nsm_value_balance := None;
|}.

Lemma nu7_network_wf : net_wf nu7_network.
Proof.
  split; cbn; try lia; try reflexivity; try done.
  - apply entries_sortedb_spec. reflexivity.
  - apply entries_validb_spec. reflexivity.
Qed.

(** Genesis changes nothing; block 1 claims 8333333 zatoshis less than its subsidy. *)
Definition change0 : ValueBalance NegativeAllowed := vb_of 0 0 0.
Definition change1 : ValueBalance NegativeAllowed := vb_of 200000000 0 8333333.

Lemma block_change_coinbase net h t d n :
  chain_value_pool_change_from_utxos (Some h) [vb_of (C := NegativeAllowed) (-t) 0 0] net
    (Some (mk d)) Ok = Ok (vb_of t d n) ->
  range_contains (valid_range (C := NegativeAllowed)) (-t) = true -> wf (C := NegativeAllowed) (mk d) ->
  block_change net h (vb_of t d n).
Proof.
  intros H Ht Hd.
  exists unit, [tt], (Some (mk d)), (fun _ => Ok (vb_of (-t) 0 0)).
  split; [|split; [by intros ? [= <-]|exact H]].
  intros _ v [= <-]. split; cbn; done || apply (zero_wf (C := NegativeAllowed)).
Qed.

Definition chain1 : Chain := mkChain (vb_of 0 0 0) [(0, (vb_of 0 0 0, 1687))].
Definition chain2 : Chain :=
  mkChain (vb_of 200000000 0 8333333)
    [(0, (vb_of 0 0 0, 1687)); (1, (vb_of 200000000 0 8333333, 500))].

Lemma chain2_reachable : reachable nu7_network (chain2, [change1; change0]).
Proof.
  apply (reachable_step nu7_network (chain1, [change0])).
  - apply (reachable_step nu7_network (mkChain (vb_of 0 0 0) [], [])).
    + apply reachable_init. reflexivity.
    + apply (step_push _ _ _ _ 1687); [split; vm_compute; discriminate| |vm_compute; reflexivity].
      apply block_change_coinbase; vm_compute; reflexivity.
  - apply (step_push _ _ _ _ 500); [split; vm_compute; discriminate| |vm_compute; reflexivity].
    apply block_change_coinbase; vm_compute; reflexivity.
Qed.

Lemma supply_never_exceeds_schedule_witness :
  exists supply scheduled,
    issued_supply (E := unit) (chain_value_pools chain2) = Ok supply /\
    scheduled_issuance_zatoshis (2 - 1) nu7_network = Ok scheduled /\
    zatoshis (nsm_value_balance (chain_value_pools chain2)) = scheduled - zatoshis supply /\
    0 <= zatoshis supply <= scheduled.
Proof.
  apply (supply_never_exceeds_schedule nu7_network chain2 [change1; change0] 1).
  - apply nu7_network_wf.
  - apply chain2_reachable.
  - reflexivity.
  - vm_compute. reflexivity.
  - vm_compute. discriminate.
  - vm_compute. split; [reflexivity|discriminate].
Defined.

(** ** Records *)

Lemma length_to_bytes {C} (a : Amount C) : length (Amount.to_bytes a) = 8%nat.
Proof. apply length_le_bytes. Qed.

Definition legs (v : ValueBalance NonNegative) (k : nat) : list (list Z) :=
  take k [Amount.to_bytes (transparent v); Amount.to_bytes (sprout v); Amount.to_bytes (sapling v);
          Amount.to_bytes (orchard v); Amount.to_bytes (deferred v); Amount.to_bytes (ironwood v);
          Amount.to_bytes (nsm_value_balance v)].

Lemma length_concat8 (l : list (list Z)) :
  Forall (fun bs => length bs = 8%nat) l -> length (concat l) = (8 * length l)%nat.
Proof. induction 1; [done|]. cbn. rewrite length_app. lia. Qed.

Lemma legs_length8 v k : Forall (fun bs => length bs = 8%nat) (legs v k).
Proof. apply Forall_take. repeat constructor; apply length_to_bytes. Qed.

(** The [j]-th leg of a record of legs of eight bytes. *)
Lemma leg_concat (l : list (list Z)) j bs :
  Forall (fun bs => length bs = 8%nat) l -> l !! j = Some bs -> leg (concat l) (8 * j) = bs.
Proof.
  intros Hl. revert j. induction Hl as [|x l Hx Hl IH]; intros j Hj; [done|].
  destruct j as [|j]; cbn in Hj.
  - injection Hj as ->. unfold leg. cbn [concat]. rewrite Nat.mul_0_r, drop_0.
    by rewrite (take_app_length' _ _ 8).
  - rewrite <- (IH j Hj). unfold leg. cbn [concat].
    replace (8 * S j)%nat with (length x + 8 * j)%nat by lia. by rewrite drop_app_add.
Qed.

Lemma record_leg {C} `{HC : Constraint C} {HL : ConstraintLaws C} v k j start (a : Amount C) :
  start = (8 * j)%nat -> legs v k !! j = Some (Amount.to_bytes a) -> wf a ->
  Amount.from_bytes (leg (concat (legs v k)) start) = Ok a.
Proof.
  intros -> Hj Ha. rewrite (leg_concat _ j (Amount.to_bytes a)); [by apply from_to_bytes|apply legs_length8|done].
Qed.

(** A record with the first [k] legs parses to the balance whose later pools are
    zero. *)
Definition truncated (v : ValueBalance NonNegative) (k : nat) : ValueBalance NonNegative :=
  mkVB (transparent v) (sprout v) (sapling v) (orchard v)
    (if (k <? 5)%nat then mk 0 else deferred v) (if (k <? 6)%nat then mk 0 else ironwood v)
    (if (k <? 7)%nat then mk 0 else nsm_value_balance v).

Lemma from_bytes_legs v k :
  vb_wf v -> (4 <= k <= 7)%nat ->
  ValueBalance.from_bytes (concat (legs v k)) = Ok (truncated v k).
Proof.
  intros [Ht Hsp Hsa Ho Hd Hi Hn] Hk. unfold ValueBalance.from_bytes.
  rewrite length_concat8 by apply legs_length8.
  assert (Hlen : length (legs v k) = k) by (unfold legs; rewrite length_take; cbn; lia). rewrite Hlen.
  assert (Hin : (8 * k)%nat ∈ [32; 40; 48; 56]%nat).
  { assert (k = 4 \/ k = 5 \/ k = 6 \/ k = 7)%nat as [->|[->|[->| ->]]] by lia; by apply (bool_decide_unpack _). }
  rewrite bool_decide_true by done.
  rewrite (record_leg v k 0 0 (transparent v) eq_refl), (record_leg v k 1 8 (sprout v) eq_refl),
    (record_leg v k 2 16 (sapling v) eq_refl), (record_leg v k 3 24 (orchard v) eq_refl)
    by (done || (unfold legs; rewrite lookup_take_lt by lia; done)).
  cbn [map_err res_bind]. unfold truncated.
  replace (8 * k <? 40)%nat with (k <? 5)%nat by (destruct (Nat.ltb_spec k 5), (Nat.ltb_spec (8 * k) 40); lia).
  replace (8 * k <? 48)%nat with (k <? 6)%nat by (destruct (Nat.ltb_spec k 6), (Nat.ltb_spec (8 * k) 48); lia).
  replace (8 * k <? 56)%nat with (k <? 7)%nat by (destruct (Nat.ltb_spec k 7), (Nat.ltb_spec (8 * k) 56); lia).
  rewrite !zero_Ok.
  destruct (Nat.ltb_spec k 5); cbn [res_bind].
  { rewrite (proj2 (Nat.ltb_lt k 6)), (proj2 (Nat.ltb_lt k 7)) by lia. done. }
  rewrite (record_leg v k 4 32 (deferred v) eq_refl)
    by (done || (unfold legs; rewrite lookup_take_lt by lia; done)). cbn [map_err res_bind].
  destruct (Nat.ltb_spec k 6); cbn [res_bind].
  { rewrite (proj2 (Nat.ltb_lt k 7)) by lia. done. }
  rewrite (record_leg v k 5 40 (ironwood v) eq_refl)
    by (done || (unfold legs; rewrite lookup_take_lt by lia; done)). cbn [map_err res_bind].
  destruct (Nat.ltb_spec k 7); cbn [res_bind]; [done|].
  rewrite (record_leg v k 6 48 (nsm_value_balance v) eq_refl)
    by (done || (unfold legs; rewrite lookup_take_lt by lia; done)). done.
Qed.

(** Value pool records.  A record is read back, and records of every length
    older versions wrote (32, 40 or 48 bytes) read as the balance whose missing
    pools are zero; any other length is rejected as unparsable. *)
Lemma value_balance_records v :
  vb_wf v ->
  ValueBalance.from_bytes (ValueBalance.to_bytes v) = Ok v /\
  (forall k, (4 <= k <= 7)%nat ->
     ValueBalance.from_bytes (take (8 * k) (ValueBalance.to_bytes v)) = Ok (truncated v k)) /\
  (forall bs, length bs ∉ [32; 40; 48; 56]%nat -> ValueBalance.from_bytes bs = Err Unparsable).
Proof.
  intros Hwf.
  assert (Hk : forall k, (4 <= k <= 7)%nat ->
    ValueBalance.from_bytes (take (8 * k) (ValueBalance.to_bytes v)) = Ok (truncated v k)).
  { intros k Hk. rewrite <- from_bytes_legs by done. f_equal.
    change (ValueBalance.to_bytes v) with (concat (legs v 7)).
    replace (concat (legs v 7)) with (concat (legs v k) ++ concat (drop k (legs v 7))).
    - rewrite take_app_length'; [done|]. rewrite length_concat8 by apply legs_length8.
      unfold legs. rewrite length_take. cbn. lia.
    - rewrite <- concat_app. f_equal. rewrite <- (take_drop k (legs v 7)) at 2. done. }
  split; [|split; [done|]].
  - specialize (Hk 7%nat ltac:(lia)). rewrite take_ge in Hk; [by destruct v|].
    change (ValueBalance.to_bytes v) with (concat (legs v 7)).
    rewrite length_concat8 by apply legs_length8. reflexivity.
  - intros bs Hbs. unfold ValueBalance.from_bytes. by rewrite bool_decide_false.
Qed.

End ValuePools.
