(* ===== verification/DifficultyFacts.v ===== *)
(** * Properties of the difficulty conversions

    The conversions of [Difficulty] against [ToTarget], [ToCompact] and the
    definition of work of the protocol specification, for every implementation
    of the 256-bit integers that satisfies their laws. *)

From stdpp Require Import base numbers list option sorting.
From Stdlib Require Import ZArith Lia.
From S2P Require Import Prelude Height Network Difficulty.
Local Open Scope Z_scope.

Module DifficultyFacts.
Import Network Difficulty.

Definition is_u32 (c : Z) : Prop := 0 <= c < 2 ^ 32.

(** [ToTarget] of the specification, rounded down. *)
Definition to_target (c : Z) : Z := (c mod 2 ^ 23) * 256 ^ (c / 2 ^ 24) / 256 ^ 3.

(** What the conversion accepts: no sign bit, a positive target that fits. *)
Definition target_of (c : Z) : option Z :=
  if Z.testbit c 23 || (to_target c =? 0) || (2 ^ 256 <=? to_target c) then None
  else Some (to_target c).

Lemma land_pow2 c n : 0 <= n -> Z.land c (2 ^ n) = if Z.testbit c n then 2 ^ n else 0.
Proof.
  intros Hn. apply Z.bits_inj'. intros i Hi. rewrite Z.land_spec, Z.pow2_bits_eqb by lia.
  destruct (Z.testbit c n) eqn:Hc.
  - rewrite Z.pow2_bits_eqb by lia. destruct (Z.eqb_spec n i) as [->|]; [by rewrite Hc|apply andb_false_r].
  - rewrite Z.testbit_0_l. destruct (Z.eqb_spec n i) as [->|]; [by rewrite Hc|apply andb_false_r].
Qed.

Lemma pow256 n : 0 <= n -> 256 ^ n = 2 ^ (8 * n).
Proof. intros Hn. change 256 with (2 ^ 8). by rewrite <- Z.pow_mul_r by lia. Qed.

Lemma pow256_pos n : 0 <= n -> 0 < 256 ^ n.
Proof. intros. apply Z.pow_pos_nonneg; lia. Qed.

Lemma pow256_le a b : 0 <= a <= b -> 256 ^ a <= 256 ^ b.
Proof. intros. apply Z.pow_le_mono_r; lia. Qed.

(** [m * 256^b / 256^3] on either side of the offset. *)
Lemma target_up m b : 3 <= b -> m * 256 ^ b / 256 ^ 3 = m * 256 ^ (b - 3).
Proof.
  intros Hb. replace (256 ^ b) with (256 ^ (b - 3) * 256 ^ 3) by (rewrite <- Z.pow_add_r by lia; f_equal; lia).
  rewrite Z.mul_assoc. apply Z.div_mul. lia.
Qed.

Lemma target_down m b : 0 <= b <= 3 -> m * 256 ^ b / 256 ^ 3 = m / 256 ^ (3 - b).
Proof.
  intros Hb. replace (256 ^ 3) with (256 ^ (3 - b) * 256 ^ b) by (rewrite <- Z.pow_add_r by lia; f_equal; lia).
  pose proof (pow256_pos b). pose proof (pow256_pos (3 - b)). apply Z.div_mul_cancel_r; lia.
Qed.

(** The normalised mantissa and exponent denote the same target, or the target
    is zero or does not fit. *)
Lemma normalise_spec m b :
  0 <= m < 2 ^ 23 -> 0 <= b < 256 ->
  match normalise m (b - 3) with
  | Some (m', e') => 0 <= m' < 2 ^ 24 /\ 0 <= e' <= 29 /\ m' * 256 ^ e' = m * 256 ^ b / 256 ^ 3 /\
                     m' * 256 ^ e' < 2 ^ 256
  | None => m * 256 ^ b / 256 ^ 3 = 0 \/ 2 ^ 256 <= m * 256 ^ b / 256 ^ 3
  end.
Proof.
  intros Hm Hb. unfold normalise, u8_max, u16_max.
  assert (Hbig : forall k, 3 <= b -> 0 < k -> k <= m -> 2 ^ 256 <= k * 256 ^ (b - 3) ->
    2 ^ 256 <= m * 256 ^ b / 256 ^ 3).
  { intros k H3 Hk Hkm Hle. rewrite target_up by done. pose proof (pow256_pos (b - 3)). nia. }
  destruct (Z.leb_spec 32 (b - 3)) as [H32|H32].
  { destruct (Z.eq_dec m 0) as [->|]; [by left|right]. apply (Hbig 1); try lia.
    pose proof (pow256_le 32 (b - 3) ltac:(lia)). change (256 ^ 32) with (2 ^ 256) in *. lia. }
  destruct (Z.eqb_spec (b - 3) 31) as [H31|H31]; cbn [andb].
  { assert (b = 34) as -> by lia. destruct (Z.ltb_spec (2 ^ 8 - 1) m).
    { right. apply (Hbig 256); try lia. }
    rewrite (proj2 (Z.leb_le m (2 ^ 8 - 1))) by lia. rewrite Z.shiftl_mul_pow2 by lia.
    rewrite target_up by lia. change (34 - 3 - 2) with 29. change (34 - 3) with 31.
    change (256 ^ 31) with (2 ^ 16 * 256 ^ 29). lia. }
  destruct (Z.eqb_spec (b - 3) 30) as [H30|H30]; cbn [andb].
  { assert (b = 33) as -> by lia. destruct (Z.ltb_spec (2 ^ 16 - 1) m).
    { right. apply (Hbig 65536); try lia. }
    rewrite (proj2 (Z.leb_le m (2 ^ 16 - 1))) by lia. rewrite Z.shiftl_mul_pow2 by lia.
    rewrite target_up by lia. change (33 - 3 - 1) with 29. change (33 - 3) with 30.
    change (256 ^ 30) with (2 ^ 8 * 256 ^ 29). lia. }
  destruct (Z.ltb_spec (b - 3) 0) as [Hneg|Hpos].
  - rewrite target_down by lia. replace (Z.abs (b - 3) * 8) with (8 * (3 - b)) by lia.
    rewrite Z.shiftr_div_pow2 by lia. rewrite <- pow256 by lia.
    pose proof (pow256_pos (3 - b) ltac:(lia)) as Hp.
    pose proof (Z.div_pos m (256 ^ (3 - b)) ltac:(lia) Hp).
    pose proof (Z.div_le_upper_bound m (256 ^ (3 - b)) m Hp ltac:(nia)).
    rewrite Z.pow_0_r, Z.mul_1_r. lia.
  - rewrite target_up by lia. pose proof (pow256_le (b - 3) 29 ltac:(lia)).
    pose proof (pow256_pos (b - 3) ltac:(lia)). change (256 ^ 29) with (2 ^ 232) in *.
    split; [lia|]. split; [lia|]. split; [done|]. nia.
Qed.

Section Laws.
Context {U : U256} {UL : U256Laws U}.

(** [to_expanded] is [ToTarget], restricted to what the protocol accepts. *)
Lemma to_expanded_spec {E} c : is_u32 c -> to_expanded (E := E) c = Ok (target_of c).
Proof.
  intros Hc. unfold is_u32 in Hc. unfold to_expanded, target_of, to_target.
  change SIGN_BIT with (2 ^ 23). rewrite land_pow2 by lia.
  destruct (Z.testbit c 23); [done|]. change (0 =? 2 ^ 23) with false. cbn [orb].
  change UNSIGNED_MANTISSA_MASK with (Z.ones 23). rewrite Z.land_ones by lia.
  unfold PRECISION, OFFSET. rewrite Z.shiftr_div_pow2 by lia.
  set (m := c mod 2 ^ 23). set (b := c / 2 ^ 24).
  assert (Hm : 0 <= m < 2 ^ 23) by (apply Z.mod_pos_bound; lia).
  assert (Hb : 0 <= b < 256).
  { split; [apply Z.div_pos; lia|apply Z.div_lt_upper_bound; lia]. }
  unfold to_sint. rewrite (proj2 (in_sint_spec 32 b)) by lia. cbn [expect res_bind].
  run_arith.
  pose proof (normalise_spec m b Hm Hb) as Hn.
  destruct (normalise m (b - 3)) as [[m' e']|].
  - destruct Hn as (Hm' & He' & Heq & Hlt). rewrite <- Heq.
    pose proof (pow256_le e' 29 ltac:(lia)) as Hp. pose proof (pow256_pos e' ltac:(lia)) as Hp0.
    change (256 ^ 29) with (2 ^ 232) in Hp.
    unfold u_pow, u_mul, BASE. rewrite u_pow_law by (unfold is_u256; lia).
    unfold to_uint. rewrite (proj2 (in_uint_spec 256 (256 ^ e'))) by lia. cbn [expect res_bind].
    rewrite u_mul_law by (unfold is_u256; lia). unfold to_uint.
    rewrite (proj2 (in_uint_spec 256 (m' * 256 ^ e'))) by nia. cbn [expect res_bind].
    rewrite (proj2 (Z.leb_gt _ _)) by done. rewrite orb_false_r. by destruct (_ =? 0).
  - destruct Hn as [->|Hn]; [done|]. rewrite (proj2 (Z.leb_le _ _) Hn). by rewrite orb_true_r.
Qed.

(** ** [to_compact] *)

(** The byte size of the compact form, and its mantissa. *)
Definition csize (x : Z) : Z := (Z.log2 x + 1) / 8 + 1.

Definition cmantissa (x : Z) : Z :=
  if csize x <=? 3 then x * 256 ^ (3 - csize x) else x / 256 ^ (csize x - 3).

Lemma log2_range x : 0 < x < 2 ^ 256 -> 0 <= Z.log2 x < 256.
Proof. intros Hx. split; [apply Z.log2_nonneg|apply Z.log2_lt_pow2; lia]. Qed.

Lemma csize_range x : 0 < x < 2 ^ 256 -> 1 <= csize x <= 33.
Proof.
  intros Hx. pose proof (log2_range x Hx). unfold csize.
  pose proof (Z.div_pos (Z.log2 x + 1) 8). pose proof (Z.div_le_upper_bound (Z.log2 x + 1) 8 32). lia.
Qed.

(** The size in bits, in terms of the byte size. *)
Lemma csize_bits x : 8 * (csize x - 1) <= Z.log2 x + 1 <= 8 * (csize x - 1) + 7.
Proof.
  unfold csize. pose proof (Z.div_mod (Z.log2 x + 1) 8). pose proof (Z.mod_pos_bound (Z.log2 x + 1) 8). lia.
Qed.

Lemma small_iff x : 0 < x -> x <= 2 ^ 23 - 1 <-> csize x <= 3.
Proof.
  intros Hx. pose proof (csize_bits x). split.
  - intros Hle. assert (Z.log2 x < 23) by (apply Z.log2_lt_pow2; lia). lia.
  - intros Hle. assert (Z.log2 x < 23) by lia. assert (x < 2 ^ 23); [|lia].
    apply Z.log2_lt_pow2; lia.
Qed.

(** The mantissa uses between 16 and 23 bits. *)
Lemma cmantissa_range x : 0 < x -> 2 ^ 15 <= cmantissa x < 2 ^ 23.
Proof.
  intros Hx. pose proof (csize_bits x) as Hb. pose proof (Z.log2_spec x Hx) as [Hlo Hhi].
  assert (H1 : 1 <= csize x).
  { unfold csize. pose proof (Z.log2_nonneg x). pose proof (Z.div_pos (Z.log2 x + 1) 8). lia. }
  unfold cmantissa. destruct (Z.leb_spec (csize x) 3).
  - rewrite pow256 by lia. set (k := 8 * (3 - csize x)) in *. assert (0 <= k) by lia.
    pose proof (Z.pow_pos_nonneg 2 k). split.
    + transitivity (2 ^ (Z.log2 x) * 2 ^ k); [|nia].
      rewrite <- Z.pow_add_r by (try apply Z.log2_nonneg; lia). apply Z.pow_le_mono_r; lia.
    + apply Z.lt_le_trans with (2 ^ (Z.succ (Z.log2 x)) * 2 ^ k); [nia|].
      rewrite <- Z.pow_add_r by (try apply Z.log2_nonneg; lia). apply Z.pow_le_mono_r; lia.
  - rewrite pow256 by lia. set (k := 8 * (csize x - 3)) in *.
    pose proof (Z.pow_pos_nonneg 2 k). split.
    + apply Z.div_le_lower_bound; [lia|]. transitivity (2 ^ Z.log2 x); [|done].
      rewrite <- Z.pow_add_r by lia. apply Z.pow_le_mono_r; lia.
    + apply Z.div_lt_upper_bound; [lia|]. apply Z.lt_le_trans with (2 ^ Z.succ (Z.log2 x)); [done|].
      rewrite <- Z.pow_add_r by lia. apply Z.pow_le_mono_r; lia.
Qed.

(** [to_compact] never panics on a positive value. *)
Lemma to_compact_spec {E} x :
  0 < x < 2 ^ 256 -> to_compact (E := E) x = Ok (cmantissa x + csize x * 2 ^ 24).
Proof.
  intros Hx. pose proof (csize_range x Hx) as Hs. pose proof (cmantissa_range x ltac:(lia)) as Hm.
  unfold to_compact. rewrite (proj2 (Z.ltb_lt 0 x)) by lia. cbn [rust_assert res_bind].
  rewrite u_bits_law by (unfold is_u256; lia). destruct (Z.eqb_spec x 0); [lia|]. fold (csize x).
  change UNSIGNED_MANTISSA_MASK with (2 ^ 23 - 1).
  assert (Hmant : (if x <=? 2 ^ 23 - 1
    then let? d := uint_arith 64 (3 - csize x) in let? s := uint_arith 64 (8 * d) in Ok (u_shl x s)
    else let? d := uint_arith 64 (csize x - 3) in let? s := uint_arith 64 (8 * d) in Ok (u_shr x s))
    = Ok (E := E) (cmantissa x)).
  { pose proof (small_iff x ltac:(lia)) as Hsm. unfold cmantissa in *.
    destruct (Z.leb_spec x (2 ^ 23 - 1)), (Z.leb_spec (csize x) 3); try lia.
    - run_arith.
      rewrite u_shl_law by (unfold is_u256; lia). rewrite <- pow256 by lia.
      rewrite Z.mod_small by lia. done.
    - run_arith.
      rewrite u_shr_law by (unfold is_u256; lia). by rewrite <- pow256 by lia. }
  rewrite Hmant. cbn [res_bind]. unfold OFFSET.
  rewrite (proj2 (Z.ltb_lt (csize x) (31 + 3))) by lia. cbn [rust_assert res_bind]. unfold to_uint.
  rewrite (proj2 (in_uint_spec 32 (csize x))) by lia. cbn [expect res_bind].
  rewrite (proj2 (Z.leb_le (cmantissa x) (2 ^ 23 - 1))) by lia. cbn [rust_assert res_bind].
  rewrite (proj2 (in_uint_spec 32 (cmantissa x))) by lia. cbn [expect res_bind].
  rewrite (proj2 (Z.ltb_lt 0 (cmantissa x))) by lia. rewrite Z.shiftl_mul_pow2 by lia.
  rewrite Z.mod_small by lia. rewrite uint_arith_Ok by lia. done.
Qed.

(** The value rounded down to the precision of the compact form. *)
Definition cfloor (x : Z) : Z :=
  if csize x <=? 3 then x else x / 256 ^ (csize x - 3) * 256 ^ (csize x - 3).

Lemma compact_fields m b :
  0 <= m < 2 ^ 23 -> 0 <= b -> let c := m + b * 2 ^ 24 in
  Z.testbit c 23 = false /\ c mod 2 ^ 23 = m /\ c / 2 ^ 24 = b.
Proof.
  intros Hm Hb c. unfold c. split; [|split].
  - rewrite Z.testbit_false by lia.
    replace ((m + b * 2 ^ 24) / 2 ^ 23) with (b * 2); [apply Z.mod_mul; lia|].
    apply Z.div_unique with m; lia.
  - symmetry. apply Z.mod_unique with (2 * b); lia.
  - symmetry. apply Z.div_unique with m; lia.
Qed.

Lemma cfloor_range x : 0 < x < 2 ^ 256 -> 0 < cfloor x <= x.
Proof.
  intros Hx. pose proof (cmantissa_range x ltac:(lia)) as Hm. unfold cfloor, cmantissa in *.
  destruct (Z.leb_spec (csize x) 3); [lia|].
  pose proof (pow256_pos (csize x - 3) ltac:(lia)).
  pose proof (Z.mul_div_le x (256 ^ (csize x - 3)) ltac:(lia)). nia.
Qed.

Lemma target_of_compact x :
  0 < x < 2 ^ 256 -> target_of (cmantissa x + csize x * 2 ^ 24) = Some (cfloor x).
Proof.
  intros Hx. pose proof (csize_range x Hx) as Hs. pose proof (cmantissa_range x ltac:(lia)) as Hm.
  pose proof (cfloor_range x Hx) as Hf.
  destruct (compact_fields (cmantissa x) (csize x) ltac:(lia) ltac:(lia)) as (Hbit & Hmod & Hdiv).
  unfold target_of, to_target. rewrite Hbit, Hmod, Hdiv. cbn [orb].
  assert (Ht : cmantissa x * 256 ^ csize x / 256 ^ 3 = cfloor x).
  { unfold cmantissa, cfloor. destruct (Z.leb_spec (csize x) 3).
    - rewrite <- Z.mul_assoc, <- Z.pow_add_r by lia.
      replace (3 - csize x + csize x) with 3 by lia. apply Z.div_mul. lia.
    - by rewrite target_up by lia. }
  rewrite Ht. rewrite (proj2 (Z.eqb_neq _ 0)), (proj2 (Z.leb_gt _ _)) by lia. done.
Qed.

Lemma log2_cfloor x : 0 < x < 2 ^ 256 -> Z.log2 (cfloor x) = Z.log2 x.
Proof.
  intros Hx. unfold cfloor. pose proof (csize_bits x). pose proof (csize_range x Hx).
  destruct (Z.leb_spec (csize x) 3); [done|]. rewrite pow256 by lia.
  set (k := 8 * (csize x - 3)) in *. rewrite <- Z.shiftr_div_pow2 by lia.
  assert (Hl : Z.log2 (Z.shiftr x k) = Z.log2 x - k) by (rewrite Z.log2_shiftr by lia; lia).
  assert (0 < Z.shiftr x k).
  { rewrite Z.shiftr_div_pow2 by lia. apply Z.div_str_pos. split; [apply Z.pow_pos_nonneg; lia|].
    apply Z.log2_le_pow2; lia. }
  rewrite Z.log2_mul_pow2 by lia. lia.
Qed.

(** Rounding is idempotent. *)
Lemma cfloor_compact x :
  0 < x < 2 ^ 256 -> csize (cfloor x) = csize x /\ cmantissa (cfloor x) = cmantissa x.
Proof.
  intros Hx. assert (Hs : csize (cfloor x) = csize x) by (unfold csize; by rewrite log2_cfloor).
  split; [done|]. unfold cmantissa. rewrite Hs. unfold cfloor.
  destruct (Z.leb_spec (csize x) 3); [done|]. pose proof (pow256_pos (csize x - 3) ltac:(lia)).
  by rewrite Z.div_mul by lia.
Qed.

(** No compact value lies between the rounded value and the value. *)
Lemma cfloor_max x c w :
  0 < x < 2 ^ 256 -> is_u32 c -> target_of c = Some w -> w <= x -> w <= cfloor x.
Proof.
  intros Hx Hc Ht Hw. unfold target_of in Ht.
  destruct (Z.testbit c 23 || (to_target c =? 0) || (2 ^ 256 <=? to_target c)); [done|].
  injection Ht as <-. unfold to_target in *. set (m := c mod 2 ^ 23) in *. set (b := c / 2 ^ 24) in *.
  assert (Hm : 0 <= m < 2 ^ 23) by (apply Z.mod_pos_bound; lia).
  assert (Hb : 0 <= b) by (apply Z.div_pos; unfold is_u32 in Hc; lia).
  pose proof (cmantissa_range x ltac:(lia)) as Hmx. unfold cfloor, cmantissa in *.
  destruct (Z.leb_spec (csize x) 3) as [|Hs]; [done|]. set (k := csize x - 3) in *.
  pose proof (pow256_pos k ltac:(lia)) as Hk.
  destruct (Z_le_gt_dec k (b - 3)) as [Hge|Hlt].
  - rewrite target_up in * by lia.
    replace (256 ^ (b - 3)) with (256 ^ (b - 3 - k) * 256 ^ k) in *
      by (rewrite <- Z.pow_add_r by lia; f_equal; lia).
    assert (m * 256 ^ (b - 3 - k) <= x / 256 ^ k) by (apply Z.div_le_lower_bound; nia). nia.
  - assert (m * 256 ^ b / 256 ^ 3 <= 2 ^ 23 * 256 ^ (k - 1)).
    { destruct (Z_le_gt_dec 3 b).
      - rewrite target_up by lia. pose proof (pow256_le (b - 3) (k - 1) ltac:(lia)).
        pose proof (pow256_pos (b - 3) ltac:(lia)). nia.
      - rewrite target_down by lia. pose proof (pow256_pos (3 - b) ltac:(lia)).
        pose proof (pow256_pos (k - 1) ltac:(lia)).
        pose proof (Z.div_le_upper_bound m (256 ^ (3 - b)) m). nia. }
    replace (256 ^ k) with (256 * 256 ^ (k - 1)) in *
      by (rewrite <- Z.pow_succ_r by lia; f_equal; lia).
    pose proof (pow256_pos (k - 1) ltac:(lia)). nia.
Qed.

(** ** Work *)

Lemma work_spec x : 0 < x < 2 ^ 256 -> work_try_from x = Ok (2 ^ 256 / (x + 1)).
Proof.
  intros Hx. unfold work_try_from. destruct (Z.eqb_spec x 0); [lia|].
  destruct (Z.eqb_spec x (2 ^ 256 - 1)) as [->|]; [done|].
  unfold u_add, u_div. rewrite u_add_law by (unfold is_u256; lia). unfold to_uint.
  rewrite (proj2 (in_uint_spec 256 (x + 1))) by lia. cbn [expect res_bind].
  rewrite u_not_law by (unfold is_u256; lia). rewrite u_div_law by (unfold is_u256; lia).
  destruct (Z.eqb_spec (x + 1) 0); [lia|]. cbn [expect res_bind].
  replace (2 ^ 256 - 1 - x) with (2 ^ 256 + (-1) * (x + 1)) by lia. rewrite Z.div_add by lia.
  assert (1 <= 2 ^ 256 / (x + 1) < 2 ^ 256).
  { split; [apply Z.div_le_lower_bound; lia|apply Z.div_lt_upper_bound; lia]. }
  rewrite u_add_law by (unfold is_u256; lia). unfold to_uint.
  rewrite (proj2 (in_uint_spec 256 _)) by lia. cbn [expect]. f_equal. lia.
Qed.

Lemma target_of_Some c t : target_of c = Some t -> t = to_target c /\ 0 < t < 2 ^ 256.
Proof.
  unfold target_of. intros H.
  destruct (Z.testbit c 23); cbn [orb] in H; [done|].
  destruct (Z.eqb_spec (to_target c) 0); cbn [orb] in H; [done|].
  destruct (Z.leb_spec (2 ^ 256) (to_target c)); [done|]. injection H as <-.
  assert (0 <= to_target c); [|lia]. unfold to_target. apply Z.div_pos; [|lia].
  pose proof (Z.mod_pos_bound c (2 ^ 23)). pose proof (Z.pow_nonneg 256 (c / 2 ^ 24)). nia.
Qed.

Lemma to_work_spec {E} c :
  is_u32 c -> to_work (E := E) c = Ok ((fun t => 2 ^ 256 / (t + 1)) <$> target_of c).
Proof.
  intros Hc. unfold to_work. rewrite to_expanded_spec by done. cbn [res_bind].
  destruct (target_of c) as [t|] eqn:Ht; [|done]. apply target_of_Some in Ht as [_ Ht].
  by rewrite work_spec.
Qed.
End Laws.

(** [to_expanded] is [ToTarget] of the protocol specification: for every
    32-bit value it is the mantissa times [256^(exponent - 3)], rounded down, and
    [None] exactly for the encodings the protocol rejects: negative ones, zero
    targets and targets of 2^256 or more.  Neither the power nor the product
    overflows. *)
Lemma to_expanded_is_to_target (U : U256) (UL : U256Laws U) c :
  is_u32 c ->
  to_expanded (E := unit) c =
    Ok (if Z.testbit c 23 || (to_target c =? 0) || (2 ^ 256 <=? to_target c) then None
        else Some (to_target c)).
Proof. intros Hc. by rewrite to_expanded_spec. Qed.

(** C29: [to_compact] rounds to the nearest compact value from below.  For every
    positive 256-bit target it does not panic, its result expands to a value [v]
    no greater than the target, no other compact value lies between them, and
    [v] has the same compact form. *)
Theorem to_compact_rounds_down (U : U256) (UL : U256Laws U) x :
  0 < x < 2 ^ 256 ->
  exists c v,
    to_compact (E := unit) x = Ok c /\ is_u32 c /\
    to_expanded (E := unit) c = Ok (Some v) /\ to_compact (E := unit) v = Ok c /\ v <= x /\
    forall c' w, is_u32 c' -> to_expanded (E := unit) c' = Ok (Some w) -> w <= x -> w <= v.
Proof.
  intros Hx. pose proof (csize_range x Hx). pose proof (cmantissa_range x ltac:(lia)).
  pose proof (cfloor_range x Hx) as Hf. destruct (cfloor_compact x Hx) as [Hs Hm].
  exists (cmantissa x + csize x * 2 ^ 24), (cfloor x).
  assert (Hc : is_u32 (cmantissa x + csize x * 2 ^ 24)) by (unfold is_u32; lia).
  split; [by apply to_compact_spec|]. split; [done|].
  split; [rewrite to_expanded_spec by done; by rewrite target_of_compact|].
  split; [rewrite to_compact_spec by lia; by rewrite Hs, Hm|]. split; [lia|].
  intros c' w Hc' Hw Hle. rewrite to_expanded_spec in Hw by done. injection Hw as Hw.
  by apply (cfloor_max x c').
Qed.

Lemma to_compact_rounds_down_witness :
  exists c v,
    to_compact (E := unit) (2 ^ 243 - 1) = Ok c /\ is_u32 c /\
    to_expanded (E := unit) c = Ok (Some v) /\ to_compact (E := unit) v = Ok c /\ v <= 2 ^ 243 - 1 /\
    forall c' w, is_u32 c' -> to_expanded (E := unit) c' = Ok (Some w) -> w <= 2 ^ 243 - 1 -> w <= v.
Proof. apply (to_compact_rounds_down u256_Z u256_Z_laws). split; vm_compute; reflexivity. Defined.

(** The work of a compact difficulty is [floor(2^256 / (ToTarget + 1))], it is
    defined exactly when the target is, it is positive, and a smaller target
    never has less work. *)
Lemma work_is_inverse_target (U : U256) (UL : U256Laws U) c :
  is_u32 c ->
  exists t, to_expanded (E := unit) c = Ok t /\
    to_work (E := unit) c = Ok ((fun t => 2 ^ 256 / (t + 1)) <$> t) /\
    forall w, to_work (E := unit) c = Ok (Some w) ->
      1 <= w < 2 ^ 256 /\
      forall c' t' w', is_u32 c' -> to_expanded (E := unit) c' = Ok (Some t') ->
        to_work (E := unit) c' = Ok (Some w') ->
        (forall t0, t = Some t0 -> t' <= t0 -> w <= w').
Proof.
  intros Hc. exists (target_of c). split; [by apply to_expanded_spec|].
  split; [by apply to_work_spec|]. intros w Hw. rewrite to_work_spec in Hw by done. injection Hw as Hw.
  destruct (target_of c) as [t|] eqn:Ht; [|done]. apply target_of_Some in Ht as [_ Ht].
  injection Hw as <-. split.
  - split; [apply Z.div_le_lower_bound; lia|apply Z.div_lt_upper_bound; lia].
  - intros c' t' w' Hc' Ht' Hw' t0 [= <-] Hle.
    rewrite to_expanded_spec in Ht' by done. injection Ht' as Ht'.
    rewrite to_work_spec, Ht' in Hw' by done. injection Hw' as <-.
    apply target_of_Some in Ht' as [_ Ht']. apply Z.div_le_compat_l; lia.
Qed.

End DifficultyFacts.
