(* ===== verification/AdjustedFacts.v ===== *)
(** * Properties of the difficulty adjustment *)

From stdpp Require Import base numbers list option sorting.
From Stdlib Require Import ZArith Lia.
From S2P Require Import Prelude Height Amount BTree Network Difficulty DifficultyFacts AdjustedDifficulty.
Local Open Scope Z_scope.

Module AdjustedFacts.
Import Network Difficulty DifficultyFacts AdjustedDifficulty.

Definition zsum (l : list Z) : Z := foldr Z.add 0 l.

(** ** The context *)

(** What [new_from_header_time] guarantees of its result. *)
Record built (adj : AdjustedDifficulty) (nu : NetworkUpgrade) : Prop := {
  built_height : 1 <= candidate_height adj <= Height.MAX;
  built_current : forall E, current (E := E) (network adj) (candidate_height adj) = Ok nu;
  built_thresholds : Z.of_nat (length (relevant_difficulty_thresholds adj))
    = Z.min (candidate_height adj) (averaging_window nu + 11);
  built_times : Z.of_nat (length (relevant_times adj))
    = Z.min (candidate_height adj) (averaging_window nu + 11);
}.

Lemma averaging_window_range nu : averaging_window nu = 17 \/ averaging_window nu = 102.
Proof. destruct nu; cbn; auto. Qed.

Lemma timespan_values nu : averaging_window_timespan nu = 1275 \/ averaging_window_timespan nu = 2550.
Proof. destruct nu; vm_compute; auto. Qed.

Lemma new_from_header_time_built time prev net context adj :
  net_wf net -> Height.valid prev -> new_from_header_time time prev net context = Ok adj ->
  network adj = net /\ candidate_height adj = prev + 1 /\ candidate_time adj = time /\
  relevant_difficulty_thresholds adj = take (length (relevant_times adj)) context.*1 /\
  relevant_times adj = take (length (relevant_times adj)) context.*2 /\
  exists nu, built adj nu.
Proof.
  intros Hwf [Hp0 Hp1] H. unfold Height.MIN in Hp0. unfold new_from_header_time in H.
  rewrite Height.add_diff_spec in H. rewrite Height.MAX_val in *.
  rewrite (proj2 (in_sint_spec 64 (prev + 1))) in H by lia. cbn [res_bind] in H.
  rewrite (proj2 (Z.leb_le 0 (prev + 1))) in H by lia. cbn [andb] in H.
  destruct (Z.leb_spec (prev + 1) (2 ^ 31 - 1)) as [Hh|]; [|done]. cbn [ok_or res_bind] in H.
  destruct (current_Ok net (prev + 1) Hwf ltac:(lia)) as (a & nu & _ & Hnu).
  unfold averaging_window_for_height in H. rewrite Hnu in H. cbn [res_bind] in H.
  change POW_MEDIAN_BLOCK_SPAN with 11 in H. change MAX_POW_ADJUSTMENT_BLOCK_SPAN with 113 in H.
  pose proof (averaging_window_range nu) as Hw. unfold to_uint in H.
  rewrite !(proj2 (in_uint_spec 32 _)) in H by lia. cbn [ok_or res_bind] in H.
  set (ctx := take (Z.to_nat (113 + 1)) context) in H.
  assert (Hlen1 : length ctx.*1 = length ctx) by apply length_fmap.
  assert (Hlen2 : length ctx.*2 = length ctx) by apply length_fmap. rewrite Hlen1 in H.
  set (req := Z.min (prev + 1) (averaging_window nu + 11)) in *.
  destruct (Z.ltb_spec (Z.of_nat (length ctx)) req) as [|Hge]; [done|].
  destruct (Z.ltb_spec (Z.min (prev + 1) 113) (Z.of_nat (length ctx))) as [|Hle]; [done|].
  unfold bounded in H.
  assert (Ht1 : length (take (Z.to_nat req) ctx.*1) = Z.to_nat req) by (rewrite length_take; lia).
  assert (Ht2 : length (take (Z.to_nat req) ctx.*2) = Z.to_nat req) by (rewrite length_take; lia).
  rewrite Ht1, Ht2 in H. change MAX_POW_ADJUSTMENT_BLOCK_SPAN with 113 in H.
  rewrite (proj2 (Z.leb_le 1 _)), (proj2 (Z.leb_le _ 113)) in H by lia. cbn [andb ok_or res_bind] in H.
  injection H as <-. cbn [network candidate_height candidate_time relevant_difficulty_thresholds relevant_times].
  rewrite Ht2. do 3 (split; [done|]).
  assert (Htk : forall (f : Z * Z -> Z), take (Z.to_nat req) (f <$> ctx) = take (Z.to_nat req) (f <$> context)).
  { intros f. unfold ctx. rewrite <- !fmap_take, take_take. do 2 f_equal. lia. }
  split; [apply Htk|]. split; [apply Htk|].
  exists nu. split; cbn; [rewrite Height.MAX_val; lia|done|rewrite Ht1; lia|rewrite Ht2; lia].
Qed.

Lemma new_from_header_time_length time prev net context adj :
  new_from_header_time time prev net context = Ok adj -> Z.of_nat (length context) <= candidate_height adj.
Proof.
  unfold new_from_header_time. intros H.
  destruct (Height.add_diff prev 1) as [o|e|]; [|done|done]. cbn [res_bind] in H.
  destruct o as [h|]; [|done]. cbn [ok_or res_bind] in H.
  destruct (averaging_window_for_height net h) as [w|e|]; [|done|done]. cbn [res_bind] in H.
  destruct (to_uint 32 (w + _)) as [active|]; [|done]. cbn [ok_or res_bind] in H.
  change (to_uint 32 MAX_POW_ADJUSTMENT_BLOCK_SPAN) with (Some 113) in H. cbn [ok_or res_bind] in H.
  rewrite length_fmap, length_take in H. change (Z.to_nat (MAX_POW_ADJUSTMENT_BLOCK_SPAN + 1)) with 114%nat in H.
  destruct (_ <? Z.min h active); [done|].
  destruct (Z.ltb_spec (Z.min h 113) (Z.of_nat (114 `min` length context))) as [|Hle]; [done|].
  do 2 (match type of H with (let? _ := ?c in _) = _ => destruct c as [?|?|]; [|done|done]; cbn [res_bind] in H end).
  injection H as <-. cbn. lia.
Qed.

(** ** Medians *)

Lemma median_time_Ok {E} (l : list Z) : l <> [] -> exists m, median_time (E := E) l = Ok m /\ m ∈ l.
Proof.
  intros Hl. unfold median_time. set (s := merge_sort Z.le l).
  assert (Hp : s ≡ₚ l) by apply merge_sort_Permutation.
  assert (Hlen : length s = length l) by (by rewrite Hp).
  assert (0 < length l)%nat by (destruct l; [done|cbn; lia]).
  destruct (lookup_lt_is_Some_2 s (length s / 2)%nat) as [m Hm].
  { rewrite Hlen. apply Nat.div_lt; lia. }
  exists m. rewrite Hm. split; [done|]. rewrite <- Hp. by apply list_elem_of_lookup_2 in Hm.
Qed.

Lemma list_filter_all (P : Z -> Prop) `{!forall x, Decision (P x)} (l : list Z) :
  (forall x, x ∈ l -> P x) -> filter P l = l.
Proof.
  induction l as [|x l IH]; intros Hl; [done|]. rewrite filter_cons_True by (apply Hl; by left).
  f_equal. apply IH. intros y Hy. apply Hl. by right.
Qed.

(** [m] is the median of [l]: an element with at most half of the elements strictly
    below it, and more than half at most it. *)
Definition is_median (l : list Z) (m : Z) : Prop :=
  m ∈ l /\ (length (filter (fun x => x < m)%Z l) <= length l / 2 < length (filter (fun x => x <= m)%Z l))%nat.

Lemma is_median_unique l m m' : is_median l m -> is_median l m' -> m = m'.
Proof.
  assert (Hlt : forall a b, a < b -> (length (filter (fun x => x <= a)%Z l) <= length (filter (fun x => x < b)%Z l))%nat).
  { intros a b Hab. induction l as [|x l IH]; [done|]. rewrite !filter_cons. repeat case_decide; cbn; lia. }
  intros [_ H] [_ H']. pose proof (Hlt m m'). pose proof (Hlt m' m). lia.
Qed.

Lemma median_time_spec {E} l m : median_time (E := E) l = Ok m <-> is_median l m.
Proof.
  assert (Hok : forall m, median_time (E := E) l = Ok m -> is_median l m).
  { clear m. intros m. unfold median_time. pose proof (merge_sort_Permutation Z.le l) as Hp.
    pose proof (StronglySorted_merge_sort Z.le l) as Hs. set (s := merge_sort Z.le l) in *.
    destruct (s !! (length s / 2)%nat) as [m'|] eqn:Hm; [|done]. intros [= ->]. unfold is_median. rewrite <- Hp.
    split; [by apply list_elem_of_lookup_2 in Hm|]. pose proof (take_drop_middle s _ m Hm) as Hmid.
    set (n := (length s / 2)%nat) in *. assert (Hn : length (take n s) = n).
    { rewrite length_take. apply lookup_lt_Some in Hm. lia. }
    rewrite <- Hmid in Hs. apply StronglySorted_app in Hs as (Hcross & _ & Hs). apply StronglySorted_inv in Hs as [_ Hs].
    rewrite <- Hmid, !filter_app, !length_app, !filter_cons. rewrite decide_False, decide_True by lia.
    rewrite (filter_none (fun x => x < m) (drop (S n) s)).
    2: { intros x Hx. rewrite Forall_forall in Hs. specialize (Hs x Hx). lia. }
    rewrite (list_filter_all (fun x => x <= m) (take n s)).
    2: { intros x Hx. apply Hcross; [done|by left]. }
    pose proof (length_filter (fun x => x < m) (take n s)). cbn [length]. lia. }
  split; [apply Hok|]. intros Hm. destruct (median_time_Ok (E := E) l) as (m' & Hm' & _).
  { intros ->. destruct Hm as [?%elem_of_nil _]. done. }
  rewrite Hm'. f_equal. by apply (is_median_unique l); [apply Hok|].
Qed.

Lemma timespan_Ok {E} adj nu newer older :
  built adj nu -> averaging_window nu < candidate_height adj ->
  is_median (take 11 (relevant_times adj)) newer ->
  is_median (take 11 (drop (Z.to_nat (averaging_window nu)) (relevant_times adj))) older ->
  median_timespan (E := E) adj = Ok (newer - older).
Proof.
  intros [Hh Hc _ Ht] Hw Hnew Hold. pose proof (averaging_window_range nu) as Hwr.
  unfold median_timespan, median_time_past, averaging_window_of, averaging_window_for_height.
  rewrite !Hc. cbn [res_bind]. change (Z.to_nat POW_MEDIAN_BLOCK_SPAN) with 11%nat.
  rewrite (proj2 (median_time_spec _ _) Hnew). cbn [res_bind].
  rewrite (proj2 (Z.ltb_lt (averaging_window nu) _)) by lia.
  by rewrite (proj2 (median_time_spec _ _) Hold).
Qed.

(** [ActualTimespanBounded] of the specification. *)
Definition bounded_spec (ts actual : Z) : Z :=
  Z.max (ts * 84 / 100) (Z.min (ts * 132 / 100) (ts + Z.quot (actual - ts) 4)).

Lemma bounded_Ok {E} adj nu actual :
  built adj nu -> median_timespan (E := E) adj = Ok actual ->
  median_timespan_bounded (E := E) adj = Ok (bounded_spec (averaging_window_timespan nu) actual).
Proof.
  intros [_ Hc _ _] Ha. unfold median_timespan_bounded, averaging_window_timespan_for_height.
  rewrite Hc. cbn [res_bind]. rewrite Ha. cbn [res_bind]. unfold bounded_spec.
  change (100 - POW_MAX_ADJUST_UP_PERCENT) with 84. change (100 + POW_MAX_ADJUST_DOWN_PERCENT) with 132.
  destruct (timespan_values nu) as [-> | ->]; reflexivity.
Qed.

Lemma bounded_spec_range ts actual :
  0 < ts -> ts * 84 / 100 <= bounded_spec ts actual <= ts * 132 / 100.
Proof.
  intros Hts. unfold bounded_spec. assert (ts * 84 / 100 <= ts * 132 / 100) by (apply Z.div_le_mono; lia).
  lia.
Qed.

(** ** The mean target *)

Section Mean.
Context {U : U256} {UL : U256Laws U}.

Definition has_target (c t : Z) : Prop := is_u32 c /\ target_of c = Some t.

Lemma has_target_of c t : has_target c t -> target_of c = Some t.
Proof. by intros [_ H]. Qed.

Lemma mean_totals_Ok {E} d cs ts q r :
  0 < d < 2 ^ 256 -> Forall2 has_target cs ts ->
  0 <= q -> q + zsum ((fun t => t / d) <$> ts) < 2 ^ 256 ->
  0 <= r -> r + zsum ((fun t => t mod d) <$> ts) < 2 ^ 256 ->
  mean_totals (E := E) d cs q r
  = Ok (q + zsum ((fun t => t / d) <$> ts), r + zsum ((fun t => t mod d) <$> ts)).
Proof.
  intros Hd H. revert q r. induction H as [|c t cs ts Hc Hcs IH]; intros q r Hq0 Hq Hr0 Hr.
  { cbn. by rewrite !Z.add_0_r. }
  cbn [mean_totals fmap list_fmap zsum foldr] in *. fold (zsum ((fun t => t / d) <$> ts)) in *.
  fold (zsum ((fun t => t mod d) <$> ts)) in *.
  assert (Hnn : forall f, (forall t, 0 <= f t) -> 0 <= zsum (f <$> ts)).
  { intros f Hf. clear -Hf. induction ts as [|t ts IH]; cbn; [lia|]. fold (zsum (f <$> ts)).
    specialize (Hf t). lia. }
  pose proof (has_target_of c t Hc) as Ht. destruct Hc as [Hc32 _].
  rewrite to_expanded_spec, Ht by done. cbn [expect res_bind].
  pose proof (target_of_Some c t Ht) as [_ Htr].
  assert (Htp : forall t, t ∈ ts -> 0 < t < 2 ^ 256).
  { intros t' Hin. apply list_elem_of_lookup in Hin as [i Hi].
    destruct (Forall2_lookup_r _ _ _ _ _ Hcs Hi) as (c' & _ & Hc'%has_target_of).
    by apply target_of_Some in Hc' as [_ ?]. }
  assert (Hz1 : 0 <= zsum ((fun t => t / d) <$> ts)).
  { clear -Htp Hd. induction ts as [|t' ts IH]; cbn; [lia|]. fold (zsum ((fun t => t / d) <$> ts)).
    pose proof (Z.div_pos t' d). pose proof (Htp t' ltac:(by left)).
    assert (0 <= zsum ((fun t => t / d) <$> ts)) by (apply IH; intros; apply Htp; by right). lia. }
  assert (Hz2 : 0 <= zsum ((fun t => t mod d) <$> ts)).
  { apply Hnn. intros t'. apply Z.mod_pos_bound. lia. }
  pose proof (Z.div_pos t d ltac:(lia) ltac:(lia)). pose proof (Z.mod_pos_bound t d ltac:(lia)).
  pose proof (Z.div_le_upper_bound t d t ltac:(lia) ltac:(nia)).
  unfold u_div, u_add, u_rem. rewrite u_div_law by (unfold is_u256; lia).
  destruct (Z.eqb_spec d 0); [lia|]. cbn [expect res_bind].
  rewrite u_add_law by (unfold is_u256; lia). unfold to_uint.
  rewrite (proj2 (in_uint_spec 256 (q + t / d))) by lia. cbn [expect res_bind].
  rewrite u_rem_law by (unfold is_u256; lia). destruct (Z.eqb_spec d 0); [lia|]. cbn [expect res_bind].
  rewrite u_add_law by (unfold is_u256; lia). unfold to_uint.
  rewrite (proj2 (in_uint_spec 256 (r + t mod d))) by lia. cbn [expect res_bind].
  rewrite IH by lia. f_equal. f_equal; lia.
Qed.

Lemma zsum_divmod d ts :
  zsum ts = d * zsum ((fun t => t / d) <$> ts) + zsum ((fun t => t mod d) <$> ts) \/ d = 0.
Proof.
  destruct (Z.eq_dec d 0); [by right|left]. induction ts as [|t ts IH]; cbn; [lia|].
  fold (zsum ts) (zsum ((fun t => t / d) <$> ts)) (zsum ((fun t => t mod d) <$> ts)).
  pose proof (Z.div_mod t d). lia.
Qed.

Lemma zsum_bound (f : Z -> Z) lo hi ts :
  Forall (fun t => lo <= f t <= hi) ts ->
  Z.of_nat (length ts) * lo <= zsum (f <$> ts) <= Z.of_nat (length ts) * hi.
Proof.
  induction 1 as [|t ts Ht Hts IH]; cbn [fmap list_fmap zsum foldr length] in *; [lia|].
  fold (zsum (f <$> ts)) in *. lia.
Qed.

Lemma has_target_range cs ts : Forall2 has_target cs ts -> Forall (fun t => 0 < t < 2 ^ 256) ts.
Proof.
  induction 1 as [|c t cs ts Hc _ IH]; constructor; [|done].
  apply has_target_of, target_of_Some in Hc. lia.
Qed.

(** The mean computed from quotients and remainders is the exact mean. *)
Lemma mean_Ok {E} adj nu targets :
  built adj nu -> averaging_window nu < candidate_height adj ->
  Forall2 has_target (take (Z.to_nat (averaging_window nu)) (relevant_difficulty_thresholds adj)) targets ->
  let w := averaging_window nu in
  let mean := zsum targets / w in
  mean_target_difficulty (E := E) adj = Ok mean /\ 0 <= mean < 2 ^ 256.
Proof.
  intros [Hh Hc Hl _] Hw Ht w mean. pose proof (averaging_window_range nu) as Hwr. fold w in Hwr, Hw, Hl.
  unfold mean_target_difficulty, averaging_window_of, averaging_window_for_height.
  rewrite Hc. cbn [res_bind]. fold w.
  rewrite (proj2 (Z.leb_le w _)) by lia. cbn [rust_assert res_bind].
  set (cs := take (Z.to_nat w) (relevant_difficulty_thresholds adj)).
  set (ts := targets) in *. assert (Hct : Forall2 has_target cs ts) by done.
  assert (Hlen : Z.of_nat (length ts) = w).
  { rewrite <- (Forall2_length _ _ _ Hct). unfold cs. rewrite length_take. lia. }
  pose proof (has_target_range cs ts Hct) as Hr.
  assert (Hq : 0 <= zsum ((fun t => t / w) <$> ts) <= w * ((2 ^ 256 - 1) / w)).
  { pose proof (zsum_bound (fun t => t / w) 0 ((2 ^ 256 - 1) / w) ts) as Hb. rewrite Hlen in Hb.
    rewrite Z.mul_0_r in Hb. apply Hb. eapply Forall_impl; [exact Hr|]. cbn. intros t Ht'.
    split; [apply Z.div_pos; lia|apply Z.div_le_mono; lia]. }
  assert (Hm : 0 <= zsum ((fun t => t mod w) <$> ts) <= w * (w - 1)).
  { pose proof (zsum_bound (fun t => t mod w) 0 (w - 1) ts) as Hb. rewrite Hlen in Hb.
    rewrite Z.mul_0_r in Hb. apply Hb. eapply Forall_impl; [exact Hr|]. cbn. intros t _.
    pose proof (Z.mod_pos_bound t w). lia. }
  pose proof (Z.mul_div_le (2 ^ 256 - 1) w ltac:(lia)).
  assert (Hsum : 0 <= zsum ts <= w * (2 ^ 256 - 1)).
  { pose proof (zsum_bound (fun t => t) 0 (2 ^ 256 - 1) ts) as Hb. rewrite Hlen in Hb.
    replace ((fun t => t) <$> ts) with ts in Hb by (symmetry; apply list_fmap_id). rewrite Z.mul_0_r in Hb.
    apply Hb. eapply Forall_impl; [exact Hr|]. cbn. lia. }
  assert (Hmean : 0 <= mean < 2 ^ 256).
  { unfold mean. split; [apply Z.div_pos; lia|apply Z.div_lt_upper_bound; lia]. }
  assert (Heq : zsum ((fun t => t / w) <$> ts) + zsum ((fun t => t mod w) <$> ts) / w = mean).
  { unfold mean. destruct (zsum_divmod w ts) as [->|]; [|lia].
    rewrite Z.mul_comm, Z.div_add_l by lia. done. }
  rewrite (mean_totals_Ok w cs ts 0 0) by (done || lia). cbn [res_bind fst snd]. rewrite !Z.add_0_l.
  unfold u_div, u_add. rewrite u_div_law by (unfold is_u256; lia). destruct (Z.eqb_spec w 0); [lia|].
  cbn [expect res_bind].
  set (rs := zsum ((fun t => t mod w) <$> ts)) in *. set (qs := zsum ((fun t => t / w) <$> ts)) in *.
  assert (0 <= rs / w) by (apply Z.div_pos; lia).
  assert (rs / w <= w * w) by (apply Z.div_le_upper_bound; nia).
  rewrite u_add_law by (unfold is_u256; nia). rewrite Heq. unfold to_uint.
  by rewrite (proj2 (in_uint_spec 256 mean)).
Qed.

(** [ThresholdBits] of the specification before the conversion to compact form. *)
Definition threshold_spec (limit mean ts actual : Z) : Z :=
  Z.min limit (mean / ts * bounded_spec ts actual).

Lemma threshold_select {E} limit ts actual mean :
  0 < limit < 2 ^ 256 -> 0 <= mean < 2 ^ 256 -> ts = 1275 \/ ts = 2550 ->
  (let? timespan := u_from_i64 ts in
   let? scaled_mean := u_div mean timespan in
   let? target_limit := Ok limit in
   let? bounded := u_from_i64 (bounded_spec ts actual) in
   let? quotient := u_div target_limit bounded in
   let? threshold :=
     if quotient <? scaled_mean then Ok target_limit
     else let? scaled := u_mul scaled_mean bounded in Ok (Z.min target_limit scaled) in
   to_compact (E := E) threshold) = to_compact (threshold_spec limit mean ts actual).
Proof.
  intros Hl Hm Hts.
  assert (Hb : 1000 <= bounded_spec ts actual <= 3366).
  { pose proof (bounded_spec_range ts actual ltac:(lia)) as Hb.
    destruct Hts as [-> | ->]; vm_compute (_ / _) in Hb; lia. }
  unfold threshold_spec. set (b := bounded_spec ts actual) in *. unfold u_from_i64.
  rewrite (proj2 (Z.ltb_ge ts 0)), (proj2 (Z.ltb_ge b 0)) by lia. cbn [res_bind].
  unfold u_div, u_mul. rewrite !u_div_law by (unfold is_u256; lia).
  destruct (Z.eqb_spec ts 0), (Z.eqb_spec b 0); try lia. cbn [expect res_bind].
  pose proof (Z.div_pos mean ts ltac:(lia) ltac:(lia)).
  pose proof (Z.div_le_upper_bound mean ts mean ltac:(lia) ltac:(nia)).
  pose proof (Z.mul_div_le limit b ltac:(lia)).
  pose proof (Z.mul_succ_div_gt limit b ltac:(lia)).
  destruct (Z.ltb_spec (limit / b) (mean / ts)) as [Hlt|Hge].
  - cbn [res_bind]. f_equal. symmetry. apply Z.min_l. nia.
  - rewrite u_mul_law by (unfold is_u256; lia). unfold to_uint.
    rewrite (proj2 (in_uint_spec 256 _)) by nia. done.
Qed.

Lemma threshold_bits_Ok {E} adj nu targets limit actual :
  built adj nu -> averaging_window nu < candidate_height adj ->
  Forall2 has_target (take (Z.to_nat (averaging_window nu)) (relevant_difficulty_thresholds adj)) targets ->
  (forall E, target_difficulty_limit (E := E) (network adj) = Ok limit) -> 0 < limit < 2 ^ 256 ->
  median_timespan (E := E) adj = Ok actual ->
  threshold_bits (E := E) adj =
  to_compact (threshold_spec limit (zsum targets / averaging_window nu) (averaging_window_timespan nu) actual).
Proof.
  intros Hb Hw Ht Hl Hlr Ha. destruct (mean_Ok (E := E) adj nu targets Hb Hw Ht) as [Hm Hmr].
  pose proof (bounded_Ok adj nu actual Hb Ha) as Hbo. destruct Hb as [Hh Hc _ _].
  rewrite <- (threshold_select (E := E) limit (averaging_window_timespan nu) actual _ Hlr Hmr (timespan_values nu)).
  unfold threshold_bits, averaging_window_of, averaging_window_for_height,
    averaging_window_timespan_for_height.
  rewrite Hc. cbn [res_bind]. rewrite (proj2 (Z.leb_gt (candidate_height adj) (averaging_window nu))) by done.
  rewrite Hbo. cbn [res_bind]. rewrite Hm. cbn [res_bind]. by rewrite Hl.
Qed.

(** The target limit of a network. *)
Definition limit_value (net : Network) : Z :=
  match net with
  | Mainnet => cfloor (2 ^ 243 - 1)
  | Testnet params => p_target_difficulty_limit params
  end.

Lemma target_difficulty_limit_Ok {E} net : target_difficulty_limit (E := E) net = Ok (limit_value net).
Proof.
  destruct net as [|params]; [|done]. unfold target_difficulty_limit, limit_value.
  rewrite u_shl_law by (unfold is_u256; lia). change ((1 * 2 ^ 243) mod 2 ^ 256) with (2 ^ 243).
  rewrite u_sub_law by (unfold is_u256; lia). unfold to_uint.
  rewrite (proj2 (in_uint_spec 256 (2 ^ 243 - 1))) by lia. cbn [expect res_bind].
  rewrite to_compact_spec by lia. cbn [res_bind].
  pose proof (csize_range (2 ^ 243 - 1) ltac:(lia)). pose proof (cmantissa_range (2 ^ 243 - 1) ltac:(lia)).
  rewrite to_expanded_spec by (unfold is_u32; lia). cbn [res_bind].
  by rewrite target_of_compact by lia.
Qed.
End Mean.

(** The compact form of a positive target. *)
Definition compact_of (target : Z) : Z := cmantissa target + csize target * 2 ^ 24.

(** The parts of the context that a window of [w] blocks reads. *)
Lemma relevant_parts time prev net context adj nu :
  net_wf net -> Height.valid prev -> new_from_header_time time prev net context = Ok adj ->
  built adj nu -> averaging_window nu < candidate_height adj ->
  let w := Z.to_nat (averaging_window nu) in
  take w (relevant_difficulty_thresholds adj) = take w context.*1 /\
  take 11 (relevant_times adj) = take 11 context.*2 /\
  take 11 (drop w (relevant_times adj)) = take 11 (drop w context.*2).
Proof.
  intros Hwf Hv Hnew [Hh _ Hl1 Hl2] Hw w. pose proof (averaging_window_range nu) as Hwr.
  pose proof (new_from_header_time_length _ _ _ _ _ Hnew) as Hlen.
  destruct (new_from_header_time_built time prev net context adj Hwf Hv Hnew) as (_ & _ & _ & -> & Ht & _).
  set (n := length (relevant_times adj)) in *. rewrite Ht. rewrite !take_take.
  assert (Hw' : Z.of_nat w = averaging_window nu) by (unfold w; lia).
  split; [f_equal; lia|]. split; [f_equal; lia|].
  rewrite skipn_firstn_comm, take_take.
  destruct (decide (11 <= n - w)%nat) as [Hge|Hlt]; [f_equal; lia|].
  rewrite !take_ge; [done| |]; rewrite length_drop, length_fmap; lia.
Qed.

(** C16: [threshold_bits] is [ThresholdBits] of the protocol specification, for every
    context the constructor accepts on a network with a positive target limit: the
    context lists the compact targets and times of the previous blocks, the last one
    first.  At early heights the result is the limit.  Later, if the thresholds of the
    averaging window are valid, let the mean be the floor of the exact mean of their
    targets, and the actual timespan the median of the last 11 times minus the median
    of the 11 times that precede the window.  The result is the mean divided by the
    window's timespan, times the actual timespan damped by four and kept between 84 and
    132 percent of the window's, capped at the limit and rounded to compact form.  No
    intermediate value overflows, and it panics exactly when the mean is below the
    window's timespan. *)
Theorem threshold_bits_is_specified (U : U256) (UL : U256Laws U) time prev net context adj nu :
  net_wf net -> Height.valid prev -> 0 < limit_value net < 2 ^ 256 ->
  new_from_header_time time prev net context = Ok adj ->
  current (E := unit) net (prev + 1) = Ok nu ->
  let w := averaging_window nu in
  let ts := averaging_window_timespan nu in
  if prev + 1 <=? w then threshold_bits (E := unit) adj = Ok (compact_of (limit_value net))
  else
    forall targets newer older,
      Forall2 has_target (take (Z.to_nat w) context.*1) targets ->
      is_median (take 11 context.*2) newer -> is_median (take 11 (drop (Z.to_nat w) context.*2)) older ->
      let mean := zsum targets / w in
      threshold_bits (E := unit) adj =
        if mean <? ts then Panic
        else Ok (compact_of (Z.min (limit_value net) (mean / ts * bounded_spec ts (newer - older)))).
Proof.
  intros Hwf Hv Hl Hnew Hnu w ts.
  destruct (new_from_header_time_built time prev net context adj Hwf Hv Hnew)
    as (Hnet & Hheight & _ & _ & _ & nu' & Hb).
  pose proof Hb as [_ Hc _ _]. rewrite Hnet, Hheight in Hc. rewrite Hc in Hnu. injection Hnu as ->.
  destruct (Z.leb_spec (prev + 1) w) as [Hle|Hgt].
  - unfold threshold_bits, averaging_window_of, averaging_window_for_height.
    rewrite Hnet, Hheight, Hc. cbn [res_bind]. rewrite (proj2 (Z.leb_le _ _)) by done.
    rewrite target_difficulty_limit_Ok. cbn [res_bind]. by rewrite to_compact_spec.
  - intros targets newer older Ht Hn Ho mean. rewrite <- Hheight in Hgt.
    destruct (relevant_parts _ _ _ _ _ _ Hwf Hv Hnew Hb Hgt) as (H1 & H2 & H3). cbv zeta in H1, H2, H3. fold w in H1, H3.
    rewrite <- H1 in Ht. rewrite <- H2 in Hn. rewrite <- H3 in Ho.
    pose proof (timespan_Ok (E := unit) adj nu newer older Hb Hgt Hn Ho) as Ha.
    rewrite (threshold_bits_Ok (E := unit) adj nu targets (limit_value net) (newer - older) Hb Hgt Ht);
      [|intros; rewrite Hnet; apply target_difficulty_limit_Ok|done|done].
    fold w ts mean. destruct (mean_Ok (E := unit) adj nu targets Hb Hgt Ht) as [_ Hm]. fold w mean in Hm.
    pose proof (timespan_values nu) as Hts. fold ts in Hts. unfold threshold_spec.
    destruct (Z.ltb_spec mean ts) as [Hlt|Hge].
    + rewrite Z.div_small, Z.mul_0_l, Z.min_r by lia. done.
    + pose proof (bounded_spec_range ts (newer - older) ltac:(lia)) as Hbr.
      assert (1000 <= ts * 84 / 100) by (destruct Hts as [-> | ->]; vm_compute; discriminate).
      assert (1 <= mean / ts) by (apply Z.div_le_lower_bound; lia).
      rewrite to_compact_spec; [done|]. nia.
Qed.

Definition mainnet_context : list (Z * Z) := replicate 28 (486604799, 1600000000).

Definition mainnet_adjustment : AdjustedDifficulty := {|
  candidate_time := 1600000075;
  candidate_height := 2000001;
  network := Mainnet;
  relevant_difficulty_thresholds := replicate 28 486604799;
  relevant_times := replicate 28 1600000000;
|}.

Lemma threshold_bits_is_specified_witness :
  threshold_bits (E := unit) mainnet_adjustment =
    Ok (compact_of (Z.min (limit_value Mainnet) (to_target 486604799 / 1275 * bounded_spec 1275 0))).
Proof.
  pose proof (threshold_bits_is_specified u256_Z u256_Z_laws 1600000075 2000000 Mainnet mainnet_context
    mainnet_adjustment Nu5) as H.
  refine (H _ _ _ _ _ (replicate 17 (to_target 486604799)) 1600000000 1600000000 _ _ _).
  - apply mainnet_wf.
  - split; vm_compute; discriminate.
  - split; vm_compute; reflexivity.
  - vm_compute. reflexivity.
  - vm_compute. reflexivity.
  - apply (Forall2_replicate has_target 17). split; [split; vm_compute; [discriminate|reflexivity]|].
    vm_compute. reflexivity.
  - split; [left|]. split; apply Nat.leb_le; vm_compute; reflexivity.
  - split; [left|]. split; apply Nat.leb_le; vm_compute; reflexivity.
Defined.
End AdjustedFacts.
