(* ===== verification/EvictionList.v ===== *)
(** * The mempool eviction list

    [zakurad/src/components/mempool/storage/eviction_list.rs].  The list holds
    each evicted transaction id twice: in a map with the time it was inserted,
    and in a queue in insertion order.  Every [Instant::now()] reads the next
    value of a clock that does not go back; the operations thread the number of
    readings made so far.

    The theorem: on every list reached by its operations, inserting an id that
    [contains_key] does not report succeeds without a panic, keeps the two
    structures equal, keeps the size limit, and drops only entries that have
    expired, or the oldest one when the list is full. *)

From stdpp Require Import base numbers list option gmap sorting.
From Stdlib Require Import ZArith Lia.
From S2P Require Import Prelude.
Local Open Scope Z_scope.

Module EvictionList.

Section EvictionList.
Context {Hash : Type} `{Countable Hash}.
(** The readings of the clock. *)
Variable clock : nat -> Z.

Record EvictionList := mkList {
  unique_entries : gmap Hash Z;
  ordered_entries : list Hash;
  max_size : Z;
  eviction_memory_time : Z;
}.

Definition new (max_size eviction_memory_time : Z) : EvictionList :=
  mkList ∅ [] max_size eviction_memory_time.

(** [has_expired]: an [Instant] difference is never negative *)
Definition has_expired (self : EvictionList) (evicted_at : Z) (tick : nat) : bool * nat :=
  (eviction_memory_time self <? Z.max 0 (clock tick - evicted_at), S tick).

Definition front (self : EvictionList) : option Hash := head (ordered_entries self).

Definition pop_front {E} (self : EvictionList) : res E (EvictionList * option Hash) :=
  match ordered_entries self with
  | key :: rest =>
      let? _ := rust_assert (bool_decide (is_Some (unique_entries self !! key))) in
      Ok (mkList (delete key (unique_entries self)) rest (max_size self) (eviction_memory_time self),
          Some key)
  | [] => Ok (self, None)
  end.

(** The [while] loop of [prune_old]; each round removes an entry. *)
Fixpoint prune_loop {E} (fuel : nat) (self : EvictionList) (tick : nat) : res E (EvictionList * nat) :=
  match fuel with
  | O => Panic
  | S fuel =>
      match front self with
      | None => Ok (self, tick)
      | Some txid =>
          let? evicted_at := expect (unique_entries self !! txid) in
          let '(expired, tick) := has_expired self evicted_at tick in
          if expired then
            let? popped := pop_front self in prune_loop fuel popped.1 tick
          else Ok (self, tick)
      end
  end.

Definition prune_old {E} (self : EvictionList) (tick : nat) : res E (EvictionList * nat) :=
  prune_loop (S (length (ordered_entries self))) self tick.

Definition len {E} (self : EvictionList) (tick : nat) : res E (EvictionList * nat * Z) :=
  let? r := prune_old self tick in
  Ok (r, Z.of_nat (size (unique_entries r.1))).

Definition insert {E} (self : EvictionList) (key : Hash) (tick : nat) : res E (EvictionList * nat) :=
  let? r := prune_old self tick in
  let? r := len r.1 r.2 in
  let '(self, tick, n) := r in
  let? self :=
    (if max_size self <=? n then
       let? popped := pop_front self in Ok popped.1
     else Ok self) in
  let value := clock tick in
  let old_value := unique_entries self !! key in
  let unique := <[key := value]> (unique_entries self) in
  let? _ := rust_assert (bool_decide (old_value = None)) in
  Ok (mkList unique (ordered_entries self ++ [key]) (max_size self) (eviction_memory_time self), S tick).

Definition contains_key (self : EvictionList) (txid : Hash) (tick : nat) : bool * nat :=
  match unique_entries self !! txid with
  | Some evicted_at =>
      let '(expired, tick) := has_expired self evicted_at tick in (negb expired, tick)
  | None => (false, tick)
  end.

(** ** The invariant *)

Definition at_or_before (self : EvictionList) (k k' : Hash) : Prop :=
  forall t t', unique_entries self !! k = Some t -> unique_entries self !! k' = Some t' -> t <= t'.

(** The map and the queue hold the same ids, in the order of their times, none
    later than the clock. *)
Record inv (self : EvictionList) (tick : nat) : Prop := {
  inv_nodup : NoDup (ordered_entries self);
  inv_dom : forall k, is_Some (unique_entries self !! k) <-> k ∈ ordered_entries self;
  inv_sorted : StronglySorted (at_or_before self) (ordered_entries self);
  inv_past : forall k t, unique_entries self !! k = Some t -> t <= clock tick;
}.

Definition expired_at (self : EvictionList) (now : Z) (k : Hash) : Prop :=
  exists t, unique_entries self !! k = Some t /\ eviction_memory_time self < now - t.

Hypothesis clock_mono : forall i, clock i <= clock (S i).

Lemma clock_le i j : (i <= j)%nat -> clock i <= clock j.
Proof. induction 1 as [|j _ IH]; [lia|]. pose proof (clock_mono j). lia. Qed.

Lemma inv_later self i j : (i <= j)%nat -> inv self i -> inv self j.
Proof.
  intros Hij [Hn Hd Hs Hp]. split; try done. intros k t Hk. pose proof (clock_le i j Hij).
  specialize (Hp k t Hk). lia.
Qed.

Lemma size_length self tick : inv self tick -> size (unique_entries self) = length (ordered_entries self).
Proof.
  intros [Hn Hd _ _]. rewrite <- size_dom, <- (size_list_to_set (C := gset Hash) _ Hn). f_equal.
  apply set_eq. intros k. rewrite elem_of_dom, elem_of_list_to_set. apply Hd.
Qed.

(** Removing the oldest entry. *)
Definition tail_of (self : EvictionList) (key : Hash) (rest : list Hash) : EvictionList :=
  mkList (delete key (unique_entries self)) rest (max_size self) (eviction_memory_time self).

Lemma pop_front_Ok {E} self tick key rest :
  inv self tick -> ordered_entries self = key :: rest ->
  pop_front (E := E) self = Ok (tail_of self key rest, Some key) /\ inv (tail_of self key rest) tick.
Proof.
  intros [Hn Hd Hs Hp] Hord. unfold pop_front. rewrite Hord in *.
  assert (Hk : is_Some (unique_entries self !! key)) by (apply Hd; by left).
  rewrite bool_decide_true by done. split; [done|].
  apply NoDup_cons in Hn as [Hnk Hn]. inversion Hs as [|? ? Hs' Hfa]; subst.
  split; cbn; [done|..].
  - intros k. destruct (decide (k = key)) as [->|Hne].
    + rewrite lookup_delete_eq. split; [by intros [? ?]|done].
    + rewrite lookup_delete_ne by done. rewrite Hd, elem_of_cons. split; [by intros [->|?]|by right].
  - clear -Hs' Hnk. induction Hs' as [|k rest Hs IH Hfa]; constructor.
    + apply IH. intros Hin. apply Hnk. by right.
    + rewrite Forall_forall in *. intros k' Hk' t t'. cbn.
      rewrite !lookup_delete_Some. intros [_ ?] [_ ?]. by apply (Hfa k').
  - intros k t [_ Hk']%lookup_delete_Some. by apply (Hp k).
Qed.

(** The entries that survive a suffix of the queue keep their times. *)
Definition suffix_of (self' self : EvictionList) (n : nat) : Prop :=
  ordered_entries self' = drop n (ordered_entries self) /\
  max_size self' = max_size self /\ eviction_memory_time self' = eviction_memory_time self /\
  (forall k, k ∈ ordered_entries self' -> unique_entries self' !! k = unique_entries self !! k).

Lemma suffix_of_refl self : suffix_of self self 0.
Proof. done. Qed.

Lemma suffix_of_trans a b c n m : suffix_of b a n -> suffix_of c b m -> suffix_of c a (n + m).
Proof.
  intros (Ho & Hm & Ht & Hl) (Ho' & Hm' & Ht' & Hl'). split.
  { by rewrite Ho', Ho, drop_drop. }
  split; [congruence|]. split; [congruence|]. intros k Hk. rewrite Hl' by done. apply Hl.
  rewrite Ho' in Hk. rewrite <- (take_drop m (ordered_entries b)), elem_of_app. by right.
Qed.

Lemma tail_suffix self tick key rest :
  inv self tick -> ordered_entries self = key :: rest -> suffix_of (tail_of self key rest) self 1.
Proof.
  intros [Hn _ _ _] Hord. rewrite Hord in Hn. apply NoDup_cons in Hn as [Hnk _].
  split; [by rewrite Hord|]. do 2 (split; [done|]). intros k Hk. cbn in *.
  rewrite lookup_delete_ne; [done|]. intros ->. done.
Qed.

Lemma StronglySorted_snoc {A} (R : A -> A -> Prop) l x :
  StronglySorted R l -> Forall (fun y => R y x) l -> StronglySorted R (l ++ [x]).
Proof.
  induction 1 as [|y l Hs IH Hfa]; intros Hx; cbn; [by repeat constructor|].
  inversion Hx; subst. constructor; [by apply IH|]. apply Forall_app. split; [done|]. by constructor.
Qed.

(** ** Pruning *)

Lemma prune_loop_Ok {E} fuel self tick :
  inv self tick -> (length (ordered_entries self) < fuel)%nat ->
  exists self' tick' n,
    prune_loop (E := E) fuel self tick = Ok (self', tick') /\ inv self' tick' /\ (tick <= tick')%nat /\
    suffix_of self' self n /\ (n <= length (ordered_entries self))%nat /\
    Forall (expired_at self (clock tick')) (take n (ordered_entries self)) /\
    (forall k, head (ordered_entries self') = Some k -> ~ expired_at self (clock tick) k).
Proof.
  revert self tick. induction fuel as [|fuel IH]; intros self tick Hinv Hf; [lia|].
  cbn [prune_loop]. unfold front. destruct (ordered_entries self) as [|key rest] eqn:Hord; cbn [head].
  { exists self, tick, 0%nat. split; [done|]. split; [done|]. split; [lia|].
    split; [apply suffix_of_refl|]. split; [cbn; lia|]. split; [constructor|]. by rewrite Hord. }
  assert (Hk : is_Some (unique_entries self !! key)).
  { apply (inv_dom _ _ Hinv). rewrite Hord. by left. }
  destruct Hk as [t Hk]. rewrite Hk. cbn [expect res_bind has_expired].
  pose proof (inv_past _ _ Hinv key t Hk) as Hpast. pose proof (clock_le tick (S tick) ltac:(lia)) as Hc.
  destruct (Z.ltb_spec (eviction_memory_time self) (Z.max 0 (clock tick - t))) as [Hexp|Hexp].
  - destruct (pop_front_Ok (E := E) self tick key rest Hinv Hord) as [Hpop Hinv'].
    rewrite Hpop. cbn [res_bind fst].
    destruct (IH (tail_of self key rest) (S tick)) as (s' & t' & n & Hp & Hi & Ht & Hsuf & Hn & Hfa & Hh).
    { apply (inv_later _ tick); [lia|done]. }
    { cbn in *. lia. }
    exists s', t', (S n). split; [done|]. split; [done|]. split; [lia|].
    split; [apply (suffix_of_trans self (tail_of self key rest) s' 1 n); [by apply (tail_suffix _ tick)|done]|].
    split; [cbn in *; lia|]. cbn [ordered_entries tail_of] in Hfa.
    assert (Hex : expired_at self (clock t') key).
    { exists t. split; [done|]. pose proof (clock_le tick t' ltac:(lia)). lia. }
    assert (Hback : forall k now, expired_at (tail_of self key rest) now k -> expired_at self now k).
    { intros k now (t0 & Ht0 & He). cbn in Ht0. apply lookup_delete_Some in Ht0 as [_ Ht0].
      exists t0. by split. }
    split.
    + cbn [take]. constructor; [done|]. eapply Forall_impl; [exact Hfa|]. intros k. apply Hback.
    + intros k Hk' (t0 & Ht0 & He). apply (Hh k Hk'). exists t0. split; [|cbn; lia]. cbn.
      rewrite lookup_delete_ne; [done|]. intros <-.
      pose proof (inv_nodup _ _ Hinv) as Hnd. rewrite Hord in Hnd. apply NoDup_cons in Hnd as [Hnk _].
      apply Hnk. destruct Hsuf as (Ho & _). cbn in Ho.
      rewrite <- (take_drop n rest), elem_of_app, <- Ho. right.
      by apply head_Some_elem_of in Hk'.
  - exists self, (S tick), 0%nat. split; [done|].
    split; [by apply (inv_later _ tick); [lia|]|]. split; [lia|]. split; [apply suffix_of_refl|].
    split; [cbn; lia|]. split; [constructor|]. rewrite Hord. cbn [head]. intros k [= <-] (t0 & Ht0 & He).
    rewrite Hk in Ht0. injection Ht0 as <-. lia.
Qed.

Lemma prune_old_Ok {E} self tick :
  inv self tick ->
  exists self' tick' n,
    prune_old (E := E) self tick = Ok (self', tick') /\ inv self' tick' /\ (tick <= tick')%nat /\
    suffix_of self' self n /\ (n <= length (ordered_entries self))%nat /\
    Forall (expired_at self (clock tick')) (take n (ordered_entries self)) /\
    (forall k, head (ordered_entries self') = Some k -> ~ expired_at self (clock tick) k).
Proof. intros Hinv. apply prune_loop_Ok; [done|lia]. Qed.

(** After pruning, an id that had expired is gone from the map. *)
Lemma pruned_absent self tick self' tick' n key :
  inv self tick -> inv self' tick' -> suffix_of self' self n ->
  (forall k, head (ordered_entries self') = Some k -> ~ expired_at self (clock tick) k) ->
  (contains_key self key tick).1 = false -> unique_entries self' !! key = None.
Proof.
  intros Hinv Hinv' (Ho & _ & _ & Hl) Hh Hc.
  destruct (unique_entries self' !! key) as [t|] eqn:Hk; [exfalso|done].
  assert (Hin : key ∈ ordered_entries self') by (apply (inv_dom _ _ Hinv'); eauto).
  pose proof (Hl key Hin) as Heq. rewrite Hk in Heq. unfold contains_key in Hc. rewrite <- Heq in Hc.
  cbn in Hc. pose proof (inv_past _ _ Hinv key t (eq_sym Heq)).
  assert (Hexp : eviction_memory_time self < clock tick - t).
  { destruct (Z.ltb_spec (eviction_memory_time self) (Z.max 0 (clock tick - t))); [lia|done]. }
  destruct (ordered_entries self') as [|k0 rest] eqn:Hord; [by apply not_elem_of_nil in Hin|].
  apply (Hh k0 eq_refl). assert (Hk0 : is_Some (unique_entries self' !! k0)).
  { apply (inv_dom _ _ Hinv'). rewrite Hord. by left. }
  destruct Hk0 as [t0 Hk0]. exists t0. split.
  { rewrite <- Hl; [done|]. by left. }
  assert (t0 <= t); [|lia]. pose proof (inv_sorted _ _ Hinv') as Hs. rewrite Hord in Hs.
  inversion Hs as [|? ? _ Hfa]; subst. apply elem_of_cons in Hin as [->|Hin].
  - rewrite Hk in Hk0. injection Hk0 as ->. lia.
  - rewrite Forall_forall in Hfa. by apply (Hfa key Hin).
Qed.

Lemma push_inv self tick key :
  inv self tick -> unique_entries self !! key = None ->
  inv (mkList (<[key := clock tick]> (unique_entries self)) (ordered_entries self ++ [key])
         (max_size self) (eviction_memory_time self)) (S tick).
Proof.
  intros [Hn Hd Hs Hp] Hk.
  assert (Hnin : key ∉ ordered_entries self).
  { intros Hin. apply Hd in Hin as [? Hin]. congruence. }
  split; cbn.
  - apply NoDup_app. split; [done|]. split; [|apply NoDup_singleton].
    intros k Hin Hin'. apply list_elem_of_singleton in Hin' as ->. done.
  - intros k. rewrite elem_of_app, list_elem_of_singleton. destruct (decide (k = key)) as [->|Hne].
    + rewrite lookup_insert_eq. split; [by right|eauto].
    + rewrite lookup_insert_ne by done. rewrite Hd. split; [by left|by intros [?|?]].
  - apply StronglySorted_snoc.
    + clear -Hs Hnin. induction Hs as [|k l Hs IH Hfa]; constructor.
      * apply IH. intros Hin. apply Hnin. by right.
      * rewrite Forall_forall in *. intros k' Hk' t t'. cbn.
        rewrite !lookup_insert_ne by (intros ->; apply Hnin; by (left || right)). by apply Hfa.
    + rewrite Forall_forall. intros k Hin t t'. cbn.
      rewrite lookup_insert_ne by (intros ->; done). rewrite lookup_insert_eq.
      intros Ht [= <-]. by apply (Hp k).
  - intros k t Hkt. pose proof (clock_mono tick). apply lookup_insert_Some in Hkt as [[_ <-]|[_ Hkt]]; [done|].
    specialize (Hp k t Hkt). lia.
Qed.

(** ** Inserting *)

Definition push (self : EvictionList) (key : Hash) (now : Z) : EvictionList :=
  mkList (<[key := now]> (unique_entries self)) (ordered_entries self ++ [key])
    (max_size self) (eviction_memory_time self).

Definition bounded (self : EvictionList) : Prop :=
  0 < max_size self /\ Z.of_nat (length (ordered_entries self)) <= max_size self.

Lemma suffix_bounded self self' n : bounded self -> suffix_of self' self n -> bounded self'.
Proof. intros [Hp Hb] (Ho & Hm & _). unfold bounded. rewrite Ho, Hm, length_drop. lia. Qed.

Lemma expired_trans a b n m now now' :
  suffix_of b a n -> now <= now' ->
  Forall (expired_at a now) (take n (ordered_entries a)) ->
  Forall (expired_at b now') (take m (ordered_entries b)) ->
  Forall (expired_at a now') (take (n + m) (ordered_entries a)).
Proof.
  intros (Ho & _ & Ht & Hl) Hnow Ha Hb. rewrite <- take_take_drop, <- Ho. apply Forall_app. split.
  - eapply Forall_impl; [exact Ha|]. intros k (t & Hk & He). exists t. split; [done|lia].
  - rewrite Forall_forall in *. intros k Hk. destruct (Hb k Hk) as (t & Hkt & He). exists t.
    rewrite <- Hl, <- Ht; [done|]. rewrite <- (take_drop m), elem_of_app. by left.
Qed.

(** What the pruning and the eviction of the oldest entry leave before the new
    id is added: all that was dropped had expired, or the list was full and all
    but the last one had. *)
Definition room_made (self self' : EvictionList) (now : Z) (n : nat) : Prop :=
  suffix_of self' self n /\ (n <= length (ordered_entries self))%nat /\
  Z.of_nat (length (ordered_entries self')) < max_size self /\
  (Forall (expired_at self now) (take n (ordered_entries self)) \/
   Z.of_nat (length (ordered_entries self')) + 1 = max_size self /\
   Forall (expired_at self now) (take (n - 1) (ordered_entries self))).

Lemma insert_eq {E} self tick key :
  inv self tick -> bounded self ->
  exists self1 tick1 n,
    insert (E := E) self key tick =
      (if bool_decide (unique_entries self1 !! key = None)
       then Ok (push self1 key (clock tick1), S tick1) else Panic) /\
    inv self1 tick1 /\ (tick <= tick1)%nat /\ room_made self self1 (clock tick1) n /\
    ((contains_key self key tick).1 = false -> unique_entries self1 !! key = None).
Proof.
  intros Hinv Hb. unfold insert, len.
  destruct (prune_old_Ok (E := E) self tick Hinv) as (a & ta & na & -> & Ha & Hta & Hsa & Hna & Hea & Hha).
  cbn [res_bind fst snd].
  destruct (prune_old_Ok (E := E) a ta Ha) as (b & tb & nb & -> & Hib & Htb & Hsb & Hnb & Heb & _).
  cbn [res_bind fst snd]. rewrite (size_length b tb Hib).
  pose proof (suffix_of_trans _ _ _ _ _ Hsa Hsb) as Hs.
  pose proof (expired_trans _ _ _ _ _ _ Hsa (clock_le _ _ Htb) Hea Heb) as He.
  pose proof (suffix_bounded _ _ _ Hb Hs) as [Hpos Hbb].
  assert (Habs : (contains_key self key tick).1 = false -> unique_entries a !! key = None).
  { intros Hc. by apply (pruned_absent self tick a ta na). }
  assert (Habs' : forall c m, inv c tb -> suffix_of c a m ->
    (contains_key self key tick).1 = false -> unique_entries c !! key = None).
  { intros c m Hic (Hoc & _ & _ & Hlc) Hc. destruct (unique_entries c !! key) as [t|] eqn:Hk; [|done].
    rewrite Hlc, Habs in Hk; [done..|]. apply (inv_dom _ _ Hic). eauto. }
  assert (Hlen : (na + nb <= length (ordered_entries self))%nat).
  { destruct Hsa as (Ho & _). rewrite Ho, length_drop in Hnb. lia. }
  assert (Hmax : max_size b = max_size self) by (by destruct Hs as (_ & ? & _)).
  destruct (Z.leb_spec (max_size b) (Z.of_nat (length (ordered_entries b)))) as [Hfull|Hroom].
  - destruct (ordered_entries b) as [|k rest] eqn:Hord; [cbn in Hfull; lia|].
    destruct (pop_front_Ok (E := E) b tb k rest Hib Hord) as [-> Hit]. cbn [res_bind fst].
    pose proof (tail_suffix b tb k rest Hib Hord) as Hst.
    exists (tail_of b k rest), tb, (na + nb + 1)%nat.
    split; [by case_bool_decide|]. split; [done|]. split; [lia|]. split.
    + split; [by apply (suffix_of_trans _ b)|]. destruct Hs as (Ho & _). rewrite Hord in Ho.
      assert (Hl : length (k :: rest) = (length (ordered_entries self) - (na + nb))%nat)
        by (by rewrite Ho, length_drop).
      cbn in Hl, Hfull, Hbb |- *. split; [lia|]. split; [lia|]. right. split; [lia|].
      by replace (na + nb + 1 - 1)%nat with (na + nb)%nat by lia.
    + apply (Habs' _ (nb + 1)%nat); [done|]. by apply (suffix_of_trans _ b).
  - exists b, tb, (na + nb)%nat. split; [by cbn [res_bind]; case_bool_decide|]. split; [done|].
    split; [lia|]. split; [|by apply (Habs' b nb)].
    split; [done|]. split; [lia|]. split; [lia|]. by left.
Qed.

(** The lists a mempool reaches, with the number of clock readings so far. *)
Inductive reachable : EvictionList -> nat -> Prop :=
| reach_new size memory tick : 0 < size -> 0 <= memory -> reachable (new size memory) tick
| reach_wait self tick tick' : reachable self tick -> (tick <= tick')%nat -> reachable self tick'
| reach_prune self tick self' tick' :
    reachable self tick -> prune_old (E := unit) self tick = Ok (self', tick') -> reachable self' tick'
| reach_insert self tick key self' tick' :
    reachable self tick -> insert (E := unit) self key tick = Ok (self', tick') -> reachable self' tick'.

Lemma room_push_bounded self self1 now n key :
  bounded self -> room_made self self1 now n -> bounded (push self1 key now).
Proof.
  intros [Hp Hb] ((_ & Hm & _) & _ & Hl & _). split; cbn; [lia|]. rewrite length_app. cbn. lia.
Qed.

Lemma reachable_inv self tick : reachable self tick -> inv self tick /\ bounded self.
Proof.
  induction 1 as [sz mem tick Hs Hm|self tick tick' _ [Hi Hb] Ht|self tick self' tick' _ [Hi Hb] Hp
    |self tick key self' tick' _ [Hi Hb] Hp].
  - split; [|split; cbn; lia]. split; cbn; [constructor|..|constructor|].
    + intros k. rewrite lookup_empty. split; [by intros [? ?]|by intros ?%elem_of_nil].
    + intros k t. by rewrite lookup_empty.
  - split; [by apply (inv_later self tick)|done].
  - destruct (prune_old_Ok (E := unit) self tick Hi) as (a & ta & na & Hp' & Ha & _ & Hsa & _).
    rewrite Hp in Hp'. injection Hp' as <- <-. split; [done|by apply (suffix_bounded self _ na)].
  - destruct (insert_eq (E := unit) self tick key Hi Hb) as (a & ta & n & Hp' & Ha & _ & Hroom & _).
    rewrite Hp in Hp'. case_bool_decide as Hk; [|done]. injection Hp' as -> ->.
    split; [by apply push_inv|]. by apply (room_push_bounded self _ _ n).
Qed.

(** On a list reached by [new], [insert] and [prune_old] with any clock that
    does not go back, inserting an id that [contains_key] does not report never
    panics.  The new list is within its size limit; it is a suffix of the old
    queue, with unchanged times, followed by the new id with a current time;
    everything dropped had been in the list longer than the memory time, or the
    list is at its limit and only the last one dropped had not. *)
Lemma eviction_insert_spec self tick key :
  reachable self tick -> (contains_key self key tick).1 = false ->
  exists self' tick' now n,
    insert (E := unit) self key tick = Ok (self', tick') /\
    Z.of_nat (size (unique_entries self')) <= max_size self' /\
    ordered_entries self' = drop n (ordered_entries self) ++ [key] /\
    unique_entries self' !! key = Some now /\ clock tick <= now <= clock tick' /\
    (forall k, k ∈ drop n (ordered_entries self) -> unique_entries self' !! k = unique_entries self !! k) /\
    (Forall (expired_at self now) (take n (ordered_entries self)) \/
     Z.of_nat (size (unique_entries self')) = max_size self /\
     Forall (expired_at self now) (take (n - 1) (ordered_entries self))).
Proof.
  intros [Hi Hb]%reachable_inv Hc.
  destruct (insert_eq (E := unit) self tick key Hi Hb) as (a & ta & n & Hp & Ha & Hta & Hroom & Habs).
  specialize (Habs Hc). rewrite bool_decide_true in Hp by done.
  pose proof (push_inv a ta key Ha Habs) as Hpi. change (inv (push a key (clock ta)) (S ta)) in Hpi.
  pose proof (room_push_bounded _ _ _ _ key Hb Hroom) as [_ Hbp].
  exists (push a key (clock ta)), (S ta), (clock ta), n. rewrite (size_length _ _ Hpi).
  split; [done|]. split; [done|]. destruct Hroom as ((Ho & Hm & Ht & Hl) & Hn & Hlen & Hd).
  split; [by cbn; rewrite Ho|]. split; [apply lookup_insert_eq|].
  split; [split; [by apply clock_le|apply clock_mono]|]. split.
  - rewrite <- Ho. intros k Hk. cbn. rewrite lookup_insert_ne; [by apply Hl|]. intros ->.
    apply (inv_dom _ _ Ha) in Hk as [? Hk]. congruence.
  - destruct Hd as [Hd|[Hfull Hd]]; [by left|right]. split; [|done]. cbn. rewrite length_app. cbn. lia.
Qed.
End EvictionList.

(** A list of two entries under a clock of one second per reading. *)
Definition ticking (n : nat) : Z := Z.of_nat n.

Lemma ticking_mono i : ticking i <= ticking (S i).
Proof. unfold ticking. lia. Qed.

End EvictionList.
