(* ===== verification/BSet.v ===== *)
(** * Ordered sets

    [BTreeSet<A>] is its strictly ascending list of elements, for a decidable
    order.  Elements the order does not separate count as the same one: the
    general lemmas are for a strict weak order on the elements that satisfy [P],
    and their corollaries for a strict total order. *)

From stdpp Require Import base list option sorting.

Section BSet.
Context {A : Type} (lt : relation A) `{!RelDecision lt}.
Implicit Types (x y : A) (s : list A).

(** [BTreeSet::insert] *)
Fixpoint bs_insert x s : list A :=
  match s with
  | [] => [x]
  | y :: s' =>
      if decide (lt x y) then x :: s
      else if decide (lt y x) then y :: bs_insert x s'
      else s
  end.

(** [BTreeSet::remove] *)
Fixpoint bs_remove x s : list A :=
  match s with
  | [] => []
  | y :: s' =>
      if decide (lt x y) then s
      else if decide (lt y x) then y :: bs_remove x s'
      else s'
  end.

(** [BTreeSet::contains]; [insert] returns its negation, [remove] its value *)
Fixpoint bs_contains x s : bool :=
  match s with
  | [] => false
  | y :: s' =>
      if decide (lt x y) then false
      else if decide (lt y x) then bs_contains x s'
      else true
  end.

(** [BTreeSet::pop_first] *)
Definition bs_pop_first s : option (A * list A) :=
  match s with [] => None | x :: s' => Some (x, s') end.

Definition bs_wf s : Prop := StronglySorted lt s.

Definition bs_same x y : Prop := ~ lt x y /\ ~ lt y x.

Lemma bs_wf_cons y s : bs_wf (y :: s) <-> bs_wf s /\ forall x, x ∈ s -> lt y x.
Proof.
  unfold bs_wf. rewrite <- (Forall_forall (lt y) s). split.
  - inversion 1; by subst.
  - intros [? ?]. by constructor.
Qed.

(** ** Strict weak orders *)

Section Weak.
Context (P : A -> Prop).
Hypothesis lt_irrefl : forall x, P x -> ~ lt x x.
Hypothesis lt_trans : forall x y z, P x -> P y -> P z -> lt x y -> lt y z -> lt x z.
Hypothesis lt_cotrans : forall x y z, P x -> P y -> P z -> lt x y -> lt x z \/ lt z y.

Lemma bs_contains_spec x s :
  P x -> Forall P s -> bs_wf s -> bs_contains x s = true <-> exists y, y ∈ s /\ bs_same x y.
Proof.
  intros Hx. induction 1 as [|y s Hy Hs IH]; intros Hw; cbn [bs_contains].
  { split; [done|]. intros (y & Hin & _). by apply elem_of_nil in Hin. }
  apply bs_wf_cons in Hw as [Hw Hlt]. setoid_rewrite elem_of_cons.
  destruct (decide (lt x y)) as [Hxy|Hxy].
  - split; [done|]. intros (z & [->|Hz] & [Hxz _]); [done|]. destruct Hxz. rewrite Forall_forall in Hs.
    eapply lt_trans; eauto.
  - destruct (decide (lt y x)) as [Hyx|Hyx].
    + rewrite IH by done. split; [naive_solver|]. intros (z & [->|Hz] & Hsame); [by destruct Hsame|naive_solver].
    + split; [|done]. intros _. exists y. by split; [left|].
Qed.

Lemma elem_of_bs_insert_fresh x s z :
  P x -> Forall P s -> (forall y, y ∈ s -> ~ bs_same x y) -> z ∈ bs_insert x s <-> z = x \/ z ∈ s.
Proof.
  intros Hx. induction 1 as [|y s Hy Hs IH]; intros Hf; cbn [bs_insert].
  { by rewrite list_elem_of_singleton, elem_of_nil; naive_solver. }
  destruct (decide (lt x y)); [by rewrite elem_of_cons|].
  destruct (decide (lt y x)); rewrite !elem_of_cons.
  - rewrite IH; [naive_solver|]. intros w Hw. apply Hf. by right.
  - exfalso. apply (Hf y); [by left|done].
Qed.

Lemma bs_insert_weak_wf x s : P x -> Forall P s -> bs_wf s -> bs_wf (bs_insert x s).
Proof.
  intros Hx. induction 1 as [|y s Hy Hs IH]; intros Hw; cbn [bs_insert]; [by repeat constructor|].
  pose proof Hw as [Hw' Hlt]%bs_wf_cons.
  destruct (decide (lt x y)) as [Hxy|Hxy].
  { apply bs_wf_cons. split; [done|]. intros z [->|Hz]%elem_of_cons; [done|].
    rewrite Forall_forall in Hs. eapply lt_trans; eauto. }
  destruct (decide (lt y x)) as [Hyx|Hyx]; [|done].
  apply bs_wf_cons. split; [by apply IH|]. intros z Hz.
  assert (Hz' : z = x \/ z ∈ s).
  { clear -Hz. induction s as [|w s IH]; cbn [bs_insert] in Hz; [apply list_elem_of_singleton in Hz; by left|].
    repeat case_decide; rewrite !elem_of_cons in *; naive_solver. }
  destruct Hz' as [->|Hz']; [done|by apply Hlt].
Qed.

Lemma elem_of_bs_remove_weak x s z :
  P x -> Forall P s -> bs_wf s -> z ∈ bs_remove x s <-> z ∈ s /\ ~ bs_same x z.
Proof.
  intros Hx. induction 1 as [|y s Hy Hs IH]; intros Hw; cbn [bs_remove]; [rewrite elem_of_nil; naive_solver|].
  apply bs_wf_cons in Hw as [Hw Hlt]. rewrite Forall_forall in Hs.
  destruct (decide (lt x y)) as [Hxy|Hxy].
  { split; [|naive_solver]. intros Hz. split; [done|]. intros [Hn _]. apply Hn.
    apply elem_of_cons in Hz as [->|Hz]; [done|]. eapply lt_trans; eauto. }
  destruct (decide (lt y x)) as [Hyx|Hyx].
  { rewrite !elem_of_cons, IH by done. split; [|naive_solver].
    intros [->|?]; [|naive_solver]. split; [by left|]. intros [_ Hn]. done. }
  rewrite elem_of_cons. split.
  - intros Hz. split; [by right|]. intros [Hn _].
    destruct (lt_cotrans y z x Hy (Hs z Hz) Hx (Hlt z Hz)); done.
  - intros [[->|Hz] Hn]; [by destruct Hn|done].
Qed.

Lemma bs_remove_weak_wf x s : P x -> Forall P s -> bs_wf s -> bs_wf (bs_remove x s).
Proof.
  intros Hx. induction 1 as [|y s Hy Hs IH]; intros Hw; cbn [bs_remove]; [done|].
  pose proof Hw as [Hw' Hlt]%bs_wf_cons.
  destruct (decide (lt x y)); [done|]. destruct (decide (lt y x)); [|done].
  apply bs_wf_cons. split; [by apply IH|]. intros z [Hz _]%elem_of_bs_remove_weak; [by apply Hlt|done..].
Qed.

End Weak.

(** The first element is below every other one. *)
Lemma bs_pop_first_lt s x s' :
  bs_wf s -> bs_pop_first s = Some (x, s') -> bs_wf s' /\ forall z, z ∈ s' -> lt x z.
Proof. destruct s as [|y s]; [done|]. intros Hs [= -> ->]. by apply bs_wf_cons in Hs. Qed.

(** ** Strict total orders *)

Section Total.
Context `{!StrictOrder lt}.
(** Elements the order does not separate are equal. *)
Hypothesis lt_total : forall x y, lt x y \/ x = y \/ lt y x.

Lemma bs_irrefl x : ~ lt x x.
Proof. apply irreflexivity. apply _. Qed.

Lemma bs_same_eq x y : bs_same x y <-> x = y.
Proof.
  split; [destruct (lt_total x y) as [?|[?|?]]; unfold bs_same; naive_solver|].
  intros ->. split; apply bs_irrefl.
Qed.

Lemma bs_trans x y z : lt x y -> lt y z -> lt x z.
Proof. apply transitivity. Qed.

Lemma bs_cotrans x y z : lt x y -> lt x z \/ lt z y.
Proof. intros Hxy. destruct (lt_total x z) as [?|[->|?]]; [by left|by right|]. right. by transitivity x. Qed.

Lemma Forall_any s : Forall (fun _ => True) s.
Proof. by apply Forall_forall. Qed.

Lemma elem_of_bs_insert x s z : z ∈ bs_insert x s <-> z = x \/ z ∈ s.
Proof.
  induction s as [|y s IH]; cbn [bs_insert]; [by rewrite list_elem_of_singleton, elem_of_nil; naive_solver|].
  destruct (decide (lt x y)); [by rewrite elem_of_cons|].
  destruct (decide (lt y x)); rewrite !elem_of_cons; [rewrite IH; naive_solver|].
  destruct (lt_total x y) as [?|[->|?]]; naive_solver.
Qed.

Lemma bs_insert_wf x s : bs_wf s -> bs_wf (bs_insert x s).
Proof. apply (bs_insert_weak_wf (fun _ => True)); eauto using bs_trans, Forall_any. Qed.

Lemma elem_of_bs_remove x s z : bs_wf s -> z ∈ bs_remove x s <-> z ∈ s /\ z <> x.
Proof.
  intros Hs. rewrite (elem_of_bs_remove_weak (fun _ => True)), bs_same_eq; [naive_solver|..];
    eauto using bs_trans, bs_cotrans, Forall_any.
Qed.

Lemma bs_remove_wf x s : bs_wf s -> bs_wf (bs_remove x s).
Proof. apply (bs_remove_weak_wf (fun _ => True)); eauto using bs_trans, bs_cotrans, Forall_any. Qed.

Lemma bs_contains_elem x s : bs_wf s -> bs_contains x s = true <-> x ∈ s.
Proof.
  intros Hs. rewrite (bs_contains_spec (fun _ => True)); [|eauto using bs_trans, bs_cotrans, Forall_any..].
  setoid_rewrite bs_same_eq. naive_solver.
Qed.

(** An ordered set is its elements. *)
Lemma bs_ext s s' : bs_wf s -> bs_wf s' -> (forall x, x ∈ s <-> x ∈ s') -> s = s'.
Proof.
  revert s'. induction s as [|x s IH]; intros [|y s'] Hs Hs' Heq; [done|..].
  { specialize (Heq y). rewrite elem_of_nil, elem_of_cons in Heq. naive_solver. }
  { specialize (Heq x). rewrite elem_of_nil, elem_of_cons in Heq. naive_solver. }
  apply bs_wf_cons in Hs as [Hs Hx], Hs' as [Hs' Hy]. setoid_rewrite elem_of_cons in Heq.
  assert (x = y) as ->.
  { destruct (proj1 (Heq x)) as [|Hin]; [by left|done|]. destruct (proj2 (Heq y)) as [|Hin']; [by left|done|].
    exfalso. apply (bs_irrefl x). transitivity y; [by apply Hx|by apply Hy]. }
  f_equal. apply IH; [done|done|]. intros z. split; intros Hz.
  - destruct (proj1 (Heq z)) as [->|]; [by right| |done]. exfalso. by apply (bs_irrefl y), Hx.
  - destruct (proj2 (Heq z)) as [->|]; [by right| |done]. exfalso. by apply (bs_irrefl y), Hy.
Qed.

Lemma bs_pop_first_Some s x s' :
  bs_wf s -> bs_pop_first s = Some (x, s') ->
  bs_wf s' /\ x ∈ s /\ (forall z, z ∈ s' <-> z ∈ s /\ z <> x) /\ (forall z, z ∈ s -> z = x \/ lt x z).
Proof.
  intros Hs Hp. destruct (bs_pop_first_lt _ _ _ Hs Hp) as [Hs' Hx]. destruct s as [|y s]; [done|].
  injection Hp as -> ->. split; [done|]. split; [by left|]. split; intros z; rewrite elem_of_cons.
  - split; [|naive_solver]. intros Hz. split; [by right|]. intros ->. by apply (bs_irrefl x), Hx.
  - intros [->|Hz]; [by left|right; by apply Hx].
Qed.
End Total.
End BSet.
