(* ===== verification/PeerCooldown.v ===== *)
(** * Transaction cooldowns of peers

    [zakurad/src/components/mempool/peer_cooldown.rs].  The state maps each
    canonical IP address to its cooldown, and keeps an ordered set of the ends
    of the cooldowns.  Instants and durations are whole seconds.

    The theorem: on every state reached by [record_invalid_transaction], the
    method returns [None] exactly when the peer is cooling down, and otherwise
    starts the doubled cooldown, evicting at most the history that ends first
    and only when the history is full. *)

From stdpp Require Import base numbers list option gmap sorting countable.
From Stdlib Require Import ZArith Lia.
From S2P Require Import Prelude BSet.
Local Open Scope Z_scope.

Module PeerCooldown.

Definition BASE_COOLDOWN : Z := 10 * 60.
Definition MAX_COOLDOWN : Z := 2 * 60 * 60.
Definition MAX_COOLDOWN_PEERS : Z := 20000.

(** ** Addresses *)

(** [std::net::IpAddr]: a 32-bit or a 128-bit address *)
Inductive IpAddr := V4 (a : Z) | V6 (a : Z).

#[export] Instance IpAddr_eq_dec : EqDecision IpAddr.
Proof. solve_decision. Defined.

#[export] Instance IpAddr_countable : Countable IpAddr.
Proof.
  refine (inj_countable' (fun ip => match ip with V4 a => inl a | V6 a => inr a end)
            (fun s => match s with inl a => V4 a | inr a => V6 a end) _).
  by intros [].
Defined.

(** [IpAddr::to_canonical]: an address in [::ffff:0:0/96] is its IPv4 address *)
Definition to_canonical (ip : IpAddr) : IpAddr :=
  match ip with
  | V4 a => V4 a
  | V6 a => if a / 2 ^ 32 =? 65535 then V4 (a mod 2 ^ 32) else V6 a
  end.

(** The derived order: IPv4 before IPv6. *)
Definition ip_rank (ip : IpAddr) : Z * Z := match ip with V4 a => (0, a) | V6 a => (1, a) end.

(** The order of [(Instant, IpAddr)]. *)
Definition expiration_lt (x y : Z * IpAddr) : Prop :=
  x.1 < y.1 \/ x.1 = y.1 /\
    ((ip_rank x.2).1 < (ip_rank y.2).1 \/
     (ip_rank x.2).1 = (ip_rank y.2).1 /\ (ip_rank x.2).2 < (ip_rank y.2).2).

#[export] Instance expiration_lt_dec : RelDecision expiration_lt.
Proof. intros x y. unfold expiration_lt. apply _. Defined.

#[export] Instance expiration_lt_order : StrictOrder expiration_lt.
Proof.
  split.
  - intros x. unfold complement, expiration_lt. lia.
  - intros x y z. unfold expiration_lt. lia.
Qed.

Lemma expiration_lt_total x y : expiration_lt x y \/ x = y \/ expiration_lt y x.
Proof.
  destruct x as [t [a|a]], y as [u [b|b]]; unfold expiration_lt; cbn;
    destruct (Z.lt_total t u) as [?|[->|?]]; try lia;
    destruct (Z.lt_total a b) as [?|[->|?]]; try lia; auto.
Qed.

(** ** The state and its operations *)

Record Cooldown := mkCooldown { until : Z; strikes : Z }.

Record CooldownState := mkState {
  peers : gmap IpAddr Cooldown;
  expirations : list (Z * IpAddr);
}.

Definition default_state : CooldownState := mkState ∅ [].

(** [now.saturating_duration_since(self.until) >= MAX_COOLDOWN] *)
Definition is_forgotten (self : Cooldown) (now : Z) : bool :=
  MAX_COOLDOWN <=? usat_sub now (until self).

(** [1u32.checked_shl(doublings)], then [Duration::checked_mul] whose seconds
    are a [u64] *)
Definition cooldown_length (strikes : Z) : Z :=
  let doublings := usat_sub strikes 1 in
  let length :=
    multiplier ← (if doublings <? 32 then Some (1 * 2 ^ doublings) else None);
    to_uint 64 (BASE_COOLDOWN * multiplier) in
  match length with Some length => Z.min length MAX_COOLDOWN | None => MAX_COOLDOWN end.

Definition is_cooling_down (state : CooldownState) (ip : IpAddr) (now : Z) : bool :=
  match peers state !! to_canonical ip with
  | Some cooldown => now <? until cooldown
  | None => false
  end.

(** The eviction when the history is full; [None] is the early return of [?]. *)
Definition make_room (state : CooldownState) (ip : IpAddr) : option CooldownState :=
  match peers state !! ip with
  | Some _ => Some state
  | None =>
      if MAX_COOLDOWN_PEERS <=? Z.of_nat (size (peers state)) then
        match bs_pop_first (expirations state) with
        | Some ((_, earliest), rest) => Some (mkState (delete earliest (peers state)) rest)
        | None => None
        end
      else Some state
  end.

Definition record_invalid_transaction (state : CooldownState) (ip : IpAddr) (now : Z)
  : CooldownState * option Z :=
  let ip := to_canonical ip in
  match make_room state ip with
  | None => (state, None)
  | Some state =>
      let cooldown := default (mkCooldown now 0) (peers state !! ip) in
      if now <? until cooldown then (state, None)
      else
        let strikes := if is_forgotten cooldown now then 0 else strikes cooldown in
        let expirations := bs_remove expiration_lt (until cooldown, ip) (expirations state) in
        let strikes := Z.min u32_max (strikes + 1) in
        let length := cooldown_length strikes in
        let until := now + length in
        (mkState (<[ip := mkCooldown until strikes]> (peers state))
           (bs_insert expiration_lt (until, ip) expirations), Some length)
  end.

(** ** The invariant *)

(** The ordered set holds the end of each cooldown of the map, once. *)
Record inv (state : CooldownState) : Prop := {
  inv_sorted : bs_wf expiration_lt (expirations state);
  inv_exp : forall u ip, (u, ip) ∈ expirations state <-> until <$> peers state !! ip = Some u;
  inv_size : Z.of_nat (size (peers state)) <= MAX_COOLDOWN_PEERS;
  inv_strikes : forall ip c, peers state !! ip = Some c -> 1 <= strikes c <= u32_max;
}.

Definition doubled (k : Z) : Z := Z.min MAX_COOLDOWN (BASE_COOLDOWN * 2 ^ (k - 1)).

Lemma cooldown_length_eq k : 1 <= k <= u32_max -> cooldown_length k = doubled k.
Proof.
  intros Hk. unfold cooldown_length, doubled, usat_sub. rewrite Z.max_r by lia.
  destruct (Z.ltb_spec (k - 1) 32) as [Hs|Hs].
  - cbn [mbind option_bind]. unfold to_uint. rewrite (proj2 (in_uint_spec _ _)), Z.mul_1_l; [by rewrite Z.min_comm|].
    assert (2 ^ (k - 1) <= 2 ^ 31) by (apply Z.pow_le_mono_r; lia).
    assert (0 < 2 ^ (k - 1)) by (apply Z.pow_pos_nonneg; lia). unfold BASE_COOLDOWN. lia.
  - cbn [mbind option_bind]. assert (2 ^ 32 <= 2 ^ (k - 1)) by (apply Z.pow_le_mono_r; lia).
    unfold MAX_COOLDOWN, BASE_COOLDOWN. lia.
Qed.

Definition first_to_end (state : CooldownState) (ip : IpAddr) : Prop :=
  exists c, peers state !! ip = Some c /\
    forall ip' c', peers state !! ip' = Some c' -> until c <= until c'.

(** Either nothing is evicted, or the history is full and new to [ip], and the
    cooldown that ends first goes. *)
Definition roomed (state state1 : CooldownState) (ip : IpAddr) : Prop :=
  state1 = state \/
  peers state !! ip = None /\ Z.of_nat (size (peers state)) = MAX_COOLDOWN_PEERS /\
  exists e, first_to_end state e /\ peers state1 = delete e (peers state).

Lemma full_has_expiration state :
  inv state -> 0 < Z.of_nat (size (peers state)) -> is_Some (bs_pop_first (expirations state)).
Proof.
  intros Hinv Hs. destruct (expirations state) as [|x l] eqn:Hexp; [exfalso|by eexists].
  assert (Hne : peers state <> ∅).
  { intros Heq. rewrite Heq, map_size_empty in Hs. lia. }
  apply map_choose in Hne as (ip & c & Hip).
  assert (Hin : (until c, ip) ∈ expirations state) by (apply (inv_exp _ Hinv); by rewrite Hip).
  rewrite Hexp in Hin. by apply elem_of_nil in Hin.
Qed.

Lemma pop_inv state u e rest :
  inv state -> bs_pop_first (expirations state) = Some ((u, e), rest) ->
  inv (mkState (delete e (peers state)) rest) /\ first_to_end state e.
Proof.
  intros Hinv Hpop. pose proof (inv_sorted _ Hinv) as Hs.
  destruct (bs_pop_first_Some _ _ _ _ Hs Hpop) as (Hr & Hin & Hrest & Hmin).
  apply (inv_exp _ Hinv) in Hin as He. apply fmap_Some in He as (c & He & ->).
  split; [split; cbn; [done|..]|].
  - intros u' ip. rewrite Hrest, (inv_exp _ Hinv). destruct (decide (ip = e)) as [->|Hne].
    + rewrite lookup_delete_eq, He. cbn. split; [|done]. intros [[= <-] Hd]. congruence.
    + rewrite lookup_delete_ne by done. split; [by intros [? _]|]. intros ?. split; [done|congruence].
  - pose proof (inv_size _ Hinv). rewrite map_size_delete_Some by eauto. lia.
  - intros ip c' [_ Hc]%lookup_delete_Some. by apply (inv_strikes _ Hinv ip).
  - exists c. split; [done|]. intros ip' c' Hc'.
    assert (Hin' : (until c', ip') ∈ expirations state) by (apply (inv_exp _ Hinv); by rewrite Hc').
    destruct (Hmin _ Hin') as [[= -> _]|Hlt]; [lia|]. unfold expiration_lt in Hlt. cbn in Hlt. lia.
Qed.

Lemma make_room_spec state ip :
  inv state ->
  exists state1, make_room state ip = Some state1 /\ inv state1 /\ roomed state state1 ip /\
    peers state1 !! ip = peers state !! ip /\
    (peers state !! ip = None -> Z.of_nat (size (peers state1)) < MAX_COOLDOWN_PEERS).
Proof.
  intros Hinv. unfold make_room. destruct (peers state !! ip) as [c|] eqn:Hip.
  { exists state. split; [done|]. split; [done|]. split; [by left|]. by rewrite Hip. }
  destruct (Z.leb_spec MAX_COOLDOWN_PEERS (Z.of_nat (size (peers state)))) as [Hfull|Hroom].
  - pose proof (inv_size _ Hinv) as Hsz. unfold MAX_COOLDOWN_PEERS in Hfull, Hsz.
    destruct (full_has_expiration state Hinv ltac:(lia)) as [[[u e] rest] Hpop]. rewrite Hpop.
    destruct (pop_inv _ _ _ _ Hinv Hpop) as [Hinv' Hfirst].
    exists (mkState (delete e (peers state)) rest). split; [done|]. split; [done|]. split.
    + right. split; [done|]. split; [unfold MAX_COOLDOWN_PEERS; lia|]. by exists e.
    + destruct Hfirst as (c & He & _). split.
      * cbn. rewrite lookup_delete_ne; [done|]. intros ->. congruence.
      * intros _. cbn. rewrite map_size_delete_Some by eauto. unfold MAX_COOLDOWN_PEERS.
        assert (size (peers state) <> 0%nat); [|lia]. intros Hz. rewrite Hz in Hfull. lia.
  - exists state. split; [done|]. split; [done|]. split; [by left|]. by rewrite Hip.
Qed.

(** ** Recording a failure *)

(** The strikes of the cooldown that a failure at [now] starts. *)
Definition next_strikes (old : option Cooldown) (now : Z) : Z :=
  match old with
  | Some c => if MAX_COOLDOWN <=? now - until c then 1 else Z.min u32_max (strikes c + 1)
  | None => 1
  end.

(** The state once the cooldown [c] is started for [ip], whose history was [old]. *)
Definition started (state : CooldownState) (ip : IpAddr) (old : Z) (c : Cooldown) : CooldownState :=
  mkState (<[ip := c]> (peers state))
    (bs_insert expiration_lt (until c, ip) (bs_remove expiration_lt (old, ip) (expirations state))).

Lemma started_inv state ip old c :
  inv state -> (forall c0, peers state !! ip = Some c0 -> until c0 = old) ->
  (peers state !! ip = None -> Z.of_nat (size (peers state)) < MAX_COOLDOWN_PEERS) ->
  1 <= strikes c <= u32_max -> inv (started state ip old c).
Proof.
  intros [Hs He Hz Hk] Hold Hroom Hc.
  pose proof (bs_remove_wf expiration_lt expiration_lt_total (old, ip) _ Hs) as Hs'.
  split; cbn.
  - apply bs_insert_wf; [apply _|done].
  - intros u ip'. rewrite (elem_of_bs_insert _ expiration_lt_total), (elem_of_bs_remove _ expiration_lt_total) by done.
    rewrite He. destruct (decide (ip' = ip)) as [->|Hne].
    + rewrite lookup_insert_eq. cbn. split; [|intros [= <-]; by left].
      intros [[= ->]|[Hu Hne]]; [done|]. apply fmap_Some in Hu as (c0 & Hc0 & ->).
      rewrite (Hold c0 Hc0) in Hne. done.
    + rewrite lookup_insert_ne by done. split; [|intros ?; right; split; [done|congruence]].
      intros [[= _ ->]|[? _]]; done.
  - destruct (peers state !! ip) as [c0|] eqn:Hip.
    + rewrite map_size_insert_Some by eauto. done.
    + rewrite map_size_insert_None by done. specialize (Hroom eq_refl). lia.
  - intros ip' c' [[_ <-]|[_ Hc']]%lookup_insert_Some; [done|by apply (Hk ip')].
Qed.

Lemma record_eq state ip now :
  inv state ->
  exists state1, inv state1 /\ roomed state state1 (to_canonical ip) /\
    peers state1 !! to_canonical ip = peers state !! to_canonical ip /\
    (peers state !! to_canonical ip = None -> Z.of_nat (size (peers state1)) < MAX_COOLDOWN_PEERS) /\
    let k := next_strikes (peers state !! to_canonical ip) now in
    1 <= k <= u32_max /\
    record_invalid_transaction state ip now =
      (if is_cooling_down state ip now then (state, None)
       else (started state1 (to_canonical ip)
               (until (default (mkCooldown now 0) (peers state !! to_canonical ip)))
               (mkCooldown (now + doubled k) k), Some (doubled k))).
Proof.
  intros Hinv. unfold record_invalid_transaction, is_cooling_down.
  destruct (make_room_spec state (to_canonical ip) Hinv) as (s1 & -> & Hi1 & Hr & Hip & Hsz).
  exists s1. rewrite Hip. do 4 (split; [done|]). cbn zeta. unfold next_strikes, is_forgotten, usat_sub.
  destruct (peers state !! to_canonical ip) as [c|] eqn:Hc; cbn [from_option id until strikes].
  - pose proof (inv_strikes _ Hinv _ _ Hc) as Hk. destruct Hr as [->|[? _]]; [|congruence].
    destruct (Z.ltb_spec now (until c)) as [Hcool|Hdone].
    { split; [|done]. destruct (_ <=? _); unfold u32_max in *; lia. }
    rewrite Z.max_r by lia. destruct (MAX_COOLDOWN <=? now - until c).
    + split; [unfold u32_max; lia|]. rewrite Z.min_r by (unfold u32_max; lia).
      by rewrite cooldown_length_eq by (unfold u32_max; lia).
    + split; [unfold u32_max in *; lia|]. by rewrite cooldown_length_eq by (unfold u32_max in *; lia).
  - split; [unfold u32_max; lia|]. rewrite Z.ltb_irrefl, Z.sub_diag.
    change (MAX_COOLDOWN <=? Z.max 0 0) with false. change (Z.min u32_max (0 + 1)) with 1.
    by rewrite cooldown_length_eq by (unfold u32_max; lia).
Qed.

Inductive reachable : CooldownState -> Prop :=
| reach_default : reachable default_state
| reach_record state ip now :
    reachable state -> reachable (record_invalid_transaction state ip now).1.

Lemma record_inv state ip now : inv state -> inv (record_invalid_transaction state ip now).1.
Proof.
  intros Hinv. destruct (record_eq state ip now Hinv) as (s1 & Hi1 & _ & Hip & Hsz & Hk & ->).
  destruct (is_cooling_down state ip now); [done|]. apply started_inv; [done|..|done].
  - rewrite Hip. by intros c0 ->.
  - by rewrite Hip.
Qed.

Lemma cooldowns_reachable_inv state : reachable state -> inv state.
Proof.
  induction 1 as [|state ip now _ IH]; [|by apply record_inv]. split; cbn; [constructor|..].
  - intros u ip. rewrite lookup_empty, elem_of_nil. done.
  - rewrite map_size_empty. unfold MAX_COOLDOWN_PEERS. lia.
  - intros ip c. by rewrite lookup_empty.
Qed.

(** C40: In every state reached by recording failures, in any order of addresses
    and times, [record_invalid_transaction] returns [None] and changes nothing
    exactly when the peer is cooling down.  Otherwise it starts a cooldown of
    ten minutes doubled by each strike and limited to two hours, forgetting the
    strikes of a history that ended two hours before; the other histories stay
    as they were, except that a full history gives up, for a new address, the
    one whose cooldown ends first.  There are at most [MAX_COOLDOWN_PEERS]. *)
Theorem record_invalid_transaction_spec state ip now state' result :
  reachable state -> record_invalid_transaction state ip now = (state', result) ->
  let addr := to_canonical ip in
  let k := next_strikes (peers state !! addr) now in
  Z.of_nat (size (peers state')) <= MAX_COOLDOWN_PEERS /\
  if is_cooling_down state ip now then state' = state /\ result = None
  else
    result = Some (Z.min MAX_COOLDOWN (BASE_COOLDOWN * 2 ^ (k - 1))) /\
    (forall t, is_cooling_down state' ip t = (t <? now + Z.min MAX_COOLDOWN (BASE_COOLDOWN * 2 ^ (k - 1)))) /\
    strikes <$> peers state' !! addr = Some k /\
    ((forall other, other <> addr -> peers state' !! other = peers state !! other) \/
     peers state !! addr = None /\ Z.of_nat (size (peers state)) = MAX_COOLDOWN_PEERS /\
     exists e, first_to_end state e /\ peers state' !! e = None /\
       forall other, other <> addr -> other <> e -> peers state' !! other = peers state !! other).
Proof.
  intros Hinv%cooldowns_reachable_inv Hrec addr k. split.
  { pose proof (inv_size _ (record_inv state ip now Hinv)) as Hsz. by rewrite Hrec in Hsz. }
  destruct (record_eq state ip now Hinv) as (s1 & _ & Hroom & Hip & _ & _ & Heq). rewrite Hrec in Heq.
  fold addr k in Heq, Hroom, Hip. unfold doubled in Heq.
  destruct (is_cooling_down state ip now); injection Heq as -> ->; [done|]. split; [done|].
  unfold is_cooling_down. fold addr. cbn [started peers until strikes]. rewrite lookup_insert_eq.
  split; [done|]. split; [done|]. destruct Hroom as [->|(Hnew & Hfull & e & He & Hdel)].
  - left. intros other Hne. by rewrite lookup_insert_ne.
  - right. split; [done|]. split; [done|]. exists e. split; [done|]. rewrite Hdel in *.
    assert (Hea : addr <> e) by (destruct He as (c & Hc & _); intros <-; congruence).
    split; [by rewrite lookup_insert_ne, lookup_delete_eq|].
    intros other Hne Hne'. by rewrite lookup_insert_ne, lookup_delete_ne.
Qed.

(** A second strike, through the IPv6 form of an address, after the first
    cooldown. *)
Definition one_strike : CooldownState :=
  mkState {[ V4 (2 ^ 24) := mkCooldown 600 1 ]} [(600, V4 (2 ^ 24))].

Lemma record_invalid_transaction_spec_witness :
  reachable one_strike /\
  (record_invalid_transaction one_strike (V6 (65535 * 2 ^ 32 + 2 ^ 24)) 700).2 = Some 1200.
Proof.
  assert (Hr : reachable one_strike) by apply (reach_record default_state (V4 (2 ^ 24)) 0 reach_default).
  split; [exact Hr|].
  pose proof (record_invalid_transaction_spec one_strike (V6 (65535 * 2 ^ 32 + 2 ^ 24)) 700 _ _ Hr
    (surjective_pairing _)) as [_ Hspec].
  replace (is_cooling_down one_strike (V6 (65535 * 2 ^ 32 + 2 ^ 24)) 700) with false in Hspec
    by (vm_compute; reflexivity).
  destruct Hspec as [-> _]. vm_compute. reflexivity.
Defined.
End PeerCooldown.
