(* ===== verification/Zip317.v ===== *)
(** * Conventional fees of unmined transactions

    [zakura-chain/src/transaction/unmined/zip317.rs] and the constructors of
    [UnminedTx] and [VerifiedUnminedTx] in [unmined.rs].  The floating-point fee
    weight ratio of the block templates is left out.

    The theorem: a transaction is admitted exactly when its fee is at least the
    conventional one; the legacy size-based minimum never rejects. *)

From stdpp Require Import base numbers list option.
From Stdlib Require Import ZArith Lia.
From S2P Require Import Prelude Amount.
Local Open Scope Z_scope.

Module Zip317.
Import Amount.

Definition MARGINAL_FEE : Z := 400.
Definition GRACE_ACTIONS : Z := 2.
Definition P2PKH_STANDARD_INPUT_SIZE : Z := 150.
Definition P2PKH_STANDARD_OUTPUT_SIZE : Z := 34.
Definition BLOCK_UNPAID_ACTION_LIMIT : Z := 0.
Definition MIN_MEMPOOL_TX_FEE_RATE : Z := 100.
Definition MEMPOOL_TX_FEE_REQUIREMENT_CAP : Z := 800.
Definition MAX_BLOCK_BYTES : Z := 2000000.
Definition MEMPOOL_TRANSACTION_COST_THRESHOLD : Z := 10000.

(** What the fee calculation reads of a transaction: the serialized sizes of its
    transparent inputs and outputs, its counts of shielded items, and its
    serialized size. *)
Record Transaction := mkTransaction {
  input_sizes : list Z;
  output_sizes : list Z;
  joinsplit_count : Z;
  sapling_spends : Z;
  sapling_outputs : Z;
  orchard_actions : Z;
  ironwood_actions : Z;
  serialized_size : Z;
}.

(** [Iterator::sum] on [usize] *)
Fixpoint usize_sum_from {E} (acc : Z) (l : list Z) : res E Z :=
  match l with
  | [] => Ok acc
  | x :: l => let? acc := uint_arith 64 (acc + x) in usize_sum_from acc l
  end.

Definition usize_sum {E} (l : list Z) : res E Z := usize_sum_from 0 l.

Definition conventional_actions {E} (transaction : Transaction) : res E Z :=
  let? tx_in_total_size := usize_sum (input_sizes transaction) in
  let? tx_out_total_size := usize_sum (output_sizes transaction) in
  let n_join_split := joinsplit_count transaction in
  let n_spends_sapling := sapling_spends transaction in
  let n_outputs_sapling := sapling_outputs transaction in
  let n_actions_orchard := orchard_actions transaction in
  let n_actions_ironwood := ironwood_actions transaction in
  let tx_in_logical_actions := div_ceil tx_in_total_size P2PKH_STANDARD_INPUT_SIZE in
  let tx_out_logical_actions := div_ceil tx_out_total_size P2PKH_STANDARD_OUTPUT_SIZE in
  let? joinsplit_actions := uint_arith 64 (2 * n_join_split) in
  let? logical_actions :=
    uint_arith 64 (Z.max tx_in_logical_actions tx_out_logical_actions + joinsplit_actions) in
  let? logical_actions :=
    uint_arith 64 (logical_actions + Z.max n_spends_sapling n_outputs_sapling) in
  let? logical_actions := uint_arith 64 (logical_actions + n_actions_orchard) in
  let? logical_actions := uint_arith 64 (logical_actions + n_actions_ironwood) in
  let? logical_actions := expect (to_uint 32 logical_actions) in
  Ok (Z.max GRACE_ACTIONS logical_actions).

Definition conventional_fee {E} (transaction : Transaction) : res E (Amount NonNegative) :=
  let? marginal_fee := expect_ok (try_from_u64 MARGINAL_FEE) in
  let? actions := conventional_actions transaction in
  expect_ok (mul marginal_fee actions).

Record UnminedTx := mkUnmined {
  transaction : Transaction;
  size : Z;
  unmined_conventional_fee : Amount NonNegative;
}.

(** [From<Transaction> for UnminedTx] *)
Definition unmined_from {E} (transaction : Transaction) : res E UnminedTx :=
  let size := serialized_size transaction in
  let? conventional_fee := conventional_fee transaction in
  Ok (mkUnmined transaction size conventional_fee).

Definition unpaid_actions {E} (tx : UnminedTx) (miner_fee : Amount NonNegative) : res E Z :=
  let? conventional_actions := conventional_actions (transaction tx) in
  let? marginal_fee_weight_ratio := expect_ok (div miner_fee MARGINAL_FEE) in
  let? unpaid := sint_arith 64 (conventional_actions - zatoshis marginal_fee_weight_ratio) in
  Ok (default 0 (to_uint 32 unpaid)).

Inductive Error := UnpaidActions | FeeBelowMinimumRate | InvalidMinFee.

Definition clamp (z lo hi : Z) : Z := Z.max lo (Z.min z hi).

Definition mempool_checks (unpaid_actions : Z) (miner_fee : Amount NonNegative) (transaction_size : Z)
  : res Error unit :=
  if BLOCK_UNPAID_ACTION_LIMIT <? unpaid_actions then Err UnpaidActions
  else
    let KILOBYTE := 1000 in
    let? max_block_size := ok_or InvalidMinFee (to_uint 64 MAX_BLOCK_BYTES) in
    let? _ := rust_assert (MIN_MEMPOOL_TX_FEE_RATE <? u64_max / max_block_size) in
    let? product := uint_arith 64 (MIN_MEMPOOL_TX_FEE_RATE * transaction_size) in
    let? min_fee := ok_or InvalidMinFee
      (to_uint 64 (clamp (product / KILOBYTE) MIN_MEMPOOL_TX_FEE_RATE MEMPOOL_TX_FEE_REQUIREMENT_CAP)) in
    let? min_fee := map_err (fun _ => InvalidMinFee) (try_from_u64 (C := NonNegative) min_fee) in
    if zatoshis miner_fee <? zatoshis min_fee then Err FeeBelowMinimumRate else Ok ().

Record VerifiedUnminedTx := mkVerified {
  verified_transaction : UnminedTx;
  miner_fee : Amount NonNegative;
  legacy_sigop_count : Z;
  p2sh_sigop_count : Z;
  verified_conventional_actions : Z;
  verified_unpaid_actions : Z;
}.

(** [VerifiedUnminedTx::new] *)
Definition verified_new (tx : UnminedTx) (miner_fee : Amount NonNegative)
  (legacy_sigop_count p2sh_sigop_count : Z) : res Error VerifiedUnminedTx :=
  let? actions := conventional_actions (transaction tx) in
  let? unpaid := unpaid_actions tx miner_fee in
  let? _ := mempool_checks unpaid miner_fee (size tx) in
  Ok (mkVerified tx miner_fee legacy_sigop_count p2sh_sigop_count actions unpaid).

Definition block_sigop_count (self : VerifiedUnminedTx) : Z :=
  Z.min u32_max (legacy_sigop_count self + p2sh_sigop_count self).

Definition pays_conventional_fee (self : VerifiedUnminedTx) : bool :=
  zatoshis (unmined_conventional_fee (verified_transaction self)) <=? zatoshis (miner_fee self).

Definition cost {E} (self : VerifiedUnminedTx) : res E Z :=
  let? size := expect (to_uint 64 (size (verified_transaction self))) in
  Ok (Z.max size MEMPOOL_TRANSACTION_COST_THRESHOLD).

(** ** The fee rule *)

Fixpoint zsum (l : list Z) : Z :=
  match l with [] => 0 | x :: l => x + zsum l end.

(** The logical actions of ZIP-317. *)
Definition logical_actions (tx : Transaction) : Z :=
  Z.max (div_ceil (zsum (input_sizes tx)) 150) (div_ceil (zsum (output_sizes tx)) 34) +
  2 * joinsplit_count tx + Z.max (sapling_spends tx) (sapling_outputs tx) +
  orchard_actions tx + ironwood_actions tx.

(** Every item of a transaction takes at least a byte of a block. *)
Record wf_transaction (tx : Transaction) : Prop := {
  wf_inputs : Forall (fun z => 0 <= z) (input_sizes tx);
  wf_outputs : Forall (fun z => 0 <= z) (output_sizes tx);
  wf_counts : 0 <= joinsplit_count tx /\ 0 <= sapling_spends tx /\ 0 <= sapling_outputs tx /\
    0 <= orchard_actions tx /\ 0 <= ironwood_actions tx;
  wf_total : zsum (input_sizes tx) + zsum (output_sizes tx) + joinsplit_count tx + sapling_spends tx +
    sapling_outputs tx + orchard_actions tx + ironwood_actions tx <= serialized_size tx;
  wf_size : serialized_size tx <= MAX_BLOCK_BYTES;
}.

Lemma zsum_nonneg l : Forall (fun z => 0 <= z) l -> 0 <= zsum l.
Proof. induction 1; cbn in *; lia. Qed.

Lemma usize_sum_Ok {E} l : Forall (fun z => 0 <= z) l -> zsum l < 2 ^ 64 -> usize_sum (E := E) l = Ok (zsum l).
Proof.
  intros Hl. unfold usize_sum. enough (Hacc : forall acc, 0 <= acc -> acc + zsum l < 2 ^ 64 ->
    usize_sum_from (E := E) acc l = Ok (acc + zsum l)) by (intros; by rewrite Hacc).
  induction Hl as [|x l Hx Hl IH]; intros acc Ha Hb; cbn in *; [by rewrite Z.add_0_r|].
  pose proof (zsum_nonneg l Hl). rewrite uint_arith_Ok by lia. cbn. rewrite IH by lia. f_equal. lia.
Qed.

Lemma div_ceil_bounds a b : 0 <= a -> 0 < b -> 0 <= div_ceil a b <= a.
Proof.
  intros Ha Hb. split; [by apply div_ceil_nonneg|]. apply div_ceil_le; [done|]. nia.
Qed.

Lemma logical_actions_bounds tx :
  wf_transaction tx -> 0 <= logical_actions tx <= 2 * MAX_BLOCK_BYTES.
Proof.
  intros [Hi%zsum_nonneg Ho%zsum_nonneg Hc Ht Hs]. unfold logical_actions.
  pose proof (div_ceil_bounds _ 150 Hi ltac:(lia)). pose proof (div_ceil_bounds _ 34 Ho ltac:(lia)). lia.
Qed.

Lemma conventional_actions_Ok {E} tx :
  wf_transaction tx -> conventional_actions (E := E) tx = Ok (Z.max 2 (logical_actions tx)).
Proof.
  intros Hwf. pose proof (logical_actions_bounds tx Hwf) as Hb. unfold logical_actions in *.
  destruct Hwf as [Hi Ho Hc Ht Hs].
  pose proof (zsum_nonneg _ Hi). pose proof (zsum_nonneg _ Ho). unfold conventional_actions.
  pose proof (div_ceil_bounds (zsum (input_sizes tx)) 150 ltac:(lia) ltac:(lia)).
  pose proof (div_ceil_bounds (zsum (output_sizes tx)) 34 ltac:(lia) ltac:(lia)).
  unfold MAX_BLOCK_BYTES, P2PKH_STANDARD_INPUT_SIZE, P2PKH_STANDARD_OUTPUT_SIZE, GRACE_ACTIONS in *.
  rewrite !usize_sum_Ok by (done || lia). cbn [res_bind].
  run_arith.
  unfold to_uint. rewrite (proj2 (in_uint_spec _ _)) by lia. done.
Qed.

Lemma conventional_fee_Ok {E} tx :
  wf_transaction tx -> conventional_fee (E := E) tx = Ok (mk (400 * Z.max 2 (logical_actions tx))).
Proof.
  intros Hwf. pose proof (logical_actions_bounds tx Hwf) as Hb. unfold MAX_BLOCK_BYTES in Hb.
  unfold conventional_fee. rewrite conventional_actions_Ok by done.
  change (expect_ok (F := E) (try_from_u64 (C := NonNegative) MARGINAL_FEE)) with
    (Ok (E := E) (mk (C := NonNegative) 400)). cbn [res_bind].
  rewrite mul_total, (proj2 (range_contains_spec _ _)); [done|..].
  - cbn. rewrite MAX_MONEY_val. lia.
  - apply wf_non_negative. cbn. rewrite MAX_MONEY_val. lia.
  - lia.
Qed.

Lemma unpaid_actions_Ok {E} tx fee :
  wf_transaction (transaction tx) -> wf fee ->
  unpaid_actions (E := E) tx fee =
    Ok (Z.max 0 (Z.max 2 (logical_actions (transaction tx)) - zatoshis fee / 400)).
Proof.
  intros Hwf Hfee. pose proof (logical_actions_bounds _ Hwf) as Hb. unfold MAX_BLOCK_BYTES in Hb.
  unfold unpaid_actions. rewrite conventional_actions_Ok by done. cbn [res_bind].
  apply wf_non_negative in Hfee as Hf. rewrite MAX_MONEY_val in Hf.
  rewrite div_spec by (done || (unfold MARGINAL_FEE; lia)). cbn [expect_ok res_bind Z.eqb MARGINAL_FEE zatoshis].
  unfold MARGINAL_FEE. rewrite Z.quot_div_nonneg by lia.
  assert (0 <= zatoshis fee / 400 <= zatoshis fee).
  { split; [apply Z.div_pos; lia|apply Z.div_le_upper_bound; lia]. }
  run_arith. f_equal. unfold to_uint.
  destruct (in_uint 32 _) eqn:Hu; cbn [from_option id].
  - apply in_uint_spec in Hu. lia.
  - apply not_true_iff_false in Hu. rewrite in_uint_spec in Hu. lia.
Qed.

Lemma mempool_checks_Ok unpaid fee size :
  wf fee -> 0 <= size <= MAX_BLOCK_BYTES -> (unpaid <= 0 -> 800 <= zatoshis fee) ->
  mempool_checks unpaid fee size = if 0 <? unpaid then Err UnpaidActions else Ok ().
Proof.
  intros Hfee Hs Hu. unfold mempool_checks, BLOCK_UNPAID_ACTION_LIMIT.
  destruct (Z.ltb_spec 0 unpaid) as [|Hle]; [done|]. specialize (Hu Hle).
  change (to_uint 64 MAX_BLOCK_BYTES) with (Some MAX_BLOCK_BYTES). cbn [ok_or res_bind].
  change (MIN_MEMPOOL_TX_FEE_RATE <? u64_max / MAX_BLOCK_BYTES) with true. cbn [rust_assert res_bind].
  unfold MIN_MEMPOOL_TX_FEE_RATE, MEMPOOL_TX_FEE_REQUIREMENT_CAP, MAX_BLOCK_BYTES, clamp in *.
  run_arith.
  set (m := Z.max 100 (Z.min (100 * size / 1000) 800)). assert (Hm : 100 <= m <= 800) by lia.
  unfold to_uint, try_from_u64, to_sint.
  rewrite (proj2 (in_uint_spec _ _)) by lia. cbn [ok_or res_bind].
  rewrite (proj2 (in_sint_spec _ _)) by lia. cbn [ok_or res_bind].
  unfold validate. rewrite (proj2 (range_contains_spec _ _)) by (cbn; rewrite MAX_MONEY_val; lia).
  cbn [negb res_bind map_err zatoshis]. destruct (Z.ltb_spec (zatoshis fee) m); [lia|done].
Qed.

(** C39: For a transaction within the block size limit, the conventional fee is
    400 zatoshis for each ZIP-317 logical action, counting at least two, without
    overflow; and [VerifiedUnminedTx::new] accepts the transaction exactly when
    its fee is at least that.  The only error is [UnpaidActions]: the legacy
    minimum by size, which is computed and compared too, never rejects. *)
Theorem admission_is_conventional_fee tx fee sigops p2sh :
  wf_transaction tx -> wf fee ->
  let actions := Z.max 2 (logical_actions tx) in
  let unmined := mkUnmined tx (serialized_size tx) (mk (400 * actions)) in
  unmined_from (E := Error) tx = Ok unmined /\
  verified_new unmined fee sigops p2sh =
    (if 400 * actions <=? zatoshis fee
     then Ok (mkVerified unmined fee sigops p2sh actions 0) else Err UnpaidActions) /\
  (forall v, verified_new unmined fee sigops p2sh = Ok v -> pays_conventional_fee v = true).
Proof.
  intros Hwf Hfee actions unmined.
  assert (Hnew : verified_new unmined fee sigops p2sh =
    (if 400 * actions <=? zatoshis fee
     then Ok (mkVerified unmined fee sigops p2sh actions 0) else Err UnpaidActions)).
  { unfold verified_new. rewrite conventional_actions_Ok, unpaid_actions_Ok by done.
    cbn [transaction unmined res_bind size]. fold actions.
    apply wf_non_negative in Hfee as Hf. pose proof (Z.div_mod (zatoshis fee) 400 ltac:(lia)).
    pose proof (Z.mod_pos_bound (zatoshis fee) 400 ltac:(lia)). assert (2 <= actions) by lia.
    assert (Hsz : 0 <= serialized_size tx <= MAX_BLOCK_BYTES).
    { destruct Hwf as [Hi%zsum_nonneg Ho%zsum_nonneg Hc Ht Hs]. lia. }
    rewrite mempool_checks_Ok by (done || lia).
    destruct (Z.leb_spec (400 * actions) (zatoshis fee)), (Z.ltb_spec 0 (Z.max 0 (actions - zatoshis fee / 400)));
      try lia; cbn [res_bind]; [|done]. do 2 f_equal. lia. }
  split; [unfold unmined_from; by rewrite conventional_fee_Ok|]. split; [done|].
  intros v. rewrite Hnew. destruct (400 * actions <=? zatoshis fee) eqn:Hle; [|done]. by intros [= <-].
Qed.

(** Two actions cost 800 zatoshis. *)
Definition small_tx : Transaction := mkTransaction [148] [34; 34] 0 0 0 0 0 226.

Lemma admission_is_conventional_fee_witness :
  verified_new (mkUnmined small_tx 226 (mk 800)) (mk 799) 2 0 = Err UnpaidActions /\
  is_ok (verified_new (mkUnmined small_tx 226 (mk 800)) (mk 800) 2 0) = true.
Proof.
  assert (Hwf : wf_transaction small_tx) by (split; cbn; repeat constructor; try lia; unfold MAX_BLOCK_BYTES; lia).
  pose proof (admission_is_conventional_fee small_tx (mk 799) 2 0 Hwf eq_refl) as (_ & H1 & _).
  pose proof (admission_is_conventional_fee small_tx (mk 800) 2 0 Hwf eq_refl) as (_ & H2 & _).
  change (verified_new (mkUnmined small_tx 226 (mk 800)) (mk 799) 2 0 = Err UnpaidActions) in H1.
  split; [exact H1|].
  change (is_ok (verified_new (mkUnmined small_tx (serialized_size small_tx)
    (mk (400 * Z.max 2 (logical_actions small_tx)))) (mk 800) 2 0) = true).
  rewrite H2. vm_compute. reflexivity.
Defined.
End Zip317.
