(* ===== verification/EvictionCost.v ===== *)
(** * Fee per unit of mempool cost

    [zakurad/src/components/mempool/storage/eviction_cost.rs]: the order that
    ranks eviction victims, and the increment a newcomer must pay over them.

    The theorem: for fees within the money supply, the [u128] computations are
    the comparisons of the rationals they stand for. *)

From stdpp Require Import base numbers list option.
From Stdlib Require Import ZArith QArith Lia.
From S2P Require Import Prelude Amount Zip317.
Local Open Scope Z_scope.

Module EvictionCost.

Record EvictionCost := mkCost { fee : Z; cost : Z }.

Definition new {E} (fee cost : Z) : res E EvictionCost :=
  let? _ := rust_assert (0 <? cost) in
  Ok (mkCost fee cost).

Definition combine (self other : EvictionCost) : EvictionCost :=
  mkCost (Z.min u64_max (fee self + fee other)) (Z.min u64_max (cost self + cost other)).

(** [u128::saturating_mul] and [u128::saturating_add] *)
Definition u128_max : Z := 2 ^ 128 - 1.
Definition saturating_mul (a b : Z) : Z := Z.min u128_max (a * b).
Definition saturating_add (a b : Z) : Z := Z.min u128_max (a + b).

Definition exceeds_by_increment (self victim : EvictionCost) : bool :=
  let threshold := Zip317.MEMPOOL_TRANSACTION_COST_THRESHOLD in
  let lhs := saturating_mul (saturating_mul (fee self) (cost victim)) threshold in
  let rhs :=
    saturating_add
      (saturating_mul (saturating_mul (fee victim) (cost self)) threshold)
      (saturating_mul (saturating_mul Zip317.MARGINAL_FEE (cost self)) (cost victim)) in
  rhs <=? lhs.

(** [Ord::cmp]: the products are of [u128] *)
Definition cmp {E} (self other : EvictionCost) : res E comparison :=
  let? l := uint_arith 128 (fee self * cost other) in
  let? r := uint_arith 128 (fee other * cost self) in
  Ok (l ?= r).

Definition eq {E} (self other : EvictionCost) : res E bool :=
  let? c := cmp self other in
  Ok (match c with Eq => true | _ => false end).

Definition partial_cmp {E} (self other : EvictionCost) : res E (option comparison) :=
  let? c := cmp self other in Ok (Some c).

(** ** Exactness *)

(** A value of [new]. *)
Definition wf (c : EvictionCost) : Prop := 0 <= fee c < 2 ^ 64 /\ 0 < cost c < 2 ^ 64.

(** A transaction or package of the mempool: its fees are within the money
    supply, and its cost is far below the largest one. *)
Definition in_mempool (c : EvictionCost) : Prop :=
  0 <= fee c <= Amount.MAX_MONEY /\ 0 < cost c < 2 ^ 56.

(** The rational it stands for. *)
Definition rate (c : EvictionCost) : Q := (fee c # Z.to_pos (cost c))%Q.

Lemma in_mempool_wf c : in_mempool c -> wf c.
Proof. unfold in_mempool, wf. rewrite Amount.MAX_MONEY_val. lia. Qed.

Lemma cmp_Ok {E} a b : wf a -> wf b -> cmp (E := E) a b = Ok (rate a ?= rate b)%Q.
Proof.
  intros [Hfa Hca] [Hfb Hcb]. unfold cmp.
  assert (0 <= fee a * cost b < 2 ^ 128) by nia. assert (0 <= fee b * cost a < 2 ^ 128) by nia.
  rewrite !uint_arith_Ok by done. cbn [res_bind]. unfold rate, Qcompare. cbn [Qnum Qden].
  by rewrite !Z2Pos.id by lia.
Qed.

Lemma saturating_mul_exact a b : a * b <= u128_max -> saturating_mul a b = a * b.
Proof. unfold saturating_mul. lia. Qed.

Lemma products_fit a b :
  in_mempool a -> in_mempool b ->
  0 <= fee a * cost b /\ fee a * cost b * 10000 + 400 * cost a * cost b < 2 ^ 128 /\
  0 <= 400 * cost a * cost b.
Proof.
  intros [Hfa Hca] [_ Hcb]. rewrite Amount.MAX_MONEY_val in Hfa. split; [nia|]. split; [|nia].
  assert (fee a * cost b <= 2100000000000000 * 2 ^ 56) by (apply Z.mul_le_mono_nonneg; lia).
  assert (cost a * cost b <= 2 ^ 56 * 2 ^ 56) by (apply Z.mul_le_mono_nonneg; lia). lia.
Qed.

Lemma exceeds_exact a v :
  in_mempool a -> in_mempool v ->
  exceeds_by_increment a v = true <-> (rate v + (400 # 10000) <= rate a)%Q.
Proof.
  intros Ha Hv. pose proof (products_fit a v Ha Hv). pose proof (products_fit v a Hv Ha).
  destruct Ha as [Hfa Hca], Hv as [Hfv Hcv]. rewrite Amount.MAX_MONEY_val in *.
  unfold exceeds_by_increment, Zip317.MEMPOOL_TRANSACTION_COST_THRESHOLD, Zip317.MARGINAL_FEE.
  assert (Hcc : 400 * cost v * cost a = 400 * cost a * cost v) by lia.
  rewrite (saturating_mul_exact (fee a) (cost v)), (saturating_mul_exact (fee v) (cost a)),
    (saturating_mul_exact 400 (cost a)) by (unfold u128_max; lia).
  rewrite !saturating_mul_exact by (unfold u128_max; lia).
  unfold saturating_add. rewrite Z.min_r by (unfold u128_max; lia). rewrite Z.leb_le.
  unfold rate, Qplus, Qle. cbn [Qnum Qden]. rewrite !Pos2Z.inj_mul, !Z2Pos.id by lia. nia.
Qed.

(** For fees within the money supply, the 128-bit comparison of two eviction
    costs never overflows and is the order of the rationals fee/cost;
    [exceeds_by_increment] holds exactly when the newcomer pays at least the
    victim's rate plus 400 zatoshis per 10,000 of cost, so that it is then above
    the victim; and the rate of two combined packages lies between theirs. *)
Lemma eviction_cost_exact a b :
  in_mempool a -> in_mempool b ->
  cmp (E := unit) a b = Ok (rate a ?= rate b)%Q /\
  (exceeds_by_increment a b = true <-> (rate b + (400 # 10000) <= rate a)%Q) /\
  (exceeds_by_increment a b = true -> cmp (E := unit) a b = Ok Gt) /\
  (cmp (E := unit) a b <> Ok Gt ->
   (rate a <= rate (combine a b))%Q /\ (rate (combine a b) <= rate b)%Q).
Proof.
  intros Ha Hb. pose proof (in_mempool_wf a Ha) as Hwa. pose proof (in_mempool_wf b Hb) as Hwb.
  pose proof (exceeds_exact a b Ha Hb) as Hex. rewrite cmp_Ok by done.
  split; [done|]. split; [done|]. split.
  - intros Hinc%Hex. f_equal. apply Qgt_alt. apply Qlt_le_trans with (rate b + (400 # 10000))%Q; [|done].
    rewrite <- (Qplus_0_r (rate b)) at 1. by apply Qplus_lt_r.
  - intros Hle. assert (Hab : (rate a <= rate b)%Q) by (apply Qle_alt; congruence). clear Hle Hex.
    destruct Ha as [Hfa Hca], Hb as [Hfb Hcb]. rewrite Amount.MAX_MONEY_val in *.
    unfold combine, u64_max. rewrite !Z.min_r by lia. unfold rate, Qle in *. cbn [Qnum Qden fee cost] in *.
    rewrite !Z2Pos.id in * by lia. split; nia.
Qed.

End EvictionCost.
