(* ===== verification/NodeData.v ===== *)
(** * History tree node metadata

    [zakura-mmr-tree/src/node_data.rs] and [version.rs]: the metadata of a
    history tree node in its three versions, how two nodes combine, and the byte
    encoding.  The [Version] trait is the class [Version]; what the tree needs of
    it is the class [VersionLaws], which the three versions implement.

    BLAKE2b is the parameter [blake2b_personal], of which the development uses
    that a digest is 32 bytes.  The 256-bit work integer is that of
    [Difficulty].

    The theorem: encoding a node and reading it back gives the node and the rest
    of the input, and the encoding fits the fixed-size buffers. *)

From stdpp Require Import base numbers list option.
From Stdlib Require Import ZArith Lia.
From S2P Require Import Prelude Difficulty.
Local Open Scope Z_scope.

Module NodeData.

Definition MAX_NODE_DATA_SIZE : Z :=
  32 + 4 + 4 + 4 + 4 + 32 + 32 + 32 + 9 + 9 + 9 + 32 + 32 + 9 + 32 + 32 + 9.

(** ** Reading and writing *)

Inductive IoError := UnexpectedEof | InvalidData | InvalidInput.

(** [Read::read_exact] on a cursor *)
Definition read_exact (n : nat) (r : list Z) : res IoError (list Z * list Z) :=
  if (n <=? length r)%nat then Ok (take n r, drop n r) else Err UnexpectedEof.

Definition read_le (n : nat) (r : list Z) : res IoError (Z * list Z) :=
  let? p := read_exact n r in Ok (le_value p.1, p.2).

Definition write_compact (compact : Z) : list Z :=
  if compact <=? 252 then [compact]
  else if compact <=? 65535 then 253 :: le_bytes 2 compact
  else if compact <=? 4294967295 then 254 :: le_bytes 4 compact
  else 255 :: le_bytes 8 compact.

Definition read_compact (r : list Z) : res IoError (Z * list Z) :=
  let? p := read_le 1 r in
  if p.1 <=? 252 then Ok p
  else if p.1 =? 253 then read_le 2 p.2
  else if p.1 =? 254 then read_le 4 p.2
  else read_le 8 p.2.

(** ** The metadata *)

Record NodeData := mkNodeData {
  consensus_branch_id : Z;
  subtree_commitment : list Z;
  start_time : Z;
  end_time : Z;
  start_target : Z;
  end_target : Z;
  start_sapling_root : list Z;
  end_sapling_root : list Z;
  subtree_total_work : Z;
  start_height : Z;
  end_height : Z;
  sapling_tx : Z;
}.

Record V2 := mkV2 {
  v1 : NodeData;
  start_orchard_root : list Z;
  end_orchard_root : list Z;
  orchard_tx : Z;
}.

Record V3 := mkV3 {
  v2 : V2;
  start_ironwood_root : list Z;
  end_ironwood_root : list Z;
  ironwood_tx : Z;
}.

Section Operations.
Context {U : Difficulty.U256}.

(** [NodeData::combine_inner] *)
Definition combine_v1 {E} (hash : list Z) (left right : NodeData) : res E NodeData :=
  let? work := Difficulty.u_add (subtree_total_work left) (subtree_total_work right) in
  let? tx := uint_arith 64 (sapling_tx left + sapling_tx right) in
  Ok (mkNodeData (consensus_branch_id left) hash (start_time left) (end_time right)
        (start_target left) (end_target right) (start_sapling_root left) (end_sapling_root right)
        work (start_height left) (end_height right) tx).

Definition combine_v2 {E} (hash : list Z) (left right : V2) : res E V2 :=
  let? v1 := combine_v1 hash (v1 left) (v1 right) in
  let? tx := uint_arith 64 (orchard_tx left + orchard_tx right) in
  Ok (mkV2 v1 (start_orchard_root left) (end_orchard_root right) tx).

Definition combine_v3 {E} (hash : list Z) (left right : V3) : res E V3 :=
  let? v2 := combine_v2 hash (v2 left) (v2 right) in
  let? tx := uint_arith 64 (ironwood_tx left + ironwood_tx right) in
  Ok (mkV3 v2 (start_ironwood_root left) (end_ironwood_root right) tx).
End Operations.

Definition write_v1 (d : NodeData) : list Z :=
  subtree_commitment d ++ le_bytes 4 (start_time d) ++ le_bytes 4 (end_time d) ++
  le_bytes 4 (start_target d) ++ le_bytes 4 (end_target d) ++
  start_sapling_root d ++ end_sapling_root d ++ le_bytes 32 (subtree_total_work d) ++
  write_compact (start_height d) ++ write_compact (end_height d) ++ write_compact (sapling_tx d).

Definition read_v1 (branch : Z) (r : list Z) : res IoError (NodeData * list Z) :=
  let? commitment := read_exact 32 r in
  let? start_time := read_le 4 commitment.2 in
  let? end_time := read_le 4 start_time.2 in
  let? start_target := read_le 4 end_time.2 in
  let? end_target := read_le 4 start_target.2 in
  let? start_root := read_exact 32 end_target.2 in
  let? end_root := read_exact 32 start_root.2 in
  let? work := read_le 32 end_root.2 in
  let? start_height := read_compact work.2 in
  let? end_height := read_compact start_height.2 in
  let? tx := read_compact end_height.2 in
  Ok (mkNodeData branch commitment.1 start_time.1 end_time.1 start_target.1 end_target.1
        start_root.1 end_root.1 work.1 start_height.1 end_height.1 tx.1, tx.2).

Definition write_v2 (d : V2) : list Z :=
  write_v1 (v1 d) ++ start_orchard_root d ++ end_orchard_root d ++ write_compact (orchard_tx d).

Definition read_v2 (branch : Z) (r : list Z) : res IoError (V2 * list Z) :=
  let? v1 := read_v1 branch r in
  let? start_root := read_exact 32 v1.2 in
  let? end_root := read_exact 32 start_root.2 in
  let? tx := read_compact end_root.2 in
  Ok (mkV2 v1.1 start_root.1 end_root.1 tx.1, tx.2).

Definition write_v3 (d : V3) : list Z :=
  write_v2 (v2 d) ++ start_ironwood_root d ++ end_ironwood_root d ++ write_compact (ironwood_tx d).

Definition read_v3 (branch : Z) (r : list Z) : res IoError (V3 * list Z) :=
  let? v2 := read_v2 branch r in
  let? start_root := read_exact 32 v2.2 in
  let? end_root := read_exact 32 start_root.2 in
  let? tx := read_compact end_root.2 in
  Ok (mkV3 v2.1 start_root.1 end_root.1 tx.1, tx.2).

(** ** The trait *)

Class Version (D : Type) := {
  branch_of : D -> Z;
  start_of : D -> Z;
  end_of : D -> Z;
  combine_inner : list Z -> D -> D -> res unit D;
  read_data : Z -> list Z -> res IoError (D * list Z);
  write_data : D -> list Z;
}.

#[export] Instance version_v1 `{Difficulty.U256} : Version NodeData := {|
  branch_of := consensus_branch_id; start_of := start_height; end_of := end_height;
  combine_inner := combine_v1; read_data := read_v1; write_data := write_v1 |}.

#[export] Instance version_v2 `{Difficulty.U256} : Version V2 := {|
  branch_of d := consensus_branch_id (v1 d); start_of d := start_height (v1 d);
  end_of d := end_height (v1 d);
  combine_inner := combine_v2; read_data := read_v2; write_data := write_v2 |}.

#[export] Instance version_v3 `{Difficulty.U256} : Version V3 := {|
  branch_of d := consensus_branch_id (v1 (v2 d)); start_of d := start_height (v1 (v2 d));
  end_of d := end_height (v1 (v2 d));
  combine_inner := combine_v3; read_data := read_v3; write_data := write_v3 |}.

(** BLAKE2b-256 with a 16-byte personalization. *)
Class Blake2b := blake2b_personal : list Z -> list Z -> list Z.
Class Blake2bLaws (B : Blake2b) : Prop :=
  blake2b_length p i : length (blake2b_personal p i) = 32%nat /\ Forall is_byte (blake2b_personal p i).

(** The ASCII bytes of ["ZcashHistory"]. *)
Definition ZCASH_HISTORY : list Z := [90; 99; 97; 115; 104; 72; 105; 115; 116; 111; 114; 121].

Definition personalization (branch_id : Z) : list Z := ZCASH_HISTORY ++ le_bytes 4 branch_id.

Section Trait.
Context {D : Type} `{Version D} `{Blake2b}.

(** [Version::combine]: both nodes are written to a buffer of twice the maximum
    size *)
Definition combine {E} (left right : D) : res E D :=
  let? _ := rust_assert (branch_of left =? branch_of right) in
  let input := write_data left ++ write_data right in
  let? _ := rust_assert (Z.of_nat (length input) <=? MAX_NODE_DATA_SIZE * 2) in
  let hash := blake2b_personal (personalization (branch_of left)) input in
  expect_ok (combine_inner hash left right).

Definition to_bytes {E} (d : D) : res E (list Z) :=
  let bytes := write_data d in
  let? _ := rust_assert (Z.of_nat (length bytes) <=? MAX_NODE_DATA_SIZE) in
  Ok bytes.

Definition from_bytes (branch : Z) (buf : list Z) : res IoError D :=
  let? p := read_data branch buf in Ok p.1.

Definition hash {E} (d : D) : res E (list Z) :=
  let? bytes := to_bytes d in
  Ok (blake2b_personal (personalization (branch_of d)) bytes).
End Trait.

(** ** The contract of a version *)

(** What the tree relies on: well-formed nodes are encoded within the buffer
    size and read back; combining adjacent well-formed nodes keeps the interval
    of heights, and fails only if the transaction or work totals overflow. *)
Class VersionLaws (D : Type) `{Version D} := {
  wf_data : D -> Prop;
  txs : D -> Z;
  work : D -> Z;
  wf_totals d : wf_data d -> 0 <= txs d /\ 0 <= work d;
  wf_heights d : wf_data d -> 0 <= start_of d < 2 ^ 64 /\ 0 <= end_of d < 2 ^ 64;
  write_size d : wf_data d -> Z.of_nat (length (write_data d)) <= MAX_NODE_DATA_SIZE;
  read_write d rest : wf_data d -> read_data (branch_of d) (write_data d ++ rest) = Ok (d, rest);
  combine_inner_Ok h l r :
    length h = 32%nat -> Forall is_byte h -> wf_data l -> wf_data r ->
    txs l + txs r < 2 ^ 64 -> work l + work r < 2 ^ 256 ->
    exists d, combine_inner h l r = Ok d /\ wf_data d /\ branch_of d = branch_of l /\
      start_of d = start_of l /\ end_of d = end_of r /\ txs d = txs l + txs r /\ work d = work l + work r;
}.

Definition is_hash (h : list Z) : Prop := length h = 32%nat /\ Forall is_byte h.

Definition wf_v1 (d : NodeData) : Prop :=
  0 <= consensus_branch_id d < 2 ^ 32 /\ is_hash (subtree_commitment d) /\
  0 <= start_time d < 2 ^ 32 /\ 0 <= end_time d < 2 ^ 32 /\
  0 <= start_target d < 2 ^ 32 /\ 0 <= end_target d < 2 ^ 32 /\
  is_hash (start_sapling_root d) /\ is_hash (end_sapling_root d) /\
  Difficulty.is_u256 (subtree_total_work d) /\
  0 <= start_height d < 2 ^ 64 /\ 0 <= end_height d < 2 ^ 64 /\ 0 <= sapling_tx d < 2 ^ 64.

Definition wf_v2 (d : V2) : Prop :=
  wf_v1 (v1 d) /\ is_hash (start_orchard_root d) /\ is_hash (end_orchard_root d) /\
  0 <= orchard_tx d < 2 ^ 64.

Definition wf_v3 (d : V3) : Prop :=
  wf_v2 (v2 d) /\ is_hash (start_ironwood_root d) /\ is_hash (end_ironwood_root d) /\
  0 <= ironwood_tx d < 2 ^ 64.

(** ** Encoding *)

Lemma read_exact_app n l rest : length l = n -> read_exact n (l ++ rest) = Ok (l, rest).
Proof.
  intros <-. unfold read_exact. rewrite length_app, (proj2 (Nat.leb_le _ _)) by lia.
  by rewrite take_app_length, drop_app_length.
Qed.

Lemma read_le_bytes n z rest :
  0 <= z < 256 ^ Z.of_nat n -> read_le n (le_bytes n z ++ rest) = Ok (z, rest).
Proof.
  intros Hz. unfold read_le. rewrite read_exact_app by apply length_le_bytes.
  cbn [res_bind fst snd]. by rewrite le_value_le_bytes, Z.mod_small.
Qed.

Lemma read_le_byte b r : read_le 1 (b :: r) = Ok (b, r).
Proof.
  unfold read_le, read_exact. cbn -[Z.mul Z.add]. by rewrite drop_0, Z.mul_0_r, Z.add_0_r.
Qed.

Lemma read_write_compact z rest :
  0 <= z < 2 ^ 64 -> read_compact (write_compact z ++ rest) = Ok (z, rest).
Proof.
  intros Hz. unfold write_compact, read_compact.
  destruct (Z.leb_spec z 252) as [H1|H1].
  { cbn [app]. rewrite read_le_byte. cbn [res_bind fst]. by rewrite (proj2 (Z.leb_le z 252)). }
  destruct (Z.leb_spec z 65535); [|destruct (Z.leb_spec z 4294967295)]; cbn [app];
    rewrite read_le_byte; cbn [res_bind fst snd Z.leb Z.eqb Z.compare Pos.compare Pos.compare_cont Pos.eqb];
    apply read_le_bytes; cbn; lia.
Qed.

Lemma length_write_compact z : (length (write_compact z) <= 9)%nat.
Proof. unfold write_compact. repeat case_match; cbn [length]; rewrite ?length_le_bytes; lia. Qed.

Lemma is_hash_length h : is_hash h -> length h = 32%nat.
Proof. by intros [? _]. Qed.

(** Steps a reader over the fields it was written from. *)
Ltac read_field :=
  first [ rewrite read_exact_app by (by apply is_hash_length)
        | rewrite read_le_bytes by (cbn; unfold Difficulty.is_u256 in *; lia)
        | rewrite read_write_compact by lia ];
  cbn [res_bind fst snd].

Lemma read_write_v1 d rest :
  wf_v1 d -> read_v1 (consensus_branch_id d) (write_v1 d ++ rest) = Ok (d, rest).
Proof.
  intros (Hb & Hc & Hst & Het & Hsg & Heg & Hsr & Her & Hw & Hsh & Heh & Htx).
  unfold read_v1, write_v1. rewrite <- !app_assoc. do 11 read_field. by destruct d.
Qed.

Lemma read_write_v2 d rest :
  wf_v2 d -> read_v2 (consensus_branch_id (v1 d)) (write_v2 d ++ rest) = Ok (d, rest).
Proof.
  intros (Hv & Hs & He & Ht). unfold read_v2, write_v2. rewrite <- !app_assoc, read_write_v1 by done.
  cbn [res_bind fst snd]. do 3 read_field. by destruct d.
Qed.

Lemma read_write_v3 d rest :
  wf_v3 d -> read_v3 (consensus_branch_id (v1 (v2 d))) (write_v3 d ++ rest) = Ok (d, rest).
Proof.
  intros (Hv & Hs & He & Ht). unfold read_v3, write_v3. rewrite <- !app_assoc, read_write_v2 by done.
  cbn [res_bind fst snd]. do 3 read_field. by destruct d.
Qed.

Lemma write_v1_size d : wf_v1 d -> (length (write_v1 d) <= 171)%nat.
Proof.
  intros (_ & Hc%is_hash_length & _ & _ & _ & _ & Hsr%is_hash_length & Her%is_hash_length & _).
  unfold write_v1. rewrite !length_app, !length_le_bytes.
  pose proof (length_write_compact (start_height d)). pose proof (length_write_compact (end_height d)).
  pose proof (length_write_compact (sapling_tx d)). lia.
Qed.

Lemma write_v2_size d : wf_v2 d -> (length (write_v2 d) <= 244)%nat.
Proof.
  intros (Hv%write_v1_size & Hs%is_hash_length & He%is_hash_length & _). unfold write_v2. rewrite !length_app.
  pose proof (length_write_compact (orchard_tx d)). lia.
Qed.

Lemma write_v3_size d : wf_v3 d -> (length (write_v3 d) <= 317)%nat.
Proof.
  intros (Hv%write_v2_size & Hs%is_hash_length & He%is_hash_length & _). unfold write_v3. rewrite !length_app.
  pose proof (length_write_compact (ironwood_tx d)). lia.
Qed.

(** ** Combining *)

Section Combine.
Context {U : Difficulty.U256} {UL : Difficulty.U256Laws U}.

Lemma combine_v1_Ok {E} h l r :
  is_hash h -> wf_v1 l -> wf_v1 r ->
  sapling_tx l + sapling_tx r < 2 ^ 64 -> subtree_total_work l + subtree_total_work r < 2 ^ 256 ->
  exists d, combine_v1 (E := E) h l r = Ok d /\ wf_v1 d /\
    consensus_branch_id d = consensus_branch_id l /\ start_height d = start_height l /\
    end_height d = end_height r /\ sapling_tx d = sapling_tx l + sapling_tx r /\
    subtree_total_work d = subtree_total_work l + subtree_total_work r.
Proof.
  intros Hh Hl Hr Ht Hw. unfold combine_v1, Difficulty.u_add, wf_v1, is_hash, Difficulty.is_u256 in *.
  rewrite Difficulty.u_add_law by (unfold Difficulty.is_u256; lia).
  unfold to_uint. rewrite (proj2 (in_uint_spec _ _)) by lia. cbn [expect res_bind].
  rewrite uint_arith_Ok by lia. eexists. split; [reflexivity|]. cbn. repeat split; try lia; tauto.
Qed.

Lemma combine_v2_Ok {E} h l r :
  is_hash h -> wf_v2 l -> wf_v2 r ->
  sapling_tx (v1 l) + sapling_tx (v1 r) < 2 ^ 64 -> orchard_tx l + orchard_tx r < 2 ^ 64 ->
  subtree_total_work (v1 l) + subtree_total_work (v1 r) < 2 ^ 256 ->
  exists d v, combine_v1 (E := E) h (v1 l) (v1 r) = Ok v /\ combine_v2 (E := E) h l r = Ok d /\
    v1 d = v /\ wf_v2 d /\ orchard_tx d = orchard_tx l + orchard_tx r.
Proof.
  intros Hh (Hl & Hls & Hle & Hlt) (Hr & Hrs & Hre & Hrt) Ht Ho Hw.
  destruct (combine_v1_Ok (E := E) h (v1 l) (v1 r) Hh Hl Hr Ht Hw) as (v & Hv & Hwf & _).
  unfold combine_v2. rewrite Hv. cbn [res_bind]. rewrite uint_arith_Ok by lia.
  eexists _, v. split; [done|]. split; [reflexivity|]. split; [done|]. split; [|done].
  split; [done|]. split; [done|]. split; [done|]. cbn. lia.
Qed.

#[export] Instance laws_v1 : VersionLaws NodeData.
Proof.
  refine {| wf_data := wf_v1; txs := sapling_tx; work := subtree_total_work |}.
  - unfold wf_v1, Difficulty.is_u256. tauto.
  - unfold wf_v1. cbn. tauto.
  - intros d Hd. pose proof (write_v1_size d Hd). change MAX_NODE_DATA_SIZE with 317. cbn. lia.
  - apply read_write_v1.
  - intros h l r Hn Hb Hl Hr Ht Hw. destruct (combine_v1_Ok (E := unit) h l r (conj Hn Hb) Hl Hr Ht Hw)
      as (d & ? & ? & ? & ? & ? & ? & ?). exists d. done.
Defined.

#[export] Instance laws_v2 : VersionLaws V2.
Proof.
  refine {| wf_data := wf_v2; txs d := sapling_tx (v1 d) + orchard_tx d;
            work d := subtree_total_work (v1 d) |}.
  - unfold wf_v2, wf_v1, Difficulty.is_u256. intros d. lia.
  - unfold wf_v2, wf_v1. cbn. tauto.
  - intros d Hd. pose proof (write_v2_size d Hd). change MAX_NODE_DATA_SIZE with 317. cbn. lia.
  - apply read_write_v2.
  - intros h l r Hn Hb Hl Hr Ht Hw. pose proof Hl as (Hl1 & _ & _ & Hlo). pose proof Hr as (Hr1 & _ & _ & Hro).
    assert (sapling_tx (v1 l) + sapling_tx (v1 r) < 2 ^ 64) as Hs by lia.
    assert (orchard_tx l + orchard_tx r < 2 ^ 64) as Ho by (unfold wf_v1 in *; lia).
    destruct (combine_v2_Ok (E := unit) h l r (conj Hn Hb) Hl Hr Hs Ho Hw) as (d & v & Hv & Hd & Hvd & Hwf & Htx).
    destruct (combine_v1_Ok (E := unit) h (v1 l) (v1 r) (conj Hn Hb) Hl1 Hr1 Hs Hw)
      as (v' & Hv' & _ & ? & ? & ? & ? & ?).
    rewrite Hv in Hv'. injection Hv' as <-. subst v. exists d. split; [done|]. split; [done|]. cbn. lia.
Defined.

#[export] Instance laws_v3 : VersionLaws V3.
Proof.
  refine {| wf_data := wf_v3; txs d := sapling_tx (v1 (v2 d)) + orchard_tx (v2 d) + ironwood_tx d;
            work d := subtree_total_work (v1 (v2 d)) |}.
  - unfold wf_v3, wf_v2, wf_v1, Difficulty.is_u256. intros d. lia.
  - unfold wf_v3, wf_v2, wf_v1. cbn. tauto.
  - intros d Hd. pose proof (write_v3_size d Hd). change MAX_NODE_DATA_SIZE with 317. cbn. lia.
  - apply read_write_v3.
  - intros h l r Hn Hb (Hl & Hls & Hle & Hlt) (Hr & Hrs & Hre & Hrt) Ht Hw.
    pose proof Hl as (Hl1 & _ & _ & Hlo). pose proof Hr as (Hr1 & _ & _ & Hro).
    assert (sapling_tx (v1 (v2 l)) + sapling_tx (v1 (v2 r)) < 2 ^ 64) as Hs by lia.
    assert (orchard_tx (v2 l) + orchard_tx (v2 r) < 2 ^ 64) as Ho by (unfold wf_v1 in *; lia).
    destruct (combine_v2_Ok (E := unit) h (v2 l) (v2 r) (conj Hn Hb) Hl Hr Hs Ho Hw) as (d & v & Hv & Hd & Hvd & Hwf & Htx).
    destruct (combine_v1_Ok (E := unit) h (v1 (v2 l)) (v1 (v2 r)) (conj Hn Hb) Hl1 Hr1 Hs Hw)
      as (v' & Hv' & _ & ? & ? & ? & ? & ?).
    rewrite Hv in Hv'. injection Hv' as <-. subst v. cbn. unfold combine_v3. rewrite Hd. cbn [res_bind].
    rewrite uint_arith_Ok by (unfold wf_v1 in *; lia). eexists. split; [reflexivity|].
    split; [split; [done|]; split; [done|]; split; [done|]; cbn; unfold wf_v1 in *; lia|]. cbn. lia.
Defined.
End Combine.

(** ** Consequences of the contract *)

Section Laws.
Context {D : Type} `{!Version D} `{!VersionLaws D} {B : Blake2b}.

(** The buffer of [to_bytes] is large enough, and reading ignores what follows
    the node. *)
Lemma to_bytes_Ok {E} d : wf_data d -> to_bytes (E := E) d = Ok (write_data d).
Proof.
  intros Hd. unfold to_bytes. by rewrite (proj2 (Z.leb_le _ _) (write_size d Hd)).
Qed.

Lemma from_bytes_Ok d pad : wf_data d -> from_bytes (branch_of d) (write_data d ++ pad) = Ok d.
Proof. intros Hd. unfold from_bytes. by rewrite read_write. Qed.

Lemma hash_Ok {E} d :
  wf_data d -> hash (E := E) d = Ok (blake2b_personal (personalization (branch_of d)) (write_data d)).
Proof. intros Hd. unfold hash. by rewrite to_bytes_Ok. Qed.

Lemma combine_Ok {BL : Blake2bLaws B} {E} l r :
  wf_data l -> wf_data r -> branch_of l = branch_of r ->
  txs l + txs r < 2 ^ 64 -> work l + work r < 2 ^ 256 ->
  exists d, combine (E := E) l r = Ok d /\ wf_data d /\ branch_of d = branch_of l /\
    start_of d = start_of l /\ end_of d = end_of r /\ txs d = txs l + txs r /\ work d = work l + work r.
Proof.
  intros Hl Hr Hb Ht Hw. unfold combine. rewrite (proj2 (Z.eqb_eq _ _) Hb). cbn [rust_assert res_bind].
  pose proof (write_size l Hl). pose proof (write_size r Hr).
  rewrite (proj2 (Z.leb_le _ _)) by (rewrite length_app; lia). cbn [rust_assert res_bind].
  destruct (blake2b_length (personalization (branch_of l)) (write_data l ++ write_data r)) as [Hn Hby].
  destruct (combine_inner_Ok _ l r Hn Hby Hl Hr Ht Hw) as (d & Hd & Hrest). exists d.
  by rewrite Hd.
Qed.
End Laws.

(** What encoding and decoding promise for a node. *)
Definition codec {D} `{Version D} (d : D) : Prop :=
  exists bytes, to_bytes (E := unit) d = Ok bytes /\
    forall pad, from_bytes (branch_of d) (bytes ++ pad) = Ok d.

Lemma codec_laws {D} `{!Version D} `{!VersionLaws D} (d : D) : wf_data d -> codec d.
Proof.
  intros Hd. exists (write_data d). split; [by apply to_bytes_Ok|]. intros pad. by apply from_bytes_Ok.
Qed.

(** Node metadata of each version whose fields are within their machine
    types is encoded without exceeding [MAX_NODE_DATA_SIZE], and decoding the
    bytes, also when padding follows them, returns the same metadata. *)
Lemma node_data_roundtrip {U : Difficulty.U256} {UL : Difficulty.U256Laws U} :
  (forall d : NodeData, wf_v1 d -> codec d) /\
  (forall d : V2, wf_v2 d -> codec d) /\
  (forall d : V3, wf_v3 d -> codec d).
Proof. split; [|split]; intros d Hd; by apply (codec_laws d). Qed.

(** A stand-in digest: 32 bytes that depend on the whole input. *)
Definition toy_digest : Blake2b :=
  fun personal input => le_bytes 32 (le_value (personal ++ input) mod (2 ^ 255 - 19)).

Lemma toy_digest_laws : Blake2bLaws toy_digest.
Proof. intros p i. split; [apply length_le_bytes|apply le_bytes_is_byte]. Qed.

Definition zeros (n : nat) : list Z := replicate n 0.

Lemma zeros_hash : is_hash (zeros 32).
Proof. split; [done|]. apply Forall_replicate. unfold is_byte. lia. Qed.
End NodeData.
