(* ===== verification/Mmr.v ===== *)
(** * The Merkle mountain range

    [zakura-mmr-tree/src/entry.rs], [lib.rs] and [tree.rs]: entries and their
    encoding, and the partially loaded tree with its append and truncate
    operations.  The operations that take [&mut self] are in a monad that
    threads the tree and keeps its changes when an error is returned.

    The recursion of [get_peaks] and the loop of [truncate_leaf] follow links;
    they take fuel for 64 levels, more than the heights of a 64-bit leaf count. *)

From stdpp Require Import base numbers list option gmap.
From Stdlib Require Import ZArith Lia.
From S2P Require Import Prelude Difficulty NodeData.
Local Open Scope Z_scope.

Module Mmr.
Import NodeData.

Definition MAX_ENTRY_SIZE : Z := MAX_NODE_DATA_SIZE + 9.
Definition FUEL : nat := 64.

Inductive EntryLink := Stored (index : Z) | Generated (index : Z).

Inductive EntryKind := Leaf | Node (left right : EntryLink).

Inductive Error := ExpectedInMemory (link : EntryLink) | ExpectedNode (link : option EntryLink).

Definition node_expected : Error := ExpectedNode None.

Definition augment (self : Error) (link : EntryLink) : Error :=
  match self with ExpectedNode _ => ExpectedNode (Some link) | val => val end.

Definition is_power_of_two (n : Z) : bool := (0 <? n) && (n =? 2 ^ Z.log2 n).

Section Tree.
Context {D : Type} `{!Version D} {B : Blake2b}.

(** ** Entries *)

Record Entry := mkEntry { kind : EntryKind; data : D }.

Definition new_leaf (d : D) : Entry := mkEntry Leaf d.

Definition leaf_count {E} (self : Entry) : res E Z :=
  let? before := uint_arith 64 (start_of (data self) - 1) in
  uint_arith 64 (end_of (data self) - before).

Definition complete {E} (self : Entry) : res E bool :=
  let? n := leaf_count self in Ok (is_power_of_two n).

Definition leaf (self : Entry) : bool := match kind self with Leaf => true | Node _ _ => false end.

Definition left (self : Entry) : res Error EntryLink :=
  match kind self with Leaf => Err node_expected | Node l _ => Ok l end.

Definition right (self : Entry) : res Error EntryLink :=
  match kind self with Leaf => Err node_expected | Node _ r => Ok r end.

(** [Entry::read]: an unknown tag is an error *)
Definition entry_read (branch : Z) (r : list Z) : res IoError (Entry * list Z) :=
  let? tag := read_le 1 r in
  let? k :=
    (if tag.1 =? 0 then
       let? left := read_le 4 tag.2 in
       let? right := read_le 4 left.2 in
       Ok (Node (Stored left.1) (Stored right.1), right.2)
     else if tag.1 =? 1 then Ok (Leaf, tag.2)
     else Err InvalidData) in
  let? d := read_data branch k.2 in
  Ok (mkEntry k.1 d.1, d.2).

(** [Entry::write]: a link to a generated node cannot be written *)
Definition entry_write (self : Entry) : res IoError (list Z) :=
  match kind self with
  | Node (Stored l) (Stored r) =>
      Ok (0 :: le_bytes 4 l ++ le_bytes 4 r ++ write_data (data self))
  | Leaf => Ok (1 :: write_data (data self))
  | _ => Err InvalidData
  end.

Definition entry_from_bytes (branch : Z) (buf : list Z) : res IoError Entry :=
  let? p := entry_read branch buf in Ok p.1.

(** ** The tree *)

Record Tree := mkTree {
  stored : gmap Z Entry;
  generated : list Entry;
  stored_count : Z;
  root : EntryLink;
}.

Record IndexedNode := mkIndexed { node : Entry; link : EntryLink }.

Definition indexed_left (self : IndexedNode) : res Error EntryLink :=
  map_err (fun e => augment e (link self)) (left (node self)).

Definition indexed_right (self : IndexedNode) : res Error EntryLink :=
  map_err (fun e => augment e (link self)) (right (node self)).

Definition resolve_link (self : Tree) (link : EntryLink) : res Error IndexedNode :=
  let? node := ok_or (ExpectedInMemory link)
    (match link with
     | Generated index => generated self !! Z.to_nat index
     | Stored index => stored self !! index
     end) in
  Ok (mkIndexed node link).

Definition combine_nodes {E} (left right : IndexedNode) : res E Entry :=
  let? d := combine (data (node left)) (data (node right)) in
  Ok (mkEntry (Node (link left) (link right)) d).

(** The operations on [&mut self]. *)
Definition M (A : Type) : Type := Tree -> res Error A * Tree.

Definition ret {A} (a : A) : M A := fun self => (Ok a, self).

Definition bind {A C} (m : M A) (k : A -> M C) : M C :=
  fun self =>
    match m self with
    | (Ok a, self) => k a self
    | (Err e, self) => (Err e, self)
    | (Panic, self) => (Panic, self)
    end.

(** A computation that only reads the tree. *)
Definition reads {A} (f : Tree -> res Error A) : M A := fun self => (f self, self).
Definition set_root (r : EntryLink) : M unit :=
  fun self => (Ok (), mkTree (stored self) (generated self) (stored_count self) r).
End Tree.

Declare Scope mmr_scope.
Delimit Scope mmr_scope with mmr.
Notation "'let*' x := c 'in' k" := (bind c (fun x => k))
  (at level 10, x name, c at level 100, k at level 200,
   format "'[v' 'let*'  x  :=  c  'in' '/' k ']'") : mmr_scope.
Local Open Scope mmr_scope.

Section Operations.
Context {D : Type} `{!Version D} {B : Blake2b}.

Definition push (e : Entry (D := D)) : M EntryLink := fun self =>
  let idx := stored_count self in
  match uint_arith 32 (stored_count self + 1) with
  | Ok count => (Ok (Stored idx), mkTree (<[idx := e]> (stored self)) (generated self) count (root self))
  | Err e => (Err e, self)
  | Panic => (Panic, self)
  end.

Definition push_generated (e : Entry (D := D)) : M EntryLink := fun self =>
  let self := mkTree (stored self) (generated self ++ [e]) (stored_count self) (root self) in
  (let? index := expect (to_uint 32 (Z.of_nat (length (generated self)) - 1)) in Ok (Generated index), self).

Definition invalid : Tree (D := D) := mkTree ∅ [] 0 (Generated 0).

(** The loop of [new] over the peaks after the first. *)
Fixpoint new_loop (peaks : list (Z * Entry (D := D))) (root : EntryLink) : M EntryLink :=
  match peaks with
  | [] => ret root
  | (idx, node) :: peaks => fun self =>
      let self := mkTree (<[idx := node]> (stored self)) (generated self) (stored_count self) (Mmr.root self) in
      (let* e := reads (fun self =>
         let? l := expect_ok (resolve_link self root) in
         let? r := expect_ok (resolve_link self (Stored idx)) in
         combine_nodes l r) in
       let* root := push_generated e in
       new_loop peaks root) self
  end.

Definition new {E} (length : Z) (peaks extra : list (Z * Entry (D := D))) : res E Tree :=
  match peaks with
  | [] => Panic
  | (idx0, node0) :: rest =>
      let result := mkTree {[ idx0 := node0 ]} [] length (Mmr.root invalid) in
      let '(root, result) := new_loop rest (Stored idx0) result in
      let? root := expect_ok root in
      let stored := fold_left (fun m p => <[p.1 := p.2]> m) extra (stored result) in
      Ok (mkTree stored (generated result) (stored_count result) root)
  end.

Fixpoint get_peaks (fuel : nat) (self : Tree (D := D)) (root : EntryLink) (target : list EntryLink)
  : res Error (list EntryLink) :=
  match fuel with
  | O => Panic
  | S fuel =>
      let? root := resolve_link self root in
      let? done := complete (node root) in
      if done then Ok (target ++ [link root])
      else
        let? left := indexed_left root in
        let? right := indexed_right root in
        let? target := get_peaks fuel self left target in
        get_peaks fuel self right target
  end.

(** The merge of two peaks of equal size, if they are. *)
Definition try_merge (next_peak next_merge : EntryLink) (self : Tree (D := D))
  : res Error (option Entry) :=
  let? peak := resolve_link self next_peak in
  let? m := resolve_link self next_merge in
  let? a := leaf_count (node peak) in
  let? b := leaf_count (node m) in
  if a =? b then let? e := combine_nodes peak m in Ok (Some e) else Ok None.

(** The first loop of [append_leaf]: the peaks from right to left; the top of
    the stack is its head. *)
Fixpoint merge_loop (peaks merge_stack appended : list EntryLink)
  : M (D := D) (list EntryLink * list EntryLink) :=
  match peaks with
  | [] => ret (merge_stack, appended)
  | next_peak :: peaks =>
      match merge_stack with
      | [] => reads (fun _ => Panic)
      | next_merge :: merge_stack =>
          let* stored := reads (try_merge next_peak next_merge) in
          match stored with
          | Some stored =>
              let* link := push stored in
              merge_loop peaks (link :: merge_stack) (appended ++ [link])
          | None => merge_loop peaks (next_peak :: next_merge :: merge_stack) appended
          end
      end
  end.

(** The second loop, from left to right; also the one of [truncate_leaf]. *)
Fixpoint connect_loop (children : list EntryLink) (new_root : EntryLink) : M (D := D) EntryLink :=
  match children with
  | [] => ret new_root
  | next_child :: children =>
      let* e := reads (fun self =>
        let? l := resolve_link self new_root in
        let? r := resolve_link self next_child in
        combine_nodes l r) in
      let* new_root := push_generated e in
      connect_loop children new_root
  end.

Definition append_leaf (leaf : D) : M (list EntryLink) :=
  let* root := reads (fun self => Ok (root self)) in
  let* new_leaf_link := push (new_leaf leaf) in
  let* peaks := reads (fun self => get_peaks FUEL self root []) in
  let* merged := merge_loop (rev peaks) [new_leaf_link] [new_leaf_link] in
  match merged.1 with
  | [] => reads (fun _ => Panic)
  | new_root :: merge_stack =>
      let* new_root := connect_loop merge_stack new_root in
      let* _ := set_root new_root in
      ret merged.2
  end.

Definition pop : M (D := D) unit := fun self =>
  match uint_arith 32 (stored_count self - 1) with
  | Ok count => (Ok (), mkTree (delete count (stored self)) (generated self) count (root self))
  | Err e => (Err e, self)
  | Panic => (Panic, self)
  end.

Fixpoint pop_n (n : nat) : M (D := D) unit :=
  match n with O => ret () | S n => let* _ := pop in pop_n n end.

(** The loop down the right edge: the left siblings passed, and the number of
    nodes to remove. *)
Fixpoint right_edge (fuel : nat) (self : Tree (D := D)) (root_complete : bool) (subtree_root : EntryLink)
  (peaks : list EntryLink) (truncated : Z) : res Error (list EntryLink * Z) :=
  match fuel with
  | O => Panic
  | S fuel =>
      let? n := resolve_link self subtree_root in
      match kind (node n) with
      | Node l r =>
          let? truncated := uint_arith 32 (truncated + 1) in
          right_edge fuel self root_complete r (peaks ++ [l]) truncated
      | Leaf =>
          let? truncated := (if root_complete then uint_arith 32 (truncated + 1) else Ok truncated) in
          Ok (peaks, truncated)
      end
  end.

Definition truncate_leaf : M (D := D) Z :=
  let* head := reads (fun self =>
    let? n := resolve_link self (root self) in
    let? leaves := leaf_count (node n) in
    let? left := left (node n) in
    Ok (leaves, left)) in
  if negb (Z.land head.1 1 =? 0) then
    let* _ := pop in
    let* _ := set_root head.2 in
    ret 1
  else
    let* edge := reads (fun self =>
      let? root := resolve_link self (root self) in
      let? left := indexed_left root in
      let? right := indexed_right root in
      let? root_complete := complete (node root) in
      right_edge FUEL self root_complete right [left] 1) in
    match edge.1 with
    | [] => reads (fun _ => Panic)
    | first :: rest =>
        let* new_root := connect_loop rest first in
        let* _ := pop_n (Z.to_nat edge.2) in
        let* _ := set_root new_root in
        ret edge.2
    end.

Definition len (self : Tree (D := D)) : Z := stored_count self.

Definition root_node (self : Tree (D := D)) : res Error IndexedNode := resolve_link self (root self).

Definition is_empty (self : Tree (D := D)) : bool := stored_count self =? 0.
End Operations.
End Mmr.
