(* ===== verification/MmrFacts.v ===== *)
(** * The reference history root, and the tree that implements it

    [MmrSpec] is the Merkle mountain range of a list of leaves, defined without
    links: the leaves are cut into runs whose lengths are the powers of two of the
    binary expansion of their number, longest first; each run is a perfect binary
    tree, a mountain, whose node is the combination of its halves; and the root
    combines the mountains from left to right (ZIP-221).  Over consecutive blocks
    no combination fails: a node over a run of leaves covers exactly their interval
    of heights.

    [MmrFacts] is the refinement.  [view b s T ds]: the tree [T] of [Mmr] is the
    mountain range of the leaves [ds], consecutive blocks of branch [b] from height
    [s]; its root is bagged from stored peaks at their positions in the array
    representation.  [append_leaf] succeeds and moves from the view of [ds] to that
    of [ds ++ [d]], adding the nodes at the end of the array; [truncate_leaf]
    takes it back; and the root of a view is [history_root ds]. *)

From stdpp Require Import base numbers list option gmap sorting.
From Stdlib Require Import ZArith Lia.
From S2P Require Import Prelude Difficulty NodeData Mmr.
Local Open Scope Z_scope.

Module MmrSpec.
Import NodeData Mmr.

(** ** The definition *)

Section Spec.
Context {D : Type} `{!Version D} {B : Blake2b}.

Fixpoint merkle (h : nat) (ds : list D) : res unit D :=
  match h with
  | O => match ds with [d] => Ok d | _ => Panic end
  | S h =>
      let? l := merkle h (take (2 ^ h) ds) in
      let? r := merkle h (drop (2 ^ h) ds) in
      combine l r
  end.

(** The mountains of height at most [h], with their leaves. *)
Fixpoint mountains_from (h : nat) (ds : list D) : list (nat * list D) :=
  match h with
  | O => match ds with [] => [] | _ => [(O, ds)] end
  | S h' =>
      if (2 ^ h <=? length ds)%nat
      then (h, take (2 ^ h) ds) :: mountains_from h' (drop (2 ^ h) ds)
      else mountains_from h' ds
  end.

Definition mountains (ds : list D) : list (nat * list D) := mountains_from 31 ds.

Fixpoint bag_from (acc : D) (ms : list (nat * list D)) : res unit D :=
  match ms with
  | [] => Ok acc
  | m :: ms =>
      let? d := merkle m.1 m.2 in
      let? acc := combine acc d in
      bag_from acc ms
  end.

Definition bag (ms : list (nat * list D)) : res unit D :=
  match ms with
  | [] => Panic
  | m :: ms => let? d := merkle m.1 m.2 in bag_from d ms
  end.

Definition history_root (ds : list D) : res unit D := bag (mountains ds).
End Spec.

(** ** The cut *)

Section Cut.
Context {D : Type}.
Implicit Types (ms : list (nat * list D)).

(** Mountains below height [b], strictly falling, each with [2^h] leaves. *)
Fixpoint falling (b : nat) ms : Prop :=
  match ms with
  | [] => True
  | m :: ms => (m.1 < b)%nat /\ length m.2 = (2 ^ m.1)%nat /\ falling m.1 ms
  end.

Definition leaves ms : list D := concat ms.*2.

Lemma pow_pos h : (0 < 2 ^ h)%nat.
Proof. pose proof (Nat.pow_nonzero 2 h ltac:(lia)). lia. Qed.

Lemma falling_leaves b ms : falling b ms -> (length (leaves ms) < 2 ^ b)%nat.
Proof.
  revert b. induction ms as [|m ms IH]; intros b; cbn [falling]; [intros _; apply pow_pos|].
  intros (Hb & Hl & Hf). specialize (IH _ Hf). unfold leaves in *. cbn. rewrite length_app, Hl.
  assert (2 ^ S m.1 <= 2 ^ b)%nat by (apply Nat.pow_le_mono_r; lia). cbn in *. lia.
Qed.

(** The cut is determined by the leaves. *)
Lemma mountains_falling h ms : falling (S h) ms -> mountains_from h (leaves ms) = ms.
Proof.
  revert ms. induction h as [|h IH]; intros [|m ms] Hf.
  - done.
  - destruct Hf as (Hb & Hl & Hf). assert (m.1 = 0%nat) as Hm by lia. rewrite Hm in *.
    destruct ms as [|m' ms]; [|cbn in Hf; lia]. unfold leaves. cbn. rewrite app_nil_r.
    destruct m as [mh ml]. cbn in *. subst. destruct ml; [done|done].
  - cbn [mountains_from leaves]. unfold leaves. cbn [fmap list_fmap concat].
    rewrite (proj2 (Nat.leb_gt _ _)); [apply (IH [])|]; [done|]. apply pow_pos.
  - pose proof Hf as (Hb & Hl & Hf'). cbn [mountains_from].
    destruct (decide (m.1 = S h)) as [Hm|Hm].
    + rewrite (proj2 (Nat.leb_le _ _)).
      * unfold leaves. cbn [fmap list_fmap concat]. rewrite <- Hm, <- Hl.
        rewrite take_app_length, drop_app_length. rewrite <- (IH ms) at 2.
        { by destruct m. }
        { by rewrite <- Hm. }
      * unfold leaves. cbn [fmap list_fmap concat]. rewrite length_app, Hl, Hm. lia.
    + assert (Hf2 : falling (S h) (m :: ms)) by (split; [lia|done]).
      rewrite (proj2 (Nat.leb_gt _ _)) by (by apply falling_leaves). by apply IH.
Qed.
End Cut.

Lemma power_of_two_pow h : is_power_of_two (2 ^ Z.of_nat h) = true.
Proof.
  unfold is_power_of_two. rewrite Z.log2_pow2 by lia. rewrite Z.eqb_refl, (proj2 (Z.ltb_lt _ _)); [done|].
  apply Z.pow_pos_nonneg; lia.
Qed.

Lemma not_power_of_two h r :
  0 < r < 2 ^ Z.of_nat h -> is_power_of_two (2 ^ Z.of_nat h + r) = false.
Proof.
  intros Hr. unfold is_power_of_two.
  assert (Hlog : Z.log2 (2 ^ Z.of_nat h + r) = Z.of_nat h).
  { apply Z.log2_unique; [lia|]. rewrite Z.pow_succ_r by lia. lia. }
  rewrite Hlog, andb_false_iff. right. apply Z.eqb_neq. lia.
Qed.

Lemma pow_Z h : Z.of_nat (2 ^ h) = 2 ^ Z.of_nat h.
Proof. by rewrite Nat2Z.inj_pow. Qed.

(** ** Covering nodes *)

Section Covers.
Context {D : Type} `{!Version D} `{!VersionLaws D} {B : Blake2b} {BL : Blake2bLaws B}.

Fixpoint total (f : D -> Z) (ds : list D) : Z :=
  match ds with [] => 0 | d :: ds => f d + total f ds end.

Lemma total_concat f ds ds' : total f (ds ++ ds') = total f ds + total f ds'.
Proof. induction ds; cbn; lia. Qed.

(** Leaves of consecutive blocks of branch [b] from height [s]. *)
Fixpoint consecutive (b s : Z) (ds : list D) : Prop :=
  match ds with
  | [] => True
  | d :: ds =>
      (wf_data d /\ branch_of d = b /\ start_of d = s /\ end_of d = s) /\ consecutive b (s + 1) ds
  end.

Lemma consecutive_app b s ds ds' :
  consecutive b s (ds ++ ds') <-> consecutive b s ds /\ consecutive b (s + Z.of_nat (length ds)) ds'.
Proof.
  revert s. induction ds as [|d ds IH]; intros s; cbn [app consecutive length].
  { rewrite Z.add_0_r. tauto. }
  rewrite IH. replace (s + Z.of_nat (S (length ds))) with (s + 1 + Z.of_nat (length ds)) by lia. tauto.
Qed.

(** The totals of the leaves fit their machine types. *)
Definition fits (ds : list D) : Prop := total txs ds < 2 ^ 64 /\ total work ds < 2 ^ 256.

Lemma consecutive_totals b s ds : consecutive b s ds -> 0 <= total txs ds /\ 0 <= total work ds.
Proof.
  revert s. induction ds as [|d ds IH]; intros s; cbn; [lia|].
  intros [(Hwf%wf_totals & _) Hc]. apply IH in Hc. lia.
Qed.

(** [d] is the node of the leaves [ds] of heights [s .. s + length ds - 1]. *)
Record covers (b s : Z) (ds : list D) (d : D) : Prop := {
  covers_wf : wf_data d;
  covers_branch : branch_of d = b;
  covers_start : start_of d = s;
  covers_end : end_of d = s + Z.of_nat (length ds) - 1;
  covers_txs : txs d = total txs ds;
  covers_work : work d = total work ds;
}.

Lemma combine_any {E F} (l r d : D) : combine (E := E) l r = Ok d -> combine (E := F) l r = Ok d.
Proof.
  unfold combine. destruct (branch_of l =? branch_of r); [|done]. cbn [rust_assert res_bind].
  destruct (_ <=? _); [|done]. cbn [rust_assert res_bind]. destruct (combine_inner _ l r); cbn; [|done|done].
  by intros [= ->].
Qed.

Lemma combine_covers b s ls rs l r :
  covers b s ls l -> covers b (s + Z.of_nat (length ls)) rs r -> fits (ls ++ rs) ->
  exists d, (forall E, combine (E := E) l r = Ok d) /\ covers b s (ls ++ rs) d.
Proof.
  intros [Hlw Hlb Hls Hle Hlt Hlk] [Hrw Hrb Hrs Hre Hrt Hrk] [Ht Hw].
  rewrite total_concat in Ht, Hw.
  destruct (combine_Ok (E := unit) l r) as (d & Hd & Hwf & Hb & Hs & He & Htx & Hwk);
    [done|done|congruence|lia|lia|].
  exists d. split; [intros E; by apply (combine_any (E := unit))|].
  split; [done|congruence|congruence|..].
  - rewrite He, Hre, length_app. lia.
  - rewrite Htx, Hlt, Hrt, total_concat. done.
  - rewrite Hwk, Hlk, Hrk, total_concat. done.
Qed.

Lemma fits_app ls rs b s :
  consecutive b s (ls ++ rs) -> fits (ls ++ rs) -> fits ls /\ fits rs.
Proof.
  intros [Hl Hr]%consecutive_app [Ht Hw]. apply consecutive_totals in Hl, Hr.
  rewrite total_concat in Ht, Hw. unfold fits. lia.
Qed.

(** A perfect tree over consecutive leaves has a node, which covers them. *)
Lemma merkle_covers h b s ds :
  consecutive b s ds -> fits ds -> length ds = (2 ^ h)%nat ->
  exists d, merkle h ds = Ok d /\ covers b s ds d.
Proof.
  revert s ds. induction h as [|h IH]; intros s ds Hc Hf Hl.
  - destruct ds as [|d [|? ?]]; [done| |done]. exists d. split; [done|].
    destruct Hc as [(Hwf & Hb & Hs & He) _]. split; cbn; try done; lia.
  - cbn [merkle]. rewrite <- (take_drop (2 ^ h) ds) in Hc, Hf.
    assert (Hlt : length (take (2 ^ h) ds) = (2 ^ h)%nat) by (rewrite length_take; cbn in Hl; lia).
    destruct (fits_app _ _ _ _ Hc Hf) as [Hfl Hfr]. pose proof Hc as [Hcl Hcr]%consecutive_app.
    destruct (IH s _ Hcl Hfl Hlt) as (l & -> & Hcovl).
    destruct (IH _ _ Hcr Hfr) as (r & -> & Hcovr); [rewrite length_drop; cbn in Hl; lia|].
    destruct (combine_covers _ _ _ _ _ _ Hcovl Hcovr Hf) as (d & Hd & Hcov).
    exists d. cbn [res_bind]. rewrite Hd. split; [done|]. by rewrite take_drop in Hcov.
Qed.

Lemma leaf_count_covers {E} b s ds d k :
  covers b s ds d -> 1 <= s -> s + Z.of_nat (length ds) <= 2 ^ 64 -> ds <> [] ->
  leaf_count (E := E) (mkEntry k d) = Ok (Z.of_nat (length ds)).
Proof.
  intros [_ _ Hs He _ _] H1 H2 Hne. unfold leaf_count. cbn [data]. rewrite Hs, He.
  assert (0 < length ds)%nat by (destruct ds; [done|cbn; lia]).
  run_arith. f_equal. lia.
Qed.
End Covers.
End MmrSpec.

Module MmrFacts.
Import NodeData Mmr MmrSpec.
Local Open Scope mmr_scope.

Section Facts.
Context {D : Type} `{!Version D} `{!VersionLaws D} {B : Blake2b} {BL : Blake2bLaws B}.

(** ** Peaks *)

Record Peak := mkPeak { p_height : nat; p_leaves : list D; p_data : D; p_pos : Z }.

Definition p_link (p : Peak) : EntryLink := Stored (p_pos p).
Definition p_mountain (p : Peak) : nat * list D := (p_height p, p_leaves p).
Definition p_all (ps : list Peak) : list D := leaves (p_mountain <$> ps).

(** The nodes of a perfect tree, and of several. *)
Definition nodes (h : nat) : Z := 2 ^ (Z.of_nat h + 1) - 1.
Fixpoint node_total (ps : list Peak) : Z :=
  match ps with [] => 0 | p :: ps => nodes (p_height p) + node_total ps end.

Record peak_ok (b s off : Z) (p : Peak) : Prop := {
  peak_length : length (p_leaves p) = (2 ^ p_height p)%nat;
  peak_merkle : merkle (p_height p) (p_leaves p) = Ok (p_data p);
  peak_covers : covers b s (p_leaves p) (p_data p);
  peak_pos : p_pos p = off + nodes (p_height p) - 1;
}.

(** Peaks of falling heights below [hb], from height [s] and array offset [off]. *)
Fixpoint peaks_ok (b s off : Z) (hb : nat) (ps : list Peak) : Prop :=
  match ps with
  | [] => True
  | p :: ps =>
      (p_height p < hb)%nat /\ peak_ok b s off p /\
      peaks_ok b (s + Z.of_nat (length (p_leaves p))) (off + nodes (p_height p)) (p_height p) ps
  end.

(** The height below which a further peak may follow. *)
Definition floor_of (hb : nat) (ps : list Peak) : nat :=
  match last ps with Some p => p_height p | None => hb end.

Lemma p_all_cons p ps : p_all (p :: ps) = p_leaves p ++ p_all ps.
Proof. done. Qed.

Lemma p_all_app ps qs : p_all (ps ++ qs) = p_all ps ++ p_all qs.
Proof. induction ps; [done|]. cbn [app]. rewrite !p_all_cons, IHps. by rewrite app_assoc. Qed.

Lemma p_all_one p : p_all [p] = p_leaves p.
Proof. unfold p_all. cbn. by rewrite app_nil_r. Qed.

Lemma node_total_app ps qs : node_total (ps ++ qs) = node_total ps + node_total qs.
Proof. induction ps; cbn; lia. Qed.

Lemma peaks_ok_app b s off hb ps qs :
  peaks_ok b s off hb (ps ++ qs) <->
  peaks_ok b s off hb ps /\
  peaks_ok b (s + Z.of_nat (length (p_all ps))) (off + node_total ps) (floor_of hb ps) qs.
Proof.
  revert s off hb. induction ps as [|p ps IH]; intros s off hb; cbn [app peaks_ok node_total].
  { unfold p_all, floor_of. cbn. rewrite !Z.add_0_r. tauto. }
  rewrite IH, p_all_cons, length_app, Nat2Z.inj_add, !Z.add_assoc.
  assert (Hfl : floor_of hb (p :: ps) = floor_of (p_height p) ps) by (unfold floor_of; rewrite last_cons; by destruct (last ps)).
  rewrite Hfl. tauto.
Qed.

Lemma peaks_ok_falling b s off hb ps : peaks_ok b s off hb ps -> falling hb (p_mountain <$> ps).
Proof.
  revert s off hb. induction ps as [|p ps IH]; intros s off hb; cbn; [done|].
  intros (Hh & Hp & Hps). split; [done|]. split; [apply Hp|]. by apply (IH _ _ _ Hps).
Qed.

Lemma nodes_pos h : 1 <= nodes h.
Proof.
  unfold nodes. assert (2 ^ 1 <= 2 ^ (Z.of_nat h + 1)) by (apply Z.pow_le_mono_r; lia). lia.
Qed.

Lemma nodes_S h : nodes (S h) = 2 * nodes h + 1.
Proof.
  unfold nodes. replace (Z.of_nat (S h) + 1) with (Z.succ (Z.of_nat h + 1)) by lia.
  rewrite Z.pow_succ_r by lia. lia.
Qed.

Lemma nodes_leaves b s off p : peak_ok b s off p -> nodes (p_height p) = 2 * Z.of_nat (length (p_leaves p)) - 1.
Proof.
  intros [Hl _ _ _]. unfold nodes. rewrite Hl, pow_Z, Z.pow_add_r by lia. lia.
Qed.

Lemma node_total_bound b s off hb ps :
  peaks_ok b s off hb ps -> 0 <= node_total ps <= 2 * Z.of_nat (length (p_all ps)).
Proof.
  revert s off hb. induction ps as [|p ps IH]; intros s off hb; cbn [peaks_ok node_total]; [cbn; lia|].
  intros (_ & Hp & Hps). apply IH in Hps. rewrite p_all_cons, length_app.
  pose proof (nodes_leaves _ _ _ _ Hp). pose proof (nodes_pos (p_height p)). lia.
Qed.

Lemma peak_nonempty b s off p : peak_ok b s off p -> p_leaves p <> [].
Proof. intros [Hl _ _ _] Heq. rewrite Heq in Hl. pose proof (pow_pos (p_height p)). cbn in Hl. lia. Qed.

(** Positions are within the array. *)
Lemma peaks_pos_bound b s off hb ps p :
  peaks_ok b s off hb ps -> p ∈ ps -> 0 <= off -> 0 <= p_pos p < off + node_total ps.
Proof.
  revert s off hb. induction ps as [|q ps IH]; intros s off hb; cbn [peaks_ok node_total].
  { by intros _ ?%elem_of_nil. }
  intros (_ & Hq & Hps) Hin Hoff. pose proof (nodes_pos (p_height q)).
  pose proof (node_total_bound _ _ _ _ _ Hps). apply elem_of_cons in Hin as [->|Hin].
  - rewrite (peak_pos _ _ _ _ Hq). lia.
  - specialize (IH _ _ _ Hps Hin ltac:(lia)). lia.
Qed.

(** ** The bagged root *)

Definition stored_peak (T : Tree (D := D)) (p : Peak) : Prop :=
  exists k, stored T !! p_pos p = Some (mkEntry k (p_data p)).

Inductive bagged (T : Tree (D := D)) : EntryLink -> list Peak -> D -> Prop :=
| bagged_one p : stored_peak T p -> bagged T (p_link p) [p] (p_data p)
| bagged_snoc root ps acc p g d :
    bagged T root ps acc -> stored_peak T p ->
    generated T !! g = Some (mkEntry (Node root (p_link p)) d) ->
    (forall E, combine (E := E) acc (p_data p) = Ok d) ->
    bagged T (Generated (Z.of_nat g)) (ps ++ [p]) d.

Lemma bagged_nonempty T root ps d : bagged T root ps d -> ps <> [].
Proof. destruct 1; [done|]. by destruct ps. Qed.

Lemma resolve_peak T p : stored_peak T p ->
  exists k, resolve_link T (p_link p) = Ok (mkIndexed (mkEntry k (p_data p)) (p_link p)).
Proof. intros [k Hk]. exists k. unfold resolve_link, p_link. by rewrite Hk. Qed.

Lemma resolve_generated (T : Tree (D := D)) g e :
  generated T !! g = Some e ->
  resolve_link T (Generated (Z.of_nat g)) = Ok (mkIndexed e (Generated (Z.of_nat g))).
Proof. intros Hg. unfold resolve_link. by rewrite Nat2Z.id, Hg. Qed.

Lemma resolve_bagged T root ps d :
  bagged T root ps d -> exists k, resolve_link T root = Ok (mkIndexed (mkEntry k d) root).
Proof.
  destruct 1 as [p Hp|root ps acc p g d _ _ Hg _]; [by apply resolve_peak|].
  eexists. by apply resolve_generated.
Qed.

(** The root covers all leaves, and is the bag of the mountains. *)
Lemma bagged_covers T root ps d b s off hb :
  bagged T root ps d -> peaks_ok b s off hb ps -> consecutive b s (p_all ps) -> fits (p_all ps) ->
  covers b s (p_all ps) d.
Proof.
  intros Hb. revert hb. induction Hb as [p Hp|root ps acc p g d Hb IH Hp Hg Hd]; intros hb Hok Hc Hf.
  - destruct Hok as (_ & Hpo & _). rewrite p_all_cons. unfold p_all. cbn. rewrite app_nil_r. apply Hpo.
  - apply peaks_ok_app in Hok as [Hok (_ & Hpo & _)]. rewrite p_all_app in *.
    unfold p_all at 2 in Hc. unfold p_all at 2 in Hf. unfold p_all at 2. cbn in *. rewrite app_nil_r in *.
    destruct (fits_app _ _ _ _ Hc Hf) as [Hfl _]. apply consecutive_app in Hc as [Hcl _].
    destruct (combine_covers _ _ _ _ _ _ (IH _ Hok Hcl Hfl) (peak_covers _ _ _ _ Hpo) Hf) as (d' & Hd' & Hcov).
    specialize (Hd unit). rewrite Hd' in Hd. by injection Hd as <-.
Qed.

Lemma bag_from_snoc acc ms m a d :
  bag_from acc ms = Ok a -> merkle m.1 m.2 = Ok d -> bag_from acc (ms ++ [m]) = combine a d.
Proof.
  revert acc. induction ms as [|m' ms IH]; intros acc; cbn [bag_from app].
  - intros [= ->] ->. cbn. by destruct (combine a d).
  - destruct (merkle m'.1 m'.2) as [d'| |]; cbn [res_bind]; try done.
    destruct (combine acc d'); cbn [res_bind]; try done. apply IH.
Qed.

Lemma bagged_bag T root ps d b s off hb :
  bagged T root ps d -> peaks_ok b s off hb ps -> bag (p_mountain <$> ps) = Ok d.
Proof.
  intros Hb. revert hb. induction Hb as [p Hp|root ps acc p g d Hb IH Hp Hg Hd]; intros hb Hok.
  - destruct Hok as (_ & Hpo & _). cbn. by rewrite (peak_merkle _ _ _ _ Hpo).
  - apply peaks_ok_app in Hok as [Hok (_ & Hpo & _)]. specialize (IH _ Hok).
    apply bagged_nonempty in Hb. destruct ps as [|p0 ps]; [done|]. cbn in *.
    destruct (merkle (p_height p0) (p_leaves p0)) as [d0| |]; cbn [res_bind] in *; try done.
    rewrite fmap_app. cbn. rewrite (bag_from_snoc _ _ (p_mountain p) _ _ IH (peak_merkle _ _ _ _ Hpo)). apply Hd.
Qed.

(** ** [get_peaks] *)

Lemma complete_peak {E} b s off p k :
  peak_ok b s off p -> 1 <= s -> s + Z.of_nat (length (p_leaves p)) <= 2 ^ 31 ->
  leaf_count (E := E) (mkEntry k (p_data p)) = Ok (2 ^ Z.of_nat (p_height p)) /\
  complete (E := E) (mkEntry k (p_data p)) = Ok true.
Proof.
  intros Hp H1 H2. assert (Hl : leaf_count (E := E) (mkEntry k (p_data p)) = Ok (2 ^ Z.of_nat (p_height p))).
  { rewrite (leaf_count_covers b s (p_leaves p)); [|apply Hp|lia|lia|by apply (peak_nonempty b s off)].
    by rewrite (peak_length _ _ _ _ Hp), pow_Z. }
  split; [done|]. unfold complete. rewrite Hl. cbn [res_bind]. by rewrite power_of_two_pow.
Qed.

(** Two or more peaks do not have a power of two of leaves. *)
Lemma incomplete_bag {E} b s off hb p q ps d k :
  peaks_ok b s off hb (p :: q :: ps) -> covers b s (p_all (p :: q :: ps)) d ->
  1 <= s -> s + Z.of_nat (length (p_all (p :: q :: ps))) <= 2 ^ 31 ->
  complete (E := E) (mkEntry k d) = Ok false.
Proof.
  intros Hok Hcov H1 H2. unfold complete.
  rewrite (leaf_count_covers b s (p_all (p :: q :: ps))); [|done|done|lia|].
  2:{ rewrite p_all_cons. destruct Hok as (_ & Hp & _). pose proof (peak_nonempty _ _ _ _ Hp).
      by destruct (p_leaves p). }
  cbn [res_bind]. f_equal. rewrite p_all_cons, length_app, Nat2Z.inj_add.
  pose proof Hok as (_ & Hp & Hrest). rewrite (peak_length _ _ _ _ Hp), pow_Z. apply not_power_of_two.
  pose proof (falling_leaves _ _ (peaks_ok_falling _ _ _ _ _ Hrest)) as Hlt. unfold p_all. rewrite <- pow_Z.
  destruct Hrest as (_ & Hq & _). pose proof (peak_nonempty _ _ _ _ Hq).
  split; [|lia]. change (leaves (p_mountain <$> q :: ps)) with (p_all (q :: ps)).
  rewrite p_all_cons, length_app. destruct (p_leaves q); [done|]. cbn. lia.
Qed.

Lemma get_peaks_bagged T root ps d b s off hb fuel target :
  bagged T root ps d -> peaks_ok b s off hb ps -> consecutive b s (p_all ps) -> fits (p_all ps) ->
  1 <= s -> s + Z.of_nat (length (p_all ps)) <= 2 ^ 31 -> (length ps <= fuel)%nat ->
  get_peaks fuel T root target = Ok (target ++ (p_link <$> ps)).
Proof.
  intros Hb. revert hb fuel target. induction Hb as [p Hp|root ps acc p g d Hb IH Hp Hg Hd];
    intros hb fuel target Hok Hc Hf H1 H2 Hfuel.
  - destruct fuel as [|fuel]; [cbn in Hfuel; lia|]. destruct Hok as (_ & Hpo & _).
    destruct (resolve_peak _ _ Hp) as [k Hr]. cbn [get_peaks]. rewrite Hr. cbn [res_bind node].
    rewrite p_all_cons, length_app in H2.
    destruct (complete_peak (E := Error) b s off p k Hpo H1 ltac:(lia)) as [_ ->]. done.
  - assert (Hcov := bagged_covers _ _ _ _ _ _ _ _ (bagged_snoc _ _ _ _ _ _ _ Hb Hp Hg Hd) Hok Hc Hf).
    pose proof Hok as [Hok1 (_ & Hpo & _)]%peaks_ok_app.
    rewrite length_app in Hfuel. cbn in Hfuel. destruct fuel as [|fuel]; [lia|].
    cbn [get_peaks]. rewrite (resolve_generated _ _ _ Hg). cbn [res_bind node].
    pose proof (bagged_nonempty _ _ _ _ Hb) as Hne.
    assert (Hinc : complete (E := Error) (mkEntry (Node root (p_link p)) d) = Ok false).
    { destruct ps as [|p0 [|p1 ps]]; [done|..]; cbn [app] in *;
        [apply (incomplete_bag b s off hb p0 p [])|apply (incomplete_bag b s off hb p0 p1 (ps ++ [p]))]; done. }
    rewrite Hinc. cbn [res_bind indexed_left indexed_right left right map_err node kind].
    rewrite p_all_app in *. assert (Hp1 : p_all [p] = p_leaves p) by (unfold p_all; cbn; by rewrite app_nil_r).
    rewrite Hp1 in *. destruct (fits_app _ _ _ _ Hc Hf) as [Hfl _]. apply consecutive_app in Hc as [Hcl _].
    rewrite length_app in H2.
    rewrite (IH hb fuel target Hok1 Hcl Hfl H1) by lia. cbn [res_bind].
    destruct fuel as [|fuel]; [destruct ps; [done|cbn in Hfuel; lia]|]. cbn [get_peaks].
    destruct (resolve_peak _ _ Hp) as [k Hr]. rewrite Hr. cbn [res_bind node].
    destruct (complete_peak (E := Error) b _ _ p k Hpo) as [_ ->]; [lia|lia|].
    cbn [res_bind link]. by rewrite fmap_app, app_assoc.
Qed.

(** ** The merge loop *)

Lemma try_merge_eq b s s' off off' p m T :
  stored_peak T p -> stored_peak T m -> peak_ok b s off p -> peak_ok b s' off' m ->
  1 <= s -> s + Z.of_nat (length (p_leaves p)) <= 2 ^ 31 ->
  1 <= s' -> s' + Z.of_nat (length (p_leaves m)) <= 2 ^ 31 ->
  try_merge (p_link p) (p_link m) T =
    if decide (p_height p = p_height m)
    then let? d := combine (p_data p) (p_data m) in Ok (Some (mkEntry (Node (p_link p) (p_link m)) d))
    else Ok None.
Proof.
  intros Hp Hm Hpo Hmo H1 H2 H3 H4. unfold try_merge.
  destruct (resolve_peak _ _ Hp) as [kp ->]. destruct (resolve_peak _ _ Hm) as [km ->]. cbn [res_bind node].
  destruct (complete_peak (E := Error) _ _ _ _ kp Hpo H1 H2) as [-> _].
  destruct (complete_peak (E := Error) _ _ _ _ km Hmo H3 H4) as [-> _]. cbn [res_bind].
  destruct (decide (p_height p = p_height m)) as [->|Hne].
  - rewrite Z.eqb_refl. unfold combine_nodes. cbn [node data link]. by destruct (combine (p_data p) (p_data m)).
  - rewrite (proj2 (Z.eqb_neq _ _)); [done|]. intros Heq. apply Z.pow_inj_r in Heq; lia.
Qed.

(** Peaks above the top of the stack are only moved to it. *)
Lemma merge_loop_skip b s off hb qs q stack appended T :
  peaks_ok b s off hb (qs ++ [q]) -> Forall (stored_peak T) (qs ++ [q]) ->
  1 <= s -> s + Z.of_nat (length (p_all (qs ++ [q]))) <= 2 ^ 31 ->
  merge_loop (rev (p_link <$> qs)) (p_link q :: stack) appended T =
    (Ok ((p_link <$> qs) ++ p_link q :: stack, appended), T).
Proof.
  revert q stack. induction qs as [|q0 qs IH] using rev_ind; intros q stack Hok Hst H1 H2; [done|].
  rewrite fmap_app, rev_app_distr. cbn [fmap list_fmap rev app merge_loop].
  pose proof Hok as [Hok1 (Hlt & Hq & _)]%peaks_ok_app. pose proof Hok1 as [_ (_ & Hq0 & _)]%peaks_ok_app.
  apply Forall_app in Hst as [Hst Hstq]. inversion Hstq as [|? ? Hsq _]; subst.
  pose proof Hst as [_ Hstq0]%Forall_app. inversion Hstq0 as [|? ? Hsq0 _]; subst.
  assert (Hl : p_all ((qs ++ [q0]) ++ [q]) = (p_all qs ++ p_leaves q0) ++ p_leaves q).
  { rewrite !p_all_app, !p_all_cons. unfold p_all at 2 3. cbn. by rewrite !app_nil_r. }
  rewrite Hl, !length_app in H2.
  unfold bind at 1. unfold reads at 1.
  rewrite (try_merge_eq _ _ _ _ _ _ _ _ Hsq0 Hsq Hq0 Hq);
    [|lia|lia|lia|rewrite p_all_app, length_app, p_all_cons, length_app; unfold p_all at 2; cbn; lia].
  rewrite decide_False.
  2:{ unfold floor_of in Hlt. rewrite last_snoc in Hlt. lia. }
  rewrite IH; [by rewrite <- app_assoc|done|done|done|].
  rewrite p_all_app, p_all_cons. unfold p_all at 2. cbn. rewrite app_nil_r, length_app. lia.
Qed.

(** An entry that can be written to the array. *)
Definition writable (b : Z) (e : Entry (D := D)) : Prop :=
  wf_data (data e) /\ branch_of (data e) = b /\
  (kind e = Leaf \/ exists l r, kind e = Node (Stored l) (Stored r) /\ 0 <= l < 2 ^ 32 /\ 0 <= r < 2 ^ 32).

(** [T'] is [T] with [n] writable entries added at the end of the array. *)
Record grows (b : Z) (T T' : Tree (D := D)) (n : Z) : Prop := {
  grows_nonneg : 0 <= n;
  grows_count : stored_count T' = stored_count T + n;
  grows_old : forall i, i < stored_count T -> stored T' !! i = stored T !! i;
  grows_new : forall i, stored_count T <= i < stored_count T' ->
    exists e, stored T' !! i = Some e /\ writable b e;
  grows_generated : generated T' = generated T;
  grows_root : root T' = root T;
}.

Lemma grows_refl b T : grows b T T 0.
Proof. split; try done; lia. Qed.

Lemma grows_trans b T T1 T2 n m : grows b T T1 n -> grows b T1 T2 m -> grows b T T2 (n + m).
Proof.
  intros [Hn Hc Ho Hw Hg Hr] [Hn' Hc' Ho' Hw' Hg' Hr']. split; try congruence; try lia.
  - intros i Hi. rewrite Ho' by lia. by apply Ho.
  - intros i Hi. destruct (decide (i < stored_count T1)); [|apply Hw'; lia].
    rewrite Ho' by lia. apply Hw. lia.
Qed.

Lemma push_grows b e T :
  writable b e -> 0 <= stored_count T -> stored_count T + 1 < 2 ^ 32 ->
  exists T', push e T = (Ok (Stored (stored_count T)), T') /\ grows b T T' 1 /\
    stored T' !! stored_count T = Some e.
Proof.
  intros He H0 H1. unfold push. rewrite uint_arith_Ok by lia. eexists. split; [reflexivity|].
  split; [|apply lookup_insert_eq]. split; try done; cbn; try lia.
  - intros i Hi. apply lookup_insert_ne. lia.
  - intros i Hi. assert (i = stored_count T) as -> by lia. exists e. by rewrite lookup_insert_eq.
Qed.

Lemma stored_peak_grows b T T' n p :
  grows b T T' n -> stored_peak T p -> p_pos p < stored_count T -> stored_peak T' p.
Proof. intros Hg [k Hk] Hlt. exists k. by rewrite (grows_old _ _ _ _ Hg). Qed.

Lemma stored_peaks_grow b T T' n s off hb ps :
  grows b T T' n -> peaks_ok b s off hb ps -> 0 <= off -> off + node_total ps <= stored_count T ->
  Forall (stored_peak T) ps -> Forall (stored_peak T') ps.
Proof.
  intros Hg Hok Hoff Hle Hst. rewrite Forall_forall in *. intros p Hp.
  pose proof (peaks_pos_bound _ _ _ _ _ _ Hok Hp Hoff). apply (stored_peak_grows b T T' n); [done|by apply Hst|lia].
Qed.

(** The parent of two equal mountains. *)
Lemma merged_peak b s off p m count d :
  peak_ok b s off p -> peak_ok b (s + Z.of_nat (length (p_leaves p))) (off + nodes (p_height p)) m ->
  p_height p = p_height m -> (forall E, combine (E := E) (p_data p) (p_data m) = Ok d) ->
  covers b s (p_leaves p ++ p_leaves m) d ->
  count = off + nodes (p_height p) + nodes (p_height m) ->
  peak_ok b s off (mkPeak (S (p_height m)) (p_leaves p ++ p_leaves m) d count).
Proof.
  intros [Hpl Hpm Hpc Hpp] [Hml Hmm Hmc Hmp] Hh Hd Hcov Hcount. split; cbn [p_height p_leaves p_data p_pos].
  - rewrite length_app, Hpl, Hml, Hh. cbn. lia.
  - cbn [merkle]. rewrite Hh in Hpl, Hpm. rewrite <- Hpl, take_app_length, drop_app_length.
    rewrite Hpm, Hmm. cbn [res_bind]. apply Hd.
  - done.
  - rewrite nodes_S, Hcount, Hh. lia.
Qed.

Lemma single_peak_height b s off m :
  peak_ok b s off m -> 1 <= s -> s + Z.of_nat (length (p_leaves m)) <= 2 ^ 31 -> (p_height m < 32)%nat.
Proof.
  intros [Hl _ _ _] H1 H2. rewrite Hl, pow_Z in H2.
  assert (2 ^ Z.of_nat (p_height m) < 2 ^ 31) as Hlt by lia. apply Z.pow_lt_mono_r_iff in Hlt; lia.
Qed.

(** The right edge of a mountain is stored, with the left siblings along it. *)
Inductive edge (T : Tree (D := D)) (b : Z) : Z -> Z -> Peak -> Prop :=
| edge_leaf s off p :
    p_height p = 0%nat -> stored T !! p_pos p = Some (mkEntry Leaf (p_data p)) -> edge T b s off p
| edge_node s off p l r :
    peak_ok b s off l -> peak_ok b (s + Z.of_nat (length (p_leaves l))) (off + nodes (p_height l)) r ->
    p_height r = p_height l -> p_height p = S (p_height l) -> p_leaves p = p_leaves l ++ p_leaves r ->
    stored T !! p_pos p = Some (mkEntry (Node (p_link l) (p_link r)) (p_data p)) -> stored_peak T l ->
    edge T b (s + Z.of_nat (length (p_leaves l))) (off + nodes (p_height l)) r -> edge T b s off p.

Lemma edge_stored T b s off p : edge T b s off p -> stored_peak T p.
Proof. destruct 1; by eexists. Qed.

(** Only the array below the mountain's end matters to its edge. *)
Lemma edge_mono T T' b s off p :
  (forall i, i < off + nodes (p_height p) -> stored T' !! i = stored T !! i) ->
  peak_ok b s off p -> edge T b s off p -> edge T' b s off p.
Proof.
  intros Hold Hp He. revert Hold Hp.
  induction He as [s off p Hh Hst|s off p l r Hl Hr Hrl Hpl Hlv Hst [k Hsl] He IH]; intros Hold Hp.
  - apply edge_leaf; [done|]. rewrite Hold; [done|]. rewrite (peak_pos _ _ _ _ Hp). lia.
  - rewrite Hpl, nodes_S in Hold. pose proof (nodes_pos (p_height l)).
    apply (edge_node _ _ _ _ _ l r); try done.
    + rewrite Hold; [done|]. rewrite (peak_pos _ _ _ _ Hp), Hpl, nodes_S. lia.
    + exists k. rewrite Hold; [done|]. rewrite (peak_pos _ _ _ _ Hl). lia.
    + apply IH; [|done]. intros i Hi. apply Hold. rewrite Hrl in Hi. lia.
Qed.

(** One round of the merge: a peak of the same height is merged into the carry. *)
Lemma merge_loop_step b s ps p m appended T :
  peaks_ok b s 0 32 (ps ++ [p]) ->
  peak_ok b (s + Z.of_nat (length (p_all (ps ++ [p])))) (node_total (ps ++ [p])) m -> p_height p = p_height m ->
  consecutive b s (p_all (ps ++ [p]) ++ p_leaves m) -> fits (p_all (ps ++ [p]) ++ p_leaves m) -> stored_peak T p ->
  edge T b (s + Z.of_nat (length (p_all (ps ++ [p])))) (node_total (ps ++ [p])) m ->
  stored_count T = node_total (ps ++ [p]) + nodes (p_height m) ->
  1 <= s -> s + Z.of_nat (length (p_all (ps ++ [p]) ++ p_leaves m)) <= 2 ^ 31 ->
  exists d T1,
    let m1 := mkPeak (S (p_height m)) (p_leaves p ++ p_leaves m) d (stored_count T) in
    merge_loop (rev (p_link <$> ps ++ [p])) [p_link m] appended T =
      merge_loop (rev (p_link <$> ps)) [p_link m1] (appended ++ [Stored (stored_count T)]) T1 /\
    peak_ok b (s + Z.of_nat (length (p_all ps))) (node_total ps) m1 /\ grows b T T1 1 /\
    edge T1 b (s + Z.of_nat (length (p_all ps))) (node_total ps) m1.
Proof.
  intros Hok Hm Heq Hc Hf Hsp Hedge Hcount H1 H2. pose proof (edge_stored _ _ _ _ _ Hedge) as Hsm.
  pose proof Hok as [Hok1 (Hph & Hpo & _)]%peaks_ok_app. rewrite p_all_app, p_all_one in *.
  rewrite node_total_app in *. cbn [node_total] in *. rewrite Z.add_0_r in *.
  rewrite length_app, Nat2Z.inj_add, Z.add_assoc in Hm, Hedge. rewrite !length_app in H2.
  rewrite <- app_assoc in Hc, Hf. destruct (fits_app _ _ _ _ Hc Hf) as [_ Hf2].
  destruct (combine_covers _ _ _ _ _ _ (peak_covers _ _ _ _ Hpo) (peak_covers _ _ _ _ Hm) Hf2) as (d & Hd & Hcov).
  pose proof (merged_peak _ _ _ _ _ _ d Hpo Hm Heq Hd Hcov Hcount) as Hpm.
  pose proof (node_total_bound _ _ _ _ _ Hok1) as Hnb.
  pose proof (nodes_leaves _ _ _ _ Hpo) as Hnp. pose proof (nodes_leaves _ _ _ _ Hm) as Hnm.
  pose proof (nodes_pos (p_height p)). pose proof (nodes_pos (p_height m)).
  destruct (push_grows b (mkEntry (Node (p_link p) (p_link m)) d) T) as (T1 & Hpush & Hg & He1).
  { split; [apply Hcov|]. split; [apply Hcov|]. right. exists (p_pos p), (p_pos m). split; [done|].
    rewrite (peak_pos _ _ _ _ Hpo), (peak_pos _ _ _ _ Hm). lia. }
  1,2: lia.
  exists d, T1. cbn zeta. split; [|split; [done|split; [done|]]].
  - rewrite fmap_app, rev_app_distr. cbn [fmap list_fmap rev app merge_loop]. unfold bind at 1. unfold reads at 1.
    rewrite (try_merge_eq _ _ _ _ _ _ _ _ Hsp Hsm Hpo Hm) by lia.
    rewrite decide_True by done. rewrite Hd. cbn [res_bind]. unfold bind at 1. by rewrite Hpush.
  - apply (edge_node _ _ _ _ _ p m); try done; cbn [p_height p_leaves p_pos p_data].
    + by rewrite Heq.
    + destruct Hsp as [k Hk]. exists k. rewrite (grows_old _ _ _ _ Hg); [done|]. rewrite (peak_pos _ _ _ _ Hpo). lia.
    + apply (edge_mono T T1); [|done|done]. intros i Hi. apply (grows_old _ _ _ _ Hg). lia.
Qed.

(** The last round: a higher peak ends the merge. *)
Lemma merge_loop_stop b s ps p m appended T :
  peaks_ok b s 0 32 (ps ++ [p]) ->
  peak_ok b (s + Z.of_nat (length (p_all (ps ++ [p])))) (node_total (ps ++ [p])) m -> (p_height m < p_height p)%nat ->
  Forall (stored_peak T) (ps ++ [p]) -> stored_peak T m ->
  1 <= s -> s + Z.of_nat (length (p_all (ps ++ [p]) ++ p_leaves m)) <= 2 ^ 31 ->
  merge_loop (rev (p_link <$> ps ++ [p])) [p_link m] appended T =
    (Ok ((p_link <$> ps ++ [p]) ++ [p_link m], appended), T) /\
  peaks_ok b s 0 32 ((ps ++ [p]) ++ [m]).
Proof.
  intros Hok Hm Hlt Hst Hsm H1 H2. pose proof Hok as [Hok1 (_ & Hpo & _)]%peaks_ok_app.
  apply Forall_app in Hst as [Hst Hstp]. inversion Hstp as [|? ? Hsp _]; subst. split.
  - rewrite p_all_app, p_all_one in *. rewrite node_total_app in *. cbn [node_total] in *. rewrite Z.add_0_r in *.
    rewrite length_app, Nat2Z.inj_add, Z.add_assoc in Hm. rewrite !length_app in H2.
    rewrite fmap_app, rev_app_distr. cbn [fmap list_fmap rev app merge_loop]. unfold bind at 1. unfold reads at 1.
    rewrite (try_merge_eq _ _ _ _ _ _ _ _ Hsp Hsm Hpo Hm) by lia. rewrite decide_False by lia.
    rewrite (merge_loop_skip b s 0 32); [by rewrite <- app_assoc|done|by apply Forall_app|done|].
    rewrite p_all_app, p_all_one, length_app. lia.
  - apply peaks_ok_app. split; [done|]. cbn. unfold floor_of. rewrite last_snoc. by split; [lia|].
Qed.

Lemma merge_loop_carry b s ps m appended T :
  peaks_ok b s 0 32 ps ->
  peak_ok b (s + Z.of_nat (length (p_all ps))) (node_total ps) m ->
  (p_height m <= floor_of 32 ps)%nat ->
  consecutive b s (p_all ps ++ p_leaves m) -> fits (p_all ps ++ p_leaves m) ->
  Forall (stored_peak T) ps -> edge T b (s + Z.of_nat (length (p_all ps))) (node_total ps) m ->
  stored_count T = node_total ps + nodes (p_height m) ->
  1 <= s -> s + Z.of_nat (length (p_all ps ++ p_leaves m)) <= 2 ^ 31 ->
  exists ps' m' T' n,
    merge_loop (rev (p_link <$> ps)) [p_link m] appended T =
      (Ok ((p_link <$> ps') ++ [p_link m'], appended ++ (Stored <$> seqZ (stored_count T) n)), T') /\
    peaks_ok b s 0 32 (ps' ++ [m']) /\ p_all (ps' ++ [m']) = p_all ps ++ p_leaves m /\
    Forall (stored_peak T') (ps' ++ [m']) /\ stored_count T' = node_total (ps' ++ [m']) /\
    grows b T T' n /\ edge T' b (s + Z.of_nat (length (p_all ps'))) (node_total ps') m'.
Proof.
  revert m appended T. induction ps as [|p ps IH] using rev_ind; intros m appended T Hok Hm Hfl Hc Hf Hst Hedge Hcount H1 H2.
  - exists [], m, T, 0. cbn in Hm, Hcount, H2 |- *. rewrite app_nil_r. split; [done|].
    split; [split; [|by split; [rewrite Z.add_0_r in Hm|]]|].
    { by apply (single_peak_height _ _ _ _ Hm); lia. }
    split; [apply p_all_one|]. split; [constructor; [apply (edge_stored _ _ _ _ _ Hedge)|done]|]. split; [lia|].
    split; [apply grows_refl|done].
  - pose proof (edge_stored _ _ _ _ _ Hedge) as Hsm. unfold floor_of in Hfl. rewrite last_snoc in Hfl.
    destruct (decide (p_height p = p_height m)) as [Heq|Hne].
    + apply Forall_app in Hst as [Hst Hstp]. inversion Hstp as [|? ? Hsp _]; subst.
      destruct (merge_loop_step b s ps p m appended T) as (d & T1 & Hstep & Hpm & Hg & He1); [done..|].
      pose proof Hok as [Hok1 _]%peaks_ok_app. pose proof (node_total_bound _ _ _ _ _ Hok1) as Hnb.
      rewrite p_all_app, p_all_one, <- app_assoc in *. rewrite node_total_app in Hcount. cbn [node_total] in Hcount.
      rewrite !length_app in H2. pose proof (nodes_pos (p_height p)). pose proof (nodes_pos (p_height m)).
      destruct (IH (mkPeak (S (p_height m)) (p_leaves p ++ p_leaves m) d (stored_count T))
        (appended ++ [Stored (stored_count T)]) T1) as (ps' & m' & T' & n & Hml & Hok' & Hall & Hst' & Hct & Hg' & Hed');
        try done.
      * cbn [p_height]. rewrite <- Heq. apply peaks_ok_app in Hok as [_ (? & _)]. lia.
      * apply (stored_peaks_grow b T T1 1 s 0 32); [done|done|lia|lia|done].
      * rewrite (grows_count _ _ _ _ Hg). cbn [p_height]. rewrite nodes_S, Hcount, Heq. lia.
      * cbn [p_leaves]. rewrite !length_app. lia.
      * exists ps', m', T', (1 + n). split; [|split; [done|split; [done|split; [done|split; [done|]]]]].
        -- rewrite Hstep, Hml, (grows_count _ _ _ _ Hg).
           rewrite (seqZ_app _ 1 n) by (pose proof (grows_nonneg _ _ _ _ Hg'); lia). by rewrite fmap_app, app_assoc.
        -- by split; [apply (grows_trans _ _ T1)|].
    + destruct (merge_loop_stop b s ps p m appended T) as [Hstop Hok']; [done|done|lia|done|done|done|done|].
      exists (ps ++ [p]), m, T, 0. change (seqZ (stored_count T) 0) with (@nil Z). cbn [fmap list_fmap].
      rewrite app_nil_r, p_all_app, p_all_one, node_total_app. cbn [node_total].
      split; [exact Hstop|]. split; [done|]. split; [done|]. split; [apply Forall_app; by split; [|constructor]|]. split; [lia|].
      by split; [apply grows_refl|].
Qed.

(** ** Connecting the peaks *)

(** [T'] is [T] with [n] more generated nodes. *)
Record regenerates (T T' : Tree (D := D)) (n : nat) : Prop := {
  regen_stored : stored T' = stored T;
  regen_count : stored_count T' = stored_count T;
  regen_root : root T' = root T;
  regen_prefix : exists l, generated T' = generated T ++ l /\ length l = n;
}.

Lemma bagged_mono T T' r ps d :
  stored T' = stored T -> (exists l, generated T' = generated T ++ l) ->
  bagged T r ps d -> bagged T' r ps d.
Proof.
  intros Hs (l & Hl). induction 1 as [p [k Hp]|r ps acc p g d Hb IH [k Hp] Hg Hd].
  - constructor. exists k. by rewrite Hs.
  - econstructor; [done| |by rewrite Hl; apply lookup_app_l_Some|done]. exists k. by rewrite Hs.
Qed.

Lemma connect_loop_bagged b s off hb qs ps r acc T :
  bagged T r ps acc -> peaks_ok b s off hb (ps ++ qs) ->
  consecutive b s (p_all (ps ++ qs)) -> fits (p_all (ps ++ qs)) ->
  Forall (stored_peak T) qs -> Z.of_nat (length (generated T)) + Z.of_nat (length qs) < 2 ^ 32 ->
  exists r' d T', connect_loop (p_link <$> qs) r T = (Ok r', T') /\
    bagged T' r' (ps ++ qs) d /\ regenerates T T' (length qs).
Proof.
  revert ps r acc T. induction qs as [|q qs IH]; intros ps r acc T Hb Hok Hc Hf Hst Hlen.
  - exists r, acc, T. rewrite app_nil_r. split; [done|]. split; [done|]. split; try done.
    exists []. by rewrite app_nil_r.
  - inversion Hst as [|? ? Hsq Hst']; subst. cbn [fmap list_fmap connect_loop length] in *.
    replace (ps ++ q :: qs) with ((ps ++ [q]) ++ qs) in * by (by rewrite <- app_assoc).
    pose proof Hok as [Hok1 _]%peaks_ok_app. pose proof Hok1 as [Hokp (_ & Hq & _)]%peaks_ok_app.
    rewrite p_all_app in Hc, Hf. destruct (fits_app _ _ _ _ Hc Hf) as [Hf1 _].
    pose proof Hc as [Hc1 _]%consecutive_app. rewrite p_all_app, p_all_one in Hc1, Hf1.
    destruct (fits_app _ _ _ _ Hc1 Hf1) as [Hfp _]. pose proof Hc1 as [Hcp _]%consecutive_app.
    pose proof (bagged_covers _ _ _ _ _ _ _ _ Hb Hokp Hcp Hfp) as Hcov.
    destruct (combine_covers _ _ _ _ _ _ Hcov (peak_covers _ _ _ _ Hq) Hf1) as (d & Hd & _).
    destruct (resolve_bagged _ _ _ _ Hb) as [k Hr]. destruct (resolve_peak _ _ Hsq) as [kq Hrq].
    set (e := mkEntry (Node r (p_link q)) d).
    set (T1 := mkTree (stored T) (generated T ++ [e]) (stored_count T) (root T)).
    assert (Hreg : regenerates T T1 1) by (split; try done; by exists [e]).
    unfold bind at 1. unfold reads at 1. rewrite Hr, Hrq. unfold combine_nodes. cbn [res_bind node data link].
    rewrite Hd. cbn [res_bind]. fold e. unfold bind at 1. unfold push_generated. cbn zeta. fold T1.
    assert (Hidx : Z.of_nat (length (generated T1)) - 1 = Z.of_nat (length (generated T))).
    { cbn. rewrite length_app. cbn. lia. }
    rewrite Hidx. unfold to_uint. rewrite (proj2 (in_uint_spec _ _)) by lia. cbn [expect res_bind].
    destruct (IH (ps ++ [q]) (Generated (Z.of_nat (length (generated T)))) d T1) as (r' & d' & T' & -> & Hb' & Hreg').
    + apply (bagged_snoc _ r ps acc); [apply (bagged_mono T); [done|by exists [e]|done]|by destruct Hsq as [kk ?]; exists kk| |done].
      cbn. by rewrite lookup_app_r, Nat.sub_diag by lia.
    + done.
    + by rewrite p_all_app.
    + by rewrite p_all_app.
    + done.
    + cbn. rewrite length_app. cbn. lia.
    + exists r', d', T'. split; [done|]. split; [done|].
      destruct Hreg as [Hs1 Hc2 Hr1 (l1 & Hl1 & Hn1)], Hreg' as [Hs2 Hc3 Hr2 (l2 & Hl2 & Hn2)].
      split; try congruence. exists (l1 ++ l2). rewrite Hl2, Hl1, app_assoc, length_app. split; [done|lia].
Qed.

(** ** The view *)

Definition view (b s : Z) (T : Tree (D := D)) (ds : list D) : Prop :=
  exists ps d, peaks_ok b s 0 32 ps /\ p_all ps = ds /\ bagged T (root T) ps d /\
    stored_count T = node_total ps.

(** Consecutive blocks whose heights and totals are within their types. *)
Definition chain_of (b s : Z) (ds : list D) : Prop :=
  consecutive b s ds /\ fits ds /\ 1 <= s /\ s + Z.of_nat (length ds) <= 2 ^ 31.

Lemma chain_of_app b s ds ds' : chain_of b s (ds ++ ds') -> chain_of b s ds.
Proof.
  intros (Hc & Hf & H1 & H2). rewrite length_app in H2. destruct (fits_app _ _ _ _ Hc Hf) as [Hf1 _].
  apply consecutive_app in Hc as [Hc _]. repeat split; try done; try lia; apply Hf1.
Qed.

(** The root of a view is the reference root of its leaves. *)
Lemma view_root b s T ds :
  view b s T ds -> exists k d, root_node T = Ok (mkIndexed (mkEntry k d) (root T)) /\ history_root ds = Ok d.
Proof.
  intros (ps & d & Hok & <- & Hb & _). destruct (resolve_bagged _ _ _ _ Hb) as [k Hr].
  exists k, d. split; [done|]. unfold history_root, mountains.
  unfold p_all. rewrite mountains_falling; [by apply (bagged_bag _ _ _ _ _ _ _ _ Hb Hok)|].
  by apply (peaks_ok_falling b s 0).
Qed.

Lemma bagged_stored T r ps d : bagged T r ps d -> Forall (stored_peak T) ps.
Proof.
  induction 1 as [p Hp|r ps acc p g d _ IH Hp _ _]; [by constructor|].
  apply Forall_app. split; [done|by constructor].
Qed.

Lemma falling_length {A} b (ms : list (nat * list A)) : falling b ms -> (length ms <= b)%nat.
Proof.
  revert b. induction ms as [|m ms IH]; intros b; cbn; [lia|]. intros (? & _ & ?%IH). lia.
Qed.

(** ** Appending *)

Lemma bagged_grows b s off hb T T' n r ps d :
  grows b T T' n -> peaks_ok b s off hb ps -> 0 <= off -> off + node_total ps <= stored_count T ->
  bagged T r ps d -> bagged T' r ps d.
Proof.
  intros Hg Hok Hoff Hle Hb. revert Hok Hle.
  induction Hb as [p Hp|r ps acc p g d Hb IH Hp Hgen Hd]; intros Hok Hle.
  - constructor. pose proof (stored_peaks_grow _ _ _ _ _ _ _ [p] Hg Hok Hoff Hle) as Hf.
    specialize (Hf ltac:(by constructor)). by inversion Hf.
  - pose proof (stored_peaks_grow _ _ _ _ _ _ _ _ Hg Hok Hoff Hle) as Hf.
    pose proof Hok as [Hok1 _]%peaks_ok_app. rewrite node_total_app in Hle. cbn in Hle.
    pose proof (nodes_pos (p_height p)).
    apply (bagged_snoc _ r ps acc); [apply IH; [done|lia]| |by rewrite (grows_generated _ _ _ _ Hg)|done].
    specialize (Hf ltac:(apply Forall_app; split; [by apply (bagged_stored _ r _ acc)|by constructor])).
    apply Forall_app in Hf as [_ Hf]. by inversion Hf.
Qed.

(** What appending does to the array: [n] writable entries at its end. *)
Definition array_grows (b : Z) (T T' : Tree (D := D)) (n : Z) : Prop :=
  stored_count T' = stored_count T + n /\
  (forall i, i < stored_count T -> stored T' !! i = stored T !! i) /\
  (forall i, stored_count T <= i < stored_count T' -> exists e, stored T' !! i = Some e /\ writable b e).

(** Connecting stored peaks into a new root. *)
Lemma connect_view b s qs T :
  peaks_ok b s 0 32 qs -> chain_of b s (p_all qs) -> Forall (stored_peak T) qs -> qs <> [] ->
  stored_count T = node_total qs -> Z.of_nat (length (generated T)) + 32 < 2 ^ 32 ->
  exists first rest r T', p_link <$> qs = first :: rest /\ connect_loop rest first T = (Ok r, T') /\
    (exists d, bagged (set_root r T').2 r qs d) /\ stored T' = stored T /\ stored_count T' = stored_count T /\
    (length (generated T') <= length (generated T) + 32)%nat.
Proof.
  intros Hok (Hc & Hf & H1 & H2) Hst Hne Hcount Hlen. destruct qs as [|q qs]; [done|].
  exists (p_link q), (p_link <$> qs). inversion Hst as [|? ? Hsq Hst']; subst.
  pose proof (falling_length _ _ (peaks_ok_falling _ _ _ _ _ Hok)) as Hl. rewrite length_fmap in Hl. cbn in Hl.
  destruct (connect_loop_bagged b s 0 32 qs [q] (p_link q) (p_data q) T) as (r & d & T' & Hcl & Hb & Hreg);
    [by constructor|done|done|done|done|lia|].
  destruct Hreg as [Hs Hct Hrt (l & Hg & Hlg)].
  exists r, T'. split; [done|]. split; [done|]. split; [|split; [done|split; [done|rewrite Hg, length_app; lia]]].
  exists d. apply (bagged_mono T'); [done| |done]. exists []. by rewrite app_nil_r.
Qed.

(** A view whose last mountain has its right edge loaded. *)
Definition view_edge (b s : Z) (T : Tree (D := D)) (ds : list D) : Prop :=
  exists ps m d, peaks_ok b s 0 32 (ps ++ [m]) /\ p_all (ps ++ [m]) = ds /\
    bagged T (root T) (ps ++ [m]) d /\ stored_count T = node_total (ps ++ [m]) /\
    edge T b (s + Z.of_nat (length (p_all ps))) (node_total ps) m.

Lemma view_edge_view b s T ds : view_edge b s T ds -> view b s T ds.
Proof. intros (ps & m & d & Hok & Hall & Hb & Hc & _). by exists (ps ++ [m]), d. Qed.

(** The leaf that follows the peaks [ps], as a peak of its own. *)
Lemma leaf_peak_ok b s ps d pos :
  consecutive b s (p_all ps ++ [d]) -> pos = node_total ps ->
  wf_data d /\ branch_of d = b /\
  peak_ok b (s + Z.of_nat (length (p_all ps))) (node_total ps) (mkPeak 0 [d] d pos).
Proof.
  intros [_ [(Hw & Hbr & Hs & He) _]]%consecutive_app ->. split; [done|]. split; [done|].
  split; cbn [p_height p_leaves p_data p_pos].
  - done.
  - done.
  - split; cbn; try done; lia.
  - change (nodes 0) with 1. lia.
Qed.

Lemma append_leaf_view b s T ds d :
  view b s T ds -> chain_of b s (ds ++ [d]) -> Z.of_nat (length (generated T)) + 32 < 2 ^ 32 ->
  exists n T', append_leaf d T = (Ok (Stored <$> seqZ (stored_count T) n), T') /\ 1 <= n /\
    view_edge b s T' (ds ++ [d]) /\ array_grows b T T' n /\
    (length (generated T') <= length (generated T) + 32)%nat.
Proof.
  intros (ps & acc & Hok & <- & Hb & Hcount) Hchain Hlen.
  pose proof (chain_of_app _ _ _ _ Hchain) as (Hcp & Hfp & _ & _). destruct Hchain as (Hc & Hf & H1 & H2).
  rewrite length_app in H2. cbn in H2.
  pose proof (node_total_bound _ _ _ _ _ Hok) as Hnb.
  destruct (leaf_peak_ok b s ps d (stored_count T) Hc Hcount) as (Hw & Hbr & Hm0).
  destruct (push_grows b (new_leaf d) T) as (T1 & Hpush & Hg1 & He1); [by split; [|split; [|left]]|lia|lia|].
  assert (Hb1 : bagged T1 (root T) ps acc) by (apply (bagged_grows b s 0 32 T T1 1); [done|done|lia|lia|done]).
  set (m0 := mkPeak 0 [d] d (stored_count T)) in *.
  destruct (merge_loop_carry b s ps m0 [Stored (stored_count T)] T1) as
    (ps' & m' & T2 & n & Hml & Hok' & Hall & Hst' & Hct2 & Hg2 & Hedge); [done|done|cbn; lia|done|done|..].
  { apply (stored_peaks_grow b T T1 1 s 0 32); [done|done|lia|lia|by apply (bagged_stored _ (root T) _ acc)]. }
  { by apply edge_leaf. }
  { rewrite (grows_count _ _ _ _ Hg1). cbn. change (nodes 0) with 1. lia. }
  { done. }
  { rewrite length_app. cbn. lia. }
  pose proof (grows_trans _ _ _ _ _ _ Hg1 Hg2) as [Hn Hct Hold Hnew Hgen Hrt].
  destruct (connect_view b s (ps' ++ [m']) T2) as (first & rest & r & T3 & Hlinks & Hcl & [dr Hv] & Hs3 & Hc3 & Hl3);
    [done|rewrite Hall; repeat split; try done; try apply Hf; rewrite length_app; cbn; lia|done|by destruct ps'|done|
     rewrite Hgen; lia|].
  exists (1 + n), (set_root r T3).2. split; [|split; [|split; [|split]]].
  - unfold append_leaf. unfold bind at 1. unfold reads at 1. unfold bind at 1. rewrite Hpush.
    unfold bind at 1. unfold reads at 1.
    rewrite (get_peaks_bagged T1 (root T) ps acc b s 0 32 FUEL []);
      [|done|done|done|done|done|lia|pose proof (falling_length _ _ (peaks_ok_falling _ _ _ _ _ Hok)) as Hfl;
        rewrite length_fmap in Hfl; unfold FUEL; lia].
    cbn [app]. unfold bind at 1. change (Stored (stored_count T)) with (p_link m0) at 1. rewrite Hml.
    cbn [fst snd]. rewrite fmap_app in Hlinks. cbn [fmap list_fmap] in Hlinks. rewrite Hlinks.
    unfold bind at 1. rewrite Hcl. unfold bind at 1. cbn [set_root snd ret].
    rewrite (seqZ_app _ 1 n) by (pose proof (grows_nonneg _ _ _ _ Hg2); lia).
    by rewrite fmap_app, (grows_count _ _ _ _ Hg1).
  - pose proof (grows_nonneg _ _ _ _ Hg2). lia.
  - exists ps', m', dr. split; [done|]. split; [done|]. split; [done|]. split; [by cbn; rewrite Hc3|].
    pose proof Hok' as [_ (_ & Hm' & _)]%peaks_ok_app. rewrite Z.add_0_l in Hm'.
    apply (edge_mono T2); [|done|done]. intros i _. cbn. by rewrite Hs3.
  - split; [cbn; lia|]. cbn. rewrite Hs3, Hc3. done.
  - cbn. rewrite <- Hgen. done.
Qed.

(** ** Loading a tree from its peaks *)

(** The entry of a peak at its position. *)
Definition loads (p : Peak) (x : Z * Entry (D := D)) : Prop :=
  exists k, x = (p_pos p, mkEntry k (p_data p)).

Definition with_stored (T : Tree (D := D)) (i : Z) (e : Entry) : Tree :=
  mkTree (<[i := e]> (stored T)) (generated T) (stored_count T) (root T).

Lemma bagged_with_stored T i e r ps d :
  (forall p, p ∈ ps -> p_pos p <> i) -> bagged T r ps d -> bagged (with_stored T i e) r ps d.
Proof.
  intros Hne Hb. induction Hb as [p [k Hp]|r ps acc p g d Hb IH [k Hp] Hg Hd].
  - constructor. exists k. cbn. rewrite lookup_insert_ne; [done|].
    intros ->. by apply (Hne p); [left|].
  - econstructor; [apply IH| |done|done].
    + intros q Hq. apply Hne. apply elem_of_app. by left.
    + exists k. cbn. rewrite lookup_insert_ne; [done|]. intros ->.
      apply (Hne p); [|done]. apply elem_of_app. right. by left.
Qed.

Lemma new_loop_bagged b s hb qs es ps r acc T :
  Forall2 loads qs es ->
  bagged T r ps acc -> peaks_ok b s 0 hb (ps ++ qs) ->
  consecutive b s (p_all (ps ++ qs)) -> fits (p_all (ps ++ qs)) ->
  Z.of_nat (length (generated T)) + Z.of_nat (length qs) < 2 ^ 32 ->
  exists r' d T', new_loop es r T = (Ok r', T') /\ bagged T' r' (ps ++ qs) d /\
    stored_count T' = stored_count T /\ length (generated T') = (length (generated T) + length qs)%nat.
Proof.
  intros Hes. revert ps r acc T. induction Hes as [|q x qs es [k ->] Hes IH]; intros ps r acc T Hb Hok Hc Hf Hlen.
  - exists r, acc, T. rewrite app_nil_r. split; [done|]. split; [done|]. split; [done|]. cbn. lia.
  - cbn [new_loop length] in *. replace (ps ++ q :: qs) with ((ps ++ [q]) ++ qs) in * by (by rewrite <- app_assoc).
    pose proof Hok as [Hok1 _]%peaks_ok_app.
    rewrite p_all_app in Hc, Hf. destruct (fits_app _ _ _ _ Hc Hf) as [Hf1 _]. pose proof Hc as [Hc1 _]%consecutive_app.
    fold (with_stored T (p_pos q) (mkEntry k (p_data q))). set (T1 := with_stored T (p_pos q) (mkEntry k (p_data q))).
    assert (Hb1 : bagged T1 r ps acc).
    { apply bagged_with_stored; [|done]. intros p Hp. pose proof Hok1 as [Hokp (_ & Hq & _)]%peaks_ok_app.
      pose proof (peaks_pos_bound _ _ _ _ _ _ Hokp Hp ltac:(lia)).
      rewrite (peak_pos _ _ _ _ Hq). pose proof (nodes_pos (p_height q)). lia. }
    assert (Hsq : stored_peak T1 q) by (exists k; apply lookup_insert_eq).
    destruct (connect_loop_bagged b s 0 hb [q] ps r acc T1) as (r1 & d1 & T2 & Hcl & Hb2 & Hreg);
      [done|done|done|done|by constructor|cbn in *; lia|].
    cbn [fmap list_fmap connect_loop] in Hcl. destruct Hreg as [_ Hct _ (l & Hg & Hl)].
    destruct (IH (ps ++ [q]) r1 d1 T2) as (r' & d' & T' & Hnl & Hb' & Hct' & Hgl);
      [done|done|by rewrite p_all_app|by rewrite p_all_app|rewrite Hg, length_app; cbn in *; lia|].
    exists r', d', T'. split; [|split; [done|split; [by rewrite Hct', Hct|rewrite Hgl, Hg, length_app; cbn in *; lia]]].
    destruct (resolve_bagged _ _ _ _ Hb1) as [kr Hr]. destruct (resolve_peak _ _ Hsq) as [kq Hrq].
    unfold bind at 1 in Hcl. unfold reads at 1 in Hcl. unfold bind at 1. unfold reads at 1.
    rewrite Hr in Hcl |- *. unfold p_link in Hrq, Hcl. rewrite Hrq in Hcl |- *. cbn [res_bind expect_ok] in Hcl |- *.
    destruct (combine_nodes (E := Error) _ _) as [e| |]; [|done..].
    unfold bind at 1 in Hcl. unfold bind at 1. destruct (push_generated e T1) as [[lk| |] T3]; [|done..].
    unfold ret in Hcl. injection Hcl as -> ->. exact Hnl.
Qed.

Lemma new_view {E} b s ps es :
  Forall2 loads ps es -> peaks_ok b s 0 32 ps -> chain_of b s (p_all ps) -> ps <> [] ->
  exists T, new (E := E) (node_total ps) es [] = Ok T /\ view b s T (p_all ps) /\
    (length (generated T) < 32)%nat.
Proof.
  intros Hes Hok (Hc & Hf & H1 & H2) Hne. destruct Hes as [|p x ps es [k ->] Hes]; [done|]. unfold new.
  pose proof (falling_length _ _ (peaks_ok_falling _ _ _ _ _ Hok)) as Hl. rewrite length_fmap in Hl. cbn in Hl.
  set (T0 := mkTree {[p_pos p := mkEntry k (p_data p)]} [] (node_total (p :: ps)) (root invalid)).
  destruct (new_loop_bagged b s 32 ps es [p] (p_link p) (p_data p) T0) as (r & d & T & Hnl & Hb & Hct & Hgl);
    [done|constructor; exists k; apply lookup_singleton_eq|done|done|done|cbn; lia|].
  unfold p_link in Hnl. rewrite Hnl. cbn [expect_ok res_bind fold_left].
  eexists. split; [reflexivity|]. split; [|cbn in *; lia].
  exists (p :: ps), d. split; [done|]. split; [done|]. split; [|done].
  apply (bagged_mono T); [done| |done]. exists []. by rewrite app_nil_r.
Qed.

(** Loading stores nothing but the given entries, and keeps the length. *)
Lemma new_loop_stored es r T r' T' :
  new_loop es r T = (Ok r', T') ->
  stored_count T' = stored_count T /\
  forall i e, stored T' !! i = Some e -> stored T !! i = Some e \/ (i, e) ∈ es.
Proof.
  revert r T. induction es as [|[j x] es IH]; intros r T; cbn [new_loop].
  { unfold ret. intros [= _ ->]. split; [done|]. by left. }
  unfold bind at 1, reads at 1. destruct (let? l := _ in _) as [x'| |]; [|done..].
  unfold bind at 1. destruct (push_generated _ _) as [[lk| |] T1] eqn:Hp; [|done..].
  intros [Hc Hs]%IH. unfold push_generated in Hp. injection Hp as _ <-. cbn in *. split; [done|].
  intros i e Hi. apply Hs in Hi as [Hi|Hi]; [|right; by right].
  apply lookup_insert_Some in Hi as [[<- <-]|[_ Hi]]; [right; by left|by left].
Qed.

Lemma new_stored {E} n es T :
  new (E := E) n es [] = Ok T ->
  stored_count T = n /\ forall i e, stored T !! i = Some e -> (i, e) ∈ es.
Proof.
  unfold new. destruct es as [|[j x] es]; [done|].
  destruct (new_loop es (Stored j) _) as [[r| |] T'] eqn:Hn; [|done..].
  cbn [expect_ok res_bind fold_left]. intros [= <-]. apply new_loop_stored in Hn as [Hc Hs]. cbn in *.
  split; [done|]. intros i e Hi. apply Hs in Hi as [Hi|Hi]; [|by right].
  apply lookup_singleton_Some in Hi as [<- <-]. by left.
Qed.

Lemma peaks_positions_sorted b s off hb ps :
  peaks_ok b s off hb ps -> Forall (fun p => off <= p_pos p) ps /\ StronglySorted Z.lt (p_pos <$> ps).
Proof.
  revert s off hb. induction ps as [|p ps IH]; intros s off hb; cbn [peaks_ok]; [by repeat constructor|].
  intros (_ & Hp & Hps). pose proof (nodes_pos (p_height p)). apply IH in Hps as [Hf Hs].
  rewrite (Forall_forall (fun p0 => off + nodes (p_height p) <= p_pos p0)) in Hf.
  pose proof (peak_pos _ _ _ _ Hp) as Hpos. split.
  - constructor; [lia|]. rewrite Forall_forall. intros q Hq. specialize (Hf q Hq). cbn in Hf. lia.
  - cbn. constructor; [done|]. rewrite Forall_forall. intros z (q & -> & Hq)%list_elem_of_fmap.
    specialize (Hf q Hq). cbn in Hf. lia.
Qed.
End Facts.
End MmrFacts.
