(* ===== verification/MmrTruncate.v ===== *)
(** * Appending and truncating leaves

    The theorems about the operations of the tree: [append_leaf] refines adding a
    leaf to the reference mountain range, and [truncate_leaf] takes the leaf
    that [append_leaf] added off again, with the same number of nodes. *)

From stdpp Require Import base numbers list option gmap sorting.
From Stdlib Require Import ZArith Lia.
From S2P Require Import Prelude Difficulty NodeData Mmr MmrFacts.
Local Open Scope Z_scope.

Module MmrTruncate.
Import NodeData Mmr MmrSpec MmrFacts.
Local Open Scope mmr_scope.

Section Truncate.
Context {D : Type} `{!Version D} `{!VersionLaws D} {B : Blake2b} {BL : Blake2bLaws B}.
Implicit Types (ps qs : list (Peak (D := D))) (T : Tree (D := D)).

(** ** The right edge *)

Lemma resolve_stored T (p : Peak (D := D)) e :
  stored T !! p_pos p = Some e -> resolve_link T (p_link p) = Ok (mkIndexed e (p_link p)).
Proof. intros He. unfold resolve_link, p_link. by rewrite He. Qed.

Lemma right_edge_Ok T b s off p fuel rc acc tr :
  edge T b s off p -> peak_ok b s off p -> (p_height p < fuel)%nat ->
  0 <= tr -> tr + Z.of_nat (p_height p) + 1 < 2 ^ 32 ->
  exists qs x,
    right_edge fuel T rc (p_link p) acc tr =
      Ok (acc ++ (p_link <$> qs), tr + Z.of_nat (p_height p) + (if rc then 1 else 0)) /\
    peaks_ok b s off (p_height p) qs /\ p_all qs ++ [x] = p_leaves p /\ Forall (stored_peak T) qs /\
    node_total qs + Z.of_nat (p_height p) + 1 = nodes (p_height p).
Proof.
  intros He. revert fuel acc tr.
  induction He as [s off p Hh Hst|s off p l r Hl Hr Hrl Hpl Hlv Hst Hsl He IH]; intros fuel acc tr Hp Hf H0 H1;
    (destruct fuel as [|fuel]; [lia|]); cbn [right_edge]; rewrite (resolve_stored _ _ _ Hst);
    cbn [res_bind kind node].
  - destruct Hp as [Hlen _ _ _]. rewrite Hh in *. destruct (p_leaves p) as [|x [|? ?]]; [done| |done].
    exists [], x. rewrite !Z.add_0_r, app_nil_r. split; [|split; [done|split; [done|split; [constructor|done]]]].
    destruct rc; [rewrite uint_arith_Ok by lia|]; cbn [res_bind]; by rewrite ?Z.add_0_r.
  - rewrite Hpl in *. run_arith.
    destruct (IH fuel (acc ++ [p_link l]) (tr + 1)) as (qs & x & Hre & Hok & Hall & Hfa & Hn); [done|lia|lia|lia|].
    exists (l :: qs), x. split; [|split; [|split; [|split]]].
    + rewrite Hre, <- app_assoc. cbn [fmap list_fmap app].
      rewrite Hrl. do 2 f_equal. lia.
    + split; [lia|]. split; [done|]. rewrite Hrl in Hok. exact Hok.
    + rewrite p_all_cons, <- app_assoc, Hall. done.
    + by constructor.
    + cbn [node_total]. rewrite nodes_S. rewrite Hrl in Hn. lia.
Qed.

(** ** Removing nodes from the end *)

Lemma pop_n_Ok n T :
  Z.of_nat n <= stored_count T < 2 ^ 32 ->
  exists T', pop_n n T = (Ok (), T') /\ stored_count T' = stored_count T - Z.of_nat n /\
    generated T' = generated T /\ (forall i, i < stored_count T' -> stored T' !! i = stored T !! i).
Proof.
  revert T. induction n as [|n IH]; intros T Hn; cbn [pop_n].
  - exists T. split; [done|]. split; [lia|]. done.
  - unfold bind, pop. rewrite uint_arith_Ok by lia. cbn zeta.
    set (T1 := mkTree (delete (stored_count T - 1) (stored T)) (generated T) (stored_count T - 1) (root T)).
    destruct (IH T1) as (T' & -> & Hc & Hg & Hs); [cbn; lia|]. exists T'. cbn in *.
    split; [done|]. split; [lia|]. split; [done|]. intros i Hi. rewrite Hs by done.
    apply lookup_delete_ne. lia.
Qed.

Lemma bagged_agree T T' r ps d :
  (forall p, p ∈ ps -> stored T' !! p_pos p = stored T !! p_pos p) -> generated T' = generated T ->
  bagged T r ps d -> bagged T' r ps d.
Proof.
  intros Hs Hg Hb. revert Hs. induction Hb as [p [k Hp]|r ps acc p g d Hb IH [k Hp] Hgen Hd]; intros Hs.
  - constructor. exists k. rewrite Hs by (by left). done.
  - apply (bagged_snoc _ r ps acc); [apply IH; intros q Hq; apply Hs, elem_of_app; by left| |by rewrite Hg|done].
    exists k. rewrite Hs; [done|]. apply elem_of_app. right. by left.
Qed.

Lemma bagged_inv T rt ps m d :
  bagged T rt (ps ++ [m]) d ->
  (ps = [] /\ rt = p_link m /\ d = p_data m) \/
  (ps <> [] /\ exists r acc g, rt = Generated (Z.of_nat g) /\ bagged T r ps acc /\
     generated T !! g = Some (mkEntry (Node r (p_link m)) d)).
Proof.
  intros Hb. inversion Hb as [p Hp|r ps0 acc p g d0 Hb0 Hp Hg Hd Hroot Hps]; subst.
  - left. destruct ps as [|q [|? ?]]; [by cbn in *; simplify_eq|done..].
  - right. apply app_inj_tail in Hps as [-> ->]. split; [by eapply bagged_nonempty|]. by exists r, acc, g.
Qed.

(** ** Parity *)

Lemma peaks_above b s off hb ps m p :
  peaks_ok b s off hb (ps ++ [m]) -> p ∈ ps -> (p_height m < p_height p)%nat.
Proof.
  revert s off hb. induction ps as [|q ps IH]; intros s off hb Hok Hin; [by apply elem_of_nil in Hin|].
  destruct Hok as (_ & Hq & Hok). apply elem_of_cons in Hin as [->|Hin]; [|by eapply IH].
  clear IH Hq. revert Hok. generalize (s + Z.of_nat (length (p_leaves q))) as s1.
  generalize (off + nodes (p_height q)) as off1. generalize (p_height q) as hb1.
  induction ps as [|q' ps IH]; intros hb1 off1 s1 [Hlt Hok]; [done|].
  destruct Hok as [_ Hok]. specialize (IH _ _ _ Hok). lia.
Qed.

Lemma even_leaves b s off hb ps :
  peaks_ok b s off hb ps -> (forall p, p ∈ ps -> (0 < p_height p)%nat) ->
  Z.even (Z.of_nat (length (p_all ps))) = true.
Proof.
  revert s off hb. induction ps as [|p ps IH]; intros s off hb Hok Hpos; [done|].
  destruct Hok as (_ & Hp & Hok). rewrite p_all_cons, length_app, Nat2Z.inj_add, Z.even_add.
  rewrite (IH _ _ _ Hok) by (intros q Hq; apply Hpos; by right).
  rewrite (peak_length _ _ _ _ Hp). specialize (Hpos p ltac:(by left)).
  destruct (p_height p) as [|h]; [lia|]. cbn [Nat.pow]. rewrite Nat2Z.inj_mul, Z.even_mul. done.
Qed.

Lemma land_1_even n : (Z.land n 1 =? 0) = Z.even n.
Proof.
  change 1 with (Z.ones 1). rewrite Z.land_ones by lia. change (2 ^ 1) with 2.
  rewrite Zmod_even. by destruct (Z.even n).
Qed.

Lemma peaks_ok_mono b s off hb hb' ps : (hb <= hb')%nat -> peaks_ok b s off hb ps -> peaks_ok b s off hb' ps.
Proof. destruct ps; [done|]. intros ? (? & ?). split; [lia|done]. Qed.

(** ** Truncation *)

(** The result of truncating: [n] nodes fewer, and the view of the other leaves. *)
Definition truncated (b s : Z) (T : Tree (D := D)) (ds : list D) (n : Z) (T' : Tree (D := D)) : Prop :=
  1 <= n /\ view b s T' ds /\ stored_count T' = stored_count T - n /\
  (forall i, i < stored_count T' -> stored T' !! i = stored T !! i).

(** The last steps of [truncate_leaf]: connect the remaining peaks, drop the
    nodes, set the root. *)
Definition finish (first : EntryLink) (rest : list EntryLink) (n : Z) : M (D := D) Z :=
  let* new_root := connect_loop rest first in
  let* _ := pop_n (Z.to_nat n) in
  let* _ := set_root new_root in
  ret n.

Lemma finish_view b s T first base acc qs n :
  bagged T first base acc -> peaks_ok b s 0 32 (base ++ qs) -> chain_of b s (p_all (base ++ qs)) ->
  Forall (stored_peak T) qs -> Z.of_nat (length (generated T)) + 32 < 2 ^ 32 ->
  1 <= n -> stored_count T = node_total (base ++ qs) + n -> stored_count T < 2 ^ 32 ->
  exists T', finish first (p_link <$> qs) n T = (Ok n, T') /\ truncated b s T (p_all (base ++ qs)) n T'.
Proof.
  intros Hb Hok (Hc & Hf & _) Hst Hgen Hn Hct Hlt.
  pose proof (falling_length _ _ (peaks_ok_falling _ _ _ _ _ Hok)) as Hl. rewrite length_fmap, length_app in Hl.
  destruct (connect_loop_bagged b s 0 32 qs base first acc T Hb Hok Hc Hf Hst) as (r & d & T1 & Hcl & Hb1 & Hreg); [lia|].
  destruct Hreg as [Hs1 Hc1 _ _]. pose proof (node_total_bound _ _ _ _ _ Hok) as Hnb.
  destruct (pop_n_Ok (Z.to_nat n) T1) as (T2 & Hpop & Hc2 & Hg2 & Hs2); [lia|].
  exists (set_root r T2).2. split.
  - unfold finish. unfold bind at 1. rewrite Hcl. unfold bind at 1. rewrite Hpop. done.
  - split; [done|]. split; [|split; [cbn; lia|cbn; intros i Hi; by rewrite Hs2, Hs1]].
    exists (base ++ qs), d. split; [done|]. split; [done|]. split; [|cbn; lia].
    apply (bagged_agree T1); [|done|done]. intros p Hp. cbn. apply Hs2.
    pose proof (peaks_pos_bound _ _ _ _ _ _ Hok Hp ltac:(lia)). lia.
Qed.

(** The tree before the truncation: its peaks are [ps ++ [m]], and [x] is the last
    leaf of [m]. *)
Section Shape.
Context (b s : Z) (T : Tree (D := D)) (ds : list D) (x : D) (ps : list (Peak (D := D))) (m : Peak (D := D)) (d : D).
Context (Hok : peaks_ok b s 0 32 (ps ++ [m])) (Hall : p_all (ps ++ [m]) = ds ++ [x]).
Context (Hb : bagged T (root T) (ps ++ [m]) d) (Hct : stored_count T = node_total (ps ++ [m])).
Context (Hedge : edge T b (s + Z.of_nat (length (p_all ps))) (node_total ps) m).
Context (Hne : ds <> []) (Hchain : chain_of b s (ds ++ [x])) (Hgen : Z.of_nat (length (generated T)) + 32 < 2 ^ 32).

Lemma last_ok : peak_ok b (s + Z.of_nat (length (p_all ps))) (node_total ps) m.
Proof. apply peaks_ok_app in Hok as [_ (_ & Hm & _)]. by rewrite Z.add_0_l in Hm. Qed.

Lemma count_bound : 1 <= s /\ s + Z.of_nat (length (p_all (ps ++ [m]))) <= 2 ^ 31.
Proof. destruct Hchain as (_ & _ & H1 & H2). by rewrite Hall. Qed.

Lemma last_height : (p_height m < 32)%nat.
Proof.
  destruct count_bound as [H1 H2]. rewrite p_all_app, p_all_one, length_app in H2.
  apply (single_peak_height _ _ _ _ last_ok); lia.
Qed.

(** Without the last leaf, [ps] and the peaks left of [m] have the leaves [ds]. *)
Lemma leaves_left qs y : p_all qs ++ [y] = p_leaves m -> p_all (ps ++ qs) = ds.
Proof.
  intros Hq. rewrite p_all_app, p_all_one, <- Hq, app_assoc in Hall.
  apply app_inj_tail in Hall as [<- _]. apply p_all_app.
Qed.

(** The number of leaves is even exactly when the last peak is not a leaf. *)
Lemma count_even : Z.even (Z.of_nat (length (p_all (ps ++ [m])))) = negb (bool_decide (p_height m = 0%nat)).
Proof.
  apply peaks_ok_app in Hok as Hp. destruct Hp as [Hokps _].
  rewrite p_all_app, p_all_one, length_app, Nat2Z.inj_add, Z.even_add.
  rewrite (even_leaves _ _ _ _ _ Hokps) by (intros p Hp; pose proof (peaks_above _ _ _ _ _ _ _ Hok Hp); lia).
  rewrite (peak_length _ _ _ _ last_ok). destruct (p_height m); [done|].
  cbn [Nat.pow]. rewrite Nat2Z.inj_mul, Z.even_mul. done.
Qed.

Lemma truncate_reads :
  reads (fun self => let? n := resolve_link self (root self) in
      let? leaves := leaf_count (node n) in let? left := left (node n) in Ok (leaves, left)) T =
    (let? lft := (let? n := resolve_link T (root T) in left (node n)) in
     Ok (Z.of_nat (length (p_all (ps ++ [m]))), lft), T).
Proof.
  pose proof Hchain as (Hc & Hf & _). rewrite <- Hall in Hc, Hf. destruct count_bound as [H1 H2].
  unfold reads. destruct (resolve_bagged _ _ _ _ Hb) as [k ->]. cbn [res_bind node].
  rewrite (leaf_count_covers b s (p_all (ps ++ [m])));
    [|by apply (bagged_covers _ _ _ _ _ _ _ _ Hb Hok)|done|lia|rewrite Hall; by destruct ds].
  cbn [res_bind]. by destruct (left _).
Qed.

(** A single peak: its right edge is taken apart. *)
Lemma truncate_complete :
  ps = [] -> root T = p_link m -> exists n T', truncate_leaf T = (Ok n, T') /\ truncated b s T ds n T'.
Proof.
  pose proof last_ok as Hm. pose proof count_bound as [H1 H2]. pose proof last_height as Hhm.
  pose proof leaves_left as Hx. pose proof count_even as Heven. pose proof truncate_reads as Hrd.
  intros -> Hroot. unfold truncate_leaf. unfold bind at 1. rewrite Hrd. clear Hrd.
  change (node_total []) with 0 in Hm, Hedge.
  change (length (p_all [])) with 0%nat in Hm, Hedge. cbn [Z.of_nat] in Hm, Hedge. rewrite Z.add_0_r in Hm, Hedge.
  inversion Hedge as [s1 o1 m' Hm0 _|s1 o1 m' l r Hl Hr Hrl Hpl Hlv Hst Hsl He]; subst s1 o1 m'.
  { exfalso. apply Hne. destruct (p_leaves m) as [|y [|? ?]] eqn:Hlm; [..|].
    all: destruct Hm as [Hlen _ _ _]; rewrite Hlm, Hm0 in Hlen; try done. by rewrite <- (Hx [] y). }
  rewrite Hroot, (resolve_stored _ _ _ Hst). cbn [res_bind node left kind fst snd].
  rewrite land_1_even, Heven, Hpl, bool_decide_false by done. cbn [negb]. unfold bind at 1, reads at 1. cbn beta.
  rewrite Hroot, (resolve_stored _ _ _ Hst).
  cbn [res_bind indexed_left indexed_right left right map_err node kind].
  destruct (complete_peak (E := Error) b s 0 m (Node (p_link l) (p_link r))) as [_ ->];
    [done|done|rewrite p_all_app, p_all_one, length_app in H2; lia|]. cbn [res_bind].
  destruct (right_edge_Ok T b _ _ r FUEL true [p_link l] 1 He Hr) as (qs & y & -> & Hokq & Hallq & Hstq & Hnq);
    [unfold FUEL; lia|lia|lia|]. cbn [fst snd app].
  change (exists n T', finish (p_link l) (p_link <$> qs) (1 + Z.of_nat (p_height r) + 1) T = (Ok n, T') /\
    truncated b s T ds n T').
  assert (Hokl : peaks_ok b s 0 32 ([l] ++ qs)).
  { split; [lia|]. split; [done|]. rewrite Hrl in Hokq. exact Hokq. }
  assert (Hds : p_all ([l] ++ qs) = ds).
  { apply (Hx ([l] ++ qs) y). rewrite p_all_app, p_all_one, <- app_assoc, Hallq. done. }
  pose proof (node_total_bound _ _ _ _ _ Hok) as Hnb.
  exists (1 + Z.of_nat (p_height r) + 1). rewrite <- Hds.
  apply (finish_view b s T (p_link l) [l] (p_data l) qs); try done; try lia.
  - by constructor.
  - rewrite Hds. by apply (chain_of_app _ _ _ [x]).
  - cbn [node_total app] in *. rewrite Hpl, nodes_S in Hct. rewrite Hrl in *. lia.
Qed.

(** Several peaks are bagged from left to right; [r] bags all but the last. *)
Context (r : EntryLink) (acc : D) (g : nat).
Context (Hroot : root T = Generated (Z.of_nat g)) (Hbps : bagged T r ps acc).
Context (Hg : generated T !! g = Some (mkEntry (Node r (p_link m)) d)).

(** The last peak is a leaf: it is dropped with the top of the bag. *)
Lemma truncate_last_leaf :
  p_height m = 0%nat -> exists n T', truncate_leaf T = (Ok n, T') /\ truncated b s T ds n T'.
Proof.
  intros Hm0. pose proof last_ok as Hm. apply peaks_ok_app in Hok as Hp. destruct Hp as [Hokps _].
  pose proof (node_total_bound _ _ _ _ _ Hok) as Hnb. pose proof (node_total_bound _ _ _ _ _ Hokps).
  destruct count_bound as [H1 H2]. rewrite node_total_app in Hct, Hnb. cbn [node_total] in Hct, Hnb.
  unfold truncate_leaf. unfold bind at 1. rewrite truncate_reads.
  rewrite Hroot, (resolve_generated _ _ _ Hg). cbn [res_bind node left kind fst snd].
  rewrite land_1_even, count_even, bool_decide_true by done. cbn [negb].
  destruct (pop_n_Ok 1 T) as (T1 & Hpop & Hc1 & Hg1 & Hs1); [pose proof (nodes_pos (p_height m)); lia|].
  exists 1, (set_root r T1).2. split.
  { cbn [pop_n] in Hpop. unfold bind in Hpop |- *. destruct (pop T) as [[[]| |] T0]; [|done..].
    unfold ret in Hpop. by injection Hpop as ->. }
  pose proof Hm as [Hlm _ _ _]. rewrite Hm0 in Hlm. destruct (p_leaves m) as [|y [|? ?]] eqn:Hy; [done| |done].
  assert (Hds : p_all ps = ds) by (rewrite <- (leaves_left [] y); [by rewrite app_nil_r|by rewrite Hy]).
  split; [lia|]. split; [|split; [cbn; lia|done]]. exists ps, acc. split; [done|]. split; [done|].
  rewrite Hm0 in Hct. change (nodes 0) with 1 in Hct. split; [|cbn; lia].
  apply (bagged_agree T); [|done|done]. intros p Hp. cbn. apply Hs1.
  pose proof (peaks_pos_bound _ _ _ _ _ _ Hokps Hp ltac:(lia)). lia.
Qed.

(** The last peak is taken apart, and its remains are bagged with the others. *)
Lemma truncate_last_peak :
  ps <> [] -> p_height m <> 0%nat -> exists n T', truncate_leaf T = (Ok n, T') /\ truncated b s T ds n T'.
Proof.
  intros Hps Hm0. pose proof last_ok as Hm. apply peaks_ok_app in Hok as Hp. destruct Hp as [Hokps (Hmfl & _)].
  pose proof (node_total_bound _ _ _ _ _ Hok) as Hnb. pose proof last_height as Hhm.
  destruct count_bound as [H1 H2]. rewrite node_total_app in Hct, Hnb. cbn [node_total] in Hct, Hnb.
  unfold truncate_leaf. unfold bind at 1. rewrite truncate_reads.
  rewrite Hroot, (resolve_generated _ _ _ Hg). cbn [res_bind node left kind fst snd].
  rewrite land_1_even, count_even, bool_decide_false by done. cbn [negb].
  unfold bind at 1, reads at 1. rewrite Hroot, (resolve_generated _ _ _ Hg).
  cbn [res_bind indexed_left indexed_right left right map_err node kind].
  assert (Hinc : complete (E := Error) (mkEntry (Node r (p_link m)) d) = Ok false).
  { pose proof Hchain as (Hc & Hf & _). rewrite <- Hall in Hc, Hf.
    pose proof (bagged_covers _ _ _ _ _ _ _ _ Hb Hok Hc Hf) as Hcov.
    destruct ps as [|p0 [|p1 ps']]; [done|..];
      [apply (incomplete_bag b s 0 32 p0 m [])|apply (incomplete_bag b s 0 32 p0 p1 (ps' ++ [m]))]; done. }
  rewrite Hinc. cbn [res_bind].
  destruct (right_edge_Ok T b _ _ m FUEL false [r] 1 Hedge Hm) as (qs & y & -> & Hokq & Hallq & Hstq & Hnq);
    [unfold FUEL; lia|lia|lia|]. cbn [fst snd app]. rewrite Z.add_0_r.
  change (exists n T', finish r (p_link <$> qs) (1 + Z.of_nat (p_height m)) T = (Ok n, T') /\
    truncated b s T ds n T').
  pose proof (leaves_left qs y Hallq) as Hds. exists (1 + Z.of_nat (p_height m)). rewrite <- Hds.
  apply (finish_view b s T r ps acc qs); try done; try lia.
  - apply peaks_ok_app. split; [done|]. rewrite Z.add_0_l. apply (peaks_ok_mono _ _ _ (p_height m)); [lia|done].
  - rewrite Hds. by apply (chain_of_app _ _ _ [x]).
  - rewrite node_total_app. lia.
Qed.
End Shape.

Lemma truncate_leaf_view b s T ds x :
  view_edge b s T (ds ++ [x]) -> ds <> [] -> chain_of b s (ds ++ [x]) ->
  Z.of_nat (length (generated T)) + 32 < 2 ^ 32 ->
  exists n T', truncate_leaf T = (Ok n, T') /\ truncated b s T ds n T'.
Proof.
  intros (ps & m & d & Hok & Hall & Hb & Hct & Hedge) Hne Hchain Hgen.
  destruct (bagged_inv _ _ _ _ _ Hb) as [(-> & Hroot & ->)|(Hps & r & acc & g & Hroot & Hbps & Hg)].
  - by apply (truncate_complete b s T ds x [] m (p_data m)).
  - destruct (decide (p_height m = 0%nat)).
    + by apply (truncate_last_leaf b s T ds x ps m d Hok Hall Hb Hct Hne Hchain r acc g).
    + by apply (truncate_last_peak b s T ds x ps m d Hok Hall Hb Hct Hedge Hne Hchain Hgen r acc g).
Qed.

(** The leaves determine the length of the array. *)
Lemma view_count b s b' s' T T' ds : view b s T ds -> view b' s' T' ds -> stored_count T = stored_count T'.
Proof.
  intros (ps & d & Hok & Hall & _ & Hc) (ps' & d' & Hok' & Hall' & _ & Hc'). rewrite Hc, Hc'.
  pose proof (mountains_falling 31 _ (peaks_ok_falling _ _ _ _ _ Hok)) as Hm.
  pose proof (mountains_falling 31 _ (peaks_ok_falling _ _ _ _ _ Hok')) as Hm'.
  fold (p_all ps) in Hm. fold (p_all ps') in Hm'. rewrite Hall in Hm. rewrite Hall', Hm in Hm'.
  clear -Hm'. revert ps' Hm'. induction ps as [|p ps IH]; intros [|p' ps'] Heq; try done.
  cbn in Heq. injection Heq as Hh _ Heq. cbn. by rewrite Hh, (IH ps' Heq).
Qed.

Lemma view_nonempty b s T ds : view b s T ds -> ds <> [].
Proof.
  intros (ps & d & Hok & <- & Hb & _). apply bagged_nonempty in Hb. destruct ps as [|p ps]; [done|].
  destruct Hok as (_ & Hp & _). apply peak_nonempty in Hp. rewrite p_all_cons. by destruct (p_leaves p).
Qed.

(** C21: Appending the leaf of the next block to a tree over consecutive blocks
    succeeds.  It adds nodes only at the end of the array, all of them writable,
    and returns their links in order; the new tree is over the blocks with the
    leaf added, and its root node is the reference root of those leaves. *)
Theorem append_leaf_refines b s T ds d :
  view b s T ds -> chain_of b s (ds ++ [d]) -> Z.of_nat (length (generated T)) + 32 < 2 ^ 32 ->
  exists n T' k root_data,
    append_leaf d T = (Ok (Stored <$> seqZ (stored_count T) n), T') /\
    view b s T' (ds ++ [d]) /\ array_grows b T T' n /\
    root_node T' = Ok (mkIndexed (mkEntry k root_data) (root T')) /\
    history_root (ds ++ [d]) = Ok root_data.
Proof.
  intros Hv Hc Hg. destruct (append_leaf_view b s T ds d Hv Hc Hg) as (n & T' & Ha & _ & Hv'%view_edge_view & Hgr & _).
  destruct (view_root _ _ _ _ Hv') as (k & rd & Hr & Hd). by exists n, T', k, rd.
Qed.

(** C27: Truncating takes back an append: after [append_leaf], [truncate_leaf]
    succeeds and reports the number of nodes that were added; the array and the
    root node are those of the tree before. *)
Theorem truncate_undoes_append b s T ds d :
  view b s T ds -> chain_of b s (ds ++ [d]) -> Z.of_nat (length (generated T)) + 64 < 2 ^ 32 ->
  exists n T1 T2 k k' root_data,
    append_leaf d T = (Ok (Stored <$> seqZ (stored_count T) n), T1) /\
    truncate_leaf T1 = (Ok n, T2) /\ stored_count T2 = stored_count T /\
    (forall i, i < stored_count T -> stored T2 !! i = stored T !! i) /\
    root_node T = Ok (mkIndexed (mkEntry k root_data) (root T)) /\
    root_node T2 = Ok (mkIndexed (mkEntry k' root_data) (root T2)).
Proof.
  intros Hv Hc Hg.
  destruct (append_leaf_view b s T ds d Hv Hc ltac:(lia)) as (n & T1 & Ha & _ & Hv1 & (Hct & Hold & _) & Hg1).
  destruct (truncate_leaf_view b s T1 ds d Hv1) as (n' & T2 & Ht & Hn & Hv2 & Hct2 & Hold2);
    [by apply (view_nonempty b s T)|done|lia|].
  pose proof (view_count _ _ _ _ _ _ _ Hv Hv2) as Heq. assert (n' = n) as -> by lia.
  destruct (view_root _ _ _ _ Hv) as (k & rd & Hr & Hd). destruct (view_root _ _ _ _ Hv2) as (k' & rd' & Hr' & Hd').
  rewrite Hd in Hd'. injection Hd' as <-. exists n, T1, T2, k, k', rd. split; [done|]. split; [done|].
  split; [done|]. split; [|done]. intros i Hi. rewrite Hold2 by lia. by apply Hold.
Qed.
End Truncate.

(** ** A sample tree *)

Definition sample_leaf (h : Z) : NodeData :=
  mkNodeData 2 (zeros 32) 10 10 20 20 (zeros 32) (zeros 32) 7 h h 3.

Definition sample_tree : Tree (D := NodeData) :=
  mkTree {[0 := new_leaf (sample_leaf 5)]} [] 1 (Stored 0).

#[local] Existing Instance Difficulty.u256_Z.
#[local] Existing Instance toy_digest.
#[local] Existing Instance Difficulty.u256_Z_laws.
#[local] Existing Instance toy_digest_laws.

Lemma sample_leaf_wf h : 0 <= h < 1000 -> wf_v1 (sample_leaf h).
Proof.
  intros Hh. pose proof zeros_hash. unfold wf_v1, Difficulty.is_u256. cbn -[zeros Z.pow].
  repeat (split; [first [done | lia]|]). lia.
Qed.

Lemma sample_tree_view : view 2 5 sample_tree [sample_leaf 5].
Proof.
  set (p := mkPeak 0 [sample_leaf 5] (sample_leaf 5) 0). exists [p], (sample_leaf 5).
  split; [|split; [done|split; [apply (bagged_one sample_tree p); by exists Leaf|done]]].
  split; [cbn; lia|]. split; [|done]. split; try done. split; try done. by apply sample_leaf_wf.
Qed.

Lemma sample_chain_of : chain_of 2 5 ([sample_leaf 5] ++ [sample_leaf 6]).
Proof.
  split; [|split; [split; vm_compute; reflexivity|cbn; lia]].
  repeat (split; [split; [by apply sample_leaf_wf|done]|]). done.
Qed.

(** Appending a second leaf makes a mountain of height one. *)
Lemma append_leaf_refines_witness :
  exists n T' k root_data,
    append_leaf (sample_leaf 6) sample_tree = (Ok (Stored <$> seqZ 1 n), T') /\
    root_node T' = Ok (mkIndexed (mkEntry k root_data) (root T')) /\
    history_root [sample_leaf 5; sample_leaf 6] = Ok root_data.
Proof.
  destruct (append_leaf_refines 2 5 sample_tree [sample_leaf 5] (sample_leaf 6) sample_tree_view sample_chain_of)
    as (n & T' & k & rd & Ha & _ & _ & Hr & Hh); [cbn; lia|].
  exists n, T', k, rd. split; [exact Ha|]. split; [exact Hr|exact Hh].
Defined.

Lemma truncate_undoes_append_witness :
  exists n T1 T2, append_leaf (sample_leaf 6) sample_tree = (Ok (Stored <$> seqZ 1 n), T1) /\
    truncate_leaf T1 = (Ok n, T2) /\ stored_count T2 = 1.
Proof.
  destruct (truncate_undoes_append 2 5 sample_tree [sample_leaf 5] (sample_leaf 6) sample_tree_view sample_chain_of)
    as (n & T1 & T2 & _ & _ & _ & Ha & Ht & Hc & _); [cbn; lia|].
  exists n, T1, T2. split; [exact Ha|]. split; [exact Ht|exact Hc].
Defined.
End MmrTruncate.
