(* ===== verification/HistoryTree.v ===== *)
(** * The block history tree

    [zakura-chain/src/primitives/zcash_history.rs] and
    [zakura-chain/src/history_tree.rs]: leaves built from blocks, encoded
    entries, and the history tree that restarts at each network upgrade and
    keeps only the peaks of its mountain range.

    A header is what the leaf reads of it: its hash, its time as a Unix
    timestamp and its difficulty threshold.  Methods on [&mut self] return the
    object with the result, since an error leaves the changes made before it. *)

From stdpp Require Import base numbers list option gmap.
From Stdlib Require Import ZArith Lia.
From S2P Require Import Prelude Height BTree Network Difficulty NodeData Mmr.
Local Open Scope Z_scope.

Module HistoryTree.
Import Network NodeData.

(** ** Block parts *)

Record Header := mkHeader { header_hash : list Z; timestamp : Z; difficulty_threshold : Z }.

Record HistoryTreeBlockParts := mkParts {
  header : Header;
  height : Z;
  sapling_root : list Z;
  orchard_root : list Z;
  ironwood_root : list Z;
  parts_sapling_tx : Z;
  parts_orchard_tx : Z;
  parts_ironwood_tx : Z;
}.

(** What [from_block] reads of a block. *)
Record Block := mkBlock {
  block_header : Header;
  coinbase_height : option Z;
  sapling_transactions_count : Z;
  orchard_transactions_count : Z;
  ironwood_transactions_count : Z;
}.

Definition parts_from_block {E} (block : Block) (sapling_root orchard_root ironwood_root : list Z)
  : res E HistoryTreeBlockParts :=
  let? height := expect (coinbase_height block) in
  Ok (mkParts (block_header block) height sapling_root orchard_root ironwood_root
        (sapling_transactions_count block) (orchard_transactions_count block)
        (ironwood_transactions_count block)).

(** [Default] of a note commitment tree root *)
Definition default_root : list Z := replicate 32 0.

Section Tree.
Context {U : Difficulty.U256} {B : Blake2b}.

(** ** Leaves *)

(** [V1::parts_to_history_node] *)
Definition parts_to_v1 {E} (parts : HistoryTreeBlockParts) (network : Network) : res E NodeData :=
  let height := height parts in
  let header := header parts in
  let? network_upgrade := current network height in
  let? branch_id := expect (branch_id network_upgrade) in
  let block_hash := header_hash header in
  let? time := expect (to_uint 32 (timestamp header)) in
  let target := difficulty_threshold header in
  let sapling_root := sapling_root parts in
  let? work := Difficulty.to_work (difficulty_threshold header) in
  let? work := expect work in
  let? _ :=
    match network_upgrade with
    | Genesis | BeforeOverwinter | Overwinter | Sapling | Blossom => Panic
    | _ => Ok ()
    end in
  Ok (mkNodeData branch_id block_hash time time target target sapling_root sapling_root work
        height height (parts_sapling_tx parts)).

Definition parts_to_v2 {E} (parts : HistoryTreeBlockParts) (network : Network) : res E V2 :=
  let? node_data_v1 := parts_to_v1 parts network in
  Ok (mkV2 node_data_v1 (orchard_root parts) (orchard_root parts) (parts_orchard_tx parts)).

Definition parts_to_v3 {E} (parts : HistoryTreeBlockParts) (network : Network) : res E V3 :=
  let? node_data_v2 := parts_to_v2 parts network in
  Ok (mkV3 node_data_v2 (ironwood_root parts) (ironwood_root parts) (parts_ironwood_tx parts)).

(** The trait of [zcash_history.rs]. *)
Class HistoryVersion (D : Type) `{Version D} :=
  parts_to_history_node : HistoryTreeBlockParts -> Network -> res unit D.

#[export] Instance history_v1 : HistoryVersion NodeData := parts_to_v1.
#[export] Instance history_v2 : HistoryVersion V2 := parts_to_v2.
#[export] Instance history_v3 : HistoryVersion V3 := parts_to_v3.

Definition block_to_history_node {D} `{HistoryVersion D} {E} (block : Block) (network : Network)
  (sapling_root orchard_root ironwood_root : list Z) : res E D :=
  let? parts := parts_from_block block sapling_root orchard_root ironwood_root in
  expect_ok (parts_to_history_node (D := D) parts network).

(** ** Encoded entries and the tree over them *)

Definition pad (n : nat) (bytes : list Z) : list Z := bytes ++ replicate (n - length bytes) 0.

(** [write(&mut &mut entry.inner[..])] on a zeroed array *)
Definition encode {D} `{Version D} {E} (e : Mmr.Entry (D := D)) : res E (list Z) :=
  let? bytes := expect_ok (Mmr.entry_write e) in
  let? _ := rust_assert (Z.of_nat (length bytes) <=? Mmr.MAX_ENTRY_SIZE) in
  Ok (pad (Z.to_nat Mmr.MAX_ENTRY_SIZE) bytes).

Definition from_raw_bytes_padded (bytes : list Z) : list Z :=
  pad (Z.to_nat Mmr.MAX_ENTRY_SIZE) (take (Z.to_nat Mmr.MAX_ENTRY_SIZE) bytes).

(** [Entry::from_node_data] and [Entry::new_leaf_parts] *)
Definition from_node_data {D} `{Version D} {E} (node_data : D) : res E (list Z) :=
  encode (Mmr.new_leaf node_data).

Definition new_leaf_parts {D} `{HistoryVersion D} {E} (parts : HistoryTreeBlockParts) (network : Network)
  : res E (list Z) :=
  let? node_data := expect_ok (parts_to_history_node (D := D) parts network) in
  from_node_data node_data.

(** [Entry::new_leaf] *)
Definition new_leaf_block {D} `{HistoryVersion D} {E} (block : Block) (network : Network)
  (sapling_root orchard_root ironwood_root : list Z) : res E (list Z) :=
  let? node_data :=
    block_to_history_node (D := D) block network sapling_root orchard_root ironwood_root in
  from_node_data node_data.

Record Tree (D : Type) := mkTree {
  tree_network : Network;
  tree_upgrade : NetworkUpgrade;
  tree_inner : Mmr.Tree (D := D);
}.
Arguments mkTree {D} _ _ _.
Arguments tree_network {D} _.
Arguments tree_upgrade {D} _.
Arguments tree_inner {D} _.

(** The decoding loops of [new_from_cache]. *)
Fixpoint decode_entries {D} `{Version D} (branch : Z) (l : list (Z * list Z))
  : res IoError (list (Z * Mmr.Entry (D := D))) :=
  match l with
  | [] => Ok []
  | (idx, entry) :: l =>
      let? inner_entry := Mmr.entry_from_bytes branch entry in
      let? rest := decode_entries branch l in
      Ok ((idx, inner_entry) :: rest)
  end.

Definition new_from_cache {D} `{Version D} (network : Network) (network_upgrade : NetworkUpgrade)
  (length : Z) (peaks extra : list (Z * list Z)) : res IoError (Tree D) :=
  let? branch_id := ok_or InvalidInput (branch_id network_upgrade) in
  let? peaks_vec := decode_entries branch_id peaks in
  let? extra_vec := decode_entries branch_id extra in
  let? inner := Mmr.new length peaks_vec extra_vec in
  Ok (mkTree network network_upgrade inner).

Definition new_from_parts {D} `{HistoryVersion D} (network : Network) (parts : HistoryTreeBlockParts)
  : res IoError (Tree D * list Z) :=
  let? network_upgrade := current network (height parts) in
  match branch_id network_upgrade with
  | None => Err InvalidInput
  | Some _ =>
      let? entry0 := new_leaf_parts (D := D) parts network in
      let peaks := bt_insert 0 entry0 [] in
      let? tree := new_from_cache network network_upgrade 1 peaks [] in
      let? entry := expect (bt_get 0 peaks) in
      Ok (tree, entry)
  end.

Definition new_from_block {D} `{HistoryVersion D} (network : Network) (block : Block)
  (sapling_root orchard_root ironwood_root : list Z) : res IoError (Tree D * list Z) :=
  let? height := expect (coinbase_height block) in
  let? network_upgrade := current network height in
  match branch_id network_upgrade with
  | None => Err InvalidInput
  | Some _ =>
      let? entry0 := new_leaf_block (D := D) block network sapling_root orchard_root ironwood_root in
      let peaks := bt_insert 0 entry0 [] in
      let? tree := new_from_cache network network_upgrade 1 peaks [] in
      let? entry := expect (bt_get 0 peaks) in
      Ok (tree, entry)
  end.

(** The loop of [append_leaf_parts] that encodes the appended nodes. *)
Fixpoint encode_links {D} `{Version D} {E} (inner : Mmr.Tree (D := D)) (links : list Mmr.EntryLink)
  : res E (list (list Z)) :=
  match links with
  | [] => Ok []
  | entry_link :: links =>
      let? n := expect_ok (Mmr.resolve_link inner entry_link) in
      let? entry := encode (Mmr.node n) in
      let? rest := encode_links inner links in
      Ok (entry :: rest)
  end.

Definition append_leaf_parts {D} `{HistoryVersion D} (self : Tree D) (parts : HistoryTreeBlockParts)
  : res Mmr.Error (list (list Z)) * Tree D :=
  match current (E := Mmr.Error) (tree_network self) (height parts) with
  | Ok network_upgrade =>
      if bool_decide (network_upgrade = tree_upgrade self) then
        match parts_to_history_node (D := D) parts (tree_network self) with
        | Ok node_data =>
            let '(appended, inner) := Mmr.append_leaf node_data (tree_inner self) in
            let self := mkTree (tree_network self) (tree_upgrade self) inner in
            (let? appended := appended in encode_links inner appended, self)
        | _ => (Panic, self)
        end
      else (Panic, self)
  | _ => (Panic, self)
  end.

(** [Tree::append_leaf] *)
Definition append_leaf_block {D} `{HistoryVersion D} (self : Tree D) (block : Block)
  (sapling_root orchard_root ironwood_root : list Z) : res Mmr.Error (list (list Z)) * Tree D :=
  match
    (let? height := expect (E := Mmr.Error) (coinbase_height block) in
     let? network_upgrade := current (tree_network self) height in
     let? _ := rust_assert (bool_decide (network_upgrade = tree_upgrade self)) in
     block_to_history_node (D := D) block (tree_network self) sapling_root orchard_root ironwood_root)
  with
  | Ok node_data =>
      let '(appended, inner) := Mmr.append_leaf node_data (tree_inner self) in
      let self := mkTree (tree_network self) (tree_upgrade self) inner in
      (let? appended := appended in encode_links inner appended, self)
  | _ => (Panic, self)
  end.

(** [Tree::hash] *)
Definition tree_hash {D} `{Version D} {E} (self : Tree D) : res E (list Z) :=
  let? n := expect_ok (Mmr.root_node (tree_inner self)) in
  NodeData.hash (Mmr.data (Mmr.node n)).

(** ** The non-empty tree *)

Inductive HistoryTreeError :=
| InnerError (inner : Mmr.Error)
| IOError (e : IoError)
| CachedWithoutPeaks
| CachedBeforeHeartwood
| MissingBranchId (network_upgrade : NetworkUpgrade).

Inductive InnerHistoryTree :=
| PreOrchard (tree : Tree NodeData)
| OrchardOnward (tree : Tree V2)
| IronwoodOnward (tree : Tree V3).

Record NonEmptyHistoryTree := mkHistory {
  network : Network;
  network_upgrade : NetworkUpgrade;
  inner : InnerHistoryTree;
  size : Z;
  peaks : list (Z * list Z);
  current_height : Z;
}.

Definition no_peaks (peaks : list (Z * list Z)) : bool := match peaks with [] => true | _ => false end.

Definition from_cache (network : Network) (size : Z) (peaks : list (Z * list Z)) (current_height : Z)
  : res HistoryTreeError NonEmptyHistoryTree :=
  if no_peaks peaks then Err CachedWithoutPeaks
  else
    let? network_upgrade := current network current_height in
    let? inner :=
      match network_upgrade with
      | Genesis | BeforeOverwinter | Overwinter | Sapling | Blossom => Err CachedBeforeHeartwood
      | _ =>
          match branch_id network_upgrade with
          | None => Err (MissingBranchId network_upgrade)
          | Some _ =>
              match network_upgrade with
              | Heartwood | Canopy =>
                  let? tree := map_err IOError (new_from_cache network network_upgrade size peaks []) in
                  Ok (PreOrchard tree)
              | Nu6_3 | Nu7 =>
                  let? tree := map_err IOError (new_from_cache network network_upgrade size peaks []) in
                  Ok (IronwoodOnward tree)
              | _ =>
                  let? tree := map_err IOError (new_from_cache network network_upgrade size peaks []) in
                  Ok (OrchardOnward tree)
              end
          end
      end in
    Ok (mkHistory network network_upgrade inner size peaks current_height).

(** The struct updates [HistoryTreeBlockParts { orchard_root: &Default::default(), .. }] *)
Definition without_ironwood (parts : HistoryTreeBlockParts) : HistoryTreeBlockParts :=
  mkParts (header parts) (height parts) (sapling_root parts) (orchard_root parts) default_root
    (parts_sapling_tx parts) (parts_orchard_tx parts) (parts_ironwood_tx parts).

Definition without_orchard (parts : HistoryTreeBlockParts) : HistoryTreeBlockParts :=
  mkParts (header parts) (height parts) (sapling_root parts) default_root default_root
    (parts_sapling_tx parts) (parts_orchard_tx parts) (parts_ironwood_tx parts).

(** [NonEmptyHistoryTree::from_parts] *)
Definition from_parts (network : Network) (parts : HistoryTreeBlockParts)
  : res HistoryTreeError NonEmptyHistoryTree :=
  let height := height parts in
  let? network_upgrade := current network height in
  let? p :=
    match network_upgrade with
    | Genesis | BeforeOverwinter | Overwinter | Sapling | Blossom => Panic
    | _ =>
        match branch_id network_upgrade with
        | None => Err (MissingBranchId network_upgrade)
        | Some _ =>
            match network_upgrade with
            | Heartwood | Canopy =>
                let? p := map_err IOError (new_from_parts network (without_orchard parts)) in
                Ok (PreOrchard p.1, p.2)
            | Nu6_3 | Nu7 =>
                let? p := map_err IOError (new_from_parts network parts) in
                Ok (IronwoodOnward p.1, p.2)
            | _ =>
                let? p := map_err IOError (new_from_parts network (without_ironwood parts)) in
                Ok (OrchardOnward p.1, p.2)
            end
        end
    end in
  Ok (mkHistory network network_upgrade p.1 1 (bt_insert 0 p.2 []) height).

(** [NonEmptyHistoryTree::from_block] *)
Definition from_block (network : Network) (block : Block)
  (sapling_root orchard_root ironwood_root : list Z) : res HistoryTreeError NonEmptyHistoryTree :=
  let? parts := parts_from_block block sapling_root orchard_root ironwood_root in
  from_parts network parts.

(** The loop of [prune] over the altitudes.  Each round either lowers [alt] or
    moves right within the array; 64 rounds are enough for 32-bit sizes. *)
Fixpoint peak_positions {E} (fuel : nat) (size alt peak_pos : Z) (peak_pos_set : list Z) : res E (list Z) :=
  match fuel with
  | O => Panic
  | S fuel =>
      let? p :=
        (if size <=? peak_pos then
           let? peak_pos := uint_arith 32 (peak_pos - 2 ^ alt) in
           let? alt := uint_arith 32 (alt - 1) in
           Ok (peak_pos, alt)
         else Ok (peak_pos, alt)) in
      let '(peak_pos, alt) := p in
      let? q :=
        (if peak_pos <? size then
           let? sum := uint_arith 32 (peak_pos + 2 ^ (alt + 1)) in
           let? next := uint_arith 32 (sum - 1) in
           Ok (peak_pos_set ++ [peak_pos], next)
         else Ok (peak_pos_set, peak_pos)) in
      let '(peak_pos_set, peak_pos) := q in
      if alt =? 0 then Ok peak_pos_set else peak_positions fuel size alt peak_pos peak_pos_set
  end.

(** [(32 - (size + 1).leading_zeros() - 1) - 1]; the number of significant bits
    of [n] is [Z.log2 n + 1] *)
Definition collect_peak_positions {E} (size : Z) : res E (list Z) :=
  let? n := uint_arith 32 (size + 1) in
  let? alt := uint_arith 32 (Z.log2 n - 1) in
  let? peak_pos := uint_arith 32 (2 ^ (alt + 1) - 2) in
  peak_positions 64 size alt peak_pos [].

(** The rebuilding [match] of [prune] and of [clone]. *)
Definition rebuild (self : NonEmptyHistoryTree) : res IoError InnerHistoryTree :=
  match inner self with
  | PreOrchard _ =>
      let? tree := new_from_cache (network self) (network_upgrade self) (size self) (peaks self) [] in
      Ok (PreOrchard tree)
  | OrchardOnward _ =>
      let? tree := new_from_cache (network self) (network_upgrade self) (size self) (peaks self) [] in
      Ok (OrchardOnward tree)
  | IronwoodOnward _ =>
      let? tree := new_from_cache (network self) (network_upgrade self) (size self) (peaks self) [] in
      Ok (IronwoodOnward tree)
  end.

Definition with_inner (self : NonEmptyHistoryTree) (i : InnerHistoryTree) : NonEmptyHistoryTree :=
  mkHistory (network self) (network_upgrade self) i (size self) (peaks self) (current_height self).

Definition with_peaks (self : NonEmptyHistoryTree) (size : Z) (peaks : list (Z * list Z)) : NonEmptyHistoryTree :=
  mkHistory (network self) (network_upgrade self) (inner self) size peaks (current_height self).

Definition prune (self : NonEmptyHistoryTree) : res IoError unit * NonEmptyHistoryTree :=
  match collect_peak_positions (E := IoError) (size self) with
  | Ok peak_pos_set =>
      let self := with_peaks self (size self) (filter (fun p => p.1 ∈ peak_pos_set) (peaks self)) in
      match rebuild self with
      | Ok inner => (Ok (), with_inner self inner)
      | Err e => (Err e, self)
      | Panic => (Panic, self)
      end
  | Err e => (Err e, self)
  | Panic => (Panic, self)
  end.

(** The [match] of [push_from_parts] that appends to the inner tree. *)
Definition append_inner (i : InnerHistoryTree) (parts : HistoryTreeBlockParts)
  : res HistoryTreeError (list (list Z)) * InnerHistoryTree :=
  match i with
  | PreOrchard tree =>
      let '(r, tree) := append_leaf_parts tree (without_orchard parts) in
      (map_err InnerError r, PreOrchard tree)
  | OrchardOnward tree =>
      let '(r, tree) := append_leaf_parts tree (without_ironwood parts) in
      (map_err InnerError r, OrchardOnward tree)
  | IronwoodOnward tree =>
      let '(r, tree) := append_leaf_parts tree parts in
      (map_err InnerError r, IronwoodOnward tree)
  end.

(** The loop that adds the new entries to the peaks. *)
Fixpoint insert_entries {E} (self : NonEmptyHistoryTree) (new_entries : list (list Z))
  : res E NonEmptyHistoryTree :=
  match new_entries with
  | [] => Ok self
  | entry :: new_entries =>
      let? size' := uint_arith 32 (size self + 1) in
      insert_entries (with_peaks self size' (bt_insert (size self) entry (peaks self))) new_entries
  end.

Definition push_from_parts (self : NonEmptyHistoryTree) (parts : HistoryTreeBlockParts)
  : res HistoryTreeError unit * NonEmptyHistoryTree :=
  let height := height parts in
  match Height.add_diff (E := unit) (current_height self) 1, current (E := unit) (network self) height with
  | Ok next, Ok network_upgrade' =>
      if negb (bool_decide (next = Some height)) then (Panic, self)
      else if negb (bool_decide (network_upgrade' = network_upgrade self)) then
        match from_parts (network self) parts with
        | Ok new_tree =>
            (rust_assert (bool_decide (network_upgrade new_tree = network_upgrade')), new_tree)
        | Err e => (Err e, self)
        | Panic => (Panic, self)
        end
      else
        let '(new_entries, i) := append_inner (inner self) parts in
        let self := with_inner self i in
        match new_entries with
        | Ok new_entries =>
            match insert_entries (E := HistoryTreeError) self new_entries with
            | Ok self =>
                let '(r, self) := prune self in
                match r with
                | Ok _ =>
                    (Ok (), mkHistory (network self) (network_upgrade self) (inner self)
                              (size self) (peaks self) height)
                | Err e => (Err (IOError e), self)
                | Panic => (Panic, self)
                end
            | Err e => (Err e, self)
            | Panic => (Panic, self)
            end
        | Err e => (Err e, self)
        | Panic => (Panic, self)
        end
  | _, _ => (Panic, self)
  end.

(** [NonEmptyHistoryTree::push] *)
Definition push_block (self : NonEmptyHistoryTree) (block : Block)
  (sapling_root orchard_root ironwood_root : list Z)
  : res HistoryTreeError unit * NonEmptyHistoryTree :=
  match parts_from_block (E := unit) block sapling_root orchard_root ironwood_root with
  | Ok parts => push_from_parts self parts
  | _ => (Panic, self)
  end.

(** A failing block leaves the blocks before it in the tree. *)
Fixpoint try_extend (self : NonEmptyHistoryTree) (iter : list (Block * list Z * list Z * list Z))
  : res HistoryTreeError unit * NonEmptyHistoryTree :=
  match iter with
  | [] => (Ok (), self)
  | (block, sapling_root, orchard_root, ironwood_root) :: iter =>
      let '(r, self) := push_block self block sapling_root orchard_root ironwood_root in
      match r with
      | Ok _ => try_extend self iter
      | Err e => (Err e, self)
      | Panic => (Panic, self)
      end
  end.

(** [Clone]: the runtime tree is rebuilt from the peaks *)
Definition clone {E} (self : NonEmptyHistoryTree) : res E NonEmptyHistoryTree :=
  let? inner := expect_ok (rebuild self) in
  Ok (with_inner self inner).

Definition hash {E} (self : NonEmptyHistoryTree) : res E (list Z) :=
  match inner self with
  | PreOrchard tree => tree_hash tree
  | OrchardOnward tree => tree_hash tree
  | IronwoodOnward tree => tree_hash tree
  end.

(** ** The optional tree *)

Definition is_none {A} (o : option A) : bool := match o with None => true | Some _ => false end.

(** [HistoryTree::from_parts] *)
Definition history_from_parts (network : Network) (parts : HistoryTreeBlockParts)
  : res HistoryTreeError (option NonEmptyHistoryTree) :=
  match activation_height Heartwood network with
  | None => Ok None
  | Some heartwood_height =>
      if height parts <? heartwood_height then Ok None
      else let? tree := from_parts network parts in Ok (Some tree)
  end.

(** [HistoryTree::from_block] *)
Definition history_from_block (network : Network) (block : Block)
  (sapling_root orchard_root ironwood_root : list Z)
  : res HistoryTreeError (option NonEmptyHistoryTree) :=
  let? parts := parts_from_block block sapling_root orchard_root ironwood_root in
  history_from_parts network parts.

(** [HistoryTree::push_from_parts] *)
Definition history_push_from_parts (self : option NonEmptyHistoryTree) (network : Network)
  (parts : HistoryTreeBlockParts) : res HistoryTreeError unit * option NonEmptyHistoryTree :=
  match activation_height Heartwood network with
  | None => (rust_assert (is_none self), self)
  | Some heartwood_height =>
      match height parts ?= heartwood_height with
      | Lt => (rust_assert (is_none self), self)
      | Eq =>
          match from_parts network parts with
          | Ok tree => (Ok (), Some tree)
          | Err e => (Err e, self)
          | Panic => (Panic, self)
          end
      | Gt =>
          match self with
          | None => (Panic, self)
          | Some tree => let '(r, tree) := push_from_parts tree parts in (r, Some tree)
          end
      end
  end.

(** [HistoryTree::push] *)
Definition history_push (self : option NonEmptyHistoryTree) (network : Network) (block : Block)
  (sapling_root orchard_root ironwood_root : list Z)
  : res HistoryTreeError unit * option NonEmptyHistoryTree :=
  match parts_from_block (E := unit) block sapling_root orchard_root ironwood_root with
  | Ok parts => history_push_from_parts self network parts
  | _ => (Panic, self)
  end.

Definition history_hash {E} (self : option NonEmptyHistoryTree) : res E (option (list Z)) :=
  match self with
  | None => Ok None
  | Some tree => let? h := hash tree in Ok (Some h)
  end.

(** [PartialEq for HistoryTree] *)
Definition history_eq {E} (self other : option NonEmptyHistoryTree) : res E bool :=
  let? self_hash := history_hash self in
  let? other_hash := history_hash other in
  Ok (bool_decide (self_hash = other_hash)).
End Tree.

Arguments mkTree {D} _ _ _.
Arguments tree_network {D} _.
Arguments tree_upgrade {D} _.
Arguments tree_inner {D} _.
End HistoryTree.
