(* ===== verification/HistoryFacts.v ===== *)
(** * The history tree keeps the root of its network upgrade

    The facts about [HistoryTree]: the positions [prune] collects are those of
    the peaks; entries survive their encoding; and pushing a block moves the tree
    from the blocks of a network upgrade to those with the block added, or to a
    new tree at the next upgrade.  The hash is that of the reference root of
    [MmrSpec] over the leaves of those blocks. *)

From stdpp Require Import base numbers list option gmap sorting.
From Stdlib Require Import ZArith Lia.
From S2P Require Import Prelude Height BTree Network Difficulty NodeData Mmr MmrFacts HistoryTree.
Local Open Scope Z_scope.

Module HistoryFacts.
Import Network NodeData Mmr MmrSpec MmrFacts HistoryTree.

(** ** Peak positions *)

Section Positions.
Context {D : Type} `{!Version D} `{!VersionLaws D} {B : Blake2b} {BL : Blake2bLaws B}.
Implicit Types (ps qs : list (Peak (D := D))).

Lemma pow_S_Z (a : nat) : 2 ^ (Z.of_nat a + 1) = 2 * 2 ^ Z.of_nat a.
Proof. rewrite Z.pow_add_r by lia. lia. Qed.

Lemma pow_pos_Z (a : nat) : 1 <= 2 ^ Z.of_nat a.
Proof. assert (0 < 2 ^ Z.of_nat a) by (apply Z.pow_pos_nonneg; lia). lia. Qed.

(** Peaks below height [a] end before the position of a peak of height [a]. *)
Lemma node_total_below b s off a qs :
  peaks_ok b s off a qs -> qs = [] \/ node_total qs <= 2 ^ (Z.of_nat a + 1) - 3.
Proof.
  intros Hok. destruct qs as [|q qs]; [by left|right].
  pose proof (falling_leaves _ _ (peaks_ok_falling _ _ _ _ _ Hok)) as Hl. fold (p_all (q :: qs)) in Hl.
  rewrite pow_S_Z, <- pow_Z. destruct Hok as (_ & Hq & Hok). cbn [node_total].
  pose proof (node_total_bound _ _ _ _ _ Hok). pose proof (nodes_leaves _ _ _ _ Hq).
  rewrite p_all_cons, length_app in Hl. lia.
Qed.

Lemma peak_at_height b s off a q qs :
  peaks_ok b s off (S a) (q :: qs) -> p_height q = a ->
  p_pos q = off + 2 ^ (Z.of_nat a + 1) - 2 /\
  peaks_ok b (s + Z.of_nat (length (p_leaves q))) (off + nodes a) a qs.
Proof.
  intros (_ & Hq & Hok) <-. split; [|done]. rewrite (peak_pos _ _ _ _ Hq). unfold nodes. lia.
Qed.

Lemma at_or_below b s off a qs :
  peaks_ok b s off (S a) qs ->
  (exists q qs', qs = q :: qs' /\ p_height q = a) \/ peaks_ok b s off a qs.
Proof.
  destruct qs as [|q qs]; [by right|]. intros (Hlt & Hrest).
  destruct (decide (p_height q = a)); [left; by exists q, qs|right]. split; [lia|done].
Qed.

(** One round below altitude [S a]: it drops to altitude [a], and takes the peak
    there if there is one. *)
Lemma peak_positions_round {E} fuel b s off a qs acc :
  peaks_ok b s off (S a) qs -> 0 <= off -> off + 2 ^ (Z.of_nat a + 2) <= 2 ^ 32 ->
  exists qs' off' s' taken,
    qs = taken ++ qs' /\ peaks_ok b s' off' a qs' /\ off' + node_total qs' = off + node_total qs /\
    0 <= off' /\ off' + 2 ^ (Z.of_nat a + 1) <= 2 ^ 32 /\
    peak_positions (E := E) (S fuel) (off + node_total qs) (Z.of_nat (S a)) (off + 2 ^ (Z.of_nat a + 2) - 2) acc =
      (if Z.of_nat a =? 0 then Ok (acc ++ (p_pos <$> taken))
       else peak_positions fuel (off' + node_total qs') (Z.of_nat a) (off' + 2 ^ (Z.of_nat a + 1) - 2)
              (acc ++ (p_pos <$> taken))).
Proof.
  intros Hok Hoff Hb. pose proof (node_total_below _ _ _ _ _ Hok) as Hbelow.
  pose proof (node_total_bound _ _ _ _ _ Hok) as Hnb. pose proof (pow_pos_Z a) as Hpp.
  assert (H2 : 2 ^ (Z.of_nat a + 2) = 4 * 2 ^ Z.of_nat a).
  { rewrite Z.pow_add_r by lia. lia. }
  assert (HS : 2 ^ (Z.of_nat (S a) + 1) = 4 * 2 ^ Z.of_nat a).
  { rewrite <- H2. f_equal. lia. }
  assert (HS' : 2 ^ Z.of_nat (S a) = 2 * 2 ^ Z.of_nat a).
  { rewrite <- pow_S_Z. f_equal. lia. }
  pose proof (pow_S_Z a) as H1. rewrite H2 in *. rewrite HS in Hbelow.
  assert (Hge : off + node_total qs <= off + 4 * 2 ^ Z.of_nat a - 2).
  { destruct Hbelow as [->|?]; [cbn; lia|lia]. }
  cbn [peak_positions]. rewrite (proj2 (Z.leb_le _ _) Hge), HS'.
  run_arith.
  assert (Ha31 : Z.of_nat a < 32).
  { assert (2 ^ Z.of_nat a < 2 ^ 32) as Hlt by lia. apply Z.pow_lt_mono_r_iff in Hlt; lia. }
  run_arith.
  replace (Z.of_nat (S a) - 1) with (Z.of_nat a) by lia.
  replace (off + 4 * 2 ^ Z.of_nat a - 2 - 2 * 2 ^ Z.of_nat a) with (off + 2 * 2 ^ Z.of_nat a - 2) by lia.
  rewrite H1. destruct (at_or_below _ _ _ _ _ Hok) as [(q & qs' & -> & Hq)|Hok'].
  - destruct (peak_at_height _ _ _ _ _ _ Hok Hq) as [Hpos Hrest]. cbn [node_total] in *. rewrite Hq in *.
    pose proof (node_total_bound _ _ _ _ _ Hrest). unfold nodes in *. rewrite H1 in *.
    rewrite (proj2 (Z.ltb_lt _ _)) by lia. run_arith.
    exists qs', (off + (2 * 2 ^ Z.of_nat a - 1)), (s + Z.of_nat (length (p_leaves q))), [q].
    split; [done|]. split; [done|]. split; [lia|]. split; [lia|]. split; [lia|]. cbn [fmap list_fmap]. rewrite Hpos.
    destruct (Z.of_nat a =? 0); [done|]. f_equal; lia.
  - exists qs, off, s, []. split; [done|].
    split; [done|]. split; [done|]. split; [done|]. split; [lia|].
    pose proof (node_total_below _ _ _ _ _ Hok') as Hb'. rewrite H1 in Hb'.
    rewrite (proj2 (Z.ltb_ge _ _)) by (destruct Hb' as [->|?]; [cbn; lia|lia]).
    cbn [res_bind fmap list_fmap]. rewrite app_nil_r. done.
Qed.

Lemma peak_positions_loop {E} fuel b s off a qs acc :
  (a < fuel)%nat -> peaks_ok b s off (S a) qs -> 0 <= off -> off + 2 ^ (Z.of_nat a + 2) <= 2 ^ 32 ->
  peak_positions (E := E) fuel (off + node_total qs) (Z.of_nat (S a)) (off + 2 ^ (Z.of_nat a + 2) - 2) acc =
    Ok (acc ++ (p_pos <$> qs)).
Proof.
  revert fuel s off qs acc. induction a as [|a IH]; intros [|fuel] s off qs acc Hf Hok Hoff Hb; [lia| |lia|].
  all: destruct (peak_positions_round (E := E) fuel b s off _ qs acc Hok Hoff Hb)
         as (qs' & off' & s' & taken & -> & Hok' & Hsum & Hoff' & Hb' & ->).
  - destruct qs' as [|q qs']; [|destruct Hok' as [? _]; lia]. by rewrite app_nil_r.
  - rewrite (proj2 (Z.eqb_neq _ _)) by lia.
    replace (Z.of_nat (S a) + 1) with (Z.of_nat a + 2) in * by lia.
    rewrite (IH fuel s' off' qs') by (done || lia). by rewrite fmap_app, app_assoc.
Qed.

(** [prune] finds the positions of the peaks. *)
Lemma collect_peak_positions_Ok {E} b s ps :
  peaks_ok b s 0 32 ps -> ps <> [] -> 1 <= s -> s + Z.of_nat (length (p_all ps)) <= 2 ^ 31 ->
  collect_peak_positions (E := E) (node_total ps) = Ok (p_pos <$> ps).
Proof.
  intros Hok Hne H1 H2. pose proof (node_total_bound _ _ _ _ _ Hok) as Hnb.
  destruct ps as [|p ps]; [done|]. set (h := p_height p).
  assert (Hok' : peaks_ok b s 0 (S h) (p :: ps)) by (destruct Hok as (_ & ?); split; [unfold h; lia|done]).
  destruct (peak_at_height _ _ _ _ _ _ Hok' eq_refl) as [Hpos Hrest]. fold h in Hpos, Hrest.
  pose proof (node_total_below _ _ _ _ _ Hrest) as Hbelow. pose proof (node_total_bound _ _ _ _ _ Hrest) as Hnr.
  assert (Hh : 2 ^ Z.of_nat h < 2 ^ 31).
  { rewrite <- pow_Z. destruct Hok as (_ & Hp & _). pose proof (peak_length _ _ _ _ Hp) as Hl. fold h in Hl.
    rewrite p_all_cons, length_app in H2. lia. }
  pose proof (pow_pos_Z h) as Hpp. pose proof (pow_S_Z h) as Hp1.
  assert (Hh31 : Z.of_nat h < 31) by (apply Z.pow_lt_mono_r_iff in Hh; lia).
  assert (Hh30 : 2 ^ Z.of_nat h <= 2 ^ 30) by (apply Z.pow_le_mono_r; lia).
  cbn [node_total] in *. fold h in Hnb |- *. unfold nodes in *. rewrite Hp1 in *.
  unfold collect_peak_positions. run_arith.
  assert (Hlog : Z.log2 (2 * 2 ^ Z.of_nat h - 1 + node_total ps + 1) = Z.of_nat h + 1).
  { apply Z.log2_unique; [lia|]. rewrite Z.pow_succ_r, Hp1 by lia. destruct Hbelow as [->|?]; [cbn; lia|lia]. }
  rewrite Hlog. run_arith.
  replace (Z.of_nat h + 1 - 1) with (Z.of_nat h) by lia. rewrite Hp1.
  run_arith.
  change 64%nat with (S 63). set (f := 63%nat). assert (Hf : f = 63%nat) by done. clearbody f.
  cbn [peak_positions]. rewrite (proj2 (Z.leb_gt _ _)) by lia. cbn [res_bind].
  rewrite (proj2 (Z.ltb_lt _ _)) by lia. rewrite Hp1, uint_arith_Ok by lia. cbn [res_bind].
  rewrite uint_arith_Ok by lia. cbn [res_bind app fmap list_fmap]. rewrite Hpos.
  destruct h as [|a].
  - destruct ps as [|q ps]; [done|]. destruct Hrest as [? _]. lia.
  - rewrite (proj2 (Z.eqb_neq _ _)) by lia.
    replace (Z.of_nat (S a) + 1) with (Z.of_nat a + 2) in Hp1 by lia. rewrite Z.add_0_l.
    replace (2 * 2 ^ Z.of_nat (S a) - 2 + 2 * 2 ^ Z.of_nat (S a) - 1) with
      (2 * 2 ^ Z.of_nat (S a) - 1 + 2 ^ (Z.of_nat a + 2) - 2) by lia.
    rewrite Z.add_0_l in Hrest.
    by rewrite (peak_positions_loop _ b (s + Z.of_nat (length (p_leaves p)))) by (done || lia).
Qed.
End Positions.

(** ** Encoded entries *)

Section Entries.
Context {D : Type} `{!Version D} `{!VersionLaws D} {B : Blake2b} {BL : Blake2bLaws B}.

(** A writable entry fits its buffer and is read back. *)
Lemma encode_decode b (e : Entry (D := D)) :
  writable b e ->
  exists bytes, (forall E, encode (E := E) e = Ok bytes) /\ entry_from_bytes b bytes = Ok e.
Proof.
  intros (Hwf & Hb & Hk). pose proof (write_size _ Hwf) as Hsz. unfold MAX_NODE_DATA_SIZE in Hsz.
  unfold encode, entry_write, entry_from_bytes, entry_read, MAX_ENTRY_SIZE, MAX_NODE_DATA_SIZE.
  destruct Hk as [Hk|(l & r & Hk & Hl & Hr)]; rewrite Hk; cbn [expect_ok res_bind].
  - exists (pad 326 (1 :: write_data (data e))). split.
    + intros E. rewrite (proj2 (Z.leb_le _ _)) by (cbn [length]; lia). done.
    + unfold pad. cbn [app]. rewrite read_le_byte. cbn [res_bind fst snd Z.eqb Pos.eqb].
      rewrite <- Hb, read_write by done. cbn. rewrite <- Hk. by destruct e.
  - exists (pad 326 (0 :: le_bytes 4 l ++ le_bytes 4 r ++ write_data (data e))). split.
    + intros E. rewrite (proj2 (Z.leb_le _ _)); [done|].
      cbn [length]. rewrite !length_app, !length_le_bytes. lia.
    + unfold pad. rewrite <- app_comm_cons, <- !app_assoc. rewrite read_le_byte. cbn [res_bind fst snd Z.eqb].
      rewrite read_le_bytes by (cbn; lia). cbn [res_bind fst snd].
      rewrite read_le_bytes by (cbn; lia). cbn [res_bind fst snd].
      rewrite <- Hb, read_write by done. cbn. rewrite <- Hk. by destruct e.
Qed.

(** The cached form [x] of an entry [y] at an array position. *)
Definition cached (b : Z) (x : Z * list Z) (y : Z * Entry (D := D)) : Prop :=
  x.1 = y.1 /\ writable b y.2 /\ encode (E := unit) y.2 = Ok x.2.

Lemma cached_decode b x y : cached b x y -> entry_from_bytes b x.2 = Ok y.2.
Proof.
  intros (_ & Hw & He). destruct (encode_decode _ _ Hw) as (bytes & Hb & Hd).
  specialize (Hb unit). rewrite He in Hb. by injection Hb as ->.
Qed.

Lemma decode_entries_Ok b l es :
  Forall2 (cached b) l es -> decode_entries b l = Ok es.
Proof.
  induction 1 as [|x y l es Hxy _ IH]; [done|]. destruct x as [i bytes], y as [j e]. cbn [decode_entries].
  pose proof (cached_decode _ _ _ Hxy) as Hd. cbn [snd] in Hd. rewrite Hd. cbn [res_bind]. rewrite IH. cbn [res_bind].
  destruct Hxy as (Hij & _). cbn in Hij. by subst.
Qed.

(** The appended nodes are encoded in order. *)
Lemma encode_links_Ok {E} b T c n :
  0 <= n -> (forall i, c <= i < c + n -> exists e, stored T !! i = Some e /\ writable b e) ->
  exists l es, encode_links (D := D) (E := E) T (Stored <$> seqZ c n) = Ok l /\
    Forall2 (cached b) (zip (seqZ c n) l) (zip (seqZ c n) es) /\ length l = Z.to_nat n /\ length es = Z.to_nat n /\
    (forall i e, c <= i < c + n -> stored T !! i = Some e -> (i, e) ∈ zip (seqZ c n) es).
Proof.
  intros Hn. revert c. pattern n. apply natlike_ind; [| |done]; clear n Hn.
  - intros c _. exists [], []. split; [done|]. split; [constructor|]. split; [done|]. split; [done|]. lia.
  - intros n Hn IH c Hst. destruct (Hst c ltac:(lia)) as (e & He & Hw).
    destruct (IH (c + 1)) as (l & es & Hl & Hf & Hlen & Hlen' & Hin); [intros i Hi; apply Hst; lia|].
    destruct (encode_decode b e Hw) as (bytes & Hb & _).
    exists (bytes :: l), (e :: es). rewrite <- Z.add_1_l, (seqZ_cons c) by lia.
    rewrite <- (Z.add_1_r c). replace (Z.pred (1 + n)) with n by lia. replace (Z.succ c) with (c + 1) by lia.
    split; [|split; [|split; [|split]]].
    + cbn [fmap list_fmap encode_links]. unfold resolve_link. rewrite He. cbn [ok_or res_bind expect_ok node].
      rewrite Hb. cbn [res_bind]. rewrite Hl. done.
    + cbn [zip zip_with]. constructor; [by split|done].
    + cbn. lia.
    + cbn. lia.
    + intros i e' Hi He'. cbn [zip zip_with]. destruct (decide (i = c)) as [->|Hne].
      * rewrite He in He'. injection He' as ->. by left.
      * right. apply Hin; [lia|done].
Qed.
End Entries.

(** ** Sorted arrays *)

Lemma sorted_ext (l l' : list Z) :
  StronglySorted Z.lt l -> StronglySorted Z.lt l' -> (forall x, x ∈ l <-> x ∈ l') -> l = l'.
Proof.
  intros Hs. revert l'. induction Hs as [|x l Hs IH Hx]; intros l' Hs' Hin.
  - destruct l' as [|y l']; [done|]. exfalso. apply (not_elem_of_nil (A := Z) y), Hin. by left.
  - destruct Hs' as [|y l' Hs' Hy]; [exfalso; apply (not_elem_of_nil (A := Z) x), Hin; by left|].
    rewrite Forall_forall in Hx, Hy.
    assert (x = y) as <-.
    { assert (x ∈ y :: l') as H1 by (apply Hin; by left). assert (y ∈ x :: l) as H2 by (apply Hin; by left).
      apply elem_of_cons in H1 as [->|H1]; [done|]. apply elem_of_cons in H2 as [->|H2]; [done|].
      specialize (Hx y H2). specialize (Hy x H1). lia. }
    f_equal. apply IH; [done|]. intros z. split; intros Hz.
    + assert (z ∈ x :: l') as [->|?]%elem_of_cons by (apply Hin; by right); [|done].
      specialize (Hx x Hz). lia.
    + assert (z ∈ x :: l) as [->|?]%elem_of_cons by (apply Hin; by right); [|done].
      specialize (Hy x Hz). lia.
Qed.

Section Arrays.
Context {A : Type}.
Implicit Types (l : list (Z * A)).

Lemma fst_in i (l : list (Z * A)) : i ∈ l.*1 <-> exists a, (i, a) ∈ l.
Proof.
  rewrite list_elem_of_fmap. split; [intros ([j a] & -> & Hin); by exists a|].
  intros [a Hin]. by exists (i, a).
Qed.

Lemma filter_keys_sorted (P : Z * A -> Prop) `{!forall x, Decision (P x)} l :
  StronglySorted Z.lt l.*1 -> StronglySorted Z.lt (filter P l).*1.
Proof.
  induction l as [|[j c] l IH]; intros Hs; [constructor|]. inversion Hs as [|? ? Hs' Hf]; subst.
  rewrite filter_cons. destruct (decide (P (j, c))); [|by apply IH]. cbn. constructor; [by apply IH|].
  rewrite Forall_forall in *. intros i [a Hi]%fst_in. apply list_elem_of_filter in Hi as [_ Hi].
  apply Hf, fst_in. eauto.
Qed.

Lemma sorted_app_seq l n (xs : list A) c :
  StronglySorted Z.lt l.*1 -> Forall (fun x => x.1 < c) l -> length xs = Z.to_nat n -> 0 <= n ->
  StronglySorted Z.lt (l ++ zip (seqZ c n) xs).*1.
Proof.
  intros Hs Hf Hl Hn. rewrite fmap_app, fst_zip by (rewrite length_seqZ; lia).
  induction l as [|[j a] l IH]; cbn in *.
  - clear -Hn. revert c. pattern n. apply natlike_ind; [constructor| |done]. clear n Hn. intros n Hn IH c.
    rewrite <- Z.add_1_l, seqZ_cons by lia. replace (Z.pred (1 + n)) with n by lia.
    constructor; [apply IH|]. rewrite Forall_forall. intros i Hi%elem_of_seqZ. lia.
  - inversion Hs as [|? ? Hs' Hj]; subst. inversion Hf as [|? ? Hjc Hf']; subst. cbn in Hjc.
    constructor; [by apply IH|]. apply Forall_app. split; [done|].
    rewrite Forall_forall. intros i Hi%elem_of_seqZ. lia.
Qed.
End Arrays.

(** ** The cached tree *)

Section Cached.
Context {D : Type} `{!Version D} `{!VersionLaws D} {B : Blake2b} {BL : Blake2bLaws B}.

(** The runtime tree [T] is the view of the leaves [ds], and the cache holds the
    encoding of every entry it stores. *)
Record hrep (b s : Z) (T : Mmr.Tree (D := D)) (size : Z) (peaks : list (Z * list Z)) (ds : list D) : Prop := {
  h_view : view b s T ds;
  h_size : size = stored_count T;
  h_entries : exists es, Forall2 (cached b) peaks es /\ StronglySorted Z.lt es.*1 /\
    Forall (fun y => y.1 < size) es /\ (forall i e, stored T !! i = Some e -> (i, e) ∈ es);
  h_peaks : exists ps es, peaks_ok b s 0 32 ps /\ p_all ps = ds /\ ps <> [] /\ node_total ps = size /\
    Forall2 (cached b) peaks es /\ Forall2 loads ps es;
  h_generated : (length (generated T) < 32)%nat;
}.

Lemma cached_filter b (P : Z * list Z -> Prop) (Q : Z * Entry (D := D) -> Prop)
    `{!forall x, Decision (P x)} `{!forall y, Decision (Q y)} l es :
  (forall x y, x.1 = y.1 -> P x <-> Q y) -> Forall2 (cached b) l es ->
  Forall2 (cached b) (filter P l) (filter Q es).
Proof.
  intros HPQ. induction 1 as [|x y l es Hxy _ IH]; [constructor|]. rewrite !filter_cons.
  pose proof (HPQ x y (proj1 Hxy)). destruct (decide (P x)), (decide (Q y)); try tauto.
  constructor; [done|done].
Qed.

Lemma cached_keys b l (es : list (Z * Entry (D := D))) : Forall2 (cached b) l es -> l.*1 = es.*1.
Proof. induction 1 as [|x y l es (Hk & _) _ IH]; [done|]. cbn. by rewrite Hk, IH. Qed.

(** Filtering an array of entries by the positions of stored peaks leaves the
    entries of the peaks. *)
Lemma filter_loads T (ps : list (Peak (D := D))) es :
  Forall (stored_peak T) ps -> StronglySorted Z.lt (p_pos <$> ps) -> StronglySorted Z.lt es.*1 ->
  (forall i e, stored T !! i = Some e -> (i, e) ∈ es) ->
  Forall2 loads ps (filter (fun y => y.1 ∈ p_pos <$> ps) es).
Proof.
  intros Hst Hps Hes Hin. set (f := filter (fun y => y.1 ∈ p_pos <$> ps) es).
  assert (Hfs : StronglySorted Z.lt f.*1) by (by apply filter_keys_sorted).
  assert (Hpf : forall p, p ∈ ps -> exists k, (p_pos p, mkEntry k (p_data p)) ∈ f).
  { intros p Hp. rewrite Forall_forall in Hst. destruct (Hst p Hp) as [k Hk]. exists k.
    apply list_elem_of_filter. split; [|by apply Hin]. cbn. apply list_elem_of_fmap. by exists p. }
  assert (Hkeys : f.*1 = p_pos <$> ps).
  { apply sorted_ext; [done|done|]. intros i. rewrite fst_in. split.
    - intros [e [Hi _]%list_elem_of_filter]. done.
    - intros (p & -> & Hp)%list_elem_of_fmap. destruct (Hpf p Hp) as [k Hk]. eauto. }
  clearbody f. clear Hst Hes Hin Hps. revert ps Hpf Hkeys. induction f as [|[i e] f IH]; intros [|p ps] Hpf Hkeys; try done.
  cbn in Hkeys. injection Hkeys as Hi Hkeys. cbn in Hfs. inversion Hfs as [|? ? Hfs' Hf]; subst.
  rewrite Forall_forall in Hf. constructor.
  - destruct (Hpf p ltac:(by left)) as [k Hk]. exists k. apply elem_of_cons in Hk as [Heq|Hk].
    + by injection Heq as <-.
    + exfalso. assert (p_pos p < p_pos p); [|lia]. apply Hf, fst_in. eauto.
  - apply IH; [done| |done]. intros q Hq. destruct (Hpf q ltac:(by right)) as [k Hk]. exists k.
    apply elem_of_cons in Hk as [Heq|Hk]; [|done]. exfalso.
    assert (p_pos p < p_pos q); [|injection Heq as ? _; lia]. apply Hf. rewrite Hkeys. apply list_elem_of_fmap. by exists q.
Qed.

(** The peaks of the tree are found among the entries of a cache that has all of
    the array. *)
Lemma peaks_loaded b s T ps acc (es : list (Z * Entry (D := D))) :
  bagged T (root T) ps acc -> peaks_ok b s 0 32 ps -> stored_count T = node_total ps ->
  StronglySorted Z.lt es.*1 ->
  (forall i e, stored T !! i = Some e -> i < stored_count T -> (i, e) ∈ es) ->
  Forall2 loads ps (filter (fun y => y.1 ∈ p_pos <$> ps) es).
Proof.
  intros Hb Hok Hct Hsort Hin. pose proof (peaks_positions_sorted _ _ _ _ _ Hok) as [_ Hpsort].
  set (T0 := Mmr.mkTree (filter (fun x => x.1 < stored_count T) (stored T)) (generated T) (stored_count T) (root T)).
  apply (filter_loads T0); [|done|done|].
  - pose proof (bagged_stored _ _ _ _ Hb) as Hf. rewrite Forall_forall in Hf |- *. intros p Hp.
    destruct (Hf p Hp) as [k Hk]. exists k. cbn. apply map_lookup_filter_Some. split; [done|]. cbn.
    pose proof (peaks_pos_bound _ _ _ _ _ _ Hok Hp ltac:(lia)). lia.
  - intros i e Hi. cbn in Hi. apply map_lookup_filter_Some in Hi as [Hi Hlt]. by apply Hin.
Qed.

(** Appending a leaf, caching the new nodes, pruning and rebuilding. *)
Lemma hrep_step {E} b s T size peaks ds d :
  hrep b s T size peaks ds -> chain_of b s (ds ++ [d]) ->
  exists links T' entries positions T'',
    append_leaf d T = (Ok links, T') /\ encode_links (E := E) T' links = Ok entries /\
    let size' := size + Z.of_nat (length entries) in
    let peaks' := filter (fun x => x.1 ∈ positions)
      (peaks ++ zip (seqZ size (Z.of_nat (length entries))) entries) in
    0 <= size /\ size' < 2 ^ 32 /\ Forall (fun x => x.1 < size) peaks /\
    collect_peak_positions (E := IoError) size' = Ok positions /\
    (forall network nu, branch_id nu = Some b ->
       new_from_cache network nu size' peaks' [] = Ok (HistoryTree.mkTree network nu T'')) /\
    hrep b s T'' size' peaks' (ds ++ [d]).
Proof.
  intros [Hv Hsz (es & Hcache & Hsort & Hbelow & Hst) _ Hgen] Hchain.
  destruct (append_leaf_view b s T ds d Hv Hchain ltac:(lia)) as (n & T' & Happ & Hn & Hv'%view_edge_view & (Hct & Hold & Hnew) & _).
  destruct (encode_links_Ok (E := E) b T' size n ltac:(lia)) as (entries & es' & Henc & Hcache' & Hlen & Hlen' & Hin').
  { intros i Hi. apply Hnew. lia. }
  destruct Hv' as (ps & acc & Hok & Hall & Hb & Hct').
  pose proof Hchain as (_ & _ & H1 & H2). rewrite <- Hall in H2. pose proof (node_total_bound _ _ _ _ _ Hok) as Hnb.
  assert (Hs0 : 0 <= size).
  { destruct Hv as (ps0 & ? & Hok0 & _ & _ & Hc0). pose proof (node_total_bound _ _ _ _ _ Hok0). lia. }
  assert (Hsize : size + Z.of_nat (length entries) = node_total ps) by lia.
  assert (HnZ : Z.of_nat (length entries) = n) by lia.
  pose proof (bagged_nonempty _ _ _ _ Hb) as Hne.
  pose proof (peaks_positions_sorted _ _ _ _ _ Hok) as [_ Hpsort].
  set (es2 := es ++ zip (seqZ size n) es').
  assert (Hsort2 : StronglySorted Z.lt es2.*1) by (apply sorted_app_seq; [done|done|done|lia]).
  assert (Hst2 : forall i e, stored T' !! i = Some e -> i < stored_count T' -> (i, e) ∈ es2).
  { intros i e Hi Hlt. apply elem_of_app. destruct (decide (i < stored_count T)) as [Hl|Hl].
    - left. apply Hst. by rewrite <- Hold.
    - right. apply Hin'; [lia|done]. }
  set (positions := p_pos <$> ps).
  pose proof (peaks_loaded b s T' ps acc es2 Hb Hok ltac:(lia) Hsort2 Hst2) as Hloads. fold positions in Hloads.
  assert (Hcache2 : Forall2 (cached b) (filter (fun x => x.1 ∈ positions) (peaks ++ zip (seqZ size n) entries))
    (filter (fun y => y.1 ∈ positions) es2)).
  { apply cached_filter; [by intros x y ->|]. by apply Forall2_app. }
  destruct (new_view (E := IoError) b s ps _ Hloads Hok) as (T'' & Hnew'' & Hv'' & Hg'');
    [by rewrite Hall|done|]. rewrite Hall in Hv''.
  pose proof (new_stored _ _ _ Hnew'') as [Hct'' Hst''].
  exists (Stored <$> seqZ (stored_count T) n), T', entries, positions, T''.
  split; [done|]. rewrite <- Hsz. split; [done|]. cbn zeta. rewrite Hsize, HnZ.
  split; [done|]. split; [lia|]. split.
  { pose proof (cached_keys _ _ _ Hcache) as Hk. rewrite Forall_forall in Hbelow. apply Forall_forall. intros [i x] Hx. cbn.
    assert (i ∈ es.*1) as [e He]%fst_in by (rewrite <- Hk; apply fst_in; eauto). by apply (Hbelow (i, e)). }
  split; [by apply (collect_peak_positions_Ok b s); [done|done|done|]|]. split.
  - intros network nu Hnu. unfold new_from_cache. rewrite Hnu. cbn [ok_or res_bind].
    rewrite (decode_entries_Ok _ _ _ Hcache2). cbn [res_bind decode_entries]. by rewrite Hnew''.
  - split; [done|by rewrite Hct''| |by exists ps, (filter (fun y => y.1 ∈ positions) es2)|done].
    eexists. split; [exact Hcache2|].
    split; [by apply filter_keys_sorted|]. split; [|exact Hst''].
    rewrite Forall_forall. intros [i e] [Hi _]%list_elem_of_filter. cbn [fst] in Hi |- *.
    apply list_elem_of_fmap in Hi as (p & -> & Hp). pose proof (peaks_pos_bound _ _ _ _ _ _ Hok Hp ltac:(lia)). lia.
Qed.

(** The cache alone rebuilds the tree. *)
Lemma loads_stored (ps : list (Peak (D := D))) b s off hb es :
  peaks_ok b s off hb ps -> Forall2 loads ps es -> 0 <= off ->
  Forall (fun y => y.1 < off + node_total ps) es /\ StronglySorted Z.lt es.*1.
Proof.
  intros Hok Hl Hoff. assert (Hk : es.*1 = p_pos <$> ps).
  { clear -Hl. induction Hl as [|p x ps es [k ->] _ IH]; [done|]. cbn. by rewrite IH. }
  split; [|rewrite Hk; by apply (peaks_positions_sorted b s off hb)].
  rewrite Forall_forall. intros [i e] Hi. assert (i ∈ es.*1) as Hi' by (apply fst_in; eauto).
  rewrite Hk in Hi'. apply list_elem_of_fmap in Hi' as (p & -> & Hp). cbn.
  by apply (peaks_pos_bound b s off hb ps).
Qed.

Lemma hrep_load b s (ps : list (Peak (D := D))) peaks es :
  peaks_ok b s 0 32 ps -> ps <> [] -> chain_of b s (p_all ps) ->
  Forall2 (cached b) peaks es -> Forall2 loads ps es ->
  exists T, (forall network nu, branch_id nu = Some b ->
      new_from_cache network nu (node_total ps) peaks [] = Ok (HistoryTree.mkTree network nu T)) /\
    hrep b s T (node_total ps) peaks (p_all ps).
Proof.
  intros Hok Hne Hchain Hcache Hloads.
  destruct (new_view (E := IoError) b s ps es Hloads Hok Hchain Hne) as (T & Hnew & Hv & Hg).
  pose proof (new_stored _ _ _ Hnew) as [Hct Hst].
  destruct (loads_stored ps b s 0 32 es Hok Hloads ltac:(lia)) as [Hbelow Hsort].
  exists T. split.
  - intros network nu Hnu. unfold new_from_cache. rewrite Hnu. cbn [ok_or res_bind].
    rewrite (decode_entries_Ok _ _ _ Hcache). cbn [res_bind decode_entries]. by rewrite Hnew.
  - split; [done|done|by exists es|by exists ps, es|done].
Qed.

Lemma hrep_reload b s T size peaks (ds : list D) :
  hrep b s T size peaks ds -> chain_of b s ds ->
  exists T', (forall network nu, branch_id nu = Some b ->
      new_from_cache network nu size peaks [] = Ok (HistoryTree.mkTree network nu T')) /\
    hrep b s T' size peaks ds.
Proof.
  intros [_ _ _ (ps & es & Hok & <- & Hne & <- & Hcache & Hloads) _] Hchain. by apply (hrep_load b s ps peaks es).
Qed.

(** The root of a view, with its hash. *)
Lemma view_hash {E} b s T (ds : list D) :
  view b s T ds -> chain_of b s ds ->
  exists k d, root_node T = Ok (mkIndexed (mkEntry k d) (root T)) /\ history_root ds = Ok d /\
    NodeData.hash (E := E) d = Ok (blake2b_personal (personalization (branch_of d)) (write_data d)).
Proof.
  intros Hv (Hc & Hf & _). destruct (view_root _ _ _ _ Hv) as (k & d & Hr & Hd). exists k, d.
  split; [done|]. split; [done|]. apply hash_Ok. destruct Hv as (ps & d' & Hok & <- & Hb & _).
  pose proof (bagged_covers _ _ _ _ _ _ _ _ Hb Hok Hc Hf) as Hcov.
  destruct (resolve_bagged _ _ _ _ Hb) as [k' Hr']. unfold root_node in Hr. rewrite Hr' in Hr.
  injection Hr as _ <-. apply Hcov.
Qed.
End Cached.
End HistoryFacts.
