(* ===== verification/HistoryPush.v ===== *)
(** * Pushing blocks to the history tree

    [rep network t epoch]: the history tree [t] holds the blocks [epoch], those
    since the activation of its network upgrade.  The theorems: [from_parts]
    starts an epoch, [push_from_parts] extends it or starts the next one,
    [clone] and the cache rebuild the same tree, and the hash of the tree is the
    hash of the reference root over the leaves of the epoch. *)

From stdpp Require Import base numbers list option gmap sorting.
From Stdlib Require Import ZArith Lia.
From S2P Require Import Prelude Height BTree Network Difficulty DifficultyFacts NodeData Mmr MmrFacts.
From S2P Require Import MmrFacts HistoryTree HistoryFacts.
Local Open Scope Z_scope.

Module HistoryPush.
Import Network NodeData Mmr MmrSpec MmrFacts HistoryTree HistoryFacts.

(** ** The reference *)

Section Reference.
Context {U : Difficulty.U256} {B : Blake2b}.

Fixpoint collect_leaves {D} `{HistoryVersion D} (adjust : HistoryTreeBlockParts -> HistoryTreeBlockParts)
  (network : Network) (epoch : list HistoryTreeBlockParts) : res unit (list D) :=
  match epoch with
  | [] => Ok []
  | parts :: epoch =>
      let? d := parts_to_history_node (adjust parts) network in
      let? ds := collect_leaves adjust network epoch in
      Ok (d :: ds)
  end.

Definition epoch_hash {D} `{HistoryVersion D} (adjust : HistoryTreeBlockParts -> HistoryTreeBlockParts)
  (network : Network) (epoch : list HistoryTreeBlockParts) : res unit (list Z) :=
  let? ds := collect_leaves (D := D) adjust network epoch in
  let? root := history_root ds in
  NodeData.hash root.

(** The history root of an epoch under its network upgrade (ZIP-221): which node
    version applies, and which roots it commits to. *)
Definition expected_hash (network : Network) (nu : NetworkUpgrade) (epoch : list HistoryTreeBlockParts)
  : res unit (list Z) :=
  match nu with
  | Genesis | BeforeOverwinter | Overwinter | Sapling | Blossom => Panic
  | Heartwood | Canopy => epoch_hash (D := NodeData) without_orchard network epoch
  | Nu5 | Nu6 | Nu6_1 | Nu6_2 => epoch_hash (D := V2) without_ironwood network epoch
  | Nu6_3 | Nu7 => epoch_hash (D := V3) id network epoch
  end.
End Reference.

(** ** Valid block parts *)

Definition work_of (parts : HistoryTreeBlockParts) : Z :=
  match DifficultyFacts.target_of (difficulty_threshold (header parts)) with
  | Some t => 2 ^ 256 / (t + 1)
  | None => 0
  end.

Definition txs_of (parts : HistoryTreeBlockParts) : Z :=
  parts_sapling_tx parts + parts_orchard_tx parts + parts_ironwood_tx parts.

(** A block with a valid difficulty threshold, a 32-bit time and fields within
    their types. *)
Record valid_parts (parts : HistoryTreeBlockParts) : Prop := {
  vp_hash : is_hash (header_hash (header parts));
  vp_time : 0 <= timestamp (header parts) < 2 ^ 32;
  vp_threshold : 0 <= difficulty_threshold (header parts) < 2 ^ 32;
  vp_target : is_Some (DifficultyFacts.target_of (difficulty_threshold (header parts)));
  vp_sapling : is_hash (sapling_root parts);
  vp_orchard : is_hash (orchard_root parts);
  vp_ironwood : is_hash (ironwood_root parts);
  vp_txs : 0 <= parts_sapling_tx parts < 2 ^ 64 /\ 0 <= parts_orchard_tx parts < 2 ^ 64 /\
    0 <= parts_ironwood_tx parts < 2 ^ 64;
  vp_height : 1 <= height parts <= Height.MAX;
}.

Fixpoint sum_of (f : HistoryTreeBlockParts -> Z) (epoch : list HistoryTreeBlockParts) : Z :=
  match epoch with [] => 0 | p :: epoch => f p + sum_of f epoch end.

(** The transaction and work totals of an epoch are within their types. *)
Definition epoch_fits (epoch : list HistoryTreeBlockParts) : Prop :=
  sum_of txs_of epoch < 2 ^ 64 /\ sum_of work_of epoch < 2 ^ 256.

Definition hearted (nu : NetworkUpgrade) : bool :=
  match nu with Genesis | BeforeOverwinter | Overwinter | Sapling | Blossom => false | _ => true end.

Lemma hearted_branch nu : hearted nu = true -> exists b, branch_id nu = Some b /\ 0 <= b < 2 ^ 32.
Proof. destruct nu; try done; intros _; eexists; (split; [vm_compute; reflexivity|lia]). Qed.

Section Leaves.
Context {U : Difficulty.U256} {UL : Difficulty.U256Laws U}.

(** The leaf of a block: well-formed, of its single height, with the totals of
    the block. *)
Definition leaf_spec {D} `{VersionLaws D} (b : Z) (parts : HistoryTreeBlockParts) (d : D) : Prop :=
  wf_data d /\ branch_of d = b /\ start_of d = height parts /\ end_of d = height parts /\
  txs d <= txs_of parts /\ work d = work_of parts.

Lemma leaf_v1 E network parts nu b :
  valid_parts parts -> (forall E, current (E := E) network (height parts) = Ok nu) ->
  hearted nu = true -> branch_id nu = Some b -> 0 <= b < 2 ^ 32 ->
  exists d, parts_to_v1 (E := E) parts network = Ok d /\ leaf_spec b parts d /\
    sapling_tx d = parts_sapling_tx parts.
Proof.
  intros [Hh Ht Hd [t Htgt] Hs _ _ Htx Hht] Hcur Hheart Hb Hbr. unfold parts_to_v1. rewrite Hcur. cbn [res_bind].
  rewrite Hb. cbn [expect res_bind]. unfold to_uint. rewrite (proj2 (in_uint_spec _ _)) by done.
  cbn [expect res_bind]. rewrite DifficultyFacts.to_work_spec, Htgt by done. cbn [fmap option_fmap option_map res_bind expect].
  apply DifficultyFacts.target_of_Some in Htgt as Ht2. destruct Ht2 as [_ Ht2].
  assert (Hw : Difficulty.is_u256 (2 ^ 256 / (t + 1))).
  { split; [apply Z.div_pos; lia|apply Z.div_lt_upper_bound; lia]. }
  assert (Hm : match nu with
    | Genesis | BeforeOverwinter | Overwinter | Sapling | Blossom => Panic
    | _ => Ok (E := E) () end = Ok ()) by (by destruct nu). rewrite Hm. cbn [res_bind].
  eexists. split; [reflexivity|]. split; [|done].
  assert (Hmax : Height.MAX < 2 ^ 64) by (unfold Height.MAX, u32_max; vm_compute; reflexivity).
  split; [|split; [done|split; [done|split; [done|split; [cbn; unfold txs_of; lia|cbn; unfold work_of; by rewrite Htgt]]]]].
  cbn. unfold wf_v1. cbn. repeat (split; [first [done | lia]|]). lia.
Qed.

Lemma default_root_hash : is_hash default_root.
Proof. split; [done|]. apply Forall_replicate. unfold is_byte. lia. Qed.

Lemma valid_without_orchard parts : valid_parts parts -> valid_parts (without_orchard parts).
Proof. intros []. pose proof default_root_hash. by split. Qed.

Lemma valid_without_ironwood parts : valid_parts parts -> valid_parts (without_ironwood parts).
Proof. intros []. pose proof default_root_hash. by split. Qed.

Lemma leaf_v2 E network parts nu b :
  valid_parts parts -> (forall E, current (E := E) network (height parts) = Ok nu) ->
  hearted nu = true -> branch_id nu = Some b -> 0 <= b < 2 ^ 32 ->
  exists d, parts_to_v2 (E := E) parts network = Ok d /\ leaf_spec b parts d /\
    sapling_tx (v1 d) + orchard_tx d = parts_sapling_tx parts + parts_orchard_tx parts.
Proof.
  intros Hv Hcur Hh Hb Hbr. destruct (leaf_v1 E network parts nu b Hv Hcur Hh Hb Hbr) as (d & Hd & Hl & Ht).
  unfold parts_to_v2. rewrite Hd. cbn [res_bind]. eexists. split; [reflexivity|].
  destruct Hl as (Hw & Hbr' & Hs & He & _ & Hwk). destruct Hv. cbn in *. split; [|lia].
  split; [split; [done|split; [done|split; [done|cbn; lia]]]|]. repeat (split; [done|]). split; [cbn; unfold txs_of; lia|done].
Qed.

Lemma leaf_v3 E network parts nu b :
  valid_parts parts -> (forall E, current (E := E) network (height parts) = Ok nu) ->
  hearted nu = true -> branch_id nu = Some b -> 0 <= b < 2 ^ 32 ->
  exists d, parts_to_v3 (E := E) parts network = Ok d /\ leaf_spec b parts d.
Proof.
  intros Hv Hcur Hh Hb Hbr. destruct (leaf_v2 E network parts nu b Hv Hcur Hh Hb Hbr) as (d & Hd & Hl & Ht).
  unfold parts_to_v3. rewrite Hd. cbn [res_bind]. eexists. split; [reflexivity|].
  destruct Hl as (Hw & Hbr' & Hs & He & _ & Hwk). destruct Hv. cbn in *.
  split; [split; [done|split; [done|split; [done|cbn; lia]]]|]. repeat (split; [done|]). split; [cbn; unfold txs_of; lia|done].
Qed.
End Leaves.

(** ** The three versions of the inner tree *)

(** What the proofs use of a version: which network upgrades it serves, and that
    the [match]es on the inner tree select its operations. *)
Class EpochVersion {U : Difficulty.U256} {B : Blake2b} (D : Type) {V : Version D} {VL : VersionLaws D}
    {H : HistoryVersion D} := {
  adjust : HistoryTreeBlockParts -> HistoryTreeBlockParts;
  serves : NetworkUpgrade -> bool;
  wrap : Tree D -> InnerHistoryTree;
  adjust_height p : height (adjust p) = height p;
  serves_hearted nu : serves nu = true -> hearted nu = true;
  leaf_exists network parts nu b :
    valid_parts parts -> (forall E, current (E := E) network (height parts) = Ok nu) ->
    serves nu = true -> branch_id nu = Some b -> 0 <= b < 2 ^ 32 ->
    exists d, parts_to_history_node (adjust parts) network = Ok d /\ leaf_spec b parts d;
  append_inner_wrap t parts :
    append_inner (wrap t) parts =
      (let '(r, t') := append_leaf_parts t (adjust parts) in (map_err InnerError r, wrap t'));
  rebuild_wrap t self :
    inner self = wrap t ->
    rebuild self =
      (let? tree := new_from_cache (D := D) (network self) (network_upgrade self) (size self) (peaks self) [] in
       Ok (wrap tree));
  hash_wrap E t self : inner self = wrap t -> hash (E := E) self = tree_hash t;
  from_parts_wrap network parts nu :
    serves nu = true -> (forall E, current (E := E) network (height parts) = Ok nu) ->
    from_parts network parts =
      (let? p := map_err IOError (new_from_parts (D := D) network (adjust parts)) in
       Ok (mkHistory network nu (wrap p.1) 1 (bt_insert 0 p.2 []) (height parts)));
  expected_wrap network nu epoch :
    serves nu = true -> expected_hash network nu epoch = epoch_hash (D := D) adjust network epoch;
}.

Section Versions.
Context {U : Difficulty.U256} {UL : Difficulty.U256Laws U} {B : Blake2b}.

Lemma leaf_spec_adjust {D} `{VersionLaws D} b parts parts' (d : D) :
  leaf_spec b parts' d -> height parts' = height parts -> header parts' = header parts ->
  txs_of parts' = txs_of parts -> leaf_spec b parts d.
Proof.
  intros (Hw & Hb & Hs & He & Ht & Hk) Hh Hhd Htx. unfold leaf_spec. rewrite <- Hh, <- Htx. unfold work_of in *.
  by rewrite <- Hhd.
Qed.

#[export] Instance epoch_v1 : EpochVersion NodeData.
Proof.
  refine {| adjust := without_orchard; wrap := PreOrchard;
            serves nu := match nu with Heartwood | Canopy => true | _ => false end |}.
  - done.
  - by intros [].
  - intros network parts nu b Hv Hcur Hs Hb Hbr.
    destruct (leaf_v1 unit network (without_orchard parts) nu b) as (d & Hd & Hl & _);
      [by apply valid_without_orchard|done|by destruct nu|done|done|].
    exists d. split; [done|]. by apply (leaf_spec_adjust b parts (without_orchard parts)).
  - done.
  - intros t self Hi. unfold rebuild. by rewrite Hi.
  - intros E t self Hi. unfold hash. by rewrite Hi.
  - intros network parts nu Hs Hcur. unfold from_parts. rewrite Hcur. destruct nu; try done; cbn [res_bind];
      change (branch_id ?n) with (Some (default 0 (branch_id n))); cbn [res_bind];
      by destruct (map_err IOError (new_from_parts network (without_orchard parts))).
  - intros network [] epoch; done.
Defined.

#[export] Instance epoch_v2 : EpochVersion V2.
Proof.
  refine {| adjust := without_ironwood; wrap := OrchardOnward;
            serves nu := match nu with Nu5 | Nu6 | Nu6_1 | Nu6_2 => true | _ => false end |}.
  - done.
  - by intros [].
  - intros network parts nu b Hv Hcur Hs Hb Hbr.
    destruct (leaf_v2 unit network (without_ironwood parts) nu b) as (d & Hd & Hl & _);
      [by apply valid_without_ironwood|done|by destruct nu|done|done|].
    exists d. split; [done|]. by apply (leaf_spec_adjust b parts (without_ironwood parts)).
  - done.
  - intros t self Hi. unfold rebuild. by rewrite Hi.
  - intros E t self Hi. unfold hash. by rewrite Hi.
  - intros network parts nu Hs Hcur. unfold from_parts. rewrite Hcur. destruct nu; try done; cbn [res_bind];
      change (branch_id ?n) with (Some (default 0 (branch_id n))); cbn [res_bind];
      by destruct (map_err IOError (new_from_parts network (without_ironwood parts))).
  - intros network [] epoch; done.
Defined.

#[export] Instance epoch_v3 : EpochVersion V3.
Proof.
  refine {| adjust := id; wrap := IronwoodOnward;
            serves nu := match nu with Nu6_3 | Nu7 => true | _ => false end |}.
  - done.
  - by intros [].
  - intros network parts nu b Hv Hcur Hs Hb Hbr. apply (leaf_v3 unit network parts nu b); try done. by destruct nu.
  - done.
  - intros t self Hi. unfold rebuild. by rewrite Hi.
  - intros E t self Hi. unfold hash. by rewrite Hi.
  - intros network parts nu Hs Hcur. unfold from_parts. rewrite Hcur. destruct nu; try done; cbn [res_bind];
      change (branch_id ?n) with (Some (default 0 (branch_id n))); cbn [res_bind]; unfold id;
      by destruct (map_err IOError (new_from_parts network parts)).
  - intros network [] epoch; done.
Defined.

(** Every upgrade from Heartwood on has a version. *)
Lemma hearted_serves nu : hearted nu = true ->
  serves (D := NodeData) nu = true \/ serves (D := V2) nu = true \/ serves (D := V3) nu = true.
Proof. destruct nu; cbn; auto. Qed.
End Versions.

(** ** The representation *)

Section Epoch.
Context {U : Difficulty.U256} {UL : Difficulty.U256Laws U} {B : Blake2b} {BL : Blake2bLaws B}.
Context {D : Type} {V : Version D} {VL : VersionLaws D} {HV : HistoryVersion D} {EV : EpochVersion D}.

Definition leaf_rel (net : Network) (b : Z) (parts : HistoryTreeBlockParts) (d : D) : Prop :=
  parts_to_history_node (adjust parts) net = Ok d /\ leaf_spec b parts d.

Record rep_v (net : Network) (t : NonEmptyHistoryTree) (epoch : list HistoryTreeBlockParts)
    (tree : Tree D) (b s : Z) (ds : list D) : Prop := {
  r_network : network t = net;
  r_inner : inner t = wrap tree;
  r_serves : serves (D := D) (network_upgrade t) = true;
  r_branch : branch_id (network_upgrade t) = Some b;
  r_tree_network : tree_network tree = net;
  r_tree_upgrade : tree_upgrade tree = network_upgrade t;
  r_chain : chain_of b s ds;
  r_leaves : Forall2 (leaf_rel net b) epoch ds;
  r_cache : hrep b s (tree_inner tree) (size t) (peaks t) ds;
  r_height : current_height t = s + Z.of_nat (length epoch) - 1;
  r_current : forall E, current (E := E) net (current_height t) = Ok (network_upgrade t);
}.

Lemma leaves_totals net b epoch ds :
  Forall2 (leaf_rel net b) epoch ds ->
  total txs ds <= sum_of txs_of epoch /\ total work ds = sum_of work_of epoch.
Proof.
  induction 1 as [|p d epoch ds (_ & _ & _ & _ & _ & Ht & Hw) _ IH]; cbn; [lia|]. lia.
Qed.

Lemma leaves_fit net b epoch ds :
  Forall2 (leaf_rel net b) epoch ds -> epoch_fits epoch -> fits ds.
Proof. intros Hl [Ht Hw]. apply leaves_totals in Hl. unfold fits. lia. Qed.

Lemma collect_leaves_Ok net b epoch ds :
  Forall2 (leaf_rel net b) epoch ds -> collect_leaves (D := D) adjust net epoch = Ok ds.
Proof.
  induction 1 as [|p d epoch ds (Hp & _) _ IH]; [done|]. cbn [collect_leaves]. rewrite Hp. cbn [res_bind].
  by rewrite IH.
Qed.

(** The hash is the expected one. *)
Lemma rep_v_hash net t epoch tree b s ds :
  rep_v net t epoch tree b s ds ->
  exists h, (forall E, hash (E := E) t = Ok h) /\ expected_hash net (network_upgrade t) epoch = Ok h.
Proof.
  intros [Hn Hi Hs Hb Htn Htu Hc Hl Hh _ _].
  destruct (view_hash (E := unit) _ _ _ _ (h_view _ _ _ _ _ _ Hh) Hc) as (k & d & Hr & Hd & Hhash).
  eexists. split.
  - intros E. rewrite (hash_wrap E tree t Hi). unfold tree_hash. rewrite Hr. cbn [expect_ok res_bind node data].
    destruct (view_hash (E := E) _ _ _ _ (h_view _ _ _ _ _ _ Hh) Hc) as (k' & d' & Hr' & _ & Hhash').
    rewrite Hr in Hr'. injection Hr' as <- <-. exact Hhash'.
  - rewrite expected_wrap by done. unfold epoch_hash. rewrite (collect_leaves_Ok _ _ _ _ Hl). cbn [res_bind].
    rewrite Hd. exact Hhash.
Qed.

(** A block of the same upgrade extends the epoch. *)
Lemma insert_entries_Ok {E} self entries :
  Forall (fun x => x.1 < size self) (peaks self) -> 0 <= size self ->
  size self + Z.of_nat (length entries) < 2 ^ 32 ->
  insert_entries (E := E) self entries =
    Ok (with_peaks self (size self + Z.of_nat (length entries))
          (peaks self ++ zip (seqZ (size self) (Z.of_nat (length entries))) entries)).
Proof.
  revert self. induction entries as [|e entries IH]; intros self Hf H0 H1; cbn [insert_entries].
  - cbn. rewrite Z.add_0_r, app_nil_r. by destruct self.
  - cbn [length] in *. run_arith. rewrite bt_insert_last by done.
    rewrite IH; cbn [with_peaks size peaks network network_upgrade inner current_height].
    + rewrite (seqZ_cons (size self)) by lia. cbn [zip zip_with]. rewrite <- app_assoc. cbn [app].
      replace (Z.succ (size self)) with (size self + 1) by lia.
      replace (Z.pred (Z.of_nat (S (length entries)))) with (Z.of_nat (length entries)) by lia.
      unfold with_peaks. cbn. do 2 f_equal. lia.
    + apply Forall_app. split; [|by constructor; [cbn; lia|]].
      eapply Forall_impl; [exact Hf|]. intros x Hx. cbn in Hx. lia.
    + lia.
    + lia.
Qed.

Lemma append_leaf_parts_Ok tree parts d links T' entries :
  (forall E, current (E := E) (tree_network tree) (height parts) = Ok (tree_upgrade tree)) ->
  parts_to_history_node parts (tree_network tree) = Ok d ->
  append_leaf d (tree_inner tree) = (Ok links, T') -> encode_links (E := Mmr.Error) T' links = Ok entries ->
  append_leaf_parts tree parts = (Ok entries, HistoryTree.mkTree (tree_network tree) (tree_upgrade tree) T').
Proof.
  intros Hcur Hp Ha He. unfold append_leaf_parts. rewrite Hcur, bool_decide_true by done.
  rewrite Hp, Ha. cbn [res_bind]. by rewrite He.
Qed.

Lemma push_same_upgrade net t epoch tree b s ds parts :
  rep_v net t epoch tree b s ds -> valid_parts parts -> height parts = current_height t + 1 ->
  (forall E, current (E := E) net (height parts) = Ok (network_upgrade t)) ->
  epoch_fits (epoch ++ [parts]) ->
  exists t' tree' d, push_from_parts t parts = (Ok (), t') /\ network_upgrade t' = network_upgrade t /\
    rep_v net t' (epoch ++ [parts]) tree' b s (ds ++ [d]).
Proof.
  intros [Hn Hi Hs Hb Htn Htu Hc Hl Hh Hht Hcur0] Hv Hheight Hcur Hfit.
  pose proof (vp_height _ Hv) as Hmax. change Height.MAX with 2147483647 in Hmax.
  destruct (hearted_branch _ (serves_hearted _ Hs)) as (b' & Hb' & Hbr). rewrite Hb in Hb'. injection Hb' as <-.
  destruct (leaf_exists net parts _ b Hv Hcur Hs Hb Hbr) as (d & Hd & Hleaf).
  assert (Hl' : Forall2 (leaf_rel net b) (epoch ++ [parts]) (ds ++ [d])).
  { apply Forall2_app; [done|]. constructor; [by split|constructor]. }
  pose proof (Forall2_length _ _ _ Hl) as Hlen.
  assert (Hc' : chain_of b s (ds ++ [d])).
  { destruct Hc as (Hcon & _ & H1 & _). split; [|split; [by apply (leaves_fit net b (epoch ++ [parts]))|]].
    - apply consecutive_app. split; [done|]. destruct Hleaf as (Hw & Hbd & Hsd & Hed & _). cbn.
      rewrite <- Hlen. split; [|done]. split; [done|]. split; [done|]. lia.
    - split; [done|]. rewrite length_app. cbn. lia. }
  destruct (hrep_step (E := Mmr.Error) b s _ _ _ _ d Hh Hc') as
    (links & T' & entries & positions & T'' & Ha & He & H0 & Hsz & Hbelow & Hpos & Hnew & Hh'').
  set (size' := size t + Z.of_nat (length entries)) in *.
  set (peaks' := filter (fun x => x.1 ∈ positions)
    (peaks t ++ zip (seqZ (size t) (Z.of_nat (length entries))) entries)) in *.
  set (tree' := HistoryTree.mkTree net (network_upgrade t) T'').
  exists (mkHistory net (network_upgrade t) (wrap tree') size' peaks' (height parts)), tree', d.
  split; [|split; [done|]].
  - unfold push_from_parts. cbn zeta. rewrite Hn, Hcur.
    assert (Hadd : Height.add_diff (E := unit) (current_height t) 1 = Ok (Some (height parts))).
    { unfold Height.add_diff. rewrite <- Hheight, sint_arith_Ok by lia. cbn [res_bind].
      unfold to_uint. rewrite (proj2 (in_uint_spec _ _)) by lia. cbn [mbind option_bind].
      unfold Height.try_from_u32. change Height.MAX with 2147483647. by rewrite (proj2 (Z.leb_le _ _)) by lia. }
    rewrite Hadd. cbn [negb]. rewrite !bool_decide_true by done. cbn [negb].
    rewrite Hi, append_inner_wrap.
    rewrite (append_leaf_parts_Ok tree (adjust parts) d links T' entries);
      [|by rewrite adjust_height, Htn, Htu|by rewrite Htn|done|done].
    cbn [map_err]. set (t1 := with_inner t (wrap (HistoryTree.mkTree (tree_network tree) (tree_upgrade tree) T'))).
    rewrite (insert_entries_Ok t1) by done. cbn [t1 with_inner with_peaks size peaks network network_upgrade inner current_height].
    unfold prune. cbn [size with_peaks with_inner]. fold size'. rewrite Hpos.
    unfold with_peaks. cbn [network network_upgrade inner size peaks current_height]. fold peaks'.
    rewrite (rebuild_wrap (HistoryTree.mkTree (tree_network tree) (tree_upgrade tree) T')) by done.
    cbn [network network_upgrade size peaks]. change (network t1) with (network t). change (network_upgrade t1) with (network_upgrade t).
    rewrite (Hnew (network t) _ Hb). cbn [res_bind].
    unfold with_inner. cbn [network network_upgrade inner size peaks current_height]. by rewrite Hn.
  - split; try done; cbn [current_height network_upgrade].
    rewrite length_app. cbn. lia.
Qed.

(** The first block of an upgrade starts an epoch. *)
Lemma from_parts_rep net parts nu :
  valid_parts parts -> (forall E, current (E := E) net (height parts) = Ok nu) ->
  serves (D := D) nu = true -> epoch_fits [parts] ->
  exists t tree b d, from_parts net parts = Ok t /\ network_upgrade t = nu /\
    current_height t = height parts /\ rep_v net t [parts] tree b (height parts) [d].
Proof.
  intros Hv Hcur Hs Hfit. pose proof (vp_height _ Hv) as Hmax. change Height.MAX with 2147483647 in Hmax.
  destruct (hearted_branch _ (serves_hearted _ Hs)) as (b & Hb & Hbr).
  destruct (leaf_exists net parts _ b Hv Hcur Hs Hb Hbr) as (d & Hd & Hleaf).
  assert (Hl : Forall2 (leaf_rel net b) [parts] [d]) by (constructor; [by split|constructor]).
  pose proof Hleaf as (Hw & Hbd & Hsd & Hed & _).
  assert (Hc : chain_of b (height parts) [d]).
  { split; [done|]. split; [by apply (leaves_fit net b [parts])|]. cbn. lia. }
  set (p0 := mkPeak 0 [d] d 0).
  assert (Hok : peaks_ok b (height parts) 0 32 [p0]).
  { split; [cbn; lia|]. split; [|done]. split; try done. split; cbn; try done; lia. }
  assert (Hwr : writable b (new_leaf d)) by (split; [done|split; [done|by left]]).
  destruct (encode_decode b (new_leaf d) Hwr) as (bytes & Henc & _).
  destruct (hrep_load b (height parts) [p0] [(0, bytes)] [(0, new_leaf d)]) as (T & Hnew & Hrep); [done|done|done|..].
  { constructor; [|constructor]. split; [done|]. by split; [|apply Henc]. }
  { constructor; [|constructor]. by exists Leaf. }
  change (node_total [p0]) with 1 in *. change (p_all [p0]) with [d] in *.
  set (tree := HistoryTree.mkTree net nu T).
  exists (mkHistory net nu (wrap tree) 1 [(0, bytes)] (height parts)), tree, b, d.
  split; [|split; [done|split; [done|]]].
  - rewrite (from_parts_wrap _ _ nu) by done. unfold new_from_parts. rewrite adjust_height, Hcur.
    cbn [res_bind]. rewrite Hb. unfold new_leaf_parts, from_node_data. rewrite Hd. cbn [expect_ok res_bind].
    rewrite Henc. cbn [res_bind bt_insert]. rewrite (Hnew net nu Hb). cbn [res_bind bt_get expect map_err].
    done.
  - split; try done. cbn. lia.
Qed.

(** [clone] rebuilds an equivalent tree from the cache. *)
Lemma clone_rep {E} net t epoch tree b s ds :
  rep_v net t epoch tree b s ds ->
  exists t' tree', clone (E := E) t = Ok t' /\ network_upgrade t' = network_upgrade t /\
    rep_v net t' epoch tree' b s ds.
Proof.
  intros [Hn Hi Hs Hb Htn Htu Hc Hl Hh Hht Hcur].
  destruct (hrep_reload _ _ _ _ _ _ Hh Hc) as (T' & Hnew & Hh').
  unfold clone. rewrite (rebuild_wrap tree t Hi), (Hnew _ _ Hb). cbn [res_bind expect_ok].
  eexists _, (HistoryTree.mkTree (network t) (network_upgrade t) T'). split; [reflexivity|]. split; [done|].
  split; try done.
Qed.

Lemma rep_v_last net t epoch tree b s ds :
  rep_v net t epoch tree b s ds -> exists p, last epoch = Some p /\ height p = current_height t.
Proof.
  intros [_ _ _ _ _ _ (Hc & _) Hl Hh Hht _].
  destruct epoch as [|p epoch _] using rev_ind.
  - apply Forall2_nil_inv_l in Hl as ->. destruct (h_view _ _ _ _ _ _ Hh) as (ps & d & Hok & Hall & Hb & _).
    apply bagged_nonempty in Hb. destruct ps as [|q ps]; [done|]. destruct Hok as (_ & Hq & _).
    rewrite p_all_cons in Hall. apply peak_nonempty in Hq. by destruct (p_leaves q).
  - exists p. rewrite last_snoc. split; [done|].
    apply Forall2_app_inv_l in Hl as (ds1 & ds2 & Hl1 & Hl2 & ->).
    inversion Hl2 as [|? d ? ? (_ & _ & _ & Hsd & _) Hl3]; subst.
    apply Forall2_length in Hl1. apply consecutive_app in Hc as [_ [(_ & _ & Hst & _) _]].
    rewrite Hht, length_app. cbn. rewrite <- Hsd, Hst, Hl1. lia.
Qed.
End Epoch.

(** ** The history of a chain *)

Section Chain.
Context {U : Difficulty.U256} {UL : Difficulty.U256Laws U} {B : Blake2b} {BL : Blake2bLaws B}.

(** The tree holds the blocks of [epoch] under one of the versions. *)
Definition rep (net : Network) (t : NonEmptyHistoryTree) (epoch : list HistoryTreeBlockParts) : Prop :=
  (exists tree b s ds, rep_v (D := NodeData) net t epoch tree b s ds) \/
  (exists tree b s ds, rep_v (D := V2) net t epoch tree b s ds) \/
  (exists tree b s ds, rep_v (D := V3) net t epoch tree b s ds).

Lemma rep_hash net t epoch :
  rep net t epoch ->
  exists h, (forall E, hash (E := E) t = Ok h) /\ expected_hash net (network_upgrade t) epoch = Ok h.
Proof. intros [(? & ? & ? & ? & H)|[(? & ? & ? & ? & H)|(? & ? & ? & ? & H)]]; exact (rep_v_hash _ _ _ _ _ _ _ H). Qed.

Lemma rep_upgrade net t epoch :
  rep net t epoch ->
  network t = net /\ hearted (network_upgrade t) = true /\
  (forall E, current (E := E) net (current_height t) = Ok (network_upgrade t)) /\
  exists p, last epoch = Some p /\ height p = current_height t.
Proof.
  intros [(? & ? & ? & ? & H)|[(? & ? & ? & ? & H)|(? & ? & ? & ? & H)]];
    (split; [apply H|]; split; [exact (serves_hearted _ (r_serves _ _ _ _ _ _ _ H))|]; split; [apply H|exact (rep_v_last _ _ _ _ _ _ _ H)]).
Qed.

Lemma from_parts_hearted net parts nu :
  valid_parts parts -> (forall E, current (E := E) net (height parts) = Ok nu) ->
  hearted nu = true -> epoch_fits [parts] ->
  exists t, from_parts net parts = Ok t /\ network_upgrade t = nu /\ current_height t = height parts /\
    rep net t [parts].
Proof.
  intros Hv Hcur Hh Hf. destruct (hearted_serves nu Hh) as [Hs|[Hs|Hs]];
    destruct (from_parts_rep net parts nu Hv Hcur Hs Hf) as (t & tree & b & d & Ht & Hnu & Hht & Hrep);
    exists t; unfold rep; eauto 10.
Qed.

Lemma push_same net t epoch parts :
  rep net t epoch -> valid_parts parts -> height parts = current_height t + 1 ->
  (forall E, current (E := E) net (height parts) = Ok (network_upgrade t)) ->
  epoch_fits (epoch ++ [parts]) ->
  exists t', push_from_parts t parts = (Ok (), t') /\ network_upgrade t' = network_upgrade t /\
    current_height t' = height parts /\ rep net t' (epoch ++ [parts]).
Proof.
  intros [(tr & b & s & ds & H)|[(tr & b & s & ds & H)|(tr & b & s & ds & H)]] Hv Hht Hcur Hf;
    destruct (push_same_upgrade net t epoch tr b s ds parts H Hv Hht Hcur Hf) as (t' & tr' & d & Hp & Hnu & Hr);
    exists t'; (split; [done|]); (split; [done|]);
    (split; [rewrite (r_height _ _ _ _ _ _ _ Hr), Hht, (r_height _ _ _ _ _ _ _ H), length_app; cbn; lia|]);
    unfold rep; eauto 10.
Qed.

Lemma push_new net t epoch parts nu :
  rep net t epoch -> valid_parts parts -> height parts = current_height t + 1 ->
  (forall E, current (E := E) net (height parts) = Ok nu) -> hearted nu = true ->
  nu <> network_upgrade t -> epoch_fits [parts] ->
  exists t', push_from_parts t parts = (Ok (), t') /\ network_upgrade t' = nu /\
    current_height t' = height parts /\ rep net t' [parts].
Proof.
  intros Hrep Hv Hht Hcur Hh Hne Hf. destruct (rep_upgrade _ _ _ Hrep) as (Hn & _ & _ & _).
  destruct (from_parts_hearted net parts nu Hv Hcur Hh Hf) as (t' & Ht & Hnu & Hh' & Hr).
  exists t'. split; [|done]. unfold push_from_parts. cbn zeta. rewrite Hn, Hcur.
  pose proof (vp_height _ Hv) as Hmax. change Height.MAX with 2147483647 in Hmax.
  unfold Height.add_diff. rewrite <- Hht, sint_arith_Ok by lia. cbn [res_bind]. unfold to_uint.
  rewrite (proj2 (in_uint_spec _ _)) by lia. cbn [mbind option_bind].
  unfold Height.try_from_u32. change Height.MAX with 2147483647. rewrite (proj2 (Z.leb_le _ _)) by lia.
  rewrite bool_decide_true, bool_decide_false by done. cbn [negb]. rewrite Ht, Hnu, bool_decide_true by done. done.
Qed.

(** The blocks since the activation of the upgrade of [parts], when [epoch] are
    those of the block before: none before Heartwood. *)
Definition next_epoch (net : Network) (epoch : list HistoryTreeBlockParts) (parts : HistoryTreeBlockParts)
  : list HistoryTreeBlockParts :=
  match current (E := unit) net (height parts) with
  | Ok nu =>
      if hearted nu then
        match last epoch with
        | Some p =>
            match current (E := unit) net (height p) with
            | Ok nu' => if bool_decide (nu' = nu) then epoch ++ [parts] else [parts]
            | _ => [parts]
            end
        | None => [parts]
        end
      else []
  | _ => []
  end.

Definition epoch_after (net : Network) (blocks : list HistoryTreeBlockParts) : list HistoryTreeBlockParts :=
  fold_left (next_epoch net) blocks [].

Fixpoint push_all (net : Network) (o : option NonEmptyHistoryTree) (blocks : list HistoryTreeBlockParts)
  : res HistoryTreeError unit * option NonEmptyHistoryTree :=
  match blocks with
  | [] => (Ok (), o)
  | parts :: blocks =>
      match history_push_from_parts o net parts with
      | (Ok _, o) => push_all net o blocks
      | r => r
      end
  end.

(** Valid blocks of consecutive heights after [h], whose epochs have totals
    within their types. *)
Fixpoint acceptable (net : Network) (h : Z) (epoch blocks : list HistoryTreeBlockParts) : Prop :=
  match blocks with
  | [] => True
  | parts :: blocks =>
      height parts = h + 1 /\ valid_parts parts /\ epoch_fits (next_epoch net epoch parts) /\
      acceptable net (h + 1) (next_epoch net epoch parts) blocks
  end.

Definition hist_rep (net : Network) (o : option NonEmptyHistoryTree) (h : Z)
  (epoch : list HistoryTreeBlockParts) : Prop :=
  match o with
  | None => epoch = [] /\ forall nu, current (E := unit) net h = Ok nu -> hearted nu = false
  | Some t => rep net t epoch /\ current_height t = h
  end.

Lemma hearted_index nu : hearted nu = true <-> index Heartwood <= index nu.
Proof. destruct nu; cbn; split; (done || lia). Qed.

Lemma hearted_active net h nu :
  net_wf net -> 0 <= h -> current (E := unit) net h = Ok nu ->
  hearted nu = true <-> exists a, activation_height Heartwood net = Some a /\ a <= h.
Proof. intros Hwf Hh Hc. rewrite hearted_index. by apply current_ge. Qed.

Lemma hist_rep_push net o h epoch parts :
  net_wf net -> 0 <= h -> hist_rep net o h epoch -> height parts = h + 1 -> valid_parts parts ->
  epoch_fits (next_epoch net epoch parts) ->
  exists o', history_push_from_parts o net parts = (Ok (), o') /\
    hist_rep net o' (h + 1) (next_epoch net epoch parts).
Proof.
  intros Hwf Hh Hrep Hht Hv Hfit.
  destruct (current_Ok net (h + 1) Hwf ltac:(lia)) as (_ & nu & _ & Hcur). rewrite <- Hht in Hcur.
  destruct (current_Ok net h Hwf Hh) as (_ & nu0 & _ & Hcur0).
  pose proof (hearted_active net (height parts) nu Hwf ltac:(lia) (Hcur unit)) as Hact.
  pose proof (hearted_active net h nu0 Hwf Hh (Hcur0 unit)) as Hact0.
  unfold next_epoch in *. rewrite Hcur in *.
  assert (Hsome : forall t, o = Some t -> rep net t epoch /\ current_height t = h /\
    (network_upgrade t = nu0) /\ hearted nu0 = true).
  { intros t ->. destruct Hrep as [Hr Hc]. destruct (rep_upgrade _ _ _ Hr) as (_ & Hht' & Hcu & _).
    rewrite Hc in Hcu. specialize (Hcu unit). rewrite Hcur0 in Hcu. injection Hcu as ->. done. }
  assert (Hnone : o = None -> epoch = [] /\ hearted nu0 = false).
  { intros ->. destruct Hrep as [-> Hn]. split; [done|]. by apply Hn. }
  unfold history_push_from_parts. destruct (hearted nu) eqn:Hheart.
  - destruct (proj1 Hact eq_refl) as (a & Haa & Ha). rewrite Haa in *.
    destruct (Z.compare_spec (height parts) a) as [Heq|Hlt|Hgt]; [|lia|].
    + assert (Ho : o = None).
      { destruct o as [t|]; [|done]. destruct (Hsome t eq_refl) as (_ & _ & _ & H0).
        apply Hact0 in H0 as (a' & Ha' & ?). injection Ha' as ->. lia. }
      destruct (Hnone Ho) as [-> _]. cbn [last] in *.
      destruct (from_parts_hearted net parts nu Hv Hcur Hheart Hfit) as (t & -> & Hnu & Hct & Hr).
      exists (Some t). split; [done|]. cbn. split; [done|lia].
    + destruct o as [t|].
      2:{ destruct (Hnone eq_refl) as [_ H0]. exfalso. apply not_true_iff_false in H0. apply H0, Hact0.
          exists a. split; [done|lia]. }
      destruct (Hsome t eq_refl) as (Hr & Hct & Hnu & _).
      destruct (rep_upgrade _ _ _ Hr) as (_ & _ & _ & p & Hlast & Hp). rewrite Hlast, Hp, Hct, Hcur0 in *.
      destruct (decide (nu0 = nu)) as [Heq|Hne].
      * rewrite bool_decide_true in * by done.
        destruct (push_same net t epoch parts Hr Hv) as (t' & -> & _ & Hct' & Hr');
          [lia|intros E; by rewrite Hcur, Hnu, Heq|done|].
        exists (Some t'). split; [done|]. split; [done|lia].
      * rewrite bool_decide_false in * by done.
        destruct (push_new net t epoch parts nu Hr Hv) as (t' & -> & _ & Hct' & Hr');
          [lia|done|done|congruence|done|].
        exists (Some t'). split; [done|]. split; [done|lia].
  - assert (Ho : o = None).
    { destruct o as [t|]; [|done]. destruct (Hsome t eq_refl) as (_ & _ & _ & H0).
      apply Hact0 in H0 as (a & Ha & ?). assert (false = true) by (apply Hact; exists a; split; [done|lia]). done. }
    subst o. exists None. split.
    + destruct (activation_height Heartwood net) as [a|]; [|done].
      destruct (Z.compare_spec (height parts) a) as [Heq|Hlt|Hgt]; [|done|];
        (assert (false = true) by (apply Hact; exists a; split; [done|lia]); done).
    + split; [done|]. rewrite <- Hht. intros nu'. rewrite Hcur. by intros [= <-].
Qed.

Lemma genesis_current net : net_wf net -> current (E := unit) net 0 = Ok Genesis.
Proof.
  intros Hwf. destruct (current_Ok net 0 Hwf ltac:(lia)) as (a & nu & Hlast & ->). f_equal.
  pose proof (wf_sorted net Hwf) as Hs. pose proof (wf_genesis net Hwf) as Hg.
  apply bt_last_le_Some in Hlast as (Hin & Ha & _); [|by apply sorted_bt_wf].
  assert (Hgin : (0, Genesis) ∈ activation_map net) by (by apply head_Some_elem_of).
  pose proof (proj1 (sorted_entries_le _ _ _ _ _ Hs Hin Hgin) Ha) as Hi. by destruct nu.
Qed.

Lemma push_all_rep net o h epoch blocks :
  net_wf net -> 0 <= h -> hist_rep net o h epoch -> acceptable net h epoch blocks ->
  exists o' h', push_all net o blocks = (Ok (), o') /\ 
    hist_rep net o' h' (fold_left (next_epoch net) blocks epoch).
Proof.
  intros Hwf. revert o h epoch. induction blocks as [|parts blocks IH]; intros o h epoch Hh Hrep Hacc.
  - exists o, h. done.
  - destruct Hacc as (Hht & Hv & Hf & Hacc). cbn [push_all fold_left].
    destruct (hist_rep_push net o h epoch parts Hwf Hh Hrep Hht Hv Hf) as (o' & -> & Hrep').
    apply (IH o' (h + 1)); [lia|done|done].
Qed.

(** C4: Starting from the genesis block of a well-formed network, pushing any
    sequence of valid blocks of consecutive heights never fails or panics.  The
    tree is empty before Heartwood; afterwards its hash is the ZIP-221 root of
    exactly the blocks since the activation of the network upgrade in force:
    the hash of their mountain range as [MmrSpec] defines it, with the node
    version of that upgrade.  The pruned cache of encoded peaks, from which the
    tree is rebuilt after every block, thus loses nothing. *)
Theorem history_tree_commits_to_epoch net blocks :
  net_wf net -> acceptable net 0 [] blocks ->
  exists o, push_all net None blocks = (Ok (), o) /\
    match last (epoch_after net blocks) with
    | None => history_hash (E := unit) o = Ok None
    | Some p => exists nu h, current (E := unit) net (height p) = Ok nu /\
        expected_hash net nu (epoch_after net blocks) = Ok h /\ history_hash (E := unit) o = Ok (Some h)
    end.
Proof.
  intros Hwf Hacc.
  destruct (push_all_rep net None 0 [] blocks Hwf ltac:(lia)) as (o & h & Hpush & Hrep); [|done|].
  { split; [done|]. intros nu. rewrite genesis_current by done. by intros [= <-]. }
  exists o. split; [done|]. fold (epoch_after net blocks) in Hrep. destruct o as [t|].
  - destruct Hrep as [Hr Hct]. destruct (rep_upgrade _ _ _ Hr) as (_ & _ & Hcur & p & Hl & Hp).
    destruct (rep_hash _ _ _ Hr) as (hh & Hh & Hexp). rewrite Hl. exists (network_upgrade t), hh.
    split; [by rewrite Hp|]. split; [done|]. unfold history_hash. by rewrite Hh.
  - destruct Hrep as [Hnil _]. by rewrite Hnil.
Qed.

(** A tree restored from its cache, as [clone] and [from_cache] do, has the
    same hash and represents the same blocks, so that it can be extended like
    the original. *)
Lemma history_tree_clone net t epoch :
  rep net t epoch ->
  exists t', clone (E := unit) t = Ok t' /\ rep net t' epoch /\ network_upgrade t' = network_upgrade t /\
    hash (E := unit) t' = hash t /\ size t' = size t /\ peaks t' = peaks t.
Proof.
  intros Hrep. destruct (rep_hash _ _ _ Hrep) as (h & Hh & Hexp).
  enough (Hc : exists t', clone (E := unit) t = Ok t' /\ rep net t' epoch /\ network_upgrade t' = network_upgrade t).
  { destruct Hc as (t' & Hc & Hr & Hnu). exists t'. split; [done|]. split; [done|]. split; [done|].
    destruct (rep_hash _ _ _ Hr) as (h' & Hh' & Hexp'). rewrite Hnu, Hexp in Hexp'. injection Hexp' as <-.
    split; [by rewrite Hh, Hh'|]. unfold clone in Hc. destruct (rebuild t) as [i| |]; [|done..].
    cbn in Hc. by injection Hc as <-. }
  destruct Hrep as [(tr & b & s & ds & H)|[(tr & b & s & ds & H)|(tr & b & s & ds & H)]];
    destruct (clone_rep (E := unit) _ _ _ _ _ _ _ H) as (t' & tr' & Hc & Hnu & Hr); exists t';
    (split; [done|]); (split; [|done]); unfold rep; eauto 10.
Qed.
End Chain.

(** ** A sample chain *)

Definition sample_network : Network := Testnet {|
  p_is_default_testnet := false;
  p_is_regtest := false;
  p_activation_heights := [(0, Genesis); (2, Heartwood); (5, Nu5)];
  p_slow_start_interval := 0;
  p_slow_start_shift := 0;
  p_funding_streams := [];
  p_target_difficulty_limit := 2 ^ 251 - 1;
  p_disable_pow := true;
  p_max_block_time_start_height := 0;
  p_should_allow_unshielded_coinbase_spends := false;
  p_pre_blossom_halving_interval := 144;
  p_post_blossom_halving_interval := 288;
  p_temporary_orchard_disabling_soft_fork_height := None;
  p_initial_nsm_value_balance := None;
|}.

Lemma sample_network_wf : net_wf sample_network.
Proof.
  split; cbn; try lia; try reflexivity; try done.
  - apply entries_sortedb_spec. reflexivity.
  - apply entries_validb_spec. reflexivity.
Qed.

Definition sample_block (h : Z) : HistoryTreeBlockParts :=
  mkParts (mkHeader (le_bytes 32 h) (1600000000 + h) 0x1f07ffff) h default_root default_root default_root h 1 0.

Lemma sample_block_valid h : 1 <= h <= 1000 -> valid_parts (sample_block h).
Proof.
  intros Hh. pose proof default_root_hash. split; cbn [sample_block header height header_hash timestamp
    difficulty_threshold sapling_root orchard_root ironwood_root parts_sapling_tx parts_orchard_tx parts_ironwood_tx];
    try done; try lia.
  - split; [apply length_le_bytes|apply le_bytes_is_byte].
  - change Height.MAX with 2147483647. lia.
Qed.

Definition sample_chain : list HistoryTreeBlockParts := sample_block <$> [1; 2; 3; 4; 5; 6; 7].

Lemma sample_chain_acceptable : acceptable sample_network 0 [] sample_chain.
Proof.
  repeat (split; [reflexivity|]; split; [apply sample_block_valid; lia|];
          split; [split; vm_compute; reflexivity|]). done.
Qed.

(** Three blocks of NU5 follow three of Heartwood. *)
Lemma history_tree_commits_to_epoch_witness :
  epoch_after sample_network sample_chain = sample_block <$> [5; 6; 7] /\
  exists o, push_all (U := Difficulty.u256_Z) (B := toy_digest) sample_network None sample_chain = (Ok (), o) /\
    exists h, expected_hash (U := Difficulty.u256_Z) (B := toy_digest) sample_network Nu5
      (sample_block <$> [5; 6; 7]) = Ok h /\
      history_hash (U := Difficulty.u256_Z) (B := toy_digest) (E := unit) o = Ok (Some h).
Proof.
  assert (Hep : epoch_after sample_network sample_chain = sample_block <$> [5; 6; 7]) by (vm_compute; reflexivity).
  split; [exact Hep|].
  destruct (@history_tree_commits_to_epoch Difficulty.u256_Z Difficulty.u256_Z_laws toy_digest toy_digest_laws
    sample_network sample_chain sample_network_wf sample_chain_acceptable) as (o & Hp & Hl).
  exists o. split; [exact Hp|]. rewrite Hep in Hl. cbn [last fmap list_fmap] in Hl.
  destruct Hl as (nu & h & Hnu & Hex & Hh). exists h. split; [|exact Hh].
  replace nu with Nu5 in Hex; [exact Hex|]. vm_compute in Hnu. by injection Hnu.
Defined.

End HistoryPush.
