(* ===== verification/Serialization.v ===== *)
(** * Reading and writing consensus data

    [zakura-chain/src/serialization]: the reader that tracks the bytes left
    ([reader.rs]), compact sizes ([compact_size.rs]), byte and item vectors
    ([zcash_deserialize.rs], [zcash_serialize.rs]).

    A decoder is a state and error monad over the reader.  [lawful dec min] is
    the interface a decoder offers to the ones built from it: it never panics,
    consumes at least [min] bytes, and what it returns depends on the bytes it
    consumed alone: not on the chunks the stream delivers, nor on the bytes or the
    limit behind them, nor on whether the length of the input is known. *)

From stdpp Require Import base numbers strings list option.
From Stdlib Require Import ZArith Lia.
From S2P Require Import Prelude.
Local Open Scope Z_scope.
Local Notation length := List.length.

Module Serialization.

Definition MAX_PROTOCOL_MESSAGE_LEN : Z := 2 * 1024 * 1024.
Definition MAX_U8_ALLOCATION : Z := MAX_PROTOCOL_MESSAGE_LEN - 5.
Definition MAX_INITIAL_ALLOCATION : nat := 1024.

(** The errors the modelled decoders return; [io::Error]s by their kind. *)
Inductive SerializationError :=
| UnexpectedEof
| Parse (message : string)
| TryFromIntError
| AmountError.

(** ** The reader *)

(** [ZcashReader]; the inner reader delivers the rest of its input in chunks. *)
Record ZcashReader := mkReader {
  chunks : list (list Z);
  remaining : option Z;
  limit : option Z;
}.

Definition from_slice (bs : list Z) : ZcashReader :=
  mkReader (match bs with [] => [] | _ => [bs] end) (Some (Z.of_nat (length bs))) None.
Definition from_stream (chunks : list (list Z)) : ZcashReader := mkReader chunks None None.

(** [min] with an absent bound *)
Definition opt_min (n : Z) (bound : option Z) : Z :=
  match bound with Some b => Z.min n b | None => n end.

Definition remaining_bytes (self : ZcashReader) : option Z :=
  (fun remaining => opt_min remaining (limit self)) <$> remaining self.

(** One [read] of the inner reader: at most the next chunk. *)
Definition inner_read (n : nat) (chunks : list (list Z)) : list Z * list (list Z) :=
  match chunks with
  | [] => ([], [])
  | c :: rest => (take n c, if (n <? length c)%nat then drop n c :: rest else rest)
  end.

(** [Read::read] into a buffer of [n] bytes *)
Definition read (self : ZcashReader) (n : nat) : list Z * ZcashReader :=
  if decide (limit self = Some 0) then ([], self)
  else
    let size := Z.to_nat (opt_min (opt_min (Z.of_nat n) (remaining self)) (limit self)) in
    let '(bytes, chunks) := inner_read size (chunks self) in
    let taken := Z.of_nat (length bytes) in
    (bytes, mkReader chunks ((fun r => usat_sub r taken) <$> remaining self)
              ((fun l => usat_sub l taken) <$> limit self)).

(** ** Decoders *)

Definition decoder (A : Type) : Type := ZcashReader -> res SerializationError (A * ZcashReader).

Definition ret {A} (x : A) : decoder A := fun r => Ok (x, r).
Definition bind {A B} (d : decoder A) (k : A -> decoder B) : decoder B :=
  fun r => let? (x, r) := d r in k x r.
(** A computation that does not read. *)
Definition lift {A} (c : res SerializationError A) : decoder A := fun r => let? x := c in Ok (x, r).

Notation "'do' x <- d ;; k" := (bind d (fun x => k)) (at level 200, x name, d at level 99, k at level 200).

(** [Read::read_exact]: [read] until the buffer is full *)
Fixpoint read_exact_loop (fuel n : nat) (acc : list Z) (r : ZcashReader)
  : res SerializationError (list Z * ZcashReader) :=
  match n with
  | O => Ok (acc, r)
  | S _ =>
      match fuel with
      | O => Panic
      | S fuel =>
          let '(bytes, r) := read r n in
          match bytes with
          | [] => Err UnexpectedEof
          | _ => read_exact_loop fuel (n - length bytes) (acc ++ bytes) r
          end
      end
  end.

Definition read_exact (n : nat) : decoder (list Z) := read_exact_loop n n [].

(** [read_u8], [read_u16], [read_u32] and [read_u64], little-endian *)
Definition read_le (n : nat) : decoder Z := do bs <- read_exact n;; ret (le_value bs).

(** [with_limit]: [d] reads at most [lim] bytes; the outer limit, lowered by
    what was consumed, is back when the [LimitedReader] is dropped. *)
Definition with_limit {A} (lim : Z) (d : decoder A) : decoder A :=
  fun r =>
    let outer_limit := limit r in
    let entry_limit := match outer_limit with Some outer => Z.min outer lim | None => lim end in
    let? (x, r) := d (mkReader (chunks r) (remaining r) (Some entry_limit)) in
    let consumed := usat_sub entry_limit (default entry_limit (limit r)) in
    Ok (x, mkReader (chunks r) (remaining r) ((fun outer => usat_sub outer consumed) <$> outer_limit)).

(** ** Compact sizes *)

Definition encoded_len (n : Z) : Z :=
  if n <=? 252 then 1 else if n <=? 65535 then 3 else if n <=? 4294967295 then 5 else 9.

(** [CompactSize64::zcash_serialize] *)
Definition write_compact_size (n : Z) : list Z :=
  if n <=? 252 then [n]
  else if n <=? 65535 then 253 :: le_bytes 2 n
  else if n <=? 4294967295 then 254 :: le_bytes 4 n
  else 255 :: le_bytes 8 n.

Definition non_canonical : decoder Z := lift (Err (Parse "non-canonical CompactSize")).

(** [CompactSize64::zcash_deserialize_from] *)
Definition read_compact_size : decoder Z :=
  do flag_byte <- read_le 1;;
  if flag_byte <=? 252 then ret flag_byte
  else if flag_byte =? 253 then (do n <- read_le 2;; if 253 <=? n then ret n else non_canonical)
  else if flag_byte =? 254 then (do n <- read_le 4;; if 65536 <=? n then ret n else non_canonical)
  else (do n <- read_le 8;; if 4294967296 <=? n then ret n else non_canonical).

(** [CompactSizeMessage::try_from] *)
Definition compact_size_message (size : Z) : res SerializationError Z :=
  let? size := ok_or TryFromIntError (to_uint 32 size) in
  if MAX_PROTOCOL_MESSAGE_LEN <? size then Err (Parse "CompactSize larger than protocol message limit")
  else Ok size.

(** [CompactSizeMessage::zcash_serialize] *)
Definition write_size {E} (size : Z) : res E (list Z) :=
  let? _ := rust_assert (size <=? MAX_PROTOCOL_MESSAGE_LEN) in Ok (write_compact_size size).

(** [CompactSizeMessage::zcash_deserialize_from] *)
Definition read_size : decoder Z := do n <- read_compact_size;; lift (compact_size_message n).

(** ** Byte vectors *)

(** [zcash_serialize_bytes]: its error is the one of the size *)
Definition write_bytes (bs : list Z) : res SerializationError (list Z) :=
  let? size := compact_size_message (Z.of_nat (length bs)) in
  let? header := write_size size in
  Ok (header ++ bs).

(** The growth of [read_bytes] on a stream of unknown length. *)
Fixpoint read_chunks (fuel n : nat) (acc : list Z) : decoder (list Z) :=
  match n with
  | O => ret acc
  | S _ =>
      match fuel with
      | O => lift Panic
      | S fuel =>
          let chunk := Nat.min MAX_INITIAL_ALLOCATION n in
          do bs <- read_exact chunk;; read_chunks fuel (n - chunk) (acc ++ bs)
      end
  end.

Definition read_bytes (external_count : Z) : decoder (list Z) :=
  fun r =>
    if MAX_U8_ALLOCATION <? external_count then Err (Parse "Byte vector longer than MAX_U8_ALLOCATION")
    else
      match remaining_bytes r with
      | Some remaining =>
          if remaining <? external_count then Err (Parse "Byte vector exceeds available input")
          else read_exact (Z.to_nat external_count) r
      | None => read_chunks (Z.to_nat external_count) (Z.to_nat external_count) [] r
      end.

(** [Vec<u8>::zcash_deserialize_from] *)
Definition read_byte_vec : decoder (list Z) := do len <- read_size;; read_bytes len.

(** ** Item vectors *)

(** [ZcashSerialize], [ZcashDeserialize] and [TrustedPreallocate] *)
Class ZcashSerialize (A : Type) := zcash_serialize : A -> res SerializationError (list Z).
Class ZcashDeserialize (A : Type) := zcash_deserialize_from : decoder A.
Class TrustedPreallocate (A : Type) := { max_allocation : Z; min_serialized_size : Z }.
Arguments max_allocation A {_}.
Arguments min_serialized_size A {_}.

Section Items.
Context {A : Type} `{!ZcashSerialize A, !ZcashDeserialize A, !TrustedPreallocate A}.

(** [zcash_serialize_external_count] *)
Fixpoint write_items (l : list A) : res SerializationError (list Z) :=
  match l with
  | [] => Ok []
  | x :: l =>
      let? bs := zcash_serialize x in
      let? rest := write_items l in
      Ok (bs ++ rest)
  end.

(** [Vec<T>::zcash_serialize] *)
Definition write_vec (l : list A) : res SerializationError (list Z) :=
  let? len := expect_ok (compact_size_message (Z.of_nat (length l))) in
  let? header := write_size len in
  let? items := write_items l in
  Ok (header ++ items).

(** The [for] loop of [read_external_count]. *)
Fixpoint read_items (n : nat) (acc : list A) : decoder (list A) :=
  match n with
  | O => ret acc
  | S n => do item <- zcash_deserialize_from;; read_items n (acc ++ [item])
  end.

Definition read_external_count (external_count : Z) : decoder (list A) :=
  fun r =>
    if max_allocation A <? external_count then Err (Parse "Vector longer than max_allocation")
    else
      let minimum := min_serialized_size A in
      let exceeds :=
        match remaining_bytes r with
        | Some remaining =>
            negb (external_count =? 0) && ((minimum =? 0) || (remaining / minimum <? external_count))
        | None => false
        end in
      if exceeds then Err (Parse "Vector exceeds available input")
      else read_items (Z.to_nat external_count) [] r.

(** [Vec<T>::zcash_deserialize_from] *)
Definition read_vec : decoder (list A) := do len <- read_size;; read_external_count len.
End Items.
End Serialization.
