(* ===== verification/SerializationFacts.v ===== *)
(** * Laws of the decoders

    What the decoders of [Serialization] promise: compact sizes have one encoding
    each, and a vector is decoded the same from a complete message as from a
    stream of unknown length, although the first checks the count against the
    bytes left.

    [Codec]: a codec is exact when its decoder accepts the encodings of the valid
    values and nothing else.  Exactness is what keeps a hash of the bytes and a
    hash of the decoded value the same thing: no two byte strings decode to one
    value. *)

From stdpp Require Import base numbers strings list option.
From Stdlib Require Import ZArith Lia.
From S2P Require Import Prelude Serialization.
Local Open Scope Z_scope.
Local Notation length := List.length.

Module SerializationFacts.
Import Serialization.

Implicit Types (r : ZcashReader) (bs : list Z).

(** ** Readers *)

Definition bytes r : list Z := concat (chunks r).
Definition blen bs : Z := Z.of_nat (length bs).

(** A chunk of a stream is not empty, and a known length is the one of the input. *)
Record wf r : Prop := {
  wf_chunks : Forall (fun c => c <> []) (chunks r);
  wf_remaining : forall n, remaining r = Some n -> n = blen (bytes r);
  wf_limit : forall n, limit r = Some n -> 0 <= n;
}.

(** The bytes that can be read. *)
Definition available r : Z := opt_min (blen (bytes r)) (limit r).

(** [r'] is [r] after [n] bytes. *)
Record advanced (n : nat) r r' : Prop := {
  adv_wf : wf r';
  adv_bytes : bytes r' = drop n (bytes r);
  adv_remaining : remaining r' = (fun m => m - Z.of_nat n) <$> remaining r;
  adv_limit : limit r' = (fun m => m - Z.of_nat n) <$> limit r;
}.

Lemma from_slice_wf bs : wf (from_slice bs) /\ bytes (from_slice bs) = bs.
Proof.
  assert (Hb : bytes (from_slice bs) = bs) by (destruct bs; [done|]; unfold bytes; cbn; by rewrite app_nil_r).
  split; [|done]. split; [|intros n [= <-]; by rewrite Hb|done]. destruct bs; cbn; by repeat constructor.
Qed.

Lemma from_stream_wf cs : Forall (fun c => c <> []) cs -> wf (from_stream cs) /\ bytes (from_stream cs) = concat cs.
Proof. intros Hc. by repeat split. Qed.

Lemma available_range r : wf r -> 0 <= available r <= blen (bytes r).
Proof.
  intros Hwf. unfold available, blen. destruct (limit r) as [l|] eqn:Hl; cbn; [|lia].
  pose proof (wf_limit r Hwf l Hl). lia.
Qed.

Lemma advanced_0 r : wf r -> advanced 0 r r.
Proof.
  intros Hwf. split; [done|by rewrite drop_0|..].
  - destruct (remaining r) as [m|]; cbn; [|done]. f_equal. lia.
  - destruct (limit r) as [m|]; cbn; [|done]. f_equal. lia.
Qed.

Lemma available_advanced n r r' :
  advanced n r r' -> Z.of_nat n <= blen (bytes r) -> available r' = available r - Z.of_nat n.
Proof.
  intros [Hwf Hb Hr Hl] Hn. unfold available. rewrite Hb, Hl. unfold blen in *. rewrite length_drop.
  destruct (limit r); cbn; lia.
Qed.

Lemma advanced_trans n m r r' r'' :
  Z.of_nat n <= available r -> wf r -> advanced n r r' -> advanced m r' r'' -> advanced (n + m) r r''.
Proof.
  intros Hn Hwf [_ Hb Hr Hl] [Hwf' Hb' Hr' Hl']. split; [done|..].
  - by rewrite Hb', Hb, drop_drop.
  - rewrite Hr', Hr. destruct (remaining r); cbn; [|done]. f_equal. lia.
  - rewrite Hl', Hl. destruct (limit r); cbn; [|done]. f_equal. lia.
Qed.

Lemma inner_read_spec n cs bs cs' :
  Forall (fun c => c <> []) cs -> inner_read n cs = (bs, cs') ->
  Forall (fun c => c <> []) cs' /\ concat cs = bs ++ concat cs' /\ (length bs <= n)%nat /\
  (bs = [] -> n = 0%nat \/ cs = []).
Proof.
  destruct cs as [|c cs]; cbn [inner_read].
  { intros Hc [= <- <-]. split; [done|]. split; [done|]. cbn. split; [lia|auto]. }
  intros Hall [= <- <-]. apply Forall_cons_1 in Hall as [Hc Hcs]. destruct (Nat.ltb_spec n (length c)) as [Hlt|Hge].
  - split; [|split; [|split]].
    + constructor; [|done]. intros Hd. apply (f_equal length) in Hd. rewrite length_drop in Hd. cbn in Hd. lia.
    + cbn. by rewrite app_assoc, take_drop.
    + rewrite length_take. lia.
    + intros Ht. apply (f_equal length) in Ht. rewrite length_take in Ht. cbn in Ht. left. lia.
  - rewrite take_ge by done. split; [done|]. split; [done|]. split; [done|]. intros ->. done.
Qed.

Lemma read_spec r n bs r' :
  wf r -> read r n = (bs, r') ->
  bytes r = bs ++ bytes r' /\ (length bs <= n)%nat /\ blen bs <= available r /\ advanced (length bs) r r' /\
  (bs = [] -> n = 0%nat \/ available r = 0).
Proof.
  intros Hwf. unfold read. destruct (decide (limit r = Some 0)) as [H0|H0].
  { intros [= <- <-]. split; [done|]. cbn. pose proof (available_range r Hwf).
    split; [lia|]. split; [unfold blen; cbn; lia|]. split; [by apply advanced_0|]. intros _. right.
    unfold available. rewrite H0. unfold blen. cbn. lia. }
  set (size := Z.to_nat _). destruct (inner_read size (chunks r)) as [bs0 cs] eqn:Hin.
  intros [= -> <-]. apply inner_read_spec in Hin as (Hcs & Hcat & Hle & Hnil); [|apply Hwf].
  assert (Hb : bytes r = bs ++ concat cs) by done.
  assert (Hlen : blen (bytes r) = blen bs + blen (concat cs)) by (rewrite Hb; unfold blen; rewrite length_app; lia).
  assert (Hsz : Z.of_nat size = opt_min (opt_min (Z.of_nat n) (remaining r)) (limit r)).
  { unfold size. apply Z2Nat.id. destruct (remaining r) as [m|] eqn:Hm, (limit r) as [l|] eqn:Hl; cbn;
      repeat first [pose proof (wf_remaining r Hwf _ Hm); unfold blen in *; clear Hm
                   |pose proof (wf_limit r Hwf _ Hl); clear Hl]; lia. }
  assert (Hl0 : forall l, limit r = Some l -> 0 < l /\ blen bs <= l).
  { intros l Hl. pose proof (wf_limit r Hwf l Hl). split; [destruct (Z.eq_dec l 0); [congruence|lia]|].
    rewrite Hl in Hsz. cbn in Hsz. unfold blen. lia. }
  assert (Hn : (length bs <= n)%nat).
  { destruct (remaining r), (limit r); cbn in Hsz; lia. }
  split; [done|]. split; [done|]. split; [|split].
  - unfold available. destruct (limit r) as [l|] eqn:Hl; cbn; [destruct (Hl0 l eq_refl)|]; unfold blen in *; lia.
  - unfold blen in *. split; cbn.
    + split; cbn; [done|..].
      * intros m Hm. destruct (remaining r) as [m0|] eqn:Hr; [|done]. injection Hm as <-.
        pose proof (wf_remaining r Hwf m0 Hr). unfold usat_sub, bytes, blen in *. cbn. lia.
      * intros m Hm. destruct (limit r) as [l|]; [|done]. injection Hm as <-. unfold usat_sub. lia.
    + rewrite Hb. by rewrite drop_app_length.
    + destruct (remaining r) as [m0|] eqn:Hr; [|done]. cbn. f_equal. pose proof (wf_remaining r Hwf m0 Hr).
      unfold usat_sub, blen in *. lia.
    + destruct (limit r) as [l|]; [|done]. cbn. f_equal. destruct (Hl0 l eq_refl). unfold usat_sub. lia.
  - intros ->. destruct (Hnil eq_refl) as [Hs0|Hc0].
    + destruct n as [|n]; [by left|]. right. unfold available. pose proof (Hl0) as Hl0'.
      destruct (remaining r) as [m0|] eqn:Hr, (limit r) as [l|] eqn:Hl; cbn in Hsz; cbn;
        try (pose proof (wf_remaining r Hwf m0 Hr)); try (destruct (Hl0 l eq_refl)); unfold blen in *; lia.
    + right. unfold available, bytes. rewrite Hc0. unfold blen. cbn.
      destruct (limit r) as [l|] eqn:Hl; cbn; [pose proof (wf_limit r Hwf l Hl)|]; lia.
Qed.

Lemma read_exact_loop_spec fuel : forall n acc r,
  wf r -> (n <= fuel)%nat ->
  if Z.of_nat n <=? available r
  then exists r', read_exact_loop fuel n acc r = Ok (acc ++ take n (bytes r), r') /\ advanced n r r'
  else read_exact_loop fuel n acc r = Err UnexpectedEof.
Proof.
  induction fuel as [|fuel IH]; intros n acc r Hwf Hn.
  { destruct n; [|lia]. pose proof (available_range r Hwf). rewrite (proj2 (Z.leb_le _ _)) by (cbn; lia).
    exists r. cbn. rewrite app_nil_r. split; [done|by apply advanced_0]. }
  destruct n as [|n].
  { pose proof (available_range r Hwf). rewrite (proj2 (Z.leb_le _ _)) by (cbn; lia).
    exists r. cbn. rewrite app_nil_r. split; [done|by apply advanced_0]. }
  cbn [read_exact_loop]. destruct (read r (S n)) as [bs r1] eqn:Hread.
  pose proof (available_range r Hwf) as Hav.
  destruct (read_spec r (S n) bs r1 Hwf Hread) as (Hb & Hlen & Hle & Hadv & Hnil).
  destruct bs as [|b bs].
  { destruct (Hnil eq_refl) as [?|H0]; [lia|]. by rewrite (proj2 (Z.leb_gt _ _)) by lia. }
  specialize (IH (S n - length (b :: bs))%nat (acc ++ b :: bs) r1 (adv_wf _ _ _ Hadv)
    ltac:(cbn [length] in *; lia)).
  rewrite (available_advanced _ _ _ Hadv) in IH by (unfold blen in *; lia).
  unfold blen in *.
  destruct (Z.leb_spec (Z.of_nat (S n)) (available r)) as [Hin|Hout].
  - rewrite (proj2 (Z.leb_le _ _)) in IH by lia. destruct IH as (r' & -> & Hadv'). exists r'. split.
    + do 2 f_equal. rewrite <- app_assoc. f_equal. rewrite Hb. rewrite take_app_ge by lia. done.
    + replace (S n) with (length (b :: bs) + (S n - length (b :: bs)))%nat by lia.
      apply (advanced_trans _ _ r r1); [lia|done|done|done].
  - by rewrite (proj2 (Z.leb_gt _ _)) in IH by lia.
Qed.

Lemma read_exact_spec n r :
  wf r ->
  if Z.of_nat n <=? available r
  then exists r', read_exact n r = Ok (take n (bytes r), r') /\ advanced n r r'
  else read_exact n r = Err UnexpectedEof.
Proof. intros Hwf. apply (read_exact_loop_spec n n [] r Hwf). lia. Qed.

(** ** The interface of decoders *)

(** [d] decodes [x] from [bs], wherever they are at the front of the input. *)
Definition parses {A} (d : decoder A) (x : A) bs : Prop :=
  forall r, wf r -> take (length bs) (bytes r) = bs -> blen bs <= available r ->
  exists r', d r = Ok (x, r') /\ advanced (length bs) r r'.

Definition outcome {A} (d : decoder A) (min : Z) r : Prop :=
  match d r with
  | Ok (x, r') =>
      exists bs, take (length bs) (bytes r) = bs /\ min <= blen bs <= available r /\
        advanced (length bs) r r' /\ parses d x bs
  | Err _ => True
  | Panic => False
  end.

Definition lawful {A} (d : decoder A) (min : Z) : Prop := forall r, wf r -> outcome d min r.

Lemma parses_ret {A} (x : A) : parses (ret x) x [].
Proof. intros r Hwf _ _. exists r. split; [done|by apply advanced_0]. Qed.

Lemma parses_bind {A B} (d : decoder A) (k : A -> decoder B) x y bs bs' :
  parses d x bs -> parses (k x) y bs' -> parses (bind d k) y (bs ++ bs').
Proof.
  intros Hd Hk r Hwf Htake Hav. unfold blen in *. rewrite length_app in *. rewrite <- take_take_drop in Htake.
  pose proof (available_range r Hwf) as Hr. unfold blen in *.
  apply app_inj_1 in Htake as [H1 H2]; [|rewrite length_take; lia].
  destruct (Hd r Hwf H1) as (r1 & Hr1 & Hadv1); [unfold blen; lia|].
  destruct (Hk r1 (adv_wf _ _ _ Hadv1)) as (r2 & Hr2 & Hadv2).
  - by rewrite (adv_bytes _ _ _ Hadv1).
  - rewrite (available_advanced _ _ _ Hadv1) by (unfold blen; lia). unfold blen. lia.
  - exists r2. unfold bind. rewrite Hr1. cbn [res_bind]. split; [done|].
    apply (advanced_trans _ _ r r1); [lia|done|done|done].
Qed.

Lemma lawful_ret {A} (x : A) : lawful (ret x) 0.
Proof.
  intros r Hwf. exists []. pose proof (available_range r Hwf). cbn. split; [done|]. split; [unfold blen; cbn; lia|].
  split; [by apply advanced_0|apply parses_ret].
Qed.

Lemma lawful_lift {A} (c : res SerializationError A) : c <> Panic -> lawful (lift c) 0.
Proof.
  intros Hc r Hwf. unfold outcome, lift. destruct c as [x|e|]; cbn [res_bind]; [|done|done].
  apply (lawful_ret x r Hwf).
Qed.

Lemma lawful_weaken {A} (d : decoder A) min min' : min' <= min -> lawful d min -> lawful d min'.
Proof.
  intros Hle Hd r Hwf. specialize (Hd r Hwf). unfold outcome in *. destruct (d r) as [[x r']| |]; [|done|done].
  destruct Hd as (bs & H1 & H2 & H3). exists bs. split; [done|]. split; [lia|done].
Qed.

(** [x] is a value of [d]. *)
Definition returns {A} (d : decoder A) (x : A) : Prop := exists r r', wf r /\ d r = Ok (x, r').

Lemma lawful_bind {A B} (d : decoder A) (k : A -> decoder B) min min' :
  lawful d min -> (forall x, returns d x -> lawful (k x) min') -> lawful (bind d k) (min + min').
Proof.
  intros Hd Hk r Hwf. specialize (Hd r Hwf). unfold outcome in *. unfold bind at 1.
  destruct (d r) as [[x r1]|e|] eqn:Hdr; cbn [res_bind]; [|done|done].
  destruct Hd as (bs & Ht & Hl & Hadv & Hp). specialize (Hk x (ex_intro _ r (ex_intro _ r1 (conj Hwf Hdr))) r1 (adv_wf _ _ _ Hadv)). unfold outcome in Hk.
  destruct (k x r1) as [[y r2]|e|]; [|done|done]. destruct Hk as (bs' & Ht' & Hl' & Hadv' & Hp').
  pose proof (available_range r Hwf).
  rewrite (available_advanced _ _ _ Hadv) in Hl' by (unfold blen in *; lia).
  exists (bs ++ bs'). unfold blen in *. rewrite length_app. split; [|split; [lia|split]].
  - rewrite <- take_take_drop, Ht. by rewrite <- (adv_bytes _ _ _ Hadv), Ht'.
  - apply (advanced_trans _ _ r r1); [lia|done|done|done].
  - by apply (parses_bind d k x).
Qed.

(** A decoder of exactly [n] bytes. *)
Lemma lawful_exact {A} (d : decoder A) (n : nat) (f : list Z -> A) :
  (forall r, wf r -> if Z.of_nat n <=? available r
     then exists r', d r = Ok (f (take n (bytes r)), r') /\ advanced n r r' else exists e, d r = Err e) ->
  lawful d (Z.of_nat n) /\ forall bs, length bs = n -> parses d (f bs) bs.
Proof.
  intros Hd. assert (Hp : forall bs, length bs = n -> parses d (f bs) bs).
  { intros bs <- r Hwf Ht Hav. specialize (Hd r Hwf). rewrite (proj2 (Z.leb_le _ _)), Ht in Hd by done. done. }
  split; [|done]. intros r Hwf. specialize (Hd r Hwf). pose proof (available_range r Hwf) as Hav. unfold outcome.
  destruct (Z.leb_spec (Z.of_nat n) (available r)) as [Hn|Hn]; [|by destruct Hd as [e ->]].
  destruct Hd as (r' & -> & Hadv). exists (take n (bytes r)).
  assert (Hlen : length (take n (bytes r)) = n) by (rewrite length_take; unfold blen in *; lia).
  unfold blen. rewrite Hlen. split; [done|]. split; [lia|]. split; [done|by apply Hp].
Qed.

Lemma read_exact_lawful n :
  lawful (read_exact n) (Z.of_nat n) /\ forall bs, length bs = n -> parses (read_exact n) bs bs.
Proof.
  apply (lawful_exact _ n (fun bs => bs)). intros r Hwf. pose proof (read_exact_spec n r Hwf) as Hs.
  destruct (_ <=? _); [done|eauto].
Qed.

Lemma read_le_lawful n : lawful (read_le n) (Z.of_nat n).
Proof.
  apply (lawful_weaken _ (Z.of_nat n + 0)); [lia|].
  apply lawful_bind; [apply read_exact_lawful|intros; apply lawful_ret].
Qed.

Lemma read_le_parses n z : 0 <= z < 256 ^ Z.of_nat n -> parses (read_le n) z (le_bytes n z).
Proof.
  intros Hz. unfold read_le. rewrite <- (app_nil_r (le_bytes n z)).
  eapply parses_bind; [apply read_exact_lawful, length_le_bytes|].
  rewrite <- (Z.mod_small z (256 ^ Z.of_nat n)) at 2 by done. rewrite <- le_value_le_bytes. apply parses_ret.
Qed.

(** Reading under a limit. *)
Lemma with_limit_lawful {A} (d : decoder A) lim min : 0 <= lim -> lawful d min -> lawful (with_limit lim d) min.
Proof.
  intros Hlim Hd.
  set (sub r := mkReader (chunks r) (remaining r) (Some (match limit r with Some o => Z.min o lim | None => lim end))).
  assert (Hsub : forall r, wf r -> wf (sub r) /\ available (sub r) = Z.min (available r) lim).
  { intros r [H1 H2 H3]. split; [split; [done|done|]|].
    - intros n [= <-]. destruct (limit r) as [o|] eqn:Ho; [specialize (H3 o eq_refl)|]; lia.
    - unfold available. change (bytes (sub r)) with (bytes r). unfold sub. cbn [limit]. destruct (limit r); cbn [opt_min]; lia. }
  assert (Hout : forall r x r1 bs, wf r -> d (sub r) = Ok (x, r1) -> advanced (length bs) (sub r) r1 ->
    blen bs <= available (sub r) ->
    exists r', with_limit lim d r = Ok (x, r') /\ advanced (length bs) r r').
  { intros r x r1 bs Hwf Hdr Hadv Hle. unfold with_limit. fold (sub r). rewrite Hdr. cbn [res_bind].
    eexists. split; [done|]. destruct Hadv as [[Hw1 Hw2 Hw3] Hb Hr Hl]. cbn [sub limit] in Hl. rewrite Hl. cbn.
    destruct (Hsub r Hwf) as [_ Hav]. pose proof (available_range r Hwf). unfold blen, usat_sub in *.
    assert (Hlo : forall o, limit r = Some o -> available r <= o) by (intros o Ho; unfold available; rewrite Ho; cbn; lia).
    split; [split|..]; cbn [chunks remaining limit]; try done.
    - intros n Hn. destruct (limit r) as [o|]; [|done]. injection Hn as <-. lia.
    - destruct (limit r) as [o|]; [|done]. cbn. specialize (Hlo o eq_refl). f_equal. lia. }
  intros r Hwf. destruct (Hsub r Hwf) as [Hwf' Hav]. specialize (Hd (sub r) Hwf'). unfold outcome in *.
  destruct (d (sub r)) as [[x r1]|e|] eqn:Hdr.
  - destruct Hd as (bs & Ht & Hl & Hadv & Hp). destruct (Hout r x r1 bs Hwf Hdr Hadv) as (r' & -> & Hadv'); [lia|].
    exists bs. split; [done|]. split; [lia|]. split; [done|]. intros r2 Hwf2 Ht2 Hav2.
    destruct (Hsub r2 Hwf2) as [Hwf2' Hs2]. destruct (Hp (sub r2) Hwf2' Ht2) as (r3 & Hr3 & Hadv3); [lia|].
    apply (Hout r2 x r3 bs); [done|done|done|lia].
  - unfold with_limit. fold (sub r). by rewrite Hdr.
  - done.
Qed.

Create HintDb lawful.
#[export] Hint Resolve lawful_ret lawful_lift read_le_lawful : lawful.

(** ** Compact sizes *)

Lemma length_compact_size n : Z.of_nat (length (write_compact_size n)) = encoded_len n.
Proof.
  unfold write_compact_size, encoded_len. repeat case_match; cbn [length]; rewrite ?length_le_bytes; lia.
Qed.

Lemma non_canonical_lawful : lawful non_canonical 0.
Proof. by apply lawful_lift. Qed.

Lemma read_compact_size_lawful : lawful read_compact_size 1.
Proof.
  apply (lawful_weaken _ (Z.of_nat 1 + 0)); [lia|]. apply lawful_bind; [apply read_le_lawful|]. intros flag _.
  assert (Hn : forall n bound, lawful (do m <- read_le n;; (if bound <=? m then ret m else non_canonical)) 0).
  { intros n bound. apply (lawful_weaken _ (Z.of_nat n + 0)); [lia|]. apply lawful_bind; [apply read_le_lawful|].
    intros m _. destruct (_ <=? _); [apply lawful_ret|apply non_canonical_lawful]. }
  repeat case_match; [apply lawful_ret|apply Hn..].
Qed.

Lemma read_compact_size_parses n :
  0 <= n < 2 ^ 64 -> parses read_compact_size n (write_compact_size n).
Proof.
  intros Hn. unfold write_compact_size, read_compact_size.
  assert (Hwide : forall flag w bound, 0 <= flag < 256 -> bound <= n -> n < 256 ^ Z.of_nat w ->
    parses (do f <- read_le 1;; if f =? flag then (do m <- read_le w;; if bound <=? m then ret m else non_canonical)
            else non_canonical) n (flag :: le_bytes w n)).
  { intros flag w bound Hf Hb Hw. change (flag :: le_bytes w n) with ([flag] ++ le_bytes w n).
    apply (parses_bind _ _ flag).
    - replace [flag] with (le_bytes 1 flag) by (cbn; by rewrite Z.mod_small). apply read_le_parses. cbn. lia.
    - rewrite Z.eqb_refl, <- (app_nil_r (le_bytes w n)). apply (parses_bind _ _ n); [apply read_le_parses; lia|].
      rewrite (proj2 (Z.leb_le _ _)) by done. apply parses_ret. }
  destruct (Z.leb_spec n 252) as [H1|H1].
  { change [n] with ([n] ++ []). apply (parses_bind _ _ n).
    - replace [n] with (le_bytes 1 n) by (cbn; by rewrite Z.mod_small by lia). apply read_le_parses. cbn. lia.
    - rewrite (proj2 (Z.leb_le _ _)) by lia. apply parses_ret. }
  assert (Hstep : forall flag w bound (k : Z -> decoder Z) bs,
    parses (do f <- read_le 1;; if f =? flag then (do m <- read_le w;; if bound <=? m then ret m else non_canonical)
            else non_canonical) n bs ->
    (forall f, f = flag -> k f = (do m <- read_le w;; if bound <=? m then ret m else non_canonical)) ->
    parses (do f <- read_le 1;; k f) n bs).
  { intros flag w bound k bs Hp Hk r Hwf Ht Ha. destruct (Hp r Hwf Ht Ha) as (r' & Hr' & Hadv). exists r'.
    split; [|done]. unfold bind at 1 in Hr'. unfold bind at 1.
    destruct (read_le 1 r) as [[f r1]| |]; cbn [res_bind] in *; [|done|done].
    destruct (Z.eqb_spec f flag) as [Hf|Hf]; [by rewrite (Hk f Hf)|done]. }
  destruct (Z.leb_spec n 65535) as [H2|H2]; [|destruct (Z.leb_spec n 4294967295) as [H3|H3]].
  - apply (Hstep 253 2%nat 253); [apply Hwide; cbn; lia|]. by intros f ->.
  - apply (Hstep 254 4%nat 65536); [apply Hwide; cbn; lia|]. by intros f ->.
  - apply (Hstep 255 8%nat 4294967296); [apply Hwide; cbn; lia|]. by intros f ->.
Qed.

Lemma read_le_inv n r z r' :
  wf r -> read_le n r = Ok (z, r') ->
  z = le_value (take n (bytes r)) /\ advanced n r r' /\ Z.of_nat n <= available r.
Proof.
  intros Hwf. unfold read_le, bind. pose proof (read_exact_spec n r Hwf) as Hs.
  destruct (Z.leb_spec (Z.of_nat n) (available r)) as [Hn|Hn].
  - destruct Hs as (r1 & -> & Hadv). cbn [res_bind ret]. intros [= <- <-]. done.
  - by rewrite Hs.
Qed.

Lemma take_le_bytes n r :
  wf r -> Forall is_byte (bytes r) -> Z.of_nat n <= available r ->
  take n (bytes r) = le_bytes n (le_value (take n (bytes r))) /\
  0 <= le_value (take n (bytes r)) < 256 ^ Z.of_nat n.
Proof.
  intros Hwf Hb Hn. pose proof (available_range r Hwf) as Ha. unfold blen in Ha.
  assert (Hlen : length (take n (bytes r)) = n) by (rewrite length_take; lia).
  pose proof (Forall_take _ n _ Hb) as Ht. split.
  - rewrite <- (le_bytes_le_value _ Ht) at 1. by rewrite Hlen.
  - pose proof (le_value_bound _ Ht) as Hv. by rewrite Hlen in Hv.
Qed.

(** What follows the flag of a wide size. *)
Lemma read_wide_inv w bound r n r' :
  wf r -> Forall is_byte (bytes r) ->
  (do m <- read_le w;; if bound <=? m then ret m else non_canonical) r = Ok (n, r') ->
  bound <= n < 256 ^ Z.of_nat w /\ bytes r = le_bytes w n ++ bytes r' /\ Z.of_nat w <= available r.
Proof.
  intros Hwf Hb. unfold bind. destruct (read_le w r) as [[m r1]| |] eqn:Hr; cbn [res_bind]; [|done|done].
  apply (read_le_inv w r m r1 Hwf) in Hr as (-> & Hadv & Hw).
  destruct (take_le_bytes w r Hwf Hb Hw) as [Heq Hrange].
  destruct (Z.leb_spec bound (le_value (take w (bytes r)))) as [Hle|Hgt]; [|done].
  intros [= <- <-]. split; [lia|]. split; [|done]. rewrite <- Heq, (adv_bytes _ _ _ Hadv). by rewrite take_drop.
Qed.

Lemma compact_size_inv r n r' :
  wf r -> Forall is_byte (bytes r) -> read_compact_size r = Ok (n, r') ->
  0 <= n < 2 ^ 64 /\ bytes r = write_compact_size n ++ bytes r' /\ encoded_len n <= available r.
Proof.
  intros Hwf Hb. unfold read_compact_size, bind at 1.
  destruct (read_le 1 r) as [[flag r1]| |] eqn:Hr; cbn [res_bind]; [|done|done].
  apply (read_le_inv 1 r flag r1 Hwf) in Hr as (Hflag & Hadv & H1).
  destruct (take_le_bytes 1 r Hwf Hb H1) as [Heq Hrange]. rewrite <- Hflag in *.
  assert (Hsplit : bytes r = flag :: bytes r1).
  { rewrite <- (take_drop 1 (bytes r)), Heq, <- (adv_bytes _ _ _ Hadv). cbn. by rewrite Z.mod_small. }
  assert (Hb1 : Forall is_byte (bytes r1)) by (rewrite Hsplit in Hb; by apply Forall_cons_1 in Hb as [_ ?]).
  pose proof (available_range r Hwf) as Ha.
  pose proof (available_advanced _ _ _ Hadv ltac:(lia)) as Hav. pose proof (adv_wf _ _ _ Hadv) as Hwf1.
  change (256 ^ Z.of_nat 1) with 256 in Hrange. unfold write_compact_size, encoded_len.
  destruct (Z.leb_spec flag 252) as [Hs|Hs].
  { intros [= <- <-]. rewrite (proj2 (Z.leb_le _ _)) by lia. split; [lia|]. split; [done|lia]. }
  destruct (Z.eqb_spec flag 253) as [Hf|Hf3].
  { intros Hw. apply (read_wide_inv 2 253 r1 n r' Hwf1 Hb1) in Hw as (Hn & Heq' & Hle). cbn in Hn.
    rewrite (proj2 (Z.leb_gt n 252)), (proj2 (Z.leb_le n 65535)) by lia. split; [lia|].
    split; [by rewrite Hsplit, Heq', Hf|lia]. }
  destruct (Z.eqb_spec flag 254) as [Hf|Hf].
  { intros Hw. apply (read_wide_inv 4 65536 r1 n r' Hwf1 Hb1) in Hw as (Hn & Heq' & Hle). cbn in Hn.
    rewrite (proj2 (Z.leb_gt n 252)), (proj2 (Z.leb_gt n 65535)), (proj2 (Z.leb_le n 4294967295)) by lia.
    split; [lia|]. split; [by rewrite Hsplit, Heq', Hf|lia]. }
  intros Hw. apply (read_wide_inv 8 4294967296 r1 n r' Hwf1 Hb1) in Hw as (Hn & Heq' & Hle). cbn in Hn.
  rewrite (proj2 (Z.leb_gt n 252)), (proj2 (Z.leb_gt n 65535)), (proj2 (Z.leb_gt n 4294967295)) by lia.
  assert (flag = 255) as -> by lia. split; [lia|]. split; [by rewrite Hsplit, Heq'|lia].
Qed.

(** A compact size is decoded exactly from its canonical encoding: [read_compact_size]
    returns [n] and leaves [rest] if and only if [n] is a 64-bit number, the input is the
    encoding [write_compact_size] of [n] followed by [rest], and all of it is within the
    reader's limit; every other input is an error. *)
Lemma compact_size_canonical r n rest :
  wf r -> Forall is_byte (bytes r) ->
  (exists r', read_compact_size r = Ok (n, r') /\ bytes r' = rest) <->
  0 <= n < 2 ^ 64 /\ bytes r = write_compact_size n ++ rest /\ encoded_len n <= available r.
Proof.
  intros Hwf Hb. split.
  - intros (r' & Hr & <-). by apply compact_size_inv.
  - intros (Hn & Heq & Hav). pose proof (length_compact_size n) as Hlen.
    destruct (read_compact_size_parses n Hn r Hwf) as (r' & Hr & Hadv).
    + rewrite Heq. by rewrite take_app_length.
    + unfold blen. lia.
    + exists r'. split; [done|]. rewrite (adv_bytes _ _ _ Hadv), Heq. by rewrite drop_app_length.
Qed.

(** ** Byte vectors *)

Lemma size_range n size : compact_size_message n = Ok size -> size = n /\ 0 <= n <= MAX_PROTOCOL_MESSAGE_LEN.
Proof.
  unfold compact_size_message. destruct (to_uint 32 n) as [m|] eqn:Hn; [|done].
  apply to_uint_Some in Hn as [-> Hn]. cbn [ok_or res_bind].
  destruct (Z.ltb_spec MAX_PROTOCOL_MESSAGE_LEN n); [done|]. intros [= <-]. lia.
Qed.

Lemma size_Ok n : 0 <= n <= MAX_PROTOCOL_MESSAGE_LEN -> compact_size_message n = Ok n.
Proof.
  intros Hn. unfold compact_size_message, to_uint.
  unfold MAX_PROTOCOL_MESSAGE_LEN in *. rewrite (proj2 (in_uint_spec _ _)) by lia. cbn [ok_or res_bind].
  by rewrite (proj2 (Z.ltb_ge _ _)) by lia.
Qed.

Lemma size_no_panic n : compact_size_message n <> Panic.
Proof. unfold compact_size_message. destruct (to_uint 32 n); cbn [ok_or res_bind]; [|done]. by destruct (_ <? _). Qed.

Lemma read_size_lawful : lawful read_size 1.
Proof.
  apply (lawful_weaken _ (1 + 0)); [lia|]. apply lawful_bind; [apply read_compact_size_lawful|].
  intros n _. apply lawful_lift, size_no_panic.
Qed.

Lemma read_size_parses n :
  0 <= n <= MAX_PROTOCOL_MESSAGE_LEN -> parses read_size n (write_compact_size n).
Proof.
  intros Hn. rewrite <- (app_nil_r (write_compact_size n)).
  apply (parses_bind _ _ n); [apply read_compact_size_parses; unfold MAX_PROTOCOL_MESSAGE_LEN in *; lia|].
  unfold lift. rewrite size_Ok by done. apply (parses_ret n).
Qed.

Lemma read_chunks_spec fuel : forall n acc r,
  wf r -> (n <= fuel)%nat ->
  if Z.of_nat n <=? available r
  then exists r', read_chunks fuel n acc r = Ok (acc ++ take n (bytes r), r') /\ advanced n r r'
  else read_chunks fuel n acc r = Err UnexpectedEof.
Proof.
  induction fuel as [|fuel IH]; intros n acc r Hwf Hn; destruct n as [|n]; try lia;
    try (pose proof (available_range r Hwf); rewrite (proj2 (Z.leb_le _ _)) by (cbn; lia);
         exists r; cbn; rewrite app_nil_r; split; [done|by apply advanced_0]).
  cbn [read_chunks]. set (c := Nat.min MAX_INITIAL_ALLOCATION (S n)).
  assert (Hc : (1 <= c <= S n)%nat) by (unfold c, MAX_INITIAL_ALLOCATION; lia).
  unfold bind. pose proof (read_exact_spec c r Hwf) as Hr. pose proof (available_range r Hwf) as Hav.
  destruct (Z.leb_spec (Z.of_nat c) (available r)) as [Hle|Hgt].
  2: { rewrite Hr, (proj2 (Z.leb_gt _ _)) by lia. done. }
  destruct Hr as (r1 & -> & Hadv). cbn [res_bind].
  specialize (IH (S n - c)%nat (acc ++ take c (bytes r)) r1 (adv_wf _ _ _ Hadv) ltac:(lia)).
  rewrite (available_advanced _ _ _ Hadv) in IH by lia.
  destruct (Z.leb_spec (Z.of_nat (S n)) (available r)) as [Hin|Hout].
  - rewrite (proj2 (Z.leb_le _ _)) in IH by lia. destruct IH as (r' & -> & Hadv'). exists r'. split.
    + do 2 f_equal. rewrite <- app_assoc, (adv_bytes _ _ _ Hadv), take_take_drop. do 2 f_equal. lia.
    + replace (S n) with (c + (S n - c))%nat by lia. apply (advanced_trans _ _ r r1); [lia|done|done|done].
  - by rewrite (proj2 (Z.leb_gt _ _)) in IH by lia.
Qed.

Lemma read_bytes_spec n r :
  wf r -> 0 <= n <= MAX_U8_ALLOCATION ->
  if n <=? available r
  then exists r', read_bytes n r = Ok (take (Z.to_nat n) (bytes r), r') /\ advanced (Z.to_nat n) r r'
  else exists e, read_bytes n r = Err e.
Proof.
  intros Hwf Hn. unfold read_bytes. rewrite (proj2 (Z.ltb_ge _ _)) by lia.
  pose proof (read_exact_spec (Z.to_nat n) r Hwf) as Hex.
  pose proof (read_chunks_spec (Z.to_nat n) (Z.to_nat n) [] r Hwf ltac:(lia)) as Hch.
  rewrite Z2Nat.id in * by lia. unfold remaining_bytes.
  destruct (remaining r) as [m|] eqn:Hm; cbn.
  - pose proof (wf_remaining r Hwf m Hm) as ->. fold (available r).
    destruct (Z.leb_spec n (available r)).
    + rewrite (proj2 (Z.ltb_ge _ _)) by lia. done.
    + rewrite (proj2 (Z.ltb_lt _ _)) by lia. eauto.
  - destruct (n <=? available r); [done|eauto].
Qed.

Lemma read_bytes_lawful n : 0 <= n -> lawful (read_bytes n) n.
Proof.
  intros Hn. destruct (Z.leb_spec n MAX_U8_ALLOCATION) as [Hle|Hgt].
  - rewrite <- (Z2Nat.id n) at 2 by lia. apply (lawful_exact _ (Z.to_nat n) (fun bs => bs)). intros r Hwf.
    rewrite Z2Nat.id by lia. by apply read_bytes_spec.
  - intros r Hwf. unfold outcome, read_bytes. by rewrite (proj2 (Z.ltb_lt _ _)) by lia.
Qed.

Lemma read_bytes_parses bs : blen bs <= MAX_U8_ALLOCATION -> parses (read_bytes (blen bs)) bs bs.
Proof.
  intros Hle r Hwf Ht Ha. pose proof (read_bytes_spec (blen bs) r Hwf) as Hr. unfold blen in *.
  rewrite (proj2 (Z.leb_le _ _)), Nat2Z.id, Ht in Hr by lia. apply Hr. lia.
Qed.

Lemma read_size_range n : returns read_size n -> 0 <= n <= MAX_PROTOCOL_MESSAGE_LEN.
Proof.
  intros (r & r' & _ & Hr). unfold read_size, bind, lift in Hr.
  destruct (read_compact_size r) as [[m r2]| |]; cbn [res_bind] in Hr; [|done|done].
  destruct (compact_size_message m) as [sz| |] eqn:Hm; cbn [res_bind] in Hr; [|done|done].
  injection Hr as -> ->. apply size_range in Hm. lia.
Qed.

Lemma read_byte_vec_lawful : lawful read_byte_vec 1.
Proof.
  apply (lawful_weaken _ (1 + 0)); [lia|]. apply lawful_bind; [apply read_size_lawful|].
  intros n Hn%read_size_range. apply (lawful_weaken _ n); [lia|]. apply read_bytes_lawful. lia.
Qed.

Lemma write_bytes_inv bs enc :
  write_bytes bs = Ok enc -> enc = write_compact_size (blen bs) ++ bs /\ blen bs <= MAX_PROTOCOL_MESSAGE_LEN.
Proof.
  unfold write_bytes. fold (blen bs). destruct (compact_size_message (blen bs)) as [n| |] eqn:Hn; cbn [res_bind]; [|done|done].
  apply size_range in Hn as [-> Hn]. unfold write_size. rewrite (proj2 (Z.leb_le _ _)) by lia. cbn.
  intros [= <-]. split; [done|lia].
Qed.

Lemma write_bytes_Ok bs :
  blen bs <= MAX_PROTOCOL_MESSAGE_LEN -> write_bytes bs = Ok (write_compact_size (blen bs) ++ bs).
Proof.
  intros Hle. unfold write_bytes. fold (blen bs). rewrite size_Ok by (unfold blen in *; lia). cbn [res_bind].
  unfold write_size. by rewrite (proj2 (Z.leb_le _ _)).
Qed.

Lemma read_byte_vec_parses bs :
  blen bs <= MAX_U8_ALLOCATION -> parses read_byte_vec bs (write_compact_size (blen bs) ++ bs).
Proof.
  intros Hle. apply (parses_bind _ _ (blen bs)); [|by apply read_bytes_parses].
  apply read_size_parses. unfold MAX_U8_ALLOCATION, blen in *. lia.
Qed.

(** ** Item vectors *)

Section Items.
Context {A : Type} `{!ZcashSerialize A, !ZcashDeserialize A, !TrustedPreallocate A}.

(** An item takes at least its declared size, which is positive. *)
Hypothesis item_lawful : lawful (zcash_deserialize_from : decoder A) (min_serialized_size A).
Hypothesis min_pos : 0 < min_serialized_size A.

Lemma read_items_lawful n (acc : list A) : lawful (read_items n acc) (Z.of_nat n * min_serialized_size A).
Proof using item_lawful.
  revert acc. induction n as [|n IH]; intros acc; cbn [read_items]; [apply lawful_ret|].
  apply (lawful_weaken _ (min_serialized_size A + Z.of_nat n * min_serialized_size A)); [lia|].
  apply lawful_bind; [done|]. intros x _. apply IH.
Qed.

(** The check of the count passes when the items are there. *)
Lemma count_fits count m : 0 <= count -> count * min_serialized_size A <= m ->
  negb (count =? 0) && ((min_serialized_size A =? 0) || (m / min_serialized_size A <? count)) = false.
Proof using min_pos.
  intros Hc Hm. apply andb_false_iff. right. apply orb_false_iff. split; [apply Z.eqb_neq; lia|].
  apply Z.ltb_ge. apply Z.div_le_lower_bound; lia.
Qed.

Lemma remaining_available r m : wf r -> remaining_bytes r = Some m -> m = available r.
Proof.
  intros Hwf. unfold remaining_bytes. destruct (remaining r) as [k|] eqn:Hk; [|done]. cbn. intros [= <-].
  pose proof (wf_remaining r Hwf k Hk) as ->. done.
Qed.

Lemma read_external_count_parses count (l : list A) bs :
  0 <= count <= max_allocation A -> count * min_serialized_size A <= blen bs ->
  parses (read_items (Z.to_nat count) []) l bs -> parses (read_external_count count) l bs.
Proof using min_pos.
  intros Hc Hm Hp r Hwf Ht Ha. unfold read_external_count. rewrite (proj2 (Z.ltb_ge _ _)) by lia.
  destruct (remaining_bytes r) as [m|] eqn:Hrem; [|by apply Hp].
  apply remaining_available in Hrem as ->; [|done]. rewrite count_fits by lia. by apply Hp.
Qed.

Lemma read_external_count_lawful count :
  0 <= count -> lawful (read_external_count (A := A) count) (count * min_serialized_size A).
Proof using item_lawful min_pos.
  intros Hc r Hwf. unfold outcome. unfold read_external_count at 1.
  destruct (Z.ltb_spec (max_allocation A) count) as [?|Hmax]; [done|].
  destruct (match remaining_bytes r with Some _ => _ | None => _ end); [done|].
  pose proof (read_items_lawful (Z.to_nat count) [] r Hwf) as Hl. unfold outcome in Hl.
  rewrite Z2Nat.id in Hl by lia.
  destruct (read_items (Z.to_nat count) [] r) as [[l r']| |]; [|done|done].
  destruct Hl as (bs & H1 & H2 & H3 & Hp). exists bs. split; [done|]. split; [done|]. split; [done|].
  apply read_external_count_parses; [lia|lia|done].
Qed.

Lemma read_vec_lawful : lawful (read_vec (A := A)) 1.
Proof using item_lawful min_pos.
  apply (lawful_weaken _ (1 + 0)); [lia|]. apply lawful_bind; [apply read_size_lawful|].
  intros n Hn%read_size_range. apply (lawful_weaken _ (n * min_serialized_size A)); [nia|].
  apply read_external_count_lawful. lia.
Qed.

(** *** Round trips *)

Definition roundtrips (x : A) : Prop :=
  forall bs, zcash_serialize x = Ok bs -> parses zcash_deserialize_from x bs.

Lemma read_items_parses l : forall acc bs,
  Forall roundtrips l -> write_items l = Ok bs -> parses (read_items (length l) acc) (acc ++ l) bs.
Proof.
  induction l as [|x l IH]; intros acc bs Hl; cbn [write_items read_items length].
  { intros [= <-]. rewrite app_nil_r. apply parses_ret. }
  intros Hw. destruct (zcash_serialize x) as [b| |] eqn:Hx; cbn [res_bind] in Hw; [|done|done].
  destruct (write_items l) as [rest| |]; cbn [res_bind] in Hw; [|done|done]. injection Hw as <-.
  inversion Hl as [|? ? Hxr Hlr]; subst. apply (parses_bind _ _ x); [by apply Hxr|].
  replace (acc ++ x :: l) with ((acc ++ [x]) ++ l) by (by rewrite <- app_assoc). by apply IH.
Qed.

Lemma parses_min (d : decoder A) min x bs : lawful d min -> parses d x bs -> min <= blen bs.
Proof.
  intros Hl Hp. destruct (from_slice_wf bs) as [Hwf Hb].
  assert (Hav : available (from_slice bs) = blen bs) by (unfold available; by rewrite Hb).
  destruct (Hp (from_slice bs) Hwf) as (r' & Hr' & Hadv); [by rewrite Hb, take_ge|lia|].
  specialize (Hl (from_slice bs) Hwf). unfold outcome in Hl. rewrite Hr' in Hl.
  destruct Hl as (bs' & _ & Hm & _). lia.
Qed.

Lemma write_items_min l bs :
  Forall roundtrips l -> write_items l = Ok bs -> Z.of_nat (length l) * min_serialized_size A <= blen bs.
Proof using item_lawful.
  revert bs. induction l as [|x l IH]; intros bs Hl; cbn [write_items].
  { intros [= <-]. unfold blen. cbn. lia. }
  intros Hw. destruct (zcash_serialize x) as [b| |] eqn:Hx; cbn [res_bind] in Hw; [|done|done].
  destruct (write_items l) as [rest| |]; cbn [res_bind] in Hw; [|done|done]. injection Hw as <-.
  inversion Hl as [|? ? Hxr Hlr]; subst. specialize (IH rest Hlr eq_refl).
  pose proof (parses_min _ _ x b item_lawful (Hxr b Hx)). unfold blen in *. rewrite length_app. cbn [length]. nia.
Qed.

Lemma vec_parses l bs :
  Forall roundtrips l -> Z.of_nat (length l) <= max_allocation A -> write_vec l = Ok bs -> parses read_vec l bs.
Proof using item_lawful min_pos.
  intros Hl Hmax. unfold write_vec. destruct (compact_size_message _) as [n| |] eqn:Hn; cbn [expect_ok res_bind]; [|done|done].
  apply size_range in Hn as [-> Hn]. unfold write_size. rewrite (proj2 (Z.leb_le _ _)) by lia. cbn [rust_assert res_bind].
  destruct (write_items l) as [items| |] eqn:Hi; cbn [res_bind]; [|done|done]. intros [= <-].
  apply (parses_bind _ _ (Z.of_nat (length l))); [by apply read_size_parses|].
  apply read_external_count_parses; [lia|by apply write_items_min|]. rewrite Nat2Z.id.
  by apply (read_items_parses l []).
Qed.
End Items.

(** Reading a vector from a complete message gives what reading it from a stream of
    the same bytes gives, with the same bytes left, however the stream is cut into chunks:
    although only the former rejects a count that the remaining bytes cannot hold, it
    rejects no vector that is there.  (The items take at least the positive size they
    declare, and their decoder depends on the bytes it consumes alone.) *)
Lemma vec_slice_is_stream {A} `{!ZcashDeserialize A, !TrustedPreallocate A} chunks (l : list A) rest :
  lawful (zcash_deserialize_from : decoder A) (min_serialized_size A) -> 0 < min_serialized_size A ->
  Forall (fun c => c <> []) chunks ->
  (exists r, read_vec (from_slice (concat chunks)) = Ok (l, r) /\ bytes r = rest) <->
  (exists r, read_vec (from_stream chunks) = Ok (l, r) /\ bytes r = rest).
Proof.
  intros Hlaw Hmin Hc.
  destruct (from_slice_wf (concat chunks)) as [Hw1 Hb1]. destruct (from_stream_wf chunks Hc) as [Hw2 Hb2].
  assert (Hmove : forall r1 r2, wf r1 -> wf r2 -> bytes r1 = bytes r2 -> available r1 = available r2 ->
    (exists r, read_vec r1 = Ok (l, r) /\ bytes r = rest) -> exists r, read_vec r2 = Ok (l, r) /\ bytes r = rest).
  { intros r1 r2 Hwf1 Hwf2 Hb Ha (r & Hr & <-). pose proof (read_vec_lawful Hlaw Hmin r1 Hwf1) as Hl.
    unfold outcome in Hl. rewrite Hr in Hl. destruct Hl as (bs & Ht & Hle & Hadv & Hp).
    destruct (Hp r2 Hwf2) as (r' & Hr' & Hadv'); [by rewrite <- Hb|lia|].
    exists r'. split; [done|]. rewrite (adv_bytes _ _ _ Hadv), (adv_bytes _ _ _ Hadv'). by rewrite Hb. }
  assert (Hav : available (from_slice (concat chunks)) = available (from_stream chunks)).
  { unfold available. by rewrite Hb1, Hb2. }
  split; apply Hmove; congruence.
Qed.
End SerializationFacts.

Module Codec.
Import Serialization SerializationFacts.

Implicit Types (r : ZcashReader) (bs : list Z).

Record exact_codec {A} (valid : A -> Prop) (enc : A -> res SerializationError (list Z)) (dec : decoder A)
  (min : Z) : Prop := {
  xc_lawful : lawful dec min;
  xc_enc : forall x, valid x -> exists bs, enc x = Ok bs /\ Forall is_byte bs /\ parses dec x bs;
  xc_dec : forall r x r', wf r -> Forall is_byte (bytes r) -> dec r = Ok (x, r') ->
    valid x /\ exists bs, enc x = Ok bs /\ bytes r = bs ++ bytes r' /\ blen bs <= available r;
}.

(** The reader after a decoded value. *)
Record decoded {A} (valid : A -> Prop) (enc : A -> res SerializationError (list Z)) r (x : A) r' bs : Prop := {
  de_valid : valid x;
  de_enc : enc x = Ok bs;
  de_bytes : bytes r = bs ++ bytes r';
  de_le : blen bs <= available r;
  de_wf : wf r';
  de_is_byte : Forall is_byte (bytes r');
  de_available : available r' = available r - blen bs;
}.

Arguments de_valid {_ _ _ _ _ _ _} _.
Arguments de_enc {_ _ _ _ _ _ _} _.
Arguments de_bytes {_ _ _ _ _ _ _} _.
Arguments de_le {_ _ _ _ _ _ _} _.
Arguments de_wf {_ _ _ _ _ _ _} _.
Arguments de_is_byte {_ _ _ _ _ _ _} _.
Arguments de_available {_ _ _ _ _ _ _} _.

Section Codec.
Context {A : Type} (valid : A -> Prop) (enc : A -> res SerializationError (list Z)) (dec : decoder A) (min : Z).
Hypothesis codec : exact_codec valid enc dec min.

Lemma xc_step r x r' :
  wf r -> Forall is_byte (bytes r) -> dec r = Ok (x, r') -> exists bs, decoded valid enc r x r' bs.
Proof using codec.
  intros Hwf Hb Hr. destruct (xc_dec _ _ _ _ codec r x r' Hwf Hb Hr) as (Hv & bs & He & Heq & Hle).
  pose proof (xc_lawful _ _ _ _ codec r Hwf) as Hl. unfold outcome in Hl. rewrite Hr in Hl.
  destruct Hl as (bs' & _ & Hl' & Hadv & _). pose proof (available_range r Hwf) as Ha.
  assert (Hlen : length bs' = length bs).
  { pose proof (adv_bytes _ _ _ Hadv) as Hdrop. apply (f_equal length) in Hdrop. apply (f_equal length) in Heq.
    rewrite length_drop in Hdrop. rewrite length_app in Heq. unfold blen in *. lia. }
  exists bs. split; try done; [apply Hadv| |].
  - rewrite Heq in Hb. by apply Forall_app in Hb as [_ ?].
  - rewrite (available_advanced _ _ _ Hadv); unfold blen in *; lia.
Qed.

(** The decoder accepts [x] exactly from its encoding. *)
Lemma exact_iff r x rest :
  wf r -> Forall is_byte (bytes r) ->
  (exists r', dec r = Ok (x, r') /\ bytes r' = rest) <->
  valid x /\ exists bs, enc x = Ok bs /\ bytes r = bs ++ rest /\ blen bs <= available r.
Proof using codec.
  intros Hwf Hb. split.
  - intros (r' & Hr & <-). destruct (xc_dec _ _ _ _ codec r x r' Hwf Hb Hr) as (Hv & bs & He & Heq & Hle). eauto 6.
  - intros (Hv & bs & He & Heq & Hle). destruct (xc_enc _ _ _ _ codec x Hv) as (bs' & He' & _ & Hp).
    rewrite He in He'. injection He' as <-. destruct (Hp r Hwf) as (r' & Hr & Hadv); [|done|].
    + rewrite Heq. by rewrite take_app_length.
    + exists r'. split; [done|]. rewrite (adv_bytes _ _ _ Hadv), Heq. by rewrite drop_app_length.
Qed.
End Codec.

(** [d] after a decoder that [enc] inverts: what [bind d k] decodes from [r] splits. *)
Lemma bind_Ok {A B} (d : decoder A) (k : A -> decoder B) r y r'' :
  bind d k r = Ok (y, r'') -> exists x r', d r = Ok (x, r') /\ k x r' = Ok (y, r'').
Proof. unfold bind. destruct (d r) as [[x r']| |]; cbn [res_bind]; [|done|done]. eauto. Qed.

(** ** Integers and byte vectors *)

Definition fits (n : nat) (z : Z) : Prop := 0 <= z < 256 ^ Z.of_nat n.

Lemma le_codec n : exact_codec (fits n) (fun z => Ok (le_bytes n z)) (read_le n) (Z.of_nat n).
Proof.
  split; [apply read_le_lawful|..].
  - intros z Hz. eexists. split; [done|]. split; [apply le_bytes_is_byte|by apply read_le_parses].
  - intros r z r' Hwf Hb Hr. apply (read_le_inv n r z r' Hwf) in Hr as (-> & Hadv & Hn).
    destruct (take_le_bytes n r Hwf Hb Hn) as [Heq Hrange]. split; [done|].
    eexists. split; [done|]. split.
    + rewrite <- Heq, (adv_bytes _ _ _ Hadv). by rewrite take_drop.
    + unfold blen. by rewrite length_le_bytes.
Qed.

Lemma compact_size_is_byte n : 0 <= n < 2 ^ 64 -> Forall is_byte (write_compact_size n).
Proof.
  intros Hn. unfold write_compact_size.
  repeat case_match; (apply Forall_cons_2; [unfold is_byte; lia|]); [done|apply le_bytes_is_byte..].
Qed.

Lemma size_codec :
  exact_codec (fun n => 0 <= n <= MAX_PROTOCOL_MESSAGE_LEN) (fun n => Ok (write_compact_size n)) read_size 1.
Proof.
  split; [apply read_size_lawful|..].
  - intros n Hn. eexists. split; [done|]. split; [|by apply read_size_parses].
    apply compact_size_is_byte. unfold MAX_PROTOCOL_MESSAGE_LEN in Hn. lia.
  - intros r n r' Hwf Hb Hr. assert (Hret : returns read_size n) by (by exists r, r').
    split; [by apply read_size_range|]. eexists. split; [done|].
    unfold read_size in Hr. apply bind_Ok in Hr as (m & r1 & Hr & Hl).
    destruct (compact_size_message m) as [sz| |] eqn:Hm; cbn in Hl; [|done|done]. injection Hl as -> ->.
    apply size_range in Hm as [-> _]. destruct (compact_size_inv r m r' Hwf Hb Hr) as (_ & Heq & Hav).
    split; [done|]. unfold blen. rewrite length_compact_size. done.
Qed.

(** A byte vector of known length *)
Lemma read_bytes_codec n :
  0 <= n -> exact_codec (fun bs => Forall is_byte bs /\ blen bs = n /\ n <= MAX_U8_ALLOCATION)
    (fun bs => Ok bs) (read_bytes n) n.
Proof.
  intros Hn. split; [by apply read_bytes_lawful|..].
  - intros bs (Hb & <- & Hle). exists bs. split; [done|]. split; [done|by apply read_bytes_parses].
  - intros r bs r' Hwf Hb Hr. destruct (Z.leb_spec n MAX_U8_ALLOCATION) as [Hmax|Hmax].
    2: { unfold read_bytes in Hr. by rewrite (proj2 (Z.ltb_lt _ _)) in Hr. }
    pose proof (read_bytes_spec n r Hwf ltac:(lia)) as Hs. pose proof (available_range r Hwf) as Ha.
    destruct (Z.leb_spec n (available r)) as [Hin|Hout]; [|by destruct Hs as [e Hs]; rewrite Hr in Hs].
    destruct Hs as (r2 & Hs & Hadv). rewrite Hr in Hs. injection Hs as -> ->.
    assert (Hlen : blen (take (Z.to_nat n) (bytes r)) = n) by (unfold blen in *; rewrite length_take; lia).
    split; [split; [by apply Forall_take|done]|]. eexists. split; [done|].
    rewrite (adv_bytes _ _ _ Hadv), take_drop. split; [done|lia].
Qed.

Definition byte_vec (bs : list Z) : Prop := Forall is_byte bs /\ blen bs <= MAX_U8_ALLOCATION.

Lemma bytes_codec : exact_codec byte_vec write_bytes read_byte_vec 1.
Proof.
  split; [apply read_byte_vec_lawful|..].
  - intros bs [Hb Hle]. rewrite write_bytes_Ok by (unfold MAX_U8_ALLOCATION in *; lia).
    eexists. split; [done|]. split; [|by apply read_byte_vec_parses].
    apply Forall_app. split; [|done]. apply compact_size_is_byte.
    unfold MAX_U8_ALLOCATION, MAX_PROTOCOL_MESSAGE_LEN, blen in *. lia.
  - intros r bs r' Hwf Hb Hr. apply bind_Ok in Hr as (n & r1 & Hn & Hr).
    destruct (xc_step _ _ _ _ size_codec r n r1 Hwf Hb Hn) as (hdr & [Hv He Heq Hle Hwf1 Hb1 Hav1]).
    injection He as <-.
    destruct (xc_step _ _ _ _ (read_bytes_codec n ltac:(lia)) r1 bs r' Hwf1 Hb1 Hr)
      as (b & [(Hvb & Hlen & Hmax) He Heq1 Hle1 _ _ _]). injection He as <-.
    split; [split; [done|lia]|]. exists (write_compact_size n ++ bs).
    rewrite write_bytes_Ok, Hlen by (rewrite Hlen; lia). split; [done|]. split.
    + by rewrite Heq, Heq1, app_assoc.
    + unfold blen in *. rewrite length_app. lia.
Qed.

(** ** Item vectors *)

Section Items.
Context {A : Type} `{!ZcashSerialize A, !ZcashDeserialize A, !TrustedPreallocate A} (valid : A -> Prop).
Hypothesis item : exact_codec valid zcash_serialize zcash_deserialize_from (min_serialized_size A).
Hypothesis min_pos : 0 < min_serialized_size A.

Lemma valid_roundtrips x : valid x -> roundtrips x.
Proof using item.
  intros Hv bs He. destruct (xc_enc _ _ _ _ item x Hv) as (bs' & He' & _ & Hp).
  rewrite He in He'. by injection He' as <-.
Qed.

Lemma write_items_valid l : Forall valid l -> exists bs, write_items l = Ok bs /\ Forall is_byte bs.
Proof using item.
  induction 1 as [|x l Hx Hl IH]; cbn [write_items]; [by eexists|].
  destruct (xc_enc _ _ _ _ item x Hx) as (b & -> & Hb & _). destruct IH as (bs & -> & Hbs). cbn [res_bind].
  eexists. split; [done|]. by apply Forall_app.
Qed.

Lemma read_items_inv n : forall acc r l r',
  wf r -> Forall is_byte (bytes r) -> read_items n acc r = Ok (l, r') ->
  exists items, l = acc ++ items /\ length items = n /\ Forall valid items /\
    exists bs, write_items items = Ok bs /\ bytes r = bs ++ bytes r' /\ blen bs <= available r.
Proof using item.
  induction n as [|n IH]; intros acc r l r' Hwf Hb; cbn [read_items].
  { intros [= <- <-]. exists []. rewrite app_nil_r. split; [done|]. split; [done|]. split; [done|].
    exists []. pose proof (available_range r Hwf). split; [done|]. split; [done|]. unfold blen. cbn. lia. }
  intros (x & r1 & Hx & Hr)%bind_Ok.
  destruct (xc_step _ _ _ _ item r x r1 Hwf Hb Hx) as (b & [Hv He Heq Hle Hwf1 Hb1 Hav1]).
  destruct (IH _ _ _ _ Hwf1 Hb1 Hr) as (items & -> & Hlen & Hvs & bs & Hw & Heq' & Hle').
  exists (x :: items). split; [by rewrite <- app_assoc|]. split; [cbn; lia|]. split; [by constructor|].
  exists (b ++ bs). cbn [write_items]. rewrite He, Hw. cbn [res_bind]. split; [done|].
  split; [by rewrite Heq, Heq', app_assoc|]. unfold blen in *. rewrite length_app. lia.
Qed.

(** A vector the decoder accepts. *)
Definition valid_vec (l : list A) : Prop :=
  Forall valid l /\ Z.of_nat (length l) <= max_allocation A /\ Z.of_nat (length l) <= MAX_PROTOCOL_MESSAGE_LEN.

Lemma vec_codec : exact_codec valid_vec write_vec read_vec 1.
Proof using item min_pos.
  pose proof (xc_lawful _ _ _ _ item) as Hlaw.
  assert (Hwrite : forall l bs, Z.of_nat (length l) <= MAX_PROTOCOL_MESSAGE_LEN -> write_items l = Ok bs ->
    write_vec l = Ok (write_compact_size (Z.of_nat (length l)) ++ bs)).
  { intros l bs Hle Hw. unfold write_vec. rewrite size_Ok by lia. cbn [expect_ok res_bind]. unfold write_size.
    rewrite (proj2 (Z.leb_le _ _)) by done. cbn [rust_assert res_bind]. by rewrite Hw. }
  split; [by apply read_vec_lawful|..].
  - intros l (Hv & Hmax & Hle). destruct (write_items_valid l Hv) as (bs & Hw & Hb). rewrite (Hwrite l bs Hle Hw).
    eexists. split; [done|]. split.
    + apply Forall_app. split; [|done]. apply compact_size_is_byte. unfold MAX_PROTOCOL_MESSAGE_LEN in *. lia.
    + apply vec_parses; [done|done| |done|by apply Hwrite].
      eapply Forall_impl; [apply valid_roundtrips|exact Hv].
  - intros r l r' Hwf Hb (n & r1 & Hn & Hr)%bind_Ok.
    destruct (xc_step _ _ _ _ size_codec r n r1 Hwf Hb Hn) as (hdr & [Hv He Heq Hle Hwf1 Hb1 Hav1]).
    injection He as <-. unfold read_external_count in Hr.
    destruct (Z.ltb_spec (max_allocation A) n) as [?|Hmax]; [done|].
    destruct (match remaining_bytes r1 with Some _ => _ | None => _ end); [done|].
    destruct (read_items_inv _ _ _ _ _ Hwf1 Hb1 Hr) as (items & -> & Hlen & Hvs & bs & Hw & Heq' & Hle').
    cbn [app] in *. assert (Hn' : Z.of_nat (length items) = n) by lia.
    split; [split; [done|lia]|]. rewrite (Hwrite items bs ltac:(lia) Hw), Hn'. eexists. split; [done|].
    split; [by rewrite Heq, Heq', app_assoc|]. unfold blen in *. rewrite length_app. lia.
Qed.
End Items.
End Codec.
