(* ===== verification/HashIter.v ===== *)
(** * Hash set iteration

    A [HashSet] is a [gset], a [HashMap] a [gmap].  Iterating over one visits
    its elements in an order the program does not choose; it is a parameter, of
    which only the law holds.  Theorems are for every such order. *)

From stdpp Require Import base numbers list option gmap sets.
From Stdlib Require Import Lia.

Class HashOrder := {
  hash_iter : forall (A : Type) (E : EqDecision A) (C : Countable A), gset A -> list A;
  hash_iter_perm : forall A E C (s : gset A), hash_iter A E C s ≡ₚ elements s;
}.
Arguments hash_iter {_ _ _ _} _.
Arguments hash_iter_perm {_ _ _ _} _.

Section HashIter.
Context {HO : HashOrder} {A : Type} `{Countable A}.
Implicit Types s : gset A.

Lemma elem_of_hash_iter s x : x ∈ hash_iter s <-> x ∈ s.
Proof. by rewrite hash_iter_perm, elem_of_elements. Qed.

Lemma NoDup_hash_iter s : NoDup (hash_iter s).
Proof. rewrite hash_iter_perm. apply NoDup_elements. Qed.

Lemma length_hash_iter s : length (hash_iter s) = size s.
Proof. by rewrite hash_iter_perm. Qed.

Lemma list_to_set_hash_iter s : list_to_set (hash_iter s) = s.
Proof. apply set_eq. intros x. by rewrite elem_of_list_to_set, elem_of_hash_iter. Qed.
End HashIter.

(** ** Counting with a set *)

Section Counting.
Context {A : Type} `{Countable A}.

Lemma size_list_to_set_le (l : list A) : (size (list_to_set l : gset A) <= length l)%nat.
Proof.
  induction l as [|x l IH]; [by rewrite list_to_set_nil, size_empty|].
  rewrite list_to_set_cons, size_union_alt, size_singleton. cbn [length].
  assert (Hs : (size (list_to_set l ∖ {[x]} : gset A) <= size (list_to_set l : gset A))%nat)
    by (apply subseteq_size; set_solver). lia.
Qed.

(** A list is as long as the set of its elements only when they are distinct. *)
Lemma NoDup_size (l : list A) : length l = size (list_to_set l : gset A) -> NoDup l.
Proof.
  induction l as [|x l IH]; [constructor|]. cbn [length list_to_set]. intros Hlen.
  pose proof (size_list_to_set_le l) as Hle. destruct (decide (x ∈ l)) as [Hin|Hni].
  - replace ({[x]} ∪ list_to_set l : gset A) with (list_to_set l : gset A) in Hlen by set_solver. lia.
  - constructor; [done|]. apply IH. rewrite size_union, size_singleton in Hlen by set_solver. lia.
Qed.
End Counting.

(** The order of [elements] is one. *)
Definition elements_order : HashOrder :=
  {| hash_iter A E C s := elements s; hash_iter_perm A E C s := reflexivity (elements s) |}.
