(* ===== verification/Dependencies.v ===== *)
(** * Dependencies between mempool transactions

    [zakura-node-services/src/mempool/transaction_dependencies.rs]: for each
    transaction of the mempool, the ones whose outputs it spends and the ones
    that spend its outputs.

    The lemmas: the two maps stay converse to each other, adding, clearing mined
    transactions and removing change exactly the edges they should, and
    [remove_all] ends and finds exactly the transitive dependents. *)

From stdpp Require Import base numbers list option gmap sets relations.
From Stdlib Require Import ZArith Lia.
From S2P Require Import Prelude HashIter.
Local Open Scope Z_scope.

(** A transaction hash is its byte array read as a big-endian integer, which has
    the order of the arrays. *)
Definition Hash : Type := Z.

(** [transparent::OutPoint] *)
Record OutPoint := mkOutPoint { op_hash : Hash; op_index : Z }.
#[export] Instance outpoint_eq_dec : EqDecision OutPoint.
Proof. solve_decision. Defined.
#[export] Instance outpoint_countable : Countable OutPoint :=
  inj_countable' (fun o => (op_hash o, op_index o)) (fun p => mkOutPoint p.1 p.2)
    ltac:(abstract by intros []).

Module Dependencies.

Record TransactionDependencies := mkDeps {
  dependencies : gmap Hash (gset Hash);
  dependents : gmap Hash (gset Hash);
}.

Definition empty : TransactionDependencies := mkDeps ∅ ∅.

Section Operations.
Context {HO : HashOrder}.

(** [entry(outpoint.hash).or_default().insert(dependent)] *)
Definition add_dependent (dependent : Hash) (m : gmap Hash (gset Hash)) (outpoint : OutPoint)
  : gmap Hash (gset Hash) :=
  <[op_hash outpoint := {[dependent]} ∪ default ∅ (m !! op_hash outpoint)]> m.

Definition add (self : TransactionDependencies) (dependent : Hash)
  (spent_mempool_outpoints : list OutPoint) : TransactionDependencies :=
  mkDeps
    (match spent_mempool_outpoints with
     | [] => dependencies self
     | _ => <[dependent := list_to_set (op_hash <$> spent_mempool_outpoints)]> (dependencies self)
     end)
    (foldl (add_dependent dependent) (dependents self) spent_mempool_outpoints).

(** Removing [x] from the set at [key], and the set once it is empty. *)
Definition remove_from (x : Hash) (m : gmap Hash (gset Hash)) (key : Hash) : gmap Hash (gset Hash) :=
  match m !! key with
  | None => m
  | Some s =>
      let s := s ∖ {[x]} in
      if decide (s = ∅) then delete key m else <[key := s]> m
  end.

(** The outer loop body of [clear_mined_dependencies]. *)
Definition clear_mined (self : TransactionDependencies) (mined_tx_id : Hash) : TransactionDependencies :=
  let dependent_ids := hash_iter (default ∅ (dependents self !! mined_tx_id)) in
  mkDeps (foldl (remove_from mined_tx_id) (dependencies self) dependent_ids)
    (delete mined_tx_id (dependents self)).

Definition clear_mined_dependencies (self : TransactionDependencies) (mined_ids : gset Hash)
  : TransactionDependencies :=
  foldl clear_mined self (hash_iter mined_ids).

(** The closure of [remove_all]: detaches [dependent] from its dependencies, and
    takes its dependents. *)
Definition detach (self : TransactionDependencies) (dependent : Hash)
  : TransactionDependencies * gset Hash :=
  let removed := hash_iter (default ∅ (dependencies self !! dependent)) in
  let m := foldl (remove_from dependent) (dependents self) removed in
  (mkDeps (delete dependent (dependencies self)) (delete dependent m), default ∅ (m !! dependent)).

Fixpoint detach_level (level : list Hash) (self : TransactionDependencies) (next : gset Hash)
  : TransactionDependencies * gset Hash :=
  match level with
  | [] => (self, next)
  | dependent :: level =>
      let '(self, s) := detach self dependent in detach_level level self (next ∪ s)
  end.

(** The [while] loop of [remove_all].  A round that finds dependents removes an
    entry of [dependents]. *)
Fixpoint remove_levels {E} (fuel : nat) (self : TransactionDependencies)
  (current_level all_dependents : gset Hash) : res E (TransactionDependencies * gset Hash) :=
  match fuel with
  | O => Panic
  | S fuel =>
      if decide (current_level = ∅) then Ok (self, all_dependents)
      else
        let '(self, next) := detach_level (hash_iter current_level) self ∅ in
        remove_levels fuel self next (all_dependents ∪ next)
  end.

Definition remove_all {E} (self : TransactionDependencies) (tx_hash : Hash)
  : res E (TransactionDependencies * gset Hash) :=
  remove_levels (S (S (size (dependents self)))) self {[tx_hash]} ∅.

Definition direct_dependents (self : TransactionDependencies) (tx_hash : Hash) : gset Hash :=
  default ∅ (dependents self !! tx_hash).

Definition direct_dependencies (self : TransactionDependencies) (tx_hash : Hash) : gset Hash :=
  default ∅ (dependencies self !! tx_hash).

Definition clear (self : TransactionDependencies) : TransactionDependencies := mkDeps ∅ ∅.

(** ** The dependency graph *)

(** [c] spends an output of [p]. *)
Definition child (d : TransactionDependencies) (p c : Hash) : Prop := c ∈ direct_dependents d p.
Definition parent (d : TransactionDependencies) (c p : Hash) : Prop := p ∈ direct_dependencies d c.

Definition no_empty (m : gmap Hash (gset Hash)) : Prop := forall k s, m !! k = Some s -> s <> ∅.

Record deps_wf (d : TransactionDependencies) : Prop := {
  wf_converse : forall p c, child d p c <-> parent d c p;
  wf_dependencies : no_empty (dependencies d);
  wf_dependents : no_empty (dependents d);
}.

(** Lookups after [remove_from]. *)
Lemma remove_from_default x m key k :
  default ∅ (remove_from x m key !! k) =
    if decide (k = key) then default ∅ (m !! k) ∖ {[x]} else default ∅ (m !! k).
Proof.
  unfold remove_from. destruct (m !! key) as [s|] eqn:Hk.
  - destruct (decide (s ∖ {[x]} = ∅)) as [He|He], (decide (k = key)) as [->|Hne].
    + by rewrite lookup_delete_eq, Hk, <- He.
    + by rewrite lookup_delete_ne.
    + by rewrite lookup_insert_eq, Hk.
    + by rewrite lookup_insert_ne.
  - destruct (decide (k = key)) as [->|Hne]; [|done]. rewrite Hk. cbn. set_solver.
Qed.

Lemma remove_from_no_empty x m key : no_empty m -> no_empty (remove_from x m key).
Proof.
  intros Hm k s. unfold remove_from. destruct (m !! key) as [s0|] eqn:Hk; [|apply Hm].
  destruct (decide (s0 ∖ {[x]} = ∅)) as [He|He].
  - intros [_ Hs]%lookup_delete_Some. by apply (Hm k).
  - intros [[_ <-]|[_ Hs]]%lookup_insert_Some; [done|by apply (Hm k)].
Qed.

Lemma foldl_remove_from_default x l m k :
  default ∅ (foldl (remove_from x) m l !! k) =
    if decide (k ∈ l) then default ∅ (m !! k) ∖ {[x]} else default ∅ (m !! k).
Proof.
  revert m. induction l as [|key l IH]; intros m; cbn [foldl].
  { by rewrite decide_False by apply not_elem_of_nil. }
  rewrite IH, remove_from_default.
  destruct (decide (k ∈ l)) as [Hl|Hl], (decide (k = key)) as [->|Hne];
    repeat case_decide; rewrite ?elem_of_cons in *; set_solver.
Qed.

Lemma foldl_remove_from_no_empty x l m : no_empty m -> no_empty (foldl (remove_from x) m l).
Proof. revert m. induction l as [|k l IH]; intros m Hm; cbn; [done|]. by apply IH, remove_from_no_empty. Qed.

Lemma remove_from_size x m key : (size (remove_from x m key) <= size m)%nat.
Proof.
  unfold remove_from. destruct (m !! key) as [s|] eqn:Hk; [|done]. case_decide.
  - apply map_subseteq_size, delete_subseteq.
  - by rewrite map_size_insert_Some by eauto.
Qed.

Lemma foldl_remove_from_size x l m : (size (foldl (remove_from x) m l) <= size m)%nat.
Proof.
  revert m. induction l as [|k l IH]; intros m; cbn; [done|].
  etransitivity; [apply IH|apply remove_from_size].
Qed.

(** ** Adding *)

Lemma add_dependents_default dependent l m k :
  default ∅ (foldl (add_dependent dependent) m l !! k) =
    (if decide (k ∈ op_hash <$> l) then {[dependent]} ∪ default ∅ (m !! k) else default ∅ (m !! k)).
Proof.
  revert m. induction l as [|o l IH]; intros m; cbn [foldl fmap list_fmap].
  { by rewrite decide_False by apply not_elem_of_nil. }
  rewrite IH. unfold add_dependent. destruct (decide (k = op_hash o)) as [->|Hne].
  - rewrite lookup_insert_eq. cbn. repeat case_decide; rewrite ?elem_of_cons in *; set_solver.
  - rewrite lookup_insert_ne by done. repeat case_decide; rewrite ?elem_of_cons in *; set_solver.
Qed.

Lemma add_dependents_no_empty dependent l m :
  no_empty m -> no_empty (foldl (add_dependent dependent) m l).
Proof.
  revert m. induction l as [|o l IH]; intros m Hm; cbn; [done|]. apply IH. intros k s. unfold add_dependent.
  intros [[_ <-]|[_ Hs]]%lookup_insert_Some; [set_solver|by apply (Hm k)].
Qed.

(** A transaction without dependencies yet gets the edges from the ones it spends. *)
Lemma add_child d dependent l p c :
  child (add d dependent l) p c <-> child d p c \/ (c = dependent /\ p ∈ op_hash <$> l).
Proof.
  unfold child, direct_dependents, add. cbn. rewrite add_dependents_default. case_decide; set_solver.
Qed.

Lemma add_parent d dependent l c p :
  direct_dependencies d dependent = ∅ ->
  parent (add d dependent l) c p <-> parent d c p \/ (c = dependent /\ p ∈ op_hash <$> l).
Proof.
  unfold parent, direct_dependencies, add. intros Hd. cbn. destruct l as [|o l]; [set_solver|].
  destruct (decide (c = dependent)) as [->|Hne].
  - rewrite lookup_insert_eq, Hd. cbn [from_option id]. rewrite elem_of_list_to_set. set_solver.
  - rewrite lookup_insert_ne by done. naive_solver.
Qed.

Lemma add_wf d dependent l :
  deps_wf d -> direct_dependencies d dependent = ∅ -> deps_wf (add d dependent l).
Proof.
  intros [Hc H1 H2] Hd. split.
  - intros p c. rewrite add_child, add_parent by done. by rewrite Hc.
  - intros k s. unfold add. cbn. destruct l as [|o l]; [apply H1|].
    intros [[_ <-]|[_ Hs]]%lookup_insert_Some; [set_solver|by apply (H1 k)].
  - by apply add_dependents_no_empty.
Qed.

(** ** Clearing mined transactions *)

Lemma clear_mined_child d m p c : child (clear_mined d m) p c <-> child d p c /\ p <> m.
Proof.
  unfold child, direct_dependents, clear_mined. cbn. destruct (decide (p = m)) as [->|Hne].
  - rewrite lookup_delete_eq. set_solver.
  - rewrite lookup_delete_ne by done. naive_solver.
Qed.

Lemma clear_mined_parent d m c p :
  deps_wf d -> parent (clear_mined d m) c p <-> parent d c p /\ p <> m.
Proof.
  intros [Hc _ _]. unfold parent, direct_dependencies, clear_mined. cbn.
  rewrite foldl_remove_from_default. case_decide as Hin; rewrite elem_of_hash_iter in Hin; [set_solver|].
  split; [|naive_solver]. intros Hp. split; [done|]. intros ->. apply Hin. by apply Hc.
Qed.

Lemma clear_mined_wf d m : deps_wf d -> deps_wf (clear_mined d m).
Proof.
  intros Hwf. split.
  - intros p c. rewrite clear_mined_child, clear_mined_parent by done. by rewrite (wf_converse d Hwf).
  - apply foldl_remove_from_no_empty, Hwf.
  - intros k s. unfold clear_mined. cbn [dependents]. intros [_ Hs]%lookup_delete_Some. by apply (wf_dependents d Hwf k).
Qed.

Lemma clear_mined_dependencies_spec d mined :
  deps_wf d ->
  deps_wf (clear_mined_dependencies d mined) /\
  forall p c, child (clear_mined_dependencies d mined) p c <-> child d p c /\ p ∉ mined.
Proof.
  unfold clear_mined_dependencies. setoid_rewrite <- (elem_of_hash_iter mined). generalize (hash_iter mined).
  intros l. revert d. induction l as [|m l IH]; intros d Hwf; cbn [foldl].
  { split; [done|]. intros p c. pose proof (not_elem_of_nil p). naive_solver. }
  destruct (IH _ (clear_mined_wf d m Hwf)) as [Hwf' Hc]. split; [done|]. intros p c.
  rewrite Hc, clear_mined_child, not_elem_of_cons. naive_solver.
Qed.

(** ** Removing a transaction and its dependents *)

(** The edges left once [P] has been detached.  The dependents of a detached
    transaction still list it as a dependency until they are detached too. *)
Record detached (d0 d : TransactionDependencies) (P : gset Hash) : Prop := {
  det_child : forall p c, child d p c <-> child d0 p c /\ p ∉ P /\ c ∉ P;
  det_parent : forall c p, parent d c p <-> parent d0 c p /\ c ∉ P;
  det_dependencies : no_empty (dependencies d);
  det_dependents : no_empty (dependents d);
}.

Lemma detached_refl d : deps_wf d -> detached d d ∅.
Proof. intros [? ? ?]. split; try done; set_solver. Qed.

Lemma detach_spec d0 d P x d' s :
  deps_wf d0 -> detached d0 d P -> detach d x = (d', s) ->
  detached d0 d' ({[x]} ∪ P) /\
  (forall c, c ∈ s <-> child d0 x c /\ x ∉ P /\ c ∉ {[x]} ∪ P) /\
  (size (dependents d') <= size (dependents d))%nat /\
  (s <> ∅ -> size (dependents d') < size (dependents d))%nat.
Proof.
  intros [Hconv _ _] [Hch Hpa Hn1 Hn2] [= <- <-].
  set (removed := hash_iter (default ∅ (dependencies d !! x))).
  set (m := foldl (remove_from x) (dependents d) removed).
  assert (Hm : forall k c, c ∈ default ∅ (m !! k) <-> child d0 k c /\ k ∉ P /\ c ∉ {[x]} ∪ P).
  { intros k c. unfold m. rewrite foldl_remove_from_default.
    assert (Hr : k ∈ removed <-> parent d0 x k /\ x ∉ P) by (unfold removed; by rewrite elem_of_hash_iter, <- Hpa).
    assert (Hkc : c ∈ default ∅ (dependents d !! k) <-> child d0 k c /\ k ∉ P /\ c ∉ P) by exact (Hch k c).
    pose proof (Hconv k x) as Hkx. case_decide as Hk; rewrite Hr in Hk; set_solver. }
  split; [split|split; [|split]].
  - intros p c. unfold child at 1, direct_dependents. cbn [dependents].
    destruct (decide (p = x)) as [->|Hne]; [rewrite lookup_delete_eq; set_solver|].
    rewrite lookup_delete_ne, Hm by done. set_solver.
  - intros c p. pose proof (Hpa c p) as Hcp. unfold parent, direct_dependencies in *. cbn [dependencies].
    destruct (decide (c = x)) as [->|Hne]; [rewrite lookup_delete_eq; set_solver|].
    rewrite lookup_delete_ne by done. set_solver.
  - intros k s. cbn [dependencies dependents]. intros [_ Hs]%lookup_delete_Some. by apply (Hn1 k).
  - intros k s. cbn [dependencies dependents]. intros [_ Hs]%lookup_delete_Some. by apply (foldl_remove_from_no_empty x removed (dependents d) Hn2 k).
  - intros c. apply Hm.
  - cbn [dependents]. etransitivity; [apply map_subseteq_size, delete_subseteq|apply foldl_remove_from_size].
  - intros Hs. cbn [dependents]. assert (Hx : is_Some (m !! x)) by (destruct (m !! x); [eauto|done]).
    destruct Hx as [s' Hx]. pose proof (foldl_remove_from_size x removed (dependents d)) as Hle. fold m in Hle.
    assert (Hsz : size m <> 0%nat).
    { intros Hz%map_size_empty_iff. by rewrite Hz, lookup_empty in Hx. }
    fold m. rewrite map_size_delete_Some by eauto. lia.
Qed.

Lemma detach_level_spec d0 level : forall d P next d' next',
  deps_wf d0 -> detached d0 d P -> detach_level level d next = (d', next') ->
  (forall p c, p ∈ P -> child d0 p c -> c ∈ P \/ c ∈ next \/ c ∈ level) ->
  detached d0 d' (list_to_set level ∪ P) /\ next ⊆ next' /\
  (forall c, c ∈ next' -> c ∈ next \/ exists p, p ∈ level /\ child d0 p c) /\
  (forall p c, p ∈ list_to_set level ∪ P -> child d0 p c -> c ∈ list_to_set level ∪ P \/ c ∈ next') /\
  (size (dependents d') <= size (dependents d))%nat /\
  (next' <> next -> size (dependents d') < size (dependents d))%nat.
Proof.
  induction level as [|x level IH]; intros d P next d' next' Hwf Hdet Heq Hclosed; cbn [detach_level] in Heq.
  { injection Heq as <- <-. cbn [list_to_set]. rewrite union_empty_l_L. split; [done|]. split; [done|].
    split; [by left|]. split; [|by split]. intros p c Hp Hpc. assert (Hp' : p ∈ P) by set_solver.
    specialize (Hclosed p c Hp' Hpc). set_solver. }
  destruct (detach d x) as [d1 s] eqn:Hd1.
  destruct (detach_spec _ _ _ _ _ _ Hwf Hdet Hd1) as (Hdet1 & Hs & Hle1 & Hlt1).
  destruct (IH d1 ({[x]} ∪ P) (next ∪ s) d' next' Hwf Hdet1 Heq) as (Hdet' & Hsub & Hfrom & Hcl & Hle & Hlt).
  { intros p c [->%elem_of_singleton|Hp]%elem_of_union Hpc; [|specialize (Hclosed p c Hp Hpc); clear -Hclosed; set_solver].
    destruct (decide (c ∈ {[x]} ∪ P)) as [|Hc]; [by left|]. right. destruct (decide (x ∈ P)) as [Hx|Hx].
    - destruct (Hclosed x c Hx Hpc) as [?|[?|[->|?]%elem_of_cons]]; [|by left; apply elem_of_union_l| |by right];
        destruct Hc; [by apply elem_of_union_r|by apply elem_of_union_l, elem_of_singleton].
    - left. apply elem_of_union_r. by apply Hs. }
  replace (list_to_set (x :: level) ∪ P) with (list_to_set level ∪ ({[x]} ∪ P)) by (clear; set_solver).
  split; [done|]. split; [clear -Hsub; set_solver|]. split; [|split; [done|split; [lia|]]].
  - intros c Hc. destruct (Hfrom c Hc) as [[?|?%Hs]%elem_of_union|(p & Hp & Hpc)]; [by left|..]; right.
    + exists x. split; [by left|]. tauto.
    + exists p. split; [by right|done].
  - intros Hne. destruct (decide (s = ∅)) as [->|Hs0]; [|specialize (Hlt1 Hs0); lia].
    rewrite union_empty_r_L in Hlt. specialize (Hlt Hne). lia.
Qed.

Lemma remove_levels_spec {E} d0 tx : forall fuel d P current all,
  deps_wf d0 -> detached d0 d P ->
  (forall p c, p ∈ P -> child d0 p c -> c ∈ P ∪ current) ->
  {[tx]} ∪ all = P ∪ current -> (forall y, y ∈ all -> tc (child d0) tx y) ->
  (size (dependents d) + 2 <= fuel \/ (current = ∅ /\ 1 <= fuel))%nat ->
  exists d' all', remove_levels (E := E) fuel d current all = Ok (d', all') /\
    detached d0 d' ({[tx]} ∪ all') /\ (forall y, y ∈ all' -> tc (child d0) tx y) /\
    (forall p c, p ∈ {[tx]} ∪ all' -> child d0 p c -> c ∈ {[tx]} ∪ all').
Proof.
  induction fuel as [|fuel IH]; intros d P current all Hwf Hdet Hcl Hall Htc Hf; [lia|]. cbn [remove_levels].
  destruct (decide (current = ∅)) as [->|Hne].
  { exists d, all. rewrite union_empty_r_L in Hall. rewrite Hall. split; [done|]. split; [done|]. split; [done|].
    intros p c Hp Hpc. specialize (Hcl p c Hp Hpc). clear -Hcl. set_solver. }
  destruct (detach_level (hash_iter current) d ∅) as [d1 next] eqn:Hl.
  destruct (detach_level_spec d0 _ _ P _ _ _ Hwf Hdet Hl) as (Hdet1 & _ & Hfrom & Hcl1 & Hle & Hlt).
  { intros p c Hp Hpc. specialize (Hcl p c Hp Hpc). rewrite elem_of_hash_iter. clear -Hcl. set_solver. }
  rewrite list_to_set_hash_iter in *.
  apply (IH d1 (current ∪ P)); try done.
  - intros p c Hp Hpc. specialize (Hcl1 p c Hp Hpc). clear -Hcl1. set_solver.
  - rewrite (union_comm_L current P), <- Hall. clear. set_solver.
  - intros y [Hy|Hy]%elem_of_union; [by apply Htc|].
    destruct (Hfrom y Hy) as [?%not_elem_of_empty|(p & Hp & Hpc)]; [done|].
    rewrite elem_of_hash_iter in Hp. assert (Hp' : p ∈ {[tx]} ∪ all) by (rewrite Hall; by apply elem_of_union_r).
    apply elem_of_union in Hp' as [->%elem_of_singleton|Hp']; [by apply tc_once|].
    by eapply tc_r; [apply Htc|].
  - destruct Hf as [Hf|[? _]]; [|done].
    destruct (decide (next = ∅)) as [->|Hn]; [right; split; [done|]|left; specialize (Hlt Hn)]; lia.
Qed.

(** [remove_all] ends.  The transactions it takes out, with the given one, are
    those that depend on it; the edges between the others are kept. *)
Lemma remove_all_spec {E} d tx :
  deps_wf d ->
  exists d' all, remove_all (E := E) d tx = Ok (d', all) /\ deps_wf d' /\
    (forall y, y ∈ {[tx]} ∪ all <-> rtc (child d) tx y) /\
    (forall y, y ∈ all -> tc (child d) tx y) /\
    (forall p c, child d' p c <-> child d p c /\ p ∉ {[tx]} ∪ all /\ c ∉ {[tx]} ∪ all).
Proof.
  intros Hwf.
  destruct (remove_levels_spec (E := E) d tx (S (S (size (dependents d)))) d ∅ {[tx]} ∅)
    as (d' & all & Hr & [Hch Hpa H1 H2] & Htc & Hcl); [done|by apply detached_refl|set_solver|set_solver|set_solver|left; lia|].
  exists d', all. split; [done|]. split; [|split; [|split; [done|done]]].
  - split; [|done..]. intros p c. rewrite Hch, Hpa, (wf_converse d Hwf). split; [naive_solver|].
    intros [Hp Hc]. split; [done|]. split; [|done]. intros HpR. apply Hc, (Hcl p); [done|].
    by apply (wf_converse d Hwf).
  - intros y. split.
    + intros [->%elem_of_singleton|Hy]%elem_of_union; [done|]. by apply tc_rtc, Htc.
    + revert y. apply rtc_ind_r; [set_solver|]. intros y z _ Hyz Hy. by apply (Hcl y).
Qed.
End Operations.
End Dependencies.
