(* ===== verification/Transparent.v ===== *)
(** * Transparent inputs and outputs

    [zakura-chain/src/transparent.rs] and [transparent/serialize.rs]: outpoints,
    scripts, inputs with the height of a coinbase, outputs, their encodings and
    the dust rule.

    The opcode that pushes a number ([zcash_script::pattern::push_num]) and the
    bounds of a coinbase script ([zcash_transparent::coinbase]) are parameters. *)

From stdpp Require Import base numbers strings list option.
From Stdlib Require Import ZArith Lia.
From S2P Require Import Prelude Height Amount Zip317 Serialization Dependencies.
Local Open Scope Z_scope.
Local Notation length := List.length.

Module Transparent.
Import Serialization.

(** [Script] is its bytes. *)
Record Output := mkOutput { value : Amount.Amount Amount.NonNegative; lock_script : list Z }.

Inductive Input :=
| PrevOut (outpoint : OutPoint) (unlock_script : list Z) (sequence : Z)
| Coinbase (height : Z) (data : list Z) (sequence : Z).

Definition GENESIS_COINBASE_SCRIPT_SIG : list Z :=
  [4; 255; 255; 7; 31; 1; 4; 69; 90; 99; 97; 115; 104; 48; 98; 57; 99; 52; 101; 101; 102; 56; 98;
   55; 99; 99; 52; 49; 55; 101; 101; 53; 48; 48; 49; 101; 51; 53; 48; 48; 57; 56; 52; 98; 54; 102;
   101; 97; 51; 53; 54; 56; 51; 97; 55; 99; 97; 99; 49; 52; 49; 97; 48; 52; 51; 99; 52; 50; 48;
   54; 52; 56; 51; 53; 100; 51; 52].

(** The bytes of [push_num], and the coinbase script bounds. *)
Class ZcashTransparent := {
  push_num : Z -> list Z;
  MIN_COINBASE_SCRIPT_LEN : Z;
  MAX_COINBASE_SCRIPT_LEN : Z;
}.

(** The encoding of heights: zero as [OP_0], up to 16 as one opcode, then the
    little-endian bytes after their number. *)
Class PushNumLaws `{ZcashTransparent} : Prop := {
  push_num_zero : push_num 0 = [0];
  push_num_small : forall h, 1 <= h <= 16 -> push_num h = [80 + h];
  push_num_large : forall h, 16 < h <= Height.MAX ->
    exists n, (1 <= n <= 5)%nat /\ h < 256 ^ Z.of_nat n /\ push_num h = Z.of_nat n :: le_bytes n h;
}.

(** The 32 bytes of a hash. *)
Definition hash_bytes (h : Hash) : list Z := reverse (le_bytes 32 h).
Definition hash_value (bs : list Z) : Hash := le_value (reverse bs).

Definition outpoint (self : Input) : option OutPoint :=
  match self with PrevOut outpoint _ _ => Some outpoint | Coinbase _ _ _ => None end.

(** [OutPoint::from_usize] *)
Definition from_usize {E} (hash : Hash) (index : Z) : res E OutPoint :=
  let? index := expect (to_uint 32 index) in Ok (mkOutPoint hash index).

(** ** Encoding *)

Definition write_outpoint (self : OutPoint) : res SerializationError (list Z) :=
  Ok (hash_bytes (op_hash self) ++ le_bytes 4 (op_index self)).

Definition read_outpoint : decoder OutPoint :=
  do hash <- read_exact 32;; do index <- read_le 4;; ret (mkOutPoint (hash_value hash) index).

(** [Script::zcash_serialize] and [zcash_deserialize_from] *)
Definition write_script (self : list Z) : res SerializationError (list Z) := write_bytes self.
Definition read_script : decoder (list Z) := read_byte_vec.

(** [Amount<NonNegative>] is written as an [u64]. *)
Definition write_amount (self : Amount.Amount Amount.NonNegative) : res SerializationError (list Z) :=
  let? amount := expect (to_uint 64 (Amount.zatoshis self)) in Ok (le_bytes 8 amount).

Definition read_amount : decoder (Amount.Amount Amount.NonNegative) :=
  do v <- read_le 8;; lift (map_err (fun _ => AmountError) (Amount.try_from_u64 (H := Amount.constraint_non_negative) v)).

#[export] Instance serialize_output : ZcashSerialize Output := fun self =>
  let? value := write_amount (value self) in
  let? script := write_script (lock_script self) in
  Ok (value ++ script).

#[export] Instance deserialize_output : ZcashDeserialize Output :=
  do value <- read_amount;; do lock_script <- read_script;; ret (mkOutput value lock_script).

Definition MIN_TRANSPARENT_INPUT_SIZE : Z := 32 + 4 + 4 + 1.
Definition MIN_TRANSPARENT_OUTPUT_SIZE : Z := 8 + 1.

#[export] Instance preallocate_input : TrustedPreallocate Input :=
  {| max_allocation := Zip317.MAX_BLOCK_BYTES / MIN_TRANSPARENT_INPUT_SIZE;
     min_serialized_size := MIN_TRANSPARENT_INPUT_SIZE |}.
#[export] Instance preallocate_output : TrustedPreallocate Output :=
  {| max_allocation := Zip317.MAX_BLOCK_BYTES / MIN_TRANSPARENT_OUTPUT_SIZE;
     min_serialized_size := MIN_TRANSPARENT_OUTPUT_SIZE |}.

Section Coinbase.
Context `{ZcashTransparent}.

(** The candidate height, and the length of its encoding. *)
Definition candidate_height (script_sig : list Z) : res SerializationError (Z * nat) :=
  match script_sig with
  | [] => Err (Parse "Empty coinbase script")
  | b :: _ =>
      if (81 <=? b) && (b <=? 96) then Ok (b - 80, 1%nat)
      else if (1 <=? b) && (b <=? 5) then
        let n := Z.to_nat b in
        if (n <? length script_sig)%nat then
          let bytes := take n (drop 1 script_sig) in Ok (le_value bytes, (1 + length bytes)%nat)
        else Err (Parse "Coinbase height push truncated")
      else Err (Parse "Invalid coinbase script prefix")
  end.

Definition parse_coinbase_height (script_sig : list Z) : res SerializationError (Z * list Z) :=
  let? (h, len) := candidate_height script_sig in
  if (length script_sig <? len)%nat then Err (Parse "Coinbase script too short")
  else if negb (bool_decide (take len script_sig = push_num h))
  then Err (Parse "Non-canonical coinbase height encoding")
  else
    let? h := ok_or (Parse "Negative coinbase height") (to_uint 32 h) in
    let? height := ok_or (Parse "Coinbase height exceeds Height::MAX") (Height.try_from_u32 h) in
    Ok (height, drop len script_sig).

Definition coinbase_script (self : Input) : option (list Z) :=
  match self with
  | PrevOut _ _ _ => None
  | Coinbase height data _ =>
      if Height.is_min height then
        if bool_decide (data = GENESIS_COINBASE_SCRIPT_SIG) then Some GENESIS_COINBASE_SCRIPT_SIG else None
      else Some (push_num height ++ data)
  end.

(** The error of a coinbase input without a script is an [io::Error]. *)
#[export] Instance serialize_input : ZcashSerialize Input := fun self =>
  match self with
  | PrevOut outpoint unlock_script sequence =>
      let? outpoint := write_outpoint outpoint in
      let? script := write_script unlock_script in
      Ok (outpoint ++ script ++ le_bytes 4 sequence)
  | Coinbase _ _ sequence =>
      let? script := ok_or (Parse "invalid coinbase script sig") (coinbase_script self) in
      let? script := write_bytes script in
      Ok (replicate 32 0 ++ le_bytes 4 4294967295 ++ script ++ le_bytes 4 sequence)
  end.

(** The script of a coinbase input, and what it holds. *)
Definition read_coinbase_script : decoder (list Z) :=
  do len <- read_size;;
  if len <? MIN_COINBASE_SCRIPT_LEN then lift (Err (Parse "Coinbase script is too short"))
  else if MAX_COINBASE_SCRIPT_LEN <? len then lift (Err (Parse "Coinbase script is too long"))
  else read_bytes len.

Definition coinbase_data (script_sig : list Z) : res SerializationError (Z * list Z) :=
  if bool_decide (script_sig = GENESIS_COINBASE_SCRIPT_SIG) then Ok (Height.MIN, GENESIS_COINBASE_SCRIPT_SIG)
  else parse_coinbase_height script_sig.

#[export] Instance deserialize_input : ZcashDeserialize Input :=
  do hash <- read_exact 32;;
  if bool_decide (hash = replicate 32 0) then
    do index <- read_le 4;;
    if negb (index =? 4294967295) then lift (Err (Parse "Wrong index in coinbase"))
    else
      do script_sig <- read_coinbase_script;;
      do parsed <- lift (coinbase_data script_sig);;
      do sequence <- read_le 4;;
      ret (Coinbase parsed.1 parsed.2 sequence)
  else
    do index <- read_le 4;;
    do unlock_script <- read_script;;
    do sequence <- read_le 4;;
    ret (PrevOut (mkOutPoint (hash_value hash) index) unlock_script sequence).
End Coinbase.

(** ** Dust *)

Definition ONE_THIRD_DUST_THRESHOLD_RATE : Z := 100.

(** [zcash_serialized_size]: the length of what a writer that cannot fail gets *)
Definition output_size {E} (self : Output) : res E Z :=
  let? bs := expect_ok (serialize_output self) in Ok (Z.of_nat (length bs)).

Definition is_dust {E} (self : Output) : res E bool :=
  let? size := output_size self in
  let? output_size := expect (to_uint 32 size) in
  let? sum := uint_arith 32 (output_size + 148) in
  let? product := uint_arith 32 (ONE_THIRD_DUST_THRESHOLD_RATE * sum) in
  let? threshold := uint_arith 32 (3 * (product / 1000)) in
  Ok (Amount.zatoshis (value self) <? threshold).
End Transparent.
