(* ===== verification/Merkle.v ===== *)
(** * Transaction Merkle trees

    [zakura-chain/src/block/merkle.rs] and [serialization/sha256d.rs]: the root
    that binds a block header to the ids of its transactions, and the root that
    binds it to their authorizing data.

    SHA-256 is a parameter.  That two lists of ids with one root are the same
    list is a reduction: from two different lists follow two different inputs
    with one SHA-256d digest, or an id that is itself the digest of two nodes. *)

From stdpp Require Import base numbers list option.
From Stdlib Require Import ZArith Lia.
From S2P Require Import Prelude Dependencies NodeData Transparent.
Local Open Scope Z_scope.
Local Notation length := List.length.

Module Merkle.
Import NodeData Transparent.

(** [sha2::Sha256::digest], with 32 bytes of output *)
Class Sha256 := sha256 : list Z -> list Z.
Class Sha256Laws (S : Sha256) : Prop :=
  sha256_length bs : length (sha256 bs) = 32%nat /\ Forall is_byte (sha256 bs).

(** The ASCII bytes of ["ZcashAuthDatHash"]. *)
Definition ZCASH_AUTH_DAT_HASH : list Z :=
  [90; 99; 97; 115; 104; 65; 117; 116; 104; 68; 97; 116; 72; 97; 115; 104].

Section Roots.
Context {SH : Sha256} {B : Blake2b}.

(** [sha256d::Writer]: the digest of the digest of what was written *)
Definition sha256d (written : list Z) : list Z := sha256 (sha256 written).

Definition hash (h1 h2 : Hash) : Hash := hash_value (sha256d (hash_bytes h1 ++ hash_bytes h2)).

Definition auth_data_hash (h1 h2 : Hash) : Hash :=
  hash_value (blake2b_personal ZCASH_AUTH_DAT_HASH (hash_bytes h1 ++ hash_bytes h2)).

(** One round: [chunks(2)], a last chunk of one hashed with itself *)
Fixpoint hash_chunks (hashes : list Hash) : list Hash :=
  match hashes with
  | h1 :: h2 :: rest => hash h1 h2 :: hash_chunks rest
  | [h1] => [hash h1 h1]
  | [] => []
  end.

(** [while hashes.len() > 1] *)
Fixpoint root_loop {E} (fuel : nat) (hashes : list Hash) : res E (list Hash) :=
  if (1 <? length hashes)%nat then
    match fuel with
    | O => Panic
    | S fuel => root_loop fuel (hash_chunks hashes)
    end
  else Ok hashes.

(** [Root::from_iter] on transaction hashes *)
Definition root_from_iter {E} (hashes : list Hash) : res E Hash :=
  let? hashes := root_loop (length hashes) hashes in
  expect (head hashes).

(** [AUTH_DIGEST_PLACEHOLDER]: 32 bytes of 0xFF *)
Definition AUTH_DIGEST_PLACEHOLDER : Hash := 2 ^ 256 - 1.

Definition auth_digest_or_placeholder (auth_digest : option Hash) : Hash :=
  default AUTH_DIGEST_PLACEHOLDER auth_digest.

(** [usize::next_power_of_two] and [is_power_of_two] *)
Definition next_power_of_two {E} (n : Z) : res E Z := uint_arith 64 (2 ^ Z.log2_up n).
Definition is_power_of_two (n : Z) : bool := n =? 2 ^ Z.log2 n.

(** A round of the full tree: a chunk of one is unreachable. *)
Fixpoint auth_chunks {E} (hashes : list Hash) : res E (list Hash) :=
  match hashes with
  | h1 :: h2 :: rest => let? rest := auth_chunks rest in Ok (auth_data_hash h1 h2 :: rest)
  | [_] => Panic
  | [] => Ok []
  end.

Fixpoint auth_loop {E} (fuel : nat) (hashes : list Hash) : res E (list Hash) :=
  if (1 <? length hashes)%nat then
    match fuel with
    | O => Panic
    | S fuel => let? hashes := auth_chunks hashes in auth_loop fuel hashes
    end
  else Ok hashes.

(** [AuthDataRoot::from_iter] on authorizing data digests *)
Definition auth_data_root_from_iter {E} (hashes : list Hash) : res E Hash :=
  let len := Z.of_nat (length hashes) in
  let? full := next_power_of_two len in
  let? pad_count := uint_arith 64 (full - len) in
  let hashes := hashes ++ replicate (Z.to_nat pad_count) 0 in
  let? _ := rust_assert (is_power_of_two (Z.of_nat (length hashes))) in
  let? hashes := auth_loop (length hashes) hashes in
  expect (head hashes).

End Roots.

(** ** Node hashes *)

(** A 256-bit value *)
Definition is_hash (h : Hash) : Prop := 0 <= h < 2 ^ 256.

Lemma hash_bytes_inj h h' : is_hash h -> is_hash h' -> hash_bytes h = hash_bytes h' -> h = h'.
Proof.
  intros Hh Hh' Heq. apply (f_equal reverse) in Heq. unfold hash_bytes in Heq.
  rewrite !reverse_involutive in Heq. apply (f_equal le_value) in Heq.
  rewrite !le_value_le_bytes in Heq. unfold is_hash in *.
  change (256 ^ Z.of_nat 32) with (2 ^ 256) in Heq. by rewrite !Z.mod_small in Heq.
Qed.

Lemma length_hash_bytes h : length (hash_bytes h) = 32%nat.
Proof. unfold hash_bytes. by rewrite length_reverse, length_le_bytes. Qed.

Lemma hash_value_inj bs bs' :
  length bs = 32%nat -> Forall is_byte bs -> length bs' = 32%nat -> Forall is_byte bs' ->
  hash_value bs = hash_value bs' -> bs = bs'.
Proof.
  intros Hl Hb Hl' Hb' Heq. unfold hash_value in Heq.
  rewrite <- (reverse_involutive bs), <- (reverse_involutive bs'). f_equal.
  rewrite <- (le_bytes_le_value (reverse bs)), <- (le_bytes_le_value (reverse bs'))
    by (by apply Forall_reverse). rewrite !length_reverse, Hl, Hl'. by rewrite Heq.
Qed.

Lemma hash_value_is_hash bs : length bs = 32%nat -> Forall is_byte bs -> is_hash (hash_value bs).
Proof.
  intros Hl Hb. unfold hash_value, is_hash.
  pose proof (le_value_bound (reverse bs) ltac:(by apply Forall_reverse)) as Hv.
  rewrite length_reverse, Hl in Hv. exact Hv.
Qed.

(** The bytes of a pair of hashes determine the pair. *)
Lemma pair_bytes_inj a b c d :
  is_hash a -> is_hash b -> is_hash c -> is_hash d ->
  hash_bytes a ++ hash_bytes b = hash_bytes c ++ hash_bytes d -> a = c /\ b = d.
Proof.
  intros Ha Hb Hc Hd Heq.
  apply app_inj_1 in Heq as [H1 H2]; [|by rewrite !length_hash_bytes].
  split; by apply hash_bytes_inj.
Qed.
End Merkle.
