(* ===== verification/TransparentFacts.v ===== *)
(** * The transparent encodings are exact

    An input or output is decoded from its encoding and from nothing else; the
    coinbase height has one encoding, although it is found by reading a candidate
    and encoding it again. *)

From stdpp Require Import base numbers strings list option.
From Stdlib Require Import ZArith Lia.
From S2P Require Import Prelude Height Amount Zip317 Serialization SerializationFacts Dependencies Transparent.
Local Open Scope Z_scope.
Local Notation length := List.length.

Module TransparentFacts.
Import Serialization SerializationFacts Codec Transparent.

(** One decoded field: [H] is the rest of the decoder. *)
Ltac dec_step codec H Hwf Hb x r bs D :=
  apply bind_Ok in H as (x & r & D & H);
  apply (xc_step _ _ _ _ codec _ x r Hwf Hb) in D as (bs & D).

(** ** Arrays and hashes *)

Lemma array_codec n :
  exact_codec (fun bs => length bs = n /\ Forall is_byte bs) (fun bs => Ok bs) (read_exact n) (Z.of_nat n).
Proof.
  split; [apply read_exact_lawful|..].
  - intros bs [Hl Hb]. exists bs. split; [done|]. split; [done|by apply read_exact_lawful].
  - intros r bs r' Hwf Hb Hr. pose proof (read_exact_spec n r Hwf) as Hs. pose proof (available_range r Hwf).
    destruct (Z.leb_spec (Z.of_nat n) (available r)) as [Hn|Hn]; [|congruence].
    destruct Hs as (r1 & Hs & Hadv). rewrite Hr in Hs. injection Hs as -> ->.
    assert (Hlen : length (take n (bytes r)) = n) by (rewrite length_take; unfold blen in *; lia).
    split; [split; [done|by apply Forall_take]|]. eexists. split; [done|].
    rewrite (adv_bytes _ _ _ Hadv), take_drop. split; [done|]. unfold blen. lia.
Qed.

Lemma hash_bytes_array h : length (hash_bytes h) = 32%nat /\ Forall is_byte (hash_bytes h).
Proof. unfold hash_bytes. rewrite length_reverse, length_le_bytes. split; [done|]. apply Forall_reverse, le_bytes_is_byte. Qed.

Lemma hash_value_bytes h : fits 32 h -> hash_value (hash_bytes h) = h.
Proof.
  intros Hh. unfold hash_value, hash_bytes. rewrite reverse_involutive, le_value_le_bytes. by apply Z.mod_small.
Qed.

Lemma hash_bytes_value bs : length bs = 32%nat -> Forall is_byte bs -> hash_bytes (hash_value bs) = bs.
Proof.
  intros Hl Hb. unfold hash_value, hash_bytes. apply Forall_reverse in Hb.
  replace 32%nat with (length (reverse bs)) by (by rewrite length_reverse).
  rewrite le_bytes_le_value by done. apply reverse_involutive.
Qed.

Lemma hash_value_fits bs : length bs = 32%nat -> Forall is_byte bs -> fits 32 (hash_value bs).
Proof.
  intros Hl Hb. apply Forall_reverse in Hb. pose proof (le_value_bound _ Hb) as Hv.
  rewrite length_reverse, Hl in Hv. done.
Qed.

Lemma hash_zero bs : length bs = 32%nat -> Forall is_byte bs -> bs = replicate 32 0 <-> hash_value bs = 0.
Proof.
  intros Hl Hb. split; [by intros ->|]. intros Hv. rewrite <- (hash_bytes_value bs Hl Hb), Hv. done.
Qed.

(** ** Outputs *)

Definition valid_amount (a : Amount.Amount Amount.NonNegative) : Prop := 0 <= Amount.zatoshis a <= Amount.MAX_MONEY.

Lemma amount_from_u64 v :
  0 <= v < 2 ^ 64 ->
  (0 <= v <= Amount.MAX_MONEY /\ Amount.try_from_u64 (H := Amount.constraint_non_negative) v = Ok (Amount.mk v)) \/
  exists e, Amount.try_from_u64 (H := Amount.constraint_non_negative) v = Err e.
Proof.
  intros Hv. unfold Amount.try_from_u64, Amount.validate, Amount.range_contains.
  destruct (to_sint 64 v) as [z|] eqn:Hs; cbn [ok_or res_bind]; [|right; by eexists].
  apply to_sint_Some in Hs as [-> Hs]. cbn. rewrite Amount.MAX_MONEY_val.
  destruct (Z.leb_spec 0 v), (Z.leb_spec v 2100000000000000); cbn; try lia; [by left|right; by eexists].
Qed.

Lemma amount_codec : exact_codec valid_amount write_amount read_amount 8.
Proof.
  assert (Hlaw : lawful read_amount 8).
  { apply (lawful_weaken _ (Z.of_nat 8 + 0)); [lia|]. apply lawful_bind; [apply read_le_lawful|]. intros v _.
    apply lawful_lift. unfold Amount.try_from_u64, Amount.validate.
    destruct (to_sint 64 v); cbn [ok_or res_bind]; [|done]. by destruct (negb _). }
  split; [done|..].
  - intros [v] Hv. unfold valid_amount in Hv. cbn in Hv. unfold write_amount. cbn [Amount.zatoshis].
    pose proof Hv as Hv'. rewrite Amount.MAX_MONEY_val in Hv'.
    unfold to_uint. rewrite (proj2 (in_uint_spec _ _)) by lia. cbn [expect res_bind].
    eexists. split; [done|]. split; [apply le_bytes_is_byte|].
    rewrite <- (app_nil_r (le_bytes 8 v)). apply (parses_bind _ _ v); [apply read_le_parses; cbn; lia|].
    destruct (amount_from_u64 v ltac:(lia)) as [[_ ->]|[e He]]; [apply (parses_ret (Amount.mk v))|].
    unfold Amount.try_from_u64, to_sint in He. rewrite (proj2 (in_sint_spec _ _)) in He by lia. cbn in He.
    unfold Amount.validate, Amount.range_contains in He. cbn in He.
    by rewrite (proj2 (Z.leb_le _ _)), (proj2 (Z.leb_le _ _)) in He by lia.
  - intros r a r' Hwf Hb Hr. unfold read_amount in Hr. dec_step (le_codec 8) Hr Hwf Hb v r1 bs D.
    destruct (amount_from_u64 v) as [[Hv Heq]|[e He]]; [apply (de_valid D)| |].
    + rewrite Heq in Hr. cbn in Hr. injection Hr as <- <-. split; [done|]. unfold write_amount. cbn [Amount.zatoshis].
      rewrite Amount.MAX_MONEY_val in Hv. unfold to_uint. rewrite (proj2 (in_uint_spec _ _)) by lia.
      cbn [expect res_bind]. pose proof (de_enc D) as [= <-]. eexists. split; [done|]. split; apply D.
    + by rewrite He in Hr.
Qed.

Definition valid_output (o : Output) : Prop := valid_amount (value o) /\ byte_vec (lock_script o).

Lemma output_codec : exact_codec valid_output serialize_output deserialize_output (min_serialized_size Output).
Proof.
  split.
  - apply (lawful_weaken _ (8 + (1 + 0))); [cbn; unfold MIN_TRANSPARENT_OUTPUT_SIZE; lia|].
    apply lawful_bind; [apply amount_codec|]. intros v _.
    apply lawful_bind; [apply bytes_codec|]. intros s _. apply lawful_ret.
  - intros [v s] [Hv Hs]. cbn in Hv, Hs. unfold serialize_output. cbn [value lock_script].
    destruct (xc_enc _ _ _ _ amount_codec v Hv) as (b1 & -> & Hb1 & Hp1). cbn [res_bind].
    destruct (xc_enc _ _ _ _ bytes_codec s Hs) as (b2 & H2 & Hb2 & Hp2). unfold write_script. rewrite H2. cbn [res_bind].
    eexists. split; [done|]. split; [by apply Forall_app|]. apply (parses_bind _ _ v); [done|].
    rewrite <- (app_nil_r b2). apply (parses_bind _ _ s); [done|]. apply parses_ret.
  - intros r o r' Hwf Hb Hr. unfold deserialize_output in Hr.
    dec_step amount_codec Hr Hwf Hb v r1 b1 D1. dec_step bytes_codec Hr (de_wf D1) (de_is_byte D1) s r2 b2 D2.
    injection Hr as <- <-. split; [split; [apply (de_valid D1)|apply (de_valid D2)]|].
    unfold serialize_output, write_script. cbn [value lock_script].
    rewrite (de_enc D1). cbn [res_bind]. rewrite (de_enc D2). cbn [res_bind].
    eexists. split; [done|]. rewrite (de_bytes D1), (de_bytes D2). split; [by rewrite app_assoc|].
    pose proof (de_le D2) as Hle. rewrite (de_available D1) in Hle. unfold blen in *. rewrite length_app. lia.
Qed.

(** ** Coinbase heights *)

Section Inputs.
Context `{ZT : ZcashTransparent} `{PL : !PushNumLaws}.

(** What the candidate says of the script. *)
Lemma candidate_height_inv s h len :
  candidate_height s = Ok (h, len) -> (1 <= len <= length s)%nat /\ head s <> Some 0.
Proof.
  unfold candidate_height. destruct s as [|b s]; [done|].
  destruct ((81 <=? b) && (b <=? 96)) eqn:H1.
  { intros [= <- <-]. cbn. split; [lia|]. intros [= ->]. done. }
  destruct ((1 <=? b) && (b <=? 5)) eqn:H2; [|done]. destruct (Nat.ltb_spec (Z.to_nat b) (length (b :: s))) as [Hl|]; [|done].
  intros [= <- <-]. cbn [drop length] in *. rewrite length_take. split; [lia|]. intros [= ->]. done.
Qed.

Lemma candidate_height_push h data :
  1 <= h <= Height.MAX -> candidate_height (push_num h ++ data) = Ok (h, length (push_num h)).
Proof using PL.
  intros Hh. destruct (Z.leb_spec h 16) as [Hs|Hs].
  - rewrite push_num_small by lia. cbn [app candidate_height length].
    rewrite (proj2 (Z.leb_le _ _)), (proj2 (Z.leb_le _ _)) by lia. cbn [andb]. do 2 f_equal. lia.
  - destruct (push_num_large h ltac:(lia)) as (n & Hn & Hlt & ->). cbn [app candidate_height].
    rewrite (proj2 (Z.leb_gt 81 _)) by lia. cbn [andb].
    rewrite (proj2 (Z.leb_le 1 _)), (proj2 (Z.leb_le _ 5)) by lia. cbn [andb]. rewrite Nat2Z.id.
    cbn [length drop]. rewrite length_app, length_le_bytes, (proj2 (Nat.ltb_lt _ _)) by lia.
    rewrite drop_0, take_app_le, take_ge, length_le_bytes by (rewrite length_le_bytes; lia).
    rewrite le_value_le_bytes, Z.mod_small by lia. done.
Qed.

(** A script gives a height and data exactly when they give the script. *)
Lemma coinbase_data_iff s h data seq :
  coinbase_data s = Ok (h, data) <->
  coinbase_script (Coinbase h data seq) = Some s /\ Height.valid h /\
  (h <> 0 -> s <> GENESIS_COINBASE_SCRIPT_SIG).
Proof using PL.
  unfold coinbase_data, coinbase_script, Height.is_min, Height.valid.
  destruct (bool_decide (s = GENESIS_COINBASE_SCRIPT_SIG)) eqn:Hg.
  - apply bool_decide_eq_true in Hg as ->. split.
    + intros [= <- <-]. rewrite bool_decide_true by done. cbn. split; [done|]. split; [by vm_compute|]. done.
    + destruct (Z.eqb_spec h Height.MIN) as [->|Hne]; [|intros (_ & _ & Hn); by destruct (Hn Hne)].
      intros (Hd & _ & _). destruct (bool_decide_reflect (data = GENESIS_COINBASE_SCRIPT_SIG)) as [->|]; [done|done].
  - apply bool_decide_eq_false in Hg. unfold parse_coinbase_height. split.
    + destruct (candidate_height s) as [[h0 len]| |] eqn:Hc; cbn [res_bind]; [|done|done].
      apply candidate_height_inv in Hc as [Hlen Hhead].
      rewrite (proj2 (Nat.ltb_ge _ _)) by lia.
      destruct (bool_decide_reflect (take len s = push_num h0)) as [Hp|]; cbn [negb]; [|done].
      destruct (to_uint 32 h0) as [h1|] eqn:Hu; cbn [ok_or res_bind]; [|done]. apply to_uint_Some in Hu as [-> Hu].
      unfold Height.try_from_u32. destruct (Z.leb_spec h0 Height.MAX) as [Hm|]; cbn [ok_or res_bind]; [|done].
      intros [= <- <-]. assert (Hne : h0 <> 0).
      { intros ->. rewrite push_num_zero in Hp. apply Hhead. destruct s as [|b s]; [cbn in Hlen; lia|].
        destruct len as [|len]; [lia|]. cbn in Hp. by injection Hp as -> _. }
      rewrite (proj2 (Z.eqb_neq _ _)) by done. rewrite <- Hp, take_drop. split; [done|]. split; [|done].
      unfold Height.MIN. lia.
    + intros (Hs & Hv & _). unfold Height.MIN in *. destruct (Z.eqb_spec h 0) as [->|Hne].
      { destruct (bool_decide_reflect (data = GENESIS_COINBASE_SCRIPT_SIG)); [|done]. by injection Hs as <-. }
      injection Hs as <-. rewrite candidate_height_push by lia. cbn [res_bind].
      rewrite length_app, (proj2 (Nat.ltb_ge _ _)) by lia. rewrite take_app_length, bool_decide_true by done. cbn [negb].
      assert (Hmax : Height.MAX < 2 ^ 32) by (by vm_compute).
      unfold to_uint. rewrite (proj2 (in_uint_spec _ _)) by lia. cbn [ok_or res_bind].
      unfold Height.try_from_u32. rewrite (proj2 (Z.leb_le _ _)) by lia. cbn [ok_or res_bind].
      by rewrite drop_app_length.
Qed.

(** ** Inputs *)

Definition coinbase_bytes (s : list Z) : Prop :=
  byte_vec s /\ MIN_COINBASE_SCRIPT_LEN <= blen s <= MAX_COINBASE_SCRIPT_LEN.

Lemma read_coinbase_script_codec : exact_codec coinbase_bytes write_bytes read_coinbase_script 1.
Proof.
  assert (Hstep : forall s, coinbase_bytes s -> parses read_coinbase_script s (write_compact_size (blen s) ++ s)).
  { intros s [[Hb Hle] Hlen]. apply (parses_bind _ _ (blen s)).
    - apply read_size_parses. unfold MAX_U8_ALLOCATION, blen in *. lia.
    - rewrite (proj2 (Z.ltb_ge _ _)), (proj2 (Z.ltb_ge _ _)) by lia. by apply read_bytes_parses. }
  split.
  - apply (lawful_weaken _ (1 + 0)); [lia|]. apply lawful_bind; [apply size_codec|]. intros n Hn%read_size_range.
    repeat case_match; [by apply lawful_lift..|]. apply (lawful_weaken _ n); [lia|]. apply read_bytes_lawful. lia.
  - intros s Hs. pose proof Hs as [Hbv _]. destruct (xc_enc _ _ _ _ bytes_codec s Hbv) as (bs & He & Hb & _).
    exists bs. split; [done|]. split; [done|]. apply write_bytes_inv in He as [-> _]. by apply Hstep.
  - intros r s r' Hwf Hb Hr.
    assert (Hr' : read_byte_vec r = Ok (s, r') /\ MIN_COINBASE_SCRIPT_LEN <= blen s <= MAX_COINBASE_SCRIPT_LEN).
    { unfold read_coinbase_script in Hr. apply bind_Ok in Hr as (n & r1 & Hn & Hr).
      unfold read_byte_vec, bind. rewrite Hn. cbn [res_bind].
      pose proof (read_size_range n (ex_intro _ r (ex_intro _ r1 (conj Hwf Hn)))) as Hrange.
      destruct (Z.ltb_spec n MIN_COINBASE_SCRIPT_LEN); [done|]. destruct (Z.ltb_spec MAX_COINBASE_SCRIPT_LEN n); [done|].
      split; [done|]. destruct (xc_step _ _ _ _ size_codec r n r1 Hwf Hb Hn) as (hdr & D).
      destruct (Z.leb_spec n MAX_U8_ALLOCATION) as [Hm|Hm];
        [|unfold read_bytes in Hr; by rewrite (proj2 (Z.ltb_lt _ _)) in Hr].
      pose proof (read_bytes_spec n r1 (de_wf D) ltac:(lia)) as Hs. pose proof (available_range r1 (de_wf D)).
      destruct (Z.leb_spec n (available r1)); [|by destruct Hs as [e Hs]; rewrite Hr in Hs].
      destruct Hs as (r2 & Hs & _). rewrite Hr in Hs. injection Hs as -> _. unfold blen in *.
      rewrite length_take. lia. }
    destruct Hr' as [Hr' Hlen]. destruct (xc_dec _ _ _ _ bytes_codec r s r' Hwf Hb Hr') as (Hv & Hrest).
    split; [by split|done].
Qed.

Definition valid_input (i : Input) : Prop :=
  match i with
  | PrevOut o s seq => fits 32 (op_hash o) /\ op_hash o <> 0 /\ fits 4 (op_index o) /\ byte_vec s /\ fits 4 seq
  | Coinbase h data seq =>
      fits 4 seq /\ Height.valid h /\
      exists s, coinbase_script i = Some s /\ coinbase_bytes s /\ (h <> 0 -> s <> GENESIS_COINBASE_SCRIPT_SIG)
  end.

Lemma coinbase_data_no_panic s : coinbase_data s <> Panic.
Proof.
  unfold coinbase_data, parse_coinbase_height. destruct (bool_decide _); [done|].
  destruct (candidate_height s) as [[h len]| |] eqn:Hc; cbn [res_bind]; [|done|].
  - destruct (_ <? _)%nat; [done|]. destruct (negb _); [done|].
    destruct (to_uint 32 h) as [h'|]; cbn [ok_or res_bind]; [|done]. by destruct (Height.try_from_u32 h').
  - unfold candidate_height in Hc. destruct s; [done|]. repeat case_match; done.
Qed.

Lemma input_lawful : lawful deserialize_input (min_serialized_size Input).
Proof.
  apply (lawful_weaken _ (Z.of_nat 32 + 9)); [cbn; unfold MIN_TRANSPARENT_INPUT_SIZE; lia|].
  apply lawful_bind; [apply read_exact_lawful|]. intros hash _. destruct (bool_decide _).
  - apply (lawful_weaken _ (Z.of_nat 4 + 5)); [lia|]. apply lawful_bind; [apply read_le_lawful|]. intros index _.
    destruct (negb _).
    { intros r Hwf. done. }
    apply (lawful_weaken _ (1 + (0 + (Z.of_nat 4 + 0)))); [lia|].
    apply lawful_bind; [apply read_coinbase_script_codec|]. intros s _.
    apply lawful_bind; [apply lawful_lift, coinbase_data_no_panic|]. intros p _.
    apply lawful_bind; [apply read_le_lawful|]. intros q _. apply lawful_ret.
  - apply (lawful_weaken _ (Z.of_nat 4 + (1 + (Z.of_nat 4 + 0)))); [lia|].
    apply lawful_bind; [apply read_le_lawful|]. intros index _.
    apply lawful_bind; [apply bytes_codec|]. intros s _.
    apply lawful_bind; [apply read_le_lawful|]. intros q _. apply lawful_ret.
Qed.

Lemma zero_hash_array : length (replicate 32 0) = 32%nat /\ Forall is_byte (replicate 32 0).
Proof. split; [done|]. by repeat constructor. Qed.

Lemma prevout_enc o s seq :
  valid_input (PrevOut o s seq) ->
  exists bs, serialize_input (PrevOut o s seq) = Ok bs /\ Forall is_byte bs /\ parses deserialize_input (PrevOut o s seq) bs.
Proof.
  intros (Hh & H0 & Hi & Hs & Hq). destruct (hash_bytes_array (op_hash o)) as [Hl Hb].
  destruct (xc_enc _ _ _ _ bytes_codec s Hs) as (b & He & Hbb & Hp).
  unfold serialize_input, write_outpoint, write_script. cbn [res_bind]. rewrite He. cbn [res_bind].
  eexists. split; [done|]. rewrite <- !app_assoc. split.
  { repeat (apply Forall_app; split); try done; apply le_bytes_is_byte. }
  apply (parses_bind _ _ (hash_bytes (op_hash o))); [by apply read_exact_lawful|].
  rewrite bool_decide_false.
  2: { intros Hz. apply H0. rewrite (hash_zero _ Hl Hb), hash_value_bytes in Hz by done. done. }
  apply (parses_bind _ _ (op_index o)); [by apply read_le_parses|]. apply (parses_bind _ _ s); [done|].
  rewrite <- (app_nil_r (le_bytes 4 seq)). apply (parses_bind _ _ seq); [by apply read_le_parses|].
  rewrite hash_value_bytes by done. destruct o. apply parses_ret.
Qed.

Lemma coinbase_enc h data seq :
  valid_input (Coinbase h data seq) ->
  exists bs, serialize_input (Coinbase h data seq) = Ok bs /\ Forall is_byte bs /\
    parses deserialize_input (Coinbase h data seq) bs.
Proof using PL.
  intros (Hq & Hv & s & Hs & Hc & Hg).
  destruct (xc_enc _ _ _ _ read_coinbase_script_codec s Hc) as (b & He & Hbb & Hp).
  unfold serialize_input. rewrite Hs. cbn [ok_or res_bind]. rewrite He. cbn [res_bind].
  eexists. split; [done|]. destruct zero_hash_array as [Hl Hb]. split.
  { repeat (apply Forall_app; split); try done; apply le_bytes_is_byte. }
  apply (parses_bind _ _ (replicate 32 0)); [by apply read_exact_lawful|]. rewrite bool_decide_true by done.
  apply (parses_bind _ _ 4294967295); [apply read_le_parses; cbn; lia|]. cbn [Z.eqb negb].
  apply (parses_bind _ _ s); [done|].
  rewrite <- (app_nil_l (le_bytes 4 seq)). apply (parses_bind _ _ (h, data)).
  - unfold lift. rewrite (proj2 (coinbase_data_iff s h data seq)) by done. apply (parses_ret (h, data)).
  - rewrite <- (app_nil_r (le_bytes 4 seq)). apply (parses_bind _ _ seq); [by apply read_le_parses|]. apply parses_ret.
Qed.

Lemma input_dec r i r' :
  wf r -> Forall is_byte (bytes r) -> deserialize_input r = Ok (i, r') ->
  valid_input i /\ exists bs, serialize_input i = Ok bs /\ bytes r = bs ++ bytes r' /\ blen bs <= available r.
Proof using PL.
  intros Hwf Hb Hr. unfold deserialize_input in Hr. dec_step (array_codec 32) Hr Hwf Hb hash r1 b1 D1.
  destruct (de_valid D1) as [Hl Hby]. pose proof (de_enc D1) as [= <-].
  destruct (bool_decide_reflect (hash = replicate 32 0)) as [Hz|Hz].
  - dec_step (le_codec 4) Hr (de_wf D1) (de_is_byte D1) index r2 b2 D2. pose proof (de_enc D2) as [= <-].
    destruct (Z.eqb_spec index 4294967295) as [->|]; cbn [negb] in Hr; [|done].
    dec_step read_coinbase_script_codec Hr (de_wf D2) (de_is_byte D2) s r3 b3 D3.
    apply bind_Ok in Hr as ([h data] & r4 & Hd & Hr). unfold lift in Hd.
    destruct (coinbase_data s) as [p| |] eqn:Hcd; cbn [res_bind] in Hd; [|done|done]. injection Hd as -> <-.
    dec_step (le_codec 4) Hr (de_wf D3) (de_is_byte D3) sq r5 b5 D5. pose proof (de_enc D5) as [= <-].
    injection Hr as <- <-. cbn [fst snd]. destruct (proj1 (coinbase_data_iff s h data sq) Hcd) as (Hs & Hv & Hg).
    split; [split; [apply (de_valid D5)|]; split; [done|]; exists s; split; [done|]; split; [apply (de_valid D3)|done]|].
    unfold serialize_input. rewrite Hs. cbn [ok_or res_bind]. rewrite (de_enc D3). cbn [res_bind].
    eexists. split; [done|]. rewrite (de_bytes D1), (de_bytes D2), (de_bytes D3), (de_bytes D5), Hz.
    split; [by rewrite <- !app_assoc|].
    pose proof (de_le D5) as Hle. rewrite (de_available D3), (de_available D2), (de_available D1) in Hle.
    rewrite Hz in Hle. unfold blen in *. rewrite !length_app. cbn [length le_bytes] in *. lia.
  - dec_step (le_codec 4) Hr (de_wf D1) (de_is_byte D1) index r2 b2 D2. pose proof (de_enc D2) as [= <-].
    dec_step bytes_codec Hr (de_wf D2) (de_is_byte D2) s r3 b3 D3.
    dec_step (le_codec 4) Hr (de_wf D3) (de_is_byte D3) sq r5 b5 D5. pose proof (de_enc D5) as [= <-].
    injection Hr as <- <-. cbn [op_hash op_index]. split.
    { split; [by apply hash_value_fits|]. split; [cbn; intros H0; by apply Hz, hash_zero|].
      split; [apply (de_valid D2)|]. split; [apply (de_valid D3)|apply (de_valid D5)]. }
    unfold serialize_input, write_outpoint, write_script. cbn [res_bind op_hash op_index].
    rewrite (de_enc D3). cbn [res_bind]. rewrite hash_bytes_value by done.
    eexists. split; [done|]. rewrite (de_bytes D1), (de_bytes D2), (de_bytes D3), (de_bytes D5).
    split; [by rewrite <- !app_assoc|].
    pose proof (de_le D5) as Hle. rewrite (de_available D3), (de_available D2), (de_available D1) in Hle.
    unfold blen in *. rewrite !length_app. cbn [length le_bytes] in *. lia.
Qed.

Lemma input_codec : exact_codec valid_input serialize_input deserialize_input (min_serialized_size Input).
Proof using PL.
  split; [apply input_lawful|intros [o s seq|h data seq]; [apply prevout_enc|apply coinbase_enc]|apply input_dec].
Qed.

(** C23: the inputs of a transaction are decoded exactly from their encoding: a reader,
    at any point of a message or stream, yields the vector [l] and leaves [rest] if and
    only if the inputs are valid (coinbase scripts with the height encoded as BIP 34
    requires, or the genesis script) and the bytes are what [write_vec] writes for them,
    followed by [rest].  Nothing else is accepted, so no two encodings of the same inputs
    exist. *)
Theorem inputs_exact r (l : list Input) rest :
  wf r -> Forall is_byte (bytes r) ->
  (exists r', read_vec r = Ok (l, r') /\ bytes r' = rest) <->
  valid_vec valid_input l /\ exists bs, write_vec l = Ok bs /\ bytes r = bs ++ rest /\ blen bs <= available r.
Proof using PL.
  intros Hwf Hb. apply (exact_iff _ _ _ 1); [|done|done]. apply vec_codec; [apply input_codec|].
  cbn. unfold MIN_TRANSPARENT_INPUT_SIZE. lia.
Qed.

Lemma outputs_exact r (l : list Output) rest :
  wf r -> Forall is_byte (bytes r) ->
  (exists r', read_vec r = Ok (l, r') /\ bytes r' = rest) <->
  valid_vec valid_output l /\ exists bs, write_vec l = Ok bs /\ bytes r = bs ++ rest /\ blen bs <= available r.
Proof.
  intros Hwf Hb. apply (exact_iff _ _ _ 1); [|done|done]. apply vec_codec; [apply output_codec|].
  cbn. unfold MIN_TRANSPARENT_OUTPUT_SIZE. lia.
Qed.
End Inputs.

(** A concrete number opcode: minimal little-endian bytes with a clear sign bit. *)
Definition script_num (h : Z) : list Z :=
  if h =? 0 then [0]
  else if h <=? 16 then [80 + h]
  else
    let n := if h <? 2 ^ 7 then 1%nat else if h <? 2 ^ 15 then 2%nat else if h <? 2 ^ 23 then 3%nat
             else if h <? 2 ^ 31 then 4%nat else 5%nat in
    Z.of_nat n :: le_bytes n h.

#[local] Instance script_num_transparent : ZcashTransparent :=
  {| push_num := script_num; MIN_COINBASE_SCRIPT_LEN := 2; MAX_COINBASE_SCRIPT_LEN := 100 |}.

Lemma script_num_laws : PushNumLaws.
Proof.
  split; [done|..].
  - intros h Hh. cbn. unfold script_num. rewrite (proj2 (Z.eqb_neq _ _)), (proj2 (Z.leb_le _ _)) by lia. done.
  - intros h Hh. assert (Hmax : Height.MAX < 2 ^ 31) by (by vm_compute). cbn [push_num script_num_transparent].
    unfold script_num. rewrite (proj2 (Z.eqb_neq _ _)), (proj2 (Z.leb_gt _ _)) by lia.
    destruct (Z.ltb_spec h (2 ^ 7)); [exists 1%nat; cbn; split; [lia|split; [lia|done]]|].
    destruct (Z.ltb_spec h (2 ^ 15)); [exists 2%nat; cbn; split; [lia|split; [lia|done]]|].
    destruct (Z.ltb_spec h (2 ^ 23)); [exists 3%nat; cbn; split; [lia|split; [lia|done]]|].
    destruct (Z.ltb_spec h (2 ^ 31)); [exists 4%nat; cbn; split; [lia|split; [lia|done]]|lia].
Qed.

(** A coinbase input for height 1,000,000, delivered in two pieces. *)
Definition coinbase_chunks : list (list Z) :=
  [1 :: replicate 32 0; [255; 255; 255; 255; 5; 3; 64; 66; 15; 7; 1; 0; 0; 0; 9]].

Lemma inputs_exact_witness :
  valid_vec valid_input [Coinbase 1000000 [7] 1] /\
  exists bs, write_vec [Coinbase 1000000 [7] 1] = Ok bs /\ concat coinbase_chunks = bs ++ [9].
Proof.
  destruct (inputs_exact (PL := script_num_laws) (from_stream coinbase_chunks) [Coinbase 1000000 [7] 1] [9]) as [H _].
  - split; [by repeat constructor|done|done].
  - vm_compute. repeat constructor; intros; discriminate.
  - destruct H as (Hv & bs & He & Hb & Hle).
    + eexists. split; [vm_compute; reflexivity|done].
    + split; [done|]. exists bs. by split.
Defined.

End TransparentFacts.
