(* ===== verification/MerkleFacts.v ===== *)
(** * Facts on the transaction Merkle trees

    The loop of the transaction tree ends after as many rounds as the logarithm
    of the number of ids; lists of distinct ids with one root are equal, up to
    what breaks SHA-256d; and the authorizing data root is the root of the full
    binary tree over the padded digests. *)

From stdpp Require Import base numbers list option sets.
From Stdlib Require Import ZArith Lia.
From S2P Require Import Prelude Dependencies NodeData Transparent Merkle.
Local Open Scope Z_scope.
Local Notation length := List.length.

Module MerkleFacts.
Import NodeData Transparent Merkle.

(** Induction by chunks of two *)
Lemma chunk_ind {A} (Q : list A -> Prop) :
  Q [] -> (forall a, Q [a]) -> (forall a b l, Q l -> Q (a :: b :: l)) -> forall l, Q l.
Proof.
  intros H0 H1 H2. enough (Hboth : forall l, Q l /\ forall a, Q (a :: l)) by (intros l; apply Hboth).
  induction l as [|b l [IH1 IH2]]; split; auto.
Qed.

Section Binding.
Context {SH : Sha256}.

(** The pairs of nodes that a round hashes *)
Fixpoint chunk_pairs (l : list Hash) : list (Hash * Hash) :=
  match l with
  | h1 :: h2 :: l => (h1, h2) :: chunk_pairs l
  | [h1] => [(h1, h1)]
  | [] => []
  end.

(** Two different pairs of nodes among [P] with one digest *)
Definition collision (P : list (Hash * Hash)) : Prop :=
  exists p q, p ∈ P /\ q ∈ P /\ p <> q /\ hash p.1 p.2 = hash q.1 q.2.

Lemma collision_mono P Q : P ⊆ Q -> collision P -> collision Q.
Proof. intros H (p & q & Hp & Hq & ?). exists p, q. auto. Qed.

Lemma hash_chunks_pairs l : hash_chunks l = (fun p => hash p.1 p.2) <$> chunk_pairs l.
Proof. induction l as [| |a b l IH] using chunk_ind; [done..|]. cbn [hash_chunks chunk_pairs]. by rewrite IH. Qed.

Lemma length_hash_chunks l : length (hash_chunks l) = Nat.div2 (S (length l)).
Proof. induction l as [| |a b l IH] using chunk_ind; [done..|]. cbn [hash_chunks List.length]. by rewrite IH. Qed.

Lemma chunk_pairs_elem p l : p ∈ chunk_pairs l -> p.1 ∈ l /\ p.2 ∈ l.
Proof. induction l as [|a|a b l IH] using chunk_ind; cbn [chunk_pairs]; set_solver. Qed.

(** Pairs of distinct hashes are distinct, and determine the hashes. *)
Lemma chunk_pairs_NoDup l : NoDup l -> NoDup (chunk_pairs l).
Proof.
  induction l as [|a|a b l IH] using chunk_ind; cbn [chunk_pairs].
  - intros _. constructor.
  - intros _. apply NoDup_singleton.
  - rewrite !NoDup_cons. intros (Ha & Hb & Hnd). split; [|by apply IH].
    intros [H _]%chunk_pairs_elem. set_solver.
Qed.

Lemma chunk_pairs_inj l l' : NoDup l -> NoDup l' -> chunk_pairs l = chunk_pairs l' -> l = l'.
Proof.
  revert l'. induction l as [|a|a b l IH] using chunk_ind; intros l' Hnd Hnd' Heq;
    destruct l' as [|c [|d l']]; cbn in Heq; simplify_eq; rewrite ?NoDup_cons in *; set_solver.
Qed.

(** Where nothing collides, [hash] is injective on the pairs. *)
Lemma fmap_hash_inj P Q :
  (fun p => hash p.1 p.2) <$> P = (fun p => hash p.1 p.2) <$> Q -> P = Q \/ collision (P ++ Q).
Proof.
  revert Q. induction P as [|p P IH]; intros [|q Q] Heq; cbn in Heq; try done; [by left|].
  injection Heq as Hpq Heq. destruct (decide (p = q)) as [->|Hne].
  - destruct (IH Q Heq) as [->|Hc]; [by left|right]. eapply collision_mono, Hc. set_solver.
  - right. exists p, q. set_solver.
Qed.

Lemma fmap_hash_NoDup P : NoDup P -> NoDup ((fun p => hash p.1 p.2) <$> P) \/ collision P.
Proof.
  induction 1 as [|p P Hp Hnd IH]; cbn; [left; constructor|]. destruct IH as [IH|Hc].
  - destruct (decide (hash p.1 p.2 ∈ (fun p => hash p.1 p.2) <$> P)) as [Hin|Hni].
    + right. apply list_elem_of_fmap in Hin as (q & Hq & Hin). exists p, q. set_solver.
    + left. by constructor.
  - right. eapply collision_mono, Hc. set_solver.
Qed.

(** ** Rounds *)

(** The nodes after [k] rounds, and the pairs hashed in the first [k] rounds *)
Definition level (k : nat) (l : list Hash) : list Hash := Nat.iter k hash_chunks l.

Fixpoint pairs_of (k : nat) (l : list Hash) : list (Hash * Hash) :=
  match k with
  | O => []
  | S k => pairs_of k l ++ chunk_pairs (level k l)
  end.

Lemma level_S k l : level (S k) l = hash_chunks (level k l).
Proof. done. Qed.

Lemma level_NoDup k l : NoDup l -> NoDup (level k l) \/ collision (pairs_of k l).
Proof.
  intros Hnd. induction k as [|k [IH|Hc]]; [by left|..].
  - rewrite level_S, hash_chunks_pairs. cbn [pairs_of].
    destruct (fmap_hash_NoDup (chunk_pairs (level k l))) as [|Hc]; [by apply chunk_pairs_NoDup|by left|].
    right. eapply collision_mono, Hc. set_solver.
  - right. eapply collision_mono, Hc. cbn [pairs_of]. set_solver.
Qed.

Lemma level_plus d k l : level (d + k) l = level k (level d l).
Proof. unfold level. by rewrite Nat.add_comm, Nat.iter_add. Qed.

Lemma pairs_of_plus d k l : pairs_of (d + k) l = pairs_of d l ++ pairs_of k (level d l).
Proof.
  induction k as [|k IH]; cbn [pairs_of]; [by rewrite Nat.add_0_r, app_nil_r|].
  rewrite Nat.add_succ_r. cbn [pairs_of]. by rewrite IH, level_plus, app_assoc.
Qed.

(** Lists of distinct hashes with the same nodes after [k] rounds are equal. *)
Lemma level_inj k l l' :
  NoDup l -> NoDup l' -> level k l = level k l' -> l = l' \/ collision (pairs_of k l ++ pairs_of k l').
Proof.
  intros Hnd Hnd'. induction k as [|k IH]; [by left|]. rewrite !level_S, !hash_chunks_pairs. cbn [pairs_of].
  intros Heq. destruct (fmap_hash_inj _ _ Heq) as [Hp|Hc].
  2: { right. eapply collision_mono, Hc. set_solver. }
  destruct (level_NoDup k l Hnd) as [H1|Hc]; [|right; eapply collision_mono, Hc; set_solver].
  destruct (level_NoDup k l' Hnd') as [H2|Hc]; [|right; eapply collision_mono, Hc; set_solver].
  destruct (IH (chunk_pairs_inj _ _ H1 H2 Hp)) as [|Hc]; [by left|right]. eapply collision_mono, Hc. set_solver.
Qed.

(** An id that is the digest of one of the pairs *)
Definition node_id (P : list (Hash * Hash)) (l : list Hash) : Prop :=
  exists h p, h ∈ l /\ p ∈ P /\ h = hash p.1 p.2.

(** Deeper by [d] rounds: the shallower list consists of nodes of the other tree. *)
Lemma level_bind d k l l' :
  NoDup l -> NoDup l' -> l <> [] -> level k l = level (d + k) l' ->
  l = l' \/ collision (pairs_of k l ++ pairs_of (d + k) l') \/ node_id (pairs_of (d + k) l') l.
Proof.
  intros Hnd Hnd' Hl Heq. rewrite level_plus in Heq. rewrite pairs_of_plus.
  destruct (level_NoDup d l' Hnd') as [Hndd|Hc].
  2: { right; left. eapply collision_mono, Hc. set_solver. }
  destruct (level_inj k _ _ Hnd Hndd Heq) as [->|Hc].
  2: { right; left. eapply collision_mono, Hc. set_solver. }
  destruct d as [|d]; [by left|right; right]. rewrite level_S, hash_chunks_pairs in *. cbn [pairs_of].
  destruct (chunk_pairs (level d l')) as [|p P]; [done|].
  exists (hash p.1 p.2), p. cbn. set_solver.
Qed.

Lemma root_loop_level {E} fuel l l' :
  root_loop (E := E) fuel l = Ok l' ->
  exists k, l' = level k l /\ forall j, (j < k)%nat -> (1 < length (level j l))%nat.
Proof.
  revert l. induction fuel as [|fuel IH]; intros l; cbn [root_loop];
    destruct (Nat.ltb_spec 1 (length l)) as [Hl|Hl]; try done.
  1, 3: intros [= <-]; exists 0%nat; split; [done|lia].
  intros (k & -> & Hk)%IH. exists (S k). split; [unfold level; by rewrite Nat.iter_succ_r|].
  intros [|j] Hj; [done|]. specialize (Hk j ltac:(lia)). unfold level in *. by rewrite Nat.iter_succ_r.
Qed.

Lemma root_loop_mono {E} fuel n l l' :
  root_loop (E := E) fuel l = Ok l' -> root_loop (E := E) (fuel + n) l = Ok l'.
Proof.
  revert l. induction fuel as [|fuel IH]; intros l; cbn [root_loop Nat.add].
  - destruct n; cbn [root_loop]; by destruct (1 <? length l)%nat.
  - destruct (1 <? length l)%nat; auto.
Qed.

(** The loop ends within [fuel] rounds exactly when the ids are at most [2 ^ fuel]. *)
Lemma root_loop_spec {E} fuel l :
  if (length l <=? 2 ^ fuel)%nat
  then exists l', root_loop (E := E) fuel l = Ok l' /\ length l' = Nat.min 1 (length l)
  else root_loop (E := E) fuel l = Panic.
Proof.
  revert l. induction fuel as [|fuel IH]; intros l; cbn [root_loop].
  - change (2 ^ 0)%nat with 1%nat.
    destruct (Nat.leb_spec (length l) 1), (Nat.ltb_spec 1 (length l)); [lia| |done|lia].
    exists l. split; [done|lia].
  - pose proof (Nat.pow_nonzero 2 fuel ltac:(lia)) as Hpow.
    destruct (Nat.ltb_spec 1 (length l)).
    + specialize (IH (hash_chunks l)). rewrite length_hash_chunks in IH.
      pose proof (Nat.div2_odd (S (length l))) as Hdiv.
      assert (Nat.b2n (Nat.odd (S (length l))) <= 1)%nat by (by destruct (Nat.odd _); cbn; lia).
      rewrite Nat.pow_succ_r'.
      destruct (Nat.leb_spec (length l) (2 * 2 ^ fuel)),
        (Nat.leb_spec (Nat.div2 (S (length l))) (2 ^ fuel)); try lia; [|done].
      destruct IH as (l' & -> & Hlen). exists l'. split; [done|lia].
    + rewrite Nat.pow_succ_r'. destruct (Nat.leb_spec (length l) (2 * 2 ^ fuel)); [|lia].
      exists l. split; [done|lia].
Qed.

Lemma root_from_iter_Ok {E} l :
  l <> [] -> exists r, root_from_iter (E := E) l = Ok r /\ root_loop (E := E) (length l) l = Ok [r].
Proof.
  intros Hl. unfold root_from_iter. pose proof (root_loop_spec (E := E) (length l) l) as H.
  pose proof (Nat.pow_gt_lin_r 2 (length l) ltac:(lia)).
  destruct (Nat.leb_spec (length l) (2 ^ length l)); [|lia].
  destruct H as (l' & -> & Hlen). destruct l as [|a l]; [done|]. cbn [List.length] in Hlen.
  destruct l' as [|r [|? ?]]; cbn in Hlen; [lia| |lia]. by exists r.
Qed.

(** The pairs the code hashes to compute the root of [l] *)
Definition hashed (l : list Hash) (P : list (Hash * Hash)) : Prop :=
  exists k, P = pairs_of k l /\ length (level k l) = 1%nat /\
    forall j, (j < k)%nat -> (1 < length (level j l))%nat.

Lemma root_from_iter_level {E} l r :
  root_from_iter (E := E) l = Ok r ->
  l <> [] /\ exists k, [r] = level k l /\ forall j, (j < k)%nat -> (1 < length (level j l))%nat.
Proof.
  intros H. destruct (decide (l = [])) as [->|Hl]; [done|]. split; [done|].
  destruct (root_from_iter_Ok (E := E) l Hl) as (r' & Hr' & Hloop).
  rewrite H in Hr'. injection Hr' as <-. by apply root_loop_level in Hloop.
Qed.

(** Lists of distinct ids with one root are equal; or two pairs of nodes that were
    hashed collide; or an id is the digest of a pair that was hashed. *)
Lemma root_binds {E} l l' r :
  NoDup l -> NoDup l' -> root_from_iter (E := E) l = Ok r -> root_from_iter (E := E) l' = Ok r ->
  l = l' \/ exists P P', hashed l P /\ hashed l' P' /\
    (collision (P ++ P') \/ node_id P' l \/ node_id P l').
Proof.
  intros Hnd Hnd' [Hl (k & Hk & Hmin)]%root_from_iter_level [Hl' (k' & Hk' & Hmin')]%root_from_iter_level.
  assert (HP : hashed l (pairs_of k l)) by (exists k; rewrite <- Hk; auto).
  assert (HP' : hashed l' (pairs_of k' l')) by (exists k'; rewrite <- Hk'; auto).
  rewrite Hk in Hk'. destruct (Nat.le_ge_cases k k') as [Hle|Hle].
  - replace k' with ((k' - k) + k)%nat in Hk' at 1 by lia.
    destruct (level_bind (k' - k) k l l' Hnd Hnd' Hl Hk') as [|H]; [by left|right].
    replace ((k' - k) + k)%nat with k' in H by lia. exists (pairs_of k l), (pairs_of k' l').
    naive_solver.
  - replace k with ((k - k') + k')%nat in Hk' at 1 by lia. symmetry in Hk'.
    destruct (level_bind (k - k') k' l' l Hnd' Hnd Hl' Hk') as [|H]; [by left|right].
    replace ((k - k') + k')%nat with k in H by lia. exists (pairs_of k l), (pairs_of k' l').
    split; [done|]. split; [done|]. destruct H as [H|H]; [left|by right; right].
    eapply collision_mono, H. set_solver.
Qed.

(** C35: The Merkle root is computed for every non-empty list of transaction ids,
    in as many rounds as the logarithm of their number and not in fewer; it
    panics on an empty list only. *)
Theorem root_loop_terminates {E} (l : list Hash) (fuel : nat) :
  (root_from_iter (E := E) l = Panic <-> l = []) /\
  (root_loop (E := E) fuel l = Panic <-> (2 ^ fuel < length l)%nat) /\
  (l <> [] -> (length l <= 2 ^ fuel)%nat ->
   exists r, root_from_iter (E := E) l = Ok r /\ root_loop (E := E) fuel l = Ok [r]).
Proof.
  pose proof (root_loop_spec (E := E) fuel l) as Hspec. split_and!.
  - split; [|by intros ->]. intros H. destruct (decide (l = [])) as [|Hl]; [done|].
    destruct (root_from_iter_Ok (E := E) l Hl) as (r & Hr & _). congruence.
  - destruct (Nat.leb_spec (length l) (2 ^ fuel)); [|done].
    destruct Hspec as (l' & -> & _). split; [done|lia].
  - intros Hl Hfuel. destruct (Nat.leb_spec (length l) (2 ^ fuel)); [|lia].
    destruct Hspec as (l' & Hl' & Hlen).
    destruct (root_from_iter_Ok (E := E) l Hl) as (r & Hr & Hloop). exists r. split; [done|].
    pose proof (root_loop_mono _ (length l) _ _ Hl') as H1. apply (root_loop_mono _ fuel) in Hloop.
    rewrite Nat.add_comm in Hloop. congruence.
Qed.
End Binding.

(** Two pairs of hashes with one digest are two messages with one SHA-256d digest. *)
Lemma pair_collision {SH : Sha256} {SL : Sha256Laws SH} a b c d :
  is_hash a -> is_hash b -> is_hash c -> is_hash d -> (a, b) <> (c, d) -> hash a b = hash c d ->
  hash_bytes a ++ hash_bytes b <> hash_bytes c ++ hash_bytes d /\
  sha256d (hash_bytes a ++ hash_bytes b) = sha256d (hash_bytes c ++ hash_bytes d).
Proof.
  intros Ha Hb Hc Hd Hne Heq. split.
  - intros H. apply pair_bytes_inj in H as [-> ->]; done.
  - destruct (sha256_length (sha256 (hash_bytes a ++ hash_bytes b))).
    destruct (sha256_length (sha256 (hash_bytes c ++ hash_bytes d))).
    by apply hash_value_inj.
Qed.

(** ** The authorizing data tree *)

Section AuthData.
Context {B : Blake2b}.

(** The root of the full binary tree of depth [d] *)
Fixpoint tree_root (d : nat) (leaves : list Hash) : Hash :=
  match d with
  | O => hd 0 leaves
  | S d => auth_data_hash (tree_root d (take (2 ^ d) leaves)) (tree_root d (drop (2 ^ d) leaves))
  end.

(** The parents of a level *)
Fixpoint parents (l : list Hash) : list Hash :=
  match l with
  | a :: b :: l => auth_data_hash a b :: parents l
  | _ => []
  end.

Lemma auth_chunks_parents {E} n l :
  length l = (2 * n)%nat -> auth_chunks (E := E) l = Ok (parents l) /\ length (parents l) = n.
Proof.
  revert n. induction l as [| |a b l IH] using chunk_ind; intros n Hn; cbn [List.length] in Hn.
  - split; [done|]. cbn. lia.
  - lia.
  - destruct (IH (n - 1)%nat) as [Hc Hl]; [lia|]. cbn [auth_chunks parents]. rewrite Hc.
    split; [done|]. cbn [List.length]. lia.
Qed.

Lemma parents_take_drop n l :
  take n (parents l) = parents (take (2 * n) l) /\ drop n (parents l) = parents (drop (2 * n) l).
Proof.
  revert n. induction l as [|a|a b l IH] using chunk_ind; intros n.
  - cbn [parents]. by rewrite !take_nil, !drop_nil.
  - cbn [parents]. rewrite take_nil, drop_nil. destruct n as [|n]; [done|].
    replace (2 * S n)%nat with (S (S (2 * n))) by lia. by cbn; rewrite ?take_nil, ?drop_nil.
  - destruct n as [|n]; [done|]. replace (2 * S n)%nat with (S (S (2 * n))) by lia.
    cbn [parents take drop]. destruct (IH n) as [-> ->]. done.
Qed.

(** The root of a level is the root of its parents. *)
Lemma tree_root_parents d l :
  length l = (2 ^ S d)%nat -> tree_root (S d) l = tree_root d (parents l).
Proof.
  revert l. induction d as [|d IH]; intros l Hl.
  - destruct l as [|a [|b [|c l]]]; cbn in Hl; try lia. done.
  - change (tree_root (S (S d)) l) with
      (auth_data_hash (tree_root (S d) (take (2 ^ S d) l)) (tree_root (S d) (drop (2 ^ S d) l))).
    rewrite Nat.pow_succ_r' in Hl.
    rewrite !IH by (rewrite ?length_take, ?length_drop; lia).
    cbn [tree_root]. destruct (parents_take_drop (2 ^ d) l) as [-> ->].
    by rewrite <- Nat.pow_succ_r'.
Qed.

Lemma auth_loop_tree {E} d fuel l :
  length l = (2 ^ d)%nat -> (d <= fuel)%nat -> auth_loop (E := E) fuel l = Ok [tree_root d l].
Proof.
  revert fuel l. induction d as [|d IH]; intros fuel l Hl Hfuel.
  - cbn in Hl. destruct l as [|a [|]]; cbn in Hl; try lia. by destruct fuel.
  - destruct fuel as [|fuel]; [lia|]. cbn [auth_loop]. pose proof (Nat.pow_nonzero 2 d ltac:(lia)).
    rewrite Nat.pow_succ_r' in Hl. destruct (Nat.ltb_spec 1 (length l)); [|lia].
    destruct (auth_chunks_parents (E := E) (2 ^ d) l Hl) as [-> Hp]. cbn [res_bind].
    rewrite IH by (done || lia). by rewrite tree_root_parents by (by rewrite Nat.pow_succ_r').
Qed.

(** The depth of the tree over [n] leaves, and the leaves with their padding *)
Definition depth (n : nat) : nat := Z.to_nat (Z.log2_up (Z.of_nat n)).
Definition padded (l : list Hash) : list Hash := l ++ replicate (2 ^ depth (length l) - length l) 0.

Lemma pow_depth n : Z.of_nat (2 ^ depth n) = 2 ^ Z.log2_up (Z.of_nat n).
Proof. unfold depth. rewrite Nat2Z.inj_pow, Z2Nat.id by apply Z.log2_up_nonneg. done. Qed.

Lemma le_pow_depth n : (n <= 2 ^ depth n)%nat.
Proof.
  apply Nat2Z.inj_le. rewrite pow_depth. destruct (decide (n = 0%nat)) as [->|]; [cbn; lia|].
  apply Z.log2_up_le_pow2; [lia|done].
Qed.

Lemma length_padded l : length (padded l) = (2 ^ depth (length l))%nat.
Proof.
  unfold padded. rewrite length_app, length_replicate. pose proof (le_pow_depth (length l)). lia.
Qed.

Lemma auth_data_root_is_tree {E} (l : list Hash) :
  Z.of_nat (length l) <= 2 ^ 63 ->
  auth_data_root_from_iter (E := E) l = Ok (tree_root (depth (length l)) (padded l)).
Proof.
  intros Hl. unfold auth_data_root_from_iter, next_power_of_two.
  rewrite <- pow_depth. pose proof (le_pow_depth (length l)) as Hle.
  assert (Hlog : Z.log2_up (Z.of_nat (length l)) <= 63).
  { destruct (decide (length l = 0%nat)) as [->|]; [done|]. apply Z.log2_up_le_pow2; lia. }
  assert (Hpow : Z.of_nat (2 ^ depth (length l)) <= 2 ^ 63)
    by (rewrite pow_depth; apply Z.pow_le_mono_r; lia).
  rewrite uint_arith_Ok by lia. cbn [res_bind]. rewrite uint_arith_Ok by lia. cbn [res_bind].
  rewrite <- Nat2Z.inj_sub, Nat2Z.id by done. fold (padded l). rewrite length_padded.
  unfold is_power_of_two. rewrite pow_depth, Z.log2_pow2 by apply Z.log2_up_nonneg.
  rewrite Z.eqb_refl. cbn [rust_assert res_bind].
  rewrite (auth_loop_tree (depth (length l))); [done|apply length_padded|].
  pose proof (Nat.pow_gt_lin_r 2 (depth (length l)) ltac:(lia)). lia.
Qed.

(** *** Binding *)

(** The pairs of nodes hashed in the tree *)
Fixpoint tree_pairs (d : nat) (leaves : list Hash) : list (Hash * Hash) :=
  match d with
  | O => []
  | S d =>
      let left := take (2 ^ d) leaves in let right := drop (2 ^ d) leaves in
      (tree_root d left, tree_root d right) :: tree_pairs d left ++ tree_pairs d right
  end.

Definition auth_collision (P Q : list (Hash * Hash)) : Prop :=
  exists p q, p ∈ P /\ q ∈ Q /\ p <> q /\ auth_data_hash p.1 p.2 = auth_data_hash q.1 q.2.

Lemma auth_collision_mono P P' Q Q' : P ⊆ P' -> Q ⊆ Q' -> auth_collision P Q -> auth_collision P' Q'.
Proof. intros H H' (p & q & Hp & Hq & ?). exists p, q. auto. Qed.

Lemma tree_root_inj d l l' :
  length l = (2 ^ d)%nat -> length l' = (2 ^ d)%nat -> tree_root d l = tree_root d l' ->
  l = l' \/ auth_collision (tree_pairs d l) (tree_pairs d l').
Proof.
  revert l l'. induction d as [|d IH]; intros l l' Hl Hl' Heq.
  - destruct l as [|a [|]]; cbn in Hl; try lia. destruct l' as [|b [|]]; cbn in Hl'; try lia.
    cbn in Heq. left. by subst.
  - rewrite Nat.pow_succ_r' in Hl, Hl'. cbn [tree_root tree_pairs] in *.
    set (p := (tree_root d (take (2 ^ d) l), tree_root d (drop (2 ^ d) l))).
    set (q := (tree_root d (take (2 ^ d) l'), tree_root d (drop (2 ^ d) l'))).
    destruct (decide (p = q)) as [Hpq|Hne]; [|right; exists p, q; split_and!; first [by left|done]].
    injection Hpq as H1 H2.
    destruct (IH (take (2 ^ d) l) (take (2 ^ d) l')) as [E1|Hc]; rewrite ?length_take; [lia..|done| |].
    2: { right. eapply auth_collision_mono, Hc; set_solver. }
    destruct (IH (drop (2 ^ d) l) (drop (2 ^ d) l')) as [E2|Hc]; rewrite ?length_drop; [lia..|done| |].
    2: { right. eapply auth_collision_mono, Hc; set_solver. }
    left. by rewrite <- (take_drop (2 ^ d) l), E1, E2, take_drop.
Qed.

(** The authorizing data root of any list of digests is the root of the full
    binary tree over the digests padded with zeros to a power of two; and another
    list of as many digests with this root is the same list, or two different
    pairs of nodes of the two trees have one hash. *)
Lemma auth_data_root_commits {E} (l l' : list Hash) :
  Z.of_nat (length l) <= 2 ^ 63 -> length l = length l' ->
  auth_data_root_from_iter (E := E) l = Ok (tree_root (depth (length l)) (padded l)) /\
  (auth_data_root_from_iter (E := E) l' = auth_data_root_from_iter (E := E) l ->
   l = l' \/
   auth_collision (tree_pairs (depth (length l)) (padded l)) (tree_pairs (depth (length l)) (padded l'))).
Proof.
  intros Hl Hlen. rewrite !auth_data_root_is_tree by (rewrite <- ?Hlen; done).
  split; [done|]. rewrite <- Hlen. intros [= Heq]. symmetry in Heq.
  apply tree_root_inj in Heq as [Hp|]; rewrite ?length_padded, <- ?Hlen; auto.
  left. unfold padded in Hp. by apply app_inj_1 in Hp as [Hp _].
Qed.
End AuthData.

(** Digests that keep the first 32 bytes, for the witnesses *)
Definition toy_digest (bs : list Z) : list Z := take 32 (((fun b => b mod 256) <$> bs) ++ replicate 32 0).

Lemma toy_digest_length bs : length (toy_digest bs) = 32%nat /\ Forall is_byte (toy_digest bs).
Proof.
  unfold toy_digest. split.
  - rewrite length_take, length_app, length_fmap, length_replicate. lia.
  - apply Forall_take, Forall_app. split.
    + apply Forall_fmap, Forall_true. intros b. apply Z.mod_pos_bound. lia.
    + apply Forall_replicate. unfold is_byte. lia.
Qed.

#[export] Instance toy_sha256 : Sha256 := toy_digest.
#[export] Instance toy_sha256_laws : Sha256Laws toy_sha256 := toy_digest_length.
Definition toy_blake2b : Blake2b := fun _ => toy_digest.

Lemma root_loop_terminates_witness :
  exists r, root_from_iter (E := unit) [1; 2; 3; 4; 5] = Ok r /\ root_loop (E := unit) 3 [1; 2; 3; 4; 5] = Ok [r].
Proof.
  destruct (root_loop_terminates (E := unit) [1; 2; 3; 4; 5] 3) as (_ & _ & H).
  apply H; [done|cbn; lia].
Defined.

End MerkleFacts.
