(* ===== verification/BlockHeader.v ===== *)
(** * Block headers and proof of work

    [zakura-chain/src/block/header.rs], [block/serialize.rs], [block/hash.rs] and
    [work/equihash.rs]: headers, their encoding and hash; and the context-free
    checks of [zakura-header-chain/src/validation/context_free/]: version and
    time, compact target, hash filter and proof-of-work policy.

    A header is decoded exactly from its encoding, and its hash determines it up
    to a collision.  The Equihash verifier is a parameter. *)

From stdpp Require Import base numbers strings list option.
From Stdlib Require Import ZArith Lia.
From S2P Require Import Prelude Height Network Difficulty Serialization SerializationFacts Dependencies Transparent Merkle TransparentFacts.
Local Open Scope Z_scope.
Local Notation length := List.length.

Module BlockHeader.
Import Network Difficulty Serialization SerializationFacts Codec Transparent Merkle TransparentFacts.

(** ** Equihash solutions *)

Definition SOLUTION_SIZE : Z := 1344.
Definition REGTEST_SOLUTION_SIZE : Z := 36.

(** A solution is an array of the size its constructor names. *)
Inductive Solution :=
| Common (solution : list Z)
| Regtest (solution : list Z).

Definition solution_value (self : Solution) : list Z :=
  match self with Common solution => solution | Regtest solution => solution end.

Definition solution_from_bytes (solution : list Z) : res SerializationError Solution :=
  let len := Z.of_nat (length solution) in
  if len =? SOLUTION_SIZE then Ok (Common solution)
  else if len =? REGTEST_SOLUTION_SIZE then Ok (Regtest solution)
  else Err (Parse "incorrect equihash solution size").

Definition write_solution (self : Solution) : res SerializationError (list Z) :=
  let solution := solution_value self in
  let? size := compact_size_message (Z.of_nat (length solution)) in
  let? size := write_size size in
  Ok (size ++ solution).

Definition read_solution : decoder Solution :=
  do len <- read_size;;
  if negb ((len =? SOLUTION_SIZE) || (len =? REGTEST_SOLUTION_SIZE))
  then lift (Err (Parse "incorrect equihash solution size"))
  else do solution <- read_bytes len;; lift (solution_from_bytes solution).

(** ** Headers *)

(** [time] in nanoseconds since the epoch *)
Record Header := mkHeader {
  version : Z;
  previous_block_hash : Hash;
  merkle_root : Hash;
  commitment_bytes : list Z;
  time : Z;
  difficulty_threshold : Z;
  nonce : list Z;
  solution : Solution;
}.

Definition ZCASH_BLOCK_VERSION : Z := 4.
Definition NANOS : Z := 1000000000.

(** [DateTime::timestamp] *)
Definition timestamp (time : Z) : Z := time / NANOS.

Definition validate_header_version (version : Z) : res string unit :=
  if negb (Z.shiftr version 31 =? 0) then Err "high bit was set in version field"%string
  else if version <? ZCASH_BLOCK_VERSION then Err "version must be at least 4"%string
  else Ok tt.

Definition write_header (self : Header) : res SerializationError (list Z) :=
  let? _ := map_err Parse (validate_header_version (version self)) in
  let? time := expect (to_uint 32 (timestamp (time self))) in
  let? solution := write_solution (solution self) in
  Ok (le_bytes 4 (version self) ++ hash_bytes (previous_block_hash self) ++ hash_bytes (merkle_root self)
      ++ commitment_bytes self ++ le_bytes 4 time ++ le_bytes 4 (difficulty_threshold self)
      ++ nonce self ++ solution).

Definition read_header : decoder Header :=
  do version <- read_le 4;;
  do _ <- lift (map_err Parse (validate_header_version version));;
  do previous_block_hash <- read_exact 32;;
  do merkle_root <- read_exact 32;;
  do commitment_bytes <- read_exact 32;;
  do time <- read_le 4;;
  do difficulty_threshold <- read_le 4;;
  do nonce <- read_exact 32;;
  do solution <- read_solution;;
  ret (mkHeader version (hash_value previous_block_hash) (hash_value merkle_root) commitment_bytes
         (time * NANOS) difficulty_threshold nonce solution).

(** [Hash::from(&Header)] *)
Definition header_hash {E} {SH : Sha256} (self : Header) : res E Hash :=
  let? written := expect_ok (write_header self) in
  Ok (hash_value (sha256d written)).

(** ** Context-free checks *)

Inductive HeaderEncodingError :=
| VersionError (version : Z) (reason : string)
| TimestampError (timestamp : Z).

Definition validate_encoding_version_hash {SH : Sha256} (header : Header)
  : res HeaderEncodingError Hash :=
  let? _ := map_err (VersionError (version header)) (validate_header_version (version header)) in
  let timestamp := timestamp (time header) in
  let? _ := ok_or (TimestampError timestamp) (to_uint 32 timestamp) in
  header_hash header.

Inductive CompactTargetError := InvalidTarget | EasierThanLimit (target limit : Z).

Definition validate_compact_target {U : U256} (header : Header) (net : Network)
  : res CompactTargetError Z :=
  let? expanded := to_expanded (difficulty_threshold header) in
  let? target := ok_or InvalidTarget expanded in
  let? limit := target_difficulty_limit net in
  if limit <? target then Err (EasierThanLimit target limit) else Ok target.

(** [HashFilterError] holds its two arguments. *)
Definition validate_hash_filter (hash : Hash) (target : Z) : res (Hash * Z) unit :=
  match compare_hash (hash_bytes hash) target with
  | Gt => Err (hash, target)
  | _ => Ok tt
  end.

(** [equihash::is_valid_solution] on [n], [k], input, nonce and solution *)
Class Equihash := is_valid_solution : Z -> Z -> list Z -> list Z -> list Z -> bool.

Inductive EquihashError := InvalidSolution | InvalidSolutionSize (net : Network).

Definition is_regtest (net : Network) : bool :=
  match net with Testnet params => p_is_regtest params | Mainnet => false end.
Definition is_default_testnet (net : Network) : bool :=
  match net with Testnet params => p_is_default_testnet params | Mainnet => false end.
Definition disable_pow (net : Network) : bool :=
  match net with Testnet params => p_disable_pow params | Mainnet => false end.

Definition validate_shape (self : Solution) (net : Network) : res EquihashError unit :=
  match is_regtest net, self with
  | false, Common _ => Ok tt
  | true, Regtest _ => Ok tt
  | false, Regtest _ | true, Common _ => Err (InvalidSolutionSize net)
  end.

Definition REGTEST_N : Z := 48.
Definition REGTEST_K : Z := 5.
Definition INPUT_LENGTH : nat := 4 + 32 * 3 + 4 * 2.

Definition check_equihash {EQ : Equihash} (self : Solution) (header : Header) (n k : Z)
  : res EquihashError unit :=
  let? input := expect_ok (write_header header) in
  let input := take INPUT_LENGTH input in
  if is_valid_solution n k input (nonce header) (solution_value self) then Ok tt
  else Err InvalidSolution.

Definition solution_check {EQ : Equihash} (self : Solution) (header : Header) (net : Network)
  : res EquihashError unit :=
  let? _ := validate_shape self net in
  let '(n, k) := if is_regtest net then (REGTEST_N, REGTEST_K) else (200, 9) in
  check_equihash self header n k.

(** [NetworkKind] *)
Inductive NetworkKind := KindMainnet | KindTestnet | KindRegtest.

Definition kind (net : Network) : NetworkKind :=
  match net with
  | Mainnet => KindMainnet
  | Testnet params => if p_is_regtest params then KindRegtest else KindTestnet
  end.

Inductive PowPolicyKind := Validate | AuthenticatedCustomWaiver.
Record PowPolicy := mkPolicy { policy_network : Network; policy_kind : PowPolicyKind }.
Inductive PowPolicyError := ProductionNetwork (kind : NetworkKind) | PowNotDisabled.

Definition validating (net : Network) : PowPolicy := mkPolicy net Validate.

Definition authenticated_custom_waiver (net : Network) : res PowPolicyError PowPolicy :=
  let production :=
    match kind net with
    | KindMainnet => true
    | KindTestnet => is_default_testnet net
    | KindRegtest => false
    end in
  if production then Err (ProductionNetwork (kind net))
  else if negb (disable_pow net) then Err PowNotDisabled
  else Ok (mkPolicy net AuthenticatedCustomWaiver).

Definition for_network (net : Network) : res PowPolicyError PowPolicy :=
  if disable_pow net then authenticated_custom_waiver net else Ok (validating net).

Definition validate_solution {EQ : Equihash} (self : PowPolicy) (header : Header)
  : res EquihashError unit :=
  match policy_kind self with
  | Validate => solution_check (solution header) header (policy_network self)
  | AuthenticatedCustomWaiver => validate_shape (solution header) (policy_network self)
  end.

Definition is_authenticated_custom_waiver (self : PowPolicy) : bool :=
  match policy_kind self with AuthenticatedCustomWaiver => true | Validate => false end.

(** ** The encoding of headers is exact *)

(** The arrays have their sizes, and the fields fit. *)
Definition valid_solution (s : Solution) : Prop :=
  Forall is_byte (solution_value s) /\
  Z.of_nat (length (solution_value s)) =
    match s with Common _ => SOLUTION_SIZE | Regtest _ => REGTEST_SOLUTION_SIZE end.

Definition array32 (bs : list Z) : Prop := length bs = 32%nat /\ Forall is_byte bs.

Record valid_header (h : Header) : Prop := {
  vh_version : 4 <= version h < 2 ^ 31;
  vh_previous : is_hash (previous_block_hash h);
  vh_merkle : is_hash (merkle_root h);
  vh_commitment : array32 (commitment_bytes h);
  vh_time : exists s, time h = s * NANOS /\ fits 4 s;
  vh_difficulty : fits 4 (difficulty_threshold h);
  vh_nonce : array32 (nonce h);
  vh_solution : valid_solution (solution h);
}.

Lemma write_solution_Ok s :
  valid_solution s ->
  write_solution s =
    Ok (write_compact_size (Z.of_nat (length (solution_value s))) ++ solution_value s).
Proof.
  intros [_ Hl]. unfold write_solution.
  assert (Hle : 0 <= Z.of_nat (length (solution_value s)) <= MAX_PROTOCOL_MESSAGE_LEN)
    by (unfold MAX_PROTOCOL_MESSAGE_LEN, SOLUTION_SIZE, REGTEST_SOLUTION_SIZE in *; destruct s; lia).
  rewrite size_Ok by done. cbn [res_bind]. unfold write_size.
  by rewrite (proj2 (Z.leb_le _ _)) by lia.
Qed.

Lemma solution_from_bytes_valid s :
  valid_solution s -> solution_from_bytes (solution_value s) = Ok s.
Proof. intros [_ Hl]. unfold solution_from_bytes. rewrite Hl. by destruct s. Qed.

Lemma solution_from_bytes_inv bs s :
  Forall is_byte bs -> solution_from_bytes bs = Ok s -> valid_solution s /\ solution_value s = bs.
Proof.
  intros Hb. unfold solution_from_bytes.
  destruct (Z.eqb_spec (Z.of_nat (length bs)) SOLUTION_SIZE);
    [|destruct (Z.eqb_spec (Z.of_nat (length bs)) REGTEST_SOLUTION_SIZE); [|done]];
    intros [= <-]; done.
Qed.

Lemma solution_codec : exact_codec valid_solution write_solution read_solution 1.
Proof.
  split.
  - apply (lawful_weaken _ (1 + 0)); [lia|]. apply lawful_bind; [apply read_size_lawful|].
    intros n Hn%read_size_range. destruct (negb _); [by apply lawful_lift|].
    apply (lawful_weaken _ (n + 0)); [lia|]. apply lawful_bind; [apply read_bytes_lawful; lia|].
    intros s _. apply lawful_lift. unfold solution_from_bytes. by repeat case_match.
  - intros s Hs. rewrite write_solution_Ok by done. eexists. split; [done|].
    set (n := Z.of_nat (length (solution_value s))).
    assert (Hn : n = SOLUTION_SIZE \/ n = REGTEST_SOLUTION_SIZE)
      by (unfold n; destruct Hs as [_ ->]; destruct s; auto).
    assert (Hr : 0 <= n <= MAX_PROTOCOL_MESSAGE_LEN)
      by (unfold MAX_PROTOCOL_MESSAGE_LEN, SOLUTION_SIZE, REGTEST_SOLUTION_SIZE in *; lia).
    split.
    + apply Forall_app. split; [|apply Hs]. apply compact_size_is_byte.
      unfold MAX_PROTOCOL_MESSAGE_LEN in *; lia.
    + eapply parses_bind; [by apply read_size_parses|].
      replace (negb _) with false by (destruct Hn as [->| ->]; done).
      rewrite <- (app_nil_r (solution_value s)). eapply parses_bind.
      * apply read_bytes_parses. fold n.
        unfold blen, MAX_U8_ALLOCATION, MAX_PROTOCOL_MESSAGE_LEN, SOLUTION_SIZE, REGTEST_SOLUTION_SIZE in *.
        fold n. lia.
      * rewrite solution_from_bytes_valid by done. apply (parses_ret s).
  - intros r s r' Hwf Hb Hr. unfold read_solution in Hr.
    dec_step size_codec Hr Hwf Hb n r1 b1 D1.
    destruct (negb _); [done|]. pose proof (de_valid D1) as Hn. cbn in Hn.
    dec_step (read_bytes_codec n ltac:(lia)) Hr (de_wf D1) (de_is_byte D1) bs r2 b2 D2.
    destruct (solution_from_bytes bs) as [s'| |] eqn:Hs; cbn in Hr; [|done|done]. injection Hr as -> ->.
    destruct (de_valid D2) as (Hbs & Hlen & _).
    destruct (solution_from_bytes_inv bs s Hbs Hs) as [Hv <-]. split; [done|].
    rewrite write_solution_Ok by done. unfold blen in Hlen. rewrite Hlen.
    pose proof (de_enc D1) as [= <-]. pose proof (de_enc D2) as [= <-].
    eexists. split; [done|]. rewrite (de_bytes D1), (de_bytes D2). split; [by rewrite app_assoc|].
    pose proof (de_le D2) as Hle. rewrite (de_available D1) in Hle. unfold blen in *. rewrite length_app. lia.
Qed.

Lemma validate_header_version_Ok v : 0 <= v -> validate_header_version v = Ok tt <-> 4 <= v < 2 ^ 31.
Proof.
  intros Hv. unfold validate_header_version, ZCASH_BLOCK_VERSION. rewrite Z.shiftr_div_pow2 by lia.
  assert (Hs : v / 2 ^ 31 = 0 <-> v < 2 ^ 31) by (rewrite Z.div_small_iff by lia; lia).
  destruct (Z.eqb_spec (v / 2 ^ 31) 0), (Z.ltb_spec v 4); cbn [negb]; split; try done; lia.
Qed.

Lemma read_header_lawful : lawful read_header 140.
Proof.
  unfold read_header.
  apply (lawful_weaken _ (Z.of_nat 4 + (0 + (Z.of_nat 32 + (Z.of_nat 32 + (Z.of_nat 32 +
    (Z.of_nat 4 + (Z.of_nat 4 + (Z.of_nat 32 + (1 + 0)))))))))); [lia|].
  repeat (apply lawful_bind; [first [apply read_le_lawful|apply read_exact_lawful|apply solution_codec|
    apply lawful_lift; unfold validate_header_version; by repeat case_match]|intros ? _]).
  apply lawful_ret.
Qed.
(** What [write_header] writes of a valid header *)
Lemma write_header_Ok h s :
  valid_header h -> time h = s * NANOS -> fits 4 s ->
  write_header h =
    Ok (le_bytes 4 (version h) ++ hash_bytes (previous_block_hash h) ++ hash_bytes (merkle_root h)
        ++ commitment_bytes h ++ le_bytes 4 s ++ le_bytes 4 (difficulty_threshold h) ++ nonce h
        ++ write_compact_size (Z.of_nat (length (solution_value (solution h)))) ++ solution_value (solution h)).
Proof.
  intros Hv Ht Hs. unfold write_header.
  rewrite (proj2 (validate_header_version_Ok (version h) ltac:(pose proof (vh_version h Hv); lia)))
    by apply Hv. cbn [map_err res_bind].
  unfold timestamp. rewrite Ht, Z.div_mul by done. unfold fits in Hs.
  rewrite (proj2 (to_uint_Some 32 s s)) by (split; [done|lia]). cbn [expect res_bind].
  rewrite write_solution_Ok by apply Hv. done.
Qed.

Lemma header_codec : exact_codec valid_header write_header read_header 140.
Proof.
  split; [apply read_header_lawful|..].
  - intros h Hv. destruct (vh_time h Hv) as (s & Ht & Hs). rewrite (write_header_Ok h s Hv Ht Hs).
    eexists. split; [done|]. destruct Hv as [Hver Hp Hm Hc _ Hd Hn Hsol].
    split.
    + rewrite !Forall_app. split_and!; try apply le_bytes_is_byte; try apply hash_bytes_array; [apply Hc|apply Hn| |apply Hsol].
      apply compact_size_is_byte. destruct Hsol as [_ ->]. destruct (solution h); cbv; done.
    + unfold read_header.
      eapply parses_bind; [apply read_le_parses; change (256 ^ Z.of_nat 4) with (2 ^ 32); lia|]. rewrite <- (app_nil_l (hash_bytes (previous_block_hash h) ++ _)).
      eapply parses_bind.
      { rewrite (proj2 (validate_header_version_Ok (version h) ltac:(lia)) Hver). apply (parses_ret tt). }
      eapply parses_bind; [apply read_exact_lawful, length_hash_bytes|].
      eapply parses_bind; [apply read_exact_lawful, length_hash_bytes|].
      eapply parses_bind; [apply read_exact_lawful, Hc|].
      eapply parses_bind; [by apply read_le_parses|]. eapply parses_bind; [by apply read_le_parses|].
      eapply parses_bind; [apply read_exact_lawful, Hn|].
      rewrite <- (app_nil_r (write_compact_size _ ++ _)). eapply parses_bind.
      { destruct (xc_enc _ _ _ _ solution_codec _ Hsol) as (b & Hb & _ & Hpb).
        rewrite write_solution_Ok in Hb by done. injection Hb as <-. exact Hpb. }
      rewrite !hash_value_bytes, <- Ht by done. destruct h; cbn. apply parses_ret.
  - intros r h r' Hwf Hb Hr. unfold read_header in Hr.
    dec_step (le_codec 4) Hr Hwf Hb ver r1 b1 D1.
    apply bind_Ok in Hr as ([] & r1' & Hver & Hr). destruct (validate_header_version ver) as [[]| |] eqn:Hv;
      cbn in Hver; [injection Hver as <-|done|done].
    dec_step (array_codec 32) Hr (de_wf D1) (de_is_byte D1) prev r2 b2 D2.
    dec_step (array_codec 32) Hr (de_wf D2) (de_is_byte D2) root r3 b3 D3.
    dec_step (array_codec 32) Hr (de_wf D3) (de_is_byte D3) cmt r4 b4 D4.
    dec_step (le_codec 4) Hr (de_wf D4) (de_is_byte D4) tm r5 b5 D5.
    dec_step (le_codec 4) Hr (de_wf D5) (de_is_byte D5) bits r6 b6 D6.
    dec_step (array_codec 32) Hr (de_wf D6) (de_is_byte D6) non r7 b7 D7.
    dec_step solution_codec Hr (de_wf D7) (de_is_byte D7) sol r8 b8 D8.
    injection Hr as <- <-.
    assert (Hvalid : valid_header (mkHeader ver (hash_value prev) (hash_value root) cmt (tm * NANOS) bits non sol)).
    { apply validate_header_version_Ok in Hv; [|apply (de_valid D1)]. split; cbn; try done; try apply D4; try apply D6;
        try apply D7; try apply D8; try (apply hash_value_is_hash; first [apply D2|apply D3]).
      exists tm. split; [done|apply D5]. }
    split; [done|]. rewrite (write_header_Ok _ tm Hvalid) by first [done|apply D5].
    cbn [version previous_block_hash merkle_root commitment_bytes difficulty_threshold nonce solution].
    rewrite !hash_bytes_value by first [apply D2|apply D3].
    pose proof (de_enc D8) as He. rewrite write_solution_Ok in He by apply D8. injection He as He.
    pose proof (de_enc D1) as [= <-]. pose proof (de_enc D2) as [= <-]. pose proof (de_enc D3) as [= <-].
    pose proof (de_enc D4) as [= <-]. pose proof (de_enc D5) as [= <-]. pose proof (de_enc D6) as [= <-].
    pose proof (de_enc D7) as [= <-]. eexists. split; [done|]. rewrite He. split.
    + rewrite (de_bytes D1), (de_bytes D2), (de_bytes D3), (de_bytes D4), (de_bytes D5), (de_bytes D6),
        (de_bytes D7), (de_bytes D8). by rewrite <- !app_assoc.
    + pose proof (de_le D8) as Hle. rewrite (de_available D7), (de_available D6), (de_available D5),
        (de_available D4), (de_available D3), (de_available D2), (de_available D1) in Hle.
      unfold blen in *. rewrite !length_app, !length_le_bytes. cbn [List.length] in Hle. lia.
Qed.

(** C24: A header is decoded exactly from its encoding, at any point of a message or
    stream: the reader yields [h] and leaves [rest] if and only if [h] is valid and
    the bytes are what [write_header] writes of it, followed by [rest].  So the bytes
    that are hashed and the fields that are checked determine each other. *)
Theorem header_exact r (h : Header) rest :
  wf r -> Forall is_byte (bytes r) ->
  (exists r', read_header r = Ok (h, r') /\ bytes r' = rest) <->
  valid_header h /\ exists bs, write_header h = Ok bs /\ bytes r = bs ++ rest /\ blen bs <= available r.
Proof. intros Hwf Hb. apply (exact_iff _ _ _ 140); [apply header_codec|done|done]. Qed.

Definition sample_header : Header :=
  mkHeader 4 7 9 (replicate 32 1) (1500000000 * NANOS) 520617983 (replicate 32 2) (Regtest (replicate 36 3)).
Definition sample_header_bytes : list Z :=
  match write_header sample_header with Ok bs => bs | _ => [] end.

Lemma header_exact_witness :
  valid_header sample_header /\ write_header sample_header = Ok sample_header_bytes.
Proof.
  destruct (header_exact (from_slice (sample_header_bytes ++ [5])) sample_header [5]) as [H _].
  - apply from_slice_wf.
  - vm_compute. repeat constructor; intros; discriminate.
  - destruct H as (Hv & bs & He & _); [eexists; split; [vm_compute; reflexivity|done]|].
    split; [exact Hv|]. unfold sample_header_bytes. by rewrite He.
Defined.

(** Valid headers with the same encoding are equal. *)
Lemma write_header_inj h h' bs :
  valid_header h -> valid_header h' -> write_header h = Ok bs -> write_header h' = Ok bs -> h = h'.
Proof.
  intros Hv Hv' Hw Hw'.
  destruct (xc_enc _ _ _ _ header_codec h Hv) as (b & Hb & Hbyte & Hp). rewrite Hw in Hb. injection Hb as <-.
  destruct (xc_enc _ _ _ _ header_codec h' Hv') as (b & Hb & _ & Hp'). rewrite Hw' in Hb. injection Hb as <-.
  destruct (from_slice_wf bs) as [Hwf Hbs]. pose proof (available_range _ Hwf) as Ha.
  assert (Hav : blen bs <= available (from_slice bs)).
  { unfold available. rewrite Hbs. cbn. done. }
  destruct (Hp (from_slice bs)) as (r1 & H1 & _); [done|by rewrite Hbs, take_ge|done|].
  destruct (Hp' (from_slice bs)) as (r2 & H2 & _); [done|by rewrite Hbs, take_ge|done|]. congruence.
Qed.
End BlockHeader.
