(* ===== verification/MempoolTx.v ===== *)
(** * Transactions of the mempool

    What the mempool storage reads of a verified transaction
    ([zakura-chain/src/transaction.rs], [transaction/unmined.rs]), and the requests that wait for its outputs
    ([zakurad/src/components/mempool/pending_outputs.rs]). *)

From stdpp Require Import base numbers list option gmap sets.
From Stdlib Require Import ZArith QArith Lia.
From S2P Require Import Prelude Height BTree Network Amount Zip317 HashIter Dependencies Transparent.
Local Open Scope Z_scope.

Module MempoolTx.
Export Transparent.

(** ** Transactions *)

(** A transaction's effects.  [expiry_field] is absent in versions 1 and 2. *)
Record Transaction := mkTransaction {
  inputs : list Input;
  outputs : list Output;
  sprout_nullifiers : list Z;
  sapling_nullifiers : list Z;
  orchard_nullifiers : list Z;
  ironwood_nullifiers : list Z;
  expiry_field : option Z;
  version : Z;
  network_upgrade : option Network.NetworkUpgrade;
}.

Definition spent_outpoints (self : Transaction) : list OutPoint := omap outpoint (inputs self).

(** [Transaction::expiry_height]: zero sets no limit *)
Definition expiry_height (self : Transaction) : option Z :=
  match expiry_field self with
  | Some h => if h =? 0 then None else Some h
  | None => None
  end.

(** [WtxId] has the mined id and the digest of the authorizing data. *)
Inductive UnminedTxId :=
| Legacy (id : Hash)
| Witnessed (id auth_digest : Hash).

#[export] Instance unmined_id_eq_dec : EqDecision UnminedTxId.
Proof. solve_decision. Defined.
#[export] Instance unmined_id_countable : Countable UnminedTxId :=
  inj_countable'
    (fun i => match i with Legacy h => inl h | Witnessed h d => inr (h, d) end)
    (fun s => match s with inl h => Legacy h | inr (h, d) => Witnessed h d end)
    ltac:(abstract by intros []).

Definition mined_id (self : UnminedTxId) : Hash :=
  match self with Legacy id => id | Witnessed id _ => id end.

(** [UnminedTx]: a transaction, its id and its serialized size *)
Record UnminedTx := mkUnmined { u_id : UnminedTxId; u_transaction : Transaction; u_size : Z }.

(** [VerifiedUnminedTx]: its id and transaction, the fees, sizes and counts of
    [Zip317], the value of its [f32] fee weight ratio, when it reached the
    mempool, and the outputs it spends. *)
Record VerifiedUnminedTx := mkVerified {
  unmined_id : UnminedTxId;
  transaction : Transaction;
  fees : Zip317.VerifiedUnminedTx;
  fee_weight_ratio : Q;
  tx_time : option Z;
  tx_height : option Z;
  spent_outputs : list Output;
}.

Definition tx_size (self : VerifiedUnminedTx) : Z := Zip317.size (Zip317.verified_transaction (fees self)).

(** The [transaction] field of a verified transaction, as it was before verification. *)
Definition to_unmined (self : VerifiedUnminedTx) : UnminedTx :=
  mkUnmined (unmined_id self) (transaction self) (tx_size self).

Definition tx_cost {E} (self : VerifiedUnminedTx) : res E Z := Zip317.cost (fees self).

(** The fee as an [u64] *)
Definition tx_fee {E} (self : VerifiedUnminedTx) : res E Z :=
  expect (to_uint 64 (Amount.zatoshis (Zip317.miner_fee (fees self)))).

End MempoolTx.

(** ** Waiting requests *)

Module PendingOutputs.
Import MempoolTx.

Definition MAX_PENDING_OUTPUTS : Z := 65536.
Definition MIN_QUEUES_BETWEEN_PRUNES : Z := 1024.

(** [PruneCadence] ([zakura-node-services/src/prune_cadence.rs]) *)
Record PruneCadence := mkCadence { queued_since_prune : Z; live_after_prune : Z }.

Definition queued (self : PruneCadence) : PruneCadence * bool :=
  let n := Z.min u64_max (queued_since_prune self + 1) in
  (mkCadence n (live_after_prune self), Z.max (live_after_prune self) MIN_QUEUES_BETWEEN_PRUNES <=? n).

Definition pruned (self : PruneCadence) (live : Z) : PruneCadence := mkCadence 0 live.

(** Each awaited outpoint has the number of receivers of its channel that are
    not dropped.  [sent] is what the channels have delivered. *)
Record PendingOutputs := mkPending {
  waiting : gmap OutPoint Z;
  prune_cadence : PruneCadence;
  sent : list (OutPoint * Output);
}.

Definition empty : PendingOutputs := mkPending ∅ (mkCadence 0 0) [].

Definition prune (self : PendingOutputs) : PendingOutputs :=
  let waiting := filter (fun kv => 0 < kv.2) (waiting self) in
  mkPending waiting (pruned (prune_cadence self) (Z.of_nat (size waiting))) (sent self).

(** [queue] returns whether it subscribed; otherwise its future is an error. *)
Definition queue (self : PendingOutputs) (outpoint : OutPoint) : PendingOutputs * bool :=
  let '(cadence, due) := queued (prune_cadence self) in
  let self := mkPending (waiting self) cadence (sent self) in
  let self := if due then prune self else self in
  let refused :=
    (MAX_PENDING_OUTPUTS <=? Z.of_nat (size (waiting self))) &&
    negb (bool_decide (is_Some (waiting self !! outpoint))) in
  if refused then (self, false)
  else
    (mkPending (<[outpoint := default 0 (waiting self !! outpoint) + 1]> (waiting self))
       (prune_cadence self) (sent self), true).

Definition respond (self : PendingOutputs) (outpoint : OutPoint) (output : Output) : PendingOutputs :=
  match waiting self !! outpoint with
  | Some _ =>
      mkPending (delete outpoint (waiting self)) (prune_cadence self) (sent self ++ [(outpoint, output)])
  | None => self
  end.

Definition clear (self : PendingOutputs) : PendingOutputs :=
  mkPending ∅ (prune_cadence self) (sent self).
End PendingOutputs.
