(* ===== verification/Block.v ===== *)
(** * Blocks

    [zakura-chain/src/block.rs], the parts of [transaction.rs] that block
    verification reads, and [transparent/utxo.rs]: blocks with their
    transactions, the outputs they create, and the value that enters or leaves
    a transaction by each pool. *)

From stdpp Require Import base numbers strings list option gmap.
From Stdlib Require Import ZArith Lia.
From S2P Require Import Prelude Height Amount Network ValueBalance Dependencies Transparent MempoolTx Merkle BlockHeader.
Local Open Scope Z_scope.
Local Notation length := List.length.

Module Block.
Export MempoolTx.
Import Network Amount Merkle BlockHeader.

(** A transaction of a block: what it spends and creates, its id and the digest
    of its authorizing data (from version 5), the values of its shielded parts,
    and the numbers of them. *)
Record BlockTx := mkBlockTx {
  body : Transaction;
  tx_hash : Hash;
  auth_digest : option Hash;
  joinsplit_values : list (Amount NegativeAllowed);
  sapling_value : Amount NegativeAllowed;
  orchard_value : Amount NegativeAllowed;
  ironwood_value : Amount NegativeAllowed;
  orchard_action_count : Z;
  ironwood_action_count : Z;
  sapling_spend_count : Z;
  sapling_output_count : Z;
  joinsplit_count : Z;
}.

Record Block := mkBlock { header : Header; transactions : list BlockTx }.

Definition coinbase_height (self : Block) : option Z :=
  tx ← head (transactions self);
  input ← head (inputs (body tx));
  match input with Coinbase height _ _ => Some height | PrevOut _ _ _ => None end.

Definition transaction_hashes (self : Block) : list Hash := tx_hash <$> transactions self.

(** [Block::hash] *)
Definition block_hash {E} {SH : Sha256} (self : Block) : res E Hash := header_hash (header self).

(** [check_transaction_network_upgrade_consistency]; its error has one value. *)
Definition check_transaction_network_upgrade_consistency (self : Block) (net : Network)
  : res unit unit :=
  let? height := expect (coinbase_height self) in
  let? block_nu := current net height in
  if existsb (fun trans_nu => negb (bool_decide (trans_nu = block_nu)))
       (omap (fun tx => network_upgrade (body tx)) (transactions self))
  then Err tt else Ok tt.

(** ** Transactions *)

Definition is_coinbase (self : Transaction) : bool :=
  match inputs self with [Coinbase _ _ _] => true | _ => false end.

Definition is_valid_non_coinbase (self : Transaction) : bool :=
  forallb (fun input => match input with PrevOut _ _ _ => true | Coinbase _ _ _ => false end) (inputs self).

Definition has_transparent_inputs (self : Transaction) : bool := negb (bool_decide (inputs self = [])).

Definition u32_sat (n : Z) : Z := Z.min u32_max n.

Record ShieldedActionCounts := mkCounts {
  orchard_actions : Z;
  ironwood_actions : Z;
  sapling_ios : Z;
  sprout_joinsplits : Z;
}.

(** [ShieldedActionCounts::cost] and [saturating_add] *)
Definition counts_cost (self : ShieldedActionCounts) : Z :=
  u32_sat (u32_sat (u32_sat (orchard_actions self + ironwood_actions self) + sapling_ios self)
           + u32_sat (sprout_joinsplits self * 2)).

Definition counts_saturating_add (self other : ShieldedActionCounts) : ShieldedActionCounts :=
  mkCounts (u32_sat (orchard_actions self + orchard_actions other))
    (u32_sat (ironwood_actions self + ironwood_actions other))
    (u32_sat (sapling_ios self + sapling_ios other))
    (u32_sat (sprout_joinsplits self + sprout_joinsplits other)).

Definition shielded_action_counts (self : BlockTx) : ShieldedActionCounts :=
  mkCounts (u32_sat (orchard_action_count self)) (u32_sat (ironwood_action_count self))
    (u32_sat (u32_sat (sapling_spend_count self) + u32_sat (sapling_output_count self)))
    (u32_sat (joinsplit_count self)).

(** ** Unspent outputs *)

Record Utxo := mkUtxo { output : Output; utxo_height : Z; from_coinbase : bool }.
Record OrderedUtxo := mkOrdered { utxo : Utxo; tx_index_in_block : Z }.

(** [OrderedUtxo::new] *)
Definition new_ordered_utxo (output : Output) (height tx_index_in_block : Z) : OrderedUtxo :=
  mkOrdered (mkUtxo output height (tx_index_in_block =? 0)) tx_index_in_block.

Definition new_transaction_ordered_outputs {E} (transaction : Transaction) (hash : Hash)
  (tx_index_in_block height : Z) : res E (gmap OutPoint OrderedUtxo) :=
  foldl (fun acc '(i, output) =>
           let? new_ordered_outputs := acc in
           let? index := expect (to_uint 32 (Z.of_nat i)) in
           Ok (<[mkOutPoint hash index := new_ordered_utxo output height tx_index_in_block]>
                 new_ordered_outputs))
    (Ok ∅) (imap pair (outputs transaction)).

(** [extend] on a [HashMap]: the new entries win *)
Definition new_ordered_outputs_with_height {E} (block : Block) (height : Z)
  (transaction_hashes : list Hash) : res E (gmap OutPoint OrderedUtxo) :=
  foldl (fun acc '(tx_index_in_block, (transaction, hash)) =>
           let? new_ordered_outputs := acc in
           let? created :=
             new_transaction_ordered_outputs (body transaction) hash (Z.of_nat tx_index_in_block) height in
           Ok (created ∪ new_ordered_outputs))
    (Ok ∅) (imap pair (zip (transactions block) transaction_hashes)).

Definition new_ordered_outputs {E} (block : Block) (transaction_hashes : list Hash)
  : res E (gmap OutPoint OrderedUtxo) :=
  let? height := expect (coinbase_height block) in
  new_ordered_outputs_with_height block height transaction_hashes.

(** ** Values *)

(** [Input::value_from_utxos] *)
Definition value_from_utxos {E} (utxos : gmap OutPoint OrderedUtxo) (self : Input)
  : res E (Amount NonNegative) :=
  match outpoint self with
  | Some outpoint => let? u := expect (utxos !! outpoint) in Ok (value (output (utxo u)))
  | None => Amount.zero
  end.

Definition transparent_value_balance_from_utxos (self : Transaction) (utxos : gmap OutPoint OrderedUtxo)
  : res ValueBalance.ValueBalanceError (ValueBalance.ValueBalance NegativeAllowed) :=
  let? input_values := res_map (value_from_utxos utxos) (inputs self) in
  let? input_value := map_err ValueBalance.TransparentErr (Amount.sum input_values) in
  let? input_value := expect_ok (constrain NegativeAllowed input_value) in
  let? output_value := map_err ValueBalance.TransparentErr (Amount.sum (value <$> outputs self)) in
  let? output_value := expect_ok (constrain NegativeAllowed output_value) in
  let? difference := map_err ValueBalance.TransparentErr (Amount.sub input_value output_value) in
  ValueBalance.from_transparent_amount difference.

Definition sprout_value_balance (self : BlockTx)
  : res ValueBalance.ValueBalanceError (ValueBalance.ValueBalance NegativeAllowed) :=
  let? balances := res_map ValueBalance.from_sprout_amount (joinsplit_values self) in
  ValueBalance.sum balances.

Definition value_balance_from_utxos (self : BlockTx) (utxos : gmap OutPoint OrderedUtxo)
  : res ValueBalance.ValueBalanceError (ValueBalance.ValueBalance NegativeAllowed) :=
  let? transparent := transparent_value_balance_from_utxos (body self) utxos in
  let? sprout := sprout_value_balance self in
  let? acc := ValueBalance.add transparent sprout in
  let? sapling := ValueBalance.from_sapling_amount (sapling_value self) in
  let? acc := ValueBalance.add acc sapling in
  let? orchard := ValueBalance.from_orchard_amount (orchard_value self) in
  let? acc := ValueBalance.add acc orchard in
  let? ironwood := ValueBalance.from_ironwood_amount (ironwood_value self) in
  ValueBalance.add acc ironwood.
End Block.
