(* ===== verification/BlockCheck.v ===== *)
(** * Block checks

    [zakura-consensus/src/block/check.rs] and [block/subsidy.rs], with the
    addresses of [zakura-chain/src/transparent/address.rs] they pay: the checks
    on a block that need no chain state.

    The addresses a network pays are the record [Payees]: they are constants of
    the program in an encoding that a third-party crate parses. *)

From stdpp Require Import base numbers strings list option gmap sets.
From Stdlib Require Import ZArith Lia.
From S2P Require Import Prelude Height Amount BTree Network Subsidy Difficulty Dependencies Transparent MempoolTx Merkle BlockHeader Block.
Local Open Scope Z_scope.
Local Notation length := List.length.

Module BlockCheck.
Import Network Amount Subsidy Difficulty Merkle BlockHeader Block.

(** ** Errors *)

Inductive TransactionError :=
| CoinbasePosition
| CoinbaseAfterFirst
| SubsidyErr (e : SubsidyError)
| OrchardActionsExceedBlockLimit (actions limit : Z)
| IronwoodActionsExceedBlockLimit (actions limit : Z)
| SaplingIOsExceedBlockLimit (ios limit : Z)
| SproutJoinSplitsExceedBlockLimit (joinsplits limit : Z)
| ShieldedCostExceedsBlockBudget (cost limit : Z).

(** [BlockError], the constructors these checks return *)
Inductive BlockError :=
| InvalidHeaderEncoding (e : HeaderEncodingError)
| TransactionErr (e : TransactionError)
| NoTransactions
| BadMerkleRoot (actual expected : Hash)
| DuplicateTransaction
| InvalidDifficulty (height : Z) (hash : Hash)
| TargetDifficultyLimit (height : Z) (hash : Hash) (target : Z) (net : Network) (limit : Z)
| DifficultyFilter (height : Z) (hash : Hash) (target : Z) (net : Network)
| WrongTransactionConsensusBranchId
| Other (message : string).

(** [From<SubsidyError>] and [From<amount::Error>] *)
Definition subsidy_error (e : SubsidyError) : BlockError := TransactionErr (SubsidyErr e).
Definition amount_error (e : Amount.Error) : BlockError := subsidy_error (InvalidAmount e).

(** ** Addresses *)

Inductive Address :=
| PayToScriptHash (network_kind : NetworkKind) (script_hash : list Z)
| PayToPublicKeyHash (network_kind : NetworkKind) (pub_key_hash : list Z)
| Tex (network_kind : NetworkKind) (validating_key_hash : list Z).

(** [Address::script], with its opcodes *)
Definition script (self : Address) : list Z :=
  match self with
  | PayToScriptHash _ h => [169; 20] ++ h ++ [135]
  | PayToPublicKeyHash _ h => [118; 169; 20] ++ h ++ [136; 172]
  | Tex _ _ => []
  end.

(** The addresses of a network: for each funding stream and receiver, the list
    it rotates through; the founders, [None] where the constant does not parse;
    the lockbox recipient of the public networks; and the disbursements of a
    custom one. *)
Record Payees := mkPayees {
  all_funding_streams : list FundingStreams;
  stream_addresses : FundingStreams -> FundingStreamReceiver -> list Address;
  founder_address_list : list (option Address);
  lockbox_recipient : Address;
  custom_lockbox_disbursements : list (Address * Amount NonNegative);
}.

Definition EXPECTED_NU6_1_LOCKBOX_DISBURSEMENTS_TOTAL {E} : res E (Amount NonNegative) :=
  new_from_zec 78750.

Definition NU6_1_LOCKBOX_DISBURSEMENTS {E} (recipient : Address)
  : res E (list (Address * Amount NonNegative)) :=
  let? total := EXPECTED_NU6_1_LOCKBOX_DISBURSEMENTS_TOTAL in
  let? chunk := div_exact total 10 in
  Ok (replicate 10 (recipient, chunk)).

(** [Network::lockbox_disbursements] *)
Definition lockbox_disbursements {E} (net : Network) (payees : Payees) (height : Z)
  : res E (list (Address * Amount NonNegative)) :=
  if negb (bool_decide (Some height = activation_height Nu6_1 net)) then Ok []
  else
    match net with
    | Mainnet => NU6_1_LOCKBOX_DISBURSEMENTS (lockbox_recipient payees)
    | Testnet params =>
        if p_is_default_testnet params then NU6_1_LOCKBOX_DISBURSEMENTS (lockbox_recipient payees)
        else Ok (custom_lockbox_disbursements payees)
    end.

(** [Network::lockbox_disbursement_total_amount]; [reduce] on a custom network *)
Definition lockbox_disbursement_total_amount {E} (net : Network) (payees : Payees) (height : Z)
  : res E (Amount NonNegative) :=
  if negb (bool_decide (Some height = activation_height Nu6_1 net)) then Amount.zero
  else
    let custom :=
      match snd <$> custom_lockbox_disbursements payees with
      | [] => Amount.zero
      | a :: l => foldl (fun acc b => let? acc := acc in expect_ok (add acc b)) (Ok a) l
      end in
    match net with
    | Mainnet => EXPECTED_NU6_1_LOCKBOX_DISBURSEMENTS_TOTAL
    | Testnet params =>
        if p_is_default_testnet params then EXPECTED_NU6_1_LOCKBOX_DISBURSEMENTS_TOTAL else custom
    end.

Definition founders_reward_address {E} (net : Network) (payees : Payees) (height : Z)
  : res E (option Address) :=
  let list := founder_address_list payees in
  match to_uint 32 (Z.of_nat (length list)), to_uint 32 (pre_blossom_halving_interval net) with
  | Some num_founder_addresses, Some interval =>
      match to_uint 32 (slow_start_shift net + interval) with
      | Some sum =>
          let? _ := rust_assert (negb (num_founder_addresses =? 0)) in
          let change_interval := div_ceil sum num_founder_addresses in
          let? nu := current net height in
          let adjusted :=
            if nu_ltb nu Blossom then Some height
            else
              blossom ← activation_height Blossom net;
              d ← to_uint 32 (height - blossom);
              to_uint 32 (blossom + d / BLOSSOM_POW_TARGET_SPACING_RATIO) in
          match adjusted with
          | Some adjusted =>
              let? _ := rust_assert (negb (change_interval =? 0)) in
              Ok (mjoin (list !! Z.to_nat (adjusted / change_interval)))
          | None => Ok None
          end
      | None => Ok None
      end
  | _, _ => Ok None
  end.

(** [FundingStreams::recipient] and [addresses] *)
Definition recipient_addresses (payees : Payees) (streams : FundingStreams)
  (receiver : FundingStreamReceiver) : option (list Address) :=
  if existsb (fun r => bool_decide (r.1 = receiver)) (fs_recipients streams)
  then Some (stream_addresses payees streams receiver) else None.

Definition funding_stream_address_index {E} (height : Z) (net : Network) (payees : Payees)
  (receiver : FundingStreamReceiver) : res E (option Z) :=
  if bool_decide (receiver = Deferred) then Ok None
  else
    match funding_streams (all_funding_streams payees) height with
    | None => Ok None
    | Some streams =>
        match recipient_addresses payees streams receiver with
        | None => Ok None
        | Some addresses =>
            let? period := expect_ok (funding_stream_address_period height net) in
            let? start := expect_ok (funding_stream_address_period (fs_start streams) net) in
            let index :=
              i ← to_sint 64 (1 + period);
              i ← to_sint 64 (i - start);
              to_uint 64 i in
            match index with
            | None => Ok None
            | Some index =>
                let? _ := rust_assert ((0 <? index) && (index <=? Z.of_nat (length addresses))) in
                Ok (Some (index - 1))
            end
        end
    end.

Definition funding_stream_address {E} (height : Z) (net : Network) (payees : Payees)
  (receiver : FundingStreamReceiver) : res E (option Address) :=
  let? index := funding_stream_address_index height net payees receiver in
  Ok (index ← index;
      streams ← funding_streams (all_funding_streams payees) height;
      addresses ← recipient_addresses payees streams receiver;
      addresses !! Z.to_nat index).

(** ** Outputs not yet matched *)

#[export] Instance amount_eq_dec {C} : EqDecision (Amount C).
Proof. solve_decision. Defined.
#[export] Instance output_eq_dec : EqDecision Output.
Proof. solve_decision. Defined.

(** [UnmatchedCoinbaseOutputs] is its vector; [remove] deletes the first match. *)
Fixpoint remove_output (expected : Output) (self : list Output) : option (list Output) :=
  match self with
  | [] => None
  | output :: rest =>
      if bool_decide (output = expected) then Some rest else cons output <$> remove_output expected rest
  end.

Definition remove_payment (address : Address) (amount : Amount NonNegative) (self : list Output)
  : option (list Output) := remove_output (mkOutput amount (script address)) self.

(** ** Checks *)

(** [CoinbaseSummary] *)
Definition coinbase_is_first (block : Block) : res BlockError (BlockTx * bool) :=
  let? first := ok_or NoTransactions (head (transactions block)) in
  let rest := tail (transactions block) in
  if negb (is_coinbase (body first)) then Err (TransactionErr CoinbasePosition)
  else
    let? has_transparent_spends :=
      foldl (fun acc tx =>
               let? has_transparent_spends := acc in
               if negb (is_valid_non_coinbase (body tx)) then Err (TransactionErr CoinbaseAfterFirst)
               else Ok (has_transparent_spends || has_transparent_inputs (body tx)))
        (Ok false) rest in
    Ok (first, has_transparent_spends).

(** The error is the outpoint of [duplicate_transparent_spend_in_block]. *)
Definition transparent_spends_are_unique (block : Block) : res OutPoint unit :=
  let? _ :=
    foldl (fun acc tx =>
             let? spent := acc in
             match List.find (fun outpoint => bool_decide (outpoint ∈ spent)) (spent_outpoints (body tx)) with
             | Some outpoint => Err outpoint
             | None => Ok (spent ∪ list_to_set (spent_outpoints (body tx)))
             end)
      (Ok (∅ : gset OutPoint)) (transactions block) in
  Ok tt.

Section PoW.
Context {U : U256} {EQ : Equihash}.

Definition difficulty_threshold_is_valid (header : Header) (net : Network) (height : Z) (hash : Hash)
  : res BlockError Z :=
  match validate_compact_target header net with
  | Ok target => Ok target
  | Err InvalidTarget => Err (InvalidDifficulty height hash)
  | Err (EasierThanLimit target limit) => Err (TargetDifficultyLimit height hash target net limit)
  | Panic => Panic
  end.

Definition difficulty_is_valid (header : Header) (net : Network) (height : Z) (hash : Hash)
  : res BlockError unit :=
  let? difficulty_threshold := difficulty_threshold_is_valid header net height hash in
  map_err (fun _ => DifficultyFilter height hash difficulty_threshold net)
    (validate_hash_filter hash difficulty_threshold).

Definition equihash_solution_is_valid (header : Header) (net : Network) : res EquihashError unit :=
  validate_solution (validating net) header.

Definition proof_of_work_is_valid {E} (header : Header) (net : Network) (height : Z) (hash : Hash)
  : res E bool :=
  match for_network net with
  | Ok policy =>
      if is_authenticated_custom_waiver policy then Ok true
      else
        match difficulty_is_valid header net height hash with
        | Panic => Panic
        | Err _ => Ok false
        | Ok _ =>
            match equihash_solution_is_valid header net with
            | Panic => Panic
            | Err _ => Ok false
            | Ok _ => Ok true
            end
        end
  | Err _ => Ok false
  | Panic => Panic
  end.
End PoW.

(** The one-time disbursements of the NU6.1 activation block. *)
Fixpoint match_disbursements (balance : Amount NegativeAllowed) (coinbase_outputs : list Output)
  (disbursements : list (Address * Amount NonNegative))
  : res SubsidyError (Amount NegativeAllowed * list Output) :=
  match disbursements with
  | [] => Ok (balance, coinbase_outputs)
  | (addr, expected_amount) :: disbursements =>
      let? coinbase_outputs :=
        ok_or OneTimeLockboxDisbursementNotFound (remove_payment addr expected_amount coinbase_outputs) in
      let? balance := ok_or SubsidyUnderflow (checked_sub balance expected_amount) in
      match_disbursements balance coinbase_outputs disbursements
  end.

(** The payments of the funding streams, in the order of the map. *)
Fixpoint match_streams (net : Network) (payees : Payees) (height : Z) (coinbase_outputs : list Output)
  (funding_streams : list (FundingStreamReceiver * Amount NonNegative)) : res BlockError (list Output) :=
  match funding_streams with
  | [] => Ok coinbase_outputs
  | (receiver, expected_amount) :: funding_streams =>
      let? addr := funding_stream_address height net payees receiver in
      let? addr := ok_or (Other "A funding stream other than the deferred pool must have an address") addr in
      let? coinbase_outputs :=
        ok_or (subsidy_error FundingStreamNotFound) (remove_payment addr expected_amount coinbase_outputs) in
      match_streams net payees height coinbase_outputs funding_streams
  end.

(** The [DeferredPoolBalanceChange] is its amount. *)
Definition subsidy_is_valid (block : Block) (net : Network) (payees : Payees)
  (expected_block_subsidy : Amount NonNegative) : res BlockError (Amount NegativeAllowed) :=
  if is_zero expected_block_subsidy then Amount.zero
  else
    let? height := ok_or (subsidy_error NoCoinbase) (coinbase_height block) in
    let? coinbase := ok_or (subsidy_error NoCoinbase) (head (transactions block)) in
    let coinbase_outputs := outputs (body coinbase) in
    let? nu := current net height in
    if nu_ltb nu Canopy then
      let? before_halving :=
        if Height.MIN <? height then
          let? first_halving := expect_ok (height_for_first_halving net) in Ok (height <? first_halving)
        else Ok false in
      let? _ :=
        if before_halving then
          let? addr := founders_reward_address net payees height in
          let? addr := ok_or (Other "founders reward address must be defined for height") addr in
          let? reward := founders_reward net height in
          ok_or (subsidy_error FoundersRewardNotFound) (remove_payment addr reward coinbase_outputs)
        else Ok coinbase_outputs in
      Amount.zero
    else
      let? funding_streams :=
        map_err amount_error
          (funding_stream_values height net (all_funding_streams payees) expected_block_subsidy) in
      let? zero := Amount.zero in
      let deferred :=
        default zero (snd <$> List.find (fun s => bool_decide (s.1 = Deferred)) funding_streams) in
      let funding_streams := filter (fun s => s.1 <> Deferred) funding_streams in
      let? deferred_pool_balance_change := map_err amount_error (constrain NegativeAllowed deferred) in
      let? (deferred_pool_balance_change, coinbase_outputs) :=
        if bool_decide (Some height = activation_height Nu6_1 net) then
          let? disbursements := lockbox_disbursements net payees height in
          match disbursements with
          | [] => Err (Other "missing lockbox disbursements for NU6.1 activation block")
          | _ =>
              map_err subsidy_error
                (match_disbursements deferred_pool_balance_change coinbase_outputs disbursements)
          end
        else Ok (deferred_pool_balance_change, coinbase_outputs) in
      let? _ := match_streams net payees height coinbase_outputs funding_streams in
      Ok deferred_pool_balance_change.

Definition miner_fees_are_valid (coinbase_tx : BlockTx) (height : Z)
  (block_transaction_fees expected_block_subsidy : Amount NonNegative)
  (expected_deferred_pool_balance_change : Amount NegativeAllowed) (net : Network)
  : res BlockError unit :=
  let? transparent_value_balance :=
    map_err (fun _ => subsidy_error SubsidyOverflow)
      (Amount.sum (value <$> outputs (body coinbase_tx))) in
  let? transparent_value_balance :=
    map_err (fun _ => Other "invalid transparent value balance")
      (constrain NegativeAllowed transparent_value_balance) in
  let? total_output_value :=
    map_err (fun _ => subsidy_error SubsidyOverflow)
      (radd
         (rsub
            (rsub (sub transparent_value_balance (sapling_value coinbase_tx)) (orchard_value coinbase_tx))
            (ironwood_value coinbase_tx))
         expected_deferred_pool_balance_change) in
  let? block_miner_fees := miner_fee_share height net block_transaction_fees in
  let? total_input_value :=
    map_err (fun _ => subsidy_error SubsidyOverflow) (add expected_block_subsidy block_miner_fees) in
  let? nu := current net height in
  if (if nu_ltb nu Nu6 then zatoshis total_input_value <? zatoshis total_output_value
      else negb (zatoshis total_output_value =? zatoshis total_input_value))
  then Err (subsidy_error InvalidMinerFees) else Ok tt.

Definition ORCHARD_PROTOCOL_BLOCK_ACTION_LIMIT : Z := 330.
Definition SAPLING_BLOCK_IO_LIMIT : Z := 300.
Definition SPROUT_BLOCK_JOINSPLIT_LIMIT : Z := 0.
Definition GLOBAL_SHIELDED_BUDGET : Z := 330.

Definition shielded_action_limits_are_valid (transactions : list BlockTx) (height : Z) (net : Network)
  : res TransactionError unit :=
  let? active := is_nu7_active net height in
  if negb active then Ok tt
  else
    let totals :=
      foldl counts_saturating_add (mkCounts 0 0 0 0) (shielded_action_counts <$> transactions) in
    if ORCHARD_PROTOCOL_BLOCK_ACTION_LIMIT <? orchard_actions totals then
      Err (OrchardActionsExceedBlockLimit (orchard_actions totals) ORCHARD_PROTOCOL_BLOCK_ACTION_LIMIT)
    else if ORCHARD_PROTOCOL_BLOCK_ACTION_LIMIT <? ironwood_actions totals then
      Err (IronwoodActionsExceedBlockLimit (ironwood_actions totals) ORCHARD_PROTOCOL_BLOCK_ACTION_LIMIT)
    else if SAPLING_BLOCK_IO_LIMIT <? sapling_ios totals then
      Err (SaplingIOsExceedBlockLimit (sapling_ios totals) SAPLING_BLOCK_IO_LIMIT)
    else if SPROUT_BLOCK_JOINSPLIT_LIMIT <? sprout_joinsplits totals then
      Err (SproutJoinSplitsExceedBlockLimit (sprout_joinsplits totals) SPROUT_BLOCK_JOINSPLIT_LIMIT)
    else
      let cost := counts_cost totals in
      if GLOBAL_SHIELDED_BUDGET <? cost then
        Err (ShieldedCostExceedsBlockBudget cost GLOBAL_SHIELDED_BUDGET)
      else Ok tt.

Definition merkle_root_validity {SH : Sha256} (net : Network) (block : Block)
  (transaction_hashes : list Hash) : res BlockError unit :=
  let? merkle_root := root_from_iter transaction_hashes in
  if negb (BlockHeader.merkle_root (header block) =? merkle_root) then
    Err (BadMerkleRoot merkle_root (BlockHeader.merkle_root (header block)))
  else if negb (Nat.eqb (length transaction_hashes) (size (list_to_set transaction_hashes : gset Hash)))
  then Err DuplicateTransaction
  else
    map_err (fun _ => WrongTransactionConsensusBranchId)
      (check_transaction_network_upgrade_consistency block net).
End BlockCheck.
