(* ===== verification/BlockCheckFacts.v ===== *)
(** * Facts on the block checks

    The Merkle root check binds the ids of a block's transactions; the subsidy
    check finds every required payment as an output of its own; the shielded
    limits are on exact sums; and a block that passes the subsidy and fee checks
    creates the block subsidy, less the fees that leave circulation. *)

From stdpp Require Import base numbers strings list option gmap sets.
From Stdlib Require Import ZArith Lia.
From S2P Require Import Prelude Height Amount BTree Network Subsidy SubsidyFacts Issuance Payout ValueBalance ValuePools Difficulty HashIter Dependencies Transparent MempoolTx Merkle MerkleFacts BlockHeader Block BlockCheck.
Local Open Scope Z_scope.
Local Notation length := List.length.

Module BlockCheckFacts.
Import Network Amount Subsidy SubsidyFacts Payout Difficulty Merkle MerkleFacts BlockHeader Block BlockCheck.

(** ** The Merkle root *)

Lemma merkle_root_validity_Ok {SH : Sha256} net block hashes :
  merkle_root_validity net block hashes = Ok tt ->
  root_from_iter (E := BlockError) hashes = Ok (merkle_root (header block)) /\ NoDup hashes.
Proof.
  unfold merkle_root_validity. destruct (root_from_iter hashes) as [r| |]; cbn [res_bind]; [|done|done].
  destruct (Z.eqb_spec (merkle_root (header block)) r) as [<-|]; cbn [negb]; [|done].
  destruct (Nat.eqb_spec (length hashes) (size (list_to_set hashes : gset Hash))); cbn [negb]; [|done].
  intros _. split; [done|by apply NoDup_size].
Qed.

(** C26: The Merkle root check binds a header to the ids of its transactions: when two
    lists of ids pass it for headers with the same root, they are the same list; or
    computing the two roots hashed two different pairs of nodes to one digest, or one
    of the ids is the digest of a pair of nodes of the other tree. *)
Theorem merkle_check_binds_ids {SH : Sha256} net net' (block block' : Block) (ids ids' : list Hash) :
  merkle_root_validity net block ids = Ok tt -> merkle_root_validity net' block' ids' = Ok tt ->
  merkle_root (header block) = merkle_root (header block') ->
  ids = ids' \/
  exists P P', hashed ids P /\ hashed ids' P' /\
    (collision (P ++ P') \/ node_id P' ids \/ node_id P ids').
Proof.
  intros [Hr Hnd]%merkle_root_validity_Ok [Hr' Hnd']%merkle_root_validity_Ok Heq.
  rewrite <- Heq in Hr'. by apply (root_binds (E := BlockError) ids ids' (merkle_root (header block))).
Qed.

(** ** Required payments *)

Lemma remove_output_Some x l l' : remove_output x l = Some l' -> l ≡ₚ x :: l'.
Proof.
  revert l'. induction l as [|y l IH]; intros l'; cbn; [done|].
  destruct (bool_decide_reflect (y = x)) as [->|Hne]; [by intros [= <-]|].
  destruct (remove_output x l) as [r|] eqn:Hr; cbn; [|done]. intros [= <-].
  rewrite (IH r) by done. apply Permutation_swap.
Qed.

Lemma remove_output_None x l : remove_output x l = None <-> x ∉ l.
Proof.
  induction l as [|y l IH]; cbn; [split; [intros _; apply not_elem_of_nil|done]|].
  rewrite not_elem_of_cons. destruct (bool_decide_reflect (y = x)) as [->|Hne]; [naive_solver|].
  rewrite fmap_None, IH. naive_solver.
Qed.

(** Removing a list of outputs one after the other *)
Fixpoint remove_all (required outputs : list Output) : option (list Output) :=
  match required with
  | [] => Some outputs
  | x :: required => outputs ← remove_output x outputs; remove_all required outputs
  end.

(** It succeeds exactly when the outputs hold the required ones, each as often. *)
Lemma remove_outputs_spec required outputs :
  is_Some (remove_all required outputs) <-> required ⊆+ outputs.
Proof.
  revert outputs. induction required as [|x required IH]; intros outputs; cbn.
  { split; [intros _; apply submseteq_nil_l|eauto]. }
  rewrite submseteq_cons_l. destruct (remove_output x outputs) as [rest|] eqn:Hr; cbn.
  - apply remove_output_Some in Hr. rewrite IH. split; [eauto|].
    intros (k' & Hk & Hsub). rewrite Hr in Hk. apply Permutation_cons_inv in Hk. by rewrite Hk.
  - apply remove_output_None in Hr. split; [by intros [? ?]|].
    intros (k' & Hk & _). destruct Hr. rewrite Hk. by left.
Qed.

Lemma remove_all_app r r' o : remove_all (r ++ r') o = o ← remove_all r o; remove_all r' o.
Proof.
  revert o. induction r as [|x r IH]; intros o; cbn; [done|].
  destruct (remove_output x o); cbn; auto.
Qed.

(** The output that pays an amount to an address *)
Definition payment (p : Address * Amount NonNegative) : Output := mkOutput p.2 (script p.1).

Lemma checked_sub_Some {C C2} `{Constraint C} `{Constraint C2} {L : ConstraintLaws C} {L2 : ConstraintLaws C2}
  (a : Amount C) (b : Amount C2) c :
  wf a -> wf b -> checked_sub a b = Some c <-> c = mk (zatoshis a - zatoshis b) /\ wf c.
Proof.
  intros Ha%wf_money Hb%wf_money. rewrite MAX_MONEY_val in *. unfold checked_sub, to_sint.
  rewrite (proj2 (in_sint_spec _ _)) by lia.
  destruct (try_from_i64 (zatoshis a - zatoshis b)) as [x|e|] eqn:Hx.
  - pose proof Hx as Hw%try_from_i64_wf. apply try_from_i64_Ok in Hx as [-> _]. naive_solver.
  - split; [done|]. intros [-> Hw%wf_range]. cbn [zatoshis] in Hw.
    by rewrite (proj2 (try_from_i64_Ok _ _) (conj eq_refl Hw)) in Hx.
  - split; [done|]. intros [-> Hw%wf_range]. cbn [zatoshis] in Hw.
    by rewrite (proj2 (try_from_i64_Ok _ _) (conj eq_refl Hw)) in Hx.
Qed.

(** ** The value a block creates *)

(** The value of a transaction over all pools but the deferred one: what it
    leaves to the miner. *)
Definition tx_sum (v : ValueBalance.ValueBalance NegativeAllowed) : Z :=
  zatoshis (ValueBalance.transparent v) + zatoshis (ValueBalance.sprout v)
  + zatoshis (ValueBalance.sapling v) + zatoshis (ValueBalance.orchard v)
  + zatoshis (ValueBalance.ironwood v).

Record tx_wf (tx : BlockTx) : Prop := {
  outputs_wf : Forall (fun o => wf (value o)) (outputs (body tx));
  joinsplits_wf : Forall wf (joinsplit_values tx);
  sapling_wf : wf (sapling_value tx);
  orchard_wf : wf (orchard_value tx);
  ironwood_wf : wf (ironwood_value tx);
}.

Definition utxos_wf (utxos : gmap OutPoint OrderedUtxo) : Prop :=
  map_Forall (fun _ u => wf (value (output (utxo u)))) utxos.

Lemma amount_sub_Ok (a b c : Amount NegativeAllowed) :
  wf a -> wf b -> Amount.sub a b = Ok c -> c = mk (zatoshis a - zatoshis b) /\ wf c.
Proof.
  intros Ha Hb. rewrite sub_spec by done. intros Hc. pose proof Hc as Hw%try_from_i64_wf.
  by apply try_from_i64_Ok in Hc as [-> _].
Qed.

Lemma remaining_value_Ok v r :
  ValuePools.vb_wf v -> ValueBalance.remaining_transaction_value v = Ok r ->
  zatoshis r = tx_sum v /\ wf r.
Proof.
  intros [] H. unfold ValueBalance.remaining_transaction_value, radd in H. res_inv.
  ValuePools.amount_inv. done.
Qed.

Lemma from_amount_wf (a : Amount NegativeAllowed) {E} :
  wf a ->
  (exists v, ValueBalance.from_transparent_amount (E := E) a = Ok v /\ ValuePools.vb_wf v /\ tx_sum v = zatoshis a) /\
  (exists v, ValueBalance.from_sprout_amount (E := E) a = Ok v /\ ValuePools.vb_wf v /\ tx_sum v = zatoshis a) /\
  (exists v, ValueBalance.from_sapling_amount (E := E) a = Ok v /\ ValuePools.vb_wf v /\ tx_sum v = zatoshis a) /\
  (exists v, ValueBalance.from_orchard_amount (E := E) a = Ok v /\ ValuePools.vb_wf v /\ tx_sum v = zatoshis a) /\
  (exists v, ValueBalance.from_ironwood_amount (E := E) a = Ok v /\ ValuePools.vb_wf v /\ tx_sum v = zatoshis a).
Proof.
  intros Ha. pose proof (zero_wf (C := NegativeAllowed)).
  unfold ValueBalance.from_transparent_amount, ValueBalance.from_sprout_amount,
    ValueBalance.from_sapling_amount, ValueBalance.from_orchard_amount,
    ValueBalance.from_ironwood_amount, ValueBalance.zero. rewrite !zero_Ok. cbn [res_bind].
  repeat split; (eexists; split; [done|]; split; [by split|unfold tx_sum; cbn; lia]).
Qed.

Lemma tx_sum_plus a b : tx_sum (ValuePools.vb_plus a b) = tx_sum a + tx_sum b.
Proof. unfold tx_sum. cbn. lia. Qed.

Lemma vb_add_sum (a b c : ValueBalance.ValueBalance NegativeAllowed) :
  ValuePools.vb_wf a -> ValuePools.vb_wf b -> ValueBalance.add a b = Ok c ->
  ValuePools.vb_wf c /\ tx_sum c = tx_sum a + tx_sum b.
Proof.
  intros Ha Hb [-> Hc]%ValuePools.vb_add_Ok; [|done..]. split; [done|apply tx_sum_plus].
Qed.

Definition tx_sums (vs : list (ValueBalance.ValueBalance NegativeAllowed)) : Z :=
  fold_right (fun v t => tx_sum v + t) 0 vs.

Lemma tx_sums_cons v vs : tx_sums (v :: vs) = tx_sum v + tx_sums vs.
Proof. done. Qed.

Lemma fold_add_sum {Tx} (txs : list Tx) f a v :
  (forall tx v, tx ∈ txs -> f tx = Ok v -> ValuePools.vb_wf v) -> ValuePools.vb_wf a ->
  foldl (fun acc tx => let? acc := acc in let? v := f tx in ValueBalance.add acc v) (Ok a) txs = Ok v ->
  ValuePools.vb_wf v /\
  exists vs, res_map f txs = Ok vs /\ tx_sum v = tx_sum a + tx_sums vs.
Proof.
  revert a. induction txs as [|tx txs IH]; intros a Hf Ha H; cbn [foldl res_bind] in H.
  { injection H as <-. split; [done|]. exists []. cbn. split; [done|lia]. }
  destruct (f tx) as [w|e|] eqn:Hw; cbn [res_bind] in H; [|by apply ValuePools.fold_changes_Err in H..].
  destruct (ValueBalance.add a w) as [b|e|] eqn:Hb; [|by apply ValuePools.fold_changes_Err in H..].
  apply vb_add_sum in Hb as [Hbw Hbs]; [|done|eapply Hf; [by left|done]].
  destruct (IH b) as (Hv & vs & Hvs & Hsum); [intros x y Hx; apply Hf; by right|done|done|].
  split; [done|]. exists (w :: vs). cbn [res_map]. rewrite Hw, Hvs. split; [done|]. rewrite tx_sums_cons. lia.
Qed.

Lemma sprout_value_balance_Ok tx v :
  Forall wf (joinsplit_values tx) -> sprout_value_balance tx = Ok v ->
  ValuePools.vb_wf v /\ tx_sum v = total (joinsplit_values tx).
Proof.
  intros Hwf H. unfold sprout_value_balance, ValueBalance.sum in H. res_inv.
  destruct (ValuePools.vb_zero_Ok (C := NegativeAllowed) (E := ValueBalance.ValueBalanceError))
    as (z & Hz & Hzwf & Hz0 & _). apply res_map_Ok in Ha.
  assert (Hws : Forall ValuePools.vb_wf a /\ tx_sums a = total (joinsplit_values tx)).
  { clear H. induction Ha as [|x w xs ws Hx _ IH]; [done|]. inversion_clear Hwf as [|? ? Hxw Hxs].
    destruct (from_amount_wf x (E := ValueBalance.ValueBalanceError) Hxw) as (_ & (w' & Hw' & Hww & Hws) & _).
    rewrite Hx in Hw'. injection Hw' as <-. destruct (IH Hxs) as [HF Hs]. split; [by constructor|].
    rewrite total_cons, tx_sums_cons. lia. }
  destruct Hws as [HF <-]. rewrite Hz in H.
  apply (fold_add_sum a Ok) in H as (Hv & vs & Hvs & ->); [|intros ? ? Hin [= <-]; by eapply Forall_forall|done].
  split; [done|]. assert (vs = a) as ->.
  { apply res_map_Ok in Hvs. clear -Hvs. induction Hvs; [done|]. congruence. }
  injection Hz as <-. done.
Qed.

Lemma transparent_balance_Ok tx utxos v :
  Forall (fun o => wf (value o)) (outputs tx) -> utxos_wf utxos ->
  transparent_value_balance_from_utxos tx utxos = Ok v ->
  ValuePools.vb_wf v /\
  exists ins, res_map (value_from_utxos (E := ValueBalance.ValueBalanceError) utxos) (inputs tx) = Ok ins /\
    tx_sum v = total ins - total (value <$> outputs tx).
Proof.
  intros Ho Hu H. unfold transparent_value_balance_from_utxos in H. res_inv.
  assert (Hins : Forall wf a).
  { apply res_map_Ok in Ha. clear -Ha Hu. induction Ha as [|x y xs ys Hx _ IH]; constructor; [|done].
    unfold value_from_utxos in Hx. destruct (outpoint x) as [op|].
    - res_inv. by eapply Hu.
    - rewrite zero_Ok in Hx. injection Hx as <-. apply zero_wf. }
  apply sum_non_negative_Ok in Ha0 as [-> Hm]; [|done].
  apply sum_non_negative_Ok in Ha2 as [-> Hm2]; [|by apply Forall_fmap].
  rewrite expect_ok_Ok in Ha1, Ha3.
  apply ValuePools.amount_constrain_Ok in Ha1 as [-> Hw1], Ha3 as [-> Hw3].
  apply amount_sub_Ok in Ha4 as [-> Hw]; [|done..].
  destruct (from_amount_wf _ (E := ValueBalance.ValueBalanceError) Hw) as ((w & Hw' & Hww & Hws) & _).
  rewrite Hw' in H. injection H as <-. split; [done|]. exists a. split; [done|]. rewrite Hws. done.
Qed.

(** What a transaction leaves over is what it takes from the pools. *)
Lemma value_balance_Ok tx utxos v :
  tx_wf tx -> utxos_wf utxos -> value_balance_from_utxos tx utxos = Ok v ->
  ValuePools.vb_wf v /\
  exists ins, res_map (value_from_utxos (E := ValueBalance.ValueBalanceError) utxos) (inputs (body tx)) = Ok ins /\
    tx_sum v = total ins - total (value <$> outputs (body tx)) + total (joinsplit_values tx)
      + zatoshis (sapling_value tx) + zatoshis (orchard_value tx) + zatoshis (ironwood_value tx).
Proof.
  intros [Ho Hj Hs Hor Hi] Hu H. unfold value_balance_from_utxos in H.
  apply res_bind_Ok in H as (t & Ht & H). apply res_bind_Ok in H as (sp & Hsp & H).
  apply sprout_value_balance_Ok in Hsp as [Hspw Hsps]; [|done].
  apply transparent_balance_Ok in Ht as (Htw & ins & Hins & Hts); [|done..].
  destruct (from_amount_wf (sapling_value tx) (E := ValueBalance.ValueBalanceError) Hs)
    as (_ & _ & (vs & Hvs & Hvsw & Hvss) & _).
  destruct (from_amount_wf (orchard_value tx) (E := ValueBalance.ValueBalanceError) Hor)
    as (_ & _ & _ & (vo & Hvo & Hvow & Hvos) & _).
  destruct (from_amount_wf (ironwood_value tx) (E := ValueBalance.ValueBalanceError) Hi)
    as (_ & _ & _ & _ & (vi & Hvi & Hviw & Hvis)).
  rewrite Hvs, Hvo, Hvi in H. cbn [res_bind] in H.
  apply res_bind_Ok in H as (a & [Haw Has]%vb_add_sum & H); [|done..].
  apply res_bind_Ok in H as (b & [Hbw Hbs]%vb_add_sum & H); [|done..].
  apply res_bind_Ok in H as (c & [Hcw Hcs]%vb_add_sum & H); [|done..].
  apply vb_add_sum in H as [Hw Hsum]; [|done..]. split; [done|]. exists ins. split; [done|]. lia.
Qed.

(** ** The subsidy check from Canopy on *)

Lemma match_disbursements_Ok b o l b' o' :
  wf b -> Forall wf l.*2 ->
  match_disbursements b o l = Ok (b', o') <->
  remove_all (payment <$> l) o = Some o' /\ b' = mk (zatoshis b - total l.*2) /\ wf b'.
Proof.
  intros Hb Hl. revert b o Hb. induction l as [|[addr x] l IH]; intros b o Hb; cbn [match_disbursements].
  { cbn. destruct b as [b]. cbn. rewrite Z.sub_0_r. naive_solver. }
  cbn [fmap list_fmap snd] in Hl. inversion_clear Hl as [|? ? Hx Hxs].
  cbn [fmap list_fmap remove_all snd]. rewrite total_cons.
  unfold remove_payment. change (mkOutput x (script addr)) with (payment (addr, x)).
  destruct (remove_output (payment (addr, x)) o) as [o1|]; cbn; [|naive_solver].
  pose proof (total_nonneg l.*2 Hxs). pose proof (proj1 (wf_non_negative _) Hx).
  pose proof (checked_sub_Some b x) as Hsub.
  destruct (checked_sub b x) as [b1|]; cbn [ok_or res_bind].
  - destruct (proj1 (Hsub b1 Hb Hx) eq_refl) as [-> Hw]. rewrite (IH Hxs _ _ Hw). cbn [zatoshis].
    by rewrite Z.sub_add_distr.
  - split; [done|]. intros (_ & -> & Hw). apply wf_negative_allowed in Hb, Hw. cbn in Hw.
    assert (Hw1 : wf (C := NegativeAllowed) (mk (zatoshis b - zatoshis x)))
      by (apply wf_negative_allowed; cbn; lia).
    by discriminate (proj2 (Hsub _ (proj2 (wf_negative_allowed b) Hb) Hx) (conj eq_refl Hw1)).
Qed.

(** The payments of the funding streams: each to its receiver's address. *)
Definition stream_payments (net : Network) (payees : Payees) (h : Z)
  (streams : list (FundingStreamReceiver * Amount NonNegative))
  (pays : list (Address * Amount NonNegative)) : Prop :=
  Forall2 (fun s p => funding_stream_address (E := BlockError) h net payees s.1 = Ok (Some p.1) /\ p.2 = s.2)
    streams pays.

Lemma match_streams_Ok net payees h o streams o' :
  match_streams net payees h o streams = Ok o' <->
  exists pays, stream_payments net payees h streams pays /\ remove_all (payment <$> pays) o = Some o'.
Proof.
  unfold stream_payments. revert o. induction streams as [|[r x] streams IH]; intros o; cbn [match_streams].
  { split; [intros [= <-]; exists []; by split|]. intros (pays & H & Hr). inversion H; subst. by injection Hr as <-. }
  split.
  - intros H. res_inv. apply IH in H as (pays & HF & Hr). exists ((a0, x) :: pays).
    split; [by constructor; subst|]. cbn. unfold remove_payment in Ha1.
    change (mkOutput x (script a0)) with (payment (a0, x)) in Ha1. by rewrite Ha1.
  - intros (pays & HF & Hr). inversion HF as [|? [addr y] ? pays' [Haddr Hy] HF']; subst.
    cbn in Haddr, Hy, Hr. subst y. rewrite Haddr. cbn [res_bind ok_or]. unfold remove_payment.
    change (mkOutput x (script addr)) with (payment (addr, x)).
    destruct (remove_output (payment (addr, x)) o) as [o1|]; [|done]. cbn. apply IH. eauto.
Qed.

(** The amount of the deferred pool among the values of the streams *)
Definition deferred_value (streams : list (FundingStreamReceiver * Amount NonNegative)) : Z :=
  match List.find (fun s => bool_decide (s.1 = Deferred)) streams with
  | Some s => zatoshis s.2
  | None => 0
  end.

Lemma lockbox_disbursements_wf {E} net payees h disb :
  Forall wf (custom_lockbox_disbursements payees).*2 ->
  lockbox_disbursements (E := E) net payees h = Ok disb ->
  Forall wf disb.*2 /\ (Some h <> activation_height Nu6_1 net -> disb = []).
Proof.
  intros Hc. unfold lockbox_disbursements.
  assert (Hpub : NU6_1_LOCKBOX_DISBURSEMENTS (E := E) (lockbox_recipient payees) = Ok disb -> Forall wf disb.*2).
  { intros [= <-]. repeat constructor. }
  destruct (bool_decide_reflect (Some h = activation_height Nu6_1 net)) as [Heq|Hne]; cbn [negb].
  - intros H. split; [|done]. destruct net as [|params]; [auto|].
    destruct (p_is_default_testnet params); [auto|]. by injection H as <-.
  - intros [= <-]. by split.
Qed.

(** The disbursements of the activation block of NU6.1, as the check matches them *)
Lemma match_lockbox net payees h b o b' o' :
  wf b -> Forall wf (custom_lockbox_disbursements payees).*2 ->
  (if bool_decide (Some h = activation_height Nu6_1 net) then
     let? disbursements := lockbox_disbursements net payees h in
     match disbursements with
     | [] => Err (Other "missing lockbox disbursements for NU6.1 activation block")
     | _ => map_err subsidy_error (match_disbursements b o disbursements)
     end
   else Ok (b, o)) = Ok (b', o') <->
  exists disb, lockbox_disbursements (E := BlockError) net payees h = Ok disb /\
    (Some h = activation_height Nu6_1 net -> disb <> []) /\
    remove_all (payment <$> disb) o = Some o' /\ b' = mk (zatoshis b - total disb.*2) /\ wf b'.
Proof.
  intros Hb Hc. pose proof (lockbox_disbursements_wf (E := BlockError) net payees h) as Hl.
  destruct (bool_decide_reflect (Some h = activation_height Nu6_1 net)) as [Heq|Hne].
  - destruct (lockbox_disbursements (E := BlockError) net payees h) as [disb|e|]; cbn [res_bind];
      [|naive_solver..].
    destruct (Hl disb Hc eq_refl) as [Hw _]. pose proof (match_disbursements_Ok b o disb b' o' Hb Hw) as Hm.
    destruct disb as [|x disb]; [naive_solver|]. rewrite map_err_Ok, Hm. naive_solver.
  - assert (Hnil : lockbox_disbursements (E := BlockError) net payees h = Ok []).
    { unfold lockbox_disbursements. by rewrite bool_decide_false. }
    split.
    + intros [= <- <-]. exists []. split; [done|]. split; [done|]. split; [done|].
      destruct b as [b]. cbn. by rewrite Z.sub_0_r.
    + intros (disb & Hd & _ & Hr & -> & _). rewrite Hnil in Hd. injection Hd as <-.
      destruct b as [b]. cbn in Hr |- *. rewrite Z.sub_0_r. by injection Hr as <-.
Qed.

Lemma subsidy_check_Ok net payees block h cb canopy subsidy d :
  net_wf net -> Height.valid h -> Forall streams_wf (all_funding_streams payees) ->
  Forall wf (custom_lockbox_disbursements payees).*2 -> 0 < zatoshis subsidy <= 2 ^ 33 ->
  coinbase_height block = Some h -> head (transactions block) = Some cb ->
  activation_height Canopy net = Some canopy -> canopy <= h ->
  subsidy_is_valid block net payees subsidy = Ok d <->
  exists streams disb pays,
    funding_stream_values h net (all_funding_streams payees) subsidy = Ok streams /\
    lockbox_disbursements (E := BlockError) net payees h = Ok disb /\
    (Some h = activation_height Nu6_1 net -> disb <> []) /\
    stream_payments net payees h (filter (fun s => s.1 <> Deferred) streams) pays /\
    (payment <$> disb ++ pays) ⊆+ outputs (body cb) /\
    d = mk (deferred_value streams - total disb.*2) /\ wf d.
Proof.
  intros Hnet [Hh _] Hall Hcust Hsub Hch Hcb Hcan Hle. unfold Height.MIN in Hh.
  unfold subsidy_is_valid. destruct subsidy as [s]. cbn [zatoshis] in Hsub.
  unfold is_zero. cbn [zatoshis]. rewrite (proj2 (Z.eqb_neq s 0)) by lia.
  rewrite Hch, Hcb. cbn [ok_or res_bind].
  destruct (current_Ok net h Hnet Hh) as (a & c & _ & Hc). rewrite Hc. cbn [res_bind].
  rewrite (current_ltb net h Canopy c Hnet Hh Hc), Hcan, (proj2 (Z.leb_le canopy h) Hle). cbn [negb].
  destruct (funding_stream_values_Ok net h (all_funding_streams payees) s Hnet Hh Hall ltac:(lia))
    as (streams & Hs & Hsw & _ & _).
  rewrite Hs. cbn [map_err res_bind]. rewrite zero_Ok. cbn [res_bind].
  set (def := default _ _).
  assert (Hdef : zatoshis def = deferred_value streams /\ wf def).
  { unfold def, deferred_value. destruct (List.find _ streams) as [x|] eqn:Hf; [|split; [done|apply zero_wf]].
    split; [done|]. apply find_some in Hf as [Hin%list_elem_of_In _].
    eapply Forall_forall; [exact Hsw|]. by apply (list_elem_of_fmap_2 snd _ x). }
  destruct Hdef as [Hdv Hdw].
  rewrite (proj2 (ValuePools.amount_constrain_Ok (C := NegativeAllowed) def _)
    (conj eq_refl (ValuePools.wf_widen def Hdw))). cbn [map_err res_bind].
  rewrite res_bind_Ok. split.
  - intros ((b' & o') & Hlock & H). apply match_lockbox in Hlock; [|by apply ValuePools.wf_widen|done].
    destruct Hlock as (disb & Hd & Hne & Hr & -> & Hw). res_inv.
    apply match_streams_Ok in Ha as (pays & Hp & Hrp). exists streams, disb, pays.
    rewrite <- Hdv. do 5 (split; [done || idtac|]); try done.
    rewrite fmap_app. apply remove_outputs_spec. rewrite remove_all_app, Hr. cbn. eauto.
  - intros (streams' & disb & pays & [= <-] & Hd & Hne & Hp & Hsubm & -> & Hw).
    rewrite fmap_app in Hsubm. apply remove_outputs_spec in Hsubm as [o2 Hr]. rewrite remove_all_app in Hr.
    apply bind_Some in Hr as (o1 & Hr1 & Hr2). exists (mk (deferred_value streams - total disb.*2), o1).
    split.
    + apply match_lockbox; [by apply ValuePools.wf_widen|done|]. exists disb. cbn [zatoshis ValuePools.cast_amount].
      rewrite Hdv. done.
    + rewrite (proj2 (match_streams_Ok _ _ _ _ _ o2)); [done|]. eauto.
Qed.

(** C18: From Canopy on, the subsidy check accepts a block exactly when its coinbase
    transaction pays what is due, each payment with an output of its own: the one-time
    lockbox disbursements at the activation of NU6.1, and the share of every funding
    stream to the address of its period.  It returns the change of the deferred pool:
    the share of the deferred stream less the disbursements. *)
Theorem subsidy_check_spec net payees block h cb canopy subsidy d :
  net_wf net -> Height.valid h -> Forall streams_wf (all_funding_streams payees) ->
  Forall wf (custom_lockbox_disbursements payees).*2 -> 0 < zatoshis subsidy <= 2 ^ 33 ->
  coinbase_height block = Some h -> head (transactions block) = Some cb ->
  activation_height Canopy net = Some canopy -> canopy <= h ->
  subsidy_is_valid block net payees subsidy = Ok d <->
  exists streams disb pays,
    funding_stream_values h net (all_funding_streams payees) subsidy = Ok streams /\
    lockbox_disbursements (E := BlockError) net payees h = Ok disb /\
    (Some h = activation_height Nu6_1 net -> disb <> []) /\
    stream_payments net payees h (filter (fun s => s.1 <> Deferred) streams) pays /\
    (payment <$> disb ++ pays) ⊆+ outputs (body cb) /\
    d = mk (deferred_value streams - total disb.*2) /\ wf d.
Proof. apply subsidy_check_Ok. Qed.

Lemma match_disbursements_wf b o l b' o' :
  wf b -> match_disbursements b o l = Ok (b', o') -> wf b'.
Proof.
  revert b o. induction l as [|[addr x] l IH]; intros b o Hb H; cbn [match_disbursements] in H.
  { by injection H as <- <-. }
  res_inv. eapply IH; [|done]. unfold checked_sub in Ha0. destruct (to_sint 64 _); [|done].
  destruct (try_from_i64 _) eqn:Ht; [|done..]. injection Ha0 as <-. by eapply try_from_i64_wf.
Qed.

Lemma subsidy_is_valid_wf block net payees subsidy d :
  subsidy_is_valid block net payees subsidy = Ok d -> wf d.
Proof.
  assert (Hz : Amount.zero (E := BlockError) = Ok d -> wf d) by (rewrite zero_Ok; intros [= <-]; apply zero_wf).
  unfold subsidy_is_valid. destruct (is_zero subsidy); [done|].
  intros (h & _ & (cb & _ & (nu & _ & H)%res_bind_Ok)%res_bind_Ok)%res_bind_Ok.
  destruct (nu_ltb nu Canopy).
  { apply res_bind_Ok in H as (b & _ & H). by apply res_bind_Ok in H as (? & _ & ?%Hz). }
  apply res_bind_Ok in H as (streams & _ & H). rewrite zero_Ok in H. cbn [res_bind] in H.
  apply res_bind_Ok in H as (b & Hb & H). apply map_err_Ok, ValuePools.amount_constrain_Ok in Hb as [_ Hb].
  apply res_bind_Ok in H as ([b' o'] & Hm & H). apply res_bind_Ok in H as (? & _ & [= <-]).
  destruct (bool_decide _); [|by injection Hm as <- <-].
  apply res_bind_Ok in Hm as ([|p disb] & _ & Hm); [done|]. rewrite map_err_Ok in Hm.
  by eapply match_disbursements_wf.
Qed.

(** ** The value a block creates *)

(** The part of the fees that leaves circulation: from NU7 on, 60 percent *)
Definition burned (net : Network) (h fees : Z) : Z :=
  match activation_height Nu7 net with
  | Some nu7 => if nu7 <=? h then 6 * fees / 10 else 0
  | None => 0
  end.

(** The fee of a transaction: what its value balance leaves over *)
Definition transaction_fee (utxos : gmap OutPoint OrderedUtxo) (tx : BlockTx) (fee : Amount NonNegative) : Prop :=
  exists v, value_balance_from_utxos tx utxos = Ok v /\ ValueBalance.remaining_transaction_value v = Ok fee.

Lemma fees_sum utxos txs vs fees total_fees :
  Forall tx_wf txs -> utxos_wf utxos ->
  res_map (fun tx => value_balance_from_utxos tx utxos) txs = Ok vs ->
  Forall2 (transaction_fee utxos) txs fees -> Amount.sum fees = Ok total_fees ->
  zatoshis total_fees = tx_sums vs /\ wf total_fees.
Proof.
  intros Htx Hu Hvs Hf Hsum. apply res_map_Ok in Hvs.
  assert (H : Forall wf fees /\ total fees = tx_sums vs).
  { clear Hsum. revert fees Hf. induction Hvs as [|tx v txs vs Hv _ IH]; intros fees Hf; inversion Hf as [|? fee ? fees' (v' & Hv' & Hr) Hf']; subst; [done|].
    inversion_clear Htx as [|? ? Hw Hws]. rewrite Hv in Hv'. injection Hv' as <-.
    apply value_balance_Ok in Hv as [Hvw _]; [|done..]. apply remaining_value_Ok in Hr as [Hr Hrw]; [|done].
    destruct (IH Hws fees' Hf') as [HF Ht]. split; [by constructor|]. rewrite total_cons, tx_sums_cons. lia. }
  destruct H as [HF <-]. apply sum_non_negative_Ok in Hsum as [-> Hm]; [|done].
  split; [done|]. apply wf_non_negative. cbn. pose proof (total_nonneg fees HF). lia.
Qed.

Lemma coinbase_tx_sum tx utxos v :
  tx_wf tx -> utxos_wf utxos -> is_coinbase (body tx) = true -> joinsplit_values tx = [] ->
  value_balance_from_utxos tx utxos = Ok v ->
  tx_sum v = zatoshis (sapling_value tx) + zatoshis (orchard_value tx) + zatoshis (ironwood_value tx)
    - total (value <$> outputs (body tx)).
Proof.
  intros Hw Hu Hc Hj Hv. apply value_balance_Ok in Hv as (_ & ins & Hins & ->); [|done..].
  unfold is_coinbase in Hc. destruct (inputs (body tx)) as [|[] []]; try done.
  cbn in Hins. injection Hins as <-. rewrite Hj. cbn. lia.
Qed.

Lemma total_change net h txs d f ch :
  (forall tx v, tx ∈ txs -> f tx = Ok v -> ValuePools.vb_wf v) ->
  ValueBalance.chain_value_pool_change_from_utxos (Tx := BlockTx) (Some h) txs net (Some d) f = Ok ch ->
  exists vs, res_map f txs = Ok vs /\ ValuePools.pool_sum ch = zatoshis d - tx_sums vs.
Proof.
  intros Hf H. unfold ValueBalance.chain_value_pool_change_from_utxos in H.
  destruct (ValuePools.vb_zero_Ok (C := NegativeAllowed) (E := ValueBalance.ValueBalanceError))
    as (z & Hz & Hzwf & Hz0 & _).
  rewrite Hz in H. apply res_bind_Ok in H as (s & Hs & H).
  apply fold_add_sum in Hs as (Hsw & vs & Hvs & Hsum); [|done..]. exists vs. split; [done|].
  rewrite ValuePools.vb_neg_Ok, zero_Ok in H by done. cbn [res_bind] in H.
  apply res_bind_Ok in H as (n & _ & [= <-]). injection Hz as <-. unfold tx_sum in Hsum at 2. cbn in Hsum.
  unfold ValuePools.pool_sum. cbn. unfold tx_sum in Hsum. lia.
Qed.

Lemma miner_fees_Ok cb h net fees subsidy d :
  net_wf net -> Height.valid h -> tx_wf cb -> wf d -> wf subsidy -> wf fees ->
  miner_fees_are_valid cb h fees subsidy d net = Ok tt ->
  let out := total (value <$> outputs (body cb)) - zatoshis (sapling_value cb)
    - zatoshis (orchard_value cb) - zatoshis (ironwood_value cb) + zatoshis d in
  let due := zatoshis subsidy + zatoshis fees - burned net h (zatoshis fees) in
  out <= due /\ (forall nu6, activation_height Nu6 net = Some nu6 -> nu6 <= h -> out = due).
Proof.
  intros Hnet Hh [Ho _ Hs Hor Hi] Hd Hsub Hfees H. unfold miner_fees_are_valid in H.
  apply res_bind_Ok in H as (t & Ht & H). rewrite map_err_Ok in Ht.
  apply sum_non_negative_Ok in Ht as [-> Ht]; [|by apply Forall_fmap].
  apply res_bind_Ok in H as (t' & Ht' & H). rewrite map_err_Ok in Ht'.
  apply ValuePools.amount_constrain_Ok in Ht' as [-> Htw].
  apply res_bind_Ok in H as (out & Hout & H). rewrite map_err_Ok in Hout. unfold radd, rsub in Hout.
  apply res_bind_Ok in Hout as (x & Hx & Hout). apply res_bind_Ok in Hx as (y & Hy & Hx).
  apply res_bind_Ok in Hy as (z & Hz & Hy).
  apply amount_sub_Ok in Hz as [-> Hzw]; [|done..]. apply amount_sub_Ok in Hy as [-> Hyw]; [|done..].
  apply amount_sub_Ok in Hx as [-> Hxw]; [|done..].
  apply ValuePools.amount_add_Ok in Hout as [-> Howf]; [|done..].
  destruct (miner_fee_share_split (E := BlockError) net h fees Hnet Hh Hfees) as (share & Hshare & Hshw & Hshv).
  rewrite Hshare in H. cbn [res_bind] in H. apply res_bind_Ok in H as (due & Hdue & H). rewrite map_err_Ok in Hdue.
  apply ValuePools.amount_add_Ok in Hdue as [-> _]; [|done..]. cbn in *.
  fold (burned net h (zatoshis fees)) in Hshv.
  destruct Hh as [Hh0 _]. unfold Height.MIN in Hh0.
  destruct (current_Ok net h Hnet Hh0) as (a & c & _ & Hc). rewrite Hc in H. cbn [res_bind] in H.
  pose proof (current_ltb net h Nu6 c Hnet Hh0 Hc) as Hlt. destruct (nu_ltb c Nu6).
  - match type of H with context [?x <? ?y] => destruct (Z.ltb_spec x y); [done|] end.
    split; [lia|]. intros nu6 Hnu6 Hle. rewrite Hnu6 in Hlt. by rewrite (proj2 (Z.leb_le nu6 h) Hle) in Hlt.
  - match type of H with context [?x =? ?y] => destruct (Z.eqb_spec x y); [|done] end.
    split; [lia|]. intros. lia.
Qed.

(** C19: A block creates what it is due.  When a block passes the subsidy check and the
    miner fees check, with the fees its transactions leave over, its change of the chain
    value pools adds up to at most the block subsidy less the part of the fees that
    leaves circulation, and to exactly that from NU6 on. *)
Theorem block_creates_subsidy net payees block h cb rest utxos subsidy d fees block_fees ch :
  net_wf net -> Height.valid h -> wf subsidy -> utxos_wf utxos ->
  transactions block = cb :: rest -> Forall tx_wf (cb :: rest) ->
  is_coinbase (body cb) = true -> joinsplit_values cb = [] ->
  subsidy_is_valid block net payees subsidy = Ok d ->
  Forall2 (transaction_fee utxos) rest fees -> Amount.sum fees = Ok block_fees ->
  miner_fees_are_valid cb h block_fees subsidy d net = Ok tt ->
  ValueBalance.chain_value_pool_change_from_utxos (Some h) (transactions block) net (Some d)
    (fun tx => value_balance_from_utxos tx utxos) = Ok ch ->
  let due := zatoshis subsidy - burned net h (zatoshis block_fees) in
  ValuePools.pool_sum ch <= due /\
  (forall nu6, activation_height Nu6 net = Some nu6 -> nu6 <= h -> ValuePools.pool_sum ch = due).
Proof.
  intros Hnet Hh Hsub Hu Htxs Hw Hcb Hj Hd Hfees Hsum Hminer Hch due. rewrite Htxs in Hch.
  apply subsidy_is_valid_wf in Hd.
  apply total_change in Hch as (vs & Hvs & Hps).
  2: { intros tx v Hin Hv. rewrite Forall_forall in Hw. by apply value_balance_Ok in Hv as [? _]; [|apply Hw|]. }
  inversion_clear Hw as [|? ? Hwc Hwr]. cbn [res_map] in Hvs.
  apply res_bind_Ok in Hvs as (vc & Hvc & Hvs). apply res_bind_Ok in Hvs as (vr & Hvr & [= <-]).
  apply coinbase_tx_sum in Hvc; [|done..].
  destruct (fees_sum utxos rest vr fees block_fees Hwr Hu Hvr Hfees Hsum) as [Hbf Hbw].
  apply miner_fees_Ok in Hminer as [Hle Heq]; [|done..]. rewrite tx_sums_cons in Hps.
  unfold due. split; [lia|]. intros nu6 Hnu6 Hact. specialize (Heq nu6 Hnu6 Hact). lia.
Qed.

(** ** Shielded limits *)

(** The counts are lengths of lists. *)
Definition counts_wf (tx : BlockTx) : Prop :=
  0 <= orchard_action_count tx /\ 0 <= ironwood_action_count tx /\ 0 <= sapling_spend_count tx /\
  0 <= sapling_output_count tx /\ 0 <= joinsplit_count tx.

Definition count_of (f : BlockTx -> Z) (txs : list BlockTx) : Z := fold_right (fun tx t => f tx + t) 0 txs.

Lemma count_of_cons f tx txs : count_of f (tx :: txs) = f tx + count_of f txs.
Proof. done. Qed.

(** The saturating totals are the exact totals, cut off at the maximum. *)
Lemma totals_exact txs :
  Forall counts_wf txs -> forall acc,
  0 <= orchard_actions acc -> 0 <= ironwood_actions acc -> 0 <= sapling_ios acc -> 0 <= sprout_joinsplits acc ->
  let totals := foldl counts_saturating_add
    (mkCounts (u32_sat (orchard_actions acc)) (u32_sat (ironwood_actions acc)) (u32_sat (sapling_ios acc))
       (u32_sat (sprout_joinsplits acc))) (shielded_action_counts <$> txs) in
  totals = mkCounts (u32_sat (orchard_actions acc + count_of orchard_action_count txs))
    (u32_sat (ironwood_actions acc + count_of ironwood_action_count txs))
    (u32_sat (sapling_ios acc + count_of (fun tx => sapling_spend_count tx + sapling_output_count tx) txs))
    (u32_sat (sprout_joinsplits acc + count_of joinsplit_count txs)) /\
  0 <= count_of orchard_action_count txs /\ 0 <= count_of ironwood_action_count txs /\
  0 <= count_of (fun tx => sapling_spend_count tx + sapling_output_count tx) txs /\
  0 <= count_of joinsplit_count txs.
Proof.
  induction 1 as [|tx txs (H1 & H2 & H3 & H4 & H5) _ IH]; intros acc A1 A2 A3 A4; cbn [fmap list_fmap foldl].
  { cbn. rewrite !Z.add_0_r. done. }
  rewrite !count_of_cons.
  pose (acc' := mkCounts (orchard_actions acc + orchard_action_count tx)
    (ironwood_actions acc + ironwood_action_count tx)
    (sapling_ios acc + (sapling_spend_count tx + sapling_output_count tx))
    (sprout_joinsplits acc + joinsplit_count tx)).
  destruct (IH acc') as (Ht & ?); [cbn; lia..|].
  replace (counts_saturating_add _ _) with (mkCounts (u32_sat (orchard_actions acc'))
    (u32_sat (ironwood_actions acc')) (u32_sat (sapling_ios acc')) (u32_sat (sprout_joinsplits acc')))
    by (unfold counts_saturating_add, shielded_action_counts, u32_sat, u32_max; cbn; f_equal; lia).
  rewrite Ht.
  cbn [orchard_actions ironwood_actions sapling_ios sprout_joinsplits acc'].
  rewrite !Z.add_assoc. split; [done|lia].
Qed.

(** From NU7 on a block passes the shielded limits exactly when the true numbers of
    its shielded actions do, although they are counted in saturating 32-bit integers:
    no block wraps or saturates its way under a limit. *)
Lemma shielded_limits_exact net h nu7 txs :
  net_wf net -> Height.valid h -> activation_height Nu7 net = Some nu7 -> nu7 <= h ->
  Forall counts_wf txs ->
  let orchard := count_of orchard_action_count txs in
  let ironwood := count_of ironwood_action_count txs in
  let sapling := count_of (fun tx => sapling_spend_count tx + sapling_output_count tx) txs in
  let joinsplits := count_of joinsplit_count txs in
  shielded_action_limits_are_valid txs h net = Ok tt <->
  orchard <= 330 /\ ironwood <= 330 /\ sapling <= 300 /\ joinsplits <= 0 /\
  orchard + ironwood + sapling + 2 * joinsplits <= 330.
Proof.
  intros Hnet [Hh _] Hnu7 Hle Hwf. unfold Height.MIN in Hh. unfold shielded_action_limits_are_valid, is_nu7_active.
  destruct (totals_exact txs Hwf (mkCounts 0 0 0 0)) as (Ht & Ho & Hi & Hs & Hj); [cbn; lia..|].
  cbn [orchard_actions ironwood_actions sapling_ios sprout_joinsplits] in Ht.
  change (mkCounts (u32_sat 0) (u32_sat 0) (u32_sat 0) (u32_sat 0)) with (mkCounts 0 0 0 0) in Ht.
  rewrite !Z.add_0_l in Ht. rewrite Ht. unfold counts_cost.
  cbn [orchard_actions ironwood_actions sapling_ios sprout_joinsplits].
  destruct (current_Ok net h Hnet Hh) as (a & c & _ & Hc). rewrite Hc. cbn [res_bind].
  pose proof (proj2 (current_ge net h Nu7 c Hnet Hh (Hc unit)) (ex_intro _ nu7 (conj Hnu7 Hle))) as Hge.
  unfold nu_leb. rewrite (proj2 (Z.leb_le _ _) Hge). cbn [negb].
  unfold u32_sat, u32_max, ORCHARD_PROTOCOL_BLOCK_ACTION_LIMIT, SAPLING_BLOCK_IO_LIMIT,
    SPROUT_BLOCK_JOINSPLIT_LIMIT, GLOBAL_SHIELDED_BUDGET.
  repeat (match goal with |- context [?x <? ?y] => destruct (Z.ltb_spec x y) end; [split; [done|lia]|]).
  split; [lia|done].
Qed.

(** ** Examples *)

(** A configured network with a funding stream, a deferred stream and a lockbox
    disbursement. *)
Definition payee_network : Network := Testnet {|
  p_is_default_testnet := false;
  p_is_regtest := false;
  p_activation_heights := [(0, Genesis); (2, Canopy); (5, Nu6); (7, Nu6_1); (9, Nu7)];
  p_slow_start_interval := 0;
  p_slow_start_shift := 0;
  p_funding_streams := [];
  p_target_difficulty_limit := 2 ^ 251 - 1;
  p_disable_pow := true;
  p_max_block_time_start_height := 0;
  p_should_allow_unshielded_coinbase_spends := false;
  p_pre_blossom_halving_interval := 144;
  p_post_blossom_halving_interval := 288;
  p_temporary_orchard_disabling_soft_fork_height := None;
  p_initial_nsm_value_balance := None;
|}.

Lemma payee_network_wf : net_wf payee_network.
Proof.
  split; cbn; try lia; try reflexivity; try done.
  - apply entries_sortedb_spec. reflexivity.
  - apply entries_validb_spec. reflexivity.
Qed.

Definition sample_streams : FundingStreams := {|
  fs_start := 3; fs_end := 200;
  fs_recipients := [(Ecc, (7, 3%nat)); (Deferred, (12, 0%nat))] |}.
Definition pay_to (b : Z) : Address := PayToPublicKeyHash KindTestnet (replicate 20 b).
Definition sample_payees : Payees :=
  mkPayees [sample_streams] (fun _ _ => pay_to <$> [11; 12; 13]) [] (pay_to 2) [(pay_to 3, mk 5)].

Definition header_with (root : Hash) : Header :=
  mkHeader 4 0 root (replicate 32 0) 0 0 (replicate 32 0) (Regtest (replicate 36 0)).
Definition tx_with (ins : list Input) (outs : list Output) (id : Hash) : BlockTx :=
  mkBlockTx (mkTransaction ins outs [] [] [] [] None 5 None) id None [] (mk 0) (mk 0) (mk 0) 0 0 0 0 0.

(** The activation block of NU6.1: the miner, the stream and the disbursement *)
Definition coinbase7 : BlockTx :=
  tx_with [Coinbase 7 [] 0]
    [payment (pay_to 9, mk 506250000); payment (pay_to 12, mk 43750000); payment (pay_to 3, mk 5)] 1.
Definition block7 : Block := mkBlock (header_with 0) [coinbase7].

Lemma subsidy_check_spec_witness :
  subsidy_is_valid block7 payee_network sample_payees (mk 625000000) = Ok (mk (75000000 - 5)).
Proof.
  apply (subsidy_check_spec payee_network sample_payees block7 7 coinbase7 2 (mk 625000000)
    (mk (75000000 - 5)) payee_network_wf).
  - split; vm_compute; discriminate.
  - repeat constructor; vm_compute; discriminate.
  - repeat constructor.
  - cbn. lia.
  - reflexivity.
  - reflexivity.
  - reflexivity.
  - lia.
  - exists [(Ecc, mk 43750000); (Deferred, mk 75000000)], [(pay_to 3, mk 5)], [(pay_to 12, mk 43750000)].
    split; [vm_compute; reflexivity|]. split; [vm_compute; reflexivity|]. split; [done|].
    split; [constructor; [split; vm_compute; reflexivity|constructor]|].
    split; [apply remove_outputs_spec; vm_compute; eauto|]. split; reflexivity.
Defined.

(** A block under NU7 with one payment that leaves a fee of 1000 zatoshis *)
Definition coinbase10 : BlockTx :=
  tx_with [Coinbase 10 [] 0]
    [payment (pay_to 9, mk (168750001 + 400)); payment (pay_to 12, mk 14583333)] 1.
Definition payment10 : BlockTx :=
  tx_with [PrevOut (mkOutPoint 5 0) [] 0] [payment (pay_to 8, mk 2000)] 2.
Definition block10 : Block := mkBlock (header_with 0) [coinbase10; payment10].
Definition utxos10 : gmap OutPoint OrderedUtxo :=
  {[ mkOutPoint 5 0 := new_ordered_utxo (payment (pay_to 7, mk 3000)) 4 1 ]}.

Lemma block_creates_subsidy_witness :
  exists ch,
  ValueBalance.chain_value_pool_change_from_utxos (Some 10) (transactions block10) payee_network
    (Some (mk 24999999)) (fun tx => value_balance_from_utxos tx utxos10) = Ok ch /\
  ValuePools.pool_sum ch = 208333333 - 600.
Proof.
  eexists. split; [vm_compute; reflexivity|].
  apply (block_creates_subsidy payee_network sample_payees block10 10 coinbase10 [payment10] utxos10
    (mk 208333333) (mk 24999999) [mk 1000] (mk 1000) _ payee_network_wf) with (nu6 := 5).
  - split; vm_compute; discriminate.
  - reflexivity.
  - apply map_Forall_singleton. reflexivity.
  - reflexivity.
  - repeat constructor.
  - reflexivity.
  - reflexivity.
  - vm_compute. reflexivity.
  - constructor; [|constructor]. eexists. split; [vm_compute; reflexivity|vm_compute; reflexivity].
  - vm_compute. reflexivity.
  - vm_compute. reflexivity.
  - vm_compute. reflexivity.
  - reflexivity.
  - lia.
Defined.

(** A list of ids that passes the Merkle root check under the toy digest *)
Lemma merkle_check_binds_ids_witness :
  exists block, merkle_root_validity payee_network block [1; 2] = Ok tt /\
  ([1; 2] = [1; 2] \/
   exists P P', hashed [1; 2] P /\ hashed [1; 2] P' /\
     (collision (P ++ P') \/ node_id P' [1; 2] \/ node_id P [1; 2])).
Proof.
  exists (mkBlock (header_with 1) (transactions block10)).
  assert (H : merkle_root_validity payee_network (mkBlock (header_with 1) (transactions block10)) [1; 2]
    = Ok tt) by (vm_compute; reflexivity).
  split; [exact H|].
  apply (merkle_check_binds_ids payee_network payee_network _ _ [1; 2] [1; 2] H H eq_refl).
Defined.
End BlockCheckFacts.
