(* ===== verification/CheckpointList.v ===== *)
(** * Checkpoint lists

    [zakura-chain/src/parameters/checkpoint/list.rs]: the checkpoints of a
    network, a [BTreeMap] from heights to block hashes that is checked when it is
    built. *)

From stdpp Require Import base numbers strings list option gmap sets sorting.
From Stdlib Require Import ZArith Lia.
From S2P Require Import Prelude Height BTree HashIter Dependencies Transparent Merkle.
Local Open Scope Z_scope.
Local Notation length := List.length.

(** [Iterator::rposition] on a slice of keys *)
Fixpoint rposition (p : Z -> bool) (l : list Z) : option nat :=
  match l with
  | [] => None
  | k :: l =>
      match rposition p l with
      | Some i => Some (S i)
      | None => if p k then Some 0%nat else None
      end
  end.

Module CheckpointList.
Import Merkle.

(** The map itself *)
Abbreviation CheckpointList := (list (Z * Hash)).

Definition contains (self : CheckpointList) (height : Z) : bool := bt_contains_key height self.

Definition hash (self : CheckpointList) (height : Z) : option Hash := bt_get height self.

Definition min_height_in_range {E} (self : CheckpointList) (start end_ : Bound) : res E (option Z) :=
  let? range := bt_range start end_ self in Ok (head range.*1).

Definition max_height_in_range {E} (self : CheckpointList) (start end_ : Bound) : res E (option Z) :=
  let? range := bt_range start end_ self in Ok (last range.*1).

Definition max_height {E} (self : CheckpointList) : res E Z :=
  let? max := max_height_in_range self Unbounded Unbounded in expect max.

Definition checkpoint_at_or_before (self : CheckpointList) (height : Z) : option (Z * Hash) :=
  bt_last_le height self.

Definition checkpoint_after (self : CheckpointList) (height : Z) : option (Z * Hash) :=
  bt_first_gt height self.

Definition prev_checkpoint_index {E} (self : CheckpointList) (height : Z) : res E nat :=
  expect (rposition (fun key => key <=? height) self.*1).

Definition NULL_HASH : Hash := 0.

Definition from_list (list : list (Z * Hash)) : res string CheckpointList :=
  let original_len := length list in
  let checkpoints := bt_collect list in
  let? _ :=
    match checkpoints with
    | (height, _) :: _ =>
        if height =? 0 then Ok tt else Err "checkpoints must start at the genesis block height 0"%string
    | [] => Err "there must be at least one checkpoint, for the genesis block"%string
    end in
  if negb (Nat.eqb (length checkpoints) original_len) then Err "checkpoint heights must be unique"%string
  else
    let block_hashes := (list_to_set checkpoints.*2 : gset Hash) in
    if negb (Nat.eqb (size block_hashes) original_len) then Err "checkpoint hashes must be unique"%string
    else if bool_decide (NULL_HASH ∈ block_hashes) then
      Err "checkpoint list contains invalid checkpoint hash: found null hash"%string
    else
      let? max := max_height checkpoints in
      if Height.MAX <? max then
        Err "checkpoint list contains invalid checkpoint: checkpoint height is greater than the maximum block height"%string
      else Ok checkpoints.

(** ** Facts *)

(** What [from_list] establishes *)
Record list_wf (self : CheckpointList) : Prop := {
  lw_sorted : bt_wf self;
  lw_genesis : exists hash rest, self = (0, hash) :: rest;
  lw_heights : Forall (fun c => Height.valid c.1) self;
  lw_unique : NoDup self.*2;
  lw_null : NULL_HASH ∉ self.*2;
}.

Lemma last_sorted (l : list Z) x : StronglySorted Z.lt l -> last l = Some x <-> x ∈ l /\ forall y, y ∈ l -> y <= x.
Proof.
  intros Hs. split.
  - intros Hl. apply last_Some in Hl as [l' ->]. split; [apply elem_of_app; right; by left|].
    intros y [Hy|Hy%list_elem_of_singleton]%elem_of_app; [|lia].
    apply StronglySorted_app in Hs as (Hlt & _). specialize (Hlt y x Hy ltac:(by left)). lia.
  - intros [Hx Hmax]. destruct (last l) as [z|] eqn:Hl.
    + apply last_Some in Hl as [l' ->]. f_equal.
      assert (x <= z).
      { apply elem_of_app in Hx as [Hx|Hx%list_elem_of_singleton]; [|lia].
        apply StronglySorted_app in Hs as (Hlt & _). specialize (Hlt x z Hx ltac:(by left)). lia. }
      specialize (Hmax z ltac:(apply elem_of_app; right; by left)). lia.
    + apply last_None in Hl as ->. by apply not_elem_of_nil in Hx.
Qed.

Lemma filter_wf {V} (P : Z -> bool) (m : list (Z * V)) :
  bt_wf m -> StronglySorted Z.lt (filter (fun kv => P kv.1) m).*1.
Proof.
  unfold bt_wf. induction m as [|[k v] m IH]; intros Hm; [constructor|].
  cbn [fmap list_fmap] in Hm. inversion_clear Hm as [|? ? Hs Hk].
  rewrite filter_cons. destruct (decide (P (k, v).1)); [|by apply IH]. cbn. constructor; [by apply IH|].
  rewrite Forall_fmap in Hk |- *. rewrite Forall_forall in Hk |- *.
  intros x [_ Hx]%list_elem_of_filter. by apply Hk.
Qed.

Lemma elem_of_filter_keys {V} (P : Z -> bool) (m : list (Z * V)) k :
  bt_wf m -> k ∈ (filter (fun kv => P kv.1) m).*1 <-> is_Some (bt_get k m) /\ P k = true.
Proof.
  intros Hm. rewrite list_elem_of_fmap. split.
  - intros ([k' v] & -> & [HP Hin]%list_elem_of_filter). cbn in *.
    apply bt_get_Some in Hin; [|done]. split; [eauto|]. by apply Is_true_eq_true.
  - intros [[v Hv] HP]. exists (k, v). split; [done|]. apply list_elem_of_filter.
    split; [by apply Is_true_eq_left|]. by apply bt_get_Some in Hv.
Qed.

(** The highest checkpoint of a range *)
Lemma max_height_in_range_Ok {E} self start end_ :
  bt_wf self -> range_valid start end_ = true ->
  exists o, max_height_in_range (E := E) self start end_ = Ok o /\
  match o with
  | Some k => is_Some (hash self k) /\ above start k && below end_ k = true /\
      forall j, is_Some (hash self j) -> above start j && below end_ j = true -> j <= k
  | None => forall j, is_Some (hash self j) -> above start j && below end_ j = false
  end.
Proof.
  intros Hm Hv. unfold max_height_in_range, bt_range, rust_assert. rewrite Hv. cbn [res_bind].
  eexists. split; [done|]. unfold hash. set (P := fun k => above start k && below end_ k).
  pose proof (filter_wf P self Hm) as Hs.
  destruct (last _) as [k|] eqn:Hl.
  - apply last_sorted in Hl as [Hin Hmax]; [|done]. apply (elem_of_filter_keys P) in Hin as [Hk HP]; [|done].
    split; [done|]. split; [done|]. intros j Hj HPj. apply Hmax. by apply (elem_of_filter_keys P).
  - apply last_None in Hl. intros j Hj. apply not_true_is_false. intros HP.
    assert (Hin : j ∈ (filter (fun kv => P kv.1) self).*1) by (by apply elem_of_filter_keys).
    unfold P in Hin. rewrite Hl in Hin. by apply not_elem_of_nil in Hin.
Qed.

Lemma hash_valid self h : list_wf self -> is_Some (hash self h) -> Height.valid h.
Proof.
  intros Hw [x Hx]. apply bt_get_Some in Hx; [|apply Hw].
  pose proof (lw_heights self Hw) as Hh. rewrite Forall_forall in Hh. by apply (Hh (h, x)).
Qed.

Lemma contains_hash self h : contains self h = true <-> is_Some (hash self h).
Proof. unfold contains, bt_contains_key, hash. destruct (bt_get h self); [by eauto|]. split; [done|by intros []]. Qed.

(** The maximum is the same whatever the error type is, so it has a value of its own. *)
Definition max_of (self : CheckpointList) : Z := default 0 (last self.*1).

Lemma max_height_Ok {E} self :
  list_wf self -> max_height (E := E) self = Ok (max_of self) /\ is_Some (hash self (max_of self)) /\
    forall h, is_Some (hash self h) -> h <= max_of self.
Proof.
  intros Hw. pose proof (lw_sorted self Hw) as Hs. unfold max_height, max_height_in_range, bt_range. cbn.
  replace (filter _ self) with self.
  2: { clear. induction self as [|x self IH]; [done|]. rewrite filter_cons, decide_True by done. by f_equal. }
  unfold max_of. destruct (last self.*1) as [m|] eqn:Hl.
  - apply last_sorted in Hl as [Hin Hmax]; [|done]. cbn. split; [done|]. unfold hash. split.
    + apply list_elem_of_fmap in Hin as ([k v] & -> & Hin). apply bt_get_Some in Hin; eauto.
    + intros h [x Hx]. apply Hmax. apply bt_get_Some in Hx; [|done]. apply list_elem_of_fmap. by exists (h, x).
  - apply last_None in Hl. destruct (lw_genesis self Hw) as (x & rest & ->). done.
Qed.

Lemma rposition_Some p l k : k ∈ l -> p k = true -> is_Some (rposition p l).
Proof.
  intros Hk Hp. induction l as [|x l IH]; [by apply not_elem_of_nil in Hk|]. cbn.
  destruct (rposition p l) as [i|]; [eauto|]. apply elem_of_cons in Hk as [->|Hk]; [rewrite Hp; eauto|].
  by destruct (IH Hk).
Qed.

Lemma prev_checkpoint_index_Ok {E} self h :
  list_wf self -> 0 <= h -> exists i, prev_checkpoint_index (E := E) self h = Ok i.
Proof.
  intros Hw Hh. unfold prev_checkpoint_index. destruct (lw_genesis self Hw) as (x & rest & ->).
  destruct (rposition_Some (fun key => key <=? h) ((0, x) :: rest).*1 0) as [i ->];
    [by left|by apply Z.leb_le|]. by exists i.
Qed.

(** ** Construction *)

Lemma bt_insert_incl {V} k (v : V) m e : e ∈ bt_insert k v m -> e = (k, v) \/ e ∈ m.
Proof.
  induction m as [|[k' v'] m IH]; cbn; [rewrite list_elem_of_singleton; auto|].
  destruct (k <? k'); [rewrite elem_of_cons; tauto|]. destruct (k =? k'); rewrite ?elem_of_cons; tauto.
Qed.

Lemma bt_collect_incl {V} (l : list (Z * V)) e : e ∈ bt_collect l -> e ∈ l.
Proof.
  unfold bt_collect, bt_extend. assert (H : forall m, e ∈ fold_left (fun m kv => bt_insert kv.1 kv.2 m) l m ->
    e ∈ l \/ e ∈ m).
  { induction l as [|[k v] l IH]; intros m; cbn; [by right|]. intros [H|H]%IH; rewrite elem_of_cons; [tauto|].
    apply bt_insert_incl in H. tauto. }
  intros [?|He]%H; [done|]. by apply not_elem_of_nil in He.
Qed.

Lemma bt_insert_length {V} k (v : V) m : (length (bt_insert k v m) <= S (length m))%nat.
Proof.
  induction m as [|[k' v'] m IH]; cbn; [done|]. destruct (k <? k'); [done|]. destruct (k =? k'); cbn; lia.
Qed.

Lemma bt_insert_elem {V} k (v : V) m : (k, v) ∈ bt_insert k v m.
Proof.
  induction m as [|[k' v'] m IH]; cbn; [by left|].
  destruct (k <? k'); [by left|]. destruct (k =? k'); [by left|by right].
Qed.

Lemma bt_insert_grow {V} k (v : V) m e : length (bt_insert k v m) = S (length m) -> e ∈ m -> e ∈ bt_insert k v m.
Proof.
  induction m as [|[k' v'] m IH]; cbn; [by right|].
  destruct (k <? k'); [by right|]. destruct (k =? k'); cbn; [lia|].
  intros [= Hlen]. rewrite !elem_of_cons. intros [?|?]; [by left|right; auto].
Qed.

Lemma bt_extend_length {V} (l m : list (Z * V)) : (length (bt_extend m l) <= length l + length m)%nat.
Proof.
  unfold bt_extend. revert m. induction l as [|[k v] l IH]; intros m; cbn; [done|].
  specialize (IH (bt_insert k v m)). pose proof (bt_insert_length k v m). lia.
Qed.

Lemma bt_extend_complete {V} (l m : list (Z * V)) e :
  length (bt_extend m l) = (length l + length m)%nat -> e ∈ l \/ e ∈ m -> e ∈ bt_extend m l.
Proof.
  revert m. induction l as [|[k v] l IH]; intros m Hlen He; cbn in *.
  { destruct He as [He|He]; [by apply not_elem_of_nil in He|done]. }
  pose proof (bt_insert_length k v m) as Hi. pose proof (bt_extend_length l (bt_insert k v m)) as Hl.
  unfold bt_extend in *. cbn in *. apply IH; [lia|].
  destruct He as [[->|He]%elem_of_cons|He]; [right; apply bt_insert_elem|by left|right].
  apply bt_insert_grow; [lia|done].
Qed.

Lemma from_list_Ok l self :
  Forall (fun c => 0 <= c.1) l -> from_list l = Ok self ->
  list_wf self /\ forall h x, hash self h = Some x <-> (h, x) ∈ l.
Proof.
  intros Hpos H. unfold from_list in H. pose proof (bt_collect_wf l) as Hs.
  apply res_bind_Ok in H as ([] & Hgen & H).
  destruct (Nat.eqb_spec (length (bt_collect l)) (length l)) as [Hlen|]; cbn [negb] in H; [|done].
  destruct (Nat.eqb_spec (size (list_to_set (bt_collect l).*2 : gset Hash)) (length l)) as [Hsz|];
    cbn [negb] in H; [|done].
  case_bool_decide as Hnull; [done|]. apply res_bind_Ok in H as (m & Hm & H).
  destruct (Z.ltb_spec Height.MAX m) as [|Hmax]; [done|]. injection H as <-.
  assert (Hw : list_wf (bt_collect l)).
  { split; [done| | | |].
    - destruct (bt_collect l) as [|[k x] rest]; [done|]. destruct (Z.eqb_spec k 0) as [->|]; [eauto|done].
    - destruct (max_height_in_range_Ok (E := string) (bt_collect l) Unbounded Unbounded Hs eq_refl)
        as (o & Ho & Hspec). unfold max_height in Hm. rewrite Ho in Hm. cbn in Hm.
      destruct o as [m'|]; [injection Hm as ->|done]. destruct Hspec as (_ & _ & Hle).
      rewrite Forall_forall in Hpos |- *. intros [h x] Hin.
      specialize (Hpos _ (bt_collect_incl _ _ Hin)). cbn in Hpos |- *.
      assert (h <= m) by (apply Hle; [exists x; by apply bt_get_Some|done]).
      unfold Height.valid, Height.MIN. lia.
    - apply NoDup_size. by rewrite length_fmap, Hlen.
    - set_solver. }
  split; [done|]. intros h x. unfold hash. rewrite bt_get_Some by done. split; [apply bt_collect_incl|].
  intros Hin. apply (bt_extend_complete l []); [|by left].
  unfold bt_collect in Hlen. rewrite Hlen. cbn. lia.
Qed.
End CheckpointList.
