(* ===== verification/Checkpoint.v ===== *)
(** * The checkpoint verifier

    [zakura-consensus/src/checkpoint.rs] and [checkpoint/types.rs], with the
    [CheckpointVerifiedBlock] of [zakura-state/src/request.rs].  Blocks are queued
    by height; once the queue has a block at every height up to a checkpoint, the
    verifier walks the previous block hashes back from the checkpoint and accepts
    the blocks on the way.

    The verifier is a record that every operation passes on.  The channels are
    explicit: a request gets the next channel number, [sent] is the log of the
    results sent so far, [reset_receiver] the resets not yet received.  The state
    service answers the commit task through [StateService].  Metrics and logs are
    left out, the [expect]s of the diagnostics are not. *)

From stdpp Require Import base numbers strings list option gmap sets.
From Stdlib Require Import ZArith Lia.
From S2P Require Import Prelude Height Amount BTree Network Subsidy NodeData Difficulty Dependencies Transparent MempoolTx Merkle BlockHeader Block BlockCheck CheckpointList.
Local Open Scope Z_scope.
Local Notation length := List.length.

Module Checkpoint.
Import Network Amount Subsidy Difficulty Merkle BlockHeader Block BlockCheck CheckpointList.

(** ** Progress and targets (types.rs) *)

Inductive Progress (A : Type) :=
| BeforeGenesis
| InitialTip (x : A)
| PreviousCheckpoint (x : A)
| FinalCheckpoint.
Arguments BeforeGenesis {A}.
Arguments InitialTip {A}.
Arguments PreviousCheckpoint {A}.
Arguments FinalCheckpoint {A}.

#[export] Instance progress_eq_dec {A} `{EqDecision A} : EqDecision (Progress A).
Proof. solve_decision. Defined.

(** [Ord for Progress<Height>] *)
Definition progress_cmp (self other : Progress Z) : comparison :=
  if bool_decide (self = other) then Eq
  else
    match self, other with
    | BeforeGenesis, _ => Lt
    | _, BeforeGenesis => Gt
    | FinalCheckpoint, _ => Gt
    | _, FinalCheckpoint => Lt
    | (InitialTip self_height | PreviousCheckpoint self_height),
      (InitialTip other_height | PreviousCheckpoint other_height) => self_height ?= other_height
    end.

(** [Progress::height] and [is_final_checkpoint] *)
Definition progress_height (self : Progress Z) : option Z :=
  match self with
  | InitialTip height | PreviousCheckpoint height => Some height
  | BeforeGenesis | FinalCheckpoint => None
  end.

Definition is_final_checkpoint {A} (self : Progress A) : bool :=
  match self with FinalCheckpoint => true | _ => false end.

Inductive TargetHeight := WaitingForBlocks | CheckpointAt (height : Z) | FinishedVerifying.

#[export] Instance target_eq_dec : EqDecision TargetHeight.
Proof. solve_decision. Defined.

(** [PartialOrd for TargetHeight] *)
Definition target_partial_cmp (self other : TargetHeight) : option comparison :=
  match self, other with
  | FinishedVerifying, FinishedVerifying => Some Eq
  | FinishedVerifying, _ => Some Gt
  | _, FinishedVerifying => Some Lt
  | CheckpointAt self_height, CheckpointAt other_height => Some (self_height ?= other_height)
  | WaitingForBlocks, CheckpointAt _ => None
  | CheckpointAt _, WaitingForBlocks => None
  | WaitingForBlocks, WaitingForBlocks => Some Eq
  end.

(** ** Errors *)

(** [VerifyBlockError], the constructors the checkpoint verifier reaches *)
Inductive VerifyBlockError :=
| BlockErr (source : BlockError)
| EquihashErr (source : EquihashError)
| PowPolicyErr (source : PowPolicyError).

(** [BoxError] in a commit failure: the error of the state with what is asked of
    it, an error of the verifier, or one of the service. *)
Inductive VerifyCheckpointError :=
| Finished
| TooHigh (height max_height : Z)
| AlreadyVerified (height verified_height : Z)
| NewerRequest (height : Z) (hash : Hash)
| CoinbaseHeight (hash : Hash)
| BadMerkleRoot (actual expected : Hash)
| DuplicateTransaction
| Dropped
| CommitCheckpointVerified (source : BoxError)
| TipError (source : BoxError)
| CheckpointListError (source : string)
| VerifyBlock (e : VerifyBlockError)
| SubsidyError (e : Subsidy.SubsidyError)
| AmountError (e : Amount.Error)
| QueuedLimit
| UnexpectedSideChain (expected found : Hash)
| ShuttingDown
with BoxError :=
| CommitError (duplicate_request auth_commitment_mismatch : bool)
| Boxed (e : VerifyCheckpointError)
| ServiceError (message : string).

(** [is_duplicate_request]; a [VerifyBlockError] of the constructors above is
    none. *)
Definition is_duplicate_request (self : VerifyCheckpointError) : bool :=
  match self with
  | AlreadyVerified _ _ => true
  | NewerRequest _ _ => true
  | VerifyBlock _ => false
  | CommitCheckpointVerified (CommitError duplicate _) => duplicate
  | _ => false
  end.

(** ** Blocks (zakura-state) *)

Inductive BlockOrigin := NetworkOrigin | LocalSubmission (size : Z).

(** The fields of [SemanticallyVerifiedBlock] *)
Record CheckpointVerifiedBlock := mkVerified {
  origin : BlockOrigin;
  block : Block;
  block_hash : Hash;
  height : Z;
  new_outputs : gmap OutPoint OrderedUtxo;
  transaction_hashes : list Hash;
  deferred_pool_balance_change : option (Amount NegativeAllowed);
  auth_data_root : option Hash;
  receipt_order : option Z;
}.

Definition with_origin (self : CheckpointVerifiedBlock) (origin : BlockOrigin) : CheckpointVerifiedBlock :=
  mkVerified origin (block self) (block_hash self) (height self) (new_outputs self)
    (transaction_hashes self) (deferred_pool_balance_change self) (auth_data_root self) (receipt_order self).

Definition with_deferred_pool_balance_change (self : CheckpointVerifiedBlock)
  (change : option (Amount NegativeAllowed)) : CheckpointVerifiedBlock :=
  mkVerified (origin self) (block self) (block_hash self) (height self) (new_outputs self)
    (transaction_hashes self) change (auth_data_root self) (receipt_order self).

Definition with_hash {E} (block : Block) (hash : Hash) : res E CheckpointVerifiedBlock :=
  let? height := expect (coinbase_height block) in
  let transaction_hashes := Block.transaction_hashes block in
  let? new_outputs := new_ordered_outputs block transaction_hashes in
  Ok (mkVerified NetworkOrigin block hash height new_outputs transaction_hashes None None None).

(** [CheckpointVerifiedBlock::new], with a precomputed hash *)
Definition new_verified {E} (block : Block) (hash : Hash) (change : option (Amount NegativeAllowed))
  : res E CheckpointVerifiedBlock :=
  let? block := with_hash block hash in
  Ok (with_deferred_pool_balance_change block change).

(** [Block::auth_data_root] *)
Definition with_precomputed_auth_data_root {E} {B : NodeData.Blake2b} (self : CheckpointVerifiedBlock)
  : res E CheckpointVerifiedBlock :=
  let? root :=
    auth_data_root_from_iter
      ((fun tx => auth_digest_or_placeholder (auth_digest tx)) <$> transactions (block self)) in
  Ok (mkVerified (origin self) (block self) (block_hash self) (height self) (new_outputs self)
        (transaction_hashes self) (deferred_pool_balance_change self) (Some root) (receipt_order self)).

(** ** The verifier *)

(** A result sender is the number of its channel. *)
Record QueuedBlock := mkQueued { qblock : CheckpointVerifiedBlock; tx : nat }.
Record QueuedBlockResult := mkResult { result : res VerifyCheckpointError Hash; result_generation : Z }.
Record RequestBlock := mkRequest { req_block : CheckpointVerifiedBlock; rx : nat }.
Record CheckpointReset := mkReset { generation : Z; tip : option (Z * Hash) }.

Definition MAX_QUEUED_BLOCKS_PER_HEIGHT : nat := 4.

(** The state of the verifier.  [payees] are the addresses and streams of its
    network; [next_channel] and [sent] are the channels it made and what it sent
    on them. *)
Record CheckpointVerifier := mkVerifier {
  checkpoint_list : CheckpointList;
  max_checkpoint_height : Z;
  network : Network;
  payees : Payees;
  initial_tip_hash : option Hash;
  queued : list (Z * list QueuedBlock);
  verifier_progress : Progress Z;
  reset_receiver : list CheckpointReset;
  reset_generation : Z;
  next_channel : nat;
  sent : list (nat * QueuedBlockResult);
}.

Definition set_queued (self : CheckpointVerifier) (queued : list (Z * list QueuedBlock)) : CheckpointVerifier :=
  mkVerifier (checkpoint_list self) (max_checkpoint_height self) (network self) (payees self)
    (initial_tip_hash self) queued (verifier_progress self) (reset_receiver self) (reset_generation self)
    (next_channel self) (sent self).

Definition set_progress (self : CheckpointVerifier) (initial_tip_hash : option Hash) (progress : Progress Z)
  : CheckpointVerifier :=
  mkVerifier (checkpoint_list self) (max_checkpoint_height self) (network self) (payees self)
    initial_tip_hash (queued self) progress (reset_receiver self) (reset_generation self)
    (next_channel self) (sent self).

Definition set_resets (self : CheckpointVerifier) (resets : list CheckpointReset) (generation : Z)
  : CheckpointVerifier :=
  mkVerifier (checkpoint_list self) (max_checkpoint_height self) (network self) (payees self)
    (initial_tip_hash self) (queued self) (verifier_progress self) resets generation
    (next_channel self) (sent self).

(** [oneshot::channel()] and [tx.send(..)], which the caller cannot observe failing *)
Definition new_channel (self : CheckpointVerifier) : CheckpointVerifier :=
  mkVerifier (checkpoint_list self) (max_checkpoint_height self) (network self) (payees self)
    (initial_tip_hash self) (queued self) (verifier_progress self) (reset_receiver self)
    (reset_generation self) (S (next_channel self)) (sent self).

Definition send (self : CheckpointVerifier) (tx : nat) (r : res VerifyCheckpointError Hash) : CheckpointVerifier :=
  mkVerifier (checkpoint_list self) (max_checkpoint_height self) (network self) (payees self)
    (initial_tip_hash self) (queued self) (verifier_progress self) (reset_receiver self)
    (reset_generation self) (next_channel self) (sent self ++ [(tx, mkResult r (reset_generation self))]).

(** The free function [deferred_pool_balance_change] *)
Definition expected_deferred_change (height : Z) (net : Network) (payees : Payees)
  (nsm_value_balance : option (Amount NonNegative))
  : res VerifyCheckpointError (option (Amount NegativeAllowed)) :=
  let? subsidy := map_err SubsidyError (block_subsidy height net nsm_value_balance) in
  let? values := map_err AmountError (funding_stream_values height net (all_funding_streams payees) subsidy) in
  let? zero := Amount.zero in
  let expected_deferred_amount :=
    default zero (snd <$> List.find (fun s => bool_decide (s.1 = Deferred)) values) in
  let? disbursed := lockbox_disbursement_total_amount net payees height in
  Ok (checked_sub expected_deferred_amount disbursed).

Definition progress_from_tip {E} (checkpoint_list : CheckpointList) (tip : option (Z * Hash))
  : res E (option Hash * Progress Z) :=
  match tip with
  | Some (height, hash) =>
      let? max := max_height checkpoint_list in
      if max <=? height then Ok (None, FinalCheckpoint) else Ok (Some hash, InitialTip height)
  | None => Ok (None, BeforeGenesis)
  end.

Definition verified_checkpoint_diagnostics {E} (self : CheckpointVerifier) (verified_height : option Z)
  : res E unit :=
  match verified_height with
  | None => Ok tt
  | Some verified_height =>
      let? _ := prev_checkpoint_index (checkpoint_list self) verified_height in Ok tt
  end.

Definition queued_block_diagnostics {E} (self : CheckpointVerifier) : res E unit :=
  let? _ := expect (last (queued self).*1) in Ok tt.

Definition from_checkpoint_list {E} (checkpoint_list : CheckpointList) (net : Network) (payees : Payees)
  (initial_tip : option (Z * Hash)) (max_checkpoint_height : Z) : res E CheckpointVerifier :=
  let? _ := rust_assert (contains checkpoint_list max_checkpoint_height) in
  let? (initial_tip_hash, verifier_progress) := progress_from_tip checkpoint_list initial_tip in
  let verifier :=
    mkVerifier checkpoint_list max_checkpoint_height net payees initial_tip_hash [] verifier_progress [] 0 0 [] in
  let? _ :=
    if is_final_checkpoint verifier_progress then Ok tt
    else verified_checkpoint_diagnostics verifier (progress_height verifier_progress) in
  Ok verifier.

(** [CheckpointVerifier::from_list] *)
Definition verifier_from_list (list : list (Z * Hash)) (net : Network) (payees : Payees)
  (initial_tip : option (Z * Hash)) : res VerifyCheckpointError CheckpointVerifier :=
  let? checkpoint_list := map_err CheckpointListError (CheckpointList.from_list list) in
  let? max := max_height checkpoint_list in
  from_checkpoint_list checkpoint_list net payees initial_tip max.

(** ** Resets *)

Definition reset_progress {E} (self : CheckpointVerifier) (tip : option (Z * Hash)) : res E CheckpointVerifier :=
  let? (initial_tip_hash, verifier_progress) := progress_from_tip (checkpoint_list self) tip in
  let self := set_progress self initial_tip_hash verifier_progress in
  let? _ := verified_checkpoint_diagnostics self (progress_height verifier_progress) in
  Ok self.

(** One step of the [while let] loop *)
Definition higher_tip (generation_ : Z) (highest_tip : option (option (Z * Hash))) (reset : CheckpointReset)
  : option (option (Z * Hash)) :=
  if negb (generation reset =? generation_) then highest_tip
  else
    Some
      match highest_tip, tip reset with
      | None, tip => tip
      | Some None, tip => tip
      | Some (Some current), None => Some current
      | Some (Some current), Some candidate =>
          Some (if current.1 <=? candidate.1 then candidate else current)
      end.

Definition apply_pending_reset {E} (self : CheckpointVerifier) : res E CheckpointVerifier :=
  let highest_tip := foldl (higher_tip (reset_generation self)) None (reset_receiver self) in
  let self := set_resets self [] (reset_generation self) in
  match highest_tip with
  | Some tip =>
      let? self := reset_progress self tip in
      let? generation := expect (to_uint 64 (reset_generation self + 1)) in
      Ok (set_resets self (reset_receiver self) generation)
  | None => Ok self
  end.

(** ** Targets *)

(** [previous_checkpoint_height] is the field [verifier_progress]. *)
Definition current_start_bound (self : CheckpointVerifier) : option Bound :=
  match verifier_progress self with
  | BeforeGenesis => Some Unbounded
  | InitialTip height | PreviousCheckpoint height => Some (Excluded height)
  | FinalCheckpoint => None
  end.

(** The loop over the queued heights above [pending_height], up to the first gap *)
Fixpoint contiguous {E} (pending_height : Z) (heights : list Z) : res E Z :=
  match heights with
  | [] => Ok pending_height
  | height :: heights =>
      let? next := uint_arith 32 (pending_height + 1) in
      if height =? next then contiguous height heights
      else let? _ := uint_arith 32 (height - pending_height) in Ok pending_height
  end.

(** The part of [target_checkpoint_height] after its start height is known *)
Definition search_target {E} (self : CheckpointVerifier) (start_height : Z) : res E TargetHeight :=
  let? range := bt_range (Excluded start_height) Unbounded (queued self) in
  let? pending_height := contiguous start_height range.*1 in
  let? start := expect (current_start_bound self) in
  let? target_checkpoint := max_height_in_range (checkpoint_list self) start (Included pending_height) in
  Ok (match target_checkpoint with Some height => CheckpointAt height | None => WaitingForBlocks end).

Definition target_checkpoint_height {E} (self : CheckpointVerifier) : res E TargetHeight :=
  match verifier_progress self with
  | BeforeGenesis =>
      if negb (bt_contains_key 0 (queued self)) then Ok WaitingForBlocks else search_target self 0
  | InitialTip height | PreviousCheckpoint height => search_target self height
  | FinalCheckpoint => Ok FinishedVerifying
  end.

Definition previous_checkpoint_hash {E} (self : CheckpointVerifier) : res E (Progress Hash) :=
  match verifier_progress self with
  | BeforeGenesis => Ok BeforeGenesis
  | InitialTip _ => let? hash := expect (initial_tip_hash self) in Ok (InitialTip hash)
  | PreviousCheckpoint height =>
      let? hash := expect (hash (checkpoint_list self) height) in Ok (PreviousCheckpoint hash)
  | FinalCheckpoint => Ok FinalCheckpoint
  end.

Definition check_height (self : CheckpointVerifier) (height : Z) : res VerifyCheckpointError unit :=
  let? max := max_height (checkpoint_list self) in
  if max <? height then Err (TooHigh height max)
  else
    match verifier_progress self with
    | BeforeGenesis => Ok tt
    | InitialTip previous_height | PreviousCheckpoint previous_height =>
        if height <=? previous_height then Err (AlreadyVerified height previous_height) else Ok tt
    | FinalCheckpoint => Err Finished
    end.

Definition update_progress {E} (self : CheckpointVerifier) (verified_height : Z) : res E CheckpointVerifier :=
  match check_height self verified_height with
  | Panic => Panic
  | Err _ => Ok self
  | Ok _ =>
      let? max := max_height (checkpoint_list self) in
      if verified_height =? max then
        let self := set_progress self (initial_tip_hash self) FinalCheckpoint in
        let? _ := verified_checkpoint_diagnostics self (Some verified_height) in Ok self
      else if contains (checkpoint_list self) verified_height then
        let self := set_progress self None (PreviousCheckpoint verified_height) in
        let? _ := verified_checkpoint_diagnostics self (Some verified_height) in Ok self
      else Ok self
  end.

(** ** Queueing *)

Section Verifier.
Context {U : U256} {EQ : Equihash} {SH : Sha256} {B : NodeData.Blake2b}.

Definition check_block (self : CheckpointVerifier) (block : Block) : res VerifyCheckpointError CheckpointVerifiedBlock :=
  let block_error e := VerifyBlock (BlockErr e) in
  let? hash :=
    map_err (fun e => block_error (InvalidHeaderEncoding e)) (validate_encoding_version_hash (header block)) in
  let? height := ok_or (CoinbaseHeight hash) (coinbase_height block) in
  let? _ := check_height self height in
  let? pow_policy := map_err (fun e => VerifyBlock (PowPolicyErr e)) (for_network (network self)) in
  let? _ :=
    if is_authenticated_custom_waiver pow_policy then
      let? _ := map_err block_error (difficulty_threshold_is_valid (header block) (network self) height hash) in
      Ok tt
    else
      let? _ := map_err block_error (difficulty_is_valid (header block) (network self) height hash) in
      map_err (fun e => VerifyBlock (EquihashErr e)) (equihash_solution_is_valid (header block) (network self)) in
  let? zip234 := is_zip234_active (network self) height in
  let? change :=
    if zip234 then Ok None else expected_deferred_change height (network self) (payees self) None in
  let? verified := new_verified block hash change in
  let? _ :=
    map_err block_error
      (merkle_root_validity (network self) (Checkpoint.block verified) (transaction_hashes verified)) in
  Ok verified.

(** Replaces the first queued block with this hash; returns the new list and the
    block that was replaced. *)
Fixpoint replace_older (new_qblock : QueuedBlock) (qblocks : list QueuedBlock)
  : option (list QueuedBlock * QueuedBlock) :=
  match qblocks with
  | [] => None
  | qb :: qblocks =>
      if block_hash (qblock qb) =? block_hash (qblock new_qblock) then Some (new_qblock :: qblocks, qb)
      else '(qblocks, old) ← replace_older new_qblock qblocks; Some (qb :: qblocks, old)
  end.

(** On an error the queue is as before: a height without blocks has room. *)
Definition queue_block (self : CheckpointVerifier) (block : Block)
  : res VerifyCheckpointError (RequestBlock * CheckpointVerifier) :=
  let channel := next_channel self in
  let? block := check_block self block in
  let self := new_channel self in
  let new_qblock := mkQueued block channel in
  let req_block := mkRequest block channel in
  let qblocks := default [] (bt_get (height block) (queued self)) in
  match replace_older new_qblock qblocks with
  | Some (qblocks, old) =>
      let self := set_queued self (bt_insert (height block) qblocks (queued self)) in
      Ok (req_block, send self (tx old) (Err (NewerRequest (height block) (block_hash block))))
  | None =>
      if (MAX_QUEUED_BLOCKS_PER_HEIGHT <=? length qblocks)%nat then Err QueuedLimit
      else
        let self := set_queued self (bt_insert (height block) (qblocks ++ [new_qblock]) (queued self)) in
        let? _ := queued_block_diagnostics self in
        Ok (req_block, self)
  end.

(** ** Processing a range *)

(** The loop over the drained blocks of a height *)
Fixpoint drain_blocks {E} (self : CheckpointVerifier) (expected_hash : Hash) (valid_qblock : option QueuedBlock)
  (qblocks : list QueuedBlock) : res E (option QueuedBlock * CheckpointVerifier) :=
  match qblocks with
  | [] => Ok (valid_qblock, self)
  | qb :: qblocks =>
      if block_hash (qblock qb) =? expected_hash then
        match valid_qblock with
        | None => drain_blocks self expected_hash (Some qb) qblocks
        | Some _ => Panic
        end
      else
        let self := send self (tx qb) (Err (UnexpectedSideChain expected_hash (block_hash (qblock qb)))) in
        drain_blocks self expected_hash valid_qblock qblocks
  end.

Definition process_height {E} (self : CheckpointVerifier) (height : Z) (expected_hash : Hash)
  : res E (option QueuedBlock * CheckpointVerifier) :=
  let? qblocks := expect (bt_get height (queued self)) in
  let self := set_queued self (bt_remove height (queued self)) in
  let? _ := rust_assert (negb (Nat.eqb (length qblocks) 0)) in
  let? _ :=
    match hash (checkpoint_list self) height with
    | Some checkpoint_hash => rust_assert (expected_hash =? checkpoint_hash)
    | None => Ok tt
    end in
  drain_blocks self expected_hash None qblocks.

(** [entry(height).or_default().push(block)] for each block put back *)
Definition put_back (self : CheckpointVerifier) (blocks : list QueuedBlock) : CheckpointVerifier :=
  foldl (fun self qb =>
           let qblocks := default [] (bt_get (height (qblock qb)) (queued self)) in
           set_queued self (bt_insert (height (qblock qb)) (qblocks ++ [qb]) (queued self)))
    self blocks.

(** The loop over the heights of the range, from the target down.  The valid
    blocks are in chain order: the last one found comes first.  [None] is the
    early return of a height without a valid block. *)
Fixpoint process_heights {E} (self : CheckpointVerifier) (target : Z) (old_progress : Progress Z)
  (expected_hash : Hash) (valid_blocks : list QueuedBlock) (range_heights : list Z)
  : res E (option (Hash * list QueuedBlock) * CheckpointVerifier) :=
  match range_heights with
  | [] => Ok (Some (expected_hash, valid_blocks), self)
  | current_height :: range_heights =>
      let? (valid_qblock, self) := process_height self current_height expected_hash in
      match valid_qblock with
      | Some qb =>
          process_heights self target old_progress (previous_block_hash (header (block (qblock qb))))
            (qb :: valid_blocks) range_heights
      | None =>
          let self := put_back self valid_blocks in
          let? _ := rust_assert (bool_decide (verifier_progress self = old_progress)) in
          let? current_target := target_checkpoint_height self in
          let? _ :=
            rust_assert
              (bool_decide (current_target = WaitingForBlocks)
               || bool_decide (target_partial_cmp current_target (CheckpointAt target) = Some Lt)) in
          Ok (None, self)
      end
  end.

Definition GENESIS_PREVIOUS_BLOCK_HASH : Hash := 0.

(** The results of a verified range, and the progress it makes *)
Definition accept_range {E} (self : CheckpointVerifier) (target : Z) (old_progress : Progress Z)
  (valid_blocks : list QueuedBlock) : res E CheckpointVerifier :=
  let self := foldl (fun self qb => send self (tx qb) (Ok (block_hash (qblock qb)))) self valid_blocks in
  let? self := update_progress self target in
  let new_progress := verifier_progress self in
  let? _ := rust_assert (bool_decide (progress_cmp new_progress old_progress = Gt)) in
  let? _ :=
    if bool_decide (new_progress = FinalCheckpoint) then
      let? max := max_height (checkpoint_list self) in rust_assert (target =? max)
    else rust_assert (bool_decide (new_progress = PreviousCheckpoint target)) in
  let? new_target := target_checkpoint_height self in
  let? _ :=
    rust_assert
      (bool_decide (new_target = WaitingForBlocks) || bool_decide (new_target = FinishedVerifying)) in
  Ok self.

(** The part of [process_checkpoint_range] after the previous hash is known *)
Definition process_from {E} (self : CheckpointVerifier) (previous_checkpoint_hash : Hash)
  : res E CheckpointVerifier :=
  let? target := target_checkpoint_height self in
  match target with
  | WaitingForBlocks => Ok self
  | FinishedVerifying => Panic
  | CheckpointAt target =>
      let? expected_hash := expect (hash (checkpoint_list self) target) in
      let old_progress := verifier_progress self in
      let? start := expect (current_start_bound self) in
      let? range := bt_range start (Included target) (queued self) in
      let? (outcome, self) := process_heights self target old_progress expected_hash [] (reverse range.*1) in
      match outcome with
      | None => Ok self
      | Some (expected_hash, valid_blocks) =>
          let? _ := rust_assert (expected_hash =? previous_checkpoint_hash) in
          accept_range self target old_progress valid_blocks
      end
  end.

Definition process_checkpoint_range {E} (self : CheckpointVerifier) : res E CheckpointVerifier :=
  let? previous := previous_checkpoint_hash self in
  match previous with
  | BeforeGenesis => process_from self GENESIS_PREVIOUS_BLOCK_HASH
  | InitialTip hash | PreviousCheckpoint hash => process_from self hash
  | FinalCheckpoint => Ok self
  end.

(** [Drop::drop] *)
Definition drop_verifier (self : CheckpointVerifier) : CheckpointVerifier :=
  foldl (fun self '(_, qblocks) =>
           foldl (fun self qb => send self (tx qb) (Err Dropped)) self qblocks)
    (set_queued self []) (queued self).

(** ** Requests *)

(** The task a call spawns *)
Record CommitTask := mkTask { task_request : RequestBlock; task_handoff : bool }.

Definition call_with_origin {E} (self : CheckpointVerifier) (block : Block) (origin : BlockOrigin)
  : res E (res VerifyCheckpointError CommitTask * CheckpointVerifier) :=
  let? self := apply_pending_reset self in
  if is_final_checkpoint (verifier_progress self) then
    match merkle_root_validity (network self) block (Block.transaction_hashes block) with
    | Panic => Panic
    | Err error => Ok (Err (VerifyBlock (BlockErr error)), self)
    | Ok _ => Ok (Err Finished, self)
    end
  else
    match queue_block self block with
    | Panic => Panic
    | Err e => Ok (Err e, self)
    | Ok (request, self) =>
        let request := mkRequest (with_origin (req_block request) origin) (rx request) in
        let? self := process_checkpoint_range self in
        Ok (Ok (mkTask request (height (req_block request) =? max_checkpoint_height self)), self)
    end.

(** What the state service answers: the NSM value balance after a parent block,
    the commit of a block, and the tip. *)
Record StateService := mkState {
  await_block_info : Hash -> res BoxError (Amount NegativeAllowed);
  commit_block : CheckpointVerifiedBlock -> res BoxError Hash;
  state_tip : res BoxError (option (Z * Hash));
  blocking_task_fails : bool;
}.

(** The block the task commits, with the values that need its parent *)
Definition prepare_commit (net : Network) (payees : Payees) (state : StateService)
  (block : CheckpointVerifiedBlock) : res VerifyCheckpointError CheckpointVerifiedBlock :=
  let? zip234 := is_zip234_active net (height block) in
  let? block :=
    if zip234 then
      let parent_hash := previous_block_hash (header (Checkpoint.block block)) in
      let? balance := map_err CommitCheckpointVerified (await_block_info state parent_hash) in
      let? change :=
        map_err (fun e => CommitCheckpointVerified (Boxed e))
          (let? nsm_value_balance := map_err SubsidyError (parent_nsm_value_balance balance) in
           expected_deferred_change (height block) net payees (Some nsm_value_balance)) in
      Ok (with_deferred_pool_balance_change block change)
    else Ok block in
  let? nu := current net (height block) in
  if bool_decide (auth_data_root block = None) && nu_leb Nu5 nu then
    if blocking_task_fails state then Ok block
    else
      match with_precomputed_auth_data_root (E := unit) block with
      | Ok block => Ok block
      | _ => Ok block
      end
  else Ok block.

(** The commit task once its result arrived: its own result, and the reset it
    sends to the verifier. *)
Definition commit_checkpoint_verified {E} (net : Network) (payees : Payees) (state : StateService)
  (is_shutting_down : bool) (task : CommitTask) (queued_result : QueuedBlockResult)
  : res E (res VerifyCheckpointError Hash * option CheckpointReset) :=
  let result :=
    let? hash := result queued_result in
    let? block := prepare_commit net payees state (req_block (task_request task)) in
    let? committed_hash := map_err CommitCheckpointVerified (commit_block state block) in
    let? _ := rust_assert (committed_hash =? hash) in
    Ok hash in
  match result with
  | Panic => Panic
  | result =>
      if is_shutting_down then Ok (Err ShuttingDown, None)
      else
        match result with
        | Err (CommitCheckpointVerified source) =>
            if is_duplicate_request (CommitCheckpointVerified source) then Ok (result, None)
            else
              match state_tip state with
              | Panic => Panic
              | Err e => Ok (Err (TipError e), None)
              | Ok tip => Ok (result, Some (mkReset (result_generation queued_result) tip))
              end
        | result => Ok (result, None)
        end
  end.
End Verifier.

(** ** Routing (router.rs) *)

Inductive RouterError :=
| CoinbaseExpiryBlockHeight (expiry_height : option Z) (block_height : Z) (transaction_hash : Hash)
| RouterBadMerkleRoot (actual expected : Hash)
| ProposalBelowCheckpoint.

Definition coinbase_height_matches_expiry (block_height : Z) (coinbase : BlockTx) : res RouterError unit :=
  let expiry_height := expiry_height (body coinbase) in
  if negb (bool_decide (expiry_height = Some block_height))
  then Err (CoinbaseExpiryBlockHeight expiry_height block_height (tx_hash coinbase)) else Ok tt.

(** Where a block goes: an error, the checkpoint verifier ([true]) or the block
    verifier ([false]). *)
Definition route {E} {SH : Sha256} (max_checkpoint_height : Z) (block : Block) (is_proposal : bool)
  : res E (res RouterError bool) :=
  let decide :=
    match coinbase_height block with
    | Some height =>
        if (height <=? max_checkpoint_height) && is_proposal then Ok (Err ProposalBelowCheckpoint)
        else Ok (Ok (height <=? max_checkpoint_height))
    | None => Ok (Ok false)
    end in
  match coinbase_height block with
  | None => decide
  | Some height =>
      let? coinbase := expect (head (transactions block)) in
      if 5 <=? MempoolTx.version (body coinbase) then
        match coinbase_height_matches_expiry height coinbase with
        | Err error =>
            let? merkle_root := root_from_iter (Block.transaction_hashes block) in
            Ok (Err (if merkle_root =? BlockHeader.merkle_root (header block) then error
                     else RouterBadMerkleRoot merkle_root (BlockHeader.merkle_root (header block))))
        | _ => decide
        end
      else decide
  end.

(** [reset_sender.send(..)] *)
Definition send_reset (self : CheckpointVerifier) (reset : CheckpointReset) : CheckpointVerifier :=
  set_resets self (reset_receiver self ++ [reset]) (reset_generation self).
End Checkpoint.
