(* ===== verification/CheckpointRange.v ===== *)
(** * Processing a checkpoint range

    [CheckpointTarget] has the invariant of the queue, and what
    [target_checkpoint_height] computes: the highest checkpoint up to which the
    queue has no gap.  [CheckpointRange] is the walk from a checkpoint back to the
    last verified block: what it accepts is a chain of previous block hashes
    without gaps; and with an honest chain that agrees with the checkpoints, none
    of its assertions fails and it accepts the honest blocks whenever they are
    queued. *)

From stdpp Require Import base numbers strings list option gmap sets sorting.
From Stdlib Require Import ZArith Lia.
From S2P Require Import Prelude Height Amount BTree Network Subsidy Difficulty Dependencies Transparent MempoolTx Merkle BlockHeader Block BlockCheck CheckpointList Checkpoint.
Local Open Scope Z_scope.
Local Notation length := List.length.

Module CheckpointTarget.
Import Merkle CheckpointList Checkpoint.

(** ** The queue *)

Definition hashes (qblocks : list QueuedBlock) : list Hash := (fun q => block_hash (qblock q)) <$> qblocks.

(** The blocks of one height: at least one, at most four, with different hashes *)
Record height_ok (P : QueuedBlock -> Prop) (h : Z) (qblocks : list QueuedBlock) : Prop := {
  ho_nonempty : qblocks <> [];
  ho_limit : (length qblocks <= MAX_QUEUED_BLOCKS_PER_HEIGHT)%nat;
  ho_unique : NoDup (hashes qblocks);
  ho_blocks : Forall (fun q => height (qblock q) = h /\ P q) qblocks;
}.

(** The queue is a map of valid heights; its blocks satisfy [P]. *)
Record queue_ok (P : QueuedBlock -> Prop) (queue : list (Z * list QueuedBlock)) : Prop := {
  qo_sorted : bt_wf queue;
  qo_heights : forall h qs, bt_get h queue = Some qs -> Height.valid h /\ height_ok P h qs;
}.

Lemma queue_remove P h q : queue_ok P q -> queue_ok P (bt_remove h q).
Proof.
  intros [Hs Hh]. split; [by apply bt_remove_wf|]. intros k qs. rewrite bt_get_remove.
  destruct (k =? h); [done|apply Hh].
Qed.

Lemma queue_insert P h qs q :
  queue_ok P q -> Height.valid h -> height_ok P h qs -> queue_ok P (bt_insert h qs q).
Proof.
  intros [Hs Hh] Hv Hqs. split; [by apply bt_insert_wf|]. intros k qs'. rewrite bt_get_insert by done.
  destruct (Z.eqb_spec k h) as [->|]; [by intros [= <-]|apply Hh].
Qed.

(** ** Progress *)

(** The last verified height; [-1] before genesis *)
Definition start_of (p : Progress Z) : Z :=
  match p with
  | BeforeGenesis => -1
  | InitialTip h | PreviousCheckpoint h => h
  | FinalCheckpoint => 0
  end.

Record verifier_ok (P : QueuedBlock -> Prop) (self : CheckpointVerifier) : Prop := {
  vo_list : list_wf (checkpoint_list self);
  vo_queue : queue_ok P (queued self);
  vo_progress :
    match verifier_progress self with
    | BeforeGenesis | FinalCheckpoint => True
    | InitialTip h => is_Some (initial_tip_hash self) /\ 0 <= h < max_of (checkpoint_list self)
    | PreviousCheckpoint h => is_Some (hash (checkpoint_list self) h) /\ 0 <= h < max_of (checkpoint_list self)
    end;
}.

(** A checkpoint the queue reaches without a gap *)
Definition ready (self : CheckpointVerifier) (c : Z) : Prop :=
  is_Some (hash (checkpoint_list self) c) /\ start_of (verifier_progress self) < c /\
  forall h, start_of (verifier_progress self) < h <= c -> is_Some (bt_get h (queued self)).

(** ** The end of the contiguous heights *)

Lemma contiguous_Ok {E} s (ks : list Z) :
  StronglySorted Z.lt ks -> Forall (fun k => s < k < 2 ^ 31) ks -> 0 <= s < 2 ^ 31 ->
  exists p, contiguous (E := E) s ks = Ok p /\ s <= p /\ (p = s \/ p ∈ ks) /\
    (forall h, s < h <= p -> h ∈ ks) /\ p + 1 ∉ ks.
Proof.
  revert s. induction ks as [|k ks IH]; intros s Hs Hk Hb; cbn.
  { exists s. split; [done|]. split; [lia|]. split; [by left|]. split; [lia|apply not_elem_of_nil]. }
  inversion_clear Hs as [|? ? Hs' Hlt]. inversion_clear Hk as [|? ? Hk0 Hks].
  rewrite uint_arith_Ok by lia. cbn [res_bind]. destruct (Z.eqb_spec k (s + 1)) as [->|Hne].
  - destruct (IH (s + 1)) as (p & Hp & Hle & Hor & Hin & Hgap); [done| |lia|].
    { rewrite Forall_forall in Hlt, Hks |- *. intros k Hk. specialize (Hlt _ Hk). specialize (Hks _ Hk). lia. }
    exists p. split; [done|]. split; [lia|]. split; [right; destruct Hor as [->|]; [by left|by right]|].
    split.
    + intros h Hh. destruct (Z.eq_dec h (s + 1)) as [->|]; [by left|]. right. apply Hin. lia.
    + intros [?|?]%elem_of_cons; [lia|done].
  - rewrite uint_arith_Ok by lia. exists s. split; [done|]. split; [lia|]. split; [by left|]. split; [lia|].
    rewrite Forall_forall in Hlt. intros [?|Hin]%elem_of_cons; [lia|]. specialize (Hlt _ Hin). lia.
Qed.

Lemma queue_range {E} P q s :
  queue_ok P q ->
  exists ks, bt_range (E := E) (Excluded s) Unbounded q = Ok ks /\ StronglySorted Z.lt ks.*1 /\
    forall k, k ∈ ks.*1 <-> s < k /\ is_Some (bt_get k q).
Proof.
  intros [Hs Hh]. unfold bt_range, range_valid. cbn [rust_assert res_bind]. eexists. split; [done|].
  set (R := fun k => above (Excluded s) k && below Unbounded k).
  split; [by apply (filter_wf R)|]. intros k. etransitivity; [by apply (elem_of_filter_keys R)|].
  unfold R. cbn. rewrite andb_true_r, Z.ltb_lt. tauto.
Qed.

(** The highest checkpoint that is ready, if there is one *)
Definition is_target (self : CheckpointVerifier) (t : TargetHeight) : Prop :=
  match t with
  | WaitingForBlocks => verifier_progress self <> FinalCheckpoint /\ forall c, ~ ready self c
  | CheckpointAt t =>
      verifier_progress self <> FinalCheckpoint /\ ready self t /\ forall c, ready self c -> c <= t
  | FinishedVerifying => verifier_progress self = FinalCheckpoint
  end.

(** The search from a height: the highest checkpoint below the first gap *)
Lemma search_Ok {E} P self s start :
  verifier_ok P self -> 0 <= s < 2 ^ 31 -> current_start_bound self = Some start ->
  (forall k, 0 <= k -> above start k = true <-> start_of (verifier_progress self) < k) ->
  (forall h, start_of (verifier_progress self) < h <= s -> is_Some (bt_get h (queued self))) ->
  start_of (verifier_progress self) <= s -> (forall k, range_valid start (Included k) = true \/ k < s) ->
  exists t, search_target (E := E) self s = Ok t /\ is_target self t.
Proof.
  intros [Hl Hq _] Hs Hstart Habove Hbase Hle Hvalid. unfold search_target.
  assert (Hne : verifier_progress self <> FinalCheckpoint).
  { intros Hf. unfold current_start_bound in Hstart. by rewrite Hf in Hstart. }
  destruct (queue_range (E := E) P (queued self) s Hq) as (ks & -> & Hsort & Hks). cbn [res_bind].
  destruct (contiguous_Ok (E := E) s ks.*1) as (p & -> & Hsp & Hor & Hin & Hgap); [done| |done|].
  { rewrite Forall_forall. intros k [Hk [qs Hqs]]%Hks.
    destruct (qo_heights P _ Hq k qs Hqs) as [[_ Hv] _]. rewrite Height.MAX_val in Hv. lia. }
  cbn [res_bind]. rewrite Hstart. cbn [expect res_bind].
  destruct (Hvalid p) as [Hv|]; [|lia].
  destruct (max_height_in_range_Ok (E := E) (checkpoint_list self) start (Included p) (lw_sorted _ Hl) Hv)
    as (o & -> & Ho). cbn [res_bind]. eexists. split; [done|].
  assert (Hready : forall c, ready self c <->
    is_Some (hash (checkpoint_list self) c) /\ above start c && below (Included p) c = true).
  { intros c. rewrite andb_true_iff. cbn. rewrite Z.leb_le. split.
    - intros (Hc & Hc1 & Hc2). pose proof (hash_valid _ _ Hl Hc) as [Hc0 _]. unfold Height.MIN in Hc0.
      split; [done|]. split; [by apply Habove|]. destruct (Z.le_gt_cases c p); [done|].
      destruct Hgap. apply Hks. split; [lia|]. apply Hc2. lia.
    - intros (Hc & Hc1 & Hc2). pose proof (hash_valid _ _ Hl Hc) as [Hc0 _]. unfold Height.MIN in Hc0.
      apply Habove in Hc1; [|lia]. split; [done|]. split; [done|]. intros h Hh.
      destruct (Z.le_gt_cases h s); [apply Hbase; lia|]. apply Hks, Hin. lia. }
  destruct o as [t|].
  - destruct Ho as (H1 & H2 & H3). split; [done|]. split; [by apply Hready|]. intros c [Hc Hc']%Hready. by apply H3.
  - split; [done|]. intros c [Hc Hc']%Hready. by rewrite Ho in Hc'.
Qed.

(** What [target_checkpoint_height] returns: the highest checkpoint that is ready. *)
Lemma target_Ok {E} P self :
  verifier_ok P self -> exists t, target_checkpoint_height (E := E) self = Ok t /\ is_target self t.
Proof.
  intros Hok. pose proof Hok as [Hl Hq Hp]. unfold target_checkpoint_height.
  pose proof (max_height_Ok (E := E) _ Hl) as (_ & Hmax & _). apply hash_valid in Hmax as [_ Hmax]; [|done].
  rewrite Height.MAX_val in Hmax.
  assert (Htip : forall h, verifier_progress self = InitialTip h \/ verifier_progress self = PreviousCheckpoint h ->
    0 <= h < max_of (checkpoint_list self) -> exists t, search_target (E := E) self h = Ok t /\ is_target self t).
  { intros h Hor Hh. apply (search_Ok P self h (Excluded h)); [done|lia| | | | |].
    - unfold current_start_bound. by destruct Hor as [-> | ->].
    - intros k _. cbn. rewrite Z.ltb_lt. by destruct Hor as [-> | ->].
    - intros k. destruct Hor as [-> | ->]; cbn; lia.
    - destruct Hor as [-> | ->]; cbn; lia.
    - intros k. cbn. rewrite Z.leb_le. lia. }
  destruct (verifier_progress self) as [|h|h|] eqn:Hpr.
  - unfold bt_contains_key. destruct (bt_get 0 (queued self)) as [qs|] eqn:Hg; cbn [negb].
    + apply (search_Ok P self 0 Unbounded); unfold current_start_bound; rewrite ?Hpr; cbn; try done; try lia.
      intros h Hh. replace h with 0 by lia. eauto.
    + eexists. split; [done|]. split; [by rewrite Hpr|]. intros c (Hc & Hlt & Hall). rewrite Hpr in *. cbn in *.
      destruct (Hall 0) as [? H0]; [lia|]. congruence.
  - apply Htip; [by left|apply Hp].
  - apply Htip; [by right|apply Hp].
  - by exists FinishedVerifying.
Qed.
End CheckpointTarget.

Module CheckpointRange.
Import Merkle BlockHeader Block CheckpointList Checkpoint CheckpointTarget.

(** ** Messages *)

Definition add_sent (self : CheckpointVerifier) (msgs : list (nat * QueuedBlockResult)) : CheckpointVerifier :=
  mkVerifier (checkpoint_list self) (max_checkpoint_height self) (network self) (payees self)
    (initial_tip_hash self) (queued self) (verifier_progress self) (reset_receiver self)
    (reset_generation self) (next_channel self) (sent self ++ msgs).

Lemma add_sent_nil self : add_sent self [] = self.
Proof. destruct self. unfold add_sent. cbn. by rewrite app_nil_r. Qed.

(** A message with an error, from generation [g] *)
Definition is_err (g : Z) (msg : nat * QueuedBlockResult) : Prop :=
  match result msg.2 with Ok _ => False | _ => True end /\ result_generation msg.2 = g.

(** The accepted hashes among the messages *)
Definition oks (msgs : list (nat * QueuedBlockResult)) : list Hash :=
  omap (fun msg => match result msg.2 with Ok h => Some h | _ => None end) msgs.

Lemma oks_app m m' : oks (m ++ m') = oks m ++ oks m'.
Proof. apply omap_app. Qed.

Lemma oks_errs g msgs : Forall (is_err g) msgs -> oks msgs = [].
Proof.
  induction 1 as [|[c [r g0]] msgs Hm _ IH]; [done|]. unfold oks in *. destruct Hm as [Hm _]. cbn in *. by destruct r.
Qed.

(** ** One height *)

Definition side_chain (self : CheckpointVerifier) (expected : Hash) (qblocks : list QueuedBlock)
  : list (nat * QueuedBlockResult) :=
  (fun q => (tx q, mkResult (Err (UnexpectedSideChain expected (block_hash (qblock q)))) (reset_generation self)))
    <$> filter (fun q => block_hash (qblock q) <> expected) qblocks.

Lemma side_chain_errs self expected qs : Forall (is_err (reset_generation self)) (side_chain self expected qs).
Proof. apply Forall_fmap, Forall_true. done. Qed.

Lemma drain_Ok {E} self expected valid qs :
  NoDup (hashes qs) -> (is_Some valid -> expected ∉ hashes qs) ->
  drain_blocks (E := E) self expected valid qs =
  Ok (match valid with Some q => Some q | None => List.find (fun q => block_hash (qblock q) =? expected) qs end,
      add_sent self (side_chain self expected qs)).
Proof.
  revert self valid. induction qs as [|q qs IH]; intros self valid Hnd Hv; cbn [drain_blocks].
  { rewrite add_sent_nil. by destruct valid. }
  cbn in Hnd. apply NoDup_cons in Hnd as [Hq Hnd]. unfold side_chain. rewrite filter_cons.
  cbn [List.find]. destruct (Z.eqb_spec (block_hash (qblock q)) expected) as [<-|Hne].
  - rewrite decide_False by (intros Hn; by apply Hn).
    destruct valid as [v|]; [destruct Hv; [eauto|by left]|]. by rewrite IH.
  - rewrite decide_True by done. rewrite IH; [|done|].
    + do 2 f_equal. unfold send, add_sent, side_chain. cbn. by rewrite <- app_assoc.
    + intros Hs Hin. apply Hv in Hs. destruct Hs. by right.
Qed.

(** The checkpoint of a height, if there is one, is the expected hash. *)
Definition checkpoint_matches (self : CheckpointVerifier) (h : Z) (expected : Hash) : Prop :=
  forall x, hash (checkpoint_list self) h = Some x -> expected = x.

Lemma process_height_Ok {E} P self h expected qs :
  queue_ok P (queued self) -> bt_get h (queued self) = Some qs ->
  checkpoint_matches self h expected ->
  process_height (E := E) self h expected =
  Ok (List.find (fun q => block_hash (qblock q) =? expected) qs,
      add_sent (set_queued self (bt_remove h (queued self))) (side_chain self expected qs)).
Proof.
  intros Hq Hg Hm. unfold process_height. rewrite Hg. cbn [expect res_bind].
  destruct (qo_heights P _ Hq h qs Hg) as [_ [Hne _ Hnd _]].
  destruct qs as [|q qs]; [done|]. cbn [List.length Nat.eqb negb rust_assert res_bind].
  change (checkpoint_list (set_queued self (bt_remove h (queued self)))) with (checkpoint_list self).
  destruct (hash (checkpoint_list self) h) as [x|] eqn:Hx.
  - rewrite (Hm x Hx), Z.eqb_refl. cbn [rust_assert res_bind]. by rewrite drain_Ok by (done || by intros [? ?]).
  - cbn [res_bind]. by rewrite drain_Ok by (done || by intros [? ?]).
Qed.

(** A checkpoint that does not match fails the assertion. *)
Lemma process_height_matches {E} self h expected r :
  process_height (E := E) self h expected = Ok r -> checkpoint_matches self h expected.
Proof.
  unfold process_height, checkpoint_matches. intros H x Hx. apply res_bind_Ok in H as (qs & _ & H).
  apply res_bind_Ok in H as ([] & _ & H). apply res_bind_Ok in H as ([] & Ha & _).
  change (checkpoint_list (set_queued self (bt_remove h (queued self)))) with (checkpoint_list self) in Ha.
  rewrite Hx in Ha. unfold rust_assert in Ha. by destruct (Z.eqb_spec expected x).
Qed.

(** ** The heights of a range *)

Fixpoint heights_down (s : Z) (n : nat) : list Z :=
  match n with
  | O => []
  | S m => (s + Z.of_nat n) :: heights_down s m
  end.

Lemma elem_of_heights_down s n h : h ∈ heights_down s n <-> s < h <= s + Z.of_nat n.
Proof.
  induction n as [|n IH]; cbn [heights_down]; [rewrite elem_of_nil; lia|].
  rewrite elem_of_cons, IH. lia.
Qed.

Lemma heights_down_sorted s n : StronglySorted Z.lt (reverse (heights_down s n)).
Proof.
  induction n as [|n IH]; cbn [heights_down]; [constructor|]. rewrite reverse_cons.
  apply StronglySorted_app. split_and!; [|done|by repeat constructor].
  intros x y Hx Hy%list_elem_of_singleton. apply elem_of_reverse, elem_of_heights_down in Hx. lia.
Qed.

Lemma sorted_NoDup (l : list Z) : StronglySorted Z.lt l -> NoDup l.
Proof.
  induction 1 as [|x l Hs IH Hx]; constructor; [|done]. rewrite Forall_forall in Hx.
  intros Hin. specialize (Hx _ Hin). lia.
Qed.

(** When the queue has every height of a range, the keys of the range are these heights. *)
Lemma range_keys {E} P q start s t :
  queue_ok P q -> s <= t -> range_valid start (Included t) = true ->
  (forall k, 0 <= k -> above start k = true <-> s < k) ->
  (forall h, s < h <= t -> is_Some (bt_get h q)) ->
  exists range, bt_range (E := E) start (Included t) q = Ok range /\
    reverse range.*1 = heights_down s (Z.to_nat (t - s)).
Proof.
  intros Hq Hst Hv Habove Hall. unfold bt_range. rewrite Hv. cbn [rust_assert res_bind]. eexists. split; [done|].
  set (R := fun k => above start k && below (Included t) k).
  rewrite <- (reverse_involutive (heights_down s (Z.to_nat (t - s)))). f_equal.
  pose proof (qo_sorted P q Hq) as Hs.
  apply (StronglySorted_unique_strong Z.lt);
    [intros; lia|by apply (filter_wf R)|apply heights_down_sorted|].
  apply NoDup_Permutation; [by apply sorted_NoDup, (filter_wf R)|apply sorted_NoDup, heights_down_sorted|].
  intros k. rewrite elem_of_reverse, elem_of_heights_down, Z2Nat.id by lia.
  etransitivity; [by apply (elem_of_filter_keys R)|]. unfold R. rewrite andb_true_iff. cbn. rewrite Z.leb_le. split.
  - intros ([qs Hqs] & Ha & Hb). destruct (qo_heights P q Hq k qs Hqs) as [[Hk _] _].
    unfold Height.MIN in Hk. apply Habove in Ha; lia.
  - intros Hk. assert (Hg : is_Some (bt_get k q)) by (apply Hall; lia). split; [done|].
    destruct Hg as [qs Hqs]. destruct (qo_heights P q Hq k qs Hqs) as [[Hk0 _] _]. unfold Height.MIN in Hk0.
    split; [apply Habove; lia|lia].
Qed.

(** ** Chains of blocks *)

Definition parent (q : QueuedBlock) : Hash := previous_block_hash (Block.header (block (qblock q))).

(** The blocks follow one another, from height [s] with hash [prev] to height [t] with
    hash [last]. *)
Fixpoint linked (s : Z) (prev : Hash) (blocks : list QueuedBlock) (t : Z) (last : Hash) : Prop :=
  match blocks with
  | [] => s = t /\ prev = last
  | q :: blocks =>
      height (qblock q) = s + 1 /\ parent q = prev /\ linked (s + 1) (block_hash (qblock q)) blocks t last
  end.

Lemma put_back_queued self blocks :
  put_back self blocks = set_queued self (queued (put_back self blocks)).
Proof.
  revert self. induction blocks as [|q blocks IH]; intros self; cbn.
  { by destruct self. }
  rewrite IH at 1. done.
Qed.

Lemma find_block qs expected q :
  List.find (fun q => block_hash (qblock q) =? expected) qs = Some q ->
  q ∈ qs /\ block_hash (qblock q) = expected.
Proof. intros [Hin Heq%Z.eqb_eq]%find_some. by rewrite list_elem_of_In. Qed.

Lemma process_heights_linked {E} P s n self target old expected valid x out self' :
  queue_ok P (queued self) ->
  (forall h, s < h <= s + Z.of_nat n -> is_Some (bt_get h (queued self))) ->
  linked (s + Z.of_nat n) expected valid target x -> Forall P valid ->
  process_heights (E := E) self target old expected valid (heights_down s n) = Ok (out, self') ->
  exists errs, Forall (is_err (reset_generation self)) errs /\ self' = add_sent (set_queued self (queued self')) errs /\
  match out with
  | Some (e, vs) => linked s e vs target x /\ Forall P vs
  | None => True
  end.
Proof.
  revert self expected valid. induction n as [|n IH]; intros self expected valid Hq Hall Hl HP H;
    cbn [heights_down process_heights] in H.
  { injection H as <- <-. exists []. split; [done|]. split; [by destruct self; rewrite add_sent_nil|].
    rewrite Z.add_0_r in Hl. done. }
  apply res_bind_Ok in H as ([v self1] & Hp & H). pose proof Hp as Hm%process_height_matches.
  destruct (Hall (s + Z.of_nat (S n))) as [qs Hqs]; [lia|].
  erewrite process_height_Ok in Hp by done. injection Hp as <- <-.
  destruct (List.find _ qs) as [q|] eqn:Hf.
  - apply find_block in Hf as [Hin Hh].
    destruct (qo_heights P _ Hq _ _ Hqs) as [_ Hok]. pose proof (ho_blocks _ _ _ Hok) as Hb.
    rewrite Forall_forall in Hb. destruct (Hb q Hin) as [Hheight HPq].
    apply IH in H as (errs & He & -> & Hout).
    + exists (side_chain self expected qs ++ errs). split; [apply Forall_app; split; [apply side_chain_errs|done]|].
      split; [|done]. unfold add_sent, set_queued. cbn. by rewrite <- app_assoc.
    + by apply queue_remove.
    + intros h Hh'. cbn. rewrite bt_get_remove. rewrite (proj2 (Z.eqb_neq h _)) by lia. apply Hall. lia.
    + cbn. split; [lia|]. split; [done|]. rewrite Hh.
      replace (s + Z.of_nat n + 1) with (s + Z.of_nat (S n)) by lia. done.
    + by constructor.
  - rewrite put_back_queued in H. res_inv. exists (side_chain self expected qs).
    split; [apply side_chain_errs|]. done.
Qed.

(** ** Progress *)

(** The progress after a range up to [target], and the state with it *)
Definition progress_at (self : CheckpointVerifier) (target : Z) : Progress Z :=
  if target =? max_of (checkpoint_list self) then FinalCheckpoint else PreviousCheckpoint target.

Definition advance (self : CheckpointVerifier) (target : Z) : CheckpointVerifier :=
  set_progress self (if target =? max_of (checkpoint_list self) then initial_tip_hash self else None)
    (progress_at self target).

Lemma update_progress_Ok {E} self target :
  list_wf (checkpoint_list self) -> is_Some (hash (checkpoint_list self) target) ->
  verifier_progress self <> FinalCheckpoint -> start_of (verifier_progress self) < target ->
  update_progress (E := E) self target = Ok (advance self target).
Proof.
  intros Hl Ht Hne Hlt. unfold update_progress, check_height.
  pose proof (max_height_Ok (E := VerifyCheckpointError) _ Hl) as (-> & _ & Hle). cbn [res_bind].
  pose proof (max_height_Ok (E := E) _ Hl) as (-> & _ & _).
  rewrite (proj2 (Z.ltb_ge _ _) (Hle _ Ht)).
  pose proof (hash_valid _ _ Hl Ht) as [Ht0 _]. unfold Height.MIN in Ht0.
  assert (Hdiag : forall self', checkpoint_list self' = checkpoint_list self ->
    verified_checkpoint_diagnostics (E := E) self' (Some target) = Ok tt).
  { intros self' Hs. unfold verified_checkpoint_diagnostics. rewrite Hs.
    by destruct (prev_checkpoint_index_Ok (E := E) _ target Hl Ht0) as [i ->]. }
  assert (Hgo : (if target =? max_of (checkpoint_list self) then
     let self := set_progress self (initial_tip_hash self) FinalCheckpoint in
     let? _ := verified_checkpoint_diagnostics self (Some target) in Ok (E := E) self
   else if contains (checkpoint_list self) target then
     let self := set_progress self None (PreviousCheckpoint target) in
     let? _ := verified_checkpoint_diagnostics self (Some target) in Ok self
   else Ok self) = Ok (advance self target)).
  { unfold advance, progress_at. destruct (target =? max_of (checkpoint_list self)).
    - cbv zeta. by rewrite Hdiag.
    - rewrite (proj2 (contains_hash _ _) Ht). cbv zeta. by rewrite Hdiag. }
  destruct (verifier_progress self) as [|h|h|]; cbn in Hlt; try done.
  - by rewrite (proj2 (Z.leb_gt _ _) Hlt).
  - by rewrite (proj2 (Z.leb_gt _ _) Hlt).
Qed.

(** The messages of a verified range *)
Definition accepted (self : CheckpointVerifier) (blocks : list QueuedBlock) : list (nat * QueuedBlockResult) :=
  (fun q => (tx q, mkResult (Ok (block_hash (qblock q))) (reset_generation self))) <$> blocks.

Lemma send_accepted self blocks :
  foldl (fun self qb => send self (tx qb) (Ok (block_hash (qblock qb)))) self blocks
  = add_sent self (accepted self blocks).
Proof.
  revert self. induction blocks as [|q blocks IH]; intros self; cbn [foldl]; [by rewrite add_sent_nil|].
  rewrite IH. unfold add_sent, send, accepted. cbn. by rewrite <- app_assoc.
Qed.

Lemma oks_accepted self blocks : oks (accepted self blocks) = hashes blocks.
Proof. unfold oks, accepted, hashes. induction blocks as [|q blocks IH]; [done|]. cbn in *. by rewrite IH. Qed.

Lemma accept_range_inv {E} self target old blocks self' :
  accept_range (E := E) self target old blocks = Ok self' ->
  update_progress (E := E) (add_sent self (accepted self blocks)) target = Ok self'.
Proof. unfold accept_range. rewrite send_accepted. intros H. res_inv. done. Qed.

(** The hash of the last verified block *)
Definition previous_hash (self : CheckpointVerifier) : option Hash :=
  match verifier_progress self with
  | BeforeGenesis => Some GENESIS_PREVIOUS_BLOCK_HASH
  | InitialTip _ => initial_tip_hash self
  | PreviousCheckpoint height => hash (checkpoint_list self) height
  | FinalCheckpoint => None
  end.

Lemma process_range_eq {E} P self :
  verifier_ok P self ->
  match verifier_progress self with
  | FinalCheckpoint => process_checkpoint_range (E := E) self = Ok self
  | _ => exists prev, previous_hash self = Some prev /\
      process_checkpoint_range (E := E) self = process_from self prev
  end.
Proof.
  intros [_ _ Hp]. unfold process_checkpoint_range, previous_checkpoint_hash, previous_hash.
  destruct (verifier_progress self) as [|h|h|].
  - eexists. split; reflexivity.
  - destruct Hp as [[x Hx] _]. rewrite Hx. eexists. split; reflexivity.
  - destruct Hp as [[x Hx] _]. rewrite Hx. eexists. split; reflexivity.
  - done.
Qed.

(** The heights of the range of a target *)
Lemma target_range {E} P self t :
  verifier_ok P self -> is_target self (CheckpointAt t) ->
  exists start range, current_start_bound self = Some start /\
    bt_range (E := E) start (Included t) (queued self) = Ok range /\
    let s := start_of (verifier_progress self) in
    reverse range.*1 = heights_down s (Z.to_nat (t - s)) /\ -1 <= s < t.
Proof.
  intros [Hl Hq Hp] (Hne & (Ht & Hlt & Hall) & _). unfold current_start_bound.
  pose proof (hash_valid _ _ Hl Ht) as [Ht0 _]. unfold Height.MIN in Ht0.
  destruct (verifier_progress self) as [|h|h|]; cbn [start_of] in *; [| | |done].
  - destruct (range_keys (E := E) P (queued self) Unbounded (-1) t Hq) as (range & Hr & Hrev); [lia|done| |done|].
    { intros k Hk. cbn. split; [lia|done]. }
    eexists _, range. split; [done|]. split; [done|]. split; [done|lia].
  - destruct (range_keys (E := E) P (queued self) (Excluded h) h t Hq) as (range & Hr & Hrev);
      [lia|cbn; lia| |done|]. { intros k Hk. cbn. lia. }
    eexists _, range. split; [done|]. split; [done|]. split; [done|lia].
  - destruct (range_keys (E := E) P (queued self) (Excluded h) h t Hq) as (range & Hr & Hrev);
      [lia|cbn; lia| |done|]. { intros k Hk. cbn. lia. }
    eexists _, range. split; [done|]. split; [done|]. split; [done|lia].
Qed.
End CheckpointRange.
