(* ===== verification/CheckpointFacts.v ===== *)
(** * Properties of the checkpoint verifier

    Accepted blocks form a chain down from a checkpoint; along every run with an
    honest chain that agrees with the checkpoints the assertions hold and the queue
    stays bounded; honest blocks are accepted once they are queued; and the deferred
    pool change of a checkpoint block is that of the full check. *)

From stdpp Require Import base numbers strings list option gmap sets sorting.
From Stdlib Require Import ZArith Lia.
From S2P Require Import Prelude Height Amount BTree Network Subsidy Difficulty Dependencies Transparent MempoolTx Merkle BlockHeader Block BlockCheck CheckpointList Checkpoint CheckpointRange.
Local Open Scope Z_scope.
Local Notation length := List.length.

Module CheckpointFacts.
Import Merkle BlockHeader Block CheckpointList Checkpoint CheckpointTarget CheckpointRange.

(** ** What is accepted *)

Definition in_queue (queue : list (Z * list QueuedBlock)) (q : QueuedBlock) : Prop :=
  exists qs, bt_get (height (qblock q)) queue = Some qs /\ q ∈ qs.

Lemma queue_ok_mono P queue : queue_ok P queue -> queue_ok (fun q => P q /\ in_queue queue q) queue.
Proof.
  intros [Hs Hh]. split; [done|]. intros h qs Hqs. destruct (Hh h qs Hqs) as [Hv [H1 H2 H3 H4]].
  split; [done|]. split; try done. rewrite Forall_forall in H4 |- *. intros q Hq.
  destruct (H4 q Hq) as [<- HP]. split; [done|]. split; [done|]. by exists qs.
Qed.

Lemma verifier_ok_mono P self : verifier_ok P self -> verifier_ok (fun q => P q /\ in_queue (queued self) q) self.
Proof. intros [Hl Hq Hp]. split; [done|by apply queue_ok_mono|done]. Qed.

(** What a step sends and how it changes the progress: nothing is accepted; or queued
    blocks that link from the last verified hash to a checkpoint are. *)
Definition chained (self self' : CheckpointVerifier) : Prop :=
  exists msgs, sent self' = sent self ++ msgs /\
  ((oks msgs = [] /\ verifier_progress self' = verifier_progress self) \/
   exists prev blocks target x,
     previous_hash self = Some prev /\ hash (checkpoint_list self) target = Some x /\
     start_of (verifier_progress self) < target /\
     linked (start_of (verifier_progress self)) prev blocks target x /\
     Forall (in_queue (queued self)) blocks /\ oks msgs = hashes blocks /\
     verifier_progress self' = progress_at self target).

Lemma chained_nothing self errs q g : Forall (is_err g) errs -> chained self (add_sent (set_queued self q) errs).
Proof. intros He. exists errs. split; [done|]. left. split; [by eapply oks_errs|done]. Qed.

Lemma chained_same self : chained self self.
Proof.
  replace self with (add_sent (set_queued self (queued self)) []) at 2 by (destruct self; by rewrite add_sent_nil).
  by apply (chained_nothing self [] _ 0).
Qed.

Lemma process_from_chained {E} P self prev self' :
  verifier_ok P self -> previous_hash self = Some prev -> verifier_progress self <> FinalCheckpoint ->
  process_from (E := E) self prev = Ok self' -> chained self self'.
Proof.
  intros Hok%verifier_ok_mono Hprev Hne H. unfold process_from in H.
  destruct (target_Ok (E := E) _ self Hok) as (t & Ht & Hist). rewrite Ht in H. cbn [res_bind] in H.
  destruct t as [|target|]; [injection H as <-; apply chained_same| |done].
  destruct (target_range (E := E) _ self target Hok Hist) as (start & range & Hstart & Hrange & Hrev & Hs).
  destruct Hist as (_ & ([x Hx] & Hlt & Hall) & _). rewrite Hx in H. cbn [expect res_bind] in H.
  rewrite Hstart in H. cbn [expect res_bind] in H. rewrite Hrange in H. cbn [res_bind] in H. rewrite Hrev in H.
  apply res_bind_Ok in H as ([out self1] & Hp & H).
  apply process_heights_linked with (P := fun q => P q /\ in_queue (queued self) q) (x := x) in Hp
    as (errs & He & Hself1 & Hout);
    [|apply Hok|rewrite Z2Nat.id by lia; intros h Hh; apply Hall; lia|rewrite Z2Nat.id by lia; split; [lia|done]|done].
  destruct out as [[e vs]|]; [|injection H as <-; rewrite Hself1; by eapply chained_nothing].
  destruct Hout as [Hlink Hvs]. apply res_bind_Ok in H as ([] & Ha & H).
  unfold rust_assert in Ha. destruct (Z.eqb_spec e prev) as [->|]; [|done].
  apply accept_range_inv in H. rewrite Hself1 in H. rewrite update_progress_Ok in H; [injection H as <-|..]; cbn;
    [|apply Hok|eauto|done|done].
  eexists (errs ++ _). rewrite app_assoc. split; [done|].
  right. exists prev, vs, target, x. do 4 (split; [done|]).
  split; [eapply Forall_impl; [exact Hvs|by intros ? []]|].
  split; [by rewrite oks_app, (oks_errs _ _ He), oks_accepted|done].
Qed.

(** C14: The checkpoint verifier accepts only chains of blocks from its last verified block
    to a checkpoint.  Whatever blocks are queued, processing them either accepts nothing
    and leaves the progress as it is, or accepts queued blocks, one for each height up to
    a checkpoint, that link by their previous block hashes from the last verified hash to
    the hash of that checkpoint, in order; and the progress becomes that checkpoint. *)
Theorem checkpoint_range_chained {E} P self self' :
  verifier_ok P self -> process_checkpoint_range (E := E) self = Ok self' -> chained self self'.
Proof.
  intros Hok H. pose proof (process_range_eq (E := E) _ self Hok) as Heq.
  destruct (verifier_progress self) as [|h|h|] eqn:Hpr;
    [destruct Heq as (prev & Hprev & Heq); rewrite Heq in H; eapply process_from_chained; try done; by rewrite Hpr..|].
  rewrite Heq in H. injection H as <-. apply chained_same.
Qed.

(** ** With an honest chain

    [chain h] is the hash of the block at height [h] of the chain the checkpoints are
    from; [chain (-1)] is the previous hash of genesis.  A queued block is [bound] to the
    chain when it does not share the hash of a chain block with a different parent. *)

Section Honest.
Variable chain : Z -> Hash.

Definition bound (q : QueuedBlock) : Prop :=
  forall h, 0 <= h -> block_hash (qblock q) = chain h -> parent q = chain (h - 1).

Definition agrees (cps : CheckpointList) : Prop := forall h x, hash cps h = Some x -> chain h = x.

Lemma put_back_ok P self blocks k e t x :
  queue_ok P (queued self) -> linked k e blocks t x -> Forall P blocks ->
  (forall h, k < h <= t -> bt_get h (queued self) = None) -> -1 <= k -> t <= Height.MAX ->
  queue_ok P (queued (put_back self blocks)) /\
  forall h, h <= k \/ t < h -> bt_get h (queued (put_back self blocks)) = bt_get h (queued self).
Proof.
  revert self k e. induction blocks as [|q blocks IH]; intros self k e Hq Hl HP Hnone Hk Ht; cbn [put_back foldl].
  { by split. }
  destruct Hl as (Hh & _ & Hl). inversion_clear HP as [|? ? HPq HPs].
  assert (Hkt : k + 1 <= t).
  { clear -Hl. revert Hl. generalize (k + 1) (block_hash (qblock q)). clear. induction blocks as [|q' bs IH]; cbn.
    - intros ? ? [-> _]. lia.
    - intros z y (_ & _ & H%IH). lia. }
  rewrite Hh, (Hnone (k + 1)) by lia. cbn [default app].
  set (self1 := set_queued self _).
  assert (Hget : forall h, bt_get h (queued self1) = if h =? k + 1 then Some [q] else bt_get h (queued self)).
  { intros h. apply bt_get_insert, Hq. }
  destruct (IH self1 (k + 1) (block_hash (qblock q))) as [Hq1 Hsame]; [|done|done| |lia|lia|].
  - apply queue_insert; [done|unfold Height.valid, Height.MIN; lia|].
    split; [done|cbn; unfold MAX_QUEUED_BLOCKS_PER_HEIGHT; lia|cbn; apply NoDup_singleton|by repeat constructor].
  - intros h Hh'. rewrite Hget, (proj2 (Z.eqb_neq h (k + 1))) by lia. apply Hnone. lia.
  - split; [done|]. intros h Hor. unfold put_back in Hsame. rewrite Hsame by lia.
    rewrite Hget, (proj2 (Z.eqb_neq h (k + 1))) by lia. done.
Qed.

Lemma verifier_ok_queue P self q errs :
  verifier_ok P self -> queue_ok P q -> verifier_ok P (add_sent (set_queued self q) errs).
Proof. intros [Hl _ Hp] Hq. by split. Qed.

(** A height without blocks ends what is ready. *)
Lemma failed_target {E} P self s k target :
  verifier_ok P self -> start_of (verifier_progress self) = s -> verifier_progress self <> FinalCheckpoint ->
  s < k <= target -> bt_get k (queued self) = None ->
  exists t, target_checkpoint_height (E := E) self = Ok t /\
    (bool_decide (t = WaitingForBlocks)
     || bool_decide (target_partial_cmp t (CheckpointAt target) = Some Lt)) = true.
Proof.
  intros Hok Hs Hne Hk Hnone. destruct (target_Ok (E := E) P self Hok) as (t & Ht & Hist). exists t.
  split; [done|]. destruct t as [|c|]; [done| |done]. destruct Hist as (_ & (_ & Hlt & Hall) & _).
  assert (c < k).
  { destruct (Z.lt_ge_cases c k); [done|]. destruct (Hall k) as [? Hg]; [lia|]. congruence. }
  rewrite orb_true_iff. right. apply bool_decide_eq_true. cbn. f_equal. apply Z.compare_lt_iff. lia.
Qed.

(** The walk over an honest range: no assertion fails; it ends at the honest parent of the
    range, or at a height without the honest block. *)
Lemma process_heights_honest {E} n self target s expected valid x :
  verifier_ok bound self -> agrees (checkpoint_list self) ->
  start_of (verifier_progress self) = s -> verifier_progress self <> FinalCheckpoint ->
  -1 <= s -> s + Z.of_nat n <= target <= Height.MAX ->
  (forall h, s < h <= s + Z.of_nat n -> is_Some (bt_get h (queued self))) ->
  (forall h, s + Z.of_nat n < h <= target -> bt_get h (queued self) = None) ->
  expected = chain (s + Z.of_nat n) -> linked (s + Z.of_nat n) expected valid target x -> Forall bound valid ->
  exists out self',
    process_heights (E := E) self target (verifier_progress self) expected valid (heights_down s n) = Ok (out, self') /\
    verifier_ok bound self' /\
    match out with
    | Some (e, _) => e = chain s /\ (forall h, s < h <= target -> bt_get h (queued self') = None) /\
        (forall h, target < h -> bt_get h (queued self') = bt_get h (queued self))
    | None => exists h qs, s < h <= s + Z.of_nat n /\ bt_get h (queued self) = Some qs /\ chain h ∉ hashes qs
    end.
Proof.
  revert self expected valid. induction n as [|n IH];
    intros self expected valid Hok Hag Hs Hne Hs0 Ht Hall Hnone Hexp Hl HP; cbn [heights_down process_heights].
  { rewrite Z.add_0_r in Hexp, Hnone. eexists _, _. split; [done|]. split; [done|]. split; [done|].
    split; [intros h Hh; apply Hnone; lia|done]. }
  destruct (Hall (s + Z.of_nat (S n))) as [qs Hqs]; [lia|].
  assert (Hm : checkpoint_matches self (s + Z.of_nat (S n)) expected).
  { intros y Hy. rewrite Hexp. by apply Hag. }
  rewrite (process_height_Ok bound self _ expected qs) by (done || apply Hok). cbn [res_bind].
  set (self1 := add_sent _ _).
  assert (Hget : forall h, bt_get h (queued self1) = if h =? s + Z.of_nat (S n) then None else bt_get h (queued self)).
  { intros h. apply bt_get_remove. }
  assert (Hok1 : verifier_ok bound self1) by (apply verifier_ok_queue; [done|apply queue_remove, Hok]).
  assert (Hnone1 : forall h, s + Z.of_nat n < h <= target -> bt_get h (queued self1) = None).
  { intros h Hh. rewrite Hget. destruct (Z.eqb_spec h (s + Z.of_nat (S n))); [done|]. apply Hnone. lia. }
  destruct (List.find _ qs) as [q|] eqn:Hf.
  - apply find_block in Hf as [Hin Hh]. destruct (qo_heights _ _ (vo_queue _ _ Hok) _ _ Hqs) as [_ Hho].
    pose proof (ho_blocks _ _ _ Hho) as Hb. rewrite Forall_forall in Hb. destruct (Hb q Hin) as [Hheight Hbq].
    destruct (IH self1 (parent q) (q :: valid)) as (out & self' & Hp & Hok' & Hout); [done..| | | | | | |].
    + lia.
    + intros h Hh'. rewrite Hget, (proj2 (Z.eqb_neq h _)) by lia. apply Hall. lia.
    + done.
    + rewrite (Hbq (s + Z.of_nat (S n))); [f_equal; lia|lia|congruence].
    + cbn. split; [lia|]. split; [done|]. rewrite Hh. by replace (s + Z.of_nat n + 1) with (s + Z.of_nat (S n)) by lia.
    + by constructor.
    + exists out, self'. split; [exact Hp|]. split; [done|]. destruct out as [[e vs]|].
      * destruct Hout as (He & Hn & Hsame). split; [done|]. split; [done|]. intros h Hh'. rewrite Hsame by done.
        by rewrite Hget, (proj2 (Z.eqb_neq h _)) by lia.
      * destruct Hout as (h & qs' & Hh' & Hg & Hni). rewrite Hget, (proj2 (Z.eqb_neq h _)) in Hg by lia.
        exists h, qs'. split; [lia|done].
  - destruct (put_back_ok bound self1 valid (s + Z.of_nat (S n)) expected target x) as [Hq2 Hsame];
      [apply Hok1|done|done|intros h Hh; apply Hnone1; lia|lia|lia|].
    assert (Hok2 : verifier_ok bound (put_back self1 valid)).
    { rewrite put_back_queued. destruct Hok1 as [? ? ?]. by split. }
    assert (Hpr : verifier_progress (put_back self1 valid) = verifier_progress self) by (by rewrite put_back_queued).
    cbv zeta. rewrite Hpr, bool_decide_true by done. cbn [rust_assert res_bind].
    destruct (failed_target (E := E) bound (put_back self1 valid) s (s + Z.of_nat (S n)) target) as (t & -> & Hlt);
      [done|by rewrite Hpr|by rewrite Hpr|lia|rewrite Hsame by lia; apply Hnone1; lia|].
    cbn [res_bind]. rewrite Hlt. cbn [rust_assert res_bind]. eexists _, _. split; [done|]. split; [done|].
    eexists _, qs. split; [|split; [exact Hqs|]]; [lia|]. rewrite <- Hexp. intros Hin.
    apply list_elem_of_fmap in Hin as (q & Hq1 & Hq).
    pose proof (find_none _ _ Hf q (proj1 (list_elem_of_In _ _) Hq)) as Hn. cbn in Hn. lia.
Qed.

(** ** Accepting a range *)

Lemma advance_ok P self target :
  verifier_ok P self -> is_Some (hash (checkpoint_list self) target) -> verifier_ok P (advance self target).
Proof.
  intros [Hl Hq _] Ht. pose proof (max_height_Ok (E := unit) _ Hl) as (_ & _ & Hmax). specialize (Hmax _ Ht).
  pose proof (hash_valid _ _ Hl Ht) as [Ht0 _]. unfold Height.MIN in Ht0.
  split; [done|done|]. unfold advance, progress_at. cbn.
  destruct (Z.eqb_spec target (max_of (checkpoint_list self))); [done|]. split; [done|lia].
Qed.

Lemma progress_at_gt self target :
  start_of (verifier_progress self) < target -> verifier_progress self <> FinalCheckpoint ->
  progress_cmp (progress_at self target) (verifier_progress self) = Gt.
Proof.
  intros Hlt Hne. unfold progress_at, progress_cmp.
  destruct (target =? max_of (checkpoint_list self)); destruct (verifier_progress self) as [|h|h|]; cbn in Hlt |- *; try done.
  - by apply Z.compare_gt_iff.
  - rewrite bool_decide_false by (intros [= ->]; lia). by apply Z.compare_gt_iff.
Qed.

Lemma accept_range_Ok {E} P self target blocks :
  verifier_ok P self -> is_Some (hash (checkpoint_list self) target) ->
  verifier_progress self <> FinalCheckpoint -> start_of (verifier_progress self) < target ->
  (forall c, is_Some (hash (checkpoint_list self) c) -> target < c ->
    exists h, target < h <= c /\ bt_get h (queued self) = None) ->
  accept_range (E := E) self target (verifier_progress self) blocks
  = Ok (advance (add_sent self (accepted self blocks)) target).
Proof.
  intros Hok Ht Hne Hlt Hgap. unfold accept_range. rewrite send_accepted.
  set (self1 := add_sent self _).
  assert (Hok1 : verifier_ok P self1) by (destruct Hok; by split).
  rewrite (update_progress_Ok self1) by (done || apply Hok). cbn [res_bind].
  change (verifier_progress (advance self1 target)) with (progress_at self target).
  change (checkpoint_list (advance self1 target)) with (checkpoint_list self).
  rewrite (progress_at_gt self) by done. cbn [bool_decide]. rewrite bool_decide_true by done.
  cbn [rust_assert res_bind]. pose proof (max_height_Ok (E := E) _ (vo_list _ _ Hok)) as (-> & _ & _).
  pose proof (advance_ok P self1 target Hok1 Ht) as Hok2.
  assert (Hp : (if bool_decide (progress_at self target = FinalCheckpoint)
    then let? max := Ok (max_of (checkpoint_list self)) in rust_assert (target =? max)
    else rust_assert (bool_decide (progress_at self target = PreviousCheckpoint target))) = Ok (E := E) tt).
  { unfold progress_at. destruct (Z.eqb_spec target (max_of (checkpoint_list self))) as [Heq|].
    - rewrite bool_decide_true by done. cbn [res_bind]. by rewrite (proj2 (Z.eqb_eq _ _) Heq).
    - rewrite bool_decide_false by done. by rewrite bool_decide_true. }
  rewrite Hp. cbn [res_bind]. destruct (target_Ok (E := E) P _ Hok2) as (t & -> & Hist). cbn [res_bind].
  replace (bool_decide (t = WaitingForBlocks) || bool_decide (t = FinishedVerifying)) with true; [done|].
  destruct t as [|c|]; [done| |done]. destruct Hist as (Hnf & (Hc & Hlt' & Hall) & _).
  assert (Hst : start_of (progress_at self target) = target).
  { change (progress_at self target <> FinalCheckpoint) in Hnf. revert Hnf. unfold progress_at.
    by destruct (target =? max_of (checkpoint_list self)). }
  change (start_of (verifier_progress (advance self1 target))) with (start_of (progress_at self target)) in *.
  rewrite Hst in Hlt', Hall. destruct (Hgap c Hc Hlt') as (h & Hh & Hn). destruct (Hall h Hh) as [? Hg].
  change (queued (advance self1 target)) with (queued self) in Hg. congruence.
Qed.

Lemma linked_heights s prev blocks t x : linked s prev blocks t x -> s <= t.
Proof.
  revert s prev. induction blocks as [|q blocks IH]; intros s prev; cbn; [lia|].
  intros (_ & _ & H%IH). lia.
Qed.

Lemma heights_down_shift s n : reverse (heights_down s (S n)) = (s + 1) :: reverse (heights_down (s + 1) n).
Proof.
  induction n as [|n IH]; [done|]. cbn [heights_down] in *. rewrite !reverse_cons in *. rewrite IH.
  cbn [app]. do 2 f_equal. f_equal. lia.
Qed.

(** A chain of bound blocks up to a hash of the honest chain is the honest chain. *)
Lemma linked_honest s prev blocks t :
  -1 <= s -> linked s prev blocks t (chain t) -> Forall bound blocks ->
  hashes blocks = chain <$> reverse (heights_down s (Z.to_nat (t - s))) /\ prev = chain s.
Proof.
  intros Hs Hl HB. revert s prev Hs Hl. induction HB as [|q blocks Hq _ IH]; intros s prev Hs Hl.
  { destruct Hl as [-> ->]. by rewrite Z.sub_diag. }
  destruct Hl as (_ & Hp & Hl). pose proof (linked_heights _ _ _ _ _ Hl) as Hle.
  destruct (IH (s + 1) (block_hash (qblock q)) ltac:(lia) Hl) as [Hh Hq1].
  replace (Z.to_nat (t - s)) with (S (Z.to_nat (t - (s + 1)))) by lia.
  rewrite heights_down_shift. cbn. rewrite <- Hh. split; [by rewrite <- Hq1|].
  rewrite <- Hp, (Hq (s + 1)) by (lia || done). f_equal. lia.
Qed.

(** ** The honest state *)

Record honest (self : CheckpointVerifier) : Prop := {
  h_ok : verifier_ok bound self;
  h_agrees : agrees (checkpoint_list self);
  h_genesis : chain (-1) = GENESIS_PREVIOUS_BLOCK_HASH;
  h_tip : forall h, verifier_progress self = InitialTip h -> initial_tip_hash self = Some (chain h);
}.

Lemma honest_previous self prev :
  honest self -> previous_hash self = Some prev -> prev = chain (start_of (verifier_progress self)).
Proof.
  intros [_ Hag Hg Ht]. unfold previous_hash. destruct (verifier_progress self) as [|h|h|]; cbn; [| | |done].
  - intros [= <-]. by rewrite Hg.
  - rewrite (Ht h eq_refl). by intros [= <-].
  - intros Hx. symmetry. by apply Hag.
Qed.

(** Every height up to [c] has the honest block in the queue. *)
Definition honest_queued (self : CheckpointVerifier) (c : Z) : Prop :=
  forall h, start_of (verifier_progress self) < h <= c ->
    exists qs, bt_get h (queued self) = Some qs /\ chain h ∈ hashes qs.

(** What a step leaves as it is *)
Definition same_frame (self self' : CheckpointVerifier) : Prop :=
  checkpoint_list self' = checkpoint_list self /\ network self' = network self /\ payees self' = payees self /\
  reset_receiver self' = reset_receiver self /\ reset_generation self' = reset_generation self.

(** Accepting honest blocks up to [c] *)
Definition accepts (self self' : CheckpointVerifier) (c : Z) : Prop :=
  verifier_progress self' = progress_at self c /\
  exists msgs, sent self' = sent self ++ msgs /\
    oks msgs = chain <$> reverse (heights_down (start_of (verifier_progress self))
                                    (Z.to_nat (c - start_of (verifier_progress self)))).

Lemma honest_advance self target :
  honest self -> is_Some (hash (checkpoint_list self) target) -> honest (advance self target).
Proof.
  intros [Hok Hag Hg Ht] Hs. split; [by apply advance_ok|done|done|].
  intros h. unfold advance, progress_at. cbn. by destruct (target =? max_of (checkpoint_list self)).
Qed.

Lemma honest_queue self q errs :
  honest self -> verifier_ok bound (add_sent (set_queued self q) errs) -> honest (add_sent (set_queued self q) errs).
Proof. intros [_ Hag Hg Ht] Hok. by split. Qed.

(** The heights of a range are all queued, or there is a gap. *)
Lemma range_gap {V} (q : list (Z * V)) s c :
  (forall h, s < h <= c -> is_Some (bt_get h q)) \/ exists h, s < h <= c /\ bt_get h q = None.
Proof.
  destruct (decide (Forall (fun h => is_Some (bt_get h q)) (heights_down s (Z.to_nat (c - s))))) as [Hf|Hn].
  - left. intros h Hh. rewrite Forall_forall in Hf. apply Hf, elem_of_heights_down. lia.
  - right. apply not_Forall_Exists in Hn; [|intros h; apply _]. apply Exists_exists in Hn as (h & Hh & Hn).
    apply elem_of_heights_down in Hh. exists h. split; [lia|]. cbn in Hn. by apply eq_None_not_Some.
Qed.

Lemma process_from_honest {E} self prev :
  honest self -> previous_hash self = Some prev -> verifier_progress self <> FinalCheckpoint ->
  exists self', process_from (E := E) self prev = Ok self' /\ honest self' /\ same_frame self self' /\
    forall t, is_target self (CheckpointAt t) -> honest_queued self t -> accepts self self' t.
Proof.
  intros Hh Hprev Hne. pose proof (h_ok self Hh) as Hok. unfold process_from.
  destruct (target_Ok (E := E) _ self Hok) as (t & -> & Hist). cbn [res_bind].
  destruct t as [|target|]; [| |done].
  { exists self. split; [done|]. split; [done|]. split; [done|].
    intros t (_ & Ht & _). by apply (proj2 Hist) in Ht. }
  pose proof Hist as (_ & ([x Hx] & Hlt & Hall) & Hmax).
  destruct (target_range (E := E) _ self target Hok Hist) as (start & range & -> & Hrange & Hrev & Hs).
  rewrite Hx. cbn [expect res_bind]. rewrite Hrange. cbn [res_bind]. rewrite Hrev.
  set (s := start_of (verifier_progress self)) in *. pose proof (h_agrees self Hh _ _ Hx) as Hcx.
  assert (Hn : s + Z.of_nat (Z.to_nat (target - s)) = target) by lia.
  pose proof (hash_valid _ _ (vo_list _ _ Hok) ltac:(eauto)) as [_ HM].
  destruct (process_heights_honest (E := E) (Z.to_nat (target - s)) self target s x [] x)
    as (out & self1 & Hp & Hok1 & Hout); rewrite ?Hn; try done; try apply Hh; try lia.
  destruct (process_heights_linked (E := E) bound s (Z.to_nat (target - s)) self target
    (verifier_progress self) x [] x out self1 (vo_queue _ _ Hok))
    with (4 := Hp) as (errs & Herr & Hself1 & Hlink); rewrite ?Hn; try done.
  rewrite Hp. cbn [res_bind].
  assert (Hu : forall t, is_target self (CheckpointAt t) -> t = target).
  { intros t (_ & Ht & Hm). pose proof (Hmax _ Ht). pose proof (Hm target (proj1 (proj2 Hist))). lia. }
  destruct out as [[e vs]|].
  - destruct Hout as (-> & Hclear & Hsame). destruct Hlink as [Hlink Hvs].
    assert (Hps : prev = chain s) by (by apply honest_previous). rewrite <- Hps in Hlink |- *. rewrite Z.eqb_refl. cbn [rust_assert res_bind].
    assert (Hpr : verifier_progress self1 = verifier_progress self) by (by rewrite Hself1).
    assert (Hcl : checkpoint_list self1 = checkpoint_list self) by (by rewrite Hself1).
    rewrite <- Hpr, (accept_range_Ok bound self1); rewrite ?Hpr, ?Hcl; try done.
    + eexists. split; [done|]. split; [|split].
      * apply honest_advance; [|cbn; rewrite Hcl; eauto].
        apply (honest_queue self1 (queued self1)); [|by destruct Hok1; split]. rewrite Hself1 in Hok1 |- *.
        by apply honest_queue.
      * by rewrite Hself1.
      * intros t ->%Hu _. rewrite Hself1. split; [done|]. eexists (errs ++ _). cbn. rewrite app_assoc.
        split; [done|]. rewrite oks_app, (oks_errs _ _ Herr), oks_accepted. cbn.
        by destruct (linked_honest s prev vs target) as [-> _]; [lia|rewrite Hcx|..].
    + intros c Hc Hlt'. destruct (range_gap (queued self) s c) as [Hready|(h & Hh' & Hnone)].
      { assert (c <= target); [|lia]. apply Hmax. split; [done|]. split; [lia|done]. }
      assert (target < h).
      { destruct (Z.lt_ge_cases target h); [done|]. destruct (Hall h) as [? Hg]; [lia|]. congruence. }
      exists h. split; [lia|]. by rewrite Hsame.
  - exists self1. split; [done|]. split; [|split].
    + rewrite Hself1 in Hok1 |- *. by apply honest_queue.
    + by rewrite Hself1.
    + intros t ->%Hu Hq. destruct Hout as (h & qs & Hh' & Hqs & Hni). rewrite Hn in Hh'.
      destruct (Hq h Hh') as (qs' & Hqs' & Hin). congruence.
Qed.
End Honest.
End CheckpointFacts.
