(* ===== verification/CheckpointChecks.v ===== *)
(** * The checks of a checkpoint block

    The change of the deferred pool that the checkpoint verifier computes is the one
    the full subsidy check returns; and the checks before a block is queued never
    panic on a decoded block. *)

From stdpp Require Import base numbers strings list option gmap sets sorting.
From Stdlib Require Import ZArith Lia.
From S2P Require Import Prelude Height Amount BTree Network Subsidy SubsidyFacts Issuance Reissuance Payout ValueBalance ValuePools Difficulty DifficultyFacts AdjustedFacts NodeData Serialization SerializationFacts Dependencies Transparent MempoolTx Merkle TransparentFacts MerkleFacts BlockHeader Block BlockCheck BlockCheckFacts CheckpointList Checkpoint.
Local Open Scope Z_scope.
Local Notation length := List.length.

Module CheckpointChecks.
Import Network Amount Subsidy SubsidyFacts Payout Difficulty Merkle BlockHeader Block BlockCheck BlockCheckFacts CheckpointList Checkpoint.

(** ** The lockbox *)

(** What a configuration of disbursements has to satisfy *)
Definition payees_wf (payees : Payees) : Prop :=
  Forall streams_wf (all_funding_streams payees) /\
  Forall wf (custom_lockbox_disbursements payees).*2 /\
  total (custom_lockbox_disbursements payees).*2 <= MAX_MONEY.

Lemma reduce_Ok {E} (a : Amount NonNegative) l :
  wf a -> Forall wf l -> zatoshis a + total l <= MAX_MONEY ->
  foldl (fun acc b => let? acc := acc in expect_ok (add acc b)) (Ok (E := E) a) l = Ok (mk (zatoshis a + total l)).
Proof.
  intros Ha Hl. revert a Ha. induction Hl as [|b l Hb Hl IH]; intros a Ha Hle; cbn [foldl res_bind].
  { destruct a. cbn. by rewrite Z.add_0_r. }
  rewrite total_cons in Hle |- *. pose proof (total_nonneg l Hl).
  destruct (ValuePools.add_non_negative a b Ha Hb) as [-> Hw]; [lia|]. cbn [expect_ok].
  rewrite IH; [|done|cbn; lia]. cbn [zatoshis ValuePools.plus_amount]. do 2 f_equal. lia.
Qed.

(** The total that the checkpoint verifier subtracts is the sum of the disbursements. *)
Lemma lockbox_total_Ok {E} net payees h :
  payees_wf payees ->
  exists disb, lockbox_disbursements (E := BlockError) net payees h = Ok disb /\
    lockbox_disbursement_total_amount (E := E) net payees h = Ok (mk (total disb.*2)) /\
    wf (C := NonNegative) (mk (total disb.*2)).
Proof.
  intros (_ & Hw & Hm). unfold lockbox_disbursements, lockbox_disbursement_total_amount.
  destruct (bool_decide (Some h = activation_height Nu6_1 net)); cbn [negb].
  2: { exists []. split; [done|]. rewrite zero_Ok. split; [done|apply zero_wf]. }
  assert (Hpub : exists disb, NU6_1_LOCKBOX_DISBURSEMENTS (E := BlockError) (lockbox_recipient payees) = Ok disb /\
    EXPECTED_NU6_1_LOCKBOX_DISBURSEMENTS_TOTAL (E := E) = Ok (mk (total disb.*2)) /\
    wf (C := NonNegative) (mk (total disb.*2))).
  { eexists. split; [reflexivity|]. split; reflexivity. }
  destruct net as [|params]; [done|]. destruct (p_is_default_testnet params); [done|].
  exists (custom_lockbox_disbursements payees). split; [done|].
  destruct (custom_lockbox_disbursements payees) as [|[addr a] l]; cbn [fmap list_fmap snd] in *.
  { rewrite zero_Ok. split; [done|apply zero_wf]. }
  inversion_clear Hw as [|? ? Ha Hl]. rewrite total_cons in Hm |- *.
  rewrite reduce_Ok by done. split; [done|]. apply wf_non_negative. cbn.
  apply wf_non_negative in Ha. pose proof (total_nonneg _ Hl). lia.
Qed.

(** The amount of the deferred stream, as the code looks it up *)
Lemma deferred_lookup (streams : list (FundingStreamReceiver * Amount NonNegative)) :
  Forall wf streams.*2 ->
  let def := default (mk 0) (snd <$> List.find (fun s => bool_decide (s.1 = Deferred)) streams) in
  zatoshis def = deferred_value streams /\ wf def.
Proof.
  intros Hw. unfold deferred_value. destruct (List.find _ streams) as [x|] eqn:Hf; cbn; [|split; [done|apply zero_wf]].
  split; [done|]. apply find_some in Hf as [Hin%list_elem_of_In _].
  eapply Forall_forall; [exact Hw|]. by apply (list_elem_of_fmap_2 snd _ x).
Qed.

(** What the checkpoint verifier expects, when the subsidy is known *)
Lemma expected_deferred_Ok net payees h balance subsidy streams disb :
  net_wf net -> payees_wf payees -> 0 <= h -> 0 <= zatoshis subsidy <= 2 ^ 33 ->
  block_subsidy h net balance = Ok subsidy ->
  funding_stream_values h net (all_funding_streams payees) subsidy = Ok streams ->
  lockbox_disbursements (E := BlockError) net payees h = Ok disb ->
  let d := mk (C := NegativeAllowed) (deferred_value streams - total disb.*2) in
  wf d /\ expected_deferred_change h net payees balance = Ok (Some d).
Proof.
  intros Hnet Hp Hh Hs Hsub Hst Hd. pose proof Hp as (Hall & _).
  destruct (funding_stream_values_Ok net h (all_funding_streams payees) (zatoshis subsidy) Hnet Hh Hall Hs)
    as (streams' & Hst' & Hw & _). rewrite ValuePools.amount_eta, Hst in Hst'. injection Hst' as <-.
  destruct (lockbox_total_Ok (E := VerifyCheckpointError) net payees h Hp) as (disb' & Hd' & Ht & Htw).
  rewrite Hd in Hd'. injection Hd' as <-.
  destruct (deferred_lookup streams Hw) as [Hdv Hdw]. unfold expected_deferred_change.
  rewrite Hsub. cbn [map_err res_bind]. rewrite Hst. cbn [map_err res_bind]. rewrite zero_Ok. cbn [res_bind].
  rewrite Ht. cbn [res_bind]. cbv zeta in Hdv, Hdw. rewrite <- Hdv.
  set (def := default (mk 0) _) in *.
  assert (Hdef : wf (C := NegativeAllowed) (mk (zatoshis def - total disb.*2))).
  { apply wf_negative_allowed. cbn. apply wf_non_negative in Hdw, Htw. cbn in Htw. lia. }
  split; [done|]. f_equal. by apply checked_sub_Some.
Qed.

Lemma subsidy_before_canopy block net payees subsidy h c d :
  coinbase_height block = Some h -> current (E := BlockError) net h = Ok c -> nu_ltb c Canopy = true ->
  subsidy_is_valid block net payees subsidy = Ok d -> d = mk 0.
Proof.
  intros Hh Hc Hlt. unfold subsidy_is_valid. rewrite zero_Ok. destruct (is_zero subsidy); [by intros [= <-]|].
  rewrite Hh. cbn [ok_or res_bind]. intros (cb & _ & H)%res_bind_Ok. rewrite Hc in H. cbn [res_bind] in H.
  rewrite Hlt in H. apply res_bind_Ok in H as (? & _ & H). by apply res_bind_Ok in H as (? & _ & [= <-]).
Qed.

(** The two ways to verify a block agree on the deferred pool: when the full subsidy
    check of a block returns a change of the deferred pool, the checkpoint verifier
    computes the same change from the height alone; it only knows the total of the
    lockbox disbursements, the full check every one of them. *)
Lemma checkpoint_deferred_agrees net payees block h cb balance subsidy d :
  net_wf net -> payees_wf payees -> Height.valid h -> (forall b, balance = Some b -> wf b) ->
  coinbase_height block = Some h -> head (transactions block) = Some cb ->
  block_subsidy h net balance = Ok subsidy -> 0 < zatoshis subsidy ->
  subsidy_is_valid block net payees subsidy = Ok d ->
  expected_deferred_change h net payees balance = Ok (Some d).
Proof.
  intros Hnet Hp Hh Hbal Hch Hcb Hsub Hpos Hd. pose proof Hh as [Hh0 Hh1]. unfold Height.MIN in Hh0.
  pose proof MAX_u32 as HM.
  pose proof (block_subsidy_Ok_bounds net h balance subsidy Hnet ltac:(lia) Hbal Hsub) as Hb.
  destruct (current_Ok net h Hnet Hh0) as (a & c & _ & Hc).
  pose proof (current_ltb net h Canopy c Hnet Hh0 Hc) as Hcan.
  destruct (match activation_height Canopy net with Some a => a <=? h | None => false end) eqn:Hact.
  - destruct (activation_height Canopy net) as [canopy|] eqn:Hcanopy; [|done]. apply Z.leb_le in Hact.
    pose proof Hp as (Hall & Hcw & _).
    apply (subsidy_check_Ok net payees block h cb canopy subsidy d Hnet Hh Hall Hcw ltac:(lia) Hch Hcb Hcanopy Hact) in Hd.
    destruct Hd as (streams & disb & pays & Hst & Hdisb & _ & _ & _ & -> & _).
    apply (expected_deferred_Ok net payees h balance subsidy); done || lia.
  - cbn [negb] in Hcan.
    assert (Hst : funding_stream_values h net (all_funding_streams payees) subsidy = Ok []).
    { unfold funding_stream_values. destruct (is_zero subsidy); [done|]. rewrite Hc. cbn [res_bind].
      unfold nu_leb. unfold nu_ltb in Hcan. by rewrite (proj2 (Z.leb_gt _ _)) by lia. }
    assert (Hdisb : lockbox_disbursements (E := BlockError) net payees h = Ok []).
    { unfold lockbox_disbursements. rewrite bool_decide_false; [done|]. intros Heq.
      assert (Hge : index Nu6_1 <= index c) by (apply (current_ge net h Nu6_1 c Hnet Hh0 (Hc unit)); exists h; split; [done|lia]).
      unfold nu_ltb in Hcan. cbn in *. lia. }
    destruct (expected_deferred_Ok net payees h balance subsidy [] []) as [_ ->]; try done; [lia|].
    rewrite (subsidy_before_canopy block net payees subsidy h c d); done.
Qed.

(** ** The checks do not panic *)

Definition safe {E A} (c : res E A) : Prop := c <> Panic.

Lemma safe_bind {E A B} (c : res E A) (k : A -> res E B) :
  safe c -> (forall a, c = Ok a -> safe (k a)) -> safe (res_bind c k).
Proof. intros Hc Hk. destruct c; cbn; [by apply Hk|done|done]. Qed.

Lemma safe_map_err {E F A} (f : E -> F) (c : res E A) : safe c -> safe (map_err f c).
Proof. by destruct c. Qed.

Lemma safe_ok_or {E A} (e : E) (o : option A) : safe (ok_or e o).
Proof. by destruct o. Qed.

(** What a decoded block has: a header whose fields fit, a height, and no more outputs
    than their indexes can count. *)
Record decoded (b : Block) : Prop := {
  d_header : valid_header (header b);
  d_height : forall h, coinbase_height b = Some h -> Height.valid h;
  d_outputs : Forall (fun tx => Z.of_nat (length (MempoolTx.outputs (body tx))) <= 2 ^ 32) (transactions b);
}.

Section Safe.
Context {U : U256} {UL : U256Laws U} {EQ : Equihash} {SH : Sha256}.

Lemma write_header_safe h : valid_header h -> exists bs, write_header h = Ok bs.
Proof. intros Hv. destruct (vh_time h Hv) as (s & Ht & Hs). rewrite (write_header_Ok h s Hv Ht Hs). eauto. Qed.

Lemma encoding_safe h : valid_header h -> safe (validate_encoding_version_hash h).
Proof.
  intros Hv. unfold validate_encoding_version_hash. apply safe_bind.
  { apply safe_map_err. unfold validate_header_version. by repeat case_match. }
  intros _ _. apply safe_bind; [apply safe_ok_or|]. intros _ _. unfold header_hash.
  by destruct (write_header_safe h Hv) as [bs ->].
Qed.

Lemma compact_target_safe h net : valid_header h -> safe (validate_compact_target h net).
Proof.
  intros Hv. unfold validate_compact_target. rewrite DifficultyFacts.to_expanded_spec by apply Hv. cbn [res_bind].
  apply safe_bind; [apply safe_ok_or|]. intros t _. rewrite AdjustedFacts.target_difficulty_limit_Ok. cbn [res_bind].
  by destruct (_ <? t).
Qed.

Lemma threshold_safe h net height hash :
  valid_header h -> safe (difficulty_threshold_is_valid h net height hash).
Proof.
  intros Hv. pose proof (compact_target_safe h net Hv) as Hs. unfold difficulty_threshold_is_valid.
  destruct (validate_compact_target h net) as [|[]|]; done.
Qed.

Lemma difficulty_safe h net height hash : valid_header h -> safe (difficulty_is_valid h net height hash).
Proof.
  intros Hv. apply safe_bind; [by apply threshold_safe|]. intros t _. apply safe_map_err.
  unfold validate_hash_filter. by destruct (compare_hash _ _).
Qed.

Lemma equihash_safe h net : valid_header h -> safe (equihash_solution_is_valid h net).
Proof.
  intros Hv. unfold equihash_solution_is_valid, validate_solution. cbn. apply safe_bind.
  { unfold validate_shape. by repeat case_match. }
  intros _ _. destruct (is_regtest net); unfold check_equihash; destruct (write_header_safe h Hv) as [bs ->];
    cbn [expect_ok res_bind]; by case_match.
Qed.

Lemma foldl_res_Ok {E A B} (f : res E A -> B -> res E A) (l : list B) a :
  (forall a b, b ∈ l -> exists a', f (Ok a) b = Ok a') -> exists a', foldl f (Ok a) l = Ok a'.
Proof.
  revert a. induction l as [|b l IH]; intros a Hf; cbn [foldl]; [eauto|].
  destruct (Hf a b) as [a' ->]; [by left|]. apply IH. intros a1 b1 Hb. apply Hf. by right.
Qed.

Lemma elem_of_enumerate {A} (l : list A) i x : (i, x) ∈ imap pair l -> l !! i = Some x.
Proof.
  intros Hin. apply list_elem_of_lookup in Hin as [k Hk]. rewrite list_lookup_imap in Hk.
  by apply fmap_Some in Hk as (y & Hy & [= -> ->]).
Qed.

Lemma ordered_outputs_Ok {E} tx hash i h :
  Z.of_nat (length (MempoolTx.outputs tx)) <= 2 ^ 32 ->
  exists m, new_transaction_ordered_outputs (E := E) tx hash i h = Ok m.
Proof.
  intros Hl. apply foldl_res_Ok. intros m [j o] Hj%elem_of_enumerate%lookup_lt_Some. cbn [res_bind].
  assert (to_uint 32 (Z.of_nat j) = Some (Z.of_nat j)) as -> by (apply to_uint_Some; split; [done|lia]).
  by eexists.
Qed.

Lemma new_outputs_Ok {E} b hashes h :
  coinbase_height b = Some h ->
  Forall (fun tx => Z.of_nat (length (MempoolTx.outputs (body tx))) <= 2 ^ 32) (transactions b) ->
  exists m, Block.new_ordered_outputs (E := E) b hashes = Ok m.
Proof.
  intros Hh HF. unfold Block.new_ordered_outputs. rewrite Hh. cbn [expect res_bind].
  apply foldl_res_Ok. intros m [j [t0 x]] Hj%elem_of_enumerate. cbn [res_bind].
  apply lookup_zip_with_Some in Hj as (t & y & [= -> ->] & Htx & _). rewrite Forall_forall in HF.
  destruct (ordered_outputs_Ok (E := E) (body t) y (Z.of_nat j) h) as [m' ->];
    [apply HF; by eapply list_elem_of_lookup_2|]. by eexists.
Qed.

Lemma merkle_safe net b h :
  net_wf net -> coinbase_height b = Some h -> 0 <= h ->
  safe (merkle_root_validity net b (Block.transaction_hashes b)).
Proof.
  intros Hnet Hh H0. unfold merkle_root_validity.
  destruct (MerkleFacts.root_from_iter_Ok (E := BlockError) (Block.transaction_hashes b)) as (r & -> & _).
  { unfold coinbase_height in Hh. unfold Block.transaction_hashes. by destruct (transactions b). }
  cbn [res_bind]. destruct (negb _); [done|]. destruct (negb _); [done|]. apply safe_map_err.
  unfold check_transaction_network_upgrade_consistency. rewrite Hh. cbn [expect res_bind].
  destruct (current_Ok net h Hnet H0) as (a & c & _ & ->). cbn [res_bind]. by case_match.
Qed.

Lemma zip234_Ok {E} net h : net_wf net -> exists z, is_zip234_active (E := E) net h = Ok z.
Proof.
  intros Hnet. unfold is_zip234_active. destruct (Reissuance.nsm_reissuance_height_Ok (E := E) net Hnet) as (r & -> & _).
  by eexists.
Qed.

(** Before ZIP 234 the subsidy is the one of the schedule. *)
Lemma subsidy_before_zip234 {E} net h :
  net_wf net -> Height.valid h -> is_zip234_active (E := E) net h = Ok false ->
  block_subsidy h net None = Ok (mk (subsidy_at net h)).
Proof.
  intros Hnet [Hh0 Hh1] Hz. unfold Height.MIN in Hh0. pose proof MAX_u32. unfold block_subsidy.
  assert (is_zip234_active (E := Subsidy.SubsidyError) net h = Ok false) as ->.
  { unfold is_zip234_active, nsm_reissuance_height in *. destruct (activation_height Nu7 net); [|done].
    unfold expect_ok in *. destruct (nsm_reissuance_crossing_height net); cbn in *; congruence. }
  cbn [res_bind]. apply halving_block_subsidy_Ok; [done|lia].
Qed.

(** Every block that was decoded is checked without a panic. *)
Lemma check_block_safe self b :
  list_wf (checkpoint_list self) -> net_wf (network self) -> payees_wf (payees self) -> decoded b ->
  safe (check_block self b).
Proof.
  intros Hl Hnet Hp [Hv Hheight Hout]. unfold check_block.
  apply safe_bind; [by apply safe_map_err, encoding_safe|]. intros x _.
  apply safe_bind; [apply safe_ok_or|]. intros h Hh%ok_or_Ok. specialize (Hheight h Hh). pose proof Hheight as [Hh0 Hh1].
  unfold Height.MIN in Hh0. pose proof MAX_u32 as HM.
  apply safe_bind.
  { unfold check_height. pose proof (max_height_Ok (E := VerifyCheckpointError) _ Hl) as (-> & _ & _).
    cbn [res_bind]. by repeat case_match. }
  intros _ _. apply safe_bind.
  { apply safe_map_err. unfold for_network, authenticated_custom_waiver. by repeat case_match. }
  intros policy _. apply safe_bind.
  { destruct (is_authenticated_custom_waiver policy); (apply safe_bind; [apply safe_map_err|]).
    - by apply threshold_safe.
    - done.
    - by apply difficulty_safe.
    - intros _ _. by apply safe_map_err, equihash_safe. }
  intros _ _. destruct (zip234_Ok (E := VerifyCheckpointError) (network self) h Hnet) as [z Hz]. rewrite Hz. cbn [res_bind].
  apply safe_bind.
  { destruct z; [done|]. apply subsidy_before_zip234 in Hz; [|done..].
    pose proof (subsidy_at_range (network self) h Hnet ltac:(lia)) as Hr. rewrite MAX_BLOCK_SUBSIDY_val in Hr.
    destruct (funding_stream_values_Ok (network self) h (all_funding_streams (payees self))
      (subsidy_at (network self) h) Hnet Hh0 (proj1 Hp) ltac:(lia)) as (streams & Hst & _).
    destruct (lockbox_total_Ok (E := BlockError) (network self) (payees self) h Hp) as (disb & Hd & _).
    by destruct (expected_deferred_Ok (network self) (payees self) h None (mk (subsidy_at (network self) h))
      streams disb Hnet Hp Hh0 ltac:(cbn; lia) Hz Hst Hd) as [_ ->]. }
  intros change _. unfold new_verified, with_hash. rewrite Hh. cbn [expect res_bind].
  destruct (new_outputs_Ok (E := VerifyCheckpointError) b (Block.transaction_hashes b) h Hh Hout) as [m ->].
  cbn [res_bind]. apply safe_bind; [|done]. apply safe_map_err. cbn. by apply (merkle_safe _ _ h).
Qed.
End Safe.
End CheckpointChecks.
