(* ===== verification/CheckpointRun.v ===== *)
(** * Runs of the checkpoint verifier

    Resets, queueing and whole requests: along every run of requests and commit
    failures the state stays honest, so that no assertion of the verifier fails, and
    a call that completes an honest range accepts it. *)

From stdpp Require Import base numbers strings list option gmap sets sorting.
From Stdlib Require Import ZArith Lia.
From S2P Require Import Prelude Height Amount BTree Network Subsidy NodeData Difficulty SerializationFacts Dependencies Transparent MempoolTx Merkle MerkleFacts BlockHeader Block BlockCheck BlockCheckFacts CheckpointList Checkpoint CheckpointRange CheckpointFacts CheckpointChecks.
Local Open Scope Z_scope.
Local Notation length := List.length.

Module CheckpointRun.
Import Network Difficulty Merkle BlockHeader Block BlockCheck CheckpointList Checkpoint CheckpointTarget CheckpointRange CheckpointFacts CheckpointChecks.

(** ** Resets *)

(** The resets that count: those of the current generation *)
Definition current_resets (self : CheckpointVerifier) : list CheckpointReset :=
  filter (fun r => generation r = reset_generation self) (reset_receiver self).

Definition tip_height (tip : option (Z * Hash)) : Z := match tip with Some (h, _) => h | None => -1 end.

Lemma higher_tip_spec g resets acc :
  (forall t, acc = Some t -> -1 <= tip_height t) ->
  Forall (fun r => -1 <= tip_height (tip r)) resets ->
  let own := filter (fun r => generation r = g) resets in
  match foldl (higher_tip g) acc resets with
  | None => acc = None /\ own = []
  | Some t =>
      (acc = Some t \/ exists r, r ∈ own /\ tip r = t) /\
      (forall t', acc = Some t' -> tip_height t' <= tip_height t) /\
      Forall (fun r => tip_height (tip r) <= tip_height t) own
  end.
Proof.
  revert acc. induction resets as [|r resets IH]; intros acc Hacc Hr; cbn [foldl].
  { destruct acc as [t|]; [|done]. split; [by left|]. split; [by intros ? [= <-]|constructor]. }
  inversion_clear Hr as [|? ? Hr0 Hrs]. rewrite filter_cons.
  assert (Hne : generation r <> g -> higher_tip g acc r = acc).
  { intros Hg. unfold higher_tip. by rewrite (proj2 (Z.eqb_neq _ _) Hg). }
  destruct (decide (generation r = g)) as [Hg|Hg]; [|rewrite (Hne Hg); by apply IH].
  assert (Hstep : exists t, higher_tip g acc r = Some t /\ -1 <= tip_height t /\ tip_height (tip r) <= tip_height t /\
    (forall t', acc = Some t' -> tip_height t' <= tip_height t) /\ (acc = Some t \/ tip r = t)).
  { unfold higher_tip. rewrite (proj2 (Z.eqb_eq _ _) Hg). cbn [negb].
    destruct acc as [[[h x]|]|]; [specialize (Hacc _ eq_refl)| |].
    - destruct (tip r) as [[h' x']|] eqn:Ht; cbn in *.
      + destruct (Z.leb_spec h h'); eexists; (split; [done|]); cbn; split_and!; try lia; eauto;
          intros t' [= <-]; cbn; lia.
      + eexists. split; [done|]. cbn. split_and!; [lia|lia| |by left]. intros t' [= <-]. cbn. lia.
    - eexists. split; [done|]. split_and!; [done|lia| |by right]. intros t' [= <-]. cbn. lia.
    - eexists. split; [done|]. split_and!; [done|lia|done|by right]. }
  destruct Hstep as (t & Ht & Ht0 & Hle & Hacc' & Hor). rewrite Ht.
  specialize (IH (Some t) ltac:(by intros ? [= <-]) Hrs). cbv zeta in IH |- *.
  destruct (foldl (higher_tip g) (Some t) resets) as [t1|]; [|by destruct IH].
  destruct IH as (Hor1 & Hle1 & HF). specialize (Hle1 t eq_refl). split_and!.
  - destruct Hor1 as [[= <-]|(r1 & Hr1 & Ht1)].
    + destruct Hor as [->|<-]; [by left|]. right. exists r. split; [by left|done].
    + right. exists r1. split; [by right|done].
  - intros t' Ht'. specialize (Hacc' t' Ht'). lia.
  - constructor; [lia|done].
Qed.

(** The progress of a tip, as a value *)
Definition tip_state (cps : CheckpointList) (tip : option (Z * Hash)) : option Hash * Progress Z :=
  match tip with
  | Some (h, x) => if max_of cps <=? h then (None, FinalCheckpoint) else (Some x, InitialTip h)
  | None => (None, BeforeGenesis)
  end.

(** A tip is a block at some height, or none. *)
Definition tip_valid (tip : option (Z * Hash)) : Prop := forall h x, tip = Some (h, x) -> 0 <= h.

Lemma tip_valid_height tip : tip_valid tip -> -1 <= tip_height tip.
Proof. intros Hv. destruct tip as [[h x]|]; cbn; [|lia]. specialize (Hv h x eq_refl). lia. Qed.

Lemma progress_from_tip_Ok {E} cps tip :
  list_wf cps -> progress_from_tip (E := E) cps tip = Ok (tip_state cps tip).
Proof.
  intros Hl. destruct tip as [[h x]|]; [|done]. unfold progress_from_tip, tip_state.
  pose proof (max_height_Ok (E := E) _ Hl) as (-> & _ & _). cbn [res_bind]. by destruct (max_of cps <=? h).
Qed.

Lemma diagnostics_Ok {E} self tip :
  list_wf (checkpoint_list self) -> tip_valid tip ->
  verified_checkpoint_diagnostics (E := E) self (progress_height (tip_state (checkpoint_list self) tip).2) = Ok tt.
Proof.
  intros Hl Hv. destruct tip as [[h x]|]; [|done]. cbn. destruct (max_of (checkpoint_list self) <=? h); [done|].
  cbn. by destruct (prev_checkpoint_index_Ok (E := E) _ h Hl (Hv _ _ eq_refl)) as [i ->].
Qed.

(** The state after a reset to [tip] *)
Definition reset_to (self : CheckpointVerifier) (tip : option (Z * Hash)) : CheckpointVerifier :=
  set_resets
    (set_progress self (tip_state (checkpoint_list self) tip).1 (tip_state (checkpoint_list self) tip).2)
    [] (reset_generation self + 1).

Lemma apply_reset_Ok {E} self :
  list_wf (checkpoint_list self) -> Forall (fun r => tip_valid (tip r)) (reset_receiver self) ->
  0 <= reset_generation self < 2 ^ 64 - 1 ->
  match current_resets self with
  | [] => apply_pending_reset (E := E) self = Ok (set_resets self [] (reset_generation self))
  | _ => exists r, r ∈ current_resets self /\
      Forall (fun r' => tip_height (tip r') <= tip_height (tip r)) (current_resets self) /\
      apply_pending_reset (E := E) self = Ok (reset_to self (tip r))
  end.
Proof.
  intros Hl Hv Hg. unfold apply_pending_reset.
  pose proof (higher_tip_spec (reset_generation self) (reset_receiver self) None) as Hspec.
  cbv zeta in Hspec. fold (current_resets self) in Hspec.
  assert (Hmem : forall r, r ∈ current_resets self -> tip_valid (tip r)).
  { intros r [_ Hr]%list_elem_of_filter. rewrite Forall_forall in Hv. by apply Hv. }
  specialize (Hspec ltac:(done)).
  destruct (foldl (higher_tip (reset_generation self)) None (reset_receiver self)) as [t|].
  - destruct Hspec as (Hor & _ & HF).
    { eapply Forall_impl; [exact Hv|]. intros r. apply tip_valid_height. }
    destruct Hor as [|(r & Hr & <-)]; [done|].
    assert (Hgo : (let? self := reset_progress (E := E) (set_resets self [] (reset_generation self)) (tip r) in
      let? generation := expect (to_uint 64 (reset_generation self + 1)) in
      Ok (set_resets self (reset_receiver self) generation)) = Ok (reset_to self (tip r))).
    { unfold reset_progress. cbn [checkpoint_list set_resets]. rewrite progress_from_tip_Ok by done. cbn [res_bind].
      destruct (tip_state (checkpoint_list self) (tip r)) as [th p] eqn:Hts.
      pose proof (diagnostics_Ok (E := E) (set_progress (set_resets self [] (reset_generation self)) th p) (tip r) Hl
        (Hmem r Hr)) as Hd. cbn [checkpoint_list set_progress set_resets] in Hd. rewrite Hts in Hd. cbn [snd] in Hd.
      rewrite Hd. cbn [res_bind]. cbn [reset_generation set_progress set_resets].
      assert (to_uint 64 (reset_generation self + 1) = Some (reset_generation self + 1)) as ->
        by (apply to_uint_Some; split; [done|lia]). cbn [expect res_bind].
      unfold reset_to. rewrite Hts. done. }
    destruct (current_resets self) as [|r0 rs]; [by apply not_elem_of_nil in Hr|]. exists r. done.
  - destruct Hspec as (_ & ->).
    { eapply Forall_impl; [exact Hv|]. intros r. apply tip_valid_height. }
    done.
Qed.
(** Resets apply once per generation.  A request first receives all pending resets;
    when none is from the current generation, the progress stays as it is, so a late
    reset of a range that already failed cannot rewind it; otherwise the verifier goes
    to the highest state tip among the current ones and starts the next generation. *)
Lemma resets_apply_once {E} self :
  list_wf (checkpoint_list self) -> Forall (fun r => tip_valid (tip r)) (reset_receiver self) ->
  0 <= reset_generation self < 2 ^ 64 - 1 ->
  match current_resets self with
  | [] => apply_pending_reset (E := E) self = Ok (set_resets self [] (reset_generation self))
  | _ => exists r, r ∈ current_resets self /\
      Forall (fun r' => tip_height (tip r') <= tip_height (tip r)) (current_resets self) /\
      apply_pending_reset (E := E) self = Ok (reset_to self (tip r))
  end.
Proof. apply apply_reset_Ok. Qed.

(** ** Queueing *)

Lemma replace_older_spec new qs :
  match replace_older new qs with
  | Some (qs', old) => hashes qs' = hashes qs /\ length qs' = length qs /\ forall q, q ∈ qs' -> q = new \/ q ∈ qs
  | None => block_hash (qblock new) ∉ hashes qs
  end.
Proof.
  induction qs as [|q qs IH]; cbn [replace_older]; [apply not_elem_of_nil|].
  destruct (Z.eqb_spec (block_hash (qblock q)) (block_hash (qblock new))) as [Heq|Hne].
  - cbn. rewrite Heq. split; [done|]. split; [done|]. intros q'. rewrite !elem_of_cons. tauto.
  - destruct (replace_older new qs) as [[qs' old]|]; cbn.
    + destruct IH as (Hh & Hl & Hin). split; [unfold hashes in *; cbn; by rewrite Hh|]. split; [by rewrite Hl|].
      intros q'. rewrite !elem_of_cons. specialize (Hin q'). tauto.
    + rewrite elem_of_cons. intros [?|?]; [congruence|done].
Qed.

Section Requests.
Context {U : U256} {EQ : Equihash} {SH : Sha256} {B : NodeData.Blake2b}.

(** What the checks of a block establish *)
Lemma check_block_Ok self b v :
  check_block self b = Ok v ->
  block v = b /\ header_hash (E := HeaderEncodingError) (header b) = Ok (block_hash v) /\
  coinbase_height b = Some (height v) /\ check_height self (height v) = Ok tt.
Proof.
  unfold check_block. intros H.
  apply res_bind_Ok in H as (hash & Hhash & H). rewrite map_err_Ok in Hhash.
  unfold validate_encoding_version_hash in Hhash.
  apply res_bind_Ok in Hhash as (? & _ & Hhash). apply res_bind_Ok in Hhash as (? & _ & Hhash).
  apply res_bind_Ok in H as (h & Hh & H). apply ok_or_Ok in Hh.
  apply res_bind_Ok in H as ([] & Hc & H). apply res_bind_Ok in H as (? & _ & H).
  apply res_bind_Ok in H as (? & _ & H). apply res_bind_Ok in H as (? & _ & H).
  apply res_bind_Ok in H as (ch & _ & H). apply res_bind_Ok in H as (v' & Hv & H).
  apply res_bind_Ok in H as (? & _ & [= ->]).
  unfold new_verified, with_hash in Hv. rewrite Hh in Hv. cbn [expect res_bind] in Hv.
  apply res_bind_Ok in Hv as (v0 & Hv0 & [= <-]). apply res_bind_Ok in Hv0 as (o & _ & [= <-]).
  cbn. done.
Qed.

(** What queueing a block does to the rest of the state *)
Definition queue_frame (self self' : CheckpointVerifier) : Prop :=
  same_frame self self' /\ verifier_progress self' = verifier_progress self /\
  initial_tip_hash self' = initial_tip_hash self /\
  exists errs, sent self' = sent self ++ errs /\ Forall (is_err (reset_generation self)) errs.

Lemma queue_block_ok P self b :
  verifier_ok P self ->
  (forall v, check_block self b = Ok v -> Height.valid (height v) /\ P (mkQueued v (next_channel self))) ->
  match queue_block self b with
  | Panic => check_block self b = Panic
  | Err _ => True
  | Ok (_, self') => verifier_ok P self' /\ queue_frame self self'
  end.
Proof.
  intros Hok Hb. unfold queue_block. destruct (check_block self b) as [v| |] eqn:Hc; cbn [res_bind]; [|done|done].
  destruct (Hb v eq_refl) as [Hv HP]. set (q := mkQueued v (next_channel self)) in *.
  change (queued (new_channel self)) with (queued self).
  assert (Hins : forall qs, height_ok P (height v) qs ->
    verifier_ok P (set_queued (new_channel self) (bt_insert (height v) qs (queued self)))).
  { intros qs Hqs. destruct Hok as [Hl Hq Hp]. split; [done|by apply queue_insert|done]. }
  assert (Hold : forall qs, bt_get (height v) (queued self) = Some qs -> height_ok P (height v) qs).
  { intros qs Hqs. by apply (qo_heights P _ (vo_queue P _ Hok)). }
  pose proof (replace_older_spec q (default [] (bt_get (height v) (queued self)))) as Hr.
  destruct (replace_older q (default [] (bt_get (height v) (queued self)))) as [[qs' old]|] eqn:Hrep.
  - destruct (bt_get (height v) (queued self)) as [qs|] eqn:Hg; [|done]. cbn [default] in Hr.
    destruct Hr as (Hh & Hl & Hin). destruct (Hold qs eq_refl) as [H1 H2 H3 H4]. split.
    + destruct (Hins qs') as [Hl' Hq' Hp']; [|by split]. split.
      * intros ->. destruct qs; [done|]. done.
      * by rewrite Hl.
      * by rewrite Hh.
      * rewrite Forall_forall in H4 |- *. intros q' [->|Hq']%Hin; [done|by apply H4].
    + split; [done|]. split; [done|]. split; [done|]. eexists. split; [done|]. by repeat constructor.
  - destruct (Nat.leb_spec MAX_QUEUED_BLOCKS_PER_HEIGHT
      (length (default [] (bt_get (height v) (queued self))))) as [|Hlt]; [done|].
    set (qs := default [] (bt_get (height v) (queued self))) in *.
    assert (Hqs : height_ok P (height v) (qs ++ [q])).
    { assert (Hbase : NoDup (hashes qs) /\ Forall (fun q => height (qblock q) = height v /\ P q) qs).
      { unfold qs. destruct (bt_get (height v) (queued self)) as [l|]; cbn; [|by split; constructor].
        destruct (Hold l eq_refl); done. }
      destruct Hbase as [Hnd HF]. split.
      - by destruct qs.
      - rewrite length_app. cbn. lia.
      - unfold hashes. rewrite fmap_app. apply NoDup_app. split; [done|]. split; [|apply NoDup_singleton].
        intros x Hx Hx'%list_elem_of_singleton. subst. done.
      - apply Forall_app. split; [done|]. by repeat constructor. }
    pose proof (Hins _ Hqs) as Hok'. unfold queued_block_diagnostics.
    destruct (last (queued (set_queued (new_channel self) (bt_insert (height v) (qs ++ [q]) (queued self)))).*1)
      as [k|] eqn:Hlast; cbn [expect res_bind].
    + split; [done|]. split; [done|]. split; [done|]. split; [done|]. exists []. by rewrite app_nil_r.
    + exfalso. apply last_None in Hlast. apply fmap_nil_inv in Hlast. cbn in Hlast.
      pose proof (bt_insert_elem (height v) (qs ++ [q]) (queued self)) as Hin. rewrite Hlast in Hin.
      by apply not_elem_of_nil in Hin.
Qed.

Lemma queue_block_progress self b :
  match queue_block self b with
  | Ok (_, self') => verifier_progress self' = verifier_progress self
  | _ => True
  end.
Proof.
  unfold queue_block. destruct (check_block self b) as [v| |]; cbn [res_bind]; [|done|done].
  destruct (replace_older _ _) as [[qs' old]|]; [done|]. destruct (Nat.leb _ _); [done|].
  unfold queued_block_diagnostics. by destruct (last _).
Qed.

(** ** Honest runs *)

Section Honest.
Variable chain : Z -> Hash.

(** A block that is not a second preimage: with the hash of a chain block it has its parent. *)
Definition block_bound (b : Block) : Prop :=
  forall x h, header_hash (E := HeaderEncodingError) (header b) = Ok x -> 0 <= h -> x = chain h ->
    previous_block_hash (header b) = chain (h - 1).

(** A tip on the chain *)
Definition tip_honest (tip : option (Z * Hash)) : Prop := forall h x, tip = Some (h, x) -> 0 <= h /\ x = chain h.

(** The blocks of requests: decoded, and sent here by the router *)
Record routed (self : CheckpointVerifier) (b : Block) : Prop := {
  r_decoded : decoded b;
  r_bound : block_bound b;
  r_route : exists proposal, route (E := unit) (max_checkpoint_height self) b proposal = Ok (Ok true);
}.

Inductive run : nat -> CheckpointVerifier -> Prop :=
| run_start cps net payees tip max self :
    list_wf cps -> agrees chain cps -> chain (-1) = GENESIS_PREVIOUS_BLOCK_HASH -> net_wf net -> payees_wf payees ->
    tip_honest tip -> from_checkpoint_list (E := unit) cps net payees tip max = Ok self -> run 0 self
| run_call n self b o out self' :
    run n self -> routed self b -> call_with_origin (E := unit) self b o = Ok (out, self') -> run (S n) self'
| run_commit n self state down task channel queued_result r reset :
    run n self -> (channel, queued_result) ∈ sent self ->
    (forall tip, state_tip state = Ok tip -> tip_honest tip) ->
    commit_checkpoint_verified (E := unit) (network self) (payees self) state down task queued_result
      = Ok (r, Some reset) ->
    run (S n) (send_reset self reset).

Record run_inv (n : nat) (self : CheckpointVerifier) : Prop := {
  ri_honest : honest chain self;
  ri_network : net_wf (network self);
  ri_payees : payees_wf (payees self);
  ri_resets : Forall (fun r => tip_honest (tip r)) (reset_receiver self);
  ri_generation : 0 <= reset_generation self <= Z.of_nat n;
}.

Lemma honest_tip_state self tip r g :
  list_wf (checkpoint_list self) -> agrees chain (checkpoint_list self) ->
  chain (-1) = GENESIS_PREVIOUS_BLOCK_HASH -> queue_ok (bound chain) (queued self) -> tip_honest tip ->
  honest chain (set_resets (set_progress self (tip_state (checkpoint_list self) tip).1
    (tip_state (checkpoint_list self) tip).2) r g).
Proof.
  intros Hl Hag Hg Hq Ht. destruct tip as [[h x]|]; cbn.
  - destruct (Ht h x eq_refl) as [H0 ->]. destruct (Z.leb_spec (max_of (checkpoint_list self)) h).
    + by split.
    + split; [|done|done|]; [split; [done|done|]; cbn; split; [eauto|lia]|]. cbn. by intros ? [= ->].
  - by split.
Qed.

Lemma start_inv cps net payees tip max self :
  list_wf cps -> agrees chain cps -> chain (-1) = GENESIS_PREVIOUS_BLOCK_HASH -> net_wf net -> payees_wf payees ->
  tip_honest tip -> from_checkpoint_list (E := unit) cps net payees tip max = Ok self -> run_inv 0 self.
Proof.
  intros Hl Hag Hg Hnet Hp Ht H. unfold from_checkpoint_list in H. apply res_bind_Ok in H as (? & _ & H).
  rewrite progress_from_tip_Ok in H by done. cbn [res_bind] in H.
  destruct (tip_state cps tip) as [th p] eqn:Hts. apply res_bind_Ok in H as (? & _ & [= <-]).
  split; try done. set (self0 := mkVerifier cps max net payees None [] BeforeGenesis [] 0 0 []).
  pose proof (honest_tip_state self0 tip [] 0 Hl Hag Hg) as Hh. cbn in Hh. rewrite Hts in Hh. apply Hh; [|done].
  split; [constructor|done].
Qed.

Lemma reset_inv n self :
  run_inv n self -> Z.of_nat n < 2 ^ 64 - 1 ->
  exists self', apply_pending_reset (E := unit) self = Ok self' /\ run_inv (S n) self' /\
    max_checkpoint_height self' = max_checkpoint_height self.
Proof.
  intros [Hh Hnet Hp Hr Hgen] Hn. pose proof (h_ok _ _ Hh) as [Hl Hq _].
  assert (Hv : Forall (fun r => tip_valid (tip r)) (reset_receiver self)).
  { eapply Forall_impl; [exact Hr|]. intros r Hr0 h x Hx. by destruct (Hr0 h x Hx). }
  pose proof (apply_reset_Ok (E := unit) self Hl Hv ltac:(lia)) as Ha.
  destruct (current_resets self) as [|r0 rs] eqn:Hc.
  - eexists. split; [exact Ha|]. split; [|done]. split; try done; [|cbn; lia].
    destruct Hh as [[? ? ?] ? ? ?]. split; [by split|done|done|done].
  - destruct Ha as (r & Hin & _ & Ha). eexists. split; [exact Ha|]. split; [|done].
    rewrite <- Hc in Hin. apply list_elem_of_filter in Hin as [_ Hin]. rewrite Forall_forall in Hr.
    split; try done; [|cbn; lia]. destruct Hh as [_ Hag Hg _]. apply honest_tip_state; auto.
Qed.

Lemma process_range_inv n self :
  run_inv n self ->
  exists self', process_checkpoint_range (E := unit) self = Ok self' /\ run_inv n self' /\
    forall t, is_target self (CheckpointAt t) -> honest_queued chain self t -> accepts chain self self' t.
Proof.
  intros [Hh Hnet Hp Hr Hgen]. pose proof (process_range_eq (E := unit) _ self (h_ok _ _ Hh)) as Heq.
  assert (Hgo : forall prev, previous_hash self = Some prev -> verifier_progress self <> FinalCheckpoint ->
    process_checkpoint_range (E := unit) self = process_from self prev ->
    exists self', process_checkpoint_range (E := unit) self = Ok self' /\ run_inv n self' /\
    forall t, is_target self (CheckpointAt t) -> honest_queued chain self t -> accepts chain self self' t).
  { intros prev Hprev Hne Hpf. destruct (process_from_honest (E := unit) chain self prev Hh Hprev Hne)
      as (self' & Hok & Hh' & (Hc & Hn & Hpay & Hres & Hge) & Hacc).
    exists self'. split; [congruence|]. split; [|done]. split; congruence. }
  destruct (verifier_progress self) as [|h|h|] eqn:Hpr;
    [destruct Heq as (prev & Hprev & Heq); by apply (Hgo prev)..|].
  exists self. split; [done|]. split; [by split|]. intros t (Hne & _). congruence.
Qed.

Context {UL : U256Laws U}.

Lemma routed_height self b : routed self b -> exists h, coinbase_height b = Some h /\ Height.valid h.
Proof.
  intros [Hd _ [p Hr]]. unfold route in Hr. destruct (coinbase_height b) as [h|] eqn:Hh; [|done].
  exists h. split; [done|]. by apply Hd.
Qed.

(** A request up to the queue: it never panics, and the state stays honest. *)
Lemma queue_inv n self b :
  run_inv n self -> routed self b ->
  match queue_block self b with
  | Panic => False
  | Err _ => True
  | Ok (_, self') => run_inv n self'
  end.
Proof.
  intros [Hh Hnet Hp Hr Hgen] Hb. pose proof (h_ok _ _ Hh) as Hok.
  pose proof (queue_block_ok (bound chain) self b Hok) as Hq.
  pose proof (check_block_safe self b (vo_list _ _ Hok) Hnet Hp (r_decoded _ _ Hb)) as Hsafe.
  destruct (queue_block self b) as [[req self']| |].
  - destruct Hq as [Hok' ((Hc & Hn & Hpay & Hres & Hge) & Hprog & Htip & _)].
    { intros v (Hblk & Hhash & Hhb & _)%check_block_Ok. destruct (routed_height self b Hb) as (h & Hh' & Hvalid).
      split; [congruence|]. intros k Hk Heq. unfold parent. cbn in *. rewrite Hblk.
      by apply (r_bound _ _ Hb (block_hash v) k). }
    split; [|congruence..]. destruct Hh as [_ Hag Hg Ht]. split; [done|by rewrite Hc|done|].
    rewrite Hprog, Htip. done.
  - done.
  - apply Hsafe, Hq. intros v (Hblk & Hhash & Hhb & _)%check_block_Ok.
    destruct (routed_height self b Hb) as (h & Hh' & Hvalid).
    split; [congruence|]. intros k Hk Heq. unfold parent. cbn in *. rewrite Hblk.
    by apply (r_bound _ _ Hb (block_hash v) k).
Qed.

Lemma routed_max self self' b :
  max_checkpoint_height self' = max_checkpoint_height self -> routed self b -> routed self' b.
Proof. intros Hm [Hd Hbd [p Hr]]. split; [done|done|]. exists p. by rewrite Hm. Qed.

Lemma call_inv n self b o :
  run_inv n self -> Z.of_nat n < 2 ^ 64 - 1 -> routed self b ->
  exists out self', call_with_origin (E := unit) self b o = Ok (out, self') /\ run_inv (S n) self'.
Proof.
  intros Hinv Hn Hb. destruct (reset_inv n self Hinv Hn) as (self1 & Ha & Hinv1 & Hm). unfold call_with_origin.
  rewrite Ha. cbn [res_bind]. destruct (is_final_checkpoint (verifier_progress self1)).
  - destruct (routed_height self b Hb) as (h & Hh & [Hv _]).
    pose proof (merkle_safe (network self1) b h (ri_network _ _ Hinv1) Hh Hv) as Hs.
    destruct (merkle_root_validity (network self1) b (Block.transaction_hashes b)); [by eauto|by eauto|done].
  - pose proof (queue_inv (S n) self1 b Hinv1 (routed_max _ _ _ Hm Hb)) as Hq.
    destruct (queue_block self1 b) as [[req self2]|e|]; [|by eauto|done].
    destruct (process_range_inv (S n) self2 Hq) as (self3 & Hp & Hinv3 & _). rewrite Hp. cbn [res_bind]. eauto.
Qed.

Lemma commit_inv n self state down task channel qr r reset :
  run_inv n self -> (channel, qr) ∈ sent self -> (forall tip, state_tip state = Ok tip -> tip_honest tip) ->
  commit_checkpoint_verified (E := unit) (network self) (payees self) state down task qr = Ok (r, Some reset) ->
  run_inv (S n) (send_reset self reset).
Proof.
  intros [Hh Hnet Hp Hr Hgen] _ Htip Hc. split; [| | | |cbn; lia]; try done.
  - destruct Hh as [[? ? ?] ? ? ?]. split; [by split|done|done|done].
  - cbn. apply Forall_app. split; [done|]. constructor; [|done].
    unfold commit_checkpoint_verified in Hc. repeat case_match; simplify_eq. by apply Htip.
Qed.

Lemma run_has_inv n self : Z.of_nat n <= 2 ^ 64 - 1 -> run n self -> run_inv n self.
Proof.
  intros Hn Hrun. induction Hrun as [cps net payees tip max self Hl Hag Hg Hnet Hp Ht H
    |n self b o out self' _ IH Hb Hc|n self state down task ch qr r reset _ IH Hin Ht Hc].
  - by eapply start_inv.
  - destruct (call_inv n self b o) as (out' & self'' & Hc' & Hinv); [apply IH; lia|lia|done|].
    rewrite Hc in Hc'. by injection Hc' as <- <-.
  - eapply commit_inv; [apply IH; lia|done..].
Qed.
End Honest.

(** C25: The checkpoint verifier never panics and bounds its queue.  Along every run of
    requests with decoded blocks and of commit failures, from any honest tip, when the
    checkpoints are from one chain and no block shares the hash of a chain block with a
    different parent: none of the assertions and [expect]s of a request fails (the range
    is contiguous, checkpoints match, progress is made on success, the target shrinks on
    failure), and every height of the queue has between one and four blocks, with
    different hashes. *)
Theorem verifier_never_panics {UL : U256Laws U} (chain : Z -> Hash) n self b o :
  run chain n self -> Z.of_nat n < 2 ^ 64 - 1 -> routed chain self b ->
  exists out self', call_with_origin (E := unit) self b o = Ok (out, self') /\
    forall h qs, bt_get h (queued self') = Some qs ->
      (1 <= length qs <= MAX_QUEUED_BLOCKS_PER_HEIGHT)%nat /\ NoDup (hashes qs).
Proof.
  intros Hrun Hn Hb. apply (run_has_inv chain n self ltac:(lia)) in Hrun.
  destruct (call_inv chain n self b o Hrun Hn Hb) as (out & self' & Hc & Hinv). exists out, self'. split; [done|].
  intros h qs Hqs. destruct (qo_heights _ _ (vo_queue _ _ (h_ok _ _ (ri_honest _ _ _ Hinv))) h qs Hqs) as [_ [H1 H2 H3 _]].
  split; [|done]. split; [|done]. destruct qs; [done|cbn; lia].
Qed.

(** C13: Honest blocks are accepted.  When a request completes the queue up to a checkpoint,
    with the honest block at every height since the last verified one, and the queue does
    not reach a later checkpoint, the request accepts exactly the honest blocks of the
    range, in order, whatever other blocks are queued beside them, and the checkpoint is
    verified. *)
Theorem honest_range_accepted {UL : U256Laws U} (chain : Z -> Hash) n self b o self1 req self2 c :
  run chain n self -> Z.of_nat n < 2 ^ 64 - 1 -> routed chain self b ->
  apply_pending_reset (E := unit) self = Ok self1 -> queue_block self1 b = Ok (req, self2) ->
  verifier_progress self1 <> FinalCheckpoint ->
  is_Some (hash (checkpoint_list self2) c) -> start_of (verifier_progress self2) < c ->
  honest_queued chain self2 c ->
  (forall c', c < c' -> is_Some (hash (checkpoint_list self2) c') -> ~ ready self2 c') ->
  exists out self', call_with_origin (E := unit) self b o = Ok (out, self') /\ accepts chain self2 self' c.
Proof.
  intros Hrun Hn Hb Ha Hq Hne Hc Hlt Hhq Hlater. apply (run_has_inv chain n self ltac:(lia)) in Hrun.
  destruct (reset_inv chain n self Hrun Hn) as (self1' & Ha' & Hinv1 & Hm). rewrite Ha in Ha'. injection Ha' as <-.
  pose proof (queue_inv chain (S n) self1 b Hinv1 (routed_max chain _ _ _ Hm Hb)) as Hq'. rewrite Hq in Hq'.
  destruct (process_range_inv chain (S n) self2 Hq') as (self3 & Hp & Hinv3 & Hacc).
  unfold call_with_origin. rewrite Ha. cbn [res_bind].
  replace (is_final_checkpoint (verifier_progress self1)) with false by (by destruct (verifier_progress self1)).
  rewrite Hq, Hp. cbn [res_bind]. eexists _, _. split; [done|]. apply Hacc; [|done].
  split.
  - assert (Hpr : verifier_progress self2 = verifier_progress self1).
    { pose proof (queue_block_progress self1 b) as Hqp. rewrite Hq in Hqp. done. }
    by rewrite Hpr.
  - split.
    + split; [done|]. split; [done|]. intros h Hh. destruct (Hhq h Hh) as (qs & -> & _). eauto.
    + intros c' Hr. destruct (Z.le_gt_cases c' c) as [|Hgt]; [done|]. by destruct (Hlater c' Hgt (proj1 Hr)).
Qed.
End Requests.

(** ** An example *)

(** Three blocks on a network without proof of work, under a toy digest *)
Definition accept_all : Equihash := fun _ _ _ _ _ => true.

Definition chain_block (h : Z) (prev : Hash) : Block :=
  mkBlock
    (mkHeader 4 prev (h + 1) (replicate 32 0) (1500000000 * NANOS) 520617983 (replicate 32 0)
       (Regtest (replicate 36 0)))
    [mkBlockTx (mkTransaction [Coinbase h [] 0] [] [] [] [] [] None 4 None) (h + 1) None []
       (Amount.mk 0) (Amount.mk 0) (Amount.mk 0) 0 0 0 0 0].

Definition hash_of (b : Block) : Hash :=
  match header_hash (E := unit) (SH := MerkleFacts.toy_sha256) (header b) with Ok x => x | _ => 0 end.

Definition chain0 : Block := chain_block 0 GENESIS_PREVIOUS_BLOCK_HASH.
Definition chain1 : Block := chain_block 1 (hash_of chain0).
Definition chain2 : Block := chain_block 2 (hash_of chain1).
Definition fork2 : Block := chain_block 2 (7 * 2 ^ 240).

Definition sample_list : CheckpointList := [(0, hash_of chain0); (2, hash_of chain2)].

(** Checkpoints at 0 and 2; the last verified block is genesis, a fork block and the
    honest block at height 2 are queued. *)
Definition start0 : CheckpointVerifier :=
  mkVerifier sample_list 2 BlockCheckFacts.payee_network BlockCheckFacts.sample_payees (Some (hash_of chain0)) []
    (InitialTip 0) [] 0 0 [].

Definition call_all (self : CheckpointVerifier) (bs : list Block) : CheckpointVerifier :=
  foldl (fun self b =>
           match call_with_origin (E := unit) (U := u256_Z) (EQ := accept_all) (SH := MerkleFacts.toy_sha256) self b
                   NetworkOrigin with
           | Ok (_, self) => self
           | _ => self
           end) self bs.

Definition sample_chain (h : Z) : Hash :=
  if h =? -1 then GENESIS_PREVIOUS_BLOCK_HASH
  else if h =? 0 then hash_of chain0
  else if h =? 1 then hash_of chain1
  else if h =? 2 then hash_of chain2
  else 1.

Lemma sample_list_wf : list_wf sample_list.
Proof.
  apply (from_list_Ok sample_list); [repeat constructor; cbn; lia|]. vm_compute. reflexivity.
Qed.

#[local] Existing Instance u256_Z.
#[local] Existing Instance accept_all.
#[local] Existing Instance MerkleFacts.toy_sha256.
#[local] Existing Instance MerkleFacts.toy_blake2b.

Lemma sample_block_header h prev : 0 <= h < 100 -> is_hash prev -> decoded (chain_block h prev).
Proof.
  intros Hh Hp. split.
  - split; cbn [chain_block header version previous_block_hash merkle_root commitment_bytes time difficulty_threshold
      nonce solution]; try done.
    + unfold is_hash. lia.
    + split; [done|]. repeat constructor; lia.
    + exists 1500000000. split; [done|]. split; [lia|vm_compute; reflexivity].
    + split; [done|]. repeat constructor; lia.
    + split; [|done]. cbn. repeat constructor; lia.
  - intros k. cbn. intros [= <-]. unfold Height.valid, Height.MIN. rewrite Height.MAX_val. lia.
  - repeat constructor. cbn. lia.
Qed.

Definition bound_check (b : Block) : bool :=
  negb (hash_of b =? 1) &&
  forallb (fun h => negb (hash_of b =? sample_chain h) || (previous_block_hash (header b) =? sample_chain (h - 1)))
    [0; 1; 2].

Lemma sample_bound b : valid_header (header b) -> bound_check b = true -> block_bound sample_chain b.
Proof.
  intros Hv [Hne Hb]%andb_prop x h Hx Hh ->.
  assert (Hhash : hash_of b = sample_chain h).
  { unfold hash_of, header_hash in *. destruct (write_header_safe (header b) Hv) as [bs Hbs].
    rewrite Hbs in Hx |- *. cbn in Hx |- *. congruence. }
  assert (Hc : h ∈ [0; 1; 2]).
  { destruct (Z.leb_spec h 2); [rewrite !elem_of_cons; lia|]. exfalso. rewrite Hhash in Hne. unfold sample_chain in Hne.
    repeat (match type of Hne with context [if ?a =? ?b then _ else _] =>
      rewrite (proj2 (Z.eqb_neq a b)) in Hne by lia end). done. }
  rewrite forallb_forall in Hb. specialize (Hb h (proj1 (list_elem_of_In _ _) Hc)).
  rewrite Hhash, Z.eqb_refl in Hb. cbn in Hb. lia.
Qed.

Lemma sample_routed self h prev :
  max_checkpoint_height self = 2 -> 0 <= h <= 2 -> is_hash prev -> bound_check (chain_block h prev) = true ->
  routed sample_chain self (chain_block h prev).
Proof.
  intros Hm Hh Hp Hb. pose proof (sample_block_header h prev ltac:(lia) Hp) as Hd.
  split; [done|apply sample_bound; [apply Hd|done]|]. exists false. unfold route. cbn. rewrite Hm.
  by rewrite (proj2 (Z.leb_le h 2)) by lia.
Qed.

Lemma start0_run : run sample_chain 0 start0.
Proof.
  apply (run_start sample_chain sample_list BlockCheckFacts.payee_network BlockCheckFacts.sample_payees
    (Some (0, hash_of chain0)) 2).
  - apply sample_list_wf.
  - intros h x. unfold hash, sample_list, sample_chain. cbn [bt_get].
    generalize (hash_of chain0) (hash_of chain1) (hash_of chain2). intros x0 x1 x2.
    destruct (Z.eqb_spec h 0) as [->|]; [by intros [= <-]|]. destruct (Z.eqb_spec h 2) as [->|]; [by intros [= <-]|done].
  - reflexivity.
  - apply BlockCheckFacts.payee_network_wf.
  - split; [repeat constructor; vm_compute; discriminate|]. split; [repeat constructor|vm_compute; discriminate].
  - intros h x [= <- <-]. split; [lia|reflexivity].
  - vm_compute. reflexivity.
Qed.

(** The run after a fork block and the honest block at height 2 were queued *)
Definition start2 : CheckpointVerifier := call_all start0 [fork2; chain2].

Lemma start2_run : run sample_chain 2 start2.
Proof.
  eapply (run_call sample_chain 1 (call_all start0 [fork2]) chain2 NetworkOrigin).
  - eapply (run_call sample_chain 0 start0 fork2 NetworkOrigin).
    + apply start0_run.
    + apply sample_routed; [done|lia|vm_compute; done|]. vm_compute. reflexivity.
    + vm_compute. reflexivity.
  - apply sample_routed; [vm_compute; reflexivity|lia|vm_compute; done|]. vm_compute. reflexivity.
  - vm_compute. reflexivity.
Qed.

Lemma chain1_routed : routed sample_chain start2 chain1.
Proof. apply sample_routed; [vm_compute; reflexivity|lia|vm_compute; done|]. vm_compute. reflexivity. Qed.

Lemma verifier_never_panics_witness :
  exists out self', call_with_origin (E := unit) start2 chain1 NetworkOrigin = Ok (out, self') /\
    forall h qs, bt_get h (queued self') = Some qs ->
      (1 <= length qs <= MAX_QUEUED_BLOCKS_PER_HEIGHT)%nat /\ NoDup (hashes qs).
Proof.
  apply (verifier_never_panics sample_chain 2 start2 chain1 NetworkOrigin start2_run); [lia|apply chain1_routed].
Defined.

(** The state with all blocks queued *)
Definition queued3 : CheckpointVerifier :=
  match queue_block start2 chain1 with Ok (_, self) => self | _ => start2 end.

Lemma queued3_ok : verifier_ok (bound sample_chain) queued3.
Proof.
  pose proof (run_has_inv sample_chain 2 start2 ltac:(lia) start2_run) as Hinv.
  pose proof (queue_inv sample_chain 2 start2 chain1 Hinv chain1_routed) as Hq.
  unfold queued3. destruct (queue_block start2 chain1) as [[req self]| |]; [|apply Hinv|done]. apply Hq.
Qed.

Lemma honest_range_accepted_witness :
  exists out self', call_with_origin (E := unit) start2 chain1 NetworkOrigin = Ok (out, self') /\
    accepts sample_chain queued3 self' 2.
Proof.
  assert (Hq : exists req, queue_block start2 chain1 = Ok (req, queued3)) by (eexists; vm_compute; reflexivity).
  destruct Hq as [req Hq].
  apply (honest_range_accepted sample_chain 2 start2 chain1 NetworkOrigin start2 req queued3 2 start2_run).
  - lia.
  - apply chain1_routed.
  - vm_compute. reflexivity.
  - exact Hq.
  - vm_compute. discriminate.
  - vm_compute. eauto.
  - vm_compute. reflexivity.
  - intros h Hh. replace (start_of (verifier_progress queued3)) with 0 in Hh by (vm_compute; reflexivity).
    assert (h = 1 \/ h = 2) as [-> | ->] by lia.
    + eexists. split; [vm_compute; reflexivity|]. vm_compute. by left.
    + eexists. split; [vm_compute; reflexivity|]. vm_compute. right. by left.
  - intros c' Hc' [x Hx]. exfalso.
    replace (checkpoint_list queued3) with sample_list in Hx by (vm_compute; reflexivity).
    unfold hash, sample_list in Hx. cbn [bt_get] in Hx.
    rewrite (proj2 (Z.eqb_neq c' 0)), (proj2 (Z.eqb_neq c' 2)) in Hx by lia. discriminate Hx.
Defined.

Lemma checkpoint_range_chained_witness :
  exists self', process_checkpoint_range (E := unit) queued3 = Ok self' /\ chained queued3 self'.
Proof.
  eexists. split; [vm_compute; reflexivity|].
  apply (checkpoint_range_chained (E := unit) (bound sample_chain) queued3); [apply queued3_ok|].
  vm_compute. reflexivity.
Defined.
End CheckpointRun.
