(* ===== verification/HeightMap.v ===== *)
(** * Height maps

    [zakura-state/src/service/non_finalized_state/chain/height_map.rs]: an index
    by height in chunks of 64 heights, each an array of slots and a word with a
    bit for each occupied slot.  The file proves that it is an ordered map: every
    operation is the one of a [BTreeMap] on its entries. *)

From stdpp Require Import base numbers list option sets sorting.
From Stdlib Require Import ZArith Lia.
From S2P Require Import Prelude BTree.
Local Open Scope Z_scope.
Local Notation length := List.length.

Module HeightMap.

Definition HEIGHTS_PER_CHUNK : Z := 64.
Definition CHUNK_SLOTS : nat := 64.

Definition chunk_id (height : Z) : Z := height / HEIGHTS_PER_CHUNK.
Definition slot (height : Z) : nat := Z.to_nat (height mod HEIGHTS_PER_CHUNK).

(** [NonZeroU64::new], [trailing_zeros] and [leading_zeros] *)
Definition non_zero (z : Z) : option Z := if z =? 0 then None else Some z.
Definition trailing_zeros (z : Z) : nat :=
  default 64%nat (fst <$> list_find (fun i => Z.testbit z (Z.of_nat i) = true) (seq 0 64)).
Definition leading_zeros (z : Z) : nat := Z.to_nat (63 - Z.log2 z).

Section HeightMap.
Context {V : Type}.

Record Chunk := mkChunk { slots : list (option (Z * V)); occupied : Z }.

(** [Chunk::default] *)
Definition empty_chunk : Chunk := mkChunk (replicate CHUNK_SLOTS None) 0.

Definition chunk_is_empty (self : Chunk) : bool := occupied self =? 0.

Definition entry_at (self : Chunk) (slot : nat) : option (Z * V) := mjoin (slots self !! slot).

Definition first (self : Chunk) : option (Z * V) :=
  occupied ← non_zero (occupied self); entry_at self (trailing_zeros occupied).

Definition last (self : Chunk) : option (Z * V) :=
  occupied ← non_zero (occupied self); entry_at self (63 - leading_zeros occupied).

Definition chunk_get (self : Chunk) (height : Z) : option V :=
  snd <$> mjoin (slots self !! slot height).

(** [Chunk::iter]: the occupied slots in order *)
Definition chunk_iter (self : Chunk) : list (Z * V) := omap id (slots self).

Definition chunk_insert (self : Chunk) (height : Z) (value : V) : Chunk * option V :=
  (mkChunk (<[slot height := Some (height, value)]> (slots self))
     (Z.lor (occupied self) (Z.shiftl 1 (Z.of_nat (slot height)))),
   chunk_get self height).

Definition chunk_remove (self : Chunk) (height : Z) : Chunk * option V :=
  match mjoin (slots self !! slot height) with
  | None => (self, None)
  | Some (_, value) =>
      (mkChunk (<[slot height := None]> (slots self))
         (Z.ldiff (occupied self) (Z.shiftl 1 (Z.of_nat (slot height)))), Some value)
  end.

Definition chunk_remove_through (self : Chunk) (height : Z) : Chunk :=
  let last := slot height in
  mkChunk (imap (fun i entry => if (i <=? last)%nat then None else entry) (slots self))
    (Z.land (occupied self)
       (if (last =? CHUNK_SLOTS - 1)%nat then 0
        else Z.shiftl u64_max (Z.of_nat last + 1) mod 2 ^ 64)).

(** The chunks by their id *)
Definition HeightMap := list (Z * Chunk).

Definition get (self : HeightMap) (height : Z) : option V :=
  chunk ← bt_get (chunk_id height) self; chunk_get chunk height.

Definition last_key_value (self : HeightMap) : option (Z * V) :=
  '(_, chunk) ← list.last self; last chunk.

Definition chunk_bound (bound : Bound) : Bound :=
  match bound with
  | Unbounded => Unbounded
  | Included height | Excluded height => Included (chunk_id height)
  end.

Definition range {E} (self : HeightMap) (start end_ : Bound) : res E (list (Z * V)) :=
  let? _ := rust_assert (range_valid start end_) in
  let? chunks := bt_range (chunk_bound start) (chunk_bound end_) self in
  Ok (filter (fun kv => above start kv.1 && below end_ kv.1) (chunks ≫= fun kc => chunk_iter kc.2)).

Definition insert (self : HeightMap) (height : Z) (value : V) : HeightMap * option V :=
  let chunk := default empty_chunk (bt_get (chunk_id height) self) in
  let '(chunk, previous) := chunk_insert chunk height value in
  (bt_insert (chunk_id height) chunk self, previous).

Definition remove (self : HeightMap) (height : Z) : HeightMap * option V :=
  let id := chunk_id height in
  match bt_get id self with
  | None => (self, None)
  | Some chunk =>
      match chunk_get chunk height with
      | None => (self, None)
      | Some _ =>
          let '(chunk, removed) := chunk_remove chunk height in
          (if chunk_is_empty chunk then bt_remove id self else bt_insert id chunk self, removed)
      end
  end.

Definition remove_through (self : HeightMap) (height : Z) : HeightMap :=
  let boundary_chunk_id := chunk_id height in
  let chunks := (bt_split_off boundary_chunk_id self).2 in
  match bt_get boundary_chunk_id chunks with
  | None => chunks
  | Some chunk =>
      let chunk :=
        match first chunk with
        | Some (key, _) => if key <=? height then chunk_remove_through chunk height else chunk
        | None => chunk
        end in
      if chunk_is_empty chunk then bt_remove boundary_chunk_id chunks
      else bt_insert boundary_chunk_id chunk chunks
  end.

(** [Entry::or_insert_with]; [make] may panic. *)
Definition or_insert_with {E} (self : HeightMap) (height : Z) (make : res E V) : res E HeightMap :=
  match get self height with
  | Some _ => Ok self
  | None => let? value := make in Ok (insert self height value).1
  end.
End HeightMap.
Arguments Chunk : clear implicits.
Arguments HeightMap : clear implicits.

(** ** The entries of a map *)

Section Facts.
Context {V : Type}.
Implicit Types (c : Chunk V) (m : HeightMap V).

Definition entries m : list (Z * V) := m ≫= fun kc => chunk_iter kc.2.

(** Slot [i] holds an entry of height [base + i], its bit tells whether it does. *)
Definition slots_ok (base : Z) (l : list (option (Z * V))) : Prop :=
  forall i h v, l !! i = Some (Some (h, v)) -> h = base + Z.of_nat i.

Record chunk_wf (id : Z) c : Prop := {
  slots_length : length (slots c) = CHUNK_SLOTS;
  slots_at : slots_ok (id * 64) (slots c);
  occupied_range : 0 <= occupied c /\ forall i, 64 <= i -> Z.testbit (occupied c) i = false;
  occupied_bit : forall i, (i < 64)%nat ->
    Z.testbit (occupied c) (Z.of_nat i) = bool_decide (is_Some (entry_at c i));
}.

Definition map_wf m : Prop :=
  bt_wf m /\ Forall (fun kc => chunk_wf kc.1 kc.2 /\ occupied kc.2 <> 0) m.

Lemma slot_bound h : (slot h < 64)%nat.
Proof. unfold slot, HEIGHTS_PER_CHUNK. pose proof (Z.mod_pos_bound h 64). lia. Qed.

Lemma height_slot h : h = chunk_id h * 64 + Z.of_nat (slot h).
Proof.
  unfold chunk_id, slot, HEIGHTS_PER_CHUNK. pose proof (Z.mod_pos_bound h 64).
  rewrite Z2Nat.id by lia. pose proof (Z.div_mod h 64). lia.
Qed.

Lemma slot_inj h h' : chunk_id h = chunk_id h' -> slot h = slot h' -> h = h'.
Proof. intros Hc Hs. rewrite (height_slot h), (height_slot h'). congruence. Qed.

Lemma chunk_slot id i : (i < 64)%nat ->
  chunk_id (id * 64 + Z.of_nat i) = id /\ slot (id * 64 + Z.of_nat i) = i.
Proof.
  intros Hi. unfold chunk_id, slot, HEIGHTS_PER_CHUNK.
  rewrite Z.div_add_l, Z.div_small, (Z.add_comm (id * 64)), Z.mod_add, Z.mod_small by lia. lia.
Qed.

Lemma omap_sorted base (l : list (option (Z * V))) :
  slots_ok base l -> bt_wf (omap id l) /\ Forall (fun kv => base <= kv.1) (omap id l).
Proof.
  revert base. induction l as [|o l IH]; intros base Hl; cbn; [by repeat constructor|].
  destruct (IH (base + 1)) as [Hwf Hbase].
  { intros i h v Hi. rewrite (Hl (S i) h v Hi). lia. }
  rewrite Forall_forall in Hbase. destruct o as [[h v]|]; cbn.
  - pose proof (Hl 0%nat h v eq_refl) as ->. rewrite bt_wf_cons, Forall_cons, !Forall_forall.
    split; [split; [done|]|split; [cbn; lia|]]; intros x Hx%Hbase; lia.
  - split; [done|]. rewrite Forall_forall. intros x Hx%Hbase. lia.
Qed.

Lemma chunk_iter_elem id c h v :
  chunk_wf id c -> (h, v) ∈ chunk_iter c <-> chunk_id h = id /\ chunk_get c h = Some v.
Proof.
  intros Hc. unfold chunk_iter, chunk_get. rewrite list_elem_of_omap. split.
  - intros (o & (i & Hi)%list_elem_of_lookup & Ho). cbn in Ho. subst o.
    pose proof (slots_at _ _ Hc i h v Hi) as ->.
    apply lookup_lt_Some in Hi as Hlt. rewrite (slots_length _ _ Hc) in Hlt.
    destruct (chunk_slot id i Hlt) as [-> ->]. by rewrite Hi.
  - intros [<- Hv]. destruct (slots c !! slot h) as [[[h' v']|]|] eqn:Hs; cbn in Hv; [|done..].
    injection Hv as ->. exists (Some (h', v)). split; [by eapply list_elem_of_lookup_2|].
    cbn. do 2 f_equal. rewrite (slots_at _ _ Hc _ _ _ Hs). symmetry. apply height_slot.
Qed.

Lemma get_elem m h v : map_wf m -> (h, v) ∈ entries m <-> get m h = Some v.
Proof.
  intros [Hm Hc]. unfold entries, get. rewrite list_elem_of_bind, bind_Some. split.
  - intros ([id c] & Hv & Hin). rewrite Forall_forall in Hc. destruct (Hc _ Hin) as [Hwf _].
    apply (chunk_iter_elem _ _ _ _ Hwf) in Hv as [Hid Hv]. cbn in Hid. subst id.
    exists c. split; [|done]. by apply bt_get_Some.
  - intros (c & Hg & Hv). apply bt_get_Some in Hg; [|done]. exists (chunk_id h, c). split; [|done].
    rewrite Forall_forall in Hc. destruct (Hc _ Hg) as [Hwf _]. by apply (chunk_iter_elem _ _ _ _ Hwf).
Qed.

Lemma entries_wf m : map_wf m -> bt_wf (entries m).
Proof.
  intros [Hm Hc]. induction m as [|[id c] m IH]; [constructor|].
  apply bt_wf_cons in Hm as [Hm Hid]. apply Forall_cons in Hc as [[Hwf _] Hc]. cbn.
  apply bt_wf_app. split; [by eapply omap_sorted, slots_at|]. split; [by apply IH|].
  intros [h v] [h' v'] Hin Hin'. cbn.
  apply (chunk_iter_elem _ _ _ _ Hwf) in Hin as [Hh _].
  apply list_elem_of_bind in Hin' as ([id' c'] & Hin' & Hm').
  rewrite Forall_forall in Hc, Hid. specialize (Hid _ Hm'). destruct (Hc _ Hm') as [Hwf' _].
  apply (chunk_iter_elem _ _ _ _ Hwf') in Hin' as [Hh' _]. cbn in *.
  pose proof (height_slot h). pose proof (height_slot h'). pose proof (slot_bound h). lia.
Qed.

Lemma get_entries m h : map_wf m -> get m h = bt_get h (entries m).
Proof.
  intros Hm. apply option_eq. intros v. rewrite bt_get_Some by by apply entries_wf. by rewrite get_elem.
Qed.

(** ** Chunks *)

Lemma empty_chunk_wf id : chunk_wf id (@empty_chunk V).
Proof.
  split; [done| | |]; cbn [slots occupied empty_chunk].
  - intros i h v Hi. by apply lookup_replicate in Hi as [[=] _].
  - split; [lia|]. intros i _. apply Z.testbit_0_l.
  - intros i Hi. rewrite Z.testbit_0_l. symmetry. apply bool_decide_eq_false. unfold entry_at. cbn [slots empty_chunk].
    by rewrite lookup_replicate_2.
Qed.

(** A chunk with one slot changed, and its bit with it *)
Lemma chunk_set_wf id c h o bits :
  chunk_wf id c -> chunk_id h = id -> (forall e, o = Some e -> e.1 = h) -> 0 <= bits ->
  (forall i, 0 <= i -> Z.testbit bits i =
     if i =? Z.of_nat (slot h) then bool_decide (is_Some o) else Z.testbit (occupied c) i) ->
  chunk_wf id (mkChunk (<[slot h := o]> (slots c)) bits).
Proof.
  intros [Hlen Hat [Hpos Hhigh] Hbit] <- Ho Hb Hbits. pose proof (slot_bound h) as Hs. split; cbn [slots occupied].
  - by rewrite length_insert.
  - intros i h' v Hi. apply list_lookup_insert_Some in Hi as [(<- & -> & _)|(_ & Hi)]; [|by eapply Hat].
    specialize (Ho (h', v) eq_refl). cbn in Ho. subst h'. apply height_slot.
  - split; [done|]. intros i Hi. rewrite Hbits by lia. rewrite (proj2 (Z.eqb_neq _ _)) by lia. by apply Hhigh.
  - intros i Hi. rewrite Hbits by lia. unfold entry_at. cbn [slots].
    destruct (Z.eqb_spec (Z.of_nat i) (Z.of_nat (slot h))) as [Heq|Hne].
    + apply Nat2Z.inj in Heq as ->. rewrite list_lookup_insert_eq by (rewrite Hlen; unfold CHUNK_SLOTS; lia). done.
    + rewrite list_lookup_insert_ne by lia. by apply Hbit.
Qed.

Lemma chunk_get_set id c h o bits h' :
  chunk_wf id c -> chunk_id h = id -> chunk_id h' = id ->
  chunk_get (mkChunk (<[slot h := o]> (slots c)) bits) h' =
  if h' =? h then snd <$> o else chunk_get c h'.
Proof.
  intros Hc Hid Hid'. unfold chunk_get. cbn [slots].
  destruct (Z.eqb_spec h' h) as [->|Hne].
  - rewrite list_lookup_insert_eq; [done|]. rewrite (slots_length _ _ Hc). apply slot_bound.
  - rewrite list_lookup_insert_ne; [done|]. intros Hs. apply Hne, slot_inj; congruence.
Qed.

Lemma chunk_insert_wf id c h v :
  chunk_wf id c -> chunk_id h = id -> chunk_wf id (chunk_insert c h v).1 /\ occupied (chunk_insert c h v).1 <> 0.
Proof.
  intros Hc Hid. pose proof (slot_bound h) as Hs. destruct (occupied_range _ _ Hc) as [Hpos _].
  unfold chunk_insert. cbn [fst]. rewrite Z.shiftl_1_l.
  assert (Hbits : forall i, 0 <= i -> Z.testbit (Z.lor (occupied c) (2 ^ Z.of_nat (slot h))) i =
            if i =? Z.of_nat (slot h) then true else Z.testbit (occupied c) i).
  { intros i Hi. rewrite Z.lor_spec, Z.pow2_bits_eqb, (Z.eqb_sym _ i) by lia.
    destruct (i =? _); [apply orb_true_r|apply orb_false_r]. }
  split.
  - apply chunk_set_wf; [done|done|by intros e [= <-]|apply Z.lor_nonneg; lia|exact Hbits].
  - cbn [occupied]. intros H0. specialize (Hbits (Z.of_nat (slot h)) ltac:(lia)).
    by rewrite H0, Z.testbit_0_l, Z.eqb_refl in Hbits.
Qed.

Lemma chunk_remove_wf id c h v :
  chunk_wf id c -> chunk_id h = id -> chunk_get c h = Some v ->
  chunk_wf id (chunk_remove c h).1 /\ (chunk_remove c h).2 = Some v /\
  forall h', chunk_id h' = id ->
    chunk_get (chunk_remove c h).1 h' = if h' =? h then None else chunk_get c h'.
Proof.
  intros Hc Hid Hv. unfold chunk_get in Hv. unfold chunk_remove.
  destruct (mjoin (slots c !! slot h)) as [[h0 v0]|] eqn:Hs; [|done]. cbn in Hv. injection Hv as <-.
  cbn [fst snd]. rewrite Z.shiftl_1_l. destruct (occupied_range _ _ Hc) as [Hpos _].
  split_and!; [|done|by intros h' Hid'; rewrite (chunk_get_set id)].
  apply chunk_set_wf; [done..|by apply Z.ldiff_nonneg; left|].
  intros i Hi. rewrite Z.ldiff_spec, Z.pow2_bits_eqb, (Z.eqb_sym _ i) by lia.
  destruct (i =? _); [by rewrite andb_false_r|by rewrite andb_true_r].
Qed.

Lemma occupied_zero id c : chunk_wf id c -> occupied c = 0 <-> forall h, chunk_id h = id -> chunk_get c h = None.
Proof.
  intros Hc. split.
  - intros H0 h Hid. pose proof (occupied_bit _ _ Hc (slot h) (slot_bound h)) as Hb.
    rewrite H0, Z.testbit_0_l in Hb. symmetry in Hb. apply bool_decide_eq_false in Hb.
    unfold chunk_get, entry_at in *. destruct (mjoin _); [|done]. exfalso. by apply Hb.
  - intros Hnone. apply Z.bits_inj_0. intros i.
    destruct (Z.lt_ge_cases i 0); [by apply Z.testbit_neg_r|].
    destruct (Z.le_gt_cases 64 i); [by apply (occupied_range _ _ Hc)|].
    pose proof (occupied_bit _ _ Hc (Z.to_nat i) ltac:(lia)) as Hb. rewrite Z2Nat.id in Hb by lia.
    rewrite Hb. apply bool_decide_eq_false.
    destruct (chunk_slot id (Z.to_nat i) ltac:(lia)) as [Hid Hs].
    specialize (Hnone _ Hid). unfold chunk_get in Hnone. rewrite Hs in Hnone. unfold entry_at.
    by destruct (mjoin _).
Qed.

(** The set bits are the entries. *)
Lemma bit_entry id c i :
  chunk_wf id c -> (i < 64)%nat -> Z.testbit (occupied c) (Z.of_nat i) = true ->
  exists v, entry_at c i = Some (id * 64 + Z.of_nat i, v) /\ (id * 64 + Z.of_nat i, v) ∈ chunk_iter c.
Proof.
  intros Hc Hi Hb. rewrite (occupied_bit _ _ Hc) in Hb by done. apply bool_decide_eq_true in Hb as [[h v] He].
  assert (Hl : slots c !! i = Some (Some (h, v))).
  { unfold entry_at in He. destruct (slots c !! i); cbn in He; congruence. }
  pose proof (slots_at _ _ Hc _ _ _ Hl) as ->. exists v. split; [done|].
  apply (chunk_iter_elem _ _ _ _ Hc). destruct (chunk_slot id i Hi) as [Hid Hs]. split; [done|].
  unfold chunk_get. by rewrite Hs, Hl.
Qed.

Lemma entry_bit id c h v :
  chunk_wf id c -> (h, v) ∈ chunk_iter c ->
  h = id * 64 + Z.of_nat (slot h) /\ Z.testbit (occupied c) (Z.of_nat (slot h)) = true.
Proof.
  intros Hc [<- Hg]%(chunk_iter_elem _ _ _ _ Hc). split; [apply height_slot|].
  rewrite (occupied_bit _ _ Hc) by apply slot_bound. apply bool_decide_eq_true.
  unfold chunk_get, entry_at in *. destruct (mjoin _); [by eexists|done].
Qed.

Lemma first_spec id c :
  chunk_wf id c -> occupied c <> 0 ->
  exists e, first c = Some e /\ e ∈ chunk_iter c /\ forall e', e' ∈ chunk_iter c -> e.1 <= e'.1.
Proof.
  intros Hc H0. unfold first, non_zero. rewrite (proj2 (Z.eqb_neq _ _)) by done. cbn [mbind option_bind].
  unfold trailing_zeros.
  destruct (list_find _ _) as [[j i]|] eqn:Hf.
  - apply list_find_Some in Hf as ([-> Hlt]%lookup_seq & Hb & Hmin). simpl from_option.
    destruct (bit_entry id c j Hc ltac:(lia) Hb) as (v & He & Hin). rewrite He. eexists. split_and!; [done..|].
    intros [h' v'] Hin'. destruct (entry_bit _ _ _ _ Hc Hin') as [Hh Hb']. cbn.
    destruct (Nat.lt_ge_cases (slot h') j) as [Hlt'|]; [|lia].
    exfalso. eapply (Hmin (slot h') (slot h')); [apply lookup_seq; lia|done|done].
  - exfalso. apply H0. apply (occupied_zero id); [done|]. intros h Hid.
    destruct (chunk_get c h) as [v|] eqn:Hg; [|done].
    destruct (entry_bit id c h v Hc) as [_ Hb]; [by apply (chunk_iter_elem _ _ _ _ Hc)|].
    apply list_find_None in Hf. rewrite Forall_forall in Hf. exfalso.
    eapply (Hf (slot h)); [apply elem_of_seq; pose proof (slot_bound h); lia|done].
Qed.

Lemma last_spec id c :
  chunk_wf id c -> occupied c <> 0 ->
  exists e, last c = Some e /\ e ∈ chunk_iter c /\ forall e', e' ∈ chunk_iter c -> e'.1 <= e.1.
Proof.
  intros Hc H0. destruct (occupied_range _ _ Hc) as [Hpos Hhigh].
  assert (Hb : Z.testbit (occupied c) (Z.log2 (occupied c)) = true) by (apply Z.bit_log2; lia).
  assert (0 <= Z.log2 (occupied c) < 64).
  { split; [apply Z.log2_nonneg|]. destruct (Z.lt_ge_cases (Z.log2 (occupied c)) 64); [done|].
    by rewrite Hhigh in Hb. }
  unfold last, non_zero. rewrite (proj2 (Z.eqb_neq _ _)) by done. cbn [mbind option_bind].
  unfold leading_zeros.
  replace (63 - Z.to_nat (63 - Z.log2 (occupied c)))%nat with (Z.to_nat (Z.log2 (occupied c))) by lia.
  destruct (bit_entry id c (Z.to_nat (Z.log2 (occupied c))) Hc) as (v & He & Hin);
    [lia|by rewrite Z2Nat.id by lia|].
  rewrite He. eexists. split_and!; [done..|]. intros [h' v'] Hin'.
  destruct (entry_bit _ _ _ _ Hc Hin') as [Hh Hb']. cbn.
  destruct (Z.lt_ge_cases (Z.log2 (occupied c)) (Z.of_nat (slot h'))); [|lia].
  by rewrite Z.bits_above_log2 in Hb' by lia.
Qed.

Lemma through_mask k i :
  (k < 64)%nat -> 0 <= i < 64 ->
  Z.testbit (if (k =? CHUNK_SLOTS - 1)%nat then 0 else Z.shiftl u64_max (Z.of_nat k + 1) mod 2 ^ 64) i
  = (Z.of_nat k <? i).
Proof.
  intros Hk Hi. unfold CHUNK_SLOTS. destruct (Nat.eqb_spec k (64 - 1)).
  - rewrite Z.testbit_0_l. symmetry. apply Z.ltb_ge. lia.
  - rewrite Z.mod_pow2_bits_low, Z.shiftl_spec by lia.
    change u64_max with (Z.ones 64).
    destruct (Z.ltb_spec (Z.of_nat k) i); [apply Z.ones_spec_low; lia|apply Z.testbit_neg_r; lia].
Qed.

Lemma chunk_remove_through_wf id c h :
  chunk_wf id c -> chunk_id h = id -> chunk_wf id (chunk_remove_through c h) /\
  forall h', chunk_id h' = id ->
    chunk_get (chunk_remove_through c h) h' = if h' <=? h then None else chunk_get c h'.
Proof.
  intros Hc Hid. pose proof (slot_bound h) as Hs. destruct Hc as [Hlen Hat [Hpos Hhigh] Hbit].
  assert (Hl : forall i, (i < 64)%nat -> entry_at (chunk_remove_through c h) i =
                 if (i <=? slot h)%nat then None else entry_at c i).
  { intros i Hi. unfold entry_at, chunk_remove_through. cbn [slots]. rewrite list_lookup_imap.
    destruct (slots c !! i) eqn:Hsi; cbn.
    - by destruct (i <=? slot h)%nat.
    - by destruct (i <=? slot h)%nat. }
  split; [split|].
  - cbn [slots chunk_remove_through]. by rewrite length_imap.
  - intros i h' v Hi. cbn [slots chunk_remove_through] in Hi. rewrite list_lookup_imap in Hi.
    apply fmap_Some in Hi as (o & Ho & Heq). destruct (i <=? slot h)%nat; [done|]. subst o. by eapply Hat.
  - cbn [occupied chunk_remove_through]. split; [apply Z.land_nonneg; by left|].
    intros i Hi. by rewrite Z.land_spec, Hhigh.
  - intros i Hi. rewrite Hl by done. cbn [occupied chunk_remove_through].
    rewrite Z.land_spec, through_mask, Hbit by lia.
    destruct (Nat.leb_spec i (slot h)), (Z.ltb_spec (Z.of_nat (slot h)) (Z.of_nat i)); try lia.
    + by rewrite andb_false_r.
    + by rewrite andb_true_r.
  - intros h' Hid'. unfold chunk_get. specialize (Hl (slot h') (slot_bound h')). unfold entry_at in Hl.
    rewrite Hl. pose proof (height_slot h). pose proof (height_slot h').
    destruct (Nat.leb_spec (slot h') (slot h)), (Z.leb_spec h' h); try lia; done.
Qed.

(** ** Maps *)

Lemma map_wf_get m :
  map_wf m <-> bt_wf m /\ forall id c, bt_get id m = Some c -> chunk_wf id c /\ occupied c <> 0.
Proof.
  unfold map_wf. rewrite Forall_forall. split; intros [Hm Hc]; (split; [done|]).
  - intros id c Hg. apply bt_get_Some in Hg; [|done]. by apply (Hc (id, c)).
  - intros [id c] Hin. apply Hc. by apply bt_get_Some.
Qed.

Lemma map_set m id c :
  map_wf m -> chunk_wf id c -> occupied c <> 0 ->
  map_wf (bt_insert id c m) /\
  forall h, get (bt_insert id c m) h = if chunk_id h =? id then chunk_get c h else get m h.
Proof.
  rewrite !map_wf_get. intros [Hm Hc] Hwf H0. split; [split; [by apply bt_insert_wf|]|].
  - intros id' c'. rewrite bt_get_insert by done. destruct (Z.eqb_spec id' id) as [->|]; [|apply Hc].
    by intros [= <-].
  - intros h. unfold get. rewrite bt_get_insert by done. by destruct (chunk_id h =? id).
Qed.

Lemma map_delete m id :
  map_wf m -> map_wf (bt_remove id m) /\
  forall h, get (bt_remove id m) h = if chunk_id h =? id then None else get m h.
Proof.
  rewrite !map_wf_get. intros [Hm Hc]. split; [split; [by apply bt_remove_wf|]|].
  - intros id' c'. rewrite bt_get_remove. destruct (id' =? id); [done|apply Hc].
  - intros h. unfold get. rewrite bt_get_remove. by destruct (chunk_id h =? id).
Qed.

(** A chunk is dropped when it is empty. *)
Lemma map_put m id c :
  map_wf m -> chunk_wf id c ->
  let m' := if chunk_is_empty c then bt_remove id m else bt_insert id c m in
  map_wf m' /\ forall h, get m' h = if chunk_id h =? id then chunk_get c h else get m h.
Proof.
  intros Hm Hc. unfold chunk_is_empty. destruct (Z.eqb_spec (occupied c) 0) as [H0|H0]; cbn zeta.
  - destruct (map_delete m id Hm) as [Hwf Hg]. split; [done|]. intros h. rewrite Hg.
    destruct (Z.eqb_spec (chunk_id h) id) as [Hid|]; [|done].
    symmetry. by apply (occupied_zero id c Hc).
  - by apply map_set.
Qed.

Lemma insert_get m h v :
  map_wf m -> map_wf (insert m h v).1 /\ (insert m h v).2 = get m h /\
  forall h', get (insert m h v).1 h' = if h' =? h then Some v else get m h'.
Proof.
  intros Hm. unfold insert. set (c := default empty_chunk (bt_get (chunk_id h) m)).
  assert (Hc : chunk_wf (chunk_id h) c).
  { unfold c. destruct (bt_get (chunk_id h) m) as [c0|] eqn:Hg; [|apply empty_chunk_wf].
    by eapply (proj2 (proj1 (map_wf_get m) Hm)). }
  assert (Hcg : forall h', chunk_id h' = chunk_id h -> chunk_get c h' = get m h').
  { intros h' Hid. unfold c, get. rewrite Hid. destruct (bt_get (chunk_id h) m); [done|].
    change (chunk_get (@empty_chunk V) h' = None). unfold chunk_get, empty_chunk. cbn [slots].
    by rewrite lookup_replicate_2 by apply slot_bound. }
  destruct (chunk_insert_wf _ _ _ v Hc eq_refl) as [Hwf H0].
  destruct (chunk_insert c h v) as [c' prev] eqn:Hins. cbn [fst snd] in *.
  destruct (map_set m (chunk_id h) c' Hm Hwf H0) as [Hm' Hg]. split_and!; [done| |].
  - unfold chunk_insert in Hins. injection Hins as _ <-. by apply Hcg.
  - intros h'. rewrite Hg. destruct (Z.eqb_spec (chunk_id h') (chunk_id h)) as [Hid|Hid].
    + unfold chunk_insert in Hins. injection Hins as <- _. rewrite (chunk_get_set (chunk_id h)) by done.
      destruct (h' =? h); [done|by apply Hcg].
    + by rewrite (proj2 (Z.eqb_neq h' h)) by congruence.
Qed.

Lemma remove_get m h :
  map_wf m -> map_wf (remove m h).1 /\ (remove m h).2 = get m h /\
  forall h', get (remove m h).1 h' = if h' =? h then None else get m h'.
Proof.
  intros Hm. unfold remove. assert (Hnone : get m h = None ->
    map_wf m /\ forall h', get m h' = if h' =? h then None else get m h').
  { intros Hn. split; [done|]. intros h'. by destruct (Z.eqb_spec h' h) as [->|]. }
  destruct (bt_get (chunk_id h) m) as [c|] eqn:Hb.
  2: { assert (Hn : get m h = None) by (unfold get; by rewrite Hb). rewrite Hn. naive_solver. }
  destruct (chunk_get c h) as [v|] eqn:Hg.
  2: { assert (Hn : get m h = None) by (unfold get; by rewrite Hb). rewrite Hn. naive_solver. }
  destruct (proj2 (proj1 (map_wf_get m) Hm) _ _ Hb) as [Hc _].
  destruct (chunk_remove_wf _ _ _ _ Hc eq_refl Hg) as (Hwf & Hret & Hget).
  destruct (chunk_remove c h) as [c' removed]. cbn [fst snd] in *.
  destruct (map_put m _ c' Hm Hwf) as [Hm' Hg']. split_and!; [done| |].
  - unfold get. rewrite Hb. cbn. congruence.
  - intros h'. rewrite Hg'. destruct (Z.eqb_spec (chunk_id h') (chunk_id h)) as [Hid|Hid].
    + rewrite Hget by done. unfold get. rewrite Hid, Hb. done.
    + by rewrite (proj2 (Z.eqb_neq h' h)) by congruence.
Qed.

Lemma remove_through_get m h :
  map_wf m -> map_wf (remove_through m h) /\
  forall h', get (remove_through m h) h' = if h' <=? h then None else get m h'.
Proof.
  intros Hm. unfold remove_through. set (m1 := (bt_split_off (chunk_id h) m).2).
  assert (Hb1 : forall id, bt_get id m1 = if decide (chunk_id h <= id) then bt_get id m else None).
  { intros id. apply (bt_get_filter (fun k => chunk_id h <= k) (H := fun j => Z_le_dec _ j)). }
  assert (Hm1 : map_wf m1).
  { apply map_wf_get in Hm as [Hm Hc]. apply map_wf_get. split; [by apply bt_filter_wf|].
    intros id c. rewrite Hb1. destruct (decide _); [apply Hc|done]. }
  assert (Hg1 : forall h', get m1 h' = if decide (chunk_id h <= chunk_id h') then get m h' else None).
  { intros h'. unfold get. rewrite Hb1. by destruct (decide _). }
  assert (Hother : forall h', chunk_id h' <> chunk_id h -> get m1 h' = if h' <=? h then None else get m h').
  { intros h' Hne. rewrite Hg1. pose proof (height_slot h). pose proof (height_slot h').
    pose proof (slot_bound h). pose proof (slot_bound h').
    destruct (decide _), (Z.leb_spec h' h); done || lia. }
  destruct (bt_get (chunk_id h) m1) as [c|] eqn:Hc.
  2: { split; [done|]. intros h'. destruct (Z.eq_dec (chunk_id h') (chunk_id h)) as [Hid|]; [|by apply Hother].
       assert (Hn : get m1 h' = None) by (unfold get; by rewrite Hid, Hc).
       rewrite Hn. rewrite Hg1, Hid, decide_True in Hn by lia. rewrite Hn. by destruct (h' <=? h). }
  destruct (proj2 (proj1 (map_wf_get m1) Hm1) _ _ Hc) as [Hwf H0].
  assert (Hcg : forall h', chunk_id h' = chunk_id h -> chunk_get c h' = get m h').
  { intros h' Hid. pose proof (Hg1 h') as Hg'. unfold get in Hg' at 1.
    rewrite Hid, Hc, decide_True in Hg' by lia. exact Hg'. }
  destruct (first_spec _ _ Hwf H0) as ([k w] & Hf & _ & Hmin). rewrite Hf.
  set (c' := if k <=? h then chunk_remove_through c h else c).
  assert (Hc' : chunk_wf (chunk_id h) c' /\ forall h', chunk_id h' = chunk_id h ->
                  chunk_get c' h' = if h' <=? h then None else chunk_get c h').
  { unfold c'. destruct (Z.leb_spec k h); [by apply chunk_remove_through_wf|]. split; [done|].
    intros h' Hid. destruct (Z.leb_spec h' h); [|done]. destruct (chunk_get c h') as [v|] eqn:Hv; [|done].
    specialize (Hmin (h', v) (proj2 (chunk_iter_elem _ _ _ _ Hwf) (conj Hid Hv))). cbn in Hmin. lia. }
  destruct Hc' as [Hwf' Hget']. destruct (map_put m1 _ c' Hm1 Hwf') as [Hm' Hg']. split; [done|].
  intros h'. rewrite Hg'. destruct (Z.eqb_spec (chunk_id h') (chunk_id h)) as [Hid|]; [|by apply Hother].
  by rewrite Hget', Hcg.
Qed.

(** ** Maps as ordered maps *)

Lemma entries_ext m l :
  map_wf m -> bt_wf l -> (forall h, get m h = bt_get h l) -> entries m = l.
Proof.
  intros Hm Hl Hg. apply bt_ext; [by apply entries_wf|done|]. intros h. by rewrite <- get_entries.
Qed.

Lemma last_entries m : map_wf m -> last_key_value m = list.last (entries m).
Proof.
  intros Hm. unfold last_key_value. destruct (list.last m) as [[id c]|] eqn:Hl.
  2: { apply last_None in Hl as ->. done. }
  pose proof (entries_wf m Hm) as Hwf. destruct Hm as [Hbt Hc]. rewrite Forall_forall in Hc.
  assert (Hin : (id, c) ∈ m) by by apply last_Some_elem_of.
  destruct (Hc _ Hin) as [Hcw H0]. cbn in Hcw, H0. cbn [mbind option_bind].
  destruct (last_spec _ _ Hcw H0) as ([k v] & -> & Hkv & Hmax). symmetry.
  apply bt_last_max; [done|apply list_elem_of_bind; by exists (id, c)|].
  intros [k' v'] ([id' c'] & Hkv' & Hin')%list_elem_of_bind. destruct (Hc _ Hin') as [Hcw' _].
  destruct (Z.eq_dec id' id) as [->|Hne].
  - apply (Hmax (k', v')). cbn in Hkv'. apply bt_get_Some in Hin, Hin'; [|done..]. congruence.
  - apply last_Some in Hl as [m' ->]. apply bt_wf_app in Hbt as (_ & _ & Hlt).
    apply elem_of_app in Hin' as [Hin'|Hin']; [|set_solver].
    specialize (Hlt _ (id, c) Hin' ltac:(set_solver)). cbn in *.
    apply (chunk_iter_elem _ _ _ _ Hcw) in Hkv as [<- _].
    apply (chunk_iter_elem _ _ _ _ Hcw') in Hkv' as [<- _].
    pose proof (height_slot k). pose proof (height_slot k'). pose proof (slot_bound k').
    pose proof (slot_bound k). lia.
Qed.

Lemma chunk_bounds start end_ h :
  above start h = true -> below end_ h = true ->
  above (chunk_bound start) (chunk_id h) = true /\ below (chunk_bound end_) (chunk_id h) = true.
Proof.
  intros Ha Hb. split.
  - destruct start; cbn [above chunk_bound] in *; unfold chunk_id, HEIGHTS_PER_CHUNK; [done|apply Z.leb_le, Z.div_le_mono; [lia|]..];
      [apply Z.leb_le in Ha|apply Z.ltb_lt in Ha]; lia.
  - destruct end_; cbn [below chunk_bound] in *; unfold chunk_id, HEIGHTS_PER_CHUNK; [done|apply Z.leb_le, Z.div_le_mono; [lia|]..];
      [apply Z.leb_le in Hb|apply Z.ltb_lt in Hb]; lia.
Qed.

Lemma range_entries {E} m start end_ :
  map_wf m -> range (E := E) m start end_ = bt_range start end_ (entries m).
Proof.
  intros Hm. unfold range. destruct (range_valid start end_) eqn:Hv; unfold bt_range; rewrite Hv; [|done].
  assert (Hv' : range_valid (chunk_bound start) (chunk_bound end_) = true).
  { destruct start as [|a|a], end_ as [|b|b]; cbn [range_valid chunk_bound] in *; try done;
      (apply Z.leb_le in Hv || apply Z.ltb_lt in Hv);
      unfold chunk_id, HEIGHTS_PER_CHUNK; apply Z.leb_le, Z.div_le_mono; lia. }
  rewrite Hv'. cbn [rust_assert res_bind]. f_equal.
  unfold entries. destruct Hm as [_ Hc]. induction m as [|[id c] m IH]; [done|].
  apply Forall_cons in Hc as [[Hcw _] Hc]. rewrite filter_cons.
  destruct (decide _) as [Hin|Hout]; cbn [mbind list_bind snd].
  - rewrite !filter_app. f_equal. by apply IH.
  - rewrite filter_app, IH by done. rewrite (filter_none _ (chunk_iter c)); [done|].
    intros [h v] Hhv Hr. apply Hout. cbn [fst] in *.
    apply Is_true_true, andb_true_iff in Hr as [Ha Hb].
    apply (chunk_iter_elem _ _ _ _ Hcw) in Hhv as [<- _].
    destruct (chunk_bounds _ _ _ Ha Hb) as [-> ->]. done.
Qed.

Lemma empty_map_wf : map_wf ([] : HeightMap V).
Proof. split; [constructor|constructor]. Qed.

Lemma insert_entries m h v : map_wf m -> entries (insert m h v).1 = bt_insert h v (entries m).
Proof.
  intros Hm. destruct (insert_get m h v Hm) as (Hwf & _ & Hg). pose proof (entries_wf m Hm).
  apply entries_ext; [done|by apply bt_insert_wf|]. intros h'. rewrite Hg, bt_get_insert by done.
  by rewrite get_entries.
Qed.

Lemma remove_entries m h : map_wf m -> entries (remove m h).1 = bt_remove h (entries m).
Proof.
  intros Hm. destruct (remove_get m h Hm) as (Hwf & _ & Hg). pose proof (entries_wf m Hm).
  apply entries_ext; [done|by apply bt_remove_wf|]. intros h'. rewrite Hg, bt_get_remove.
  by rewrite get_entries.
Qed.

Lemma remove_through_entries m h :
  map_wf m -> entries (remove_through m h) = filter (fun kv => h < kv.1) (entries m).
Proof.
  intros Hm. destruct (remove_through_get m h Hm) as (Hwf & Hg). pose proof (entries_wf m Hm).
  apply entries_ext; [done|by apply bt_filter_wf|]. intros h'. rewrite Hg.
  rewrite (bt_get_filter (fun k => h < k) (H := fun k => Z_lt_dec h k)), get_entries by done.
  destruct (Z.leb_spec h' h); [rewrite decide_False by lia|rewrite decide_True by lia]; done.
Qed.

(** ** Operations in sequence *)

Inductive op := Insert (h : Z) (v : V) | Remove (h : Z) | RemoveThrough (h : Z).

(** An operation on the chunks, and on an ordered map; both return what was
    stored at the height. *)
Definition apply (o : op) m : HeightMap V * option V :=
  match o with
  | Insert h v => insert m h v
  | Remove h => remove m h
  | RemoveThrough h => (remove_through m h, None)
  end.

Definition reference (o : op) (l : list (Z * V)) : list (Z * V) * option V :=
  match o with
  | Insert h v => (bt_insert h v l, bt_get h l)
  | Remove h => (bt_remove h l, bt_get h l)
  | RemoveThrough h => (filter (fun kv => h < kv.1) l, None)
  end.

Lemma apply_reference o m :
  map_wf m -> map_wf (apply o m).1 /\ entries (apply o m).1 = (reference o (entries m)).1 /\
  (apply o m).2 = (reference o (entries m)).2.
Proof.
  intros Hm. destruct o as [h v|h|h]; cbn [apply reference fst snd].
  - destruct (insert_get m h v Hm) as (Hwf & Hret & _). rewrite insert_entries by done.
    split_and!; [done..|]. by rewrite Hret, get_entries.
  - destruct (remove_get m h Hm) as (Hwf & Hret & _). rewrite remove_entries by done.
    split_and!; [done..|]. by rewrite Hret, get_entries.
  - split; [by apply remove_through_get|]. split; [by apply remove_through_entries|done].
Qed.

Definition run (ops : list op) : HeightMap V := foldl (fun m o => (apply o m).1) [] ops.
Definition reference_run (ops : list op) : list (Z * V) := foldl (fun l o => (reference o l).1) [] ops.

Lemma run_reference ops : map_wf (run ops) /\ entries (run ops) = reference_run ops.
Proof.
  induction ops as [|o ops [Hwf Heq]] using rev_ind; [split; [apply empty_map_wf|done]|].
  unfold run, reference_run in *. rewrite !foldl_app. cbn [foldl].
  destruct (apply_reference o _ Hwf) as (Hwf' & Heq' & _). split; [done|]. by rewrite Heq', Heq.
Qed.

(** C31: the chunked height map is an ordered map.  After any sequence of
    insertions and removals, also of every height up to a bound, its entries are
    those of the [BTreeMap] the same operations build; a further operation
    returns what it returns there; and lookups, the last entry and the entries of
    every range, with the same panics, are those of the [BTreeMap]. *)
Theorem height_map_is_btree {E} ops o h start end_ :
  let m := run ops in let l := reference_run ops in
  bt_wf l /\ entries (apply o m).1 = (reference o l).1 /\ (apply o m).2 = (reference o l).2 /\
  get m h = bt_get h l /\ last_key_value m = list.last l /\
  range (E := E) m start end_ = bt_range start end_ l.
Proof.
  cbn zeta. destruct (run_reference ops) as [Hwf <-]. destruct (apply_reference o _ Hwf) as (_ & Heq & Hret).
  split_and!; [by apply entries_wf|done|done|by apply get_entries|by apply last_entries|by apply range_entries].
Qed.
End Facts.
End HeightMap.
