(* ===== verification/SharedMap.v ===== *)
(** * Partitioned maps

    [zakura-state/src/service/non_finalized_state/shared_map.rs] and
    [address_transfers.rs]: hash maps split into 256 partitions, which snapshots
    of a chain share until a write.  The file proves that the partitions are one
    map, whatever the seed of the hasher that chooses the partition of a key, and
    has the counted sets of [chain/counted_set.rs]. *)

From stdpp Require Import base numbers list option gmap fin_maps sets.
From Stdlib Require Import ZArith Lia.
From S2P Require Import Prelude.
Local Open Scope Z_scope.
Local Notation length := List.length.

Module SharedMap.

Definition PARTITIONS : nat := 256.

Section SharedMap.
Context {K V : Type} `{Countable K}.

(** [RandomState::hash_one] with the seed of the map: any function to [u64] *)
Context (hash_one : K -> Z).

Record SharedMap := mkShared { partitions : list (gmap K V); len : Z }.

(** [SharedMap::default] *)
Definition empty : SharedMap := mkShared (replicate PARTITIONS ∅) 0.

Definition partition_index (key : K) : nat :=
  Z.to_nat (Z.land (hash_one key) (Z.of_nat PARTITIONS - 1)).

(** A partition by its index; an index out of range panics. *)
Definition partition {E} (self : list (gmap K V)) (index : nat) : res E (gmap K V) :=
  expect (self !! index).

Definition get {E} (self : SharedMap) (key : K) : res E (option V) :=
  let? p := partition (partitions self) (partition_index key) in Ok (p !! key).

Definition contains_key {E} (self : SharedMap) (key : K) : res E bool :=
  let? v := get self key in Ok (match v with Some _ => true | None => false end).

Definition iter (self : SharedMap) : list (K * V) := partitions self ≫= map_to_list.

Definition insert {E} (self : SharedMap) (key : K) (value : V) : res E (SharedMap * option V) :=
  let index := partition_index key in
  let? p := partition (partitions self) index in
  let partitions := <[index := <[key := value]> p]> (partitions self) in
  match p !! key with
  | None => let? len := uint_arith 64 (len self + 1) in Ok (mkShared partitions len, None)
  | Some previous => Ok (mkShared partitions (len self), Some previous)
  end.

Definition remove {E} (self : SharedMap) (key : K) : res E (SharedMap * option V) :=
  let index := partition_index key in
  let? p := partition (partitions self) index in
  match p !! key with
  | None => Ok (self, None)
  | Some removed =>
      let partitions := <[index := delete key p]> (partitions self) in
      let? len := uint_arith 64 (len self - 1) in
      Ok (mkShared partitions len, Some removed)
  end.

(** [FromIterator] *)
Definition from_iter {E} (entries : list (K * V)) : res E SharedMap :=
  foldl (fun map '(key, value) =>
           let? map := map in let? inserted := insert map key value in Ok inserted.1)
    (Ok empty) entries.
End SharedMap.
Arguments SharedMap : clear implicits.
Arguments SharedMap K V {_ _}.

(** [PartialEq]: the two maps can have different seeds. *)
Definition eq {E K V} `{Countable K, EqDecision V} (hash_one hash_one' : K -> Z)
  (self other : SharedMap K V) : res E bool :=
  if negb (len self =? len other) then Ok false
  else
    foldr (fun '(key, value) acc =>
             let? v := get hash_one' other key in
             if bool_decide (v = Some value) then acc else Ok false)
      (Ok true) (iter self).

(** ** Address histories *)

(** [AddressTransfers] has the same partitions, and no count.  The functions that
    return a mutable history take what the caller does with it. *)
Section AddressTransfers.
Context {K V : Type} `{Countable K} (hash_one : K -> Z).

Definition histories_get {E} (self : list (gmap K V)) (address : K) : res E (option V) :=
  let? p := partition self (partition_index hash_one address) in Ok (p !! address).

Definition get_or_insert_mut {E} (default_history : V) (self : list (gmap K V)) (address : K)
  (update : V -> res E V) : res E (list (gmap K V)) :=
  let index := partition_index hash_one address in
  let? p := partition self index in
  let? history := update (default default_history (p !! address)) in
  Ok (<[index := <[address := history]> p]> self).

Definition get_mut {E} (self : list (gmap K V)) (address : K)
  (update : V -> res E V) : res E (option (list (gmap K V))) :=
  let index := partition_index hash_one address in
  let? p := partition self index in
  match p !! address with
  | None => Ok None
  | Some history =>
      let? history := update history in Ok (Some (<[index := <[address := history]> p]> self))
  end.

Definition histories_remove {E} (self : list (gmap K V)) (address : K)
  : res E (list (gmap K V) * option V) :=
  let index := partition_index hash_one address in
  let? p := partition self index in
  Ok (<[index := delete address p]> self, p !! address).
End AddressTransfers.

(** ** The map of the partitions *)

Section Facts.
Context {K V : Type} `{Countable K} (hash_one : K -> Z).
Implicit Types (s : SharedMap K V) (m : gmap K V).

(** Every key is in its partition, and [len] counts the keys. *)
Record represents s m : Prop := {
  rep_length : length (partitions s) = PARTITIONS;
  rep_get : forall k, exists p, partitions s !! partition_index hash_one k = Some p /\ p !! k = m !! k;
  rep_home : forall i p k v, partitions s !! i = Some p -> p !! k = Some v -> partition_index hash_one k = i;
  rep_len : len s = Z.of_nat (size m);
}.

Lemma partition_index_bound k : (partition_index hash_one k < PARTITIONS)%nat.
Proof.
  unfold partition_index, PARTITIONS. change (Z.of_nat 256 - 1) with (Z.ones 8).
  rewrite Z.land_ones by lia. pose proof (Z.mod_pos_bound (hash_one k) (2 ^ 8)). lia.
Qed.

Lemma empty_represents : represents empty ∅.
Proof.
  split; cbn [partitions len empty]; [apply length_replicate| | |by rewrite map_size_empty].
  - intros k. exists ∅. by rewrite lookup_replicate_2 by apply partition_index_bound.
  - intros i p k v [-> _]%lookup_replicate. by rewrite lookup_empty.
Qed.

(** One key changed, in its partition *)
Lemma represents_set s m k p o n :
  represents s m -> partitions s !! partition_index hash_one k = Some p ->
  n = Z.of_nat (size (partial_alter (fun _ => o) k m)) ->
  represents (mkShared (<[partition_index hash_one k := partial_alter (fun _ => o) k p]> (partitions s)) n)
    (partial_alter (fun _ => o) k m).
Proof.
  intros [Hlen Hget Hhome Hn] Hp ->. split; cbn [partitions len]; [by rewrite length_insert| | |done].
  - intros k'. destruct (Hget k') as (p' & Hp' & Hv).
    destruct (decide (partition_index hash_one k' = partition_index hash_one k)) as [Heq|Hne].
    + rewrite Heq, list_lookup_insert_eq by (rewrite Hlen; apply partition_index_bound).
      eexists. split; [done|]. rewrite Heq, Hp in Hp'. injection Hp' as <-.
      destruct (decide (k = k')) as [<-|]; [by rewrite !lookup_partial_alter_eq|].
      by rewrite !lookup_partial_alter_ne.
    + rewrite list_lookup_insert_ne by done. exists p'. split; [done|].
      rewrite lookup_partial_alter_ne; [done|]. intros ->. done.
  - intros i q k' v. intros [(<- & <- & _)|(_ & Hq)]%list_lookup_insert_Some Hv; [|by eapply Hhome].
    destruct (decide (k = k')) as [<-|Hne]; [done|]. rewrite lookup_partial_alter_ne in Hv by done.
    by eapply Hhome.
Qed.

Lemma get_represents {E} s m k : represents s m -> get (E := E) hash_one s k = Ok (m !! k).
Proof.
  intros Hr. destruct (rep_get _ _ Hr k) as (p & Hp & Hv). unfold get, partition. rewrite Hp. cbn.
  by rewrite Hv.
Qed.

Lemma insert_represents {E} s m k v :
  represents s m -> Z.of_nat (size m) + 1 < 2 ^ 64 ->
  exists s', insert (E := E) hash_one s k v = Ok (s', m !! k) /\ represents s' (<[k := v]> m).
Proof.
  intros Hr Hsize. destruct (rep_get _ _ Hr k) as (p & Hp & Hv). unfold insert, partition. rewrite Hp.
  cbn [expect res_bind]. rewrite Hv. pose proof (represents_set s m k p (Some v)) as Hset.
  destruct (m !! k) as [w|] eqn:Hk.
  - eexists. split; [done|]. apply Hset; [done..|]. rewrite (rep_len _ _ Hr).
    change (partial_alter _ k m) with (<[k := v]> m). by rewrite map_size_insert_Some.
  - rewrite uint_arith_Ok by (rewrite (rep_len _ _ Hr); lia). cbn [res_bind]. eexists. split; [done|].
    apply Hset; [done..|]. rewrite (rep_len _ _ Hr).
    change (partial_alter _ k m) with (<[k := v]> m). rewrite map_size_insert_None by done. lia.
Qed.

Lemma remove_represents {E} s m k :
  represents s m -> Z.of_nat (size m) < 2 ^ 64 ->
  exists s', remove (E := E) hash_one s k = Ok (s', m !! k) /\ represents s' (delete k m).
Proof.
  intros Hr Hsize. destruct (rep_get _ _ Hr k) as (p & Hp & Hv). unfold remove, partition. rewrite Hp.
  cbn [expect res_bind]. rewrite Hv. destruct (m !! k) as [w|] eqn:Hk.
  - assert (Hs : size m = S (size (delete k m))).
    { rewrite <- (insert_delete_id m k w Hk) at 1. by rewrite map_size_insert_None by apply lookup_delete_eq. }
    rewrite uint_arith_Ok by (rewrite (rep_len _ _ Hr); lia). cbn [res_bind]. eexists. split; [done|].
    apply (represents_set s m k p None); [done..|]. rewrite (rep_len _ _ Hr).
    change (partial_alter _ k m) with (delete k m). lia.
  - exists s. split; [done|]. by rewrite delete_id.
Qed.

Lemma iter_represents s m k v : represents s m -> (k, v) ∈ iter s <-> m !! k = Some v.
Proof.
  intros Hr. unfold iter. rewrite list_elem_of_bind. split.
  - intros (p & Hkv & (i & Hp)%list_elem_of_lookup). apply elem_of_map_to_list in Hkv.
    pose proof (rep_home _ _ Hr _ _ _ _ Hp Hkv) as <-. destruct (rep_get _ _ Hr k) as (p' & Hp' & Hv).
    congruence.
  - intros Hk. destruct (rep_get _ _ Hr k) as (p & Hp & Hv). exists p.
    split; [apply elem_of_map_to_list; congruence|by eapply list_elem_of_lookup_2].
Qed.
End Facts.

Lemma eq_represents {E K V} `{Countable K, EqDecision V} (h h' : K -> Z) (s s' : SharedMap K V) (m m' : gmap K V) :
  represents h s m -> represents h' s' m' -> eq (E := E) h h' s s' = Ok (bool_decide (m = m')).
Proof.
  intros Hr Hr'. unfold eq. rewrite (rep_len _ _ _ Hr), (rep_len _ _ _ Hr').
  destruct (Z.eqb_spec (Z.of_nat (size m)) (Z.of_nat (size m'))) as [Hs|Hne]; cbn [negb].
  2: { symmetry. f_equal. apply bool_decide_eq_false. congruence. }
  assert (Hfold : forall l, foldr (fun '(key, value) acc =>
             let? v := get h' s' key in if bool_decide (v = Some value) then acc else Ok false) (Ok true) l
           = Ok (E := E) (bool_decide (Forall (fun kv => m' !! kv.1 = Some kv.2) l))).
  { induction l as [|[k v] l IH]; cbn [foldr].
    - by rewrite bool_decide_true by constructor.
    - rewrite (get_represents h' _ m') by done. cbn [res_bind]. destruct (bool_decide_reflect (m' !! k = Some v)).
      + rewrite IH. f_equal. apply bool_decide_ext. rewrite Forall_cons. naive_solver.
      + rewrite bool_decide_false; [done|]. by intros [? _]%Forall_cons. }
  rewrite Hfold. f_equal. apply bool_decide_ext. rewrite Forall_forall. split.
  - intros Hall. apply map_subseteq_size_eq; [|lia]. apply map_subseteq_spec. intros k v Hk.
    apply (Hall (k, v)). by apply (iter_represents h s m).
  - intros ->. intros [k v] Hk. by apply (iter_represents h s m').
Qed.

(** ** Operations in sequence *)

Section Runs.
Context {K V : Type} `{Countable K} (hash_one : K -> Z).

Inductive op := Insert (k : K) (v : V) | Remove (k : K).

Definition apply {E} (o : op) (s : SharedMap K V) : res E (SharedMap K V * option V) :=
  match o with Insert k v => insert hash_one s k v | Remove k => remove hash_one s k end.

(** The same operation on a map, and what it returns: the entry it replaces *)
Definition reference (o : op) (m : gmap K V) : gmap K V * option V :=
  match o with Insert k v => (<[k := v]> m, m !! k) | Remove k => (delete k m, m !! k) end.

(** A run returns the map and what every operation returned. *)
Fixpoint run {E} (ops : list op) (s : SharedMap K V) : res E (SharedMap K V * list (option V)) :=
  match ops with
  | [] => Ok (s, [])
  | o :: ops =>
      let? applied := apply o s in
      let? rest := run ops applied.1 in
      Ok (rest.1, applied.2 :: rest.2)
  end.

Fixpoint reference_run (ops : list op) (m : gmap K V) : gmap K V * list (option V) :=
  match ops with
  | [] => (m, [])
  | o :: ops =>
      let applied := reference o m in
      let rest := reference_run ops applied.1 in
      (rest.1, applied.2 :: rest.2)
  end.

Lemma apply_represents {E} o s m :
  represents hash_one s m -> Z.of_nat (size m) + 1 < 2 ^ 64 ->
  exists s', apply (E := E) o s = Ok (s', (reference o m).2) /\ represents hash_one s' (reference o m).1 /\
             (size (reference o m).1 <= size m + 1)%nat.
Proof.
  intros Hr Hsize. destruct o as [k v|k]; cbn [apply reference fst snd].
  - destruct (insert_represents (E := E) hash_one s m k v Hr Hsize) as (s' & Hi & Hr'). exists s'. split_and!; [done..|].
    rewrite map_size_insert. destruct (m !! k); cbn; lia.
  - destruct (remove_represents (E := E) hash_one s m k Hr) as (s' & Hd & Hr'); [lia|]. exists s'. split_and!; [done..|].
    rewrite map_size_delete. destruct (m !! k); cbn; lia.
Qed.

Lemma run_represents {E} ops s m :
  represents hash_one s m -> Z.of_nat (size m) + Z.of_nat (length ops) < 2 ^ 64 ->
  exists s', run (E := E) ops s = Ok (s', (reference_run ops m).2) /\
             represents hash_one s' (reference_run ops m).1.
Proof.
  revert s m. induction ops as [|o ops IH]; intros s m Hr Hsize; cbn [run reference_run]; [by exists s|].
  cbn [length] in Hsize. destruct (apply_represents (E := E) o s m Hr) as (s1 & -> & Hr1 & Hs); [lia|].
  cbn [res_bind fst snd]. destruct (IH s1 _ Hr1) as (s2 & -> & Hr2); [lia|]. cbn. by exists s2.
Qed.
End Runs.

(** C32: a partitioned map is one map.  With every seed, a sequence of at most
    [2^64 - 1] insertions and removals does not panic, returns the entries the same
    operations on one map return, and then has its lookups and its entries; and
    two maps are equal exactly when their entries are, also when their seeds
    differ. *)
Theorem shared_map_is_map {E K V} `{Countable K, EqDecision V} (hash_one hash_one' : K -> Z)
  (ops ops' : list (op (K := K) (V := V))) :
  Z.of_nat (length ops) < 2 ^ 64 -> Z.of_nat (length ops') < 2 ^ 64 ->
  exists s s',
    let m := (reference_run ops ∅).1 in
    run (E := E) hash_one ops empty = Ok (s, (reference_run ops ∅).2) /\
    run (E := E) hash_one' ops' empty = Ok (s', (reference_run ops' ∅).2) /\
    (forall k, get (E := E) hash_one s k = Ok (m !! k)) /\
    (forall k v, (k, v) ∈ iter s <-> m !! k = Some v) /\
    eq (E := E) hash_one hash_one' s s' = Ok (bool_decide (m = (reference_run ops' ∅).1)).
Proof.
  intros Hl Hl'.
  destruct (run_represents (E := E) hash_one ops empty ∅) as (s & Hs & Hr);
    [apply empty_represents|by rewrite map_size_empty|].
  destruct (run_represents (E := E) hash_one' ops' empty ∅) as (s' & Hs' & Hr');
    [apply empty_represents|by rewrite map_size_empty|].
  exists s, s'. cbn zeta. split_and!; [done|done| | |by apply eq_represents].
  - intros k. by apply get_represents.
  - intros k v. by apply (iter_represents hash_one).
Qed.

(** Two insertion orders, with different seeds *)
Lemma shared_map_is_map_witness :
  exists s s',
    run (E := unit) (fun k : Z => k) [Insert 1 7; Insert 257 8; Remove 1; Insert 2 9] empty
      = Ok (s, [None; None; Some 7; None]) /\
    run (E := unit) (fun k : Z => k * k) [Insert 2 9; Insert 257 8] empty = Ok (s', [None; None]) /\
    eq (E := unit) (fun k : Z => k) (fun k => k * k) s s' = Ok true.
Proof.
  destruct (shared_map_is_map (E := unit) (fun k : Z => k) (fun k => k * k)
              [Insert 1 7; Insert 257 8; Remove 1; Insert 2 9] [Insert 2 9; Insert 257 8])
    as (s & s' & Hs & Hs' & _ & _ & Heq); [reflexivity|reflexivity|].
  exists s, s'. split; [exact Hs|]. split; [exact Hs'|]. rewrite Heq. vm_compute. reflexivity.
Defined.

(** ** Address histories as a map *)

Section Histories.
Context {K V : Type} `{Countable K} (hash_one : K -> Z).

Definition histories_of (self : list (gmap K V)) (m : gmap K V) : Prop :=
  represents hash_one (mkShared self (Z.of_nat (size m))) m.

Lemma histories_partition {E} self (m : gmap K V) k :
  histories_of self m ->
  exists p, partition (E := E) self (partition_index hash_one k) = Ok p /\ p !! k = m !! k /\
    forall o, histories_of (<[partition_index hash_one k := partial_alter (fun _ => o) k p]> self)
                (partial_alter (fun _ => o) k m).
Proof.
  intros Hr. destruct (rep_get _ _ _ Hr k) as (p & Hp & Hv). cbn in Hp. exists p.
  split; [unfold partition; by rewrite Hp|]. split; [done|]. intros o.
  by apply (represents_set hash_one (mkShared self (Z.of_nat (size m))) m k p o).
Qed.

(** The histories are one map: the operations are its lookup, updates and removal. *)
Lemma histories_are_map {E} self (m : gmap K V) k d (f : V -> res E V) :
  histories_of self m ->
  histories_get (E := E) hash_one self k = Ok (m !! k) /\
  (forall v, f (default d (m !! k)) = Ok v ->
     exists self', get_or_insert_mut hash_one d self k f = Ok self' /\ histories_of self' (<[k := v]> m)) /\
  (forall w v, m !! k = Some w -> f w = Ok v ->
     exists self', get_mut hash_one self k f = Ok (Some self') /\ histories_of self' (<[k := v]> m)) /\
  (exists self', histories_remove (E := E) hash_one self k = Ok (self', m !! k) /\
                 histories_of self' (delete k m)).
Proof.
  intros Hr. destruct (histories_partition (E := E) self m k Hr) as (p & Hp & Hv & Hset).
  unfold histories_get, get_or_insert_mut, get_mut, histories_remove. rewrite Hp. cbn [res_bind]. rewrite Hv.
  split; [done|]. split; [|split].
  - intros v Hf. rewrite Hf. cbn [res_bind]. eexists. split; [done|]. exact (Hset (Some v)).
  - intros w v Hk Hf. rewrite Hk, Hf. cbn [res_bind]. eexists. split; [done|]. exact (Hset (Some v)).
  - eexists. split; [done|]. exact (Hset None).
Qed.
End Histories.

(** ** Counted sets *)

(** [CountedSet]: the number of times each value was inserted *)
Abbreviation CountedSet T := (gmap T Z).

Section CountedSet.
Context {T : Type} `{Countable T}.

Definition counted_insert {E} (self : CountedSet T) (value : T) : res E (CountedSet T) :=
  let? count := expect (to_uint 64 (default 0 (self !! value) + 1)) in Ok (<[value := count]> self).

Definition counted_remove (self : CountedSet T) (value : T) : CountedSet T * bool :=
  match self !! value with
  | None => (self, false)
  | Some count =>
      if 1 <? count then (<[value := count - 1]> self, true) else (delete value self, true)
  end.

Definition counted_contains (self : CountedSet T) (value : T) : bool := bool_decide (is_Some (self !! value)).

(** The occurrences of a list *)
Definition counts (l : list T) : CountedSet T :=
  foldr (fun v c => <[v := default 0 (c !! v) + 1]> c) ∅ l.

Definition occurrences (v : T) (l : list T) : Z := Z.of_nat (length (filter (fun w => w = v) l)).

Lemma counts_lookup l v :
  counts l !! v = if 0 <? occurrences v l then Some (occurrences v l) else None.
Proof.
  unfold occurrences. induction l as [|w l IH]; [done|]. cbn [counts foldr]. fold (counts l).
  rewrite filter_cons. destruct (decide (w = v)) as [->|Hne].
  - rewrite lookup_insert_eq, IH. cbn [length]. rewrite (proj2 (Z.ltb_lt 0 (Z.of_nat (S _)))) by lia.
    destruct (Z.ltb_spec 0 (Z.of_nat (length (filter (fun w => w = v) l)))); cbn; f_equal; lia.
  - by rewrite lookup_insert_ne.
Qed.

Lemma counts_perm l l' : l ≡ₚ l' -> counts l = counts l'.
Proof.
  intros Hp. apply map_eq. intros v. rewrite !counts_lookup. unfold occurrences.
  by rewrite (Permutation_length (filter_Permutation (fun w => w = v) _ _ Hp)).
Qed.

Lemma counted_insert_counts {E} l v :
  Z.of_nat (length l) + 1 < 2 ^ 64 -> counted_insert (E := E) (counts l) v = Ok (counts (v :: l)).
Proof.
  intros Hl. unfold counted_insert. cbn [counts foldr]. fold (counts l).
  assert (0 <= default 0 (counts l !! v) <= Z.of_nat (length l)).
  { rewrite counts_lookup. unfold occurrences. pose proof (length_filter (fun w => w = v) l).
    destruct (0 <? _); cbn; lia. }
  assert (to_uint 64 (default 0 (counts l !! v) + 1) = Some (default 0 (counts l !! v) + 1)) as ->; [|done].
  apply to_uint_Some. lia.
Qed.

Lemma counts_nil l : counts l = ∅ -> l = [].
Proof.
  destruct l as [|v l]; [done|]. intros He. assert (Hv : counts (v :: l) !! v = None) by by rewrite He.
  cbn [counts foldr] in Hv. by rewrite lookup_insert_eq in Hv.
Qed.

Lemma counted_remove_counts l v : counted_remove (counts (v :: l)) v = (counts l, true).
Proof.
  unfold counted_remove. rewrite counts_lookup. unfold occurrences. rewrite filter_cons_True by done.
  cbn [length]. rewrite (proj2 (Z.ltb_lt 0 (Z.of_nat (S _)))) by lia. cbn [counts foldr]. fold (counts l).
  pose proof (counts_lookup l v) as Hv. unfold occurrences in Hv.
  destruct (Z.ltb_spec 1 (Z.of_nat (S (length (filter (fun w => w = v) l))))) as [Hlt|Hle].
  - rewrite insert_insert_eq. f_equal. rewrite insert_id; [done|].
    rewrite Hv. rewrite (proj2 (Z.ltb_lt _ _)) by lia. f_equal. lia.
  - f_equal. rewrite delete_insert_eq. apply delete_id. rewrite Hv. by rewrite (proj2 (Z.ltb_ge _ _)) by lia.
Qed.
End CountedSet.
End SharedMap.
