(* ===== verification/AddressIndex.v ===== *)
(** * The transparent address index

    [zakura-state/src/service/non_finalized_state/chain/index.rs]: for each
    transparent address of a non-finalized chain, its balance change, the
    transactions that pay it or spend from it, and the outputs it received and
    spent, in chain order.  The outputs received are grouped by height, and by
    chunks of 32 heights once there is more than one chunk.

    An [OutputLocation] is a number, from its height, transaction index ([u16]) and
    output index ([u32]), so that its derived order is the order of numbers. *)

From stdpp Require Import base numbers list option gmap sets sorting.
From Stdlib Require Import ZArith Lia.
From S2P Require Import Prelude Amount BTree BSet Network Dependencies BlockHeader Transparent Block BlockCheck SharedMap.
Local Open Scope Z_scope.
Local Notation length := List.length.

Module AddressIndex.
Import Amount Network BlockHeader Block BlockCheck SharedMap.

(** ** Addresses of outputs *)

#[export] Instance network_kind_eq_dec : EqDecision NetworkKind.
Proof. solve_decision. Defined.
#[export] Instance address_eq_dec : EqDecision Address.
Proof. solve_decision. Defined.

Definition kind_code (k : NetworkKind) : Z :=
  match k with KindMainnet => 0 | KindTestnet => 1 | KindRegtest => 2 end.
Definition kind_of_code (z : Z) : NetworkKind :=
  if z =? 0 then KindMainnet else if z =? 1 then KindTestnet else KindRegtest.

#[export] Instance address_countable : Countable Address :=
  inj_countable'
    (fun a => match a with
              | PayToScriptHash k h => (0, kind_code k, h)
              | PayToPublicKeyHash k h => (1, kind_code k, h)
              | Tex k h => (2, kind_code k, h)
              end)
    (fun '(t, k, h) =>
       if t =? 0 then PayToScriptHash (kind_of_code k) h
       else if t =? 1 then PayToPublicKeyHash (kind_of_code k) h
       else Tex (kind_of_code k) h)
    ltac:(abstract by intros [[]|[]|[]]).

(** [Network::t_addr_kind] *)
Definition t_addr_kind (net : Network) : NetworkKind :=
  match net with Mainnet => KindMainnet | Testnet _ => KindTestnet end.

(** The pattern [[pre.., hash @ .., suf..]] on a slice *)
Definition between (pre suf bytes : list Z) : option (list Z) :=
  let n := length bytes in
  if bool_decide ((length pre + length suf <= n)%nat /\ take (length pre) bytes = pre /\
                  drop (n - length suf) bytes = suf)
  then Some (drop (length pre) (take (n - length suf) bytes)) else None.

(** [Output::address].  A transparent amount is a valid [Zatoshis] when it is
    within the monetary base. *)
Definition address (self : Output) (net : Network) : option Address :=
  if negb ((0 <=? zatoshis (value self)) && (zatoshis (value self) <=? MAX_MONEY)) then None
  else
    match between [118; 169; 20] [136; 172] (lock_script self) with
    | Some hash =>
        if (length hash =? 20)%nat then Some (PayToPublicKeyHash (t_addr_kind net) hash) else None
    | None =>
        match between [169; 20] [135] (lock_script self) with
        | Some hash =>
            if (length hash =? 20)%nat then Some (PayToScriptHash (t_addr_kind net) hash) else None
        | None => None
        end
    end.

(** ** Locations *)

(** [TransactionLocation::from_usize]: the index is an [u16]. *)
Definition transaction_location_from {E} (height transaction_index : Z) : res E (Z * Z) :=
  let? index := expect (to_uint 16 transaction_index) in Ok (height, index).

(** [transaction_location] of an ordered UTXO *)
Definition transaction_location {E} (self : OrderedUtxo) : res E (Z * Z) :=
  transaction_location_from (utxo_height (utxo self)) (tx_index_in_block self).

(** [OutputLocation::from_outpoint] and [height] *)
Definition from_outpoint (location : Z * Z) (outpoint : OutPoint) : Z :=
  (location.1 * 2 ^ 16 + location.2) * 2 ^ 32 + op_index outpoint.
Definition location_height (location : Z) : Z := location / 2 ^ 48.

Definition output_location {E} (outpoint : OutPoint) (self : OrderedUtxo) : res E Z :=
  let? location := transaction_location self in Ok (from_outpoint location outpoint).

(** ** Created outputs *)

Definition HEIGHTS_PER_OUTPUT_CHUNK : Z := 32.
Definition chunk_id (height : Z) : Z := height / HEIGHTS_PER_OUTPUT_CHUNK.

(** The outputs of one block by location, and of one chunk by height *)
Abbreviation CreatedOutputs := (list (Z * Output)).
Abbreviation CreatedOutputHeights := (list (Z * CreatedOutputs)).

Inductive CreatedUtxos :=
| Single (heights : CreatedOutputHeights)
| Chunked (chunks : list (Z * CreatedOutputHeights)).

(** [heights.entry(height).or_default().insert(location, output)] *)
Definition insert_at (heights : CreatedOutputHeights) (location : Z) (output : Output)
  : CreatedOutputHeights * option Output :=
  let outputs := default [] (bt_get (location_height location) heights) in
  (bt_insert (location_height location) (bt_insert location output outputs) heights,
   bt_get location outputs).

Definition created_insert (self : CreatedUtxos) (location : Z) (output : Output)
  : CreatedUtxos * option Output :=
  let id := chunk_id (location_height location) in
  let self :=
    match self with
    | Single heights =>
        match head heights with
        | Some (first_height, _) =>
            if negb (chunk_id first_height =? id) then Chunked [(chunk_id first_height, heights)] else self
        | None => self
        end
    | Chunked _ => self
    end in
  match self with
  | Single heights =>
      let '(heights, previous) := insert_at heights location output in (Single heights, previous)
  | Chunked chunks =>
      let '(heights, previous) := insert_at (default [] (bt_get id chunks)) location output in
      (Chunked (bt_insert id heights chunks), previous)
  end.

(** The removal within a chunk *)
Definition remove_at {E} (heights : CreatedOutputHeights) (location : Z)
  : res E (CreatedOutputHeights * bool) :=
  let height := location_height location in
  let? outputs := expect (bt_get height heights) in
  if ((length outputs =? 1)%nat && bt_contains_key location outputs)%bool then
    Ok (bt_remove height heights, true)
  else
    Ok (bt_insert height (bt_remove location outputs) heights, bt_contains_key location outputs).

Definition created_remove {E} (self : CreatedUtxos) (location : Z) : res E (CreatedUtxos * bool) :=
  let id := chunk_id (location_height location) in
  match self with
  | Single heights =>
      let? removed := remove_at heights location in Ok (Single removed.1, removed.2)
  | Chunked chunks =>
      let? heights := expect (bt_get id chunks) in
      let? removed := remove_at heights location in
      match removed.1 with
      | [] =>
          let chunks := bt_remove id chunks in
          match chunks with
          | [(_, remaining)] => Ok (Single remaining, removed.2)
          | _ => Ok (Chunked chunks, removed.2)
          end
      | heights => Ok (Chunked (bt_insert id heights chunks), removed.2)
      end
  end.

(** [CreatedUtxos::heights] and [is_empty] *)
Definition created_heights (self : CreatedUtxos) : CreatedOutputHeights :=
  match self with Single heights => heights | Chunked chunks => chunks ≫= snd end.

Definition created_is_empty (self : CreatedUtxos) : bool :=
  match self with Single [] => true | _ => false end.

(** ** Transfers of an address *)

Record TransparentTransfers := mkTransfers {
  balance : Amount NegativeAllowed;
  tx_ids : CountedSet Hash;
  created_utxos : CreatedUtxos;
  spent_utxos : list Z;
}.

(** [TransparentTransfers::default] *)
Definition no_transfers : TransparentTransfers := mkTransfers (mk 0) ∅ (Single []) [].

(** The value of an output, as an amount that can be negative *)
Definition signed_value {E} (self : OrderedUtxo) : res E (Amount NegativeAllowed) :=
  expect_ok (constrain NegativeAllowed (value (output (utxo self)))).

Definition create_transfer {E} (self : TransparentTransfers) (outpoint : OutPoint) (created : OrderedUtxo)
  : res E TransparentTransfers :=
  let? v := signed_value created in
  let? balance := expect_ok (Amount.add (balance self) v) in
  let? location := output_location outpoint created in
  let '(utxos, previous) := created_insert (created_utxos self) location (output (utxo created)) in
  let? _ := rust_assert (bool_decide (previous = None)) in
  let? tx_ids := counted_insert (tx_ids self) (op_hash outpoint) in
  Ok (mkTransfers balance tx_ids utxos (spent_utxos self)).

Definition revert_create {E} (self : TransparentTransfers) (outpoint : OutPoint) (created : OrderedUtxo)
  : res E TransparentTransfers :=
  let? v := signed_value created in
  let? balance := expect_ok (Amount.sub (balance self) v) in
  let? location := output_location outpoint created in
  let? removed := created_remove (created_utxos self) location in
  let? _ := rust_assert removed.2 in
  let '(tx_ids, present) := counted_remove (tx_ids self) (op_hash outpoint) in
  let? _ := rust_assert present in
  Ok (mkTransfers balance tx_ids removed.1 (spent_utxos self)).

(** A spend by an input with [spent_outpoint]; the caller has found it. *)
Definition spend_transfer {E} (self : TransparentTransfers) (spent_outpoint : OutPoint)
  (spending_tx_hash : Hash) (spent_output : OrderedUtxo) : res E TransparentTransfers :=
  let? v := signed_value spent_output in
  let? balance := expect_ok (Amount.sub (balance self) v) in
  let? location := output_location spent_outpoint spent_output in
  let? _ := rust_assert (negb (bs_contains Z.lt location (spent_utxos self))) in
  let? tx_ids := counted_insert (tx_ids self) spending_tx_hash in
  Ok (mkTransfers balance tx_ids (created_utxos self) (bs_insert Z.lt location (spent_utxos self))).

Definition revert_spend {E} (self : TransparentTransfers) (spent_outpoint : OutPoint)
  (spending_tx_hash : Hash) (spent_output : OrderedUtxo) : res E TransparentTransfers :=
  let? v := signed_value spent_output in
  let? balance := expect_ok (Amount.add (balance self) v) in
  let? location := output_location spent_outpoint spent_output in
  let? _ := rust_assert (bs_contains Z.lt location (spent_utxos self)) in
  let '(tx_ids, present) := counted_remove (tx_ids self) spending_tx_hash in
  let? _ := rust_assert present in
  Ok (mkTransfers balance tx_ids (created_utxos self) (bs_remove Z.lt location (spent_utxos self))).

(** [TransparentTransfers::is_empty] *)
Definition transfers_is_empty (self : TransparentTransfers) : bool :=
  is_zero (balance self) && bool_decide (tx_ids self = ∅) && created_is_empty (created_utxos self) &&
  bool_decide (spent_utxos self = []).

(** [TransparentTransfers::created_utxos] and [received] *)
Definition created_list (self : TransparentTransfers) : list (Z * Output) :=
  created_heights (created_utxos self) ≫= snd.

Definition received {E} (self : TransparentTransfers) : res E Z :=
  foldl (fun acc '(_, output) => let? acc := acc in uint_arith 64 (acc + zatoshis (value output)))
    (Ok 0) (created_list self).
End AddressIndex.
