(* ===== verification/AddressFacts.v ===== *)
(** * Facts of the address index

    The grouped outputs of an address are an ordered map by location with one
    representation for each content, and the transfers of an address are a
    function of the outputs it received and spent, in any order: what an update
    adds, its revert removes. *)

From stdpp Require Import base numbers list option gmap sets sorting.
From Stdlib Require Import ZArith Lia.
From S2P Require Import Prelude Amount BTree BSet Network Dependencies BlockHeader Transparent Block BlockCheck SharedMap AddressIndex.
Local Open Scope Z_scope.
Local Notation length := List.length.

Module AddressFacts.
Import Amount Network BlockHeader Block BlockCheck SharedMap AddressIndex.

(** ** Grouped maps *)

Section Nested.
Context {V : Type} (f : Z -> Z).
Implicit Types (m : list (Z * list (Z * V))) (g : list (Z * V)).

(** Group [id] has the keys that [f] maps to [id], and at least one. *)
Definition nested_wf m : Prop :=
  bt_wf m /\ forall id g, bt_get id m = Some g ->
    bt_wf g /\ g <> [] /\ forall k v, bt_get k g = Some v -> f k = id.

Definition nested_get m (k : Z) : option V := g ← bt_get (f k) m; bt_get k g.

Lemma bt_head_get k v g : bt_get k ((k, v) :: g) = Some v.
Proof. cbn. by rewrite Z.eqb_refl. Qed.

Lemma nested_ext m m' :
  nested_wf m -> nested_wf m' -> (forall k, nested_get m k = nested_get m' k) -> m = m'.
Proof.
  assert (Hle : forall m1 m2, nested_wf m1 -> nested_wf m2 ->
            (forall k, nested_get m1 k = nested_get m2 k) ->
            forall id g, bt_get id m1 = Some g -> bt_get id m2 = Some g).
  { intros m1 m2 [_ H1] [_ H2] Heq id g Hg. destruct (H1 _ _ Hg) as (Hwf & Hne & Hk).
    destruct g as [|[k v] g]; [done|]. pose proof (Hk k v (bt_head_get _ _ _)) as Hid.
    assert (Hget : nested_get m1 k = Some v).
    { unfold nested_get. rewrite Hid, Hg. apply bt_head_get. }
    rewrite Heq in Hget. unfold nested_get in Hget. rewrite Hid in Hget.
    destruct (bt_get id m2) as [g2|] eqn:Hg2; [|done]. f_equal. destruct (H2 _ _ Hg2) as (Hwf2 & _ & Hk2).
    symmetry. apply bt_ext; [done..|]. intros k'. specialize (Heq k'). unfold nested_get in Heq.
    destruct (Z.eq_dec (f k') id) as [Hk'|Hk'].
    - rewrite Hk', Hg, Hg2 in Heq. exact Heq.
    - destruct (bt_get k' ((k, v) :: g)) eqn:Ha; [by apply Hk in Ha|].
      destruct (bt_get k' g2) eqn:Hb; [by apply Hk2 in Hb|done]. }
  intros Hm Hm' Heq. apply bt_ext; [apply Hm|apply Hm'|]. intros id. apply option_eq. intros g.
  split; apply Hle; auto.
Qed.

(** A group replaced; an empty one is dropped. *)
Lemma nested_put m id g :
  nested_wf m -> bt_wf g -> (forall k v, bt_get k g = Some v -> f k = id) ->
  let m' := match g with [] => bt_remove id m | _ => bt_insert id g m end in
  nested_wf m' /\ (forall k, nested_get m' k = if f k =? id then bt_get k g else nested_get m k) /\
  forall id', bt_get id' m' = if id' =? id then match g with [] => None | _ => Some g end else bt_get id' m.
Proof.
  intros [Hm Hg] Hwf Hk. assert (Hlook : forall id',
    bt_get id' (match g with [] => bt_remove id m | _ => bt_insert id g m end) =
    if id' =? id then match g with [] => None | _ => Some g end else bt_get id' m).
  { intros id'. destruct g; [apply bt_get_remove|by apply bt_get_insert]. }
  cbn zeta. split; [split|split; [|done]].
  - destruct g; [by apply bt_remove_wf|by apply bt_insert_wf].
  - intros id' g'. rewrite Hlook. destruct (Z.eqb_spec id' id) as [->|]; [|apply Hg].
    destruct g as [|e g]; [done|]. intros [= <-]. done.
  - intros k. unfold nested_get. rewrite Hlook. destruct (f k =? id); [|done]. by destruct g.
Qed.

(** The group a key belongs to *)
Lemma nested_default m k :
  nested_wf m -> bt_wf (default [] (bt_get (f k) m)) /\
  (forall k' v, bt_get k' (default [] (bt_get (f k) m)) = Some v -> f k' = f k) /\
  forall k', f k' = f k -> bt_get k' (default [] (bt_get (f k) m)) = nested_get m k'.
Proof.
  intros [Hm Hg]. destruct (bt_get (f k) m) as [g|] eqn:He; cbn.
  - destruct (Hg _ _ He) as (Hwf & _ & Hk). split_and!; [done..|]. intros k' Hk'. unfold nested_get.
    by rewrite Hk', He.
  - split; [constructor|]. split; [done|]. intros k' Hk'. unfold nested_get. by rewrite Hk', He.
Qed.

Lemma nested_insert m k v :
  nested_wf m ->
  let m' := bt_insert (f k) (bt_insert k v (default [] (bt_get (f k) m))) m in
  nested_wf m' /\ (forall k', nested_get m' k' = if k' =? k then Some v else nested_get m k') /\
  forall id, is_Some (bt_get id m') <-> id = f k \/ is_Some (bt_get id m).
Proof.
  intros Hm. destruct (nested_default m k Hm) as (Hwf & Hk & Hget).
  set (g := default [] (bt_get (f k) m)) in *. cbn zeta.
  assert (Hg : forall k', bt_get k' (bt_insert k v g) = if k' =? k then Some v else bt_get k' g)
    by (intros; by apply bt_get_insert).
  destruct (nested_put m (f k) (bt_insert k v g) Hm) as (Hwf' & Hget' & Hlook).
  { by apply bt_insert_wf. }
  { intros k' v'. rewrite Hg. destruct (Z.eqb_spec k' k) as [->|]; [done|apply Hk]. }
  assert (Hne : match bt_insert k v g with [] => bt_remove (f k) m | _ => bt_insert (f k) (bt_insert k v g) m end
                = bt_insert (f k) (bt_insert k v g) m).
  { destruct (bt_insert k v g) eqn:He; [|done]. specialize (Hg k). by rewrite Z.eqb_refl in Hg. }
  cbn zeta in *. rewrite Hne in *. split; [done|]. split.
  - intros k'. rewrite Hget', Hg. destruct (Z.eqb_spec (f k') (f k)) as [Hf|Hf].
    + by rewrite Hget.
    + by rewrite (proj2 (Z.eqb_neq k' k)) by congruence.
  - intros id. rewrite bt_get_insert by apply Hm. destruct (Z.eqb_spec id (f k)) as [->|].
    + split; [by left|by eexists].
    + naive_solver.
Qed.
End Nested.

(** ** Created outputs *)

Abbreviation heights_wf := (nested_wf (V := Output) location_height).
Abbreviation heights_get := (nested_get (V := Output) location_height).

Definition created_get (m : CreatedUtxos) (loc : Z) : option Output :=
  match m with
  | Single hs => heights_get hs loc
  | Chunked cs => hs ← bt_get (chunk_id (location_height loc)) cs; heights_get hs loc
  end.

(** One chunk of heights, or at least two *)
Definition created_wf (m : CreatedUtxos) : Prop :=
  match m with
  | Single hs =>
      heights_wf hs /\
      forall h h', is_Some (bt_get h hs) -> is_Some (bt_get h' hs) -> chunk_id h = chunk_id h'
  | Chunked cs =>
      nested_wf chunk_id cs /\ (forall id hs, bt_get id cs = Some hs -> heights_wf hs) /\
      exists id id', id <> id' /\ is_Some (bt_get id cs) /\ is_Some (bt_get id' cs)
  end.

(** An entry of each group *)
Lemma group_entry {V} (f : Z -> Z) (m : list (Z * list (Z * V))) id :
  nested_wf f m -> is_Some (bt_get id m) -> exists k v, f k = id /\ nested_get f m k = Some v.
Proof.
  intros [_ Hm] [g Hg]. destruct (Hm _ _ Hg) as (_ & Hne & Hk). destruct g as [|[k v] g]; [done|].
  pose proof (Hk k v (bt_head_get _ _ _)) as Hid. exists k, v. split; [done|].
  unfold nested_get. rewrite Hid, Hg. apply bt_head_get.
Qed.

Lemma chunked_entry cs id :
  nested_wf chunk_id cs -> (forall id hs, bt_get id cs = Some hs -> heights_wf hs) ->
  is_Some (bt_get id cs) ->
  exists loc o, chunk_id (location_height loc) = id /\ created_get (Chunked cs) loc = Some o.
Proof.
  intros Hcs Hhs Hid. destruct (group_entry _ _ _ Hcs Hid) as (h & g & Hh & Hg).
  unfold nested_get in Hg. rewrite Hh in Hg. destruct (bt_get id cs) as [hs|] eqn:He; [|done].
  cbn in Hg. destruct (group_entry location_height hs h (Hhs _ _ He)) as (loc & o & Hloc & Ho); [by eexists|].
  exists loc, o. split; [congruence|]. cbn. rewrite Hloc, Hh, He. exact Ho.
Qed.

Lemma single_not_chunked hs cs :
  created_wf (Single hs) -> created_wf (Chunked cs) ->
  (forall loc, created_get (Single hs) loc = created_get (Chunked cs) loc) -> False.
Proof.
  intros [Hhs Hone] (Hcs & Hin & id & id' & Hne & Hid & Hid') Heq.
  destruct (chunked_entry cs id Hcs Hin Hid) as (l & o & Hl & Ho).
  destruct (chunked_entry cs id' Hcs Hin Hid') as (l' & o' & Hl' & Ho').
  rewrite <- Heq in Ho, Ho'. cbn in Ho, Ho'. unfold nested_get in Ho, Ho'.
  apply Hne. rewrite <- Hl, <- Hl'. apply Hone.
  - destruct (bt_get (location_height l) hs); [by eexists|done].
  - destruct (bt_get (location_height l') hs); [by eexists|done].
Qed.

(** A content has one representation. *)
Lemma created_ext m m' :
  created_wf m -> created_wf m' -> (forall loc, created_get m loc = created_get m' loc) -> m = m'.
Proof.
  intros Hm Hm' Heq. destruct m as [hs|cs], m' as [hs'|cs'].
  - f_equal. eapply nested_ext; [apply Hm|apply Hm'|exact Heq].
  - exfalso. by eapply single_not_chunked.
  - exfalso. eapply single_not_chunked; [exact Hm'|exact Hm|]. done.
  - f_equal. destruct Hm as (Hcs & Hin & _), Hm' as (Hcs' & Hin' & _).
    assert (Hle : forall c1 c2, nested_wf chunk_id c1 -> nested_wf chunk_id c2 ->
      (forall id hs, bt_get id c1 = Some hs -> heights_wf hs) ->
      (forall id hs, bt_get id c2 = Some hs -> heights_wf hs) ->
      (forall loc, created_get (Chunked c1) loc = created_get (Chunked c2) loc) ->
      forall id hs, bt_get id c1 = Some hs -> bt_get id c2 = Some hs).
    { intros c1 c2 H1 H2 Hi1 Hi2 He id hs Hhs.
      destruct (chunked_entry c1 id H1 Hi1) as (l & o & Hl & Ho); [by eexists|].
      rewrite He in Ho. cbn in Ho. rewrite Hl in Ho. destruct (bt_get id c2) as [hs2|] eqn:Hhs2; [|done].
      f_equal. symmetry. apply (nested_ext location_height); [by eapply Hi1|by eapply Hi2|]. intros loc.
      destruct (Z.eq_dec (chunk_id (location_height loc)) id) as [Hc|Hc].
      - specialize (He loc). cbn in He. by rewrite Hc, Hhs, Hhs2 in He.
      - unfold nested_get.
        destruct (bt_get (location_height loc) hs) eqn:Ha; [by apply (proj2 H1 _ _ Hhs) in Ha|].
        destruct (bt_get (location_height loc) hs2) eqn:Hb; [by apply (proj2 H2 _ _ Hhs2) in Hb|done]. }
    apply bt_ext; [apply Hcs|apply Hcs'|]. intros id. apply option_eq. intros hs. split.
    + by apply (Hle cs cs').
    + by apply (Hle cs' cs).
Qed.

Lemma insert_at_spec hs loc o :
  heights_wf hs -> heights_wf (insert_at hs loc o).1 /\ (insert_at hs loc o).2 = heights_get hs loc /\
  (forall loc', heights_get (insert_at hs loc o).1 loc' = if loc' =? loc then Some o else heights_get hs loc') /\
  forall h, is_Some (bt_get h (insert_at hs loc o).1) <-> h = location_height loc \/ is_Some (bt_get h hs).
Proof.
  intros Hhs. unfold insert_at. cbn [fst snd]. destruct (nested_insert location_height hs loc o Hhs) as (Hwf & Hg & Hid).
  destruct (nested_default location_height hs loc Hhs) as (_ & _ & Hget). split_and!; [done| |done|done].
  by apply Hget.
Qed.

Lemma chunks_insert cs loc o :
  nested_wf chunk_id cs -> (forall id hs, bt_get id cs = Some hs -> heights_wf hs) ->
  let id := chunk_id (location_height loc) in
  let inserted := insert_at (default [] (bt_get id cs)) loc o in
  let cs' := bt_insert id inserted.1 cs in
  nested_wf chunk_id cs' /\ (forall id hs, bt_get id cs' = Some hs -> heights_wf hs) /\
  inserted.2 = created_get (Chunked cs) loc /\
  (forall loc', created_get (Chunked cs') loc' = if loc' =? loc then Some o else created_get (Chunked cs) loc') /\
  forall id', is_Some (bt_get id' cs') <-> id' = id \/ is_Some (bt_get id' cs).
Proof.
  intros Hcs Hin. cbn zeta. set (id := chunk_id (location_height loc)). set (hs := default [] (bt_get id cs)).
  assert (Hhs : heights_wf hs).
  { unfold hs. destruct (bt_get id cs) eqn:He; [by eapply Hin|]. split; [constructor|done]. }
  assert (Hold : forall l, chunk_id (location_height l) = id -> heights_get hs l = created_get (Chunked cs) l).
  { intros l Hl. unfold hs. cbn. rewrite Hl. by destruct (bt_get id cs). }
  destruct (insert_at_spec hs loc o Hhs) as (Hwf & Hret & Hget & Hsome).
  destruct (nested_default chunk_id cs (location_height loc) Hcs) as (_ & Hkeys & _). fold id hs in Hkeys.
  set (hs' := (insert_at hs loc o).1) in *.
  assert (Hlook : forall id', bt_get id' (bt_insert id hs' cs) = if id' =? id then Some hs' else bt_get id' cs)
    by (intros; apply bt_get_insert, Hcs).
  split_and!.
  - split; [apply bt_insert_wf, Hcs|]. intros id' g. rewrite Hlook. destruct (Z.eqb_spec id' id) as [->|]; [|apply Hcs].
    intros [= <-]. split; [apply Hwf|]. split.
    + intros Hnil. destruct (Hsome (location_height loc)) as [_ Hs]. rewrite Hnil in Hs. destruct (Hs (or_introl eq_refl)) as [? [=]].
    + intros h v Hh. destruct (proj1 (Hsome h)) as [->|[v' Hv']]; [by eexists|done|by eapply Hkeys].
  - intros id' g. rewrite Hlook. destruct (Z.eqb_spec id' id) as [->|]; [by intros [= <-]|apply Hin].
  - rewrite Hret. by apply Hold.
  - intros loc'. cbn [created_get]. rewrite Hlook. destruct (Z.eqb_spec (chunk_id (location_height loc')) id) as [Hc|Hc].
    + cbn [mbind option_bind]. rewrite Hget. destruct (loc' =? loc); [done|]. by rewrite Hold.
    + rewrite (proj2 (Z.eqb_neq loc' loc)); [done|]. intros ->. done.
  - intros id'. rewrite Hlook. destruct (Z.eqb_spec id' id) as [->|].
    + split; [by left|by eexists].
    + naive_solver.
Qed.

Lemma created_insert_spec m loc o :
  created_wf m -> created_wf (created_insert m loc o).1 /\ (created_insert m loc o).2 = created_get m loc /\
  forall loc', created_get (created_insert m loc o).1 loc' = if loc' =? loc then Some o else created_get m loc'.
Proof.
  intros Hm. unfold created_insert. set (id := chunk_id (location_height loc)).
  assert (Hchunked : forall cs, nested_wf chunk_id cs -> (forall id hs, bt_get id cs = Some hs -> heights_wf hs) ->
    (exists id', id' <> id /\ is_Some (bt_get id' cs)) ->
    (forall loc, created_get (Chunked cs) loc = created_get m loc) ->
    let r := (let '(heights, previous) := insert_at (default [] (bt_get id cs)) loc o in
              (Chunked (bt_insert id heights cs), previous)) in
    created_wf r.1 /\ r.2 = created_get m loc /\
    forall loc', created_get r.1 loc' = if loc' =? loc then Some o else created_get m loc').
  { intros cs Hcs Hin (id' & Hne & Hid') Heq. pose proof (chunks_insert cs loc o Hcs Hin) as Hins.
    cbn zeta in Hins. fold id in Hins. destruct (insert_at _ loc o) as [hs' prev]. cbn zeta in *. cbn [fst snd] in *.
    destruct Hins as (Hwf & Hin' & Hret & Hget & Hsome). split_and!.
    - split; [done|]. split; [done|]. exists id', id. split_and!; [done|apply Hsome; by right|apply Hsome; by left].
    - by rewrite Hret.
    - intros loc'. rewrite Hget. by rewrite Heq. }
  destruct m as [hs|cs].
  2: { destruct Hm as (Hcs & Hin & id1 & id2 & Hne & H1 & H2). apply Hchunked; [done|done| |done].
       destruct (Z.eq_dec id1 id) as [->|]; [by exists id2|by exists id1]. }
  destruct Hm as [Hhs Hone].
  assert (Hsingle : (forall h, is_Some (bt_get h hs) -> chunk_id h = id) ->
    let r := (let '(heights, previous) := insert_at hs loc o in (Single heights, previous)) in
    created_wf r.1 /\ r.2 = created_get (Single hs) loc /\
    forall loc', created_get r.1 loc' = if loc' =? loc then Some o else created_get (Single hs) loc').
  { intros Hsame. pose proof (insert_at_spec hs loc o Hhs) as (Hwf & Hret & Hget & Hsome).
    destruct (insert_at hs loc o) as [hs' prev]. cbn [fst snd] in *. split_and!; [|done|done].
    split; [done|]. assert (Hid : forall h, is_Some (bt_get h hs') -> chunk_id h = id).
    { intros h [->|Hh]%Hsome; [done|by apply Hsame]. }
    intros h h' Hh Hh'. by rewrite !Hid. }
  destruct hs as [|[h0 g0] hs0] eqn:Hhead; cbn [head].
  { apply Hsingle. intros h [? [=]]. }
  rewrite <- Hhead in *. assert (Hh0 : is_Some (bt_get h0 hs)) by (rewrite Hhead, bt_head_get; by eexists).
  destruct (Z.eqb_spec (chunk_id h0) id) as [Heq|Hne]; cbn [negb].
  - apply Hsingle. intros h Hh. rewrite <- Heq. by apply Hone.
  - assert (Hlook : forall id', bt_get id' [(chunk_id h0, hs)] = if id' =? chunk_id h0 then Some hs else None) by done.
    apply Hchunked.
    + split; [by repeat constructor|]. intros id' g. rewrite Hlook. destruct (Z.eqb_spec id' (chunk_id h0)) as [->|]; [|done].
      intros [= <-]. split_and!; [apply Hhs|by rewrite Hhead|]. intros k v Hk. apply Hone; [by eexists|done].
    + intros id' g. rewrite Hlook. destruct (id' =? chunk_id h0); [|done]. by intros [= <-].
    + exists (chunk_id h0). split; [done|]. rewrite Hlook, Z.eqb_refl. by eexists.
    + intros l. cbn [created_get]. rewrite Hlook.
      destruct (Z.eqb_spec (chunk_id (location_height l)) (chunk_id h0)) as [Hc|Hc]; [done|]. cbn.
      unfold nested_get. destruct (bt_get (location_height l) hs) eqn:Hl; [|done].
      exfalso. apply Hc, Hone; [by eexists|done].
Qed.

Lemma last_of_group (g : CreatedOutputs) loc o :
  bt_wf g -> bt_get loc g = Some o ->
  ((length g =? 1)%nat && bt_contains_key loc g)%bool = true <-> bt_remove loc g = [].
Proof.
  intros Hwf Ho. unfold bt_contains_key. rewrite Ho, andb_true_r, Nat.eqb_eq.
  destruct g as [|[k v] [|[k' v'] g]]; [done|..].
  - cbn in Ho. destruct (Z.eqb_spec loc k) as [<-|]; [|done]. split; [|done]. intros _.
    unfold bt_remove. rewrite filter_cons_False; [done|]. cbn. tauto.
  - split; [done|]. intros Hnil. apply bt_wf_cons in Hwf as [_ Hlt]. apply Forall_cons in Hlt as [Hlt _]. cbn in Hlt.
    destruct (Z.eq_dec loc k) as [->|Hne].
    + assert (Hg : bt_get k' (bt_remove k ((k, v) :: (k', v') :: g)) = Some v').
      { rewrite bt_get_remove, (proj2 (Z.eqb_neq k' k)) by lia. cbn.
        rewrite (proj2 (Z.eqb_neq k' k)), Z.eqb_refl by lia. done. }
      by rewrite Hnil in Hg.
    + assert (Hg : bt_get k (bt_remove loc ((k, v) :: (k', v') :: g)) = Some v).
      { rewrite bt_get_remove, (proj2 (Z.eqb_neq k loc)) by lia. apply bt_head_get. }
      by rewrite Hnil in Hg.
Qed.

Lemma remove_at_spec {E} hs loc o :
  heights_wf hs -> heights_get hs loc = Some o ->
  exists hs', remove_at (E := E) hs loc = Ok (hs', true) /\ heights_wf hs' /\
    (forall loc', heights_get hs' loc' = if loc' =? loc then None else heights_get hs loc') /\
    forall h, is_Some (bt_get h hs') -> is_Some (bt_get h hs).
Proof.
  intros Hhs Ho. unfold nested_get in Ho. destruct (bt_get (location_height loc) hs) as [g|] eqn:Hg; [|done].
  cbn in Ho. destruct (proj2 Hhs _ _ Hg) as (Hwf & _ & Hk).
  destruct (nested_put location_height hs (location_height loc) (bt_remove loc g) Hhs) as (Hwf' & Hget & Hlook).
  { by apply bt_remove_wf. }
  { intros k v. rewrite bt_get_remove. destruct (k =? loc); [done|apply Hk]. }
  exists (match bt_remove loc g with
          | [] => bt_remove (location_height loc) hs
          | _ => bt_insert (location_height loc) (bt_remove loc g) hs
          end).
  cbn zeta in *. split_and!; [|done| |].
  - unfold remove_at. rewrite Hg. cbn [expect res_bind]. pose proof (last_of_group g loc o Hwf Ho) as Hlast.
    destruct ((length g =? 1)%nat && bt_contains_key loc g)%bool.
    + by rewrite (proj1 Hlast eq_refl).
    + unfold bt_contains_key. rewrite Ho. destruct (bt_remove loc g); [|done]. exfalso. naive_solver.
  - intros loc'. rewrite Hget. destruct (Z.eqb_spec (location_height loc') (location_height loc)) as [Hh|Hh].
    + rewrite bt_get_remove. destruct (loc' =? loc); [done|]. unfold nested_get. by rewrite Hh, Hg.
    + rewrite (proj2 (Z.eqb_neq loc' loc)); [done|]. intros ->. done.
  - intros h. rewrite Hlook. destruct (Z.eqb_spec h (location_height loc)) as [->|]; [|done]. by rewrite Hg.
Qed.

(** The chunks that remain, as a map of one chunk or of several *)
Definition collapse (cs : list (Z * CreatedOutputHeights)) : CreatedUtxos :=
  match cs with [(_, remaining)] => Single remaining | _ => Chunked cs end.

Lemma collapse_spec cs :
  nested_wf chunk_id cs -> (forall id hs, bt_get id cs = Some hs -> heights_wf hs) -> cs <> [] ->
  created_wf (collapse cs) /\ forall loc, created_get (collapse cs) loc = created_get (Chunked cs) loc.
Proof.
  intros Hcs Hin Hne. destruct cs as [|[c1 hs1] [|[c2 hs2] cs]]; [done|..].
  - cbn [collapse]. assert (Hkeys : forall h, is_Some (bt_get h hs1) -> chunk_id h = c1).
    { intros h [g Hg]. eapply (proj2 Hcs); [apply bt_head_get|done]. }
    split.
    + split; [eapply Hin; apply bt_head_get|]. intros h h' Hh Hh'. by rewrite !Hkeys.
    + intros loc. cbn. destruct (Z.eqb_spec (chunk_id (location_height loc)) c1) as [|Hc]; [done|]. cbn.
      unfold nested_get. destruct (bt_get (location_height loc) hs1) eqn:Hl; [|done].
      exfalso. apply Hc, Hkeys. by eexists.
  - cbn [collapse]. split; [|done]. split; [done|]. split; [done|]. exists c1, c2.
    destruct Hcs as [Hwf _]. apply bt_wf_cons in Hwf as [_ Hlt]. apply Forall_cons in Hlt as [Hlt _]. cbn in Hlt.
    split_and!; [lia|rewrite bt_head_get; by eexists|]. cbn. rewrite (proj2 (Z.eqb_neq c2 c1)), Z.eqb_refl by lia.
    by eexists.
Qed.

Lemma created_remove_spec {E} m loc o :
  created_wf m -> created_get m loc = Some o ->
  exists m', created_remove (E := E) m loc = Ok (m', true) /\ created_wf m' /\
    forall loc', created_get m' loc' = if loc' =? loc then None else created_get m loc'.
Proof.
  intros Hm Ho. unfold created_remove. destruct m as [hs|cs].
  - destruct Hm as [Hhs Hone]. destruct (remove_at_spec (E := E) hs loc o Hhs Ho) as (hs' & -> & Hwf & Hget & Hsome).
    cbn. eexists. split; [done|]. split; [|done]. split; [done|]. intros h h' Hh Hh'. apply Hone; auto.
  - destruct Hm as (Hcs & Hin & id1 & id2 & Hne & H1 & H2). cbn in Ho. set (id := chunk_id (location_height loc)) in *.
    destruct (bt_get id cs) as [hs|] eqn:Hid; [|done]. cbn in Ho. cbn [expect res_bind].
    destruct (remove_at_spec (E := E) hs loc o (Hin _ _ Hid) Ho) as (hs' & -> & Hwf & Hget & Hsome).
    cbn [res_bind fst snd]. destruct (proj2 Hcs _ _ Hid) as (_ & _ & Hk).
    destruct (nested_put chunk_id cs id hs' Hcs (proj1 Hwf)) as (Hwf' & _ & Hlook).
    { intros h g Hh. destruct (Hsome h) as [g' Hg']; [by eexists|]. by eapply Hk. }
    set (cs' := match hs' with [] => bt_remove id cs | _ => bt_insert id hs' cs end) in *. cbn zeta in *.
    assert (Hin' : forall id' g, bt_get id' cs' = Some g -> heights_wf g).
    { intros id' g. rewrite Hlook. destruct (id' =? id); [|apply Hin]. destruct hs'; [done|]. by intros [= <-]. }
    assert (Hget' : forall loc', created_get (Chunked cs') loc' =
                      if loc' =? loc then None else created_get (Chunked cs) loc').
    { intros loc'. cbn [created_get]. rewrite Hlook. destruct (Z.eqb_spec (chunk_id (location_height loc')) id) as [Hc|Hc].
      - rewrite Hc, Hid. cbn [mbind option_bind]. rewrite <- Hget. by destruct hs'.
      - rewrite (proj2 (Z.eqb_neq loc' loc)); [done|]. intros ->. done. }
    destruct hs' as [|e hs''].
    + assert (Hcol : match cs' with [(_, remaining)] => Ok (Single remaining, true) | _ => Ok (Chunked cs', true) end
                     = Ok (E := E) (collapse cs', true)).
      { by destruct cs' as [|[c g] [|]]. }
      fold cs'. rewrite Hcol. destruct (collapse_spec cs' Hwf' Hin') as [Hcwf Hcget].
      { intros Hnil. destruct (Z.eq_dec id1 id) as [->|Hn1].
        - specialize (Hlook id2). rewrite Hnil, (proj2 (Z.eqb_neq id2 id)) in Hlook by congruence.
          cbn in Hlook. rewrite <- Hlook in H2. by destruct H2.
        - specialize (Hlook id1). rewrite Hnil, (proj2 (Z.eqb_neq id1 id)) in Hlook by congruence.
          cbn in Hlook. rewrite <- Hlook in H1. by destruct H1. }
      eexists. split; [done|]. split; [done|]. intros loc'. by rewrite Hcget, Hget'.
    + eexists. split; [done|]. fold cs'. split; [|done]. split; [done|]. split; [done|]. exists id1, id2.
      rewrite !Hlook. split; [done|]. destruct (id1 =? id), (id2 =? id); (split; [|]); done || by eexists.
Qed.

(** ** Transfers of an address *)

(** An output that was created, and one that was spent, with the transaction
    that spent it *)
Abbreviation Creation := (OutPoint * OrderedUtxo)%type.
Abbreviation Spend := (Hash * Creation)%type.

Definition loc_of (e : Creation) : Z :=
  from_outpoint (utxo_height (utxo e.2), tx_index_in_block e.2) e.1.
Definition value_of (e : Creation) : Z := zatoshis (value (output (utxo e.2))).

Definition total (l : list Creation) : Z := foldr (fun e acc => value_of e + acc) 0 l.

(** What the index needs of an output: its transaction index fits, and its value
    is an amount. *)
Definition indexable (e : Creation) : Prop :=
  0 <= tx_index_in_block e.2 < 2 ^ 16 /\ 0 <= value_of e <= MAX_MONEY.

#[export] Instance indexable_dec e : Decision (indexable e).
Proof. unfold indexable. apply _. Defined.

(** The transfers with the creations [cr] and the spends [sp] *)
Record transfers_of (t : TransparentTransfers) (cr : list Creation) (sp : list Spend) : Prop := {
  t_range : wf (balance t);
  t_balance : zatoshis (balance t) = total cr - total sp.*2;
  t_tx_ids : tx_ids t = counts (((op_hash ∘ fst) <$> cr) ++ sp.*1);
  t_created_wf : created_wf (created_utxos t);
  t_created_unique : NoDup (loc_of <$> cr);
  t_created : forall loc o, created_get (created_utxos t) loc = Some o <->
    exists e, e ∈ cr /\ loc_of e = loc /\ output (utxo e.2) = o;
  t_spent_wf : bs_wf Z.lt (spent_utxos t);
  t_spent_unique : NoDup (loc_of <$> sp.*2);
  t_spent : forall loc, loc ∈ spent_utxos t <-> loc ∈ loc_of <$> sp.*2;
}.

Lemma total_perm l l' : l ≡ₚ l' -> total l = total l'.
Proof. unfold total. induction 1; cbn [foldr]; lia. Qed.

Lemma transfers_perm t cr cr' sp sp' :
  transfers_of t cr sp -> cr ≡ₚ cr' -> sp ≡ₚ sp' -> transfers_of t cr' sp'.
Proof.
  intros [Hr Hb Hi Hcw Hcu Hc Hsw Hsu Hs] Hcr Hsp.
  assert (Hsp2 : sp.*2 ≡ₚ sp'.*2) by by apply fmap_Permutation.
  split; try done.
  - by rewrite <- (total_perm _ _ Hcr), <- (total_perm _ _ Hsp2).
  - rewrite Hi. apply counts_perm. apply Permutation_app; by apply fmap_Permutation.
  - by rewrite <- (fmap_Permutation loc_of _ _ Hcr).
  - intros loc o. rewrite Hc. split; intros (e & He & ?); exists e; (split; [|done]); by rewrite ?Hcr, <- ?Hcr in *.
  - by rewrite <- (fmap_Permutation loc_of _ _ Hsp2).
  - intros loc. rewrite Hs. by rewrite (fmap_Permutation loc_of _ _ Hsp2).
Qed.

(** The creations and spends determine the transfers. *)
Lemma transfers_ext t t' cr sp : transfers_of t cr sp -> transfers_of t' cr sp -> t = t'.
Proof.
  intros [_ Hb Hi Hcw _ Hc Hsw _ Hs] [_ Hb' Hi' Hcw' _ Hc' Hsw' _ Hs'].
  destruct t as [[b] i c s], t' as [[b'] i' c' s']. cbn in *. f_equal; [congruence|congruence| |].
  - apply created_ext; [done|done|]. intros loc. apply option_eq. intros o. by rewrite Hc, Hc'.
  - apply (bs_ext Z.lt); [done|done|]. intros loc. by rewrite Hs, Hs'.
Qed.

Lemma no_transfers_of : transfers_of no_transfers [] [].
Proof.
  split; cbn; [apply zero_wf|done|done| |constructor| |constructor|constructor|done].
  - split; [split; [constructor|done]|]. intros h h' [? [=]].
  - intros loc o. split; [done|]. intros (e & He & _). inversion He.
Qed.

Definition in_money (z : Z) : Prop := - MAX_MONEY <= z <= MAX_MONEY.

Lemma negative_wf (a : Amount NegativeAllowed) : wf a <-> in_money (zatoshis a).
Proof. rewrite wf_range. reflexivity. Qed.

Lemma signed_value_Ok {E} (u : OrderedUtxo) v :
  signed_value (E := E) u = Ok v <-> v = mk (zatoshis (value (output (utxo u)))) /\ wf v.
Proof.
  unfold signed_value, constrain. rewrite expect_ok_Ok, try_from_i64_Ok, negative_wf. unfold in_money. cbn.
  split; intros [-> ?]; done.
Qed.

Lemma location_Ok {E} op u loc :
  output_location (E := E) op u = Ok loc <-> loc = loc_of (op, u) /\ 0 <= tx_index_in_block u < 2 ^ 16.
Proof.
  unfold output_location, transaction_location, transaction_location_from. split.
  - destruct (to_uint 16 (tx_index_in_block u)) as [i|] eqn:Hi; [|done]. intros [= <-].
    by apply to_uint_Some in Hi as [-> ?].
  - intros [-> Hi]. rewrite (proj2 (to_uint_Some 16 _ _) (conj eq_refl Hi)). done.
Qed.

Lemma counted_insert_inv {E T} `{Countable T} (l : list T) v c :
  counted_insert (E := E) (counts l) v = Ok c -> c = counts (v :: l).
Proof.
  unfold counted_insert. destruct (to_uint 64 _) as [n|] eqn:Hn; [|done]. intros [= <-].
  by apply to_uint_Some in Hn as [-> _].
Qed.

Lemma create_Ok {E} t cr sp op u t' :
  transfers_of t cr sp -> create_transfer (E := E) t op u = Ok t' -> transfers_of t' ((op, u) :: cr) sp.
Proof.
  intros [Hr Hb Hi Hcw Hcu Hc Hsw Hsu Hs] Hup. unfold create_transfer in Hup.
  apply res_bind_Ok in Hup as (v & [-> Hv]%signed_value_Ok & Hup).
  apply res_bind_Ok in Hup as (b & Hbal & Hup). rewrite expect_ok_Ok, add_spec in Hbal by done.
  apply res_bind_Ok in Hup as (loc & [-> Hidx]%location_Ok & Hup).
  destruct (created_insert_spec (created_utxos t) (loc_of (op, u)) (output (utxo u)) Hcw) as (Hcw' & Hprev & Hget).
  destruct (created_insert _ _ _) as [m' prev]. cbn [fst snd] in *. subst prev.
  apply res_bind_Ok in Hup as ([] & Hnone & Hup). unfold rust_assert in Hnone.
  destruct (bool_decide_reflect (created_get (created_utxos t) (loc_of (op, u)) = None)) as [Hn|]; [|done].
  apply res_bind_Ok in Hup as (ids & Hids & Hup). rewrite Hi in Hids. apply counted_insert_inv in Hids as ->.
  injection Hup as <-. pose proof (try_from_i64_wf _ _ Hbal) as Hbw. apply try_from_i64_Ok in Hbal as [-> _].
  split; cbn [balance tx_ids created_utxos spent_utxos]; try done.
  - cbn [total foldr zatoshis]. fold (total cr). unfold value_of. cbn [snd]. lia.
  - rewrite fmap_cons. constructor; [|done]. intros (e & He & Hin)%list_elem_of_fmap.
    assert (Hsome : created_get (created_utxos t) (loc_of (op, u)) = Some (output (utxo e.2)))
      by (apply Hc; by exists e).
    by rewrite Hn in Hsome.
  - intros loc o. rewrite Hget. destruct (Z.eqb_spec loc (loc_of (op, u))) as [->|Hne].
    + split; [intros [= <-]; exists (op, u); split; [by left|done]|].
      intros (e & [->|He]%elem_of_cons & Hl & Ho); [by f_equal|].
      assert (Hsome : created_get (created_utxos t) (loc_of (op, u)) = Some o) by (apply Hc; by exists e).
      by rewrite Hn in Hsome.
    + rewrite Hc. split.
      * intros (e & He & ?). exists e. split; [by right|done].
      * intros (e & [->|He]%elem_of_cons & Hl & Ho); [by destruct Hne|by exists e].
Qed.

Lemma created_elem t cr sp e :
  transfers_of t cr sp -> e ∈ cr -> created_get (created_utxos t) (loc_of e) = Some (output (utxo e.2)).
Proof. intros Ht He. apply (t_created _ _ _ Ht). by exists e. Qed.

Lemma revert_create_Ok {E} t cr sp op u :
  transfers_of t ((op, u) :: cr) sp -> indexable (op, u) -> in_money (total cr - total sp.*2) ->
  exists t', revert_create (E := E) t op u = Ok t' /\ transfers_of t' cr sp.
Proof.
  intros Ht [Hidx Hval] Hrange. pose proof (created_elem _ _ _ (op, u) Ht ltac:(left)) as Hget0.
  destruct Ht as [Hr Hb Hi Hcw Hcu Hc Hsw Hsu Hs]. unfold revert_create.
  set (v := mk (C := NegativeAllowed) (value_of (op, u))).
  assert (Hv : signed_value (E := E) u = Ok v).
  { apply signed_value_Ok. split; [done|]. apply negative_wf. unfold in_money. cbn. lia. }
  rewrite Hv. cbn [res_bind]. rewrite sub_spec by (done || by apply (signed_value_Ok (E := E) u)).
  cbn [total foldr] in Hb. fold (total cr) in Hb.
  assert (Hsub : try_from_i64 (C := NegativeAllowed) (zatoshis (balance t) - zatoshis v)
                 = Ok (mk (total cr - total sp.*2))).
  { apply try_from_i64_Ok. split; [|cbn; unfold in_money in Hrange; lia]. f_equal. cbn. lia. }
  rewrite Hsub. cbn [expect_ok res_bind]. rewrite (proj2 (location_Ok op u _) (conj eq_refl Hidx)). cbn [res_bind].
  destruct (created_remove_spec (E := E) _ _ _ Hcw Hget0) as (m' & -> & Hmw & Hget). cbn [res_bind fst snd rust_assert].
  rewrite Hi. cbn [fmap list_fmap app compose fst]. rewrite counted_remove_counts. cbn [res_bind rust_assert].
  eexists. split; [done|]. rewrite fmap_cons in Hcu. apply NoDup_cons in Hcu as [Hfresh Hcu].
  split; cbn [balance tx_ids created_utxos spent_utxos]; try done.
  - by apply negative_wf.
  - intros loc o. rewrite Hget. destruct (Z.eqb_spec loc (loc_of (op, u))) as [->|Hne].
    + split; [done|]. intros (e & He & Hl & _). exfalso. apply Hfresh. rewrite <- Hl. by apply list_elem_of_fmap_2.
    + rewrite Hc. split.
      * intros (e & [->|He]%elem_of_cons & Hl & Ho); [by destruct Hne|by exists e].
      * intros (e & He & ?). exists e. split; [by right|done].
Qed.

Lemma spend_Ok {E} t cr sp h op u t' :
  transfers_of t cr sp -> spend_transfer (E := E) t op h u = Ok t' -> transfers_of t' cr ((h, (op, u)) :: sp).
Proof.
  intros [Hr Hb Hi Hcw Hcu Hc Hsw Hsu Hs] Hup. unfold spend_transfer in Hup.
  apply res_bind_Ok in Hup as (v & [-> Hv]%signed_value_Ok & Hup).
  apply res_bind_Ok in Hup as (b & Hbal & Hup). rewrite expect_ok_Ok, sub_spec in Hbal by done.
  apply res_bind_Ok in Hup as (loc & [-> Hidx]%location_Ok & Hup).
  apply res_bind_Ok in Hup as ([] & Hnew & Hup).
  destruct (bs_contains Z.lt (loc_of (op, u)) (spent_utxos t)) eqn:Hin; [done|].
  apply not_true_iff_false in Hin. rewrite (bs_contains_elem _ Z.lt_trichotomy) in Hin by done.
  apply res_bind_Ok in Hup as (ids & Hids & Hup). rewrite Hi in Hids. apply counted_insert_inv in Hids as ->.
  injection Hup as <-. pose proof (try_from_i64_wf _ _ Hbal) as Hbw. apply try_from_i64_Ok in Hbal as [-> _].
  split; cbn [balance tx_ids created_utxos spent_utxos]; try done.
  - cbn [total foldr zatoshis fmap list_fmap snd]. fold (total sp.*2). unfold value_of. cbn [snd].
    change (list_fmap _ _ snd sp) with (sp.*2). lia.
  - rewrite fmap_cons. etrans; [|apply counts_perm, Permutation_middle]. done.
  - by apply (bs_insert_wf Z.lt).
  - cbn [fmap list_fmap snd]. constructor; [|done]. by rewrite <- Hs.
  - intros loc. rewrite (elem_of_bs_insert _ Z.lt_trichotomy). cbn [fmap list_fmap snd]. rewrite elem_of_cons, Hs. done.
Qed.

Lemma revert_spend_Ok {E} t cr sp h op u :
  transfers_of t cr ((h, (op, u)) :: sp) -> indexable (op, u) -> in_money (total cr - total sp.*2) ->
  exists t', revert_spend (E := E) t op h u = Ok t' /\ transfers_of t' cr sp.
Proof.
  intros [Hr Hb Hi Hcw Hcu Hc Hsw Hsu Hs] [Hidx Hval] Hrange. unfold revert_spend.
  set (v := mk (C := NegativeAllowed) (value_of (op, u))).
  assert (Hv : signed_value (E := E) u = Ok v).
  { apply signed_value_Ok. split; [done|]. apply negative_wf. unfold in_money. cbn. lia. }
  rewrite Hv. cbn [res_bind]. rewrite add_spec by (done || by apply (signed_value_Ok (E := E) u)).
  rewrite fmap_cons in Hb. cbn [total foldr snd] in Hb. fold (total sp.*2) in Hb.
  assert (Hadd : try_from_i64 (C := NegativeAllowed) (zatoshis (balance t) + zatoshis v)
                 = Ok (mk (total cr - total sp.*2))).
  { apply try_from_i64_Ok. split; [|cbn; unfold in_money in Hrange; lia]. f_equal. cbn. lia. }
  rewrite Hadd. cbn [expect_ok res_bind]. rewrite (proj2 (location_Ok op u _) (conj eq_refl Hidx)). cbn [res_bind].
  assert (Hin : loc_of (op, u) ∈ spent_utxos t) by (apply Hs; rewrite !fmap_cons; by left).
  rewrite (proj2 (bs_contains_elem Z.lt Z.lt_trichotomy _ _ Hsw) Hin). cbn [rust_assert res_bind].
  rewrite Hi, fmap_cons. rewrite <- (counts_perm _ _ (Permutation_middle _ sp.*1 _)).
  cbn [fst]. rewrite counted_remove_counts. cbn [res_bind rust_assert].
  eexists. split; [done|]. rewrite !fmap_cons in Hsu. apply NoDup_cons in Hsu as [Hfresh Hsu]. cbn [snd] in Hfresh.
  split; cbn [balance tx_ids created_utxos spent_utxos]; try done.
  - by apply negative_wf.
  - by apply (bs_remove_wf Z.lt Z.lt_trichotomy).
  - intros loc. rewrite (elem_of_bs_remove _ Z.lt_trichotomy) by done. rewrite Hs, !fmap_cons, elem_of_cons. cbn [snd].
    split; [naive_solver|]. intros Hl. split; [by right|]. intros ->. done.
Qed.

Lemma transfers_empty t cr sp : transfers_of t cr sp -> transfers_is_empty t = true <-> cr = [] /\ sp = [].
Proof.
  intros Ht. split.
  - unfold transfers_is_empty. intros [[[_ Hi]%andb_true_iff _]%andb_true_iff _]%andb_true_iff.
    apply bool_decide_eq_true in Hi. rewrite (t_tx_ids _ _ _ Ht) in Hi. apply counts_nil in Hi.
    apply app_eq_nil in Hi as [Hc Hs]. by apply fmap_nil_inv in Hc, Hs.
  - intros [-> ->]. by rewrite (transfers_ext _ _ _ _ Ht no_transfers_of).
Qed.
End AddressFacts.
