(* ===== verification/SpendCheck.v ===== *)
(** * Contextual spend checks

    [zakura-state/src/service/check/utxo.rs] and [check/nullifier.rs]: the
    checks, against a chain and the finalized state, that the outputs and the
    nullifiers a block spends are spent once and can be spent.

    What the checks read of the finalized state is the record [ZakuraDb]: its
    database is a parameter. *)

From stdpp Require Import base numbers strings list option gmap.
From Stdlib Require Import ZArith Lia.
From S2P Require Import Prelude Height Amount Network ValueBalance Dependencies Transparent MempoolTx Merkle Block Checkpoint.
Local Open Scope Z_scope.
Local Notation length := List.length.

Module SpendCheck.
Import Amount Network Block Checkpoint.

(** The spent and revealed indexes of a chain map to the spending transaction
    with the [indexer] feature, and to [()] without it. *)
Abbreviation SpendingTransactionId := unit.

(** [ValidateContextError], the constructors of these checks and of the chain
    update; [TreeErr] and [HistoryErr] are the errors of the note commitment and
    history trees. *)
Inductive ValidateContextError :=
| DuplicateTransparentSpend (outpoint : OutPoint) (location : string)
| EarlyTransparentSpend (outpoint : OutPoint)
| MissingTransparentOutput (outpoint : OutPoint) (location : string)
| ImmatureTransparentCoinbaseSpend (outpoint : OutPoint) (spend_height min_spend_height created_height : Z)
| UnshieldedTransparentCoinbaseSpend (outpoint : OutPoint)
| NegativeRemainingTransactionValue (e : Amount.Error) (height tx_index_in_block : Z) (transaction_hash : Hash)
| CalculateRemainingTransactionValue (e : Amount.Error) (height tx_index_in_block : Z) (transaction_hash : Hash)
| CalculateTransactionValueBalances (e : ValueBalance.ValueBalanceError) (height tx_index_in_block : Z)
    (transaction_hash : Hash)
| DuplicateSproutNullifier (nullifier : Z) (in_finalized_state : bool)
| DuplicateSaplingNullifier (nullifier : Z) (in_finalized_state : bool)
| DuplicateOrchardNullifier (nullifier : Z) (in_finalized_state : bool)
| DuplicateIronwoodNullifier (nullifier : Z) (in_finalized_state : bool)
| CumulativeWorkOverflow (height : Z) (block_hash : Hash)
| ValuePoolErr (e : ValueBalance.ValidateContextError)
| TreeErr
| HistoryErr.

(** The reads of the finalized state *)
Record ZakuraDb := mkDb {
  db_utxo : OutPoint -> option OrderedUtxo;
  contains_sprout_nullifier : Z -> bool;
  contains_sapling_nullifier : Z -> bool;
  contains_orchard_nullifier : Z -> bool;
  contains_ironwood_nullifier : Z -> bool;
}.

(** ** Transparent spends *)

Definition MIN_TRANSPARENT_COINBASE_MATURITY : Z := 100.

Inductive CoinbaseSpendRestriction := DisallowCoinbaseSpend | CheckCoinbaseMaturity (spend_height : Z).

Definition coinbase_spend_restriction (self : Transaction) (net : Network) (spend_height : Z)
  : CoinbaseSpendRestriction :=
  if bool_decide (outputs self = []) || should_allow_unshielded_coinbase_spends net
  then CheckCoinbaseMaturity spend_height else DisallowCoinbaseSpend.

Definition transparent_spend_chain_order (spend : OutPoint) (spend_tx_index_in_block : Z)
  (block_new_outputs created_utxos : gmap OutPoint OrderedUtxo)
  (spent_utxos : gmap OutPoint SpendingTransactionId) (finalized_state : ZakuraDb)
  : res ValidateContextError OrderedUtxo :=
  match block_new_outputs !! spend with
  | Some output =>
      if spend_tx_index_in_block <=? tx_index_in_block output then Err (EarlyTransparentSpend spend)
      else Ok output
  | None =>
      if bool_decide (is_Some (spent_utxos !! spend)) then
        Err (DuplicateTransparentSpend spend "the non-finalized chain")
      else
        ok_or (MissingTransparentOutput spend "the non-finalized and finalized chain")
          (match created_utxos !! spend with
           | Some utxo => Some utxo
           | None => db_utxo finalized_state spend
           end)
  end.

Definition transparent_coinbase_spend (outpoint : OutPoint) (spend_restriction : CoinbaseSpendRestriction)
  (utxo : Utxo) : res ValidateContextError unit :=
  if negb (from_coinbase utxo) then Ok tt
  else
    match spend_restriction with
    | CheckCoinbaseMaturity spend_height =>
        let? min_spend_height := Height.add_diff (utxo_height utxo) MIN_TRANSPARENT_COINBASE_MATURITY in
        let? min_spend_height := expect min_spend_height in
        if min_spend_height <=? spend_height then Ok tt
        else Err (ImmatureTransparentCoinbaseSpend outpoint spend_height min_spend_height (utxo_height utxo))
    | DisallowCoinbaseSpend => Err (UnshieldedTransparentCoinbaseSpend outpoint)
    end.

(** One transaction; the hashes are indexed by its place in the block. *)
Definition check_remaining_value (verified : CheckpointVerifiedBlock)
  (utxos : gmap OutPoint OrderedUtxo) (tx_index_in_block : nat) (transaction : BlockTx)
  : res ValidateContextError unit :=
  if is_coinbase (body transaction) then Ok tt
  else
    let fail {A} (error : Z -> Z -> Hash -> ValidateContextError) : res ValidateContextError A :=
      let? hash := expect (transaction_hashes verified !! tx_index_in_block) in
      Err (error (height verified) (Z.of_nat tx_index_in_block) hash) in
    match value_balance_from_utxos transaction utxos with
    | Panic => Panic
    | Err e => fail (CalculateTransactionValueBalances e)
    | Ok vb =>
        match ValueBalance.remaining_transaction_value vb with
        | Panic => Panic
        | Ok _ => Ok tt
        | Err (ConstraintError v r) =>
            if v <? 0 then fail (NegativeRemainingTransactionValue (ConstraintError v r))
            else fail (CalculateRemainingTransactionValue (ConstraintError v r))
        | Err e => fail (CalculateRemainingTransactionValue e)
        end
    end.

Definition remaining_transaction_value (verified : CheckpointVerifiedBlock)
  (utxos : gmap OutPoint OrderedUtxo) : res ValidateContextError unit :=
  foldl (fun acc '(i, transaction) =>
           let? _ := acc in check_remaining_value verified utxos i transaction)
    (Ok tt) (imap pair (transactions (block verified))).

Section TransparentSpend.
Context (verified : CheckpointVerifiedBlock) (net : Network).
Context (created_utxos : gmap OutPoint OrderedUtxo) (spent_utxos : gmap OutPoint SpendingTransactionId)
  (finalized_state : ZakuraDb).

(** One spend of a transaction *)
Definition check_spend (spend_tx_index_in_block : Z) (transaction : Transaction)
  (block_spends : gmap OutPoint OrderedUtxo) (spend : OutPoint)
  : res ValidateContextError (gmap OutPoint OrderedUtxo) :=
  let? utxo_ :=
    transparent_spend_chain_order spend spend_tx_index_in_block (new_outputs verified) created_utxos
      spent_utxos finalized_state in
  let? _ :=
    transparent_coinbase_spend spend (coinbase_spend_restriction transaction net (height verified))
      (utxo utxo_) in
  if bool_decide (is_Some (block_spends !! spend)) then
    Err (DuplicateTransparentSpend spend "the same block")
  else Ok (<[spend := utxo_]> block_spends).

Definition check_transaction_spends (spend_tx_index_in_block : nat) (transaction : BlockTx)
  (block_spends : gmap OutPoint OrderedUtxo) : res ValidateContextError (gmap OutPoint OrderedUtxo) :=
  foldl (fun acc spend =>
           let? block_spends := acc in
           check_spend (Z.of_nat spend_tx_index_in_block) (body transaction) block_spends spend)
    (Ok block_spends) (spent_outpoints (body transaction)).

Definition transparent_spend : res ValidateContextError (gmap OutPoint OrderedUtxo) :=
  let? block_spends :=
    foldl (fun acc '(i, transaction) =>
             let? block_spends := acc in check_transaction_spends i transaction block_spends)
      (Ok ∅) (imap pair (transactions (block verified))) in
  let? _ := remaining_transaction_value verified block_spends in
  Ok block_spends.
End TransparentSpend.

(** ** Nullifiers *)

(** [Block::sprout_nullifiers], and of the other pools *)
Definition block_nullifiers (pool : Transaction -> list Z) (self : Block) : list Z :=
  transactions self ≫= fun tx => pool (body tx).

(** The nullifiers of one pool, none of which may be in the finalized state *)
Definition none_finalized (contains : Z -> bool) (error : Z -> bool -> ValidateContextError)
  (nullifiers : list Z) : res ValidateContextError unit :=
  foldl (fun acc nullifier =>
           let? _ := acc in if contains nullifier then Err (error nullifier true) else Ok tt)
    (Ok tt) nullifiers.

Definition no_duplicates_in_finalized_chain (verified : CheckpointVerifiedBlock) (finalized_state : ZakuraDb)
  : res ValidateContextError unit :=
  let? _ := none_finalized (contains_sprout_nullifier finalized_state) DuplicateSproutNullifier
              (block_nullifiers sprout_nullifiers (block verified)) in
  let? _ := none_finalized (contains_sapling_nullifier finalized_state) DuplicateSaplingNullifier
              (block_nullifiers sapling_nullifiers (block verified)) in
  let? _ := none_finalized (contains_orchard_nullifier finalized_state) DuplicateOrchardNullifier
              (block_nullifiers orchard_nullifiers (block verified)) in
  none_finalized (contains_ironwood_nullifier finalized_state) DuplicateIronwoodNullifier
    (block_nullifiers ironwood_nullifiers (block verified)).

Definition find_duplicate_nullifier_with (revealed_nullifiers : list Z) (finalized_chain_contains : Z -> bool)
  (non_finalized_chain_contains : option (Z -> bool)) (error : Z -> bool -> ValidateContextError)
  : res ValidateContextError unit :=
  foldl (fun acc nullifier =>
           let? _ := acc in
           if match non_finalized_chain_contains with Some f => f nullifier | None => false end
           then Err (error nullifier false)
           else if finalized_chain_contains nullifier then Err (error nullifier true)
           else Ok tt)
    (Ok tt) revealed_nullifiers.

Definition add_to_non_finalized_chain_unique_with (chain_nullifiers : gmap Z SpendingTransactionId)
  (shielded_data_nullifiers : list Z) (revealing_tx_id : SpendingTransactionId)
  (error : Z -> bool -> ValidateContextError) : res ValidateContextError (gmap Z SpendingTransactionId) :=
  foldl (fun acc nullifier =>
           let? chain_nullifiers := acc in
           match chain_nullifiers !! nullifier with
           | Some _ => Err (error nullifier false)
           | None => Ok (<[nullifier := revealing_tx_id]> chain_nullifiers)
           end)
    (Ok chain_nullifiers) shielded_data_nullifiers.

Definition remove_from_non_finalized_chain {E} (chain_nullifiers : gmap Z SpendingTransactionId)
  (shielded_data_nullifiers : list Z) : res E (gmap Z SpendingTransactionId) :=
  foldl (fun acc nullifier =>
           let? chain_nullifiers := acc in
           let? _ := rust_assert (bool_decide (is_Some (chain_nullifiers !! nullifier))) in
           Ok (delete nullifier chain_nullifiers))
    (Ok chain_nullifiers) shielded_data_nullifiers.
End SpendCheck.
