(* ===== verification/SpendFacts.v ===== *)
(** * The contextual check of transparent spends

    [transparent_spend] accepts a block exactly if each of its spends is the only
    one of its output, the output is created earlier on the chain, a coinbase
    output is mature and shielded, and no transaction spends more than it has. *)

From stdpp Require Import base numbers strings list option gmap sets sorting.
From Stdlib Require Import ZArith Lia.
From S2P Require Import Prelude Height Amount Network ValueBalance Dependencies Transparent MempoolTx BlockHeader Block Checkpoint SpendCheck.
Local Open Scope Z_scope.
Local Notation length := List.length.

Module SpendFacts.
Import Amount Network Block Checkpoint SpendCheck.

Section Spends.
Context (verified : CheckpointVerifiedBlock) (net : Network).
Context (created_utxos : gmap OutPoint OrderedUtxo) (spent_utxos : gmap OutPoint SpendingTransactionId)
  (finalized_state : ZakuraDb).

(** ** The rules *)

(** The output that the transaction at a place of the block spends: of an earlier
    transaction of the block, or unspent on the chain, or in the finalized state *)
Definition available (i : Z) (op : OutPoint) (u : OrderedUtxo) : Prop :=
  match new_outputs verified !! op with
  | Some o => u = o /\ tx_index_in_block o < i
  | None =>
      spent_utxos !! op = None /\
      (created_utxos !! op = Some u \/ created_utxos !! op = None /\ db_utxo finalized_state op = Some u)
  end.

(** A coinbase output is spent by a transaction without transparent outputs, or on
    a network that allows others, after 100 blocks. *)
Definition mature (tx : Transaction) (u : OrderedUtxo) : Prop :=
  from_coinbase (utxo u) = true ->
  (outputs tx = [] \/ should_allow_unshielded_coinbase_spends net = true) /\
  0 <= utxo_height (utxo u) + 100 <= Height.MAX /\ utxo_height (utxo u) + 100 <= height verified.

Definition spendable (i : Z) (tx : Transaction) (op : OutPoint) (u : OrderedUtxo) : Prop :=
  available i op u /\ mature tx u.

(** The value of a transaction that is not a coinbase is not negative. *)
Definition covered (spends : gmap OutPoint OrderedUtxo) (tx : BlockTx) : Prop :=
  is_coinbase (body tx) = true \/
  exists balance remaining, value_balance_from_utxos tx spends = Ok balance /\
    ValueBalance.remaining_transaction_value balance = Ok remaining.

Definition block_spends (txs : list BlockTx) : list OutPoint := txs ≫= fun tx => spent_outpoints (body tx).

(** ** The check *)

Lemma chain_order_Ok i op u :
  transparent_spend_chain_order op i (new_outputs verified) created_utxos spent_utxos finalized_state = Ok u <->
  available i op u.
Proof.
  unfold transparent_spend_chain_order, available. destruct (new_outputs verified !! op) as [o|].
  - destruct (Z.leb_spec i (tx_index_in_block o)); split; try done; [lia|by intros [= <-]|by intros [-> _]].
  - destruct (bool_decide_reflect (is_Some (spent_utxos !! op))) as [[x Hx]|Hn].
    + split; [done|]. intros [H _]. congruence.
    + rewrite ok_or_Ok. apply eq_None_not_Some in Hn. destruct (created_utxos !! op); split; intros; naive_solver.
Qed.

Lemma add_maturity_Ok {E} h m :
  (let? o := Height.add_diff (E := E) h MIN_TRANSPARENT_COINBASE_MATURITY in expect o) = Ok m <->
  m = h + 100 /\ 0 <= h + 100 <= Height.MAX.
Proof.
  rewrite Height.add_diff_spec. unfold MIN_TRANSPARENT_COINBASE_MATURITY. pose proof Height.MAX_val as HM.
  destruct (in_sint 64 (h + 100)) eqn:Hin; cbn [res_bind].
  - destruct (Z.leb_spec 0 (h + 100)), (Z.leb_spec (h + 100) Height.MAX); cbn [andb expect];
      (split; [by intros [= <-]|intros [-> ?]; done || lia]).
  - split; [done|]. intros [_ H]. rewrite (proj2 (in_sint_spec 64 _)) in Hin; [done|]. lia.
Qed.

Lemma coinbase_spend_Ok tx op u :
  transparent_coinbase_spend op (coinbase_spend_restriction tx net (height verified)) (utxo u) = Ok tt <->
  mature tx u.
Proof.
  unfold transparent_coinbase_spend, mature, coinbase_spend_restriction.
  destruct (from_coinbase (utxo u)); cbn [negb]; [|done].
  destruct (bool_decide (outputs tx = []) || should_allow_unshielded_coinbase_spends net) eqn:Ha.
  - assert (Hr : outputs tx = [] \/ should_allow_unshielded_coinbase_spends net = true)
      by (apply orb_true_iff in Ha as [?%bool_decide_eq_true|?]; tauto).
    rewrite res_bind_Ok. split.
    + intros (o & Ho & H) _. apply res_bind_Ok in H as (m & Hm & H). split; [done|].
      assert (Hadd : m = utxo_height (utxo u) + 100 /\ 0 <= utxo_height (utxo u) + 100 <= Height.MAX)
        by (apply (add_maturity_Ok (E := ValidateContextError)); rewrite Ho; exact Hm).
      destruct (Z.leb_spec m (height verified)); [|done]. lia.
    + intros [_ [Hrange Hle]]; [done|].
      pose proof (proj2 (add_maturity_Ok (E := ValidateContextError) _ _) (conj eq_refl Hrange)) as Hadd.
      apply res_bind_Ok in Hadd as (o & Ho & Hm). exists o. split; [done|]. rewrite Hm. cbn [res_bind].
      by rewrite (proj2 (Z.leb_le _ _)).
  - split; [done|]. intros [[Ho|Ho] _]; [done|..]; apply orb_false_iff in Ha as [Hf1 Hf2];
      [by apply bool_decide_eq_false in Hf1|congruence].
Qed.

Lemma check_spend_Ok i tx m op m' :
  check_spend verified net created_utxos spent_utxos finalized_state i tx m op = Ok m' <->
  exists u, spendable i tx op u /\ m !! op = None /\ m' = <[op := u]> m.
Proof.
  unfold check_spend, spendable. rewrite res_bind_Ok. setoid_rewrite chain_order_Ok. split.
  - intros (u & Ha & H). apply res_bind_Ok in H as ([] & Hc%coinbase_spend_Ok & H). exists u.
    destruct (bool_decide_reflect (is_Some (m !! op))) as [|Hn]; [done|]. injection H as <-.
    by apply eq_None_not_Some in Hn.
  - intros (u & [Ha Hm] & Hn & ->). exists u. split; [done|].
    rewrite (proj2 (coinbase_spend_Ok tx op u) Hm). cbn [res_bind]. rewrite Hn. by rewrite bool_decide_eq_false_2.
Qed.

(** The spends of a list of outpoints, with their outputs *)
Lemma transaction_spends_Ok i tx ops m m' :
  foldl (fun acc spend =>
           let? m := acc in check_spend verified net created_utxos spent_utxos finalized_state i tx m spend)
    (Ok m) ops = Ok m' <->
  exists us, us.*1 = ops /\ Forall (fun s => spendable i tx s.1 s.2) us /\ NoDup ops /\
    (forall op, op ∈ ops -> m !! op = None) /\ m' = list_to_map us ∪ m.
Proof.
  revert m. induction ops as [|op ops IH]; intros m.
  - split.
    + intros [= <-]. exists []. cbn. rewrite (left_id_L ∅ (∪)). split_and!; [done|constructor|constructor|set_solver|done].
    + intros ([|] & [=] & _ & _ & _ & ->). cbn. by rewrite (left_id_L ∅ (∪)).
  - rewrite foldl_bind_cons. split.
    + intros (m1 & (u & Hs & Hn & ->)%check_spend_Ok & (us & <- & Hus & Hnd & Hfresh & ->)%IH).
      exists ((op, u) :: us). cbn [fmap list_fmap fst].
      assert (Hop : op ∉ us.*1) by (intros Hin; specialize (Hfresh op Hin); by rewrite lookup_insert_eq in Hfresh).
      split_and!; [done|by constructor|by constructor| |].
      * intros o [->|Ho]%elem_of_cons; [done|]. specialize (Hfresh o Ho).
        rewrite lookup_insert_ne in Hfresh; [done|]. by intros ->.
      * rewrite list_to_map_cons, <- insert_union_l, insert_union_r; [done|]. by apply not_elem_of_list_to_map_1.
    + intros ([|[o u] us] & Hops & Hus & Hnd & Hfresh & ->); [done|]. injection Hops as -> <-.
      apply Forall_cons in Hus as [Hu Hus]. apply NoDup_cons in Hnd as [Hop Hnd]. exists (<[op := u]> m). split.
      * apply check_spend_Ok. exists u. split; [done|]. split; [|done]. apply Hfresh. set_solver.
      * apply IH. exists us. split_and!; [done|done|done| |].
        -- intros o Ho. rewrite lookup_insert_ne by set_solver. apply Hfresh. set_solver.
        -- rewrite list_to_map_cons, <- insert_union_l, insert_union_r; [done|]. by apply not_elem_of_list_to_map_1.
Qed.

(** A map lists its keys in any order. *)
Lemma map_in_order {V} (m : gmap OutPoint V) ops :
  dom m = list_to_set ops -> NoDup ops -> exists us, us.*1 = ops /\ list_to_map us = m.
Proof.
  revert m. induction ops as [|op ops IH]; intros m Hd Hnd.
  - exists []. split; [done|]. symmetry. by apply dom_empty_inv_L.
  - apply NoDup_cons in Hnd as [Hop Hnd]. cbn [list_to_set] in Hd.
    destruct (proj1 (elem_of_dom m op) ltac:(set_solver)) as [v Hv].
    destruct (IH (delete op m)) as (us & <- & Hus); [|done|].
    + rewrite dom_delete_L, Hd. set_solver.
    + exists ((op, v) :: us). split; [done|]. rewrite list_to_map_cons, Hus. by apply insert_delete_id.
Qed.

(** The spends of a transaction *)
Lemma check_transaction_spends_Ok i tx m m' :
  check_transaction_spends verified net created_utxos spent_utxos finalized_state i tx m = Ok m' <->
  exists spends, m' = spends ∪ m /\ dom spends = list_to_set (spent_outpoints (body tx)) /\
    NoDup (spent_outpoints (body tx)) /\ (forall op, op ∈ spent_outpoints (body tx) -> m !! op = None) /\
    (forall op u, spends !! op = Some u -> spendable (Z.of_nat i) (body tx) op u).
Proof.
  unfold check_transaction_spends. rewrite transaction_spends_Ok. split.
  - intros (us & Hops & Hus & Hnd & Hfresh & ->). exists (list_to_map us).
    split_and!; [done|by rewrite dom_list_to_map_L, Hops|done|done|].
    intros op u Hu%elem_of_list_to_map_2. by rewrite Forall_forall in Hus; apply (Hus (op, u)).
  - intros (spends & -> & Hd & Hnd & Hfresh & Hs). destruct (map_in_order spends _ Hd Hnd) as (us & Hops & <-).
    exists us. split_and!; [done| |done|done|done]. apply Forall_forall. intros [op u] Hin. apply Hs.
    apply elem_of_list_to_map_1; [by rewrite Hops|done].
Qed.

Definition outputs_of_spends (k : nat) (txs : list BlockTx) (spends : gmap OutPoint OrderedUtxo) : Prop :=
  forall j tx op u, txs !! j = Some tx -> op ∈ spent_outpoints (body tx) -> spends !! op = Some u ->
    spendable (Z.of_nat (k + j)) (body tx) op u.

Definition check_transactions (m : gmap OutPoint OrderedUtxo) (txs : list (nat * BlockTx))
  : res ValidateContextError (gmap OutPoint OrderedUtxo) :=
  foldl (fun acc '(i, transaction) =>
           let? m := acc in
           check_transaction_spends verified net created_utxos spent_utxos finalized_state i transaction m)
    (Ok m) txs.

Lemma check_transactions_cons m i tx txs m' :
  check_transactions m ((i, tx) :: txs) = Ok m' <->
  exists m1, check_transaction_spends verified net created_utxos spent_utxos finalized_state i tx m = Ok m1 /\
    check_transactions m1 txs = Ok m'.
Proof.
  apply (foldl_strict_cons (fun acc '(i, transaction) =>
    let? m := acc in check_transaction_spends verified net created_utxos spent_utxos finalized_state i transaction m)).
  intros r [j t] Hr a. destruct r as [b| |]; [by destruct (Hr b)|done..].
Qed.

(** [m'] has the spends of the transactions from a place on, and [m]. *)
Definition grown (k : nat) (txs : list BlockTx) (m m' : gmap OutPoint OrderedUtxo) : Prop :=
  exists spends, m' = spends ∪ m /\ dom spends = list_to_set (block_spends txs) /\ NoDup (block_spends txs) /\
    (forall op, op ∈ block_spends txs -> m !! op = None) /\ outputs_of_spends k txs spends.

Lemma block_spends_elem txs j tx op : txs !! j = Some tx -> op ∈ spent_outpoints (body tx) -> op ∈ block_spends txs.
Proof. intros Hj Hop. apply list_elem_of_bind. exists tx. split; [done|by eapply list_elem_of_lookup_2]. Qed.

Lemma grown_join k tx txs m m1 m' :
  check_transaction_spends verified net created_utxos spent_utxos finalized_state k tx m = Ok m1 ->
  grown (S k) txs m1 m' -> grown k (tx :: txs) m m'.
Proof.
  intros (s1 & -> & Hd1 & Hn1 & Hf1 & Hs1)%check_transaction_spends_Ok (s2 & -> & Hd2 & Hn2 & Hf2 & Hs2).
  unfold grown. change (block_spends (tx :: txs)) with (spent_outpoints (body tx) ++ block_spends txs).
  assert (Hdisj : forall op, op ∈ spent_outpoints (body tx) -> op ∈ block_spends txs -> False).
  { intros op H1 H2. specialize (Hf2 op H2). apply lookup_union_None in Hf2 as [Hf2 _].
    apply not_elem_of_dom in Hf2. set_solver. }
  exists (s2 ∪ s1). split; [by rewrite map_union_assoc|]. split; [rewrite dom_union_L, Hd1, Hd2, list_to_set_app_L; set_solver|].
  split; [apply NoDup_app; split_and!; [done|set_solver|done]|]. split.
  - intros op [H|H]%elem_of_app; [by apply Hf1|]. specialize (Hf2 op H). by apply lookup_union_None in Hf2 as [_ ?].
  - intros [|j] t op u Hj Hop Hu.
    + injection Hj as <-. rewrite Nat.add_0_r. apply Hs1. rewrite lookup_union_r in Hu; [done|].
      apply not_elem_of_dom. rewrite Hd2, elem_of_list_to_set. intros H2. by apply (Hdisj op).
    + rewrite Nat.add_succ_r. apply (Hs2 j t op u Hj Hop). pose proof (block_spends_elem txs j t op Hj Hop).
      rewrite lookup_union_l in Hu; [done|]. apply not_elem_of_dom. rewrite Hd1, elem_of_list_to_set.
      intros H1. by apply (Hdisj op).
Qed.

Lemma grown_split k tx txs m m' :
  grown k (tx :: txs) m m' ->
  exists m1, check_transaction_spends verified net created_utxos spent_utxos finalized_state k tx m = Ok m1 /\
    grown (S k) txs m1 m'.
Proof.
  unfold grown. change (block_spends (tx :: txs)) with (spent_outpoints (body tx) ++ block_spends txs).
  intros (spends & -> & Hd & Hn & Hf & Hs). destruct (map_in_order spends _ Hd Hn) as (us & Hops & <-).
  apply NoDup_app in Hn as (Hn1 & Hdisj & Hn2). apply fmap_app_inv in Hops as (us1 & us2 & H1 & H2 & ->).
  rewrite list_to_map_app in *. set (s1 := list_to_map us1 : gmap OutPoint OrderedUtxo) in *.
  set (s2 := list_to_map us2 : gmap OutPoint OrderedUtxo) in *.
  assert (Hd1 : dom s1 = list_to_set (spent_outpoints (body tx))) by (unfold s1; by rewrite dom_list_to_map_L, <- H1).
  assert (Hd2 : dom s2 = list_to_set (block_spends txs)) by (unfold s2; by rewrite dom_list_to_map_L, <- H2).
  assert (Hm : s1 ##ₘ s2) by (apply map_disjoint_dom; rewrite Hd1, Hd2; set_solver).
  exists (s1 ∪ m). split.
  - apply check_transaction_spends_Ok. exists s1. split_and!; [done|done|done|intros; apply Hf; set_solver|].
    intros op u Hu. rewrite <- (Nat.add_0_r k). apply (Hs 0%nat tx op u eq_refl); [|by apply lookup_union_Some_l].
    assert (op ∈ dom s1) by (apply elem_of_dom; by eexists). set_solver.
  - exists s2. split_and!; [|done|done| |].
    + by rewrite (map_union_comm s1), map_union_assoc by done.
    + intros op Hop. apply lookup_union_None. split; [|apply Hf, elem_of_app; by right].
      apply not_elem_of_dom. rewrite Hd1, elem_of_list_to_set. intros H. by apply (Hdisj op).
    + intros j t op u Hj Hop Hu. specialize (Hs (S j) t op u Hj Hop).
      rewrite Nat.add_succ_r in Hs. apply Hs. by apply lookup_union_Some_r.
Qed.

Lemma transactions_Ok k txs m m' :
  check_transactions m (imap (fun j tx => ((k + j)%nat, tx)) txs) = Ok m' <-> grown k txs m m'.
Proof.
  revert k m. induction txs as [|tx txs IH]; intros k m.
  - split.
    + intros [= <-]. exists ∅. rewrite (left_id_L ∅ (∪)), dom_empty_L.
      split_and!; [done|done|constructor|set_solver|intros j tx op u Hj; done].
    + intros (spends & -> & Hd & _). cbn in Hd. apply dom_empty_inv_L in Hd as ->. cbn. by rewrite (left_id_L ∅ (∪)).
  - rewrite imap_cons, Nat.add_0_r, check_transactions_cons.
    rewrite (imap_ext _ (fun j tx => ((S k + j)%nat, tx)) txs) by (intros j x _; cbn; f_equal; lia).
    setoid_rewrite IH. split; [intros (m1 & H1 & H2); by eapply grown_join|apply grown_split].
Qed.

(** ** The remaining value *)

Lemma check_remaining_value_Ok spends i tx :
  check_remaining_value verified spends i tx = Ok tt <-> covered spends tx.
Proof.
  unfold check_remaining_value, covered. destruct (is_coinbase (body tx)); [by split; [left|]|].
  set (h := transaction_hashes verified !! i).
  destruct (value_balance_from_utxos tx spends) as [vb|e|].
  - destruct (ValueBalance.remaining_transaction_value vb) as [r|e|] eqn:Hr.
    + split; [intros _; right; by exists vb, r|done].
    + split; [|intros [|(? & ? & [= <-] & ?)]; congruence].
      destruct e; try (by destruct h). destruct (_ <? _); by destruct h.
    + split; [done|]. intros [|(? & ? & [= <-] & ?)]; congruence.
  - split; [by destruct h|]. intros [|(? & ? & ? & _)]; congruence.
  - split; [done|]. intros [|(? & ? & ? & _)]; congruence.
Qed.

Lemma remaining_values_Ok spends k txs :
  foldl (fun acc '(i, transaction) => let? _ := acc in check_remaining_value verified spends i transaction)
    (Ok tt) (imap (fun j tx => ((k + j)%nat, tx)) txs) = Ok tt <-> Forall (covered spends) txs.
Proof.
  revert k. induction txs as [|tx txs IH]; intros k; [done|]. rewrite imap_cons, Nat.add_0_r.
  rewrite (imap_ext _ (fun j tx => ((S k + j)%nat, tx)) txs) by (intros j x _; cbn; f_equal; lia).
  rewrite foldl_strict_cons.
  2: { intros r [j t] Hr a. destruct r as [b| |]; [by destruct (Hr b)|done..]. }
  rewrite Forall_cons. cbn [res_bind]. split.
  - intros ([] & H1%check_remaining_value_Ok & H2%IH). done.
  - intros [H1 H2]. exists tt. split; [by apply check_remaining_value_Ok|by apply IH].
Qed.
End Spends.

(** C12: the check of the transparent spends of a block is exact.  It returns a map
    if and only if the map has exactly the outpoints the block spends, each spent
    once in the block; each output is created by an earlier transaction of the
    block, or by the chain and not spent there, or else is in the finalized state;
    a spent coinbase output is 100 blocks old, and its transaction has no
    transparent outputs unless the network allows them; and no transaction but the
    coinbase spends more than its inputs. *)
Theorem transparent_spend_exact verified net created_utxos spent_utxos finalized_state spends :
  transparent_spend verified net created_utxos spent_utxos finalized_state = Ok spends <->
  NoDup (block_spends (transactions (block verified))) /\
  dom spends = list_to_set (block_spends (transactions (block verified))) /\
  (forall i tx op u, transactions (block verified) !! i = Some tx -> op ∈ spent_outpoints (body tx) ->
     spends !! op = Some u ->
     available verified created_utxos spent_utxos finalized_state (Z.of_nat i) op u /\
     mature verified net (body tx) u) /\
  Forall (covered spends) (transactions (block verified)).
Proof.
  unfold transparent_spend. rewrite res_bind_Ok. set (txs := transactions (block verified)).
  assert (Hpair : imap pair txs = imap (fun j tx => ((0 + j)%nat, tx)) txs) by done.
  split.
  - intros (m & Hm & H). apply res_bind_Ok in H as ([] & Hr & H). injection H as ->.
    rewrite Hpair in Hm. apply transactions_Ok in Hm as (s & -> & Hd & Hn & _ & Hs). rewrite (right_id_L ∅ (∪)) in *.
    unfold remaining_transaction_value in Hr. fold txs in Hr. rewrite Hpair in Hr. by apply remaining_values_Ok in Hr.
  - intros (Hn & Hd & Hs & Hc). exists spends. split.
    + rewrite Hpair. apply transactions_Ok. exists spends. rewrite (right_id_L ∅ (∪)).
      split_and!; [done|done|done|by intros; rewrite lookup_empty|exact Hs].
    + unfold remaining_transaction_value. fold txs. rewrite Hpair, (proj2 (remaining_values_Ok verified spends 0 txs) Hc). done.
Qed.
End SpendFacts.
