(* ===== verification/TreeIndex.v ===== *)
(** * Note commitment tree indexes

    The trees of one shielded pool in a non-finalized chain
    ([zakura-state/src/service/non_finalized_state/chain.rs], [*_tree],
    [add_*_tree_and_anchor] and [remove_*_tree_and_anchor] of the four pools):
    the first tree of each series of equal ones by height, the anchor of every
    height, and the number of times each anchor occurs.  The file proves that the
    index has the tree of every height, after any extension and revert.

    The trees and their roots are parameters: they rest on the frontiers of
    [incrementalmerkletree]. *)

From stdpp Require Import base numbers list option gmap sets sorting.
From Stdlib Require Import ZArith Lia.
From S2P Require Import Prelude Height BTree ValueBalance HeightMap SharedMap.
Local Open Scope Z_scope.
Local Notation length := List.length.

Module TreeIndex.
Import SharedMap ValueBalance.

Section TreeIndex.
Context {T R : Type} `{EqDecision T, Countable R} (root : T -> R).

(** [trees_by_anchor] is kept for Sprout only. *)
Record TreeIndex := mkTrees {
  trees_by_height : list (Z * T);
  anchors : CountedSet R;
  anchors_by_height : list (Z * R);
  trees_by_anchor : option (gmap R T);
}.

Definition no_trees : TreeIndex := mkTrees [] ∅ [] None.
Definition no_sprout_trees : TreeIndex := mkTrees [] ∅ [] (Some ∅).

(** [sapling_tree] at a height, and [sapling_note_commitment_tree_for_tip] *)
Definition tree_at (self : TreeIndex) (height : Z) : option T :=
  snd <$> bt_last_le height (trees_by_height self).

Definition tree_for_tip {E} (self : TreeIndex) : res E T :=
  let? entry := expect (last (trees_by_height self)) in Ok entry.2.

(** [BTreeMap::insert] with the assertion that the key is new *)
Definition insert_new {E V} (k : Z) (v : V) (m : list (Z * V)) : res E (list (Z * V)) :=
  let? _ := rust_assert (negb (bt_contains_key k m)) in Ok (bt_insert k v m).

Definition add_tree_and_anchor {E} (self : TreeIndex) (height : Z) (tree : T) : res E TreeIndex :=
  let anchor := root tree in
  let? differs :=
    if Height.is_min height then Ok true
    else
      let? previous := expect_ok (Height.previous height) in
      Ok (bool_decide (tree_at self previous <> Some tree)) in
  let? trees :=
    if differs : bool then insert_new height tree (trees_by_height self) else Ok (trees_by_height self) in
  let? by_height := insert_new height anchor (anchors_by_height self) in
  let? anchors := counted_insert (anchors self) anchor in
  Ok (mkTrees trees anchors by_height
        (match trees_by_anchor self with Some m => Some (<[anchor := tree]> m) | None => None end)).

(** One removed height *)
Definition remove_height {E} (self : TreeIndex) (height : Z) : res E TreeIndex :=
  let? anchor := expect (bt_get height (anchors_by_height self)) in
  let '(anchors, present) := counted_remove (anchors self) anchor in
  let? _ := rust_assert present in
  Ok (mkTrees (bt_remove height (trees_by_height self)) anchors
        (bt_remove height (anchors_by_height self))
        (match trees_by_anchor self with
         | Some m => Some (if counted_contains anchors anchor then m else delete anchor m)
         | None => None
         end)).

(** [tip] is the height of the last block, if the chain is not empty: the block
    at [height] has been removed from it. *)
Definition remove_tree_and_anchor {E} (self : TreeIndex) (position : RevertPosition) (height : Z)
  (tip : option Z) : res E TreeIndex :=
  let '(removed_heights, highest_removed_tree) :=
    match position with
    | Root =>
        ((filter (fun kv => kv.1 <= height) (anchors_by_height self)).*1, tree_at self height)
    | Tip => ([height], None)
    end in
  let? self :=
    foldl (fun acc height => let? self := acc in remove_height self height) (Ok self) removed_heights in
  match tip with
  | Some tip_height =>
      if height <? tip_height then
        let? next_height := expect_ok (Height.next height) in
        match bt_get next_height (trees_by_height self) with
        | Some _ => Ok self
        | None =>
            let? tree := expect highest_removed_tree in
            Ok (mkTrees (bt_insert next_height tree (trees_by_height self)) (anchors self)
                  (anchors_by_height self) (trees_by_anchor self))
        end
      else Ok self
  | None => Ok self
  end.

(** ** The trees of consecutive heights *)

(** The first tree of each series of equal ones *)
Fixpoint series (base : Z) (prev : option T) (trees : list T) : list (Z * T) :=
  match trees with
  | [] => []
  | t :: ts =>
      if decide (prev = Some t) then series (base + 1) (Some t) ts
      else (base, t) :: series (base + 1) (Some t) ts
  end.

Fixpoint at_heights {A} (base : Z) (l : list A) : list (Z * A) :=
  match l with [] => [] | x :: l => (base, x) :: at_heights (base + 1) l end.

(** The index of the trees at the heights from [base] on *)
Record index_of (self : TreeIndex) (base : Z) (trees : list T) : Prop := {
  i_trees : trees_by_height self = series base None trees;
  i_anchors : anchors self = counts (root <$> trees);
  i_by_height : anchors_by_height self = at_heights base (root <$> trees);
  i_by_anchor : forall m, trees_by_anchor self = Some m ->
    forall r t, m !! r = Some t <-> t ∈ trees /\ root t = r;
}.
End TreeIndex.
Arguments TreeIndex : clear implicits.
Arguments TreeIndex T R {_ _}.
Section Facts.
Context {T R : Type} `{EqDecision T, Countable R} (root : T -> R).
Implicit Types (self : TreeIndex T R) (ts : list T).

Lemma at_heights_keys {A} base (l : list A) k x :
  (k, x) ∈ at_heights base l -> base <= k < base + Z.of_nat (length l).
Proof.
  revert base. induction l as [|y l IH]; intros base; cbn [at_heights length]; [intros Hin; inversion Hin|].
  intros [[= -> ->]|Hin]%elem_of_cons; [lia|]. apply IH in Hin. lia.
Qed.

Lemma at_heights_length {A} base (l : list A) : length (at_heights base l) = length l.
Proof. revert base. induction l as [|x l IH]; intros base; cbn; [done|]. by rewrite IH. Qed.

Lemma at_heights_wf {A} base (l : list A) : bt_wf (at_heights base l).
Proof.
  revert base. induction l as [|y l IH]; intros base; cbn [at_heights]; [constructor|].
  apply bt_wf_cons. split; [apply IH|]. apply Forall_forall. intros [k x] Hin%at_heights_keys. cbn. lia.
Qed.

Lemma at_heights_app {A} base (l l' : list A) :
  at_heights base (l ++ l') = at_heights base l ++ at_heights (base + Z.of_nat (length l)) l'.
Proof.
  revert base. induction l as [|y l IH]; intros base; cbn [app at_heights length]; [by rewrite Z.add_0_r|].
  rewrite IH. do 3 f_equal. lia.
Qed.

Lemma series_keys base prev ts k t :
  (k, t) ∈ series base prev ts -> base <= k < base + Z.of_nat (length ts).
Proof.
  revert base prev. induction ts as [|u ts IH]; intros base prev; cbn [series length]; [intros Hin; inversion Hin|].
  case_decide; [intros Hin%IH; lia|]. intros [[= -> ->]|Hin%IH]%elem_of_cons; lia.
Qed.

Lemma series_app base prev ts t :
  series base prev (ts ++ [t]) =
  series base prev ts ++
    (if decide (match last ts with Some u => Some u | None => prev end = Some t) then []
     else [(base + Z.of_nat (length ts), t)]).
Proof.
  revert base prev. induction ts as [|u ts IH]; intros base prev; cbn [app series length].
  { rewrite Z.add_0_r. cbn. by case_decide. }
  rewrite IH. replace (base + 1 + Z.of_nat (length ts)) with (base + Z.of_nat (S (length ts))) by lia.
  rewrite last_cons. destruct (last ts); repeat case_decide; done.
Qed.

Lemma last_le_below {V} k (m : list (Z * V)) : (forall e, e ∈ m -> k < e.1) -> bt_last_le k m = None.
Proof.
  destruct m as [|[j v] m]; [done|]. intros Hm. cbn. specialize (Hm (j, v) ltac:(set_solver)). cbn in Hm.
  by rewrite (proj2 (Z.leb_gt _ _)) by lia.
Qed.

(** The tree of a height is the last one stored at or below it. *)
Lemma series_at base prev ts h :
  base <= h < base + Z.of_nat (length ts) ->
  match bt_last_le h (series base prev ts) with Some e => Some e.2 | None => prev end
  = ts !! Z.to_nat (h - base).
Proof.
  revert base prev. induction ts as [|t ts IH]; intros base prev Hh; cbn [length] in Hh; [lia|].
  cbn [series]. destruct (Z.eq_dec h base) as [->|Hne].
  - replace (Z.to_nat (base - base)) with 0%nat by lia. cbn [lookup list_lookup].
    assert (Hlow : bt_last_le base (series (base + 1) (Some t) ts) = None).
    { apply last_le_below. intros [k u] Hin%series_keys. cbn. lia. }
    case_decide as Hp; [by rewrite Hlow|]. cbn. by rewrite Z.leb_refl, Hlow.
  - specialize (IH (base + 1) (Some t) ltac:(lia)).
    assert ((t :: ts) !! Z.to_nat (h - base) = ts !! Z.to_nat (h - (base + 1))) as ->.
    { by replace (Z.to_nat (h - base)) with (S (Z.to_nat (h - (base + 1)))) by lia. }
    case_decide as Hp; [by rewrite <- IH, Hp|]. cbn. rewrite (proj2 (Z.leb_le base h)) by lia.
    rewrite <- IH. by destruct (bt_last_le h (series (base + 1) (Some t) ts)) as [[??]|].
Qed.

Lemma tree_at_index self base ts h :
  index_of root self base ts -> base <= h < base + Z.of_nat (length ts) ->
  tree_at self h = ts !! Z.to_nat (h - base).
Proof.
  intros Hi Hh. unfold tree_at. rewrite (i_trees _ _ _ _ Hi), <- (series_at base None) by done.
  by destruct (bt_last_le _ _).
Qed.

Lemma last_le_all {V} k (m : list (Z * V)) : (forall e, e ∈ m -> e.1 <= k) -> bt_last_le k m = last m.
Proof.
  induction m as [|[j v] m IH]; intros Hm; [done|]. cbn [bt_last_le].
  rewrite (proj2 (Z.leb_le j k)) by (apply (Hm (j, v)); set_solver).
  rewrite IH by set_solver. rewrite last_cons. by destruct (last m).
Qed.

Lemma tree_for_tip_index {E} self base ts t :
  index_of root self base (ts ++ [t]) -> tree_for_tip (E := E) self = Ok t.
Proof.
  intros Hi. pose proof (tree_at_index self base (ts ++ [t]) (base + Z.of_nat (length ts)) Hi) as Ht.
  rewrite length_app in Ht. cbn in Ht. specialize (Ht ltac:(lia)).
  replace (Z.to_nat (base + Z.of_nat (length ts) - base)) with (length ts) in Ht by lia.
  rewrite lookup_app_r, Nat.sub_diag in Ht by lia. cbn in Ht. unfold tree_at in Ht. unfold tree_for_tip.
  rewrite last_le_all in Ht.
  - by destruct (last (trees_by_height self)) as [[k u]|]; [injection Ht as ->|].
  - rewrite (i_trees _ _ _ _ Hi). intros [k u] Hin%series_keys. rewrite length_app in Hin. cbn in *. lia.
Qed.

(** ** Extending the tip *)

(** Two trees of the list with the same root are equal. *)
Definition root_inj ts : Prop := forall t t', t ∈ ts -> t' ∈ ts -> root t = root t' -> t = t'.

Definition anchored self ts : Prop := is_Some (trees_by_anchor self) -> root_inj ts.

Lemma insert_new_last {E V} k (v : V) m :
  (forall e, e ∈ m -> e.1 < k) -> insert_new (E := E) k v m = Ok (m ++ [(k, v)]).
Proof.
  intros Hm. unfold insert_new, bt_contains_key.
  assert (Hg : bt_get k m = None).
  { induction m as [|[j w] m IH]; [done|]. cbn. specialize (Hm (j, w) ltac:(set_solver)) as Hj. cbn in Hj.
    rewrite (proj2 (Z.eqb_neq k j)) by lia. apply IH. set_solver. }
  rewrite Hg. cbn. f_equal. by apply bt_insert_last, Forall_forall.
Qed.

(** Whether a tree differs from the one of the height before *)
Definition differs {E} self (height : Z) (t : T) : res E bool :=
  if Height.is_min height then Ok true
  else
    let? previous := expect_ok (Height.previous height) in
    Ok (bool_decide (tree_at self previous <> Some t)).

Lemma differs_Ok {E} self base ts t :
  index_of root self base ts -> 0 <= base -> base + Z.of_nat (length ts) <= Height.MAX ->
  differs (E := E) self (base + Z.of_nat (length ts)) t = Ok (bool_decide (last ts <> Some t)).
Proof.
  intros Hi Hbase Hlen. unfold differs, Height.is_min, Height.MIN.
  destruct (Z.eqb_spec (base + Z.of_nat (length ts)) 0) as [H0|H0].
  { destruct ts; [done|]. cbn [length] in H0. lia. }
  rewrite Height.previous_valid by (unfold Height.valid, Height.MIN; lia). cbn [expect_ok res_bind]. do 2 f_equal.
  destruct (last ts) as [u|] eqn:Hl.
  - apply last_Some in Hl as [ts' ->]. rewrite length_app in *. cbn [length] in *.
    rewrite (tree_at_index self base (ts' ++ [u])) by (done || (rewrite length_app; cbn [length]; lia)).
    replace (Z.to_nat _) with (length ts') by lia. by rewrite lookup_app_r, Nat.sub_diag by lia.
  - apply last_None in Hl as ->. unfold tree_at. by rewrite (i_trees _ _ _ _ Hi).
Qed.

Lemma add_tree_Ok {E} self base ts t :
  index_of root self base ts -> anchored self (ts ++ [t]) ->
  0 <= base -> base + Z.of_nat (length ts) <= Height.MAX ->
  exists self', add_tree_and_anchor (E := E) root self (base + Z.of_nat (length ts)) t = Ok self' /\
    index_of root self' base (ts ++ [t]) /\ (is_Some (trees_by_anchor self') <-> is_Some (trees_by_anchor self)).
Proof.
  intros Hi Hinj Hbase Hlen. pose proof Height.MAX_val. pose proof (differs_Ok (E := E) self base ts t Hi Hbase Hlen) as Hd.
  unfold add_tree_and_anchor. fold (differs (E := E) self (base + Z.of_nat (length ts)) t). rewrite Hd. cbn [res_bind].
  assert (Htrees : (if bool_decide (last ts <> Some t)
      then insert_new (base + Z.of_nat (length ts)) t (trees_by_height self) else Ok (trees_by_height self))
      = Ok (E := E) (series base None (ts ++ [t]))).
  { rewrite (i_trees _ _ _ _ Hi), series_app. destruct (last ts) as [u|] eqn:Hl; repeat case_decide; try done.
    - rewrite bool_decide_eq_false_2 by naive_solver. by rewrite app_nil_r.
    - rewrite bool_decide_eq_true_2 by done. apply insert_new_last. intros [k v] Hin%series_keys. cbn. lia.
    - rewrite bool_decide_eq_true_2 by done. apply insert_new_last. intros [k v] Hin%series_keys. cbn. lia. }
  rewrite Htrees. cbn [res_bind]. rewrite (i_by_height _ _ _ _ Hi), insert_new_last.
  2: { intros [k v] Hin%at_heights_keys. rewrite length_fmap in Hin. cbn. lia. }
  cbn [res_bind]. rewrite (i_anchors _ _ _ _ Hi), counted_insert_counts by (rewrite length_fmap; lia). cbn [res_bind].
  eexists. split; [done|]. split.
  - split; cbn [trees_by_height anchors anchors_by_height trees_by_anchor]; [done| | |].
    + rewrite fmap_app. apply counts_perm. apply Permutation_cons_append.
    + rewrite fmap_app, at_heights_app, length_fmap. done.
    + pose proof (i_by_anchor _ _ _ _ Hi) as Hm. unfold anchored in Hinj.
      destruct (trees_by_anchor self) as [m|]; [|done]. intros m' [= <-] r u.
      specialize (Hinj ltac:(by eexists)). destruct (decide (root t = r)) as [<-|Hne].
      * rewrite lookup_insert_eq. split; [intros [= <-]; set_solver|]. intros [Hu Hr]. f_equal.
        apply Hinj; [set_solver|set_solver|done].
      * rewrite lookup_insert_ne, (Hm m eq_refl) by done. set_solver.
  - cbn. by destruct (trees_by_anchor self).
Qed.

(** ** Reverting *)

(** An index whose trees are being removed *)
Record partial_of self (trees : list (Z * T)) (base : Z) ts : Prop := {
  p_trees : trees_by_height self = trees;
  p_anchors : anchors self = counts (root <$> ts);
  p_by_height : anchors_by_height self = at_heights base (root <$> ts);
  p_by_anchor : forall m, trees_by_anchor self = Some m ->
    forall r t, m !! r = Some t <-> t ∈ ts /\ root t = r;
}.

Lemma index_partial self base ts :
  index_of root self base ts <-> partial_of self (series base None ts) base ts.
Proof. split; intros []; by split. Qed.

Lemma counted_contains_counts (l : list R) v : counted_contains (counts l) v = bool_decide (v ∈ l).
Proof.
  unfold counted_contains. apply bool_decide_ext. rewrite counts_lookup. unfold occurrences.
  destruct (Z.ltb_spec 0 (Z.of_nat (length (filter (fun w => w = v) l)))) as [Hlt|Hge].
  - split; [intros _|by eexists]. destruct (filter (fun w => w = v) l) as [|w f] eqn:Hf; [cbn in Hlt; lia|].
    assert (Hw : w ∈ filter (fun w => w = v) l) by (rewrite Hf; set_solver).
    apply list_elem_of_filter in Hw as [-> ?]. done.
  - split; [by intros []|]. intros Hin. assert (Hv : v ∈ filter (fun w => w = v) l) by by apply list_elem_of_filter.
    destruct (filter (fun w => w = v) l); [inversion Hv|cbn in Hge; lia].
Qed.

(** Removing the height of one tree of the list *)
Lemma remove_height_Ok {E} self trees base ts h t ts' base' :
  partial_of self trees base ts -> anchored self ts -> ts ≡ₚ t :: ts' ->
  bt_get h (at_heights base (root <$> ts)) = Some (root t) ->
  bt_remove h (at_heights base (root <$> ts)) = at_heights base' (root <$> ts') ->
  exists self', remove_height (E := E) self h = Ok self' /\ partial_of self' (bt_remove h trees) base' ts' /\
    (is_Some (trees_by_anchor self') <-> is_Some (trees_by_anchor self)).
Proof.
  intros [Ht Ha Hh Hm] Hinj Hp Hg Hr. unfold remove_height. rewrite Hh, Hg. cbn [expect res_bind].
  rewrite Ha, (counts_perm _ _ (fmap_Permutation root _ _ Hp)), fmap_cons, counted_remove_counts. cbn [rust_assert res_bind].
  eexists. split; [done|]. split.
  - split; cbn [trees_by_height anchors anchors_by_height trees_by_anchor]; [by rewrite Ht|done|done|].
    destruct (trees_by_anchor self) as [m|] eqn:Hs; [|done]. intros m' [= <-] r u.
    rewrite counted_contains_counts. specialize (Hm m eq_refl). assert (Hi : root_inj ts) by (apply Hinj; by eexists).
    setoid_rewrite Hp in Hm. unfold root_inj in Hi. setoid_rewrite Hp in Hi.
    destruct (bool_decide_reflect (root t ∈ root <$> ts')) as [Hin|Hout].
    + rewrite Hm. split; [|set_solver]. intros [[->|Hu]%elem_of_cons Hru]; [|done].
      apply list_elem_of_fmap in Hin as (w & Hw & Hin). 
      assert (t = w) as -> by (apply Hi; [set_solver|set_solver|done]). done.
    + destruct (decide (root t = r)) as [<-|Hne].
      * rewrite lookup_delete_eq. split; [done|]. intros [Hu Hru]. exfalso. apply Hout. rewrite <- Hru. set_solver.
      * rewrite lookup_delete_ne, Hm by done. set_solver.
  - cbn. by destruct (trees_by_anchor self).
Qed.

Lemma filter_keep {A} (P : A -> Prop) `{!forall x, Decision (P x)} (l : list A) :
  (forall x, x ∈ l -> P x) -> filter P l = l.
Proof.
  induction l as [|x l IH]; intros Hl; [done|]. rewrite filter_cons_True by set_solver. f_equal. apply IH. set_solver.
Qed.

Lemma series_app_list base prev ts ts' :
  series base prev (ts ++ ts') =
  series base prev ts ++ series (base + Z.of_nat (length ts)) (match last ts with Some u => Some u | None => prev end) ts'.
Proof.
  revert base prev. induction ts as [|u ts IH]; intros base prev; cbn [app series length]; [by rewrite Z.add_0_r|].
  rewrite IH, last_cons. replace (base + 1 + Z.of_nat (length ts)) with (base + Z.of_nat (S (length ts))) by lia.
  destruct (last ts); repeat case_decide; done.
Qed.

Lemma at_heights_snoc_get {A} base (l : list A) x :
  bt_get (base + Z.of_nat (length l)) (at_heights base (l ++ [x])) = Some x /\
  bt_remove (base + Z.of_nat (length l)) (at_heights base (l ++ [x])) = at_heights base l.
Proof.
  split.
  - apply bt_get_Some; [apply at_heights_wf|]. rewrite at_heights_app. cbn [at_heights]. set_solver.
  - unfold bt_remove. rewrite at_heights_app. cbn [at_heights]. rewrite filter_app, filter_keep; [rewrite filter_cons_False by (cbn; tauto); by rewrite app_nil_r|].
    intros [k y] Hin%at_heights_keys. cbn. lia.
Qed.

Lemma remove_tip_Ok {E} self base ts t tip :
  index_of root self base (ts ++ [t]) -> anchored self (ts ++ [t]) ->
  (forall k, tip = Some k -> k < base + Z.of_nat (length ts)) ->
  exists self', remove_tree_and_anchor (E := E) self Tip (base + Z.of_nat (length ts)) tip = Ok self' /\
    index_of root self' base ts /\ (is_Some (trees_by_anchor self') <-> is_Some (trees_by_anchor self)).
Proof.
  intros Hi Hinj Htip. set (h := base + Z.of_nat (length ts)) in *.
  destruct (at_heights_snoc_get base (root <$> ts) (root t)) as [Hg Hr]. rewrite length_fmap in Hg, Hr. fold h in Hg, Hr.
  change [root t] with (root <$> [t]) in Hg, Hr. rewrite <- fmap_app in Hg, Hr.
  destruct (remove_height_Ok (E := E) self (series base None (ts ++ [t])) base (ts ++ [t]) h t ts base)
    as (self' & Hself & Hp & Hsome); [by apply index_partial|done|by rewrite Permutation_app_comm|done|done|].
  unfold remove_tree_and_anchor. cbn [foldl res_bind]. rewrite Hself. cbn [res_bind].
  exists self'. split_and!; [|apply index_partial|done].
  - destruct tip as [k|]; [|done]. specialize (Htip k eq_refl). by rewrite (proj2 (Z.ltb_ge h k)) by lia.
  - replace (series base None ts) with (bt_remove h (series base None (ts ++ [t]))); [done|].
    unfold bt_remove. rewrite series_app, filter_app, filter_keep.
    + case_decide; [by rewrite filter_nil, app_nil_r|]. rewrite filter_cons_False by (fold h; cbn; tauto). by rewrite app_nil_r.
    + intros [k u] Hin%series_keys. cbn. lia.
Qed.

Lemma remove_all_filter {V} ks (m : list (Z * V)) :
  foldl (fun m k => bt_remove k m) m ks = filter (fun kv => kv.1 ∉ ks) m.
Proof.
  revert m. induction ks as [|k ks IH]; intros m; cbn [foldl].
  - symmetry. apply filter_keep. set_solver.
  - rewrite IH. unfold bt_remove. rewrite list_filter_filter. apply list_filter_iff. set_solver.
Qed.

Lemma remove_front_Ok {E} self trees base old rest :
  partial_of self trees base (old ++ rest) -> anchored self (old ++ rest) ->
  exists self', foldl (fun acc height => let? self := acc in remove_height self height) (Ok self)
                  (at_heights base old).*1 = Ok (E := E) self' /\
    partial_of self' (foldl (fun m k => bt_remove k m) trees (at_heights base old).*1)
      (base + Z.of_nat (length old)) rest /\
    (is_Some (trees_by_anchor self') <-> is_Some (trees_by_anchor self)).
Proof.
  revert self trees base. induction old as [|t old IH]; intros self trees base Hp Hinj;
    cbn [app at_heights length foldl fmap list_fmap]; [exists self; by rewrite Z.add_0_r|].
  destruct (remove_height_Ok (E := E) self trees base (t :: old ++ rest) base t (old ++ rest) (base + 1))
    as (self1 & Hself1 & Hp1 & Hsome1); [done|done|done|by cbn; rewrite Z.eqb_refl| |].
  { unfold bt_remove. rewrite fmap_cons. cbn [at_heights]. rewrite filter_cons_False by (cbn; tauto).
    apply filter_keep. intros [k r] Hin%at_heights_keys. cbn. lia. }
  cbn [fst res_bind]. rewrite Hself1.
  destruct (IH self1 _ _ Hp1) as (self' & Hself' & Hp' & Hsome').
  { intros Hs t1 t2 H1 H2. apply Hinj; [by apply Hsome1|set_solver|set_solver]. }
  exists self'. split; [exact Hself'|]. split; [|by rewrite Hsome', Hsome1].
  by replace (base + Z.of_nat (S (length old))) with (base + 1 + Z.of_nat (length old)) by lia.
Qed.

Lemma at_heights_keys_fmap {A B} (f : A -> B) base (l : list A) : (at_heights base (f <$> l)).*1 = (at_heights base l).*1.
Proof.
  revert base. induction l as [|x l IH]; intros base; [done|]. rewrite fmap_cons. cbn [at_heights].
  rewrite !fmap_cons. cbn [fst]. by rewrite IH.
Qed.

Lemma at_heights_elem_key {A} base (l : list A) k :
  k ∈ (at_heights base l).*1 <-> base <= k < base + Z.of_nat (length l).
Proof.
  revert base. induction l as [|x l IH]; intros base; cbn [at_heights length]; [set_solver by lia|].
  rewrite fmap_cons, elem_of_cons, IH. cbn [fst]. lia.
Qed.

Lemma bt_get_none {V} k (m : list (Z * V)) : bt_get k m = None <-> forall e, e ∈ m -> e.1 <> k.
Proof.
  induction m as [|[j v] m IH]; cbn [bt_get]; [split; [set_solver|done]|].
  destruct (Z.eqb_spec k j) as [->|Hne].
  - split; [done|]. intros Hm. by destruct (Hm (j, v) ltac:(set_solver)).
  - rewrite IH. split; [intros Hm e [->|He]%elem_of_cons; [done|by apply Hm]|set_solver].
Qed.

Lemma bt_insert_first {V} k (v : V) m : (forall e, e ∈ m -> k < e.1) -> bt_insert k v m = (k, v) :: m.
Proof.
  destruct m as [|[j w] m]; [done|]. intros Hm. cbn. specialize (Hm (j, w) ltac:(set_solver)). cbn in Hm.
  by rewrite (proj2 (Z.ltb_lt k j)) by lia.
Qed.

(** The first removed heights, and the tree that takes the place of the next *)
Lemma remove_root_Ok {E} self base old t rest tip :
  let h := base + Z.of_nat (length old) in
  index_of root self base (old ++ t :: rest) -> anchored self (old ++ t :: rest) ->
  0 <= base -> h + Z.of_nat (length rest) <= Height.MAX ->
  tip = match rest with [] => None | _ => Some (h + Z.of_nat (length rest)) end ->
  exists self', remove_tree_and_anchor (E := E) self Root h tip = Ok self' /\
    index_of root self' (h + 1) rest /\ (is_Some (trees_by_anchor self') <-> is_Some (trees_by_anchor self)).
Proof.
  intros h Hi Hinj Hbase Hmax ->. set (front := old ++ [t]).
  assert (Hfront : old ++ t :: rest = front ++ rest) by (unfold front; by rewrite <- app_assoc).
  assert (Hlen : Z.of_nat (length front) = h + 1 - base) by (unfold front; rewrite length_app; cbn [length]; lia).
  rewrite Hfront in *. unfold remove_tree_and_anchor.
  assert (Hremoved : (filter (fun kv => kv.1 <= h) (anchors_by_height self)).*1 = (at_heights base front).*1).
  { rewrite (i_by_height _ _ _ _ Hi), fmap_app, at_heights_app, filter_app, filter_keep, filter_none, app_nil_r.
    - apply at_heights_keys_fmap.
    - intros [k r] Hin%at_heights_keys. rewrite length_fmap in Hin. cbn. lia.
    - intros [k r] Hin%at_heights_keys. rewrite length_fmap in Hin. cbn. lia. }
  rewrite Hremoved. clear Hremoved.
  assert (Htree : tree_at self h = Some t).
  { rewrite (tree_at_index self base (front ++ rest)) by (done || (rewrite length_app; lia)).
    unfold front. replace (Z.to_nat (h - base)) with (length old) by lia.
    rewrite lookup_app_l by (rewrite length_app; cbn; lia). by rewrite lookup_app_r, Nat.sub_diag by lia. }
  destruct (remove_front_Ok (E := E) self _ base front rest (proj1 (index_partial _ _ _) Hi) Hinj)
    as (self1 & Hself1 & [Ht Ha Hh Hm] & Hsome). rewrite Hself1. cbn [res_bind].
  replace (base + Z.of_nat (length front)) with (h + 1) in * by lia.
  assert (Hser : trees_by_height self1 = series (h + 1) (Some t) rest).
  { rewrite Ht, remove_all_filter, series_app_list, filter_app, filter_none, filter_keep.
    - unfold front. rewrite last_snoc. fold front. cbn. f_equal. lia.
    - intros [k u] Hin%series_keys. rewrite at_heights_elem_key. cbn. lia.
    - intros [k u] Hin%series_keys. rewrite at_heights_elem_key. cbn. lia. }
  rewrite Htree, Hser. destruct rest as [|r rest].
  { exists self1. split; [done|]. split; [by split|done]. }
  cbn [length] in Hmax. rewrite (proj2 (Z.ltb_lt h _)) by (cbn [length]; lia).
  rewrite Height.next_valid by (unfold Height.valid, Height.MIN; lia). cbn [expect_ok res_bind series].
  destruct (decide (Some t = Some r)) as [[= <-]|Hne].
  - rewrite (proj2 (bt_get_none _ _)). 2: { intros [k u] Hin%series_keys. cbn. lia. }
    cbn [expect res_bind]. eexists. split; [done|]. split; [|done]. split; cbn [trees_by_height anchors anchors_by_height trees_by_anchor]; try done.
    cbn [series]. rewrite decide_False by done. apply bt_insert_first. intros [k u] Hin%series_keys. cbn. lia.
  - cbn [bt_get]. rewrite Z.eqb_refl. exists self1. split; [done|]. split; [|done]. split; try done.
    rewrite Hser. cbn [series]. by rewrite !decide_False.
Qed.
End Facts.
End TreeIndex.
