(* ===== verification/Chain.v ===== *)
(** * Non-finalized chains

    [Chain] of [zakura-state/src/service/non_finalized_state/chain.rs]: the blocks
    above the finalized tip on one fork, with the indexes over them.  Adding a
    block at the tip, removing the tip when a chain is forked, and removing the
    root when a block is finalized; the order in which chains are preferred.

    The hash indexes are maps ([SharedMap] shows that the partitioned maps of the
    code are maps), the height indexes ordered maps ([HeightMap]), the pools those
    of [ValueBalance], the address index that of [AddressIndex], the trees of each
    pool those of [TreeIndex].  Note commitment trees, the notes of a transaction,
    and the history tree are the parameter [NoteTrees]. *)

From stdpp Require Import base numbers strings list option gmap.
From Stdlib Require Import ZArith Lia.
From S2P Require Import Prelude Height Amount BTree Network ValueBalance Difficulty Dependencies Transparent MempoolTx Merkle BlockHeader Block Checkpoint BlockCheck SharedMap AddressIndex TreeIndex SpendCheck.
Local Open Scope Z_scope.
Local Notation length := List.length.

Module Chain.
Import Amount Network Block BlockCheck AddressIndex SharedMap TreeIndex SpendCheck.

(** ** Blocks *)

Record ContextuallyVerifiedBlock := mkContextual {
  block : Block;
  hash : Hash;
  height : Z;
  new_outputs : gmap OutPoint OrderedUtxo;
  spent_outputs : gmap OutPoint OrderedUtxo;
  transaction_hashes : list Hash;
  chain_value_pool_change : ValueBalance.ValueBalance NegativeAllowed;
  receipt_order : option Z;
}.

Definition with_block_and_spent_utxos (net : Network) (verified : Checkpoint.CheckpointVerifiedBlock)
  (spent_outputs : gmap OutPoint OrderedUtxo)
  : res ValueBalance.ValueBalanceError ContextuallyVerifiedBlock :=
  let block := Checkpoint.block verified in
  let? change :=
    ValueBalance.chain_value_pool_change_from_utxos (coinbase_height block) (transactions block) net
      (Checkpoint.deferred_pool_balance_change verified)
      (fun transaction => value_balance_from_utxos transaction spent_outputs) in
  Ok (mkContextual block (Checkpoint.block_hash verified) (Checkpoint.height verified)
        (Checkpoint.new_outputs verified) spent_outputs (Checkpoint.transaction_hashes verified) change
        (Checkpoint.receipt_order verified)).

(** ** Trees *)

Inductive Pool := Sprout | Sapling | Orchard | Ironwood.

(** The note commitment trees of the pools, with their roots and the batch append,
    which returns the index and the root of the subtree it completes; the notes a
    transaction creates; the history tree, to which a block is pushed with the
    roots of the Sapling, Orchard and Ironwood trees; and the size of a block. *)
Class NoteTrees := {
  Tree : Type;
  Root : Type;
  Node : Type;
  Commitment : Type;
  HistoryTree : Type;
  tree_eq_dec : EqDecision Tree;
  root_eq_dec : EqDecision Root;
  root_countable : Countable Root;
  tree_root : Tree -> Root;
  note_commitments : Pool -> BlockTx -> list Commitment;
  append_batch : Pool -> Tree -> list Commitment -> res unit (Tree * option (Z * Node));
  history_push : Network -> HistoryTree -> Block -> Root -> Root -> Root -> res unit HistoryTree;
  serialized_size : Block -> Z;
}.
#[export] Existing Instance tree_eq_dec.
#[export] Existing Instance root_eq_dec.
#[export] Existing Instance root_countable.

(** A completed subtree: its index, the height of the block that completed it,
    and its root *)
Abbreviation Subtree := (Z * (Z * Node))%type.

(** [NoteCommitmentTrees] of [zakura-chain/src/parallel/tree.rs] *)
Record NoteCommitmentTrees {NT : NoteTrees} := mkNct {
  sprout : Tree;
  sapling : Tree;
  sapling_subtree : option Subtree;
  orchard : Tree;
  orchard_subtree : option Subtree;
  ironwood : Tree;
  ironwood_subtree : option Subtree;
}.

(** ** The state of a chain *)

Record Nullifiers := mkNullifiers {
  sprout_nullifiers : gmap Z SpendingTransactionId;
  sapling_nullifiers : gmap Z SpendingTransactionId;
  orchard_nullifiers : gmap Z SpendingTransactionId;
  ironwood_nullifiers : gmap Z SpendingTransactionId;
}.

(** The transparent outputs: created, spent, and by address *)
Record Outputs := mkOutputs {
  created_utxos : gmap OutPoint OrderedUtxo;
  spent_utxos : gmap OutPoint SpendingTransactionId;
  partial_transparent_transfers : gmap Address TransparentTransfers;
}.

Record Trees {NT : NoteTrees} := mkChainTrees {
  sprout_trees : TreeIndex Tree Root;
  sapling_trees : TreeIndex Tree Root;
  orchard_trees : TreeIndex Tree Root;
  ironwood_trees : TreeIndex Tree Root;
  sapling_subtrees : list Subtree;
  orchard_subtrees : list Subtree;
  ironwood_subtrees : list Subtree;
  history_trees_by_height : list (Z * HistoryTree);
}.

(** The parts of [ChainInner] that the update without trees changes *)
Record Indexes := mkIndexes {
  height_by_hash : gmap Hash Z;
  tx_loc_by_hash : gmap Hash (Z * Z);
  outputs_index : Outputs;
  nullifiers : Nullifiers;
  partial_cumulative_work : Z;
  value_pools : ValueBalance.Chain;
}.

Record Chain {NT : NoteTrees} := mkChain {
  network : Network;
  skips_transparent_address_index : bool;
  precious : option (Hash * Z);
  blocks : list (Z * ContextuallyVerifiedBlock);
  indexes : Indexes;
  trees : Trees;
}.

Arguments mkNct {NT}.
Arguments mkChainTrees {NT}.
Arguments mkChain {NT}.

(** ** Transparent outputs *)

Section Outputs.
Context (net : Network) (skips : bool).

(** [indexed_address] *)
Definition indexed_address (output : Output) : option Address :=
  if skips then None else address output net.

(** One created output *)
Definition create_output (block_created_outputs : gmap OutPoint OrderedUtxo) (creating_tx_hash : Hash)
  (self : Outputs) (output_index : nat) : res ValidateContextError Outputs :=
  let? outpoint := Transparent.from_usize creating_tx_hash (Z.of_nat output_index) in
  let? created_utxo := expect (block_created_outputs !! outpoint) in
  let? _ := rust_assert (bool_decide (created_utxos self !! outpoint = None)) in
  let created := <[outpoint := created_utxo]> (created_utxos self) in
  match indexed_address (output (utxo created_utxo)) with
  | None => Ok (mkOutputs created (spent_utxos self) (partial_transparent_transfers self))
  | Some address =>
      let transfers := partial_transparent_transfers self in
      let? history := create_transfer (default no_transfers (transfers !! address)) outpoint created_utxo in
      Ok (mkOutputs created (spent_utxos self) (<[address := history]> transfers))
  end.

Definition revert_output {E} (block_created_outputs : gmap OutPoint OrderedUtxo) (creating_tx_hash : Hash)
  (self : Outputs) (output_index : nat) : res E Outputs :=
  let? outpoint := Transparent.from_usize creating_tx_hash (Z.of_nat output_index) in
  let? created_utxo := expect (block_created_outputs !! outpoint) in
  let? _ := rust_assert (bool_decide (is_Some (created_utxos self !! outpoint))) in
  let created := delete outpoint (created_utxos self) in
  match indexed_address (output (utxo created_utxo)) with
  | None => Ok (mkOutputs created (spent_utxos self) (partial_transparent_transfers self))
  | Some address =>
      let transfers := partial_transparent_transfers self in
      let? history := expect (transfers !! address) in
      let? history := revert_create history outpoint created_utxo in
      Ok (mkOutputs created (spent_utxos self)
            (if transfers_is_empty history then delete address transfers
             else <[address := history]> transfers))
  end.

Definition update_outputs (self : Outputs) (outputs : list Output) (hash : Hash)
  (block_created_outputs : gmap OutPoint OrderedUtxo) : res ValidateContextError Outputs :=
  foldl (fun acc i => let? self := acc in create_output block_created_outputs hash self i)
    (Ok self) (seq 0 (length outputs)).

Definition revert_outputs {E} (self : Outputs) (outputs : list Output) (hash : Hash)
  (block_created_outputs : gmap OutPoint OrderedUtxo) : res E Outputs :=
  foldl (fun acc i => let? self := acc in revert_output block_created_outputs hash self i)
    (Ok self) (seq 0 (length outputs)).

(** One input; coinbase inputs are skipped. *)
Definition spend_input (spent_outputs : gmap OutPoint OrderedUtxo) (spending_tx_hash : Hash)
  (self : Outputs) (spending_input : Input) : res ValidateContextError Outputs :=
  match outpoint spending_input with
  | None => Ok self
  | Some spent_outpoint =>
      let? _ := rust_assert (bool_decide (spent_utxos self !! spent_outpoint = None)) in
      let spent := <[spent_outpoint := tt]> (spent_utxos self) in
      let? spent_output := expect (spent_outputs !! spent_outpoint) in
      match indexed_address (output (utxo spent_output)) with
      | None => Ok (mkOutputs (created_utxos self) spent (partial_transparent_transfers self))
      | Some address =>
          let transfers := partial_transparent_transfers self in
          let? history :=
            spend_transfer (default no_transfers (transfers !! address)) spent_outpoint spending_tx_hash
              spent_output in
          Ok (mkOutputs (created_utxos self) spent (<[address := history]> transfers))
      end
  end.

Definition revert_input {E} (spent_outputs : gmap OutPoint OrderedUtxo) (spending_tx_hash : Hash)
  (self : Outputs) (spending_input : Input) : res E Outputs :=
  match outpoint spending_input with
  | None => Ok self
  | Some spent_outpoint =>
      let? _ := rust_assert (bool_decide (is_Some (spent_utxos self !! spent_outpoint))) in
      let spent := delete spent_outpoint (spent_utxos self) in
      let? spent_output := expect (spent_outputs !! spent_outpoint) in
      match indexed_address (output (utxo spent_output)) with
      | None => Ok (mkOutputs (created_utxos self) spent (partial_transparent_transfers self))
      | Some address =>
          let transfers := partial_transparent_transfers self in
          let? history := expect (transfers !! address) in
          let? history := revert_spend history spent_outpoint spending_tx_hash spent_output in
          Ok (mkOutputs (created_utxos self) spent
                (if transfers_is_empty history then delete address transfers
                 else <[address := history]> transfers))
      end
  end.

Definition update_inputs (self : Outputs) (inputs : list Input) (hash : Hash)
  (spent_outputs : gmap OutPoint OrderedUtxo) : res ValidateContextError Outputs :=
  foldl (fun acc input => let? self := acc in spend_input spent_outputs hash self input) (Ok self) inputs.

Definition revert_inputs {E} (self : Outputs) (inputs : list Input) (hash : Hash)
  (spent_outputs : gmap OutPoint OrderedUtxo) : res E Outputs :=
  foldl (fun acc input => let? self := acc in revert_input spent_outputs hash self input) (Ok self) inputs.
End Outputs.

(** ** Nullifiers *)

(** The nullifiers of each pool a transaction reveals, by its version; versions 1
    to 3 are unreachable. *)
Definition revealed {E} (transaction : Transaction) : res E (list Z * list Z * list Z * list Z) :=
  let sprout := MempoolTx.sprout_nullifiers transaction in
  let sapling := MempoolTx.sapling_nullifiers transaction in
  let orchard := MempoolTx.orchard_nullifiers transaction in
  let ironwood := MempoolTx.ironwood_nullifiers transaction in
  if version transaction =? 4 then Ok (sprout, sapling, [], [])
  else if version transaction =? 5 then Ok ([], sapling, orchard, [])
  else if version transaction =? 6 then Ok ([], sapling, orchard, ironwood)
  else Panic.

Definition update_nullifiers (self : Nullifiers) (transaction : Transaction)
  : res ValidateContextError Nullifiers :=
  let? parts := revealed transaction in
  let '(sprout, sapling, orchard, ironwood) := parts in
  let? sprout := add_to_non_finalized_chain_unique_with (sprout_nullifiers self) sprout tt DuplicateSproutNullifier in
  let? sapling := add_to_non_finalized_chain_unique_with (sapling_nullifiers self) sapling tt DuplicateSaplingNullifier in
  let? orchard := add_to_non_finalized_chain_unique_with (orchard_nullifiers self) orchard tt DuplicateOrchardNullifier in
  let? ironwood :=
    add_to_non_finalized_chain_unique_with (ironwood_nullifiers self) ironwood tt DuplicateIronwoodNullifier in
  Ok (mkNullifiers sprout sapling orchard ironwood).

Definition revert_nullifiers {E} (self : Nullifiers) (transaction : Transaction) : res E Nullifiers :=
  let? parts := revealed transaction in
  let '(sprout, sapling, orchard, ironwood) := parts in
  let? sprout := remove_from_non_finalized_chain (sprout_nullifiers self) sprout in
  let? sapling := remove_from_non_finalized_chain (sapling_nullifiers self) sapling in
  let? orchard := remove_from_non_finalized_chain (orchard_nullifiers self) orchard in
  let? ironwood := remove_from_non_finalized_chain (ironwood_nullifiers self) ironwood in
  Ok (mkNullifiers sprout sapling orchard ironwood).

(** ** Updates without the trees *)

Section Indexes.
Context {U : Difficulty.U256} {NT : NoteTrees} (net : Network) (skips : bool).

Definition update_transaction (b : ContextuallyVerifiedBlock) (self : Indexes) (transaction_index : nat)
  (transaction : BlockTx) (transaction_hash : Hash) : res ValidateContextError Indexes :=
  let? nullifiers := update_nullifiers (nullifiers self) (body transaction) in
  let? location := transaction_location_from (height b) (Z.of_nat transaction_index) in
  let? _ := rust_assert (bool_decide (tx_loc_by_hash self !! transaction_hash = None)) in
  let? outputs :=
    update_outputs net skips (outputs_index self) (outputs (body transaction)) transaction_hash (new_outputs b) in
  let? outputs :=
    update_inputs net skips outputs (inputs (body transaction)) transaction_hash (spent_outputs b) in
  Ok (mkIndexes (height_by_hash self) (<[transaction_hash := location]> (tx_loc_by_hash self)) outputs
        nullifiers (partial_cumulative_work self) (value_pools self)).

(** The transactions of the block with their hashes *)
Definition hashed_transactions (b : ContextuallyVerifiedBlock) : list (BlockTx * Hash) :=
  zip (transactions (block b)) (transaction_hashes b).

Definition block_work {E} (b : ContextuallyVerifiedBlock) : res E Z :=
  let? work := Difficulty.to_work (BlockHeader.difficulty_threshold (header (block b))) in expect work.

Definition update_chain_tip_with_block_except_trees (self : Indexes) (b : ContextuallyVerifiedBlock)
  : res ValidateContextError Indexes :=
  let? work := block_work b in
  let? work :=
    ok_or (CumulativeWorkOverflow (height b) (hash b))
      (Difficulty.cumulative_checked_add (partial_cumulative_work self) work) in
  let? _ := rust_assert (bool_decide (height_by_hash self !! hash b = None)) in
  let self :=
    mkIndexes (<[hash b := height b]> (height_by_hash self)) (tx_loc_by_hash self) (outputs_index self)
      (nullifiers self) work (value_pools self) in
  let? self :=
    foldl (fun acc '(i, (transaction, transaction_hash)) =>
             let? self := acc in update_transaction b self i transaction transaction_hash)
      (Ok self) (imap pair (hashed_transactions b)) in
  let? pools :=
    map_err ValuePoolErr
      (ValueBalance.update_chain_tip_with net (value_pools self) (chain_value_pool_change b) (height b)
         (serialized_size (block b))) in
  Ok (mkIndexes (height_by_hash self) (tx_loc_by_hash self) (outputs_index self) (nullifiers self)
        (partial_cumulative_work self) pools).

Definition revert_transaction {E} (b : ContextuallyVerifiedBlock) (self : Indexes)
  (transaction : BlockTx) (transaction_hash : Hash) : res E Indexes :=
  let? outputs :=
    revert_outputs net skips (outputs_index self) (outputs (body transaction)) transaction_hash (new_outputs b) in
  let? outputs :=
    revert_inputs net skips outputs (inputs (body transaction)) transaction_hash (spent_outputs b) in
  let? _ := rust_assert (bool_decide (is_Some (tx_loc_by_hash self !! transaction_hash))) in
  let? nullifiers := revert_nullifiers (nullifiers self) (body transaction) in
  Ok (mkIndexes (height_by_hash self) (delete transaction_hash (tx_loc_by_hash self)) outputs nullifiers
        (partial_cumulative_work self) (value_pools self)).

(** The part of [revert_chain_with] before the trees *)
Definition revert_transactions {E} (self : Indexes) (b : ContextuallyVerifiedBlock) : res E Indexes :=
  let? _ := rust_assert (bool_decide (is_Some (height_by_hash self !! hash b))) in
  let? work := block_work b in
  let? work := Difficulty.cumulative_sub (partial_cumulative_work self) work in
  let self :=
    mkIndexes (delete (hash b) (height_by_hash self)) (tx_loc_by_hash self) (outputs_index self)
      (nullifiers self) work (value_pools self) in
  foldl (fun acc '(transaction, transaction_hash) =>
           let? self := acc in revert_transaction b self transaction transaction_hash)
    (Ok self) (hashed_transactions b).

(** and the part after them *)
Definition revert_value_pools {E} (self : Indexes) (b : ContextuallyVerifiedBlock)
  (position : ValueBalance.RevertPosition) : res E Indexes :=
  let? pools :=
    ValueBalance.revert_chain_with net (value_pools self) (chain_value_pool_change b) (height b) position in
  Ok (mkIndexes (height_by_hash self) (tx_loc_by_hash self) (outputs_index self) (nullifiers self)
        (partial_cumulative_work self) pools).
End Indexes.

(** ** Trees of the chain *)

Section Trees.
Context {NT : NoteTrees}.

(** The trees of one pool with the notes of a block; unchanged if it has none *)
Definition update_pool (pool : Pool) (block : Block) (height : Z) (tree : Tree) (subtree : option Subtree)
  : res unit (Tree * option Subtree) :=
  match transactions block ≫= note_commitments pool with
  | [] => Ok (tree, subtree)
  | commitments =>
      let? appended := append_batch pool tree commitments in
      Ok (appended.1, (fun s => (s.1, (height, s.2))) <$> appended.2)
  end.

(** [update_trees_parallel]: the error of the first pool is returned. *)
Definition update_trees_parallel (self : NoteCommitmentTrees) (block : Block) : res unit NoteCommitmentTrees :=
  let? height := expect (coinbase_height block) in
  let? sprout := update_pool Sprout block height (sprout self) None in
  let? sapling := update_pool Sapling block height (sapling self) (sapling_subtree self) in
  let? orchard := update_pool Orchard block height (orchard self) (orchard_subtree self) in
  let? ironwood := update_pool Ironwood block height (ironwood self) (ironwood_subtree self) in
  Ok (mkNct sprout.1 sapling.1 sapling.2 orchard.1 orchard.2 ironwood.1 ironwood.2).

(** [sapling_subtree] at a height, and [sapling_subtree_for_tip] *)
Definition subtree_at (subtrees : list Subtree) (height : Z) : option Subtree :=
  snd <$> list_find (fun subtree => subtree.2.1 = height) subtrees.

Definition subtree_for_tip (subtrees : list Subtree) (tip : option Z) : option Subtree :=
  tip ← tip; subtree_at subtrees tip.

Definition insert_subtree (subtrees : list Subtree) (subtree : option Subtree) : list Subtree :=
  match subtree with Some (index, data) => bt_insert index data subtrees | None => subtrees end.

(** The last subtree, if the block at [height] completed it, is removed. *)
Definition pop_last_subtree (subtrees : list Subtree) (height : Z) : list Subtree :=
  match last subtrees with
  | Some (index, (end_height, _)) => if end_height =? height then bt_remove index subtrees else subtrees
  | None => subtrees
  end.

(** The first one is removed with the root block that completed it. *)
Definition pop_first_subtree (subtrees : list Subtree) (completed : option Subtree) : list Subtree :=
  match completed with Some _ => tail subtrees | None => subtrees end.

(** [history_block_commitment_tree], [add_history_tree] and [remove_history_tree] *)
Definition history_tree_for_tip {E} (self : Trees) : res E HistoryTree :=
  let? entry := expect (last (history_trees_by_height self)) in Ok entry.2.

Definition remove_history_tree {E} (trees : list (Z * HistoryTree)) (position : ValueBalance.RevertPosition)
  (height : Z) : res E (list (Z * HistoryTree)) :=
  match position with
  | ValueBalance.Root => Ok (filter (fun kv => height < kv.1) trees)
  | ValueBalance.Tip =>
      let? _ := rust_assert (bt_contains_key height trees) in Ok (bt_remove height trees)
  end.

(** The trees of the tip, to be extended *)
Definition trees_for_tip {E} (self : Trees) (tip : option Z) : res E NoteCommitmentTrees :=
  let? sprout := tree_for_tip (sprout_trees self) in
  let? sapling := tree_for_tip (sapling_trees self) in
  let? orchard := tree_for_tip (orchard_trees self) in
  let? ironwood := tree_for_tip (ironwood_trees self) in
  Ok (mkNct sprout sapling (subtree_for_tip (sapling_subtrees self) tip) orchard
        (subtree_for_tip (orchard_subtrees self) tip) ironwood (subtree_for_tip (ironwood_subtrees self) tip)).

(** The trees of a new block, in their indexes *)
Definition add_trees (net : Network) (self : Trees) (nct : NoteCommitmentTrees) (block : Block) (height : Z)
  : res ValidateContextError Trees :=
  let? sprout_index := add_tree_and_anchor tree_root (sprout_trees self) height (sprout nct) in
  let? sapling_index := add_tree_and_anchor tree_root (sapling_trees self) height (sapling nct) in
  let? orchard_index := add_tree_and_anchor tree_root (orchard_trees self) height (orchard nct) in
  let? ironwood_index := add_tree_and_anchor tree_root (ironwood_trees self) height (ironwood nct) in
  let? sapling_tip := tree_for_tip sapling_index in
  let? orchard_tip := tree_for_tip orchard_index in
  let? ironwood_tip := tree_for_tip ironwood_index in
  let? history := history_tree_for_tip self in
  let? history :=
    map_err (fun _ => HistoryErr)
      (history_push net history block (tree_root sapling_tip) (tree_root orchard_tip) (tree_root ironwood_tip)) in
  let? history := insert_new height history (history_trees_by_height self) in
  Ok (mkChainTrees sprout_index sapling_index orchard_index ironwood_index
        (insert_subtree (sapling_subtrees self) (sapling_subtree nct))
        (insert_subtree (orchard_subtrees self) (orchard_subtree nct))
        (insert_subtree (ironwood_subtrees self) (ironwood_subtree nct)) history).

(** The tree part of [revert_chain_with]; [tip] is the tip that remains. *)
Definition remove_trees {E} (self : Trees) (position : ValueBalance.RevertPosition) (height : Z)
  (tip : option Z) : res E Trees :=
  let? sprout_index := remove_tree_and_anchor (sprout_trees self) position height tip in
  let? sapling_index := remove_tree_and_anchor (sapling_trees self) position height tip in
  let? orchard_index := remove_tree_and_anchor (orchard_trees self) position height tip in
  let? ironwood_index := remove_tree_and_anchor (ironwood_trees self) position height tip in
  let? history := remove_history_tree (history_trees_by_height self) position height in
  Ok (mkChainTrees sprout_index sapling_index orchard_index ironwood_index (sapling_subtrees self)
        (orchard_subtrees self) (ironwood_subtrees self) history).

(** [Treestate] at a height *)
Record Treestate := mkTreestate {
  ts_sprout : Tree;
  ts_sapling : Tree;
  ts_orchard : Tree;
  ts_ironwood : Tree;
  ts_sapling_subtree : option Subtree;
  ts_orchard_subtree : option Subtree;
  ts_ironwood_subtree : option Subtree;
  ts_history : HistoryTree;
}.

Definition treestate (self : Trees) (height : Z) : option Treestate :=
  sprout ← tree_at (sprout_trees self) height;
  sapling ← tree_at (sapling_trees self) height;
  orchard ← tree_at (orchard_trees self) height;
  ironwood ← tree_at (ironwood_trees self) height;
  history ← bt_get height (history_trees_by_height self);
  Some (mkTreestate sprout sapling orchard ironwood (subtree_at (sapling_subtrees self) height)
          (subtree_at (orchard_subtrees self) height) (subtree_at (ironwood_subtrees self) height) history).
End Trees.

(** ** Chains *)

Section Chain.
Context {U : Difficulty.U256} {NT : NoteTrees}.

(** [Chain::new], with the trees and pools of the finalized tip *)
Definition new {E} (net : Network) (finalized_tip_height : Z) (sprout sapling orchard ironwood : Tree)
  (history : HistoryTree) (pools : ValueBalance.ValueBalance NonNegative) : res E Chain :=
  let? sprout_index := add_tree_and_anchor tree_root no_sprout_trees finalized_tip_height sprout in
  let? sapling_index := add_tree_and_anchor tree_root no_trees finalized_tip_height sapling in
  let? orchard_index := add_tree_and_anchor tree_root no_trees finalized_tip_height orchard in
  let? ironwood_index := add_tree_and_anchor tree_root no_trees finalized_tip_height ironwood in
  let? history := insert_new finalized_tip_height history [] in
  Ok (mkChain net false None []
        (mkIndexes ∅ ∅ (mkOutputs ∅ ∅ ∅) (mkNullifiers ∅ ∅ ∅ ∅) 0 (ValueBalance.mkChain pools []))
        (mkChainTrees sprout_index sapling_index orchard_index ironwood_index [] [] [] history)).

Definition is_empty (self : Chain) : bool := bool_decide (blocks self = []).

Definition skipping_transparent_address_index {E} (self : Chain) (skip : bool) : res E Chain :=
  let? _ := rust_assert (is_empty self) in
  Ok (mkChain (network self) skip (precious self) (blocks self) (indexes self) (trees self)).

(** [max_block_height], [non_finalized_tip_height], [tip_block] and
    [non_finalized_tip_hash] *)
Definition max_block_height (self : Chain) : option Z := last (blocks self).*1.

Definition non_finalized_tip_height {E} (self : Chain) : res E Z := expect (max_block_height self).

Definition tip_block (self : Chain) : option ContextuallyVerifiedBlock := last (blocks self).*2.

Definition non_finalized_tip_hash {E} (self : Chain) : res E Hash :=
  let? b := expect (tip_block self) in Ok (hash b).

Definition non_finalized_root_height {E} (self : Chain) : res E Z := expect (head (blocks self).*1).

Definition non_finalized_root_hash {E} (self : Chain) : res E Hash :=
  let? b := expect (head (blocks self).*2) in Ok (hash b).

(** [update_chain_tip_with_block_parallel]: the trees and the other indexes are
    updated in parallel, and a panic of either ends both. *)
Definition update_chain_tip_with (self : Chain) (b : ContextuallyVerifiedBlock)
  : res ValidateContextError Chain :=
  let net := network self in
  let? nct := trees_for_tip (trees self) (max_block_height self) in
  let partial_result :=
    update_chain_tip_with_block_except_trees net (skips_transparent_address_index self) (indexes self) b in
  match partial_result with
  | Panic => Panic
  | _ =>
      let? nct := map_err (fun _ => TreeErr) (update_trees_parallel nct (block b)) in
      let? indexes := partial_result in
      let? trees := add_trees net (trees self) nct (block b) (height b) in
      Ok (mkChain net (skips_transparent_address_index self) (precious self) (blocks self) indexes trees)
  end.

Definition push (self : Chain) (b : ContextuallyVerifiedBlock) : res ValidateContextError Chain :=
  let? self := update_chain_tip_with self b in
  Ok (mkChain (network self) (skips_transparent_address_index self) (precious self)
        (bt_insert (height b) b (blocks self)) (indexes self) (trees self)).

(** [revert_chain_with] for a block that is no longer in [blocks] *)
Definition revert_chain_with {E} (self : Chain) (b : ContextuallyVerifiedBlock)
  (position : ValueBalance.RevertPosition) : res E Chain :=
  let net := network self in
  let? indexes := revert_transactions net (skips_transparent_address_index self) (indexes self) b in
  let? trees := remove_trees (trees self) position (height b) (max_block_height self) in
  let? indexes := revert_value_pools net indexes b position in
  Ok (mkChain net (skips_transparent_address_index self) (precious self) (blocks self) indexes trees).

Definition set_blocks (self : Chain) (blocks : list (Z * ContextuallyVerifiedBlock)) : Chain :=
  mkChain (network self) (skips_transparent_address_index self) (precious self) blocks (indexes self)
    (trees self).

(** The subtrees of the chain, each changed by the same function *)
Definition set_subtrees (self : Chain) (sapling orchard ironwood : list Subtree) : Chain :=
  let t := trees self in
  mkChain (network self) (skips_transparent_address_index self) (precious self) (blocks self) (indexes self)
    (mkChainTrees (sprout_trees t) (sapling_trees t) (orchard_trees t) (ironwood_trees t) sapling orchard
       ironwood (history_trees_by_height t)).

Definition pop_tip {E} (self : Chain) : res E Chain :=
  let? block_height := non_finalized_tip_height self in
  let? b := expect (bt_get block_height (blocks self)) in
  let self := set_blocks self (bt_remove block_height (blocks self)) in
  let t := trees self in
  let self :=
    set_subtrees self (pop_last_subtree (sapling_subtrees t) block_height)
      (pop_last_subtree (orchard_subtrees t) block_height)
      (pop_last_subtree (ironwood_subtrees t) block_height) in
  let? _ := rust_assert (negb (is_empty self)) in
  revert_chain_with self b ValueBalance.Tip.

Definition pop_root {E} (self : Chain) : res E (ContextuallyVerifiedBlock * Treestate * Chain) :=
  let? block_height := non_finalized_root_height self in
  let t := trees self in
  let? state := expect (treestate t block_height) in
  let self :=
    set_subtrees self (pop_first_subtree (sapling_subtrees t) (ts_sapling_subtree state))
      (pop_first_subtree (orchard_subtrees t) (ts_orchard_subtree state))
      (pop_first_subtree (ironwood_subtrees t) (ts_ironwood_subtree state)) in
  let? b := expect (bt_get block_height (blocks self)) in
  let self := set_blocks self (bt_remove block_height (blocks self)) in
  let? self := revert_chain_with self b ValueBalance.Root in
  Ok (b, state, self).

(** The loop of [fork], which removes a block each time *)
Fixpoint pop_to {E} (fuel : nat) (self : Chain) (fork_tip : Hash) : res E Chain :=
  match fuel with
  | O => Panic
  | S fuel =>
      let? tip := non_finalized_tip_hash self in
      if tip =? fork_tip then Ok self
      else let? self := pop_tip self in pop_to fuel self fork_tip
  end.

Definition fork {E} (self : Chain) (fork_tip : Hash) : res E (option Chain) :=
  if negb (bool_decide (is_Some (height_by_hash (indexes self) !! fork_tip))) then Ok None
  else let? forked := pop_to (length (blocks self)) self fork_tip in Ok (Some forked).

Definition child_blocks (self : Chain) (block_height : Z) : list ContextuallyVerifiedBlock :=
  (filter (fun kv => block_height <= kv.1) (blocks self)).*2.

Definition invalidate_block {E} (self : Chain) (block_hash : Hash)
  : res E (option (Chain * list ContextuallyVerifiedBlock)) :=
  match height_by_hash (indexes self) !! block_hash with
  | None => Ok None
  | Some block_height =>
      let? forked := fork self block_hash in
      match forked with
      | None => Ok None
      | Some new_chain =>
          let? new_chain := pop_tip new_chain in
          Ok (Some (new_chain, child_blocks self block_height))
      end
  end.

(** ** The order of chains *)

Definition set_precious (self : Chain) (precious : option (Hash * Z)) : Chain :=
  mkChain (network self) (skips_transparent_address_index self) precious (blocks self) (indexes self)
    (trees self).

Definition active_precedence {E} (self : Chain) : res E Z :=
  match precious self with
  | None => Ok 0
  | Some (h, sequence) =>
      let? tip := non_finalized_tip_hash self in Ok (if h =? tip then sequence else 0)
  end.

(** [Option::cmp]: [None] first *)
Definition option_cmp (a b : option Z) : comparison :=
  match a, b with
  | None, None => Eq
  | None, Some _ => Lt
  | Some _, None => Gt
  | Some a, Some b => a ?= b
  end.

(** [Ord for Chain]; [then_with] *)
Definition cmp {E} (self other : Chain) : res E comparison :=
  match partial_cumulative_work (indexes self) ?= partial_cumulative_work (indexes other) with
  | Eq =>
      let? a := active_precedence self in
      let? b := active_precedence other in
      match a ?= b with
      | Eq =>
          let? self_tip := expect (tip_block self) in
          let? other_tip := expect (tip_block other) in
          Ok (match option_cmp (receipt_order other_tip) (receipt_order self_tip) with
              | Eq => hash self_tip ?= hash other_tip
              | c => c
              end)
      | c => Ok c
      end
  | c => Ok c
  end.

(** ** Queries *)

(** [tx_no_duplicates_in_chain] of [check/nullifier.rs], for a transaction and
    possibly a chain *)
Definition tx_no_duplicates_in_chain (finalized_chain : ZakuraDb) (chain : option Chain)
  (transaction : Transaction) : res ValidateContextError unit :=
  let contains (pool : Nullifiers -> gmap Z SpendingTransactionId) :=
    (fun c nullifier => bool_decide (is_Some (pool (nullifiers (indexes c)) !! nullifier))) <$> chain in
  let? _ :=
    find_duplicate_nullifier_with (MempoolTx.sprout_nullifiers transaction)
      (contains_sprout_nullifier finalized_chain) (contains sprout_nullifiers) DuplicateSproutNullifier in
  let? _ :=
    find_duplicate_nullifier_with (MempoolTx.sapling_nullifiers transaction)
      (contains_sapling_nullifier finalized_chain) (contains sapling_nullifiers) DuplicateSaplingNullifier in
  let? _ :=
    find_duplicate_nullifier_with (MempoolTx.orchard_nullifiers transaction)
      (contains_orchard_nullifier finalized_chain) (contains orchard_nullifiers) DuplicateOrchardNullifier in
  find_duplicate_nullifier_with (MempoolTx.ironwood_nullifiers transaction)
    (contains_ironwood_nullifier finalized_chain) (contains ironwood_nullifiers) DuplicateIronwoodNullifier.

(** The transfers of a list of distinct addresses, and their balance change *)
Definition partial_transparent_indexes (self : Chain) (addresses : list Address) : list TransparentTransfers :=
  omap (fun address => partial_transparent_transfers (outputs_index (indexes self)) !! address) addresses.

Definition partial_transparent_balance_change {E} (self : Chain) (addresses : list Address)
  : res E (Amount NegativeAllowed * Z) :=
  let? sums :=
    foldl (fun acc transfers =>
             let? acc := acc in
             let? received_ := received transfers in
             let? received_ := uint_arith 64 (acc.2 + received_) in
             Ok (radd acc.1 (balance transfers), received_))
      (Ok (Amount.zero, 0)) (partial_transparent_indexes self addresses) in
  let? balance := expect_ok sums.1 in Ok (balance, sums.2).
End Chain.
End Chain.
