(* ===== verification/ChainContent.v ===== *)
(** * The content of chain indexes

    The hash indexes of a non-finalized chain are functions of what its
    transactions create, spend and reveal, in any order; an update adds the
    content of a transaction, and its revert removes it. *)

From stdpp Require Import base numbers strings list option gmap sets sorting.
From Stdlib Require Import ZArith Lia.
From S2P Require Import Prelude Height Amount BTree BSet Network ValueBalance Difficulty Dependencies Transparent MempoolTx Block BlockCheck SharedMap AddressIndex AddressFacts SpendCheck Chain.
Local Open Scope Z_scope.
Local Notation length := List.length.

Module ChainContent.
Import Amount Network Block BlockCheck AddressIndex AddressFacts SharedMap SpendCheck Chain.

(** ** Maps of entries *)

Section MapOf.
Context {K V : Type} `{Countable K}.
Implicit Types (m : gmap K V) (l : list (K * V)).

Definition map_of m l : Prop := NoDup l.*1 /\ m = list_to_map l.

Lemma map_of_lookup m l k v : map_of m l -> m !! k = Some v <-> (k, v) ∈ l.
Proof. intros [Hn ->]. symmetry. by apply elem_of_list_to_map. Qed.

Lemma map_of_None m l k : map_of m l -> m !! k = None <-> k ∉ l.*1.
Proof. intros [Hn ->]. by rewrite <- not_elem_of_list_to_map. Qed.

Lemma map_of_perm m l l' : map_of m l -> l ≡ₚ l' -> map_of m l'.
Proof.
  intros [Hn ->] Hp. split; [by rewrite <- Hp|]. by apply list_to_map_proper.
Qed.

Lemma map_of_insert m l k v : map_of m l -> m !! k = None -> map_of (<[k := v]> m) ((k, v) :: l).
Proof.
  intros Hm Hk. apply (map_of_None _ _ _ Hm) in Hk. destruct Hm as [Hn ->]. split; [|done].
  rewrite fmap_cons. by constructor.
Qed.

Lemma map_of_delete m l k v : map_of m ((k, v) :: l) -> m !! k = Some v /\ map_of (delete k m) l.
Proof.
  intros [Hn ->]. rewrite fmap_cons in Hn. apply NoDup_cons in Hn as [Hk Hn]. cbn [list_to_map fst snd] in *.
  split; [apply lookup_insert_eq|]. split; [done|]. apply delete_insert_id. by apply not_elem_of_list_to_map.
Qed.

Lemma map_of_ext m m' l : map_of m l -> map_of m' l -> m = m'.
Proof. by intros [_ ->] [_ ->]. Qed.

Lemma map_of_empty : map_of ∅ [].
Proof. split; [constructor|done]. Qed.
End MapOf.

(** ** Transparent outputs *)

Section Outputs.
Context (net : Network) (skips : bool).
Implicit Types (cr : list Creation) (sp : list Spend) (o : Outputs).

Definition pays (a : Address) (e : Creation) : Prop := indexed_address net skips (output (utxo e.2)) = Some a.

#[global] Instance pays_dec a e : Decision (pays a e).
Proof. unfold pays. apply _. Defined.

(** The creations and spends of one address *)
Definition cr_at (a : Address) cr : list Creation := filter (fun e => pays a e) cr.
Definition sp_at (a : Address) sp : list Spend := filter (fun s => pays a s.2) sp.

Definition transfers_ok (transfers : gmap Address TransparentTransfers) cr sp : Prop :=
  forall a,
    match transfers !! a with
    | Some t => transfers_of t (cr_at a cr) (sp_at a sp) /\ (cr_at a cr <> [] \/ sp_at a sp <> [])
    | None => cr_at a cr = [] /\ sp_at a sp = []
    end.

Definition spent_entries sp : list (OutPoint * SpendingTransactionId) := (fun s => (s.2.1, tt)) <$> sp.

Record outputs_of o cr sp : Prop := {
  o_created : map_of (created_utxos o) cr;
  o_spent : map_of (spent_utxos o) (spent_entries sp);
  o_transfers : transfers_ok (partial_transparent_transfers o) cr sp;
}.

Lemma transfers_lookup transfers cr sp a :
  transfers_ok transfers cr sp ->
  transfers_of (default no_transfers (transfers !! a)) (cr_at a cr) (sp_at a sp).
Proof.
  intros Ht. specialize (Ht a). destruct (transfers !! a) as [t|]; [apply Ht|].
  destruct Ht as [-> ->]. apply no_transfers_of.
Qed.

Lemma outputs_perm o cr cr' sp sp' : outputs_of o cr sp -> cr ≡ₚ cr' -> sp ≡ₚ sp' -> outputs_of o cr' sp'.
Proof.
  intros [Hc Hs Ht] Hcr Hsp. split.
  - by eapply map_of_perm.
  - eapply map_of_perm; [done|]. by apply fmap_Permutation.
  - intros a. specialize (Ht a). unfold cr_at, sp_at in *.
    pose proof (filter_Permutation (fun e => pays a e) _ _ Hcr) as Hca.
    pose proof (filter_Permutation (fun s : Spend => pays a s.2) _ _ Hsp) as Hsa.
    assert (Hnil : forall {A} (l l' : list A), l ≡ₚ l' -> l = [] <-> l' = []).
    { intros A l l' Hl. split; intros ->; [by apply Permutation_nil|by symmetry in Hl; apply Permutation_nil]. }
    destruct (partial_transparent_transfers o !! a) as [t|].
    + destruct Ht as [Ht Hne]. split; [by eapply transfers_perm|]. by rewrite <- (Hnil _ _ _ Hca), <- (Hnil _ _ _ Hsa).
    + by rewrite <- (Hnil _ _ _ Hca), <- (Hnil _ _ _ Hsa).
Qed.

(** The content determines the indexes. *)
Lemma outputs_ext o o' cr sp : outputs_of o cr sp -> outputs_of o' cr sp -> o = o'.
Proof.
  intros [Hc Hs Ht] [Hc' Hs' Ht']. destruct o as [c s t], o' as [c' s' t']. cbn in *. f_equal.
  - by eapply map_of_ext.
  - by eapply map_of_ext.
  - apply map_eq. intros a. specialize (Ht a). specialize (Ht' a). destruct (t !! a), (t' !! a).
    + f_equal. by eapply transfers_ext; [apply Ht|apply Ht'].
    + destruct Ht as [_ [Hn|Hn]]; by destruct Ht'.
    + destruct Ht' as [_ [Hn|Hn]]; by destruct Ht.
    + done.
Qed.

(** A transfer added to the history of its address *)
Lemma transfers_add transfers cr sp e t' (new_cr : list Creation) (new_sp : list Spend) :
  transfers_ok transfers cr sp ->
  (new_cr = [e] /\ new_sp = [] \/ exists h, new_cr = [] /\ new_sp = [(h, e)]) ->
  forall a, pays a e ->
  transfers_of t' (cr_at a (new_cr ++ cr)) (sp_at a (new_sp ++ sp)) ->
  transfers_ok (<[a := t']> transfers) (new_cr ++ cr) (new_sp ++ sp).
Proof.
  intros Hok Hnew a Ha Ht' b. destruct (decide (a = b)) as [<-|Hne].
  - rewrite lookup_insert_eq. split; [done|]. destruct Hnew as [[-> ->]|(h & -> & ->)].
    + left. cbn [app]. unfold cr_at. by rewrite filter_cons_True.
    + right. cbn [app]. unfold sp_at. by rewrite filter_cons_True.
  - rewrite lookup_insert_ne by done. specialize (Hok b).
    assert (Hb : ~ pays b e) by (unfold pays in *; congruence).
    destruct Hnew as [[-> ->]|(h & -> & ->)]; cbn [app]; unfold cr_at, sp_at in *.
    + by rewrite filter_cons_False.
    + by rewrite filter_cons_False.
Qed.

(** An output without an address leaves the histories as they are. *)
Lemma transfers_skip transfers cr sp e (new_cr : list Creation) (new_sp : list Spend) :
  transfers_ok transfers cr sp ->
  (new_cr = [e] /\ new_sp = [] \/ exists h, new_cr = [] /\ new_sp = [(h, e)]) ->
  indexed_address net skips (output (utxo e.2)) = None ->
  transfers_ok transfers (new_cr ++ cr) (new_sp ++ sp).
Proof.
  intros Hok Hnew Hnone b. specialize (Hok b). assert (Hb : ~ pays b e) by (unfold pays; congruence).
  destruct Hnew as [[-> ->]|(h & -> & ->)]; cbn [app]; unfold cr_at, sp_at in *; by rewrite filter_cons_False.
Qed.

Lemma from_usize_iff {E} h i op :
  Transparent.from_usize (E := E) h (Z.of_nat i) = Ok op <-> op = mkOutPoint h (Z.of_nat i) /\ Z.of_nat i < 2 ^ 32.
Proof.
  unfold Transparent.from_usize. destruct (to_uint 32 (Z.of_nat i)) as [j|] eqn:Hj; cbn.
  - apply to_uint_Some in Hj as [-> ?]. split; [intros [= <-]; split; [done|lia]|by intros [-> _]].
  - split; [done|]. intros [_ Hi]. assert (Hr : 0 <= Z.of_nat i < 2 ^ 32) by lia.
    by rewrite (proj2 (to_uint_Some 32 _ _) (conj eq_refl Hr)) in Hj.
Qed.

Lemma create_output_Ok outs h o i o' cr sp :
  outputs_of o cr sp -> create_output net skips outs h o i = Ok o' ->
  exists u, outs !! mkOutPoint h (Z.of_nat i) = Some u /\ Z.of_nat i < 2 ^ 32 /\
            outputs_of o' ((mkOutPoint h (Z.of_nat i), u) :: cr) sp.
Proof.
  intros [Hc Hs Ht] Hup. unfold create_output in Hup.
  apply res_bind_Ok in Hup as (op & [-> Hi]%from_usize_iff & Hup).
  apply res_bind_Ok in Hup as (u & Hu%expect_Ok & Hup). apply res_bind_Ok in Hup as ([] & Hnew & Hup).
  set (op := mkOutPoint h (Z.of_nat i)) in *. exists u. split; [done|]. split; [done|].
  destruct (bool_decide_reflect (created_utxos o !! op = None)) as [Hnone|]; [|done].
  pose proof (map_of_insert _ _ _ u Hc Hnone) as Hc'.
  destruct (indexed_address net skips (output (utxo u))) as [a|] eqn:Ha.
  - apply res_bind_Ok in Hup as (t & Hcre & Hup). injection Hup as <-. split; [done|done|].
    apply (transfers_add _ cr sp (op, u) t [(op, u)] []); [done|by left|done|].
    cbn [app]. unfold cr_at. rewrite filter_cons_True by done. eapply create_Ok; [|exact Hcre].
    by apply transfers_lookup.
  - injection Hup as <-. split; [done|done|]. apply (transfers_skip _ cr sp (op, u) [(op, u)] []); [done|by left|done].
Qed.

Lemma spend_input_Ok outs h o input o' cr sp :
  outputs_of o cr sp -> spend_input net skips outs h o input = Ok o' ->
  match outpoint input with
  | None => o' = o
  | Some op => exists u, outs !! op = Some u /\ outputs_of o' cr ((h, (op, u)) :: sp)
  end.
Proof.
  intros [Hc Hs Ht] Hup. unfold spend_input in Hup. destruct (outpoint input) as [op|]; [|by injection Hup as <-].
  apply res_bind_Ok in Hup as ([] & Hnew & Hup). apply res_bind_Ok in Hup as (u & Hu%expect_Ok & Hup).
  exists u. split; [done|]. destruct (bool_decide_reflect (spent_utxos o !! op = None)) as [Hnone|]; [|done].
  pose proof (map_of_insert _ _ _ tt Hs Hnone) as Hs'.
  destruct (indexed_address net skips (output (utxo u))) as [a|] eqn:Ha.
  - apply res_bind_Ok in Hup as (t & Hsp & Hup). injection Hup as <-. split; [done|done|].
    apply (transfers_add _ cr sp (op, u) t [] [(h, (op, u))]); [done|right; by exists h|done|].
    cbn [app]. unfold sp_at. rewrite filter_cons_True by done. eapply spend_Ok; [|exact Hsp].
    by apply transfers_lookup.
  - injection Hup as <-. split; [done|done|].
    apply (transfers_skip _ cr sp (op, u) [] [(h, (op, u))]); [done|right; by exists h|done].
Qed.

(** ** Reverts *)

(** The outputs are indexable, and no address received or spent more than the
    monetary base in the chain. *)
Record modest cr sp : Prop := {
  m_created : Forall indexable cr;
  m_spent : Forall indexable sp.*2;
  m_received : forall a, total (cr_at a cr) <= MAX_MONEY;
  m_paid : forall a, total (sp_at a sp).*2 <= MAX_MONEY;
}.

Lemma Forall_filter_sub {A} (P Q : A -> Prop) `{!forall x, Decision (P x)} (l : list A) :
  Forall Q l -> Forall Q (filter P l).
Proof. rewrite !Forall_forall. intros Hl x [_ Hx]%list_elem_of_filter. by apply Hl. Qed.

Lemma total_value_nonneg l : Forall indexable l -> 0 <= total l.
Proof. unfold total. induction 1 as [|e l [_ ?] _ IH]; cbn [foldr]; lia. Qed.

Lemma modest_range cr sp a : modest cr sp -> in_money (total (cr_at a cr) - total (sp_at a sp).*2).
Proof.
  intros [Hc Hs Hr Hp]. specialize (Hr a). specialize (Hp a). unfold in_money.
  assert (0 <= total (cr_at a cr)) by (apply total_value_nonneg, Forall_filter_sub; done).
  assert (0 <= total (sp_at a sp).*2).
  { apply total_value_nonneg. rewrite Forall_fmap in Hs |- *. by apply Forall_filter_sub. }
  lia.
Qed.

Lemma total_filter_tail (P : Creation -> Prop) `{!forall e, Decision (P e)} e l :
  indexable e -> total (filter P l) <= total (filter P (e :: l)).
Proof. intros [_ He]. rewrite filter_cons. case_decide; [|done]. unfold total. cbn [foldr]. lia. Qed.

Lemma total_filter_le (P : Creation -> Prop) `{!forall e, Decision (P e)} l :
  Forall indexable l -> total (filter P l) <= total l.
Proof.
  induction 1 as [|e l He _ IH]; [done|]. rewrite filter_cons. unfold total in *. destruct He as [_ He].
  destruct (decide (P e)); cbn [foldr]; lia.
Qed.

Lemma modest_cr_tail e cr sp : modest (e :: cr) sp -> modest cr sp.
Proof.
  intros [Hc Hs Hr Hp]. apply Forall_cons in Hc as [He Hc]. split; [done|done| |done].
  intros a. specialize (Hr a). unfold cr_at in *.
  pose proof (total_filter_tail (fun e => pays a e) e cr He). lia.
Qed.

Lemma sp_at_snd a sp : (sp_at a sp).*2 = cr_at a sp.*2.
Proof.
  unfold sp_at, cr_at. induction sp as [|s sp IH]; [done|]. rewrite fmap_cons, !filter_cons.
  destruct (decide (pays a s.2)); [by rewrite fmap_cons, IH|done].
Qed.

(** It is enough that all of them are within the monetary base. *)
Lemma modest_totals cr sp :
  Forall indexable cr -> Forall indexable sp.*2 -> total cr <= MAX_MONEY -> total sp.*2 <= MAX_MONEY -> modest cr sp.
Proof.
  intros Hc Hs Htc Hts. split; [done|done|..]; intros a; [|rewrite sp_at_snd]; unfold cr_at;
    (etrans; [by apply total_filter_le|done]).
Qed.

Lemma modest_sp_tail s cr sp : modest cr (s :: sp) -> modest cr sp.
Proof.
  intros [Hc Hs Hr Hp]. rewrite fmap_cons in Hs. apply Forall_cons in Hs as [He Hs]. split; [done..|].
  intros a. specialize (Hp a). rewrite sp_at_snd in *. rewrite fmap_cons in Hp. unfold cr_at in *.
  pose proof (total_filter_tail (fun e => pays a e) s.2 sp.*2 He). lia.
Qed.

(** A transfer removed from the history of its address, which is dropped when it
    has no other *)
Lemma transfers_remove transfers cr sp cr' sp' t t' a :
  transfers_ok transfers cr sp -> transfers !! a = Some t ->
  (forall b, b <> a -> cr_at b cr = cr_at b cr' /\ sp_at b sp = sp_at b sp') ->
  transfers_of t' (cr_at a cr') (sp_at a sp') ->
  transfers_ok (if transfers_is_empty t' then delete a transfers else <[a := t']> transfers) cr' sp'.
Proof.
  intros Hok Ha Hother Ht' b. pose proof (transfers_empty _ _ _ Ht') as He.
  destruct (decide (a = b)) as [<-|Hne].
  - destruct (transfers_is_empty t') eqn:Hemp.
    + rewrite lookup_delete_eq. by apply He.
    + rewrite lookup_insert_eq. split; [done|].
      destruct (decide (cr_at a cr' = [])) as [Hc|]; [|by left].
      destruct (decide (sp_at a sp' = [])) as [Hs|]; [|by right].
      by pose proof (proj2 He (conj Hc Hs)).
  - destruct (Hother b) as [Hc Hs]; [done|]. specialize (Hok b). rewrite Hc, Hs in Hok.
    destruct (transfers_is_empty t'); by rewrite ?lookup_delete_ne, ?lookup_insert_ne.
Qed.

Lemma revert_output_Ok {E} outs h o i u cr sp :
  outputs_of o ((mkOutPoint h (Z.of_nat i), u) :: cr) sp -> outs !! mkOutPoint h (Z.of_nat i) = Some u ->
  Z.of_nat i < 2 ^ 32 -> modest ((mkOutPoint h (Z.of_nat i), u) :: cr) sp ->
  exists o', revert_output (E := E) net skips outs h o i = Ok o' /\ outputs_of o' cr sp.
Proof.
  set (op := mkOutPoint h (Z.of_nat i)). intros [Hc Hs Ht] Hu Hi Hm. unfold revert_output.
  rewrite (proj2 (from_usize_iff h i op) (conj eq_refl Hi)). cbn [res_bind]. rewrite Hu. cbn [expect res_bind].
  destruct (map_of_delete _ _ _ _ Hc) as [Hlook Hc']. rewrite Hlook, bool_decide_eq_true_2 by by eexists.
  cbn [rust_assert res_bind]. pose proof (modest_cr_tail _ _ _ Hm) as Hm'.
  destruct (indexed_address net skips (output (utxo u))) as [a|] eqn:Ha.
  - assert (Hpay : pays a (op, u)) by done.
    pose proof (Ht a) as Hta. unfold cr_at in Hta at 1 2 3. rewrite filter_cons_True in Hta by done.
    destruct (partial_transparent_transfers o !! a) as [t|] eqn:Hta'; [|by destruct Hta].
    cbn [expect res_bind]. destruct Hta as [Hta _].
    pose proof (m_created _ _ Hm) as Hix. apply Forall_cons in Hix as [Hix _].
    destruct (revert_create_Ok (E := E) t (cr_at a cr) (sp_at a sp) op u Hta Hix (modest_range _ _ a Hm')) as (t' & -> & Ht').
    cbn [res_bind]. eexists. split; [done|]. split; [done|done|]. cbn.
    eapply transfers_remove; [exact Ht|done| |done]. intros b Hb. split; [|done]. unfold cr_at.
    rewrite filter_cons_False; [done|]. unfold pays in *. congruence.
  - eexists. split; [done|]. split; [done|done|]. cbn. intros b. specialize (Ht b).
    unfold cr_at in *. rewrite filter_cons_False in Ht; [done|]. unfold pays. cbn. congruence.
Qed.

Lemma revert_input_Ok {E} outs h o input op u cr sp :
  outpoint input = Some op -> outputs_of o cr ((h, (op, u)) :: sp) -> outs !! op = Some u ->
  modest cr ((h, (op, u)) :: sp) ->
  exists o', revert_input (E := E) net skips outs h o input = Ok o' /\ outputs_of o' cr sp.
Proof.
  intros Hop [Hc Hs Ht] Hu Hm. unfold revert_input. rewrite Hop, Hu. unfold spent_entries in Hs. rewrite fmap_cons in Hs.
  destruct (map_of_delete _ _ _ _ Hs) as [Hlook Hs']. cbn [fst snd] in Hlook, Hs'.
  rewrite Hlook, bool_decide_eq_true_2 by by eexists.
  cbn [rust_assert res_bind expect]. pose proof (modest_sp_tail _ _ _ Hm) as Hm'.
  destruct (indexed_address net skips (output (utxo u))) as [a|] eqn:Ha.
  - assert (Hpay : pays a (op, u)) by done.
    pose proof (Ht a) as Hta. unfold sp_at in Hta at 1 2 3. rewrite filter_cons_True in Hta by done.
    destruct (partial_transparent_transfers o !! a) as [t|] eqn:Hta'; [|by destruct Hta].
    cbn [expect res_bind]. destruct Hta as [Hta _].
    pose proof (m_spent _ _ Hm) as Hix. rewrite fmap_cons in Hix. apply Forall_cons in Hix as [Hix _].
    destruct (revert_spend_Ok (E := E) t (cr_at a cr) (sp_at a sp) h op u Hta Hix (modest_range _ _ a Hm')) as (t' & -> & Ht').
    cbn [res_bind]. eexists. split; [done|]. split; [done|done|]. cbn.
    eapply transfers_remove; [exact Ht|done| |done]. intros b Hb. split; [done|]. unfold sp_at.
    rewrite filter_cons_False; [done|]. unfold pays in *. cbn. congruence.
  - eexists. split; [done|]. split; [done|done|]. cbn. intros b. specialize (Ht b).
    unfold sp_at in *. rewrite filter_cons_False in Ht; [done|]. unfold pays. cbn. congruence.
Qed.
(** ** The outputs of a transaction *)

Definition creation_at (outs : gmap OutPoint OrderedUtxo) (h : Hash) (i : nat) : option Creation :=
  (fun u => (mkOutPoint h (Z.of_nat i), u)) <$> outs !! mkOutPoint h (Z.of_nat i).

Definition spend_of (outs : gmap OutPoint OrderedUtxo) (h : Hash) (input : Input) : option Spend :=
  op ← outpoint input; (fun u => (h, (op, u))) <$> outs !! op.

(** What a transaction with hash [h] creates and spends, given the outputs the
    block creates and spends *)
Definition tx_created (outs : gmap OutPoint OrderedUtxo) (h : Hash) (n : nat) : list Creation :=
  omap (creation_at outs h) (seq 0 n).
Definition tx_spent (outs : gmap OutPoint OrderedUtxo) (h : Hash) (inputs : list Input) : list Spend :=
  omap (spend_of outs h) inputs.

(** All of them are known. *)
Definition created_known (outs : gmap OutPoint OrderedUtxo) (h : Hash) (i : nat) : Prop :=
  is_Some (outs !! mkOutPoint h (Z.of_nat i)) /\ Z.of_nat i < 2 ^ 32.
Definition spend_known (outs : gmap OutPoint OrderedUtxo) (input : Input) : Prop :=
  forall op, outpoint input = Some op -> is_Some (outs !! op).

Lemma update_outputs_Ok outs h o l o' cr sp :
  outputs_of o cr sp ->
  foldl (fun acc i => let? o := acc in create_output net skips outs h o i) (Ok o) l = Ok o' ->
  Forall (created_known outs h) l /\ outputs_of o' (omap (creation_at outs h) l ++ cr) sp.
Proof.
  revert o cr. induction l as [|i l IH]; intros o cr Ho Hup; [by injection Hup as <-|].
  apply foldl_bind_cons in Hup as (o1 & Hc & Hup).
  destruct (create_output_Ok _ _ _ _ _ _ _ Ho Hc) as (u & Hu & Hi & Ho1).
  destruct (IH _ _ Ho1 Hup) as [Hk Ho']. split; [constructor; [split; [by eexists|done]|done]|].
  cbn [omap list_omap]. unfold creation_at at 1. rewrite Hu. cbn [fmap option_fmap option_map].
  eapply outputs_perm; [exact Ho'| |done]. symmetry. apply Permutation_middle.
Qed.

Lemma update_inputs_Ok outs h o l o' cr sp :
  outputs_of o cr sp ->
  foldl (fun acc input => let? o := acc in spend_input net skips outs h o input) (Ok o) l = Ok o' ->
  Forall (spend_known outs) l /\ outputs_of o' cr (tx_spent outs h l ++ sp).
Proof.
  revert o sp. induction l as [|input l IH]; intros o sp Ho Hup; [by injection Hup as <-|].
  apply foldl_bind_cons in Hup as (o1 & Hs & Hup). apply (spend_input_Ok _ _ _ _ _ _ _ Ho) in Hs.
  unfold tx_spent in *. cbn [omap list_omap]. unfold spend_of at 1.
  destruct (outpoint input) as [op|] eqn:Hop; cbn [mbind option_bind].
  - destruct Hs as (u & Hu & Ho1). destruct (IH _ _ Ho1 Hup) as [Hk Ho'].
    split; [constructor; [intros op' Hop'; rewrite Hop in Hop'; injection Hop' as <-; by eexists|done]|].
    rewrite Hu. cbn [fmap option_fmap option_map].
    eapply outputs_perm; [exact Ho'|done|]. symmetry. apply Permutation_middle.
  - subst o1. destruct (IH _ _ Ho Hup) as [Hk Ho']. split; [constructor; [intros op' Hop'; congruence|done]|done].
Qed.

Lemma revert_outputs_Ok {E} outs h o l cr sp :
  Forall (created_known outs h) l -> outputs_of o (omap (creation_at outs h) l ++ cr) sp ->
  modest (omap (creation_at outs h) l ++ cr) sp ->
  exists o', foldl (fun acc i => let? o := acc in revert_output net skips outs h o i) (Ok o) l = Ok (E := E) o' /\
             outputs_of o' cr sp /\ modest cr sp.
Proof.
  intros Hk. revert o. induction Hk as [|i l [[u Hu] Hi] Hk IH]; intros o Ho Hm; [by exists o|].
  cbn [omap list_omap] in Ho, Hm. unfold creation_at in Ho at 1. unfold creation_at in Hm at 1. rewrite Hu in Ho, Hm.
  cbn [fmap option_fmap option_map app] in Ho, Hm.
  destruct (revert_output_Ok (E := E) _ _ _ _ _ _ _ Ho Hu Hi Hm) as (o1 & Hr & Ho1).
  destruct (IH o1 Ho1 (modest_cr_tail _ _ _ Hm)) as (o' & Hf & Ho' & Hm'). exists o'.
  split; [|done]. apply foldl_bind_cons. by exists o1.
Qed.

Lemma revert_inputs_Ok {E} outs h o l cr sp :
  Forall (spend_known outs) l -> outputs_of o cr (tx_spent outs h l ++ sp) ->
  modest cr (tx_spent outs h l ++ sp) ->
  exists o', foldl (fun acc input => let? o := acc in revert_input net skips outs h o input) (Ok o) l = Ok (E := E) o' /\
             outputs_of o' cr sp /\ modest cr sp.
Proof.
  intros Hk. revert o. induction Hk as [|input l Hi Hk IH]; intros o Ho Hm; [by exists o|].
  unfold tx_spent in *. cbn [omap list_omap] in Ho, Hm. unfold spend_of in Ho at 1. unfold spend_of in Hm at 1.
  setoid_rewrite foldl_bind_cons.
  destruct (outpoint input) as [op|] eqn:Hop; cbn [mbind option_bind] in Ho, Hm.
  - destruct (Hi op Hop) as [u Hu]. rewrite Hu in Ho, Hm. cbn [fmap option_fmap option_map app] in Ho, Hm.
    destruct (revert_input_Ok (E := E) _ _ _ _ _ _ _ _ Hop Ho Hu Hm) as (o1 & Hr & Ho1).
    destruct (IH o1 Ho1 (modest_sp_tail _ _ _ Hm)) as (o' & Hf & Ho' & Hm'). exists o'. split; [by exists o1|done].
  - destruct (IH o Ho Hm) as (o' & Hf & Ho' & Hm'). exists o'. split; [|done]. exists o. split; [|done].
    unfold revert_input. by rewrite Hop.
Qed.
End Outputs.

(** ** Nullifiers *)

Definition revealed_entries (l : list Z) : list (Z * SpendingTransactionId) := (fun n => (n, tt)) <$> l.

Lemma add_unique_Ok m l new error m' :
  map_of m (revealed_entries l) -> add_to_non_finalized_chain_unique_with m new tt error = Ok m' ->
  map_of m' (revealed_entries (new ++ l)).
Proof.
  unfold add_to_non_finalized_chain_unique_with. revert m l. induction new as [|n new IH]; intros m l Hm Hup.
  - by injection Hup as <-.
  - apply foldl_bind_cons in Hup as (m1 & Hn & Hup). destruct (m !! n) eqn:Hmn; [done|]. injection Hn as <-.
    specialize (IH _ (n :: l) (map_of_insert _ _ _ tt Hm Hmn) Hup).
    eapply map_of_perm; [exact IH|]. apply fmap_Permutation. symmetry. apply Permutation_middle.
Qed.

Lemma remove_unique_Ok {E} m l old :
  map_of m (revealed_entries (old ++ l)) ->
  exists m', remove_from_non_finalized_chain (E := E) m old = Ok m' /\ map_of m' (revealed_entries l).
Proof.
  unfold remove_from_non_finalized_chain. revert m. induction old as [|n old IH]; intros m Hm; [by exists m|].
  setoid_rewrite foldl_bind_cons. destruct (map_of_delete _ _ _ _ Hm) as [Hn Hm1].
  destruct (IH _ Hm1) as (m' & Hf & Hm'). exists m'. split; [|done]. exists (delete n m). split; [|done].
  by rewrite Hn, bool_decide_eq_true_2 by by eexists.
Qed.
End ChainContent.
