(* ===== verification/ChainBlocks.v ===== *)
(** * Blocks of a chain and its indexes

    What a block adds to the hash indexes of a non-finalized chain, and that
    adding a block and reverting any block of the chain keep the indexes those of
    the blocks. *)

From stdpp Require Import base numbers strings list option gmap sets sorting.
From Stdlib Require Import ZArith Lia.
From S2P Require Import Prelude Height Amount BTree BSet Network ValueBalance Difficulty DifficultyFacts Dependencies Transparent MempoolTx Block BlockHeader BlockCheck SharedMap AddressIndex AddressFacts SpendCheck Chain ChainContent.
Local Open Scope Z_scope.
Local Notation length := List.length.

Module ChainBlocks.
Import Amount Network Block BlockCheck AddressIndex AddressFacts SharedMap SpendCheck Chain ChainContent.

(** ** Content *)

(** The transactions with their locations, what they create and spend, and the
    nullifiers of each pool they reveal *)
Record Content := mkContent {
  c_txs : list (Hash * (Z * Z));
  c_created : list Creation;
  c_spent : list Spend;
  c_sprout : list Z;
  c_sapling : list Z;
  c_orchard : list Z;
  c_ironwood : list Z;
}.

Definition no_content : Content := mkContent [] [] [] [] [] [] [].

Definition content_app (c d : Content) : Content :=
  mkContent (c_txs c ++ c_txs d) (c_created c ++ c_created d) (c_spent c ++ c_spent d)
    (c_sprout c ++ c_sprout d) (c_sapling c ++ c_sapling d) (c_orchard c ++ c_orchard d)
    (c_ironwood c ++ c_ironwood d).

Lemma content_app_assoc c d e : content_app (content_app c d) e = content_app c (content_app d e).
Proof. unfold content_app. cbn. by rewrite <- !app_assoc. Qed.

(** The same content in another order *)
Record content_perm (c d : Content) : Prop := {
  cp_txs : c_txs c ≡ₚ c_txs d;
  cp_created : c_created c ≡ₚ c_created d;
  cp_spent : c_spent c ≡ₚ c_spent d;
  cp_sprout : c_sprout c ≡ₚ c_sprout d;
  cp_sapling : c_sapling c ≡ₚ c_sapling d;
  cp_orchard : c_orchard c ≡ₚ c_orchard d;
  cp_ironwood : c_ironwood c ≡ₚ c_ironwood d;
}.

#[export] Instance content_perm_equiv : Equivalence content_perm.
Proof.
  split.
  - intros c. by split.
  - intros c d []. by split.
  - intros c d e [] []. split; by etrans.
Qed.

#[export] Instance content_app_proper : Proper (content_perm ==> content_perm ==> content_perm) content_app.
Proof. intros c c' [] d d' []. split; cbn; by apply Permutation_app. Qed.

Lemma content_app_comm c d : content_perm (content_app c d) (content_app d c).
Proof. split; cbn; apply Permutation_app_comm. Qed.

Section Blocks.
Context (net : Network) (skips : bool).

(** The indexes of a content *)
Record content_of (ix : Indexes) (c : Content) : Prop := {
  ix_txs : map_of (tx_loc_by_hash ix) (c_txs c);
  ix_outputs : outputs_of net skips (outputs_index ix) (c_created c) (c_spent c);
  ix_sprout : map_of (sprout_nullifiers (nullifiers ix)) (revealed_entries (c_sprout c));
  ix_sapling : map_of (sapling_nullifiers (nullifiers ix)) (revealed_entries (c_sapling c));
  ix_orchard : map_of (orchard_nullifiers (nullifiers ix)) (revealed_entries (c_orchard c));
  ix_ironwood : map_of (ironwood_nullifiers (nullifiers ix)) (revealed_entries (c_ironwood c));
}.

#[export] Instance content_of_proper ix : Proper (content_perm ==> iff) (content_of ix).
Proof.
  assert (Himp : forall c d, content_perm c d -> content_of ix c -> content_of ix d).
  { intros c d [] []. split; [|by eapply outputs_perm|..];
      (eapply map_of_perm; [eassumption|]); try done; by apply fmap_Permutation. }
  intros c d Hcd. split; by apply Himp.
Qed.

Definition content_modest (c : Content) : Prop := modest net skips (c_created c) (c_spent c).

#[export] Instance content_modest_proper : Proper (content_perm ==> iff) content_modest.
Proof.
  assert (Himp : forall c d, content_perm c d -> content_modest c -> content_modest d).
  { intros c d [_ Hc Hs _ _ _ _] [H1 H2 H3 H4]. split.
    - by rewrite <- Hc.
    - by rewrite <- Hs.
    - intros a. rewrite <- (total_perm (cr_at net skips a (c_created c))); [apply H3|]. unfold cr_at. by rewrite Hc.
    - intros a. rewrite <- (total_perm (sp_at net skips a (c_spent c)).*2); [apply H4|]. unfold sp_at. by rewrite Hs. }
  intros c d Hcd. split; by apply Himp.
Qed.

(** ** Transactions *)

Definition known_version (tx : Transaction) : Prop := version tx = 4 \/ version tx = 5 \/ version tx = 6.

(** The nullifiers a transaction of its version reveals *)
Definition parts (tx : Transaction) : list Z * list Z * list Z * list Z :=
  match revealed (E := unit) tx with Ok p => p | _ => ([], [], [], []) end.

Lemma revealed_Ok {E} tx p : revealed (E := E) tx = Ok p <-> known_version tx /\ p = parts tx.
Proof.
  unfold parts, known_version, revealed.
  destruct (Z.eqb_spec (version tx) 4); [split; [intros [= <-]; tauto|by intros [_ ->]]|].
  destruct (Z.eqb_spec (version tx) 5); [split; [intros [= <-]; tauto|by intros [_ ->]]|].
  destruct (Z.eqb_spec (version tx) 6); [split; [intros [= <-]; tauto|by intros [_ ->]]|].
  split; [done|]. intros [? _]. tauto.
Qed.

Definition tx_content (b : ContextuallyVerifiedBlock) (i : nat) (x : BlockTx * Hash) : Content :=
  let '(sprout, sapling, orchard, ironwood) := parts (body x.1) in
  mkContent [(x.2, (height b, Z.of_nat i))]
    (tx_created (new_outputs b) x.2 (length (outputs (body x.1))))
    (tx_spent (spent_outputs b) x.2 (inputs (body x.1))) sprout sapling orchard ironwood.

(** A transaction that has been added *)
Record tx_known (b : ContextuallyVerifiedBlock) (i : nat) (x : BlockTx * Hash) : Prop := {
  k_version : known_version (body x.1);
  k_index : Z.of_nat i < 2 ^ 16;
  k_created : Forall (created_known (new_outputs b) x.2) (seq 0 (length (outputs (body x.1))));
  k_spent : Forall (spend_known (spent_outputs b)) (inputs (body x.1));
}.

(** The parts of the indexes that a transaction does not change *)
Definition same_blocks (ix ix' : Indexes) : Prop :=
  height_by_hash ix' = height_by_hash ix /\ partial_cumulative_work ix' = partial_cumulative_work ix /\
  value_pools ix' = value_pools ix.

Lemma update_transaction_Ok b ix i x c ix' :
  content_of ix c -> update_transaction net skips b ix i x.1 x.2 = Ok ix' ->
  tx_known b i x /\ content_of ix' (content_app (tx_content b i x) c) /\ same_blocks ix ix'.
Proof.
  intros [Htx Ho Hs1 Hs2 Hs3 Hs4] Hup. unfold update_transaction in Hup.
  apply res_bind_Ok in Hup as (n & Hn & Hup). unfold update_nullifiers in Hn.
  apply res_bind_Ok in Hn as (p & [Hv Hp]%revealed_Ok & Hn). unfold tx_content. rewrite <- Hp.
  destruct p as [[[l1 l2] l3] l4].
  apply res_bind_Ok in Hn as (m1 & H1 & Hn). apply res_bind_Ok in Hn as (m2 & H2 & Hn).
  apply res_bind_Ok in Hn as (m3 & H3 & Hn). apply res_bind_Ok in Hn as (m4 & H4 & Hn). injection Hn as <-.
  apply res_bind_Ok in Hup as (loc & Hloc & Hup). unfold transaction_location_from in Hloc.
  apply res_bind_Ok in Hloc as (idx & [-> Hidx]%expect_Ok%to_uint_Some & Hloc). injection Hloc as <-.
  apply res_bind_Ok in Hup as ([] & Hnew & Hup).
  destruct (bool_decide_reflect (tx_loc_by_hash ix !! x.2 = None)) as [Hnone|]; [|done].
  apply res_bind_Ok in Hup as (o1 & Ho1 & Hup). apply res_bind_Ok in Hup as (o2 & Ho2 & Hup). injection Hup as <-.
  destruct (update_outputs_Ok _ _ _ _ _ _ _ _ _ Ho Ho1) as [Hk1 Hof1].
  destruct (update_inputs_Ok _ _ _ _ _ _ _ _ _ Hof1 Ho2) as [Hk2 Hof2].
  split; [by split; [done|lia|..]|]. split; [|done].
  split; cbn [tx_loc_by_hash outputs_index nullifiers sprout_nullifiers sapling_nullifiers orchard_nullifiers
    ironwood_nullifiers content_app c_txs c_created c_spent c_sprout c_sapling c_orchard c_ironwood];
    [by apply (map_of_insert _ _ x.2 (height b, Z.of_nat i))|done|by eapply add_unique_Ok..].
Qed.

Lemma revert_transaction_Ok {E} b ix i x c :
  tx_known b i x -> content_of ix (content_app (tx_content b i x) c) ->
  content_modest (content_app (tx_content b i x) c) ->
  exists ix', revert_transaction (E := E) net skips b ix x.1 x.2 = Ok ix' /\ content_of ix' c /\
              content_modest c /\ same_blocks ix ix'.
Proof.
  intros [Hv Hidx Hk1 Hk2] Hc Hm. unfold tx_content in Hc, Hm. unfold revert_transaction, revert_nullifiers.
  rewrite (proj2 (revealed_Ok (body x.1) _) (conj Hv eq_refl)).
  destruct (parts (body x.1)) as [[[l1 l2] l3] l4]. destruct Hc as [Htx Ho Hs1 Hs2 Hs3 Hs4].
  cbn [content_app c_txs c_created c_spent c_sprout c_sapling c_orchard c_ironwood] in *.
  unfold content_modest in Hm. cbn [content_app c_created c_spent] in Hm.
  unfold revert_outputs, revert_inputs, tx_created in *.
  destruct (revert_outputs_Ok (E := E) net skips _ _ _ _ _ _ Hk1 Ho Hm) as (o1 & -> & Ho1 & Hm1). cbn [res_bind].
  destruct (revert_inputs_Ok (E := E) net skips _ _ _ _ _ _ Hk2 Ho1 Hm1) as (o2 & -> & Ho2 & Hm2). cbn [res_bind].
  destruct (map_of_delete _ _ _ _ Htx) as [Hloc Htx']. rewrite Hloc, bool_decide_eq_true_2 by by eexists.
  cbn [rust_assert res_bind].
  destruct (remove_unique_Ok (E := E) _ _ _ Hs1) as (m1 & -> & Hm1'). cbn [res_bind].
  destruct (remove_unique_Ok (E := E) _ _ _ Hs2) as (m2 & -> & Hm2'). cbn [res_bind].
  destruct (remove_unique_Ok (E := E) _ _ _ Hs3) as (m3 & -> & Hm3'). cbn [res_bind].
  destruct (remove_unique_Ok (E := E) _ _ _ Hs4) as (m4 & -> & Hm4'). cbn [res_bind].
  eexists. split; [done|]. split; [by split|]. split; [done|done].
Qed.

(** ** Blocks *)

Fixpoint txs_content (b : ContextuallyVerifiedBlock) (i : nat) (l : list (BlockTx * Hash)) : Content :=
  match l with
  | [] => no_content
  | x :: l => content_app (tx_content b i x) (txs_content b (S i) l)
  end.

Definition block_content (b : ContextuallyVerifiedBlock) : Content := txs_content b 0 (hashed_transactions b).

Definition blocks_content (bs : list ContextuallyVerifiedBlock) : Content :=
  foldr (fun b c => content_app (block_content b) c) no_content bs.

Definition txs_known (b : ContextuallyVerifiedBlock) (i : nat) (l : list (BlockTx * Hash)) : Prop :=
  forall j x, l !! j = Some x -> tx_known b (i + j) x.

Lemma same_blocks_trans ix ix1 ix2 : same_blocks ix ix1 -> same_blocks ix1 ix2 -> same_blocks ix ix2.
Proof. unfold same_blocks. intros (-> & -> & ->) (-> & -> & ->). done. Qed.

Lemma txs_known_cons b i x l : txs_known b i (x :: l) <-> tx_known b i x /\ txs_known b (S i) l.
Proof.
  split.
  - intros Hk. split; [specialize (Hk 0%nat x eq_refl); by rewrite Nat.add_0_r in Hk|].
    intros j y Hj. specialize (Hk (S j) y Hj). by rewrite Nat.add_succ_r in Hk.
  - intros [Hx Hl] [|j] y Hj; [injection Hj as <-; by rewrite Nat.add_0_r|]. rewrite Nat.add_succ_r. by apply Hl.
Qed.

Lemma update_txs_Ok b ix i l c ix' :
  content_of ix c ->
  foldl (fun acc '(i, (transaction, transaction_hash)) =>
           let? self := acc in update_transaction net skips b self i transaction transaction_hash)
    (Ok ix) (imap (fun j x => ((i + j)%nat, x)) l) = Ok ix' ->
  txs_known b i l /\ content_of ix' (content_app (txs_content b i l) c) /\ same_blocks ix ix'.
Proof.
  revert ix i c. induction l as [|[tx h] l IH]; intros ix i c Hc Hup.
  - injection Hup as <-. split; [by intros j x|]. split; [by destruct c|done].
  - rewrite imap_cons, Nat.add_0_r in Hup. apply foldl_strict_cons in Hup as (ix1 & H1 & Hup).
    2: { intros r [j [t h']] Hr a. destruct r as [r| |]; [by destruct (Hr r)|done..]. }
    destruct (update_transaction_Ok b ix i (tx, h) c ix1 Hc H1) as (Hk & Hc1 & Hsame).
    rewrite (imap_ext _ (fun j x => ((S i + j)%nat, x))) in Hup.
    2: { intros j y Hj. cbn. f_equal. lia. }
    destruct (IH ix1 (S i) _ Hc1 Hup) as (Hks & Hc' & Hsame').
    split; [by apply txs_known_cons|]. split; [|by eapply same_blocks_trans]. cbn [txs_content].
    rewrite content_app_assoc. rewrite <- content_app_assoc in Hc'.
    rewrite (content_app_comm (txs_content b (S i) l)) in Hc'. by rewrite content_app_assoc in Hc'.
Qed.

Lemma revert_txs_Ok {E} b ix i l c :
  txs_known b i l -> content_of ix (content_app (txs_content b i l) c) ->
  content_modest (content_app (txs_content b i l) c) ->
  exists ix',
    foldl (fun acc '(transaction, transaction_hash) =>
             let? self := acc in revert_transaction net skips b self transaction transaction_hash)
      (Ok ix) l = Ok (E := E) ix' /\
    content_of ix' c /\ content_modest c /\ same_blocks ix ix'.
Proof.
  revert ix i. induction l as [|[tx h] l IH]; intros ix i Hk Hc Hm.
  - exists ix. destruct c. done.
  - apply txs_known_cons in Hk as [Hk Hks]. cbn [txs_content] in Hc, Hm. rewrite content_app_assoc in Hc, Hm.
    destruct (revert_transaction_Ok (E := E) b ix i (tx, h) _ Hk Hc Hm) as (ix1 & H1 & Hc1 & Hm1 & Hsame).
    destruct (IH ix1 (S i) Hks Hc1 Hm1) as (ix' & H2 & Hc' & Hm' & Hsame'). exists ix'.
    split; [|split_and!; [done|done|by eapply same_blocks_trans]].
    apply foldl_strict_cons; [|by exists ix1].
    intros r [t h'] Hr a. destruct r as [r| |]; [by destruct (Hr r)|done..].
Qed.

Section Indexes.
Context {U : Difficulty.U256} {UL : Difficulty.U256Laws U} {NT : NoteTrees}.

(** The work of a block, from the target of its header *)
Definition bits (b : ContextuallyVerifiedBlock) : Z := BlockHeader.difficulty_threshold (header (block b)).

Definition work_of (b : ContextuallyVerifiedBlock) : Z :=
  match DifficultyFacts.target_of (bits b) with Some t => 2 ^ 256 / (t + 1) | None => 0 end.

Definition total_work (bs : list ContextuallyVerifiedBlock) : Z := foldr (fun b w => work_of b + w) 0 bs.

(** A block that has been added *)
Record block_known (b : ContextuallyVerifiedBlock) : Prop := {
  bk_txs : txs_known b 0 (hashed_transactions b);
  bk_bits : DifficultyFacts.is_u32 (bits b);
  bk_target : is_Some (DifficultyFacts.target_of (bits b));
}.

(** The indexes of the blocks of a chain *)
Record indexes_of (ix : Indexes) (bs : list ContextuallyVerifiedBlock) : Prop := {
  ixs_known : Forall block_known bs;
  ixs_hashes : map_of (height_by_hash ix) ((fun b => (hash b, height b)) <$> bs);
  ixs_content : content_of ix (blocks_content bs);
  ixs_work : partial_cumulative_work ix = total_work bs;
  ixs_work_range : Difficulty.is_u256 (total_work bs);
}.

Lemma blocks_content_perm bs bs' : bs ≡ₚ bs' -> content_perm (blocks_content bs) (blocks_content bs').
Proof.
  induction 1 as [|b bs bs' _ IH|b b' bs|bs1 bs2 bs3 _ IH1 _ IH2]; cbn [blocks_content foldr] in *.
  - done.
  - by rewrite IH.
  - by rewrite <- !content_app_assoc, (content_app_comm (block_content b)).
  - by rewrite IH1.
Qed.

Lemma total_work_perm bs bs' : bs ≡ₚ bs' -> total_work bs = total_work bs'.
Proof. induction 1; cbn [total_work foldr] in *; unfold total_work in *; lia. Qed.

#[export] Instance indexes_of_proper ix : Proper ((≡ₚ) ==> iff) (indexes_of ix).
Proof.
  assert (Himp : forall bs bs', bs ≡ₚ bs' -> indexes_of ix bs -> indexes_of ix bs').
  { intros bs bs' Hp [Hk Hh Hc Hw Hr]. split.
    - by rewrite <- Hp.
    - eapply map_of_perm; [done|]. by apply fmap_Permutation.
    - by rewrite <- (blocks_content_perm _ _ Hp).
    - by rewrite Hw, (total_work_perm _ _ Hp).
    - by rewrite <- (total_work_perm _ _ Hp). }
  intros bs bs' Hp. split; by apply Himp.
Qed.

Lemma block_work_Ok {E} b w :
  DifficultyFacts.is_u32 (bits b) ->
  block_work (E := E) b = Ok w <-> is_Some (DifficultyFacts.target_of (bits b)) /\ w = work_of b.
Proof.
  intros Hb. unfold block_work, work_of. rewrite DifficultyFacts.to_work_spec by done. cbn [res_bind]. fold (bits b).
  destruct (DifficultyFacts.target_of (bits b)) as [t|]; cbn.
  - split; [intros [= <-]; by split|by intros [_ ->]].
  - split; [done|by intros [[] _]].
Qed.

Lemma work_range b : Difficulty.is_u256 (work_of b).
Proof.
  unfold work_of, Difficulty.is_u256. destruct (DifficultyFacts.target_of (bits b)) as [t|] eqn:Ht; [|lia].
  apply DifficultyFacts.target_of_Some in Ht as [_ Ht].
  split; [apply Z.div_pos; lia|apply Z.div_lt_upper_bound; lia].
Qed.

Lemma total_work_nonneg bs : 0 <= total_work bs.
Proof.
  induction bs as [|b bs IH]; cbn [total_work foldr]; [lia|]. unfold total_work in IH.
  pose proof (work_range b) as [? _]. lia.
Qed.

Lemma content_blocks_indep ix ix' c :
  content_of ix c -> tx_loc_by_hash ix' = tx_loc_by_hash ix -> outputs_index ix' = outputs_index ix ->
  nullifiers ix' = nullifiers ix -> content_of ix' c.
Proof. intros [] H1 H2 H3. split; by rewrite ?H1, ?H2, ?H3. Qed.

Lemma add_block_Ok ix bs b ix' :
  indexes_of ix bs -> DifficultyFacts.is_u32 (bits b) ->
  update_chain_tip_with_block_except_trees net skips ix b = Ok ix' ->
  indexes_of ix' (b :: bs) /\
  map_err ValuePoolErr
    (ValueBalance.update_chain_tip_with net (value_pools ix) (chain_value_pool_change b) (height b)
       (serialized_size (block b))) = Ok (value_pools ix').
Proof.
  intros [Hk Hh Hc Hw Hr] Hb Hup. unfold update_chain_tip_with_block_except_trees in Hup.
  apply res_bind_Ok in Hup as (w & [Ht ->]%block_work_Ok & Hup); [|done].
  apply res_bind_Ok in Hup as (w' & Hw' & Hup). unfold Difficulty.cumulative_checked_add in Hw'.
  rewrite Hw, Difficulty.u_add_law in Hw' by (done || apply work_range). apply ok_or_Ok in Hw'.
  apply to_uint_Some in Hw' as [-> Hr'].
  apply res_bind_Ok in Hup as ([] & Hnew & Hup).
  destruct (bool_decide_reflect (height_by_hash ix !! hash b = None)) as [Hnone|]; [|done].
  apply res_bind_Ok in Hup as (ix1 & H1 & Hup).
  apply (update_txs_Ok b _ 0 (hashed_transactions b) (blocks_content bs)) in H1 as (Hks & Hc1 & Hs1 & Hs2 & Hs3);
    [|by eapply content_blocks_indep].
  apply res_bind_Ok in Hup as (pools & Hp & Hup). injection Hup as <-.
  cbn [height_by_hash partial_cumulative_work value_pools] in *. rewrite Hs3 in Hp. split; [|done].
  assert (Hadd : total_work (b :: bs) = total_work bs + work_of b)
    by (unfold total_work; cbn [foldr]; lia).
  split; cbn [height_by_hash partial_cumulative_work].
  - by constructor.
  - rewrite Hs1, fmap_cons. by apply map_of_insert.
  - by eapply content_blocks_indep.
  - by rewrite Hs2, Hadd.
  - by rewrite Hadd.
Qed.

Lemma remove_block_Ok {E} ix bs b :
  indexes_of ix (b :: bs) -> content_modest (blocks_content (b :: bs)) ->
  exists ix', revert_transactions (E := E) net skips ix b = Ok ix' /\ indexes_of ix' bs /\
              content_modest (blocks_content bs) /\ value_pools ix' = value_pools ix.
Proof.
  intros [Hk Hh Hc Hw Hr] Hm. apply Forall_cons in Hk as [[Hks Hb Ht] Hk]. unfold revert_transactions.
  rewrite fmap_cons in Hh. apply map_of_delete in Hh as [Hget Hh]. rewrite Hget, bool_decide_eq_true_2 by by eexists.
  cbn [rust_assert res_bind]. rewrite (proj2 (block_work_Ok b _ Hb) (conj Ht eq_refl)). cbn [res_bind].
  unfold Difficulty.cumulative_sub, Difficulty.cumulative_checked_sub.
  rewrite Hw, Difficulty.u_sub_law by (done || apply work_range).
  assert (Hsub : total_work (b :: bs) - work_of b = total_work bs)
    by (unfold total_work; cbn [foldr]; lia).
  pose proof (total_work_nonneg bs) as H0. pose proof (work_range b) as [Hwb _].
  assert (Hr' : Difficulty.is_u256 (total_work bs)) by (unfold Difficulty.is_u256 in *; lia).
  rewrite Hsub, (proj2 (to_uint_Some 256 _ _) (conj eq_refl Hr')). cbn [expect res_bind].
  match goal with |- context [foldl _ (Ok ?s) _] => set (ix0 := s) end.
  destruct (revert_txs_Ok (E := E) b ix0 0 (hashed_transactions b) (blocks_content bs)) as
    (ix' & Hup & Hc' & Hm' & Hs1 & Hs2 & Hs3);
    [exact Hks|eapply content_blocks_indep; [exact Hc|done..]|exact Hm|]. rewrite Hup.
  subst ix0. cbn [height_by_hash partial_cumulative_work value_pools] in *. exists ix'. split; [done|]. split; [|done].
  split; [done|by rewrite Hs1|done|by rewrite Hs2|done].
Qed.

Lemma indexes_ext ix ix' bs :
  indexes_of ix bs -> indexes_of ix' bs -> value_pools ix = value_pools ix' -> ix = ix'.
Proof.
  intros [_ Hh Hc Hw _] [_ Hh' Hc' Hw' _] Hp.
  destruct ix as [m t o [n1 n2 n3 n4] w p], ix' as [m' t' o' [n1' n2' n3' n4'] w' p'], Hc, Hc'. cbn in *. subst.
  f_equal; [..|f_equal]; try (by eapply map_of_ext). by eapply outputs_ext.
Qed.
End Indexes.
End Blocks.
End ChainBlocks.
