(* ===== verification/ChainTrees.v ===== *)
(** * Treestates of a chain

    The trees of a non-finalized chain are the treestates of its blocks: adding a
    block adds the treestate that follows the one of the tip, and removing the tip
    or the root removes theirs. *)

From stdpp Require Import base numbers strings list option gmap sets sorting.
From Stdlib Require Import ZArith Lia.
From S2P Require Import Prelude Height BTree Network ValueBalance Block HeightMap SharedMap TreeIndex SpendCheck Chain.
Local Open Scope Z_scope.
Local Notation length := List.length.

Module ChainTrees.
Import Network Block SharedMap TreeIndex SpendCheck Chain.

(** What the chain relies on: two trees with the same root are the same, and a
    batch completes at most the next subtree.  [completed] counts the complete
    subtrees of a tree. *)
Class NoteTreesLaws {NT : NoteTrees} (completed : Tree -> Z) : Prop := {
  tree_root_inj t t' : tree_root t = tree_root t' -> t = t';
  append_completes pool t commitments t' subtree :
    append_batch pool t commitments = Ok (t', subtree) ->
    match subtree with
    | Some (index, _) => index = completed t /\ completed t' = completed t + 1
    | None => completed t' = completed t
    end;
}.

Section Trees.
Context {NT : NoteTrees} {completed : Tree -> Z} {NTL : NoteTreesLaws completed}.
Implicit Types (pool : Pool) (ts : Treestate) (states : list Treestate).

Definition pool_index (self : Trees) pool : TreeIndex Tree Root :=
  match pool with
  | Sprout => sprout_trees self
  | Sapling => sapling_trees self
  | Orchard => orchard_trees self
  | Ironwood => ironwood_trees self
  end.

Definition tree_of pool ts : Tree :=
  match pool with
  | Sprout => ts_sprout ts
  | Sapling => ts_sapling ts
  | Orchard => ts_orchard ts
  | Ironwood => ts_ironwood ts
  end.

(** Sprout has no subtrees. *)
Definition subtrees_of (self : Trees) pool : list Subtree :=
  match pool with
  | Sprout => []
  | Sapling => sapling_subtrees self
  | Orchard => orchard_subtrees self
  | Ironwood => ironwood_subtrees self
  end.

Definition completed_by pool ts : option Subtree :=
  match pool with
  | Sprout => None
  | Sapling => ts_sapling_subtree ts
  | Orchard => ts_orchard_subtree ts
  | Ironwood => ts_ironwood_subtree ts
  end.

(** The treestate of a block after one *)
Definition next_treestate (net : Network) ts (block : Block) (height : Z) : res ValidateContextError Treestate :=
  let next pool := map_err (fun _ => TreeErr) (update_pool pool block height (tree_of pool ts) None) in
  let? sprout := next Sprout in
  let? sapling := next Sapling in
  let? orchard := next Orchard in
  let? ironwood := next Ironwood in
  let? history :=
    map_err (fun _ => HistoryErr)
      (history_push net (ts_history ts) block (tree_root sapling.1) (tree_root orchard.1)
         (tree_root ironwood.1)) in
  Ok (mkTreestate sprout.1 sapling.1 orchard.1 ironwood.1 sapling.2 orchard.2 ironwood.2 history).

(** ** Subtrees *)

(** A treestate at [height] whose pool had the tree [t] before *)
Definition subtree_step pool (height : Z) (t : Tree) ts : Prop :=
  match completed_by pool ts with
  | Some (index, (end_height, _)) =>
      index = completed t /\ completed (tree_of pool ts) = completed t + 1 /\ end_height = height
  | None => completed (tree_of pool ts) = completed t
  end.

Fixpoint in_order pool (height : Z) (t : Tree) states : Prop :=
  match states with
  | [] => True
  | ts :: states => subtree_step pool height t ts /\ in_order pool (height + 1) (tree_of pool ts) states
  end.

Definition tip_tree pool (t : Tree) states : Tree := default t (last (tree_of pool <$> states)).

Lemma tip_tree_cons pool t ts states : tip_tree pool t (ts :: states) = tip_tree pool (tree_of pool ts) states.
Proof.
  unfold tip_tree. rewrite fmap_cons. destruct (tree_of pool <$> states) as [|u l] eqn:Hl; [done|].
  rewrite last_cons_cons. destruct (last (u :: l)) eqn:Hlast; [done|]. by apply last_None in Hlast.
Qed.

Lemma in_order_app pool height t states states' :
  in_order pool height t (states ++ states') <->
  in_order pool height t states /\
  in_order pool (height + Z.of_nat (length states)) (tip_tree pool t states) states'.
Proof.
  revert height t. induction states as [|ts states IH]; intros height t; cbn [app in_order length].
  - unfold tip_tree. cbn. rewrite Z.add_0_r. tauto.
  - rewrite IH, tip_tree_cons, Nat2Z.inj_succ. replace (height + 1 + Z.of_nat (length states))
      with (height + Z.succ (Z.of_nat (length states))) by lia. tauto.
Qed.

Lemma in_order_subtrees pool height t states :
  in_order pool height t states ->
  bt_wf (omap (completed_by pool) states) /\ completed t <= completed (tip_tree pool t states) /\
  forall s, s ∈ omap (completed_by pool) states ->
    completed t <= s.1 < completed (tip_tree pool t states) /\
    height <= s.2.1 < height + Z.of_nat (length states).
Proof.
  revert height t. induction states as [|ts states IH]; intros height t; cbn [in_order].
  - intros _. split; [constructor|]. split; [done|]. set_solver.
  - intros [Hs Hrest]. destruct (IH _ _ Hrest) as (Hwf & Hle & Hin). rewrite tip_tree_cons. cbn [omap list_omap length].
    unfold subtree_step in Hs. destruct (completed_by pool ts) as [[index [end_height node]]|].
    + destruct Hs as (-> & Hc & ->). split.
      * apply bt_wf_cons. split; [done|]. apply Forall_forall. intros s Hin'. destruct (Hin s Hin'). lia.
      * split; [lia|]. intros s [->|Hin']%elem_of_cons; [cbn; lia|]. destruct (Hin s Hin'). lia.
    + split; [done|]. split; [lia|]. intros s Hin'. destruct (Hin s Hin'). lia.
Qed.

Lemma find_none (subtrees : list Subtree) (height : Z) :
  (forall s, s ∈ subtrees -> s.2.1 <> height) -> subtree_at subtrees height = None.
Proof.
  intros Hs. unfold subtree_at. rewrite (proj2 (list_find_None _ _)); [done|].
  apply Forall_forall. exact Hs.
Qed.

Lemma find_cons (s : Subtree) subtrees (height : Z) :
  subtree_at (s :: subtrees) height = if decide (s.2.1 = height) then Some s else subtree_at subtrees height.
Proof. unfold subtree_at. cbn [list_find]. case_decide; [done|]. by destruct (list_find _ subtrees) as [[]|]. Qed.

(** The subtree of a height is the one its block completed. *)
Lemma subtree_at_height pool height t states i ts :
  in_order pool height t states -> states !! i = Some ts ->
  subtree_at (omap (completed_by pool) states) (height + Z.of_nat i) = completed_by pool ts.
Proof.
  revert height t i. induction states as [|u states IH]; intros height t i Ho Hi; [done|].
  destruct Ho as [Hs Ho]. pose proof (in_order_subtrees _ _ _ _ Ho) as (_ & _ & Hin).
  cbn [omap list_omap]. unfold subtree_step in Hs. destruct i as [|i].
  - injection Hi as ->. rewrite Z.add_0_r. destruct (completed_by pool ts) as [[index [end_height node]]|].
    + destruct Hs as (_ & _ & ->). rewrite find_cons. by rewrite decide_True.
    + apply find_none. intros s H. destruct (Hin s H). lia.
  - replace (height + Z.of_nat (S i)) with (height + 1 + Z.of_nat i) by lia.
    rewrite <- (IH _ _ _ Ho Hi). destruct (completed_by pool u) as [[index [end_height node]]|]; [|done].
    destruct Hs as (_ & _ & ->). rewrite find_cons. by rewrite decide_False by (cbn; lia).
Qed.

Lemma pop_last_in_order pool height t states ts :
  in_order pool height t (states ++ [ts]) ->
  pop_last_subtree (omap (completed_by pool) (states ++ [ts])) (height + Z.of_nat (length states))
  = omap (completed_by pool) states.
Proof.
  intros [Ho [Hs _]]%in_order_app. pose proof (in_order_subtrees _ _ _ _ Ho) as (Hwf & _ & Hin).
  rewrite omap_app. cbn [omap list_omap]. unfold subtree_step, pop_last_subtree in *.
  destruct (completed_by pool ts) as [[index [end_height node]]|].
  - destruct Hs as (-> & _ & ->). rewrite last_snoc, Z.eqb_refl. unfold bt_remove. rewrite filter_app, filter_keep.
    + rewrite filter_cons_False by (cbn; tauto). by rewrite app_nil_r.
    + intros s H. destruct (Hin s H). lia.
  - rewrite app_nil_r. destruct (last (omap (completed_by pool) states)) as [[index [end_height node]]|] eqn:Hl; [|done].
    apply last_Some_elem_of in Hl. destruct (Hin _ Hl) as [_ H]. cbn in H. by rewrite (proj2 (Z.eqb_neq _ _)) by lia.
Qed.

Lemma bt_insert_same {V} k (v : V) m : bt_wf m -> (k, v) ∈ m -> bt_insert k v m = m.
Proof.
  intros Hm Hin. apply bt_ext; [by apply bt_insert_wf|done|]. intros j. rewrite bt_get_insert by done.
  destruct (Z.eqb_spec j k) as [->|]; [|done]. symmetry. by apply bt_get_Some.
Qed.

(** The update of a pool that starts from the subtree of the tip *)
Lemma update_pool_Ok pool block height t s t' s' :
  update_pool pool block height t s = Ok (t', s') ->
  exists c, update_pool pool block height t None = Ok (t', c) /\ (s' = c \/ c = None /\ s' = s).
Proof.
  unfold update_pool. destruct (transactions block ≫= note_commitments pool) as [|c l].
  - intros [= <- <-]. exists None. auto.
  - intros H. exists s'. auto.
Qed.

Lemma update_pool_step pool block height t t' c ts :
  update_pool pool block height t None = Ok (t', c) -> tree_of pool ts = t' -> completed_by pool ts = c ->
  subtree_step pool height t ts.
Proof.
  unfold subtree_step, update_pool. intros Hup -> ->.
  destruct (transactions block ≫= note_commitments pool) as [|x l]; [by injection Hup as <- <-|].
  apply res_bind_Ok in Hup as ([u [[index node]|]] & Ha & Hup); injection Hup as <- <-;
    apply append_completes in Ha; cbn in *; [|done]. split_and!; [apply Ha..|done].
Qed.

Lemma insert_subtree_Ok pool height t states ts s' :
  in_order pool height t (states ++ [ts]) ->
  (s' = completed_by pool ts \/ completed_by pool ts = None /\
     forall s, s' = Some s -> s ∈ omap (completed_by pool) states) ->
  insert_subtree (omap (completed_by pool) states) s' = omap (completed_by pool) (states ++ [ts]).
Proof.
  intros [Ho [Hs _]]%in_order_app Hc. pose proof (in_order_subtrees _ _ _ _ Ho) as (Hwf & _ & Hin).
  rewrite omap_app. cbn [omap list_omap]. unfold subtree_step, insert_subtree in *.
  destruct Hc as [->|[-> Hs']].
  - destruct (completed_by pool ts) as [[index [end_height node]]|]; [|by rewrite app_nil_r].
    destruct Hs as (-> & _ & _). apply bt_insert_last, Forall_forall. intros s H. destruct (Hin s H). lia.
  - rewrite app_nil_r. destruct s' as [[index data]|]; [|done]. apply bt_insert_same; [done|]. by apply Hs'.
Qed.

(** ** The trees of a chain *)

(** The trees of the treestates [old] and [new], from the height [base] on; [new]
    are those of the blocks of the chain. *)
Record trees_of (self : Trees) (base : Z) (old new : list Treestate) : Prop := {
  t_index pool : index_of tree_root (pool_index self pool) base (tree_of pool <$> old ++ new);
  t_by_anchor pool : is_Some (trees_by_anchor (pool_index self pool)) <-> pool = Sprout;
  t_subtrees pool : pool <> Sprout -> subtrees_of self pool = omap (completed_by pool) new;
  t_history : history_trees_by_height self = at_heights base (ts_history <$> old ++ new);
}.

Lemma all_anchored idx (ts : list Tree) : anchored tree_root idx ts.
Proof. intros _ t t' _ _. apply tree_root_inj. Qed.

Lemma add_pool_Ok {E} self base old new pool ts idx :
  trees_of self base old new -> 0 <= base -> base + Z.of_nat (length (old ++ new)) <= Height.MAX ->
  add_tree_and_anchor (E := E) tree_root (pool_index self pool) (base + Z.of_nat (length (old ++ new)))
    (tree_of pool ts) = Ok idx ->
  index_of tree_root idx base (tree_of pool <$> old ++ new ++ [ts]) /\
  (is_Some (trees_by_anchor idx) <-> pool = Sprout) /\
  forall E', tree_for_tip (E := E') idx = Ok (tree_of pool ts).
Proof.
  intros Ht Hb Hmax Hadd.
  destruct (add_tree_Ok (E := E) tree_root (pool_index self pool) base (tree_of pool <$> old ++ new) (tree_of pool ts))
    as (idx' & Hadd' & Hi & Ha); [apply Ht|apply all_anchored|done|by rewrite length_fmap|].
  rewrite length_fmap, Hadd in Hadd'. injection Hadd' as <-.
  split; [by rewrite app_assoc, (fmap_app _ (old ++ new))|].
  split; [rewrite Ha; apply Ht|]. intros E'. by eapply tree_for_tip_index.
Qed.

Lemma tip_trees {E} self base old new ts pool :
  trees_of self base old new -> last (old ++ new) = Some ts ->
  tree_for_tip (E := E) (pool_index self pool) = Ok (tree_of pool ts).
Proof.
  intros Ht [all Hl]%last_Some. pose proof (t_index _ _ _ _ Ht pool) as Hi. rewrite Hl, fmap_app in Hi.
  by eapply tree_for_tip_index.
Qed.

Lemma subtree_for_tip_elem (subtrees : list Subtree) tip s : subtree_for_tip subtrees tip = Some s -> s ∈ subtrees.
Proof.
  destruct tip as [tip|]; [|done]. cbn. unfold subtree_at. intros H.
  destruct (list_find _ subtrees) as [[i x]|] eqn:Hf; [|done]. injection H as ->.
  apply list_find_Some in Hf as (Hi & _ & _). by eapply list_elem_of_lookup_2.
Qed.

Lemma next_treestate_step net ts block height ts' pool :
  next_treestate net ts block height = Ok ts' -> pool <> Sprout ->
  subtree_step pool height (tree_of pool ts) ts'.
Proof.
  unfold next_treestate. intros H Hp. cbn zeta in H. res_inv.
  repeat match goal with H : update_pool _ _ _ _ _ = Ok ?x |- _ => is_var x; destruct x end.
  destruct pool; [done|..]; by eapply update_pool_step.
Qed.

Lemma history_tip {E} self base old new ts :
  trees_of self base old new -> last (old ++ new) = Some ts -> history_tree_for_tip (E := E) self = Ok (ts_history ts).
Proof.
  intros Ht [all Hl]%last_Some. unfold history_tree_for_tip. rewrite (t_history _ _ _ _ Ht), Hl, fmap_app, at_heights_app.
  cbn [fmap list_fmap at_heights]. by rewrite last_snoc.
Qed.

Definition nct_tree pool (nct : NoteCommitmentTrees) : Tree :=
  match pool with
  | Sprout => sprout nct
  | Sapling => sapling nct
  | Orchard => orchard nct
  | Ironwood => ironwood nct
  end.

Definition nct_subtree pool (nct : NoteCommitmentTrees) : option Subtree :=
  match pool with
  | Sprout => None
  | Sapling => sapling_subtree nct
  | Orchard => orchard_subtree nct
  | Ironwood => ironwood_subtree nct
  end.

(** The trees of the tip with the notes of a block; a pool without notes keeps the
    subtree of the tip. *)
Lemma update_trees_Ok self base old new ts block height tip nct nct' :
  trees_of self base old new -> last (old ++ new) = Some ts -> coinbase_height block = Some height ->
  trees_for_tip (E := ValidateContextError) self tip = Ok nct -> update_trees_parallel nct block = Ok nct' ->
  exists f : Pool -> option Subtree, forall pool,
    update_pool pool block height (tree_of pool ts) None = Ok (nct_tree pool nct', f pool) /\
    (pool <> Sprout ->
     nct_subtree pool nct' = f pool \/
     f pool = None /\ forall s, nct_subtree pool nct' = Some s -> s ∈ subtrees_of self pool).
Proof.
  intros Ht Hts Hcb Htip Hup. unfold trees_for_tip in Htip.
  rewrite (tip_trees self base old new ts Sprout Ht Hts : tree_for_tip (sprout_trees self) = _) in Htip.
  rewrite (tip_trees self base old new ts Sapling Ht Hts : tree_for_tip (sapling_trees self) = _) in Htip.
  rewrite (tip_trees self base old new ts Orchard Ht Hts : tree_for_tip (orchard_trees self) = _) in Htip.
  rewrite (tip_trees self base old new ts Ironwood Ht Hts : tree_for_tip (ironwood_trees self) = _) in Htip.
  injection Htip as <-. unfold update_trees_parallel in Hup. rewrite Hcb in Hup. cbn [expect res_bind] in Hup.
  apply res_bind_Ok in Hup as ([u1 s1] & H1 & Hup). apply res_bind_Ok in Hup as ([u2 s2] & H2 & Hup).
  apply res_bind_Ok in Hup as ([u3 s3] & H3 & Hup). apply res_bind_Ok in Hup as ([u4 s4] & H4 & Hup).
  injection Hup as <-.
  apply update_pool_Ok in H1 as (c1 & H1 & _). apply update_pool_Ok in H2 as (c2 & H2 & Hc2).
  apply update_pool_Ok in H3 as (c3 & H3 & Hc3). apply update_pool_Ok in H4 as (c4 & H4 & Hc4).
  exists (fun pool => match pool with Sprout => c1 | Sapling => c2 | Orchard => c3 | Ironwood => c4 end).
  intros []; (split; [done|]); [done|..]; intros _; cbn [nct_subtree sapling_subtree orchard_subtree ironwood_subtree];
    [destruct Hc2 as [->|[-> ->]]|destruct Hc3 as [->|[-> ->]]|destruct Hc4 as [->|[-> ->]]]; try (by left);
    right; (split; [done|]); apply subtree_for_tip_elem.
Qed.

(** A new block extends the trees by the treestate after that of the tip. *)
Lemma add_trees_Ok net self base old new ts t0 block tip nct nct' self' :
  let height := base + Z.of_nat (length (old ++ new)) in
  trees_of self base old new -> last (old ++ new) = Some ts -> 0 <= base -> height <= Height.MAX ->
  (forall pool, pool <> Sprout ->
     in_order pool (base + Z.of_nat (length old)) (t0 pool) new /\ tip_tree pool (t0 pool) new = tree_of pool ts) ->
  coinbase_height block = Some height ->
  trees_for_tip (E := ValidateContextError) self tip = Ok nct -> update_trees_parallel nct block = Ok nct' ->
  add_trees net self nct' block height = Ok self' ->
  exists ts', next_treestate net ts block height = Ok ts' /\ trees_of self' base old (new ++ [ts']).
Proof.
  intros height Ht Hts Hb Hmax Ho Hcb Htip Hup Hadd.
  destruct (update_trees_Ok _ _ _ _ _ _ _ _ _ _ Ht Hts Hcb Htip Hup) as [f Hf].
  unfold add_trees in Hadd.
  apply res_bind_Ok in Hadd as (i1 & A1 & Hadd). apply res_bind_Ok in Hadd as (i2 & A2 & Hadd).
  apply res_bind_Ok in Hadd as (i3 & A3 & Hadd). apply res_bind_Ok in Hadd as (i4 & A4 & Hadd).
  apply res_bind_Ok in Hadd as (r2 & R2 & Hadd). apply res_bind_Ok in Hadd as (r3 & R3 & Hadd).
  apply res_bind_Ok in Hadd as (r4 & R4 & Hadd). apply res_bind_Ok in Hadd as (h0 & H0 & Hadd).
  rewrite (history_tip self base old new ts Ht Hts) in H0. injection H0 as <-.
  apply res_bind_Ok in Hadd as (h1 & H1 & Hadd). apply res_bind_Ok in Hadd as (hs & Hs & Hadd). injection Hadd as <-.
  set (ts' := mkTreestate (sprout nct') (sapling nct') (orchard nct') (ironwood nct') (f Sapling) (f Orchard)
    (f Ironwood) h1). exists ts'.
  destruct (add_pool_Ok self base old new Sprout ts' i1 Ht Hb Hmax A1) as (I1 & B1 & _).
  destruct (add_pool_Ok self base old new Sapling ts' i2 Ht Hb Hmax A2) as (I2 & B2 & T2).
  destruct (add_pool_Ok self base old new Orchard ts' i3 Ht Hb Hmax A3) as (I3 & B3 & T3).
  destruct (add_pool_Ok self base old new Ironwood ts' i4 Ht Hb Hmax A4) as (I4 & B4 & T4).
  rewrite T2 in R2. rewrite T3 in R3. rewrite T4 in R4. injection R2 as <-. injection R3 as <-. injection R4 as <-.
  assert (Hnext : next_treestate net ts block height = Ok ts').
  { unfold next_treestate. cbn zeta.
    rewrite (proj1 (Hf Sprout)), (proj1 (Hf Sapling)), (proj1 (Hf Orchard)), (proj1 (Hf Ironwood)).
    cbn [map_err res_bind fst snd nct_tree]. cbn [tree_of ts_sapling ts_orchard ts_ironwood ts'] in H1. by rewrite H1. }
  split; [done|]. split.
  - by intros [].
  - by intros [].
  - intros pool Hp. destruct (Ho pool Hp) as [Hord Htree].
    assert (Hc : completed_by pool ts' = f pool) by by destruct pool.
    rewrite <- (insert_subtree_Ok pool (base + Z.of_nat (length old)) (t0 pool) new ts' (nct_subtree pool nct')).
    + rewrite <- (t_subtrees _ _ _ _ Ht pool Hp). by destruct pool.
    + apply in_order_app. split; [done|]. split; [|done]. rewrite Htree.
      replace (base + Z.of_nat (length old) + Z.of_nat (length new)) with height
        by (unfold height; rewrite length_app; lia).
      by eapply next_treestate_step.
    + rewrite Hc, <- (t_subtrees _ _ _ _ Ht pool Hp). by apply Hf.
  - cbn [history_trees_by_height]. rewrite insert_new_last in Hs.
    + injection Hs as <-. rewrite (t_history _ _ _ _ Ht), (app_assoc old), (fmap_app _ (old ++ new)), at_heights_app.
      by rewrite length_fmap.
    + rewrite (t_history _ _ _ _ Ht). intros [k x] Hin%at_heights_keys. rewrite length_fmap in Hin. cbn. lia.
Qed.

(** ** Reverting *)

Definition with_subtrees (self : Trees) (f : list Subtree -> list Subtree) : Trees :=
  mkChainTrees (sprout_trees self) (sapling_trees self) (orchard_trees self) (ironwood_trees self)
    (f (sapling_subtrees self)) (f (orchard_subtrees self)) (f (ironwood_subtrees self))
    (history_trees_by_height self).

Lemma trees_fmap_snoc pool old new ts :
  tree_of pool <$> old ++ new ++ [ts] = (tree_of pool <$> old ++ new) ++ [tree_of pool ts].
Proof. by rewrite app_assoc, (fmap_app _ (old ++ new)). Qed.

Lemma remove_pool_tip {E} self base old new ts pool tip :
  trees_of self base old (new ++ [ts]) ->
  (forall k, tip = Some k -> k < base + Z.of_nat (length (old ++ new))) ->
  exists idx, remove_tree_and_anchor (E := E) (pool_index self pool) ValueBalance.Tip
      (base + Z.of_nat (length (old ++ new))) tip = Ok idx /\
    index_of tree_root idx base (tree_of pool <$> old ++ new) /\ (is_Some (trees_by_anchor idx) <-> pool = Sprout).
Proof.
  intros Ht Htip. pose proof (t_index _ _ _ _ Ht pool) as Hi. rewrite trees_fmap_snoc in Hi.
  destruct (remove_tip_Ok (E := E) tree_root _ base _ _ tip Hi) as (idx & Hr & Hidx & Ha);
    [apply all_anchored|by rewrite length_fmap|]. rewrite length_fmap in Hr.
  exists idx. split; [done|]. split; [done|]. rewrite Ha. apply Ht.
Qed.

(** Removing the tip removes its treestate. *)
Lemma remove_tip_trees {E} self base old new ts t0 tip :
  let height := base + Z.of_nat (length (old ++ new)) in
  trees_of self base old (new ++ [ts]) ->
  (forall pool, pool <> Sprout -> in_order pool (base + Z.of_nat (length old)) (t0 pool) (new ++ [ts])) ->
  (forall k, tip = Some k -> k < height) ->
  exists self', remove_trees (E := E) (with_subtrees self (fun l => pop_last_subtree l height)) ValueBalance.Tip
      height tip = Ok self' /\ trees_of self' base old new.
Proof.
  intros height Ht Ho Htip. unfold remove_trees.
  destruct (remove_pool_tip (E := E) self base old new ts Sprout tip Ht Htip) as (i1 & R1 & I1 & B1).
  destruct (remove_pool_tip (E := E) self base old new ts Sapling tip Ht Htip) as (i2 & R2 & I2 & B2).
  destruct (remove_pool_tip (E := E) self base old new ts Orchard tip Ht Htip) as (i3 & R3 & I3 & B3).
  destruct (remove_pool_tip (E := E) self base old new ts Ironwood tip Ht Htip) as (i4 & R4 & I4 & B4).
  cbn [with_subtrees sprout_trees sapling_trees orchard_trees ironwood_trees pool_index] in *. fold height in R1, R2, R3, R4.
  rewrite R1, R2, R3, R4. cbn [res_bind remove_history_tree with_subtrees history_trees_by_height].
  destruct (at_heights_snoc_get base (ts_history <$> old ++ new) (ts_history ts)) as [Hget Hrem].
  rewrite length_fmap in Hget, Hrem. fold height in Hget, Hrem. rewrite (t_history _ _ _ _ Ht), app_assoc, fmap_app.
  cbn [fmap list_fmap]. unfold bt_contains_key. rewrite Hget. cbn [is_Some rust_assert res_bind].
  eexists. split; [done|]. split.
  - by intros [].
  - by intros [].
  - intros pool Hp. pose proof (pop_last_in_order pool _ _ _ _ (Ho pool Hp)) as Hpop.
    replace (base + Z.of_nat (length old) + Z.of_nat (length new)) with height in Hpop
      by (unfold height; rewrite length_app; lia).
    rewrite <- (t_subtrees _ _ _ _ Ht pool Hp) in Hpop. by destruct pool.
  - done.
Qed.

(** The treestate of each block of the chain *)
Lemma treestate_at self base old new t0 i ts :
  trees_of self base old new ->
  (forall pool, pool <> Sprout -> in_order pool (base + Z.of_nat (length old)) (t0 pool) new) ->
  new !! i = Some ts -> treestate self (base + Z.of_nat (length old) + Z.of_nat i) = Some ts.
Proof.
  intros Ht Ho Hi. set (h := base + Z.of_nat (length old) + Z.of_nat i).
  assert (Hlen : (i < length new)%nat) by by eapply lookup_lt_Some.
  assert (Hlook : (old ++ new) !! Z.to_nat (h - base) = Some ts).
  { replace (Z.to_nat (h - base)) with (length old + i)%nat by lia. rewrite lookup_app_r by lia.
    by replace (length old + i - length old)%nat with i by lia. }
  assert (Htree : forall pool, tree_at (pool_index self pool) h = Some (tree_of pool ts)).
  { intros pool. rewrite (tree_at_index tree_root _ base _ h (t_index _ _ _ _ Ht pool)).
    - by rewrite list_lookup_fmap, Hlook.
    - rewrite length_fmap, length_app. lia. }
  assert (Hsub : forall pool, pool <> Sprout -> subtree_at (subtrees_of self pool) h = completed_by pool ts).
  { intros pool Hp. rewrite (t_subtrees _ _ _ _ Ht pool Hp). by apply (subtree_at_height _ _ (t0 pool)); [apply Ho|]. }
  assert (Hhist : bt_get h (history_trees_by_height self) = Some (ts_history ts)).
  { rewrite (t_history _ _ _ _ Ht). apply bt_get_Some; [apply at_heights_wf|].
    apply list_elem_of_split_length in Hlook as (l1 & l2 & -> & Hl1). rewrite fmap_app, at_heights_app. cbn [fmap list_fmap at_heights].
    apply elem_of_app. right. rewrite length_fmap. replace (base + Z.of_nat (length l1)) with h by lia. left. }
  unfold treestate.
  rewrite (Htree Sprout : tree_at (sprout_trees self) h = _), (Htree Sapling : tree_at (sapling_trees self) h = _),
    (Htree Orchard : tree_at (orchard_trees self) h = _), (Htree Ironwood : tree_at (ironwood_trees self) h = _).
  cbn [mbind option_bind]. rewrite Hhist. cbn [mbind option_bind].
  rewrite (Hsub Sapling ltac:(done) : subtree_at (sapling_subtrees self) h = _),
    (Hsub Orchard ltac:(done) : subtree_at (orchard_subtrees self) h = _),
    (Hsub Ironwood ltac:(done) : subtree_at (ironwood_subtrees self) h = _).
  by destruct ts.
Qed.

Lemma remove_pool_root {E} self base old ts new pool tip :
  let height := base + Z.of_nat (length old) in
  trees_of self base old (ts :: new) -> 0 <= base -> height + Z.of_nat (length new) <= Height.MAX ->
  tip = match new with [] => None | _ => Some (height + Z.of_nat (length new)) end ->
  exists idx, remove_tree_and_anchor (E := E) (pool_index self pool) ValueBalance.Root height tip = Ok idx /\
    index_of tree_root idx (height + 1) (tree_of pool <$> new) /\ (is_Some (trees_by_anchor idx) <-> pool = Sprout).
Proof.
  intros height Ht Hb Hmax Htip. pose proof (t_index _ _ _ _ Ht pool) as Hi.
  rewrite fmap_app, fmap_cons in Hi.
  destruct (remove_root_Ok (E := E) tree_root _ base _ _ _ tip Hi) as (idx & Hr & Hidx & Ha);
    [apply all_anchored|done|by rewrite !length_fmap|by rewrite !length_fmap, Htip; destruct new|].
  rewrite length_fmap in Hr, Hidx. exists idx. split; [done|]. split; [done|]. rewrite Ha. apply Ht.
Qed.

(** Removing the root removes its treestate, and those before it. *)
Lemma remove_root_trees {E} self base old ts new tip :
  let height := base + Z.of_nat (length old) in
  trees_of self base old (ts :: new) -> 0 <= base -> height + Z.of_nat (length new) <= Height.MAX ->
  tip = match new with [] => None | _ => Some (height + Z.of_nat (length new)) end ->
  exists self',
    remove_trees (E := E)
      (mkChainTrees (sprout_trees self) (sapling_trees self) (orchard_trees self) (ironwood_trees self)
         (pop_first_subtree (sapling_subtrees self) (ts_sapling_subtree ts))
         (pop_first_subtree (orchard_subtrees self) (ts_orchard_subtree ts))
         (pop_first_subtree (ironwood_subtrees self) (ts_ironwood_subtree ts)) (history_trees_by_height self))
      ValueBalance.Root height tip = Ok self' /\ trees_of self' (height + 1) [] new.
Proof.
  intros height Ht Hb Hmax Htip. unfold remove_trees.
  destruct (remove_pool_root (E := E) self base old ts new Sprout tip Ht Hb Hmax Htip) as (i1 & R1 & I1 & B1).
  destruct (remove_pool_root (E := E) self base old ts new Sapling tip Ht Hb Hmax Htip) as (i2 & R2 & I2 & B2).
  destruct (remove_pool_root (E := E) self base old ts new Orchard tip Ht Hb Hmax Htip) as (i3 & R3 & I3 & B3).
  destruct (remove_pool_root (E := E) self base old ts new Ironwood tip Ht Hb Hmax Htip) as (i4 & R4 & I4 & B4).
  cbn [sprout_trees sapling_trees orchard_trees ironwood_trees pool_index] in *. fold height in R1, R2, R3, R4.
  rewrite R1, R2, R3, R4. cbn [res_bind remove_history_tree history_trees_by_height].
  eexists. split; [done|]. split.
  - by intros [].
  - by intros [].
  - intros pool Hp. pose proof (t_subtrees _ _ _ _ Ht pool Hp) as Hs. cbn [omap list_omap] in Hs.
    assert (Hpop : pop_first_subtree (subtrees_of self pool) (completed_by pool ts) = omap (completed_by pool) new)
      by (rewrite Hs; by destruct (completed_by pool ts)).
    by destruct pool.
  - cbn [history_trees_by_height app]. rewrite (t_history _ _ _ _ Ht), fmap_app, fmap_cons, at_heights_app.
    cbn [at_heights]. rewrite length_fmap. fold height. rewrite filter_app, filter_cons_False by (cbn; lia).
    rewrite (filter_keep _ (at_heights (height + 1) _)); [|intros [k x] Hin%at_heights_keys; cbn; lia].
    rewrite filter_none; [done|]. intros [k x] Hin%at_heights_keys. rewrite length_fmap in Hin. cbn. lia.
Qed.

Lemma index_ext (i i' : TreeIndex Tree Root) base (ts : list Tree) :
  index_of tree_root i base ts -> index_of tree_root i' base ts ->
  (is_Some (trees_by_anchor i) <-> is_Some (trees_by_anchor i')) -> i = i'.
Proof.
  intros [H1 H2 H3 H4] [H1' H2' H3' H4'] Ha. destruct i as [a b c d], i' as [a' b' c' d']. cbn in *. subst. f_equal.
  destruct d as [m|], d' as [m'|]; [|by destruct Ha as [Ha _]; destruct Ha|by destruct Ha as [_ Ha]; destruct Ha|done].
  f_equal. apply map_eq. intros r. apply option_eq. intros t. by rewrite H4, H4'.
Qed.

Lemma trees_ext (self self' : Trees) base old new :
  trees_of self base old new -> trees_of self' base old new -> self = self'.
Proof.
  intros Ht Ht'.
  assert (Hi : forall pool, pool_index self pool = pool_index self' pool).
  { intros pool. eapply index_ext; [apply Ht|apply Ht'|]. by rewrite (t_by_anchor _ _ _ _ Ht), (t_by_anchor _ _ _ _ Ht'). }
  assert (Hs : forall pool, pool <> Sprout -> subtrees_of self pool = subtrees_of self' pool).
  { intros pool Hp. by rewrite (t_subtrees _ _ _ _ Ht pool Hp), (t_subtrees _ _ _ _ Ht' pool Hp). }
  pose proof (Hi Sprout). pose proof (Hi Sapling). pose proof (Hi Orchard). pose proof (Hi Ironwood).
  pose proof (Hs Sapling ltac:(done)). pose proof (Hs Orchard ltac:(done)). pose proof (Hs Ironwood ltac:(done)).
  pose proof (t_history _ _ _ _ Ht). pose proof (t_history _ _ _ _ Ht').
  destruct self, self'. cbn in *. congruence.
Qed.

(** [Chain::new] has the trees of the finalized tip. *)
Lemma new_trees_Ok {E} height ts idx pool :
  (pool = Sprout -> idx = no_sprout_trees) -> (pool <> Sprout -> idx = no_trees) -> 0 <= height <= Height.MAX ->
  exists idx', add_tree_and_anchor (E := E) tree_root idx height (tree_of pool ts) = Ok idx' /\
    index_of tree_root idx' height [tree_of pool ts] /\ (is_Some (trees_by_anchor idx') <-> pool = Sprout).
Proof.
  intros Hs Hn Hh.
  assert (Hempty : index_of tree_root idx height [] /\ (is_Some (trees_by_anchor idx) <-> pool = Sprout)).
  { destruct pool; [rewrite Hs by done|rewrite Hn by done..]; (split; [split; [done|done|done|]|]);
      try (intros m [= <-] r t; rewrite lookup_empty; set_solver); try (intros m [=]); cbn; split; try done;
      try (by intros []); by eexists. }
  destruct Hempty as [Hi Ha].
  destruct (add_tree_Ok (E := E) tree_root idx height [] (tree_of pool ts) Hi (all_anchored _ _))
    as (idx' & Hadd & Hi' & Ha'); [lia|cbn; lia|]. cbn in Hadd. rewrite Z.add_0_r in Hadd.
  exists idx'. split; [done|]. split; [done|]. by rewrite Ha'.
Qed.
End Trees.
End ChainTrees.
