(* ===== verification/ChainRun.v ===== *)
(** * Runs of a chain

    A non-finalized chain, reached by adding blocks and removing them from either
    end, is the list of its blocks: each with the treestate and the value pools
    after it, and the indexes those of the blocks. *)

From stdpp Require Import base numbers strings list option gmap sets sorting.
From Stdlib Require Import ZArith Lia.
From S2P Require Import Prelude Height Amount BTree Network ValueBalance ValuePools Difficulty DifficultyFacts Block SharedMap TreeIndex SpendCheck Chain ChainContent ChainBlocks ChainTrees.
Local Open Scope Z_scope.
Local Notation length := List.length.

Module ChainRun.
Import Amount Network Block SharedMap TreeIndex SpendCheck Chain ChainBlocks ChainTrees.

Section Run.
Context {U : Difficulty.U256} {UL : Difficulty.U256Laws U}.
Context {NT : NoteTrees} {completed : Tree -> Z} {NTL : NoteTreesLaws completed}.
Context (net : Network) (Hnet : net_wf net).

(** ** The contract of a chain *)

(** A block with the treestate and the pools after it *)
Record Link := mkLink {
  l_block : ContextuallyVerifiedBlock;
  l_state : Treestate;
  l_pools : ValueBalance.ValueBalance NonNegative;
}.

(** A block that has been verified for a height *)
Record candidate (b : ContextuallyVerifiedBlock) (h : Z) : Prop := {
  cd_height : height b = h;
  cd_coinbase : coinbase_height (block b) = Some h;
  cd_valid : 0 <= h <= Height.MAX;
  cd_bits : DifficultyFacts.is_u32 (bits b);
  cd_change : ValuePools.block_change net h (chain_value_pool_change b);
}.

(** Each link follows from the state and the pools before it. *)
Fixpoint linked (h : Z) (ts : Treestate) (p : ValueBalance.ValueBalance NonNegative) (ls : list Link) : Prop :=
  match ls with
  | [] => True
  | l :: ls =>
      candidate (l_block l) h /\
      next_treestate net ts (block (l_block l)) h = Ok (l_state l) /\
      ValueBalance.update_pools net p (chain_value_pool_change (l_block l)) h = Ok (l_pools l) /\
      linked (h + 1) (l_state l) (l_pools l) ls
  end.

Definition tip_state (ts : Treestate) (ls : list Link) : Treestate := default ts (last (l_state <$> ls)).

Definition tip_pools (p : ValueBalance.ValueBalance NonNegative) (ls : list Link)
  : ValueBalance.ValueBalance NonNegative := default p (last (l_pools <$> ls)).

Lemma last_default_cons {A B} (f : A -> B) d x (l : list A) :
  default d (last (f <$> x :: l)) = default (f x) (last (f <$> l)).
Proof.
  rewrite fmap_cons. destruct (f <$> l) as [|y k]; [done|]. rewrite last_cons_cons.
  destruct (last (y :: k)) eqn:Hl; [done|]. by apply last_None in Hl.
Qed.

Lemma linked_app h ts p ls ls' :
  linked h ts p (ls ++ ls') <->
  linked h ts p ls /\ linked (h + Z.of_nat (length ls)) (tip_state ts ls) (tip_pools p ls) ls'.
Proof.
  revert h ts p. induction ls as [|l ls IH]; intros h ts p; cbn [app linked length].
  - rewrite Z.add_0_r. unfold tip_state, tip_pools. cbn. tauto.
  - rewrite IH. unfold tip_state, tip_pools. rewrite !last_default_cons, Nat2Z.inj_succ.
    replace (h + 1 + Z.of_nat (length ls)) with (h + Z.succ (Z.of_nat (length ls))) by lia. tauto.
Qed.

Lemma linked_in_order h ts p ls pool :
  linked h ts p ls -> pool <> Sprout -> in_order (completed := completed) pool h (tree_of pool ts) (l_state <$> ls).
Proof.
  intros Hl Hp. revert h ts p Hl. induction ls as [|l ls IH]; intros h ts p; [done|].
  intros (_ & Hnext & _ & Hl). rewrite fmap_cons. split; [by eapply next_treestate_step|by eapply IH].
Qed.

(** ** A chain and its links *)

(** Where a chain starts: the height and the treestates of the tree indexes before
    its blocks, and the state and the pools before them *)
Record Base := mkBase {
  b_index : Z;
  b_old : list Treestate;
  b_state : Treestate;
  b_pools : ValueBalance.ValueBalance NonNegative;
}.

Definition root_height (b : Base) : Z := b_index b + Z.of_nat (length (b_old b)).

Record base_wf (b : Base) : Prop := {
  bw_index : 0 <= b_index b;
  bw_old : b_old b = [] \/ b_old b = [b_state b];
  bw_pools : ValuePools.pools_ok (b_pools b);
  bw_nsm : ValuePools.nsm_inv net (root_height b) (b_pools b);
}.

Definition info_of (l : Link) : ValueBalance.ValueBalance NonNegative * Z :=
  (l_pools l, serialized_size (block (l_block l)) mod 2 ^ 32).

Record chain_of (c : Chain) (b : Base) (ls : list Link) : Prop := {
  c_network : network c = net;
  c_base : base_wf b;
  c_linked : linked (root_height b) (b_state b) (b_pools b) ls;
  c_blocks : blocks c = at_heights (root_height b) (l_block <$> ls);
  c_indexes : indexes_of net (skips_transparent_address_index c) (indexes c) (l_block <$> ls);
  c_trees : trees_of (trees c) (b_index b) (b_old b) (l_state <$> ls);
  c_pools : value_pools (indexes c) =
    ValueBalance.mkChain (tip_pools (b_pools b) ls) (at_heights (root_height b) (info_of <$> ls));
}.

Lemma pools_inv h ts p ls :
  linked h ts p ls -> 0 <= h -> ValuePools.pools_ok p -> ValuePools.nsm_inv net h p ->
  ValuePools.pools_ok (tip_pools p ls) /\ ValuePools.nsm_inv net (h + Z.of_nat (length ls)) (tip_pools p ls).
Proof.
  revert h ts p. induction ls as [|l ls IH]; intros h ts p Hl Hh Hok Hinv.
  - cbn. by rewrite Z.add_0_r.
  - destruct Hl as ([_ _ Hv _ Hch] & _ & Hup & Hl).
    destruct (ValuePools.update_inv net p _ h _ Hnet Hv Hok Hinv Hch Hup) as [Hok' Hinv'].
    unfold tip_pools. rewrite last_default_cons. cbn [length]. rewrite Nat2Z.inj_succ.
    replace (h + Z.succ (Z.of_nat (length ls))) with (h + 1 + Z.of_nat (length ls)) by lia.
    by apply (IH _ _ _ Hl); [lia|..].
Qed.

Lemma root_nonneg b : base_wf b -> 0 <= root_height b.
Proof. intros [? _ _ _]. unfold root_height. lia. Qed.

Lemma at_heights_last {A} base (l : list A) x :
  last (at_heights base (l ++ [x])) = Some (base + Z.of_nat (length l), x).
Proof. rewrite at_heights_app. cbn [at_heights]. by rewrite last_snoc. Qed.

Lemma at_heights_last_lt {A} base (l : list A) k :
  last (at_heights base l).*1 = Some k -> k < base + Z.of_nat (length l).
Proof.
  rewrite fmap_last. destruct (last (at_heights base l)) as [[k' x]|] eqn:Hlast; [|done]. intros [= ->].
  apply last_Some_elem_of, at_heights_keys in Hlast. lia.
Qed.

Lemma bt_insert_height {A} base (l : list A) k x :
  k = base + Z.of_nat (length l) -> bt_insert k x (at_heights base l) = at_heights base (l ++ [x]).
Proof.
  intros ->. rewrite at_heights_app. apply bt_insert_last, Forall_forall. intros [j y] Hin%at_heights_keys. cbn. lia.
Qed.

Lemma max_height c b ls :
  chain_of c b ls -> max_block_height c =
    match ls with [] => None | _ => Some (root_height b + Z.of_nat (length ls) - 1) end.
Proof.
  intros Hc. unfold max_block_height. rewrite (c_blocks _ _ _ Hc), fmap_last.
  destruct ls as [|l ls'] using rev_ind; [done|]. rewrite fmap_app. cbn [fmap list_fmap].
  rewrite at_heights_last, length_fmap, length_app. destruct ls'; cbn; f_equal; lia.
Qed.

(** ** Adding a block *)

Lemma tip_or_empty b ls :
  base_wf b -> b_old b ++ (l_state <$> ls) = [] \/ last (b_old b ++ (l_state <$> ls)) = Some (tip_state (b_state b) ls).
Proof.
  intros [_ Hold _ _]. unfold tip_state. destruct ls as [|l ls' _] using rev_ind.
  - cbn. destruct Hold as [->| ->]; [by left|by right].
  - right. rewrite fmap_app. cbn [fmap list_fmap]. by rewrite app_assoc, !last_snoc.
Qed.

Lemma tip_tree_state pool ts (ls : list Link) :
  tip_tree pool (tree_of pool ts) (l_state <$> ls) = tree_of pool (tip_state ts ls).
Proof. unfold tip_tree, tip_state. rewrite fmap_last. by destruct (last (l_state <$> ls)). Qed.

Lemma index_height b (ls : list Link) :
  b_index b + Z.of_nat (length (b_old b ++ (l_state <$> ls))) = root_height b + Z.of_nat (length ls).
Proof. unfold root_height. rewrite length_app, length_fmap. lia. Qed.

Lemma trees_tip_nonempty {E} self base tip nct : trees_of self base [] [] -> trees_for_tip (E := E) self tip <> Ok nct.
Proof.
  intros Ht. unfold trees_for_tip, tree_for_tip. pose proof (t_index _ _ _ _ Ht Sprout) as Hi.
  cbn [pool_index] in Hi. by rewrite (i_trees _ _ _ _ Hi).
Qed.

Lemma push_Ok c b ls blk c' :
  chain_of c b ls -> candidate blk (root_height b + Z.of_nat (length ls)) -> push c blk = Ok c' ->
  exists l, l_block l = blk /\ chain_of c' b (ls ++ [l]) /\ precious c' = precious c /\
            skips_transparent_address_index c' = skips_transparent_address_index c.
Proof.
  intros Hc Hcand Hpush. pose proof Hc as [Hn Hb Hl Hbl Hix Ht Hp]. pose proof Hcand as [Hh Hcb Hv Hbits Hch].
  unfold push in Hpush. apply res_bind_Ok in Hpush as (c1 & Hup & Hpush). injection Hpush as <-.
  unfold update_chain_tip_with in Hup. cbn zeta in Hup. apply res_bind_Ok in Hup as (nct & Htip & Hup).
  destruct (update_chain_tip_with_block_except_trees _ _ _ _) as [ix|e|] eqn:Hpart in Hup;
    [|by apply res_bind_Ok in Hup as (? & _ & Hup)|done].
  apply res_bind_Ok in Hup as (nct' & Htrees%map_err_Ok & Hup). cbn [res_bind] in Hup.
  apply res_bind_Ok in Hup as (trees' & Hadd & Hup). injection Hup as <-. rewrite Hn in Hpart, Hadd.
  destruct (add_block_Ok net _ _ _ _ _ Hix Hbits Hpart) as [Hix' Hpools%map_err_Ok].
  destruct (tip_or_empty b ls Hb) as [Hemp|Htip_state].
  { apply app_eq_nil in Hemp as [E1 E2]. rewrite E1, E2 in Ht. by destruct (trees_tip_nonempty _ _ _ _ Ht Htip). }
  pose proof (index_height b ls) as Hht. rewrite Hh, <- Hht in Hadd. rewrite Hh in Hpools.
  destruct (add_trees_Ok net (trees c) (b_index b) (b_old b) (l_state <$> ls) (tip_state (b_state b) ls)
    (fun pool => tree_of pool (b_state b)) (block blk) (max_block_height c) nct nct' trees') as (ts' & Hnext & Ht');
    [done|done|apply Hb|rewrite Hht; apply Hv| |by rewrite Hht|done|done|done|].
  { intros pool Hpool. split; [by eapply linked_in_order|]. apply tip_tree_state. }
  unfold ValueBalance.update_chain_tip_with in Hpools. rewrite Hp in Hpools.
  apply res_bind_Ok in Hpools as (p' & Hp' & Hpools). injection Hpools as Hpools.
  cbn [ValueBalance.chain_value_pools ValueBalance.block_info_by_height] in Hp', Hpools. rewrite Hht in Hnext.
  exists (mkLink blk ts' p'). split; [done|]. split; [|done].
  split; cbn [network blocks skips_transparent_address_index indexes trees]; rewrite ?fmap_app.
  - done.
  - done.
  - apply linked_app. split; [done|]. by split_and!.
  - rewrite Hbl, Hh, bt_insert_height by by rewrite length_fmap. done.
  - cbn [fmap list_fmap l_block]. by rewrite <- Permutation_cons_append.
  - done.
  - rewrite <- Hpools, bt_insert_height by by rewrite length_fmap.
    unfold tip_pools. rewrite fmap_app. cbn [fmap list_fmap]. by rewrite last_snoc.
Qed.

(** ** Removing the tip *)

Lemma at_heights_fmap_last {A B} (f : A -> B) base (l : list A) x :
  bt_get (base + Z.of_nat (length l)) (at_heights base (f <$> l ++ [x])) = Some (f x) /\
  bt_remove (base + Z.of_nat (length l)) (at_heights base (f <$> l ++ [x])) = at_heights base (f <$> l).
Proof.
  rewrite fmap_app. cbn [fmap list_fmap]. pose proof (at_heights_snoc_get base (f <$> l) (f x)) as H.
  by rewrite length_fmap in H.
Qed.

Lemma revert_tip_pools {E} b ls l h :
  base_wf b -> linked (root_height b) (b_state b) (b_pools b) (ls ++ [l]) ->
  h = root_height b + Z.of_nat (length ls) ->
  ValueBalance.revert_chain_with (E := E) net
    (ValueBalance.mkChain (tip_pools (b_pools b) (ls ++ [l])) (at_heights (root_height b) (info_of <$> ls ++ [l])))
    (chain_value_pool_change (l_block l)) h ValueBalance.Tip
  = Ok (ValueBalance.mkChain (tip_pools (b_pools b) ls) (at_heights (root_height b) (info_of <$> ls))).
Proof.
  intros Hb Hl ->. apply linked_app in Hl as [Hl ([_ _ Hv _ Hch] & _ & Hup & _)].
  destruct (pools_inv _ _ _ _ Hl (root_nonneg b Hb) (bw_pools _ Hb) (bw_nsm _ Hb)) as [Hok Hinv].
  unfold ValueBalance.revert_chain_with. cbn [ValueBalance.chain_value_pools ValueBalance.block_info_by_height].
  assert (Htip : tip_pools (b_pools b) (ls ++ [l]) = l_pools l)
    by (unfold tip_pools; rewrite fmap_app; cbn [fmap list_fmap]; by rewrite last_snoc).
  rewrite Htip, (ValuePools.revert_Ok net _ _ _ _ Hnet Hv Hok Hinv Hch Hup).
  cbn [res_bind]. by rewrite (proj2 (at_heights_fmap_last _ _ _ _)).
Qed.

Lemma pop_tip_Ok {E} c b ls l :
  chain_of c b (ls ++ [l]) -> ls <> [] ->
  content_modest net (skips_transparent_address_index c) (blocks_content (l_block <$> ls ++ [l])) ->
  exists c', pop_tip (E := E) c = Ok c' /\ chain_of c' b ls /\
    content_modest net (skips_transparent_address_index c) (blocks_content (l_block <$> ls)) /\
    precious c' = precious c /\ skips_transparent_address_index c' = skips_transparent_address_index c.
Proof.
  intros Hc Hne Hm. pose proof (max_height _ _ _ Hc) as Hmax. pose proof Hc as [Hn Hb Hl Hbl Hix Ht Hp].
  assert (Htip : max_block_height c = Some (root_height b + Z.of_nat (length ls))).
  { rewrite Hmax, length_app. destruct ls; [done|]. cbn. f_equal. lia. }
  unfold pop_tip, non_finalized_tip_height. rewrite Htip. cbn [expect res_bind].
  destruct (at_heights_fmap_last l_block (root_height b) ls l) as [Hget Hrem].
  rewrite Hbl, Hget. cbn [expect res_bind]. rewrite Hrem.
  set (c0 := set_blocks c (at_heights (root_height b) (l_block <$> ls))).
  assert (Hempty : is_empty c0 = false) by (destruct ls; [done|apply bool_decide_eq_false_2; by intros H]).
  unfold is_empty, set_subtrees in Hempty |- *. cbn [blocks]. rewrite Hempty. cbn [negb rust_assert res_bind].
  rewrite fmap_app in Hix, Hm. cbn [fmap list_fmap] in Hix, Hm.
  rewrite <- Permutation_cons_append in Hix. unfold revert_chain_with.
  cbn [network skips_transparent_address_index precious indexes trees c0 set_blocks]. rewrite Hn.
  rewrite (blocks_content_perm _ _ (symmetry (Permutation_cons_append _ _))) in Hm.
  destruct (remove_block_Ok (E := E) net _ _ _ _ Hix Hm) as (ix' & -> & Hix' & Hm' & Hvp). cbn [res_bind].
  assert (Hcand : candidate (l_block l) (root_height b + Z.of_nat (length ls))) by by apply linked_app in Hl as [_ [? _]].
  rewrite (cd_height _ _ Hcand). pose proof (index_height b ls) as Hht.
  rewrite fmap_app in Ht. cbn [fmap list_fmap] in Ht. rewrite <- Hht.
  match goal with |- context [remove_trees _ _ _ ?t] => set (tip := t) end.
  destruct (remove_tip_trees (E := E) (trees c) (b_index b) (b_old b) (l_state <$> ls) (l_state l)
    (fun pool => tree_of pool (b_state b)) tip Ht) as (trees' & Hrt & Ht').
  { intros pool Hpool. pose proof (linked_in_order _ _ _ _ pool Hl Hpool) as Ho. by rewrite fmap_app in Ho. }
  { intros k Hk%at_heights_last_lt. rewrite Hht. by rewrite length_fmap in Hk. }
  unfold with_subtrees in Hrt. rewrite Hrt. cbn [res_bind]. unfold revert_value_pools.
  rewrite Hvp, Hp, (cd_height _ _ Hcand), revert_tip_pools by done. cbn [res_bind].
  eexists. split; [done|]. split; [|done].
  split; [done|done|by apply linked_app in Hl as [? _]|done| |done|done].
  cbn [skips_transparent_address_index indexes]. destruct Hix' as [K1 K2 K3 K4 K5]. split; try done.
  by eapply content_blocks_indep.
Qed.

(** ** Removing the root *)

(** The start of a chain after its root is finalized *)
Definition next_base (b : Base) (l : Link) : Base := mkBase (root_height b + 1) [] (l_state l) (l_pools l).

Lemma next_base_root b l : root_height (next_base b l) = root_height b + 1.
Proof. unfold root_height at 1. cbn. lia. Qed.

Lemma next_base_wf b l ls :
  base_wf b -> linked (root_height b) (b_state b) (b_pools b) (l :: ls) -> base_wf (next_base b l).
Proof.
  intros Hb ([_ _ Hv _ Hch] & _ & Hup & _). pose proof (root_nonneg b Hb).
  destruct (ValuePools.update_inv net _ _ _ _ Hnet Hv (bw_pools _ Hb) (bw_nsm _ Hb) Hch Hup) as [Hok Hinv].
  split; [cbn; lia|by left|done|by rewrite next_base_root].
Qed.

Lemma bt_remove_first {A} base (x : A) l : bt_remove base ((base, x) :: at_heights (base + 1) l) = at_heights (base + 1) l.
Proof.
  unfold bt_remove. rewrite filter_cons_False by (cbn; tauto). apply filter_keep.
  intros [k y] Hin%at_heights_keys. cbn. lia.
Qed.

Lemma linked_top h ts p ls : linked h ts p ls -> ls <> [] -> h + Z.of_nat (length ls) - 1 <= Height.MAX.
Proof.
  destruct ls as [|l ls' _] using rev_ind; [done|]. intros [_ [[_ _ Hv _ _] _]]%linked_app _.
  rewrite length_app. cbn [length]. lia.
Qed.

Lemma last_heights {A} base (l : list A) :
  last (at_heights base l).*1 = match l with [] => None | _ => Some (base + Z.of_nat (length l) - 1) end.
Proof.
  rewrite fmap_last. destruct l as [|x l _] using rev_ind; [done|]. rewrite at_heights_last, length_app.
  destruct l; cbn; f_equal; lia.
Qed.

Lemma pop_root_Ok {E} c b l ls :
  chain_of c b (l :: ls) ->
  content_modest net (skips_transparent_address_index c) (blocks_content (l_block <$> l :: ls)) ->
  exists c', pop_root (E := E) c = Ok (l_block l, l_state l, c') /\ chain_of c' (next_base b l) ls /\
    content_modest net (skips_transparent_address_index c) (blocks_content (l_block <$> ls)) /\
    precious c' = precious c /\ skips_transparent_address_index c' = skips_transparent_address_index c.
Proof.
  intros Hc Hm. pose proof Hc as [Hn Hb Hl Hbl Hix Ht Hp]. pose proof Hl as (Hcand & _ & Hup & Hl').
  pose proof (linked_top _ _ _ _ Hl ltac:(done)) as Htop. cbn [length] in Htop.
  unfold pop_root, non_finalized_root_height. cbn [fmap list_fmap] in Hix, Ht, Hm. rewrite Hbl, fmap_cons.
  cbn [at_heights fmap list_fmap head expect res_bind fst].
  pose proof (treestate_at (trees c) (b_index b) (b_old b) _ (fun pool => tree_of pool (b_state b)) 0 (l_state l) Ht) as Hts.
  rewrite Z.add_0_r in Hts. fold (root_height b) in Hts. rewrite Hts; [|intros pool; by apply (linked_in_order _ _ (b_pools b) (l :: ls))|done].
  cbn [expect res_bind set_subtrees set_blocks blocks]. rewrite Hbl, fmap_cons. cbn [at_heights bt_get].
  rewrite Z.eqb_refl. cbn [expect res_bind]. rewrite bt_remove_first. unfold revert_chain_with.
  cbn [set_subtrees set_blocks network skips_transparent_address_index precious indexes trees]. rewrite Hn.
  destruct (remove_block_Ok (E := E) net _ _ _ _ Hix Hm) as (ix' & -> & Hix' & Hm' & Hvp). cbn [res_bind].
  rewrite (cd_height _ _ Hcand). match goal with |- context [remove_trees _ _ _ ?t] => set (tip := t) end.
  destruct (remove_root_trees (E := E) (trees c) (b_index b) (b_old b) (l_state l) (l_state <$> ls) tip Ht)
    as (trees' & Hrt & Ht'); [apply Hb|fold (root_height b); rewrite length_fmap; lia| |].
  { unfold tip, max_block_height. cbn [blocks set_blocks]. rewrite last_heights, length_fmap. fold (root_height b).
    destruct ls; [done|]. cbn [fmap list_fmap length]. rewrite length_fmap. f_equal. lia. }
  fold (root_height b) in Hrt, Ht'. rewrite Hrt. cbn [res_bind]. unfold revert_value_pools.
  rewrite Hvp, Hp, (cd_height _ _ Hcand). unfold ValueBalance.revert_chain_with.
  cbn [res_bind ValueBalance.chain_value_pools ValueBalance.block_info_by_height fmap list_fmap at_heights].
  rewrite bt_remove_first. eexists. split; [done|]. split; [|done].
  split; rewrite ?next_base_root; cbn [network blocks skips_transparent_address_index indexes trees value_pools]; try done.
  - by eapply next_base_wf.
  - destruct Hix' as [K1 K2 K3 K4 K5]. split; try done. by eapply content_blocks_indep.
  - unfold tip_pools. cbn [b_pools next_base]. by rewrite last_default_cons.
Qed.

(** ** New chains, equal chains *)

Lemma new_Ok {E} tip sprout sapling orchard ironwood history pools :
  0 <= tip <= Height.MAX -> ValuePools.pools_ok pools -> ValuePools.nsm_inv net (tip + 1) pools ->
  let ts := mkTreestate sprout sapling orchard ironwood None None None history in
  exists c, new (E := E) net tip sprout sapling orchard ironwood history pools = Ok c /\
    chain_of c (mkBase tip [ts] ts pools) [] /\ blocks c = [] /\ precious c = None.
Proof.
  intros Htip Hpools Hnsm ts. unfold new.
  destruct (new_trees_Ok (E := E) tip ts no_sprout_trees Sprout) as (i1 & A1 & I1 & B1); [done..|].
  destruct (new_trees_Ok (E := E) tip ts no_trees Sapling) as (i2 & A2 & I2 & B2); [done..|].
  destruct (new_trees_Ok (E := E) tip ts no_trees Orchard) as (i3 & A3 & I3 & B3); [done..|].
  destruct (new_trees_Ok (E := E) tip ts no_trees Ironwood) as (i4 & A4 & I4 & B4); [done..|].
  cbn [tree_of ts_sprout ts_sapling ts_orchard ts_ironwood ts] in *. rewrite A1, A2, A3, A4. cbn [res_bind insert_new].
  eexists. split; [done|]. split; [|done]. split; try done.
  - split; cbn; [lia|by right|done|]. unfold root_height. cbn. exact Hnsm.
  - cbn [fmap list_fmap]. split; [constructor|apply ChainContent.map_of_empty| |done|]; [|unfold Difficulty.is_u256; cbn; lia].
    split; try apply ChainContent.map_of_empty. split; try apply ChainContent.map_of_empty. intros a. cbn. by rewrite lookup_empty.
  - split; [by intros []|by intros []|by intros []|done].
Qed.

Lemma chain_ext c c' b ls :
  chain_of c b ls -> chain_of c' b ls -> precious c = precious c' ->
  skips_transparent_address_index c = skips_transparent_address_index c' -> c = c'.
Proof.
  intros [N _ _ B I T P] [N' _ _ B' I' T' P'] Hprec Hskips. rewrite <- Hskips in I'.
  assert (Hi : indexes c = indexes c') by (eapply indexes_ext; [done|done|by rewrite P, P']).
  assert (Ht : trees c = trees c') by by eapply trees_ext.
  destruct c, c'. cbn in *. congruence.
Qed.

(** ** Forks *)

Definition modest_chain (c : Chain) (bs : list ContextuallyVerifiedBlock) : Prop :=
  content_modest net (skips_transparent_address_index c) (blocks_content bs).

Lemma tip_hash {E} c b ls l : chain_of c b (ls ++ [l]) -> non_finalized_tip_hash (E := E) c = Ok (hash (l_block l)).
Proof.
  intros Hc. unfold non_finalized_tip_hash, tip_block. rewrite (c_blocks _ _ _ Hc), fmap_app. cbn [fmap list_fmap].
  by rewrite fmap_last, at_heights_last.
Qed.

Lemma chain_hashes c b ls : chain_of c b ls -> NoDup (hash <$> (l_block <$> ls)).
Proof.
  intros Hc. destruct (ixs_hashes _ _ _ _ (c_indexes _ _ _ Hc)) as [Hn _]. by rewrite <- list_fmap_compose in Hn.
Qed.

(** The loop of [fork] ends at the block, whatever is above it. *)
Lemma pop_to_Ok {E} fuel c b ls l ls' :
  chain_of c b (ls ++ l :: ls') -> modest_chain c (l_block <$> ls ++ l :: ls') -> (length ls' < fuel)%nat ->
  exists c', pop_to (E := E) fuel c (hash (l_block l)) = Ok c' /\ chain_of c' b (ls ++ [l]) /\
    precious c' = precious c /\ skips_transparent_address_index c' = skips_transparent_address_index c.
Proof.
  revert fuel c. induction ls' as [|x ls' IH] using rev_ind; intros fuel c Hc Hm Hf; (destruct fuel as [|fuel]; [lia|]).
  - cbn [pop_to]. rewrite (tip_hash c b ls l Hc). cbn [res_bind]. rewrite Z.eqb_refl. by exists c.
  - assert (Heq : ls ++ l :: ls' ++ [x] = (ls ++ l :: ls') ++ [x]) by by rewrite <- app_assoc.
    rewrite Heq in Hc, Hm. cbn [pop_to]. rewrite (tip_hash c b _ x Hc). cbn [res_bind].
    assert (Hne : hash (l_block x) <> hash (l_block l)).
    { pose proof (chain_hashes _ _ _ Hc) as Hn. rewrite !fmap_app in Hn. apply NoDup_app in Hn as (_ & Hd & _).
      intros Hx. apply (Hd (hash (l_block l))); [rewrite !fmap_cons; set_solver|]. cbn. rewrite Hx. set_solver. }
    rewrite (proj2 (Z.eqb_neq _ _) Hne).
    destruct (pop_tip_Ok (E := E) c b _ x Hc) as (c1 & -> & Hc1 & Hm1 & Hp1 & Hs1); [by destruct ls|done|].
    cbn [res_bind]. rewrite length_app in Hf. cbn in Hf.
    destruct (IH fuel c1 Hc1) as (c' & -> & Hc' & Hp' & Hs'); [by unfold modest_chain; rewrite Hs1|lia|].
    exists c'. split; [done|]. split; [done|]. by rewrite Hp', Hs'.
Qed.
End Run.
End ChainRun.
