(* ===== verification/ChainFacts.v ===== *)
(** * Properties of non-finalized chains

    Over every run that starts from a new chain: the chain is the list of its
    blocks, a fork gives back the chain as it was, and no output or note is spent
    twice. *)

From stdpp Require Import base numbers strings list option gmap sets sorting.
From Stdlib Require Import ZArith Lia.
From S2P Require Import Prelude Height Amount BTree Network ValueBalance ValuePools Difficulty DifficultyFacts Dependencies Transparent MempoolTx BlockHeader Block BlockCheck Checkpoint SharedMap AddressIndex AddressFacts TreeIndex SpendCheck Chain ChainContent ChainBlocks ChainTrees ChainRun.
Local Open Scope Z_scope.
Local Notation length := List.length.

Module ChainFacts.
Import Amount Network Block BlockCheck SharedMap AddressIndex AddressFacts TreeIndex SpendCheck Chain ChainContent ChainBlocks ChainTrees ChainRun.

Section Reached.
Context {U : Difficulty.U256} {UL : Difficulty.U256Laws U}.
Context {NT : NoteTrees} {completed : Tree -> Z} {NTL : NoteTreesLaws completed}.
Context (net : Network).

(** ** Runs *)

(** The chains that are reached with their blocks, from the height [root] on:
    [new] above a finalized tip, blocks added that are verified for the next
    height, the tip removed as [fork] does, the root removed when it is finalized,
    and preferences. *)
Inductive reached : Chain -> Z -> list ContextuallyVerifiedBlock -> Prop :=
  | reached_new tip sprout sapling orchard ironwood history pools skip c0 c :
      0 <= tip <= Height.MAX -> ValuePools.pools_ok pools -> ValuePools.nsm_inv net (tip + 1) pools ->
      new (E := unit) net tip sprout sapling orchard ironwood history pools = Ok c0 ->
      skipping_transparent_address_index (E := unit) c0 skip = Ok c ->
      reached c (tip + 1) []
  | reached_push c root bs b c' :
      reached c root bs -> candidate net b (root + Z.of_nat (length bs)) -> push c b = Ok c' ->
      reached c' root (bs ++ [b])
  | reached_pop_tip c root bs b c' :
      reached c root (bs ++ [b]) -> bs <> [] -> modest_chain net c (bs ++ [b]) ->
      pop_tip (E := unit) c = Ok c' -> reached c' root bs
  | reached_pop_root c root b bs popped c' :
      reached c root (b :: bs) -> modest_chain net c (b :: bs) ->
      pop_root (E := unit) c = Ok (popped, c') -> reached c' (root + 1) bs
  | reached_precious c root bs precious :
      reached c root bs -> reached (set_precious c precious) root bs.

Lemma chain_of_flags c b ls p s :
  chain_of net c b ls -> s = skips_transparent_address_index c ->
  chain_of net (mkChain (network c) s p (blocks c) (indexes c) (trees c)) b ls.
Proof. intros [] ->. by split. Qed.

Lemma empty_indexes ix s s' : indexes_of net s ix [] -> indexes_of net s' ix [].
Proof.
  intros [H1 H2 [C1 [O1 O2 O3] C3 C4 C5 C6] H4 H5]. by split.
Qed.

Lemma reached_chain_of c root bs :
  net_wf net -> reached c root bs ->
  exists b ls, chain_of net c b ls /\ root_height b = root /\ l_block <$> ls = bs.
Proof.
  intros Hnet. induction 1 as [tip sprout sapling orchard ironwood history pools skip c0 c Htip Hpools Hnsm Hnew Hskip
    |c root bs b c' _ IH Hcand Hpush|c root bs b c' _ IH Hne Hm Hpop|c root b bs popped c' _ IH Hm Hpop
    |c root bs precious _ IH].
  - destruct (new_Ok (E := unit) net tip sprout sapling orchard ironwood history pools Htip Hpools Hnsm)
      as (c1 & Hnew' & Hc & Hb & _). rewrite Hnew in Hnew'. injection Hnew' as <-.
    unfold skipping_transparent_address_index, is_empty in Hskip. rewrite Hb in Hskip. cbn in Hskip. injection Hskip as <-.
    match type of Hc with chain_of _ _ ?b _ => exists b, [] end. split; [|split; [unfold root_height; cbn; lia|done]].
    destruct Hc. split; try done. by eapply empty_indexes.
  - destruct IH as (b0 & ls & Hc & <- & <-). rewrite length_fmap in Hcand.
    destruct (push_Ok net c b0 ls b c' Hc Hcand Hpush) as (l & <- & Hc' & _).
    exists b0, (ls ++ [l]). by rewrite fmap_app.
  - destruct IH as (b0 & ls & Hc & <- & Hls). apply fmap_app_inv in Hls as (ls1 & ls2 & -> & Hl2 & ->).
    destruct ls2 as [|l [|]]; try discriminate. injection Hl2 as Hl2.
    destruct (pop_tip_Ok (E := unit) net Hnet c b0 ls1 l Hc) as (c1 & Hpop' & Hc' & _).
    + by intros ->.
    + by rewrite fmap_app; cbn [fmap list_fmap]; rewrite <- Hl2.
    + rewrite Hpop in Hpop'. injection Hpop' as <-. by exists b0, ls1.
  - destruct IH as (b0 & ls & Hc & <- & Hls). destruct ls as [|l ls]; [done|]. injection Hls as <- <-.
    destruct (pop_root_Ok (E := unit) net Hnet c b0 l ls Hc Hm) as (c1 & Hpop' & Hc' & _).
    rewrite Hpop in Hpop'. injection Hpop' as _ <-. exists (next_base b0 l), ls. by rewrite next_base_root.
  - destruct IH as (b0 & ls & Hc & <- & <-). exists b0, ls. split; [by apply chain_of_flags|done].
Qed.

(** ** Adding several blocks *)

Definition pushes (c : Chain) (bs : list ContextuallyVerifiedBlock) : res ValidateContextError Chain :=
  foldl (fun acc b => let? c := acc in push c b) (Ok c) bs.

Fixpoint candidates (h : Z) (bs : list ContextuallyVerifiedBlock) : Prop :=
  match bs with [] => True | b :: bs => candidate net b h /\ candidates (h + 1) bs end.

Lemma pushes_Ok c b ls bs c' :
  chain_of net c b ls -> candidates (root_height b + Z.of_nat (length ls)) bs -> pushes c bs = Ok c' ->
  exists ls', l_block <$> ls' = bs /\ chain_of net c' b (ls ++ ls') /\ precious c' = precious c /\
    skips_transparent_address_index c' = skips_transparent_address_index c.
Proof.
  revert c ls. induction bs as [|x bs IH]; intros c ls Hc Hcand Hp.
  - injection Hp as <-. exists []. by rewrite app_nil_r.
  - destruct Hcand as [Hx Hcand]. unfold pushes in Hp. apply foldl_bind_cons in Hp as (c1 & H1 & Hp).
    destruct (push_Ok net c b ls x c1 Hc Hx H1) as (l & <- & Hc1 & Hp1 & Hs1).
    destruct (IH c1 (ls ++ [l]) Hc1) as (ls' & <- & Hc' & Hp' & Hs'); [|done|].
    + rewrite length_app. cbn [length]. by replace (root_height b + Z.of_nat (length ls + 1)%nat)
        with (root_height b + Z.of_nat (length ls) + 1) by lia.
    + exists (l :: ls'). rewrite <- app_assoc in Hc'. by rewrite Hp', Hs'.
Qed.

(** Forking to a block, whatever has been added above it *)
Lemma fork_Ok {E} c b ls l ls' :
  net_wf net -> chain_of net c b (ls ++ l :: ls') -> modest_chain net c (l_block <$> ls ++ l :: ls') ->
  exists c', fork (E := E) c (hash (l_block l)) = Ok (Some c') /\ chain_of net c' b (ls ++ [l]) /\
    precious c' = precious c /\ skips_transparent_address_index c' = skips_transparent_address_index c.
Proof.
  intros Hnet Hc Hm. unfold fork. pose proof (ixs_hashes _ _ _ _ (c_indexes _ _ _ _ Hc)) as Hh.
  assert (Hget : height_by_hash (indexes c) !! hash (l_block l) = Some (height (l_block l))).
  { apply (map_of_lookup _ _ _ _ Hh). rewrite fmap_app, fmap_cons, fmap_app, fmap_cons. set_solver. }
  rewrite Hget, bool_decide_eq_true_2 by by eexists. cbn [negb].
  destruct (pop_to_Ok (E := E) net Hnet (length (blocks c)) c b ls l ls' Hc Hm) as (c' & -> & Hc'); [|by exists c'].
  rewrite (c_blocks _ _ _ _ Hc), at_heights_length, length_fmap, length_app. cbn. lia.
Qed.

(** ** Spends *)

(** The outputs the transactions of the blocks spend, in order *)
Definition chain_spends (bs : list ContextuallyVerifiedBlock) : list OutPoint :=
  bs ≫= fun b => hashed_transactions b ≫= fun x => spent_outpoints (body x.1).

Lemma tx_spent_outpoints outs h l :
  Forall (spend_known outs) l -> (tx_spent outs h l).*2.*1 = omap outpoint l.
Proof.
  unfold tx_spent. induction 1 as [|input l Hi _ IH]; [done|]. cbn [omap list_omap]. unfold spend_of at 1.
  destruct (outpoint input) as [op|] eqn:Hop; cbn [mbind option_bind]; [|done].
  destruct (Hi op Hop) as [u Hu].
  rewrite Hu. cbn. by rewrite IH.
Qed.

Lemma txs_spent_outpoints b i l :
  txs_known b i l -> (c_spent (txs_content b i l)).*2.*1 = l ≫= fun x => spent_outpoints (body x.1).
Proof.
  revert i. induction l as [|x l IH]; intros i Hk; [done|]. apply txs_known_cons in Hk as [Hx Hk].
  cbn [txs_content mbind list_bind content_app c_spent]. rewrite !fmap_app, (IH _ Hk). f_equal.
  unfold tx_content. destruct (parts (body x.1)) as [[[? ?] ?] ?]. cbn [c_spent].
  apply tx_spent_outpoints. apply Hx.
Qed.

Lemma chain_spent_outpoints bs :
  Forall block_known bs -> (c_spent (blocks_content bs)).*2.*1 = chain_spends bs.
Proof.
  unfold chain_spends. induction 1 as [|b bs Hb _ IH]; [done|]. cbn [blocks_content foldr mbind list_bind content_app c_spent].
  rewrite !fmap_app. unfold blocks_content in IH. rewrite IH. f_equal. apply txs_spent_outpoints. apply Hb.
Qed.

Lemma entries_nodup (m : gmap Z SpendingTransactionId) l : map_of m (revealed_entries l) -> NoDup l.
Proof. intros [Hn _]. unfold revealed_entries in Hn. rewrite <- list_fmap_compose in Hn. by rewrite list_fmap_id in Hn. Qed.
End Reached.

(** C3: a non-finalized chain is the list of its blocks.  On every run of adding
    verified blocks, removing the tip and removing the root, the blocks are at
    consecutive heights, every index (block and transaction locations, created and
    spent outputs, address transfers, nullifiers, cumulative work) is that of the
    blocks, the treestate at each block's height and the value pools follow from
    those before it, and the root that is removed to be finalized is the oldest
    block with its treestate, without a panic if no address received or spent more
    than the monetary base in the chain. *)
Theorem chain_is_its_blocks (U : Difficulty.U256) (UL : Difficulty.U256Laws U) (NT : NoteTrees)
  (completed : Tree -> Z) (NTL : NoteTreesLaws completed) net c root bs :
  net_wf net -> reached net c root bs ->
  exists ts p ls,
    l_block <$> ls = bs /\ linked net root ts p ls /\
    blocks c = at_heights root bs /\
    indexes_of net (skips_transparent_address_index c) (indexes c) bs /\
    (forall i l, ls !! i = Some l -> treestate (trees c) (root + Z.of_nat i) = Some (l_state l)) /\
    ValueBalance.chain_value_pools (value_pools (indexes c)) = tip_pools p ls /\
    (modest_chain net c bs -> forall l ls', ls = l :: ls' ->
       exists c', pop_root (E := unit) c = Ok (l_block l, l_state l, c') /\ reached net c' (root + 1) (l_block <$> ls')).
Proof.
  intros Hnet Hr. destruct (reached_chain_of net c root bs Hnet Hr) as (b & ls & Hc & <- & <-).
  exists (b_state b), (b_pools b), ls. pose proof Hc as [_ Hb Hl Hbl Hix Ht Hp].
  split; [done|]. split; [done|]. split; [done|]. split; [done|]. split; [|split; [by rewrite Hp|]].
  - intros i l Hi. unfold root_height. eapply treestate_at; [done| |by rewrite list_lookup_fmap, Hi].
    intros pool Hpool. by eapply linked_in_order.
  - intros Hm l ls' ->. destruct (pop_root_Ok (E := unit) net Hnet c b l ls' Hc Hm) as (c' & Hpop & _).
    exists c'. split; [done|]. by eapply reached_pop_root.
Qed.

(** C7: a fork is the chain as it was.  Verified blocks have been added above a block
    of a reached chain, and in the blocks of the extended chain together no address
    receives outputs worth more than the monetary base, nor spends outputs worth
    more than that ([modest_chain]).  Then forking at that block gives back exactly
    the chain before they were added: every index, tree and pool of it.  Without
    the bound the balance of an address can leave its range while blocks are
    reverted, which panics. *)
Theorem fork_undoes_pushes (U : Difficulty.U256) (UL : Difficulty.U256Laws U) (NT : NoteTrees)
  (completed : Tree -> Z) (NTL : NoteTreesLaws completed) net c root bs b bs' c' :
  net_wf net -> reached net c root (bs ++ [b]) ->
  candidates net (root + Z.of_nat (length (bs ++ [b]))) bs' -> pushes c bs' = Ok c' ->
  modest_chain net c (bs ++ b :: bs') ->
  fork (E := unit) c' (hash b) = Ok (Some c).
Proof.
  intros Hnet Hr Hcand Hp Hm. destruct (reached_chain_of net _ _ _ Hnet Hr) as (b0 & ls & Hc & <- & Hls).
  destruct (pushes_Ok net c b0 ls bs' c' Hc) as (ls' & <- & Hc' & Hp' & Hs'); [by rewrite <- Hls, length_fmap in Hcand|done|].
  apply fmap_app_inv in Hls as (ls1 & ls2 & -> & Hl2 & ->).
  destruct ls2 as [|l [|]]; try discriminate. injection Hl2 as ->. rewrite <- app_assoc in Hc'.
  destruct (fork_Ok (E := unit) net c' b0 ls1 l ls' Hnet Hc') as (c1 & -> & Hc1 & Hp1 & Hs1).
  - unfold modest_chain in *. by rewrite Hs', fmap_app, fmap_cons.
  - do 2 f_equal. eapply chain_ext; [done|done|by rewrite Hp1|by rewrite Hs1].
Qed.

(** C9: no double spends.  On every reached chain no transparent output is spent
    by two inputs of its blocks, and no nullifier of a pool is revealed twice: a
    block that would do so is never added. *)
Theorem no_double_spends (U : Difficulty.U256) (UL : Difficulty.U256Laws U) (NT : NoteTrees)
  (completed : Tree -> Z) (NTL : NoteTreesLaws completed) net c root bs :
  net_wf net -> reached net c root bs ->
  NoDup (chain_spends bs) /\ NoDup (c_sprout (blocks_content bs)) /\ NoDup (c_sapling (blocks_content bs)) /\
  NoDup (c_orchard (blocks_content bs)) /\ NoDup (c_ironwood (blocks_content bs)).
Proof.
  intros Hnet Hr. destruct (reached_chain_of net c root bs Hnet Hr) as (b & ls & Hc & _ & <-).
  destruct (c_indexes _ _ _ _ Hc) as [Hk _ [_ [_ [Hs _] _] N1 N2 N3 N4] _ _].
  split; [|split_and!; by eapply entries_nodup].
  rewrite <- chain_spent_outpoints by done. unfold spent_entries in Hs. rewrite <- list_fmap_compose in Hs. by rewrite <- list_fmap_compose.
Qed.

(** ** An example *)

#[local] Existing Instance Difficulty.u256_Z.
#[local] Existing Instance Difficulty.u256_Z_laws.

(** Trees as the lists of their notes, two to a subtree; the nullifiers of a
    transaction stand for its notes. *)
Definition toy_completed (t : list Z) : Z := Z.of_nat (length t) / 2.

#[local] Instance toy_trees : NoteTrees := {|
  Tree := list Z;
  Root := list Z;
  Node := Z;
  Commitment := Z;
  HistoryTree := Z;
  tree_root := id;
  note_commitments pool tx :=
    match pool with Sapling => MempoolTx.sapling_nullifiers (body tx) | _ => [] end;
  append_batch _ t commitments :=
    if (2 <? length commitments)%nat then Err tt
    else
      let t' := t ++ commitments in
      Ok (t', if toy_completed t <? toy_completed t' then Some (toy_completed t, Z.of_nat (length t')) else None);
  history_push _ history _ _ _ _ := Ok (history + 1);
  serialized_size _ := 100;
|}.

#[local] Instance toy_trees_laws : NoteTreesLaws (NT := toy_trees) toy_completed.
Proof.
  split; [done|]. intros pool t commitments t' subtree. cbn -[Nat.ltb toy_completed].
  destruct (2 <? _)%nat eqn:Hl; [done|]. apply Nat.ltb_ge in Hl. intros [= <- <-].
  destruct (_ <? _) eqn:Ht; [apply Z.ltb_lt in Ht|apply Z.ltb_ge in Ht]; unfold toy_completed in *;
    rewrite length_app, Nat2Z.inj_add in *; cbn in *; Z.to_euclidean_division_equations; lia.
Qed.

Definition pay_to (n : Z) : list Z := [118; 169; 20] ++ replicate 20 n ++ [136; 172].

Definition sample_coinbase (h id : Z) (notes : list Z) (value : Z) : BlockTx :=
  mkBlockTx (mkTransaction [Coinbase h [] 0] [mkOutput (mk value) (pay_to 7)] [] notes [] [] None 4 None)
    id None [] (mk 0) (mk 0) (mk 0) 0 0 0 0 0.

Definition sample_transfer (id : Z) (op : OutPoint) (value : Z) : BlockTx :=
  mkBlockTx (mkTransaction [PrevOut op [] 0] [mkOutput (mk value) (pay_to 7)] [] [id] [] [] None 4 None)
    id None [] (mk 0) (mk 0) (mk 0) 0 0 0 0 0.

Definition sample_utxo (h value index : Z) : OrderedUtxo :=
  new_ordered_utxo (mkOutput (mk value) (pay_to 7)) h index.

Definition sample_bits : Z := 545259519.

Definition sample_block (h id : Z) (txs : list BlockTx) (created spent : list (OutPoint * OrderedUtxo))
  : ContextuallyVerifiedBlock :=
  mkContextual
    (mkBlock (BlockHeader.mkHeader 4 (id - 1) 0 [] 0 sample_bits [] (BlockHeader.Common [])) txs)
    id h (list_to_map created) (list_to_map spent) (tx_hash <$> txs) ValuePools.change1 None.

Definition subsidy : Z := 200000000.

(** Block 1 has a coinbase; block 2 a coinbase and a transfer of that of block 1. *)
Definition sample1 : ContextuallyVerifiedBlock :=
  sample_block 1 1001 [sample_coinbase 1 11 [101; 102] subsidy] [(mkOutPoint 11 0, sample_utxo 1 subsidy 0)] [].
Definition sample2 : ContextuallyVerifiedBlock :=
  sample_block 2 1002 [sample_coinbase 2 21 [] subsidy; sample_transfer 22 (mkOutPoint 11 0) subsidy]
    [(mkOutPoint 21 0, sample_utxo 2 subsidy 0); (mkOutPoint 22 0, sample_utxo 2 subsidy 1)]
    [(mkOutPoint 11 0, sample_utxo 1 subsidy 0)].

Definition sample_net : Network := ValuePools.nu7_network.

Definition or_else {E A} (r : res E A) (a : A) : A := match r with Ok a' => a' | _ => a end.
Definition is_ok {E A} (r : res E A) : bool := match r with Ok _ => true | _ => false end.

Lemma or_else_Ok {E A} (r : res E A) a : is_ok r = true -> r = Ok (or_else r a).
Proof. by destruct r. Qed.

Definition no_chain : Chain :=
  mkChain sample_net false None [] (mkIndexes ∅ ∅ (mkOutputs ∅ ∅ ∅) (mkNullifiers ∅ ∅ ∅ ∅) 0
    (ValueBalance.mkChain (ValuePools.vb_of 0 0 0) []))
    (mkChainTrees no_sprout_trees no_trees no_trees no_trees [] [] [] []).

Definition sample_chain0 : Chain :=
  or_else (E := unit) (new sample_net 0 [] [] [] [] 0 (ValuePools.vb_of 0 0 0)) no_chain.
Definition sample_chain1 : Chain := or_else (push sample_chain0 sample1) no_chain.
Definition sample_chain2 : Chain := or_else (push sample_chain1 sample2) no_chain.

Lemma sample_pools : ValuePools.pools_ok (ValuePools.vb_of 0 0 0) /\ ValuePools.nsm_inv sample_net 1 (ValuePools.vb_of 0 0 0).
Proof.
  destruct (ValuePools.reachable_replayed sample_net (ValuePools.chain1, [ValuePools.change0]) ValuePools.nu7_network_wf)
    as [Hr _]; [|exact (ValuePools.replayed_inv _ _ _ ValuePools.nu7_network_wf Hr)].
  apply (ValuePools.reachable_step sample_net (ValueBalance.mkChain (ValuePools.vb_of 0 0 0) [], [])).
  - by apply ValuePools.reachable_init.
  - apply (ValuePools.step_push _ _ _ _ 1687); [split; vm_compute; discriminate| |vm_compute; reflexivity].
    apply ValuePools.block_change_coinbase; vm_compute; reflexivity.
Qed.

Lemma sample_candidate b h :
  height b = h -> coinbase_height (block b) = Some h -> 0 <= h <= Height.MAX -> bits b = sample_bits ->
  chain_value_pool_change b = ValuePools.change1 ->
  ValueBalance.chain_value_pool_change_from_utxos (Some h) [ValuePools.vb_of (C := NegativeAllowed) (- subsidy) 0 0]
    sample_net (Some (mk 0)) Ok = Ok ValuePools.change1 ->
  candidate sample_net b h.
Proof.
  intros Hh Hc Hv Hb Hch Hpool. split; [done|done|done| |].
  - rewrite Hb. unfold DifficultyFacts.is_u32, sample_bits. lia.
  - rewrite Hch. by apply ValuePools.block_change_coinbase.
Qed.

Lemma sample_candidate1 : candidate sample_net sample1 1.
Proof. apply sample_candidate; try reflexivity. split; vm_compute; discriminate. Qed.

Lemma sample_candidate2 : candidate sample_net sample2 2.
Proof. apply sample_candidate; try reflexivity. split; vm_compute; discriminate. Qed.

Lemma sample_reached1 : reached sample_net sample_chain1 1 [sample1].
Proof.
  apply (reached_push _ sample_chain0 1 [] sample1); [|exact sample_candidate1|by apply or_else_Ok; vm_compute].
  apply (reached_new (NT := toy_trees) _ 0 [] [] [] [] 0 (ValuePools.vb_of 0 0 0) false sample_chain0);
    [split; vm_compute; discriminate|apply sample_pools..|by apply or_else_Ok; vm_compute|reflexivity].
Qed.

Lemma sample_reached2 : reached sample_net sample_chain2 1 [sample1; sample2].
Proof.
  apply (reached_push _ sample_chain1 1 [sample1] sample2); [exact sample_reached1|exact sample_candidate2|].
  apply or_else_Ok. vm_compute. reflexivity.
Qed.

Lemma sample_modest c : skips_transparent_address_index c = false -> modest_chain sample_net c [sample1; sample2].
Proof.
  intros Hs. unfold modest_chain, content_modest. rewrite Hs.
  apply modest_totals; apply (bool_decide_unpack _); vm_compute; exact I.
Qed.

Lemma chain_is_its_blocks_witness :
  exists state c', pop_root (E := unit) sample_chain2 = Ok (sample1, state, c') /\
    reached sample_net c' 2 [sample2] /\ treestate (trees sample_chain2) 1 = Some state.
Proof.
  destruct (chain_is_its_blocks Difficulty.u256_Z Difficulty.u256_Z_laws toy_trees toy_completed toy_trees_laws sample_net
    sample_chain2 1 [sample1; sample2] ValuePools.nu7_network_wf sample_reached2)
    as (ts & p & ls & Hls & _ & _ & _ & Hts & _ & Hpop).
  destruct ls as [|l [|l' [|]]]; try discriminate. injection Hls as Hl Hl'.
  destruct (Hpop (sample_modest sample_chain2 eq_refl) l [l'] eq_refl) as (c' & H1 & H2).
  rewrite Hl in H1. cbn [fmap list_fmap] in H2. rewrite Hl' in H2.
  exists (l_state l), c'. split; [exact H1|]. split; [exact H2|]. exact (Hts 0%nat l eq_refl).
Defined.

Lemma fork_undoes_pushes_witness : fork (E := unit) sample_chain2 1001 = Ok (Some sample_chain1).
Proof.
  apply (fork_undoes_pushes Difficulty.u256_Z Difficulty.u256_Z_laws toy_trees toy_completed toy_trees_laws sample_net
    sample_chain1 1 [] sample1 [sample2] sample_chain2).
  - exact ValuePools.nu7_network_wf.
  - exact sample_reached1.
  - split; [exact sample_candidate2|exact I].
  - apply (or_else_Ok (push sample_chain1 sample2) no_chain). vm_compute. reflexivity.
  - apply (sample_modest sample_chain1). reflexivity.
Defined.

Lemma no_double_spends_witness : NoDup (chain_spends [sample1; sample2]).
Proof.
  apply (no_double_spends Difficulty.u256_Z Difficulty.u256_Z_laws toy_trees toy_completed toy_trees_laws sample_net
    sample_chain2 1 [sample1; sample2] ValuePools.nu7_network_wf sample_reached2).
Defined.

(** ** A panic of the address index *)

(** Half of the monetary base and one zatoshi *)
Definition large : Z := MAX_MONEY / 2 + 1.

Definition transfer_to (n : Z) (id : Z) (op : OutPoint) : BlockTx :=
  mkBlockTx (mkTransaction [PrevOut op [] 0] [mkOutput (mk large) (pay_to n)] [] [] [] [] None 4 None)
    id None [] (mk 0) (mk 0) (mk 0) 0 0 0 0 0.

Definition verified_block (h id : Z) (txs : list BlockTx) (created : list (OutPoint * OrderedUtxo))
  : Checkpoint.CheckpointVerifiedBlock :=
  Checkpoint.mkVerified Checkpoint.NetworkOrigin
    (mkBlock (BlockHeader.mkHeader 4 (id - 1) 0 [] 0 sample_bits [] (BlockHeader.Common [])) txs)
    id h (list_to_map created) (tx_hash <$> txs) (Some (mk 0)) None None.

(** Block 1 pays the large output of another address to an address, which pays it
    to itself in block 2. *)
Definition large_utxo (n h index : Z) : OrderedUtxo := new_ordered_utxo (mkOutput (mk large) (pay_to n)) h index.

Definition payment : Checkpoint.CheckpointVerifiedBlock :=
  verified_block 1 1001 [sample_coinbase 1 11 [] subsidy; transfer_to 8 12 (mkOutPoint 99 0)]
    [(mkOutPoint 11 0, sample_utxo 1 subsidy 0); (mkOutPoint 12 0, large_utxo 8 1 1)].
Definition self_transfer : Checkpoint.CheckpointVerifiedBlock :=
  verified_block 2 1002 [sample_coinbase 2 21 [] subsidy; transfer_to 8 22 (mkOutPoint 12 0)]
    [(mkOutPoint 21 0, sample_utxo 2 subsidy 0); (mkOutPoint 22 0, large_utxo 8 2 1)].

Definition large_db : ZakuraDb :=
  mkDb (fun op => if bool_decide (op = mkOutPoint 99 0) then Some (large_utxo 9 0 1) else None)
    (fun _ => false) (fun _ => false) (fun _ => false) (fun _ => false).

(** The spends of a block that is checked against a chain, the block with them,
    and the chain with the block *)
Definition spends_of (c : Chain) (verified : Checkpoint.CheckpointVerifiedBlock)
  : res ValidateContextError (gmap OutPoint OrderedUtxo) :=
  transparent_spend verified (network c) (created_utxos (outputs_index (indexes c)))
    (spent_utxos (outputs_index (indexes c))) large_db.

Definition large_chain : Chain :=
  or_else (E := unit) (new sample_net 0 [] [] [] [] 0 (ValuePools.vb_of large 0 0)) no_chain.
Definition payment_spends : gmap OutPoint OrderedUtxo := or_else (spends_of large_chain payment) ∅.
Definition payment_block : ContextuallyVerifiedBlock :=
  or_else (with_block_and_spent_utxos sample_net payment payment_spends) sample1.
Definition payment_chain : Chain := or_else (push large_chain payment_block) no_chain.
Definition transfer_spends : gmap OutPoint OrderedUtxo := or_else (spends_of payment_chain self_transfer) ∅.
Definition transfer_block : ContextuallyVerifiedBlock :=
  or_else (with_block_and_spent_utxos sample_net self_transfer transfer_spends) sample1.

(** The balance of an address in a chain can panic.  The outputs of a
    transaction are added to the balances of their addresses before its inputs are
    subtracted, so an address that received more than half of the monetary base
    since the finalized tip and pays that output to itself exceeds the range of the
    balance: both blocks pass the checks of their transparent spends, the first is
    added to the chain, and adding the second panics. *)
Lemma self_transfer_panics :
  exists spent1 b1 c1 spent2 b2,
    spends_of large_chain payment = Ok spent1 /\ with_block_and_spent_utxos sample_net payment spent1 = Ok b1 /\
    push large_chain b1 = Ok c1 /\
    spends_of c1 self_transfer = Ok spent2 /\ with_block_and_spent_utxos sample_net self_transfer spent2 = Ok b2 /\
    push c1 b2 = Panic.
Proof.
  exists payment_spends, payment_block, payment_chain, transfer_spends, transfer_block.
  split_and!; [apply or_else_Ok; vm_compute; reflexivity..|].
  assert (H : match push payment_chain transfer_block with Panic => true | _ => false end = true)
    by (vm_compute; reflexivity).
  by destruct (push payment_chain transfer_block).
Qed.
End ChainFacts.
