(* ===== verification/ContextChecks.v ===== *)
(** * Contextual checks of commitments and anchors

    What a block commits to and refers to, checked against the chain it extends:
    the commitment of its header to the chain history and to the authorizing data
    ([zakura-chain/src/block/commitment.rs] and
    [block_commitment_is_valid_for_chain_history] of
    [zakura-state/src/service/check.rs]), and the anchors of its transactions
    ([zakura-state/src/service/check/anchors.rs]).  [AnchorFacts] shows what the
    checks of the anchors accept. *)

From stdpp Require Import base numbers strings list option gmap sets.
From Stdlib Require Import ZArith Lia.
From S2P Require Import Prelude Height Amount BTree Network NodeData ValueBalance ValuePools Difficulty Dependencies Transparent MempoolTx Merkle BlockHeader Block Checkpoint BlockCheck SharedMap AddressIndex TreeIndex SpendCheck Chain ChainContent ChainBlocks ChainTrees ChainRun ChainFacts.
Local Open Scope Z_scope.
Local Notation length := List.length.

Module ContextChecks.
Import Chain Network NodeData Merkle BlockHeader Block SharedMap TreeIndex.

(** ** Block commitments *)

Inductive Commitment :=
| PreSaplingReserved (bytes : list Z)
| FinalSaplingRoot (bytes : list Z)
| ChainHistoryActivationReserved
| ChainHistoryRoot (hash : list Z)
| ChainHistoryBlockTxAuthCommitment (hash : list Z).

(** The errors of these checks *)
Inductive CommitmentError :=
| InvalidChainHistoryActivationReserved (actual : list Z)
| InvalidChainHistoryRoot (actual expected : list Z)
| InvalidChainHistoryBlockTxAuthCommitment (actual expected : list Z)
| MissingBlockHeight (block_hash : Hash)
| InvalidSapingRootBytes.

Definition CHAIN_HISTORY_ACTIVATION_RESERVED : list Z := replicate 32 0.

(** The ASCII bytes of ["ZcashBlockCommit"]. *)
Definition ZCASH_BLOCK_COMMIT : list Z :=
  [90; 99; 97; 115; 104; 66; 108; 111; 99; 107; 67; 111; 109; 109; 105; 116].

(** What the checks read of the code they call: whether bytes are an element of
    the base field of Jubjub, the hash of a history tree, and the anchors of the
    transactions, with the notes of each JoinSplit description. *)
Class Referred {NT : Chain.NoteTrees} := {
  is_jubjub_base : list Z -> bool;
  history_hash : Chain.HistoryTree -> option (list Z);
  sapling_anchors : BlockTx -> list Chain.Root;
  orchard_anchor : BlockTx -> option Chain.Root;
  ironwood_anchor : BlockTx -> option Chain.Root;
  joinsplits : BlockTx -> list (Chain.Root * list Chain.Commitment);
}.

Section Commitments.
Context {SH : Sha256} {B : Blake2b} {NT : Chain.NoteTrees} {RF : Referred}.

Definition reserved (bytes : list Z) : res CommitmentError Commitment :=
  if bool_decide (bytes = CHAIN_HISTORY_ACTIVATION_RESERVED) then Ok ChainHistoryActivationReserved
  else Err (InvalidChainHistoryActivationReserved bytes).

(** [Commitment::from_bytes] *)
Definition commitment_from_bytes (bytes : list Z) (net : Network) (height : Z)
  : res CommitmentError Commitment :=
  let? (nu, nu_height) := current_with_activation_height net height in
  match nu with
  | Genesis | BeforeOverwinter | Overwinter => Ok (PreSaplingReserved bytes)
  | Sapling | Blossom =>
      if is_jubjub_base bytes then Ok (FinalSaplingRoot bytes) else Err InvalidSapingRootBytes
  | Heartwood => if height =? nu_height then reserved bytes else Ok (ChainHistoryRoot bytes)
  | Canopy =>
      if bool_decide (Some height = activation_height Heartwood net) then reserved bytes
      else Ok (ChainHistoryRoot bytes)
  | Nu5 | Nu6 | Nu6_1 | Nu6_2 | Nu6_3 | Nu7 => Ok (ChainHistoryBlockTxAuthCommitment bytes)
  end.

(** [BlockRef::commitment] *)
Definition commitment (self : Block) (net : Network) : res CommitmentError Commitment :=
  match coinbase_height self with
  | None => let? h := block_hash self in Err (MissingBlockHeight h)
  | Some height => commitment_from_bytes (commitment_bytes (header self)) net height
  end.

(** [BlockRef::auth_data_root] *)
Definition auth_data_root {E} (self : Block) : res E Hash :=
  auth_data_root_from_iter ((fun tx => auth_digest_or_placeholder (auth_digest tx)) <$> transactions self).

(** [ChainHistoryBlockTxAuthCommitmentHash::from_commitments] *)
Definition from_commitments (history_tree_root : list Z) (auth_data_root : Hash) : list Z :=
  blake2b_personal ZCASH_BLOCK_COMMIT (history_tree_root ++ hash_bytes auth_data_root ++ replicate 32 0).

Definition block_commitment_is_valid_for_chain_history (block : Block) (net : Network)
  (history_tree : Chain.HistoryTree) (precomputed_auth_data_root : option Hash)
  : res CommitmentError unit :=
  let? c := commitment block net in
  match c with
  | PreSaplingReserved _ | FinalSaplingRoot _ | ChainHistoryActivationReserved => Ok tt
  | ChainHistoryRoot actual =>
      let? expected := expect (history_hash history_tree) in
      if bool_decide (actual = expected) then Ok tt else Err (InvalidChainHistoryRoot actual expected)
  | ChainHistoryBlockTxAuthCommitment actual =>
      let? history_tree_root :=
        expect
          (match history_hash history_tree with
           | Some root => Some root
           | None =>
               if bool_decide (activation_height Heartwood net = coinbase_height block)
               then Some CHAIN_HISTORY_ACTIVATION_RESERVED else None
           end) in
      let? root :=
        match precomputed_auth_data_root with Some root => Ok root | None => auth_data_root block end in
      let expected := from_commitments history_tree_root root in
      if bool_decide (actual = expected) then Ok tt
      else Err (InvalidChainHistoryBlockTxAuthCommitment actual expected)
  end.
End Commitments.

(** ** Anchors *)

Section Anchors.
Context {NT : Chain.NoteTrees} {RF : Referred}.

(** The reads of the finalized state *)
Record AnchorDb := mkAnchorDb {
  contains_sapling_anchor : Chain.Root -> bool;
  contains_orchard_anchor : Chain.Root -> bool;
  contains_ironwood_anchor : Chain.Root -> bool;
  sprout_tree_by_anchor : Chain.Root -> option Chain.Tree;
}.

(** The errors of these checks; [SproutTreeErr] is the error of a full tree. *)
Inductive AnchorError :=
| UnknownSproutAnchor (anchor : Chain.Root) (height tx_index_in_block : option Z) (transaction_hash : Hash)
| UnknownSaplingAnchor (anchor : Chain.Root) (height tx_index_in_block : option Z) (transaction_hash : Hash)
| UnknownOrchardAnchor (anchor : Chain.Root) (height tx_index_in_block : option Z) (transaction_hash : Hash)
| UnknownIronwoodAnchor (anchor : Chain.Root) (height tx_index_in_block : option Z) (transaction_hash : Hash)
| SproutTreeErr.

Section Final.
Context (finalized_state : AnchorDb) (parent_chain : option Chain.Chain).

(** An anchor of one pool, in the chain or in the finalized state *)
Definition known_anchor (pool : Chain.Trees -> TreeIndex Chain.Tree Chain.Root)
  (finalized : Chain.Root -> bool) (anchor : Chain.Root) : bool :=
  match parent_chain with
  | Some chain => counted_contains (anchors (pool (Chain.trees chain))) anchor
  | None => false
  end || finalized anchor.

Definition check_anchor (pool : Chain.Trees -> TreeIndex Chain.Tree Chain.Root)
  (finalized : Chain.Root -> bool) (error : Chain.Root -> AnchorError) (anchor : Chain.Root)
  : res AnchorError unit :=
  if known_anchor pool finalized anchor then Ok tt else Err (error anchor).

Definition sapling_orchard_ironwood_anchors_refer_to_final_treestates (transaction : BlockTx)
  (transaction_hash : Hash) (tx_index_in_block height : option Z) : res AnchorError unit :=
  let? _ :=
    foldl (fun acc anchor =>
             let? _ := acc in
             check_anchor Chain.sapling_trees (contains_sapling_anchor finalized_state)
               (fun a => UnknownSaplingAnchor a height tx_index_in_block transaction_hash) anchor)
      (Ok tt) (sapling_anchors transaction) in
  let? _ :=
    match orchard_anchor transaction with
    | Some anchor =>
        check_anchor Chain.orchard_trees (contains_orchard_anchor finalized_state)
          (fun a => UnknownOrchardAnchor a height tx_index_in_block transaction_hash) anchor
    | None => Ok tt
    end in
  match ironwood_anchor transaction with
  | Some anchor =>
      check_anchor Chain.ironwood_trees (contains_ironwood_anchor finalized_state)
        (fun a => UnknownIronwoodAnchor a height tx_index_in_block transaction_hash) anchor
  | None => Ok tt
  end.

(** The final treestate of an anchor *)
Definition sprout_final_treestate (anchor : Chain.Root) : option Chain.Tree :=
  match (chain ← parent_chain; trees ← trees_by_anchor (Chain.sprout_trees (Chain.trees chain)); trees !! anchor) with
  | Some tree => Some tree
  | None => sprout_tree_by_anchor finalized_state anchor
  end.

Definition fetch_sprout_final_treestates (sprout_final_treestates : gmap Chain.Root Chain.Tree)
  (transaction : BlockTx) : gmap Chain.Root Chain.Tree :=
  foldl (fun treestates (joinsplit : Chain.Root * list Chain.Commitment) =>
           if bool_decide (is_Some (treestates !! joinsplit.1)) then treestates
           else
             match sprout_final_treestate joinsplit.1 with
             | Some input_tree => <[joinsplit.1 := input_tree]> treestates
             | None => treestates
             end)
    sprout_final_treestates (joinsplits transaction).
End Final.

(** The loop over the JoinSplit descriptions: the last one adds no interstitial
    treestate. *)
Fixpoint check_joinsplits (sprout_final_treestates : gmap Chain.Root Chain.Tree)
  (error : Chain.Root -> AnchorError) (interstitial_trees : gmap Chain.Root Chain.Tree)
  (l : list (Chain.Root * list Chain.Commitment)) : res AnchorError unit :=
  match l with
  | [] => Ok tt
  | (anchor, commitments) :: l' =>
      let? input_tree :=
        ok_or (error anchor)
          (match interstitial_trees !! anchor with
           | Some tree => Some tree
           | None => sprout_final_treestates !! anchor
           end) in
      match l' with
      | [] => Ok tt
      | _ =>
          let? appended := map_err (fun _ => SproutTreeErr) (Chain.append_batch Chain.Sprout input_tree commitments) in
          check_joinsplits sprout_final_treestates error
            (<[Chain.tree_root appended.1 := appended.1]> interstitial_trees) l'
      end
  end.

Definition sprout_anchors_refer_to_treestates (sprout_final_treestates : gmap Chain.Root Chain.Tree)
  (transaction : BlockTx) (transaction_hash : Hash) (tx_index_in_block height : option Z)
  : res AnchorError unit :=
  check_joinsplits sprout_final_treestates
    (fun a => UnknownSproutAnchor a height tx_index_in_block transaction_hash) ∅ (joinsplits transaction).

(** The checks of each transaction of a block, in order; with several invalid
    transactions the parallel check may return the error of a later one. *)
Definition for_each_transaction (block : Block) (transaction_hashes : list Hash)
  (check : BlockTx -> Hash -> option Z -> res AnchorError unit) : res AnchorError unit :=
  foldl (fun acc '(i, transaction) =>
           let? _ := acc in
           let? hash := expect (transaction_hashes !! i) in
           check transaction hash (Some (Z.of_nat i)))
    (Ok tt) (imap pair (transactions block)).

Definition block_sapling_orchard_ironwood_anchors_refer_to_final_treestates (finalized_state : AnchorDb)
  (parent_chain : Chain.Chain) (verified : Checkpoint.CheckpointVerifiedBlock) : res AnchorError unit :=
  for_each_transaction (Checkpoint.block verified) (Checkpoint.transaction_hashes verified)
    (fun transaction hash i =>
       sapling_orchard_ironwood_anchors_refer_to_final_treestates finalized_state (Some parent_chain)
         transaction hash i (Some (Checkpoint.height verified))).

Definition block_fetch_sprout_final_treestates (finalized_state : AnchorDb) (parent_chain : Chain.Chain)
  (verified : Checkpoint.CheckpointVerifiedBlock) : gmap Chain.Root Chain.Tree :=
  foldl (fetch_sprout_final_treestates finalized_state (Some parent_chain)) ∅
    (transactions (Checkpoint.block verified)).

Definition block_sprout_anchors_refer_to_treestates (sprout_final_treestates : gmap Chain.Root Chain.Tree)
  (block : Block) (transaction_hashes : list Hash) (height : Z) : res AnchorError unit :=
  for_each_transaction block transaction_hashes
    (fun transaction hash i =>
       sprout_anchors_refer_to_treestates sprout_final_treestates transaction hash i (Some height)).

(** [tx_anchors_refer_to_final_treestates], for a transaction of the mempool *)
Definition tx_anchors_refer_to_final_treestates (finalized_state : AnchorDb) (parent_chain : option Chain.Chain)
  (transaction : BlockTx) (mined_id : Hash) : res AnchorError unit :=
  let? _ :=
    sapling_orchard_ironwood_anchors_refer_to_final_treestates finalized_state parent_chain transaction
      mined_id None None in
  match joinsplits transaction with
  | [] => Ok tt
  | _ =>
      sprout_anchors_refer_to_treestates
        (fetch_sprout_final_treestates finalized_state parent_chain ∅ transaction) transaction mined_id None None
  end.
End Anchors.
End ContextChecks.

(** ** The anchors of a block *)

Module AnchorFacts.
Import Network Chain Block SharedMap TreeIndex ChainTrees ChainRun ChainFacts ContextChecks.

Section Facts.
Context {NT : NoteTrees} {completed : Tree -> Z} {NTL : NoteTreesLaws completed} {RF : Referred}.
Implicit Types (pool : Pool) (c : Chain) (db : AnchorDb) (t : Tree) (a : Root).

(** [t] is the final tree of a height of the chain. *)
Definition final_of c pool t : Prop := exists h ts, treestate (trees c) h = Some ts /\ tree_of pool ts = t.

(** The rule of the protocol for the JoinSplit descriptions of a transaction: the
    anchor of each is the root of a final treestate or of the interstitial
    treestate of an earlier one, which adds its notes to the tree it refers to. *)
Fixpoint chained (final interstitial : Tree -> Prop) (l : list (Root * list Chain.Commitment)) : Prop :=
  match l with
  | [] => True
  | (anchor, commitments) :: l' =>
      exists t, tree_root t = anchor /\ (final t \/ interstitial t) /\
        (l' = [] \/ exists t' subtree, append_batch Sprout t commitments = Ok (t', subtree) /\
                      chained final (fun u => u = t' \/ interstitial u) l')
  end.

Lemma final_of_trees c base old new pool t :
  trees_of (trees c) base old new -> final_of c pool t <-> t ∈ tree_of pool <$> old ++ new.
Proof using.
  intros Ht. assert (Hat : forall h p, base <= h < base + Z.of_nat (length (old ++ new)) ->
    tree_at (pool_index (trees c) p) h = (tree_of p <$> old ++ new) !! Z.to_nat (h - base)).
  { intros h p Hh. apply (tree_at_index tree_root); [apply Ht|by rewrite length_fmap]. }
  assert (Hh : forall h y, bt_get h (history_trees_by_height (trees c)) = Some y ->
    base <= h < base + Z.of_nat (length (old ++ new))).
  { intros h y. rewrite (t_history _ _ _ _ Ht). intros Hg%bt_get_Some; [|apply at_heights_wf].
    apply at_heights_keys in Hg. by rewrite length_fmap in Hg. }
  unfold final_of, treestate. split.
  - intros (h & ts & Hts & <-).
    destruct (tree_at (sprout_trees _) h) as [s1|] eqn:E1; [|done]. destruct (tree_at (sapling_trees _) h) as [s2|] eqn:E2; [|done].
    destruct (tree_at (orchard_trees _) h) as [s3|] eqn:E3; [|done]. destruct (tree_at (ironwood_trees _) h) as [s4|] eqn:E4; [|done].
    destruct (bt_get h _) as [y|] eqn:Ey; [|done]. injection Hts as <-. apply Hh in Ey.
    assert (Hp : tree_at (pool_index (trees c) pool) h =
      Some (tree_of pool (mkTreestate s1 s2 s3 s4 None None None y))) by by destruct pool.
    rewrite (Hat h pool Ey) in Hp. apply list_elem_of_lookup_2 in Hp. by destruct pool.
  - intros [i Hi]%list_elem_of_lookup. pose proof Hi as Hlen%lookup_lt_Some. rewrite length_fmap in Hlen.
    destruct (lookup_lt_is_Some_2 _ _ Hlen) as [ts Hts]. rewrite list_lookup_fmap, Hts in Hi. injection Hi as <-.
    set (h := base + Z.of_nat i). assert (Hp : forall p, tree_at (pool_index (trees c) p) h = Some (tree_of p ts)).
    { intros p. rewrite Hat by lia. replace (Z.to_nat (h - base)) with i by lia. by rewrite list_lookup_fmap, Hts. }
    assert (Hhist : bt_get h (history_trees_by_height (trees c)) = Some (ts_history ts)).
    { rewrite (t_history _ _ _ _ Ht). apply bt_get_Some; [apply at_heights_wf|].
      apply list_elem_of_split_length in Hts as (l1 & l2 & -> & Hl1). rewrite fmap_app, at_heights_app. cbn [fmap list_fmap at_heights].
      apply elem_of_app. right. rewrite length_fmap. replace (base + Z.of_nat (length l1)) with h by lia. left. }
    exists h. eexists. split; [|].
    + pose proof (Hp Sprout) as H1. pose proof (Hp Sapling) as H2. pose proof (Hp Orchard) as H3. pose proof (Hp Ironwood) as H4.
      cbn in H1, H2, H3, H4. rewrite H1, H2, H3, H4. cbn. rewrite Hhist. reflexivity.
    + by destruct pool.
Qed.

Lemma known_anchor_spec c base old new pool (field : Trees -> TreeIndex Tree Root) finalized a :
  trees_of (trees c) base old new -> field (trees c) = pool_index (trees c) pool ->
  known_anchor (Some c) field finalized a = true <->
  (exists t, final_of c pool t /\ tree_root t = a) \/ finalized a = true.
Proof using.
  intros Ht Hf. unfold known_anchor. rewrite Hf, orb_true_iff, (i_anchors _ _ _ _ (t_index _ _ _ _ Ht pool)).
  rewrite counted_contains_counts, bool_decide_eq_true, list_elem_of_fmap.
  setoid_rewrite (final_of_trees c base old new pool _ Ht). naive_solver.
Qed.

(** A loop of checks succeeds when every check does. *)
Lemma checks_all {E A} (check : A -> res E unit) l :
  foldl (fun acc x => let? _ := acc in check x) (Ok tt) l = Ok tt <-> forall x, x ∈ l -> check x = Ok tt.
Proof using.
  assert (Hstop : forall r, r <> Ok tt -> foldl (fun acc x => let? _ := acc in check x) r l <> Ok tt).
  { clear. induction l as [|x l IH]; intros r Hr; [done|]. cbn. apply IH. by destruct r as [[]|e|]. }
  revert Hstop. induction l as [|x l IH]; intros Hstop; cbn [foldl res_bind].
  { split; [by intros _ x ?%elem_of_nil|done]. }
  assert (Hstop' : forall r, r <> Ok tt -> foldl (fun acc x => let? _ := acc in check x) r l <> Ok tt).
  { clear. induction l as [|y l IH]; intros r Hr; [done|]. cbn. apply IH. by destruct r as [[]|e|]. }
  destruct (decide (is_Some (match check x with Ok u => Some u | _ => None end))) as [Hx|Hx].
  - destruct (check x) as [[]|e|] eqn:Hc; [|by destruct Hx..]. rewrite (IH Hstop'). split.
    + intros H y [->|Hy]%elem_of_cons; [done|by apply H].
    + intros H y Hy. apply H. by right.
  - split; [|intros H; destruct Hx; rewrite (H x) by left; by eexists]. intros H. exfalso. revert H. apply Hstop'.
    intros Hc. apply Hx. rewrite Hc. by eexists.
Qed.

Lemma foldl_same {A B} (f g : A -> B -> A) l : (forall r x, f r x = g r x) -> forall r, foldl f r l = foldl g r l.
Proof using. intros H. induction l as [|x l IH]; intros r; [done|]. cbn. by rewrite H. Qed.

Lemma for_each_all block hashes check :
  (length (transactions block) <= length hashes)%nat ->
  for_each_transaction block hashes check = Ok tt <->
  forall i tx hash, transactions block !! i = Some tx -> hashes !! i = Some hash -> check tx hash (Some (Z.of_nat i)) = Ok tt.
Proof using.
  intros Hlen. unfold for_each_transaction.
  rewrite (foldl_same _ (fun acc p => let? _ := acc in
    (let? hash := expect (hashes !! p.1) in check p.2 hash (Some (Z.of_nat p.1))))) by by intros acc [i tx].
  rewrite checks_all. split.
  - intros H i tx hash Hi Hh. specialize (H (i, tx)). cbn in H. rewrite Hh in H. cbn [expect res_bind] in H. apply H.
    apply elem_of_lookup_imap. by exists i, tx.
  - intros H p (i & tx & -> & Hi)%elem_of_lookup_imap. cbn.
    destruct (lookup_lt_is_Some_2 hashes i) as [hash Hh]; [apply lookup_lt_Some in Hi; lia|]. rewrite Hh. by apply H.
Qed.

(** The treestates a block fetches are those of its anchors. *)
Lemma fetch_spec db oc txs a :
  foldl (fetch_sprout_final_treestates db oc) ∅ txs !! a =
  if decide (a ∈ (concat (joinsplits <$> txs)).*1) then sprout_final_treestate db oc a else None.
Proof using.
  assert (Hjs : forall (l : list (Root * list Chain.Commitment)) (m : gmap Root Tree) a,
    foldl (fun treestates joinsplit =>
             if bool_decide (is_Some (treestates !! joinsplit.1)) then treestates
             else match sprout_final_treestate db oc joinsplit.1 with
                  | Some input_tree => <[joinsplit.1 := input_tree]> treestates
                  | None => treestates
                  end) m l !! a =
    match m !! a with Some t => Some t | None => if decide (a ∈ l.*1) then sprout_final_treestate db oc a else None end).
  { clear. induction l as [|[r cs] l IH]; intros m a; cbn [foldl fst]; [by destruct (m !! a)|]. rewrite IH. clear IH. cbn [fmap list_fmap fst].
    case_bool_decide as Hr.
    - destruct (m !! a) eqn:Ha; [done|]. assert (a <> r) by (intros ->; rewrite Ha in Hr; by destruct Hr).
      repeat case_decide; set_solver.
    - destruct (sprout_final_treestate db oc r) as [t|] eqn:Ht.
      + destruct (decide (a = r)) as [->|Hne].
        * rewrite lookup_insert_eq. destruct (m !! r) eqn:Hm; [destruct Hr; by eexists|]. rewrite decide_True by set_solver. done.
        * rewrite lookup_insert_ne by done. destruct (m !! a); [done|]. repeat case_decide; set_solver.
      + destruct (m !! a); [done|]. destruct (decide (a = r)) as [->|Hne]; [by repeat case_decide|].
        repeat case_decide; set_solver. }
  assert (Htx : forall m, foldl (fetch_sprout_final_treestates db oc) m txs !! a =
    match m !! a with
    | Some t => Some t
    | None => if decide (a ∈ (concat (joinsplits <$> txs)).*1) then sprout_final_treestate db oc a else None
    end).
  { induction txs as [|tx txs IH]; intros m; cbn [foldl fmap list_fmap concat]; [by destruct (m !! a)|]. rewrite IH.
    unfold fetch_sprout_final_treestates at 1. rewrite Hjs. destruct (m !! a); [done|]. rewrite fmap_app.
    destruct (decide (a ∈ (joinsplits tx).*1)) as [Hin|Hin].
    - rewrite (decide_True (P := a ∈ _ ++ _)) by (apply elem_of_app; by left). destruct (sprout_final_treestate db oc a); [done|].
      by case_decide.
    - repeat case_decide; try done; rewrite elem_of_app in *; tauto. }
  rewrite Htx. by rewrite lookup_empty.
Qed.

Lemma check_joinsplits_spec states error (final interstitial : Tree -> Prop) m l :
  (forall a t, a ∈ l.*1 -> states !! a = Some t <-> final t /\ tree_root t = a) ->
  (forall a t, m !! a = Some t <-> interstitial t /\ tree_root t = a) ->
  check_joinsplits states error m l = Ok tt <-> chained final interstitial l.
Proof using NTL.
  revert m interstitial. induction l as [|[a cs] l IH]; intros m interstitial Hs Hm; cbn [check_joinsplits chained]; [done|].
  assert (Hlook : forall t, (match m !! a with Some t => Some t | None => states !! a end) = Some t <->
    tree_root t = a /\ (final t \/ interstitial t)).
  { intros t. pose proof (Hs a t ltac:(left)) as Hst. destruct (m !! a) as [u|] eqn:Hu.
    - apply Hm in Hu as [Hi Hr]. split; [intros [= <-]; tauto|]. intros [Hrt _]. f_equal. apply tree_root_inj. congruence.
    - rewrite Hst. split; [tauto|]. intros [Hr [Hf|Hi]]; [done|]. exfalso. assert (m !! a = Some t) by (by apply Hm). congruence. }
  destruct (match m !! a with Some t => Some t | None => states !! a end) as [t|]; cbn [ok_or res_bind].
  2: { split; [done|]. intros (t & Hr & Hf & _). by assert (None = Some t) by (by apply Hlook). }
  destruct (proj1 (Hlook t) eq_refl) as [Hr Hf].
  assert (Huniq : forall u, tree_root u = a -> u = t) by (intros u Hu; apply tree_root_inj; congruence).
  destruct l as [|js l]; [split; [|done]; intros _; exists t; tauto|].
  assert (Hgo : forall t' s, append_batch Sprout t cs = Ok (t', s) ->
    check_joinsplits states error (<[tree_root t' := t']> m) (js :: l) = Ok tt <->
    chained final (fun u => u = t' \/ interstitial u) (js :: l)).
  { intros t' s _. apply IH; [intros a' u Ha'; apply Hs; by right|]. intros a' u. rewrite lookup_insert_Some, Hm. split.
    - intros [[<- <-]|[_ [? ?]]]; tauto.
    - intros [[->|Hi] Hu]; [tauto|]. destruct (decide (tree_root t' = a')) as [He|He]; [|tauto].
      left. split; [done|]. apply tree_root_inj. congruence. }
  destruct (append_batch Sprout t cs) as [[t' s]|e|] eqn:Ha; cbn [map_err res_bind fst].
  - rewrite (Hgo t' s eq_refl). split.
    + intros Hc. exists t. split; [done|]. split; [done|]. right. by exists t', s.
    + intros (u & Hu%Huniq & _ & [?|(t1 & s1 & Ha1 & Hc)]); [done|]. subst u. rewrite Ha in Ha1. by injection Ha1 as <- <-.
  - split; [done|]. intros (u & Hu%Huniq & _ & [?|(t1 & s1 & Ha1 & Hc)]); [done|]. subst u. by rewrite Ha in Ha1.
  - split; [done|]. intros (u & Hu%Huniq & _ & [?|(t1 & s1 & Ha1 & Hc)]); [done|]. subst u. by rewrite Ha in Ha1.
Qed.

Definition final_sprout c db t : Prop := final_of c Sprout t \/ sprout_tree_by_anchor db (tree_root t) = Some t.

Lemma sprout_final_spec c base old new db a t :
  trees_of (trees c) base old new -> (forall a t, sprout_tree_by_anchor db a = Some t -> tree_root t = a) ->
  sprout_final_treestate db (Some c) a = Some t <-> final_sprout c db t /\ tree_root t = a.
Proof using NTL.
  intros Ht Hdb. unfold sprout_final_treestate, final_sprout. rewrite (final_of_trees c base old new Sprout t Ht).
  destruct (proj2 (t_by_anchor _ _ _ _ Ht Sprout) eq_refl) as [m Hm]. cbn in Hm. cbn [mbind option_bind]. rewrite Hm. cbn.
  pose proof (i_by_anchor _ _ _ _ (t_index _ _ _ _ Ht Sprout) m Hm) as Hi.
  destruct (m !! a) as [u|] eqn:Hu.
  - pose proof (proj1 (Hi _ _) Hu) as [Hin Hr]. split; [intros [= <-]; tauto|]. intros [_ Hrt]. f_equal. apply tree_root_inj. congruence.
  - split; [|intros [[Hin|Hs] <-]; [|done]; pose proof (proj2 (Hi _ _) (conj Hin eq_refl)); congruence].
    intros Hs. pose proof (Hdb a t Hs) as Hr. rewrite Hr. tauto.
Qed.

(** The anchors of the pools with final treestates only *)
Definition refers c pool (finalized : Root -> bool) a : Prop :=
  (exists t, final_of c pool t /\ tree_root t = a) \/ finalized a = true.

Lemma pool_anchors_spec c base old new db tx hash i height :
  trees_of (trees c) base old new ->
  sapling_orchard_ironwood_anchors_refer_to_final_treestates db (Some c) tx hash i height = Ok tt <->
  (forall a, a ∈ sapling_anchors tx -> refers c Sapling (contains_sapling_anchor db) a) /\
  (forall a, orchard_anchor tx = Some a -> refers c Orchard (contains_orchard_anchor db) a) /\
  (forall a, ironwood_anchor tx = Some a -> refers c Ironwood (contains_ironwood_anchor db) a).
Proof using.
  intros Ht. assert (Hcheck : forall pool field finalized error a, field (trees c) = pool_index (trees c) pool ->
    check_anchor (Some c) field finalized error a = Ok tt <-> refers c pool finalized a).
  { intros pool field finalized error a Hf. unfold refers. rewrite <- (known_anchor_spec c base old new pool field finalized a Ht Hf).
    unfold check_anchor. by destruct (known_anchor _ _ _ _). }
  unfold sapling_orchard_ironwood_anchors_refer_to_final_treestates.
  set (sapling := foldl _ _ _). assert (Hs : sapling = Ok tt <-> forall a, a ∈ sapling_anchors tx -> refers c Sapling (contains_sapling_anchor db) a).
  { unfold sapling. rewrite checks_all. split; intros H a Ha; eapply (Hcheck Sapling); eauto. }
  set (orchard := match orchard_anchor tx with Some _ => _ | None => _ end).
  assert (Ho : orchard = Ok tt <-> forall a, orchard_anchor tx = Some a -> refers c Orchard (contains_orchard_anchor db) a).
  { unfold orchard. destruct (orchard_anchor tx) as [a|]; [|done]. rewrite (Hcheck Orchard) by done. naive_solver. }
  set (ironwood := match ironwood_anchor tx with Some _ => _ | None => _ end).
  assert (Hi : ironwood = Ok tt <-> forall a, ironwood_anchor tx = Some a -> refers c Ironwood (contains_ironwood_anchor db) a).
  { unfold ironwood. destruct (ironwood_anchor tx) as [a|]; [|done]. rewrite (Hcheck Ironwood) by done. naive_solver. }
  rewrite <- Hs, <- Ho, <- Hi. clear. destruct sapling as [[]|e|]; cbn [res_bind]; [|naive_solver..].
  destruct orchard as [[]|e|]; cbn [res_bind]; naive_solver.
Qed.
End Facts.

(** C38: the anchors of a block that comes with the hashes of its transactions are
    checked exactly, against every chain that is reached.
    A final treestate is one of a height of the chain, as [Chain::treestate] returns it,
    or one the finalized state has, whose trees have the roots they are stored under.
    The check of the Sapling, Orchard and Ironwood anchors accepts a block exactly when
    each of them is the root of a final treestate of its pool.  The check of the Sprout
    anchors, with the treestates fetched for the block, accepts it exactly when in every
    transaction the anchor of each JoinSplit description is the root of a final
    treestate or of the interstitial one of an earlier description of the same
    transaction, and these can be built, except that of the last description. *)
Theorem block_anchors_exact (U : Difficulty.U256) (UL : Difficulty.U256Laws U) (NT : NoteTrees)
  (completed : Tree -> Z) (NTL : NoteTreesLaws completed) (RF : Referred) net c root bs db verified :
  net_wf net -> reached net c root bs ->
  (forall a t, sprout_tree_by_anchor db a = Some t -> tree_root t = a) ->
  (length (transactions (Checkpoint.block verified)) <= length (Checkpoint.transaction_hashes verified))%nat ->
  (block_sapling_orchard_ironwood_anchors_refer_to_final_treestates db c verified = Ok tt <->
   forall tx, tx ∈ transactions (Checkpoint.block verified) ->
     (forall a, a ∈ sapling_anchors tx -> refers c Sapling (contains_sapling_anchor db) a) /\
     (forall a, orchard_anchor tx = Some a -> refers c Orchard (contains_orchard_anchor db) a) /\
     (forall a, ironwood_anchor tx = Some a -> refers c Ironwood (contains_ironwood_anchor db) a)) /\
  (block_sprout_anchors_refer_to_treestates (block_fetch_sprout_final_treestates db c verified)
     (Checkpoint.block verified) (Checkpoint.transaction_hashes verified) (Checkpoint.height verified) = Ok tt <->
   forall tx, tx ∈ transactions (Checkpoint.block verified) ->
     chained (final_sprout c db) (fun _ => False) (joinsplits tx)).
Proof.
  intros Hnet Hr Hdb Hlen. destruct (reached_chain_of net c root bs Hnet Hr) as (b & ls & Hc & _ & _).
  pose proof (c_trees _ _ _ _ Hc) as Ht.
  assert (Hall : forall check (P : BlockTx -> Prop), (forall tx hash i, tx ∈ transactions (Checkpoint.block verified) -> check tx hash i = Ok tt <-> P tx) ->
    for_each_transaction (Checkpoint.block verified) (Checkpoint.transaction_hashes verified) check = Ok tt <->
    forall tx, tx ∈ transactions (Checkpoint.block verified) -> P tx).
  { intros check P Hcheck. rewrite for_each_all by done. split.
    - intros H tx Htx. pose proof Htx as [i Hi]%list_elem_of_lookup.
      destruct (lookup_lt_is_Some_2 (Checkpoint.transaction_hashes verified) i) as [hash Hh];
        [apply lookup_lt_Some in Hi; lia|]. by apply (Hcheck tx hash (Some (Z.of_nat i))), H.
    - intros H i tx hash Hi%list_elem_of_lookup_2 _. by apply Hcheck, H. }
  split; apply Hall; intros tx hash i Htx; [by apply pool_anchors_spec with (1 := Ht)|].
  apply check_joinsplits_spec.
  - intros a t Ha. unfold block_fetch_sprout_final_treestates. rewrite fetch_spec, decide_True; [by apply sprout_final_spec with (1 := Ht)|].
    apply list_elem_of_fmap in Ha as (js & -> & Hjs). apply list_elem_of_fmap. exists js. split; [done|].
    apply list_elem_of_In, List.in_concat. exists (joinsplits tx). rewrite <- !list_elem_of_In. split; [by apply list_elem_of_fmap_2|done].
  - intros a t. rewrite lookup_empty. naive_solver.
Qed.

(** A transaction with two JoinSplit descriptions: the second one refers to the
    interstitial treestate of the first. *)
#[local] Existing Instance Difficulty.u256_Z.
#[local] Existing Instance toy_trees.
#[local] Instance joinsplit_pair : Referred (NT := toy_trees) := {|
  is_jubjub_base _ := true;
  history_hash _ := Some [];
  sapling_anchors _ := [[101; 102]];
  orchard_anchor _ := None;
  ironwood_anchor _ := None;
  joinsplits _ := [([], [5; 6]); ([5; 6], [7; 8])];
|}.

Definition joinsplit_block : Checkpoint.CheckpointVerifiedBlock :=
  Checkpoint.mkVerified Checkpoint.NetworkOrigin (block sample2) 1003 3 ∅ [21; 22] None None None.

Definition no_anchors : AnchorDb (NT := toy_trees) := mkAnchorDb (NT := toy_trees) (fun _ => false) (fun _ => false) (fun _ => false) (fun _ => None).

Lemma block_anchors_exact_witness :
  block_sapling_orchard_ironwood_anchors_refer_to_final_treestates no_anchors sample_chain2 joinsplit_block = Ok tt /\
  (exists t, final_of sample_chain2 Sapling t /\ tree_root t = [101; 102]) /\
  forall tx, tx ∈ transactions (block sample2) ->
    chained (final_sprout sample_chain2 no_anchors) (fun _ => False) (joinsplits tx).
Proof.
  destruct (block_anchors_exact Difficulty.u256_Z Difficulty.u256_Z_laws toy_trees toy_completed toy_trees_laws joinsplit_pair
    sample_net sample_chain2 1 [sample1; sample2] no_anchors joinsplit_block ValuePools.nu7_network_wf sample_reached2)
    as [Hp Hs]; [discriminate|apply Nat.leb_le; reflexivity|].
  assert (Hok : block_sapling_orchard_ironwood_anchors_refer_to_final_treestates no_anchors sample_chain2 joinsplit_block = Ok tt)
    by (vm_compute; reflexivity).
  split; [exact Hok|]. split.
  - destruct (proj1 Hp Hok (sample_coinbase 2 21 [] subsidy) ltac:(left)) as [Ha _].
    destruct (Ha [101; 102] ltac:(left)) as [H|H]; [exact H|discriminate H].
  - apply Hs. vm_compute. reflexivity.
Defined.
End AnchorFacts.
