(* ===== verification/NonFinalized.v ===== *)
(** * The non-finalized state

    [zakura-state/src/service/non_finalized_state.rs]: the set of the chains above
    the finalized tip, in ascending order of preference.  Committing a block to a
    chain or to a new fork, finalizing the root of the best chain, invalidating and
    reconsidering blocks, and the operator's preferences between tips of equal work.

    A method on [&mut self] that fails returns the state it leaves beside the error
    ([failing]).  The finalized state is a record of its answers.  The cache of proposal results
    is empty: a block is validated when it is committed.  Metrics are counted, and
    the assertions of their updates are kept. *)

From stdpp Require Import base numbers strings list option gmap sets sorting.
From Stdlib Require Import ZArith Lia.
From S2P Require Import Prelude Height Amount BTree Network NodeData ValueBalance Difficulty Dependencies Transparent MempoolTx Merkle BlockHeader Block Checkpoint BlockCheck SharedMap AddressIndex TreeIndex SpendCheck Chain ContextChecks.
Local Open Scope Z_scope.
Local Notation length := List.length.

Module NonFinalized.
Import Network NodeData Merkle BlockHeader Block Checkpoint SpendCheck Chain ContextChecks.

Definition MAX_NON_FINALIZED_CHAIN_FORKS : nat := 10.
Definition MAX_INVALIDATED_BLOCKS : nat := 100.

(** ** Predicates that can panic *)

Section Lists.
Context {E A B : Type}.

(** [Iterator::find] *)
Fixpoint find_res (f : A -> res E bool) (l : list A) : res E (option A) :=
  match l with
  | [] => Ok None
  | x :: l => let? b := f x in if b : bool then Ok (Some x) else find_res f l
  end.

(** [Iterator::find_map] *)
Fixpoint find_map_res (f : A -> res E (option B)) (l : list A) : res E (option B) :=
  match l with
  | [] => Ok None
  | x :: l => let? o := f x in match o with Some y => Ok (Some y) | None => find_map_res f l end
  end.

(** [BTreeSet::retain] *)
Fixpoint retain_res (f : A -> res E bool) (l : list A) : res E (list A) :=
  match l with
  | [] => Ok []
  | x :: l =>
      let? b := f x in
      let? l := retain_res f l in
      Ok (if b : bool then x :: l else l)
  end.
End Lists.

(** [IndexMap::insert]: an existing key keeps its place. *)
Fixpoint index_insert {V} (k : Z) (v : V) (m : list (Z * V)) : list (Z * V) :=
  match m with
  | [] => [(k, v)]
  | (k', v') :: m => if k =? k' then (k, v) :: m else (k', v') :: index_insert k v m
  end.

(** [IndexMap::shift_remove] *)
Fixpoint shift_remove {V} (k : Z) (m : list (Z * V)) : list (Z * V) :=
  match m with
  | [] => []
  | (k', v') :: m => if k =? k' then m else (k', v') :: shift_remove k m
  end.

(** ** The set of chains *)

Section ChainSet.
Context {NT : NoteTrees}.

(** [BTreeSet::insert]: an equal chain that is there stays. *)
Fixpoint set_insert {E} (c : Chain) (s : list Chain) : res E (list Chain) :=
  match s with
  | [] => Ok [c]
  | x :: s' =>
      let? o := cmp c x in
      match o with
      | Lt => Ok (c :: s)
      | Eq => Ok s
      | Gt => let? s' := set_insert c s' in Ok (x :: s')
      end
  end.

Fixpoint set_remove {E} (c : Chain) (s : list Chain) : res E (list Chain) :=
  match s with
  | [] => Ok []
  | x :: s' =>
      let? o := cmp c x in
      match o with
      | Lt => Ok s
      | Eq => Ok s'
      | Gt => let? s' := set_remove c s' in Ok (x :: s')
      end
  end.

Definition has_tip {E} (h : Hash) (c : Chain) : res E bool :=
  let? tip := non_finalized_tip_hash c in Ok (tip =? h).

Definition other_tip {E} (h : Hash) (c : Chain) : res E bool :=
  let? tip := non_finalized_tip_hash c in Ok (negb (tip =? h)).

(** The loop that evicts the least chains but the inserted one; each round removes
    a chain. *)
Fixpoint evict {E} (fuel : nat) (inserted_tip : Hash) (s : list Chain) : res E (list Chain) :=
  if (length s <=? MAX_NON_FINALIZED_CHAIN_FORKS)%nat then Ok s
  else
    match fuel with
    | O => Panic
    | S fuel =>
        let? evicted := find_res (other_tip inserted_tip) s in
        let? evicted := expect evicted in
        let? s := set_remove evicted s in
        evict fuel inserted_tip s
    end.
End ChainSet.

Definition contains_block_hash {NT : NoteTrees} (self : Chain) (h : Hash) : bool :=
  bool_decide (is_Some (height_by_hash (indexes self) !! h)).

(** [Chain::block] of a hash *)
Definition block_of_hash {NT : NoteTrees} (self : Chain) (h : Hash) : option ContextuallyVerifiedBlock :=
  height ← height_by_hash (indexes self) !! h; bt_get height (blocks self).

(** ** The state *)

Record NonFinalizedState {NT : NoteTrees} := mkState {
  chain_set : list Chain;
  invalidated_blocks : list (Z * list ContextuallyVerifiedBlock);
  precious_sequence : Z;
  precious_blocks : gmap Hash Z;
  state_network : Network;
}.
Arguments mkState {NT}.

(** The reads of the finalized state; [sprout_tree_for_tip] fails with the height
    of the tip whose tree is missing. *)
Record FinalizedState {NT : NoteTrees} := mkFinalized {
  spend_db : ZakuraDb;
  anchor_db : AnchorDb;
  finalized_tip_height : option Z;
  finalized_tip_hash : Hash;
  sprout_tree_for_tip : res Z Tree;
  sapling_tree_for_tip : Tree;
  orchard_tree_for_tip : Tree;
  ironwood_tree_for_tip : Tree;
  history_tree : HistoryTree;
  finalized_value_pool : ValueBalance.ValueBalance Amount.NonNegative;
  skips_transparent_indexes : bool;
  db_height : Hash -> option Z;
}.

(** The errors of these operations; [CheckErr] and [AnchorErr] are the ones of the
    checks and the chain update. *)
Inductive CommitError {NT : NoteTrees} :=
| MissingSproutTipTree (tip : Z)
| BlockPreviouslyInvalidated (block_hash : Hash)
| NotReadyToBeCommitted
| CalculateBlockChainValueChange (e : ValueBalance.ValueBalanceError) (height : Z) (block_hash : Hash)
    (transaction_count spent_utxo_count : Z)
| InvalidBlockCommitment (e : CommitmentError)
| AnchorErr (e : AnchorError)
| CheckErr (e : ValidateContextError).

Inductive InvalidateError := InvalidateBlockNotFound (block_hash : Hash).

Inductive PreciousError := PreciousBlockNotFound (block_hash : Hash).

Inductive ReconsiderError {NT : NoteTrees} :=
| MissingInvalidatedBlock (block_hash : Hash)
| ParentChainNotFound (block_hash : Hash)
| InvalidatedBlocksEmpty
| ReplayFailed (e : ValidateContextError)
| ReconsiderMissingTree (tip : Z).

Section State.
Context {U : Difficulty.U256} {SH : Sha256} {B : Blake2b} {NT : NoteTrees} {RF : Referred}.

Definition new_state (net : Network) : NonFinalizedState := mkState [] [] 0 ∅ net.

(** A step that fails while the state is [self]. *)
Definition failing {E A} (self : NonFinalizedState) (step : res E A) : res (E * NonFinalizedState) A :=
  map_err (fun e => (e, self)) step.

Definition set_chains (self : NonFinalizedState) (chains : list Chain) : NonFinalizedState :=
  mkState chains (invalidated_blocks self) (precious_sequence self) (precious_blocks self) (state_network self).

Definition set_invalidated (self : NonFinalizedState) (records : list (Z * list ContextuallyVerifiedBlock))
  : NonFinalizedState :=
  mkState (chain_set self) records (precious_sequence self) (precious_blocks self) (state_network self).

(** ** Queries *)

Definition chain_iter (self : NonFinalizedState) : list Chain := reverse (chain_set self).

Definition best_chain (self : NonFinalizedState) : option Chain := head (chain_iter self).

Definition find_chain {E} (self : NonFinalizedState) (predicate : Chain -> res E bool) : res E (option Chain) :=
  find_res predicate (chain_iter self).

Definition any_chain_contains (self : NonFinalizedState) (h : Hash) : bool :=
  existsb (fun c => contains_block_hash c h) (chain_iter self).

Definition is_invalidated (self : NonFinalizedState) (h : Hash) : bool :=
  existsb (fun r => existsb (fun b => hash b =? h) r.2) (invalidated_blocks self).

Definition best_chain_len (self : NonFinalizedState) : option Z :=
  (fun c => Z.of_nat (length (blocks c)) mod 2 ^ 32) <$> best_chain self.

Definition root_height {E} (self : NonFinalizedState) : res E (option Z) :=
  match best_chain self with
  | Some c => let? h := non_finalized_root_height c in Ok (Some h)
  | None => Ok None
  end.

Definition any_utxo (self : NonFinalizedState) (op : OutPoint) : option Utxo :=
  head (omap (fun c => utxo <$> created_utxos (outputs_index (indexes c)) !! op) (chain_iter self)).

Definition best_tip {E} (self : NonFinalizedState) : res E (option (Z * Hash)) :=
  match best_chain self with
  | Some c =>
      let? height := non_finalized_tip_height c in
      let? h := non_finalized_tip_hash c in
      Ok (Some (height, h))
  | None => Ok None
  end.

Definition best_tip_block (self : NonFinalizedState) : option ContextuallyVerifiedBlock :=
  best_chain self ≫= tip_block.

(** The panic of [update_metrics_for_committed_block] *)
Definition update_metrics_for_committed_block {E} (self : NonFinalizedState) : res E unit :=
  let? best := expect (best_chain self) in
  let? _ := non_finalized_tip_hash best in Ok tt.

(** The blocks of a chain from the tip on, until one that is still in a chain or
    that has been seen *)
Fixpoint evicted_of (after : NonFinalizedState) (evicted : gset Hash) (bs : list ContextuallyVerifiedBlock)
  : gset Hash :=
  match bs with
  | [] => evicted
  | b :: bs =>
      if any_chain_contains after (hash b) || bool_decide (hash b ∈ evicted) then evicted
      else evicted_of after ({[hash b]} ∪ evicted) bs
  end.

Definition evicted_blocks (self after : NonFinalizedState) : list Hash :=
  merge_sort Z.le
    (elements (foldl (fun evicted c => evicted_of after evicted (reverse (blocks c).*2)) ∅ (chain_iter self))).

(** ** Inserting chains *)

Definition with_tip_preference {E} (self : NonFinalizedState) (chain : Chain) : res E Chain :=
  let? tip := non_finalized_tip_hash chain in
  let precious := pair tip <$> precious_blocks self !! tip in
  Ok (set_precious chain precious).

Definition insert_with {E} (self : NonFinalizedState) (chain : Chain)
  (chain_filter : list Chain -> res E (list Chain)) : res E NonFinalizedState :=
  let? inserted_tip := non_finalized_tip_hash chain in
  let? chain := with_tip_preference self chain in
  let? chains := set_insert chain (chain_set self) in
  let? chains := chain_filter chains in
  let? chains := evict (length chains) inserted_tip chains in
  Ok (set_chains self chains).

Definition insert {E} (self : NonFinalizedState) (chain : Chain) : res E NonFinalizedState :=
  insert_with self chain Ok.

Definition retain_precious_blocks (self : NonFinalizedState) : NonFinalizedState :=
  mkState (chain_set self) (invalidated_blocks self) (precious_sequence self)
    (filter (fun e => any_chain_contains self e.1 || is_invalidated self e.1 = true) (precious_blocks self))
    (state_network self).

(** ** Finalizing *)

(** The loop over the side chains *)
Definition finalize_side_chain {E} (best_chain_root : ContextuallyVerifiedBlock)
  (self : NonFinalizedState) (side_chain : Chain) : res E NonFinalizedState :=
  let? root := non_finalized_root_hash side_chain in
  if negb (root =? hash best_chain_root) then Ok self
  else
    let? (side_chain_root, _, side_chain) := pop_root side_chain in
    let? _ := rust_assert (hash side_chain_root =? hash best_chain_root) in
    if is_empty side_chain then Ok self else insert self side_chain.

Definition finalize {E} (self : NonFinalizedState)
  : res E (ContextuallyVerifiedBlock * Treestate * NonFinalizedState) :=
  let? best_chain := expect (best_chain self) in
  let side_chains := tail (chain_iter self) in
  let self := set_chains self [] in
  let? (best_chain_root, root_treestate, best_chain) := pop_root best_chain in
  let? self := if is_empty best_chain then Ok self else insert self best_chain in
  let? self :=
    foldl (fun acc side_chain => let? self := acc in finalize_side_chain best_chain_root self side_chain)
      (Ok self) side_chains in
  let self :=
    set_invalidated self (filter (fun r => height best_chain_root <= r.1) (invalidated_blocks self)) in
  Ok (best_chain_root, root_treestate, retain_precious_blocks self).

(** ** Committing blocks *)

Definition parent_chain (self : NonFinalizedState) (parent_hash : Hash) : res CommitError Chain :=
  let? found := find_chain self (has_tip parent_hash) in
  match found with
  | Some chain => Ok chain
  | None =>
      let? forked := find_map_res (fun chain => fork chain parent_hash) (chain_iter self) in
      ok_or NotReadyToBeCommitted forked
  end.

Definition with_receipt_order (self : CheckpointVerifiedBlock) (receipt_order : option Z)
  : CheckpointVerifiedBlock :=
  mkVerified (origin self) (Checkpoint.block self) (Checkpoint.block_hash self) (Checkpoint.height self)
    (Checkpoint.new_outputs self) (Checkpoint.transaction_hashes self) (deferred_pool_balance_change self)
    (Checkpoint.auth_data_root self) receipt_order.

Definition check_before_contextual_update (self : NonFinalizedState) (prepared : CheckpointVerifiedBlock)
  : res CommitError CheckpointVerifiedBlock :=
  let h := Checkpoint.block_hash prepared in
  let? found := find_chain self (fun c => Ok (contains_block_hash c h)) in
  let? prepared :=
    match found with
    | Some chain => let? b := expect (block_of_hash chain h) in Ok (with_receipt_order prepared (receipt_order b))
    | None => Ok prepared
    end in
  if is_invalidated self h then Err (BlockPreviouslyInvalidated h) else Ok prepared.

(** The three checks run in parallel: a panic of one ends all. *)
Definition validate_and_update_parallel (new_chain : Chain) (contextual : ContextuallyVerifiedBlock)
  (auth_data_root : option Hash) (sprout_final_treestates : gmap Root Tree) : res CommitError Chain :=
  let? history_tree := history_tree_for_tip (trees new_chain) in
  let block_commitment_result :=
    block_commitment_is_valid_for_chain_history (block contextual) (network new_chain) history_tree
      auth_data_root in
  let sprout_anchor_result :=
    block_sprout_anchors_refer_to_treestates sprout_final_treestates (block contextual)
      (transaction_hashes contextual) (height contextual) in
  let chain_push_result := push new_chain contextual in
  match block_commitment_result, sprout_anchor_result, chain_push_result with
  | Panic, _, _ | _, Panic, _ | _, _, Panic => Panic
  | _, _, _ =>
      let? _ := map_err InvalidBlockCommitment block_commitment_result in
      let? _ := map_err AnchorErr sprout_anchor_result in
      map_err CheckErr chain_push_result
  end.

Definition validate_and_commit (self : NonFinalizedState) (new_chain : Chain)
  (prepared : CheckpointVerifiedBlock) (finalized_state : FinalizedState) : res CommitError Chain :=
  let? prepared := check_before_contextual_update self prepared in
  let? spent_utxos :=
    map_err CheckErr
      (transparent_spend prepared (state_network self) (created_utxos (outputs_index (indexes new_chain)))
         (spent_utxos (outputs_index (indexes new_chain))) (spend_db finalized_state)) in
  let? _ :=
    map_err AnchorErr
      (block_sapling_orchard_ironwood_anchors_refer_to_final_treestates (anchor_db finalized_state) new_chain
         prepared) in
  let sprout_final_treestates :=
    block_fetch_sprout_final_treestates (anchor_db finalized_state) new_chain prepared in
  let? contextual :=
    map_err
      (fun e =>
         CalculateBlockChainValueChange e (Checkpoint.height prepared) (Checkpoint.block_hash prepared)
           (Z.of_nat (length (transactions (Checkpoint.block prepared)))) (Z.of_nat (size spent_utxos)))
      (with_block_and_spent_utxos (state_network self) prepared spent_utxos) in
  validate_and_update_parallel new_chain contextual (Checkpoint.auth_data_root prepared)
    sprout_final_treestates.

Definition commit_block (self : NonFinalizedState) (prepared : CheckpointVerifiedBlock)
  (finalized_state : FinalizedState) : res (CommitError * NonFinalizedState) NonFinalizedState :=
  let parent_hash := previous_block_hash (header (Checkpoint.block prepared)) in
  let? parent := failing self (parent_chain self parent_hash) in
  let? modified_chain := failing self (validate_and_commit self parent prepared finalized_state) in
  let? self := insert_with self modified_chain (retain_res (other_tip parent_hash)) in
  let self := retain_precious_blocks self in
  let? _ := update_metrics_for_committed_block self in
  Ok self.

(** The chain above the finalized tip *)
Definition chain_above {E} (self : NonFinalizedState) (finalized_state : FinalizedState) (tip_height : Z)
  (sprout : Tree) : res E Chain :=
  let? chain :=
    Chain.new (state_network self) tip_height sprout (sapling_tree_for_tip finalized_state)
      (orchard_tree_for_tip finalized_state) (ironwood_tree_for_tip finalized_state)
      (history_tree finalized_state) (finalized_value_pool finalized_state) in
  skipping_transparent_address_index chain (skips_transparent_indexes finalized_state).

Definition commit_new_chain (self : NonFinalizedState) (prepared : CheckpointVerifiedBlock)
  (finalized_state : FinalizedState) : res (CommitError * NonFinalizedState) NonFinalizedState :=
  let? tip_height := expect (finalized_tip_height finalized_state) in
  let? sprout := failing self (map_err MissingSproutTipTree (sprout_tree_for_tip finalized_state)) in
  let? chain := chain_above self finalized_state tip_height sprout in
  let? chain := failing self (validate_and_commit self chain prepared finalized_state) in
  let? self := insert self chain in
  let self := retain_precious_blocks self in
  let? _ := update_metrics_for_committed_block self in
  Ok self.

(** ** Operator requests *)

(** [while self.invalidated_blocks.len() > MAX_INVALIDATED_BLOCKS] removes from the front. *)
Definition limit_records (records : list (Z * list ContextuallyVerifiedBlock))
  : list (Z * list ContextuallyVerifiedBlock) :=
  drop (length records - MAX_INVALIDATED_BLOCKS) records.

Definition invalidate_block (self : NonFinalizedState) (block_hash : Hash)
  : res (InvalidateError * NonFinalizedState) (Hash * NonFinalizedState) :=
  let? found := find_chain self (fun c => Ok (contains_block_hash c block_hash)) in
  let? chain := failing self (ok_or (InvalidateBlockNotFound block_hash) found) in
  let? root := non_finalized_root_hash chain in
  let remaining := retain_res (fun c => Ok (negb (contains_block_hash c block_hash))) in
  let? (removed, self) :=
    if root =? block_hash then
      let? chains := remaining (chain_set self) in
      Ok ((blocks chain).*2, set_chains self chains)
    else
      let? invalidated := Chain.invalidate_block chain block_hash in
      let? (new_chain, removed) := expect invalidated in
      let? self := insert_with self new_chain remaining in
      Ok (removed, self) in
  let? first := expect (head removed) in
  let records := limit_records (index_insert (height first) removed (invalidated_blocks self)) in
  Ok (block_hash, retain_precious_blocks (set_invalidated self records)).

Definition precious_block (self : NonFinalizedState) (block_hash : Hash) (finalized_state : FinalizedState)
  : res (PreciousError * NonFinalizedState) NonFinalizedState :=
  let? found := find_res (has_tip block_hash) (chain_set self) in
  match found with
  | None =>
      if any_chain_contains self block_hash || is_invalidated self block_hash
         || bool_decide (is_Some (db_height finalized_state block_hash))
      then Ok self else failing self (Err (PreciousBlockNotFound block_hash))
  | Some chain =>
      let? best := expect (best_chain self) in
      if partial_cumulative_work (indexes chain) <? partial_cumulative_work (indexes best) then Ok self
      else
        let sequence := Z.min (precious_sequence self + 1) (2 ^ 64 - 1) in
        let? _ := rust_assert (negb (sequence =? 0)) in
        let self :=
          retain_precious_blocks
            (mkState (chain_set self) (invalidated_blocks self) sequence
               (<[block_hash := sequence]> (precious_blocks self)) (state_network self)) in
        let? chains := set_remove chain (chain_set self) in
        let? chain := with_tip_preference self chain in
        let? chains := set_insert chain chains in
        Ok (set_chains self chains)
  end.

(** The record whose first block has the hash *)
Definition find_record (self : NonFinalizedState) (block_hash : Hash)
  : option (Z * list ContextuallyVerifiedBlock) :=
  List.find (fun r => match head r.2 with Some b => hash b =? block_hash | None => false end)
    (invalidated_blocks self).

Definition reconsider_block (self : NonFinalizedState) (block_hash : Hash) (finalized_state : FinalizedState)
  : res (ReconsiderError * NonFinalizedState) (list Hash * NonFinalizedState) :=
  let? (record_height, invalidated) :=
    failing self (ok_or (MissingInvalidatedBlock block_hash) (find_record self block_hash)) in
  let? invalidated_root := failing self (ok_or InvalidatedBlocksEmpty (head invalidated)) in
  let root_parent_hash := previous_block_hash (header (block invalidated_root)) in
  let? chain :=
    if root_parent_hash =? finalized_tip_hash finalized_state then
      let? tip_height := failing self (ok_or (ParentChainNotFound block_hash) (finalized_tip_height finalized_state)) in
      let? sprout := failing self (map_err ReconsiderMissingTree (sprout_tree_for_tip finalized_state)) in
      chain_above self finalized_state tip_height sprout
    else failing self (map_err (fun _ => ParentChainNotFound block_hash) (parent_chain self root_parent_hash)) in
  let? modified_chain :=
    failing self
      (map_err ReplayFailed (foldl (fun acc b => let? c := acc in push c b) (Ok chain) invalidated)) in
  let? _ := non_finalized_tip_hash modified_chain in
  let self := set_invalidated self (shift_remove record_height (invalidated_blocks self)) in
  let self :=
    match finalized_tip_height finalized_state with
    | Some tip => set_invalidated self (filter (fun r => tip <= r.1) (invalidated_blocks self))
    | None => self
    end in
  let? self := insert_with self modified_chain (retain_res (other_tip root_parent_hash)) in
  let self := retain_precious_blocks self in
  let? _ := update_metrics_for_committed_block self in
  Ok (hash <$> invalidated, self).
End State.
End NonFinalized.
