(* ===== verification/NonFinalizedSet.v ===== *)
(** * The set of non-finalized chains

    The order of chains is that of their keys: the work, the operator's
    preference, the receipt and the hash of the tip.  The set is a sorted list of
    chains; insertion, removal and eviction keep it sorted.  Chains that agree on
    the block of a hash agree on all the blocks below it. *)

From stdpp Require Import base numbers strings list option gmap sets sorting.
From Stdlib Require Import ZArith Lia.
From S2P Require Import Prelude Height Amount BTree Network ValueBalance ValuePools Difficulty DifficultyFacts Dependencies Transparent MempoolTx BlockHeader Block Checkpoint SharedMap TreeIndex SpendCheck Chain ChainContent ChainBlocks ChainTrees ChainRun ChainFacts NonFinalized.
Local Open Scope Z_scope.
Local Notation length := List.length.

Module NonFinalizedSet.
Import Network Block SpendCheck Chain ChainContent ChainBlocks ChainTrees ChainRun ChainFacts NonFinalized.

(** ** Lexicographic order *)

Fixpoint lex (l l' : list Z) : comparison :=
  match l, l' with
  | [], [] => Eq
  | [], _ => Lt
  | _, [] => Gt
  | x :: l, y :: l' => match x ?= y with Eq => lex l l' | o => o end
  end.

Lemma lex_eq l l' : lex l l' = Eq <-> l = l'.
Proof.
  revert l'. induction l as [|x l IH]; intros [|y l']; cbn; try done.
  destruct (Z.compare_spec x y) as [->|?|?].
  - rewrite IH. split; [by intros ->|by intros [= ->]].
  - split; [done|]. intros [= -> _]. lia.
  - split; [done|]. intros [= -> _]. lia.
Qed.

Lemma lex_antisym l l' : lex l' l = CompOpp (lex l l').
Proof.
  revert l'. induction l as [|x l IH]; intros [|y l']; cbn; try done.
  rewrite (Z.compare_antisym x y). destruct (x ?= y); cbn; [apply IH|done..].
Qed.

Lemma lex_trans l1 l2 l3 : lex l1 l2 = Lt -> lex l2 l3 = Lt -> lex l1 l3 = Lt.
Proof.
  revert l2 l3. induction l1 as [|x l1 IH]; intros [|y l2] [|z l3]; cbn; try done.
  destruct (Z.compare_spec x y) as [->|Hxy|?]; [|destruct (Z.compare_spec y z) as [->|Hyz|?]|done].
  - destruct (y ?= z); [apply IH|done..].
  - intros _ _. by apply Z.compare_lt_iff in Hxy as ->.
  - intros _ _. assert (H : x < z) by lia. by apply Z.compare_lt_iff in H as ->.
  - done.
Qed.

Section Chains.
Context {NT : NoteTrees}.
Implicit Types (c : Chain) (s : list Chain).

(** ** Keys *)

Definition precedence c (t : ContextuallyVerifiedBlock) : Z :=
  match precious c with Some (h, sequence) => if h =? hash t then sequence else 0 | None => 0 end.

(** An earlier receipt is preferred, and no receipt before all. *)
Definition receipt_key (r : option Z) : list Z := match r with Some n => [-1; - n] | None => [0; 0] end.

Definition key c : list Z :=
  match tip_block c with
  | Some t => partial_cumulative_work (indexes c) :: precedence c t :: receipt_key (receipt_order t) ++ [hash t]
  | None => []
  end.

Definition live c : Prop := is_Some (tip_block c).

Lemma receipt_lex r r' l l' :
  match option_cmp r' r with Eq => lex l l' | o => o end = lex (receipt_key r ++ l) (receipt_key r' ++ l').
Proof.
  destruct r as [n|], r' as [n'|]; cbn; try done.
  rewrite Z.compare_opp. by destruct (n' ?= n).
Qed.

Lemma cmp_key {E} c c' : live c -> live c' -> cmp (E := E) c c' = Ok (lex (key c) (key c')).
Proof.
  intros [t Ht] [t' Ht']. unfold cmp, key, active_precedence, non_finalized_tip_hash, precedence.
  rewrite Ht, Ht'. cbn [lex]. destruct (_ ?= _); [|done..]. cbn [expect ok_or res_bind].
  destruct (precious c) as [[h q]|], (precious c') as [[h' q']|]; cbn [res_bind]; destruct (_ ?= _); try done;
    rewrite <- receipt_lex; cbn [lex]; (destruct (option_cmp _ _); [|done..]); by destruct (hash t ?= hash t').
Qed.

Definition chain_lt c c' : Prop := lex (key c) (key c') = Lt.

#[export] Instance chain_lt_trans : Transitive chain_lt.
Proof. intros a b c. apply lex_trans. Qed.

Lemma chain_lt_irrefl c c' : chain_lt c c' -> key c <> key c'.
Proof. intros Hl He. unfold chain_lt in Hl. rewrite He in Hl. by rewrite (proj2 (lex_eq _ _) eq_refl) in Hl. Qed.

Lemma chain_lt_asym c c' : chain_lt c c' -> chain_lt c' c -> False.
Proof. intros H H'. apply (chain_lt_irrefl c c); [by etrans|done]. Qed.

(** ** Insertion and removal *)

Lemma set_insert_Ok {E} c s :
  live c -> Forall live s -> StronglySorted chain_lt s ->
  exists s', set_insert (E := E) c s = Ok s' /\ StronglySorted chain_lt s' /\
    ((exists x, x ∈ s /\ key x = key c /\ s' = s) \/ ((forall x, x ∈ s -> key x <> key c) /\ s' ≡ₚ c :: s)).
Proof.
  intros Hc. induction s as [|x s IH]; intros Hl Hs.
  - exists [c]. split; [done|]. split; [repeat constructor|]. right. split; [by intros x Hx%elem_of_nil|done].
  - apply Forall_cons in Hl as [Hx Hl]. apply StronglySorted_inv in Hs as [Hs Hf]. cbn [set_insert].
    rewrite cmp_key by done. cbn [res_bind]. destruct (lex (key c) (key x)) eqn:Hcx.
    + exists (x :: s). split; [done|]. split; [by constructor|]. left. exists x. apply lex_eq in Hcx. set_solver.
    + exists (c :: x :: s). split; [done|]. split.
      * constructor; [by constructor|]. constructor; [done|]. eapply Forall_impl; [exact Hf|]. intros y Hy. by etrans.
      * right. split; [|done]. intros y [->|Hy]%elem_of_cons He; [by apply (chain_lt_irrefl c x)|].
        rewrite Forall_forall in Hf. apply (chain_lt_irrefl c y); [etrans; [exact Hcx|by apply Hf]|done].
    + assert (Hxc : chain_lt x c) by (unfold chain_lt; by rewrite lex_antisym, Hcx).
      destruct (IH Hl Hs) as (s' & -> & Hs' & Hcase). exists (x :: s'). split; [done|]. split.
      * constructor; [done|]. apply Forall_forall. intros y Hy. rewrite Forall_forall in Hf.
        destruct Hcase as [(? & _ & _ & ->)|[_ Hp]]; [by apply Hf|]. rewrite Hp in Hy.
        apply elem_of_cons in Hy as [->|Hy]; [done|by apply Hf].
      * destruct Hcase as [(y & Hy & Hk & ->)|[Hn Hp]]; [left; exists y; set_solver|]. right. split.
        -- intros y [->|Hy]%elem_of_cons; [by apply chain_lt_irrefl|by apply Hn].
        -- rewrite Hp. apply Permutation_swap.
Qed.

Lemma set_remove_Ok {E} c pre post :
  Forall live (pre ++ c :: post) -> StronglySorted chain_lt (pre ++ c :: post) ->
  set_remove (E := E) c (pre ++ c :: post) = Ok (pre ++ post).
Proof.
  induction pre as [|x pre IH]; cbn [app set_remove]; intros [Hx Hl]%Forall_cons [Hs Hf]%StronglySorted_inv.
  - rewrite cmp_key by done. by rewrite (proj2 (lex_eq _ _) eq_refl).
  - assert (Hc : live c) by (by apply Forall_app in Hl as [_ [? _]%Forall_cons]).
    rewrite cmp_key by done. rewrite Forall_forall in Hf. assert (Hxc : chain_lt x c) by (apply Hf; set_solver).
    rewrite lex_antisym. unfold chain_lt in Hxc. rewrite Hxc. cbn [CompOpp res_bind]. by rewrite IH.
Qed.

(** ** Predicates of tips *)

Definition tip c : Hash := match tip_block c with Some t => hash t | None => 0 end.

Lemma live_tip_hash {E} c : live c -> non_finalized_tip_hash (E := E) c = Ok (tip c).
Proof. intros [t Ht]. unfold non_finalized_tip_hash, tip. by rewrite Ht. Qed.

Lemma find_res_ext {E A} (f : A -> res E bool) (g : A -> bool) l :
  (forall x, x ∈ l -> f x = Ok (g x)) -> find_res f l = Ok (List.find g l).
Proof.
  induction l as [|x l IH]; intros Hf; [done|]. cbn [find_res List.find]. rewrite Hf by apply list_elem_of_here.
  cbn [res_bind]. destruct (g x); [done|]. apply IH. intros y Hy. apply Hf. by apply list_elem_of_further.
Qed.

Lemma retain_res_ext {E A} (f : A -> res E bool) (g : A -> bool) l :
  (forall x, x ∈ l -> f x = Ok (g x)) -> retain_res f l = Ok (filter (fun x => g x = true) l).
Proof.
  induction l as [|x l IH]; intros Hf; [done|]. cbn [retain_res]. rewrite Hf by apply list_elem_of_here.
  cbn [res_bind]. rewrite IH by (intros y Hy; apply Hf; by apply list_elem_of_further). cbn [res_bind].
  rewrite filter_cons. by destruct (g x).
Qed.

Lemma has_tip_ext {E} h s x : Forall live s -> x ∈ s -> has_tip (E := E) h x = Ok (tip x =? h).
Proof. intros Hl Hx. rewrite Forall_forall in Hl. unfold has_tip. by rewrite live_tip_hash by by apply Hl. Qed.

Lemma other_tip_ext {E} h s x : Forall live s -> x ∈ s -> other_tip (E := E) h x = Ok (negb (tip x =? h)).
Proof. intros Hl Hx. rewrite Forall_forall in Hl. unfold other_tip. by rewrite live_tip_hash by by apply Hl. Qed.

(** ** Eviction *)

Lemma find_split {A} (g : A -> bool) l x :
  List.find g l = Some x -> exists pre post, l = pre ++ x :: post /\ g x = true /\ forall y, y ∈ pre -> g y = false.
Proof.
  induction l as [|y l IH]; [done|]. cbn [List.find]. destruct (g y) eqn:Hy.
  - intros [= <-]. exists [], l. split; [done|]. split; [done|]. by intros z Hz%elem_of_nil.
  - intros (pre & post & -> & Hx & Hpre)%IH. exists (y :: pre), post. split; [done|]. split; [done|].
    intros z [->|Hz]%elem_of_cons; [done|by apply Hpre].
Qed.

Lemma find_None_all {A} (g : A -> bool) l : List.find g l = None -> forall x, x ∈ l -> g x = false.
Proof.
  induction l as [|y l IH]; cbn; [by intros _ x Hx%elem_of_nil|]. destruct (g y) eqn:Hy; [done|].
  intros Hf x [->|Hx]%elem_of_cons; [done|by apply IH].
Qed.

Lemma one_tip t s : NoDup (tip <$> s) -> (forall x, x ∈ s -> tip x = t) -> (length s <= 1)%nat.
Proof.
  destruct s as [|x [|y s]]; cbn [length]; [lia..|]. intros Hn Ht. exfalso. rewrite !fmap_cons in Hn.
  apply NoDup_cons in Hn as [Hn _]. apply Hn. rewrite (Ht x), (Ht y) by set_solver. apply list_elem_of_here.
Qed.

(** What remains after an eviction: the least chains left, but not the one with the
    tip [t]. *)
Record evicted (t : Hash) s s' : Prop := {
  ev_sublist : s' `sublist_of` s;
  ev_limit : (length s' <= MAX_NON_FINALIZED_CHAIN_FORKS)%nat;
  ev_inserted : forall x, x ∈ s -> tip x = t -> x ∈ s';
  ev_least : forall x y, x ∈ s -> x ∉ s' -> y ∈ s' -> tip y <> t -> chain_lt x y;
  ev_last : last s' = last s;
  ev_same : (length s <= MAX_NON_FINALIZED_CHAIN_FORKS)%nat -> s' = s;
}.

Lemma sublist_all {A} (P : A -> Prop) l l' : l' `sublist_of` l -> Forall P l -> Forall P l'.
Proof. intros Hs. rewrite !Forall_forall. intros Hp x Hx. by apply Hp, (elem_of_sublist _ _ _ Hx Hs). Qed.

Lemma sorted_sublist s s' : s' `sublist_of` s -> StronglySorted chain_lt s -> StronglySorted chain_lt s'.
Proof.
  induction 1 as [|x s' s Hsub IH|x s' s Hsub IH]; intros Hs; [done|..]; apply StronglySorted_inv in Hs as [Hs Hf].
  - constructor; [by apply IH|]. by apply (sublist_all _ _ _ Hsub).
  - by apply IH.
Qed.

Lemma evict_Ok {E} fuel t s :
  Forall live s -> StronglySorted chain_lt s -> NoDup (tip <$> s) -> (length s <= fuel)%nat ->
  exists s', evict (E := E) fuel t s = Ok s' /\ evicted t s s'.
Proof.
  revert s. induction fuel as [|fuel IH]; intros s Hl Hs Hn Hlen.
  - destruct s; [|cbn in Hlen; lia]. exists []. split; [done|]. split; [done|cbn; lia|done|..|done|done].
    by intros x y Hx%elem_of_nil.
  - cbn [evict]. destruct (Nat.leb_spec (length s) MAX_NON_FINALIZED_CHAIN_FORKS) as [Hle|Hgt].
    { exists s. split; [done|]. by split. }
    rewrite (find_res_ext _ (fun x => negb (tip x =? t))) by (intros x Hx; by eapply other_tip_ext).
    destruct (List.find _ s) as [e|] eqn:Hfind; cbn [res_bind expect ok_or].
    2: { exfalso. pose proof (find_None_all _ _ Hfind) as Hall. pose proof (one_tip t s Hn) as H1.
         unfold MAX_NON_FINALIZED_CHAIN_FORKS in Hgt. assert (length s <= 1)%nat; [|lia]. apply H1.
         intros x Hx. specialize (Hall x Hx). apply negb_false_iff in Hall. by apply Z.eqb_eq. }
    apply find_split in Hfind as (pre & post & -> & He & Hpre).
    assert (Hpre' : (length pre <= 1)%nat).
    { apply (one_tip t); [rewrite fmap_app in Hn; by apply NoDup_app in Hn as (? & _)|].
      intros x Hx. specialize (Hpre x Hx). apply negb_false_iff in Hpre. by apply Z.eqb_eq. }
    rewrite set_remove_Ok by done. cbn [res_bind].
    assert (Hsub : pre ++ post `sublist_of` pre ++ e :: post) by (apply sublist_app; [done|by apply sublist_cons]).
    destruct (IH (pre ++ post)) as (s' & -> & [H1 H2 H3 H4 H5 _]).
    + by apply (sublist_all _ _ _ Hsub).
    + by eapply sorted_sublist.
    + eapply sublist_NoDup; [exact Hn|]. by apply fmap_sublist.
    + rewrite length_app in *. cbn in Hlen. lia.
    + exists s'. split; [done|]. apply negb_true_iff, Z.eqb_neq in He. split; [by etrans|done|..].
      * intros x Hx Ht. apply H3; [|done]. apply elem_of_app in Hx as [?|[->|?]%elem_of_cons]; [set_solver|done|set_solver].
      * intros x y Hx Hxs Hy Hty. apply elem_of_app in Hx as [Hx|[->|Hx]%elem_of_cons];
          [apply H4; set_solver| |apply H4; set_solver].
        pose proof (elem_of_sublist _ _ _ Hy H1) as Hin. apply elem_of_app in Hin as [Hin|Hin].
        -- exfalso. specialize (Hpre y Hin). apply negb_false_iff, Z.eqb_eq in Hpre. done.
        -- apply StronglySorted_app in Hs as (_ & _ & Hs). apply StronglySorted_inv in Hs as [_ Hf].
           rewrite Forall_forall in Hf. by apply Hf.
      * rewrite H5, !last_app, last_cons. rewrite length_app in Hgt. cbn in Hgt.
        unfold MAX_NON_FINALIZED_CHAIN_FORKS in Hgt. destruct (last post) eqn:Hp; [done|].
        apply last_None in Hp as ->. cbn in Hgt. lia.
      * lia.
Qed.
End Chains.

(** ** Chains of known blocks *)

Section Known.
Context {U : Difficulty.U256} {UL : Difficulty.U256Laws U}.
Context {NT : NoteTrees} {completed : Tree -> Z} {NTL : NoteTreesLaws completed}.
Context (net : Network) (Hnet : net_wf net) (block_of : Hash -> Block).
Implicit Types (c : Chain) (bs : list ContextuallyVerifiedBlock).

Definition blks c : list ContextuallyVerifiedBlock := (blocks c).*2.

Definition prev (b : ContextuallyVerifiedBlock) : Hash := BlockHeader.previous_block_hash (header (block b)).

(** The hash of a block determines it. *)
Definition known (b : ContextuallyVerifiedBlock) : Prop := block b = block_of (hash b).

Fixpoint hash_linked (parent : Hash) bs : Prop :=
  match bs with [] => True | b :: bs => prev b = parent /\ hash_linked (hash b) bs end.

(** A chain of known blocks above the block [parent] *)
Record chain_ok (parent : Hash) (root : Z) c : Prop := {
  ck_chain : exists b ls, chain_of net c b ls /\ ChainRun.root_height b = root /\ l_block <$> ls = blks c;
  ck_linked : hash_linked parent (blks c);
  ck_known : Forall known (blks c);
}.

Lemma live_blks c : live c <-> blks c <> [].
Proof.
  unfold live, tip_block. fold (blks c). split; [intros [t Ht] Hb; by rewrite Hb in Ht|].
  intros Hne. destruct (last (blks c)) eqn:Hl; [by eexists|]. by apply last_None in Hl.
Qed.

Lemma tip_snoc c bs b : blks c = bs ++ [b] -> live c /\ tip c = hash b.
Proof.
  intros Hb. unfold live, tip, tip_block. fold (blks c). rewrite Hb, last_snoc. split; [by eexists|done].
Qed.

Lemma linked_candidates h ts p ls : linked net h ts p ls -> candidates net h (l_block <$> ls).
Proof.
  revert h ts p. induction ls as [|l ls IH]; intros h ts p; [done|]. intros (Hc & _ & _ & Hl). split; [done|].
  by eapply IH.
Qed.

Lemma candidates_lookup h bs i b : candidates net h bs -> bs !! i = Some b -> candidate net b (h + Z.of_nat i).
Proof.
  revert h i. induction bs as [|a bs IH]; intros h i Hc Hi; [done|]. destruct Hc as [Ha Hbs], i as [|i].
  - injection Hi as <-. by rewrite Z.add_0_r.
  - replace (h + Z.of_nat (S i)) with (h + 1 + Z.of_nat i) by lia. by apply IH.
Qed.

Lemma hash_linked_lookup parent bs i b :
  hash_linked parent bs -> bs !! i = Some b ->
  match i with O => prev b = parent | S i => exists a, bs !! i = Some a /\ prev b = hash a end.
Proof.
  revert parent i. induction bs as [|a bs IH]; intros parent i; [done|]. intros [Ha Hbs]. destruct i as [|i].
  - by intros [= <-].
  - intros Hi. specialize (IH _ _ Hbs Hi). destruct i as [|i]; [by exists a|]. exact IH.
Qed.

Lemma hash_linked_app parent bs bs' :
  hash_linked parent (bs ++ bs') <-> hash_linked parent bs /\ hash_linked (default parent (hash <$> last bs)) bs'.
Proof.
  revert parent. induction bs as [|b bs IH]; intros parent; [cbn; tauto|]. cbn [app hash_linked].
  rewrite IH, last_cons. destruct (last bs); cbn; tauto.
Qed.

Lemma ok_candidates parent root c : chain_ok parent root c -> candidates net root (blks c).
Proof.
  intros [(b & ls & Hc & <- & Hb) _ _]. rewrite <- Hb. by eapply linked_candidates, c_linked.
Qed.

Lemma ok_contains parent root c h :
  chain_ok parent root c -> contains_block_hash c h = true <-> h ∈ hash <$> blks c.
Proof.
  intros [(b & ls & Hc & _ & Hb) _ _]. unfold contains_block_hash. rewrite bool_decide_eq_true.
  pose proof (ixs_hashes _ _ _ _ (c_indexes _ _ _ _ Hc)) as Hm. rewrite Hb in Hm.
  assert (Hfst : ((fun b0 => (hash b0, height b0)) <$> blks c).*1 = hash <$> blks c)
    by by rewrite <- list_fmap_compose.
  rewrite <- Hfst. split.
  - intros [k Hk]. apply (map_of_lookup _ _ _ _ Hm) in Hk. apply list_elem_of_fmap. by exists (h, k).
  - intros Hin. apply not_eq_None_Some. intros Hn. by apply (map_of_None _ _ _ Hm) in Hn.
Qed.

Lemma ok_hashes parent root c : chain_ok parent root c -> NoDup (hash <$> blks c).
Proof.
  intros [(b & ls & Hc & _ & Hb) _ _]. destruct (ixs_hashes _ _ _ _ (c_indexes _ _ _ _ Hc)) as [Hn _].
  rewrite Hb, <- list_fmap_compose in Hn. exact Hn.
Qed.

Lemma ok_work parent root c :
  chain_ok parent root c -> partial_cumulative_work (indexes c) = total_work (blks c).
Proof. intros [(b & ls & Hc & _ & Hb) _ _]. rewrite <- Hb. apply (ixs_work _ _ _ _ (c_indexes _ _ _ _ Hc)). Qed.

Lemma ok_height parent root c i b :
  chain_ok parent root c -> blks c !! i = Some b ->
  height_by_hash (indexes c) !! hash b = Some (height b) /\ height b = root + Z.of_nat i.
Proof.
  intros Hok Hi. pose proof (candidates_lookup _ _ _ _ (ok_candidates _ _ _ Hok) Hi) as Hcand.
  split; [|by rewrite (cd_height _ _ _ Hcand)]. destruct Hok as [(b0 & ls & Hc & Hr & Hb) _ _].
  pose proof (ixs_hashes _ _ _ _ (c_indexes _ _ _ _ Hc)) as Hm. rewrite Hb in Hm.
  apply (map_of_lookup _ _ _ _ Hm), list_elem_of_fmap. exists b. split; [done|]. by apply list_elem_of_lookup_2 in Hi.
Qed.

Lemma ok_block_of_hash parent root c b :
  chain_ok parent root c -> b ∈ blks c -> block_of_hash c (hash b) = Some b.
Proof.
  intros Hok [i Hi]%list_elem_of_lookup. destruct (ok_height _ _ _ _ _ Hok Hi) as [Hget Hh].
  destruct Hok as [(b0 & ls & Hc & Hr & Hb) _ _]. unfold block_of_hash. rewrite Hget. cbn [mbind option_bind].
  rewrite (c_blocks _ _ _ _ Hc), Hr, Hb, Hh. apply bt_get_Some; [apply TreeIndex.at_heights_wf|].
  clear - Hi. revert root i Hi. induction (blks c) as [|a bs IH]; intros root i Hi; [done|].
  destruct i as [|i]; cbn [TreeIndex.at_heights].
  - injection Hi as <-. rewrite Z.add_0_r. apply list_elem_of_here.
  - apply list_elem_of_further. replace (root + Z.of_nat (S i)) with (root + 1 + Z.of_nat i) by lia. by apply IH.
Qed.

(** Blocks of two chains with one hash are at one height, above the same blocks. *)
Lemma same_prefix parent root c c' i j b b' :
  chain_ok parent root c -> chain_ok parent root c' -> blks c !! i = Some b -> blks c' !! j = Some b' ->
  hash b = hash b' -> i = j /\ hash <$> take (S i) (blks c) = hash <$> take (S i) (blks c').
Proof.
  intros Hok Hok' Hi Hj Hh.
  assert (Hblk : forall d d', d ∈ blks c -> d' ∈ blks c' -> hash d = hash d' -> block d = block d').
  { intros d d' Hd Hd' He. destruct Hok as [_ _ Hk], Hok' as [_ _ Hk']. rewrite Forall_forall in Hk, Hk'.
    rewrite (Hk d Hd), (Hk' d' Hd'). by f_equal. }
  assert (Heq : i = j).
  { pose proof (cd_coinbase _ _ _ (candidates_lookup _ _ _ _ (ok_candidates _ _ _ Hok) Hi)) as H1.
    pose proof (cd_coinbase _ _ _ (candidates_lookup _ _ _ _ (ok_candidates _ _ _ Hok') Hj)) as H2.
    rewrite (Hblk b b') in H1; [|by eapply list_elem_of_lookup_2..|done].
    assert (H3 : Some (root + Z.of_nat i) = Some (root + Z.of_nat j)) by congruence. injection H3. lia. }
  subst j. split; [done|]. revert b b' Hi Hj Hh. induction i as [|i IH]; intros b b' Hi Hj Hh.
  - rewrite (take_S_r _ _ _ Hi), (take_S_r _ _ _ Hj), !take_0. cbn [app fmap list_fmap]. by rewrite Hh.
  - rewrite (take_S_r _ _ _ Hi), (take_S_r _ _ _ Hj), !fmap_app. cbn [fmap list_fmap]. rewrite Hh. f_equal.
    destruct (hash_linked_lookup _ _ _ _ (ck_linked _ _ _ Hok) Hi) as (a & Ha & Hpa).
    destruct (hash_linked_lookup _ _ _ _ (ck_linked _ _ _ Hok') Hj) as (a' & Ha' & Hpa').
    apply (IH a a' Ha Ha'). rewrite <- Hpa, <- Hpa'. unfold prev.
    by rewrite (Hblk b b') by (by eapply list_elem_of_lookup_2 || done).
Qed.

Lemma same_tip parent root c c' :
  chain_ok parent root c -> chain_ok parent root c' -> live c -> live c' -> tip c = tip c' ->
  hash <$> blks c = hash <$> blks c'.
Proof.
  intros Hok Hok' Hl Hl' Ht. apply live_blks in Hl, Hl'.
  destruct (blks c) as [|b bs _] eqn:Hb using rev_ind; [done|].
  destruct (blks c') as [|b' bs' _] eqn:Hb' using rev_ind; [done|].
  destruct (tip_snoc c bs b Hb) as [_ Ht1]. destruct (tip_snoc c' bs' b' Hb') as [_ Ht2].
  destruct (same_prefix parent root c c' (length bs) (length bs') b b' Hok Hok') as [Hlen Heq].
  - rewrite Hb. by apply list_lookup_middle.
  - rewrite Hb'. by apply list_lookup_middle.
  - congruence.
  - rewrite Hb, Hb' in Heq. rewrite !take_ge in Heq; [done|rewrite length_app; cbn; lia..].
Qed.

Definition work_at (h : Hash) : Z :=
  match DifficultyFacts.target_of (BlockHeader.difficulty_threshold (header (block_of h))) with
  | Some t => 2 ^ 256 / (t + 1)
  | None => 0
  end.

Lemma work_hashes bs : Forall known bs -> total_work bs = foldr (fun h w => work_at h + w) 0 (hash <$> bs).
Proof.
  induction 1 as [|b bs Hb _ IH]; [done|]. cbn. unfold total_work in IH. rewrite IH. f_equal.
  unfold work_of, bits, work_at. by rewrite Hb.
Qed.

(** ** Operations of one chain *)

Lemma at_heights_snd {A} h (l : list A) : (TreeIndex.at_heights h l).*2 = l.
Proof. revert h. induction l as [|x l IH]; intros h; [done|]. cbn [TreeIndex.at_heights fmap list_fmap]. by f_equal. Qed.

Lemma chain_blks c b ls : chain_of net c b ls -> blks c = l_block <$> ls.
Proof.
  intros Hc. unfold blks. rewrite (c_blocks _ _ _ _ Hc). apply at_heights_snd.
Qed.

Definition modest c : Prop := modest_chain net c (blks c).

Lemma modest_suffix skips (x y : Content) : content_modest net skips (content_app x y) -> content_modest net skips y.
Proof.
  unfold content_modest, content_app. cbn [c_created c_spent]. generalize (c_created x) (c_spent x). clear. intros cr sp.
  revert sp. induction cr as [|e cr IH]; intros sp; cbn [app].
  - induction sp as [|s sp IH]; cbn [app]; [done|]. intros Hm. by apply IH, (modest_sp_tail _ _ s).
  - intros Hm. by apply (IH sp), (modest_cr_tail _ _ e).
Qed.

Lemma modest_prefix c bs bs' : modest_chain net c (bs ++ bs') -> modest_chain net c bs.
Proof.
  unfold modest_chain. intros Hm. apply (modest_suffix _ (blocks_content bs')).
  eapply content_modest_proper; [apply content_app_comm|]. enough (Heq : content_app (blocks_content bs) (blocks_content bs') = blocks_content (bs ++ bs')) by by rewrite Heq.
  clear. unfold blocks_content. induction bs as [|b bs IH]; [by destruct (foldr _ _ bs')|]. cbn [app foldr].
  by rewrite <- IH, content_app_assoc.
Qed.

Lemma pop_root_ok {E} parent root c b bs :
  chain_ok parent root c -> modest c -> blks c = b :: bs ->
  exists state c', pop_root (E := E) c = Ok (b, state, c') /\ blks c' = bs /\ chain_ok (hash b) (root + 1) c' /\
    precious c' = precious c.
Proof.
  intros [(b0 & ls & Hc & Hr & Hb) Hl Hk] Hm Hbs. rewrite Hbs in *. destruct ls as [|l ls]; [done|]. injection Hb as <- <-.
  unfold modest, modest_chain in Hm. rewrite Hbs in Hm.
  destruct (pop_root_Ok (E := E) net Hnet c b0 l ls Hc Hm) as (c' & Hpop & Hc' & _ & Hp & _).
  exists (l_state l), c'. split; [done|]. pose proof (chain_blks _ _ _ Hc') as Hb'. split; [done|]. split; [|done].
  destruct Hl as [_ Hl]. apply Forall_cons in Hk as [_ Hk]. split; rewrite ?Hb'; [|done..].
  exists (next_base b0 l), ls. split; [done|]. split; [|done]. by rewrite next_base_root, Hr.
Qed.

Lemma pop_tip_ok {E} parent root c bs b :
  chain_ok parent root c -> modest c -> blks c = bs ++ [b] -> bs <> [] ->
  exists c', pop_tip (E := E) c = Ok c' /\ blks c' = bs /\ chain_ok parent root c' /\ modest c' /\
    precious c' = precious c.
Proof.
  intros [(b0 & ls & Hc & Hr & Hb) Hl Hk] Hm Hbs Hne. unfold modest, modest_chain in Hm. rewrite Hbs in *.
  apply fmap_app_inv in Hb as (ls1 & ls2 & -> & Hl2 & ->). destruct ls2 as [|l [|]]; try discriminate.
  injection Hl2 as Hl2. subst b.
  destruct (pop_tip_Ok (E := E) net Hnet c b0 ls1 l Hc) as (c' & Hpop & Hc' & Hm' & Hp & Hs); [|by rewrite fmap_app|].
  - intros ->. by apply Hne.
  - exists c'. pose proof (chain_blks _ _ _ Hc') as Hb'. split; [done|]. split; [done|].
    apply hash_linked_app in Hl as [Hl _]. apply Forall_app in Hk as [Hk _]. split; [|split; [|done]].
    + split; rewrite ?Hb'; [|done..]. by exists b0, ls1.
    + unfold modest, modest_chain. by rewrite Hs, Hb'.
Qed.

Lemma fork_ok {E} parent root c bs b bs' :
  chain_ok parent root c -> modest c -> blks c = bs ++ b :: bs' ->
  exists c', fork (E := E) c (hash b) = Ok (Some c') /\ blks c' = bs ++ [b] /\ chain_ok parent root c' /\ modest c'.
Proof.
  intros [(b0 & ls & Hc & Hr & Hb) Hl Hk] Hm Hbs. unfold modest, modest_chain in Hm. rewrite Hbs in *.
  apply fmap_app_inv in Hb as (ls1 & ls2 & -> & Hl2 & ->). destruct ls2 as [|l ls2]; [done|].
  injection Hl2 as Hl2 Hl3. subst b bs'.
  destruct (fork_Ok (E := E) net c b0 ls1 l ls2 Hnet Hc) as (c' & Hf & Hc' & _ & Hs); [unfold modest_chain; by rewrite fmap_app|].
  exists c'. pose proof (chain_blks _ _ _ Hc') as Hb'. rewrite fmap_app in Hb'. split; [done|]. split; [done|].
  rewrite cons_middle, app_assoc in Hl, Hk.
  apply hash_linked_app in Hl as [Hl _]. apply Forall_app in Hk as [Hk _]. split.
  - split; rewrite ?Hb'; [|done..]. exists b0, (ls1 ++ [l]). by rewrite fmap_app.
  - apply (modest_prefix _ _ (l_block <$> ls2)). unfold modest_chain. rewrite Hs, Hb', <- app_assoc.
    exact Hm.
Qed.

Lemma push_ok parent root c b c' :
  chain_ok parent root c -> candidate net b (root + Z.of_nat (length (blks c))) -> known b ->
  prev b = default parent (hash <$> last (blks c)) -> push c b = Ok c' ->
  blks c' = blks c ++ [b] /\ chain_ok parent root c' /\ precious c' = precious c.
Proof.
  intros [(b0 & ls & Hc & Hr & Hb) Hl Hk] Hcand Hkn Hprev Hpush. rewrite <- Hr, <- Hb, length_fmap in Hcand.
  destruct (push_Ok net c b0 ls b c' Hc Hcand Hpush) as (l & <- & Hc' & Hp & _).
  pose proof (chain_blks _ _ _ Hc') as Hb'. rewrite fmap_app, Hb in Hb'. split; [done|]. split; [|done].
  split; rewrite Hb'.
  - exists b0, (ls ++ [l]). by rewrite fmap_app, Hb.
  - apply hash_linked_app. by split; [|split].
  - apply Forall_app. by split; [|constructor].
Qed.

(** The invalidation of a block above the root *)
Lemma invalidate_ok {E} parent root c bs b bs' :
  chain_ok parent root c -> modest c -> blks c = bs ++ b :: bs' -> bs <> [] ->
  exists c', Chain.invalidate_block (E := E) c (hash b) = Ok (Some (c', b :: bs')) /\ blks c' = bs /\
    chain_ok parent root c'.
Proof.
  intros Hok Hm Hb Hne. unfold Chain.invalidate_block.
  destruct (ok_height _ _ _ (length bs) b Hok) as [Hget Hh]; [rewrite Hb; by apply list_lookup_middle|].
  rewrite Hget. destruct (fork_ok (E := E) _ _ _ _ _ _ Hok Hm Hb) as (c1 & -> & Hb1 & Hok1 & Hm1). cbn [res_bind].
  destruct (pop_tip_ok (E := E) _ _ _ _ _ Hok1 Hm1 Hb1 Hne) as (c2 & -> & Hb2 & Hok2 & _). cbn [res_bind].
  exists c2. split; [|done]. do 3 f_equal. unfold child_blocks. destruct Hok as [(b0 & ls & Hc & Hr & Hls) _ _].
  rewrite (c_blocks _ _ _ _ Hc), Hls, Hb, Hr, Hh, TreeIndex.at_heights_app, filter_app, filter_none, TreeIndex.filter_keep; [apply at_heights_snd|..].
  - intros [k x] Hx%TreeIndex.at_heights_keys. cbn. lia.
  - intros [k x] Hx%TreeIndex.at_heights_keys. cbn. lia.
Qed.
End Known.
End NonFinalizedSet.
