(* ===== verification/NonFinalizedFacts.v ===== *)
(** * The invariant of the non-finalized state

    [state_ok parent root self]: the chains are chains of linked blocks above the
    block [parent], sorted by preference, with different tips, at most ten; the
    records of invalidated blocks are linked blocks that are in no chain.
    Insertion with eviction, finalization and commits keep it. *)

From stdpp Require Import base numbers strings list option gmap sets sorting.
From Stdlib Require Import ZArith Lia.
From S2P Require Import Prelude Height Amount BTree Network NodeData ValueBalance ValuePools Difficulty DifficultyFacts Dependencies Transparent MempoolTx Merkle BlockHeader Block Checkpoint SharedMap TreeIndex SpendCheck Chain ChainContent ChainBlocks ChainTrees ChainRun ChainFacts ContextChecks NonFinalized NonFinalizedSet.
Local Open Scope Z_scope.
Local Notation length := List.length.

Module NonFinalizedFacts.
Import Network Block SpendCheck Chain ChainBlocks ChainTrees ChainRun ChainFacts ContextChecks NonFinalized NonFinalizedSet.

Section State.
Context {U : Difficulty.U256} {UL : Difficulty.U256Laws U} {SH : Merkle.Sha256} {B : NodeData.Blake2b}.
Context {NT : NoteTrees} {completed : Tree -> Z} {NTL : NoteTreesLaws completed} {RF : Referred}.
Context (net : Network) (Hnet : net_wf net) (block_of : Hash -> Block).
Notation chain_ok := (chain_ok net block_of).
Implicit Types (c x : Chain) (s : list Chain) (self : NonFinalizedState) (pb : gmap Hash Z).

Definition hashes c : list Hash := hash <$> blks c.

(** ** Sets of chains *)

(** The blocks that two chains share have one receipt. *)
Definition agree c c' : Prop :=
  forall b b', b ∈ blks c -> b' ∈ blks c' -> hash b = hash b' -> receipt_order b = receipt_order b'.

Definition preference pb c : option (Hash * Z) := pair (tip c) <$> pb !! tip c.

Record chains_ok (parent : Hash) (root : Z) pb s : Prop := {
  cs_chain : forall c, c ∈ s -> chain_ok parent root c;
  cs_live : forall c, c ∈ s -> live c;
  cs_sorted : StronglySorted chain_lt s;
  cs_agree : forall c c', c ∈ s -> c' ∈ s -> agree c c';
  cs_preferred : forall c, c ∈ s -> precious c = preference pb c;
}.

Lemma tip_in c : live c -> exists t, tip_block c = Some t /\ hash t = tip c /\ t ∈ blks c.
Proof.
  intros [t Ht]. exists t. split; [done|]. split; [unfold tip; by rewrite Ht|]. by apply last_Some_elem_of in Ht.
Qed.

Lemma key_tip c c' : live c -> live c' -> key c = key c' -> tip c = tip c'.
Proof.
  intros [t Ht] [t' Ht']. unfold key, tip. rewrite Ht, Ht'. intros [= _ _ Hk].
  destruct (receipt_order t), (receipt_order t'); cbn in Hk; by injection Hk.
Qed.

Lemma tip_key parent root c c' :
  chain_ok parent root c -> chain_ok parent root c' -> live c -> live c' -> agree c c' ->
  precious c = precious c' -> tip c = tip c' -> key c = key c'.
Proof.
  intros Hc Hc' Hl Hl' Ha Hp Ht. pose proof (same_tip _ _ _ _ _ _ Hc Hc' Hl Hl' Ht) as Hh.
  destruct (tip_in c Hl) as (t & Htb & Hth & Hin). destruct (tip_in c' Hl') as (t' & Htb' & Hth' & Hin').
  unfold key. rewrite Htb, Htb', (ok_work _ _ _ _ _ Hc), (ok_work _ _ _ _ _ Hc'), !(work_hashes block_of), Hh by apply Hc || apply Hc'.
  unfold precedence. rewrite Hp, (Ha t t') by congruence. by replace (hash t') with (hash t) by congruence.
Qed.

Lemma chains_tips parent root pb s : chains_ok parent root pb s -> NoDup (tip <$> s).
Proof.
  intros [Hc Hl Hs Ha Hp]. induction s as [|x s IH]; [constructor|]. rewrite fmap_cons.
  apply StronglySorted_inv in Hs as [Hs Hf]. constructor.
  - intros (y & Hy & Hin)%list_elem_of_fmap. rewrite Forall_forall in Hf. apply (chain_lt_irrefl x y (Hf y Hin)).
    apply (tip_key parent root); [apply Hc|apply Hc|apply Hl|apply Hl|apply Ha| |done]; [set_solver..|].
    rewrite !Hp by set_solver. unfold preference. by rewrite Hy.
  - apply IH; [| |done|..]; intros; [apply Hc|apply Hl|apply Ha|apply Hp]; set_solver.
Qed.

Lemma chains_sublist parent root pb s s' : s' `sublist_of` s -> chains_ok parent root pb s -> chains_ok parent root pb s'.
Proof.
  intros Hsub [Hc Hl Hs Ha Hp]. assert (Hin : forall x, x ∈ s' -> x ∈ s) by (intros x Hx; by eapply elem_of_sublist).
  split; [auto|auto|by eapply sorted_sublist|auto|auto].
Qed.

Lemma chains_preference parent root pb pb' s :
  (forall c, c ∈ s -> pb' !! tip c = pb !! tip c) -> chains_ok parent root pb s -> chains_ok parent root pb' s.
Proof.
  intros Hpb [Hc Hl Hs Ha Hp]. split; [done..|]. intros c Hin. rewrite Hp by done. unfold preference. by rewrite Hpb.
Qed.

Lemma preferred_ok parent root c p :
  chain_ok parent root c -> chain_ok parent root (set_precious c p).
Proof. intros [(b & ls & Hc & Hr & Hb) Hl Hk]. split; [|done..]. exists b, ls. split; [by apply chain_of_flags|done]. Qed.

Lemma self_agree parent root c : chain_ok parent root c -> agree c c.
Proof.
  intros Hok b b' Hb Hb' Hh. apply list_elem_of_lookup in Hb as [i Hi], Hb' as [j Hj].
  pose proof (ok_hashes _ _ _ _ _ Hok) as Hn. enough (i = j) by congruence.
  eapply NoDup_lookup; [exact Hn|rewrite list_lookup_fmap, Hi; done|rewrite list_lookup_fmap, Hj; cbn; by rewrite Hh].
Qed.

(** ** Insertion *)

(** The set after the insertion of [c] *)
Definition inserted pb c s s' : Prop :=
  (tip c ∈ tip <$> s /\ s' = s) \/ (tip c ∉ tip <$> s /\ s' ≡ₚ set_precious c (preference pb c) :: s).

Lemma insert_ok {E} parent root pb c s :
  chains_ok parent root pb s -> chain_ok parent root c -> live c -> (forall x, x ∈ s -> agree c x /\ agree x c) ->
  exists s', set_insert (E := E) (set_precious c (preference pb c)) s = Ok s' /\ chains_ok parent root pb s' /\
    inserted pb c s s'.
Proof.
  intros Hs Hc Hl Ha. set (c0 := set_precious c (preference pb c)).
  assert (Hc0 : chain_ok parent root c0) by by apply preferred_ok.
  destruct (set_insert_Ok (E := E) c0 s Hl) as (s' & -> & Hs' & Hcase);
    [apply Forall_forall, (cs_live _ _ _ _ Hs)|apply Hs|].
  exists s'. split; [done|]. destruct Hcase as [(x & Hx & Hk & ->)|[Hn Hp]].
  - split; [done|]. left. split; [|done]. apply list_elem_of_fmap. exists x. split; [|done].
    change (tip c0 = tip x). symmetry. apply key_tip; [by eapply cs_live|done|done].
  - assert (Hin : forall x, x ∈ s' <-> x = c0 \/ x ∈ s) by (intros x; by rewrite Hp, elem_of_cons).
    split; [split|].
    + intros x [->|Hx]%Hin; [done|]. by apply Hs.
    + intros x [->|Hx]%Hin; [done|]. by apply (cs_live _ _ _ _ Hs).
    + done.
    + intros x y [->|Hx]%Hin [->|Hy]%Hin; [by eapply self_agree|by apply Ha|by apply Ha|by apply (cs_agree _ _ _ _ Hs)].
    + intros x [->|Hx]%Hin; [done|]. by apply (cs_preferred _ _ _ _ Hs).
    + right. split; [|done]. intros (x & Ht & Hx)%list_elem_of_fmap. apply (Hn x Hx).
      apply (tip_key parent root); [by apply Hs|done|by eapply cs_live|done|by apply Ha| |done].
      rewrite (cs_preferred _ _ _ _ Hs x Hx). unfold c0, preference. cbn. by rewrite <- Ht.
Qed.

Lemma insert_with_ok {E} parent root self c (g : Chain -> bool) (f : list Chain -> res E (list Chain)) :
  chains_ok parent root (precious_blocks self) (chain_set self) -> chain_ok parent root c -> live c ->
  (forall x, x ∈ chain_set self -> agree c x /\ agree x c) ->
  (forall s, chains_ok parent root (precious_blocks self) s -> f s = Ok (filter (fun x => g x = true) s)) ->
  exists s1 s2, insert_with self c f = Ok (set_chains self s2) /\ inserted (precious_blocks self) c (chain_set self) s1 /\
    evicted (tip c) (filter (fun x => g x = true) s1) s2 /\ chains_ok parent root (precious_blocks self) s1 /\
    chains_ok parent root (precious_blocks self) s2.
Proof.
  intros Hs Hc Hl Ha Hf. unfold insert_with, with_tip_preference. rewrite !live_tip_hash by done. cbn [res_bind].
  destruct (insert_ok (E := E) _ _ _ _ _ Hs Hc Hl Ha) as (s1 & Hi & Hs1 & Hin). unfold preference in Hi. rewrite Hi.
  cbn [res_bind]. rewrite Hf by done. cbn [res_bind].
  assert (Hs2 := chains_sublist _ _ _ _ _ (sublist_filter (fun x => g x = true) s1) Hs1).
  destruct (evict_Ok (E := E) (length (filter (fun x => g x = true) s1)) (tip c) _
    (proj2 (Forall_forall _ _) (cs_live _ _ _ _ Hs2)) (cs_sorted _ _ _ _ Hs2) (chains_tips _ _ _ _ Hs2) (le_n _))
    as (s2 & -> & Hev).
  exists s1, s2. split; [done|]. split; [done|]. split; [done|]. split; [done|]. by eapply chains_sublist; [apply Hev|].
Qed.

(** ** Finalizing *)

Lemma key_pop parent root parent' root' c x b :
  chain_ok parent root c -> chain_ok parent' root' x -> live x -> blks c = b :: blks x -> precious x = precious c ->
  exists w rest, key c = w :: rest /\ key x = w - work_at block_of (hash b) :: rest.
Proof.
  intros Hc Hx [t Ht] Hb Hp.
  assert (Htc : tip_block c = Some t).
  { unfold tip_block in *. fold (blks c) (blks x) in *. by rewrite Hb, last_cons, Ht. }
  unfold key. rewrite Ht, Htc. unfold precedence. rewrite Hp. eexists _, _. split; [done|]. f_equal.
  rewrite (ok_work _ _ _ _ _ Hc), (ok_work _ _ _ _ _ Hx), !(work_hashes block_of) by apply Hc || apply Hx.
  rewrite Hb. cbn [fmap list_fmap foldr]. lia.
Qed.

Lemma lt_pop parent root parent' root' c x b c' x' b' :
  chain_ok parent root c -> chain_ok parent root c' -> chain_ok parent' root' x -> chain_ok parent' root' x' ->
  live x -> live x' -> blks c = b :: blks x -> blks c' = b' :: blks x' -> hash b = hash b' ->
  precious x = precious c -> precious x' = precious c' -> chain_lt c c' -> chain_lt x x'.
Proof.
  intros Hc Hc' Hx Hx' Hl Hl' Hb Hb' Hh Hp Hp'.
  destruct (key_pop _ _ _ _ c x b Hc Hx Hl Hb Hp) as (w & rest & Hk & Hkx).
  destruct (key_pop _ _ _ _ c' x' b' Hc' Hx' Hl' Hb' Hp') as (w' & rest' & Hk' & Hkx').
  unfold chain_lt. rewrite Hk, Hk', Hkx, Hkx', <- Hh. cbn [lex].
  destruct (Z.compare_spec w w'), (Z.compare_spec (w - work_at block_of (hash b)) (w' - work_at block_of (hash b)));
    by try lia.
Qed.

(** The chains [A] are those of [P] above the finalized block, without it. *)
Record popped (hb : Hash) (P A : list Chain) : Prop := {
  pp_from : forall x, x ∈ A -> exists c b, c ∈ P /\ blks c = b :: blks x /\ hash b = hb;
  pp_all : forall c b bs, c ∈ P -> blks c = b :: bs -> hash b = hb -> bs <> [] -> exists x, x ∈ A /\ blks x = bs;
  pp_length : (length A <= length P)%nat;
}.

Lemma tip_pop c x b : live x -> blks c = b :: blks x -> tip x = tip c.
Proof.
  intros [t Ht] Hb. unfold tip, tip_block in *. fold (blks c) (blks x) in *. by rewrite Hb, last_cons, Ht.
Qed.

Lemma agree_pop c c' x x' b b' : blks c = b :: blks x -> blks c' = b' :: blks x' -> agree c c' -> agree x x'.
Proof. intros Hb Hb' Ha d d' Hd Hd'. apply Ha; rewrite ?Hb, ?Hb'; by apply list_elem_of_further. Qed.

Lemma root_hash_cons {E} c b bs : blks c = b :: bs -> non_finalized_root_hash (E := E) c = Ok (hash b).
Proof. intros Hb. unfold non_finalized_root_hash. fold (blks c). by rewrite Hb. Qed.

Lemma is_empty_blks c : is_empty c = true <-> blks c = [].
Proof.
  unfold is_empty, blks. rewrite bool_decide_eq_true. split; [by intros ->|]. by intros ?%fmap_nil_inv.
Qed.

Lemma set_chains_self self : set_chains self (chain_set self) = self.
Proof. by destruct self. Qed.

Lemma insert_small {E} parent root self c :
  chains_ok parent root (precious_blocks self) (chain_set self) -> chain_ok parent root c -> live c ->
  (forall x, x ∈ chain_set self -> agree c x /\ agree x c) -> tip c ∉ tip <$> chain_set self ->
  (length (chain_set self) < MAX_NON_FINALIZED_CHAIN_FORKS)%nat ->
  exists s, NonFinalized.insert (E := E) self c = Ok (set_chains self s) /\ chains_ok parent root (precious_blocks self) s /\
    s ≡ₚ set_precious c (preference (precious_blocks self) c) :: chain_set self.
Proof.
  intros Hs Hc Hl Ha Hn Hlen.
  assert (Hkeep : forall s : list Chain, filter (fun _ => true = true) s = s) by (intros s; by apply TreeIndex.filter_keep).
  destruct (insert_with_ok (E := E) parent root self c (fun _ => true) Ok Hs Hc Hl Ha) as (s1 & s2 & Hi & Hins & Hev & _ & Hs2).
  { intros s _. by rewrite Hkeep. }
  exists s2. split; [done|]. split; [done|]. destruct Hins as [[? _]|[_ Hp]]; [done|]. rewrite Hkeep in Hev.
  rewrite (ev_same _ _ _ Hev); [done|]. rewrite Hp. cbn. lia.
Qed.

Lemma finalize_side_ok {E} parent root self s P c b :
  chains_ok parent root (precious_blocks self) s -> c ∈ s -> (forall x, x ∈ P -> x ∈ s) -> tip c ∉ tip <$> P -> modest net c ->
  chains_ok (hash b) (root + 1) (precious_blocks self) (chain_set self) -> popped (hash b) P (chain_set self) ->
  (length P < MAX_NON_FINALIZED_CHAIN_FORKS)%nat ->
  exists A, finalize_side_chain (E := E) b self c = Ok (set_chains self A) /\
    chains_ok (hash b) (root + 1) (precious_blocks self) A /\ popped (hash b) (P ++ [c]) A.
Proof.
  intros Hs Hc HP Ht Hm HA [Hfrom Hall Hlen] Hmax. unfold finalize_side_chain.
  assert (Hl : live c) by by apply (cs_live _ _ _ _ Hs). destruct (blks c) as [|b0 bs] eqn:Hb; [by apply live_blks in Hl|].
  rewrite (root_hash_cons c b0 bs Hb). cbn [res_bind].
  assert (Hskip : forall (Hno : forall d ds, b0 :: bs = d :: ds -> hash d = hash b -> ds = []),
    popped (hash b) (P ++ [c]) (chain_set self)).
  { intros Hno. split; [|..|rewrite length_app; lia].
    - intros x (c' & d & Hc' & Hd)%Hfrom. exists c', d. set_solver.
    - intros c' d ds [Hc'| ->%list_elem_of_singleton]%elem_of_app Hd Hh Hne; [by eapply Hall|].
      rewrite Hb in Hd. by destruct Hne, (Hno d ds). }
  destruct (Z.eqb_spec (hash b0) (hash b)) as [Hh|Hh]; cbn [negb].
  2: { exists (chain_set self). rewrite set_chains_self. split; [done|]. split; [done|]. apply Hskip. by intros d ds [= <- <-]. }
  destruct (pop_root_ok (E := E) net Hnet block_of parent root c b0 bs) as (st & c1 & -> & Hb1 & Hc1 & Hp1);
    [by apply Hs|done|done|]. cbn [res_bind]. rewrite Hh, Z.eqb_refl in *. cbn [rust_assert res_bind].
  destruct (is_empty c1) eqn:He.
  { apply is_empty_blks in He. rewrite Hb1 in He. subst bs. exists (chain_set self). rewrite set_chains_self.
    split; [done|]. split; [done|]. apply Hskip. by intros d ds [= <- <-]. }
  assert (Hl1 : live c1) by (apply live_blks; intros H; by apply is_empty_blks in H; rewrite H in He).
  rewrite <- Hb1 in Hb. pose proof (tip_pop c c1 b0 Hl1 Hb) as Ht1.
  destruct (insert_small (E := E) (hash b) (root + 1) self c1 HA Hc1 Hl1) as (A & -> & HokA & HpA).
  - intros x (c' & d & Hc' & Hd & _)%Hfrom. split; eapply agree_pop; [exact Hb|exact Hd| |exact Hd|exact Hb|];
      apply (cs_agree _ _ _ _ Hs); auto.
  - intros (x & Htx & Hx)%list_elem_of_fmap. destruct (Hfrom x Hx) as (c' & d & Hc' & Hd & _).
    apply Ht, list_elem_of_fmap. exists c'. split; [|done]. rewrite <- Ht1, Htx. eapply tip_pop; [|exact Hd].
    by eapply cs_live.
  - lia.
  - exists A. split; [done|]. split; [done|]. split.
    + intros x Hx. rewrite HpA in Hx. apply elem_of_cons in Hx as [->|Hx].
      * exists c, b0. split; [set_solver|]. by split.
      * destruct (Hfrom x Hx) as (c' & d & Hc' & Hd). exists c', d. set_solver.
    + intros c' d ds [Hc'| ->%list_elem_of_singleton]%elem_of_app Hd Hhd Hne.
      * destruct (Hall c' d ds Hc' Hd Hhd Hne) as (x & Hx & Hbx). exists x. split; [|done]. rewrite HpA. by apply list_elem_of_further.
      * rewrite Hb in Hd. injection Hd as _ <-. eexists. rewrite HpA. split; [apply list_elem_of_here|]. done.
    + rewrite HpA, length_app. cbn. lia.
Qed.

(** The loop over the side chains *)
Lemma finalize_sides_ok {E} parent root self s P l b :
  chains_ok parent root (precious_blocks self) s -> (forall x, x ∈ P ++ l -> x ∈ s) -> NoDup (tip <$> P ++ l) ->
  (forall c, c ∈ l -> modest net c) -> (length (P ++ l) <= MAX_NON_FINALIZED_CHAIN_FORKS)%nat ->
  chains_ok (hash b) (root + 1) (precious_blocks self) (chain_set self) -> popped (hash b) P (chain_set self) ->
  exists A, foldl (fun acc c => let? self := acc in finalize_side_chain (E := E) b self c) (Ok self) l = Ok (set_chains self A) /\
    chains_ok (hash b) (root + 1) (precious_blocks self) A /\ popped (hash b) (P ++ l) A.
Proof.
  revert P self. induction l as [|c l IH]; intros P self Hs HP Hn Hm Hmax HA Hpop.
  - exists (chain_set self). rewrite set_chains_self, app_nil_r. done.
  - cbn [foldl res_bind]. rewrite cons_middle, app_assoc in HP, Hn, Hmax.
    destruct (finalize_side_ok (E := E) parent root self s P c b Hs) as (A & -> & HA' & Hpop'); [| | | |done|done| |].
    + apply HP. set_solver.
    + intros x Hx. apply HP. set_solver.
    + rewrite !fmap_app in Hn. apply NoDup_app in Hn as [Hn _]. apply NoDup_app in Hn as (_ & Hn & _). intros Hin.
      apply (Hn _ Hin). set_solver.
    + apply Hm, list_elem_of_here.
    + rewrite !length_app in Hmax. cbn in Hmax. lia.
    + destruct (IH (P ++ [c]) (set_chains self A) Hs HP Hn) as (A' & Hf & HA'' & Hpop''); [|done|done|done|].
      * intros y Hy. by apply Hm, list_elem_of_further.
      * exists A'. rewrite cons_middle, app_assoc. by rewrite Hf.
Qed.

(** ** States *)

(** A record of invalidated blocks: linked blocks at consecutive heights *)
Record record_ok (r : Z * list ContextuallyVerifiedBlock) : Prop := {
  ro_candidates : candidates net r.1 r.2;
  ro_known : Forall (known block_of) r.2;
  ro_linked : exists p, hash_linked p r.2 /\ coinbase_height (block_of p) = Some (r.1 - 1);
  ro_nonempty : r.2 <> [];
}.

Definition record_hashes (records : list (Z * list ContextuallyVerifiedBlock)) : list Hash :=
  records ≫= fun r => hash <$> r.2.

Record state_ok (parent : Hash) (root : Z) self : Prop := {
  so_chains : chains_ok parent root (precious_blocks self) (chain_set self);
  so_count : (length (chain_set self) <= MAX_NON_FINALIZED_CHAIN_FORKS)%nat;
  so_records : Forall record_ok (invalidated_blocks self);
  so_unique : NoDup (record_hashes (invalidated_blocks self));
  so_limit : (length (invalidated_blocks self) <= MAX_INVALIDATED_BLOCKS)%nat;
  so_out : forall c h, c ∈ chain_set self -> h ∈ hashes c -> h ∉ record_hashes (invalidated_blocks self);
  so_keys : NoDup (invalidated_blocks self).*1;
  so_sequence : 0 <= precious_sequence self < 2 ^ 64 /\ forall h q, precious_blocks self !! h = Some q -> 0 <= q <= precious_sequence self;
  so_network : state_network self = net;
  so_parent : coinbase_height (block_of parent) = Some (root - 1);
}.

Lemma chain_coinbase parent root c i b h :
  chain_ok parent root c -> blks c !! i = Some b -> h = root + Z.of_nat i -> coinbase_height (block_of (hash b)) = Some h.
Proof.
  intros Hc Hi ->. rewrite <- (cd_coinbase _ _ _ (candidates_lookup _ _ _ _ _ (ok_candidates _ _ _ _ _ Hc) Hi)). f_equal.
  pose proof (ck_known _ _ _ _ _ Hc) as Hk. rewrite Forall_forall in Hk. symmetry. by apply Hk, (list_elem_of_lookup_2 _ i).
Qed.

(** The block that a chain is to be extended from *)
Definition end_hash (parent : Hash) c : Hash := default parent (hash <$> last (blks c)).

Lemma end_tip parent c : live c -> end_hash parent c = tip c.
Proof. intros [t Ht]. unfold end_hash, tip, tip_block in *. fold (blks c) in *. by rewrite Ht. Qed.

Lemma end_height parent root c :
  chain_ok parent root c -> coinbase_height (block_of parent) = Some (root - 1) ->
  coinbase_height (block_of (end_hash parent c)) = Some (root + Z.of_nat (length (blks c)) - 1).
Proof.
  intros Hc Hp. unfold end_hash. destruct (blks c) as [|t bs _] eqn:Hb using rev_ind; [cbn; rewrite Hp; f_equal; lia|].
  rewrite last_snoc. cbn [fmap option_fmap option_map default]. eapply (chain_coinbase parent root c (length bs)); [done|..].
  - rewrite Hb. by apply list_lookup_middle.
  - rewrite length_app. cbn. lia.
Qed.

Lemma is_invalidated_spec self h :
  is_invalidated self h = true <-> h ∈ record_hashes (invalidated_blocks self).
Proof.
  unfold is_invalidated, record_hashes. rewrite existsb_exists, list_elem_of_bind. split.
  - intros (r & Hr & (b & Hb & Hh)%existsb_exists). exists r. apply Z.eqb_eq in Hh. rewrite <- Hh.
    split; [apply list_elem_of_fmap; exists b; split; [done|by apply list_elem_of_In]|by apply list_elem_of_In].
  - intros (r & (b & -> & Hb)%list_elem_of_fmap & Hr). exists r. split; [by apply list_elem_of_In|].
    apply existsb_exists. exists b. split; [by apply list_elem_of_In|apply Z.eqb_refl].
Qed.

Lemma any_contains parent root pb self h :
  chains_ok parent root pb (chain_set self) ->
  any_chain_contains self h = true <-> exists c, c ∈ chain_set self /\ h ∈ hashes c.
Proof.
  intros Hs. unfold any_chain_contains, chain_iter. rewrite existsb_exists. split.
  - intros (c & Hc & Hh). rewrite <- list_elem_of_In, elem_of_reverse in Hc. exists c. split; [done|].
    by apply (ok_contains _ _ _ _ _ _ (cs_chain _ _ _ _ Hs c Hc)).
  - intros (c & Hc & Hh). exists c. split; [by rewrite <- list_elem_of_In, elem_of_reverse|].
    by apply (ok_contains _ _ _ _ _ _ (cs_chain _ _ _ _ Hs c Hc)).
Qed.

Lemma tip_hashes c : live c -> tip c ∈ hashes c.
Proof. intros Hl. destruct (tip_in c Hl) as (t & _ & <- & Hin). by apply list_elem_of_fmap_2. Qed.

Lemma retain_lookup parent root pb self c :
  chains_ok parent root pb (chain_set self) -> c ∈ chain_set self ->
  precious_blocks (retain_precious_blocks self) !! tip c = precious_blocks self !! tip c.
Proof.
  intros Hs Hc. cbn [retain_precious_blocks precious_blocks].
  rewrite map_lookup_filter. destruct (precious_blocks self !! tip c) as [q|]; [|done]. cbn [mbind option_bind].
  rewrite option_guard_True; [done|]. cbn [fst]. rewrite (proj2 (any_contains _ _ _ self (tip c) Hs)); [done|].
  exists c. split; [done|]. by apply tip_hashes, (cs_live _ _ _ _ Hs).
Qed.

Lemma retain_ok parent root self :
  chains_ok parent root (precious_blocks self) (chain_set self) ->
  chains_ok parent root (precious_blocks (retain_precious_blocks self)) (chain_set self).
Proof. intros Hs. eapply chains_preference; [|exact Hs]. intros c Hc. by eapply retain_lookup. Qed.

Lemma records_sublist records records' :
  records' `sublist_of` records -> record_hashes records' `sublist_of` record_hashes records.
Proof. intros Hs. by apply bind_sublist. Qed.

(** A state with other chains and fewer records *)
Lemma state_change parent root parent' root' self self' :
  state_ok parent root self -> chains_ok parent' root' (precious_blocks self') (chain_set self') ->
  (length (chain_set self') <= MAX_NON_FINALIZED_CHAIN_FORKS)%nat ->
  invalidated_blocks self' `sublist_of` invalidated_blocks self ->
  (forall c h, c ∈ chain_set self' -> h ∈ hashes c -> h ∉ record_hashes (invalidated_blocks self')) ->
  (0 <= precious_sequence self' < 2 ^ 64 /\ forall h q, precious_blocks self' !! h = Some q -> 0 <= q <= precious_sequence self') ->
  state_network self' = net -> coinbase_height (block_of parent') = Some (root' - 1) ->
  state_ok parent' root' (retain_precious_blocks self').
Proof.
  intros Hok Hs Hlen Hsub Hout [Hq Hqs] Hn Hpar. split; cbn [retain_precious_blocks chain_set invalidated_blocks precious_sequence precious_blocks state_network]; [by apply retain_ok|done|..|done| | |done|done].
  - by apply (sublist_all _ _ _ Hsub), Hok.
  - eapply sublist_NoDup; [apply (so_unique _ _ _ Hok)|by apply records_sublist].
  - pose proof (sublist_length _ _ Hsub). pose proof (so_limit _ _ _ Hok). lia.
  - eapply sublist_NoDup; [apply (so_keys _ _ _ Hok)|by apply fmap_sublist].
  - split; [done|]. intros h q Hget. apply map_lookup_filter_Some in Hget as [Hget _]. by eapply Hqs.
Qed.

Lemma finalize_ok {E} parent root self :
  state_ok parent root self -> chain_set self <> [] -> (forall c, c ∈ chain_set self -> modest net c) ->
  exists best b bs ts self',
    best_chain self = Some best /\ blks best = b :: bs /\ finalize (E := E) self = Ok (b, ts, self') /\
    state_ok (hash b) (root + 1) self' /\ popped (hash b) (chain_set self) (chain_set self') /\
    chains_ok (hash b) (root + 1) (precious_blocks self) (chain_set self') /\ treestate (trees best) root = Some ts.
Proof.
  intros Hok Hne Hm. pose proof (so_chains _ _ _ Hok) as Hs.
  destruct (chain_set self) as [|best s _] eqn:Hset using rev_ind; [done|].
  assert (Hin : best ∈ s ++ [best]) by set_solver. pose proof (cs_live _ _ _ _ Hs best Hin) as Hl.
  destruct (blks best) as [|b bs] eqn:Hb; [by apply live_blks in Hl|].
  destruct (pop_root_ok (E := E) net Hnet block_of parent root best b bs) as (ts & best' & Hpop & Hb' & Hc' & _);
    [by apply Hs|by apply Hm|done|].
  set (self0 := set_chains self []).
  destruct (finalize_side_ok (E := E) parent root self0 (s ++ [best]) [] best b) as (A0 & HA0 & HokA0 & HpA0);
    [done|done|by intros x Hx%elem_of_nil|by intros Hx%elem_of_nil|by apply Hm| |..|unfold MAX_NON_FINALIZED_CHAIN_FORKS; cbn; lia|].
  { split; [intros c Hc; by apply elem_of_nil in Hc..|constructor|intros c c' Hc; by apply elem_of_nil in Hc|intros c Hc; by apply elem_of_nil in Hc]. }
  { split; [intros x Hx; by apply elem_of_nil in Hx|intros c d ds Hx; by apply elem_of_nil in Hx|done]. }
  destruct (finalize_sides_ok (E := E) parent root (set_chains self0 A0) (s ++ [best]) ([] ++ [best]) (reverse s) b)
    as (A & HA & HokA & HpA); [done| | | | |done|done|].
  { intros x Hx. rewrite elem_of_app, elem_of_reverse in Hx. set_solver. }
  { pose proof (chains_tips _ _ _ _ Hs) as Hn. rewrite !fmap_app, fmap_reverse in *. rewrite app_nil_l.
    rewrite Permutation_app_comm, reverse_Permutation. done. }
  { intros c Hc. rewrite elem_of_reverse in Hc. apply Hm. set_solver. }
  { rewrite !length_app, length_reverse. pose proof (so_count _ _ _ Hok) as Hcount. rewrite Hset, length_app in Hcount. cbn in *. lia. }
  exists best, b, bs, ts. eexists. split; [unfold best_chain, chain_iter; by rewrite Hset, reverse_snoc|]. split; [done|].
  assert (Hbest : (if is_empty best' then Ok self0 else NonFinalized.insert self0 best') = Ok (E := E) (set_chains self0 A0)).
  { rewrite <- HA0. unfold finalize_side_chain. rewrite (root_hash_cons best b bs Hb). cbn [res_bind].
    rewrite Z.eqb_refl, Hpop. cbn [negb res_bind]. by rewrite Z.eqb_refl. }
  split; [|split; [|split; [|split]]].
  - unfold finalize, best_chain, chain_iter. rewrite Hset, reverse_snoc. cbn [head expect ok_or res_bind tail].
    fold self0. rewrite Hpop. cbn [res_bind]. rewrite Hbest. cbn [res_bind]. rewrite HA. cbn [res_bind]. done.
  - eapply state_change; [exact Hok|exact HokA|..]; cbn [set_invalidated set_chains chain_set invalidated_blocks precious_sequence state_network self0].
    + etrans; [apply (pp_length _ _ _ HpA)|]. rewrite !length_app, length_reverse.
      pose proof (so_count _ _ _ Hok) as Hcount. rewrite Hset, length_app in Hcount. cbn in *. lia.
    + apply sublist_filter.
    + intros x h Hx Hh Hr. destruct (pp_from _ _ _ HpA x Hx) as (c & d & Hc & Hd & _).
      apply (so_out _ _ _ Hok c h); [rewrite Hset; rewrite elem_of_app, elem_of_reverse in Hc; set_solver|..].
      * unfold hashes in *. rewrite Hd. by apply list_elem_of_further.
      * eapply elem_of_sublist; [exact Hr|]. apply records_sublist, sublist_filter.
    + apply (so_sequence _ _ _ Hok).
    + apply Hok.
    + replace (root + 1 - 1) with root by lia. eapply (chain_coinbase parent root best 0 b); [by apply Hs|by rewrite Hb|lia].
  - cbn [retain_precious_blocks set_invalidated set_chains chain_set]. destruct HpA as [H1 H2 H3]. split.
    + intros x (c & d & Hc & Hd)%H1. exists c, d. split; [|done]. rewrite elem_of_app, elem_of_reverse in Hc. set_solver.
    + intros c d ds Hc. apply H2. rewrite elem_of_app, elem_of_reverse. set_solver.
    + rewrite !length_app, length_reverse in *. cbn in *. lia.
  - exact HokA.
  - unfold pop_root in Hpop. apply res_bind_Ok in Hpop as (h & Hh & Hpop). apply res_bind_Ok in Hpop as (st & Hst & Hpop).
    assert (Hroot : h = root).
    { destruct (ck_chain _ _ _ _ _ (cs_chain _ _ _ _ Hs best Hin)) as (b0 & ls & Hch & Hr & Hbl).
      unfold non_finalized_root_height in Hh. rewrite (c_blocks _ _ _ _ Hch), Hbl, Hb, Hr in Hh. by injection Hh. }
    subst h. destruct (treestate (trees best) root) as [st'|]; [|done]. injection Hst as ->. res_inv. congruence.
Qed.

(** ** The best chain *)

Lemma last_max s m c : StronglySorted chain_lt s -> last s = Some m -> c ∈ s -> c = m \/ chain_lt c m.
Proof.
  destruct s as [|x s _] using rev_ind; [done|]. intros Hs Hl Hc. rewrite last_snoc in Hl. injection Hl as ->.
  apply elem_of_app in Hc as [Hc| ->%list_elem_of_singleton]; [|by left]. right.
  apply StronglySorted_app in Hs as (H & _ & _). apply H; [done|apply list_elem_of_here].
Qed.

Lemma best_last self : best_chain self = last (chain_set self).
Proof. unfold best_chain, chain_iter. by rewrite head_reverse. Qed.

Definition work c : Z := partial_cumulative_work (indexes c).

Lemma lt_work c c' : live c -> live c' -> chain_lt c c' -> work c <= work c'.
Proof.
  intros [t Ht] [t' Ht']. unfold chain_lt, key, work. rewrite Ht, Ht'. cbn [lex].
  destruct (Z.compare_spec (partial_cumulative_work (indexes c)) (partial_cumulative_work (indexes c'))); intros; [lia|lia|done].
Qed.

Lemma max_work parent root pb s m c : chains_ok parent root pb s -> last s = Some m -> c ∈ s -> work c <= work m.
Proof.
  intros Hs Hl Hc. destruct (last_max s m c (cs_sorted _ _ _ _ Hs) Hl Hc) as [->|Hlt]; [lia|].
  apply lt_work; [by apply (cs_live _ _ _ _ Hs)|apply (cs_live _ _ _ _ Hs); by apply last_Some_elem_of|done].
Qed.

(** ** Committing a block *)

Definition parent_of (prepared : Checkpoint.CheckpointVerifiedBlock) : Hash :=
  BlockHeader.previous_block_hash (header (Checkpoint.block prepared)).

(** A block that the verifiers accepted: the hash is its own, whatever it spends it
    is verified for its height, and its parent is one below. *)
Record verified (prepared : Checkpoint.CheckpointVerifiedBlock) : Prop := {
  v_known : Checkpoint.block prepared = block_of (Checkpoint.block_hash prepared);
  v_candidate : forall receipt spent b,
    with_block_and_spent_utxos net (with_receipt_order prepared receipt) spent = Ok b ->
    candidate net b (Checkpoint.height prepared);
  v_parent : coinbase_height (block_of (parent_of prepared)) = Some (Checkpoint.height prepared - 1);
}.

Lemma find_map_fork {E} parent root s h :
  (forall c, c ∈ s -> chain_ok parent root c) -> (forall c, c ∈ s -> modest net c) ->
  (exists c pc, find_map_res (fun c => fork (E := E) c h) s = Ok (Some pc) /\ c ∈ s /\ chain_ok parent root pc /\ live pc /\
     tip pc = h /\ blks pc `prefix_of` blks c) \/
  (find_map_res (fun c => fork (E := E) c h) s = Ok None /\ forall c, c ∈ s -> h ∉ hashes c).
Proof.
  induction s as [|c s IH]; intros Hc Hm; [right; split; [done|]; by intros c Hin%elem_of_nil|]. cbn [find_map_res].
  destruct (decide (h ∈ hashes c)) as [(b & -> & Hb)%list_elem_of_fmap|Hn].
  - left. apply list_elem_of_split in Hb as (bs & bs' & Hb).
    destruct (fork_ok (E := E) net Hnet block_of parent root c bs b bs') as (pc & -> & Hpc & Hok & _);
      [apply Hc, list_elem_of_here|apply Hm, list_elem_of_here|done|]. cbn [res_bind].
    destruct (tip_snoc pc bs b Hpc) as [Hl Ht]. exists c, pc. split; [done|]. split; [apply list_elem_of_here|].
    split; [done|]. split; [done|]. split; [done|]. exists bs'. by rewrite Hpc, Hb, <- app_assoc.
  - assert (Hf : fork (E := E) c h = Ok None).
    { unfold fork. destruct (bool_decide _) eqn:Hbd; [|done]. exfalso. apply Hn.
      apply (ok_contains net block_of parent root c h (Hc c (list_elem_of_here _ _))), Hbd. }
    rewrite Hf. cbn [res_bind].
    destruct IH as [(c' & pc & Heq & Hin & H)|[Heq Hall]]; [intros; apply Hc; set_solver|intros; apply Hm; set_solver|..].
    + left. exists c', pc. split; [done|]. split; [by apply list_elem_of_further|done].
    + right. split; [done|]. intros c' [->|Hc']%elem_of_cons; [done|by apply Hall].
Qed.

Lemma parent_chain_ok parent root self h :
  chains_ok parent root (precious_blocks self) (chain_set self) -> (forall c, c ∈ chain_set self -> modest net c) ->
  (exists c pc, parent_chain self h = Ok pc /\ c ∈ chain_set self /\ chain_ok parent root pc /\ live pc /\ tip pc = h /\
     blks pc `prefix_of` blks c) \/
  (parent_chain self h = Err NotReadyToBeCommitted /\ forall c, c ∈ chain_set self -> h ∉ hashes c).
Proof.
  intros Hs Hm. unfold parent_chain, find_chain, chain_iter.
  rewrite (find_res_ext _ (fun x => tip x =? h)).
  2: { intros x Hx. apply (has_tip_ext h (chain_set self)); [apply Forall_forall, (cs_live _ _ _ _ Hs)|].
       by rewrite elem_of_reverse in Hx. }
  cbn [res_bind]. destruct (List.find _ _) as [c|] eqn:Hf.
  - left. apply find_split in Hf as (pre & post & Hr & Ht & _). apply Z.eqb_eq in Ht.
    assert (Hc : c ∈ chain_set self) by (rewrite <- elem_of_reverse, Hr; set_solver).
    exists c, c. split; [done|]. split; [done|]. split; [by apply Hs|]. split; [by apply (cs_live _ _ _ _ Hs)|done].
  - destruct (find_map_fork (E := CommitError) parent root (reverse (chain_set self)) h) as [(c & pc & -> & Hc & H)|[-> Hall]].
    + intros c Hc. rewrite elem_of_reverse in Hc. by apply Hs.
    + intros c Hc. rewrite elem_of_reverse in Hc. by apply Hm.
    + left. exists c, pc. rewrite elem_of_reverse in Hc. done.
    + right. split; [done|]. intros c Hc. apply Hall. by rewrite elem_of_reverse.
Qed.

Lemma same_receipt prepared : with_receipt_order prepared (Checkpoint.receipt_order prepared) = prepared.
Proof. by destruct prepared. Qed.

(** The block that a commit adds: not invalidated, with the receipt of the block
    that is there. *)
Record added self (b : ContextuallyVerifiedBlock) : Prop := {
  ad_known : known block_of b;
  ad_out : hash b ∉ record_hashes (invalidated_blocks self);
  ad_receipt : forall c d, c ∈ chain_set self -> d ∈ blks c -> hash d = hash b -> receipt_order d = receipt_order b;
}.

Lemma check_before_ok parent root self prepared :
  state_ok parent root self ->
  let h := Checkpoint.block_hash prepared in
  (h ∈ record_hashes (invalidated_blocks self) /\
   check_before_contextual_update self prepared = Err (BlockPreviouslyInvalidated h)) \/
  (h ∉ record_hashes (invalidated_blocks self) /\ exists receipt,
     check_before_contextual_update self prepared = Ok (with_receipt_order prepared receipt) /\
     forall c d, c ∈ chain_set self -> d ∈ blks c -> hash d = h -> receipt_order d = receipt).
Proof.
  intros Hok h. pose proof (so_chains _ _ _ Hok) as Hs. unfold check_before_contextual_update, find_chain, chain_iter. fold h.
  rewrite (find_res_ext _ (fun c => contains_block_hash c h)) by done. cbn [res_bind].
  assert (Hpin : exists receipt,
    match List.find (fun c => contains_block_hash c h) (reverse (chain_set self)) with
    | Some chain => let? b := expect (block_of_hash chain h) in Ok (with_receipt_order prepared (receipt_order b))
    | None => Ok prepared
    end = Ok (E := CommitError) (with_receipt_order prepared receipt) /\
    forall c d, c ∈ chain_set self -> d ∈ blks c -> hash d = h -> receipt_order d = receipt).
  { destruct (List.find _ _) as [c|] eqn:Hf.
    - apply find_split in Hf as (pre & post & Hr & Hc & _).
      assert (Hin : c ∈ chain_set self) by (rewrite <- elem_of_reverse, Hr; set_solver).
      pose proof (cs_chain _ _ _ _ Hs c Hin) as Hcok.
      apply (ok_contains _ _ _ _ _ _ Hcok) in Hc as (b & Hb & Hbin)%list_elem_of_fmap.
      exists (receipt_order b). rewrite Hb, (ok_block_of_hash _ _ _ _ _ _ Hcok Hbin). split; [done|].
      intros c' d Hc' Hd Hhd. by apply (cs_agree _ _ _ _ Hs c' c Hc' Hin).
    - exists (Checkpoint.receipt_order prepared). rewrite same_receipt. split; [done|]. intros c d Hc Hd Hhd. exfalso.
      assert (Hnone := find_None_all _ _ Hf c). rewrite elem_of_reverse in Hnone. specialize (Hnone Hc).
      rewrite (proj2 (ok_contains _ _ _ _ _ h (cs_chain _ _ _ _ Hs c Hc))) in Hnone; [done|].
      apply list_elem_of_fmap. by exists d. }
  destruct Hpin as (receipt & -> & Hrec). cbn [res_bind].
  destruct (is_invalidated self h) eqn:Hi; [left; split; [by apply is_invalidated_spec|done]|].
  right. split; [|by exists receipt]. intros Hin%is_invalidated_spec. congruence.
Qed.

Lemma validate_Ok parent root self chain prepared fs c' :
  state_ok parent root self -> verified prepared -> validate_and_commit self chain prepared fs = Ok c' ->
  exists b, push chain b = Ok c' /\ added self b /\ candidate net b (Checkpoint.height prepared) /\
    hash b = Checkpoint.block_hash prepared /\ prev b = parent_of prepared.
Proof.
  intros Hok [Hkn Hcand _] Hv. unfold validate_and_commit in Hv.
  destruct (check_before_ok parent root self prepared Hok) as [[_ Hc]|[Hout (receipt & Hc & Hrec)]]; rewrite Hc in Hv; [done|].
  cbn [res_bind] in Hv. rewrite (so_network _ _ _ Hok) in Hv.
  apply res_bind_Ok in Hv as (spent & _ & Hv). apply res_bind_Ok in Hv as ([] & _ & Hv).
  apply res_bind_Ok in Hv as (b & Hb & Hv).
  assert (Hb' : with_block_and_spent_utxos net (with_receipt_order prepared receipt) spent = Ok b)
    by (destruct (with_block_and_spent_utxos _ _ _); by inversion Hb).
  assert (Hpush : push chain b = Ok c').
  { unfold validate_and_update_parallel in Hv. apply res_bind_Ok in Hv as (ht & _ & Hv).
    destruct (block_commitment_is_valid_for_chain_history _ _ _ _); [| |done];
      (destruct (block_sprout_anchors_refer_to_treestates _ _ _ _); [| |done]); by destruct (push chain b); inversion Hv. }
  exists b. split; [done|]. pose proof (Hcand _ _ _ Hb') as Hcd.
  unfold with_block_and_spent_utxos in Hb'. apply res_bind_Ok in Hb' as (ch & _ & [= <-]).
  split; [|done]. by split.
Qed.

(** A chain with a block more *)
Lemma extend_ok parent root self pc b c' :
  chains_ok parent root (precious_blocks self) (chain_set self) -> chain_ok parent root pc ->
  (forall x, x ∈ chain_set self -> agree pc x /\ agree x pc) -> added self b ->
  prev b = default parent (hash <$> last (blks pc)) -> candidate net b (root + Z.of_nat (length (blks pc))) ->
  push pc b = Ok c' ->
  blks c' = blks pc ++ [b] /\ chain_ok parent root c' /\ live c' /\ tip c' = hash b /\
  (forall x, x ∈ chain_set self -> agree c' x /\ agree x c') /\ work c' = work pc + work_of b.
Proof.
  intros Hs Hpc Ha [Hk Hout Hrec] Hprev Hcand Hpush.
  destruct (push_ok net block_of parent root pc b c' Hpc Hcand Hk Hprev Hpush) as (Hb & Hok & _).
  destruct (tip_snoc c' _ _ Hb) as [Hl Ht]. split; [done|]. split; [done|]. split; [done|]. split; [done|]. split.
  - intros x Hx. destruct (Ha x Hx) as [H1 H2].
    split; intros d d' Hd Hd' Hh; rewrite Hb in *;
      [apply elem_of_app in Hd as [Hd| ->%list_elem_of_singleton]|apply elem_of_app in Hd' as [Hd'| ->%list_elem_of_singleton]];
      [by apply H1|symmetry; by eapply Hrec|by apply H2|by eapply Hrec].
  - unfold work. rewrite (ok_work _ _ _ _ _ Hok), (ok_work _ _ _ _ _ Hpc), Hb. unfold total_work. rewrite foldr_app. cbn [foldr].
    generalize (blks pc). clear. induction l as [|x l IH]; cbn [foldr]; lia.
Qed.

(** The state with a chain inserted, after [keep] and the eviction *)
Record grown self (c : Chain) (keep : Chain -> bool) self' : Prop := {
  gr_tip : exists x, x ∈ chain_set self' /\ hashes x = hashes c;
  gr_from : forall x, x ∈ chain_set self' -> (exists y, y ∈ chain_set self /\ x = y) \/ hashes x = hashes c;
  gr_keep : forall x, x ∈ chain_set self' -> keep x = true;
  gr_least : forall x y, x ∈ chain_set self -> keep x = true -> x ∉ chain_set self' -> y ∈ chain_set self' ->
    tip y <> tip c -> chain_lt x y;
  gr_all : (length (chain_set self) < MAX_NON_FINALIZED_CHAIN_FORKS)%nat \/ (exists x, x ∈ chain_set self /\ keep x = false) ->
    forall x, x ∈ chain_set self -> keep x = true -> x ∈ chain_set self';
  gr_work : forall x, x ∈ chain_set self -> keep x = true \/ work x <= work c ->
    exists best, best_chain self' = Some best /\ work x <= work best;
}.

Lemma work_hash parent root c c' :
  chain_ok parent root c -> chain_ok parent root c' -> hashes c = hashes c' -> work c = work c'.
Proof.
  intros Hc Hc' Hh. unfold work. rewrite (ok_work _ _ _ _ _ Hc), (ok_work _ _ _ _ _ Hc'), !(work_hashes block_of) by apply Hc || apply Hc'.
  unfold hashes in Hh. by rewrite Hh.
Qed.

Lemma insert_state {E} parent root self self0 c keep (f : list Chain -> res E (list Chain)) :
  state_ok parent root self -> chain_set self0 = chain_set self -> precious_blocks self0 = precious_blocks self ->
  invalidated_blocks self0 `sublist_of` invalidated_blocks self -> precious_sequence self0 = precious_sequence self ->
  state_network self0 = net ->
  chain_ok parent root c -> live c -> (forall x, x ∈ chain_set self -> agree c x /\ agree x c) ->
  (forall h, h ∈ hashes c -> h ∉ record_hashes (invalidated_blocks self0)) ->
  (forall s, chains_ok parent root (precious_blocks self) s -> f s = Ok (filter (fun x => keep x = true) s)) ->
  (forall x, tip x = tip c -> hashes x = hashes c -> keep x = true) ->
  exists self1, insert_with self0 c f = Ok self1 /\ state_ok parent root (retain_precious_blocks self1) /\
    grown self c keep (retain_precious_blocks self1) /\ self1 = set_chains self0 (chain_set self1) /\
    update_metrics_for_committed_block (E := E) (retain_precious_blocks self1) = Ok tt.
Proof.
  intros Hok Hset Hpb Hsub Hseq Hnw Hc Hl Ha Hout Hf Hkeep. pose proof (so_chains _ _ _ Hok) as Hs.
  destruct (insert_with_ok (E := E) parent root self0 c keep f) as (s1 & s2 & -> & Hins & Hev & Hoks1 & Hs2);
    [by rewrite Hset, Hpb|done|done|by rewrite Hset|by rewrite Hpb|].
  rewrite Hset, Hpb in *. exists (set_chains self0 s2). split; [done|].
  assert (H1 : forall x, x ∈ s1 -> x ∈ chain_set self \/ (hashes x = hashes c /\ tip x = tip c)).
  { intros x Hx. destruct Hins as [[_ ->]|[_ Hp]]; [by left|]. rewrite Hp in Hx. apply elem_of_cons in Hx as [->|Hx]; [by right|by left]. }
  assert (H2 : forall x, x ∈ s2 -> x ∈ s1 /\ keep x = true).
  { intros x Hx. pose proof (elem_of_sublist _ _ _ Hx (ev_sublist _ _ _ Hev)) as Hin. by apply list_elem_of_filter in Hin as [? ?]. }
  assert (Hs1 : forall x, x ∈ chain_set self -> x ∈ s1).
  { intros x Hx. destruct Hins as [[_ ->]|[_ Hp]]; [done|]. rewrite Hp. by apply list_elem_of_further. }
  assert (Htip : exists x, x ∈ s2 /\ hashes x = hashes c /\ chain_ok parent root x).
  { assert (Hx : exists x, x ∈ s1 /\ tip x = tip c /\ hashes x = hashes c).
    { destruct Hins as [[(y & Hy & Hin)%list_elem_of_fmap ->]|[_ Hp]].
      - exists y. split; [done|]. split; [done|]. eapply (same_tip net block_of parent root); [by apply Hs|done|by apply (cs_live _ _ _ _ Hs)|done|done].
      - eexists. rewrite Hp. split; [apply list_elem_of_here|done]. }
    destruct Hx as (x & Hx & Ht & Hh). exists x.
    assert (Hx2 : x ∈ s2) by (apply (ev_inserted _ _ _ Hev); [apply list_elem_of_filter; by rewrite Hkeep|done]).
    split; [done|]. split; [done|]. by apply Hs2. }
  destruct (last s2) as [m|] eqn:Hm.
  2: { apply last_None in Hm as ->. destruct Htip as (x & Hx & _). by apply elem_of_nil in Hx. }
  split; [|split; [|split; [done|]]].
  - eapply state_change; [exact Hok|..]; cbn [set_chains chain_set precious_blocks invalidated_blocks precious_sequence state_network].
    + by rewrite Hpb.
    + apply Hev.
    + done.
    + intros x h Hx Hh. apply H2 in Hx as [[Hx|[Heq _]]%H1 _]; [|apply Hout; by rewrite <- Heq].
      intros Hr. apply (so_out _ _ _ Hok x h Hx Hh). eapply elem_of_sublist; [exact Hr|]. by apply records_sublist.
    + rewrite Hseq, Hpb. apply (so_sequence _ _ _ Hok).
    + done.
    + apply Hok.
  - split; cbn [retain_precious_blocks set_chains chain_set].
    + destruct Htip as (x & ? & ? & _). by exists x.
    + intros x [[Hx|[Hx _]]%H1 _]%H2; [left; by exists x|by right].
    + by intros x [_ Hx]%H2.
    + intros x y Hx Hk Hn Hy Ht. apply (ev_least _ _ _ Hev); [|done..]. apply list_elem_of_filter. split; [done|by apply Hs1].
    + intros Hroom x Hx Hk. rewrite (ev_same _ _ _ Hev); [apply list_elem_of_filter; split; [done|by apply Hs1]|].
      pose proof (so_count _ _ _ Hok) as Hcount.
      assert (Hlt : (length (filter (fun x => keep x = true) (chain_set self)) < MAX_NON_FINALIZED_CHAIN_FORKS)%nat).
      { destruct Hroom as [Hroom|(y & Hy & Hky)]; [eapply Nat.le_lt_trans; [apply length_filter|done]|].
        eapply Nat.lt_le_trans; [|exact Hcount]. eapply length_filter_lt; [exact Hy|by rewrite Hky]. }
      destruct Hins as [[_ ->]|[_ Hp]]; [lia|]. rewrite Hp, filter_cons. destruct (decide _); cbn; lia.
    + intros x Hx Hor. exists m. rewrite best_last. split; [done|]. destruct Hor as [Hk|Hw].
      * rewrite (ev_last _ _ _ Hev) in Hm. eapply (max_work parent root (precious_blocks self)); [|exact Hm|].
        -- by eapply chains_sublist; [apply sublist_filter|].
        -- apply list_elem_of_filter. split; [done|by apply Hs1].
      * destruct Htip as (y & Hy & Hhy & Hoky). etrans; [exact Hw|]. rewrite <- (work_hash parent root y c Hoky Hc Hhy).
        by eapply max_work.
  - unfold update_metrics_for_committed_block. rewrite best_last. cbn [retain_precious_blocks set_chains chain_set]. rewrite Hm.
    cbn [expect ok_or res_bind]. rewrite live_tip_hash; [done|]. apply (cs_live _ _ _ _ Hs2). by apply last_Some_elem_of.
Qed.

Lemma prefix_agree c pc x : blks pc `prefix_of` blks c -> agree c x /\ agree x c -> agree pc x /\ agree x pc.
Proof.
  intros [bs Hb] [H1 H2]. split; intros d d' Hd Hd' Hh; [apply H1|apply H2]; try done; rewrite Hb, elem_of_app; by left.
Qed.

Lemma prefix_hashes c pc h : blks pc `prefix_of` blks c -> h ∈ hashes pc -> h ∈ hashes c.
Proof. intros [bs Hb]. unfold hashes. rewrite Hb, fmap_app, elem_of_app. by left. Qed.

(** Committing a block to the chain [pc], once it is validated *)
Lemma commit_to {E} parent root self pc prepared fs c' keep (f : list Chain -> res E (list Chain)) :
  state_ok parent root self -> verified prepared -> chain_ok parent root pc ->
  (forall x, x ∈ chain_set self -> agree pc x /\ agree x pc) ->
  (forall h, h ∈ hashes pc -> h ∉ record_hashes (invalidated_blocks self)) ->
  parent_of prepared = end_hash parent pc ->
  Checkpoint.height prepared = root + Z.of_nat (length (blks pc)) ->
  validate_and_commit self pc prepared fs = Ok c' ->
  (forall s, chains_ok parent root (precious_blocks self) s -> f s = Ok (filter (fun x => keep x = true) s)) ->
  (forall x, tip x = Checkpoint.block_hash prepared -> Checkpoint.block_hash prepared ∉ hashes pc -> keep x = true) ->
  exists b self1, blks c' = blks pc ++ [b] /\ hash b = Checkpoint.block_hash prepared /\ block b = Checkpoint.block prepared /\
    work pc <= work c' /\
    insert_with self c' f = Ok self1 /\ state_ok parent root (retain_precious_blocks self1) /\
    grown self c' keep (retain_precious_blocks self1) /\
    update_metrics_for_committed_block (E := E) (retain_precious_blocks self1) = Ok tt.
Proof.
  intros Hok Hv Hpc Ha Hout Hprev Hh Hval Hf Hkeep. pose proof (so_chains _ _ _ Hok) as Hs.
  destruct (validate_Ok parent root self pc prepared fs c' Hok Hv Hval) as (b & Hpush & Had & Hcand & Hhb & Hpb).
  rewrite Hh in Hcand. rewrite <- Hpb in Hprev.
  destruct (extend_ok parent root self pc b c' Hs Hpc Ha Had Hprev Hcand Hpush) as (Hb & Hc' & Hl & Ht & Ha' & Hw).
  assert (Hnew : hash b ∉ hashes pc).
  { pose proof (ok_hashes _ _ _ _ _ Hc') as Hn. rewrite Hb, fmap_app in Hn. apply NoDup_app in Hn as (_ & Hn & _).
    intros Hin. apply (Hn _ Hin). apply list_elem_of_here. }
  destruct (insert_state (E := E) parent root self self c' keep f) as (self1 & Hi & Hok1 & Hg & _ & Hm);
    [done|done|done|done|done|apply Hok|done|done|done| |done| |].
  - intros h Hin. unfold hashes in Hin. rewrite Hb, fmap_app in Hin. apply elem_of_app in Hin as [Hin| ->%list_elem_of_singleton]; [by apply Hout|apply Had].
  - intros x Htx _. apply Hkeep; rewrite <- Hhb; congruence.
  - exists b, self1. split; [done|]. split; [done|]. split; [by rewrite (ad_known _ _ Had), Hhb, (v_known _ Hv)|].
    split; [|done]. pose proof (work_range b) as [? _]. lia.
Qed.

Lemma other_tip_filter {E} parent root pb h s :
  chains_ok parent root pb s ->
  retain_res (other_tip (E := E) h) s = Ok (filter (fun x => negb (tip x =? h) = true) s).
Proof.
  intros Hs. apply retain_res_ext. intros x Hx. eapply other_tip_ext; [apply Forall_forall, (cs_live _ _ _ _ Hs)|done].
Qed.

(** What a commit of [prepared] to the chain [pc] does *)
Definition committed (parent : Hash) (root : Z) self (pc : Chain) prepared (keep : Chain -> bool)
  (validated : res CommitError Chain) (result : res (CommitError * NonFinalizedState) NonFinalizedState) : Prop :=
  match validated with
  | Ok c' =>
      exists b self', result = Ok self' /\ blks c' = blks pc ++ [b] /\ hash b = Checkpoint.block_hash prepared /\
        block b = Checkpoint.block prepared /\ work pc <= work c' /\ state_ok parent root self' /\
        grown self c' keep self'
  | Err e => result = Err (e, self)
  | Panic => result = Panic
  end.

Lemma commit_block_ok parent root self prepared fs :
  state_ok parent root self -> (forall c, c ∈ chain_set self -> modest net c) -> verified prepared ->
  (parent_chain self (parent_of prepared) = Err NotReadyToBeCommitted /\
   commit_block self prepared fs = Err (NotReadyToBeCommitted, self) /\
   forall c, c ∈ chain_set self -> parent_of prepared ∉ hashes c) \/
  exists c pc, parent_chain self (parent_of prepared) = Ok pc /\ c ∈ chain_set self /\ blks pc `prefix_of` blks c /\ chain_ok parent root pc /\ live pc /\ tip pc = parent_of prepared /\
    committed parent root self pc prepared (fun x => negb (tip x =? parent_of prepared))
      (validate_and_commit self pc prepared fs) (commit_block self prepared fs).
Proof.
  intros Hok Hm Hv. pose proof (so_chains _ _ _ Hok) as Hs. unfold commit_block. fold (parent_of prepared).
  destruct (parent_chain_ok parent root self (parent_of prepared) Hs Hm) as [(c & pc & Hpar & Hc & Hpc & Hl & Ht & Hpre)|[Hpar Hno]]; rewrite Hpar; [right|by left]. cbn [failing map_err res_bind].
  exists c, pc. do 6 (split; [done|]). unfold committed.
  destruct (validate_and_commit self pc prepared fs) as [c'|e|] eqn:Hval; [|done..]. cbn [failing map_err res_bind].
  destruct (commit_to (E := CommitError * NonFinalizedState) parent root self pc prepared fs c' (fun x => negb (tip x =? parent_of prepared))
    (retain_res (other_tip (parent_of prepared)))) as (b & self1 & Hb & Hhb & Hbb & Hw & Hi & Hok1 & Hg & Hmet); [done..| | | | |done| | |].
  - intros x Hx. eapply prefix_agree; [exact Hpre|]. split; by apply (cs_agree _ _ _ _ Hs).
  - intros h Hin'. apply (so_out _ _ _ Hok c); [done|]. by eapply prefix_hashes.
  - by rewrite end_tip.
  - pose proof (end_height _ _ _ Hpc (so_parent _ _ _ Hok)) as Hh. rewrite end_tip, Ht, (v_parent _ Hv) in Hh by done.
    injection Hh. lia.
  - intros s Hs'. by eapply other_tip_filter.
  - intros x Htx Hnew. apply negb_true_iff, Z.eqb_neq. intros Heq. apply Hnew. rewrite <- Htx, Heq, <- Ht. by apply tip_hashes.
  - exists b, (retain_precious_blocks self1). rewrite Hi. cbn [res_bind]. rewrite Hmet. done.
Qed.
End State.
End NonFinalizedFacts.
