(* ===== verification/NonFinalizedRun.v ===== *)
(** * Runs of the non-finalized state

    New chains, invalidation, preference and reconsideration keep the invariant,
    so every run of the operations does: the chains are linked above the finalized
    tip with different tips, the best chain has the most work, and no chain has a
    block that is recorded as invalidated. *)

From stdpp Require Import base numbers strings list option gmap sets sorting.
From Stdlib Require Import ZArith Lia.
From S2P Require Import Prelude Height Amount BTree Network NodeData ValueBalance ValuePools Difficulty DifficultyFacts Dependencies Transparent MempoolTx Merkle BlockHeader Block Checkpoint SharedMap AddressIndex AddressFacts TreeIndex SpendCheck MerkleFacts Chain ChainContent ChainBlocks ChainTrees ChainRun ChainFacts ContextChecks NonFinalized NonFinalizedSet NonFinalizedFacts.
Local Open Scope Z_scope.
Local Notation length := List.length.

Module NonFinalizedRun.
Import Network Block SpendCheck Chain ChainBlocks ChainTrees ChainRun ChainFacts ContextChecks NonFinalized NonFinalizedSet NonFinalizedFacts.

Section Run.
Context {U : Difficulty.U256} {UL : Difficulty.U256Laws U} {SH : Merkle.Sha256} {B : NodeData.Blake2b}.
Context {NT : NoteTrees} {completed : Tree -> Z} {NTL : NoteTreesLaws completed} {RF : Referred}.
Context (net : Network) (Hnet : net_wf net) (block_of : Hash -> Block).
Notation chain_ok := (chain_ok net block_of).
Notation state_ok := (state_ok net block_of).
Implicit Types (c x : Chain) (s : list Chain) (self : NonFinalizedState).

(** ** New chains *)

(** The finalized state has its tip below the roots of the chains. *)
Record finalized_ok (parent : Hash) (root : Z) (fs : FinalizedState) : Prop := {
  fo_height : finalized_tip_height fs = Some (root - 1);
  fo_hash : finalized_tip_hash fs = parent;
  fo_range : 0 <= root - 1 <= Height.MAX;
  fo_pools : ValuePools.pools_ok (finalized_value_pool fs);
  fo_nsm : ValuePools.nsm_inv net root (finalized_value_pool fs);
}.

Lemma chain_above_ok {E} parent root self fs sprout :
  state_ok parent root self -> finalized_ok parent root fs ->
  exists c, chain_above (E := E) self fs (root - 1) sprout = Ok c /\ chain_ok parent root c /\ blks c = [].
Proof.
  intros Hok [Hh Hp Hr Hpools Hnsm]. unfold chain_above. rewrite (so_network _ _ _ _ _ Hok).
  destruct (new_Ok (E := E) net (root - 1) sprout (sapling_tree_for_tip fs) (orchard_tree_for_tip fs)
    (ironwood_tree_for_tip fs) (history_tree fs) (finalized_value_pool fs)) as (c & -> & Hc & Hb & _);
    [done|done|by replace (root - 1 + 1) with root by lia|]. cbn [res_bind].
  unfold skipping_transparent_address_index, is_empty. rewrite Hb. cbn [rust_assert bool_decide res_bind].
  eexists. split; [done|]. unfold blks. cbn [blocks]. split; [|done]. destruct Hc as [H1 H2 H3 H4 H5 H6 H7].
  split; unfold blks; cbn [blocks]; [|done|constructor]. eexists _, []. split; [|split; [|done]].
  - split; [exact H1|exact H2|exact H3|done| |exact H6|exact H7]. by eapply empty_indexes.
  - unfold ChainRun.root_height. cbn. lia.
Qed.

Lemma empty_agree c x : blks c = [] -> agree c x /\ agree x c.
Proof. intros Hb. split; intros d d' Hd Hd'; rewrite Hb in *; by apply elem_of_nil in Hd || apply elem_of_nil in Hd'. Qed.

Lemma commit_new_chain_ok parent root self prepared fs :
  state_ok parent root self -> finalized_ok parent root fs -> verified net block_of prepared -> parent_of prepared = parent ->
  match sprout_tree_for_tip fs with
  | Ok sprout =>
      exists pc, chain_above (E := CommitError * NonFinalizedState) self fs (root - 1) sprout = Ok pc /\ blks pc = [] /\
        committed net block_of parent root self pc prepared (fun _ => true) (validate_and_commit self pc prepared fs)
          (commit_new_chain self prepared fs)
  | Err tip => commit_new_chain self prepared fs = Err (MissingSproutTipTree tip, self)
  | Panic => commit_new_chain self prepared fs = Panic
  end.
Proof.
  intros Hok Hfs Hv Hp. unfold commit_new_chain. rewrite (fo_height _ _ _ Hfs). cbn [expect ok_or res_bind].
  destruct (sprout_tree_for_tip fs) as [sprout|tip|]; cbn [failing map_err res_bind]; [|done..].
  destruct (chain_above_ok (E := CommitError * NonFinalizedState) parent root self fs sprout Hok Hfs) as (pc & -> & Hpc & Hb). cbn [res_bind].
  exists pc. do 2 (split; [done|]). unfold committed.
  destruct (validate_and_commit self pc prepared fs) as [c'|e|] eqn:Hval; [|done..]. cbn [failing map_err res_bind].
  destruct (commit_to (E := CommitError * NonFinalizedState) net Hnet block_of parent root self pc prepared fs c' (fun _ => true) Ok) as
    (b & self1 & Hb' & Hhb & Hbb & Hw & Hi & Hok1 & Hg & Hmet); [done..| | | | |done| |done|].
  - intros x _. by apply empty_agree.
  - intros h Hin. unfold hashes in Hin. rewrite Hb in Hin. by apply elem_of_nil in Hin.
  - unfold end_hash. by rewrite Hb.
  - rewrite Hb. cbn. pose proof (v_parent _ _ _ Hv) as Hh. rewrite Hp, (so_parent _ _ _ _ _ Hok) in Hh. injection Hh. lia.
  - intros s _. by rewrite TreeIndex.filter_keep.
  - exists b, (retain_precious_blocks self1). unfold NonFinalized.insert. rewrite Hi. cbn [res_bind]. rewrite Hmet. done.
Qed.

(** ** Invalidating a block *)

Lemma index_insert_keys {V} k (v : V) m : NoDup m.*1 -> NoDup (index_insert k v m).*1.
Proof.
  assert (Hin : forall k' m, k' ∈ (index_insert k v m).*1 -> k' = k \/ k' ∈ m.*1).
  { intros k'. clear m. induction m as [|[k0 v0] m IH]; cbn [index_insert]; [set_solver|].
    destruct (Z.eqb_spec k k0) as [->|Hk]; [set_solver|]. rewrite !fmap_cons. cbn [fst]. set_solver. }
  induction m as [|[k0 v0] m IH]; cbn [index_insert]; [intros _; repeat constructor; by intros ?%elem_of_nil|].
  intros [Hn Hm]%NoDup_cons. destruct (Z.eqb_spec k k0) as [->|Hk]; [by constructor|]. rewrite fmap_cons. cbn [fst].
  constructor; [|by apply IH]. intros [->|?]%Hin; done.
Qed.

Lemma index_insert_cases {V} k (v : V) m r : r ∈ index_insert k v m -> r = (k, v) \/ r ∈ m.
Proof.
  induction m as [|[k0 v0] m IH]; cbn [index_insert]; [set_solver|]. destruct (k =? k0); set_solver.
Qed.

(** The entry is the last one, or the map has not grown. *)
Lemma index_insert_limit {V} k (v : V) m :
  (length (index_insert k v m) = length m /\ (k, v) ∈ index_insert k v m) \/ index_insert k v m = m ++ [(k, v)].
Proof.
  induction m as [|[k0 v0] m IH]; cbn [index_insert]; [by right|]. destruct (Z.eqb_spec k k0) as [->|Hk].
  - left. split; [done|apply list_elem_of_here].
  - destruct IH as [[Hl Hin]|IH]; [left|right].
    + split; [cbn; by rewrite Hl|by apply list_elem_of_further].
    + cbn. by rewrite IH.
Qed.

Lemma index_insert_hashes k bs m :
  NoDup (record_hashes m) -> NoDup (hash <$> bs) -> (forall h, h ∈ hash <$> bs -> h ∉ record_hashes m) ->
  NoDup (record_hashes (index_insert k bs m)).
Proof.
  unfold record_hashes. induction m as [|[k0 bs0] m IH]; cbn [index_insert mbind list_bind fst snd]; intros Hm Hb Hd.
  - by rewrite app_nil_r.
  - apply NoDup_app in Hm as (H0 & Hd0 & Hm). destruct (k =? k0); cbn [mbind list_bind snd].
    + apply NoDup_app. split; [done|]. split; [|done]. intros h Hh Hin. apply (Hd h Hh). apply elem_of_app. by right.
    + apply NoDup_app. split; [done|]. split.
      * intros h Hh (r & Hr & Hin)%list_elem_of_bind. apply index_insert_cases in Hin as [->|Hin].
        -- apply (Hd h Hr), elem_of_app. by left.
        -- apply (Hd0 h Hh), list_elem_of_bind. by exists r.
      * apply IH; [done|done|]. intros h Hh Hin. apply (Hd h Hh), elem_of_app. by right.
Qed.

Lemma limit_sublist records : limit_records records `sublist_of` records.
Proof. apply sublist_drop. Qed.

(** The records after the invalidation of [bs] *)
Lemma records_insert k bs m :
  (length m <= MAX_INVALIDATED_BLOCKS)%nat -> let m' := limit_records (index_insert k bs m) in
  (k, bs) ∈ m' /\ (length m' <= MAX_INVALIDATED_BLOCKS)%nat /\ (forall r, r ∈ m' -> r = (k, bs) \/ r ∈ m).
Proof.
  intros Hl m'. unfold m', limit_records. split; [|split].
  - destruct (index_insert_limit k bs m) as [[Hlen Hin]| ->].
    + rewrite Hlen. replace (length m - MAX_INVALIDATED_BLOCKS)%nat with 0%nat by lia. by rewrite drop_0.
    + rewrite length_app. cbn [length]. rewrite drop_app_le by (unfold MAX_INVALIDATED_BLOCKS; lia).
      apply elem_of_app. right. apply list_elem_of_here.
  - rewrite length_drop. lia.
  - intros r Hr. eapply index_insert_cases, elem_of_sublist; [exact Hr|apply sublist_drop].
Qed.

(** The suffix of a chain is a record. *)
Lemma suffix_record parent root c bs b bs' :
  chain_ok parent root c -> coinbase_height (block_of parent) = Some (root - 1) -> blks c = bs ++ b :: bs' ->
  record_ok net block_of (height b, b :: bs').
Proof.
  intros Hc Hp Hb. pose proof (ok_candidates _ _ _ _ _ Hc) as Hcand. rewrite Hb in Hcand.
  assert (Hi : blks c !! length bs = Some b) by (rewrite Hb; by apply list_lookup_middle).
  destruct (ok_height _ _ _ _ _ _ _ Hc Hi) as [_ Hh].
  pose proof (ck_linked _ _ _ _ _ Hc) as Hl. rewrite Hb in Hl. apply (hash_linked_app block_of) in Hl as [_ Hl].
  pose proof (ck_known _ _ _ _ _ Hc) as Hk. rewrite Hb in Hk. apply Forall_app in Hk as [Hkp Hk].
  split; cbn [fst snd]; [|done| |done].
  - rewrite Hh. clear -Hcand. revert root Hcand. induction bs as [|a bs IH]; intros root; cbn [app length].
    + by rewrite Z.add_0_r.
    + intros [_ Hcand]. replace (root + Z.of_nat (S (length bs))) with (root + 1 + Z.of_nat (length bs)) by lia. by apply IH.
  - eexists. split; [exact Hl|]. rewrite Hh. destruct bs as [|a bs0 _] using rev_ind; [cbn; rewrite Hp; f_equal; lia|].
    rewrite last_snoc. cbn [fmap option_fmap option_map default].
    apply (chain_coinbase net block_of parent root c (length bs0)); [done| |rewrite length_app; cbn; lia].
    rewrite Hb, <- app_assoc. by apply list_lookup_middle.
Qed.

(** A chain without a block has none of the blocks above it. *)
Lemma without_suffix parent root c x bs b bs' h :
  chain_ok parent root c -> chain_ok parent root x -> blks c = bs ++ b :: bs' -> hash b ∉ hashes x ->
  h ∈ hash <$> b :: bs' -> h ∉ hashes x.
Proof.
  intros Hc Hx Hb Hn (d & -> & [j Hj]%list_elem_of_lookup)%list_elem_of_fmap (d' & Hd' & [i Hi]%list_elem_of_lookup)%list_elem_of_fmap.
  destruct (same_prefix net block_of parent root c x (length bs + j) i d d' Hc Hx) as [_ Hpre]; [|done|done|].
  - rewrite Hb, lookup_app_r by lia. by replace (length bs + j - length bs)%nat with j by lia.
  - apply Hn. assert (Hin : hash b ∉ hash <$> take (S (length bs + j)) (blks x)).
    { intros (y & Hy & Hin)%list_elem_of_fmap. apply Hn, list_elem_of_fmap. exists y. split; [done|]. by eapply elem_of_take in Hin as (k & ? & _); apply list_elem_of_lookup_2 in H. }
    rewrite <- Hpre in Hin. destruct Hin. apply list_elem_of_fmap. exists b. split; [done|].
    apply (list_elem_of_lookup_2 _ (length bs)). rewrite lookup_take_lt by lia. rewrite Hb. by apply list_lookup_middle.
Qed.

(** The state that records the blocks from [b] on as invalidated *)
Lemma record_state parent root self self1 c bs b bs' :
  state_ok parent root self -> c ∈ chain_set self -> blks c = bs ++ b :: bs' ->
  state_ok parent root (retain_precious_blocks self1) -> self1 = set_chains self (chain_set self1) ->
  (forall x, x ∈ chain_set self1 -> hash b ∉ hashes x) ->
  let self2 := retain_precious_blocks
    (set_invalidated self1 (limit_records (index_insert (height b) (b :: bs') (invalidated_blocks self1)))) in
  state_ok parent root self2 /\ (height b, b :: bs') ∈ invalidated_blocks self2.
Proof.
  intros Hok Hc Hb Hok1 Hrec Hno self2. pose proof (cs_chain _ _ _ _ _ _ (so_chains _ _ _ _ _ Hok) c Hc) as Hcok.
  destruct (records_insert (height b) (b :: bs') (invalidated_blocks self1)) as (Hin & Hlen & Hcases);
    [rewrite Hrec; apply (so_limit _ _ _ _ _ Hok)|].
  set (records := limit_records _) in self2, Hin, Hlen, Hcases.
  assert (Hsub : records `sublist_of` index_insert (height b) (b :: bs') (invalidated_blocks self1)) by apply limit_sublist.
  assert (Hnew : forall h, h ∈ hash <$> b :: bs' -> h ∉ record_hashes (invalidated_blocks self1)).
  { intros h Hh. rewrite Hrec. cbn [set_chains invalidated_blocks]. apply (so_out _ _ _ _ _ Hok c); [done|]. unfold hashes. rewrite Hb, fmap_app, elem_of_app. by right. }
  split; [|exact Hin]. destruct Hok1 as [Hs Hcount Hr Hu Hl Hout Hk Hq Hn Hp]. cbn [retain_precious_blocks chain_set invalidated_blocks] in *.
  split; [|exact Hcount| | |done| | | |exact Hn|exact Hp].
  - eapply chains_preference; [|exact Hs]. intros x Hx.
    etrans; [exact (retain_lookup net block_of parent root _ (set_invalidated self1 records) x Hs Hx)|]. symmetry. exact (retain_lookup net block_of parent root _ self1 x Hs Hx).
  - apply Forall_forall. rewrite Forall_forall in Hr. intros r [->|Hir]%Hcases; [|by apply Hr].
    eapply suffix_record; [exact Hcok|done|exact Hb].
  - eapply sublist_NoDup; [|by apply records_sublist]. apply index_insert_hashes; [done| |done].
    pose proof (ok_hashes _ _ _ _ _ Hcok) as Hnd. rewrite Hb, fmap_app in Hnd. by apply NoDup_app in Hnd as (_ & _ & ?).
  - intros x h Hx Hh (r & Hhr & Hir)%list_elem_of_bind. apply Hcases in Hir as [->|Hir].
    + revert Hh. eapply (without_suffix parent root c); [done|by apply Hs|exact Hb|by apply Hno|exact Hhr].
    + apply (Hout x h Hx Hh), list_elem_of_bind. by exists r.
  - eapply sublist_NoDup; [|by apply fmap_sublist]. by apply index_insert_keys.
  - destruct (so_sequence _ _ _ _ _ Hok) as [H0 H1].
    assert (Hsame : precious_sequence self1 = precious_sequence self /\ precious_blocks self1 = precious_blocks self)
      by (by rewrite Hrec). destruct Hsame as [Hsq Hpb].
    cbn [self2 retain_precious_blocks precious_sequence precious_blocks set_invalidated]. rewrite Hsq, Hpb.
    split; [done|]. intros h q [Hget _]%map_lookup_filter_Some. by eapply H1.
Qed.

Record invalidated self (c : Chain) (bs : list ContextuallyVerifiedBlock) (b : ContextuallyVerifiedBlock)
  (bs' : list ContextuallyVerifiedBlock) self' : Prop := {
  iv_without : forall x, x ∈ chain_set self' -> hash b ∉ hashes x;
  iv_from : forall x, x ∈ chain_set self' -> x ∈ chain_set self \/ hashes x = hash <$> bs;
  iv_kept : forall x, x ∈ chain_set self -> hash b ∉ hashes x -> x ∈ chain_set self';
  iv_below : bs <> [] -> exists x, x ∈ chain_set self' /\ hashes x = hash <$> bs;
  iv_record : (height b, b :: bs') ∈ invalidated_blocks self';
}.

Definition lacks (h : Hash) x : bool := negb (bool_decide (h ∈ hashes x)).

Lemma lacks_spec h x : lacks h x = true <-> h ∉ hashes x.
Proof. unfold lacks. by rewrite negb_true_iff, bool_decide_eq_false. Qed.

Lemma lacks_filter {E} parent root pb h s :
  chains_ok net block_of parent root pb s ->
  retain_res (E := E) (fun c => Ok (negb (contains_block_hash c h))) s = Ok (filter (fun x => lacks h x = true) s).
Proof.
  intros Hs. apply retain_res_ext. intros x Hx. f_equal. unfold lacks. f_equal. pose proof (ok_contains _ _ _ _ _ h (cs_chain _ _ _ _ _ _ Hs x Hx)) as Hc.
  apply eq_true_iff_eq. by rewrite bool_decide_eq_true.
Qed.

(** The chains of [self] without the block, and the blocks below it *)
Lemma remove_block parent root self c bs b bs' :
  state_ok parent root self -> c ∈ chain_set self -> modest net c -> blks c = bs ++ b :: bs' ->
  exists self1,
    (let? root := non_finalized_root_hash (E := InvalidateError * NonFinalizedState) c in
     if root =? hash b then
       let? chains := retain_res (fun c => Ok (negb (contains_block_hash c (hash b)))) (chain_set self) in
       Ok ((blocks c).*2, set_chains self chains)
     else
       let? invalidated := Chain.invalidate_block c (hash b) in
       let? (new_chain, removed) := expect invalidated in
       let? self := insert_with self new_chain (retain_res (fun c => Ok (negb (contains_block_hash c (hash b))))) in
       Ok (removed, self)) = Ok (b :: bs', self1) /\
    state_ok parent root (retain_precious_blocks self1) /\ self1 = set_chains self (chain_set self1) /\
    (forall x, x ∈ chain_set self1 -> hash b ∉ hashes x) /\
    (forall x, x ∈ chain_set self1 -> x ∈ chain_set self \/ hashes x = hash <$> bs) /\
    (forall x, x ∈ chain_set self -> hash b ∉ hashes x -> x ∈ chain_set self1) /\
    (bs <> [] -> exists x, x ∈ chain_set self1 /\ hashes x = hash <$> bs).
Proof.
  intros Hok Hc Hm Hb. pose proof (so_chains _ _ _ _ _ Hok) as Hs. pose proof (cs_chain _ _ _ _ _ _ Hs c Hc) as Hcok.
  pose proof (ok_hashes _ _ _ _ _ Hcok) as Hnd. rewrite Hb, fmap_app in Hnd. apply NoDup_app in Hnd as (_ & Hdisj & _).
  assert (Hlacks : lacks (hash b) c = false).
  { unfold lacks. rewrite bool_decide_eq_true_2; [done|]. unfold hashes. rewrite Hb, fmap_app. set_solver. }
  destruct bs as [|b0 bs].
  - rewrite (root_hash_cons c b bs' Hb). cbn [res_bind]. rewrite Z.eqb_refl.
    rewrite (lacks_filter parent root (precious_blocks self)) by done. cbn [res_bind]. fold (blks c). rewrite Hb.
    eexists. split; [done|]. cbn [set_chains chain_set invalidated_blocks].
    assert (Hsub : filter (fun x => lacks (hash b) x = true) (chain_set self) `sublist_of` chain_set self) by apply sublist_filter.
    split; [|split; [done|split; [|split; [|split]]]].
    + eapply state_change; [exact Hok|..]; cbn [set_chains chain_set precious_blocks invalidated_blocks precious_sequence state_network];
        [by eapply chains_sublist|etrans; [by apply sublist_length|apply Hok]|done| |apply (so_sequence _ _ _ _ _ Hok)|apply Hok|apply Hok].
      intros x h Hx. apply (so_out _ _ _ _ _ Hok). by eapply elem_of_sublist.
    + intros x [Hx _]%list_elem_of_filter. by apply lacks_spec.
    + intros x [_ Hx]%list_elem_of_filter. by left.
    + intros x Hx Hn. apply list_elem_of_filter. by rewrite lacks_spec.
    + done.
  - rewrite (root_hash_cons c b0 (bs ++ b :: bs') Hb). cbn [res_bind].
    destruct (Z.eqb_spec (hash b0) (hash b)) as [Heq|_].
    { destruct (Hdisj (hash b0)); [rewrite fmap_cons; apply list_elem_of_here|rewrite Heq, fmap_cons; apply list_elem_of_here]. }
    destruct (invalidate_ok (E := InvalidateError * NonFinalizedState) net Hnet block_of parent root c (b0 :: bs) b bs' Hcok Hm Hb) as (c' & -> & Hb' & Hc'); [done|].
    cbn [expect ok_or res_bind].
    assert (Hpre : blks c' `prefix_of` blks c) by (exists (b :: bs'); by rewrite Hb', Hb).
    destruct (insert_state (E := InvalidateError * NonFinalizedState) net Hnet block_of parent root self self c' (lacks (hash b))
      (retain_res (fun c => Ok (negb (contains_block_hash c (hash b)))))) as (self1 & -> & Hok1 & Hg & Hrec & _);
      [done..|apply Hok|done|by apply live_blks; rewrite Hb'| | | | |].
    + intros x Hx. eapply prefix_agree; [exact Hpre|]. split; by apply (cs_agree _ _ _ _ _ _ Hs).
    + intros h Hh. apply (so_out _ _ _ _ _ Hok c); [done|]. by eapply prefix_hashes.
    + intros s Hs'. by eapply lacks_filter.
    + intros x _ Hh. apply lacks_spec. rewrite Hh. unfold hashes. rewrite Hb'. intros Hin. apply (Hdisj _ Hin). apply list_elem_of_here.
    + cbn [res_bind]. exists self1. split; [done|]. split; [done|]. split; [done|]. destruct Hg as [G1 G2 G3 _ G5 _].
      cbn [retain_precious_blocks chain_set] in *. unfold hashes in *. rewrite Hb' in *. split; [|split; [|split]].
      * intros x Hx. by apply lacks_spec, G3.
      * intros x [(y & Hy & ->)|Hx]%G2; [by left|by right].
      * intros x Hx Hn. apply G5; [right; by exists c|done|]. by apply lacks_spec.
      * done.
Qed.

Lemma invalidate_block_ok parent root self h :
  state_ok parent root self -> (forall c, c ∈ chain_set self -> modest net c) ->
  (invalidate_block self h = Err (InvalidateBlockNotFound h, self) /\ forall c, c ∈ chain_set self -> h ∉ hashes c) \/
  exists c bs b bs' self', c ∈ chain_set self /\ blks c = bs ++ b :: bs' /\ hash b = h /\
    invalidate_block self h = Ok (h, self') /\ state_ok parent root self' /\ invalidated self c bs b bs' self'.
Proof.
  intros Hok Hm. pose proof (so_chains _ _ _ _ _ Hok) as Hs. unfold invalidate_block, find_chain, chain_iter.
  rewrite (find_res_ext _ (fun c => contains_block_hash c h)) by done. cbn [res_bind].
  destruct (List.find _ _) as [c|] eqn:Hf; cbn [ok_or failing map_err res_bind].
  - right. apply find_split in Hf as (pre & post & Hr & Hcon & _).
    assert (Hc : c ∈ chain_set self) by (rewrite <- elem_of_reverse, Hr; set_solver).
    apply (ok_contains _ _ _ _ _ _ (cs_chain _ _ _ _ _ _ Hs c Hc)) in Hcon as (b & -> & (bs & bs' & Hb)%list_elem_of_split)%list_elem_of_fmap.
    destruct (remove_block parent root self c bs b bs' Hok Hc (Hm c Hc) Hb) as (self1 & Heq & Hok1 & Hrec & H1 & H2 & H3 & H4).
    apply res_bind_Ok in Heq as (r & -> & Heq). cbn [res_bind]. rewrite Heq. cbn [res_bind head expect ok_or].
    destruct (record_state parent root self self1 c bs b bs' Hok Hc Hb Hok1 Hrec H1) as [Hok2 Hin].
    exists c, bs, b, bs'. eexists. do 4 (split; [done|]). split; [exact Hok2|]. by split.
  - left. split; [done|]. intros c Hc Hin. pose proof (find_None_all _ _ Hf c) as Hn. rewrite elem_of_reverse in Hn.
    apply (ok_contains _ _ _ _ _ _ (cs_chain _ _ _ _ _ _ Hs c Hc)) in Hin. by rewrite Hn in Hin.
Qed.

(** ** Preferring a block *)

(** The preference of the tip is above those of the other chains. *)
Lemma preferred_above parent root self c x q :
  state_ok parent root self -> x ∈ chain_set self -> live c -> work x <= work c -> precious_sequence self < q ->
  chain_lt x (set_precious c (Some (tip c, q))).
Proof.
  intros Hok Hx [t Ht] Hw Hq. pose proof (so_chains _ _ _ _ _ Hok) as Hs. destruct (cs_live _ _ _ _ _ _ Hs x Hx) as [t' Ht'].
  unfold chain_lt, key. change (tip_block (set_precious c _)) with (tip_block c). rewrite Ht, Ht'. cbn [lex].
  change (indexes (set_precious c _)) with (indexes c). unfold work in Hw.
  destruct (Z.compare_spec (partial_cumulative_work (indexes x)) (partial_cumulative_work (indexes c))); [|done|lia].
  assert (Hlt : precedence x t' < precedence (set_precious c (Some (tip c, q))) t).
  { unfold precedence. rewrite (cs_preferred _ _ _ _ _ _ Hs x Hx). cbn [precious set_precious]. unfold preference, tip.
    rewrite Ht, Ht', Z.eqb_refl. destruct (so_sequence _ _ _ _ _ Hok) as [H0 H1].
    destruct (precious_blocks self !! hash t') as [q'|] eqn:Hget; cbn; [rewrite Z.eqb_refl; specialize (H1 _ _ Hget)|]; lia. }
  by rewrite (proj2 (Z.compare_lt_iff _ _) Hlt).
Qed.

Lemma last_above s c : StronglySorted chain_lt s -> c ∈ s -> (forall x, x ∈ s -> x = c \/ chain_lt x c) -> last s = Some c.
Proof.
  intros Hs Hc Hall. destruct (last s) as [m|] eqn:Hm; [|by apply last_None in Hm as ->; apply elem_of_nil in Hc].
  destruct (last_max s m c Hs Hm Hc) as [->|Hlt]; [done|]. destruct (Hall m) as [->|Hgt]; [by apply last_Some_elem_of|done|].
  by destruct (chain_lt_asym c m).
Qed.

(** The chains with a preference more *)
Record preferred self h self' : Prop := {
  pf_tips : tip <$> chain_set self' ≡ₚ tip <$> chain_set self;
  pf_from : forall x, x ∈ chain_set self' -> exists c, c ∈ chain_set self /\ blks x = blks c;
  pf_records : invalidated_blocks self' = invalidated_blocks self;
  pf_best : precious_sequence self < 2 ^ 64 - 1 -> exists best, best_chain self' = Some best /\ tip best = h;
}.

(** The state that prefers the tip of [c] *)
Definition with_preference self c (q : Z) : NonFinalizedState :=
  retain_precious_blocks
    (mkState (chain_set self) (invalidated_blocks self) q (<[tip c := q]> (precious_blocks self)) (state_network self)).

(** The chain is removed, and inserted with its preference. *)
Lemma prefer_set {E} parent root self c pre post q :
  state_ok parent root self -> chain_set self = pre ++ c :: post ->
  exists s',
    (let? chains := set_remove (E := E) c (chain_set self) in
     let? chain := with_tip_preference (with_preference self c q) c in
     let? chains := set_insert chain chains in
     Ok (set_chains (with_preference self c q) chains)) = Ok (set_chains (with_preference self c q) s') /\
    chains_ok net block_of parent root (precious_blocks (with_preference self c q)) s' /\
    s' ≡ₚ set_precious c (Some (tip c, q)) :: pre ++ post.
Proof.
  intros Hok Hset. pose proof (so_chains _ _ _ _ _ Hok) as Hs. set (self1 := with_preference self c q).
  assert (Hc : c ∈ chain_set self) by (rewrite Hset; set_solver).
  assert (Hrest : forall x, x ∈ pre ++ post -> x ∈ chain_set self /\ tip x <> tip c).
  { pose proof (chains_tips _ Hnet _ _ _ _ _ Hs) as Hn. rewrite Hset, fmap_app, fmap_cons in Hn.
    rewrite <- Permutation_middle, <- fmap_app in Hn. apply NoDup_cons in Hn as [Hn _]. intros x Hx. split.
    - rewrite Hset. apply elem_of_app in Hx as [?|?]; set_solver.
    - intros He. apply Hn. rewrite <- He. by apply list_elem_of_fmap_2. }
  assert (Hget : forall x, x ∈ chain_set self -> precious_blocks self1 !! tip x = <[tip c := q]> (precious_blocks self) !! tip x)
    by (intros x Hx; exact (retain_lookup net block_of parent root _ (mkState (chain_set self) _ _ _ _) x Hs Hx)).
  assert (Hsub : pre ++ post `sublist_of` chain_set self) by (rewrite Hset; apply sublist_app; [done|by apply sublist_cons]).
  assert (Hs1 : chains_ok net block_of parent root (precious_blocks self1) (pre ++ post)).
  { eapply chains_preference; [|by eapply chains_sublist]. intros x [Hx Hne]%Hrest. rewrite Hget by done. by rewrite lookup_insert_ne. }
  rewrite Hset, set_remove_Ok by (rewrite <- Hset; apply Forall_forall, Hs || apply Hs). cbn [res_bind].
  unfold with_tip_preference. pose proof (cs_live _ _ _ _ _ _ Hs c Hc) as Hl. rewrite live_tip_hash by done. cbn [res_bind].
  destruct (insert_ok (E := E) net block_of parent root (precious_blocks self1) c (pre ++ post) Hs1) as (s' & Hi & Hs' & Hins);
    [by apply Hs|done|intros x [Hx _]%Hrest; split; by apply (cs_agree _ _ _ _ _ _ Hs)|].
  unfold preference in Hi. rewrite Hi. exists s'. split; [done|]. split; [done|].
  destruct Hins as [[(x & Hx & Hin)%list_elem_of_fmap _]|[_ ->]].
  - destruct (Hrest x Hin) as [_ Hne]. by destruct Hne.
  - unfold preference. rewrite Hget by done. by rewrite lookup_insert_eq.
Qed.

Lemma preferred_ok_state parent root self c pre post q s' :
  state_ok parent root self -> chain_set self = pre ++ c :: post -> precious_sequence self <= q < 2 ^ 64 ->
  chains_ok net block_of parent root (precious_blocks (with_preference self c q)) s' ->
  s' ≡ₚ set_precious c (Some (tip c, q)) :: pre ++ post ->
  state_ok parent root (set_chains (with_preference self c q) s').
Proof.
  intros Hok Hset Hq Hs' Hp. pose proof Hok as [_ Hcount Hr Hu Hl Hout Hk [H0 H1] Hn Hpar].
  split; [exact Hs'| |exact Hr|exact Hu|exact Hl| |exact Hk| |exact Hn|exact Hpar]; cbn [set_chains chain_set].
  - rewrite Hp. rewrite Hset, !length_app in *. cbn in *. rewrite length_app. lia.
  - intros x h Hx. rewrite Hp in Hx. apply elem_of_cons in Hx as [->|Hx].
    + apply (Hout c). rewrite Hset. set_solver.
    + apply Hout. rewrite Hset. apply elem_of_app in Hx as [?|?]; set_solver.
  - cbn [with_preference retain_precious_blocks precious_sequence precious_blocks set_chains]. split; [lia|].
    intros h q' [[[<- <-]|[_ Hg]]%lookup_insert_Some _]%map_lookup_filter_Some; [lia|]. specialize (H1 _ _ Hg). lia.
Qed.

Lemma precious_block_ok parent root self h fs :
  state_ok parent root self ->
  (h ∉ tip <$> chain_set self /\
   precious_block self h fs =
     if any_chain_contains self h || is_invalidated self h || bool_decide (is_Some (db_height fs h))
     then Ok self else Err (PreciousBlockNotFound h, self)) \/
  (exists c best, c ∈ chain_set self /\ tip c = h /\ best_chain self = Some best /\ work c < work best /\
     precious_block self h fs = Ok self) \/
  (exists c best self', c ∈ chain_set self /\ tip c = h /\ best_chain self = Some best /\ work best <= work c /\
     precious_block self h fs = Ok self' /\ state_ok parent root self' /\ preferred self h self').
Proof.
  intros Hok. pose proof (so_chains _ _ _ _ _ Hok) as Hs. unfold precious_block.
  rewrite (find_res_ext _ (fun x => tip x =? h)) by (intros x Hx; eapply has_tip_ext; [apply Forall_forall, Hs|done]).
  cbn [res_bind]. destruct (List.find _ _) as [c|] eqn:Hf; [right|left].
  2: { split; [|done]. intros (x & -> & Hx)%list_elem_of_fmap. pose proof (find_None_all _ _ Hf x Hx) as Hn. cbn in Hn. by rewrite Z.eqb_refl in Hn. }
  apply find_split in Hf as (pre & post & Hset & Ht & _). apply Z.eqb_eq in Ht. subst h.
  assert (Hc : c ∈ chain_set self) by (rewrite Hset; set_solver).
  rewrite best_last. destruct (last (chain_set self)) as [best|] eqn:Hbest; [|by apply last_None in Hbest; rewrite Hbest in Hc; apply elem_of_nil in Hc].
  cbn [expect ok_or res_bind]. fold (work c) (work best). destruct (Z.ltb_spec (work c) (work best)) as [Hlt|Hge]; [left; by exists c, best|].
  right. set (q := Z.min (precious_sequence self + 1) (2 ^ 64 - 1)).
  destruct (so_sequence _ _ _ _ _ Hok) as [H0 _]. assert (Hq : precious_sequence self <= q < 2 ^ 64 /\ 1 <= q) by (unfold q; lia).
  replace (q =? 0) with false by lia. cbn [negb rust_assert res_bind]. fold (with_preference self c q).
  destruct (prefer_set (E := PreciousError * NonFinalizedState) parent root self c pre post q Hok Hset) as (s' & Heq & Hs' & Hp).
  change (chain_set (with_preference self c q)) with (chain_set self). rewrite Heq.
  assert (Hfrom : forall x, x ∈ s' -> x = set_precious c (Some (tip c, q)) \/ x ∈ chain_set self).
  { intros x Hx. rewrite Hp in Hx. apply elem_of_cons in Hx as [->|[?|?]%elem_of_app]; [by left|right; rewrite Hset; set_solver..]. }
  exists c, best. eexists. do 5 (split; [done|]). split; [eapply preferred_ok_state; [done|done|apply Hq|done|done]|].
  split; cbn [set_chains chain_set].
  - rewrite Hp, Hset, fmap_cons, !fmap_app, fmap_cons. change (tip (set_precious c _)) with (tip c). apply Permutation_middle.
  - intros x [->|Hx]%Hfrom; [by exists c|by exists x].
  - done.
  - intros Hmax. exists (set_precious c (Some (tip c, q))). rewrite best_last. cbn [set_chains chain_set]. split; [|done].
    apply last_above; [apply Hs'|rewrite Hp; apply list_elem_of_here|]. intros x [->|Hx]%Hfrom; [by left|right].
    apply (preferred_above parent root self); [done|done|by apply (cs_live _ _ _ _ _ _ Hs)| |unfold q; lia].
    etrans; [|exact Hge]. eapply (max_work net block_of parent root (precious_blocks self)); [exact Hs|exact Hbest|exact Hx].
Qed.

(** ** Reconsidering a block *)

Definition push_all c (bs : list ContextuallyVerifiedBlock) : res ValidateContextError Chain :=
  foldl (fun acc b => let? c := acc in push c b) (Ok c) bs.

Lemma push_all_ok parent root pc bs c' :
  chain_ok parent root pc -> candidates net (root + Z.of_nat (length (blks pc))) bs -> Forall (known block_of) bs ->
  hash_linked (end_hash parent pc) bs -> push_all pc bs = Ok c' ->
  blks c' = blks pc ++ bs /\ chain_ok parent root c'.
Proof.
  revert pc. induction bs as [|b bs IH]; intros pc Hpc; [intros _ _ _ [= <-]; by rewrite app_nil_r|].
  intros [Hb Hbs] [Hkb Hk]%Forall_cons [Hp Hl] Hall. apply (foldl_bind_cons push) in Hall as (c1 & Hpush & Hall).
  destruct (push_ok net block_of parent root pc b c1 Hpc Hb Hkb Hp Hpush) as (Hb1 & Hc1 & _).
  destruct (IH c1 Hc1) as [Hb' Hc']; [| |unfold end_hash; by rewrite Hb1, last_snoc|done|].
  - rewrite Hb1, length_app. cbn [length]. by replace (root + Z.of_nat (length (blks pc) + 1)) with (root + Z.of_nat (length (blks pc)) + 1) by lia.
  - done.
  - split; [|done]. by rewrite Hb', Hb1, <- app_assoc.
Qed.

Lemma one_record records r r' h :
  NoDup (record_hashes records) -> r ∈ records -> r' ∈ records -> h ∈ hash <$> r.2 -> h ∈ hash <$> r'.2 -> r = r'.
Proof.
  unfold record_hashes. induction records as [|r0 records IH]; cbn [mbind list_bind]; [by intros _ ?%elem_of_nil|].
  intros (_ & Hd & Hn)%NoDup_app [->|Hr]%elem_of_cons [->|Hr']%elem_of_cons Hh Hh'; [done|..|by apply IH];
    exfalso; (apply (Hd h); [done|]; apply list_elem_of_bind); eauto.
Qed.

Lemma shift_remove_sublist {V} k (m : list (Z * V)) : shift_remove k m `sublist_of` m.
Proof.
  induction m as [|[k0 v0] m IH]; cbn [shift_remove]; [done|]. destruct (k =? k0); [by apply sublist_cons|by apply sublist_skip].
Qed.

Lemma shift_remove_out {V} (r : Z * V) m : NoDup m.*1 -> r ∉ shift_remove r.1 m.
Proof.
  induction m as [|[k0 v0] m IH]; cbn [shift_remove]; [by intros _ ?%elem_of_nil|].
  rewrite fmap_cons. intros [Hn Hm]%NoDup_cons. destruct (Z.eqb_spec r.1 k0) as [Hk|Hk].
  - intros Hin. apply Hn. cbn. rewrite <- Hk. by apply list_elem_of_fmap_2.
  - intros [->|Hin]%elem_of_cons; [by apply Hk|]. by apply IH.
Qed.

(** The records without the one that is reconsidered *)
Definition other_records self (fs : FinalizedState) (r : Z * list ContextuallyVerifiedBlock) :=
  match finalized_tip_height fs with
  | Some tip => filter (fun r => tip <= r.1) (shift_remove r.1 (invalidated_blocks self))
  | None => shift_remove r.1 (invalidated_blocks self)
  end.

Lemma other_records_spec parent root self fs r :
  state_ok parent root self -> r ∈ invalidated_blocks self ->
  other_records self fs r `sublist_of` invalidated_blocks self /\
  forall h, h ∈ hash <$> r.2 -> h ∉ record_hashes (other_records self fs r).
Proof.
  intros Hok Hr.
  assert (Hsub : other_records self fs r `sublist_of` shift_remove r.1 (invalidated_blocks self))
    by (unfold other_records; destruct (finalized_tip_height fs); [apply sublist_filter|done]).
  split; [etrans; [exact Hsub|apply shift_remove_sublist]|].
  intros h Hh (r' & Hh' & Hr')%list_elem_of_bind. pose proof (elem_of_sublist _ _ _ Hr' Hsub) as Hin.
  assert (r = r') as <-.
  { apply (one_record (invalidated_blocks self) r r' h); [apply Hok|done| |done|done].
    eapply elem_of_sublist; [exact Hin|]. apply shift_remove_sublist. }
  by eapply shift_remove_out in Hin; [|apply Hok].
Qed.

(** A chain that a record extends *)
Lemma replay_ok parent root self pc r0 rest k c' :
  state_ok parent root self -> (k, r0 :: rest) ∈ invalidated_blocks self -> chain_ok parent root pc ->
  end_hash parent pc = prev r0 -> push_all pc (r0 :: rest) = Ok c' ->
  (forall x, x ∈ chain_set self -> agree pc x /\ agree x pc) ->
  blks c' = blks pc ++ r0 :: rest /\ chain_ok parent root c' /\ live c' /\ tip c' <> prev r0 /\
  (forall x, x ∈ chain_set self -> agree c' x /\ agree x c').
Proof.
  intros Hok Hr Hpc Hend Hall Ha. pose proof (so_records _ _ _ _ _ Hok) as Hrec. rewrite Forall_forall in Hrec.
  destruct (Hrec _ Hr) as [Hcand Hk (p & Hl & Hp) _]. cbn [fst snd] in *. pose proof Hl as [Hprev _]. subst p.
  pose proof (end_height _ _ _ _ _ Hpc (so_parent _ _ _ _ _ Hok)) as Hh. rewrite Hend, Hp in Hh.
  assert (Hkeq : k = root + Z.of_nat (length (blks pc))) by (injection Hh; lia).
  destruct (push_all_ok parent root pc (r0 :: rest) c' Hpc) as [Hb Hc']; [by rewrite <- Hkeq|done|by rewrite Hend|done|].
  assert (Hlive : live c') by (apply live_blks; rewrite Hb; by destruct (blks pc)).
  split; [done|]. split; [done|]. split; [done|]. split.
  - pose proof (end_height _ _ _ _ _ Hc' (so_parent _ _ _ _ _ Hok)) as Hh'. rewrite end_tip in Hh' by done.
    intros Heq. rewrite Heq, Hp, Hb, length_app in Hh'. cbn in Hh'. injection Hh'. lia.
  - assert (Hdisj : forall x d d', x ∈ chain_set self -> d ∈ r0 :: rest -> d' ∈ blks x -> hash d <> hash d').
    { intros x d d' Hx Hd Hd' He. apply (so_out _ _ _ _ _ Hok x (hash d') Hx); [by apply list_elem_of_fmap_2|].
      apply list_elem_of_bind. exists (k, r0 :: rest). split; [|done]. rewrite <- He. by apply list_elem_of_fmap_2. }
    intros x Hx. destruct (Ha x Hx) as [H1 H2]. split; intros d d' Hd Hd' He; rewrite Hb in *.
    + apply elem_of_app in Hd as [Hd|Hd]; [by apply H1|]. by destruct (Hdisj x d d').
    + apply elem_of_app in Hd' as [Hd'|Hd']; [by apply H2|]. by destruct (Hdisj x d' d).
Qed.

(** What a reconsideration of the record [r], whose blocks extend [pc], does *)
Definition replayed (parent : Hash) (root : Z) self (pc : Chain) (r : Z * list ContextuallyVerifiedBlock) (p : Hash)
  (result : res (ReconsiderError * NonFinalizedState) (list Hash * NonFinalizedState)) : Prop :=
  match push_all pc r.2 with
  | Ok c' =>
      exists self', result = Ok (hash <$> r.2, self') /\ blks c' = blks pc ++ r.2 /\ state_ok parent root self' /\
        grown self c' (fun x => negb (tip x =? p)) self' /\
        forall h, h ∈ hash <$> r.2 -> h ∉ record_hashes (invalidated_blocks self')
  | Err e => result = Err (ReplayFailed e, self)
  | Panic => result = Panic
  end.

Lemma replay_state parent root self fs pc r0 rest k :
  state_ok parent root self -> (k, r0 :: rest) ∈ invalidated_blocks self -> chain_ok parent root pc ->
  end_hash parent pc = prev r0 -> (forall x, x ∈ chain_set self -> agree pc x /\ agree x pc) ->
  (forall h, h ∈ hashes pc -> h ∉ record_hashes (invalidated_blocks self)) ->
  replayed parent root self pc (k, r0 :: rest) (prev r0)
    (let? modified_chain := failing self (map_err ReplayFailed (push_all pc (r0 :: rest))) in
     let? _ := non_finalized_tip_hash modified_chain in
     let? self := insert_with (set_invalidated self (other_records self fs (k, r0 :: rest))) modified_chain
       (retain_res (other_tip (prev r0))) in
     let self := retain_precious_blocks self in
     let? _ := update_metrics_for_committed_block self in
     Ok (hash <$> r0 :: rest, self)).
Proof.
  intros Hok Hr Hpc Hend Ha Hout. unfold replayed. cbn [snd].
  destruct (push_all pc (r0 :: rest)) as [c'|e|] eqn:Hall; cbn [failing map_err res_bind]; [|done..].
  destruct (replay_ok parent root self pc r0 rest k c' Hok Hr Hpc Hend Hall Ha) as (Hb & Hc' & Hl & Ht & Ha').
  destruct (other_records_spec parent root self fs _ Hok Hr) as [Hsub Hgone]. cbn [snd] in Hgone.
  rewrite live_tip_hash by done. cbn [res_bind].
  destruct (insert_state (E := ReconsiderError * NonFinalizedState) net Hnet block_of parent root self (set_invalidated self (other_records self fs (k, r0 :: rest)))
    c' (fun x => negb (tip x =? prev r0)) (retain_res (other_tip (prev r0)))) as (self1 & -> & Hok1 & Hg & Hsame & Hmet);
    [done|done|done|exact Hsub|done|apply (so_network _ _ _ _ _ Hok)|done|done|done| | | |].
  - intros h Hin. unfold hashes in Hin. rewrite Hb, fmap_app in Hin. apply elem_of_app in Hin as [Hin|Hin]; [|by apply Hgone].
    intros Hrec. apply (Hout h Hin). eapply elem_of_sublist; [exact Hrec|]. by apply records_sublist.
  - intros s Hs. by eapply other_tip_filter.
  - intros x Htx _. apply negb_true_iff, Z.eqb_neq. congruence.
  - cbn [res_bind]. rewrite Hmet. cbn [res_bind]. eexists. split; [done|]. do 3 (split; [done|]).
    cbn [retain_precious_blocks invalidated_blocks]. rewrite Hsame. exact Hgone.
Qed.

Lemma find_record_spec self h :
  match find_record self h with
  | Some r => exists r0 rest, r = (r.1, r0 :: rest) /\ hash r0 = h /\ r ∈ invalidated_blocks self
  | None => forall r r0, r ∈ invalidated_blocks self -> head r.2 = Some r0 -> hash r0 <> h
  end.
Proof.
  unfold find_record. destruct (List.find _ _) as [[k bs]|] eqn:Hf.
  - apply find_split in Hf as (pre & post & Hl & Hh & _). cbn [snd fst] in *. destruct bs as [|r0 rest]; [done|].
    exists r0, rest. split; [done|]. split; [by apply Z.eqb_eq|]. rewrite Hl. apply elem_of_app. right. apply list_elem_of_here.
  - intros r r0 Hr Hh He. pose proof (find_None_all _ _ Hf r Hr) as Hn. cbn in Hn. rewrite Hh, He in Hn. by rewrite Z.eqb_refl in Hn.
Qed.

Lemma drop_records self fs k bs :
  match finalized_tip_height fs with
  | Some tip =>
      set_invalidated (set_invalidated self (shift_remove k (invalidated_blocks self)))
        (filter (fun r => tip <= r.1) (invalidated_blocks (set_invalidated self (shift_remove k (invalidated_blocks self)))))
  | None => set_invalidated self (shift_remove k (invalidated_blocks self))
  end = set_invalidated self (other_records self fs (k, bs)).
Proof. unfold other_records. by destruct (finalized_tip_height fs). Qed.

Lemma reconsider_block_ok parent root self h fs k invalidated :
  state_ok parent root self -> (forall c, c ∈ chain_set self -> modest net c) -> finalized_ok parent root fs ->
  find_record self h = Some (k, invalidated) ->
  exists r0 rest, invalidated = r0 :: rest /\ hash r0 = h /\
    let replays pc := replayed parent root self pc (k, invalidated) (prev r0) (reconsider_block self h fs) in
    if prev r0 =? parent then
      match sprout_tree_for_tip fs with
      | Ok sprout =>
          exists pc, chain_above (E := ReconsiderError * NonFinalizedState) self fs (root - 1) sprout = Ok pc /\
            blks pc = [] /\ replays pc
      | Err tip => reconsider_block self h fs = Err (ReconsiderMissingTree tip, self)
      | Panic => reconsider_block self h fs = Panic
      end
    else
      match parent_chain self (prev r0) with
      | Ok pc =>
          tip pc = prev r0 /\ (exists c, c ∈ chain_set self /\ blks pc `prefix_of` blks c) /\ replays pc
      | Err _ =>
          reconsider_block self h fs = Err (ParentChainNotFound h, self) /\
          forall c, c ∈ chain_set self -> prev r0 ∉ hashes c
      | Panic => False
      end.
Proof.
  intros Hok Hm Hfs Hfind. pose proof (so_chains _ _ _ _ _ Hok) as Hs. unfold reconsider_block.
  pose proof (find_record_spec self h) as Hspec. rewrite Hfind in *. destruct Hspec as (r0 & rest & Heq & Hh & Hr).
  injection Heq as ->. cbn [ok_or failing map_err res_bind head]. exists r0, rest. split; [done|]. split; [done|].
  fold (prev r0). rewrite (fo_hash _ _ _ Hfs), (drop_records self fs k (r0 :: rest)). cbv zeta.
  destruct (Z.eqb_spec (prev r0) parent) as [Hp|Hp].
  - assert (Htip : ok_or (ParentChainNotFound h) (finalized_tip_height fs) = Ok (root - 1)) by by rewrite (fo_height _ _ _ Hfs).
    rewrite Htip. cbn [failing map_err res_bind].
    destruct (sprout_tree_for_tip fs) as [sprout|tip|]; cbn [failing map_err res_bind]; [|done..].
    destruct (chain_above_ok (E := ReconsiderError * NonFinalizedState) parent root self fs sprout Hok Hfs) as (pc & Hpc0 & Hpc & Hb).
    exists pc. split; [done|]. split; [done|]. rewrite Hpc0. cbn [res_bind].
    apply replay_state; [done|done|done|unfold end_hash; by rewrite Hb|intros x _; by apply empty_agree|].
    intros h' Hin. unfold hashes in Hin. rewrite Hb in Hin. by apply elem_of_nil in Hin.
  - destruct (parent_chain_ok net Hnet block_of parent root self (prev r0) Hs Hm) as [(c & pc & -> & Hc & Hpc & Hl & Ht & Hpre)|[-> Hno]];
      cbn [failing map_err res_bind]; [|done].
    split; [done|]. split; [by exists c|]. apply replay_state; [done|done|done|by rewrite end_tip|..].
    + intros x Hx. eapply prefix_agree; [exact Hpre|]. split; by apply (cs_agree _ _ _ _ _ _ Hs).
    + intros h' Hin. apply (so_out _ _ _ _ _ Hok c); [done|]. by eapply prefix_hashes.
Qed.

(** ** Runs *)

Definition all_modest self : Prop := forall c, c ∈ chain_set self -> modest net c.

(** The states that are reached above the finalized block [parent] at the height
    [root - 1] *)
Inductive state_reached : Hash -> Z -> NonFinalizedState -> Prop :=
  | state_new parent root :
      coinbase_height (block_of parent) = Some (root - 1) -> state_reached parent root (new_state net)
  | state_commit parent root self prepared fs self' :
      state_reached parent root self -> all_modest self -> verified net block_of prepared ->
      commit_block self prepared fs = Ok self' -> state_reached parent root self'
  | state_commit_new parent root self prepared fs self' :
      state_reached parent root self -> finalized_ok parent root fs -> verified net block_of prepared ->
      parent_of prepared = parent -> commit_new_chain self prepared fs = Ok self' -> state_reached parent root self'
  | state_finalize parent root self b ts self' :
      state_reached parent root self -> all_modest self -> finalize (E := unit) self = Ok (b, ts, self') ->
      state_reached (hash b) (root + 1) self'
  | state_invalidate parent root self h h' self' :
      state_reached parent root self -> all_modest self -> invalidate_block self h = Ok (h', self') ->
      state_reached parent root self'
  | state_precious parent root self h fs self' :
      state_reached parent root self -> precious_block self h fs = Ok self' -> state_reached parent root self'
  | state_reconsider parent root self h fs hs self' :
      state_reached parent root self -> all_modest self -> finalized_ok parent root fs ->
      reconsider_block self h fs = Ok (hs, self') -> state_reached parent root self'.

Lemma new_state_ok parent root :
  coinbase_height (block_of parent) = Some (root - 1) -> state_ok parent root (new_state net).
Proof.
  intros Hp. split; cbn; [|lia|constructor|constructor|lia|by intros c h ?%elem_of_nil|constructor| |done|done].
  - split; [by intros c ?%elem_of_nil..|constructor|by intros c c' ?%elem_of_nil|by intros c ?%elem_of_nil].
  - split; [lia|]. intros h q Hq. by rewrite lookup_empty in Hq.
Qed.

Lemma finalize_nonempty {E} self b ts self' : finalize (E := E) self = Ok (b, ts, self') -> chain_set self <> [].
Proof. intros Hf He. unfold finalize, best_chain, chain_iter in Hf. by rewrite He in Hf. Qed.

Lemma reached_ok parent root self : state_reached parent root self -> state_ok parent root self.
Proof.
  induction 1 as [parent root Hp|parent root self prepared fs self' _ IH Hm Hv Hc|parent root self prepared fs self' _ IH Hfs Hv Hp Hc
    |parent root self b ts self' _ IH Hm Hf|parent root self h h' self' _ IH Hm Hi|parent root self h fs self' _ IH Hpr
    |parent root self h fs hs self' _ IH Hm Hfs Hr].
  - by apply new_state_ok.
  - destruct (commit_block_ok net Hnet block_of parent root self prepared fs IH Hm Hv) as [(_ & He & _)|(c & pc & _ & _ & _ & _ & _ & _ & Hcom)]; [congruence|].
    unfold committed in Hcom. destruct (validate_and_commit _ _ _ _); [|congruence..].
    destruct Hcom as (b & self1 & He & _ & _ & _ & _ & Hok & _). congruence.
  - pose proof (commit_new_chain_ok parent root self prepared fs IH Hfs Hv Hp) as Hcom.
    destruct (sprout_tree_for_tip fs); [|congruence..]. destruct Hcom as (pc & _ & _ & Hcom).
    unfold committed in Hcom. destruct (validate_and_commit _ _ _ _); [|congruence..].
    destruct Hcom as (b & self1 & He & _ & _ & _ & _ & Hok & _). congruence.
  - destruct (finalize_ok (E := unit) net Hnet block_of parent root self IH (finalize_nonempty _ _ _ _ Hf) Hm)
      as (best & b' & bs & ts' & self1 & _ & _ & He & Hok & _). congruence.
  - destruct (invalidate_block_ok parent root self h IH Hm) as [[He _]|(c & bs & b & bs' & self1 & _ & _ & _ & He & Hok & _)]; congruence.
  - destruct (precious_block_ok parent root self h fs IH) as [[_ He]|[(c & best & _ & _ & _ & _ & He)|(c & best & self1 & _ & _ & _ & _ & He & Hok & _)]];
      [|congruence..]. destruct (_ || _); congruence.
  - destruct (find_record self h) as [[k bs]|] eqn:Hfind.
    2: { unfold reconsider_block in Hr. by rewrite Hfind in Hr. }
    destruct (reconsider_block_ok parent root self h fs k bs IH Hm Hfs Hfind) as (r0 & rest & _ & _ & Hcase). cbv zeta in Hcase.
    assert (Hrep : exists pc, replayed parent root self pc (k, bs) (prev r0) (reconsider_block self h fs)).
    { destruct (prev r0 =? parent); [destruct (sprout_tree_for_tip fs)|destruct (parent_chain self (prev r0))];
        [|congruence|congruence| |by destruct Hcase; congruence|done].
      - destruct Hcase as (pc & _ & _ & Hrep). by exists pc.
      - destruct Hcase as (_ & _ & Hrep). by eexists. }
    destruct Hrep as [pc Hrep]. unfold replayed in Hrep. destruct (push_all pc _); [|congruence..].
    destruct Hrep as (self1 & He & _ & Hok & _). congruence.
Qed.

(** C2: in every state that commits, finalizations, invalidations, reconsiderations
    and preferences reach there are at most ten chains, of one or more blocks each,
    with different tips.  The blocks of a chain follow each other from the finalized
    tip on, at consecutive heights, and no hash is twice in a chain.  The best chain
    has the most work of all.  No chain has a block that is recorded as invalidated,
    and there are at most a hundred records. *)
Theorem state_is_best_chains parent root self :
  state_reached parent root self ->
  (length (chain_set self) <= 10)%nat /\ NoDup (tip <$> chain_set self) /\
  (forall c, c ∈ chain_set self ->
     blks c <> [] /\ hash_linked parent (blks c) /\ NoDup (hashes c) /\
     (forall i b, blks c !! i = Some b -> height b = root + Z.of_nat i) /\
     (exists best, best_chain self = Some best /\ best ∈ chain_set self /\
        partial_cumulative_work (indexes c) <= partial_cumulative_work (indexes best)) /\
     (forall h, h ∈ hashes c -> is_invalidated self h = false)) /\
  (length (invalidated_blocks self) <= 100)%nat.
Proof.
  intros Hr. pose proof (reached_ok _ _ _ Hr) as Hok. pose proof (so_chains _ _ _ _ _ Hok) as Hs.
  split; [apply Hok|]. split; [exact (chains_tips _ Hnet _ _ _ _ _ Hs)|]. split; [|apply Hok].
  intros c Hc. pose proof (cs_chain _ _ _ _ _ _ Hs c Hc) as Hcok. split; [by apply live_blks, (cs_live _ _ _ _ _ _ Hs)|].
  split; [apply Hcok|]. split; [by eapply ok_hashes|]. split; [intros i b Hi; by apply (ok_height _ _ _ _ _ _ _ Hcok Hi)|]. split.
  - rewrite best_last. destruct (last (chain_set self)) as [best|] eqn:Hb; [|by apply last_None in Hb; rewrite Hb in Hc; apply elem_of_nil in Hc].
    exists best. split; [done|]. split; [by apply last_Some_elem_of|]. by eapply (max_work net block_of).
  - intros h Hh. destruct (is_invalidated self h) eqn:Hi; [|done]. apply is_invalidated_spec in Hi. by destruct (so_out _ _ _ _ _ Hok c h Hc Hh).
Qed.

(** ** Operations of a reached state *)

(** C11: committing a block on a reached state, none of whose chains creates or spends
    outputs of an address worth more than the monetary base in total.  A block
    whose parent is in no chain is not ready.  With its parent in a chain it is
    validated against the chain that [parent_chain] returns, which ends with the
    parent; the errors and panics of the commit are then those of this validation.
    An error leaves the state as it was.  A valid block is the tip of a chain; the
    other chains are old ones, all of them but the one it extends as long as there
    are less than ten, and an evicted chain is below every old chain that is kept;
    and the best chain has no less work than any chain before. *)
Theorem commit_block_keeps_work parent root self prepared fs :
  state_reached parent root self -> all_modest self -> verified net block_of prepared ->
  match parent_chain self (parent_of prepared) with
  | Panic => False
  | Err e =>
      commit_block self prepared fs = Err (e, self) /\ e = NotReadyToBeCommitted /\
      forall c, c ∈ chain_set self -> parent_of prepared ∉ hashes c
  | Ok pc =>
      (exists c, c ∈ chain_set self /\ blks pc `prefix_of` blks c) /\ tip pc = parent_of prepared /\
      match validate_and_commit self pc prepared fs with
      | Err e => commit_block self prepared fs = Err (e, self)
      | Panic => commit_block self prepared fs = Panic
      | Ok c' =>
          exists self', commit_block self prepared fs = Ok self' /\ hashes c' = hashes pc ++ [Checkpoint.block_hash prepared] /\
            (exists x, x ∈ chain_set self' /\ hashes x = hashes c') /\
            (forall x, x ∈ chain_set self' -> x ∈ chain_set self \/ hashes x = hashes c') /\
            ((length (chain_set self) < 10)%nat -> forall x, x ∈ chain_set self -> tip x <> tip pc -> x ∈ chain_set self') /\
            (forall x y, x ∈ chain_set self -> tip x <> tip pc -> x ∉ chain_set self' ->
               y ∈ chain_set self' -> tip y <> Checkpoint.block_hash prepared -> chain_lt x y) /\
            (forall x, x ∈ chain_set self -> exists best, best_chain self' = Some best /\ work x <= work best)
      end
  end.
Proof.
  intros Hr Hm Hv. pose proof (reached_ok _ _ _ Hr) as Hok. pose proof (so_chains _ _ _ _ _ Hok) as Hs.
  destruct (commit_block_ok net Hnet block_of parent root self prepared fs Hok Hm Hv)
    as [(-> & H)|(c & pc & -> & Hc & Hpre & Hpc & Hl & Ht & Hcom)]; [by destruct H|].
  split; [by exists c|]. split; [done|]. unfold committed in Hcom. destruct (validate_and_commit _ _ _ _) as [c'|e|]; [|done..].
  destruct Hcom as (b & self' & He & Hb & Hh & _ & Hw & _ & [G1 G2 _ G4 G5 G6]). exists self'. split; [done|].
  split; [unfold hashes; by rewrite Hb, fmap_app, <- Hh|]. split; [done|]. split; [|split; [|split]].
  - intros x [(y & Hy & ->)|Hx]%G2; [by left|by right].
  - intros Hroom x Hx Hne. apply G5; [by left|done|]. apply negb_true_iff, Z.eqb_neq. congruence.
  - intros x y Hx Hne Hout Hy Hty. apply G4; [done| |done|done|].
    + apply negb_true_iff, Z.eqb_neq. congruence.
    + destruct (tip_snoc c' _ _ Hb) as [_ Htc]. congruence.
  - intros x Hx. apply G6; [done|]. destruct (Z.eqb_spec (tip x) (parent_of prepared)) as [Heq|Hne]; [right|by left].
    etrans; [|exact Hw]. apply Z.eq_le_incl, (work_hash net block_of parent root); [by apply Hs|done|].
    apply (same_tip net block_of parent root); [by apply Hs|done|by apply (cs_live _ _ _ _ _ _ Hs)|done|congruence].
Qed.

Lemma tips_eq s x y : NoDup (tip <$> s) -> x ∈ s -> y ∈ s -> tip x = tip y -> x = y.
Proof.
  intros Hn [i Hi]%list_elem_of_lookup [j Hj]%list_elem_of_lookup Ht. enough (i = j) by congruence.
  eapply NoDup_lookup; [exact Hn|rewrite list_lookup_fmap, Hi; done|rewrite list_lookup_fmap, Hj; cbn; by rewrite Ht].
Qed.

(** The best chain without its root is the best of the chains that are left. *)
Lemma best_popped parent root self best b bs self' :
  state_ok parent root self -> best_chain self = Some best -> blks best = b :: bs -> bs <> [] ->
  chains_ok net block_of (hash b) (root + 1) (precious_blocks self) (chain_set self') ->
  popped (hash b) (chain_set self) (chain_set self') ->
  exists best', best_chain self' = Some best' /\ blks best' = bs.
Proof.
  intros Hok Hbest Hb Hne Hs' [Hfrom Hall _]. pose proof (so_chains _ _ _ _ _ Hok) as Hs. rewrite best_last in Hbest.
  assert (Hin : best ∈ chain_set self) by by apply last_Some_elem_of.
  destruct (Hall best b bs Hin Hb eq_refl Hne) as (xb & Hxb & Hbx). exists xb. split; [|done]. rewrite best_last.
  apply last_above; [apply Hs'|done|]. intros x Hx. destruct (Hfrom x Hx) as (c & d & Hc & Hd & Hh).
  pose proof (cs_live _ _ _ _ _ _ Hs' x Hx) as Hlx. pose proof (cs_live _ _ _ _ _ _ Hs' xb Hxb) as Hlb. rewrite <- Hbx in Hb.
  assert (Hsame : forall y z e, y ∈ chain_set self' -> z ∈ chain_set self -> live y -> blks z = e :: blks y -> precious y = precious z).
  { intros y z e Hy Hz Hly Hbl. rewrite (cs_preferred _ _ _ _ _ _ Hs' y Hy), (cs_preferred _ _ _ _ _ _ Hs z Hz).
    unfold preference. by rewrite (tip_pop z y e Hly Hbl). }
  destruct (last_max _ _ _ (cs_sorted _ _ _ _ _ _ Hs) Hbest Hc) as [->|Hlt].
  - left. apply (tips_eq (chain_set self')); [exact (chains_tips _ Hnet _ _ _ _ _ Hs')|done|done|].
    by rewrite (tip_pop best x d Hlx Hd), (tip_pop best xb b Hlb Hb).
  - right. apply (lt_pop net block_of parent root (hash b) (root + 1) c x d best xb b);
      [by apply Hs|by apply Hs|by apply Hs'|by apply Hs'|done|done|done|done|done|by eapply Hsame|by eapply Hsame|done].
Qed.

(** C8: on a reached state with chains, none of which creates or spends outputs of an
    address worth more than the monetary base in total, [finalize] returns the root of the best chain and
    the treestate there.  The chains that are left are exactly the rests of those
    above this root, and the rest of the best chain is still the best chain. *)
Theorem finalize_takes_best_root parent root self :
  state_reached parent root self -> all_modest self -> chain_set self <> [] ->
  exists best b bs ts self',
    best_chain self = Some best /\ blks best = b :: bs /\ finalize (E := unit) self = Ok (b, ts, self') /\
    treestate (trees best) root = Some ts /\
    (forall x, x ∈ chain_set self' -> exists c d, c ∈ chain_set self /\ blks c = d :: blks x /\ hash d = hash b) /\
    (forall c d ds, c ∈ chain_set self -> blks c = d :: ds -> hash d = hash b -> ds <> [] ->
       exists x, x ∈ chain_set self' /\ blks x = ds) /\
    (bs <> [] -> exists best', best_chain self' = Some best' /\ blks best' = bs).
Proof.
  intros Hr Hm Hne. pose proof (reached_ok _ _ _ Hr) as Hok.
  destruct (finalize_ok (E := unit) net Hnet block_of parent root self Hok Hne Hm)
    as (best & b & bs & ts & self' & Hbest & Hb & Hf & _ & Hpop & Hs' & Hts).
  exists best, b, bs, ts, self'. do 4 (split; [done|]). split; [apply Hpop|]. split; [apply Hpop|].
  intros Hbs. by eapply best_popped.
Qed.



(** C33: an operator's preference decides between chains of the most work, and only
    between those.  The tip of a chain with the most work becomes the best tip, as
    long as the counter of preferences is below its maximum; that of another chain
    changes nothing.  The tips stay the same in both cases. *)
Theorem preference_decides_ties parent root self c fs :
  state_reached parent root self -> c ∈ chain_set self ->
  exists self', precious_block self (tip c) fs = Ok self' /\ tip <$> chain_set self' ≡ₚ tip <$> chain_set self /\
    ((exists x, x ∈ chain_set self /\ work c < work x) -> self' = self) /\
    ((forall x, x ∈ chain_set self -> work x <= work c) -> precious_sequence self < 2 ^ 64 - 1 ->
       exists best, best_chain self' = Some best /\ tip best = tip c).
Proof.
  intros Hr Hc. pose proof (reached_ok _ _ _ Hr) as Hok. pose proof (so_chains _ _ _ _ _ Hok) as Hs.
  destruct (precious_block_ok parent root self (tip c) fs Hok) as [[Hn _]|[(c' & best & Hc' & Ht & Hb & Hlt & He)|(c' & best & self' & Hc' & Ht & Hb & Hge & He & _ & Hpf)]].
  - destruct Hn. by apply list_elem_of_fmap_2.
  - assert (c' = c) as -> by (apply (tips_eq (chain_set self)); [exact (chains_tips _ Hnet _ _ _ _ _ Hs)|done..]).
    exists self. split; [done|]. split; [done|]. split; [done|]. intros Hall _. rewrite best_last in Hb.
    specialize (Hall best (last_Some_elem_of _ _ Hb)). lia.
  - assert (c' = c) as -> by (apply (tips_eq (chain_set self)); [exact (chains_tips _ Hnet _ _ _ _ _ Hs)|done..]).
    exists self'. split; [done|]. split; [apply Hpf|]. split; [|intros _; apply Hpf].
    intros (x & Hx & Hlt). rewrite best_last in Hb. pose proof (max_work net block_of parent root _ _ best x Hs Hb Hx). lia.
Qed.

(** C34: reconsidering a block on a reached state, none of whose chains creates or
    spends outputs of an address worth more than the monetary base in total.  The
    record that starts with the block is replayed as a whole, in its order, on the
    chain that ends with the parent of the block: a new chain when this is the
    finalized tip, and otherwise the one that [parent_chain] returns.  Without a
    record, without that chain, or when a block cannot be added, the request
    fails, and the state it leaves is the one before, with its records.  When all
    blocks are added they are the end of a chain, and none of them is recorded as
    invalidated any more. *)
Theorem reconsider_replays_record parent root self h fs :
  state_reached parent root self -> all_modest self -> finalized_ok parent root fs ->
  match find_record self h with
  | None => reconsider_block self h fs = Err (MissingInvalidatedBlock h, self)
  | Some (k, invalidated) =>
      exists r0 rest, invalidated = r0 :: rest /\ hash r0 = h /\
      let replays pc :=
        match push_all pc invalidated with
        | Ok c' =>
            exists self', reconsider_block self h fs = Ok (hash <$> invalidated, self') /\
              hashes c' = hashes pc ++ (hash <$> invalidated) /\
              (exists x, x ∈ chain_set self' /\ hashes x = hashes c') /\
              (forall h', h' ∈ hash <$> invalidated -> is_invalidated self' h' = false)
        | Err e => reconsider_block self h fs = Err (ReplayFailed e, self)
        | Panic => reconsider_block self h fs = Panic
        end in
      if prev r0 =? parent then
        match sprout_tree_for_tip fs with
        | Ok sprout =>
            exists pc, chain_above (E := ReconsiderError * NonFinalizedState) self fs (root - 1) sprout = Ok pc /\
              blks pc = [] /\ replays pc
        | Err tip => reconsider_block self h fs = Err (ReconsiderMissingTree tip, self)
        | Panic => reconsider_block self h fs = Panic
        end
      else
        match parent_chain self (prev r0) with
        | Ok pc =>
            tip pc = prev r0 /\ (exists c, c ∈ chain_set self /\ blks pc `prefix_of` blks c) /\ replays pc
        | Err _ =>
            reconsider_block self h fs = Err (ParentChainNotFound h, self) /\
            forall c, c ∈ chain_set self -> prev r0 ∉ hashes c
        | Panic => False
        end
  end.
Proof.
  intros Hr Hm Hfs. pose proof (reached_ok _ _ _ Hr) as Hok. destruct (find_record self h) as [[k bs]|] eqn:Hfind.
  2: { unfold reconsider_block. by rewrite Hfind. }
  destruct (reconsider_block_ok parent root self h fs k bs Hok Hm Hfs Hfind) as (r0 & rest & Hbs & Hh & Hcase).
  exists r0, rest. split; [done|]. split; [done|]. cbv zeta in *.
  assert (Hrep : forall pc, replayed parent root self pc (k, bs) (prev r0) (reconsider_block self h fs) ->
    match push_all pc bs with
    | Ok c' =>
        exists self', reconsider_block self h fs = Ok (hash <$> bs, self') /\
          hashes c' = hashes pc ++ (hash <$> bs) /\ (exists x, x ∈ chain_set self' /\ hashes x = hashes c') /\
          (forall h', h' ∈ hash <$> bs -> is_invalidated self' h' = false)
    | Err e => reconsider_block self h fs = Err (ReplayFailed e, self)
    | Panic => reconsider_block self h fs = Panic
    end).
  { intros pc Hrep. unfold replayed in Hrep. cbn [snd] in Hrep. destruct (push_all pc bs) as [c'|e|]; [|done..].
    destruct Hrep as (self' & He & Hb & _ & [G1 _ _ _ _ _] & Hout). exists self'. split; [done|].
    split; [unfold hashes; by rewrite Hb, fmap_app|]. split; [done|]. intros h' Hin.
    destruct (is_invalidated self' h') eqn:Hi; [|done]. apply is_invalidated_spec in Hi. by destruct (Hout h' Hin). }
  destruct (prev r0 =? parent); [destruct (sprout_tree_for_tip fs)|destruct (parent_chain self (prev r0))]; [|done|done| |done|done].
  - destruct Hcase as (pc & H1 & H2 & H3). exists pc. split; [done|]. split; [done|]. by apply Hrep.
  - destruct Hcase as (H1 & H2 & H3). split; [done|]. split; [done|]. by apply Hrep.
Qed.
End Run.

(** ** An example *)

#[local] Existing Instance Difficulty.u256_Z.
#[local] Existing Instance Difficulty.u256_Z_laws.
#[local] Existing Instance toy_trees.
#[local] Existing Instance toy_trees_laws.
#[local] Existing Instance MerkleFacts.toy_sha256.
#[local] Existing Instance MerkleFacts.toy_blake2b.

#[local] Instance toy_referred : Referred := {|
  is_jubjub_base _ := true;
  history_hash _ := Some [];
  sapling_anchors _ := [];
  orchard_anchor _ := None;
  ironwood_anchor _ := None;
  joinsplits _ := [];
|}.

(** A block at the height [h] with the hash [id], above the block [above] *)
Definition sample_verified (h id above : Z) : Checkpoint.CheckpointVerifiedBlock :=
  Checkpoint.mkVerified Checkpoint.NetworkOrigin
    (mkBlock (BlockHeader.mkHeader 4 above 0 (from_commitments [] 0) 0 sample_bits [] (BlockHeader.Common []))
       [sample_coinbase h (10 * id) [] subsidy])
    id h {[mkOutPoint (10 * id) 0 := sample_utxo h subsidy 0]} [10 * id] (Some (Amount.mk 0)) (Some 0) None.

(** The finalized block 1000, the block 1001 above it, and the blocks 1002 and 2002
    above this one *)
Definition sample_block_of (h : Hash) : Block :=
  Checkpoint.block
    (if h =? 1000 then sample_verified 0 1000 999
     else if h =? 1001 then sample_verified 1 1001 1000
     else if h =? 1002 then sample_verified 2 1002 1001
     else sample_verified 2 2002 1001).

Definition sample_finalized : FinalizedState :=
  mkFinalized _ (mkDb (fun _ => None) (fun _ => false) (fun _ => false) (fun _ => false) (fun _ => false))
    (mkAnchorDb (fun _ => false) (fun _ => false) (fun _ => false) (fun _ => None))
    (Some 0) 1000 (Ok []) [] [] [] 0 (ValuePools.vb_of 0 0 0) false (fun _ => None).

Definition no_state : NonFinalizedState := new_state sample_net.

Definition sample_state1 : NonFinalizedState :=
  or_else (commit_new_chain no_state (sample_verified 1 1001 1000) sample_finalized) no_state.
Definition sample_state2 : NonFinalizedState :=
  or_else (commit_block sample_state1 (sample_verified 2 1002 1001) sample_finalized) no_state.
Definition sample_state3 : NonFinalizedState :=
  or_else (commit_block sample_state2 (sample_verified 2 2002 1001) sample_finalized) no_state.
Definition sample_state4 : NonFinalizedState :=
  (or_else (invalidate_block sample_state3 2002) (0, no_state)).2.

Lemma sample_is_verified h id above :
  sample_block_of id = Checkpoint.block (sample_verified h id above) -> 0 <= h <= Height.MAX ->
  ValueBalance.chain_value_pool_change_from_utxos (Some h) [ValuePools.vb_of (C := Amount.NegativeAllowed) (- subsidy) 0 0]
    sample_net (Some (Amount.mk 0)) Ok = Ok ValuePools.change1 ->
  coinbase_height (sample_block_of above) = Some (h - 1) -> verified sample_net sample_block_of (sample_verified h id above).
Proof.
  intros Hb Hh Hch Hp. split; [done| |done]. intros receipt spent b Hw. unfold with_block_and_spent_utxos in Hw.
  apply res_bind_Ok in Hw as (change & Hchange & [= <-]).
  apply sample_candidate; [done|done|done|done| |done]. cbn [chain_value_pool_change].
  assert (Heq : Ok (E := ValueBalance.ValueBalanceError) change = Ok ValuePools.change1); [|by injection Heq].
  rewrite <- Hchange, <- Hch. reflexivity.
Qed.

Definition modestb (c : Chain) : bool :=
  let content := blocks_content (blks c) in
  let all l := bool_decide (Forall AddressFacts.indexable l) in
  all (c_created content) && all (c_spent content).*2 &&
  (AddressFacts.total (c_created content) <=? Amount.MAX_MONEY) && (AddressFacts.total (c_spent content).*2 <=? Amount.MAX_MONEY).

Lemma sample_all_modest self : forallb modestb (chain_set self) = true -> all_modest sample_net self.
Proof.
  rewrite forallb_forall. intros Hall c Hc%list_elem_of_In. specialize (Hall c Hc). unfold modestb in Hall.
  rewrite !andb_true_iff, !bool_decide_eq_true, !Z.leb_le in Hall. destruct Hall as [[[H1 H2] H3] H4].
  by apply ChainContent.modest_totals.
Qed.

Lemma sample_above : finalized_ok sample_net 1000 1 sample_finalized.
Proof. split; [done|done|split; vm_compute; discriminate|apply sample_pools..]. Qed.

Ltac sample_block_ok := apply sample_is_verified; [reflexivity|split; vm_compute; discriminate|reflexivity|reflexivity].

Lemma sample_state1_reached : state_reached sample_net sample_block_of 1000 1 sample_state1.
Proof.
  apply (state_commit_new _ _ 1000 1 no_state (sample_verified 1 1001 1000) sample_finalized);
    [by apply state_new|exact sample_above|sample_block_ok|done|by apply or_else_Ok; vm_compute].
Qed.

Lemma sample_state2_reached : state_reached sample_net sample_block_of 1000 1 sample_state2.
Proof.
  apply (state_commit _ _ 1000 1 sample_state1 (sample_verified 2 1002 1001) sample_finalized);
    [exact sample_state1_reached|by apply sample_all_modest; vm_compute|sample_block_ok|by apply or_else_Ok; vm_compute].
Qed.

Lemma sample_state3_reached : state_reached sample_net sample_block_of 1000 1 sample_state3.
Proof.
  apply (state_commit _ _ 1000 1 sample_state2 (sample_verified 2 2002 1001) sample_finalized);
    [exact sample_state2_reached|by apply sample_all_modest; vm_compute|sample_block_ok|by apply or_else_Ok; vm_compute].
Qed.

Lemma sample_state3_modest : all_modest sample_net sample_state3.
Proof. by apply sample_all_modest; vm_compute. Qed.

Lemma sample_state4_reached : state_reached sample_net sample_block_of 1000 1 sample_state4.
Proof.
  apply (state_invalidate _ _ 1000 1 sample_state3 2002 (or_else (invalidate_block sample_state3 2002) (0, no_state)).1);
    [exact sample_state3_reached|exact sample_state3_modest|].
  unfold sample_state4. rewrite <- surjective_pairing. by apply or_else_Ok; vm_compute.
Qed.

Lemma not_err {E A} (r : res E A) e : is_ok r = true -> r <> Err e.
Proof. by destruct r. Qed.

Lemma state_is_best_chains_witness :
  length (chain_set sample_state3) = 2%nat /\ NoDup (tip <$> chain_set sample_state3).
Proof.
  destruct (state_is_best_chains sample_net ValuePools.nu7_network_wf sample_block_of 1000 1 sample_state3 sample_state3_reached)
    as (_ & H & _). split; [vm_compute; reflexivity|exact H].
Defined.

Lemma commit_block_keeps_work_witness :
  exists pc, parent_chain sample_state1 (parent_of (sample_verified 2 1002 1001)) = Ok pc /\
    tip pc = parent_of (sample_verified 2 1002 1001) /\
    is_ok (commit_block sample_state1 (sample_verified 2 1002 1001) sample_finalized) = true.
Proof.
  assert (Hc : is_ok (commit_block sample_state1 (sample_verified 2 1002 1001) sample_finalized) = true) by (vm_compute; reflexivity).
  assert (Hv : verified sample_net sample_block_of (sample_verified 2 1002 1001)) by sample_block_ok.
  assert (Hm : all_modest sample_net sample_state1) by (apply sample_all_modest; vm_compute; reflexivity).
  pose proof (commit_block_keeps_work sample_net ValuePools.nu7_network_wf sample_block_of 1000 1 sample_state1
    (sample_verified 2 1002 1001) sample_finalized sample_state1_reached Hm Hv) as H.
  destruct (parent_chain sample_state1 (parent_of (sample_verified 2 1002 1001))) as [pc|e|].
  - destruct H as (_ & Ht & _). exists pc. split; [reflexivity|]. split; [exact Ht|exact Hc].
  - destruct H as (He & _). destruct (not_err _ _ Hc He).
  - destruct H.
Defined.

Lemma finalize_takes_best_root_witness :
  exists best b bs ts self',
    best_chain sample_state3 = Some best /\ blks best = b :: bs /\ finalize (E := unit) sample_state3 = Ok (b, ts, self').
Proof.
  destruct (finalize_takes_best_root sample_net ValuePools.nu7_network_wf sample_block_of 1000 1 sample_state3
    sample_state3_reached sample_state3_modest) as (best & b & bs & ts & self' & H1 & H2 & H3 & _).
  - intros H. assert (Hl : length (chain_set sample_state3) = 2%nat) by (vm_compute; reflexivity). rewrite H in Hl. discriminate.
  - exists best, b, bs, ts, self'. split; [exact H1|]. split; [exact H2|exact H3].
Defined.


Definition first_chain (self : NonFinalizedState) : Chain := default no_chain (head (chain_set self)).

Lemma all_below (s : list Chain) c :
  forallb (fun x => work x <=? work c) s = true -> forall x, x ∈ s -> work x <= work c.
Proof. rewrite forallb_forall. intros Hall x Hx%list_elem_of_In. by apply Z.leb_le, Hall. Qed.

(** The chain with the larger hash is the best one, until the other is preferred. *)
Lemma preference_decides_ties_witness :
  exists self' best, precious_block sample_state3 (tip (first_chain sample_state3)) sample_finalized = Ok self' /\
    best_chain self' = Some best /\ tip best = tip (first_chain sample_state3).
Proof.
  destruct (preference_decides_ties sample_net ValuePools.nu7_network_wf sample_block_of 1000 1 sample_state3
    (first_chain sample_state3) sample_finalized sample_state3_reached) as (self' & H1 & _ & _ & H2).
  - assert (Hh : exists c s, chain_set sample_state3 = c :: s).
    { destruct (chain_set sample_state3) eqn:H; [|eauto].
      assert (Hl : length (chain_set sample_state3) = 2%nat) by (vm_compute; reflexivity). rewrite H in Hl. discriminate. }
    destruct Hh as (c & s & Hs). unfold first_chain. rewrite Hs. apply list_elem_of_here.
  - destruct H2 as (best & H2 & H3).
    + apply all_below. vm_compute. reflexivity.
    + vm_compute. reflexivity.
    + exists self', best. split; [exact H1|]. split; [exact H2|exact H3].
Defined.

Lemma reconsider_replays_record_witness :
  exists k r0 rest, find_record sample_state4 2002 = Some (k, r0 :: rest) /\ hash r0 = 2002.
Proof.
  pose proof (reconsider_replays_record sample_net ValuePools.nu7_network_wf sample_block_of 1000 1 sample_state4 2002
    sample_finalized sample_state4_reached) as H.
  assert (Hf : match find_record sample_state4 2002 with Some _ => true | None => false end = true) by (vm_compute; reflexivity).
  destruct (find_record sample_state4 2002) as [[k bs]|]; [|discriminate].
  destruct H as (r0 & rest & Hb & Hh & _).
  - apply sample_all_modest. vm_compute. reflexivity.
  - exact sample_above.
  - exists k, r0, rest. rewrite Hb. split; [reflexivity|exact Hh].
Defined.
End NonFinalizedRun.
