(* ===== verification/VerifiedSet.v ===== *)
(** * The verified transactions of the mempool

    [zakurad/src/components/mempool/storage/verified_set.rs]: the set, its
    caches, and the index that orders transactions for eviction.  Indexing a map
    with an absent key, a failed assertion and an arithmetic overflow are
    panics.  The wall clock reading of [insert] is an argument. *)

From stdpp Require Import base numbers list option gmap sets.
From Stdlib Require Import ZArith QArith Lia.
From S2P Require Import Prelude Amount Zip317 BSet EvictionCost HashIter Dependencies MempoolTx.
Local Open Scope Z_scope.

Module VerifiedSet.
Import MempoolTx Dependencies.

Definition MAX_MEMPOOL_PACKAGE_TRANSACTIONS : Z := 3.
Definition MAX_MEMPOOL_ANCESTORS : Z := MAX_MEMPOOL_PACKAGE_TRANSACTIONS - 1.

(** ** Metrics *)

Record MempoolMetrics := mkMetrics {
  unpaid_lt20pct : Z; unpaid_lt40pct : Z; unpaid_lt60pct : Z; unpaid_lt80pct : Z; unpaid_lt1 : Z;
  paid_actions : Z;
  size_lt1 : Z; size_eq1 : Z; size_gt1 : Z; size_gt2 : Z; size_gt3 : Z;
}.

Definition zero_metrics : MempoolMetrics := mkMetrics 0 0 0 0 0 0 0 0 0 0 0.

(** The [f32] constants next to 0.2, 0.4, 0.6 and 0.8. *)
Definition f32_20pct : Q := 13421773 # 67108864.
Definition f32_40pct : Q := 13421773 # 33554432.
Definition f32_60pct : Q := 10066330 # 16777216.
Definition f32_80pct : Q := 13421773 # 16777216.

Definition q_lt (a b : Q) : bool := match (a ?= b)%Q with Lt => true | _ => false end.
Definition q_eq (a b : Q) : bool := match (a ?= b)%Q with Eq => true | _ => false end.

Definition for_values {E} (fee_weight_ratio : Q) (conventional_actions unpaid_actions size : Z)
  : res E MempoolMetrics :=
  let? paid := uint_arith 32 (conventional_actions - unpaid_actions) in
  let r := fee_weight_ratio in let u := unpaid_actions in
  Ok (if q_lt 3 r then mkMetrics 0 0 0 0 0 paid 0 0 0 0 size
      else if q_lt 2 r then mkMetrics 0 0 0 0 0 paid 0 0 0 size 0
      else if q_lt 1 r then mkMetrics 0 0 0 0 0 paid 0 0 size 0 0
      else if q_eq r 1 then mkMetrics 0 0 0 0 0 paid 0 size 0 0 0
      else if q_lt r f32_20pct then mkMetrics u 0 0 0 0 paid size 0 0 0 0
      else if q_lt r f32_40pct then mkMetrics 0 u 0 0 0 paid size 0 0 0 0
      else if q_lt r f32_60pct then mkMetrics 0 0 u 0 0 paid size 0 0 0 0
      else if q_lt r f32_80pct then mkMetrics 0 0 0 u 0 paid size 0 0 0 0
      else mkMetrics 0 0 0 0 u paid size 0 0 0 0).

Definition for_transaction {E} (tx : VerifiedUnminedTx) : res E MempoolMetrics :=
  for_values (fee_weight_ratio tx) (Zip317.verified_conventional_actions (fees tx))
    (Zip317.verified_unpaid_actions (fees tx)) (tx_size tx).

Definition metrics_add {E} (a b : MempoolMetrics) : res E MempoolMetrics :=
  let? u1 := uint_arith 32 (unpaid_lt20pct a + unpaid_lt20pct b) in
  let? u2 := uint_arith 32 (unpaid_lt40pct a + unpaid_lt40pct b) in
  let? u3 := uint_arith 32 (unpaid_lt60pct a + unpaid_lt60pct b) in
  let? u4 := uint_arith 32 (unpaid_lt80pct a + unpaid_lt80pct b) in
  let? u5 := uint_arith 32 (unpaid_lt1 a + unpaid_lt1 b) in
  let? p := uint_arith 32 (paid_actions a + paid_actions b) in
  let? s1 := uint_arith 64 (size_lt1 a + size_lt1 b) in
  let? s2 := uint_arith 64 (size_eq1 a + size_eq1 b) in
  let? s3 := uint_arith 64 (size_gt1 a + size_gt1 b) in
  let? s4 := uint_arith 64 (size_gt2 a + size_gt2 b) in
  let? s5 := uint_arith 64 (size_gt3 a + size_gt3 b) in
  Ok (mkMetrics u1 u2 u3 u4 u5 p s1 s2 s3 s4 s5).

Definition metrics_remove {E} (a b : MempoolMetrics) : res E MempoolMetrics :=
  let? u1 := uint_arith 32 (unpaid_lt20pct a - unpaid_lt20pct b) in
  let? u2 := uint_arith 32 (unpaid_lt40pct a - unpaid_lt40pct b) in
  let? u3 := uint_arith 32 (unpaid_lt60pct a - unpaid_lt60pct b) in
  let? u4 := uint_arith 32 (unpaid_lt80pct a - unpaid_lt80pct b) in
  let? u5 := uint_arith 32 (unpaid_lt1 a - unpaid_lt1 b) in
  let? p := uint_arith 32 (paid_actions a - paid_actions b) in
  let? s1 := uint_arith 64 (size_lt1 a - size_lt1 b) in
  let? s2 := uint_arith 64 (size_eq1 a - size_eq1 b) in
  let? s3 := uint_arith 64 (size_gt1 a - size_gt1 b) in
  let? s4 := uint_arith 64 (size_gt2 a - size_gt2 b) in
  let? s5 := uint_arith 64 (size_gt3 a - size_gt3 b) in
  Ok (mkMetrics u1 u2 u3 u4 u5 p s1 s2 s3 s4 s5).

Definition add_transaction {E} (self : MempoolMetrics) (tx : VerifiedUnminedTx) : res E MempoolMetrics :=
  let? m := for_transaction tx in metrics_add self m.

Definition remove_transaction {E} (self : MempoolMetrics) (tx : VerifiedUnminedTx) : res E MempoolMetrics :=
  let? m := for_transaction tx in metrics_remove self m.

(** ** The state *)

(** [EvictionCandidate]: the score, the reversed time, and the hash, compared in
    this order. *)
Record EvictionCandidate := mkCandidate {
  score : EvictionCost.EvictionCost;
  reverse_time : option Z;
  candidate_id : Hash;
}.

(** [Ord for Option]: [None] is below every [Some] *)
Definition option_cmp (a b : option Z) : comparison :=
  match a, b with
  | None, None => Eq
  | None, Some _ => Lt
  | Some _, None => Gt
  | Some a, Some b => a ?= b
  end.

(** [Ord::cmp] of [EvictionCost]; the products of two [u64] fit in [u128] *)
Definition score_cmp (a b : EvictionCost.EvictionCost) : comparison :=
  EvictionCost.fee a * EvictionCost.cost b ?= EvictionCost.fee b * EvictionCost.cost a.

Definition candidate_cmp (a b : EvictionCandidate) : comparison :=
  match score_cmp (score a) (score b) with
  | Eq =>
      match option_cmp (reverse_time b) (reverse_time a) with
      | Eq => candidate_id a ?= candidate_id b
      | c => c
      end
  | c => c
  end.

Definition candidate_lt (a b : EvictionCandidate) : Prop := candidate_cmp a b = Lt.
#[export] Instance candidate_lt_dec : RelDecision candidate_lt.
Proof. intros a b. unfold candidate_lt. solve_decision. Defined.

Record VerifiedSet := mkSet {
  transactions : gmap Hash VerifiedUnminedTx;
  eviction_order : list EvictionCandidate;
  transaction_dependencies : TransactionDependencies;
  created_outputs : gmap OutPoint Output;
  transactions_serialized_size : Z;
  total_cost : Z;
  metrics : MempoolMetrics;
  set_spent_outpoints : gset OutPoint;
  set_sprout_nullifiers : gset Z;
  set_sapling_nullifiers : gset Z;
  set_orchard_nullifiers : gset Z;
  set_ironwood_nullifiers : gset Z;
}.

Definition empty : VerifiedSet := mkSet ∅ [] Dependencies.empty ∅ 0 0 zero_metrics ∅ ∅ ∅ ∅ ∅.

Definition clear (self : VerifiedSet) : VerifiedSet :=
  mkSet ∅ [] (Dependencies.clear (transaction_dependencies self)) ∅ 0 0 zero_metrics ∅ ∅ ∅ ∅ ∅.

(** Field updates. *)
Definition with_order (self : VerifiedSet) (order : list EvictionCandidate) : VerifiedSet :=
  mkSet (transactions self) order (transaction_dependencies self) (created_outputs self)
    (transactions_serialized_size self) (total_cost self) (metrics self) (set_spent_outpoints self)
    (set_sprout_nullifiers self) (set_sapling_nullifiers self) (set_orchard_nullifiers self)
    (set_ironwood_nullifiers self).

Definition with_dependencies (self : VerifiedSet) (d : TransactionDependencies) : VerifiedSet :=
  mkSet (transactions self) (eviction_order self) d (created_outputs self)
    (transactions_serialized_size self) (total_cost self) (metrics self) (set_spent_outpoints self)
    (set_sprout_nullifiers self) (set_sapling_nullifiers self) (set_orchard_nullifiers self)
    (set_ironwood_nullifiers self).

Definition contains (self : VerifiedSet) (id : Hash) : bool := bool_decide (is_Some (transactions self !! id)).

(** [has_conflicts] *)
Definition has_conflicts {A} `{Countable A} (set : gset A) (l : list A) : bool :=
  existsb (fun item => bool_decide (item ∈ set)) l.

Definition has_spend_conflicts (self : VerifiedSet) (tx : Transaction) : bool :=
  has_conflicts (set_spent_outpoints self) (spent_outpoints tx) ||
  has_conflicts (set_sprout_nullifiers self) (sprout_nullifiers tx) ||
  has_conflicts (set_sapling_nullifiers self) (sapling_nullifiers tx) ||
  has_conflicts (set_orchard_nullifiers self) (orchard_nullifiers tx) ||
  has_conflicts (set_ironwood_nullifiers self) (ironwood_nullifiers tx).

(** [remove_from_set] *)
Definition remove_from_set {A} `{Countable A} (set : gset A) (items : list A) : gset A :=
  foldl (fun s item => s ∖ {[item]}) set items.

(** [HashSet::extend] *)
Definition extend {A} `{Countable A} (set : gset A) (items : list A) : gset A :=
  foldl (fun s item => {[item]} ∪ s) set items.

Section Operations.
Context {HO : HashOrder}.

(** ** Walks over the dependency graph

    A [Vec] used as a stack has its top first.  The fuel of each walk is bounded
    by the transactions of the set, since every edge joins two of them. *)

Definition neighbours (self : VerifiedSet) (tx_id : Hash) (pending : list Hash) : list Hash :=
  reverse (hash_iter (direct_dependents (transaction_dependencies self) tx_id)) ++
  reverse (hash_iter (direct_dependencies (transaction_dependencies self) tx_id)) ++ pending.

(** The [while] loop of [dependency_group]; at most two members are expanded. *)
Fixpoint group_loop {E} (fuel : nat) (self : VerifiedSet) (pending : list Hash) (group : gset Hash)
  : res E (gset Hash) :=
  match fuel with
  | O => Panic
  | S fuel =>
      match pending with
      | [] => Ok group
      | tx_id :: pending =>
          if decide (tx_id ∈ group) then group_loop fuel self pending group
          else
            let group := {[tx_id]} ∪ group in
            if MAX_MEMPOOL_PACKAGE_TRANSACTIONS <=? Z.of_nat (size group) then Ok group
            else group_loop fuel self (neighbours self tx_id pending) group
      end
  end.

Definition dependency_group {E} (self : VerifiedSet) (starts : list Hash) : res E (gset Hash) :=
  group_loop (S (length starts + 4 * size (transactions self))) self (reverse starts) ∅.

(** The [for] loop of [descendants]. *)
Fixpoint descend (self : VerifiedSet) (removed : gset Hash) (l : list Hash)
  (descendants : gset Hash) (pending : list Hash) : gset Hash * list Hash :=
  match l with
  | [] => (descendants, pending)
  | dependent :: l =>
      if negb (bool_decide (dependent ∈ removed)) && contains self dependent &&
         negb (bool_decide (dependent ∈ descendants))
      then descend self removed l ({[dependent]} ∪ descendants) (dependent :: pending)
      else descend self removed l descendants pending
  end.

Fixpoint descend_loop {E} (fuel : nat) (self : VerifiedSet) (removed : gset Hash)
  (pending : list Hash) (descendants : gset Hash) : res E (gset Hash) :=
  match fuel with
  | O => Panic
  | S fuel =>
      match pending with
      | [] => Ok descendants
      | tx_id :: pending =>
          let '(descendants, pending) :=
            descend self removed (hash_iter (direct_dependents (transaction_dependencies self) tx_id))
              descendants pending in
          descend_loop fuel self removed pending descendants
      end
  end.

Definition descendants {E} (self : VerifiedSet) (tx_id : Hash) (removed : gset Hash) : res E (gset Hash) :=
  descend_loop (S (S (size (transactions self)))) self removed [tx_id] ∅.

(** The [while] loop of [ancestors]; at most three members are expanded. *)
Fixpoint ancestor_loop {E} (fuel : nat) (self : VerifiedSet) (pending : list Hash) (ancestors : gset Hash)
  : res E (gset Hash) :=
  match fuel with
  | O => Panic
  | S fuel =>
      match pending with
      | [] => Ok ancestors
      | tx_id :: pending =>
          if MAX_MEMPOOL_ANCESTORS <? Z.of_nat (size ancestors) then Ok ancestors
          else if decide (tx_id ∈ ancestors) then ancestor_loop fuel self pending ancestors
          else
            ancestor_loop fuel self
              (reverse (hash_iter (direct_dependencies (transaction_dependencies self) tx_id)) ++ pending)
              ({[tx_id]} ∪ ancestors)
      end
  end.

Definition ancestors {E} (self : VerifiedSet) (parents : list Hash) : res E (gset Hash) :=
  ancestor_loop (S (length parents + 3 * size (transactions self))) self (reverse parents) ∅.

(** ** Scores *)

(** [self.transactions[id]] *)
Definition index {E} (self : VerifiedSet) (id : Hash) : res E VerifiedUnminedTx :=
  expect (transactions self !! id).

Definition eviction_cost {E} (tx : VerifiedUnminedTx) : res E EvictionCost.EvictionCost :=
  let? fee := tx_fee tx in
  let? cost := tx_cost tx in
  EvictionCost.new fee cost.

(** [ids.iter().map(|id| eviction_cost(&self.transactions[id])).fold(init, combine)] *)
Fixpoint fold_costs {E} (self : VerifiedSet) (ids : list Hash) (acc : EvictionCost.EvictionCost)
  : res E EvictionCost.EvictionCost :=
  match ids with
  | [] => Ok acc
  | id :: ids =>
      let? tx := index self id in
      let? c := eviction_cost tx in
      fold_costs self ids (EvictionCost.combine acc c)
  end.

Definition package {E} (self : VerifiedSet) (tx_id : Hash) (removed : gset Hash)
  : res E EvictionCost.EvictionCost :=
  let? ds := descendants self tx_id removed in
  let? tx := index self tx_id in
  let? init := eviction_cost tx in
  fold_costs self (hash_iter ds) init.

(** [Ord::max] prefers its second argument, [Ord::min] its first. *)
Definition cost_max (a b : EvictionCost.EvictionCost) : EvictionCost.EvictionCost :=
  match score_cmp a b with Gt => a | _ => b end.
Definition cost_min (a b : EvictionCost.EvictionCost) : EvictionCost.EvictionCost :=
  match score_cmp a b with Gt => b | _ => a end.

Definition package_score {E} (self : VerifiedSet) (tx_id : Hash) (removed : gset Hash)
  : res E EvictionCost.EvictionCost :=
  let? tx := index self tx_id in
  let? own := eviction_cost tx in
  let? package := package self tx_id removed in
  Ok (cost_max own package).

Definition eviction_candidate {E} (self : VerifiedSet) (id : Hash) (removed : gset Hash)
  : res E EvictionCandidate :=
  let? score := package_score self id removed in
  let? tx := index self id in
  Ok (mkCandidate score (tx_time tx) id).

(** The loop of [remove_eviction_candidates]; it changes [eviction_order] alone. *)
Fixpoint remove_candidates {E} (self : VerifiedSet) (ids : list Hash) (order : list EvictionCandidate)
  : res E (list EvictionCandidate) :=
  match ids with
  | [] => Ok order
  | id :: ids =>
      let? candidate := eviction_candidate self id ∅ in
      let? _ := rust_assert (bs_contains candidate_lt candidate order) in
      remove_candidates self ids (bs_remove candidate_lt candidate order)
  end.

Definition remove_eviction_candidates {E} (self : VerifiedSet) (group : gset Hash) : res E VerifiedSet :=
  let? order := remove_candidates self (hash_iter group) (eviction_order self) in
  Ok (with_order self order).

Fixpoint insert_candidates {E} (self : VerifiedSet) (ids : list Hash) (order : list EvictionCandidate)
  : res E (list EvictionCandidate) :=
  match ids with
  | [] => Ok order
  | id :: ids =>
      if contains self id then
        let? candidate := eviction_candidate self id ∅ in
        let? _ := rust_assert (negb (bs_contains candidate_lt candidate order)) in
        insert_candidates self ids (bs_insert candidate_lt candidate order)
      else insert_candidates self ids order
  end.

Definition insert_eviction_candidates {E} (self : VerifiedSet) (group : gset Hash) : res E VerifiedSet :=
  let? order := insert_candidates self (hash_iter group) (eviction_order self) in
  Ok (with_order self order).

(** ** Insertion *)

Inductive SameEffectsTipRejectionError :=
| SpendConflict
| MissingOutput
| TooManyAncestors
| TooManyPackageTransactions.

Definition check_insert (self : VerifiedSet) (tx : Transaction) (spent_mempool_outpoints : list OutPoint)
  : res SameEffectsTipRejectionError (gset Hash) :=
  if has_spend_conflicts self tx then Err SpendConflict
  else if negb (forallb (fun o => bool_decide (is_Some (created_outputs self !! o))) spent_mempool_outpoints)
  then Err MissingOutput
  else
    let parents : gset Hash := list_to_set (op_hash <$> spent_mempool_outpoints) in
    let? ancestors := ancestors self (hash_iter parents) in
    if MAX_MEMPOOL_ANCESTORS <? Z.of_nat (size ancestors) then Err TooManyAncestors
    else
      let? group := dependency_group self (hash_iter ancestors) in
      if MAX_MEMPOOL_PACKAGE_TRANSACTIONS <=? Z.of_nat (size group) then Err TooManyPackageTransactions
      else Ok ancestors.

(** The loop over the outputs of the inserted transaction. *)
Fixpoint create_outputs {E} (tx_id : Hash) (index : Z) (l : list Output)
  (created : gmap OutPoint Output) (pending_outputs : PendingOutputs.PendingOutputs)
  : res E (gmap OutPoint Output * PendingOutputs.PendingOutputs) :=
  match l with
  | [] => Ok (created, pending_outputs)
  | output :: l =>
      let? outpoint := from_usize tx_id index in
      create_outputs tx_id (index + 1) l (<[outpoint := output]> created)
        (PendingOutputs.respond pending_outputs outpoint output)
  end.

Definition insert (self : VerifiedSet) (tx : VerifiedUnminedTx) (spent_mempool_outpoints : list OutPoint)
  (pending_outputs : PendingOutputs.PendingOutputs) (height : option Z) (now : Z)
  : res SameEffectsTipRejectionError (VerifiedSet * PendingOutputs.PendingOutputs) :=
  let t := transaction tx in
  let? ancestors := check_insert self t spent_mempool_outpoints in
  let? affected := dependency_group self (hash_iter ancestors) in
  let? self := remove_eviction_candidates self affected in
  let tx_id := mined_id (unmined_id tx) in
  let dependencies := Dependencies.add (transaction_dependencies self) tx_id spent_mempool_outpoints in
  let? (created, pending_outputs) := create_outputs tx_id 0 (outputs t) (created_outputs self) pending_outputs in
  let? serialized_size := uint_arith 64 (transactions_serialized_size self + tx_size tx) in
  let? cost := tx_cost tx in
  let? total := uint_arith 64 (total_cost self + cost) in
  let tx := mkVerified (unmined_id tx) t (fees tx) (fee_weight_ratio tx) (Some now) height (spent_outputs tx) in
  let? metrics := add_transaction (metrics self) tx in
  let self :=
    mkSet (<[tx_id := tx]> (transactions self)) (eviction_order self) dependencies created
      serialized_size total metrics
      (extend (set_spent_outpoints self) (spent_outpoints t))
      (extend (set_sprout_nullifiers self) (sprout_nullifiers t))
      (extend (set_sapling_nullifiers self) (sapling_nullifiers t))
      (extend (set_orchard_nullifiers self) (orchard_nullifiers t))
      (extend (set_ironwood_nullifiers self) (ironwood_nullifiers t)) in
  let? group := dependency_group self [tx_id] in
  let? self := insert_eviction_candidates self group in
  Ok (self, pending_outputs).

(** ** Removal *)

(** The dependency groups of the mined transactions that are in the set. *)
Fixpoint mined_groups {E} (self : VerifiedSet) (ids : list Hash) (affected : gset Hash)
  : res E (gset Hash) :=
  match ids with
  | [] => Ok affected
  | id :: ids =>
      if contains self id then
        let? group := dependency_group self [id] in mined_groups self ids (affected ∪ group)
      else mined_groups self ids affected
  end.

Definition clear_mined_dependencies {E} (self : VerifiedSet) (mined_ids : gset Hash) : res E VerifiedSet :=
  let? affected := mined_groups self (hash_iter mined_ids) ∅ in
  let? self := remove_eviction_candidates self affected in
  let self :=
    with_dependencies self (Dependencies.clear_mined_dependencies (transaction_dependencies self) mined_ids) in
  insert_eviction_candidates self affected.

(** The loop of [remove_outputs] over the [n] output indexes from [index] on. *)
Fixpoint delete_outputs {E} (tx_id : Hash) (index : Z) (n : nat) (created : gmap OutPoint Output)
  : res E (gmap OutPoint Output) :=
  match n with
  | O => Ok created
  | S n =>
      let? outpoint := from_usize tx_id index in
      delete_outputs tx_id (index + 1) n (delete outpoint created)
  end.

(** One key of [remove]: the transaction leaves the set, its totals and caches. *)
Definition remove_one {E} (self : VerifiedSet) (key_to_remove : Hash)
  : res E (VerifiedSet * option VerifiedUnminedTx) :=
  match transactions self !! key_to_remove with
  | None => Ok (self, None)
  | Some tx =>
      let t := transaction tx in
      let? serialized_size := uint_arith 64 (transactions_serialized_size self - tx_size tx) in
      let? cost := tx_cost tx in
      let? total := uint_arith 64 (total_cost self - cost) in
      let? metrics := remove_transaction (metrics self) tx in
      let? created :=
        delete_outputs (mined_id (unmined_id tx)) 0 (length (outputs t)) (created_outputs self) in
      Ok (mkSet (delete key_to_remove (transactions self)) (eviction_order self)
            (transaction_dependencies self) created serialized_size total metrics
            (remove_from_set (set_spent_outpoints self) (spent_outpoints t))
            (remove_from_set (set_sprout_nullifiers self) (sprout_nullifiers t))
            (remove_from_set (set_sapling_nullifiers self) (sapling_nullifiers t))
            (remove_from_set (set_orchard_nullifiers self) (orchard_nullifiers t))
            (remove_from_set (set_ironwood_nullifiers self) (ironwood_nullifiers t)),
          Some tx)
  end.

Fixpoint remove_keys {E} (self : VerifiedSet) (keys : list Hash) (removed : list VerifiedUnminedTx)
  : res E (VerifiedSet * list VerifiedUnminedTx) :=
  match keys with
  | [] => Ok (self, removed)
  | key :: keys =>
      let? (self, tx) := remove_one self key in
      remove_keys self keys (removed ++ option_list tx)
  end.

Definition remove {E} (self : VerifiedSet) (key_to_remove : Hash)
  : res E (VerifiedSet * list VerifiedUnminedTx) :=
  let? affected := dependency_group self [key_to_remove] in
  let? self := remove_eviction_candidates self affected in
  let? (d, all) := Dependencies.remove_all (transaction_dependencies self) key_to_remove in
  let? (self, removed) := remove_keys (with_dependencies self d) (hash_iter all ++ [key_to_remove]) [] in
  let? self := insert_eviction_candidates self affected in
  Ok (self, removed).

Fixpoint remove_all {E} (self : VerifiedSet) (tx_ids : list Hash) (removed : gset UnminedTxId)
  : res E (VerifiedSet * gset UnminedTxId) :=
  match tx_ids with
  | [] => Ok (self, removed)
  | key_to_remove :: tx_ids =>
      if contains self key_to_remove then
        let? (self, txs) := remove self key_to_remove in
        remove_all self tx_ids (extend removed (unmined_id <$> txs))
      else remove_all self tx_ids removed
  end.

(** ** Choosing what to evict *)

Record EvictionVictims := mkVictims {
  roots : option (list Hash);
  cheapest : option EvictionCost.EvictionCost;
}.

(** The inner [while] loop: candidates of changed or unavailable transactions
    are skipped. *)
Fixpoint skip_candidates (unavailable changed : gset Hash) (candidates : list EvictionCandidate)
  : list EvictionCandidate :=
  match candidates with
  | c :: rest =>
      if bool_decide (candidate_id c ∈ unavailable) || bool_decide (candidate_id c ∈ changed)
      then skip_candidates unavailable changed rest
      else candidates
  | [] => []
  end.

(** The [match] on the two heads: the candidate, and what is left of both. *)
Definition next_candidate (candidates updated : list EvictionCandidate)
  : option (EvictionCandidate * list EvictionCandidate * list EvictionCandidate) :=
  match candidates, updated with
  | original :: candidates', local :: updated' =>
      match candidate_cmp original local with
      | Gt => Some (local, candidates, updated')
      | _ => Some (original, candidates', updated)
      end
  | [], local :: updated' => Some (local, [], updated')
  | original :: candidates', [] => Some (original, candidates', [])
  | [], [] => None
  end.

(** Removing the earlier local scores of a group. *)
Fixpoint drop_local {E} (self : VerifiedSet) (unavailable changed : gset Hash) (group : list Hash)
  (updated : list EvictionCandidate) : res E (list EvictionCandidate) :=
  match group with
  | [] => Ok updated
  | id :: group =>
      if bool_decide (id ∈ changed) && negb (bool_decide (id ∈ unavailable)) then
        let? c := eviction_candidate self id unavailable in
        drop_local self unavailable changed group (bs_remove candidate_lt c updated)
      else drop_local self unavailable changed group updated
  end.

(** [updated.extend(..)]: the new local scores of the group's remaining members *)
Fixpoint add_local {E} (self : VerifiedSet) (unavailable : gset Hash) (group : list Hash)
  (updated : list EvictionCandidate) : res E (list EvictionCandidate) :=
  match group with
  | [] => Ok updated
  | id :: group =>
      if bool_decide (id ∈ unavailable) then add_local self unavailable group updated
      else
        let? c := eviction_candidate self id unavailable in
        add_local self unavailable group (bs_insert candidate_lt c updated)
  end.

(** The outer [while] loop.  Every round makes a transaction of the set
    unavailable. *)
Fixpoint select_loop {E} (fuel : nat) (self : VerifiedSet) (incoming : EvictionCost.EvictionCost)
  (needed : Z) (unavailable changed : gset Hash) (updated candidates : list EvictionCandidate)
  (cheapest : option EvictionCost.EvictionCost) (roots : list Hash) (freed : Z) : res E EvictionVictims :=
  if freed <? needed then
    match fuel with
    | O => Panic
    | S fuel =>
        let candidates := skip_candidates unavailable changed candidates in
        match next_candidate candidates updated with
        | None => Ok (mkVictims None cheapest)
        | Some (c, candidates, updated) =>
            let cheapest := Some (default (score c) cheapest) in
            if negb (EvictionCost.exceeds_by_increment incoming (score c)) then
              Ok (mkVictims None cheapest)
            else
              let root := candidate_id c in
              let roots := roots ++ [root] in
              let? p := package self root unavailable in
              let? freed := uint_arith 64 (freed + EvictionCost.cost p) in
              if needed <=? freed then Ok (mkVictims (Some roots) cheapest)
              else
                let? group := dependency_group self [root] in
                let? updated := drop_local self unavailable changed (hash_iter group) updated in
                let? removed := descendants self root unavailable in
                let unavailable := unavailable ∪ ({[root]} ∪ removed) in
                let changed := changed ∪ group in
                let? updated := add_local self unavailable (hash_iter group) updated in
                select_loop fuel self incoming needed unavailable changed updated candidates cheapest roots
                  freed
        end
    end
  else Ok (mkVictims (Some roots) cheapest).

Definition select_eviction_victims {E} (self : VerifiedSet) (incoming : VerifiedUnminedTx)
  (incoming_ancestors : gset Hash) (tx_cost_limit : Z) : res E EvictionVictims :=
  let? cost := tx_cost incoming in
  let needed := Z.max 0 (Z.min u64_max (total_cost self + cost) - tx_cost_limit) in
  let? incoming := eviction_cost incoming in
  let? incoming_package := fold_costs self (hash_iter incoming_ancestors) incoming in
  let incoming := cost_min incoming incoming_package in
  select_loop (S (size (transactions self))) self incoming needed incoming_ancestors ∅ []
    (eviction_order self) None [] 0.
End Operations.
End VerifiedSet.
