(* ===== verification/VerifiedGraph.v ===== *)
(** * Walks over the mempool dependency graph

    The graph invariant of the verified set, and what its bounded walks find:
    [dependency_group] the connected component, [descendants] the transitive
    dependents that remain, [ancestors] the transitive dependencies.  Each walk
    ends within its fuel, in whatever order the hash sets are visited. *)

From stdpp Require Import base numbers list option gmap sets relations.
From Stdlib Require Import ZArith Lia.
From S2P Require Import Prelude BSet EvictionCost HashIter Dependencies MempoolTx VerifiedSet.
Local Open Scope Z_scope.

Module VerifiedGraph.
Import MempoolTx Dependencies VerifiedSet.

Implicit Types (s : VerifiedSet) (d : TransactionDependencies) (x y p c : Hash) (g : gset Hash).

Notation deps := transaction_dependencies.
Notation ids s := (dom (transactions s)).

(** [x] and [y] are parent and child, in either direction. *)
Definition linked d x y : Prop := child d x y \/ child d y x.

(** No edge leaves [g]. *)
Definition closed d g : Prop := forall p c, child d p c -> p ∈ g <-> c ∈ g.

Record graph_wf s : Prop := {
  g_deps : deps_wf (deps s);
  g_edges : forall p c, child (deps s) p c -> p ∈ ids s /\ c ∈ ids s;
  g_acyclic : forall x, ~ tc (child (deps s)) x x;
  g_bounded : forall x, x ∈ ids s -> exists g, x ∈ g /\ closed (deps s) g /\ (size g <= 3)%nat;
}.

Lemma tc_subrel {A} (R R' : relation A) u v : (forall u v, R u v -> R' u v) -> tc R u v -> tc R' u v.
Proof. intros HR. apply (tc_congruence (R := R) (fun z => z)). apply HR. Qed.

Lemma linked_sym d x y : linked d x y -> linked d y x.
Proof. unfold linked. tauto. Qed.

Lemma closed_linked d g x y : closed d g -> linked d x y -> x ∈ g -> y ∈ g.
Proof. intros Hc [H|H] Hx; by apply (Hc _ _ H). Qed.

Lemma closed_component d g x y : closed d g -> rtc (linked d) x y -> x ∈ g -> y ∈ g.
Proof. intros Hc. induction 1 as [|x y z Hxy _ IH]; [done|]. intros Hx. by apply IH, (closed_linked d g x). Qed.

Lemma closed_tc d g x y : closed d g -> tc (child d) x y -> x ∈ g <-> y ∈ g.
Proof. intros Hc. induction 1 as [x y H|x y z H _ IH]; [by apply Hc|]. by rewrite (Hc x y). Qed.

Lemma closed_union d g g' : closed d g -> closed d g' -> closed d (g ∪ g').
Proof. intros H H' p c Hpc. rewrite !elem_of_union, (H p c), (H' p c) by done. done. Qed.

(** A subset with three members of a set with at most three is all of it. *)
Lemma size_full g g' : g ⊆ g' -> (size g' <= size g)%nat -> g = g'.
Proof. intros Hs Hz. apply set_eq. apply set_subseteq_size_eq in Hz; [|done]. set_solver. Qed.

Lemma size_insert_new x g : x ∉ g -> size ({[x]} ∪ g) = S (size g).
Proof. intros Hx. rewrite size_union by set_solver. by rewrite size_singleton. Qed.

Section Walks.
Context {HO : HashOrder}.

Lemma elem_of_rev_iter (t : gset Hash) x : x ∈ reverse (hash_iter t) <-> x ∈ t.
Proof. by rewrite elem_of_reverse, elem_of_hash_iter. Qed.

Lemma elem_of_neighbours s x pending y :
  deps_wf (deps s) -> y ∈ neighbours s x pending <-> linked (deps s) x y \/ y ∈ pending.
Proof.
  intros Hwf. unfold neighbours. rewrite !elem_of_app, !elem_of_rev_iter.
  assert (Hp : y ∈ direct_dependencies (deps s) x <-> child (deps s) y x) by (symmetry; apply (wf_converse _ Hwf)).
  rewrite Hp. unfold linked, child at 1. tauto.
Qed.

Lemma direct_dependents_size s x : graph_wf s -> (size (direct_dependents (deps s) x) <= size (transactions s))%nat.
Proof.
  intros Hwf. rewrite <- size_dom. apply subseteq_size. intros c Hc. by apply (g_edges s Hwf x c).
Qed.

Lemma direct_dependencies_size s x : graph_wf s -> (size (direct_dependencies (deps s) x) <= size (transactions s))%nat.
Proof.
  intros Hwf. rewrite <- size_dom. apply subseteq_size. intros p Hp.
  apply (g_edges s Hwf p x). by apply (wf_converse _ (g_deps s Hwf)).
Qed.

Lemma length_neighbours s x pending :
  graph_wf s -> (length (neighbours s x pending) <= length pending + 2 * size (transactions s))%nat.
Proof.
  intros Hwf. unfold neighbours. rewrite !length_app, !length_reverse, !length_hash_iter.
  pose proof (direct_dependents_size s x Hwf). pose proof (direct_dependencies_size s x Hwf). lia.
Qed.

(** ** Connected groups *)

Lemma group_loop_spec {E} s (R : Hash -> Prop) :
  graph_wf s -> (forall x y, R x -> linked (deps s) x y -> R y) ->
  forall fuel pending g,
  (forall x, x ∈ pending -> R x) -> (forall x, x ∈ g -> R x) -> (size g <= 2)%nat ->
  (forall x y, x ∈ g -> linked (deps s) x y -> y ∈ g \/ y ∈ pending) ->
  (length pending + (2 - size g) * (2 * size (transactions s)) < fuel)%nat ->
  exists g', group_loop (E := E) fuel s pending g = Ok g' /\ g ⊆ g' /\ (forall x, x ∈ g' -> R x) /\
    (size g' <= 3)%nat /\ (forall x, head pending = Some x -> x ∈ g') /\
    ((size g' < 3)%nat -> (forall x, x ∈ pending -> x ∈ g') /\ closed (deps s) g').
Proof.
  intros Hwf HR. pose proof (g_deps s Hwf) as Hd.
  induction fuel as [|fuel IH]; intros pending g HRp HRg Hsz Hcl Hf;
    [by apply Nat.nlt_0_r in Hf|]. cbn [group_loop].
  destruct pending as [|x pending].
  { exists g. split; [done|]. split; [done|]. split; [done|]. split; [lia|]. split; [done|]. intros _.
    split; [intros y Hy; by apply elem_of_nil in Hy|]. intros p c Hpc.
    split; intros Hin; [destruct (Hcl p c Hin ltac:(by left)) as [|Hn%elem_of_nil]|
      destruct (Hcl c p Hin ltac:(by right)) as [|Hn%elem_of_nil]]; done. }
  assert (HRx : R x) by (apply HRp; by left).
  destruct (decide (x ∈ g)) as [Hx|Hx].
  - destruct (IH pending g) as (g' & Hg' & Hsub & HR' & Hs3 & _ & Hdone); try done.
    + intros y Hy. apply HRp. by right.
    + intros y z Hy Hyz. destruct (Hcl y z Hy Hyz) as [?|[->|?]%elem_of_cons]; auto.
    + cbn in Hf. lia.
    + exists g'. split; [done|]. split; [done|]. split; [done|]. split; [done|]. split.
      * intros y [= <-]. by apply Hsub.
      * intros H3. destruct (Hdone H3) as [Hp Hc]. split; [|done].
        intros y [->|Hy]%elem_of_cons; [by apply Hsub|by apply Hp].
  - pose proof (size_insert_new x g Hx) as Hsx.
    assert (HRgx : forall y, y ∈ {[x]} ∪ g -> R y) by set_solver.
    unfold MAX_MEMPOOL_PACKAGE_TRANSACTIONS.
    destruct (Z.leb_spec 3 (Z.of_nat (size ({[x]} ∪ g)))) as [H3|H3].
    { exists ({[x]} ∪ g). split; [done|]. split; [set_solver|]. split; [done|]. split; [lia|].
      split; [intros y [= <-]; set_solver|lia]. }
    destruct (IH (neighbours s x pending) ({[x]} ∪ g)) as (g' & Hg' & Hsub & HR' & Hs3 & _ & Hdone); try done.
    + intros y [Hxy|Hy]%elem_of_neighbours; [by apply (HR x)|apply HRp; by right|done].
    + lia.
    + intros y z Hy Hyz. rewrite elem_of_neighbours by done.
      apply elem_of_union in Hy as [->%elem_of_singleton|Hy]; [by right; left|].
      destruct (Hcl y z Hy Hyz) as [?|[->|?]%elem_of_cons]; [left; set_solver|left; set_solver|by right; right].
    + pose proof (length_neighbours s x pending Hwf). cbn [length] in Hf. nia.
    + exists g'. split; [done|]. split; [set_solver|]. split; [done|]. split; [done|].
      split; [intros y [= <-]; apply Hsub; set_solver|]. intros Hlt. destruct (Hdone Hlt) as [Hp Hc].
      split; [|done]. intros y [->|Hy]%elem_of_cons; [apply Hsub; set_solver|].
      apply Hp. rewrite elem_of_neighbours by done. by right.
Qed.

(** The transactions connected to one of [starts]. *)
Definition component_of d (starts : list Hash) (g : gset Hash) : Prop :=
  forall y, y ∈ g <-> exists x, x ∈ starts /\ rtc (linked d) x y.

Lemma dependency_group_spec {E} s starts :
  graph_wf s ->
  exists g, dependency_group (E := E) s starts = Ok g /\
    ((size g < 3)%nat -> component_of (deps s) starts g) /\
    (forall x, x ∈ g -> exists x0, x0 ∈ starts /\ rtc (linked (deps s)) x0 x) /\ (size g <= 3)%nat.
Proof.
  intros Hwf. set (R y := exists x0, x0 ∈ starts /\ rtc (linked (deps s)) x0 y).
  destruct (group_loop_spec (E := E) s R Hwf) with (fuel := S (length starts + 4 * size (transactions s)))
    (pending := reverse starts) (g := (∅ : gset Hash)) as (g & Hg & _ & HR & Hsz & _ & Hdone).
  - intros x y (x0 & Hx0 & Hx) Hxy. exists x0. split; [done|]. by eapply rtc_r.
  - intros x Hx. exists x. split; [|done]. by apply elem_of_reverse.
  - set_solver.
  - rewrite size_empty. lia.
  - set_solver.
  - rewrite length_reverse, size_empty. lia.
  - exists g. split; [done|]. split; [|done]. intros H3. destruct (Hdone H3) as [Hin Hcl]. intros y.
    split; [apply HR|]. intros (x & Hx & Hxy). apply (closed_component _ _ x y Hcl Hxy), Hin.
    by apply elem_of_reverse.
Qed.

Lemma component_closed d starts g : component_of d starts g -> closed d g.
Proof.
  intros Hg p c Hpc. rewrite (Hg p), (Hg c). split; intros (x & Hx & Hr); exists x; (split; [done|]);
    (eapply rtc_r; [exact Hr|]); [by left|by right].
Qed.

Lemma component_start d starts g x : component_of d starts g -> x ∈ starts -> x ∈ g.
Proof. intros Hg Hx. apply Hg. by exists x. Qed.

Lemma component_size d starts g (c : gset Hash) :
  component_of d starts g -> closed d c -> (forall x, x ∈ starts -> x ∈ c) -> g ⊆ c.
Proof.
  intros Hg Hc Hs y. rewrite (Hg y). intros (x & Hx & Hxy). apply (closed_component d c x y Hc Hxy). by apply Hs.
Qed.

(** The group of a transaction of the set is its whole component. *)
Lemma dependency_group_one {E} s x :
  graph_wf s -> x ∈ ids s ->
  exists g, dependency_group (E := E) s [x] = Ok g /\ component_of (deps s) [x] g /\ (size g <= 3)%nat.
Proof.
  intros Hwf Hx. destruct (dependency_group_spec (E := E) s [x] Hwf) as (g & Hg & Hlt & HR & Hsz).
  exists g. split; [done|]. split; [|done]. destruct (decide (size g < 3)%nat) as [H3|H3]; [by apply Hlt|].
  destruct (g_bounded s Hwf x Hx) as (c & Hxc & Hc & Hc3).
  assert (Hgc : g = c).
  { apply size_full; [|lia]. intros y (x0 & ->%list_elem_of_singleton & Hy)%HR.
    by apply (closed_component (deps s) c x y). }
  subst g. intros y. split; [apply HR|]. intros (x0 & ->%list_elem_of_singleton & Hy).
  by apply (closed_component (deps s) c x y).
Qed.

(** ** Descendants *)

(** [y] spends [x] and remains in the set. *)
Definition remains s (removed : gset Hash) (y : Hash) : Prop := y ∉ removed /\ y ∈ ids s.
Definition spends s (removed : gset Hash) x y : Prop := child (deps s) x y /\ remains s removed y.

Lemma contains_spec s x : contains s x = true <-> x ∈ ids s.
Proof. unfold contains. by rewrite bool_decide_eq_true, elem_of_dom. Qed.

Lemma descend_spec s removed l : forall ds pending ds' pending',
  descend s removed l ds pending = (ds', pending') ->
  (forall y, y ∈ ds' <-> y ∈ ds \/ (y ∈ l /\ remains s removed y)) /\
  (forall y, y ∈ pending' <-> y ∈ pending \/ (y ∈ ds' /\ y ∉ ds)) /\
  (length pending' + size ds = length pending + size ds')%nat.
Proof.
  induction l as [|x l IH]; intros ds pending ds' pending' Heq; cbn [descend] in Heq.
  { injection Heq as <- <-. split; [intros y; pose proof (not_elem_of_nil y); tauto|]. split; [tauto|lia]. }
  destruct (negb _ && _ && _) eqn:Hb.
  - rewrite !andb_true_iff, !negb_true_iff, !bool_decide_eq_false, contains_spec in Hb.
    destruct Hb as [[Hr Hx] Hd]. apply IH in Heq as (H1 & H2 & H3). split; [|split].
    + intros y. rewrite H1, elem_of_union, elem_of_singleton, elem_of_cons. unfold remains. naive_solver.
    + intros y. rewrite H2, elem_of_cons, not_elem_of_union, not_elem_of_singleton.
      assert (x ∈ ds') by (apply H1; left; set_solver). destruct (decide (y = x)) as [->|]; tauto.
    + rewrite (size_insert_new x ds Hd) in H3. cbn [length] in H3. lia.
  - apply IH in Heq as (H1 & H2 & H3). split; [|by split].
    intros y. rewrite H1, elem_of_cons. split; [tauto|]. intros [?|[[->|?] Hrem]]; [by left| |by right].
    left. destruct Hrem as [Hr Hin]. apply not_true_iff_false in Hb.
    rewrite !andb_true_iff, !negb_true_iff, !bool_decide_eq_false, contains_spec in Hb.
    destruct (decide (x ∈ ds)); [done|tauto].
Qed.

Lemma descend_loop_spec {E} s removed x0 : forall fuel pending ds,
  graph_wf s -> (forall y, y ∈ pending -> y = x0 \/ y ∈ ds) ->
  (forall y, y ∈ ds -> tc (spends s removed) x0 y) ->
  (forall x y, x = x0 \/ x ∈ ds -> x ∉ pending -> spends s removed x y -> y ∈ ds) ->
  (length pending + (size (transactions s) - size ds) < fuel)%nat ->
  exists ds', descend_loop (E := E) fuel s removed pending ds = Ok ds' /\
    (forall y, y ∈ ds' <-> tc (spends s removed) x0 y).
Proof.
  induction fuel as [|fuel IH]; intros pending ds Hwf Hp Hds Hcl Hf; [lia|]. cbn [descend_loop].
  destruct pending as [|x pending].
  { exists ds. split; [done|]. intros y. split; [apply Hds|]. revert y. apply tc_ind_r.
    - intros y Hy. apply (Hcl x0); [by left|apply not_elem_of_nil|done].
    - intros y z _ Hyz Hy. apply (Hcl y); [by right|apply not_elem_of_nil|done]. }
  destruct (descend s removed _ ds pending) as [ds' pending'] eqn:Hd.
  apply descend_spec in Hd as (H1 & H2 & H3). setoid_rewrite elem_of_hash_iter in H1.
  assert (Hx : x = x0 \/ x ∈ ds) by (apply Hp; by left).
  assert (Hds' : forall y, y ∈ ds' -> tc (spends s removed) x0 y).
  { intros y [Hy|[Hy Hrem]]%H1; [by apply Hds|].
    destruct Hx as [->|Hx]; [by apply tc_once|by eapply tc_r; [apply Hds|]]. }
  apply IH; [done|..|done| |].
  - intros y [Hy|[Hy _]]%H2; [|by right]. destruct (Hp y) as [?|?]; [by right|by left|right; apply H1; by left].
  - intros y z Hy Hnp Hyz. apply H1. destruct (decide (y = x)) as [->|Hne]; [right; by destruct Hyz|].
    left. destruct (decide (y = x0 \/ y ∈ ds)) as [Hin|Hin].
    + apply (Hcl y); [done| |done]. intros [->|Hin']%elem_of_cons; [done|]. apply Hnp, H2. by left.
    + destruct Hnp. apply H2. right. destruct Hy as [->|Hy]; [tauto|]. split; [done|tauto].
  - assert (Hle : (size ds' <= size (transactions s))%nat).
    { rewrite <- size_dom. apply subseteq_size. intros z Hz%Hds'.
      revert z Hz. apply tc_ind_r; [intros w [_ [_ ?]]; done|intros w v _ [_ [_ ?]] _; done]. }
    cbn [length] in Hf. lia.
Qed.

Lemma descendants_spec {E} s x removed :
  graph_wf s ->
  exists ds, descendants (E := E) s x removed = Ok ds /\ forall y, y ∈ ds <-> tc (spends s removed) x y.
Proof.
  intros Hwf. unfold descendants. apply descend_loop_spec; [done|..].
  - intros y ->%list_elem_of_singleton. by left.
  - set_solver.
  - intros z y [->|Hz] Hn; [|set_solver]. destruct Hn. by left.
  - rewrite size_empty. cbn [length]. lia.
Qed.

(** ** Ancestors *)

Lemma ancestor_loop_spec {E} s (R : Hash -> Prop) :
  graph_wf s -> (forall x p, R x -> child (deps s) p x -> R p) ->
  forall fuel pending a,
  (forall x, x ∈ pending -> R x) -> (forall x, x ∈ a -> R x) -> (size a <= 3)%nat ->
  (forall x p, x ∈ a -> child (deps s) p x -> p ∈ a \/ p ∈ pending) ->
  (length pending + (3 - size a) * size (transactions s) < fuel)%nat ->
  exists a', ancestor_loop (E := E) fuel s pending a = Ok a' /\ (forall x, x ∈ a' -> R x) /\
    (size a' <= 3)%nat /\ a ⊆ a' /\
    ((size a' <= 2)%nat -> (forall x, x ∈ pending -> x ∈ a') /\
       forall x p, x ∈ a' -> child (deps s) p x -> p ∈ a').
Proof.
  intros Hwf HR. pose proof (g_deps s Hwf) as Hd.
  induction fuel as [|fuel IH]; intros pending a HRp HRa Hsz Hcl Hf; [by apply Nat.nlt_0_r in Hf|].
  cbn [ancestor_loop]. destruct pending as [|x pending].
  { exists a. split; [done|]. split; [done|]. split; [done|]. split; [done|]. intros _.
    split; [intros y Hy; by apply elem_of_nil in Hy|]. intros y p Hy Hpy.
    destruct (Hcl y p Hy Hpy) as [?|Hn%elem_of_nil]; done. }
  change MAX_MEMPOOL_ANCESTORS with 2. destruct (Z.ltb_spec 2 (Z.of_nat (size a))) as [H2|H2].
  { exists a. repeat (split; [done|]). lia. }
  assert (HRx : R x) by (apply HRp; by left).
  destruct (decide (x ∈ a)) as [Hx|Hx].
  - destruct (IH pending a) as (a' & Ha' & HR' & Hs3 & Hsub & Hdone); try done.
    + intros y Hy. apply HRp. by right.
    + intros y p Hy Hpy. destruct (Hcl y p Hy Hpy) as [?|[->|?]%elem_of_cons]; auto.
    + cbn [length] in Hf. lia.
    + exists a'. repeat (split; [done|]). intros Hle. destruct (Hdone Hle) as [Hp Hc]. split; [|done].
      intros y [->|Hy]%elem_of_cons; [by apply Hsub|by apply Hp].
  - pose proof (size_insert_new x a Hx) as Hsx.
    assert (Hin : forall y pend, y ∈ reverse (hash_iter (direct_dependencies (deps s) x)) ++ pend <->
      child (deps s) y x \/ y ∈ pend).
    { intros y pend. rewrite elem_of_app, elem_of_rev_iter. by rewrite (wf_converse _ Hd). }
    destruct (IH (reverse (hash_iter (direct_dependencies (deps s) x)) ++ pending) ({[x]} ∪ a))
      as (a' & Ha' & HR' & Hs3 & Hsub & Hdone).
    + intros y [Hy|Hy]%Hin; [by apply (HR x)|apply HRp; by right].
    + set_solver.
    + lia.
    + intros y p Hy Hpy. rewrite Hin. apply elem_of_union in Hy as [->%elem_of_singleton|Hy]; [by right; left|].
      destruct (Hcl y p Hy Hpy) as [?|[->|?]%elem_of_cons]; [left; set_solver|left; set_solver|by right; right].
    + rewrite length_app, length_reverse, length_hash_iter. pose proof (direct_dependencies_size s x Hwf).
      cbn [length] in Hf. nia.
    + exists a'. split; [done|]. split; [done|]. split; [done|]. split; [set_solver|].
      intros Hle. destruct (Hdone Hle) as [Hp Hc]. split; [|done].
      intros y [->|Hy]%elem_of_cons; [apply Hsub; set_solver|]. apply Hp, Hin. by right.
Qed.

(** When the limit is kept, [ancestors] is closed under dependencies. *)
Lemma ancestors_spec {E} s parents :
  graph_wf s ->
  exists a, ancestors (E := E) s parents = Ok a /\ (size a <= 3)%nat /\
    (forall x, x ∈ a -> exists p, p ∈ parents /\ rtc (child (deps s)) x p) /\
    ((size a <= 2)%nat -> (forall x, x ∈ parents -> x ∈ a) /\
       forall x p, x ∈ a -> child (deps s) p x -> p ∈ a).
Proof.
  intros Hwf. unfold ancestors.
  destruct (ancestor_loop_spec (E := E) s (fun x => exists p, p ∈ parents /\ rtc (child (deps s)) x p) Hwf)
    with (fuel := S (length parents + 3 * size (transactions s))) (pending := reverse parents)
         (a := (∅ : gset Hash)) as (a & Ha & HR & Hsz & _ & Hdone).
  - intros x p (q & Hq & Hr) Hpx. exists q. split; [done|]. by eapply rtc_l.
  - intros x Hx. rewrite elem_of_reverse in Hx. by exists x.
  - set_solver.
  - rewrite size_empty. lia.
  - set_solver.
  - rewrite length_reverse, size_empty. lia.
  - exists a. split; [done|]. split; [done|]. split; [done|]. intros Hle. destruct (Hdone Hle) as [Hp Hc].
    split; [|done]. intros x Hx. apply Hp. by apply elem_of_reverse.
Qed.
End Walks.
End VerifiedGraph.
