(* ===== verification/VerifiedCaches.v ===== *)
(** * Totals and caches of the verified set

    What the cached fields of the verified set stand for, in terms of its map of
    transactions: sums over the map, items tracked with their owner, created
    outputs and metric totals; and how they follow an insertion and a removal. *)

From stdpp Require Import base numbers list option gmap sets.
From Stdlib Require Import ZArith QArith Lia.
From S2P Require Import Prelude Amount Zip317 EvictionCost HashIter Dependencies MempoolTx VerifiedSet.
Local Open Scope Z_scope.

Module VerifiedCaches.
Import MempoolTx VerifiedSet.

Implicit Types (tx : VerifiedUnminedTx) (m : gmap Hash VerifiedUnminedTx) (k : Hash).

(** ** A verified transaction *)

Definition fee_of tx : Z := Amount.zatoshis (Zip317.miner_fee (fees tx)).
Definition cost_of tx : Z := Z.max (tx_size tx) 10000.
Definition own_cost tx : EvictionCost.EvictionCost := EvictionCost.mkCost (fee_of tx) (cost_of tx).

Definition actions_of tx : Z := Zip317.verified_conventional_actions (fees tx).
Definition unpaid_of tx : Z := Zip317.verified_unpaid_actions (fees tx).

(** A transaction that passed verification: its fee is within the money supply,
    its size within a block, and it has at most two logical actions for each
    byte. *)
Record tx_ok tx : Prop := {
  ok_fee : 0 <= fee_of tx <= Amount.MAX_MONEY;
  ok_size : 0 <= tx_size tx <= Zip317.MAX_BLOCK_BYTES;
  ok_actions : 0 <= unpaid_of tx <= actions_of tx /\ actions_of tx <= 2 * cost_of tx;
  ok_outputs : Z.of_nat (length (outputs (transaction tx))) <= 2 ^ 32;
}.

Lemma cost_range tx : tx_ok tx -> 10000 <= cost_of tx <= 2000000.
Proof. intros [_ Hs _ _]. unfold cost_of, Zip317.MAX_BLOCK_BYTES in *. lia. Qed.

Lemma tx_cost_Ok {E} tx : tx_ok tx -> tx_cost (E := E) tx = Ok (cost_of tx).
Proof.
  intros [_ Hs _ _]. unfold tx_cost, Zip317.cost, cost_of, to_uint, Zip317.MAX_BLOCK_BYTES, tx_size in *.
  by rewrite (proj2 (in_uint_spec _ _)) by lia.
Qed.

Lemma eviction_cost_Ok {E} tx : tx_ok tx -> eviction_cost (E := E) tx = Ok (own_cost tx).
Proof.
  intros Hok. unfold eviction_cost, tx_fee, to_uint. fold (fee_of tx). pose proof (ok_fee _ Hok) as Hf.
  rewrite Amount.MAX_MONEY_val in Hf. rewrite (proj2 (in_uint_spec _ _)) by lia. cbn [expect res_bind].
  rewrite tx_cost_Ok by done. cbn [res_bind]. pose proof (cost_range tx Hok). unfold EvictionCost.new.
  by rewrite (proj2 (Z.ltb_lt _ _)) by lia.
Qed.

(** ** Sums over the map *)

Definition msum (f : VerifiedUnminedTx -> Z) m : Z := map_fold (fun _ tx acc => f tx + acc) 0 m.

Lemma msum_empty f : msum f ∅ = 0.
Proof. apply map_fold_empty. Qed.

Lemma msum_insert f m k tx : m !! k = None -> msum f (<[k := tx]> m) = f tx + msum f m.
Proof. intros Hk. unfold msum. apply (map_fold_insert_L (fun _ tx acc => f tx + acc)); [intros; lia|done]. Qed.

Lemma msum_delete f m k tx : m !! k = Some tx -> msum f m = f tx + msum f (delete k m).
Proof. intros Hk. unfold msum. apply (map_fold_delete_L (fun _ tx acc => f tx + acc)); [intros; lia|done]. Qed.

Lemma msum_le f g m : (forall k tx, m !! k = Some tx -> f tx <= g tx) -> msum f m <= msum g m.
Proof.
  induction m as [|k tx m Hk IH] using map_ind; intros Hle; [by rewrite !msum_empty|].
  rewrite !msum_insert by done. assert (f tx <= g tx) by (apply (Hle k); by rewrite lookup_insert_eq).
  assert (msum f m <= msum g m); [|lia]. apply IH. intros k' tx' Hk'. apply (Hle k').
  rewrite lookup_insert_ne; [done|congruence].
Qed.

Lemma msum_nonneg f m : (forall k tx, m !! k = Some tx -> 0 <= f tx) -> 0 <= msum f m.
Proof.
  intros Hf. transitivity (msum (fun _ => 0) m); [|by apply msum_le].
  clear Hf. induction m as [|k tx m Hk IH] using map_ind; [by rewrite msum_empty|]. by rewrite msum_insert.
Qed.

Lemma msum_scale c f m : msum (fun tx => c * f tx) m = c * msum f m.
Proof.
  induction m as [|k tx m Hk IH] using map_ind; [rewrite !msum_empty; lia|].
  rewrite !msum_insert, IH by done. lia.
Qed.

(** ** Tracked items *)

(** [set] holds the items of the transactions, and no two share one. *)
Record tracked {A} `{Countable A} (items : VerifiedUnminedTx -> list A) m (set : gset A) : Prop := {
  tr_in : forall a, a ∈ set <-> exists k tx, m !! k = Some tx /\ a ∈ items tx;
  tr_own : forall k k' tx tx' a, m !! k = Some tx -> m !! k' = Some tx' ->
    a ∈ items tx -> a ∈ items tx' -> k = k';
}.

Section Tracked.
Context {A : Type} `{Countable A} (items : VerifiedUnminedTx -> list A).
Implicit Types set : gset A.

Lemma elem_of_extend set l a : a ∈ extend set l <-> a ∈ set \/ a ∈ l.
Proof.
  unfold extend. revert set. induction l as [|x l IH]; intros set; cbn [foldl].
  - pose proof (not_elem_of_nil a). tauto.
  - rewrite IH, elem_of_cons, elem_of_union, elem_of_singleton. tauto.
Qed.

Lemma elem_of_remove_from_set set l a : a ∈ remove_from_set set l <-> a ∈ set /\ a ∉ l.
Proof.
  unfold remove_from_set. revert set. induction l as [|x l IH]; intros set; cbn [foldl].
  - pose proof (not_elem_of_nil a). tauto.
  - rewrite IH, not_elem_of_cons, elem_of_difference, elem_of_singleton. tauto.
Qed.

Lemma has_conflicts_false set l : has_conflicts set l = false <-> forall a, a ∈ l -> a ∉ set.
Proof.
  unfold has_conflicts. rewrite <- not_true_iff_false, existsb_exists. setoid_rewrite bool_decide_eq_true.
  setoid_rewrite <- list_elem_of_In. naive_solver.
Qed.

Lemma tracked_empty : tracked items ∅ ∅.
Proof. split; [|by intros k k' tx tx' a Hk]. intros a. split; [set_solver|]. by intros (k & tx & Hk & _). Qed.

Lemma tracked_insert m set k tx l :
  tracked items m set -> m !! k = None -> items tx = l -> has_conflicts set l = false ->
  tracked items (<[k := tx]> m) (extend set l).
Proof.
  intros [Hin Hown] Hk <- Hc. rewrite has_conflicts_false in Hc. split.
  - intros a. rewrite elem_of_extend, Hin. setoid_rewrite lookup_insert_Some. split.
    + intros [(k' & tx' & Hk' & Ha)|Ha]; [exists k', tx'; split; [right; split; [congruence|done]|done]|].
      exists k, tx. split; [by left|done].
    + intros (k' & tx' & [[_ <-]|[_ Hk']] & Ha); [by right|]. left. eauto.
  - intros k1 k2 t1 t2 a [[<- <-]|[? H1]]%lookup_insert_Some [[<- <-]|[? H2]]%lookup_insert_Some Ha1 Ha2.
    + done.
    + destruct (Hc a Ha1). apply Hin. eauto.
    + destruct (Hc a Ha2). apply Hin. eauto.
    + by apply (Hown k1 k2 t1 t2 a).
Qed.

Lemma tracked_delete m set k tx :
  tracked items m set -> m !! k = Some tx -> tracked items (delete k m) (remove_from_set set (items tx)).
Proof.
  intros [Hin Hown] Hk. split.
  - intros a. rewrite elem_of_remove_from_set, Hin. setoid_rewrite lookup_delete_Some. split.
    + intros [(k' & tx' & Hk' & Ha) Hn]. exists k', tx'. split; [|done]. split; [|done].
      intros <-. rewrite Hk in Hk'. injection Hk' as <-. done.
    + intros (k' & tx' & [Hne Hk'] & Ha). split; [eauto|]. intros Ha'. apply Hne. by apply (Hown k k' tx tx' a).
  - intros k1 k2 t1 t2 a [_ H1]%lookup_delete_Some [_ H2]%lookup_delete_Some. by apply Hown.
Qed.
End Tracked.

(** ** Created outputs *)

(** [o] is one of the [n] outpoints of [tx_id] from index [i] on. *)
Definition in_range (tx_id : Hash) (i : Z) (n : nat) (o : OutPoint) : bool :=
  bool_decide (op_hash o = tx_id) && (i <=? op_index o) && (op_index o <? i + Z.of_nat n).

Lemma in_range_spec tx_id i n o :
  in_range tx_id i n o = true <-> op_hash o = tx_id /\ i <= op_index o < i + Z.of_nat n.
Proof. unfold in_range. rewrite !andb_true_iff, bool_decide_eq_true, Z.leb_le, Z.ltb_lt. tauto. Qed.

Lemma in_range_S tx_id i n o :
  in_range tx_id i (S n) o = bool_decide (o = mkOutPoint tx_id i) || in_range tx_id (i + 1) n o.
Proof.
  apply eq_true_iff_eq. rewrite orb_true_iff, bool_decide_eq_true, !in_range_spec. destruct o as [h j]. cbn.
  split.
  - intros [-> Hj]. destruct (decide (j = i)) as [->|]; [by left|]. right. split; [done|lia].
  - intros [[= -> ->]|[-> Hj]]; (split; [done|lia]).
Qed.

Lemma from_usize_Ok {E} h i : 0 <= i < 2 ^ 32 -> from_usize (E := E) h i = Ok (mkOutPoint h i).
Proof. intros Hi. unfold from_usize, to_uint. by rewrite (proj2 (in_uint_spec _ _)). Qed.

Lemma create_outputs_Ok {E} tx_id l : forall i created pending,
  0 <= i -> i + Z.of_nat (length l) <= 2 ^ 32 ->
  exists created' pending', create_outputs (E := E) tx_id i l created pending = Ok (created', pending') /\
    (forall o, created' !! o =
       if in_range tx_id i (length l) o then l !! Z.to_nat (op_index o - i) else created !! o) /\
    (forall o, PendingOutputs.waiting pending' !! o =
       if in_range tx_id i (length l) o then None else PendingOutputs.waiting pending !! o).
Proof.
  induction l as [|out l IH]; intros i created pending Hi Hl; cbn [create_outputs].
  { exists created, pending. split; [done|]. split; intros o; cbn [length]; unfold in_range;
      destruct (Z.leb_spec i (op_index o)), (Z.ltb_spec (op_index o) (i + Z.of_nat 0)); try lia;
      by rewrite ?andb_false_r. }
  cbn [length] in *. rewrite from_usize_Ok by lia. cbn [res_bind].
  destruct (IH (i + 1) (<[mkOutPoint tx_id i := out]> created)
    (PendingOutputs.respond pending (mkOutPoint tx_id i) out)) as (c' & p' & Hc & Hl1 & Hl2); [lia..|].
  exists c', p'. split; [done|]. split; intros o.
  - rewrite Hl1, in_range_S. destruct (in_range tx_id (i + 1) (length l) o) eqn:Hr.
    + rewrite orb_true_r. apply in_range_spec in Hr.
      replace (Z.to_nat (op_index o - i)) with (S (Z.to_nat (op_index o - (i + 1)))) by lia. done.
    + rewrite orb_false_r. case_bool_decide as Ho; [|by rewrite lookup_insert_ne].
      subst o. rewrite lookup_insert_eq. cbn. by rewrite Z.sub_diag.
  - rewrite Hl2, in_range_S. destruct (in_range tx_id (i + 1) (length l) o) eqn:Hr; [by rewrite orb_true_r|].
    rewrite orb_false_r. unfold PendingOutputs.respond.
    destruct (PendingOutputs.waiting pending !! mkOutPoint tx_id i) eqn:Hw; cbn [PendingOutputs.waiting];
      case_bool_decide as Ho; subst; rewrite ?lookup_delete_eq, ?lookup_delete_ne by done; done.
Qed.

Lemma delete_outputs_Ok {E} tx_id n : forall i created,
  0 <= i -> i + Z.of_nat n <= 2 ^ 32 ->
  exists created', delete_outputs (E := E) tx_id i n created = Ok created' /\
    forall o, created' !! o = if in_range tx_id i n o then None else created !! o.
Proof.
  induction n as [|n IH]; intros i created Hi Hn; cbn [delete_outputs].
  { exists created. split; [done|]. intros o. unfold in_range.
    destruct (Z.leb_spec i (op_index o)), (Z.ltb_spec (op_index o) (i + Z.of_nat 0)); try lia;
      by rewrite ?andb_false_r. }
  rewrite from_usize_Ok by lia. cbn [res_bind].
  destruct (IH (i + 1) (delete (mkOutPoint tx_id i) created)) as (c' & Hc & Hl); [lia..|].
  exists c'. split; [done|]. intros o. rewrite Hl, in_range_S.
  destruct (in_range tx_id (i + 1) n o) eqn:Hr; [by rewrite orb_true_r|]. rewrite orb_false_r.
  case_bool_decide as Ho; subst; [by rewrite lookup_delete_eq|by rewrite lookup_delete_ne].
Qed.

(** The outputs of the transactions of the map, at their outpoints. *)
Definition created_ok m (created : gmap OutPoint Output) : Prop :=
  forall o out, created !! o = Some out <->
    exists tx, m !! op_hash o = Some tx /\ 0 <= op_index o /\
      outputs (transaction tx) !! Z.to_nat (op_index o) = Some out.

Lemma in_range_lookup tx_id (l : list Output) o :
  op_hash o = tx_id -> in_range tx_id 0 (length l) o = false -> 0 <= op_index o ->
  l !! Z.to_nat (op_index o) = None.
Proof.
  intros Hh Hr Hi. apply lookup_ge_None. apply not_true_iff_false in Hr. rewrite in_range_spec in Hr. lia.
Qed.

Lemma created_insert m created created' k tx :
  created_ok m created -> m !! k = None ->
  (forall o, created' !! o = if in_range k 0 (length (outputs (transaction tx))) o
     then outputs (transaction tx) !! Z.to_nat (op_index o - 0) else created !! o) ->
  created_ok (<[k := tx]> m) created'.
Proof.
  intros Hc Hk Hl o out. rewrite Hl. destruct (decide (op_hash o = k)) as [Hh|Hh].
  - rewrite Hh, lookup_insert_eq. destruct (in_range k 0 _ o) eqn:Hr.
    + apply in_range_spec in Hr as [_ Hr]. rewrite Z.sub_0_r. split; [eauto with lia|].
      by intros (t & [= <-] & _ & ?).
    + split.
      * rewrite (Hc o). rewrite Hh, Hk. by intros (t & ? & _).
      * intros (t & [= <-] & Hi & Hout). by rewrite (in_range_lookup k _ o Hh Hr Hi) in Hout.
  - assert (Hr : in_range k 0 (length (outputs (transaction tx))) o = false).
    { apply not_true_iff_false. rewrite in_range_spec. tauto. }
    rewrite Hr, lookup_insert_ne by done. apply Hc.
Qed.

Lemma created_delete m created created' k tx :
  created_ok m created -> m !! k = Some tx ->
  (forall o, created' !! o =
     if in_range k 0 (length (outputs (transaction tx))) o then None else created !! o) ->
  created_ok (delete k m) created'.
Proof.
  intros Hc Hk Hl o out. rewrite Hl. destruct (decide (op_hash o = k)) as [Hh|Hh].
  - rewrite Hh, lookup_delete_eq. destruct (in_range k 0 _ o) eqn:Hr.
    + split; [done|]. by intros (t & ? & _).
    + split; [|by intros (t & ? & _)]. rewrite (Hc o), Hh, Hk. intros (t & [= <-] & Hi & Hout).
      by rewrite (in_range_lookup k _ o Hh Hr Hi) in Hout.
  - assert (Hr : in_range k 0 (length (outputs (transaction tx))) o = false).
    { apply not_true_iff_false. rewrite in_range_spec. tauto. }
    rewrite Hr, lookup_delete_ne by done. apply Hc.
Qed.

(** ** Metric totals *)

Definition metrics_of tx : MempoolMetrics :=
  match for_transaction (E := unit) tx with Ok x => x | _ => zero_metrics end.

(** Every field of a transaction's metrics is within its actions or its size. *)
Definition action_fields : list (MempoolMetrics -> Z) :=
  [unpaid_lt20pct; unpaid_lt40pct; unpaid_lt60pct; unpaid_lt80pct; unpaid_lt1; paid_actions].
Definition size_fields : list (MempoolMetrics -> Z) := [size_lt1; size_eq1; size_gt1; size_gt2; size_gt3].

Lemma for_transaction_Ok {E} tx :
  tx_ok tx -> actions_of tx < 2 ^ 32 ->
  for_transaction (E := E) tx = Ok (metrics_of tx) /\
  Forall (fun f => 0 <= f (metrics_of tx) <= 2 * cost_of tx) action_fields /\
  Forall (fun f => 0 <= f (metrics_of tx) <= cost_of tx) size_fields.
Proof.
  intros [_ Hs Ha _] Hlt. unfold metrics_of, for_transaction, for_values.
  fold (actions_of tx) (unpaid_of tx). rewrite !uint_arith_Ok by lia. cbn [res_bind].
  split; [done|]. assert (0 <= tx_size tx <= cost_of tx) by (unfold cost_of; lia).
  unfold action_fields, size_fields. repeat case_match; repeat constructor; cbn; lia.
Qed.

Definition metrics_sum m : MempoolMetrics :=
  let f g := msum (fun tx => g (metrics_of tx)) m in
  mkMetrics (f unpaid_lt20pct) (f unpaid_lt40pct) (f unpaid_lt60pct) (f unpaid_lt80pct) (f unpaid_lt1)
    (f paid_actions) (f size_lt1) (f size_eq1) (f size_gt1) (f size_gt2) (f size_gt3).

Definition all_ok m : Prop := forall k tx, m !! k = Some tx -> tx_ok tx.

Lemma all_ok_insert m k tx : all_ok m -> tx_ok tx -> all_ok (<[k := tx]> m).
Proof. intros Hm Ht k' tx' [[_ <-]|[_ ?]]%lookup_insert_Some; [done|by apply (Hm k')]. Qed.

Lemma all_ok_delete m k : all_ok m -> all_ok (delete k m).
Proof. intros Hm k' tx' [_ ?]%lookup_delete_Some. by apply (Hm k'). Qed.

Lemma actions_bound m k tx : all_ok m -> m !! k = Some tx -> msum cost_of m < 2 ^ 31 -> actions_of tx < 2 ^ 32.
Proof.
  intros Hm Hk Hb. pose proof (ok_actions _ (Hm k tx Hk)) as Ha. rewrite (msum_delete _ _ _ _ Hk) in Hb.
  pose proof (msum_nonneg cost_of (delete k m)
    ltac:(intros k' t' Ht; pose proof (cost_range t' (all_ok_delete m k Hm k' t' Ht)); lia)). lia.
Qed.

(** The totals stay within their types while the cost does. *)
Lemma metrics_sum_range m :
  all_ok m -> msum cost_of m < 2 ^ 31 ->
  Forall (fun f => 0 <= f (metrics_sum m) < 2 ^ 32) action_fields /\
  Forall (fun f => 0 <= f (metrics_sum m) < 2 ^ 64) size_fields.
Proof.
  intros Hm Hb.
  assert (Hfield : forall f c, (forall k tx, m !! k = Some tx -> 0 <= f (metrics_of tx) <= c * cost_of tx) ->
    0 <= msum (fun tx => f (metrics_of tx)) m <= c * msum cost_of m).
  { intros f c Hf. split; [apply msum_nonneg; intros; by eapply Hf|].
    rewrite <- msum_scale. apply msum_le. intros; by eapply Hf. }
  assert (Hof : forall k tx, m !! k = Some tx ->
    Forall (fun f => 0 <= f (metrics_of tx) <= 2 * cost_of tx) action_fields /\
    Forall (fun f => 0 <= f (metrics_of tx) <= cost_of tx) size_fields).
  { intros k tx Hk. destruct (for_transaction_Ok (E := unit) tx (Hm k tx Hk) (actions_bound m k tx Hm Hk Hb)) as (_ & ? & ?).
    done. }
  split; apply Forall_forall; intros f Hf.
  - assert (Hm' : 0 <= msum (fun tx => f (metrics_of tx)) m <= 2 * msum cost_of m).
    { apply Hfield. intros k tx Hk. destruct (Hof k tx Hk) as [Hfa _]. rewrite Forall_forall in Hfa. by apply Hfa. }
    unfold action_fields in Hf. rewrite !elem_of_cons in Hf.
    repeat destruct Hf as [->|Hf]; cbn; try lia. by apply elem_of_nil in Hf.
  - assert (Hm' : 0 <= msum (fun tx => f (metrics_of tx)) m <= 1 * msum cost_of m).
    { apply Hfield. intros k tx Hk. destruct (Hof k tx Hk) as [_ Hfa]. rewrite Forall_forall in Hfa.
      specialize (Hfa f Hf). lia. }
    unfold size_fields in Hf. rewrite !elem_of_cons in Hf.
    repeat destruct Hf as [->|Hf]; cbn; try lia. by apply elem_of_nil in Hf.
Qed.

Ltac metric_fields H := unfold action_fields, size_fields in H; rewrite ?Forall_cons, Forall_nil in H; cbn in H.

Lemma metrics_insert {E} m k tx :
  m !! k = None -> all_ok (<[k := tx]> m) -> msum cost_of (<[k := tx]> m) < 2 ^ 31 ->
  add_transaction (E := E) (metrics_sum m) tx = Ok (metrics_sum (<[k := tx]> m)).
Proof.
  intros Hk Hok Hb. destruct (metrics_sum_range _ Hok Hb) as [Ha Hs].
  assert (Htx : <[k := tx]> m !! k = Some tx) by apply lookup_insert_eq.
  destruct (for_transaction_Ok (E := E) tx (Hok k tx Htx) (actions_bound _ _ _ Hok Htx Hb)) as (Hf & _ & _).
  unfold add_transaction. rewrite Hf. cbn [res_bind]. metric_fields Ha. metric_fields Hs.
  rewrite !msum_insert in Ha by done. rewrite !msum_insert in Hs by done. unfold metrics_add, metrics_sum. cbn.
  rewrite !msum_insert by done. run_arith. do 2 f_equal; lia.
Qed.

Lemma metrics_delete {E} m k tx :
  m !! k = Some tx -> all_ok m -> msum cost_of m < 2 ^ 31 ->
  remove_transaction (E := E) (metrics_sum m) tx = Ok (metrics_sum (delete k m)).
Proof.
  intros Hk Hok Hb. pose proof (all_ok_delete m k Hok) as Hok'.
  assert (Hb' : msum cost_of (delete k m) < 2 ^ 31).
  { rewrite (msum_delete _ _ _ _ Hk) in Hb. pose proof (cost_range tx (Hok k tx Hk)). lia. }
  destruct (metrics_sum_range _ Hok' Hb') as [Ha Hs].
  destruct (for_transaction_Ok (E := E) tx (Hok k tx Hk) (actions_bound _ _ _ Hok Hk Hb)) as (Hf & _ & _).
  unfold remove_transaction. rewrite Hf. cbn [res_bind]. metric_fields Ha. metric_fields Hs.
  unfold metrics_remove, metrics_sum. cbn.
  rewrite !(fun f => msum_delete f m k tx Hk). run_arith. do 2 f_equal; lia.
Qed.
End VerifiedCaches.
