(* ===== verification/VerifiedScores.v ===== *)
(** * Eviction candidates

    The candidates the eviction index holds, as functions of the stored
    transactions: [cand s x removed] is what [eviction_candidate] returns, in
    whatever order the descendants are visited.  A candidate depends on its own
    dependency component alone, and the order of candidates separates
    transactions, so the index can be kept up to date one component at a time. *)

From stdpp Require Import base numbers list option gmap sets relations.
From Stdlib Require Import ZArith QArith Lqa Lia.
From S2P Require Import Prelude BSet Amount Zip317 EvictionCost HashIter Dependencies MempoolTx VerifiedSet VerifiedGraph VerifiedCaches.
Local Open Scope Z_scope.

Module VerifiedScores.
Import MempoolTx Dependencies VerifiedSet VerifiedGraph VerifiedCaches.

Implicit Types (s : VerifiedSet) (x y : Hash) (g removed : gset Hash) (a b c : EvictionCandidate).

(** ** The order of candidates *)

Definition time_lt (t u : option Z) : Prop := option_cmp t u = Lt.

Lemma time_lt_irrefl t : ~ time_lt t t.
Proof. unfold time_lt. destruct t; cbn; [|done]. by rewrite Z.compare_refl. Qed.

Lemma time_lt_trans t u v : time_lt t u -> time_lt u v -> time_lt t v.
Proof. unfold time_lt. destruct t, u, v; cbn; rewrite ?Z.compare_lt_iff; (done || lia). Qed.

Lemma time_lt_total t u : time_lt t u \/ t = u \/ time_lt u t.
Proof.
  unfold time_lt. destruct t as [t|], u as [u|]; cbn; rewrite ?Z.compare_lt_iff; auto.
  destruct (Z.lt_trichotomy t u) as [?|[->|?]]; auto.
Qed.

Lemma option_cmp_Eq t u : option_cmp t u = Eq <-> t = u.
Proof.
  destruct t, u; cbn; try (split; congruence). rewrite Z.compare_eq_iff. split; congruence.
Qed.

(** A candidate whose score is a [u64] fee over a positive [u64] cost. *)
Definition candidate_wf c : Prop := EvictionCost.wf (score c).
Notation rate c := (EvictionCost.rate (score c)).

Lemma score_cmp_rate a b :
  candidate_wf a -> candidate_wf b -> score_cmp (score a) (score b) = (rate a ?= rate b)%Q.
Proof.
  intros [_ Ha] [_ Hb]. unfold score_cmp, EvictionCost.rate, Qcompare. cbn [Qnum Qden].
  by rewrite !Z2Pos.id by lia.
Qed.

Lemma candidate_lt_spec a b :
  candidate_wf a -> candidate_wf b ->
  candidate_lt a b <->
    (rate a < rate b)%Q \/
    ((rate a == rate b)%Q /\ (time_lt (reverse_time b) (reverse_time a) \/
      (reverse_time b = reverse_time a /\ candidate_id a < candidate_id b))).
Proof.
  intros Ha Hb. unfold candidate_lt, candidate_cmp, time_lt. rewrite score_cmp_rate by done.
  pose proof (Qcompare_spec (rate a) (rate b)) as Hq.
  destruct (rate a ?= rate b)%Q eqn:Hc.
  - apply Qeq_alt in Hc. destruct (option_cmp (reverse_time b) (reverse_time a)) eqn:Ht.
    + apply option_cmp_Eq in Ht. rewrite Z.compare_lt_iff. split.
      * intros Hlt. right. split; [done|]. by right.
      * intros [Hlt|[_ [Hlt|[_ Hlt]]]]; [lra|done|done].
    + split; [|done]. intros _. right. split; [done|]. by left.
    + split; [done|]. intros [Hlt|[_ [Hlt|[Heq _]]]]; [lra|done|].
      apply option_cmp_Eq in Heq. congruence.
  - apply Qlt_alt in Hc. split; [by left|done].
  - apply Qgt_alt in Hc. split; [done|]. intros [Hlt|[Heq _]]; lra.
Qed.

Lemma candidate_lt_irrefl a : candidate_wf a -> ~ candidate_lt a a.
Proof.
  intros Ha. rewrite candidate_lt_spec by done. intros [H|[_ [H|[_ H]]]]; [lra|by apply time_lt_irrefl in H|lia].
Qed.

Lemma candidate_lt_trans a b c :
  candidate_wf a -> candidate_wf b -> candidate_wf c ->
  candidate_lt a b -> candidate_lt b c -> candidate_lt a c.
Proof.
  intros Ha Hb Hc. rewrite !candidate_lt_spec by done.
  intros [Hab|[Hab Hab']] [Hbc|[Hbc Hbc']]; [left; lra..|]. right. split; [lra|].
  destruct Hab' as [Hab'|[Heq' Hab']], Hbc' as [Hbc'|[Heq Hbc']].
  - left. by eapply time_lt_trans.
  - left. by rewrite Heq.
  - left. by rewrite <- Heq'.
  - right. split; [congruence|lia].
Qed.

Lemma candidate_lt_cotrans a b c :
  candidate_wf a -> candidate_wf b -> candidate_wf c ->
  candidate_lt a b -> candidate_lt a c \/ candidate_lt c b.
Proof.
  intros Ha Hb Hc. rewrite !candidate_lt_spec by done. intros Hab.
  destruct (Qlt_le_dec (rate a) (rate c)) as [?|Hac]; [by left; left|].
  destruct (Qlt_le_dec (rate c) (rate b)) as [?|Hcb]; [by right; left|].
  destruct Hab as [Hab|[Hab Hab']]; [lra|].
  assert (H1 : (rate a == rate c)%Q) by lra. assert (H2 : (rate c == rate b)%Q) by lra.
  destruct (time_lt_total (reverse_time c) (reverse_time a)) as [Hca|[Hca|Hca]].
  - left. right. split; [done|]. by left.
  - destruct Hab' as [Hab'|[Heq Hab']].
    + right. right. split; [done|]. left. by rewrite Hca.
    + destruct (Z.lt_ge_cases (candidate_id a) (candidate_id c)); [left|right]; (right; split; [done|]; right).
      * done.
      * split; [congruence|lia].
  - right. right. split; [done|]. left. destruct Hab' as [Hab'|[Heq _]]; [by eapply time_lt_trans|by rewrite Heq].
Qed.

Lemma candidate_cmp_antisym a b : candidate_cmp b a = CompOpp (candidate_cmp a b).
Proof.
  assert (Ht : forall t u, option_cmp u t = CompOpp (option_cmp t u)).
  { intros [t|] [u|]; cbn; try done. apply Z.compare_antisym. }
  unfold candidate_cmp, score_cmp. rewrite Z.compare_antisym.
  destruct (_ ?= _); cbn [CompOpp]; [|done|done].
  rewrite (Ht (reverse_time b)). destruct (option_cmp _ _); cbn [CompOpp]; [|done|done]. apply Z.compare_antisym.
Qed.

(** Candidates of different transactions are told apart. *)
Lemma candidate_same a b : candidate_wf a -> candidate_wf b -> bs_same candidate_lt a b -> candidate_id a = candidate_id b.
Proof.
  intros Ha Hb [Hab Hba]. rewrite !candidate_lt_spec in Hab, Hba by done.
  destruct (Q_dec (rate a) (rate b)) as [[?|?]|Heq]; [tauto..|].
  assert ((rate b == rate a)%Q) by lra.
  destruct (time_lt_total (reverse_time b) (reverse_time a)) as [?|[?|?]]; [tauto| |tauto].
  destruct (Z.lt_trichotomy (candidate_id a) (candidate_id b)) as [?|[?|?]]; [tauto|done|].
  destruct Hba. right. split; [done|]. by right.
Qed.

(** ** Sums over sets of transactions *)

Definition lsum (f : Hash -> Z) (l : list Hash) : Z := foldr (fun x acc => f x + acc) 0 l.
Definition ssum (f : Hash -> Z) (X : gset Hash) : Z := lsum f (elements X).

Lemma lsum_perm f l l' : l ≡ₚ l' -> lsum f l = lsum f l'.
Proof. unfold lsum. induction 1; cbn; lia. Qed.

Lemma ssum_empty f : ssum f ∅ = 0.
Proof. unfold ssum. by rewrite elements_empty. Qed.

Lemma ssum_insert f x (X : gset Hash) : x ∉ X -> ssum f ({[x]} ∪ X) = f x + ssum f X.
Proof. intros Hx. unfold ssum. by rewrite (lsum_perm f _ _ (elements_union_singleton X x Hx)). Qed.

Lemma ssum_ext f f' (X : gset Hash) : (forall x, x ∈ X -> f x = f' x) -> ssum f X = ssum f' X.
Proof.
  intros Hf. unfold ssum. assert (Hf' : forall x, x ∈ elements X -> f x = f' x) by (intros x Hx; apply Hf; by apply elem_of_elements).
  clear Hf. induction (elements X) as [|x l IH]; [done|]. cbn. rewrite Hf' by (by left). f_equal. apply IH.
  intros y Hy. apply Hf'. by right.
Qed.

Lemma ssum_nonneg f (X : gset Hash) : (forall x, x ∈ X -> 0 <= f x) -> 0 <= ssum f X.
Proof.
  induction X as [|x X Hx IH] using set_ind_L; intros Hf; [by rewrite ssum_empty|].
  rewrite ssum_insert by done. assert (0 <= f x) by (apply Hf; set_solver).
  assert (0 <= ssum f X); [|lia]. apply IH. set_solver.
Qed.

Lemma ssum_union f (X Y : gset Hash) : X ## Y -> ssum f (X ∪ Y) = ssum f X + ssum f Y.
Proof.
  induction X as [|x X Hx IH] using set_ind_L; intros Hd; [by rewrite ssum_empty, union_empty_l_L|].
  rewrite <- union_assoc_L, !ssum_insert, IH by set_solver. lia.
Qed.

(** The fee and the cost of a stored transaction. *)
Definition fee_at s x : Z := match transactions s !! x with Some tx => fee_of tx | None => 0 end.
Definition cost_at s x : Z := match transactions s !! x with Some tx => cost_of tx | None => 0 end.

(** The package of the transactions of [X]. *)
Definition pack s (X : gset Hash) : EvictionCost.EvictionCost :=
  EvictionCost.mkCost (Z.min u64_max (ssum (fee_at s) X)) (Z.min u64_max (ssum (cost_at s) X)).

Definition stored_ok s : Prop := all_ok (transactions s).

Lemma fee_at_nonneg s x : stored_ok s -> 0 <= fee_at s x.
Proof. intros Hok. unfold fee_at. destruct (_ !! x) eqn:Hx; [|done]. apply (ok_fee _ (Hok x _ Hx)). Qed.

Lemma cost_at_nonneg s x : stored_ok s -> 0 <= cost_at s x.
Proof. intros Hok. unfold cost_at. destruct (_ !! x) eqn:Hx; [|done]. pose proof (cost_range _ (Hok x _ Hx)). lia. Qed.

Lemma cost_at_pos s x : stored_ok s -> x ∈ ids s -> 10000 <= cost_at s x.
Proof.
  intros Hok [tx Hx]%elem_of_dom. unfold cost_at. rewrite Hx. apply (cost_range _ (Hok x _ Hx)).
Qed.

Lemma own_cost_wf tx : tx_ok tx -> EvictionCost.wf (own_cost tx).
Proof.
  intros Hok. pose proof (ok_fee _ Hok). pose proof (cost_range _ Hok). unfold EvictionCost.wf, own_cost. cbn.
  rewrite Amount.MAX_MONEY_val in *. lia.
Qed.

Lemma pack_wf s X x : stored_ok s -> x ∈ X -> x ∈ ids s -> EvictionCost.wf (pack s X).
Proof.
  intros Hok HX Hx. unfold EvictionCost.wf, pack, u64_max. cbn.
  assert (0 <= ssum (fee_at s) X) by (apply ssum_nonneg; intros; by apply fee_at_nonneg).
  assert (0 < ssum (cost_at s) X); [|lia].
  rewrite (union_difference_singleton_L x X HX), ssum_insert by set_solver.
  pose proof (cost_at_pos s x Hok Hx).
  assert (0 <= ssum (cost_at s) (X ∖ {[x]})) by (apply ssum_nonneg; intros; by apply cost_at_nonneg). lia.
Qed.

Section Scores.
Context {HO : HashOrder}.

Lemma index_Ok {E} s x : x ∈ ids s -> exists tx, index (E := E) s x = Ok tx /\ transactions s !! x = Some tx.
Proof. intros [tx Hx]%elem_of_dom. exists tx. unfold index. by rewrite Hx. Qed.

Lemma fold_costs_Ok {E} s l : forall acc,
  stored_ok s -> (forall x, x ∈ l -> x ∈ ids s) ->
  0 <= EvictionCost.fee acc <= u64_max -> 0 <= EvictionCost.cost acc <= u64_max ->
  fold_costs (E := E) s l acc =
    Ok (EvictionCost.mkCost (Z.min u64_max (EvictionCost.fee acc + lsum (fee_at s) l))
                            (Z.min u64_max (EvictionCost.cost acc + lsum (cost_at s) l))).
Proof.
  induction l as [|x l IH]; intros acc Hok Hin Hf Hc; cbn [fold_costs lsum foldr].
  { destruct acc as [f c']. cbn in *. do 2 f_equal; lia. }
  destruct (index_Ok (E := E) s x) as (tx & -> & Hx); [apply Hin; by left|]. cbn [res_bind].
  pose proof (Hok x tx Hx) as Htx. rewrite eviction_cost_Ok by done. cbn [res_bind].
  pose proof (fee_at_nonneg s x Hok). pose proof (cost_at_nonneg s x Hok).
  assert (Hfx : fee_at s x = fee_of tx) by (unfold fee_at; by rewrite Hx).
  assert (Hcx : cost_at s x = cost_of tx) by (unfold cost_at; by rewrite Hx).
  assert (Hnn : 0 <= lsum (fee_at s) l /\ 0 <= lsum (cost_at s) l).
  { clear -Hok. induction l as [|y l IH]; cbn; [lia|].
    pose proof (fee_at_nonneg s y Hok). pose proof (cost_at_nonneg s y Hok). unfold lsum in IH. lia. }
  rewrite IH; [|done|intros y Hy; apply Hin; by right|cbn; unfold u64_max in *; lia..].
  cbn [EvictionCost.combine EvictionCost.fee EvictionCost.cost own_cost].
  fold (lsum (fee_at s) l) (lsum (cost_at s) l). unfold u64_max in *. do 2 f_equal; lia.
Qed.
End Scores.

(** ** Descendants and packages *)

(** The transitive dependents of [x] that remain. *)
Definition desc s x removed : gset Hash :=
  match descendants (HO := elements_order) (E := unit) s x removed with Ok ds => ds | _ => ∅ end.

Definition pkg s x removed : EvictionCost.EvictionCost := pack s ({[x]} ∪ desc s x removed).

Definition cand s removed x : EvictionCandidate :=
  match transactions s !! x with
  | Some tx => mkCandidate (cost_max (own_cost tx) (pkg s x removed)) (tx_time tx) x
  | None => mkCandidate (EvictionCost.mkCost 0 1) None x
  end.

Lemma elem_of_desc s x removed y : graph_wf s -> y ∈ desc s x removed <-> tc (spends s removed) x y.
Proof.
  intros Hwf. unfold desc.
  destruct (descendants_spec (HO := elements_order) (E := unit) s x removed Hwf) as (ds & -> & Hds). apply Hds.
Qed.

Lemma tc_spends s removed x y : tc (spends s removed) x y -> tc (child (deps s)) x y.
Proof. apply tc_subrel. by intros ?? [? _]. Qed.

Lemma desc_fresh s x removed : graph_wf s -> x ∉ desc s x removed.
Proof. intros Hwf. rewrite elem_of_desc by done. intros H%tc_spends. by apply (g_acyclic s Hwf x). Qed.

Lemma desc_remains s x removed y : graph_wf s -> y ∈ desc s x removed -> remains s removed y.
Proof.
  intros Hwf. rewrite elem_of_desc by done. revert y.
  apply tc_ind_r; [by intros y [_ ?]|by intros y z _ [_ ?] _].
Qed.

Lemma candidate_id_cand s removed x : candidate_id (cand s removed x) = x.
Proof. unfold cand. by destruct (_ !! x). Qed.

Lemma cost_max_wf u v : EvictionCost.wf u -> EvictionCost.wf v -> EvictionCost.wf (cost_max u v).
Proof. intros Hu Hv. unfold cost_max. by destruct (score_cmp u v). Qed.

Lemma cand_wf s removed x : stored_ok s -> candidate_wf (cand s removed x).
Proof.
  intros Hok. unfold candidate_wf, cand. destruct (_ !! x) as [tx|] eqn:Hx.
  - cbn [score]. apply cost_max_wf; [by apply own_cost_wf, (Hok x)|].
    apply (pack_wf s _ x); [done|set_solver|]. apply elem_of_dom. by rewrite Hx.
  - by vm_compute.
Qed.

(** A candidate depends on its component alone. *)
Record agree g s s' : Prop := {
  ag_txs : forall x, x ∈ g -> transactions s !! x = transactions s' !! x;
  ag_edges : forall x y, x ∈ g -> child (deps s) x y <-> child (deps s') x y;
}.

Lemma desc_ext_incl s s' g removed removed' x y :
  graph_wf s -> graph_wf s' -> closed (deps s) g -> agree g s s' ->
  (forall z, z ∈ g -> z ∈ removed <-> z ∈ removed') -> x ∈ g ->
  tc (spends s removed) x y -> tc (spends s' removed') x y.
Proof.
  intros Hwf Hwf' Hcl Hag Hrem Hx Htc. revert Hx.
  induction Htc as [x y Hxy|x y z Hxy _ IH]; intros Hx; [apply tc_once|eapply tc_l; [|apply IH]];
    try (apply (Hcl x y); [by destruct Hxy|done]); destruct Hxy as [Hxy [Hr Hin]];
    assert (Hy : y ∈ g) by (by apply (Hcl x y)); (split; [by apply (ag_edges g s s' Hag)|]);
    (split; [by rewrite <- Hrem|]); apply elem_of_dom; rewrite <- (ag_txs g s s' Hag) by done;
    by apply elem_of_dom.
Qed.

Lemma agree_sym g s s' : agree g s s' -> agree g s' s.
Proof. intros [Ht He]. split; intros; [by rewrite Ht|by rewrite He]. Qed.

Lemma desc_ext s s' g removed removed' x :
  graph_wf s -> graph_wf s' -> closed (deps s) g -> closed (deps s') g -> agree g s s' ->
  (forall z, z ∈ g -> z ∈ removed <-> z ∈ removed') -> x ∈ g -> desc s x removed = desc s' x removed'.
Proof.
  intros Hwf Hwf' Hcl Hcl' Hag Hrem Hx. apply set_eq. intros y. rewrite !elem_of_desc by done.
  split; [by apply (desc_ext_incl s s' g)|]. apply (desc_ext_incl s' s g); try done; [by apply agree_sym|].
  intros z Hz. by rewrite Hrem.
Qed.

Lemma desc_closed s g removed x : graph_wf s -> closed (deps s) g -> x ∈ g -> desc s x removed ⊆ g.
Proof.
  intros Hwf Hcl Hx y. rewrite elem_of_desc by done. intros Hy%tc_spends. by apply (closed_tc _ g x y Hcl Hy).
Qed.

Lemma cand_ext s s' g removed removed' x :
  graph_wf s -> graph_wf s' -> closed (deps s) g -> closed (deps s') g -> agree g s s' ->
  (forall z, z ∈ g -> z ∈ removed <-> z ∈ removed') -> x ∈ g -> cand s removed x = cand s' removed' x.
Proof.
  intros Hwf Hwf' Hcl Hcl' Hag Hrem Hx. unfold cand. rewrite (ag_txs g s s' Hag x Hx).
  destruct (_ !! x) as [tx|]; [|done]. f_equal. unfold pkg. f_equal.
  rewrite (desc_ext s s' g removed removed' x) by done. unfold pack.
  assert (Hin : forall z, z ∈ {[x]} ∪ desc s' x removed' -> transactions s !! z = transactions s' !! z).
  { intros z Hz. apply (ag_txs g s s' Hag). apply elem_of_union in Hz as [->%elem_of_singleton|Hz]; [done|].
    by apply (desc_closed s' g removed' x). }
  f_equal; f_equal; apply ssum_ext; intros z Hz; [unfold fee_at|unfold cost_at]; by rewrite Hin.
Qed.

Section Candidates.
Context {HO : HashOrder}.

Lemma descendants_Ok {E} s x removed : graph_wf s -> descendants (E := E) s x removed = Ok (desc s x removed).
Proof.
  intros Hwf. destruct (descendants_spec (E := E) s x removed Hwf) as (ds & -> & Hds). f_equal.
  apply set_eq. intros y. by rewrite Hds, elem_of_desc.
Qed.

Lemma package_Ok {E} s x removed :
  graph_wf s -> stored_ok s -> x ∈ ids s -> package (E := E) s x removed = Ok (pkg s x removed).
Proof.
  intros Hwf Hok Hx. unfold package. rewrite descendants_Ok by done. cbn [res_bind].
  destruct (index_Ok (E := E) s x Hx) as (tx & -> & Htx). cbn [res_bind].
  rewrite eviction_cost_Ok by (by apply (Hok x)). cbn [res_bind].
  destruct (own_cost_wf tx (Hok x tx Htx)) as [Hf Hc].
  rewrite fold_costs_Ok; [|done| |unfold u64_max; lia..].
  - unfold pkg, pack. rewrite !ssum_insert by (by apply desc_fresh). unfold ssum.
    rewrite !(lsum_perm _ (hash_iter _) (elements (desc s x removed))) by apply hash_iter_perm.
    unfold fee_at at 2, cost_at at 2. rewrite Htx. done.
  - intros y Hy. rewrite elem_of_hash_iter in Hy. by apply (desc_remains s x removed y).
Qed.

Lemma eviction_candidate_Ok {E} s x removed :
  graph_wf s -> stored_ok s -> x ∈ ids s -> eviction_candidate (E := E) s x removed = Ok (cand s removed x).
Proof.
  intros Hwf Hok Hx. unfold eviction_candidate, package_score.
  destruct (index_Ok (E := E) s x Hx) as (tx & -> & Htx). cbn [res_bind].
  rewrite eviction_cost_Ok, package_Ok by (done || by apply (Hok x)). cbn [res_bind].
  unfold cand. by rewrite Htx.
Qed.

(** ** The index *)

(** [order] holds the candidates [f x] of the transactions [x] of [X]. *)
Record order_for (f : Hash -> EvictionCandidate) (X : gset Hash) (order : list EvictionCandidate) : Prop := {
  of_sorted : bs_wf candidate_lt order;
  of_elem : forall c, c ∈ order <-> exists x, x ∈ X /\ c = f x;
}.

(** Well-formed candidates that know their transaction. *)
Definition candidates_of (f : Hash -> EvictionCandidate) : Prop :=
  forall x, candidate_id (f x) = x /\ candidate_wf (f x).

Lemma cand_candidates s removed : stored_ok s -> candidates_of (cand s removed).
Proof. intros Hok x. split; [apply candidate_id_cand|by apply cand_wf]. Qed.

Lemma order_for_wf f X order : candidates_of f -> order_for f X order -> Forall candidate_wf order.
Proof. intros Hf Ho. apply Forall_forall. intros c (x & _ & ->)%(of_elem _ _ _ Ho). by apply Hf. Qed.

Lemma candidates_same f x y : candidates_of f -> bs_same candidate_lt (f x) (f y) -> x = y.
Proof. intros Hf Hs. destruct (Hf x) as [Hx ?], (Hf y) as [Hy ?]. rewrite <- Hx, <- Hy. by apply candidate_same. Qed.

Lemma candidates_refl f x : candidates_of f -> bs_same candidate_lt (f x) (f x).
Proof. intros Hf. split; by apply candidate_lt_irrefl, Hf. Qed.

Lemma order_for_ext f f' X X' order :
  order_for f X order -> (forall x, x ∈ X <-> x ∈ X') -> (forall x, x ∈ X -> f x = f' x) -> order_for f' X' order.
Proof.
  intros Ho HX Hf. split; [by apply (of_sorted _ _ _ Ho)|]. intros c. rewrite (of_elem _ _ _ Ho).
  split; intros (x & Hx & ->); exists x.
  - rewrite <- HX, Hf by done. done.
  - rewrite Hf by (by apply HX). by rewrite HX.
Qed.

Lemma order_for_empty f : order_for f ∅ [].
Proof. split; [constructor|]. intros c. split; [by intros ?%elem_of_nil|]. by intros (x & ?%elem_of_empty & _). Qed.

Lemma order_for_contains f X order x :
  candidates_of f -> order_for f X order -> bs_contains candidate_lt (f x) order = true <-> x ∈ X.
Proof.
  intros Hf Ho.
  rewrite (bs_contains_spec candidate_lt candidate_wf candidate_lt_trans (f x) order
    (proj2 (Hf x)) (order_for_wf f X order Hf Ho) (of_sorted _ _ _ Ho)).
  split.
  - intros (c & (y & Hy & ->)%(of_elem _ _ _ Ho) & Hs). by rewrite (candidates_same f x y Hf Hs).
  - intros Hx. exists (f x). split; [apply (of_elem _ _ _ Ho); by exists x|by apply candidates_refl].
Qed.

Lemma order_for_remove f X order x :
  candidates_of f -> order_for f X order -> order_for f (X ∖ {[x]}) (bs_remove candidate_lt (f x) order).
Proof.
  intros Hf Ho. pose proof (order_for_wf f X order Hf Ho) as Hw. pose proof (of_sorted _ _ _ Ho) as Hs.
  pose proof (proj2 (Hf x)) as Hx.
  split; [by apply (bs_remove_weak_wf candidate_lt candidate_wf candidate_lt_trans candidate_lt_cotrans)|].
  intros c. rewrite (elem_of_bs_remove_weak candidate_lt candidate_wf candidate_lt_trans candidate_lt_cotrans) by done.
  rewrite (of_elem _ _ _ Ho). setoid_rewrite elem_of_difference. setoid_rewrite elem_of_singleton. split.
  - intros [(y & Hy & ->) Hn]. exists y. split; [|done]. split; [done|]. intros ->. by apply Hn, candidates_refl.
  - intros (y & [Hy Hne] & ->). split; [by exists y|]. intros Hsame. apply Hne. symmetry. by apply (candidates_same f).
Qed.

Lemma order_for_insert f X order x :
  candidates_of f -> order_for f X order -> x ∉ X -> order_for f ({[x]} ∪ X) (bs_insert candidate_lt (f x) order).
Proof.
  intros Hf Ho Hx. pose proof (order_for_wf f X order Hf Ho) as Hw. pose proof (of_sorted _ _ _ Ho) as Hs.
  split; [apply (bs_insert_weak_wf candidate_lt candidate_wf candidate_lt_trans); [apply Hf|done|done]|].
  intros c. rewrite (elem_of_bs_insert_fresh candidate_lt candidate_wf); [|by apply Hf|done|].
  - rewrite (of_elem _ _ _ Ho). setoid_rewrite elem_of_union. setoid_rewrite elem_of_singleton.
    split; [intros [->|(y & Hy & ->)]; eauto|]. intros (y & [->|Hy] & ->); [by left|right; eauto].
  - intros d (y & Hy & ->)%(of_elem _ _ _ Ho) Hsame%candidates_same; [|done]. by subst.
Qed.

Lemma remove_candidates_Ok {E} s l : forall X order,
  graph_wf s -> stored_ok s -> order_for (cand s ∅) X order -> NoDup l ->
  (forall x, x ∈ l -> x ∈ X) -> (forall x, x ∈ l -> x ∈ ids s) ->
  exists order', remove_candidates (E := E) s l order = Ok order' /\
    order_for (cand s ∅) (X ∖ list_to_set l) order'.
Proof.
  induction l as [|x l IH]; intros X order Hwf Hok Ho Hnd HX Hin; cbn [remove_candidates].
  { exists order. split; [done|]. cbn. by rewrite difference_empty_L. }
  apply NoDup_cons in Hnd as [Hx Hnd]. pose proof (cand_candidates s ∅ Hok) as Hf.
  rewrite eviction_candidate_Ok by (done || (apply Hin; by left)). cbn [res_bind].
  rewrite (proj2 (order_for_contains _ _ _ x Hf Ho)) by (apply HX; by left). cbn [rust_assert res_bind].
  destruct (IH (X ∖ {[x]}) (bs_remove candidate_lt (cand s ∅ x) order)) as (o' & Ho' & Hfo); try done.
  - by apply order_for_remove.
  - intros y Hy. apply elem_of_difference. split; [apply HX; by right|]. intros ->%elem_of_singleton. done.
  - intros y Hy. apply Hin. by right.
  - exists o'. split; [done|]. cbn [list_to_set]. by rewrite <- difference_difference_l_L.
Qed.

Lemma insert_candidates_Ok {E} s l : forall X order,
  graph_wf s -> stored_ok s -> order_for (cand s ∅) X order -> NoDup l -> (forall x, x ∈ l -> x ∉ X) ->
  exists order', insert_candidates (E := E) s l order = Ok order' /\
    order_for (cand s ∅) (X ∪ (list_to_set l ∩ ids s)) order'.
Proof.
  induction l as [|x l IH]; intros X order Hwf Hok Ho Hnd HX; cbn [insert_candidates].
  { exists order. split; [done|]. cbn. by rewrite intersection_empty_l_L, union_empty_r_L. }
  apply NoDup_cons in Hnd as [Hx Hnd]. pose proof (cand_candidates s ∅ Hok) as Hf.
  destruct (contains s x) eqn:Hc.
  - apply contains_spec in Hc. rewrite eviction_candidate_Ok by done. cbn [res_bind].
    assert (Hn : bs_contains candidate_lt (cand s ∅ x) order = false).
    { apply not_true_iff_false. rewrite (order_for_contains _ _ _ x Hf Ho). apply HX. by left. }
    rewrite Hn. cbn [negb rust_assert res_bind].
    destruct (IH ({[x]} ∪ X) (bs_insert candidate_lt (cand s ∅ x) order)) as (o' & Ho' & Hfo); try done.
    + apply order_for_insert; [done|done|]. apply HX. by left.
    + intros y Hy. apply not_elem_of_union. split; [|apply HX; by right]. intros ->%elem_of_singleton. done.
    + exists o'. split; [done|]. revert Hfo. cbn [list_to_set].
      replace ({[x]} ∪ X ∪ list_to_set l ∩ ids s) with (X ∪ ({[x]} ∪ list_to_set l) ∩ ids s); [done|].
      clear -Hc. set_solver.
  - apply not_true_iff_false in Hc. rewrite contains_spec in Hc.
    destruct (IH X order) as (o' & Ho' & Hfo); try done; [intros y Hy; apply HX; by right|].
    exists o'. split; [done|]. cbn [list_to_set].
    replace (({[x]} ∪ list_to_set l) ∩ ids s) with ((list_to_set l : gset Hash) ∩ ids s); [done|].
    clear -Hc. set_solver.
Qed.
End Candidates.
End VerifiedScores.
