(* ===== verification/VerifiedFacts.v ===== *)
(** * The invariant of the verified set

    [inv s]: the dependency graph joins stored transactions, has no cycle and
    has components of at most three; every total and cache is a function of the
    stored transactions; and the eviction index holds exactly one candidate for
    each of them, with its current score.  Every operation keeps it, and none of
    the assertions or overflow checks on the way can panic. *)

From stdpp Require Import base numbers list option gmap sets relations.
From Stdlib Require Import ZArith Lia.
From S2P Require Import Prelude BSet Zip317 EvictionCost HashIter Dependencies MempoolTx VerifiedSet VerifiedGraph VerifiedCaches VerifiedScores.
Local Open Scope Z_scope.

Module VerifiedFacts.
Import MempoolTx Dependencies VerifiedSet VerifiedGraph VerifiedCaches VerifiedScores.

Implicit Types (s : VerifiedSet) (x y k : Hash) (g : gset Hash) (tx : VerifiedUnminedTx) (d : TransactionDependencies).

Definition items_of {A} (f : Transaction -> list A) tx : list A := f (transaction tx).

(** The totals and the caches of the stored transactions. *)
Record caches s : Prop := {
  c_keys : forall k tx, transactions s !! k = Some tx -> mined_id (unmined_id tx) = k;
  c_ok : stored_ok s;
  c_created : created_ok (transactions s) (created_outputs s);
  c_spent : tracked (items_of spent_outpoints) (transactions s) (set_spent_outpoints s);
  c_sprout : tracked (items_of sprout_nullifiers) (transactions s) (set_sprout_nullifiers s);
  c_sapling : tracked (items_of sapling_nullifiers) (transactions s) (set_sapling_nullifiers s);
  c_orchard : tracked (items_of orchard_nullifiers) (transactions s) (set_orchard_nullifiers s);
  c_ironwood : tracked (items_of ironwood_nullifiers) (transactions s) (set_ironwood_nullifiers s);
  c_size : transactions_serialized_size s = msum tx_size (transactions s);
  c_cost : total_cost s = msum cost_of (transactions s);
  c_bound : total_cost s < 2 ^ 31;
  c_metrics : metrics s = metrics_sum (transactions s);
}.

Record inv s : Prop := {
  i_graph : graph_wf s;
  i_caches : caches s;
  i_order : order_for (cand s ∅) (ids s) (eviction_order s);
}.

Definition i_ok s (H : inv s) : stored_ok s := c_ok s (i_caches s H).

(** ** The empty set *)

Lemma empty_inv : inv VerifiedSet.empty.
Proof.
  assert (Hno : forall p c, ~ child (deps VerifiedSet.empty) p c).
  { intros p c. unfold child, direct_dependents. cbn. rewrite lookup_empty. apply not_elem_of_empty. }
  split; [split|split|apply order_for_empty]; cbn; try apply tracked_empty; try (by rewrite msum_empty).
  - split; [|intros k g; cbn; by rewrite lookup_empty..].
    intros p c. split; [by intros ?%Hno|]. unfold parent, direct_dependencies. cbn. rewrite lookup_empty.
    by intros ?%elem_of_empty.
  - by intros p c ?%Hno.
  - intros x Hx. destruct Hx; by eapply Hno.
  - intros x. by rewrite elem_of_dom, lookup_empty, is_Some_alt.
  - intros k tx. by rewrite lookup_empty.
  - intros k tx. cbn. by rewrite lookup_empty.
  - intros o out. rewrite lookup_empty. split; [done|]. intros (tx & Htx & _). by rewrite lookup_empty in Htx.
  - lia.
  - unfold metrics_sum. by rewrite !msum_empty.
Qed.

(** ** Totals and caches *)

Lemma size_le_cost m : all_ok m -> 0 <= msum tx_size m <= msum cost_of m.
Proof.
  intros Hok. split; [apply msum_nonneg|apply msum_le]; intros k tx Hk; pose proof (ok_size _ (Hok k tx Hk)).
  - lia.
  - unfold cost_of. lia.
Qed.

Lemma no_conflicts s t :
  has_spend_conflicts s t = false <->
  has_conflicts (set_spent_outpoints s) (spent_outpoints t) = false /\
  has_conflicts (set_sprout_nullifiers s) (sprout_nullifiers t) = false /\
  has_conflicts (set_sapling_nullifiers s) (sapling_nullifiers t) = false /\
  has_conflicts (set_orchard_nullifiers s) (orchard_nullifiers t) = false /\
  has_conflicts (set_ironwood_nullifiers s) (ironwood_nullifiers t) = false.
Proof. unfold has_spend_conflicts. rewrite !orb_false_iff. tauto. Qed.

Lemma caches_insert s tx k created order d :
  caches s -> tx_ok tx -> mined_id (unmined_id tx) = k -> transactions s !! k = None ->
  total_cost s + cost_of tx < 2 ^ 31 -> has_spend_conflicts s (transaction tx) = false ->
  (forall o, created !! o = if in_range k 0 (length (outputs (transaction tx))) o
     then outputs (transaction tx) !! Z.to_nat (op_index o - 0) else created_outputs s !! o) ->
  caches (mkSet (<[k := tx]> (transactions s)) order d created
    (transactions_serialized_size s + tx_size tx) (total_cost s + cost_of tx)
    (metrics_sum (<[k := tx]> (transactions s)))
    (extend (set_spent_outpoints s) (spent_outpoints (transaction tx)))
    (extend (set_sprout_nullifiers s) (sprout_nullifiers (transaction tx)))
    (extend (set_sapling_nullifiers s) (sapling_nullifiers (transaction tx)))
    (extend (set_orchard_nullifiers s) (orchard_nullifiers (transaction tx)))
    (extend (set_ironwood_nullifiers s) (ironwood_nullifiers (transaction tx)))).
Proof.
  intros Hc Hok Hid Hk Hb (H1 & H2 & H3 & H4 & H5)%no_conflicts Hcr.
  split; cbn; try (apply tracked_insert; [apply Hc|done..]).
  - intros k' tx' [[<- <-]|[_ ?]]%lookup_insert_Some; [done|by apply (c_keys s Hc)].
  - unfold stored_ok. cbn. apply all_ok_insert; [apply Hc|done].
  - by apply (created_insert _ (created_outputs s)); [apply Hc|..].
  - rewrite msum_insert, (c_size s Hc) by done. lia.
  - rewrite msum_insert, (c_cost s Hc) by done. lia.
  - done.
  - done.
Qed.

Lemma caches_insert_total s tx k : caches s -> transactions s !! k = None -> total_cost s + cost_of tx < 2 ^ 31 ->
  msum cost_of (<[k := tx]> (transactions s)) < 2 ^ 31.
Proof. intros Hc Hk Hb. rewrite msum_insert, <- (c_cost s Hc) by done. lia. Qed.

Section Operations.
Context {HO : HashOrder}.

Lemma remove_one_Ok {E} s k :
  caches s ->
  exists s', remove_one (E := E) s k = Ok (s', transactions s !! k) /\ caches s' /\
    transactions s' = delete k (transactions s) /\ deps s' = deps s /\ eviction_order s' = eviction_order s.
Proof.
  intros Hc. unfold remove_one. destruct (transactions s !! k) as [tx|] eqn:Hk.
  2: { exists s. split; [done|]. split; [done|]. by rewrite delete_id. }
  pose proof (c_ok s Hc) as Hok. pose proof (Hok k tx Hk) as Htx. pose proof (cost_range tx Htx).
  pose proof (size_le_cost _ Hok) as Hsc. pose proof (size_le_cost _ (all_ok_delete _ k Hok)) as Hsc'.
  pose proof (c_cost s Hc) as Hcost. pose proof (c_bound s Hc) as Hb. pose proof (c_size s Hc) as Hsize.
  pose proof (msum_delete cost_of _ k tx Hk) as Hdc. pose proof (msum_delete tx_size _ k tx Hk) as Hds.
  rewrite uint_arith_Ok by lia. cbn [res_bind]. rewrite tx_cost_Ok by done. cbn [res_bind].
  rewrite uint_arith_Ok by lia. cbn [res_bind].
  rewrite (c_metrics s Hc), (metrics_delete _ k) by (done || lia). cbn [res_bind].
  rewrite (c_keys s Hc k tx Hk).
  destruct (delete_outputs_Ok (E := E) k (length (outputs (transaction tx))) 0 (created_outputs s))
    as (created & -> & Hcr); [lia|apply Htx|]. cbn [res_bind].
  eexists. split; [done|]. split; [|done].
  split; cbn; try (refine (tracked_delete (items_of _) _ _ k tx _ Hk); apply Hc).
  - intros k' tx' [_ ?]%lookup_delete_Some. by apply (c_keys s Hc).
  - unfold stored_ok. cbn. by apply all_ok_delete.
  - apply (created_delete _ (created_outputs s) _ k tx); [apply Hc|done|done].
  - lia.
  - lia.
  - lia.
  - done.
Qed.

(** [m] without the transactions of [l] *)
Lemma remove_keys_Ok {E} l : forall s removed,
  caches s -> NoDup l ->
  exists s' removed', remove_keys (E := E) s l removed = Ok (s', removed') /\ caches s' /\
    deps s' = deps s /\ eviction_order s' = eviction_order s /\
    (forall k, transactions s' !! k = if decide (k ∈ l) then None else transactions s !! k) /\
    (forall tx, tx ∈ removed' <-> tx ∈ removed \/ exists k, k ∈ l /\ transactions s !! k = Some tx).
Proof.
  induction l as [|k l IH]; intros s removed Hc Hnd; cbn [remove_keys].
  { exists s, removed. repeat (split; [done|]). intros tx. split; [by left|].
    intros [?|(k & Hk%elem_of_nil & _)]; done. }
  apply NoDup_cons in Hnd as [Hkl Hnd].
  destruct (remove_one_Ok (E := E) s k Hc) as (s1 & -> & Hc1 & Ht1 & Hd1 & Ho1). cbn [res_bind].
  destruct (IH s1 (removed ++ option_list (transactions s !! k)) Hc1 Hnd)
    as (s' & r' & -> & Hc' & Hd' & Ho' & Ht' & Hr').
  exists s', r'. split; [done|]. split; [done|]. split; [congruence|]. split; [congruence|]. split.
  - intros k'. rewrite Ht', Ht1. destruct (decide (k' = k)) as [->|Hne].
    + rewrite lookup_delete_eq, (decide_True (P := k ∈ k :: l)) by (by left). by destruct (decide _).
    + rewrite lookup_delete_ne by done. repeat case_decide; rewrite ?elem_of_cons in *; naive_solver.
  - intros tx. rewrite Hr', Ht1, elem_of_app. setoid_rewrite lookup_delete_Some. setoid_rewrite elem_of_cons.
    assert (Hopt : tx ∈ option_list (transactions s !! k) <-> transactions s !! k = Some tx).
    { destruct (transactions s !! k); cbn; rewrite ?list_elem_of_singleton, ?elem_of_nil; naive_solver. }
    rewrite Hopt. split.
    + intros [[?|?]|(k' & ? & ? & ?)]; eauto 6.
    + intros [?|(k' & [->|?] & ?)]; eauto. destruct (decide (k' = k)) as [->|]; eauto 6.
Qed.

(** ** Re-indexing a group *)

Lemma ids_closed s : graph_wf s -> closed (deps s) (ids s).
Proof. intros Hwf p c Hpc. destruct (g_edges s Hwf p c Hpc). tauto. Qed.

Lemma closed_difference d g g' : closed d g -> closed d g' -> closed d (g ∖ g').
Proof. intros H H' p c Hpc. rewrite !elem_of_difference, (H p c), (H' p c) by done. done. Qed.

Lemma closed_empty d : closed d ∅.
Proof. intros p c _. by rewrite !elem_of_empty. Qed.

Lemma cand_same s s' removed x :
  graph_wf s -> transactions s' = transactions s -> deps s' = deps s -> graph_wf s' ->
  cand s' removed x = cand s removed x.
Proof.
  intros Hwf Ht Hd Hwf'. destruct (decide (x ∈ ids s)) as [Hx|Hx].
  - apply (cand_ext s' s (ids s)); try done; [rewrite Hd; by apply ids_closed|by apply ids_closed|].
    split; intros; [by rewrite Ht|by rewrite Hd].
  - unfold cand. rewrite Ht. apply not_elem_of_dom in Hx. by rewrite Hx.
Qed.

Lemma graph_wf_same s s' : transactions s' = transactions s -> deps s' = deps s -> graph_wf s -> graph_wf s'.
Proof. intros Ht Hd [H1 H2 H3 H4]. split; rewrite ?Hd, ?Ht; done. Qed.

Lemma unindex_Ok {E} s g :
  inv s -> g ⊆ ids s ->
  exists order, remove_eviction_candidates (E := E) s g = Ok (with_order s order) /\
    order_for (cand s ∅) (ids s ∖ g) order.
Proof.
  intros Hi Hg. unfold remove_eviction_candidates.
  destruct (remove_candidates_Ok (E := E) s (hash_iter g) (ids s) (eviction_order s))
    as (order & -> & Ho); [apply Hi|by apply i_ok|apply Hi|apply NoDup_hash_iter|..].
  - intros x Hx. rewrite elem_of_hash_iter in Hx. by apply Hg.
  - intros x Hx. rewrite elem_of_hash_iter in Hx. by apply Hg.
  - exists order. split; [done|]. by rewrite list_to_set_hash_iter in Ho.
Qed.

(** [g] and [g'] hold what changed between [s] and [s']. *)
Lemma reindex_Ok {E} s s' g g' order :
  graph_wf s -> graph_wf s' -> caches s' -> eviction_order s' = order ->
  order_for (cand s ∅) (ids s ∖ g) order ->
  closed (deps s) g -> closed (deps s') (ids s ∖ g) -> agree (ids s ∖ g) s s' ->
  g' ## ids s ∖ g -> ids s' = (ids s ∖ g) ∪ (g' ∩ ids s') ->
  exists s'', insert_eviction_candidates (E := E) s' g' = Ok s'' /\ inv s'' /\
    transactions s'' = transactions s' /\ deps s'' = deps s'.
Proof.
  intros Hwf Hwf' Hc Hord Ho Hcl Hcl' Hag Hdis Hids.
  assert (Ho' : order_for (cand s' ∅) (ids s ∖ g) (eviction_order s')).
  { rewrite Hord. apply (order_for_ext (cand s ∅) _ (ids s ∖ g)); [done|done|].
    intros x Hx. apply (cand_ext s s' (ids s ∖ g)); try done. apply closed_difference; [by apply ids_closed|done]. }
  unfold insert_eviction_candidates.
  destruct (insert_candidates_Ok (E := E) s' (hash_iter g') (ids s ∖ g) (eviction_order s'))
    as (order' & -> & Ho''); [done|apply Hc|done|apply NoDup_hash_iter|..].
  { intros x Hx. rewrite elem_of_hash_iter in Hx. intros Hx'. by apply (Hdis x). }
  cbn [res_bind]. exists (with_order s' order'). split; [done|]. split; [|done].
  assert (Hwf'' : graph_wf (with_order s' order')) by (by apply (graph_wf_same s')).
  split; [done|destruct Hc; by split|]. cbn [eviction_order with_order].
  rewrite list_to_set_hash_iter, <- Hids in Ho''. apply (order_for_ext (cand s' ∅) _ (ids s')); [done|done|].
  intros x Hx. symmetry. by apply cand_same.
Qed.

(** ** Removing *)

Lemma rtc_in_ids s x y : graph_wf s -> x ∈ ids s -> rtc (child (deps s)) x y -> y ∈ ids s.
Proof. intros Hwf Hx. induction 1 as [|x y z Hxy _ IH]; [done|]. apply IH. by apply (g_edges s Hwf x y). Qed.

Lemma rtc_linked d x y : rtc (child d) x y -> rtc (linked d) x y.
Proof. apply rtc_subrel. intros ?? H. by left. Qed.

(** Dropping edges and transactions keeps the graph invariant. *)
Lemma graph_wf_sub s s' :
  graph_wf s -> deps_wf (deps s') -> ids s' ⊆ ids s -> (forall p c, child (deps s') p c -> child (deps s) p c) ->
  (forall p c, child (deps s') p c -> p ∈ ids s' /\ c ∈ ids s') -> graph_wf s'.
Proof.
  intros [_ _ Hac Hbd] Hd Hids Hsub Hin. split; [done|done|..].
  - intros x Hx. apply (Hac x). revert Hx. apply tc_subrel. done.
  - intros x Hx. destruct (Hbd x (Hids x Hx)) as (g & Hxg & Hcl & Hsz). exists g. split; [done|]. split; [|done].
    intros p c Hpc. by apply Hcl, Hsub.
Qed.

(** The last step of [remove]: the rest of the group is scored again. *)
Lemma remove_reindex {E} s s1 (g R : gset Hash) order :
  graph_wf s -> closed (deps s) g -> R ⊆ g -> order_for (cand s ∅) (ids s ∖ g) order ->
  caches s1 -> deps_wf (deps s1) -> eviction_order s1 = order ->
  (forall y, transactions s1 !! y = if decide (y ∈ R) then None else transactions s !! y) ->
  (forall p c, child (deps s1) p c <-> child (deps s) p c /\ p ∉ R /\ c ∉ R) ->
  exists s', insert_eviction_candidates (E := E) s1 g = Ok s' /\ inv s' /\
    transactions s' = transactions s1 /\ deps s' = deps s1.
Proof.
  intros Hwf Hcl HRg Ho Hc1 Hdwf Ho1 Ht1 Hch.
  assert (Hids1 : forall y, y ∈ ids s1 <-> y ∈ ids s /\ y ∉ R).
  { intros y. rewrite !elem_of_dom, Ht1. destruct (decide (y ∈ R)); [|tauto]. rewrite is_Some_alt. tauto. }
  assert (Hwf1 : graph_wf s1).
  { apply (graph_wf_sub s); [done|done|intros y Hy; by apply Hids1|..]; intros p c; rewrite Hch; [tauto|].
    intros (Hpc & Hp & Hc). rewrite !Hids1. destruct (g_edges s Hwf p c Hpc). tauto. }
  apply (reindex_Ok (E := E) s s1 g g order); try done.
  - intros p c. rewrite Hch. intros (Hpc & _). by apply (closed_difference _ _ _ (ids_closed s Hwf) Hcl).
  - split.
    + intros y [_ Hy]%elem_of_difference. rewrite Ht1, decide_False; [done|]. intros HyR. by apply Hy, HRg.
    + intros y z [_ Hy]%elem_of_difference. rewrite Hch. split; [|tauto]. intros Hyz. split; [done|].
      split; intros HyR%HRg; apply Hy; [done|by apply (Hcl y z)].
  - clear. set_solver.
  - apply set_eq. intros y. rewrite elem_of_union, elem_of_intersection, elem_of_difference, Hids1.
    specialize (HRg y). destruct (decide (y ∈ g)); tauto.
Qed.

Lemma remove_Ok {E} s k :
  inv s -> k ∈ ids s ->
  exists s' removed (R : gset Hash), remove (E := E) s k = Ok (s', removed) /\ inv s' /\
    (forall y, y ∈ R <-> rtc (child (deps s)) k y) /\
    (forall y, transactions s' !! y = if decide (y ∈ R) then None else transactions s !! y) /\
    (forall p c, child (deps s') p c <-> child (deps s) p c /\ p ∉ R /\ c ∉ R) /\
    (forall tx, tx ∈ removed <-> exists y, y ∈ R /\ transactions s !! y = Some tx).
Proof.
  intros Hi Hk. pose proof (i_graph s Hi) as Hwf. unfold remove.
  destruct (dependency_group_one (E := E) s k Hwf Hk) as (g & -> & Hg & _). cbn [res_bind].
  pose proof (component_closed _ _ _ Hg) as Hcl.
  assert (Hkg : k ∈ g) by (apply (component_start _ _ _ _ Hg); by left).
  assert (Hgs : g ⊆ ids s).
  { apply (component_size (deps s) [k]); [done|by apply ids_closed|]. by intros x ->%list_elem_of_singleton. }
  destruct (unindex_Ok (E := E) s g Hi Hgs) as (order & -> & Ho). cbn [res_bind].
  cbn [transaction_dependencies with_order].
  destruct (remove_all_spec (E := E) (deps s) k (g_deps s Hwf)) as (d & all & -> & Hdwf & HR & Htc & Hch).
  cbn [res_bind]. set (R := {[k]} ∪ all) in *.
  destruct (remove_keys_Ok (E := E) (hash_iter all ++ [k]) (with_dependencies (with_order s order) d) [])
    as (s1 & removed & -> & Hc1 & Hd1 & Ho1 & Ht1 & Hr1).
  { destruct (i_caches s Hi). by split. }
  { apply NoDup_app. split; [apply NoDup_hash_iter|]. split; [|apply NoDup_singleton].
    intros y Hy Hyk. rewrite elem_of_hash_iter in Hy. apply list_elem_of_singleton in Hyk as ->.
    by apply (g_acyclic s Hwf k), Htc. }
  cbn [res_bind]. cbn [transactions transaction_dependencies eviction_order with_dependencies with_order] in *.
  assert (Hin : forall y, y ∈ hash_iter all ++ [k] <-> y ∈ R).
  { intros y. unfold R. rewrite elem_of_app, elem_of_hash_iter, list_elem_of_singleton, elem_of_union, elem_of_singleton.
    tauto. }
  assert (Ht1' : forall y, transactions s1 !! y = if decide (y ∈ R) then None else transactions s !! y).
  { intros y. rewrite Ht1. by rewrite (decide_ext _ _ _ _ (Hin y)). }
  destruct (remove_reindex (E := E) s s1 g R order) as (s' & -> & Hi' & Ht' & Hd'); rewrite ?Hd1; try done.
  { intros y Hy. apply HR, rtc_linked in Hy. by apply (closed_component (deps s) g k y). }
  exists s', removed, R. split; [done|]. split; [done|]. split; [done|]. split; [by rewrite Ht'|].
  split; [intros p c; by rewrite Hd', Hd1, Hch|]. intros tx. rewrite Hr1, elem_of_nil. setoid_rewrite Hin. tauto.
Qed.

(** A path that ends outside a set closed under children stays outside it. *)
Lemma rtc_avoid d (R : gset Hash) x y :
  (forall p c, child d p c -> p ∈ R -> c ∈ R) -> y ∉ R -> rtc (child d) x y ->
  x ∉ R /\ rtc (fun p c => child d p c /\ p ∉ R /\ c ∉ R) x y.
Proof.
  intros HR Hy. induction 1 as [|x z y Hxz _ IH]; [done|]. destruct (IH Hy) as [Hz Hr].
  assert (x ∉ R) by (intros Hx; by apply Hz, (HR x)). split; [done|]. by eapply rtc_l.
Qed.

(** ** Mined dependencies *)

Lemma mined_groups_Ok {E} s l : forall g0,
  graph_wf s -> closed (deps s) g0 -> g0 ⊆ ids s ->
  exists g, mined_groups (E := E) s l g0 = Ok g /\ closed (deps s) g /\ g ⊆ ids s /\ g0 ⊆ g /\
    (forall x, x ∈ l -> x ∈ ids s -> x ∈ g).
Proof.
  induction l as [|k l IH]; intros g0 Hwf Hcl Hg0; cbn [mined_groups].
  { exists g0. repeat (split; [done|]). by intros x ?%elem_of_nil. }
  destruct (contains s k) eqn:Hc.
  - apply contains_spec in Hc.
    destruct (dependency_group_one (E := E) s k Hwf Hc) as (g1 & -> & Hg1 & _). cbn [res_bind].
    pose proof (component_closed _ _ _ Hg1) as Hcl1.
    assert (Hgs : g1 ⊆ ids s).
    { apply (component_size (deps s) [k]); [done|by apply ids_closed|]. by intros x ->%list_elem_of_singleton. }
    assert (Hk1 : k ∈ g1) by (apply (component_start _ _ _ _ Hg1); by left).
    destruct (IH (g0 ∪ g1) Hwf) as (g & -> & Hcl' & Hg & Hsub & Hin); [by apply closed_union|by apply union_least|].
    exists g. split; [done|]. split; [done|]. split; [done|]. split; [clear -Hsub; set_solver|].
    intros x [->|Hx]%elem_of_cons Hxs; [apply Hsub; clear -Hk1; set_solver|by apply Hin].
  - apply not_true_iff_false in Hc. rewrite contains_spec in Hc.
    destruct (IH g0 Hwf Hcl Hg0) as (g & -> & Hcl' & Hg & Hsub & Hin).
    exists g. repeat (split; [done|]). intros x [->|Hx]%elem_of_cons Hxs; [done|by apply Hin].
Qed.

Lemma clear_mined_Ok {E} s mined :
  inv s ->
  exists s', clear_mined_dependencies (E := E) s mined = Ok s' /\ inv s' /\ transactions s' = transactions s /\
    (forall p c, child (deps s') p c <-> child (deps s) p c /\ p ∉ mined).
Proof.
  intros Hi. pose proof (i_graph s Hi) as Hwf. unfold clear_mined_dependencies.
  destruct (mined_groups_Ok (E := E) s (hash_iter mined) ∅ Hwf) as (g & -> & Hcl & Hgs & _ & Hin);
    [apply closed_empty|apply empty_subseteq|]. cbn [res_bind].
  setoid_rewrite elem_of_hash_iter in Hin.
  destruct (unindex_Ok (E := E) s g Hi Hgs) as (order & -> & Ho). cbn [res_bind].
  cbn [transaction_dependencies with_order].
  destruct (clear_mined_dependencies_spec (deps s) mined (g_deps s Hwf)) as [Hdwf Hch].
  set (d := Dependencies.clear_mined_dependencies (deps s) mined) in *.
  assert (Hwf1 : graph_wf (with_dependencies (with_order s order) d)).
  { apply (graph_wf_sub s); [done|done|done|..]; cbn [transactions transaction_dependencies with_dependencies with_order];
      intros p c Hpc%Hch; [by apply Hpc|by apply (g_edges s Hwf), Hpc]. }
  destruct (reindex_Ok (E := E) s (with_dependencies (with_order s order) d) g g order)
    as (s' & -> & Hi' & Ht' & Hd'); cbn [transactions transaction_dependencies with_dependencies with_order]; try done.
  - destruct (i_caches s Hi). by split.
  - intros p c [Hpc _]%Hch. by apply (closed_difference _ _ _ (ids_closed s Hwf) Hcl).
  - split; [done|]. intros y z [_ Hy]%elem_of_difference. cbn. rewrite Hch. split; [|by intros [? _]].
    intros Hyz. split; [done|]. intros Hm. apply Hy, Hin; [done|]. by apply (g_edges s Hwf y z).
  - clear. set_solver.
  - apply set_eq. intros y. rewrite elem_of_union, elem_of_intersection, elem_of_difference.
    destruct (decide (y ∈ g)); tauto.
  - exists s'. split; [done|]. split; [done|]. split; [done|]. intros p c. by rewrite Hd', <- Hch.
Qed.

(** ** Inserting *)

(** The unconfirmed transactions that [spent] depends on. *)
Definition ancestor_of s (spent : list OutPoint) x : Prop :=
  exists o, o ∈ spent /\ rtc (child (deps s)) x (op_hash o).

(** What [check_insert] promises of the ancestors it returns. *)
Record insertable s (t : Transaction) (spent : list OutPoint) (a : gset Hash) : Prop := {
  ins_conflicts : has_spend_conflicts s t = false;
  ins_outputs : forall o, o ∈ spent -> is_Some (created_outputs s !! o);
  ins_parents : forall o, o ∈ spent -> op_hash o ∈ a;
  ins_ancestors : forall x, x ∈ a -> ancestor_of s spent x;
  ins_closed : forall x p, x ∈ a -> child (deps s) p x -> p ∈ a;
  ins_group : exists g, component_of (deps s) (hash_iter a) g /\ (size g < 3)%nat /\
    forall E, dependency_group (E := E) s (hash_iter a) = Ok g;
}.

Lemma dependency_group_any {E E'} s l g :
  graph_wf s -> dependency_group (E := E) s l = Ok g -> dependency_group (E := E') s l = Ok g.
Proof.
  intros _. unfold dependency_group. generalize (S (length l + 4 * size (transactions s))) (reverse l) (∅ : gset Hash).
  intros fuel. induction fuel as [|fuel IH]; intros pending g0; cbn [group_loop]; [done|].
  destruct pending as [|x pending]; [congruence|]. repeat case_match; try congruence; apply IH.
Qed.

(** [check_insert] never panics; it rejects a conflicting spend first, then a
    missing output, then a chain or a package that is too long. *)
Lemma check_insert_spec s t spent :
  graph_wf s ->
  match check_insert s t spent with
  | Ok a => insertable s t spent a
  | Err SpendConflict => has_spend_conflicts s t = true
  | Err MissingOutput => has_spend_conflicts s t = false /\ exists o, o ∈ spent /\ created_outputs s !! o = None
  | Err TooManyAncestors => exists a : gset Hash, (2 < size a)%nat /\ forall x, x ∈ a -> ancestor_of s spent x
  | Err TooManyPackageTransactions =>
      exists g : gset Hash, (3 <= size g)%nat /\
        forall y, y ∈ g -> exists x, ancestor_of s spent x /\ rtc (linked (deps s)) x y
  | Panic => False
  end.
Proof.
  intros Hwf. unfold check_insert. destruct (has_spend_conflicts s t) eqn:Hconf; [done|].
  destruct (forallb _ spent) eqn:Hall; cbn [negb].
  2: { split; [done|]. apply not_true_iff_false in Hall. rewrite forallb_forall in Hall.
       destruct (decide (Exists (fun o => created_outputs s !! o = None) spent)) as [(o & Ho & Hn)%Exists_exists|Hn];
         [by exists o|]. destruct Hall. intros o Ho%list_elem_of_In. apply bool_decide_eq_true.
       rewrite Exists_exists in Hn. destruct (created_outputs s !! o) eqn:Hc; [done|]. destruct Hn. by exists o. }
  assert (Hout : forall o, o ∈ spent -> is_Some (created_outputs s !! o)).
  { intros o Ho. rewrite forallb_forall in Hall. apply (proj1 (bool_decide_eq_true _)), Hall. by apply list_elem_of_In. }
  destruct (ancestors_spec (E := SameEffectsTipRejectionError) s (hash_iter (list_to_set (op_hash <$> spent))) Hwf)
    as (a & -> & Ha3 & Hanc & Hdone). cbn [res_bind].
  change MAX_MEMPOOL_ANCESTORS with 2. setoid_rewrite elem_of_hash_iter in Hanc.
  setoid_rewrite elem_of_list_to_set in Hanc.
  assert (Hanc' : forall x, x ∈ a -> ancestor_of s spent x).
  { intros x Hx. destruct (Hanc x Hx) as (p & (o & -> & Ho)%list_elem_of_fmap & Hr). by exists o. }
  destruct (Z.ltb_spec 2 (Z.of_nat (size a))) as [Hlt|Hle]; [exists a; split; [lia|done]|].
  destruct (dependency_group_spec (E := SameEffectsTipRejectionError) s (hash_iter a) Hwf) as (g & Hg & Hcomp & Hlink & _).
  rewrite Hg. cbn [res_bind]. change MAX_MEMPOOL_PACKAGE_TRANSACTIONS with 3.
  destruct (Z.leb_spec 3 (Z.of_nat (size g))) as [H3|H3].
  { exists g. split; [lia|]. intros y (x & Hx & Hxy)%Hlink. rewrite elem_of_hash_iter in Hx. eauto. }
  destruct Hdone as [Hp Hc]; [lia|]. setoid_rewrite elem_of_hash_iter in Hp.
  setoid_rewrite elem_of_list_to_set in Hp. split; try done.
  - intros o Ho. apply Hp. apply list_elem_of_fmap. by exists o.
  - exists g. split; [apply Hcomp; lia|]. split; [lia|]. intros E. by apply (dependency_group_any _ _ _ Hwf Hg).
Qed.
End Operations.
End VerifiedFacts.
