(* ===== verification/VerifiedInsert.v ===== *)
(** * Insertion into the verified set

    [insert] keeps the invariant, adds one transaction with the edges from the
    outputs it spends, and answers the requests that waited for its outputs;
    every failure is one of [check_insert], before anything changed. *)

From stdpp Require Import base numbers list option gmap sets relations.
From Stdlib Require Import ZArith Lia.
From S2P Require Import Prelude BSet Zip317 EvictionCost HashIter Dependencies MempoolTx VerifiedSet VerifiedGraph VerifiedCaches VerifiedScores VerifiedFacts.
Local Open Scope Z_scope.

Module VerifiedInsert.
Import MempoolTx Dependencies VerifiedSet VerifiedGraph VerifiedCaches VerifiedScores VerifiedFacts.

Implicit Types (s : VerifiedSet) (x y k : Hash) (g : gset Hash) (tx : VerifiedUnminedTx).

(** ** The graph with one more transaction *)

Section Graph.
Context (s s1 : VerifiedSet) (x : Hash) (spent : list OutPoint) (g : gset Hash).
Hypothesis (Hwf : graph_wf s) (Hx : x ∉ ids s) (Hd : deps s1 = add (deps s) x spent).
Hypothesis (Hids : ids s1 = {[x]} ∪ ids s) (Hcl : closed (deps s) g) (Hg : g ⊆ ids s) (Hsize : (size g < 3)%nat).
Hypothesis (Hspent : forall p, p ∈ op_hash <$> spent -> p ∈ g).

Lemma new_child p c : child (deps s1) p c <-> child (deps s) p c \/ (c = x /\ p ∈ op_hash <$> spent).
Proof. rewrite Hd. apply add_child. Qed.

Lemma new_isolated p c : child (deps s) p c -> p <> x /\ c <> x.
Proof using Hwf Hx. intros Hpc. destruct (g_edges s Hwf p c Hpc). split; intros ->; done. Qed.

Lemma new_deps_wf : deps_wf (deps s1).
Proof using Hwf Hx Hd.
  rewrite Hd. apply add_wf; [apply Hwf|]. apply elem_of_equiv_empty_L. intros p Hp.
  apply (wf_converse _ (g_deps s Hwf)) in Hp. by apply new_isolated in Hp as [_ ?].
Qed.

Lemma new_tc y z : tc (child (deps s1)) y z -> tc (child (deps s)) y z \/ z = x.
Proof using Hwf Hx Hd.
  induction 1 as [y z [H|[-> _]]%new_child|y w z [H|[-> _]]%new_child _ IH]; [left; by apply tc_once|by right|..].
  - destruct IH as [IH|]; [left; by eapply tc_l|by right].
  - destruct IH as [IH|]; [|by right]. exfalso. inversion IH as [? ? Hn|? ? ? Hn _]; by apply new_isolated in Hn as [? _].
Qed.

Lemma new_acyclic y : ~ tc (child (deps s1)) y y.
Proof using Hwf Hx Hd Hspent Hg.
  intros Hy. destruct (new_tc y y Hy) as [Hn| ->]; [by apply (g_acyclic s Hwf y)|].
  assert (Hno : forall w, ~ child (deps s1) x w).
  { intros w [[? _]%new_isolated|[_ Hin%Hspent]]%new_child; [done|]. by apply Hx, Hg. }
  inversion Hy as [? ? H|? w ? H _]; by apply Hno in H.
Qed.

(** Old closed sets that avoid the parents, or hold all of them, stay closed. *)
Lemma new_closed_out g' : closed (deps s) g' -> x ∉ g' -> g' ## g -> closed (deps s1) g'.
Proof using Hd Hspent.
  intros Hcl' Hx' Hdis p c [Hpc|[-> Hp%Hspent]]%new_child; [by apply Hcl'|].
  split; [|done]. intros Hin. by destruct (Hdis p).
Qed.

Lemma new_closed_in : closed (deps s1) ({[x]} ∪ g).
Proof using Hwf Hx Hd Hcl Hspent.
  intros p c [Hpc|[-> Hp%Hspent]]%new_child; rewrite !elem_of_union, !elem_of_singleton; [|tauto].
  destruct (new_isolated p c Hpc). rewrite (Hcl p c Hpc). tauto.
Qed.

Lemma new_graph_wf : graph_wf s1.
Proof using All.
  split; [by apply new_deps_wf| |by apply new_acyclic|].
  - intros p c [Hpc|[-> Hp%Hspent%Hg]]%new_child; rewrite Hids, !elem_of_union, !elem_of_singleton; [|tauto].
    destruct (g_edges s Hwf p c Hpc). tauto.
  - intros y Hy. destruct (decide (y ∈ {[x]} ∪ g)) as [Hin|Hin].
    + exists ({[x]} ∪ g). split; [done|]. split; [by apply new_closed_in|].
      rewrite size_insert_new; [lia|]. intros ?%Hg. done.
    + rewrite Hids in Hy. apply not_elem_of_union in Hin as [Hyx Hyg].
      destruct (g_bounded s Hwf y) as (g' & Hyg' & Hcl' & Hsz); [clear -Hy Hyx; set_solver|].
      exists (g' ∖ ({[x]} ∪ g)). split; [clear -Hyx Hyg Hyg'; set_solver|]. split.
      * apply new_closed_out; [|clear; set_solver|clear; set_solver]. apply closed_difference; [done|].
        apply closed_union; [|done]. intros p c Hpc. rewrite !elem_of_singleton.
        destruct (new_isolated p c Hpc). tauto.
      * etransitivity; [|exact Hsz]. apply subseteq_size, subseteq_difference_l. done.
Qed.

(** The component of the new transaction. *)
Lemma new_component (a group : gset Hash) :
  (forall y, y ∈ g -> exists z, z ∈ a /\ rtc (linked (deps s)) z y) ->
  (forall z, z ∈ a -> exists o, o ∈ spent /\ rtc (child (deps s)) z (op_hash o)) ->
  component_of (deps s1) [x] group -> group = {[x]} ∪ g.
Proof using Hwf Hx Hd Hcl Hspent.
  intros Hga Ha Hgroup. apply set_eq. intros y. split.
  - apply (component_size (deps s1) [x]); [done|by apply new_closed_in|].
    intros z ->%list_elem_of_singleton. clear. set_solver.
  - assert (Hold : forall u v, rtc (linked (deps s)) u v -> rtc (linked (deps s1)) u v).
    { intros u v. apply rtc_subrel. intros p c [H|H]; [left|right]; apply new_child; by left. }
    rewrite elem_of_union, elem_of_singleton, (Hgroup y). setoid_rewrite list_elem_of_singleton.
    intros [->|Hy]; [by exists x|]. exists x. split; [done|].
    destruct (Hga y Hy) as (z & Hz & Hzy). destruct (Ha z Hz) as (o & Ho & Hzo).
    eapply rtc_l with (op_hash o); [right; apply new_child; right; split; [done|]; apply list_elem_of_fmap; by exists o|].
    transitivity z; [|by apply Hold]. apply Hold. apply rtc_linked in Hzo. revert Hzo. clear. induction 1 as [|u v w Huv _ IH]; [done|].
    eapply rtc_r; [exact IH|]. by apply linked_sym.
Qed.
End Graph.

(** ** The operation *)

(** The stored transaction: the given one with its insertion time and height. *)
Definition stamp tx (height : option Z) (now : Z) : VerifiedUnminedTx :=
  mkVerified (unmined_id tx) (transaction tx) (fees tx) (fee_weight_ratio tx) (Some now) height (spent_outputs tx).

Lemma stamp_ok tx height now : tx_ok tx -> tx_ok (stamp tx height now).
Proof. intros [? ? ? ?]. by split. Qed.

Section Insert.
Context {HO : HashOrder}.

Lemma spent_in_ids s t spent a : caches s -> insertable s t spent a -> forall p, p ∈ op_hash <$> spent -> p ∈ ids s.
Proof.
  intros Hc Hi p (o & -> & Ho)%list_elem_of_fmap. destruct (ins_outputs _ _ _ _ Hi o Ho) as [out Hout].
  apply (c_created s Hc) in Hout as (tx & Htx & _). by apply elem_of_dom_2 in Htx.
Qed.

(** The group that [insert] re-scores. *)
Record affected_group s (a : gset Hash) (spent : list OutPoint) g : Prop := {
  ag_group : forall E, dependency_group (E := E) s (hash_iter a) = Ok g;
  ag_closed : closed (deps s) g;
  ag_ids : g ⊆ ids s;
  ag_size : (size g < 3)%nat;
  ag_spent : forall p, p ∈ op_hash <$> spent -> p ∈ g;
  ag_linked : forall y, y ∈ g -> exists z, z ∈ a /\ rtc (linked (deps s)) z y;
  ag_ancestors : forall z, z ∈ a -> exists o, o ∈ spent /\ rtc (child (deps s)) z (op_hash o);
}.

Lemma insertable_group s t spent a :
  graph_wf s -> caches s -> insertable s t spent a -> exists g, affected_group s a spent g.
Proof.
  intros Hwf Hc Hi. pose proof (spent_in_ids _ _ _ _ Hc Hi) as Hsp.
  destruct (ins_group _ _ _ _ Hi) as (g & Hg & Hg3 & Hdg). exists g.
  assert (Ha : forall y, y ∈ a -> y ∈ ids s).
  { intros y (o & Ho & Hr)%(ins_ancestors _ _ _ _ Hi).
    destruct (rtc_inv _ _ Hr) as [->|(z & Hz & _)]; [|by apply (g_edges s Hwf y z)].
    apply Hsp, list_elem_of_fmap. by exists o. }
  split; [done|by apply (component_closed _ _ _ Hg)| |done|..].
  - apply (component_size (deps s) (hash_iter a)); [done|by apply ids_closed|].
    intros y Hy. rewrite elem_of_hash_iter in Hy. by apply Ha.
  - intros p (o & -> & Ho)%list_elem_of_fmap. apply (component_start _ _ _ _ Hg), elem_of_hash_iter.
    by apply (ins_parents _ _ _ _ Hi).
  - intros y (z & Hz & Hzy)%(Hg y). rewrite elem_of_hash_iter in Hz. by exists z.
  - apply (ins_ancestors _ _ _ _ Hi).
Qed.

(** The last two steps of [insert]: the group of the new transaction is scored
    and indexed. *)
Lemma insert_reindex {E} s s1 k tx spent a g order :
  graph_wf s -> caches s1 -> k ∉ ids s -> affected_group s a spent g ->
  transactions s1 = <[k := tx]> (transactions s) -> deps s1 = add (deps s) k spent -> eviction_order s1 = order ->
  order_for (cand s ∅) (ids s ∖ g) order ->
  exists s', (let? group := dependency_group s1 [k] in insert_eviction_candidates (E := E) s1 group) = Ok s' /\
    inv s' /\ transactions s' = transactions s1 /\ deps s' = deps s1.
Proof.
  intros Hwf Hc1 Hx [_ Hcl Hgs Hg3 Hpg Hga Ha] Ht1 Hd1 Hord Ho.
  assert (Hids1 : ids s1 = {[k]} ∪ ids s) by (by rewrite Ht1, dom_insert_L).
  assert (Hwf1 : graph_wf s1) by (by apply (new_graph_wf s s1 k spent g)).
  destruct (dependency_group_one (E := E) s1 k Hwf1) as (group & -> & Hgroup & _);
    [rewrite Hids1; clear; set_solver|]. cbn [res_bind].
  rewrite (new_component s s1 k spent g Hwf Hx Hd1 Hcl Hpg a group) by done.
  apply (reindex_Ok (E := E) s s1 g ({[k]} ∪ g) order); try done.
  - apply (new_closed_out s s1 k spent g); [done|done| |clear -Hx; set_solver|clear; set_solver].
    apply closed_difference; [by apply ids_closed|done].
  - split.
    + intros y [Hy _]%elem_of_difference. rewrite Ht1, lookup_insert_ne; [done|]. by intros <-.
    + intros y z [Hy Hyg]%elem_of_difference. rewrite (new_child s s1 k spent Hd1). split; [by left|].
      intros [?|[_ ?%Hpg]]; done.
  - clear -Hx. set_solver.
  - rewrite Hids1. apply set_eq. intros y. specialize (Hgs y).
    rewrite !elem_of_union, elem_of_intersection, elem_of_difference, !elem_of_union, elem_of_singleton.
    destruct (decide (y ∈ g)), (decide (y ∈ ids s)); tauto.
Qed.

Lemma insert_spec s tx spent pending height now :
  let k := mined_id (unmined_id tx) in
  inv s -> tx_ok tx -> transactions s !! k = None -> total_cost s + cost_of tx < 2 ^ 31 ->
  match insert s tx spent pending height now with
  | Ok (s', pending') =>
      inv s' /\ transactions s' = <[k := stamp tx height now]> (transactions s) /\
      (exists a, check_insert s (transaction tx) spent = Ok a) /\
      (forall p c, child (deps s') p c <-> child (deps s) p c \/ (c = k /\ p ∈ op_hash <$> spent)) /\
      (forall o, PendingOutputs.waiting pending' !! o =
         if in_range k 0 (length (outputs (transaction tx))) o then None else PendingOutputs.waiting pending !! o)
  | Err e => check_insert s (transaction tx) spent = Err e
  | Panic => False
  end.
Proof.
  intros k Hi Hok Hk Hb. pose proof (i_graph s Hi) as Hwf. pose proof (i_caches s Hi) as Hc. unfold insert.
  pose proof (check_insert_spec s (transaction tx) spent Hwf) as Hcheck.
  destruct (check_insert s (transaction tx) spent) as [a|e|]; [|done|done]. cbn [res_bind].
  destruct (insertable_group _ _ _ _ Hwf Hc Hcheck) as (g & Hg). rewrite (ag_group _ _ _ _ Hg). cbn [res_bind].
  destruct (unindex_Ok (E := SameEffectsTipRejectionError) s g Hi (ag_ids _ _ _ _ Hg)) as (order & -> & Ho).
  cbn [res_bind].
  cbn [transactions eviction_order transaction_dependencies created_outputs transactions_serialized_size
    total_cost VerifiedSet.metrics set_spent_outpoints set_sprout_nullifiers set_sapling_nullifiers
    set_orchard_nullifiers set_ironwood_nullifiers with_order].
  fold k (stamp tx height now).
  destruct (create_outputs_Ok (E := SameEffectsTipRejectionError) k (outputs (transaction tx)) 0
    (created_outputs s) pending) as (created & pending' & -> & Hcr & Hpend); [lia|apply Hok|]. cbn [res_bind].
  pose proof (size_le_cost _ (c_ok s Hc)) as Hsc. pose proof (c_size s Hc) as Hsz. pose proof (c_cost s Hc) as Hct.
  pose proof (c_bound s Hc). pose proof (cost_range tx Hok). pose proof (ok_size _ Hok).
  unfold Zip317.MAX_BLOCK_BYTES in *.
  rewrite uint_arith_Ok by lia. cbn [res_bind]. rewrite tx_cost_Ok by done. cbn [res_bind].
  rewrite uint_arith_Ok by lia. cbn [res_bind]. pose proof (stamp_ok tx height now Hok) as Hok'.
  rewrite (c_metrics s Hc), (metrics_insert _ k); [|done|apply all_ok_insert; [apply Hc|done]|
    by apply caches_insert_total]. cbn [res_bind].
  pose proof (caches_insert s (stamp tx height now) k created order (add (deps s) k spent)
    Hc Hok' eq_refl Hk Hb (ins_conflicts _ _ _ _ Hcheck) Hcr) as Hc1.
  change (tx_size (stamp tx height now)) with (tx_size tx) in Hc1.
  change (cost_of (stamp tx height now)) with (cost_of tx) in Hc1.
  change (transaction (stamp tx height now)) with (transaction tx) in Hc1.
  set (s1 := mkSet _ _ _ _ _ _ _ _ _ _ _ _) in *.
  destruct (insert_reindex (E := SameEffectsTipRejectionError) s s1 k (stamp tx height now) spent a g order)
    as (s' & Hs' & Hi' & Ht' & Hd'); [done|done|by apply not_elem_of_dom|done..|].
  destruct (dependency_group s1 [k]) as [group| |]; [|done|done]. cbn [res_bind] in *. rewrite Hs'. cbn [res_bind].
  split; [done|]. split; [done|]. split; [by exists a|]. split; [|done].
  intros p c. rewrite Hd'. apply (new_child s s1 k spent eq_refl).
Qed.
End Insert.
End VerifiedInsert.
