(* ===== verification/EvictionSelect.v ===== *)
(** * Choosing eviction victims, and removing them

    The specification of [select_eviction_victims] is the greedy choice: as long
    as too little is freed, take the least candidate of what remains, scored
    against what remains, and drop it with its dependents.  The code walks the
    index once instead, keeping a second ordered set of the scores that changed;
    it makes the same choice, and ends.

    [VerifiedRemove]: [shrunk v v' W] is that [v'] is [v] without the transactions
    of [W], and [takes v l W] that [W] holds the stored transactions of [l] and
    all that depend on them.  [remove] and [remove_all] remove exactly those, and
    return their ids. *)

From stdpp Require Import base numbers list option gmap sets relations sorting.
From Stdlib Require Import ZArith Lia.
From S2P Require Import Prelude EvictionList BSet Zip317 EvictionCost HashIter Dependencies MempoolTx VerifiedSet VerifiedGraph VerifiedCaches VerifiedScores VerifiedFacts VerifiedInsert.
Local Open Scope Z_scope.

Module EvictionSelect.
Import MempoolTx Dependencies VerifiedSet VerifiedGraph VerifiedCaches VerifiedScores VerifiedFacts.

Implicit Types (s : VerifiedSet) (x y : Hash) (U C X : gset Hash) (c : EvictionCandidate) (f : Hash -> EvictionCandidate).

(** ** The specification *)

(** [c] is the least candidate of the transactions of [X]. *)
Definition is_min f X c : Prop :=
  exists x, x ∈ X /\ c = f x /\ forall y, y ∈ X -> y <> x -> candidate_lt c (f y).

(** The package a victim takes along. *)
Definition taken s x U : gset Hash := {[x]} ∪ desc s x U.

Lemma elem_of_taken s x U y : y ∈ taken s x U <-> y = x \/ y ∈ desc s x U.
Proof. unfold taken. by rewrite elem_of_union, elem_of_singleton. Qed.

Inductive picks s (incoming : EvictionCost.EvictionCost) (needed : Z)
  : gset Hash -> option EvictionCost.EvictionCost -> list Hash -> Z -> EvictionVictims -> Prop :=
| picks_enough U cheapest roots freed :
    needed <= freed -> picks s incoming needed U cheapest roots freed (mkVictims (Some roots) cheapest)
| picks_none U cheapest roots freed :
    freed < needed -> ids s ⊆ U -> picks s incoming needed U cheapest roots freed (mkVictims None cheapest)
| picks_cheap U cheapest roots freed c :
    freed < needed -> is_min (cand s U) (ids s ∖ U) c ->
    EvictionCost.exceeds_by_increment incoming (score c) = false ->
    picks s incoming needed U cheapest roots freed (mkVictims None (Some (default (score c) cheapest)))
| picks_next U cheapest roots freed c v :
    freed < needed -> is_min (cand s U) (ids s ∖ U) c ->
    EvictionCost.exceeds_by_increment incoming (score c) = true ->
    picks s incoming needed (U ∪ taken s (candidate_id c) U) (Some (default (score c) cheapest))
      (roots ++ [candidate_id c]) (freed + ssum (cost_at s) (taken s (candidate_id c) U)) v ->
    picks s incoming needed U cheapest roots freed v.

(** ** Sums of costs *)

Lemma ssum_subseteq s X Y : stored_ok s -> X ⊆ Y -> ssum (cost_at s) X <= ssum (cost_at s) Y.
Proof.
  intros Hok HXY. rewrite (union_difference_L X Y HXY), ssum_union by (clear; set_solver).
  assert (0 <= ssum (cost_at s) (Y ∖ X)) by (apply ssum_nonneg; intros; by apply cost_at_nonneg). lia.
Qed.

Lemma msum_ssum (h : VerifiedUnminedTx -> Z) (m : gmap Hash VerifiedUnminedTx) :
  msum h m = ssum (fun x => match m !! x with Some tx => h tx | None => 0 end) (dom m).
Proof.
  induction m as [|k tx m Hk IH] using map_ind; [by rewrite msum_empty, dom_empty_L, ssum_empty|].
  rewrite msum_insert, dom_insert_L, ssum_insert by (done || by apply not_elem_of_dom).
  rewrite lookup_insert_eq, IH. f_equal. apply ssum_ext. intros x Hx. rewrite lookup_insert_ne; [done|].
  intros <-. apply elem_of_dom in Hx as [? ?]. congruence.
Qed.

Lemma total_cost_ssum s : caches s -> total_cost s = ssum (cost_at s) (ids s).
Proof. intros Hc. rewrite (c_cost s Hc). apply msum_ssum. Qed.

Lemma cost_subset s X : caches s -> X ⊆ ids s -> 0 <= ssum (cost_at s) X < 2 ^ 31.
Proof.
  intros Hc HX. pose proof (c_bound s Hc). pose proof (total_cost_ssum s Hc).
  pose proof (ssum_subseteq s X (ids s) (c_ok s Hc) HX).
  assert (0 <= ssum (cost_at s) X) by (apply ssum_nonneg; intros; by apply cost_at_nonneg, Hc). lia.
Qed.

(** ** Least candidates *)

Section Min.
Context (f : Hash -> EvictionCandidate) (Hf : candidates_of f).

Lemma order_nil X : order_for f X [] -> X = ∅.
Proof.
  intros Ho. apply elem_of_equiv_empty_L. intros x Hx.
  assert (Hn : f x ∈ []) by (apply (of_elem _ _ _ Ho); by exists x). by apply elem_of_nil in Hn.
Qed.

Lemma order_cons X c l :
  order_for f X (c :: l) -> is_min f X c /\ order_for f (X ∖ {[candidate_id c]}) l.
Proof using Hf.
  intros Ho. destruct (proj1 (bs_wf_cons _ _ _) (of_sorted _ _ _ Ho)) as [Hw Hlt].
  destruct (proj1 (of_elem _ _ _ Ho c)) as (x & Hx & ->); [by left|]. rewrite (proj1 (Hf x)).
  assert (Hl : forall y, y ∈ X -> y <> x -> f y ∈ l).
  { intros y Hy Hne. assert (Hin : f y ∈ f x :: l) by (apply (of_elem _ _ _ Ho); by exists y).
    apply elem_of_cons in Hin as [Heq|Hin]; [|done]. exfalso. apply Hne.
    by rewrite <- (proj1 (Hf y)), Heq, (proj1 (Hf x)). }
  split; [exists x; split; [done|]; split; [done|]; intros y Hy Hne; by apply Hlt, Hl|].
  split; [done|]. intros d. split.
  - intros Hd. destruct (proj1 (of_elem _ _ _ Ho d)) as (y & Hy & ->); [by right|]. exists y. split; [|done].
    apply elem_of_difference. split; [done|]. intros ->%elem_of_singleton.
    apply (candidate_lt_irrefl (f x)); [by apply Hf|by apply Hlt].
  - intros (y & [Hy Hne]%elem_of_difference & ->). apply Hl; [done|]. intros ->. by apply Hne, elem_of_singleton.
Qed.

(** The least of two disjoint parts. *)
Lemma is_min_union X Y x :
  is_min f X (f x) -> (forall y, y ∈ Y -> candidate_lt (f x) (f y)) -> is_min f (X ∪ Y) (f x).
Proof using Hf.
  intros (z & Hz & Heq & Hlt) HY. assert (z = x) as -> by (by rewrite <- (proj1 (Hf z)), <- Heq, (proj1 (Hf x))).
  exists x. split; [by apply elem_of_union_l|]. split; [done|]. intros y [Hy|Hy]%elem_of_union Hne; [by apply Hlt|by apply HY].
Qed.

Lemma is_min_le X c d y :
  is_min f X c -> y ∈ X -> candidate_wf d -> candidate_lt d c -> candidate_lt d (f y).
Proof using Hf.
  intros (x & Hx & -> & Hlt) Hy Hd Hdc. destruct (decide (y = x)) as [->|Hne]; [done|].
  apply (candidate_lt_trans d (f x)); [done|by apply Hf|by apply Hf|done|by apply Hlt].
Qed.
End Min.

Lemma is_min_ext f f' X X' c :
  (forall x, x ∈ X -> f x = f' x) -> X = X' -> is_min f X c -> is_min f' X' c.
Proof.
  intros Hf <- (x & Hx & -> & Hlt). exists x. split; [done|]. split; [by apply Hf|].
  intros y Hy Hne. rewrite <- (Hf y) by done. by apply Hlt.
Qed.

(** ** The loop *)

Section Select.
Context {HO : HashOrder} (s : VerifiedSet) (U0 : gset Hash).
Hypothesis (Hi : inv s).
(** The protected transactions come with their dependencies. *)
Hypothesis (HU0 : forall p ch, child (deps s) p ch -> ch ∈ U0 -> p ∈ U0).

Let Hwf : graph_wf s := i_graph s Hi.
Let Hok : stored_ok s := i_ok s Hi.

(** The index, as far as it is not walked yet. *)
Record unwalked C U (candidates : list EvictionCandidate) : Prop := {
  uw_sorted : bs_wf candidate_lt candidates;
  uw_elem : forall c, c ∈ candidates -> exists x, x ∈ ids s /\ c = cand s ∅ x;
  uw_all : forall x, x ∈ ids s -> x ∉ C -> x ∉ U -> cand s ∅ x ∈ candidates;
}.

Record loop_inv U C (updated candidates : list EvictionCandidate) : Prop := {
  l_protected : U0 ⊆ U;
  l_changed : U ∖ U0 ⊆ C;
  l_closed : closed (deps s) C;
  l_ids : C ⊆ ids s;
  l_updated : order_for (cand s U) (C ∖ U) updated;
  l_candidates : unwalked C U candidates;
}.

(** The index still has the right score of an unchanged transaction. *)
Lemma unchanged_cand U C updated candidates x :
  loop_inv U C updated candidates -> x ∉ C -> x ∉ U -> cand s ∅ x = cand s U x.
Proof using Hi HU0.
  intros HL HxC HxU. unfold cand. destruct (transactions s !! x) as [tx|]; [|done]. f_equal. unfold pkg.
  do 3 f_equal. apply set_eq. intros y. rewrite !elem_of_desc by done.
  assert (Hstep : forall z, tc (child (deps s)) x z -> z ∉ U).
  { intros z Hz HzU. destruct (decide (z ∈ U0)) as [Hz0|Hz0].
    - apply HxU, (l_protected _ _ _ _ HL). revert Hz0. clear -Hz HU0. induction Hz; eauto.
    - apply HxC, (closed_tc _ _ _ _ (l_closed _ _ _ _ HL) Hz), (l_changed _ _ _ _ HL). by apply elem_of_difference. }
  split.
  - revert y. apply tc_ind_r.
    + intros y [Hxy [_ Hy]]. apply tc_once. split; [done|]. split; [|done]. apply Hstep. by apply tc_once.
    + intros y z Hxy [Hyz [_ Hz]] IH. eapply tc_r; [exact IH|]. split; [done|]. split; [|done].
      apply Hstep. eapply tc_r; [by apply tc_spends in Hxy|done].
  - apply tc_subrel. intros u v [Huv [_ Hv]]. split; [done|]. split; [apply not_elem_of_empty|done].
Qed.

Lemma skip_unwalked C U candidates :
  unwalked C U candidates -> unwalked C U (skip_candidates U C candidates) /\
  forall c, head (skip_candidates U C candidates) = Some c -> candidate_id c ∉ U /\ candidate_id c ∉ C.
Proof.
  induction candidates as [|c l IH]; intros [Hs He Ha]; cbn [skip_candidates]; [by split|].
  destruct (bool_decide (candidate_id c ∈ U) || bool_decide (candidate_id c ∈ C)) eqn:Hb.
  - apply IH. split.
    + by apply bs_wf_cons in Hs as [? _].
    + intros d Hd. apply He. by right.
    + intros x Hx HxC HxU. destruct (proj1 (elem_of_cons _ _ _) (Ha x Hx HxC HxU)) as [<-|?]; [|done].
      rewrite candidate_id_cand, orb_true_iff, !bool_decide_eq_true in Hb. tauto.
  - split; [by split|]. intros d [= <-]. by rewrite orb_false_iff, !bool_decide_eq_false in Hb.
Qed.

(** The head of the walked index is the least unchanged candidate. *)
Lemma unwalked_head U C updated candidates c l :
  loop_inv U C updated candidates -> unwalked C U (c :: l) -> candidate_id c ∉ U -> candidate_id c ∉ C ->
  is_min (cand s U) (ids s ∖ (C ∪ U)) c /\ c = cand s U (candidate_id c) /\
  unwalked C (U ∪ taken s (candidate_id c) U) l.
Proof using Hi HU0.
  intros HL [Hs He Ha] HU HC. destruct (He c) as (x & Hx & ->); [by left|]. rewrite candidate_id_cand in *.
  apply bs_wf_cons in Hs as [Hs Hlt]. pose proof (unchanged_cand U C updated candidates x HL HC HU) as Hcx.
  assert (Htail : forall y, y ∈ ids s -> y ∉ C -> y ∉ U -> y <> x -> cand s ∅ y ∈ l).
  { intros y Hy HyC HyU Hne. destruct (proj1 (elem_of_cons _ _ _) (Ha y Hy HyC HyU)) as [Heq|?]; [|done].
    by rewrite <- (candidate_id_cand s ∅ y), Heq, candidate_id_cand in Hne. }
  split; [|split; [done|]].
  - exists x. split; [clear -Hx HC HU; set_solver|]. split; [done|].
    intros y [Hy [HyC HyU]%not_elem_of_union]%elem_of_difference Hne.
    rewrite <- (unchanged_cand U C updated candidates y HL HyC HyU). by apply Hlt, Htail.
  - split; [done|intros d Hd; apply He; by right|]. intros y Hy HyC [HyU Hyt]%not_elem_of_union.
    apply Htail; try done. intros ->. apply Hyt. apply elem_of_union_l, elem_of_singleton. done.
Qed.

Lemma unwalked_nil U C : unwalked C U [] -> ids s ⊆ C ∪ U.
Proof.
  intros [_ _ Ha] x Hx. destruct (decide (x ∈ C)) as [?|HC]; [by apply elem_of_union_l|].
  destruct (decide (x ∈ U)) as [?|HU]; [by apply elem_of_union_r|].
  exfalso. by apply (not_elem_of_nil (cand s ∅ x)), Ha.
Qed.

(** What [next_candidate] takes, and what it leaves. *)
Lemma next_candidate_spec U C updated candidates :
  loop_inv U C updated candidates ->
  match next_candidate (skip_candidates U C candidates) updated with
  | None => ids s ⊆ U
  | Some (c, candidates', updated') =>
      is_min (cand s U) (ids s ∖ U) c /\ c = cand s U (candidate_id c) /\
      unwalked C (U ∪ taken s (candidate_id c) U) candidates' /\
      order_for (cand s U) ((C ∖ U) ∖ {[candidate_id c]}) updated'
  end.
Proof using Hi HU0.
  intros HL. pose proof (cand_candidates s U Hok) as Hf.
  destruct (skip_unwalked C U candidates (l_candidates _ _ _ _ HL)) as [Huw Hhead].
  pose proof (l_updated _ _ _ _ HL) as Hup. pose proof (l_ids _ _ _ _ HL) as Hids.
  assert (Hsplit : ids s ∖ U = (ids s ∖ (C ∪ U)) ∪ (C ∖ U)).
  { apply set_eq. intros x. specialize (Hids x). rewrite elem_of_union, !elem_of_difference, elem_of_union.
    destruct (decide (x ∈ C)), (decide (x ∈ U)); tauto. }
  assert (Hgrow : forall x l, unwalked C U l -> unwalked C (U ∪ taken s x U) l).
  { intros x l [? ? Ha]. split; [done|done|]. intros y Hy HyC [HyU _]%not_elem_of_union. by apply Ha. }
  destruct (skip_candidates U C candidates) as [|o os]; destruct updated as [|u us]; cbn [next_candidate].
  - apply order_nil in Hup. apply unwalked_nil in Huw. clear -Hup Huw. set_solver.
  - apply (order_cons _ Hf) in Hup as [Hmin Hrest]. pose proof Hmin as (x & Hx & Hu & _).
    split; [|split; [|split]]; [|by rewrite Hu, candidate_id_cand|by apply Hgrow|done].
    apply (is_min_ext (cand s U) _ (C ∖ U)); [done| |done]. rewrite Hsplit. apply unwalked_nil in Huw.
    clear -Huw. set_solver.
  - destruct (Hhead o eq_refl) as [HoU HoC].
    destruct (unwalked_head U C [] candidates o os HL Huw HoU HoC) as (Hmin & Ho & Huw').
    split; [|split; [done|split; [done|]]].
    + apply (is_min_ext (cand s U) _ (ids s ∖ (C ∪ U))); [done| |done]. rewrite Hsplit, (order_nil _ _ Hup).
      by rewrite union_empty_r_L.
    + apply (order_for_ext (cand s U) _ (C ∖ U)); [done| |done]. clear -HoC. set_solver.
  - destruct (Hhead o eq_refl) as [HoU HoC].
    destruct (unwalked_head U C (u :: us) candidates o os HL Huw HoU HoC) as (Hmin & Ho & Huw').
    pose proof (order_cons _ Hf _ _ _ Hup) as [Hmin' Hrest]. pose proof Hmin' as (x & Hx & Hu & _).
    rewrite Hsplit. pose proof (candidate_cmp_antisym o u) as Hanti. destruct (candidate_cmp o u) eqn:Hcmp.
    + exfalso. apply HoC. assert (Heq : candidate_id o = candidate_id u).
      { apply candidate_same; [rewrite Ho; by apply Hf|rewrite Hu; by apply Hf|].
        unfold bs_same, candidate_lt. rewrite Hcmp, Hanti. done. }
      rewrite Heq, Hu, candidate_id_cand. by apply elem_of_difference in Hx as [? _].
    + split; [|split; [done|split; [done|]]].
      * rewrite Ho. rewrite Ho in Hmin. apply (is_min_union _ Hf); [done|]. rewrite <- Ho. intros y Hy.
        apply (is_min_le _ Hf (C ∖ U) u); [done|done|rewrite Ho; by apply Hf|done].
      * apply (order_for_ext (cand s U) _ (C ∖ U)); [done| |done]. clear -HoC. set_solver.
    + split; [|split; [by rewrite Hu, candidate_id_cand|split; [by apply Hgrow|done]]].
      rewrite union_comm_L, Hu. rewrite Hu in Hmin'. apply (is_min_union _ Hf); [done|]. rewrite <- Hu. intros y Hy.
      apply (is_min_le _ Hf (ids s ∖ (C ∪ U)) o); [done|done|rewrite Hu; by apply Hf|done].
Qed.

(** ** The local scores *)

Lemma drop_local_Ok {E} U C l : forall X updated,
  C ⊆ ids s -> X ⊆ C ∖ U -> order_for (cand s U) X updated ->
  exists updated', drop_local (E := E) s U C l updated = Ok updated' /\
    order_for (cand s U) (X ∖ list_to_set l) updated'.
Proof using Hi.
  induction l as [|x l IH]; intros X updated HC HX Ho; cbn [drop_local list_to_set].
  { exists updated. by rewrite difference_empty_L. }
  destruct (bool_decide (x ∈ C) && negb (bool_decide (x ∈ U))) eqn:Hb.
  - rewrite andb_true_iff, negb_true_iff, bool_decide_eq_true, bool_decide_eq_false in Hb. destruct Hb as [HxC HxU].
    rewrite eviction_candidate_Ok by (done || by apply HC). cbn [res_bind].
    destruct (IH (X ∖ {[x]}) (bs_remove candidate_lt (cand s U x) updated)) as (u' & -> & Hu'); [done| |by apply order_for_remove, Ho; apply cand_candidates|].
    + etransitivity; [|exact HX]. apply subseteq_difference_l. done.
    + exists u'. split; [done|]. by rewrite <- difference_difference_l_L.
  - destruct (IH X updated HC HX Ho) as (u' & -> & Hu'). exists u'. split; [done|].
    apply (order_for_ext (cand s U) _ (X ∖ list_to_set l)); [done| |done].
    apply not_true_iff_false in Hb. rewrite andb_true_iff, negb_true_iff, bool_decide_eq_true, bool_decide_eq_false in Hb.
    intros y. specialize (HX y). rewrite !elem_of_difference in *. rewrite elem_of_union, elem_of_singleton.
    split; [|tauto]. intros [Hy Hyl]. split; [done|]. intros [->|?]; [|done]. tauto.
Qed.

Lemma add_local_Ok {E} U l : forall X updated,
  (forall x, x ∈ l -> x ∈ ids s) -> NoDup l -> (forall x, x ∈ l -> x ∉ X) -> order_for (cand s U) X updated ->
  exists updated', add_local (E := E) s U l updated = Ok updated' /\
    order_for (cand s U) (X ∪ (list_to_set l ∖ U)) updated'.
Proof using Hi.
  induction l as [|x l IH]; intros X updated Hl Hnd HX Ho; cbn [add_local list_to_set].
  { exists updated. split; [done|]. apply (order_for_ext (cand s U) _ X); [done|clear; set_solver|done]. }
  apply NoDup_cons in Hnd as [Hxl Hnd].
  assert (Hl' : forall y, y ∈ l -> y ∈ ids s) by (intros y Hy; apply Hl; by right).
  destruct (bool_decide (x ∈ U)) eqn:Hb.
  - apply bool_decide_eq_true in Hb.
    destruct (IH X updated Hl' Hnd) as (u' & -> & Hu'); [intros y Hy; apply HX; by right|done|].
    exists u'. split; [done|]. apply (order_for_ext (cand s U) _ (X ∪ (list_to_set l ∖ U))); [done| |done].
    clear -Hb. set_solver.
  - apply bool_decide_eq_false in Hb. rewrite eviction_candidate_Ok by (done || (apply Hl; by left)). cbn [res_bind].
    destruct (IH ({[x]} ∪ X) (bs_insert candidate_lt (cand s U x) updated) Hl' Hnd) as (u' & -> & Hu').
    + intros y Hy. apply not_elem_of_union. split; [|apply HX; by right]. intros ->%elem_of_singleton. done.
    + apply order_for_insert; [by apply cand_candidates|done|]. apply HX. by left.
    + exists u'. split; [done|]. apply (order_for_ext (cand s U) _ ({[x]} ∪ X ∪ (list_to_set l ∖ U))); [done| |done].
      clear -Hb. set_solver.
Qed.

(** ** One round *)

Lemma taken_ids U x : x ∈ ids s -> taken s x U ⊆ ids s.
Proof using Hi.
  intros Hx y [->|Hy]%elem_of_taken; [done|]. by apply (desc_remains s x U y).
Qed.

Lemma taken_fresh U x : x ∉ U -> taken s x U ## U.
Proof using Hi.
  intros Hx y [->|Hy]%elem_of_taken HyU; [done|].
  by destruct (desc_remains s x U y Hwf Hy).
Qed.

Lemma taken_closed U x g : closed (deps s) g -> x ∈ g -> taken s x U ⊆ g.
Proof using Hi.
  intros Hcl Hx y [->|Hy]%elem_of_taken; [done|]. by apply (desc_closed s g U x Hwf Hcl Hx).
Qed.

(** Scores outside the group do not change. *)
Lemma cand_outside U U' g x :
  closed (deps s) g -> (forall y, y ∉ g -> y ∈ U <-> y ∈ U') -> x ∈ ids s -> x ∉ g -> cand s U x = cand s U' x.
Proof using Hi.
  intros Hcl HU Hx Hxg. assert (Hcl' : closed (deps s) (ids s ∖ g)) by (apply closed_difference; [by apply ids_closed|done]).
  apply (cand_ext s s (ids s ∖ g)); try done.
  - intros z [_ Hz]%elem_of_difference. by apply HU.
  - by apply elem_of_difference.
Qed.

Lemma round_inv {E} U C updated candidates updated1 candidates1 x g :
  loop_inv U C updated candidates -> x ∈ ids s -> x ∉ U ->
  unwalked C (U ∪ taken s x U) candidates1 -> order_for (cand s U) ((C ∖ U) ∖ {[x]}) updated1 ->
  component_of (deps s) [x] g ->
  exists updated2 updated3, drop_local (E := E) s U C (hash_iter g) updated1 = Ok updated2 /\
    add_local (E := E) s (U ∪ taken s x U) (hash_iter g) updated2 = Ok updated3 /\
    loop_inv (U ∪ taken s x U) (C ∪ g) updated3 candidates1.
Proof using Hi.
  intros [HL1 HL2 HL3 HL4 _ _] Hx HxU Huw Hup Hg.
  pose proof (component_closed _ _ _ Hg) as Hcl.
  assert (Hxg : x ∈ g) by (apply (component_start _ _ _ _ Hg); by left).
  assert (Hgs : g ⊆ ids s).
  { apply (component_size (deps s) [x]); [done|by apply ids_closed|]. by intros y ->%list_elem_of_singleton. }
  pose proof (taken_closed U x g Hcl Hxg) as Htg. set (t := taken s x U) in *. clearbody t.
  destruct (drop_local_Ok (E := E) U C (hash_iter g) ((C ∖ U) ∖ {[x]}) updated1) as (u2 & Hu2 & Ho2); [done|clear; set_solver|done|].
  rewrite list_to_set_hash_iter in Ho2.
  assert (Hsame : forall y, y ∉ g -> y ∈ U <-> y ∈ U ∪ t).
  { intros y Hy. specialize (Htg y). rewrite elem_of_union. tauto. }
  assert (Ho2' : order_for (cand s (U ∪ t)) ((C ∖ U) ∖ g) u2).
  { apply (order_for_ext (cand s U) _ (((C ∖ U) ∖ {[x]}) ∖ g)); [done|clear -Hxg; set_solver|].
    intros y [[[Hy _]%elem_of_difference _]%elem_of_difference Hyg]%elem_of_difference.
    apply (cand_outside U (U ∪ t) g); [done|done|by apply HL4|done]. }
  destruct (add_local_Ok (E := E) (U ∪ t) (hash_iter g) ((C ∖ U) ∖ g) u2) as (u3 & Hu3 & Ho3);
    [intros y; rewrite elem_of_hash_iter; apply Hgs|apply NoDup_hash_iter|
     intros y; rewrite elem_of_hash_iter, elem_of_difference; tauto|done|].
  rewrite list_to_set_hash_iter in Ho3.
  exists u2, u3. split; [done|]. split; [done|]. split.
  - clear -HL1. set_solver.
  - clear -HL2 Htg. set_solver.
  - by apply closed_union.
  - by apply union_least.
  - apply (order_for_ext (cand s (U ∪ t)) _ (((C ∖ U) ∖ g) ∪ (g ∖ (U ∪ t)))); [done| |done].
    intros y. specialize (Htg y). rewrite !elem_of_union, !elem_of_difference, !elem_of_union.
    destruct (decide (y ∈ g)); tauto.
  - destruct Huw as [? ? Ha]. split; [done|done|]. intros y Hy [HyC _]%not_elem_of_union HyU. by apply Ha.
Qed.

(** ** The search *)

Lemma select_loop_Ok {E} incoming needed fuel : forall U C updated candidates cheapest roots,
  loop_inv U C updated candidates -> U ∖ U0 ⊆ ids s -> (size (ids s ∖ U) < fuel)%nat ->
  let freed := ssum (cost_at s) (U ∖ U0) in
  exists v, select_loop (E := E) fuel s incoming needed U C updated candidates cheapest roots freed = Ok v /\
    picks s incoming needed U cheapest roots freed v.
Proof using Hi HU0.
  induction fuel as [|fuel IH]; intros U C updated candidates cheapest roots HL HUs Hfuel freed; [lia|].
  cbn [select_loop]. destruct (Z.ltb_spec freed needed) as [Hlt|Hge].
  2: { eexists. split; [done|]. by apply picks_enough. }
  pose proof (next_candidate_spec U C updated candidates HL) as Hnext.
  destruct (next_candidate _ updated) as [[[c candidates'] updated']|].
  2: { eexists. split; [done|]. by apply picks_none. }
  destruct Hnext as (Hmin & Hc & Huw & Hup).
  destruct (EvictionCost.exceeds_by_increment incoming (score c)) eqn:Hex; cbn [negb].
  2: { eexists. split; [done|]. by eapply picks_cheap. }
  assert (Hx : candidate_id c ∈ ids s /\ candidate_id c ∉ U).
  { destruct Hmin as (x & Hx & -> & _). rewrite candidate_id_cand. by apply elem_of_difference in Hx. }
  destruct Hx as [Hx HxU]. set (x := candidate_id c) in *.
  rewrite package_Ok by done. cbn [res_bind].
  pose proof (taken_ids U x Hx) as Hts. pose proof (taken_fresh U x HxU) as Htf.
  assert (Hcost : EvictionCost.cost (pkg s x U) = ssum (cost_at s) (taken s x U)).
  { unfold pkg, pack, taken. cbn [EvictionCost.cost].
    pose proof (cost_subset s (taken s x U) (i_caches s Hi) Hts) as Hb. unfold taken in Hb. unfold u64_max. lia. }
  assert (Hfreed : freed + ssum (cost_at s) (taken s x U) = ssum (cost_at s) ((U ∪ taken s x U) ∖ U0)).
  { unfold freed. rewrite <- ssum_union by (clear -Htf; set_solver). f_equal.
    pose proof (l_protected _ _ _ _ HL) as HUU. clear -Htf HUU. set_solver. }
  assert (HU's : (U ∪ taken s x U) ∖ U0 ⊆ ids s) by (clear -HUs Hts; set_solver).
  pose proof (cost_subset s _ (i_caches s Hi) HU's) as Hb. rewrite Hcost, uint_arith_Ok by lia. cbn [res_bind].
  destruct (Z.leb_spec needed (freed + ssum (cost_at s) (taken s x U))) as [Henough|Hmore].
  { eexists. split; [done|]. eapply picks_next; [done|done|done|]. by apply picks_enough. }
  destruct (dependency_group_one (E := E) s x Hwf Hx) as (g & -> & Hg & _). cbn [res_bind].
  destruct (round_inv (E := E) U C updated candidates updated' candidates' x g HL Hx HxU Huw Hup Hg)
    as (u2 & u3 & -> & Hu3 & HL'). cbn [res_bind].
  rewrite descendants_Ok by done. cbn [res_bind]. fold (taken s x U). rewrite Hu3. cbn [res_bind].
  destruct (IH (U ∪ taken s x U) (C ∪ g) u3 candidates' (Some (default (score c) cheapest)) (roots ++ [x]) HL' HU's)
    as (v & Hv & Hpicks).
  { assert (Hsub : ids s ∖ (U ∪ taken s x U) ⊂ ids s ∖ U); [|apply subset_size in Hsub; lia].
    split; [clear; set_solver|]. intros Hall. specialize (Hall x). unfold taken in Hall.
    clear -Hall Hx HxU. set_solver. }
  rewrite Hfreed. exists v. split; [done|]. eapply picks_next; [done|done|done|]. fold x. by rewrite Hfreed.
Qed.

(** The score of an incoming transaction: its own, or the one of its package with
    its ancestors if that is lower. *)
Definition incoming_score tx : EvictionCost.EvictionCost :=
  cost_min (own_cost tx)
    (EvictionCost.mkCost (Z.min u64_max (fee_of tx + ssum (fee_at s) U0))
                         (Z.min u64_max (cost_of tx + ssum (cost_at s) U0))).

Lemma select_eviction_victims_Ok {E} tx limit :
  tx_ok tx -> U0 ⊆ ids s ->
  exists v, select_eviction_victims (E := E) s tx U0 limit = Ok v /\
    picks s (incoming_score tx) (Z.max 0 (total_cost s + cost_of tx - limit)) U0 None [] 0 v.
Proof using Hi HU0.
  intros Htx HU. unfold select_eviction_victims. rewrite tx_cost_Ok by done. cbn [res_bind].
  rewrite eviction_cost_Ok by done. cbn [res_bind]. destruct (own_cost_wf tx Htx) as [Hfee Hcost].
  rewrite fold_costs_Ok; [|done|intros x; rewrite elem_of_hash_iter; apply HU|unfold u64_max; lia..].
  cbn [res_bind]. rewrite !(lsum_perm _ (hash_iter _) (elements U0)) by apply hash_iter_perm.
  pose proof (c_bound s (i_caches s Hi)). pose proof (cost_range tx Htx).
  replace (Z.min u64_max (total_cost s + cost_of tx)) with (total_cost s + cost_of tx) by (unfold u64_max; lia).
  fold (ssum (fee_at s) U0) (ssum (cost_at s) U0). fold (incoming_score tx).
  assert (HL : loop_inv U0 ∅ [] (eviction_order s)).
  { pose proof (i_order s Hi) as [Hs He]. split; [done|clear; set_solver|apply closed_empty|apply empty_subseteq|..].
    - apply (order_for_ext (cand s U0) _ ∅); [apply order_for_empty|clear; set_solver|done].
    - split; [done|intros c; apply He|]. intros x Hx _ _. apply He. by exists x. }
  destruct (select_loop_Ok (E := E) (incoming_score tx) (Z.max 0 (total_cost s + cost_of tx - limit))
    (S (size (transactions s))) U0 ∅ [] (eviction_order s) None [] HL) as (v & Hv & Hp).
  - clear. set_solver.
  - rewrite <- size_dom. apply Nat.lt_succ_r, subseteq_size, subseteq_difference_l. done.
  - rewrite difference_diag_L, ssum_empty in Hv, Hp. by exists v.
Qed.

(** ** What a choice frees *)

(** [W] is what evicting [l] removes: the transactions of [l] with all their
    dependents. *)
Definition evicts (l : list Hash) (W : gset Hash) : Prop :=
  forall y, y ∈ W <-> exists r, r ∈ l /\ rtc (child (deps s)) r y.

Lemma protected_rtc x y : rtc (child (deps s)) x y -> y ∈ U0 -> x ∈ U0.
Proof using HU0. induction 1 as [|x z y Hxz _ IH]; [done|]. intros Hy. by apply (HU0 x z), IH. Qed.

(** A dependent of an available root is gone, or still available through others. *)
Lemma rtc_spends U roots x y :
  U0 ⊆ U -> evicts roots (U ∖ U0) -> x ∉ U -> rtc (child (deps s)) x y -> y ∉ U -> y ∈ taken s x U.
Proof using Hi HU0.
  intros HU Hev HxU Hr. revert y Hr. apply (rtc_ind_r (fun y => y ∉ U -> y ∈ taken s x U)).
  - intros _. apply elem_of_taken. by left.
  - intros z y Hxz Hzy IH HyU.
    assert (HzU : z ∉ U).
    { intros HzU. destruct (decide (z ∈ U0)) as [Hz0|Hz0]; [by apply HxU, HU, (protected_rtc x z)|].
      destruct (proj1 (Hev z)) as (r & Hr & Hrz); [by apply elem_of_difference|]. apply HyU.
      assert (Hy : y ∈ U ∖ U0) by (apply Hev; exists r; split; [done|]; by eapply rtc_r).
      by apply elem_of_difference in Hy as [? _]. }
    apply elem_of_taken. right. apply elem_of_desc; [done|].
    assert (Hs : spends s U z y) by (split; [done|]; split; [done|]; by apply (g_edges s Hwf z y)).
    apply elem_of_taken in IH as [->|IH]; [by apply tc_once| |done]. eapply tc_r; [|exact Hs].
    by apply elem_of_desc in IH.
Qed.

Lemma evicts_next U roots x :
  U0 ⊆ U -> evicts roots (U ∖ U0) -> x ∈ ids s -> x ∉ U -> evicts (roots ++ [x]) ((U ∪ taken s x U) ∖ U0).
Proof using Hi HU0.
  intros HU Hev Hx HxU y. pose proof (taken_fresh U x HxU) as Htf. setoid_rewrite elem_of_app.
  setoid_rewrite list_elem_of_singleton. rewrite elem_of_difference, elem_of_union. split.
  - intros [[HyU|Hyt] Hy0].
    + destruct (proj1 (Hev y)) as (r & Hr & Hry); [by apply elem_of_difference|]. exists r. auto.
    + exists x. split; [by right|]. apply elem_of_taken in Hyt as [->|Hyt]; [done|].
      apply elem_of_desc in Hyt; [|done]. by apply tc_rtc, tc_spends in Hyt || apply tc_spends, tc_rtc in Hyt.
  - intros (r & [Hr| ->] & Hry).
    + assert (Hy : y ∈ U ∖ U0) by (apply Hev; by exists r). apply elem_of_difference in Hy. tauto.
    + split; [|intros Hy0; by apply HxU, HU, (protected_rtc x y)].
      destruct (decide (y ∈ U)) as [?|HyU]; [by left|right]. by apply (rtc_spends U roots).
Qed.

(** A choice of victims frees what is needed, and no protected transaction is
    among them. *)
(** Every root is still stored when its turn comes. *)
Definition separated (l : list Hash) : Prop :=
  Forall (fun r => r ∈ ids s) l /\ StronglySorted (fun r r' => ~ rtc (child (deps s)) r r') l.

Lemma separated_next U roots x :
  U0 ⊆ U -> evicts roots (U ∖ U0) -> x ∈ ids s -> x ∉ U -> separated roots -> separated (roots ++ [x]).
Proof.
  intros HU Hev Hx HxU [Hin Hs]. split; [by apply Forall_app; split; [|constructor]|].
  apply EvictionList.StronglySorted_snoc; [done|]. apply Forall_forall. intros r Hr Hrx. apply HxU.
  assert (Hd : x ∈ U ∖ U0) by (apply Hev; by exists r). clear -Hd. set_solver.
Qed.

Lemma picks_frees incoming needed U cheapest roots freed v :
  picks s incoming needed U cheapest roots freed v ->
  U0 ⊆ U -> U ∖ U0 ⊆ ids s -> evicts roots (U ∖ U0) -> separated roots -> freed = ssum (cost_at s) (U ∖ U0) ->
  match VerifiedSet.roots v with
  | Some l => separated l /\ exists W, evicts l W /\ W ## U0 /\ W ⊆ ids s /\ needed <= ssum (cost_at s) W
  | None => True
  end.
Proof using Hi HU0.
  induction 1 as [U cheapest roots freed Hge| | |U cheapest roots freed c v Hlt Hmin Hex Hp IH];
    intros HU HUs Hev Hsep Hfreed; cbn [VerifiedSet.roots]; [|done|done|].
  - split; [done|]. exists (U ∖ U0). split; [done|]. split; [clear; set_solver|]. split; [done|lia].
  - destruct Hmin as (x & Hx & -> & _). rewrite candidate_id_cand in *.
    apply elem_of_difference in Hx as [Hx HxU]. pose proof (taken_fresh U x HxU) as Htf. apply IH.
    + clear -HU. set_solver.
    + pose proof (taken_ids U x Hx). clear -H HUs. set_solver.
    + by apply evicts_next.
    + by apply (separated_next U).
    + rewrite Hfreed, <- ssum_union by (clear -Htf; set_solver). f_equal. clear -Htf HU. set_solver.
Qed.

(** What is evicted: whole packages outside the protected ones, worth at least
    what is needed. *)
Lemma picks_roots incoming needed v :
  picks s incoming needed U0 None [] 0 v ->
  match VerifiedSet.roots v with
  | Some l => separated l /\ exists W, evicts l W /\ W ## U0 /\ W ⊆ ids s /\ needed <= ssum (cost_at s) W
  | None => True
  end.
Proof using Hi HU0.
  intros Hp. apply (picks_frees _ _ _ _ _ _ _ Hp); [done|clear; set_solver|..].
  - intros y. rewrite difference_diag_L, elem_of_empty. split; [done|]. by intros (r & ?%elem_of_nil & _).
  - split; constructor.
  - by rewrite difference_diag_L, ssum_empty.
Qed.

(** C15: the victims of [select_eviction_victims] are the greedy choice: while more cost
    has to be freed, the cheapest package of what is left, scored again without the
    packages already chosen, as long as the new transaction pays an increment more than
    it; otherwise none.  The loop ends within its fuel and does not panic.  When there are
    victims, they are stored, no protected transaction depends on one of them, each is
    still there when its turn to be removed comes, and together with their dependents
    they free what is needed. *)
Theorem eviction_is_greedy {E} tx limit :
  tx_ok tx -> U0 ⊆ ids s ->
  exists v, select_eviction_victims (E := E) s tx U0 limit = Ok v /\
    picks s (incoming_score tx) (Z.max 0 (total_cost s + cost_of tx - limit)) U0 None [] 0 v /\
    match VerifiedSet.roots v with
    | Some l => separated l /\ exists W, evicts l W /\ W ## U0 /\ W ⊆ ids s /\
        Z.max 0 (total_cost s + cost_of tx - limit) <= ssum (cost_at s) W
    | None => True
    end.
Proof using Hi HU0.
  intros Htx HU. destruct (select_eviction_victims_Ok (E := E) tx limit Htx HU) as (v & -> & Hp).
  exists v. split; [done|]. split; [done|]. by apply (picks_roots _ _ _ Hp).
Qed.
End Select.
End EvictionSelect.

Module VerifiedRemove.
Import MempoolTx Dependencies VerifiedGraph VerifiedCaches VerifiedScores VerifiedFacts VerifiedInsert EvictionSelect.
Notation VerifiedSet := VerifiedSet.VerifiedSet.

Implicit Types (v : VerifiedSet) (W : gset Hash) (tx : VerifiedUnminedTx) (l : list Hash).

(** ** Sets with fewer transactions *)

Record shrunk v v' W : Prop := {
  sh_inv : inv v';
  sh_txs : forall y, VerifiedSet.transactions v' !! y =
    if decide (y ∈ W) then None else VerifiedSet.transactions v !! y;
  sh_child : forall p c, child (deps v') p c <-> child (deps v) p c /\ p ∉ W /\ c ∉ W;
}.

Lemma shrunk_refl v : inv v -> shrunk v v ∅.
Proof. intros Hi. split; [done|intros y; by rewrite decide_False by apply not_elem_of_empty|set_solver]. Qed.

Lemma shrunk_trans v v1 v2 W W' : shrunk v v1 W -> shrunk v1 v2 W' -> shrunk v v2 (W ∪ W').
Proof.
  intros [_ Ht Hc] [Hi Ht' Hc']. split; [done|..].
  - intros y. rewrite Ht', Ht. repeat case_decide; set_solver.
  - intros p c. rewrite Hc', Hc. set_solver.
Qed.

Lemma shrunk_ids v v' W y : shrunk v v' W -> y ∈ ids v' <-> y ∈ ids v /\ y ∉ W.
Proof.
  intros Hs. rewrite !elem_of_dom, (sh_txs _ _ _ Hs). case_decide; [|tauto]. rewrite is_Some_alt. tauto.
Qed.

Lemma shrunk_cost v v' W :
  inv v -> W ⊆ ids v -> shrunk v v' W ->
  VerifiedSet.total_cost v' = VerifiedSet.total_cost v - ssum (cost_at v) W.
Proof.
  intros Hi HW Hs. rewrite (total_cost_ssum v (i_caches v Hi)), (total_cost_ssum v' (i_caches v' (sh_inv _ _ _ Hs))).
  rewrite (ssum_ext (cost_at v') (cost_at v) (ids v') ).
  - rewrite (union_difference_L W (ids v) HW), (ssum_union _ W) by set_solver.
    replace (ids v') with (ids v ∖ W); [lia|]. apply set_eq. intros y. rewrite elem_of_difference, (shrunk_ids v v' W y Hs). done.
  - intros y Hy. apply (shrunk_ids v v' W y Hs) in Hy as [_ Hy]. unfold cost_at. by rewrite (sh_txs _ _ _ Hs), decide_False.
Qed.

Section Shrunk.
Context {HO : HashOrder}.

Lemma tracked_sub {A} `{Countable A} (f : Transaction -> list A) v v' W (S S' : gset A) (l : list A) :
  shrunk v v' W -> tracked (items_of f) (VerifiedSet.transactions v) S ->
  tracked (items_of f) (VerifiedSet.transactions v') S' ->
  VerifiedSet.has_conflicts S l = false -> VerifiedSet.has_conflicts S' l = false.
Proof.
  intros Hs [Hin _] [Hin' _]. rewrite !has_conflicts_false. intros Hn a Ha (k & tx & Hk & Htx)%Hin'.
  apply (Hn a Ha), Hin. exists k, tx. split; [|done]. rewrite (sh_txs _ _ _ Hs) in Hk. by case_decide.
Qed.

Lemma no_conflicts_shrunk v v' W t :
  inv v -> shrunk v v' W ->
  VerifiedSet.has_spend_conflicts v t = false -> VerifiedSet.has_spend_conflicts v' t = false.
Proof.
  intros Hi Hs. pose proof (i_caches v Hi) as Hc. pose proof (i_caches v' (sh_inv _ _ _ Hs)) as Hc'.
  rewrite !no_conflicts. intros (H1 & H2 & H3 & H4 & H5).
  repeat split; (eapply tracked_sub; [exact Hs| |apply Hc'|eassumption]); apply Hc.
Qed.

(** Dropping transactions that are not ancestors keeps a transaction
    insertable. *)
Lemma check_insert_shrunk v v' W t spent a :
  inv v -> shrunk v v' W -> W ## a -> VerifiedSet.check_insert v t spent = Ok a ->
  exists a', VerifiedSet.check_insert v' t spent = Ok a'.
Proof.
  intros Hi Hs HW Hok. pose proof (check_insert_spec v t spent (i_graph v Hi)) as Hspec. rewrite Hok in Hspec.
  destruct Hspec as [Hconf Hout Hpar _ Hcl (g & Hg & Hsz & _)].
  pose proof (i_caches v Hi) as Hc. pose proof (i_caches v' (sh_inv _ _ _ Hs)) as Hc'.
  pose proof (check_insert_spec v' t spent (i_graph v' (sh_inv _ _ _ Hs))) as Hspec.
  assert (Hanc : forall x, ancestor_of v' spent x -> x ∈ a).
  { intros x (o & Ho & Hr). apply Hpar in Ho. revert Hr Ho. generalize (op_hash o). intros y Hr Hy.
    induction Hr as [|x z y Hxz _ IH]; [done|]. apply (Hcl z); [by apply IH|]. by apply (sh_child _ _ _ Hs). }
  assert (Hsize : (size a < 3)%nat).
  { eapply Nat.le_lt_trans; [|exact Hsz]. apply subseteq_size. intros x Hx.
    apply (component_start _ _ _ _ Hg). by rewrite elem_of_hash_iter. }
  destruct (VerifiedSet.check_insert v' t spent) as [a'|[]|]; [by exists a'|exfalso..|done].
  - by rewrite (no_conflicts_shrunk v v' W) in Hspec.
  - destruct Hspec as (_ & o & Ho & Hn). destruct (Hout o Ho) as [out Hcr].
    apply (c_created v Hc) in Hcr as (tx & Htx & Hrest). apply eq_None_not_Some in Hn. apply Hn. exists out.
    apply (c_created v' Hc'). exists tx. split; [|done]. rewrite (sh_txs _ _ _ Hs), decide_False; [done|].
    intros Hw. apply (HW _ Hw). by apply Hpar.
  - destruct Hspec as (b & Hb & Hin). pose proof (subseteq_size b a (fun x Hx => Hanc x (Hin x Hx))). lia.
  - destruct Hspec as (b & Hb & Hin).
    assert (Hbg : b ⊆ g); [|pose proof (subseteq_size b g Hbg); lia].
    intros y (x & Hx & Hxy)%Hin. apply (Hg y). exists x. split; [by rewrite elem_of_hash_iter; apply Hanc|].
    revert Hxy. apply rtc_subrel. intros p c [Hpc|Hpc]; [left|right]; by apply (sh_child _ _ _ Hs).
Qed.

(** ** Removing packages *)

Definition takes v l W : Prop :=
  forall y, y ∈ W <-> y ∈ ids v /\ exists r, r ∈ l /\ rtc (child (deps v)) r y.

(** The ids of the transactions of [W]. *)
Definition ids_of v W (id : UnminedTxId) : Prop :=
  exists y tx, y ∈ W /\ VerifiedSet.transactions v !! y = Some tx /\ id = unmined_id tx.

Lemma takes_ids v l W : takes v l W -> W ⊆ ids v.
Proof. by intros H y [? _]%H. Qed.

Lemma takes_nil v : takes v [] ∅.
Proof. intros y. rewrite elem_of_empty. split; [done|]. by intros (_ & r & ?%elem_of_nil & _). Qed.

Lemma takes_evicts v l W : inv v -> Forall (fun r => r ∈ ids v) l -> takes v l W <-> evicts v l W.
Proof.
  intros Hi Hl. rewrite Forall_forall in Hl. split; intros H y; rewrite (H y); [|split; [|tauto]].
  - split; [tauto|]. intros (r & Hr & Hry). split; [|by exists r]. by apply (rtc_in_ids v r y (i_graph v Hi)); [apply Hl|].
  - intros (r & Hr & Hry). split; [|by exists r]. by apply (rtc_in_ids v r y (i_graph v Hi)); [apply Hl|].
Qed.

(** An id that is not stored has no dependents. *)
Lemma rtc_absent v k y : inv v -> k ∉ ids v -> rtc (child (deps v)) k y -> y = k.
Proof.
  intros Hi Hk Hr. apply rtc_inv in Hr as [->|(z & Hkz & _)]; [done|]. destruct Hk.
  by apply (g_edges v (i_graph v Hi) k z).
Qed.

Lemma takes_absent v k l W : inv v -> k ∉ ids v -> takes v l W -> takes v (k :: l) W.
Proof.
  intros Hi Hk HW y. rewrite (HW y). setoid_rewrite elem_of_cons. split; intros (Hy & r & Hr); (split; [done|]).
  - exists r. tauto.
  - destruct Hr as ([->|Hr] & Hry); [|by exists r]. apply (rtc_absent v k y Hi Hk) in Hry as ->. done.
Qed.

Lemma takes_cons v v1 R k l W :
  inv v -> shrunk v v1 R -> takes v [k] R -> takes v1 l W -> takes v (k :: l) (R ∪ W).
Proof.
  intros Hi Hs HR HW y. rewrite elem_of_union, (HW y), (shrunk_ids v v1 R y Hs). setoid_rewrite elem_of_cons.
  assert (HRk : forall z, z ∈ ids v -> z ∈ R <-> rtc (child (deps v)) k z).
  { intros z Hz. rewrite (HR z). setoid_rewrite list_elem_of_singleton. naive_solver. }
  assert (Hsub : forall p c, child (deps v1) p c -> child (deps v) p c).
  { intros p c Hpc. by apply (sh_child _ _ _ Hs). }
  split.
  - intros [Hy|((Hy & HyR) & r & Hr & Hry)].
    + pose proof (takes_ids _ _ _ HR y Hy) as Hyv. split; [done|]. exists k. split; [by left|]. by apply HRk.
    + split; [done|]. exists r. split; [by right|]. revert Hry. by apply rtc_subrel.
  - intros (Hy & r & [->|Hr] & Hry); [left; by apply HRk|].
    destruct (decide (y ∈ R)) as [HyR|HyR]; [by left|right]. split; [done|]. exists r. split; [done|].
    apply (rtc_avoid _ R) in Hry as [_ Hry]; [|..|done].
    + revert Hry. apply rtc_subrel. intros p c Hpc. by apply (sh_child _ _ _ Hs).
    + intros p c Hpc Hp. pose proof (takes_ids _ _ _ HR p Hp) as Hpv. apply (HRk p Hpv) in Hp.
      apply (HR c). split; [by apply (g_edges v (i_graph v Hi) p c)|]. exists k. split; [by left|by eapply rtc_r].
Qed.

(** The ids of two removals. *)
Lemma ids_of_union v v1 R W id :
  shrunk v v1 R -> ids_of v (R ∪ W) id <-> ids_of v R id \/ ids_of v1 W id \/ ids_of v (R ∩ W) id.
Proof.
  intros Hs. unfold ids_of. setoid_rewrite (sh_txs _ _ _ Hs). split.
  - intros (y & tx & [Hy|Hy]%elem_of_union & Htx & ->); [by left; eauto|].
    destruct (decide (y ∈ R)) as [HR|HR]; [by left; eauto|]. right; left. exists y, tx. by rewrite decide_False.
  - intros [(y & tx & Hy & Htx & ->)|[(y & tx & Hy & Htx & ->)|(y & tx & Hy & Htx & ->)]]; exists y, tx.
    + split; [set_solver|done].
    + case_decide; [done|]. split; [set_solver|done].
    + split; [set_solver|done].
Qed.

Lemma remove_shrunk {E} v k :
  inv v -> k ∈ ids v ->
  exists v' removed R, VerifiedSet.remove (E := E) v k = Ok (v', removed) /\ shrunk v v' R /\ takes v [k] R /\
    (forall tx, tx ∈ removed <-> exists y, y ∈ R /\ VerifiedSet.transactions v !! y = Some tx).
Proof.
  intros Hi Hk. destruct (remove_Ok (E := E) v k Hi Hk) as (v' & rm & R & -> & Hi' & HR & Ht & Hc & Hrm).
  exists v', rm, R. split; [done|]. split; [by split|]. split; [|done]. apply (takes_evicts v _ R Hi); [by repeat constructor|].
  intros y. rewrite HR. setoid_rewrite list_elem_of_singleton. naive_solver.
Qed.

Lemma remove_all_shrunk {E} l : forall v removed,
  inv v ->
  exists v' removed' W, VerifiedSet.remove_all (E := E) v l removed = Ok (v', removed') /\ shrunk v v' W /\
    takes v l W /\ (forall id, id ∈ removed' <-> id ∈ removed \/ ids_of v W id).
Proof.
  induction l as [|k l IH]; intros v removed Hi; cbn [VerifiedSet.remove_all].
  { exists v, removed, ∅. split; [done|]. split; [by apply shrunk_refl|]. split; [apply takes_nil|].
    intros id. split; [by left|]. intros [?|(y & tx & ?%elem_of_empty & _)]; done. }
  destruct (VerifiedSet.contains v k) eqn:Hc.
  - apply contains_spec in Hc.
    destruct (remove_shrunk (E := E) v k Hi Hc) as (v1 & txs & R & -> & Hs1 & HR & Htxs). cbn [res_bind].
    destruct (IH v1 (VerifiedSet.extend removed (unmined_id <$> txs)) (sh_inv _ _ _ Hs1)) as (v' & rm & W & -> & Hs & HW & Hrm).
    exists v', rm, (R ∪ W). split; [done|]. split; [by eapply shrunk_trans|]. split; [by eapply takes_cons|].
    intros id. rewrite Hrm, elem_of_extend, list_elem_of_fmap, (ids_of_union v v1 R W id Hs1).
    assert (Htx : (exists tx, id = unmined_id tx /\ tx ∈ txs) <-> ids_of v R id).
    { unfold ids_of. setoid_rewrite Htxs. naive_solver. }
    rewrite Htx. split; [tauto|]. intros [?|[?|[?|(y & tx & [? _]%elem_of_intersection & Hrest)]]]; [tauto..|].
    left; right. by exists y, tx.
  - apply not_true_iff_false in Hc. rewrite contains_spec in Hc.
    destruct (IH v removed Hi) as (v' & rm & W & -> & Hs & HW & Hrm).
    exists v', rm, W. split; [done|]. split; [done|]. split; [by apply takes_absent|done].
Qed.
End Shrunk.
End VerifiedRemove.
