(* ===== verification/Standard.v ===== *)
(** * Standard transactions

    The policy checks of the mempool: [Storage::reject_if_non_standard_tx]
    ([zakurad/src/components/mempool/storage.rs], [storage/policy.rs]), and the
    input checks it shares with the transaction verifier
    ([zakura-consensus/src/transaction/check.rs]), which applies them before the
    scripts are run.

    What [zcash_script] finds in a script is a parameter.

    The theorem: the verifier's checks reject no transaction that the mempool
    would accept. *)

From stdpp Require Import base numbers strings list option.
From Stdlib Require Import ZArith Lia.
From S2P Require Import Prelude Amount Zip317 Serialization SerializationFacts Dependencies Transparent TransparentFacts MempoolTx.
Local Open Scope Z_scope.
Local Notation length := List.length.

Module Standard.
Import Serialization SerializationFacts MempoolTx.

(** [solver::ScriptKind], as far as the checks read it *)
Inductive ScriptKind :=
| PubKey
| PubKeyHash
| ScriptHash
| MultiSig (required : Z) (pubkeys : Z)
| NullData.

(** [zcash_script]: whether a script only pushes; for each parsed opcode, the value
    it pushes if it is a push; the kind of a standard script ([to_component],
    [refine] and [solver::standard]); the accurate count of signature operations. *)
Class ZcashScript := {
  is_push_only : list Z -> bool;
  parse : list Z -> list (option (list Z));
  standard : list Z -> option ScriptKind;
  sig_op_count : list Z -> Z;
}.

Definition MAX_P2SH_SIGOPS : Z := 15.
Definition MAX_STANDARD_SCRIPTSIG_SIZE : Z := 1650.
Definition MAX_STANDARD_TX_SIGOPS : Z := 4000.
Definition MAX_STANDARD_MULTISIG_PUBKEYS : Z := 3.

Inductive NonStandardTransactionError :=
| TransactionTooLarge (actual_bytes max_bytes : Z)
| IsDust
| ScriptSigTooLarge
| ScriptSigNotPushOnly
| ScriptPubKeyNonStandard
| BareMultiSig
| MultiOpReturn
| DataCarrierTooLarge
| TooManySigops
| NonStandardInputs.

(** The errors of [mempool_standard_input_scripts]. *)
Inductive StandardInputError :=
| Misaligned
| NonStandardScriptSigSize (input_index : nat) (size : Z)
| NonStandardScriptSigNotPushOnly (input_index : nat)
| InputsNotStandard.

Section Checks.
Context {ZS : ZcashScript}.

Definition standard_script_kind (lock_script : list Z) : option ScriptKind := standard lock_script.

Definition script_sig_args_expected (kind : ScriptKind) : option Z :=
  match kind with
  | PubKey => Some 1
  | PubKeyHash => Some 2
  | ScriptHash => Some 1
  | MultiSig required _ => Some (required + 1)
  | NullData => None
  end.

(** The last data push of a script. *)
Definition extract_p2sh_redeemed_script (unlock_script : list Z) : option (list Z) :=
  foldl (fun last op => match op with Some v => Some v | None => last end) None (parse unlock_script).

Definition count_script_push_ops (script : list Z) : Z :=
  Z.of_nat (length (filter (fun op => is_Some op) (parse script))).

(** One input of [are_inputs_standard]: whether the loop goes on. *)
Definition input_standard (unlock_script : list Z) (spent_output : Output) : bool :=
  match standard_script_kind (lock_script spent_output) with
  | None => false
  | Some script_kind =>
      match script_sig_args_expected script_kind with
      | None => false
      | Some n_args_expected =>
          let stack_size := count_script_push_ops unlock_script in
          match script_kind with
          | ScriptHash =>
              match extract_p2sh_redeemed_script unlock_script with
              | None => false
              | Some redeemed =>
                  match standard redeemed with
                  | Some inner_kind =>
                      match script_sig_args_expected inner_kind with
                      | Some inner => stack_size =? n_args_expected + inner
                      | None => false
                      end
                  | None => sig_op_count redeemed <=? MAX_P2SH_SIGOPS
                  end
              end
          | _ => stack_size =? n_args_expected
          end
      end
  end.

Fixpoint inputs_standard (l : list (Input * Output)) : bool :=
  match l with
  | [] => true
  | (PrevOut _ unlock_script _, spent_output) :: l =>
      if input_standard unlock_script spent_output then inputs_standard l else false
  | (Coinbase _ _ _, _) :: l => inputs_standard l
  end.

Definition are_inputs_standard (tx : Transaction) (spent_outputs : list Output) : bool :=
  if negb (length (inputs tx) =? length spent_outputs)%nat then false
  else inputs_standard (zip (inputs tx) spent_outputs).

(** The loop of [mempool_standard_input_scripts] over the input scripts. *)
Fixpoint check_script_sigs (input_index : nat) (l : list Input) : res StandardInputError unit :=
  match l with
  | [] => Ok ()
  | Coinbase _ _ _ :: l => check_script_sigs (S input_index) l
  | PrevOut _ unlock_script _ :: l =>
      let size := Z.of_nat (length unlock_script) in
      if MAX_STANDARD_SCRIPTSIG_SIZE <? size then Err (NonStandardScriptSigSize input_index size)
      else if negb (is_push_only unlock_script) then Err (NonStandardScriptSigNotPushOnly input_index)
      else check_script_sigs (S input_index) l
  end.

Definition mempool_standard_input_scripts (tx : Transaction) (spent_outputs : list Output)
  : res StandardInputError unit :=
  if negb (length (inputs tx) =? length spent_outputs)%nat then Err Misaligned
  else
    let? _ := check_script_sigs 0 (inputs tx) in
    if negb (are_inputs_standard tx spent_outputs) then Err InputsNotStandard else Ok ().

(** ** The checks of the storage *)

Fixpoint standard_script_sigs (l : list Input) : res NonStandardTransactionError unit :=
  match l with
  | [] => Ok ()
  | Coinbase _ _ _ :: l => standard_script_sigs l
  | PrevOut _ unlock_script _ :: l =>
      if MAX_STANDARD_SCRIPTSIG_SIZE <? Z.of_nat (length unlock_script) then Err ScriptSigTooLarge
      else if negb (is_push_only unlock_script) then Err ScriptSigNotPushOnly
      else standard_script_sigs l
  end.

(** The loop over the outputs; it returns the number of data outputs. *)
Fixpoint standard_outputs (max_datacarrier_bytes : Z) (l : list Output) (data_out_count : Z)
  : res NonStandardTransactionError Z :=
  match l with
  | [] => Ok data_out_count
  | output :: l =>
      let script_len := Z.of_nat (length (lock_script output)) in
      match standard_script_kind (lock_script output) with
      | None => Err ScriptPubKeyNonStandard
      | Some NullData =>
          if max_datacarrier_bytes <? script_len then Err DataCarrierTooLarge
          else
            let? n := uint_arith 32 (data_out_count + 1) in
            standard_outputs max_datacarrier_bytes l n
      | Some (MultiSig _ pubkeys) =>
          if MAX_STANDARD_MULTISIG_PUBKEYS <? pubkeys then Err ScriptPubKeyNonStandard else Err BareMultiSig
      | Some _ =>
          let? dust := is_dust output in
          if dust then Err IsDust else standard_outputs max_datacarrier_bytes l data_out_count
      end
  end.

(** The sigop limit, and the standard input scripts where the spent outputs are known. *)
Definition standard_sigops (tx : VerifiedUnminedTx) : res NonStandardTransactionError unit :=
  match spent_outputs tx with
  | [] =>
      if MAX_STANDARD_TX_SIGOPS <? Zip317.legacy_sigop_count (fees tx) then Err TooManySigops else Ok ()
  | _ :: _ =>
      if negb (length (inputs (transaction tx)) =? length (spent_outputs tx))%nat then Err NonStandardInputs
      else if negb (are_inputs_standard (transaction tx) (spent_outputs tx)) then Err NonStandardInputs
      else if MAX_STANDARD_TX_SIGOPS <? Zip317.block_sigop_count (fees tx) then Err TooManySigops
      else Ok ()
  end.

(** What [reject_if_non_standard_tx] checks. *)
Definition check_standard (max_datacarrier_bytes : Z) (tx : VerifiedUnminedTx)
  : res NonStandardTransactionError unit :=
  let? _ := standard_script_sigs (inputs (transaction tx)) in
  let? _ := standard_sigops tx in
  let? data_out_count := standard_outputs max_datacarrier_bytes (outputs (transaction tx)) 0 in
  if 1 <? data_out_count then Err MultiOpReturn else Ok ().

(** ** Facts *)

Lemma output_size_val {E} (o : Output) :
  0 <= Amount.zatoshis (value o) <= Amount.MAX_MONEY -> Z.of_nat (length (lock_script o)) <= Zip317.MAX_BLOCK_BYTES ->
  output_size (E := E) o =
    Ok (8 + encoded_len (Z.of_nat (length (lock_script o))) + Z.of_nat (length (lock_script o))).
Proof.
  rewrite Amount.MAX_MONEY_val. unfold Zip317.MAX_BLOCK_BYTES. intros Hv Hl.
  unfold output_size, serialize_output, write_amount, to_uint. rewrite (proj2 (in_uint_spec _ _)) by lia.
  cbn [expect res_bind]. unfold write_script.
  rewrite write_bytes_Ok by (unfold blen, MAX_PROTOCOL_MESSAGE_LEN; lia). cbn [res_bind expect_ok].
  rewrite !length_app, length_le_bytes. fold (blen (lock_script o)).
  pose proof (length_compact_size (blen (lock_script o))) as Hc. unfold blen in *. f_equal. lia.
Qed.

(** [is_dust] compares with a third of the fee of spending the output, thrice. *)
Lemma is_dust_val {E} (o : Output) :
  0 <= Amount.zatoshis (value o) <= Amount.MAX_MONEY -> Z.of_nat (length (lock_script o)) <= Zip317.MAX_BLOCK_BYTES ->
  let size := 8 + encoded_len (Z.of_nat (length (lock_script o))) + Z.of_nat (length (lock_script o)) in
  is_dust (E := E) o = Ok (Amount.zatoshis (value o) <? 3 * (100 * (size + 148) / 1000)).
Proof.
  intros Hv Hl size. unfold is_dust. rewrite output_size_val by done. fold size. cbn [res_bind].
  assert (Hsz : 8 <= size <= 2000017).
  { unfold size, encoded_len, Zip317.MAX_BLOCK_BYTES in *. repeat case_match; lia. }
  unfold to_uint. rewrite (proj2 (in_uint_spec _ _)) by lia. cbn [expect res_bind].
  unfold ONE_THIRD_DUST_THRESHOLD_RATE. do 2 (rewrite uint_arith_Ok by lia; cbn [res_bind]).
  assert (0 <= 100 * (size + 148) / 1000 <= 100 * (size + 148)).
  { split; [apply Z.div_pos; lia|apply Z.div_le_upper_bound; lia]. }
  by rewrite uint_arith_Ok by lia.
Qed.

Lemma standard_outputs_no_panic max l : forall n,
  Forall (fun o => 0 <= Amount.zatoshis (value o) <= Amount.MAX_MONEY /\
            Z.of_nat (length (lock_script o)) <= Zip317.MAX_BLOCK_BYTES) l ->
  0 <= n -> n + Z.of_nat (length l) < 2 ^ 32 -> standard_outputs max l n <> Panic.
Proof.
  induction l as [|o l IH]; intros n Hl H0 Hn; cbn [standard_outputs]; [done|].
  inversion Hl as [|? ? [Ho Hs] Hl']; subst. cbn [length] in Hn.
  destruct (standard_script_kind (lock_script o)) as [[]|]; try done;
    try (rewrite is_dust_val by done; cbn [res_bind]; destruct (_ <? _); [done|]; apply IH; [done|lia|lia]).
  - by destruct (_ <? _).
  - destruct (_ <? _); [done|]. rewrite uint_arith_Ok by lia. cbn [res_bind]. apply IH; [done|lia|lia].
Qed.

(** Outputs of a transaction that fits in a block. *)
Definition outputs_ok (tx : VerifiedUnminedTx) : Prop :=
  Forall (fun o => 0 <= Amount.zatoshis (value o) <= Amount.MAX_MONEY /\
            Z.of_nat (length (lock_script o)) <= Zip317.MAX_BLOCK_BYTES) (outputs (transaction tx)) /\
  Z.of_nat (length (outputs (transaction tx))) < 2 ^ 32.

Lemma check_standard_no_panic max tx : outputs_ok tx -> check_standard max tx <> Panic.
Proof.
  intros [Hout Hlen]. unfold check_standard.
  assert (Hsigs : forall l, standard_script_sigs l <> Panic).
  { induction l as [|[]]; cbn [standard_script_sigs]; repeat case_match; try done. }
  specialize (Hsigs (inputs (transaction tx))). destruct (standard_script_sigs _); cbn [res_bind]; [|done|done].
  assert (Hops : standard_sigops tx <> Panic) by (unfold standard_sigops; repeat case_match; done).
  destruct (standard_sigops tx); cbn [res_bind]; [|done|done].
  pose proof (standard_outputs_no_panic max (outputs (transaction tx)) 0 Hout) as Hno.
  destruct (standard_outputs _ _ _); cbn [res_bind]; [by destruct (_ <? _)|done|destruct Hno; [lia|lia|done]].
Qed.

(** The loops over the input scripts find the same. *)
Lemma script_sigs_agree l : forall i,
  match check_script_sigs i l with
  | Ok _ => standard_script_sigs l = Ok ()
  | Err (NonStandardScriptSigSize _ _) => standard_script_sigs l = Err ScriptSigTooLarge
  | Err (NonStandardScriptSigNotPushOnly _) => standard_script_sigs l = Err ScriptSigNotPushOnly
  | Err _ | Panic => False
  end.
Proof.
  induction l as [|[o s q|h d q] l IH]; intros i; cbn [check_script_sigs standard_script_sigs]; [done| |apply IH].
  destruct (_ <? _); [done|]. destruct (negb _); [done|]. apply IH.
Qed.

(** The verifier's early check of the input scripts rejects only transactions that
    the mempool would reject: when the spent outputs are known and aligned with the
    inputs, a failure of [mempool_standard_input_scripts] is a failure of the checks of
    [reject_if_non_standard_tx], for the matching reason. *)
Lemma early_script_checks_sound max tx e :
  spent_outputs tx <> [] -> length (inputs (transaction tx)) = length (spent_outputs tx) ->
  mempool_standard_input_scripts (transaction tx) (spent_outputs tx) = Err e ->
  check_standard max tx =
    Err (match e with
         | NonStandardScriptSigSize _ _ => ScriptSigTooLarge
         | NonStandardScriptSigNotPushOnly _ => ScriptSigNotPushOnly
         | Misaligned | InputsNotStandard => NonStandardInputs
         end).
Proof.
  intros Hne Hlen. unfold mempool_standard_input_scripts, check_standard.
  rewrite Hlen, Nat.eqb_refl. cbn [negb]. pose proof (script_sigs_agree (inputs (transaction tx)) 0) as Ha.
  destruct (check_script_sigs 0 (inputs (transaction tx))) as [[]|e'|]; cbn [res_bind]; [| |done].
  - rewrite Ha. cbn [res_bind]. destruct (are_inputs_standard _ _) eqn:Hs; cbn [negb]; [done|]. intros [= <-].
    unfold standard_sigops. destruct (spent_outputs tx) as [|o l]; [done|].
    rewrite Hlen, Nat.eqb_refl, Hs. done.
  - intros [= ->]. destruct e; try done; by rewrite Ha.
Qed.
End Checks.

(** A solver that knows pay-to-public-key-hash and data scripts by their first byte. *)
#[local] Instance toy_script : ZcashScript :=
  {| is_push_only s := forallb (fun b => b <=? 96) s;
     parse s := (fun b => if b <=? 96 then Some [b] else None) <$> s;
     standard s := match s with 118 :: _ => Some PubKeyHash | 106 :: _ => Some NullData | _ => None end;
     sig_op_count s := Z.of_nat (length (filter (fun b => b = 172) s)) |}.

Definition spending_tx (script : list Z) : VerifiedUnminedTx :=
  mkVerified (Legacy 1)
    (mkTransaction [PrevOut (mkOutPoint 5 0) script 0] [mkOutput (Amount.mk 100000) [118; 7]] [] [] [] [] None 4 None)
    (Zip317.mkVerified
       (Zip317.mkUnmined (Zip317.mkTransaction [41] [10] 0 0 0 0 0 100) 100 (Amount.mk 10000))
       (Amount.mk 10000) 1 0 2 0)
    (QArith_base.inject_Z 1) None None [mkOutput (Amount.mk 120000) [118; 9]].

End Standard.
