(* ===== verification/PeerPolicy.v ===== *)
(** * What a failed transaction costs the peer that relayed it

    The errors of the transaction verifier
    ([zakura-consensus/src/error.rs]) and of the downloads
    ([zakurad/src/components/mempool/downloads.rs]), and the functions of
    [zakurad/src/components/mempool.rs] that decide from them whether the peer is
    banned, is put in a cooldown, or is left alone.  Fields of an error that no
    decision reads are left out. *)

From stdpp Require Import base numbers list option gmap sets.
From Stdlib Require Import ZArith Lia.
From S2P Require Import Prelude Height BTree Network BSet PeerCooldown Dependencies MempoolTx Standard.
Local Open Scope Z_scope.

Module PeerPolicy.
Import PeerCooldown.
Import MempoolTx.
Notation NetworkUpgrade := Network.NetworkUpgrade.
#[local] Existing Instance Network.network_upgrade_eq_dec.

Record SocketAddr := mkAddr { ip : IpAddr; port : Z }.

#[export] Instance SocketAddr_eq_dec : EqDecision SocketAddr.
Proof. solve_decision. Defined.
#[export] Instance SocketAddr_countable : Countable SocketAddr.
Proof. refine (inj_countable' (fun a => (ip a, port a)) (fun p => mkAddr p.1 p.2) _). by intros []. Defined.

(** ** Errors *)

(** [zakura_script::Error] *)
Inductive ScriptError := ScriptInvalid | TxIndex | TxCoinbase | Interpreter | TxInvalid.

Definition is_script_failure (self : ScriptError) : bool :=
  match self with ScriptInvalid | Interpreter => true | _ => false end.

(** [zs::ValidateContextError], as far as a decision depends on it *)
Inductive ValidateContextError := UnshieldedCoinbase | OtherContext.

Inductive TransactionError :=
| CoinbasePosition | CoinbaseAfterFirst | CoinbaseHasJoinSplit | CoinbaseHasSpend
| CoinbaseHasOutputPreHeartwood | CoinbaseHasEnableSpendsOrchard | CoinbaseHasEnableSpendsIronwood
| CoinbaseHasOrchardShieldedData | CoinbaseOutputsNotDecryptable | CoinbaseInMempool
| NonCoinbaseHasCoinbaseInput | NotCoinbase
| LockedUntilAfterBlockHeight (height : Z)
| LockedUntilAfterBlockTime (time : Z)
| CoinbaseExpiryBlockHeight (expiry_height : option Z) (block_height : Z)
| CoinbaseConstruction
| MaximumExpiryHeight (expiry_height : Z) (is_coinbase : bool) (block_height : Z)
| ExpiredTransaction (expiry_height block_height : Z)
| Subsidy | WrongVersion
| UnsupportedByNetworkUpgrade (version : Z) (upgrade : NetworkUpgrade)
| NoInputs | NoOutputs | BadBalance
| Script (error : ScriptError)
| SaplingVerificationFailed | Halo2VerificationFailed | SmallOrder | Groth16 | MalformedGroth16
| Ed25519 | RedJubjub | RedPallas | InternalDowncastError | StateUnavailable | BothVPubsNonZero
| DisabledAddToSproutPool | DisabledAddToOrchardPool | IncorrectFee
| DuplicateTransparentSpend (outpoint : OutPoint)
| DuplicateSproutNullifier (nullifier : Z)
| DuplicateSaplingNullifier (nullifier : Z)
| DuplicateOrchardNullifier (nullifier : Z)
| DuplicateIronwoodNullifier (nullifier : Z)
| NotEnoughFlags | NotEnoughIronwoodFlags | OrchardHasEnableCrossAddress | TransparentInputNotFound
| ValidateContext (error : ValidateContextError)
| ValidateMempoolLockTimeError
| ImmatureTransparentCoinbaseSpend (outpoint : OutPoint) (spend_height min_spend_height created_height : Z)
| UnshieldedTransparentCoinbaseSpend (outpoint : OutPoint) (min_spend_height : Z)
| Zip317Error
| NonStandardScriptSigSize (input_index size : Z)
| NonStandardScriptSigNotPushOnly (input_index : Z)
| NonStandardInputs | WrongConsensusBranchId | WrongConsensusBranchIdNu6_3GracePeriod
| MissingConsensusBranchId
| OrchardActionsExceedBlockLimit (actions limit : Z)
| IronwoodActionsExceedBlockLimit (actions limit : Z)
| SaplingIOsExceedBlockLimit (ios limit : Z)
| SproutJoinSplitsExceedBlockLimit (joinsplits limit : Z)
| ShieldedCostExceedsBlockBudget (cost limit : Z)
| Io | TryFromSlice | AmountError | BalanceError | OrchardProofSize | IronwoodProofSize | Other.

Inductive TransactionDownloadVerifyError :=
| InState
| StateError
| DownloadFailed
| Cancelled
| PolicyRejected (error : Standard.NonStandardTransactionError)
| Invalid (error : TransactionError) (advertiser_addr : option SocketAddr) (tip_height : option Z)
    (transaction_version : Z) (transaction_network_upgrade : option NetworkUpgrade)
    (retried_after_tip_reset : bool)
| PeerCoolingDown.

(** ** Decisions *)

Inductive PeerAction := Ban | BanV5AndLater | Cooldown | Ignore.

#[export] Instance PeerAction_eq_dec : EqDecision PeerAction.
Proof. solve_decision. Defined.

Definition peer_action (error : TransactionError) : PeerAction :=
  match error with
  | WrongVersion | NoInputs | NoOutputs | BadBalance | IncorrectFee | SmallOrder | Groth16 | MalformedGroth16
  | BothVPubsNonZero | NotEnoughFlags | NotEnoughIronwoodFlags | OrchardHasEnableCrossAddress
  | OrchardProofSize | IronwoodProofSize | CoinbaseInMempool | NonCoinbaseHasCoinbaseInput => Ban
  | DuplicateTransparentSpend _ | DuplicateSproutNullifier _ | DuplicateSaplingNullifier _
  | DuplicateOrchardNullifier _ | DuplicateIronwoodNullifier _ | MaximumExpiryHeight _ _ _ => Ban
  | UnshieldedTransparentCoinbaseSpend _ _ => Ban
  | ValidateContext error => match error with UnshieldedCoinbase => Ban | OtherContext => Ignore end
  | Script script_error => if is_script_failure script_error then BanV5AndLater else Ignore
  | SaplingVerificationFailed | Halo2VerificationFailed | Ed25519 | RedJubjub | RedPallas => BanV5AndLater
  | DisabledAddToOrchardPool => BanV5AndLater
  | OrchardActionsExceedBlockLimit _ _ | IronwoodActionsExceedBlockLimit _ _ | SaplingIOsExceedBlockLimit _ _
  | SproutJoinSplitsExceedBlockLimit _ _ | ShieldedCostExceedsBlockBudget _ _ => BanV5AndLater
  | DisabledAddToSproutPool => Cooldown
  | WrongConsensusBranchId | UnsupportedByNetworkUpgrade _ _ | ExpiredTransaction _ _ => Ignore
  | WrongConsensusBranchIdNu6_3GracePeriod | MissingConsensusBranchId | LockedUntilAfterBlockHeight _
  | LockedUntilAfterBlockTime _ | ImmatureTransparentCoinbaseSpend _ _ _ _ => Ignore
  | TransparentInputNotFound | ValidateMempoolLockTimeError => Ignore
  | Zip317Error | NonStandardScriptSigSize _ _ | NonStandardScriptSigNotPushOnly _ | NonStandardInputs => Ignore
  | CoinbasePosition | CoinbaseAfterFirst | CoinbaseHasJoinSplit | CoinbaseHasSpend
  | CoinbaseHasOutputPreHeartwood | CoinbaseHasEnableSpendsOrchard | CoinbaseHasEnableSpendsIronwood
  | CoinbaseHasOrchardShieldedData | CoinbaseOutputsNotDecryptable | NotCoinbase
  | CoinbaseExpiryBlockHeight _ _ | CoinbaseConstruction | Subsidy => Ignore
  | InternalDowncastError | StateUnavailable | Io | TryFromSlice | AmountError | BalanceError | Other => Ignore
  end.

Definition transaction_ban_peer (error : TransactionDownloadVerifyError) : option SocketAddr :=
  match error with
  | Invalid error (Some advertiser_addr) _ transaction_version _ _ =>
      let bans :=
        match peer_action error with
        | Ban => true
        | BanV5AndLater => 5 <=? transaction_version
        | Cooldown | Ignore => false
        end in
      if bans then Some advertiser_addr else None
  | _ => None
  end.

Definition UPGRADE_GRACE_PERIOD_BLOCKS : Z := 40.

Definition upgrade_grace_period {E} (network : Network.Network) (height : Z) : res E (option NetworkUpgrade) :=
  let? (upgrade, activation_height) := Network.current_with_activation_height network height in
  if bool_decide (Network.branch_id upgrade = None) ||
     (UPGRADE_GRACE_PERIOD_BLOCKS <=? Height.sub_height height activation_height)
  then Ok None
  else
    match Height.previous activation_height with
    | Ok previous_height => let? nu := Network.current network previous_height in Ok (Some nu)
    | Err _ => Ok None
    | Panic => Panic
    end.

Definition transaction_cooldown_peer (error : TransactionDownloadVerifyError) (best_tip_height : option Z)
  (tip_upgrade : NetworkUpgrade) (grace_period_upgrade : option NetworkUpgrade) : option SocketAddr :=
  match error with
  | Invalid error (Some advertiser_addr) tip_height transaction_version transaction_network_upgrade
      retried_after_tip_reset =>
      if retried_after_tip_reset then None
      else
        let cools_down :=
          match peer_action error with
          | Cooldown => true
          | BanV5AndLater => transaction_version <? 5
          | Ban | Ignore => false
          end in
        if negb cools_down || bool_decide (tip_height = None) || negb (bool_decide (tip_height = best_tip_height))
        then None
        else if match transaction_network_upgrade with
                | Some upgrade => Network.nu_ltb tip_upgrade upgrade
                | None => false
                end
        then None
        else if match grace_period_upgrade with
                | Some previous_upgrade =>
                    match transaction_network_upgrade with
                    | None => true
                    | Some upgrade => bool_decide (upgrade = previous_upgrade)
                    end
                | None => false
                end
        then None
        else Some advertiser_addr
  | _ => None
  end.

Definition is_zcashd_compat_peer (zcashd_compat_peer_ips : gset IpAddr) (peer : SocketAddr) : bool :=
  bool_decide (to_canonical (ip peer) ∈ zcashd_compat_peer_ips).

(** What the mempool asks of the rest of the node about a peer. *)
Inductive PeerRequest := Misbehavior (peer : SocketAddr) (score : Z) | DisconnectPeer (peer : SocketAddr).

Definition MAX_PEER_MISBEHAVIOR_SCORE : Z := 100.

(** [start_peer_cooldown] at the time [now] *)
Definition start_peer_cooldown (peer_cooldowns : CooldownState) (peer : SocketAddr) (now : Z)
  : CooldownState * list PeerRequest :=
  match record_invalid_transaction peer_cooldowns (ip peer) now with
  | (peer_cooldowns, None) => (peer_cooldowns, [])
  | (peer_cooldowns, Some cooldown) =>
      (peer_cooldowns, if BASE_COOLDOWN <? cooldown then [DisconnectPeer peer] else [])
  end.

(** ** Facts *)

(** A failure bans the peer or starts a cooldown, never both. *)
Lemma ban_or_cooldown error tip tip_upgrade grace peer :
  transaction_ban_peer error = Some peer -> transaction_cooldown_peer error tip tip_upgrade grace = None.
Proof.
  destruct error as [| | | | |e addr th v nu retried|]; try done. destruct addr as [addr|]; [|done]. cbn.
  destruct retried; [done|]. destruct (peer_action e); cbn; try done.
  destruct (Z.leb_spec 5 v); [|done]. by rewrite (proj2 (Z.ltb_ge v 5)).
Qed.

(** A cooldown needs a failure at the current tip, of a transaction that does not
    belong to another upgrade than the tip's: it declares none that is later, and
    in the first blocks of an upgrade it declares that one. *)
Lemma cooldown_at_tip error tip tip_upgrade grace peer :
  transaction_cooldown_peer error tip tip_upgrade grace = Some peer ->
  exists e v nu height, error = Invalid e (Some peer) (Some height) v nu false /\ tip = Some height /\
    (peer_action e = Cooldown \/ peer_action e = BanV5AndLater /\ v < 5) /\
    (forall u, nu = Some u -> Network.nu_leb u tip_upgrade = true) /\
    (forall previous, grace = Some previous -> exists u, nu = Some u /\ u <> previous).
Proof.
  destruct error as [| | | | |e addr th v nu retried|]; try done. destruct addr as [addr|]; [|done]. cbn.
  destruct retried; [done|].
  destruct (negb _ || _ || _) eqn:Hor; [done|]. apply orb_false_iff in Hor as [[Hcool Hth]%orb_false_iff Htip].
  apply negb_false_iff in Hcool, Htip. apply bool_decide_eq_false in Hth. apply bool_decide_eq_true in Htip as ->.
  destruct tip as [height|]; [|done].
  destruct (match nu with Some _ => _ | None => false end) eqn:Hnu; [done|].
  destruct (match grace with Some _ => _ | None => false end) eqn:Hgr; [done|]. intros [= ->].
  exists e, v, nu, height. split; [done|]. split; [done|]. split; [|split].
  - destruct (peer_action e); [done| |by left|done]. right. split; [done|by apply Z.ltb_lt].
  - intros u ->. unfold Network.nu_ltb, Network.nu_leb in *. lia.
  - intros previous ->. destruct nu as [u|]; [|done]. exists u. split; [done|]. by apply bool_decide_eq_false in Hgr.
Qed.

(** The grace period is known at every height. *)
Lemma upgrade_grace_period_Ok {E} net height :
  Network.net_wf net -> 0 <= height -> exists grace, upgrade_grace_period (E := E) net height = Ok grace.
Proof.
  intros Hwf Hh. unfold upgrade_grace_period, Network.current_with_activation_height.
  destruct (Network.current_Ok net height Hwf Hh) as (a & nu & Hlast & _). rewrite Hlast. cbn [expect res_bind].
  destruct (bool_decide _ || _); [by eexists|].
  pose proof (Network.wf_sorted net Hwf) as Hs.
  apply bt_last_le_Some in Hlast as (Hin & _ & _); [|by apply Network.sorted_bt_wf].
  pose proof (Network.wf_valid net Hwf) as Hv. rewrite Forall_forall in Hv. specialize (Hv _ Hin). cbn in Hv.
  destruct (decide (a = 0)) as [->|Ha]; [by eexists|].
  assert (0 < a) by (unfold Height.valid, Height.MIN in Hv; lia).
  rewrite (Height.previous_valid a Hv) by done.
  destruct (Network.current_Ok net (a - 1) Hwf) as (a' & nu' & _ & Hc); [lia|]. rewrite (Hc E). by eexists.
Qed.
End PeerPolicy.
