(* ===== verification/Storage.v ===== *)
(** * Mempool storage

    [zakurad/src/components/mempool/storage.rs]: the verified set, the requests
    that wait for outputs, and the lists of rejected transactions.

    [ticks] counts the readings of the monotonic clock made so far by the
    eviction lists.  A function that changes the storage and also returns a
    [Result] returns both: [inl] is its error.  Gauges and counters are not
    modelled; the pruning that reading the list lengths for them does is. *)

From stdpp Require Import base numbers list option gmap sets.
From Stdlib Require Import ZArith Lia.
From S2P Require Import Prelude EvictionList Zip317 EvictionCost HashIter Dependencies MempoolTx VerifiedSet Standard PeerPolicy.
Local Open Scope Z_scope.

Module Storage.
Import MempoolTx.
Notation TransactionError := PeerPolicy.TransactionError.

Definition MAX_EVICTION_MEMORY_ENTRIES : Z := 40000.
Definition DEFAULT_MAX_DATACARRIER_BYTES : Z := 83.

(** ** Errors *)

Inductive ExactTipRejectionError :=
| FailedVerification (error : TransactionError)
| FailedStandard (error : Standard.NonStandardTransactionError)
| Evicted
| BelowEvictionCost.

Inductive SameEffectsChainRejectionError := Expired | DuplicateSpend | Mined.

#[export] Instance chain_rejection_eq_dec : EqDecision SameEffectsChainRejectionError.
Proof. solve_decision. Defined.
#[export] Instance chain_rejection_countable : Countable SameEffectsChainRejectionError :=
  inj_countable
    (fun e => match e with Expired => 0%nat | DuplicateSpend => 1%nat | Mined => 2%nat end)
    (fun n => match n with 0%nat => Some Expired | 1%nat => Some DuplicateSpend | _ => Some Mined end)
    ltac:(abstract by intros []).

Inductive RejectionError :=
| ExactTip (e : ExactTipRejectionError)
| SameEffectsTip (e : VerifiedSet.SameEffectsTipRejectionError)
| SameEffectsChain (e : SameEffectsChainRejectionError)
| NonStandardTransaction (e : Standard.NonStandardTransactionError).

(** [MempoolError] *)
Inductive MempoolError :=
| StorageExactTip (e : ExactTipRejectionError)
| StorageEffectsTip (e : VerifiedSet.SameEffectsTipRejectionError)
| StorageEffectsChain (e : SameEffectsChainRejectionError)
| InMempool
| AlreadyQueued
| FullQueue
| Disabled
| NonStandard (e : Standard.NonStandardTransactionError).

(** ** The state *)

Section Storage.
Context {HO : HashOrder} {ZS : Standard.ZcashScript} (clock : nat -> Z).

Notation EvictionList := (@EvictionList.EvictionList Hash _ _).

Record Storage := mkStorage {
  verified : VerifiedSet.VerifiedSet;
  pending_outputs : PendingOutputs.PendingOutputs;
  tip_rejected_exact : gmap UnminedTxId ExactTipRejectionError;
  tip_rejected_same_effects : gmap Hash VerifiedSet.SameEffectsTipRejectionError;
  chain_rejected_same_effects : gmap SameEffectsChainRejectionError EvictionList;
  eviction_memory_time : Z;
  rejection_list_capacity : Z;
  tx_cost_limit : Z;
  max_datacarrier_bytes : Z;
  ticks : nat;
}.

(** Field updates. *)
Definition with_verified (self : Storage) (v : VerifiedSet.VerifiedSet) (p : PendingOutputs.PendingOutputs) : Storage :=
  mkStorage v p (tip_rejected_exact self) (tip_rejected_same_effects self) (chain_rejected_same_effects self)
    (eviction_memory_time self) (rejection_list_capacity self) (tx_cost_limit self) (max_datacarrier_bytes self)
    (ticks self).

Definition with_tip (self : Storage) (exact : gmap UnminedTxId ExactTipRejectionError)
  (same : gmap Hash VerifiedSet.SameEffectsTipRejectionError) : Storage :=
  mkStorage (verified self) (pending_outputs self) exact same (chain_rejected_same_effects self)
    (eviction_memory_time self) (rejection_list_capacity self) (tx_cost_limit self) (max_datacarrier_bytes self)
    (ticks self).

Definition with_chain (self : Storage) (chain : gmap SameEffectsChainRejectionError EvictionList) (ticks : nat)
  : Storage :=
  mkStorage (verified self) (pending_outputs self) (tip_rejected_exact self) (tip_rejected_same_effects self) chain
    (eviction_memory_time self) (rejection_list_capacity self) (tx_cost_limit self) (max_datacarrier_bytes self)
    ticks.

(** [Config], as far as the storage reads it *)
Record Config := mkConfig {
  config_tx_cost_limit : Z;
  config_eviction_memory_time : Z;
  config_max_datacarrier_bytes : option Z;
}.

Definition new_with_rejection_list_capacity {E} (config : Config) (rejection_list_capacity : Z) : res E Storage :=
  let? _ := rust_assert (0 <? rejection_list_capacity) in
  Ok (mkStorage VerifiedSet.empty PendingOutputs.empty ∅ ∅ ∅ (config_eviction_memory_time config)
        rejection_list_capacity (config_tx_cost_limit config)
        (default DEFAULT_MAX_DATACARRIER_BYTES (config_max_datacarrier_bytes config)) 0).

Definition new {E} (config : Config) : res E Storage :=
  new_with_rejection_list_capacity config MAX_EVICTION_MEMORY_ENTRIES.

(** ** Rejections *)

(** [map.len()] of the chain lists, in the order they are visited *)
Fixpoint list_lens {E} (self : Storage) (reasons : list SameEffectsChainRejectionError) (sum : Z)
  : res E (Storage * Z) :=
  match reasons with
  | [] => Ok (self, sum)
  | reason :: reasons =>
      match chain_rejected_same_effects self !! reason with
      | None => list_lens self reasons sum
      | Some map =>
          let? (map, tick, len) := EvictionList.len (Hash := Hash) clock map (ticks self) in
          let? sum := uint_arith 64 (sum + len) in
          list_lens (with_chain self (<[reason := map]> (chain_rejected_same_effects self)) tick) reasons sum
      end
  end.

Definition rejected_transaction_count {E} (self : Storage) : res E (Storage * Z) :=
  let? tips := uint_arith 64
    (Z.of_nat (size (tip_rejected_exact self)) + Z.of_nat (size (tip_rejected_same_effects self))) in
  let? (self, chain) := list_lens self (hash_iter (dom (chain_rejected_same_effects self))) 0 in
  let? count := uint_arith 64 (tips + chain) in
  Ok (self, count).

(** The length of the lists is read twice; the second value is multiplied by
    [size_of::<(transaction::Hash, SameEffectsTipRejectionError)>()]. *)
Definition update_rejected_metrics {E} (self : Storage) : res E Storage :=
  let item_size := 33 in
  let? (self, _) := rejected_transaction_count self in
  let? (self, count) := rejected_transaction_count self in
  let? _ := uint_arith 64 (count * item_size) in
  Ok self.

Definition limit_rejection_list_memory {E} (self : Storage) : res E Storage :=
  let exact :=
    if rejection_list_capacity self <? Z.of_nat (size (tip_rejected_exact self)) then ∅ else tip_rejected_exact self in
  let same :=
    if rejection_list_capacity self <? Z.of_nat (size (tip_rejected_same_effects self)) then ∅
    else tip_rejected_same_effects self in
  update_rejected_metrics (with_tip self exact same).

Definition reject {E} (self : Storage) (tx_id : UnminedTxId) (reason : RejectionError) : res E Storage :=
  let? self :=
    (match reason with
     | ExactTip e =>
         Ok (with_tip self (<[tx_id := e]> (tip_rejected_exact self)) (tip_rejected_same_effects self))
     | SameEffectsTip e =>
         Ok (with_tip self (tip_rejected_exact self) (<[mined_id tx_id := e]> (tip_rejected_same_effects self)))
     | SameEffectsChain e =>
         let list := default (EvictionList.new (Hash := Hash) (rejection_list_capacity self) (eviction_memory_time self))
                       (chain_rejected_same_effects self !! e) in
         let? (list, tick) := EvictionList.insert (Hash := Hash) clock list (mined_id tx_id) (ticks self) in
         Ok (with_chain self (<[e := list]> (chain_rejected_same_effects self)) tick)
     | NonStandardTransaction e =>
         Ok (with_tip self (<[tx_id := FailedStandard e]> (tip_rejected_exact self))
               (tip_rejected_same_effects self))
     end) in
  limit_rejection_list_memory self.

(** The chain lists of [rejection_error]: the first one that has the id. *)
Fixpoint chain_rejection (self : Storage) (reasons : list SameEffectsChainRejectionError) (id : Hash) (tick : nat)
  : option SameEffectsChainRejectionError * nat :=
  match reasons with
  | [] => (None, tick)
  | reason :: reasons =>
      match chain_rejected_same_effects self !! reason with
      | None => chain_rejection self reasons id tick
      | Some set =>
          let '(found, tick) := EvictionList.contains_key (Hash := Hash) clock set id tick in
          if found then (Some reason, tick) else chain_rejection self reasons id tick
      end
  end.

Definition rejection_error (self : Storage) (txid : UnminedTxId) : Storage * option MempoolError :=
  match tip_rejected_exact self !! txid with
  | Some error => (self, Some (StorageExactTip error))
  | None =>
      match tip_rejected_same_effects self !! mined_id txid with
      | Some error => (self, Some (StorageEffectsTip error))
      | None =>
          let '(error, tick) :=
            chain_rejection self (hash_iter (dom (chain_rejected_same_effects self))) (mined_id txid) (ticks self) in
          (with_chain self (chain_rejected_same_effects self) tick, StorageEffectsChain <$> error)
      end
  end.

Definition contains_rejected (self : Storage) (txid : UnminedTxId) : Storage * bool :=
  let '(self, error) := rejection_error self txid in (self, bool_decide (is_Some error)).

(** [rejected_transactions], the ids in the order the set is visited *)
Fixpoint rejected_transactions (self : Storage) (tx_ids : list UnminedTxId) : Storage * list UnminedTxId :=
  match tx_ids with
  | [] => (self, [])
  | txid :: tx_ids =>
      let '(self, rejected) := contains_rejected self txid in
      let '(self, ids) := rejected_transactions self tx_ids in
      (self, if rejected then txid :: ids else ids)
  end.

Definition reject_if_needed {E} (self : Storage) (tx_id : UnminedTxId)
  (e : PeerPolicy.TransactionDownloadVerifyError) : res E Storage :=
  match e with
  | PeerPolicy.InState | PeerPolicy.StateError | PeerPolicy.DownloadFailed | PeerPolicy.Cancelled
  | PeerPolicy.PeerCoolingDown => Ok self
  | PeerPolicy.PolicyRejected error => reject self tx_id (ExactTip (FailedStandard error))
  | PeerPolicy.Invalid error _ _ _ _ _ => reject self tx_id (ExactTip (FailedVerification error))
  end.

Definition contains_transaction_exact (self : Storage) (tx_id : Hash) : bool :=
  VerifiedSet.contains (verified self) tx_id.

Definition should_download_or_verify (self : Storage) (txid : UnminedTxId) : Storage * option MempoolError :=
  if contains_transaction_exact self (mined_id txid) then (self, Some InMempool)
  else rejection_error self txid.

(** ** Inserting *)

Definition reject_non_standard {E} (self : Storage) (tx : VerifiedUnminedTx)
  (rejection_error : Standard.NonStandardTransactionError) : res E (Storage * (MempoolError + unit)) :=
  let? self := reject self (unmined_id tx) (NonStandardTransaction rejection_error) in
  Ok (self, inl (NonStandard rejection_error)).

Definition reject_if_non_standard_tx {E} (self : Storage) (tx : VerifiedUnminedTx)
  : res E (Storage * (MempoolError + unit)) :=
  match Standard.check_standard (max_datacarrier_bytes self) tx with
  | Ok _ => Ok (self, inr ())
  | Err e => reject_non_standard self tx e
  | Panic => Panic
  end.

(** [reject_insert], for the two error types it is used with *)
Definition reject_insert_same {E} (self : Storage) (id : UnminedTxId) (e : VerifiedSet.SameEffectsTipRejectionError)
  : res E (Storage * MempoolError) :=
  let? self := reject self id (SameEffectsTip e) in Ok (self, StorageEffectsTip e).

Definition reject_insert_exact {E} (self : Storage) (id : UnminedTxId) (e : ExactTipRejectionError)
  : res E (Storage * MempoolError) :=
  let? self := reject self id (ExactTip e) in Ok (self, StorageExactTip e).

(** The inner loop of [make_room]. *)
Fixpoint reject_evicted {E} (self : Storage) (txs : list VerifiedUnminedTx) (evicted_ids : gset UnminedTxId)
  : res E (Storage * gset UnminedTxId) :=
  match txs with
  | [] => Ok (self, evicted_ids)
  | evicted_tx :: txs =>
      let? self := reject self (unmined_id evicted_tx) (ExactTip Evicted) in
      reject_evicted self txs ({[unmined_id evicted_tx]} ∪ evicted_ids)
  end.

Fixpoint evict_roots {E} (self : Storage) (roots : list Hash) (evicted_ids : gset UnminedTxId)
  : res E (Storage * gset UnminedTxId) :=
  match roots with
  | [] => Ok (self, evicted_ids)
  | root :: roots =>
      let? (v, removed) := VerifiedSet.remove (verified self) root in
      let? (self, evicted_ids) :=
        reject_evicted (with_verified self v (pending_outputs self)) removed evicted_ids in
      evict_roots self roots evicted_ids
  end.

Definition make_room {E} (self : Storage) (tx : VerifiedUnminedTx) (ancestors : gset Hash)
  : res E (Storage * (ExactTipRejectionError + gset UnminedTxId)) :=
  let? cost := tx_cost tx in
  if Z.min u64_max (VerifiedSet.total_cost (verified self) + cost) <=? tx_cost_limit self then Ok (self, inr ∅)
  else
    let? victims := VerifiedSet.select_eviction_victims (verified self) tx ancestors (tx_cost_limit self) in
    match VerifiedSet.roots victims with
    | None => Ok (self, inl BelowEvictionCost)
    | Some roots =>
        let? (self, evicted_ids) := evict_roots self roots ∅ in
        Ok (self, inr evicted_ids)
    end.

(** [Result<T, E>] of a call whose error is a value here. *)
Definition catch {E F A} (c : res F A) : res E (F + A) :=
  match c with Ok a => Ok (inr a) | Err e => Ok (inl e) | Panic => Panic end.

(** [now] is the wall clock time that the verified set stores with the
    transaction. *)
Definition insert_with_evicted_ids {E} (self : Storage) (tx : VerifiedUnminedTx)
  (spent_mempool_outpoints : list OutPoint) (height : option Z) (now : Z)
  : res E (Storage * (MempoolError + UnminedTxId) * gset UnminedTxId) :=
  let unmined_tx_id := unmined_id tx in
  let tx_id := mined_id unmined_tx_id in
  let '(self, error) := rejection_error self unmined_tx_id in
  match error with
  | Some error => Ok (self, inl error, ∅)
  | None =>
      if VerifiedSet.contains (verified self) tx_id then Ok (self, inl InMempool, ∅)
      else
        let? (self, standard) := reject_if_non_standard_tx self tx in
        match standard with
        | inl error => Ok (self, inl error, ∅)
        | inr _ =>
            let? checked := catch (VerifiedSet.check_insert (verified self) (transaction tx) spent_mempool_outpoints) in
            match checked with
            | inl e =>
                let? (self, error) := reject_insert_same self unmined_tx_id e in
                Ok (self, inl error, ∅)
            | inr ancestors =>
                let? (self, room) := make_room self tx ancestors in
                match room with
                | inl e =>
                    let? (self, error) := reject_insert_exact self unmined_tx_id e in
                    Ok (self, inl error, ∅)
                | inr evicted_ids =>
                    let? inserted :=
                      catch (VerifiedSet.insert (verified self) tx spent_mempool_outpoints (pending_outputs self)
                               height now) in
                    match inserted with
                    | inr (v, p) => Ok (with_verified self v p, inr unmined_tx_id, evicted_ids)
                    | inl e =>
                        let? (self, error) := reject_insert_same self unmined_tx_id e in
                        Ok (self, inl error, evicted_ids)
                    end
                end
            end
        end
  end.

Definition insert {E} (self : Storage) (tx : VerifiedUnminedTx) (spent_mempool_outpoints : list OutPoint)
  (height : option Z) (now : Z) : res E (Storage * (MempoolError + UnminedTxId)) :=
  let? (self, result, _) := insert_with_evicted_ids self tx spent_mempool_outpoints height now in
  Ok (self, result).

(** ** Removing *)

Definition clear_mined_dependencies {E} (self : Storage) (mined_ids : gset Hash) : res E Storage :=
  let? v := VerifiedSet.clear_mined_dependencies (verified self) mined_ids in
  Ok (with_verified self v (pending_outputs self)).

(** The spends of the mined transactions. *)
Record Spends := mkSpends {
  spends_outpoints : gset OutPoint;
  spends_sprout : gset Z;
  spends_sapling : gset Z;
  spends_orchard : gset Z;
  spends_ironwood : gset Z;
}.

Definition collect_spends (transactions : list Transaction) : Spends :=
  mkSpends (list_to_set (transactions ≫= spent_outpoints)) (list_to_set (transactions ≫= sprout_nullifiers))
    (list_to_set (transactions ≫= sapling_nullifiers)) (list_to_set (transactions ≫= orchard_nullifiers))
    (list_to_set (transactions ≫= ironwood_nullifiers)).

Definition double_spends (s : Spends) (tx : Transaction) : bool :=
  VerifiedSet.has_conflicts (spends_outpoints s) (spent_outpoints tx) ||
  VerifiedSet.has_conflicts (spends_sprout s) (sprout_nullifiers tx) ||
  VerifiedSet.has_conflicts (spends_sapling s) (sapling_nullifiers tx) ||
  VerifiedSet.has_conflicts (spends_orchard s) (orchard_nullifiers tx) ||
  VerifiedSet.has_conflicts (spends_ironwood s) (ironwood_nullifiers tx).

(** The ids of the stored transactions that satisfy [f]. *)
Definition ids_where (v : VerifiedSet.VerifiedSet) (f : VerifiedUnminedTx -> bool) : gset UnminedTxId :=
  map_fold (fun _ tx acc => if f tx then {[unmined_id tx]} ∪ acc else acc) ∅ (VerifiedSet.transactions v).

Fixpoint reject_all {E} (self : Storage) (ids : list UnminedTxId) (reason : RejectionError) : res E Storage :=
  match ids with
  | [] => Ok self
  | id :: ids => let? self := reject self id reason in reject_all self ids reason
  end.

Record RemovedTransactionIds := mkRemoved { mined : gset UnminedTxId; invalidated : gset UnminedTxId }.

Definition reject_and_remove_same_effects {E} (self : Storage) (mined_ids : gset Hash) (transactions : list Transaction)
  : res E (Storage * RemovedTransactionIds) :=
  let? (v, removed_mined) := VerifiedSet.remove_all (verified self) (hash_iter mined_ids) ∅ in
  let spends := collect_spends transactions in
  let duplicate_spend_ids := ids_where v (fun tx => double_spends spends (transaction tx)) in
  let? (v, removed_duplicate_spend) :=
    VerifiedSet.remove_all v (mined_id <$> hash_iter duplicate_spend_ids) ∅ in
  let self := with_verified self v (pending_outputs self) in
  let? self := reject_all self (Legacy <$> hash_iter mined_ids) (SameEffectsChain Mined) in
  let? self := reject_all self (hash_iter duplicate_spend_ids) (SameEffectsChain DuplicateSpend) in
  let self := with_verified self (verified self) (PendingOutputs.prune (pending_outputs self)) in
  Ok (self, mkRemoved removed_mined removed_duplicate_spend).

Definition has_expired (tip_height : Z) (tx : VerifiedUnminedTx) : bool :=
  match expiry_height (transaction tx) with
  | Some expiry_height => expiry_height <=? tip_height
  | None => false
  end.

Definition remove_expired_transactions {E} (self : Storage) (tip_height : Z)
  : res E (Storage * gset UnminedTxId) :=
  let tx_ids : gset Hash :=
    dom (filter (fun kv => has_expired tip_height kv.2 = true) (VerifiedSet.transactions (verified self))) in
  let? (v, removed_tx_ids) := VerifiedSet.remove_all (verified self) (hash_iter tx_ids) ∅ in
  let self := with_verified self v (pending_outputs self) in
  let? self := reject_all self (Legacy <$> hash_iter tx_ids) (SameEffectsChain Expired) in
  Ok (self, removed_tx_ids).

Definition clear {E} (self : Storage) : res E Storage :=
  update_rejected_metrics
    (mkStorage (VerifiedSet.clear (verified self)) (PendingOutputs.clear (pending_outputs self)) ∅ ∅ ∅
       (eviction_memory_time self) (rejection_list_capacity self) (tx_cost_limit self)
       (max_datacarrier_bytes self) (ticks self)).

Definition clear_tip_rejections {E} (self : Storage) : res E Storage :=
  update_rejected_metrics (with_tip self ∅ ∅).

(** ** Queries *)

Definition tx_ids (self : Storage) : gset UnminedTxId := ids_where (verified self) (fun _ => true).

Definition transaction_count (self : Storage) : Z := Z.of_nat (size (VerifiedSet.transactions (verified self))).
Definition total_cost (self : Storage) : Z := VerifiedSet.total_cost (verified self).
Definition total_serialized_size (self : Storage) : Z :=
  VerifiedSet.transactions_serialized_size (verified self).

Definition created_output (self : Storage) (outpoint : OutPoint) : option Output :=
  VerifiedSet.created_outputs (verified self) !! outpoint.

Definition has_spent_outpoint (self : Storage) (outpoint : OutPoint) : bool :=
  bool_decide (outpoint ∈ VerifiedSet.set_spent_outpoints (verified self)).

Definition transactions_exact (self : Storage) (tx_ids : gset UnminedTxId) : list VerifiedUnminedTx :=
  omap (fun tx_id =>
    match VerifiedSet.transactions (verified self) !! mined_id tx_id with
    | Some tx => if bool_decide (unmined_id tx = tx_id) then Some tx else None
    | None => None
    end) (hash_iter tx_ids).

Definition transactions_same_effects (self : Storage) (tx_ids : gset Hash) : list VerifiedUnminedTx :=
  omap (fun tx_id => VerifiedSet.transactions (verified self) !! tx_id) (hash_iter tx_ids).

Definition transaction_with_deps (self : Storage) (tx_id : Hash) : option (VerifiedUnminedTx * gset Hash) :=
  match VerifiedSet.transactions (verified self) !! tx_id with
  | None => None
  | Some tx =>
      Some (tx, default ∅ (Dependencies.dependencies (VerifiedSet.transaction_dependencies (verified self)) !! tx_id))
  end.
End Storage.
End Storage.
