(* ===== verification/StorageLists.v ===== *)
(** * The rejection lists of the mempool storage

    [rej_ok st]: the lists for the current tip are within their capacity, and
    every chain list keeps the invariant of the eviction list.  [frame P st st']:
    only rejections changed, and the chain lists report no more ids than
    before, except those of [P].  No operation on the lists panics, as long as
    an id that is added to a chain list is not reported by it. *)

From stdpp Require Import base numbers list option gmap sets.
From Stdlib Require Import ZArith Lia.
From S2P Require Import Prelude EvictionList Zip317 EvictionCost HashIter Dependencies MempoolTx VerifiedSet Standard PeerPolicy Storage.
Local Open Scope Z_scope.

Module StorageLists.
Import MempoolTx Storage.

(** ** Eviction lists *)

Section Lists.
Context (clock : nat -> Z) (clock_mono : forall i, clock i <= clock (S i)).
Implicit Types (l : @EvictionList.EvictionList Hash _ _).

(** [l] does not report [k]. *)
Definition silent l (k : Hash) (tick : nat) : Prop := (EvictionList.contains_key (Hash := Hash) clock l k tick).1 = false.

Lemma silent_alt l k tick :
  silent l k tick <->
  forall t, EvictionList.unique_entries l !! k = Some t ->
    EvictionList.eviction_memory_time l < Z.max 0 (clock tick - t).
Proof.
  unfold silent, EvictionList.contains_key. destruct (_ !! k) as [t|]; cbn [EvictionList.has_expired fst].
  - rewrite negb_false_iff, Z.ltb_lt. split; [by intros ? ? [= <-]|]. intros H. by apply H.
  - split; [done|]. done.
Qed.

Lemma silent_later l k i j : (i <= j)%nat -> silent l k i -> silent l k j.
Proof using clock_mono.
  rewrite !silent_alt. intros Hij Hs t Ht. pose proof (EvictionList.clock_le clock clock_mono i j Hij).
  specialize (Hs t Ht). lia.
Qed.

Lemma silent_suffix l l' n k i :
  EvictionList.inv clock l' i -> EvictionList.suffix_of l' l n -> silent l k i -> silent l' k i.
Proof.
  rewrite !silent_alt. intros Hi (_ & _ & Hm & Hl) Hs t Ht. rewrite Hm. apply Hs. rewrite <- Hl; [done|].
  apply (EvictionList.inv_dom _ _ _ Hi). by exists t.
Qed.

Lemma silent_new cap mem k tick : silent (EvictionList.new (Hash := Hash) cap mem) k tick.
Proof. apply silent_alt. cbn. intros t. by rewrite lookup_empty. Qed.

(** A list of this storage. *)
Record list_ok (cap mem : Z) (tick : nat) l : Prop := {
  lo_inv : EvictionList.inv clock l tick;
  lo_bounded : EvictionList.bounded l;
  lo_max : EvictionList.max_size l = cap;
  lo_mem : EvictionList.eviction_memory_time l = mem;
}.

Lemma list_ok_later cap mem i j l : (i <= j)%nat -> list_ok cap mem i l -> list_ok cap mem j l.
Proof using clock_mono. intros Hij [H1 H2 H3 H4]. split; try done. by apply (EvictionList.inv_later clock clock_mono l i). Qed.

Lemma list_ok_new cap mem tick : 0 < cap -> list_ok cap mem tick (EvictionList.new (Hash := Hash) cap mem).
Proof.
  intros Hc. split; [|split; cbn; lia|done|done]. split; cbn; [constructor|..|constructor|].
  - intros k. rewrite lookup_empty. split; [by intros [? ?]|by intros ?%elem_of_nil].
  - intros k t. by rewrite lookup_empty.
Qed.

Lemma len_Ok {E} cap mem tick l :
  list_ok cap mem tick l ->
  exists l' tick' n, EvictionList.len (Hash := Hash) clock (E := E) l tick = Ok (l', tick', n) /\ list_ok cap mem tick' l' /\
    (tick <= tick')%nat /\ 0 <= n <= cap /\ (forall k, silent l k tick -> silent l' k tick').
Proof using clock_mono.
  intros [Hi Hb Hm Ht]. unfold EvictionList.len.
  destruct (EvictionList.prune_old_Ok clock clock_mono (E := E) l tick Hi)
    as (l' & tick' & n & -> & Hi' & Hle & Hs & _). cbn [res_bind fst].
  pose proof (EvictionList.suffix_bounded _ _ _ Hb Hs) as Hb'.
  assert (Hm' : EvictionList.max_size l' = cap) by (destruct Hs as (_ & -> & _); done).
  eexists l', tick', _. split; [done|]. split; [|split; [done|split]].
  - split; [done|done|done|]. by destruct Hs as (_ & _ & -> & _).
  - rewrite (EvictionList.size_length clock l' tick' Hi'). destruct Hb'. lia.
  - intros k Hk. apply (silent_suffix l l' n); [done|done|]. by apply (silent_later _ _ tick).
Qed.

Lemma add_Ok {E} cap mem tick l key :
  list_ok cap mem tick l -> silent l key tick ->
  exists l' tick', EvictionList.insert (Hash := Hash) clock (E := E) l key tick = Ok (l', tick') /\ list_ok cap mem tick' l' /\
    (tick <= tick')%nat /\ (forall k, k <> key -> silent l k tick -> silent l' k tick').
Proof using clock_mono.
  intros [Hi Hb Hm Ht] Hkey.
  destruct (EvictionList.insert_eq clock clock_mono (E := E) l tick key Hi Hb)
    as (l1 & t1 & n & -> & Hi1 & Hle & Hroom & Habs).
  rewrite bool_decide_true by (by apply Habs). pose proof (EvictionList.room_push_bounded _ _ _ _ key Hb Hroom) as Hb'.
  destruct Hroom as (Hs & _). pose proof Hs as (_ & Hm1 & Hmt & _).
  exists (EvictionList.push l1 key (clock t1)), (S t1). split; [done|]. split; [|split; [lia|]].
  - split; [by apply (EvictionList.push_inv clock clock_mono), Habs|done|cbn; congruence|cbn; congruence].
  - intros k Hne Hk. apply (silent_later _ _ t1); [lia|].
    assert (Hk1 : silent l1 k t1) by (apply (silent_suffix l l1 n); [done|done|by apply (silent_later _ _ tick)]).
    rewrite silent_alt in Hk1 |- *. intros t Hk'. cbn in *. apply Hk1. by rewrite lookup_insert_ne in Hk'.
Qed.
End Lists.

(** ** The lists of a storage *)

Section Storage.
Context {HO : HashOrder} {ZS : Standard.ZcashScript} (clock : nat -> Z).
Context (clock_mono : forall i, clock i <= clock (S i)).

Implicit Types (st : Storage) (r : SameEffectsChainRejectionError) (k : Hash).

(** The chain list of [r] does not report [k]. *)
Definition fresh st r k : Prop :=
  forall l, chain_rejected_same_effects st !! r = Some l -> silent clock l k (ticks st).

Definition lists_ok st : Prop :=
  0 < rejection_list_capacity st < 2 ^ 32 /\
  forall r l, chain_rejected_same_effects st !! r = Some l ->
    list_ok clock (rejection_list_capacity st) (eviction_memory_time st) (ticks st) l.

Definition tips_ok st : Prop :=
  Z.of_nat (size (tip_rejected_exact st)) <= rejection_list_capacity st /\
  Z.of_nat (size (tip_rejected_same_effects st)) <= rejection_list_capacity st.

Definition rej_ok st : Prop := lists_ok st /\ tips_ok st.

(** Everything but the rejections and the clock is unchanged. *)
Record frame (P : SameEffectsChainRejectionError -> Hash -> Prop) st st' : Prop := {
  f_verified : verified st' = verified st;
  f_pending : pending_outputs st' = pending_outputs st;
  f_memory : eviction_memory_time st' = eviction_memory_time st;
  f_capacity : rejection_list_capacity st' = rejection_list_capacity st;
  f_limit : tx_cost_limit st' = tx_cost_limit st;
  f_carrier : max_datacarrier_bytes st' = max_datacarrier_bytes st;
  f_ticks : (ticks st <= ticks st')%nat;
  f_fresh : forall r k, fresh st r k -> ~ P r k -> fresh st' r k;
}.

Definition quiet : Storage -> Storage -> Prop := frame (fun _ _ => False).

Lemma frame_trans (P Q S : _ -> _ -> Prop) st st1 st2 :
  frame P st st1 -> frame Q st1 st2 -> (forall r k, P r k \/ Q r k -> S r k) -> frame S st st2.
Proof.
  intros [? ? ? ? ? ? ? H] [? ? ? ? ? ? ? H'] HS. split; try congruence; [lia|].
  intros r k Hf Hn. apply H'; [apply H; [done|]|]; intros ?; apply Hn, HS; auto.
Qed.

Lemma frame_refl P st : frame P st st.
Proof. by split. Qed.

Lemma quiet_trans st st1 st2 : quiet st st1 -> quiet st1 st2 -> quiet st st2.
Proof. intros H H'. apply (frame_trans _ _ _ st st1 st2 H H'). tauto. Qed.

Lemma quiet_frame P st st1 st2 : frame P st st1 -> quiet st1 st2 -> frame P st st2.
Proof. intros H H'. apply (frame_trans _ _ _ st st1 st2 H H'). tauto. Qed.

Lemma with_tip_quiet st exact same : quiet st (with_tip st exact same).
Proof. by split. Qed.

(** Replacing a list, or adding one, with the clock further on. *)
Lemma with_list_ok st r l tick :
  lists_ok st -> (ticks st <= tick)%nat ->
  list_ok clock (rejection_list_capacity st) (eviction_memory_time st) tick l ->
  lists_ok (with_chain st (<[r := l]> (chain_rejected_same_effects st)) tick).
Proof using clock_mono.
  intros [Hc Hl] Hle Hok. split; [done|]. cbn. intros r' l' [[_ <-]|[_ Hl']]%lookup_insert_Some; [done|].
  apply (list_ok_later clock clock_mono _ _ (ticks st)); [done|by apply (Hl r')].
Qed.

Lemma with_list_frame (P : _ -> _ -> Prop) st r l tick :
  (ticks st <= tick)%nat -> (forall k, fresh st r k -> ~ P r k -> silent clock l k tick) ->
  frame P st (with_chain st (<[r := l]> (chain_rejected_same_effects st)) tick).
Proof using clock_mono.
  intros Hle Hs. split; try done. intros r' k Hf Hn l'. cbn.
  intros [[<- <-]|[_ Hl']]%lookup_insert_Some; [by apply Hs|].
  apply (silent_later clock clock_mono _ _ (ticks st)); [done|by apply Hf].
Qed.

Lemma list_lens_Ok {E} reasons : forall st sum,
  lists_ok st -> 0 <= sum -> sum + Z.of_nat (length reasons) * rejection_list_capacity st < 2 ^ 64 ->
  exists st' sum', list_lens clock (E := E) st reasons sum = Ok (st', sum') /\ lists_ok st' /\ quiet st st' /\
    tip_rejected_exact st' = tip_rejected_exact st /\
    tip_rejected_same_effects st' = tip_rejected_same_effects st /\
    0 <= sum' <= sum + Z.of_nat (length reasons) * rejection_list_capacity st.
Proof using clock_mono.
  induction reasons as [|r reasons IH]; intros st sum Hok Hs Hb; cbn [list_lens].
  { exists st, sum. split; [done|]. split; [done|]. split; [by apply frame_refl|]. split; [done|].
    split; [done|]. cbn. lia. }
  pose proof Hok as [Hc Hl]. cbn [length] in Hb |- *.
  destruct (chain_rejected_same_effects st !! r) as [l|] eqn:Hr.
  - destruct (len_Ok clock clock_mono (E := E) _ _ _ l (Hl r l Hr)) as (l' & t & n & -> & Hlo & Hle & Hn & Hsil).
    cbn [res_bind]. rewrite uint_arith_Ok by lia. cbn [res_bind].
    destruct (IH (with_chain st (<[r := l']> (chain_rejected_same_effects st)) t) (sum + n))
      as (st' & sum' & -> & Hok' & Hq & He & Hsm & Hsum); [by apply with_list_ok|lia|cbn; lia|].
    exists st', sum'. split; [done|]. split; [done|]. split; [|split; [done|split; [done|cbn in Hsum; lia]]].
    eapply quiet_trans; [|exact Hq]. apply with_list_frame; [done|]. intros k Hf _. by apply Hsil, Hf.
  - destruct (IH st sum) as (st' & sum' & -> & Hok' & Hq & He & Hsm & Hsum); [done|done|lia|].
    exists st', sum'. repeat (split; [done|]). lia.
Qed.

Lemma reasons_length st : (length (hash_iter (dom (chain_rejected_same_effects st))) <= 3)%nat.
Proof.
  change 3%nat with (length [Expired; DuplicateSpend; Mined]). apply submseteq_length, NoDup_submseteq.
  - apply NoDup_hash_iter.
  - intros [] _; set_solver.
Qed.

Lemma rejected_transaction_count_Ok {E} st :
  rej_ok st ->
  exists st' n, rejected_transaction_count clock (E := E) st = Ok (st', n) /\ rej_ok st' /\ quiet st st' /\
    tip_rejected_exact st' = tip_rejected_exact st /\
    tip_rejected_same_effects st' = tip_rejected_same_effects st /\ 0 <= n < 2 ^ 35.
Proof using clock_mono.
  intros [Hok [Ht1 Ht2]]. pose proof Hok as [Hc _]. pose proof (reasons_length st) as Hlen.
  unfold rejected_transaction_count. rewrite uint_arith_Ok by lia. cbn [res_bind].
  destruct (list_lens_Ok (E := E) (hash_iter (dom (chain_rejected_same_effects st))) st 0)
    as (st' & n & -> & Hok' & Hq & He & Hs & Hn); [done|lia|nia|]. cbn [res_bind].
  rewrite uint_arith_Ok by nia. cbn [res_bind].
  eexists st', _. split; [done|]. split; [split; [done|]|split; [done|split; [done|split; [done|nia]]]].
  unfold tips_ok. by rewrite He, Hs, (f_capacity _ _ _ Hq).
Qed.

Lemma update_rejected_metrics_Ok {E} st :
  rej_ok st ->
  exists st', update_rejected_metrics clock (E := E) st = Ok st' /\ rej_ok st' /\ quiet st st' /\
    tip_rejected_exact st' = tip_rejected_exact st /\
    tip_rejected_same_effects st' = tip_rejected_same_effects st.
Proof using clock_mono.
  intros Hok. unfold update_rejected_metrics.
  destruct (rejected_transaction_count_Ok (E := E) st Hok) as (st1 & n1 & -> & Hok1 & Hq1 & He1 & Hs1 & _). cbn [res_bind].
  destruct (rejected_transaction_count_Ok (E := E) st1 Hok1) as (st2 & n2 & -> & Hok2 & Hq2 & He2 & Hs2 & Hn).
  cbn [res_bind]. rewrite uint_arith_Ok by lia. cbn [res_bind]. exists st2. split; [done|]. split; [done|].
  split; [by eapply quiet_trans|]. split; congruence.
Qed.

Lemma limit_rejection_list_memory_Ok {E} st :
  lists_ok st ->
  exists st', limit_rejection_list_memory clock (E := E) st = Ok st' /\ rej_ok st' /\ quiet st st'.
Proof using clock_mono.
  intros Hok. unfold limit_rejection_list_memory. pose proof Hok as [Hc _].
  match goal with |- context [update_rejected_metrics _ ?s] => set (st1 := s) end.
  destruct (update_rejected_metrics_Ok (E := E) st1) as (st' & -> & Hok' & Hq & _).
  { split; [done|]. unfold tips_ok, st1. cbn. split; destruct (Z.ltb_spec (rejection_list_capacity st) (Z.of_nat (size (tip_rejected_exact st))));
      destruct (Z.ltb_spec (rejection_list_capacity st) (Z.of_nat (size (tip_rejected_same_effects st))));
      rewrite ?map_size_empty; lia. }
  exists st'. split; [done|]. split; [done|]. eapply quiet_trans; [apply with_tip_quiet|exact Hq].
Qed.

(** The ids a rejection adds to a chain list. *)
Definition adds (id : UnminedTxId) (reason : RejectionError) r k : Prop :=
  match reason with SameEffectsChain e => r = e /\ k = mined_id id | _ => False end.

Lemma reject_Ok {E} st id reason :
  lists_ok st -> (forall e, reason = SameEffectsChain e -> fresh st e (mined_id id)) ->
  exists st', reject clock (E := E) st id reason = Ok st' /\ rej_ok st' /\ frame (adds id reason) st st'.
Proof using clock_mono.
  intros Hok Hf.
  assert (Hlim : forall st1, lists_ok st1 -> frame (adds id reason) st st1 ->
    exists st', limit_rejection_list_memory clock (E := E) st1 = Ok st' /\ rej_ok st' /\ frame (adds id reason) st st').
  { intros st1 Hok1 Hf1. destruct (limit_rejection_list_memory_Ok (E := E) st1 Hok1) as (st' & -> & Hr & Hq).
    exists st'. split; [done|]. split; [done|]. by eapply quiet_frame. }
  unfold reject. destruct reason as [e|e|e|e]; cbn [res_bind]; try (apply Hlim; [done|apply with_tip_quiet]).
  pose proof Hok as [Hc Hl]. specialize (Hf e eq_refl).
  destruct (chain_rejected_same_effects st !! e) as [l|] eqn:He; cbn [from_option Datatypes.id].
  - destruct (add_Ok clock clock_mono (E := E) _ _ (ticks st) l (mined_id id) (Hl e l He) (Hf l He))
      as (l' & t & -> & Hlo & Hle & Hsil). cbn [res_bind].
    apply Hlim; [by apply with_list_ok|]. apply with_list_frame; [done|]. intros k Hk Hn.
    apply Hsil; [|by apply Hk]. intros ->. by apply Hn.
  - destruct (add_Ok clock clock_mono (E := E) (rejection_list_capacity st) (eviction_memory_time st) (ticks st)
      (EvictionList.new (Hash := Hash) (rejection_list_capacity st) (eviction_memory_time st)) (mined_id id))
      as (l' & t & Hadd & Hlo & Hle & Hsil); [apply list_ok_new; lia|apply silent_new|].
    rewrite Hadd. cbn [res_bind].
    apply Hlim; [by apply with_list_ok|]. apply with_list_frame; [done|]. intros k Hk Hn.
    apply Hsil; [|apply silent_new]. intros ->. by apply Hn.
Qed.

Lemma reject_all_Ok {E} e ids : forall st,
  rej_ok st -> NoDup (mined_id <$> ids) -> (forall id, id ∈ ids -> fresh st e (mined_id id)) ->
  exists st', reject_all clock (E := E) st ids (SameEffectsChain e) = Ok st' /\ rej_ok st' /\
    frame (fun r k => r = e /\ k ∈ mined_id <$> ids) st st'.
Proof using clock_mono.
  induction ids as [|id ids IH]; intros st Hok Hnd Hf; cbn [reject_all].
  { exists st. split; [done|]. split; [done|]. apply frame_refl. }
  rewrite fmap_cons in Hnd |- *. apply NoDup_cons in Hnd as [Hid Hnd].
  destruct (reject_Ok (E := E) st id (SameEffectsChain e)) as (st1 & -> & Hok1 & Hf1);
    [apply Hok|intros ? [= <-]; apply Hf; by left|]. cbn [res_bind].
  destruct (IH st1 Hok1 Hnd) as (st' & -> & Hok' & Hf').
  { intros id' Hid'. apply (f_fresh _ _ _ Hf1); [apply Hf; by right|]. intros [_ Heq]. apply Hid.
    rewrite <- Heq. by apply list_elem_of_fmap_2. }
  exists st'. split; [done|]. split; [done|]. apply (frame_trans _ _ _ st st1 st' Hf1 Hf').
  intros r k [[-> ->]|[-> Hk]]; (split; [done|]); [by left|by right].
Qed.

(** ** Queries *)

Lemma chain_rejection_spec st reasons id tick :
  (ticks st <= tick)%nat ->
  (tick <= (chain_rejection clock st reasons id tick).2)%nat /\
  match (chain_rejection clock st reasons id tick).1 with
  | Some r => r ∈ reasons /\ ~ fresh st r id
  | None => forall r l, r ∈ reasons -> chain_rejected_same_effects st !! r = Some l ->
      silent clock l id (chain_rejection clock st reasons id tick).2
  end.
Proof using clock_mono.
  revert tick. induction reasons as [|r reasons IH]; intros tick Ht; cbn [chain_rejection].
  { split; [done|]. cbn. by intros r l ?%elem_of_nil. }
  destruct (chain_rejected_same_effects st !! r) as [l|] eqn:Hr.
  2: { destruct (IH tick Ht) as [Hle Hm]. split; [done|]. destruct (chain_rejection _ _ _ _ _).1.
       - destruct Hm. split; [by right|done].
       - intros r' l' [->|Hin]%elem_of_cons Hl; [congruence|by apply (Hm r')]. }
  destruct (EvictionList.contains_key (Hash := Hash) clock l id tick) as [found t] eqn:Hc.
  assert (Htt : (tick <= t)%nat).
  { unfold EvictionList.contains_key, EvictionList.has_expired in Hc. destruct (_ !! id); injection Hc as _ <-; lia. }
  destruct found.
  - cbn. split; [done|]. split; [by left|]. intros Hf. specialize (Hf l Hr).
    apply (silent_later clock clock_mono _ _ _ tick) in Hf; [|done]. unfold silent in Hf. by rewrite Hc in Hf.
  - destruct (IH t) as [Hle Hm]; [lia|]. split; [lia|]. destruct (chain_rejection _ _ _ _ _).1.
    + destruct Hm. split; [by right|done].
    + intros r' l' [->|Hin]%elem_of_cons Hl; [|by apply (Hm r')]. rewrite Hr in Hl. injection Hl as <-.
      apply (silent_later clock clock_mono _ _ tick); [lia|]. unfold silent. by rewrite Hc.
Qed.

Lemma rejection_error_spec st id :
  rej_ok st ->
  let '(st', error) := rejection_error clock st id in
  rej_ok st' /\ quiet st st' /\ (error = None -> forall r, fresh st' r (mined_id id)).
Proof using clock_mono.
  intros Hok. unfold rejection_error.
  destruct (tip_rejected_exact st !! id); [by split; [|split; [apply frame_refl|]]|].
  destruct (tip_rejected_same_effects st !! mined_id id); [by split; [|split; [apply frame_refl|]]|].
  destruct (chain_rejection_spec st (hash_iter (dom (chain_rejected_same_effects st))) (mined_id id) (ticks st))
    as [Hle Hm]; [done|].
  destruct (chain_rejection _ _ _ _ _) as [error tick]. cbn [fst snd] in *. destruct Hok as [[Hc Hl] Ht]. split; [|split].
  - split; [|done]. split; [done|]. cbn. intros r l Hr.
    apply (list_ok_later clock clock_mono _ _ (ticks st)); [done|by apply (Hl r)].
  - split; try done. intros r k Hf _ l Hr. apply (silent_later clock clock_mono _ _ (ticks st)); [done|by apply Hf].
  - intros Hn r l Hr. destruct error; [done|]. apply (Hm r); [|done]. rewrite elem_of_hash_iter. by apply elem_of_dom_2 in Hr.
Qed.
End Storage.
End StorageLists.
