(* ===== verification/StorageInsert.v ===== *)
(** * Inserting into the mempool storage, and removing from it

    A transaction that passes the checks evicts whole packages that are not its
    own ancestors, and then always gets in.

    [StorageBlock] is what a new block and the height of the tip remove: the
    transactions of the block, those that spend what it spends, those that
    expired, and what depends on them.  Each of these keeps the invariant of the
    storage. *)

From stdpp Require Import base numbers list option gmap sets relations sorting.
From Stdlib Require Import ZArith Lia.
From S2P Require Import Prelude Amount EvictionList Zip317 EvictionCost HashIter Dependencies MempoolTx VerifiedSet VerifiedGraph VerifiedCaches VerifiedScores VerifiedFacts VerifiedInsert EvictionSelect Standard PeerPolicy Storage StorageLists.
Local Open Scope Z_scope.

Module StorageInsert.
Import MempoolTx Dependencies VerifiedGraph VerifiedCaches VerifiedScores VerifiedFacts VerifiedInsert EvictionSelect VerifiedRemove.
Import Storage StorageLists.

Implicit Types (v : VerifiedSet) (W : gset Hash) (tx : VerifiedUnminedTx).

(** ** Making room *)

Lemma StronglySorted_weaken {A} (R R' : A -> A -> Prop) l :
  (forall x y, R x y -> R' x y) -> StronglySorted R l -> StronglySorted R' l.
Proof. intros HR. induction 1; constructor; [done|]. eapply Forall_impl; [done|]. auto. Qed.

Section Room.
Context {HO : HashOrder} {ZS : Standard.ZcashScript} (clock : nat -> Z).
Context (clock_mono : forall i, clock i <= clock (S i)).

Implicit Types (st : Storage).

(** Only the verified set, the rejections and the clock changed. *)
Definition changes (P : SameEffectsChainRejectionError -> Hash -> Prop) st st' : Prop :=
  frame clock P (with_verified st (verified st') (pending_outputs st')) st'.

Lemma frame_changes P st st' : frame clock P st st' -> changes P st st'.
Proof. intros [Hv Hp ? ? ? ? ? Hf]. by split. Qed.

Lemma with_changes P st v p : changes P st (with_verified st v p).
Proof. by split. Qed.

Lemma changes_trans (P Q S : _ -> _ -> Prop) st st1 st2 :
  changes P st st1 -> changes Q st1 st2 -> (forall r k, P r k \/ Q r k -> S r k) -> changes S st st2.
Proof.
  intros [_ _ ? ? ? ? ? H] [_ _ ? ? ? ? ? H'] HS. cbn in *. split; cbn; try congruence; [lia|].
  intros r k Hf Hn. apply H'; [apply (H r k Hf)|]; intros ?; apply Hn, HS; auto.
Qed.

Lemma still_trans P st st1 st2 : changes P st st1 -> changes (fun _ _ => False) st1 st2 -> changes P st st2.
Proof. intros H H'. apply (changes_trans _ _ _ st st1 st2 H H'). tauto. Qed.

Lemma changes_weaken (P Q : _ -> _ -> Prop) st st' : (forall r k, P r k -> Q r k) -> changes P st st' -> changes Q st st'.
Proof. intros HPQ [? ? ? ? ? ? ? Hf]. split; try done. intros r k Hr Hn. apply Hf; [done|]. intros HP. by apply Hn, HPQ. Qed.

Lemma reject_evicted_Ok {E} txs : forall st evicted,
  rej_ok clock st ->
  exists st' evicted', reject_evicted clock (E := E) st txs evicted = Ok (st', evicted') /\
    rej_ok clock st' /\ quiet clock st st' /\
    (forall id, id ∈ evicted' <-> id ∈ evicted \/ exists tx, tx ∈ txs /\ id = unmined_id tx).
Proof using clock_mono.
  induction txs as [|tx txs IH]; intros st evicted Hok; cbn [reject_evicted].
  { exists st, evicted. split; [done|]. split; [done|]. split; [apply frame_refl|]. intros id. split; [by left|].
    intros [?|(tx & ?%elem_of_nil & _)]; done. }
  destruct (reject_Ok clock clock_mono (E := E) st (unmined_id tx) (ExactTip Evicted)) as (st1 & -> & Hok1 & Hq1);
    [apply Hok|done|]. cbn [res_bind].
  destruct (IH st1 ({[unmined_id tx]} ∪ evicted) Hok1) as (st' & ev & -> & Hok' & Hq & Hev).
  exists st', ev. split; [done|]. split; [done|]. split; [by eapply quiet_trans|].
  intros id. rewrite Hev, elem_of_union, elem_of_singleton. setoid_rewrite elem_of_cons. naive_solver.
Qed.

Lemma evict_roots_Ok {E} roots : forall st evicted,
  rej_ok clock st -> inv (verified st) -> Forall (fun r => r ∈ ids (verified st)) roots ->
  StronglySorted (fun r r' => ~ rtc (child (deps (verified st))) r r') roots ->
  exists st' evicted' W, evict_roots clock (E := E) st roots evicted = Ok (st', evicted') /\
    rej_ok clock st' /\ shrunk (verified st) (verified st') W /\ takes (verified st) roots W /\
    changes (fun _ _ => False) st st' /\ pending_outputs st' = pending_outputs st /\
    (forall id, id ∈ evicted' <-> id ∈ evicted \/ ids_of (verified st) W id).
Proof using clock_mono.
  induction roots as [|k roots IH]; intros st evicted Hok Hi Hin Hsep; cbn [evict_roots].
  { exists st, evicted, ∅. split; [done|]. split; [done|]. split; [by apply shrunk_refl|]. split; [apply takes_nil|].
    split; [by split|]. split; [done|]. intros id. split; [by left|]. intros [?|(y & tx & ?%elem_of_empty & _)]; done. }
  apply Forall_cons in Hin as [Hk Hin]. inversion Hsep as [|? ? Hsep' Hfa]; subst.
  destruct (remove_shrunk (E := E) (verified st) k Hi Hk) as (v1 & rm & R & -> & Hs1 & HR & Hrm). cbn [res_bind].
  destruct (reject_evicted_Ok (E := E) rm (with_verified st v1 (pending_outputs st)) evicted)
    as (st1 & ev1 & -> & Hok1 & Hq1 & Hev1); [exact Hok|]. cbn [res_bind].
  pose proof (f_verified _ _ _ _ Hq1) as Hv1. pose proof (f_pending _ _ _ _ Hq1) as Hp1. cbn in Hv1, Hp1.
  rewrite <- Hv1 in Hs1.
  destruct (IH st1 ev1 Hok1 (sh_inv _ _ _ Hs1)) as (st' & ev & W & -> & Hok' & Hs & HW & Hch & Hp & Hev).
  { rewrite Forall_forall in *. intros r Hr. apply (shrunk_ids _ _ R r Hs1). split; [by apply Hin|].
    intros (_ & k' & ->%list_elem_of_singleton & Hkr)%HR. by apply (Hfa r). }
  { eapply StronglySorted_weaken; [|exact Hsep']. intros r r' Hn Hr. apply Hn. revert Hr. apply rtc_subrel.
    intros p c Hpc. by apply (sh_child _ _ _ Hs1). }
  exists st', ev, (R ∪ W). split; [done|]. split; [done|]. split; [by eapply shrunk_trans|].
  split; [by eapply takes_cons|]. split; [|split; [congruence|]].
  - apply (still_trans _ st (with_verified st v1 (pending_outputs st))); [by apply with_changes|].
    apply (still_trans _ _ st1); [by apply frame_changes|done].
  - intros id. rewrite Hev, Hev1, (ids_of_union _ _ R W id Hs1).
    assert (Htx : (exists tx, tx ∈ rm /\ id = unmined_id tx) <-> ids_of (verified st) R id).
    { unfold ids_of. setoid_rewrite Hrm. naive_solver. }
    rewrite Htx. split; [tauto|]. intros [?|[?|[?|(y & tx & [? _]%elem_of_intersection & Hrest)]]]; [tauto..|].
    left; right. by exists y, tx.
Qed.

(** What [make_room] does: nothing, when the transaction fits or does not pay
    enough; or it evicts [W]. *)
Record room st st' tx (a W : gset Hash) (evicted : gset UnminedTxId) : Prop := {
  rm_ok : rej_ok clock st';
  rm_shrunk : shrunk (verified st) (verified st') W;
  rm_ids : W ⊆ ids (verified st);
  rm_ancestors : W ## a;
  rm_cost : VerifiedSet.total_cost (verified st') + cost_of tx <= tx_cost_limit st;
  rm_changes : changes (fun _ _ => False) st st';
  rm_pending : pending_outputs st' = pending_outputs st;
  rm_evicted : forall id, id ∈ evicted <-> ids_of (verified st) W id;
}.

Lemma make_room_Ok {E} st tx a :
  rej_ok clock st -> inv (verified st) -> tx_ok tx -> a ⊆ ids (verified st) ->
  (forall p c, child (deps (verified st)) p c -> c ∈ a -> p ∈ a) ->
  exists st' result, make_room clock (E := E) st tx a = Ok (st', result) /\
    match result with
    | inl e => e = BelowEvictionCost /\ st' = st
    | inr evicted => exists W, room st st' tx a W evicted
    end.
Proof using clock_mono.
  intros Hok Hi Htx Ha Hcl. unfold make_room. rewrite tx_cost_Ok by done. cbn [res_bind].
  pose proof (c_bound _ (i_caches _ Hi)) as Hb. pose proof (cost_range tx Htx).
  replace (Z.min u64_max (VerifiedSet.total_cost (verified st) + cost_of tx))
    with (VerifiedSet.total_cost (verified st) + cost_of tx) by (unfold u64_max; lia).
  destruct (Z.leb_spec (VerifiedSet.total_cost (verified st) + cost_of tx) (tx_cost_limit st)) as [Hfit|Hfull].
  { eexists st, _. split; [done|]. exists ∅. split; [done|by apply shrunk_refl|set_solver|set_solver|done|by split|done|].
    intros id. split; [set_solver|]. by intros (y & tx' & ?%elem_of_empty & _). }
  destruct (select_eviction_victims_Ok (E := E) (verified st) a Hi Hcl tx (tx_cost_limit st) Htx Ha) as (vs & -> & Hp).
  cbn [res_bind]. pose proof (picks_roots (verified st) a Hi Hcl _ _ _ Hp) as Hroots.
  destruct (VerifiedSet.roots vs) as [roots|]; [|by eexists st, _].
  destruct Hroots as ((Hin & Hsep) & W & HW & HWa & HWs & Hneed).
  destruct (evict_roots_Ok (E := E) roots st ∅ Hok Hi Hin Hsep) as (st' & ev & W' & -> & Hok' & Hs & HW' & Hch & Hpd & Hev).
  apply (takes_evicts _ _ _ Hi Hin) in HW'.
  assert (W' = W) as -> by (apply set_eq; intros y; by rewrite (HW y), (HW' y)).
  cbn [res_bind]. eexists st', _. split; [done|]. exists W. split; try done.
  - rewrite (shrunk_cost _ _ W Hi HWs Hs). lia.
  - intros id. rewrite Hev. set_solver.
Qed.

(** ** The invariant *)

Record storage_inv st : Prop := {
  si_set : inv (verified st);
  si_rej : rej_ok clock st;
  si_cost : VerifiedSet.total_cost (verified st) <= tx_cost_limit st;
  si_limit : 0 <= tx_cost_limit st < 2 ^ 31;
  (** A stored transaction is on no chain list. *)
  si_fresh : forall k r, k ∈ ids (verified st) -> fresh clock st r k;
}.

(** The rejections changed, and no stored id was added. *)
Lemma frame_inv P st st' :
  storage_inv st -> rej_ok clock st' -> frame clock P st st' -> (forall r k, P r k -> k ∉ ids (verified st)) ->
  storage_inv st'.
Proof.
  intros [Hi Hr Hc Hl Hf] Hr' [Hv Hp Hm Hcap Hlim Hdc Ht Hfr] HP. split; rewrite ?Hv, ?Hlim; try done.
  intros k r Hk. apply Hfr; [by apply Hf|]. intros HPk. by apply (HP r k HPk).
Qed.

Lemma quiet_inv st st' : storage_inv st -> rej_ok clock st' -> quiet clock st st' -> storage_inv st'.
Proof. intros Hs Hr Hq. by apply (frame_inv (fun _ _ => False) st). Qed.

(** Removing transactions keeps the invariant. *)
Lemma shrunk_storage_inv st st' P W :
  storage_inv st -> shrunk (verified st) (verified st') W -> W ⊆ ids (verified st) -> rej_ok clock st' ->
  changes P st st' -> (forall r k, P r k -> k ∉ ids (verified st')) -> storage_inv st'.
Proof.
  intros [Hi Hr Hc Hl Hf] Hs HW Hr' [_ _ Hm Hcap Hlim Hdc Ht Hfr] HP. cbn in *.
  pose proof (cost_subset (verified st) W (i_caches _ Hi) HW) as Hcs.
  pose proof (shrunk_cost _ _ W Hi HW Hs) as Hsc.
  split; [apply Hs|done|lia|lia|]. intros k r Hk. apply Hfr; [|intros HPk; by apply (HP r k HPk)].
  apply (Hf k r). by apply (shrunk_ids _ _ W k Hs) in Hk as [? _].
Qed.

(** ** Inserting *)

Lemma ancestors_stored v t spent a : inv v -> insertable v t spent a -> a ⊆ ids v.
Proof.
  intros Hi Ha x (o & Ho & Hr)%(ins_ancestors _ _ _ _ Ha).
  apply rtc_inv in Hr as [->|(z & Hxz & _)]; [|by apply (g_edges v (i_graph v Hi) x z)].
  apply (spent_in_ids v t spent a (i_caches v Hi) Ha). by apply list_elem_of_fmap_2.
Qed.

(** A transaction got in: [W] is evicted for it. *)
Record inserted st st' tx (spent : list OutPoint) height now (evicted : gset UnminedTxId) (a W : gset Hash) : Prop := {
  in_check : VerifiedSet.check_insert (verified st) (transaction tx) spent = Ok a;
  in_new : mined_id (unmined_id tx) ∉ ids (verified st);
  in_evicted_ids : W ⊆ ids (verified st);
  in_ancestors : W ## a;
  in_txs : forall y, VerifiedSet.transactions (verified st') !! y =
    if decide (y = mined_id (unmined_id tx)) then Some (stamp tx height now)
    else if decide (y ∈ W) then None else VerifiedSet.transactions (verified st) !! y;
  in_evicted : forall id, id ∈ evicted <-> ids_of (verified st) W id;
  in_pending : forall o, PendingOutputs.waiting (pending_outputs st') !! o =
    if in_range (mined_id (unmined_id tx)) 0 (length (outputs (transaction tx))) o then None
    else PendingOutputs.waiting (pending_outputs st) !! o;
}.

(** A transaction did not get in: the verified set is as before. *)
Record refused st st' (evicted : gset UnminedTxId) : Prop := {
  re_verified : verified st' = verified st;
  re_pending : pending_outputs st' = pending_outputs st;
  re_evicted : evicted = ∅;
}.

Definition insert_result st st' tx spent height now (result : MempoolError + UnminedTxId) evicted : Prop :=
  storage_inv st' /\ tx_cost_limit st' = tx_cost_limit st /\
  (forall r k, fresh clock st r k -> fresh clock st' r k) /\
  match result with
  | inr id => id = unmined_id tx /\ exists a W, inserted st st' tx spent height now evicted a W
  | inl _ => refused st st' evicted
  end.

(** The rejections of a transaction that is not stored. *)
Lemma reject_tip_result {E} st st1 tx spent height now id (reason : RejectionError) error :
  storage_inv st1 -> quiet clock st st1 -> (forall e, reason <> SameEffectsChain e) ->
  exists st', reject clock (E := E) st1 id reason = Ok st' /\
    insert_result st st' tx spent height now (inl error) ∅.
Proof using clock_mono.
  intros Hs Hq Hr. destruct (reject_Ok clock clock_mono (E := E) st1 id reason) as (st' & -> & Hok & Hf);
    [apply (si_rej _ Hs)|intros e He; by destruct (Hr e)|].
  assert (Hq' : quiet clock st1 st').
  { destruct reason; try done. by destruct (Hr e). }
  pose proof (quiet_trans _ _ _ _ Hq Hq') as Hqt. exists st'. split; [done|]. split; [by apply (quiet_inv st1)|].
  split; [apply Hqt|]. split; [intros r k Hf'; apply Hqt; [done|by intros []]|]. split; [apply Hqt|apply Hqt|done].
Qed.

(** The last step, after room was made. *)
Lemma insert_last {E} st st2 tx spent height now a W evicted :
  storage_inv st -> tx_ok tx -> VerifiedSet.check_insert (verified st) (transaction tx) spent = Ok a ->
  mined_id (unmined_id tx) ∉ ids (verified st) -> (forall r, fresh clock st r (mined_id (unmined_id tx))) ->
  room st st2 tx a W evicted ->
  exists v p, catch (E := E) (VerifiedSet.insert (verified st2) tx spent (pending_outputs st2) height now) = Ok (inr (v, p)) /\
    storage_inv (with_verified st2 v p) /\ (forall r k, fresh clock st r k -> fresh clock (with_verified st2 v p) r k) /\
    inserted st (with_verified st2 v p) tx spent height now evicted a W.
Proof.
  intros Hs Htx Hchk Hnew Hfresh [Hok Hsh HW HWa Hcost Hch Hp Hev].
  pose proof (si_set _ Hs) as Hi. pose proof (si_limit _ Hs) as Hlim.
  pose proof (shrunk_ids _ _ _ (mined_id (unmined_id tx)) Hsh) as Hnew'.
  assert (Hno : VerifiedSet.transactions (verified st2) !! mined_id (unmined_id tx) = None).
  { apply not_elem_of_dom. tauto. }
  pose proof (insert_spec (verified st2) tx spent (pending_outputs st2) height now (sh_inv _ _ _ Hsh) Htx Hno ltac:(lia))
    as Hins. cbn zeta in Hins.
  destruct (check_insert_shrunk _ _ _ (transaction tx) spent a Hi Hsh HWa Hchk) as (a' & Ha').
  destruct (VerifiedSet.insert _ _ _ _ _ _) as [[v p]|e|]; [|congruence|done]. cbn [catch].
  destruct Hins as (Hiv & Htv & _ & _ & Hpend). exists v, p. split; [done|].
  destruct Hch as [_ _ Hm Hcap Hl Hdc Htk Hfr]. cbn in Hl. split; [|split].
  - split; cbn [verified with_verified tx_cost_limit]; [done|exact Hok|..].
    + rewrite (c_cost v (i_caches v Hiv)), Htv, msum_insert by done. rewrite Hl.
      pose proof (c_cost _ (i_caches _ (sh_inv _ _ _ Hsh))). change (cost_of (stamp tx height now)) with (cost_of tx). lia.
    + by rewrite Hl.
    + intros k r Hk. change (k ∈ ids v) in Hk. rewrite Htv, dom_insert_L in Hk. apply (Hfr r k); [|by intros []].
      apply elem_of_union in Hk as [->%elem_of_singleton|Hk]; [apply Hfresh|].
      apply (si_fresh _ Hs k r). by apply (shrunk_ids _ _ W k Hsh) in Hk as [? _].
  - intros r k Hk. apply (Hfr r k); [done|by intros []].
  - split; cbn [verified with_verified pending_outputs]; try done.
    + intros y. rewrite Htv. case_decide as Hy; [by rewrite Hy, lookup_insert_eq|].
      by rewrite lookup_insert_ne, (sh_txs _ _ _ Hsh).
    + intros o. by rewrite Hpend, Hp.
Qed.

Lemma inserted_quiet st st1 st' tx spent height now evicted a W :
  quiet clock st st1 -> inserted st1 st' tx spent height now evicted a W ->
  inserted st st' tx spent height now evicted a W.
Proof. intros [Hv Hp _ _ _ _ _ _] []. split; rewrite <- ?Hv, <- ?Hp; done. Qed.

Lemma insert_with_evicted_ids_Ok {E} st tx spent height now :
  storage_inv st -> tx_ok tx -> Standard.outputs_ok tx ->
  exists st' result evicted,
    insert_with_evicted_ids clock (E := E) st tx spent height now = Ok (st', result, evicted) /\
    insert_result st st' tx spent height now result evicted.
Proof using clock_mono.
  intros Hs Htx Hout. unfold insert_with_evicted_ids.
  pose proof (rejection_error_spec clock clock_mono st (unmined_id tx) (si_rej _ Hs)) as Hrej.
  destruct (rejection_error clock st (unmined_id tx)) as [st1 error]. destruct Hrej as (Hok1 & Hq1 & Hfresh).
  pose proof (quiet_inv _ _ Hs Hok1 Hq1) as Hs1. pose proof Hq1 as [Hv1 Hp1 _ _ Hl1 _ _ _].
  assert (Hf1 : forall r k, fresh clock st r k -> fresh clock st1 r k).
  { intros r k Hk. apply Hq1; [done|by intros []]. }
  destruct error as [error|].
  { eexists st1, _, _. split; [done|]. split; [done|]. by repeat split. }
  specialize (Hfresh eq_refl). destruct (VerifiedSet.contains (verified st1) _) eqn:Hin.
  { eexists st1, _, _. split; [done|]. split; [done|]. by repeat split. }
  apply not_true_iff_false in Hin. rewrite contains_spec in Hin.
  unfold reject_if_non_standard_tx, reject_non_standard.
  pose proof (Standard.check_standard_no_panic (max_datacarrier_bytes st1) tx Hout) as Hstd.
  destruct (Standard.check_standard _ tx) as [[]|e|]; [|clear Hstd|done]; cbn [res_bind].
  2: { destruct (reject_tip_result (E := E) st st1 tx spent height now (unmined_id tx) (NonStandardTransaction e)
         (NonStandard e) Hs1 Hq1) as (st2 & -> & Hres); [done|]. cbn [res_bind]. by eexists st2, _, _. }
  pose proof (check_insert_spec (verified st1) (transaction tx) spent (i_graph _ (si_set _ Hs1))) as Hspec.
  destruct (VerifiedSet.check_insert (verified st1) (transaction tx) spent) as [a|e|] eqn:Hchk; [|clear Hspec|done];
    cbn [catch res_bind]; unfold reject_insert_same, reject_insert_exact.
  2: { destruct (reject_tip_result (E := E) st st1 tx spent height now (unmined_id tx) (SameEffectsTip e)
         (StorageEffectsTip e) Hs1 Hq1) as (st2 & -> & Hres); [done|]. cbn [res_bind]. by eexists st2, _, _. }
  pose proof (ancestors_stored _ _ _ _ (si_set _ Hs1) Hspec) as Ha.
  destruct (make_room_Ok (E := E) st1 tx a Hok1 (si_set _ Hs1) Htx Ha) as (st2 & result & -> & Hroom).
  { intros p c Hpc Hc. by apply (ins_closed _ _ _ _ Hspec c). }
  cbn [res_bind]. destruct result as [e|evicted].
  - destruct Hroom as [-> ->]. destruct (reject_tip_result (E := E) st st1 tx spent height now (unmined_id tx)
      (ExactTip BelowEvictionCost) (StorageExactTip BelowEvictionCost) Hs1 Hq1) as (st2 & -> & Hres); [done|].
    cbn [res_bind]. by eexists st2, _, _.
  - destruct Hroom as (W & Hroom).
    destruct (insert_last (E := E) st1 st2 tx spent height now a W evicted Hs1 Htx Hchk Hin Hfresh Hroom)
      as (v & p & -> & Hinv & Hfr & Hins). cbn [res_bind].
    eexists _, _, _. split; [done|]. split; [done|]. split.
    { cbn. rewrite <- Hl1. apply (rm_changes _ _ _ _ _ _ Hroom). }
    split; [intros r k Hk; by apply Hfr, Hf1|]. split; [done|]. exists a, W. by apply (inserted_quiet st st1).
Qed.

Lemma new_storage {E} config :
  0 <= config_tx_cost_limit config < 2 ^ 31 ->
  exists st, new (E := E) config = Ok st /\ storage_inv st /\ verified st = VerifiedSet.empty /\
    forall r k, fresh clock st r k.
Proof.
  intros Hl. eexists. split; [done|].
  assert (Hf : forall r k, fresh clock (mkStorage VerifiedSet.empty PendingOutputs.empty ∅ ∅ ∅
    (config_eviction_memory_time config) MAX_EVICTION_MEMORY_ENTRIES (config_tx_cost_limit config)
    (default DEFAULT_MAX_DATACARRIER_BYTES (config_max_datacarrier_bytes config)) 0) r k).
  { intros r k l. cbn. by rewrite lookup_empty. }
  split; [|done]. split; cbn; [apply empty_inv| |lia|done|by intros k r _].
  split; [|done]. split; [done|]. intros r l. cbn. by rewrite lookup_empty.
Qed.

(** C5: [insert_with_evicted_ids] on any storage that keeps its invariant: it does not
    panic and keeps the invariant, in particular the total cost within the limit.  A
    transaction that gets in passed [check_insert], and only then are transactions
    evicted: whole packages, none of them its ancestor, whose ids are returned; the
    requests that waited for its outputs are answered.  A transaction that does not get
    in leaves the stored transactions and the waiting requests as they were. *)
Theorem insert_all_or_nothing {E} st tx spent height now :
  storage_inv st -> tx_ok tx -> Standard.outputs_ok tx ->
  exists st' result evicted,
    insert_with_evicted_ids clock (E := E) st tx spent height now = Ok (st', result, evicted) /\
    storage_inv st' /\ VerifiedSet.total_cost (verified st') <= tx_cost_limit st /\
    match result with
    | inr id => id = unmined_id tx /\ exists a W, inserted st st' tx spent height now evicted a W
    | inl _ => refused st st' evicted
    end.
Proof using clock_mono.
  intros Hs Htx Hout.
  destruct (insert_with_evicted_ids_Ok (E := E) st tx spent height now Hs Htx Hout)
    as (st' & result & evicted & Hins & Hinv & Hlim & _ & Hres).
  exists st', result, evicted. split; [done|]. split; [done|]. split; [|done].
  rewrite <- Hlim. apply (si_cost _ Hinv).
Qed.
End Room.

(** A transaction of the example solver that is inserted into an empty storage. *)
Definition example_config : Config := mkConfig 80000000 3600 None.

Lemma spending_tx_ok : tx_ok (Standard.spending_tx [1; 2]) /\ Standard.outputs_ok (Standard.spending_tx [1; 2]).
Proof.
  split; [split; vm_compute; intuition congruence|]. split; [|by vm_compute].
  repeat constructor; vm_compute; congruence.
Qed.

Lemma insert_all_or_nothing_witness :
  exists st st' id evicted,
    new (E := unit) example_config = Ok st /\
    insert_with_evicted_ids (HO := elements_order) (ZS := Standard.toy_script) EvictionList.ticking (E := unit)
      st (Standard.spending_tx [1; 2]) [] (Some 7) 100 = Ok (st', inr id, evicted) /\
    VerifiedSet.total_cost (verified st') <= 80000000 /\
    VerifiedSet.transactions (verified st') !! 1 = Some (stamp (Standard.spending_tx [1; 2]) (Some 7) 100).
Proof.
  destruct (new_storage EvictionList.ticking (E := unit) example_config) as (st & Hnew & Hinv & _); [cbn; lia|].
  destruct (insert_all_or_nothing (HO := elements_order) (ZS := Standard.toy_script) EvictionList.ticking
    EvictionList.ticking_mono (E := unit) st (Standard.spending_tx [1; 2]) [] (Some 7) 100 Hinv
    (proj1 spending_tx_ok) (proj2 spending_tx_ok)) as (st' & result & evicted & Hins & Hinv' & Hcost & Hres).
  injection Hnew as <-. destruct result as [e|id].
  { exfalso. revert Hins. vm_compute. discriminate. }
  destruct Hres as (-> & a & W & Hins').
  eexists _, st', _, evicted. split; [reflexivity|]. split; [exact Hins|]. split; [exact Hcost|].
  rewrite (in_txs _ _ _ _ _ _ _ _ _ Hins'). by rewrite decide_True.
Defined.

(** The storage that holds this transaction. *)
Definition example_storage : Storage :=
  match
    (let? st := new example_config in
     insert_with_evicted_ids (HO := elements_order) (ZS := Standard.toy_script) EvictionList.ticking (E := unit)
       st (Standard.spending_tx [1; 2]) [] (Some 7) 100)
  with
  | Ok (st, _, _) => st
  | _ => mkStorage VerifiedSet.empty PendingOutputs.empty ∅ ∅ ∅ 0 0 0 0 0
  end.

Lemma example_storage_inv : storage_inv EvictionList.ticking example_storage.
Proof.
  unfold example_storage. destruct (new_storage EvictionList.ticking (E := unit) example_config) as (st & -> & Hinv & _); [cbn; lia|].
  cbn [res_bind].
  destruct (insert_with_evicted_ids_Ok (HO := elements_order) (ZS := Standard.toy_script) EvictionList.ticking
    EvictionList.ticking_mono (E := unit) st (Standard.spending_tx [1; 2]) [] (Some 7) 100 Hinv
    (proj1 spending_tx_ok) (proj2 spending_tx_ok)) as (st' & result & evicted & -> & Hinv' & _). done.
Qed.

(** A transaction that pays a hundred times as much, with room for one. *)
Definition rich_tx : VerifiedUnminedTx :=
  mkVerified (Legacy 2) (transaction (Standard.spending_tx [1; 2]))
    (Zip317.mkVerified (Zip317.verified_transaction (fees (Standard.spending_tx [1; 2]))) (Amount.mk 1000000) 1 0 2 0)
    (QArith_base.inject_Z 100) None None [].

Lemma eviction_is_greedy_witness :
  exists vs, VerifiedSet.select_eviction_victims (HO := elements_order) (E := unit) (verified example_storage) rich_tx ∅ 15000 = Ok vs /\
    VerifiedSet.roots vs = Some [1] /\
    picks (verified example_storage) (incoming_score (verified example_storage) ∅ rich_tx) 5000 ∅ None [] 0 vs.
Proof.
  destruct (eviction_is_greedy (HO := elements_order) (verified example_storage) ∅ (si_set _ _ example_storage_inv)
    (fun p ch _ Hin => False_ind _ (not_elem_of_empty ch Hin)) (E := unit) rich_tx 15000) as (vs & Hv & Hp & _).
  - split; vm_compute; intuition congruence.
  - set_solver.
  - exists vs. split; [exact Hv|]. split; [|exact Hp]. revert Hv. vm_compute. by intros [= <-].
Defined.
End StorageInsert.

Module StorageBlock.
Import MempoolTx Dependencies VerifiedGraph VerifiedCaches VerifiedFacts VerifiedRemove.
Import Storage StorageLists StorageInsert.

Implicit Types (v : VerifiedSet) (W : gset Hash) (tx : VerifiedUnminedTx) (t : Transaction).

(** ** The transactions that a block excludes *)

Lemma elem_of_ids_where v f id :
  id ∈ ids_where v f <-> exists k tx, VerifiedSet.transactions v !! k = Some tx /\ f tx = true /\ id = unmined_id tx.
Proof.
  unfold ids_where. revert id.
  apply (map_fold_weak_ind (fun (b : gset UnminedTxId) m => forall id, id ∈ b <->
    exists k tx, m !! k = Some tx /\ f tx = true /\ id = unmined_id tx)).
  - intros id. rewrite elem_of_empty. split; [done|]. intros (k & tx & Hk & _). by rewrite lookup_empty in Hk.
  - intros k tx m b Hk IH id. setoid_rewrite lookup_insert_Some.
    destruct (f tx) eqn:Hf; rewrite ?elem_of_union, ?elem_of_singleton, IH; split.
    + intros [->|(k' & tx' & Hk' & Hrest)]; [by exists k, tx; auto|]. exists k', tx'. split; [|done].
      right. split; [|done]. intros <-. congruence.
    + intros (k' & tx' & [[<- <-]|[_ Hk']] & Hf' & ->); [by left|]. right. by exists k', tx'.
    + intros (k' & tx' & Hk' & Hrest). exists k', tx'. split; [|done]. right. split; [|done]. intros <-. congruence.
    + intros (k' & tx' & [[<- <-]|[_ Hk']] & Hf' & ->); [congruence|]. by exists k', tx'.
Qed.

(** Two transactions reveal the same spend. *)
Definition share_spend t t' : Prop :=
  (exists o, o ∈ spent_outpoints t /\ o ∈ spent_outpoints t') \/
  (exists n, n ∈ sprout_nullifiers t /\ n ∈ sprout_nullifiers t') \/
  (exists n, n ∈ sapling_nullifiers t /\ n ∈ sapling_nullifiers t') \/
  (exists n, n ∈ orchard_nullifiers t /\ n ∈ orchard_nullifiers t') \/
  (exists n, n ∈ ironwood_nullifiers t /\ n ∈ ironwood_nullifiers t').

Lemma has_conflicts_collected {A} `{Countable A} (f : Transaction -> list A) (txs : list Transaction) t :
  VerifiedSet.has_conflicts (list_to_set (txs ≫= f)) (f t) = true <-> exists t' a, t' ∈ txs /\ a ∈ f t /\ a ∈ f t'.
Proof.
  rewrite <- not_false_iff_true, has_conflicts_false. setoid_rewrite elem_of_list_to_set.
  setoid_rewrite list_elem_of_bind. split.
  - intros Hn. destruct (decide (Exists (fun a => Exists (fun t' => a ∈ f t') txs) (f t))) as [Hex|Hex].
    + apply Exists_exists in Hex as (a & Ha & (t' & Ht' & Ha')%Exists_exists). by exists t', a.
    + destruct Hn. intros a Ha (t' & Ha' & Ht'). apply Hex, Exists_exists. exists a. split; [done|].
      apply Exists_exists. by exists t'.
  - intros (t' & a & Ht' & Ha & Ha') Hn. apply (Hn a Ha). by exists t'.
Qed.

Lemma double_spends_spec txs t :
  double_spends (collect_spends txs) t = true <-> exists t', t' ∈ txs /\ share_spend t t'.
Proof.
  unfold double_spends, collect_spends, share_spend. cbn. rewrite !orb_true_iff, !has_conflicts_collected. naive_solver.
Qed.

Section Remove.
Context {HO : HashOrder} {ZS : Standard.ZcashScript} (clock : nat -> Z).
Context (clock_mono : forall i, clock i <= clock (S i)).

Notation storage_inv := (storage_inv clock).
Implicit Types (st : Storage).

Lemma set_only_inv st v p :
  storage_inv st -> inv v -> VerifiedSet.transactions v = VerifiedSet.transactions (verified st) ->
  storage_inv (with_verified st v p).
Proof.
  intros [Hi Hr Hc Hl Hf] Hv Ht. split; cbn [verified with_verified tx_cost_limit]; [done|exact Hr|..|done|].
  - rewrite (c_cost v (i_caches v Hv)), Ht, <- (c_cost _ (i_caches _ Hi)). done.
  - intros k r Hk. apply (Hf k r). by rewrite <- Ht.
Qed.

Lemma clear_mined_dependencies_Ok {E} st mined :
  storage_inv st ->
  exists v, clear_mined_dependencies (E := E) st mined = Ok (with_verified st v (pending_outputs st)) /\
    storage_inv (with_verified st v (pending_outputs st)) /\
    VerifiedSet.transactions v = VerifiedSet.transactions (verified st) /\
    (forall p c, child (deps v) p c <-> child (deps (verified st)) p c /\ p ∉ mined).
Proof.
  intros Hs. unfold clear_mined_dependencies.
  destruct (clear_mined_Ok (E := E) (verified st) mined (si_set _ _ Hs)) as (v & -> & Hi & Ht & Hc). cbn [res_bind].
  exists v. split; [done|]. split; [by apply set_only_inv|done].
Qed.

(** Removing transactions, and then rejecting ids that are no longer stored. *)
Lemma reject_removed {E} st st1 e W (ids_list : list UnminedTxId) P :
  storage_inv st -> shrunk (verified st) (verified st1) W -> W ⊆ ids (verified st) -> rej_ok clock st1 ->
  changes clock P st st1 -> (forall r k, P r k -> k ∉ ids (verified st1)) ->
  NoDup (mined_id <$> ids_list) ->
  (forall id, id ∈ ids_list -> mined_id id ∉ ids (verified st1) /\ fresh clock st1 e (mined_id id)) ->
  exists st', reject_all clock (E := E) st1 ids_list (SameEffectsChain e) = Ok st' /\ storage_inv st' /\
    verified st' = verified st1 /\ pending_outputs st' = pending_outputs st1 /\
    changes clock (fun r k => P r k \/ (r = e /\ k ∈ mined_id <$> ids_list)) st st'.
Proof using clock_mono.
  intros Hs Hsh HW Hok Hch HP Hnd Hid.
  destruct (reject_all_Ok clock clock_mono (E := E) e ids_list st1 Hok Hnd) as (st' & -> & Hok' & Hf);
    [intros id Hin; by apply Hid|].
  pose proof (f_verified _ _ _ _ Hf) as Hv. exists st'. split; [done|].
  assert (Hch' : changes clock (fun r k => P r k \/ (r = e /\ k ∈ mined_id <$> ids_list)) st st').
  { by apply (changes_trans _ P (fun r k => r = e /\ k ∈ mined_id <$> ids_list) _ st st1); [|apply frame_changes|]. }
  split; [|split; [done|split; [apply Hf|done]]].
  eapply (shrunk_storage_inv clock st st'); [exact Hs|rewrite Hv; exact Hsh|exact HW|done|exact Hch'|]. rewrite Hv.
  intros r k [Hk|[-> (id & -> & Hin)%list_elem_of_fmap]]; [by apply (HP r)|by apply Hid].
Qed.

Lemma legacy_ids (X : gset Hash) : mined_id <$> (Legacy <$> hash_iter X) = hash_iter X.
Proof. rewrite <- list_fmap_compose. apply list_fmap_id. Qed.

(** The ids of stored transactions have different hashes. *)
Lemma ids_where_NoDup v f : inv v -> NoDup (mined_id <$> hash_iter (ids_where v f)).
Proof.
  intros Hi. apply NoDup_fmap_2_strong; [|apply NoDup_hash_iter]. intros id id'. rewrite !elem_of_hash_iter, !elem_of_ids_where.
  intros (k & tx & Hk & _ & ->) (k' & tx' & Hk' & _ & ->). rewrite (c_keys v (i_caches v Hi) k tx Hk).
  rewrite (c_keys v (i_caches v Hi) k' tx' Hk'). intros ->. rewrite Hk in Hk'. by injection Hk' as ->.
Qed.

(** ** A block *)

(** The transactions of [v] whose ids are in [mined], then those that spend what
    [txs] spend. *)
Record block_removed v v' (mined : gset Hash) (txs : list Transaction) (removed : RemovedTransactionIds) v1 W1 W2 : Prop := {
  br_mined : shrunk v v1 W1;
  br_takes_mined : takes v (hash_iter mined) W1;
  br_spends : shrunk v1 v' W2;
  br_takes_spends :
    takes v1 (mined_id <$> hash_iter (ids_where v1 (fun tx => double_spends (collect_spends txs) (transaction tx)))) W2;
  br_ids_mined : forall id, id ∈ Storage.mined removed <-> ids_of v W1 id;
  br_ids_invalid : forall id, id ∈ invalidated removed <-> ids_of v1 W2 id;
}.

Lemma reject_and_remove_Ok {E} st mined txs :
  storage_inv st -> (forall k, k ∈ mined -> fresh clock st Mined k) ->
  exists st' removed v1 W1 W2,
    reject_and_remove_same_effects clock (E := E) st mined txs = Ok (st', removed) /\ storage_inv st' /\
    block_removed (verified st) (verified st') mined txs removed v1 W1 W2 /\
    changes clock (fun r k => r <> Expired) st st'.
Proof using clock_mono.
  intros Hs Hfresh. unfold reject_and_remove_same_effects.
  destruct (remove_all_shrunk (E := E) (hash_iter mined) (verified st) ∅ (si_set _ _ Hs))
    as (v1 & rm1 & W1 & -> & Hs1 & HW1 & Hrm1). cbn [res_bind].
  set (dup := ids_where v1 _). pose proof (ids_where_NoDup v1 _ (sh_inv _ _ _ Hs1) : NoDup (mined_id <$> hash_iter dup)) as Hnd.
  destruct (remove_all_shrunk (E := E) (mined_id <$> hash_iter dup) v1 ∅ (sh_inv _ _ _ Hs1))
    as (v2 & rm2 & W2 & -> & Hs2 & HW2 & Hrm2). cbn [res_bind].
  pose proof (shrunk_trans _ _ _ _ _ Hs1 Hs2) as Hs12.
  assert (HW : W1 ∪ W2 ⊆ ids (verified st)).
  { apply union_least; [by apply (takes_ids _ _ _ HW1)|]. intros y Hy%(takes_ids _ _ _ HW2).
    by apply (shrunk_ids _ _ _ y Hs1) in Hy as [? _]. }
  destruct (reject_removed (E := E) st (with_verified st v2 (pending_outputs st)) Mined (W1 ∪ W2)
    (Legacy <$> hash_iter mined) (fun _ _ => False)) as (st2 & -> & Hi2 & Hv2 & Hp2 & Hch2);
    [done|done|done|apply (si_rej _ _ Hs)|apply with_changes|done|rewrite legacy_ids; apply NoDup_hash_iter|..].
  { intros id (k & -> & Hk)%list_elem_of_fmap. rewrite elem_of_hash_iter in Hk. split; [|by apply Hfresh].
    cbn [verified with_verified mined_id]. intros [Hk2 Hn]%(shrunk_ids _ _ _ k Hs12). apply Hn, elem_of_union_l, HW1.
    split; [done|]. exists k. by rewrite elem_of_hash_iter. }
  cbn [res_bind]. cbn [verified with_verified] in Hv2.
  assert (Hdup : forall id, id ∈ hash_iter dup -> mined_id id ∈ ids v1).
  { intros id. rewrite elem_of_hash_iter. unfold dup. rewrite elem_of_ids_where. intros (k & tx & Hk & _ & ->).
    rewrite (c_keys v1 (i_caches v1 (sh_inv _ _ _ Hs1)) k tx Hk). by apply elem_of_dom_2 in Hk. }
  rewrite <- Hv2 in Hs12, Hs2.
  destruct (reject_removed (E := E) st st2 DuplicateSpend (W1 ∪ W2) (hash_iter dup)
    (fun r k => False \/ (r = Mined /\ k ∈ mined_id <$> (Legacy <$> hash_iter mined))))
    as (st' & -> & Hi' & Hv' & Hp' & Hch'); [done|done|done|apply (si_rej _ _ Hi2)|done|..|done| |].
  { intros r k [[]|[-> Hk]]. rewrite legacy_ids in Hk. intros [Hk2 Hn]%(shrunk_ids _ _ _ k Hs12).
    apply Hn, elem_of_union_l, HW1. split; [done|]. by exists k. }
  { intros id Hin. pose proof (Hdup id Hin) as Hid. split.
    - intros [_ Hn]%(shrunk_ids _ _ _ _ Hs2). apply Hn, HW2. split; [done|]. exists (mined_id id).
      split; [by apply list_elem_of_fmap_2|done].
    - apply (f_fresh _ _ _ _ Hch2); [|naive_solver]. apply (si_fresh _ _ Hs).
      by apply (shrunk_ids _ _ _ _ Hs1) in Hid as [? _]. }
  cbn [res_bind]. rewrite <- Hv' in Hs2. eexists _, _, v1, W1, W2. split; [done|]. split; [|split].
  - apply set_only_inv; [done|apply (si_set _ _ Hi')|done].
  - split; cbn; [done|done|done|done|..]; intros id; rewrite ?Hrm1, ?Hrm2; set_solver.
  - eapply changes_weaken; [|eapply still_trans; [exact Hch'|apply with_changes]].
    intros r k [[[]|[-> _]]|[-> _]]; done.
Qed.

(** ** Expiry *)

Lemma remove_expired_Ok {E} st height :
  storage_inv st ->
  exists st' removed W,
    remove_expired_transactions clock (E := E) st height = Ok (st', removed) /\ storage_inv st' /\
    shrunk (verified st) (verified st') W /\
    (forall y, y ∈ W <-> y ∈ ids (verified st) /\ exists x tx, VerifiedSet.transactions (verified st) !! x = Some tx /\
       has_expired height tx = true /\ rtc (child (deps (verified st))) x y) /\
    (forall id, id ∈ removed <-> ids_of (verified st) W id) /\
    changes clock (fun r k => r = Expired) st st'.
Proof using clock_mono.
  intros Hs. unfold remove_expired_transactions. set (expired := dom _ : gset Hash).
  assert (Hexp : forall x, x ∈ expired <->
    exists tx, VerifiedSet.transactions (verified st) !! x = Some tx /\ has_expired height tx = true).
  { intros x. unfold expired. rewrite elem_of_dom. unfold is_Some. setoid_rewrite map_lookup_filter_Some. done. }
  destruct (remove_all_shrunk (E := E) (hash_iter expired) (verified st) ∅ (si_set _ _ Hs))
    as (v & rm & W & -> & Hs1 & HW & Hrm). cbn [res_bind].
  destruct (reject_removed (E := E) st (with_verified st v (pending_outputs st)) Expired W
    (Legacy <$> hash_iter expired) (fun _ _ => False)) as (st' & -> & Hi' & Hv' & Hp' & Hch');
    [done|done|by apply (takes_ids _ _ _ HW)|apply (si_rej _ _ Hs)|apply with_changes|done
    |rewrite legacy_ids; apply NoDup_hash_iter|..].
  { intros id (k & -> & Hk)%list_elem_of_fmap. pose proof Hk as Hk'. rewrite elem_of_hash_iter, Hexp in Hk'.
    destruct Hk' as (tx & Hk' & _). apply elem_of_dom_2 in Hk'. split; [|by apply (si_fresh _ _ Hs)].
    cbn [verified with_verified mined_id]. intros [_ Hn]%(shrunk_ids _ _ _ k Hs1). apply Hn, HW. split; [done|]. by exists k. }
  cbn [res_bind]. cbn [verified with_verified] in Hv'. rewrite <- Hv' in Hs1.
  exists st', rm, W. split; [done|]. split; [done|]. split; [done|]. split; [|split].
  - intros y. rewrite (HW y). setoid_rewrite elem_of_hash_iter. setoid_rewrite Hexp. naive_solver.
  - intros id. rewrite Hrm. set_solver.
  - eapply changes_weaken; [|exact Hch']. intros r k [[]|[-> _]]. done.
Qed.

Lemma clear_tip_rejections_Ok {E} st :
  storage_inv st ->
  exists st', clear_tip_rejections clock (E := E) st = Ok st' /\ storage_inv st' /\ quiet clock st st' /\
    tip_rejected_exact st' = ∅ /\ tip_rejected_same_effects st' = ∅.
Proof using clock_mono.
  intros Hs. unfold clear_tip_rejections. pose proof (si_rej _ _ Hs) as [Hl [Ht1 Ht2]].
  destruct (update_rejected_metrics_Ok clock clock_mono (E := E) (with_tip st ∅ ∅)) as (st' & -> & Hok & Hq & He & Hsm).
  { split; [exact Hl|]. destruct Hl as [Hc _]. unfold tips_ok. cbn. rewrite !map_size_empty. lia. }
  exists st'. split; [done|]. assert (Hq' : quiet clock st st') by (eapply quiet_trans; [apply with_tip_quiet|exact Hq]).
  split; [by apply (quiet_inv clock st)|done].
Qed.
End Remove.
End StorageBlock.
