(* ===== verification/Downloads.v ===== *)
(** * Transaction downloads

    [zakurad/src/components/mempool/downloads.rs]: the queue of the tasks that
    download and verify transactions.

    A task is spawned by [queue] and runs on its own: [finish] is the step in
    which it sends its result.  The answers of the services it asks (the state,
    the network, the peer cooldowns and the verifier) are an argument of that
    step.  A task whose cancel handle is gone reports that it was cancelled.
    The channel that reports the outcome to the caller of [queue] is left out.

    [inv]: the handles are those of the tasks that are not cancelled and of the
    results that wait, and the counters of the peers count them. *)

From stdpp Require Import base numbers list option gmap sets.
From Stdlib Require Import ZArith Lia.
From S2P Require Import Prelude Height BTree Network BSet PeerCooldown HashIter Dependencies MempoolTx VerifiedSet Standard PeerPolicy Storage.
Local Open Scope Z_scope.

Module Downloads.
Import MempoolTx.
Import PeerPolicy.

Definition MAX_INBOUND_CONCURRENCY : Z := 500.
Definition MAX_INBOUND_CONCURRENCY_PER_PEER : Z := 5.

(** ** Requests *)

Inductive QueueSource := LegacySocket (addr : SocketAddr) | Zakura (peer_id : list Z).

#[export] Instance QueueSource_eq_dec : EqDecision QueueSource.
Proof. solve_decision. Defined.
#[export] Instance QueueSource_countable : Countable QueueSource.
Proof.
  refine (inj_countable' (fun s => match s with LegacySocket a => inl a | Zakura i => inr i end)
            (fun s => match s with inl a => LegacySocket a | inr i => Zakura i end) _).
  by intros [].
Defined.

Inductive Gossip := Id (txid : UnminedTxId) | Tx (tx : UnminedTx).

Definition gossip_id (self : Gossip) : UnminedTxId :=
  match self with Id txid => txid | Tx tx => u_id tx end.

Definition advertiser_addr_from_queue_source (source : QueueSource) : option SocketAddr :=
  match source with LegacySocket addr => Some addr | Zakura _ => None end.

(** ** One task *)

(** The answers a task gets.  [None] is an error of the service, and for the
    network also an answer without the transaction. *)
Record Answers := mkAnswers {
  in_best_chain : option bool;
  tip : option (option Z);
  downloaded : option (UnminedTx * option SocketAddr);
  is_cooling_down : SocketAddr -> bool;
  verifier : UnminedTx -> Z -> TransactionError + (VerifiedUnminedTx * list OutPoint);
}.

Definition check_transaction_size (transaction : UnminedTx) (max_transaction_bytes : Z)
  : res TransactionDownloadVerifyError unit :=
  if max_transaction_bytes <? u_size transaction then
    Err (PolicyRejected (Standard.TransactionTooLarge (u_size transaction) max_transaction_bytes))
  else Ok ().

Definition transaction_in_best_chain (answer : option bool) : res TransactionDownloadVerifyError unit :=
  match answer with Some false => Ok () | Some true => Err InState | None => Err StateError end.

(** The transaction, downloaded if needed, and the address it came from. *)
Definition get_transaction (gossiped_tx : Gossip) (source : option QueueSource) (max_transaction_bytes : Z)
  (answer : option (UnminedTx * option SocketAddr)) : res TransactionDownloadVerifyError (UnminedTx * option SocketAddr) :=
  match gossiped_tx with
  | Id txid =>
      match answer with
      | None => Err DownloadFailed
      | Some (tx, advertiser_addr) =>
          if bool_decide (u_id tx = txid) then
            let? _ := check_transaction_size tx max_transaction_bytes in Ok (tx, advertiser_addr)
          else Err DownloadFailed
      end
  | Tx tx => Ok (tx, source ≫= advertiser_addr_from_queue_source)
  end.

(** The future that [queue] spawns. *)
Definition download_and_verify (gossiped_tx : Gossip) (source : option QueueSource) (retried_after_tip_reset : bool)
  (max_transaction_bytes : Z) (a : Answers)
  : res TransactionDownloadVerifyError (VerifiedUnminedTx * list OutPoint * option Z) :=
  let? _ := match gossiped_tx with Tx tx => check_transaction_size tx max_transaction_bytes | Id _ => Ok () end in
  let? _ := transaction_in_best_chain (in_best_chain a) in
  let? (tip_height, next_height) :=
    match tip a with
    | None => Err StateError
    | Some None => Ok (None, 0)
    | Some (Some height) =>
        let? next_height := expect_ok (Height.next height) in Ok (Some height, next_height)
    end in
  let? (tx, advertiser_addr) := get_transaction gossiped_tx source max_transaction_bytes (downloaded a) in
  if match advertiser_addr with Some addr => is_cooling_down a addr | None => false end then Err PeerCoolingDown
  else
    match verifier a tx next_height with
    | inr (transaction, spent_mempool_outpoints) => Ok (transaction, spent_mempool_outpoints, tip_height)
    | inl StateUnavailable => Err StateError
    | inl error =>
        Err (Invalid error advertiser_addr tip_height (version (u_transaction tx)) (network_upgrade (u_transaction tx))
               retried_after_tip_reset)
    end.

(** ** The queue *)

Inductive TaskResult :=
| Verified (tx : VerifiedUnminedTx) (spent_mempool_outpoints : list OutPoint) (tip_height : option Z)
| Failed (error : TransactionDownloadVerifyError) (txid : UnminedTxId)
| Elapsed (txid : UnminedTxId).

Definition result_id (r : TaskResult) : UnminedTxId :=
  match r with Verified tx _ _ => unmined_id tx | Failed _ txid => txid | Elapsed txid => txid end.

(** A task, by the number of tasks spawned before it. *)
Record Task := mkTask {
  number : nat;
  gossip : Gossip;
  source : option QueueSource;
  retried : bool;
  cancelled : bool;
}.

Definition task_id (t : Task) : UnminedTxId := gossip_id (gossip t).

(** [running] are the tasks that hold a sender of [results]. *)
Record Downloads := mkDownloads {
  max_transaction_bytes : Z;
  running : list Task;
  results : list TaskResult;
  in_flight : Z;
  cancel_handles : gmap UnminedTxId (nat * Gossip * option QueueSource);
  pending_per_peer : gmap QueueSource Z;
  spawned : nat;
}.

Definition new (max_transaction_bytes : Z) : Downloads := mkDownloads max_transaction_bytes [] [] 0 ∅ ∅ 0.

Definition release_peer_slot (pending_per_peer : gmap QueueSource Z) (source : QueueSource) : gmap QueueSource Z :=
  match pending_per_peer !! source with
  | Some count =>
      let count := Z.max 0 (count - 1) in
      if count =? 0 then delete source pending_per_peer else <[source := count]> pending_per_peer
  | None => pending_per_peer
  end.

(** Dropping a handle, or sending on it, cancels its task. *)
Definition cancel_task (number' : nat) (tasks : list Task) : list Task :=
  (fun t => if (number t =? number')%nat then mkTask (number t) (gossip t) (source t) (retried t) true else t) <$> tasks.

(** [cancel_handles.remove], and the release of the peer's slot. *)
Definition remove_handle (self : Downloads) (txid : UnminedTxId) : Downloads :=
  match cancel_handles self !! txid with
  | None => self
  | Some (number, _, source) =>
      mkDownloads (max_transaction_bytes self) (cancel_task number (running self)) (results self) (in_flight self)
        (delete txid (cancel_handles self))
        (match source with
         | Some source => release_peer_slot (pending_per_peer self) source
         | None => pending_per_peer self
         end) (spawned self)
  end.

Definition queue (self : Downloads) (gossiped_tx : Gossip) (source : option QueueSource) (retried_after_tip_reset : bool)
  : res Storage.MempoolError Downloads :=
  let txid := gossip_id gossiped_tx in
  if bool_decide (is_Some (cancel_handles self !! txid)) then Err Storage.AlreadyQueued
  else if MAX_INBOUND_CONCURRENCY <=? in_flight self then Err Storage.FullQueue
  else if match source with
          | Some source => MAX_INBOUND_CONCURRENCY_PER_PEER <=? default 0 (pending_per_peer self !! source)
          | None => false
          end
  then Err Storage.FullQueue
  else
    let task := mkTask (spawned self) gossiped_tx source retried_after_tip_reset false in
    let? in_flight := uint_arith 64 (in_flight self + 1) in
    let? per_peer :=
      (match source with
       | Some source =>
           let? count := uint_arith 64 (default 0 (pending_per_peer self !! source) + 1) in
           Ok (<[source := count]> (pending_per_peer self))
       | None => Ok (pending_per_peer self)
       end) in
    let? _ := rust_assert (bool_decide (cancel_handles self !! txid = None)) in
    Ok (mkDownloads (max_transaction_bytes self) (running self ++ [task]) (results self) in_flight
          (<[txid := (spawned self, gossiped_tx, source)]> (cancel_handles self)) per_peer (S (spawned self))).

Definition download_if_needed_and_verify (self : Downloads) (gossiped_tx : Gossip) (source : option QueueSource)
  : res Storage.MempoolError Downloads := queue self gossiped_tx source false.

Definition retry_after_tip_reset (self : Downloads) (gossiped_tx : Gossip) (source : option QueueSource)
  : res Storage.MempoolError Downloads := queue self gossiped_tx source true.

(** The result a task sends; [None] is the timeout. *)
Definition task_result {E} (self : Downloads) (t : Task) (answers : option Answers) : res E TaskResult :=
  if cancelled t then Ok (Failed Cancelled (task_id t))
  else
    match answers with
    | None => Ok (Elapsed (task_id t))
    | Some a =>
        match download_and_verify (gossip t) (source t) (retried t) (max_transaction_bytes self) a with
        | Ok (tx, spent_mempool_outpoints, tip_height) => Ok (Verified tx spent_mempool_outpoints tip_height)
        | Err error => Ok (Failed error (task_id t))
        | Panic => Panic
        end
    end.

(** The task at position [i] of the running ones sends its result. *)
Definition finish {E} (self : Downloads) (i : nat) (answers : option Answers) : res E Downloads :=
  match running self !! i with
  | None => Ok self
  | Some t =>
      let? result := task_result self t answers in
      Ok (mkDownloads (max_transaction_bytes self) (delete i (running self)) (results self ++ [result])
            (in_flight self) (cancel_handles self) (pending_per_peer self) (spawned self))
  end.

(** [poll_next]: [None] is [Pending]; the channel does not close. *)
Definition poll_next {E} (self : Downloads) : res E (Downloads * option TaskResult) :=
  match results self with
  | [] => Ok (self, None)
  | result :: rest =>
      let? in_flight := expect (if 1 <=? in_flight self then Some (in_flight self - 1) else None) in
      let self := mkDownloads (max_transaction_bytes self) (running self) rest in_flight (cancel_handles self)
                    (pending_per_peer self) (spawned self) in
      Ok (remove_handle self (result_id result), Some result)
  end.

Section Order.
Context {HO : HashOrder}.

Definition cancel (self : Downloads) (mined_ids : gset Hash) : Downloads :=
  let removed_txids :=
    filter (fun txid => mined_id txid ∈ mined_ids) (hash_iter (dom (cancel_handles self))) in
  foldl remove_handle self removed_txids.

Definition transaction_requests (self : Downloads) : list (Gossip * option QueueSource) :=
  omap (fun txid => (fun h => (h.1.2, h.2)) <$> cancel_handles self !! txid) (hash_iter (dom (cancel_handles self))).
End Order.

Definition cancel_all (self : Downloads) : Downloads :=
  mkDownloads (max_transaction_bytes self) [] [] 0 ∅ ∅ (spawned self).

(** ** The invariant *)

Implicit Types (d : Downloads) (s : QueueSource) (h : gmap UnminedTxId (nat * Gossip * option QueueSource)).

(** The handles of a peer. *)
Definition handles_of h s : gmap UnminedTxId (nat * Gossip * option QueueSource) := filter (fun kv => kv.2.2 = Some s) h.
Definition slots h s : Z := Z.of_nat (size (handles_of h s)).

(** [missing] are the ids whose last result is on its way out: their handle may
    have no task any more. *)
Record inv_but (missing : UnminedTxId -> Prop) d : Prop := {
  i_flight : in_flight d = Z.of_nat (length (running d) + length (results d));
  i_max : in_flight d <= MAX_INBOUND_CONCURRENCY;
  i_cap : forall s, slots (cancel_handles d) s <= MAX_INBOUND_CONCURRENCY_PER_PEER;
  i_peers : forall s, pending_per_peer d !! s =
    if decide (slots (cancel_handles d) s = 0) then None else Some (slots (cancel_handles d) s);
  i_handles : forall txid n g o, cancel_handles d !! txid = Some (n, g, o) ->
    (n < spawned d)%nat /\ gossip_id g = txid /\
    (missing txid \/ txid ∈ task_id <$> running d \/ txid ∈ result_id <$> results d);
  i_numbers : NoDup (number <$> running d) /\ Forall (fun t => (number t < spawned d)%nat) (running d);
  i_live : forall t, t ∈ running d -> cancelled t = false ->
    cancel_handles d !! task_id t = Some (number t, gossip t, source t);
  i_unique : forall txid txid' n g o g' o', cancel_handles d !! txid = Some (n, g, o) ->
    cancel_handles d !! txid' = Some (n, g', o') -> txid = txid';
}.

Definition inv : Downloads -> Prop := inv_but (fun _ => False).

Lemma inv_but_weaken (P Q : UnminedTxId -> Prop) d : (forall id, P id -> Q id) -> inv_but P d -> inv_but Q d.
Proof.
  intros HPQ [? ? ? ? Hh ? ? ?]. split; try done. intros txid n g o Hid. destruct (Hh txid n g o Hid) as (? & ? & Hin).
  split; [done|]. split; [done|]. naive_solver.
Qed.

Lemma slots_insert h s txid n g o :
  h !! txid = None -> slots (<[txid := (n, g, o)]> h) s = slots h s + (if decide (o = Some s) then 1 else 0).
Proof.
  intros Hn. unfold slots, handles_of. case_decide as Hs.
  - rewrite map_filter_insert_True by done. rewrite map_size_insert_None; [lia|].
    apply map_lookup_filter_None. by left.
  - rewrite map_filter_insert_not' by (intros; congruence || done). lia.
Qed.

Lemma slots_delete h s txid n g o :
  h !! txid = Some (n, g, o) -> slots (delete txid h) s = slots h s - (if decide (o = Some s) then 1 else 0).
Proof.
  intros Hk. rewrite <- (insert_delete_id h txid _ Hk) at 2. rewrite slots_insert by apply lookup_delete_eq. lia.
Qed.

Lemma slots_nonneg h s : 0 <= slots h s.
Proof. unfold slots. lia. Qed.

Lemma slots_empty s : slots ∅ s = 0.
Proof. unfold slots, handles_of. by rewrite map_filter_empty, map_size_empty. Qed.

Lemma new_inv max : inv (new max).
Proof. split; cbn; try done; [split; constructor|by intros t ?%elem_of_nil]. Qed.

(** Removing the handle of [txid]: the counter of its peer follows. *)
Lemma release_slot d s n g txid :
  (forall s, pending_per_peer d !! s =
    if decide (slots (cancel_handles d) s = 0) then None else Some (slots (cancel_handles d) s)) ->
  cancel_handles d !! txid = Some (n, g, Some s) ->
  forall s', release_peer_slot (pending_per_peer d) s !! s' =
    if decide (slots (delete txid (cancel_handles d)) s' = 0) then None
    else Some (slots (delete txid (cancel_handles d)) s').
Proof.
  intros Hp Hk s'. pose proof (slots_delete _ s txid _ _ _ Hk) as Hd. rewrite decide_True in Hd by done.
  pose proof (slots_nonneg (delete txid (cancel_handles d)) s).
  unfold release_peer_slot. rewrite (Hp s), decide_False by lia. rewrite (slots_delete _ s' txid _ _ _ Hk).
  replace (Z.max 0 (slots (cancel_handles d) s - 1)) with (slots (cancel_handles d) s - 1) by lia.
  destruct (decide (s' = s)) as [->|Hne].
  - rewrite (decide_True (P := Some s = Some s)) by done. destruct (Z.eqb_spec (slots (cancel_handles d) s - 1) 0) as [Hz|Hz].
    + rewrite lookup_delete_eq, decide_True by lia. done.
    + rewrite lookup_insert_eq, decide_False by lia. done.
  - rewrite (decide_False (P := Some s = Some s')) by congruence. rewrite Z.sub_0_r, <- (Hp s').
    destruct (Z.eqb_spec (slots (cancel_handles d) s - 1) 0); [by rewrite lookup_delete_ne|by rewrite lookup_insert_ne].
Qed.

Lemma elem_of_cancel_task n tasks t :
  t ∈ cancel_task n tasks <->
  exists t0, t0 ∈ tasks /\
    t = if (number t0 =? n)%nat then mkTask (number t0) (gossip t0) (source t0) (retried t0) true else t0.
Proof. unfold cancel_task. rewrite list_elem_of_fmap. naive_solver. Qed.

Lemma cancel_task_fmap {A} (f : Task -> A) n tasks :
  (forall t, f (mkTask (number t) (gossip t) (source t) (retried t) true) = f t) ->
  f <$> cancel_task n tasks = f <$> tasks.
Proof.
  intros Hf. unfold cancel_task. rewrite <- list_fmap_compose. apply list_fmap_ext. intros i t _. cbn.
  case_match; [apply Hf|done].
Qed.

Lemma remove_handle_inv missing d txid :
  inv_but missing d -> inv_but (fun id => missing id /\ id <> txid) (remove_handle d txid).
Proof.
  intros [Hf Hm Hc Hp Hh Hn Hl Hu]. unfold remove_handle. destruct (cancel_handles d !! txid) as [[[n g] o]|] eqn:Hk.
  2: { split; try done. intros id n g o Hid. destruct (Hh id n g o Hid) as (? & ? & Hin).
       split; [done|]. split; [done|]. destruct Hin as [Hmis|Hin]; [left|by right]. split; [done|]. intros ->. congruence. }
  split; cbn [running results in_flight cancel_handles pending_per_peer spawned].
  - unfold cancel_task. by rewrite length_fmap.
  - done.
  - intros s. rewrite (slots_delete _ s _ _ _ _ Hk). specialize (Hc s). case_decide; lia.
  - destruct o as [s|]; [by apply (release_slot d s n g)|]. intros s. rewrite (slots_delete _ s _ _ _ _ Hk).
    rewrite (decide_False (P := None = Some s)) by done. by rewrite Z.sub_0_r.
  - intros id n' g' o' [Hne Hid]%lookup_delete_Some. destruct (Hh id n' g' o' Hid) as (? & ? & Hin).
    split; [done|]. split; [done|]. rewrite (cancel_task_fmap task_id) by done.
    destruct Hin as [Hmis|Hin]; [left|by right]. done.
  - rewrite (cancel_task_fmap number) by done. split; [apply Hn|]. apply Forall_forall.
    intros t (t0 & Ht0 & ->)%elem_of_cancel_task. destruct Hn as [_ Hn]. rewrite Forall_forall in Hn.
    specialize (Hn t0 Ht0). by case_match.
  - intros t (t0 & Ht0 & ->)%elem_of_cancel_task. case_match eqn:Hnum; [done|]. intros Hlive.
    rewrite lookup_delete_ne; [by apply Hl|]. intros ->. rewrite (Hl t0 Ht0 Hlive) in Hk.
    injection Hk as <- _ _. by rewrite Nat.eqb_refl in Hnum.
  - intros id id' n' g' o' g'' o'' [_ Hid]%lookup_delete_Some [_ Hid']%lookup_delete_Some. by apply (Hu _ _ _ _ _ _ _ Hid Hid').
Qed.

Lemma queue_spec d g o retried :
  inv d ->
  match queue d g o retried with
  | Ok d' => inv d' /\ in_flight d' = in_flight d + 1 /\ results d' = results d
  | Err e => e = Storage.AlreadyQueued \/ e = Storage.FullQueue
  | Panic => False
  end.
Proof.
  intros [Hf Hm Hc Hp Hh [Hn Hnum] Hl Hu]. unfold queue. case_bool_decide as Hk; [by left|].
  rewrite <- eq_None_not_Some in Hk. destruct (Z.leb_spec MAX_INBOUND_CONCURRENCY (in_flight d)) as [Hfull|Hroom]; [by right|].
  unfold MAX_INBOUND_CONCURRENCY in *.
  assert (Hslot : forall s, default 0 (pending_per_peer d !! s) = slots (cancel_handles d) s).
  { intros s. rewrite (Hp s). case_decide as Hz; cbn; [by rewrite Hz|done]. }
  destruct (match o with Some _ => _ | None => false end) eqn:Hpeer; [by right|].
  rewrite uint_arith_Ok by lia. cbn [res_bind].
  assert (Hpp : exists per_peer,
    (match o with
     | Some s => let? count := uint_arith 64 (default 0 (pending_per_peer d !! s) + 1) in
                 Ok (<[s := count]> (pending_per_peer d))
     | None => Ok (pending_per_peer d)
     end : res Storage.MempoolError _) = Ok per_peer /\
    forall s, slots (<[gossip_id g := (spawned d, g, o)]> (cancel_handles d)) s <= MAX_INBOUND_CONCURRENCY_PER_PEER /\
      per_peer !! s = if decide (slots (<[gossip_id g := (spawned d, g, o)]> (cancel_handles d)) s = 0) then None
                      else Some (slots (<[gossip_id g := (spawned d, g, o)]> (cancel_handles d)) s)).
  { unfold MAX_INBOUND_CONCURRENCY_PER_PEER in *. destruct o as [s|].
    - rewrite Hslot in Hpeer |- *. apply Z.leb_gt in Hpeer. pose proof (slots_nonneg (cancel_handles d) s).
      rewrite uint_arith_Ok by lia. eexists. split; [done|]. intros s'. specialize (Hc s').
      rewrite !(slots_insert _ _ _ _ _ _ Hk).
      destruct (decide (s' = s)) as [->|Hne].
      + rewrite (decide_True (P := Some s = Some s)) by done. rewrite lookup_insert_eq, decide_False by lia. split; [lia|done].
      + rewrite (decide_False (P := Some s = Some s')) by congruence. rewrite lookup_insert_ne, Z.add_0_r by done. by rewrite (Hp s').
    - eexists. split; [done|]. intros s. rewrite !(slots_insert _ _ _ _ _ _ Hk).
      rewrite (decide_False (P := None = Some s)), Z.add_0_r by done. by rewrite (Hp s). }
  destruct Hpp as (pp & -> & Hpp). cbn [res_bind]. rewrite bool_decide_true by done. cbn [rust_assert res_bind].
  split; [|done]. split; cbn [running results in_flight cancel_handles pending_per_peer spawned].
  - rewrite Hf, length_app. cbn. lia.
  - unfold MAX_INBOUND_CONCURRENCY. lia.
  - intros s. apply Hpp.
  - intros s. apply Hpp.
  - intros txid n g' o' [[<- [= <- <- <-]]|[Hne Hid]]%lookup_insert_Some.
    + split; [lia|]. split; [done|]. right; left. rewrite fmap_app, elem_of_app. right. by left.
    + destruct (Hh txid n g' o' Hid) as (? & ? & Hin). split; [lia|]. split; [done|].
      rewrite fmap_app, elem_of_app. tauto.
  - rewrite fmap_app. split.
    + apply NoDup_app. split; [done|]. split; [|apply NoDup_singleton]. intros n (t & -> & Ht)%list_elem_of_fmap Hs.
      apply list_elem_of_singleton in Hs. rewrite Forall_forall in Hnum. specialize (Hnum t Ht). cbn in Hs. lia.
    + apply Forall_app. split; [|by repeat constructor]. eapply Forall_impl; [exact Hnum|]. cbn. lia.
  - intros t [Ht|Ht]%elem_of_app Hlive; [|apply list_elem_of_singleton in Ht as ->; by rewrite lookup_insert_eq].
    rewrite lookup_insert_ne; [by apply Hl|]. intros Heq. rewrite Heq, (Hl t Ht Hlive) in Hk. done.
  - intros id id' n g1 o1 g2 o2 H1 H2. apply lookup_insert_Some in H1 as [[<- E1]|[_ H1]], H2 as [[<- E2]|[_ H2]];
      [done| | |by apply (Hu _ _ _ _ _ _ _ H1 H2)].
    + apply Hh in H2 as [? _]. simplify_eq. lia.
    + apply Hh in H1 as [? _]. simplify_eq. lia.
Qed.

Lemma poll_next_spec {E} d :
  inv d ->
  exists d', poll_next (E := E) d = Ok (d', head (results d)) /\ inv d' /\ results d' = tail (results d).
Proof.
  intros Hi. unfold poll_next. destruct (results d) as [|r rest] eqn:Hr; [by exists d|].
  pose proof Hi as [Hf Hm Hc Hp Hh Hn Hl Hu]. rewrite Hr in Hf, Hh. cbn [length] in Hf.
  destruct (Z.leb_spec 1 (in_flight d)); [|lia]. cbn [expect res_bind]. eexists. split; [done|].
  set (d1 := mkDownloads _ _ _ _ _ _ _). split.
  - assert (Hb : inv_but (fun id => id = result_id r) d1).
    { split; unfold d1; cbn [running results in_flight cancel_handles pending_per_peer spawned]; try done; [lia|lia|].
      intros txid n g o Hid. destruct (Hh txid n g o Hid) as (? & ? & Hin). split; [done|]. split; [done|].
      rewrite fmap_cons, elem_of_cons in Hin. tauto. }
    apply (remove_handle_inv _ _ (result_id r)) in Hb. revert Hb. apply inv_but_weaken. tauto.
  - unfold remove_handle. by repeat case_match.
Qed.

Lemma cancel_inv `{HO : HashOrder} d mined : inv d -> inv (cancel d mined).
Proof.
  unfold cancel. generalize (filter (fun txid => mined_id txid ∈ mined) (hash_iter (dom (cancel_handles d)))).
  intros l. revert d. induction l as [|id l IH]; intros d Hi; [done|]. cbn. apply IH.
  apply (remove_handle_inv _ d id) in Hi. revert Hi. apply inv_but_weaken. tauto.
Qed.

(** [d'] is [d] without the handles of [gone]: their tasks are cancelled, the others
    go on. *)
Record without d d' (gone : UnminedTxId -> Prop) : Prop := {
  wo_handles : forall txid v, cancel_handles d' !! txid = Some v <-> cancel_handles d !! txid = Some v /\ ~ gone txid;
  wo_results : results d' = results d;
  wo_running : task_id <$> running d' = task_id <$> running d;
  wo_stopped : forall t, t ∈ running d' -> gone (task_id t) -> cancelled t = true;
  wo_live : forall t, t ∈ running d -> cancelled t = false -> ~ gone (task_id t) -> t ∈ running d';
}.

Lemma remove_handle_without d txid : inv d -> without d (remove_handle d txid) (fun id => id = txid).
Proof.
  intros Hi. assert (Hi' : inv (remove_handle d txid)).
  { apply (remove_handle_inv _ d txid) in Hi. revert Hi. apply inv_but_weaken. tauto. }
  assert (Hh : cancel_handles (remove_handle d txid) = delete txid (cancel_handles d)).
  { unfold remove_handle. destruct (cancel_handles d !! txid) as [[[n g] o]|] eqn:Hk; [done|]. by rewrite delete_id. }
  split.
  - intros id v. rewrite Hh, lookup_delete_Some. naive_solver.
  - unfold remove_handle. by repeat case_match.
  - unfold remove_handle. destruct (cancel_handles d !! txid) as [[[n g] o]|]; [|done]. by apply (cancel_task_fmap task_id).
  - intros t Ht Heq. destruct (cancelled t) eqn:Hc; [done|]. pose proof (i_live _ _ Hi' t Ht Hc) as Hl.
    by rewrite Hh, Heq, lookup_delete_eq in Hl.
  - intros t Ht Hc Hne. unfold remove_handle. destruct (cancel_handles d !! txid) as [[[n g] o]|] eqn:Hk; [|done]. cbn.
    apply elem_of_cancel_task. exists t. split; [done|]. destruct (Nat.eqb_spec (number t) n) as [<-|]; [|done].
    destruct Hne. by apply (i_unique _ _ Hi _ _ _ _ _ _ _ (i_live _ _ Hi t Ht Hc) Hk).
Qed.

Lemma remove_all_without l : forall d, inv d -> without d (foldl remove_handle d l) (fun id => id ∈ l).
Proof.
  induction l as [|id l IH]; intros d Hi; cbn [foldl].
  - split; try done; [|by intros t _ ?%elem_of_nil]. intros txid v. split; [|tauto]. intros H. split; [done|]. by intros ?%elem_of_nil.
  - pose proof (remove_handle_without d id Hi) as [Hh Hres Hrun Hst Hlv].
    assert (Hi' : inv (remove_handle d id)).
    { apply (remove_handle_inv _ d id) in Hi. revert Hi. apply inv_but_weaken. tauto. }
    destruct (IH _ Hi') as [Hh' Hres' Hrun' Hst' Hlv'].
    assert (Hh2 : forall txid v, cancel_handles (foldl remove_handle (remove_handle d id) l) !! txid = Some v <->
      cancel_handles d !! txid = Some v /\ txid ∉ id :: l).
    { intros txid v. rewrite Hh', Hh, not_elem_of_cons. tauto. }
    assert (Hi2 : inv (foldl remove_handle (remove_handle d id) l)).
    { clear -Hi'. revert Hi'. generalize (remove_handle d id). induction l as [|x l IH]; intros d' Hi; [done|]. cbn. apply IH.
      apply (remove_handle_inv _ d' x) in Hi. revert Hi. apply inv_but_weaken. tauto. }
    split; [done|congruence|congruence|..].
    + intros t Ht Hin. destruct (cancelled t) eqn:Hc; [done|]. by apply (i_live _ _ Hi2 t Ht), Hh2 in Hc as [_ []].
    + intros t Ht Hc Hnin. apply not_elem_of_cons in Hnin as [Hne Hnin]. apply Hlv'; [by apply Hlv|done|done].
Qed.

(** Cancelling stops the tasks of the mined ids, and no other. *)
Lemma cancel_without `{HO : HashOrder} d mined :
  inv d -> without d (cancel d mined) (fun id => mined_id id ∈ mined).
Proof.
  intros Hi. unfold cancel. set (l := filter _ _).
  assert (Hl : forall id, id ∈ l <-> mined_id id ∈ mined /\ is_Some (cancel_handles d !! id)).
  { intros id. unfold l. by rewrite list_elem_of_filter, elem_of_hash_iter, elem_of_dom. }
  assert (Hi' : inv (foldl remove_handle d l)).
  { pose proof (cancel_inv d mined Hi) as Hc. exact Hc. }
  destruct (remove_all_without l d Hi) as [Hh Hres Hrun Hst Hlv].
  assert (Hh' : forall txid v, cancel_handles (foldl remove_handle d l) !! txid = Some v <->
    cancel_handles d !! txid = Some v /\ mined_id txid ∉ mined).
  { intros txid v. rewrite Hh, Hl. split; [|tauto]. intros [Hv Hn]. split; [done|]. intros Hm. apply Hn. split; [done|]. by eexists. }
  split; [done|done|done|..].
  - intros t Ht Hin. destruct (cancelled t) eqn:Hc; [done|]. by apply (i_live _ _ Hi' t Ht), Hh' in Hc as [_ []].
  - intros t Ht Hc Hn. apply Hlv; [done|done|]. rewrite Hl. tauto.
Qed.

(** What a task relies on: the verifier returns the transaction it was given, and
    the height of the tip is below the maximum. *)
Record answers_ok (a : Answers) : Prop := {
  a_verifier : forall tx height v spent, verifier a tx height = inr (v, spent) -> unmined_id v = u_id tx;
  a_tip : forall height, tip a = Some (Some height) -> Height.valid height /\ height < Height.MAX;
}.

Lemma download_and_verify_id g o retried max a :
  answers_ok a ->
  match download_and_verify g o retried max a with
  | Ok (tx, _, _) => unmined_id tx = gossip_id g
  | Err _ => True
  | Panic => False
  end.
Proof.
  intros [Hv Ht]. unfold download_and_verify.
  assert (Hsize : forall tx, check_transaction_size tx max <> Panic) by (intros tx; unfold check_transaction_size; by case_match).
  assert (Hfirst : match g with Tx tx => check_transaction_size tx max | Id _ => Ok () end <> Panic) by (by destruct g).
  destruct (match g with Tx _ => _ | Id _ => _ end) as [[]|e|]; cbn [res_bind]; [|done|done].
  destruct (transaction_in_best_chain _) as [[]|e|] eqn:Hbc; cbn [res_bind]; [|done|by destruct (in_best_chain a) as [[]|]].
  assert (Hrest : forall tip_height next_height,
    match
      (let? (tx, advertiser_addr) := get_transaction g o max (downloaded a) in
       if match advertiser_addr with Some addr => is_cooling_down a addr | None => false end then Err PeerCoolingDown
       else
         match verifier a tx next_height with
         | inr (transaction, spent_mempool_outpoints) => Ok (transaction, spent_mempool_outpoints, tip_height)
         | inl StateUnavailable => Err StateError
         | inl error =>
             Err (Invalid error advertiser_addr tip_height (version (u_transaction tx)) (network_upgrade (u_transaction tx)) retried)
         end)
    with
    | Ok (tx, _, _) => unmined_id tx = gossip_id g
    | Err _ => True
    | Panic => False
    end).
  { intros th nh. assert (Hget : match get_transaction g o max (downloaded a) with
      | Ok (tx, _) => u_id tx = gossip_id g | Err _ => True | Panic => False end).
    { unfold get_transaction. destruct g as [txid|tx]; [|done]. destruct (downloaded a) as [[tx addr]|]; [|done].
      case_bool_decide; [|done]. specialize (Hsize tx). by destruct (check_transaction_size tx max). }
    destruct (get_transaction g o max (downloaded a)) as [[tx addr]|e|]; cbn [res_bind]; [|done|done].
    destruct (match addr with Some _ => _ | None => _ end); [done|].
    destruct (verifier a tx nh) as [e|[v spent]] eqn:Hver; [by destruct e|]. by rewrite (Hv tx nh v spent Hver). }
  destruct (tip a) as [[height|]|] eqn:Htip; [|apply Hrest|done].
  destruct (Ht height eq_refl) as [Hvalid Hmax]. rewrite (Height.next_valid height Hvalid Hmax). apply Hrest.
Qed.

Lemma finish_spec {E} d i answers :
  inv d -> (forall a, answers = Some a -> answers_ok a) ->
  exists d', finish (E := E) d i answers = Ok d' /\ inv d' /\ in_flight d' = in_flight d.
Proof.
  intros Hi Ha. unfold finish. destruct (running d !! i) as [t|] eqn:Ht; [|by exists d].
  assert (Hres : exists r, task_result (E := E) d t answers = Ok r /\ result_id r = task_id t).
  { unfold task_result. destruct (cancelled t); [by eexists|]. destruct answers as [a|]; [|by eexists].
    pose proof (download_and_verify_id (gossip t) (source t) (retried t) (max_transaction_bytes d) a (Ha a eq_refl)) as Hid.
    destruct (download_and_verify _ _ _ _ a) as [[[tx spent] th]|e|]; [by eexists|by eexists|done]. }
  destruct Hres as (r & -> & Hid). cbn [res_bind]. eexists. split; [done|]. split; [|done].
  destruct Hi as [Hf Hm Hc Hp Hh [Hn Hnum] Hl Hu]. pose proof (delete_Permutation _ _ _ Ht) as Hperm.
  split; cbn [running results in_flight cancel_handles pending_per_peer spawned]; try done.
  - rewrite Hf, (Permutation_length Hperm), length_app. cbn. lia.
  - intros txid n g o Hk. destruct (Hh txid n g o Hk) as (? & ? & Hin). split; [done|]. split; [done|].
    rewrite fmap_app, elem_of_app. rewrite (fmap_Permutation task_id _ _ Hperm) in Hin. cbn [fmap list_fmap] in Hin |- *.
    rewrite elem_of_cons in Hin. rewrite list_elem_of_singleton, Hid. tauto.
  - rewrite (fmap_Permutation number _ _ Hperm) in Hn. rewrite Hperm in Hnum.
    apply NoDup_cons in Hn as [_ Hn]. inversion Hnum; subst. done.
  - intros t' Ht'. apply Hl. rewrite Hperm. by right.
Qed.

Lemma cancel_all_inv d : inv (cancel_all d).
Proof. split; cbn; try done; [split; constructor|by intros t ?%elem_of_nil]. Qed.

(** ** Bounds *)

(** The tasks of a peer that are not cancelled. *)
Definition live_of d s : list Task := filter (fun t => cancelled t = false /\ source t = Some s) (running d).

Lemma NoDup_live d s : inv d -> NoDup (task_id <$> live_of d s).
Proof.
  intros Hi. destruct Hi as [_ _ _ _ _ [Hn _] Hl _].
  assert (Hnd : NoDup (live_of d s)) by (apply NoDup_filter; by apply (NoDup_fmap_1 number)).
  apply NoDup_fmap_2_strong; [|done]. intros t t' [[Hc _] Ht]%list_elem_of_filter [[Hc' _] Ht']%list_elem_of_filter Heq.
  pose proof (Hl t Ht Hc) as H1. rewrite Heq, (Hl t' Ht' Hc') in H1. injection H1 as H1 _ _.
  apply list_elem_of_lookup in Ht as [i Hi], Ht' as [j Hj].
  assert (i = j) as ->; [|congruence]. apply (NoDup_lookup (number <$> running d) i j (number t)); [done|..];
    rewrite list_lookup_fmap, ?Hi, ?Hj; cbn; congruence.
Qed.

Lemma live_slots d s : inv d -> Z.of_nat (length (live_of d s)) <= slots (cancel_handles d) s.
Proof.
  intros Hi. unfold slots. rewrite <- size_dom, <- (length_fmap task_id), <- (size_list_to_set (C := gset _) _ (NoDup_live d s Hi)).
  apply inj_le, subseteq_size. intros txid. rewrite elem_of_list_to_set, list_elem_of_fmap.
  intros (t & -> & [[Hc Hs] Ht]%list_elem_of_filter). apply elem_of_dom. eexists. apply map_lookup_filter_Some.
  split; [by apply (i_live _ _ Hi)|done].
Qed.

Lemma handles_flight d : inv d -> Z.of_nat (size (cancel_handles d)) <= in_flight d.
Proof.
  intros Hi. rewrite (i_flight _ _ Hi), <- size_dom, <- (length_fmap task_id), <- (length_fmap result_id (results d)), <- length_app.
  apply inj_le. transitivity (size (list_to_set ((task_id <$> running d) ++ (result_id <$> results d)) : gset UnminedTxId)).
  - apply subseteq_size. intros txid. rewrite elem_of_dom, elem_of_list_to_set, elem_of_app. intros [[[n g] o] Hk].
    destruct (i_handles _ _ Hi txid n g o Hk) as (_ & _ & Hin). tauto.
  - apply size_list_to_set_le.
Qed.

(** The states of the queue, by any order of requests, task completions and
    polls. *)
Inductive reachable `{HO : HashOrder} : Downloads -> Prop :=
| reach_new max : reachable (new max)
| reach_queue d g o retried d' : reachable d -> queue d g o retried = Ok d' -> reachable d'
| reach_finish d i answers d' :
    reachable d -> (forall a, answers = Some a -> answers_ok a) -> finish (E := unit) d i answers = Ok d' -> reachable d'
| reach_poll d d' r : reachable d -> poll_next (E := unit) d = Ok (d', r) -> reachable d'
| reach_cancel d mined : reachable d -> reachable (cancel d mined)
| reach_cancel_all d : reachable d -> reachable (cancel_all d).

Lemma queue_reachable_inv `{HO : HashOrder} d : reachable d -> inv d.
Proof.
  induction 1 as [max|d g o retried d' _ IH Hq|d i answers d' _ IH Ha Hf|d d' r _ IH Hp|d mined _ IH|d _ IH].
  - apply new_inv.
  - pose proof (queue_spec d g o retried IH) as Hs. rewrite Hq in Hs. apply Hs.
  - destruct (finish_spec (E := unit) d i answers IH Ha) as (d1 & Hd & Hi & _). congruence.
  - destruct (poll_next_spec (E := unit) d IH) as (d1 & Hd & Hi & _). congruence.
  - by apply cancel_inv.
  - apply cancel_all_inv.
Qed.

(** A request is accepted when its id has no handle, fewer than 500 tasks and results
    are in flight and its peer has a slot; it starts one task. *)
Lemma queue_accepts d g o retried :
  inv d ->
  match queue d g o retried with
  | Ok d' =>
      cancel_handles d !! gossip_id g = None /\ in_flight d < MAX_INBOUND_CONCURRENCY /\
      (forall s, o = Some s -> slots (cancel_handles d) s < MAX_INBOUND_CONCURRENCY_PER_PEER) /\
      running d' = running d ++ [mkTask (spawned d) g o retried false] /\ results d' = results d /\
      cancel_handles d' = <[gossip_id g := (spawned d, g, o)]> (cancel_handles d)
  | Err e =>
      (e = Storage.AlreadyQueued /\ is_Some (cancel_handles d !! gossip_id g)) \/
      (e = Storage.FullQueue /\
       (in_flight d = MAX_INBOUND_CONCURRENCY \/
        exists s, o = Some s /\ slots (cancel_handles d) s = MAX_INBOUND_CONCURRENCY_PER_PEER))
  | Panic => False
  end.
Proof.
  intros Hi. pose proof (queue_spec d g o retried Hi) as Hq. revert Hq. unfold queue.
  assert (Hslot : forall s, default 0 (pending_per_peer d !! s) = slots (cancel_handles d) s).
  { intros s. rewrite (i_peers _ _ Hi s). case_decide as Hz; cbn; [by rewrite Hz|done]. }
  case_bool_decide as Hk; [intros _; by left|]. rewrite <- eq_None_not_Some in Hk.
  destruct (Z.leb_spec MAX_INBOUND_CONCURRENCY (in_flight d)) as [Hfull|Hroom].
  { intros _. right. split; [done|]. left. pose proof (i_max _ _ Hi). lia. }
  destruct (match o with Some _ => _ | None => false end) eqn:Hpeer.
  { intros _. right. split; [done|]. right. destruct o as [s|]; [|done]. exists s. split; [done|].
    rewrite Hslot in Hpeer. apply Z.leb_le in Hpeer. pose proof (i_cap _ _ Hi s). lia. }
  assert (Hpeer' : forall s, o = Some s -> slots (cancel_handles d) s < MAX_INBOUND_CONCURRENCY_PER_PEER).
  { intros s ->. rewrite Hslot in Hpeer. by apply Z.leb_gt in Hpeer. }
  destruct (uint_arith 64 (in_flight d + 1)) as [n|e|] eqn:Hn; cbn [res_bind]; [|by unfold uint_arith in Hn; case_match|done].
  match goal with |- context [let? pp := ?c in _] => destruct c as [pp|e|] eqn:Hpp end; cbn [res_bind];
    [|by destruct o; [unfold uint_arith in Hpp; case_match|]|done].
  rewrite bool_decide_true by done. cbn [rust_assert res_bind]. intros _.
  repeat (split; [done|]). done.
Qed.

(** Polling hands out the oldest result, and releases its handle and its peer's slot. *)
Lemma poll_releases {E} d :
  inv d ->
  match results d with
  | [] => poll_next (E := E) d = Ok (d, None)
  | r :: rest => exists d', poll_next (E := E) d = Ok (d', Some r) /\ inv d' /\ results d' = rest /\
      in_flight d' = in_flight d - 1 /\ task_id <$> running d' = task_id <$> running d /\
      cancel_handles d' = delete (result_id r) (cancel_handles d)
  end.
Proof.
  intros Hi. destruct (poll_next_spec (E := E) d Hi) as (d' & Hp & Hi' & Hres). destruct (results d) as [|r rest] eqn:Hr.
  { unfold poll_next in Hp |- *. by rewrite Hr in Hp |- *. }
  exists d'. split; [done|]. split; [done|]. split; [done|]. revert Hp. unfold poll_next. rewrite Hr.
  destruct (Z.leb_spec 1 (in_flight d)); cbn [expect res_bind]; [|done]. unfold remove_handle. cbn.
  destruct (cancel_handles d !! result_id r) as [[[n g] o]|] eqn:Hk; intros [= <-]; cbn.
  - split; [done|]. split; [|done]. by apply (cancel_task_fmap task_id).
  - split; [done|]. split; [done|]. by rewrite delete_id.
Qed.

(** C36: the download queue keeps its limits and its books, in every state that requests,
    completions, polls and cancellations can reach.  The counter [in_flight] is the
    number of running tasks and waiting results, at most 500; the counter of a peer is
    the number of its handles, at most five, and it has at most that many tasks that are
    not cancelled.  A request is refused as already queued exactly when its id has a
    handle, and as a full queue exactly when 500 are in flight or its peer has five
    handles; otherwise it starts one task with a handle.  A poll returns the oldest
    result, takes one from [in_flight] and releases the handle of the result; when
    nothing runs or waits, no handle and no peer slot is left.  None of these steps
    panics, nor does a task that finishes, as long as the verifier returns the
    transaction it was given and the tip is below the maximum height. *)
Theorem downloads_bounded `{HO : HashOrder} d :
  reachable d ->
  in_flight d = Z.of_nat (length (running d) + length (results d)) /\ in_flight d <= MAX_INBOUND_CONCURRENCY /\
  (forall s, default 0 (pending_per_peer d !! s) = slots (cancel_handles d) s /\
     slots (cancel_handles d) s <= MAX_INBOUND_CONCURRENCY_PER_PEER /\
     Z.of_nat (length (live_of d s)) <= slots (cancel_handles d) s) /\
  Z.of_nat (size (cancel_handles d)) <= in_flight d /\
  (running d = [] -> results d = [] -> cancel_handles d = ∅ /\ pending_per_peer d = ∅) /\
  (forall g o retried,
     match queue d g o retried with
     | Ok d' =>
         cancel_handles d !! gossip_id g = None /\ in_flight d < MAX_INBOUND_CONCURRENCY /\
         (forall s, o = Some s -> slots (cancel_handles d) s < MAX_INBOUND_CONCURRENCY_PER_PEER) /\
         running d' = running d ++ [mkTask (spawned d) g o retried false] /\ results d' = results d /\
         cancel_handles d' = <[gossip_id g := (spawned d, g, o)]> (cancel_handles d)
     | Err e =>
         (e = Storage.AlreadyQueued /\ is_Some (cancel_handles d !! gossip_id g)) \/
         (e = Storage.FullQueue /\
          (in_flight d = MAX_INBOUND_CONCURRENCY \/
           exists s, o = Some s /\ slots (cancel_handles d) s = MAX_INBOUND_CONCURRENCY_PER_PEER))
     | Panic => False
     end) /\
  match results d with
  | [] => poll_next (E := unit) d = Ok (d, None)
  | r :: rest => exists d', poll_next (E := unit) d = Ok (d', Some r) /\ inv d' /\ results d' = rest /\
      in_flight d' = in_flight d - 1 /\ task_id <$> running d' = task_id <$> running d /\
      cancel_handles d' = delete (result_id r) (cancel_handles d)
  end /\
  (forall i answers, (forall a, answers = Some a -> answers_ok a) -> finish (E := unit) d i answers <> Panic).
Proof.
  intros Hi%queue_reachable_inv. pose proof (handles_flight d Hi) as Hh.
  split; [apply Hi|]. split; [apply Hi|]. split.
  { intros s. split; [|split; [apply Hi|by apply live_slots]]. rewrite (i_peers _ _ Hi). case_decide as Hz; cbn; [by rewrite Hz|done]. }
  split; [done|]. split.
  { intros Hr Hs. rewrite (i_flight _ _ Hi), Hr, Hs in Hh. cbn in Hh.
    assert (He : cancel_handles d = ∅) by (apply map_size_empty_inv; lia).
    split; [done|]. apply map_eq. intros s. rewrite (i_peers _ _ Hi), He, slots_empty, lookup_empty. done. }
  split; [intros; by apply queue_accepts|]. split; [by apply poll_releases|].
  intros i answers Ha. by destruct (finish_spec (E := unit) d i answers Hi Ha) as (? & -> & _).
Qed.

(** One transaction that a peer advertised. *)
Definition one_queued : Downloads :=
  match queue (new 250000) (Id (Legacy 1)) (Some (Zakura [7])) false with Ok d => d | _ => new 250000 end.

Lemma downloads_bounded_witness :
  length (live_of one_queued (Zakura [7])) = 1%nat /\ in_flight one_queued = 1 /\
  slots (cancel_handles one_queued) (Zakura [7]) <= MAX_INBOUND_CONCURRENCY_PER_PEER /\
  Z.of_nat (length (live_of one_queued (Zakura [7]))) <= slots (cancel_handles one_queued) (Zakura [7]) /\
  Z.of_nat (size (cancel_handles one_queued)) <= in_flight one_queued.
Proof.
  destruct (downloads_bounded (HO := elements_order) one_queued) as (_ & _ & Hlive & Hh & _).
  { apply (reach_queue (new 250000) (Id (Legacy 1)) (Some (Zakura [7])) false); [apply reach_new|]. vm_compute. reflexivity. }
  split; [vm_compute; reflexivity|]. split; [vm_compute; reflexivity|].
  split; [apply (Hlive (Zakura [7]))|]. split; [apply (Hlive (Zakura [7]))|exact Hh].
Defined.
End Downloads.
