(* ===== verification/Mempool.v ===== *)
(** * The mempool service

    [zakurad/src/components/mempool.rs]: the service that owns the storage, the
    download queue and the ids to gossip, turns itself on near the network tip,
    and moves verified transactions into the storage each time it is polled.

    What the service reads of the node (the sync status, the chain tip, the
    clocks) is an argument of each operation, read where the code reads it.
    Tasks can finish at any time: [drains] has the completions before each
    result that a poll takes.  What it sends (changes to its listeners, requests
    about peers) is returned.  The oneshot channels that tell a caller how its
    transaction fared are left out. *)

From stdpp Require Import base numbers list option gmap sets.
From Stdlib Require Import ZArith Lia.
From S2P Require Import Prelude Height BTree Network BSet PeerCooldown HashIter Dependencies MempoolTx VerifiedSet Standard PeerPolicy Storage Downloads.
Local Open Scope Z_scope.

Module Mempool.
Import MempoolTx.
Notation Downloads := Downloads.Downloads.
Notation Storage := Storage.Storage.
#[local] Existing Instances PeerCooldown.IpAddr_eq_dec PeerCooldown.IpAddr_countable.

(** ** The chain tip *)

(** [ChainTipBlock] and [TipAction] ([zakura-state/src/service/chain_tip.rs]) *)
Record ChainTipBlock := mkBlock {
  block_hash : Z;
  block_height : Z;
  transactions : list Transaction;
  transaction_hashes : list Hash;
}.

Inductive TipAction := Grow (block : ChainTipBlock) | Reset (height : Z) (hash : Z).

Definition best_tip_hash_and_height (self : TipAction) : Z * Z :=
  match self with Grow block => (block_hash block, block_height block) | Reset height hash => (hash, height) end.

Definition MAX_ESTIMATED_DISTANCE_TO_ENABLE : Z := 100.
Definition MAX_BLOCK_REORG_HEIGHT : Z := 1000.

(** What a read of the sync status and of the chain tip returns. *)
Record View := mkView {
  is_close_to_tip : bool;
  best_tip_height : option Z;
  estimated_distance : option Z;
}.

Definition is_estimated_close_to_network_tip (network : Network.Network) (v : View) : bool :=
  if Network.is_a_test_network network then bool_decide (is_Some (best_tip_height v))
  else match estimated_distance v with Some distance => distance <=? MAX_ESTIMATED_DISTANCE_TO_ENABLE | None => false end.

(** ** The state *)

Inductive ActiveState :=
| Disabled
| Enabled (storage : Storage) (tx_downloads : Downloads) (pending_gossip_tx_ids : gset UnminedTxId)
    (last_seen_tip_hash : Z).

Record Mempool := mkMempool {
  config : Storage.Config;
  config_max_transaction_bytes : Z;
  network : Network.Network;
  debug_enable_at_height : option Z;
  zcashd_compat_peer_ips : gset PeerCooldown.IpAddr;
  active_state : ActiveState;
  peer_cooldowns : PeerCooldown.CooldownState;
}.

Definition with_state (self : Mempool) (s : ActiveState) : Mempool :=
  mkMempool (config self) (config_max_transaction_bytes self) (network self) (debug_enable_at_height self)
    (zcashd_compat_peer_ips self) s (peer_cooldowns self).

Definition with_cooldowns (self : Mempool) (c : PeerCooldown.CooldownState) : Mempool :=
  mkMempool (config self) (config_max_transaction_bytes self) (network self) (debug_enable_at_height self)
    (zcashd_compat_peer_ips self) (active_state self) c.

Inductive MempoolChange :=
| Added (tx_ids : gset UnminedTxId)
| Invalidated (tx_ids : gset UnminedTxId)
| MinedChange (tx_ids : gset UnminedTxId).

(** ** Turning on and off *)

Definition is_enabled (self : Mempool) : bool :=
  match active_state self with Disabled => false | Enabled _ _ _ _ => true end.

Definition is_enabled_by_debug (self : Mempool) (v : View) : bool :=
  match debug_enable_at_height self with
  | None => false
  | Some enable_at_height =>
      match best_tip_height v with Some best_tip_height => enable_at_height <=? best_tip_height | None => false end
  end.

Definition is_current_enough_for_mempool (self : Mempool) (v : View) : bool :=
  is_close_to_tip v && is_estimated_close_to_network_tip (network self) v.

Definition is_caught_up_to_start (self : Mempool) (v : View) : bool :=
  is_enabled_by_debug self v || is_current_enough_for_mempool self v.

Definition is_far_enough_to_disable (self : Mempool) (v : View) : bool :=
  negb (is_enabled_by_debug self v) && negb (Network.is_a_test_network (network self)) &&
  match estimated_distance v with None => true | Some distance => MAX_BLOCK_REORG_HEIGHT <? distance end.

Definition enable_at_tip {E} (self : Mempool) (tip_action : TipAction) : res E Mempool :=
  let '(last_seen_tip_hash, _) := best_tip_hash_and_height tip_action in
  let tx_downloads := Downloads.new (config_max_transaction_bytes self) in
  let? storage := Storage.new (config self) in
  Ok (with_state self (Enabled storage tx_downloads ∅ last_seen_tip_hash)).

(** [update_state]: whether the state changed, and the ids sent as invalidated *)
Definition update_state {E} (self : Mempool) (tip_action : option TipAction) (is_caught_up_to_start : bool) (v : View)
  : res E (Mempool * list MempoolChange * bool) :=
  match is_caught_up_to_start, is_far_enough_to_disable self v, is_enabled self, tip_action with
  | false, _, false, _ | true, _, true, _ | true, _, false, None => Ok (self, [], false)
  | true, _, false, Some tip_action => let? self := enable_at_tip self tip_action in Ok (self, [], true)
  | false, true, true, _ =>
      let invalidated_ids := match active_state self with Enabled storage _ _ _ => Storage.tx_ids storage | Disabled => ∅ end in
      Ok (with_state self Disabled, if decide (invalidated_ids = ∅) then [] else [Invalidated invalidated_ids], true)
  | false, false, true, _ => Ok (self, [], false)
  end.

(** [Mempool::new]; the two views are the ones [update_state] is called with and takes *)
Definition new {E} (config : Storage.Config) (max_transaction_bytes : Z) (network : Network.Network)
  (debug_enable_at_height : option Z) (zcashd_compat_peer_ips : list PeerCooldown.IpAddr) (start disable : View)
  : res E Mempool :=
  let self :=
    mkMempool config max_transaction_bytes network debug_enable_at_height
      (list_to_set (PeerCooldown.to_canonical <$> zcashd_compat_peer_ips)) Disabled PeerCooldown.default_state in
  let? (self, _, _) := update_state self None (is_caught_up_to_start self start) disable in
  Ok self.

Section Mempool.
Context {HO : HashOrder} {ZS : Standard.ZcashScript} (clock : nat -> Z).

(** ** Polling *)

Definition transaction_retry_requests (self : ActiveState) : list (Downloads.Gossip * option Downloads.QueueSource) :=
  match self with
  | Disabled => []
  | Enabled storage tx_downloads _ _ =>
      omap (fun tx_id =>
        (fun tx => (Downloads.Tx (to_unmined tx), None)) <$> VerifiedSet.transactions (Storage.verified storage) !! tx_id)
        (hash_iter (dom (VerifiedSet.transactions (Storage.verified storage)))) ++
      Downloads.transaction_requests tx_downloads
  end.

(** Queueing whose error is ignored. *)
Definition try_queue {E} (self : Downloads) (queued : res Storage.MempoolError Downloads) : res E Downloads :=
  match queued with Ok self => Ok self | Err _ => Ok self | Panic => Panic end.

Fixpoint retry_all {E} (self : Downloads) (l : list (Downloads.Gossip * option Downloads.QueueSource)) : res E Downloads :=
  match l with
  | [] => Ok self
  | (tx, source) :: l =>
      let? self := try_queue self (Downloads.retry_after_tip_reset self tx source) in retry_all self l
  end.

(** What one poll has gathered so far. *)
Record Pass := mkPass {
  storage : Storage;
  tx_downloads : Downloads;
  cooldowns : PeerCooldown.CooldownState;
  requests : list PeerPolicy.PeerRequest;
  send_to_peers_ids : gset UnminedTxId;
  invalidated_ids : gset UnminedTxId;
}.

(** What a poll reads once. *)
Record Tip := mkTip {
  tip_height : option Z;
  tip_upgrade : Network.NetworkUpgrade;
  grace_period_upgrade : option Network.NetworkUpgrade;
  is_current_enough : bool;
  compat_peer_ips : gset PeerCooldown.IpAddr;
}.

(** A verified transaction. *)
Definition store_verified {E} (t : Tip) (p : Pass) (tx : VerifiedUnminedTx) (spent_mempool_outpoints : list OutPoint)
  (expected_tip_height : option Z) (now : Z) : res E Pass :=
  if bool_decide (tip_height t = expected_tip_height) then
    let tx_id := unmined_id tx in
    let? (storage, insert_result, evicted_ids) :=
      Storage.insert_with_evicted_ids clock (storage p) tx spent_mempool_outpoints (tip_height t) now in
    let '(send, invalid) :=
      match insert_result with
      | inr inserted_id => ({[inserted_id]} ∪ send_to_peers_ids p, invalidated_ids p)
      | inl _ => (send_to_peers_ids p, {[tx_id]} ∪ invalidated_ids p)
      end in
    let '(send, invalid) :=
      if decide (evicted_ids = ∅) then (send, invalid) else (send ∖ evicted_ids, invalid ∪ evicted_ids) in
    Ok (mkPass storage (tx_downloads p) (cooldowns p) (requests p) send invalid)
  else
    let? d := try_queue (tx_downloads p)
                (Downloads.download_if_needed_and_verify (tx_downloads p) (Downloads.Tx (to_unmined tx)) None) in
    Ok (mkPass (storage p) d (cooldowns p) (requests p) (send_to_peers_ids p) (invalidated_ids p)).

(** A failed one: the peer that relayed it is banned, or put in a cooldown. *)
Definition reject_failed {E} (t : Tip) (p : Pass) (tx_id : UnminedTxId) (error : PeerPolicy.TransactionDownloadVerifyError)
  (now : Z) : res E Pass :=
  let not_compat (peer : option PeerPolicy.SocketAddr) :=
    peer ≫= fun peer => if PeerPolicy.is_zcashd_compat_peer (compat_peer_ips t) peer then None else Some peer in
  let bans :=
    match not_compat (PeerPolicy.transaction_ban_peer error) with
    | Some peer => [PeerPolicy.Misbehavior peer PeerPolicy.MAX_PEER_MISBEHAVIOR_SCORE]
    | None => []
    end in
  let cooldown_peer :=
    if is_current_enough t then
      not_compat (PeerPolicy.transaction_cooldown_peer error (tip_height t) (tip_upgrade t) (grace_period_upgrade t))
    else None in
  let '(cooldowns, disconnects) :=
    match cooldown_peer with
    | Some peer => PeerPolicy.start_peer_cooldown (cooldowns p) peer now
    | None => (cooldowns p, [])
    end in
  let? storage := Storage.reject_if_needed clock (storage p) tx_id error in
  Ok (mkPass storage (tx_downloads p) cooldowns (requests p ++ bans ++ disconnects) (send_to_peers_ids p)
        ({[tx_id]} ∪ invalidated_ids p)).

Definition process {E} (t : Tip) (p : Pass) (result : Downloads.TaskResult) (now utc_now : Z) : res E Pass :=
  match result with
  | Downloads.Verified tx spent_mempool_outpoints expected_tip_height =>
      store_verified t p tx spent_mempool_outpoints expected_tip_height utc_now
  | Downloads.Failed error tx_id => reject_failed t p tx_id error now
  | Downloads.Elapsed tx_id =>
      Ok (mkPass (storage p) (tx_downloads p) (cooldowns p) (requests p) (send_to_peers_ids p)
            ({[tx_id]} ∪ invalidated_ids p))
  end.

(** The tasks that finish before a result is taken, and the clocks. *)
Record Drain := mkDrain {
  finishing : list (nat * option Downloads.Answers);
  now : Z;
  utc_now : Z;
}.

Fixpoint finish_all {E} (self : Downloads) (l : list (nat * option Downloads.Answers)) : res E Downloads :=
  match l with
  | [] => Ok self
  | (i, answers) :: l => let? self := Downloads.finish self i answers in finish_all self l
  end.

Definition with_downloads (p : Pass) (d : Downloads) : Pass :=
  mkPass (storage p) d (cooldowns p) (requests p) (send_to_peers_ids p) (invalidated_ids p).

(** The [while let] loop: it ends when no result is ready, or when the budget of
    the task is used up. *)
Fixpoint drain {E} (t : Tip) (p : Pass) (drains : list Drain) : res E Pass :=
  match drains with
  | [] => Ok p
  | e :: drains =>
      let? d := finish_all (tx_downloads p) (finishing e) in
      let? (d, result) := Downloads.poll_next d in
      let p := with_downloads p d in
      match result with
      | None => Ok p
      | Some result => let? p := process t p result (now e) (utc_now e) in drain t p drains
      end
  end.

(** The best chain grew by [block]; the mined ids are returned. *)
Definition grow {E} (p : Pass) (block : ChainTipBlock) : res E (Pass * gset UnminedTxId) :=
  let mined_ids : gset Hash := list_to_set (transaction_hashes block) in
  let d := Downloads.cancel (tx_downloads p) mined_ids in
  let? st := Storage.clear_mined_dependencies (storage p) mined_ids in
  let? (st, removed) := Storage.reject_and_remove_same_effects clock st mined_ids (transactions block) in
  let? st := Storage.clear_tip_rejections clock st in
  let? (st, expired_transactions) := Storage.remove_expired_transactions clock st (block_height block) in
  Ok (mkPass st d (cooldowns p) (requests p) (send_to_peers_ids p ∖ expired_transactions)
        (invalidated_ids p ∪ Storage.invalidated removed ∪ expired_transactions), Storage.mined removed).

(** The end of [poll_ready]: the changes sent, and whether all could be sent.
    [listeners] tells whether the channel has receivers. *)
Definition announce (listeners : bool) (pending_gossip_tx_ids send_to_peers_ids invalidated_ids mined_mempool_ids : gset UnminedTxId)
  : gset UnminedTxId * list MempoolChange * bool :=
  let pending := if decide (send_to_peers_ids = ∅) then pending_gossip_tx_ids else pending_gossip_tx_ids ∪ send_to_peers_ids in
  if negb (bool_decide (send_to_peers_ids = ∅)) && negb listeners then (pending, [], false)
  else
    let added := if decide (send_to_peers_ids = ∅) then [] else [Added send_to_peers_ids] in
    let pending :=
      if negb (bool_decide (invalidated_ids = ∅)) || negb (bool_decide (mined_mempool_ids = ∅))
      then pending ∖ invalidated_ids ∖ mined_mempool_ids else pending in
    if negb (bool_decide (invalidated_ids = ∅)) && negb listeners then (pending, added, false)
    else
      let invalidated := if decide (invalidated_ids = ∅) then [] else [Invalidated invalidated_ids] in
      if negb (bool_decide (mined_mempool_ids = ∅)) && negb listeners then (pending, added ++ invalidated, false)
      else
        let mined := if decide (mined_mempool_ids = ∅) then [] else [MinedChange mined_mempool_ids] in
        (pending, added ++ invalidated ++ mined, true).

(** What one poll reads: the views of the chain tip in the order they are taken,
    the tip change, the results, and whether there are listeners. *)
Record Poll := mkPoll {
  view_start : View;
  view_disable : View;
  view_drain : View;
  tip_change : option TipAction;
  drains : list Drain;
  listeners : bool;
}.

(** The mempool, what it sent, and whether [poll_ready] succeeded. *)
Definition Polled : Type := Mempool * list MempoolChange * list PeerPolicy.PeerRequest * bool.

(** The reset of an enabled mempool. *)
Definition reset {E} (self : Mempool) (tip_action : TipAction) : res E Mempool :=
  let tx_retries := transaction_retry_requests (active_state self) in
  let? self := enable_at_tip self tip_action in
  match active_state self with
  | Enabled storage tx_downloads pending_gossip_tx_ids last_seen_tip_hash =>
      let? tx_downloads := retry_all tx_downloads tx_retries in
      Ok (with_state self (Enabled storage tx_downloads pending_gossip_tx_ids last_seen_tip_hash))
  | Disabled => Ok self
  end.

Definition read_tip {E} (self : Mempool) (v : View) : res E Tip :=
  let? next_height :=
    (match best_tip_height v with
     | None => Ok 0
     | Some height => let? next := Height.add_diff height 1 in Ok (default 0 next)
     end) in
  let? tip_upgrade := Network.current (network self) next_height in
  let? grace_period_upgrade := PeerPolicy.upgrade_grace_period (network self) next_height in
  Ok (mkTip (best_tip_height v) tip_upgrade grace_period_upgrade (is_current_enough_for_mempool self v)
        (zcashd_compat_peer_ips self)).

(** The part of [poll_ready] that an enabled mempool does without a reset. *)
Definition poll_enabled {E} (self : Mempool) (e : Poll) (tip_action : option TipAction) : res E Polled :=
  match active_state self with
  | Disabled => Ok (self, [], [], true)
  | Enabled st d pending_gossip_tx_ids last_seen_tip_hash =>
      let? t := read_tip self (view_drain e) in
      let? p := drain t (mkPass st d (peer_cooldowns self) [] ∅ ∅) (drains e) in
      let? (p, mined_mempool_ids) :=
        match tip_action with Some (Grow block) => grow p block | _ => Ok (p, ∅) end in
      let last_seen_tip_hash := match tip_action with Some (Grow block) => block_hash block | _ => last_seen_tip_hash end in
      let '(pending, changes, ready) :=
        announce (listeners e) pending_gossip_tx_ids (send_to_peers_ids p) (invalidated_ids p) mined_mempool_ids in
      Ok (with_cooldowns (with_state self (Enabled (storage p) (tx_downloads p) pending last_seen_tip_hash)) (cooldowns p),
          changes, requests p, ready)
  end.

Definition poll_ready {E} (self : Mempool) (e : Poll) : res E Polled :=
  let caught_up := is_caught_up_to_start self (view_start e) in
  let should_check_tip := is_enabled self || caught_up in
  let tip_action := if should_check_tip then tip_change e else None in
  let? (self, changes, is_state_changed) := update_state self tip_action caught_up (view_disable e) in
  if negb (is_enabled self) then Ok (self, changes, [], true)
  else
    match tip_action with
    | Some (Reset height hash) =>
        if is_state_changed then
          let? (self, more, requests, ready) := poll_enabled self e tip_action in
          Ok (self, changes ++ more, requests, ready)
        else
          let? self := reset self (Reset height hash) in Ok (self, changes, [], true)
    | _ =>
        let? (self, more, requests, ready) := poll_enabled self e tip_action in
        Ok (self, changes ++ more, requests, ready)
    end.

(** ** Requests *)

Inductive Request :=
| TransactionIds
| TakePendingGossipTransactionIds (limit : Z)
| TransactionsById (ids : gset UnminedTxId)
| TransactionsByMinedId (ids : gset Hash)
| AwaitOutput (outpoint : OutPoint)
| TransactionWithDepsByMinedId (tx_id : Hash)
| FullTransactions
| RejectedTransactionIds (ids : gset UnminedTxId)
| Queue (gossiped_txs : list Downloads.Gossip)
| QueueFromPeer (gossiped_txs : list Downloads.Gossip) (source : Downloads.QueueSource)
| CheckForVerifiedTransactions
| QueueStats
| UnspentOutput (outpoint : OutPoint).

Inductive CreatedOrSpent :=
| Created (output : Output) (tx_version : Z) (last_seen_hash : Z)
| Spent.

(** [RAwait] is a future that waits for the output. *)
Inductive Response :=
| RTransactionIds (ids : gset UnminedTxId)
| RTransactions (transactions : list UnminedTx)
| RUnspentOutput (output : Output)
| RAwait (outpoint : OutPoint)
| RTransactionWithDeps (transaction : VerifiedUnminedTx) (dependencies : gset Hash)
| RFullTransactions (transactions : gmap Hash VerifiedUnminedTx)
    (transaction_dependencies : Dependencies.TransactionDependencies) (last_seen_tip_hash : Z)
| RRejectedTransactionIds (ids : gset UnminedTxId)
| RQueued (results : list (option Storage.MempoolError))
| RCheckedForVerifiedTransactions
| RQueueStats (size bytes usage : Z)
| RTransparentOutput (output : option CreatedOrSpent).

Inductive RequestError := NotFound | PendingOutputsFull | MempoolDisabledError.

(** [Queue]: [None] is a transaction in the queue, or one whose cached size
    rejection is reported through its channel. *)
Fixpoint queue_all {E} (st : Storage) (d : Downloads) (l : list Downloads.Gossip)
  : res E (Storage * Downloads * list (option Storage.MempoolError)) :=
  match l with
  | [] => Ok (st, d, [])
  | gossiped_tx :: l =>
      let '(st, error) := Storage.should_download_or_verify clock st (Downloads.gossip_id gossiped_tx) in
      let? (d, answer) :=
        match error with
        | Some (Storage.StorageExactTip (Storage.FailedStandard (Standard.TransactionTooLarge _ _))) => Ok (d, None)
        | Some error => Ok (d, Some error)
        | None =>
            match Downloads.download_if_needed_and_verify d gossiped_tx None with
            | Ok d => Ok (d, None)
            | Err error => Ok (d, Some error)
            | Panic => Panic
            end
        end in
      let? (st, d, answers) := queue_all st d l in
      Ok (st, d, answer :: answers)
  end.

Fixpoint queue_from_peer {E} (st : Storage) (d : Downloads) (source : Downloads.QueueSource) (l : list Downloads.Gossip)
  : res E (Storage * Downloads) :=
  match l with
  | [] => Ok (st, d)
  | gossiped_tx :: l =>
      let '(st, error) := Storage.should_download_or_verify clock st (Downloads.gossip_id gossiped_tx) in
      match error with
      | Some _ => queue_from_peer st d source l
      | None =>
          let? d := try_queue d (Downloads.download_if_needed_and_verify d gossiped_tx (Some source)) in
          queue_from_peer st d source l
      end
  end.

(** Taking up to [limit] ids to gossip; the rest stays. *)
Definition take_pending_gossip (pending : gset UnminedTxId) (limit : Z) : gset UnminedTxId * gset UnminedTxId :=
  if Z.of_nat (size pending) <=? limit then (∅, pending)
  else
    let res : gset UnminedTxId := list_to_set (take (Z.to_nat limit) (hash_iter pending)) in
    (pending ∖ res, res).

Definition unspent_output (st : Storage) (last_seen_tip_hash : Z) (outpoint : OutPoint) : option CreatedOrSpent :=
  if Storage.has_spent_outpoint st outpoint then Some Spent
  else
    tx ← VerifiedSet.transactions (Storage.verified st) !! op_hash outpoint;
    output ← outputs (transaction tx) !! Z.to_nat (op_index outpoint);
    Some (Created output (version (transaction tx)) last_seen_tip_hash).

(** [call] on an enabled mempool, at the time [now] *)
Definition call_enabled (st : Storage) (d : Downloads) (pending : gset UnminedTxId) (last_seen_tip_hash : Z)
  (peer_cooldowns : PeerCooldown.CooldownState) (req : Request) (now : Z)
  : res RequestError (Storage * Downloads * gset UnminedTxId) * res RequestError Response :=
  let same := Ok (st, d, pending) in
  match req with
  | TransactionIds => (same, Ok (RTransactionIds (Storage.tx_ids st)))
  | TakePendingGossipTransactionIds limit =>
      let '(pending, res) := take_pending_gossip pending limit in (Ok (st, d, pending), Ok (RTransactionIds res))
  | TransactionsById ids => (same, Ok (RTransactions (to_unmined <$> Storage.transactions_exact st ids)))
  | TransactionsByMinedId ids => (same, Ok (RTransactions (to_unmined <$> Storage.transactions_same_effects st ids)))
  | TransactionWithDepsByMinedId tx_id =>
      (same, match Storage.transaction_with_deps st tx_id with
             | Some (transaction, dependencies) => Ok (RTransactionWithDeps transaction dependencies)
             | None => Err NotFound
             end)
  | AwaitOutput outpoint =>
      match Storage.created_output st outpoint with
      | Some output =>
          (Ok (Storage.with_verified st (Storage.verified st)
                 (PendingOutputs.respond (Storage.pending_outputs st) outpoint output), d, pending),
           Ok (RUnspentOutput output))
      | None =>
          let '(pending_outputs, subscribed) := PendingOutputs.queue (Storage.pending_outputs st) outpoint in
          (Ok (Storage.with_verified st (Storage.verified st) pending_outputs, d, pending),
           if subscribed then Ok (RAwait outpoint) else Err PendingOutputsFull)
      end
  | FullTransactions =>
      (same, Ok (RFullTransactions (VerifiedSet.transactions (Storage.verified st))
                   (VerifiedSet.transaction_dependencies (Storage.verified st)) last_seen_tip_hash))
  | RejectedTransactionIds ids =>
      let '(st, rejected) := Storage.rejected_transactions clock st (hash_iter ids) in
      (Ok (st, d, pending), Ok (RRejectedTransactionIds (list_to_set rejected)))
  | Queue gossiped_txs =>
      let queued := queue_all st d gossiped_txs in
      (let? (st, d, _) := queued in Ok (st, d, pending),
       let? (_, _, answers) := queued in Ok (RQueued answers))
  | QueueFromPeer gossiped_txs source =>
      let is_cooling_down :=
        match source with
        | Downloads.LegacySocket addr => PeerCooldown.is_cooling_down peer_cooldowns (PeerPolicy.ip addr) now
        | Downloads.Zakura _ => false
        end in
      (if is_cooling_down then same
       else let? (st, d) := queue_from_peer st d source gossiped_txs in Ok (st, d, pending),
       Ok (RQueued []))
  | CheckForVerifiedTransactions => (same, Ok RCheckedForVerifiedTransactions)
  | QueueStats =>
      let bytes := Storage.total_serialized_size st in
      (same, Ok (RQueueStats (Storage.transaction_count st) bytes bytes))
  | UnspentOutput outpoint => (same, Ok (RTransparentOutput (unspent_output st last_seen_tip_hash outpoint)))
  end.

Definition call_disabled (req : Request) : res RequestError Response :=
  match req with
  | TransactionIds | TakePendingGossipTransactionIds _ => Ok (RTransactionIds ∅)
  | TransactionsById _ | TransactionsByMinedId _ => Ok (RTransactions [])
  | TransactionWithDepsByMinedId _ | AwaitOutput _ | UnspentOutput _ => Err MempoolDisabledError
  | FullTransactions => Err MempoolDisabledError
  | RejectedTransactionIds _ => Ok (RRejectedTransactionIds ∅)
  | Queue gossiped_txs => Ok (RQueued (replicate (length gossiped_txs) (Some Storage.Disabled)))
  | QueueFromPeer _ _ => Ok (RQueued [])
  | CheckForVerifiedTransactions => Ok RCheckedForVerifiedTransactions
  | QueueStats => Ok (RQueueStats 0 0 0)
  end.

(** The new mempool, or a panic, and the response. *)
Definition call (self : Mempool) (req : Request) (now : Z) : res RequestError Mempool * res RequestError Response :=
  match active_state self with
  | Disabled => (Ok self, call_disabled req)
  | Enabled st d pending last_seen_tip_hash =>
      let '(state, response) := call_enabled st d pending last_seen_tip_hash (peer_cooldowns self) req now in
      (let? (st, d, pending) := state in Ok (with_state self (Enabled st d pending last_seen_tip_hash)), response)
  end.
End Mempool.
End Mempool.
