(* ===== verification/MempoolFacts.v ===== *)
(** * A new block, and the invariant of the mempool service

    [MempoolBlock]: the four steps of a block that grows the chain, together.
    Exactly the transactions of the block leave, those that spend what it spends,
    those that expired, and what depends on one of the latter.  A transaction whose
    parent was mined stays.

    [MempoolFacts]: [mempool_inv m], an enabled mempool keeps the invariants of its
    storage and of its download queue, and every id it is going to gossip is
    stored.  A poll keeps it, in any state of the chain tip and for any tasks that
    finish, and so does every request. *)

From stdpp Require Import base numbers list option gmap sets relations.
From Stdlib Require Import ZArith Lia.
From S2P Require Import Prelude Height BTree Network EvictionList PeerCooldown Zip317 EvictionCost HashIter Dependencies MempoolTx VerifiedSet VerifiedGraph VerifiedCaches VerifiedFacts VerifiedInsert EvictionSelect Standard PeerPolicy Storage StorageLists StorageInsert Downloads Mempool.
Local Open Scope Z_scope.

Module MempoolBlock.
Import MempoolTx Dependencies VerifiedGraph VerifiedCaches VerifiedFacts VerifiedRemove.
Import Storage StorageLists StorageInsert StorageBlock.

Implicit Types (v : VerifiedSet) (W : gset Hash) (tx : VerifiedUnminedTx) (t : Transaction) (x y : Hash).

Notation txs := VerifiedSet.transactions.

Section Grow.
Context {HO : HashOrder} {ZS : Standard.ZcashScript} (clock : nat -> Z).
Context (clock_mono : forall i, clock i <= clock (S i)).

(** [c] spends an output of [p], which the block does not mine. *)
Definition unconfirmed v (mined : gset Hash) : relation Hash := fun p c => child (deps v) p c /\ p ∉ mined.

(** [x] cannot be mined after the block. *)
Definition excluded v (mined : gset Hash) (block_txs : list Transaction) (height : Z) x : Prop :=
  x ∉ mined /\ exists tx, txs v !! x = Some tx /\
    ((exists t, t ∈ block_txs /\ share_spend (transaction tx) t) \/ has_expired height tx = true).

(** The transactions that stay. *)
Definition stays v (mined : gset Hash) (block_txs : list Transaction) (height : Z) y : Prop :=
  y ∉ mined /\ forall x, excluded v mined block_txs height x -> ~ rtc (unconfirmed v mined) x y.

(** The removals, one after the other: [v0] has no edges from mined
    transactions, [v1] no mined ones, [v2] no double spends, [v3] no expired. *)
Record removals v v0 v1 v2 v3 (mined : gset Hash) (block_txs : list Transaction) (height : Z) W1 W2 W3 : Prop := {
  r_inv : inv v0;
  r_txs : txs v0 = txs v;
  r_child : forall p c, child (deps v0) p c <-> unconfirmed v mined p c;
  r_mined : shrunk v0 v1 W1;
  r_W1 : takes v0 (hash_iter mined) W1;
  r_spends : shrunk v1 v2 W2;
  r_W2 : takes v1 (mined_id <$> hash_iter (ids_where v1 (fun tx => double_spends (collect_spends block_txs) (transaction tx)))) W2;
  r_expired : shrunk v2 v3 W3;
  r_W3 : forall y, y ∈ W3 <-> y ∈ ids v2 /\ exists x tx, txs v2 !! x = Some tx /\
    has_expired height tx = true /\ rtc (child (deps v2)) x y;
}.

Section Removals.
Context v v0 v1 v2 v3 (mined : gset Hash) (block_txs : list Transaction) (height : Z) W1 W2 W3.
Context (R : removals v v0 v1 v2 v3 mined block_txs height W1 W2 W3).

Lemma mined_only y : y ∈ W1 <-> y ∈ ids v /\ y ∈ mined.
Proof using R.
  rewrite (r_W1 _ _ _ _ _ _ _ _ _ _ _ R y), (r_txs _ _ _ _ _ _ _ _ _ _ _ R). setoid_rewrite elem_of_hash_iter. split.
  - intros (Hy & r & Hr & Hry). split; [done|]. apply rtc_inv in Hry as [->|(z & Hrz & _)]; [done|].
    by apply (r_child _ _ _ _ _ _ _ _ _ _ _ R) in Hrz as [_ ?].
  - intros [Hy Hm]. split; [done|]. by exists y.
Qed.

(** The ids that double spend, among those not mined. *)
Lemma spends_only y :
  y ∈ W2 <-> y ∈ ids v1 /\ exists x tx, txs v1 !! x = Some tx /\
    (exists t, t ∈ block_txs /\ share_spend (transaction tx) t) /\ rtc (child (deps v1)) x y.
Proof using R.
  rewrite (r_W2 _ _ _ _ _ _ _ _ _ _ _ R y). setoid_rewrite list_elem_of_fmap. setoid_rewrite elem_of_hash_iter.
  setoid_rewrite elem_of_ids_where. setoid_rewrite double_spends_spec.
  pose proof (c_keys v1 (i_caches v1 (sh_inv _ _ _ (r_mined _ _ _ _ _ _ _ _ _ _ _ R)))) as Hk.
  split; intros (Hy & H); (split; [done|]).
  - destruct H as (r & (id & -> & k & tx & Htx & Hs & ->) & Hr). exists k, tx. rewrite (Hk k tx Htx) in Hr. done.
  - destruct H as (x & tx & Htx & Hs & Hr). exists x. split; [|done]. exists (unmined_id tx). split; [by rewrite (Hk x tx Htx)|].
    by exists x, tx.
Qed.

(** Edges after the first removals. *)
Lemma child1 p c : child (deps v1) p c <-> unconfirmed v mined p c /\ c ∉ mined.
Proof using R.
  rewrite (sh_child _ _ _ (r_mined _ _ _ _ _ _ _ _ _ _ _ R)), (r_child _ _ _ _ _ _ _ _ _ _ _ R), !mined_only. split.
  - intros (Hpc & _ & Hc). split; [done|]. intros Hm. apply Hc. split; [|done].
    apply (r_child _ _ _ _ _ _ _ _ _ _ _ R) in Hpc. pose proof (r_txs _ _ _ _ _ _ _ _ _ _ _ R) as Ht.
    rewrite <- Ht. by apply (g_edges v0 (i_graph v0 (r_inv _ _ _ _ _ _ _ _ _ _ _ R)) p c).
  - intros [[Hpc Hp] Hc]. split; [done|]. tauto.
Qed.

Lemma path1 x y : y ∉ mined -> rtc (unconfirmed v mined) x y -> rtc (child (deps v1)) x y.
Proof using R.
  intros Hy. induction 1 as [|x z y Hxz Hzy IH]; [done|]. eapply rtc_l; [|by apply IH]. apply child1. split; [done|].
  apply rtc_inv in Hzy as [->|(w & [_ ?] & _)]; done.
Qed.

Lemma path_back x y : rtc (child (deps v1)) x y -> rtc (unconfirmed v mined) x y.
Proof using R. apply rtc_subrel. intros p c Hpc. by apply child1. Qed.

Lemma stored1 y tx : txs v1 !! y = Some tx <-> txs v !! y = Some tx /\ y ∉ mined.
Proof using R.
  rewrite (sh_txs _ _ _ (r_mined _ _ _ _ _ _ _ _ _ _ _ R)), (r_txs _ _ _ _ _ _ _ _ _ _ _ R).
  case_decide as Hy; rewrite mined_only in Hy; [naive_solver|]. split; [|tauto]. intros Htx. split; [done|].
  intros Hm. apply Hy. split; [by apply elem_of_dom_2 in Htx|done].
Qed.

Lemma path2 x y : y ∉ W2 -> rtc (child (deps v1)) x y -> rtc (child (deps v2)) x y /\ x ∉ W2.
Proof using R.
  intros Hy Hr. apply (rtc_avoid _ W2) in Hr as [Hx Hr]; [|..|done].
  - split; [|done]. revert Hr. apply rtc_subrel. intros p c Hpc. by apply (sh_child _ _ _ (r_spends _ _ _ _ _ _ _ _ _ _ _ R)).
  - intros p c Hpc. rewrite !spends_only. intros (Hp & x' & tx & Htx & Hs & Hxp).
    split; [by apply (g_edges v1 (i_graph v1 (sh_inv _ _ _ (r_mined _ _ _ _ _ _ _ _ _ _ _ R))) p c)|].
    exists x', tx. split; [done|]. split; [done|]. by eapply rtc_r.
Qed.

Lemma stored3 y tx : txs v3 !! y = Some tx <-> txs v !! y = Some tx /\ y ∉ mined /\ y ∉ W2 /\ y ∉ W3.
Proof using R.
  rewrite (sh_txs _ _ _ (r_expired _ _ _ _ _ _ _ _ _ _ _ R)), (sh_txs _ _ _ (r_spends _ _ _ _ _ _ _ _ _ _ _ R)).
  repeat case_decide; [naive_solver..|]. rewrite stored1. tauto.
Qed.

Lemma removals_stay y tx : txs v3 !! y = Some tx <-> txs v !! y = Some tx /\ stays v mined block_txs height y.
Proof using R.
  rewrite stored3. split.
  - intros (Htx & Hm & H2 & H3). split; [done|]. split; [done|]. intros x (Hx & xtx & Hxt & Hbad) Hr.
    apply (path1 x y Hm) in Hr. pose proof (proj2 (stored1 x xtx) (conj Hxt Hx)) as Hx1.
    destruct (path2 x y H2 Hr) as [Hr2 HxW2].
    assert (Hy1 : y ∈ ids v1) by (apply elem_of_dom; exists tx; by apply stored1).
    destruct Hbad as [Hs|He].
    + apply H2, spends_only. split; [done|]. by exists x, xtx.
    + apply H3, (r_W3 _ _ _ _ _ _ _ _ _ _ _ R). pose proof (r_spends _ _ _ _ _ _ _ _ _ _ _ R) as Hsp.
      split; [by apply (shrunk_ids v1 v2 W2 y Hsp)|]. exists x, xtx. split; [|done].
      by rewrite (sh_txs _ _ _ Hsp), decide_False.
  - intros (Htx & Hm & Hst). split; [done|]. split; [done|]. split.
    + intros (_ & x & xtx & [Hxt Hx]%stored1 & Hs & Hr%path_back)%spends_only. apply (Hst x); [|done].
      split; [done|]. exists xtx. split; [done|]. by left.
    + intros (_ & x & xtx & Hxt & He & Hr)%(r_W3 _ _ _ _ _ _ _ _ _ _ _ R).
      pose proof (r_spends _ _ _ _ _ _ _ _ _ _ _ R) as Hsp. rewrite (sh_txs _ _ _ Hsp) in Hxt. case_decide; [done|].
      apply stored1 in Hxt as [Hxt Hx]. apply (Hst x); [split; [done|]; exists xtx; split; [done|]; by right|].
      apply path_back. revert Hr. apply rtc_subrel. intros p c Hpc. by apply (sh_child _ _ _ Hsp).
Qed.

(** Every transaction that left is reported. *)
Lemma removals_reported y tx :
  txs v !! y = Some tx -> txs v3 !! y = None ->
  ids_of v0 W1 (unmined_id tx) \/ ids_of v1 W2 (unmined_id tx) \/ ids_of v2 W3 (unmined_id tx).
Proof using R.
  intros Htx Hn. pose proof (r_txs _ _ _ _ _ _ _ _ _ _ _ R) as H0.
  destruct (decide (y ∈ mined)) as [Hm|Hm].
  { left. exists y, tx. rewrite H0. split; [apply mined_only; split; [by apply elem_of_dom_2 in Htx|done]|done]. }
  right. pose proof (proj2 (stored1 y tx) (conj Htx Hm)) as H1.
  destruct (decide (y ∈ W2)) as [H2|H2]; [left; by exists y, tx|right]. exists y, tx.
  rewrite (sh_txs _ _ _ (r_spends _ _ _ _ _ _ _ _ _ _ _ R)), decide_False by done. split; [|done].
  destruct (decide (y ∈ W3)) as [H3|H3]; [done|]. rewrite (proj2 (stored3 y tx)) in Hn; [done|tauto].
Qed.

(** The reports are exact. *)
Lemma mined_reported id :
  ids_of v0 W1 id <-> exists y tx, txs v !! y = Some tx /\ y ∈ mined /\ id = unmined_id tx.
Proof using R.
  unfold ids_of. rewrite (r_txs _ _ _ _ _ _ _ _ _ _ _ R). setoid_rewrite mined_only. split.
  - intros (y & tx & [_ Hm] & Htx & ->). by exists y, tx.
  - intros (y & tx & Htx & Hm & ->). exists y, tx. split; [|done]. split; [by apply elem_of_dom_2 in Htx|done].
Qed.

Lemma invalid_reported id :
  ids_of v1 W2 id \/ ids_of v2 W3 id <->
  exists y tx, txs v !! y = Some tx /\ y ∉ mined /\ txs v3 !! y = None /\ id = unmined_id tx.
Proof using R.
  pose proof (sh_txs _ _ _ (r_spends _ _ _ _ _ _ _ _ _ _ _ R)) as H2. split.
  - assert (Hgone : forall y tx, txs v1 !! y = Some tx -> y ∈ W2 \/ y ∈ W3 ->
      txs v !! y = Some tx /\ y ∉ mined /\ txs v3 !! y = None).
    { intros y tx [Htx Hm]%stored1 HW. split; [done|]. split; [done|]. destruct (txs v3 !! y) as [tx'|] eqn:H3; [|done].
      apply stored3 in H3 as (_ & _ & ? & ?). tauto. }
    intros [(y & tx & HW & Htx & ->)|(y & tx & HW & Htx & ->)].
    + destruct (Hgone y tx Htx (or_introl HW)) as (? & ? & ?). by exists y, tx.
    + rewrite H2 in Htx. case_decide; [done|]. destruct (Hgone y tx Htx (or_intror HW)) as (? & ? & ?). by exists y, tx.
  - intros (y & tx & Htx & Hm & Hn & ->). destruct (removals_reported y tx Htx Hn) as [(y' & tx' & [Hy' Hm']%mined_only & Htx' & Heq)|H];
      [|done]. rewrite (r_txs _ _ _ _ _ _ _ _ _ _ _ R) in Htx'.
    pose proof (c_keys v0 (i_caches v0 (r_inv _ _ _ _ _ _ _ _ _ _ _ R))) as Hk. rewrite (r_txs _ _ _ _ _ _ _ _ _ _ _ R) in Hk.
    destruct Hm. by rewrite <- (Hk y tx Htx), Heq, (Hk y' tx' Htx').
Qed.
End Removals.

(** ** The block of a poll *)

Definition block_ids (block : Mempool.ChainTipBlock) : gset Hash := list_to_set (Mempool.transaction_hashes block).

Lemma grow_Ok {E} p block :
  storage_inv clock (Mempool.storage p) ->
  (forall k, k ∈ block_ids block -> fresh clock (Mempool.storage p) Mined k) ->
  exists p' mined_ids v0 v1 v2 W1 W2 W3,
    Mempool.grow clock (E := E) p block = Ok (p', mined_ids) /\ storage_inv clock (Mempool.storage p') /\
    removals (verified (Mempool.storage p)) v0 v1 v2 (verified (Mempool.storage p')) (block_ids block)
      (Mempool.transactions block) (Mempool.block_height block) W1 W2 W3 /\
    Mempool.tx_downloads p' = Downloads.cancel (Mempool.tx_downloads p) (block_ids block) /\
    Mempool.cooldowns p' = Mempool.cooldowns p /\ Mempool.requests p' = Mempool.requests p /\
    (forall id, id ∈ mined_ids <-> ids_of v0 W1 id) /\
    (forall id, id ∈ Mempool.invalidated_ids p' <->
       id ∈ Mempool.invalidated_ids p \/ ids_of v1 W2 id \/ ids_of v2 W3 id) /\
    exists expired, Mempool.send_to_peers_ids p' = Mempool.send_to_peers_ids p ∖ expired /\
      forall id, id ∈ expired <-> ids_of v2 W3 id.
Proof using clock_mono.
  intros Hs Hf. unfold Mempool.grow. fold (block_ids block).
  destruct (clear_mined_dependencies_Ok clock (E := E) (Mempool.storage p) (block_ids block) Hs)
    as (v0 & -> & Hs0 & Ht0 & Hc0). cbn [res_bind]. set (st0 := with_verified _ _ _) in *.
  destruct (reject_and_remove_Ok clock clock_mono (E := E) st0 (block_ids block) (Mempool.transactions block) Hs0)
    as (st1 & removed & v1 & W1 & W2 & -> & Hs1 & Hbr & _); [exact Hf|]. cbn [res_bind].
  destruct (clear_tip_rejections_Ok clock clock_mono (E := E) st1 Hs1) as (st2 & -> & Hs2 & Hq2 & _). cbn [res_bind].
  destruct (remove_expired_Ok clock clock_mono (E := E) st2 (Mempool.block_height block) Hs2)
    as (st3 & expired & W3 & -> & Hs3 & Hsh3 & HW3 & Hex & _). cbn [res_bind].
  rewrite (f_verified _ _ _ _ Hq2) in Hsh3, HW3, Hex.
  eexists _, _, v0, v1, (verified st1), W1, W2, W3. split; [done|]. destruct Hbr as [Hb1 Hb2 Hb3 Hb4 Hb5 Hb6].
  split; [done|]. split.
  { split; [apply (si_set _ _ Hs0)|exact Ht0|intros pp c; apply Hc0|exact Hb1|exact Hb2|exact Hb3|exact Hb4|exact Hsh3|exact HW3]. }
  split; [done|]. split; [done|]. split; [done|]. split; [done|].
  cbn. split; [|by exists expired]. intros id. rewrite !elem_of_union, Hb6, Hex. tauto.
Qed.

(** C17: what a block that grows the chain does to a mempool whose storage and queue
    are well formed, if the list of mined transactions does not report a transaction
    of the block already.  The stored transactions are exactly those that were stored before, except the transactions of
    the block, and except those that depend, through transactions that are not in the
    block, on one that spends an output or reveals a nullifier that the block spends,
    or that expires at its height; to depend on a mined transaction is no reason to go.  The
    returned ids are those of the stored transactions that are in the block, and the
    ids added to the invalidated ones are those of the other transactions that left.
    An id that is no longer to be gossiped is one of the latter.  The downloads of the
    transactions of the block are cancelled, their handles removed, and no other
    download or result is touched. *)
Theorem block_leaves_the_rest {E} p block :
  storage_inv clock (Mempool.storage p) -> Downloads.inv (Mempool.tx_downloads p) ->
  (forall k, k ∈ block_ids block -> fresh clock (Mempool.storage p) Mined k) ->
  exists p' mined_ids, Mempool.grow clock (E := E) p block = Ok (p', mined_ids) /\
    let before := txs (verified (Mempool.storage p)) in
    let after := txs (verified (Mempool.storage p')) in
    (forall y tx, after !! y = Some tx <->
      before !! y = Some tx /\
      stays (verified (Mempool.storage p)) (block_ids block) (Mempool.transactions block) (Mempool.block_height block) y) /\
    (forall id, id ∈ mined_ids <-> exists y tx, before !! y = Some tx /\ y ∈ block_ids block /\ id = unmined_id tx) /\
    (forall id, id ∈ Mempool.invalidated_ids p' <->
      id ∈ Mempool.invalidated_ids p \/
      exists y tx, before !! y = Some tx /\ y ∉ block_ids block /\ after !! y = None /\ id = unmined_id tx) /\
    Mempool.send_to_peers_ids p' ⊆ Mempool.send_to_peers_ids p /\
    (forall id, id ∈ Mempool.send_to_peers_ids p -> id ∉ Mempool.send_to_peers_ids p' ->
      exists y tx, before !! y = Some tx /\ y ∉ block_ids block /\ after !! y = None /\ id = unmined_id tx) /\
    Downloads.without (Mempool.tx_downloads p) (Mempool.tx_downloads p') (fun id => mined_id id ∈ block_ids block).
Proof using clock_mono.
  intros Hs Hd Hf.
  destruct (grow_Ok (E := E) p block Hs Hf)
    as (p' & mi & v0 & v1 & v2 & W1 & W2 & W3 & -> & _ & R & Hd' & _ & _ & Hmi & Hinv & expired & Hsend & Hex).
  exists p', mi. split; [done|]. split; [by eapply removals_stay|]. split; [|split; [|split; [|split]]].
  - intros id. rewrite Hmi. by apply (mined_reported _ _ _ _ _ _ _ _ _ _ _ R).
  - intros id. by rewrite Hinv, (invalid_reported _ _ _ _ _ _ _ _ _ _ _ R).
  - rewrite Hsend. intros id [? _]%elem_of_difference. done.
  - intros id Hid Hn. apply (invalid_reported _ _ _ _ _ _ _ _ _ _ _ R). right. apply Hex.
    rewrite Hsend, not_elem_of_difference in Hn. by destruct Hn.
  - rewrite Hd'. by apply Downloads.cancel_without.
Qed.
End Grow.

(** A block whose transaction spends the output that the stored one spends. *)
Definition example_pass : Mempool.Pass :=
  Mempool.mkPass example_storage (Downloads.new 250000) PeerCooldown.default_state [] ∅ ∅.
Definition example_block : Mempool.ChainTipBlock :=
  Mempool.mkBlock 77 8 [mkTransaction [PrevOut (mkOutPoint 5 0) [3] 0] [] [] [] [] [] None 4 None] [9].

Lemma block_leaves_the_rest_witness :
  is_Some (txs (verified (Mempool.storage example_pass)) !! 1) /\
  exists p' mined_ids,
    Mempool.grow (HO := elements_order) EvictionList.ticking (E := unit) example_pass example_block = Ok (p', mined_ids) /\
    txs (verified (Mempool.storage p')) !! 1 = None /\ (exists id, id ∈ Mempool.invalidated_ids p').
Proof.
  assert (Hst : exists tx, txs (verified (Mempool.storage example_pass)) !! 1 = Some tx /\ transaction tx = transaction (Standard.spending_tx [1; 2])).
  { eexists. split; vm_compute; reflexivity. }
  destruct Hst as (tx & Htx & Ht). split; [by exists tx|].
  destruct (block_leaves_the_rest (HO := elements_order) EvictionList.ticking EvictionList.ticking_mono (E := unit)
    example_pass example_block example_storage_inv) as (p' & mi & Hg & Hstay & _ & Hinv & _).
  { apply Downloads.new_inv. }
  { intros k _ l Hl. exfalso. vm_compute in Hl. discriminate. }
  exists p', mi. split; [exact Hg|].
  assert (Hm : 1 ∉ block_ids example_block) by (intros Hin%elem_of_list_to_set%list_elem_of_singleton; discriminate Hin).
  assert (H1 : txs (verified (Mempool.storage p')) !! 1 = None).
  { destruct (txs (verified (Mempool.storage p')) !! 1) as [tx'|] eqn:H1; [|done].
    exfalso. apply Hstay in H1 as (_ & _ & Hex). apply (Hex 1); [|constructor]. split; [exact Hm|]. exists tx. split; [exact Htx|]. left.
    eexists. split; [left|]. left. exists (mkOutPoint 5 0). rewrite Ht. split; left. }
  split; [exact H1|].
  exists (unmined_id tx). apply Hinv. right. exists 1, tx.
  split; [exact Htx|]. split; [exact Hm|]. split; [exact H1|reflexivity].
Defined.
End MempoolBlock.

Module MempoolFacts.
Import MempoolTx Dependencies VerifiedGraph VerifiedCaches VerifiedFacts VerifiedInsert VerifiedRemove.
Import Storage StorageLists StorageInsert StorageBlock MempoolBlock.
Import Mempool.

Implicit Types (st : Storage) (d : Downloads) (tx : VerifiedUnminedTx) (id : UnminedTxId).

Lemma elem_of_tx_ids st id :
  id ∈ tx_ids st <-> exists k tx, txs (verified st) !! k = Some tx /\ id = unmined_id tx.
Proof. unfold tx_ids. rewrite elem_of_ids_where. naive_solver. Qed.

(** ** Results of the downloads *)

(** What the verifier promises of a transaction. *)
Definition verified_ok tx : Prop := tx_ok tx /\ Standard.outputs_ok tx.

Definition result_ok (r : Downloads.TaskResult) : Prop :=
  match r with Downloads.Verified tx _ _ => verified_ok tx | _ => True end.

Record answers_valid (a : Downloads.Answers) : Prop := {
  av_ok : Downloads.answers_ok a;
  av_verified : forall utx height v spent, Downloads.verifier a utx height = inr (v, spent) -> verified_ok v;
}.

Definition queue_inv d : Prop := Downloads.inv d /\ Forall result_ok (Downloads.results d).

Lemma task_result_ok {E} d t answers r :
  (forall a, answers = Some a -> answers_valid a) -> Downloads.task_result (E := E) d t answers = Ok r -> result_ok r.
Proof.
  intros Ha. unfold Downloads.task_result. destruct (Downloads.cancelled t); [by intros [= <-]|].
  destruct answers as [a|]; [|by intros [= <-]]. destruct (Ha a eq_refl) as [_ Hv].
  destruct (Downloads.download_and_verify _ _ _ _ a) as [[[tx sp] th]|e|] eqn:Hd; intros [= <-]; [|done].
  unfold Downloads.download_and_verify in Hd.
  repeat (match type of Hd with
          | res_bind ?c _ = _ => destruct c as [?|?|]; cbn [res_bind] in Hd; [|discriminate Hd|discriminate Hd]
          | (let '(_, _) := ?p in _) = _ => destruct p
          end).
  destruct (match o0 with Some _ => _ | None => _ end); [done|].
  destruct (Downloads.verifier a _ _) as [e|[v sp']] eqn:Hver; [by destruct e|]. injection Hd as <- _ _. by apply Hv in Hver.
Qed.

Lemma finish_queue {E} d i answers :
  queue_inv d -> (forall a, answers = Some a -> answers_valid a) ->
  exists d', Downloads.finish (E := E) d i answers = Ok d' /\ queue_inv d'.
Proof.
  intros [Hi Hr] Ha.
  destruct (Downloads.finish_spec (E := E) d i answers Hi) as (d' & Hf & Hi' & _); [intros a Hs; by apply Ha in Hs as []|].
  exists d'. split; [done|]. split; [done|]. unfold Downloads.finish in Hf.
  destruct (Downloads.running d !! i) as [t|]; [|by injection Hf as <-].
  destruct (Downloads.task_result d t answers) as [r|e|] eqn:Ht; [|done|done]. injection Hf as <-. cbn.
  apply Forall_app. split; [done|]. constructor; [|constructor]. by apply task_result_ok in Ht.
Qed.

Lemma finish_all_queue {E} l : forall d,
  queue_inv d -> (forall i a, (i, Some a) ∈ l -> answers_valid a) ->
  exists d', finish_all (E := E) d l = Ok d' /\ queue_inv d'.
Proof.
  induction l as [|[i answers] l IH]; intros d Hd Ha; cbn [finish_all]; [by exists d|].
  destruct (finish_queue (E := E) d i answers Hd) as (d1 & -> & Hd1); [intros a ->; apply (Ha i); by left|]. cbn [res_bind].
  apply IH; [done|]. intros j a Hin. apply (Ha j). by right.
Qed.

Lemma remove_handle_results d txid : Downloads.results (Downloads.remove_handle d txid) = Downloads.results d.
Proof. unfold Downloads.remove_handle. by repeat case_match. Qed.

Lemma cancel_queue `{HO : HashOrder} d mined : queue_inv d -> queue_inv (Downloads.cancel d mined).
Proof.
  intros [Hi Hr]. split; [by apply Downloads.cancel_inv|]. unfold Downloads.cancel.
  match goal with |- context [foldl _ _ ?l] => generalize l end. intros l. revert d Hi Hr.
  induction l as [|x l IH]; intros d Hi Hr; [done|]. cbn. apply IH.
  - apply (Downloads.remove_handle_inv _ d x) in Hi. revert Hi. apply Downloads.inv_but_weaken. tauto.
  - by rewrite remove_handle_results.
Qed.

Lemma try_queue_inv {E} d g o retried :
  queue_inv d -> exists d', try_queue (E := E) d (Downloads.queue d g o retried) = Ok d' /\ queue_inv d'.
Proof.
  intros [Hi Hr]. pose proof (Downloads.queue_spec d g o retried Hi) as Hq. unfold try_queue.
  destruct (Downloads.queue d g o retried) as [d'|e|]; [|by exists d|done].
  destruct Hq as (Hi' & _ & Hres). exists d'. split; [done|]. split; [done|]. by rewrite Hres.
Qed.

Lemma retry_all_inv {E} l : forall d, queue_inv d -> exists d', retry_all (E := E) d l = Ok d' /\ queue_inv d'.
Proof.
  induction l as [|[g o] l IH]; intros d Hd; cbn [retry_all]; [by exists d|]. unfold Downloads.retry_after_tip_reset.
  destruct (try_queue_inv (E := E) d g o true Hd) as (d1 & -> & Hd1). cbn [res_bind]. by apply IH.
Qed.

Lemma new_queue max : queue_inv (Downloads.new max).
Proof. split; [apply Downloads.new_inv|constructor]. Qed.

(** ** One poll *)

Section Poll.
Context {HO : HashOrder} {ZS : Standard.ZcashScript} (clock : nat -> Z).
Context (clock_mono : forall i, clock i <= clock (S i)).

(** Every id to gossip is stored, or is reported as invalid. *)
Record pass_inv (pending : gset UnminedTxId) st0 (p : Pass) : Prop := {
  pi_storage : storage_inv clock (storage p);
  pi_downloads : queue_inv (tx_downloads p);
  pi_gossip : pending ∪ send_to_peers_ids p ⊆ tx_ids (storage p) ∪ invalidated_ids p;
  pi_fresh : forall k, fresh clock st0 Mined k -> fresh clock (storage p) Mined k;
}.

Lemma inserted_ids st st' tx spent height now evicted a W :
  inserted st st' tx spent height now evicted a W ->
  tx_ids st ⊆ tx_ids st' ∪ evicted /\ unmined_id tx ∈ tx_ids st'.
Proof.
  intros Hins. split.
  - intros id (k & tx' & Hk & ->)%elem_of_tx_ids. apply elem_of_union. destruct (decide (k ∈ W)) as [HW|HW].
    + right. apply (in_evicted _ _ _ _ _ _ _ _ _ Hins). by exists k, tx'.
    + left. apply elem_of_tx_ids. exists k, tx'. split; [|done]. rewrite (in_txs _ _ _ _ _ _ _ _ _ Hins).
      rewrite !decide_False; [done|done|]. intros ->. apply (in_new _ _ _ _ _ _ _ _ _ Hins).
      by apply elem_of_dom_2 in Hk.
  - apply elem_of_tx_ids. eexists _, _. split; [rewrite (in_txs _ _ _ _ _ _ _ _ _ Hins); by rewrite decide_True|done].
Qed.

Lemma tx_ids_same st st' : verified st' = verified st -> tx_ids st' = tx_ids st.
Proof. intros Hv. unfold tx_ids. by rewrite Hv. Qed.

Lemma store_verified_inv {E} t pending st0 p tx spent expected now :
  pass_inv pending st0 p -> verified_ok tx ->
  exists p', store_verified clock (E := E) t p tx spent expected now = Ok p' /\ pass_inv pending st0 p'.
Proof using clock_mono.
  intros [Hs Hd Hg Hf] [Htx Hout]. unfold store_verified. case_bool_decide.
  - destruct (insert_with_evicted_ids_Ok clock clock_mono (E := E) (storage p) tx spent (tip_height t) now Hs Htx Hout)
      as (st' & result & evicted & -> & Hs' & _ & Hfr & Hres). cbn [res_bind].
    assert (Hf' : forall k, fresh clock st0 Mined k -> fresh clock st' Mined k) by (intros k Hk; by apply Hfr, Hf).
    destruct result as [e|id].
    + destruct Hres as [Hv _ ->]. rewrite decide_True by done. eexists. split; [done|]. split; cbn; [done|done| |done].
      rewrite (tx_ids_same _ _ Hv). set_solver.
    + destruct Hres as (-> & a & W & [Hids Hin]%inserted_ids). destruct (decide (evicted = ∅)) as [->|_].
      * eexists. split; [done|]. split; cbn; [done|done| |done]. set_solver.
      * eexists. split; [done|]. split; cbn; [done|done| |done]. clear -Hids Hin Hg. set_solver.
  - unfold Downloads.download_if_needed_and_verify.
    destruct (try_queue_inv (E := E) (tx_downloads p) (Downloads.Tx (to_unmined tx)) None false Hd) as (d & -> & Hd').
    cbn [res_bind]. eexists. split; [done|]. by split.
Qed.

Lemma reject_failed_inv {E} t pending st0 p id error now :
  pass_inv pending st0 p ->
  exists p', reject_failed clock (E := E) t p id error now = Ok p' /\ pass_inv pending st0 p'.
Proof using clock_mono.
  intros [Hs Hd Hg Hf]. unfold reject_failed. set (cool := match _ with Some _ => _ | None => _ end). destruct cool as [c dis].
  assert (Hrej : exists st', reject_if_needed clock (E := E) (storage p) id error = Ok st' /\ storage_inv clock st' /\ quiet clock (storage p) st').
  { assert (Hex : forall e, exists st', reject clock (E := E) (storage p) id (ExactTip e) = Ok st' /\ storage_inv clock st' /\ quiet clock (storage p) st').
    { intros e. destruct (reject_Ok clock clock_mono (E := E) (storage p) id (ExactTip e)) as (st' & -> & Hok & Hq);
        [apply (si_rej _ _ Hs)|done|]. exists st'. split; [done|]. split; [by apply (quiet_inv clock (storage p))|done]. }
    unfold reject_if_needed. destruct error; try apply Hex; by exists (storage p). }
  destruct Hrej as (st' & -> & Hs' & Hq). cbn [res_bind]. eexists. split; [done|]. split; cbn; [done|done|..].
  - rewrite (tx_ids_same _ _ (f_verified _ _ _ _ Hq)). set_solver.
  - intros k Hk. apply (f_fresh _ _ _ _ Hq); [by apply Hf|by intros []].
Qed.

Lemma process_inv {E} t pending st0 p r now utc :
  pass_inv pending st0 p -> result_ok r ->
  exists p', process clock (E := E) t p r now utc = Ok p' /\ pass_inv pending st0 p'.
Proof using clock_mono.
  intros Hp Hr. unfold process. destruct r as [tx spent th|e id|id].
  - by apply store_verified_inv.
  - by apply reject_failed_inv.
  - eexists. split; [done|]. destruct Hp as [Hs Hd Hg Hf]. split; cbn; [done|done|set_solver|done].
Qed.

Definition drains_ok (l : list Drain) : Prop :=
  forall e i a, e ∈ l -> (i, Some a) ∈ finishing e -> answers_valid a.

Lemma drain_inv {E} t pending st0 l : forall p,
  pass_inv pending st0 p -> drains_ok l ->
  exists p', drain clock (E := E) t p l = Ok p' /\ pass_inv pending st0 p'.
Proof using clock_mono.
  induction l as [|e l IH]; intros p Hp Hl; cbn [drain]; [by exists p|].
  destruct Hp as [Hs Hd Hg Hf].
  destruct (finish_all_queue (E := E) (finishing e) (tx_downloads p) Hd) as (d1 & -> & [Hi1 Hr1]);
    [intros i a Hin; apply (Hl e i a); [by left|done]|]. cbn [res_bind].
  destruct (Downloads.poll_next_spec (E := E) d1 Hi1) as (d2 & -> & Hi2 & Hr2). cbn [res_bind].
  assert (Hp2 : pass_inv pending st0 (with_downloads p d2)).
  { split; cbn; [done| |done|done]. split; [done|]. rewrite Hr2. destruct Hr1; [constructor|done]. }
  destruct (Downloads.results d1) as [|r rest]; cbn [head]; [by eexists|].
  inversion Hr1; subst. destruct (process_inv (E := E) t pending st0 _ r (now e) (utc_now e) Hp2) as (p3 & -> & Hp3); [done|].
  cbn [res_bind]. apply IH; [done|]. intros e' i a Hin. apply (Hl e'). by right.
Qed.

(** The gossip after a block. *)
Lemma grow_inv {E} pending st0 p block :
  pass_inv pending st0 p -> (forall k, k ∈ block_ids block -> fresh clock st0 Mined k) ->
  exists p' mined, grow clock (E := E) p block = Ok (p', mined) /\
    storage_inv clock (storage p') /\ queue_inv (tx_downloads p') /\
    pending ∪ send_to_peers_ids p' ⊆ tx_ids (storage p') ∪ invalidated_ids p' ∪ mined.
Proof using clock_mono.
  intros [Hs Hd Hg Hf] Hb.
  destruct (grow_Ok clock clock_mono (E := E) p block Hs) as (p' & mi & v0 & v1 & v2 & W1 & W2 & W3 & -> & Hs' & R & Hd' & _ & _ & Hmi & Hinv & expired & Hsend & _);
    [intros k Hk; by apply Hf, Hb|].
  exists p', mi. split; [done|]. split; [done|]. split; [rewrite Hd'; by apply cancel_queue|].
  intros id Hid. assert (Hin : id ∈ tx_ids (storage p) ∪ invalidated_ids p) by (apply Hg; set_solver).
  apply elem_of_union in Hin as [(k & tx & Hk & ->)%elem_of_tx_ids|Hin].
  - destruct (txs (verified (storage p')) !! k) as [tx'|] eqn:Hk'.
    + rewrite !elem_of_union. left; left. apply elem_of_tx_ids. exists k, tx'. split; [done|].
      rewrite (removals_stay _ _ _ _ _ _ _ _ _ _ _ R) in Hk'. destruct Hk' as [Hk' _]. congruence.
    + destruct (removals_reported _ _ _ _ _ _ _ _ _ _ _ R k tx Hk Hk') as [H1|H23].
      * apply elem_of_union_r. by apply Hmi.
      * apply elem_of_union_l, elem_of_union_r, Hinv. by right.
  - apply elem_of_union_l, elem_of_union_r, Hinv. by left.
Qed.

Lemma announce_inv listeners pending send invalid mined :
  let '(pending', _, ready) := announce listeners pending send invalid mined in
  (ready = true -> pending' ⊆ (pending ∪ send) ∖ invalid ∖ mined) /\ (listeners = true -> ready = true).
Proof.
  unfold announce. destruct listeners; rewrite ?andb_false_r; cbn [negb].
  - split; [|done]. intros _. repeat case_bool_decide; cbn; repeat case_decide; set_solver.
  - rewrite !andb_true_r. repeat case_bool_decide; cbn; (split; [|done]); try done.
    intros _. repeat case_decide; set_solver.
Qed.

(** ** The service *)

Record mempool_inv (m : Mempool) : Prop := {
  mi_limit : 0 <= config_tx_cost_limit (config m) < 2 ^ 31;
  mi_network : Network.net_wf (network m);
  mi_state : match active_state m with
             | Disabled => True
             | Enabled st d pending _ => storage_inv clock st /\ queue_inv d /\ pending ⊆ tx_ids st
             end;
}.

(** What a poll relies on: the answers of the verifier, a tip height in range, and
    that a new block has no transaction that the storage lists as mined. *)
Record poll_ok (m : Mempool) (e : Poll) : Prop := {
  po_drains : drains_ok (drains e);
  po_height : forall height, best_tip_height (view_drain e) = Some height -> Height.valid height;
  po_block : forall block st d pending hash,
    tip_change e = Some (Grow block) -> active_state m = Enabled st d pending hash ->
    forall k, k ∈ block_ids block -> fresh clock st Mined k;
}.

Lemma read_tip_Ok {E} m v :
  mempool_inv m -> (forall height, best_tip_height v = Some height -> Height.valid height) ->
  exists t, read_tip (E := E) m v = Ok t.
Proof.
  intros Hm Hv. unfold read_tip.
  assert (Hn : exists next, (match best_tip_height v with
      | None => Ok 0
      | Some height => let? next := Height.add_diff height 1 in Ok (default 0 next)
      end : res E Z) = Ok next /\ 0 <= next).
  { destruct (best_tip_height v) as [h|]; [|by exists 0]. destruct (Hv h eq_refl) as [H0 Hmax].
    unfold Height.MIN in H0. rewrite Height.MAX_val in Hmax. rewrite Height.add_diff_spec.
    rewrite (proj2 (in_sint_spec 64 _)) by lia. cbn [res_bind].
    destruct (_ && _); eexists; (split; [done|]); cbn; lia. }
  destruct Hn as (next & -> & H0). cbn [res_bind].
  destruct (Network.current_Ok (network m) next (mi_network m Hm) H0) as (a & nu & _ & Hc). rewrite (Hc E). cbn [res_bind].
  destruct (PeerPolicy.upgrade_grace_period_Ok (E := E) (network m) next (mi_network m Hm) H0) as (g & ->). by eexists.
Qed.

Lemma enable_at_tip_Ok {E} m action :
  mempool_inv m ->
  exists m' st, enable_at_tip (E := E) m action = Ok m' /\ mempool_inv m' /\
    active_state m' = Enabled st (Downloads.new (config_max_transaction_bytes m)) ∅ (best_tip_hash_and_height action).1 /\
    (forall r k, fresh clock st r k) /\ storage_inv clock st /\ config m' = config m /\ network m' = network m.
Proof.
  intros [Hl Hn _]. unfold enable_at_tip. destruct (best_tip_hash_and_height action) as [hash h].
  destruct (new_storage clock (E := E) (config m) Hl) as (st & -> & Hs & _ & Hf). cbn [res_bind].
  eexists _, st. split; [done|]. split; [|done]. split; cbn; [done|done|]. split; [done|]. split; [apply new_queue|set_solver].
Qed.

Lemma poll_enabled_Ok {E} m e action :
  mempool_inv m -> drains_ok (drains e) ->
  (forall height, best_tip_height (view_drain e) = Some height -> Height.valid height) ->
  (forall block st d pending hash, action = Some (Grow block) -> active_state m = Enabled st d pending hash ->
     forall k, k ∈ block_ids block -> fresh clock st Mined k) ->
  exists m' changes requests ready, poll_enabled clock (E := E) m e action = Ok (m', changes, requests, ready) /\
    (ready = true -> mempool_inv m') /\ (listeners e = true -> ready = true).
Proof using clock_mono.
  intros Hm Hdr Hh Hb. unfold poll_enabled. destruct (active_state m) as [|st d pending hash] eqn:Hst.
  { by eexists _, _, _, _. }
  destruct (read_tip_Ok (E := E) m (view_drain e) Hm Hh) as (t & ->). cbn [res_bind].
  pose proof (mi_state m Hm) as Hms. rewrite Hst in Hms. destruct Hms as (Hs & Hd & Hp).
  destruct (drain_inv (E := E) t pending st (drains e) (mkPass st d (peer_cooldowns m) [] ∅ ∅)) as (p & -> & Hpi);
    [split; cbn; [done|done|set_solver|done]|done|]. cbn [res_bind].
  assert (Hgrow : exists p' mined, (match action with Some (Grow block) => grow clock p block | _ => Ok (p, ∅) end : res E _) = Ok (p', mined) /\
    storage_inv clock (storage p') /\ queue_inv (tx_downloads p') /\
    pending ∪ send_to_peers_ids p' ⊆ tx_ids (storage p') ∪ invalidated_ids p' ∪ mined).
  { assert (Hsame : exists p' mined, (Ok (p, ∅) : res E (Pass * gset UnminedTxId)) = Ok (p', mined) /\
      storage_inv clock (storage p') /\ queue_inv (tx_downloads p') /\
      pending ∪ send_to_peers_ids p' ⊆ tx_ids (storage p') ∪ invalidated_ids p' ∪ mined).
    { exists p, ∅. destruct Hpi as [Hps Hpd Hpg _]. split; [done|]. split; [done|]. split; [done|]. set_solver. }
    destruct action as [[block|]|]; [|done|done]. apply (grow_inv (E := E) pending st p block Hpi).
    by apply (Hb block st d pending hash). }
  destruct Hgrow as (p' & mined & -> & Hs' & Hd' & Hg'). cbn [res_bind].
  pose proof (announce_inv (listeners e) pending (send_to_peers_ids p') (invalidated_ids p') mined) as Ha.
  destruct (announce _ _ _ _ _) as [[pending' changes] ready]. destruct Ha as [Hsub Hl].
  eexists _, _, _, _. split; [done|]. split; [|done]. intros Hr. destruct Hm as [Hml Hmn _]. split; cbn; [done|done|].
  split; [done|]. split; [done|]. specialize (Hsub Hr). clear -Hsub Hg'. set_solver.
Qed.

Lemma reset_Ok {E} m action :
  mempool_inv m -> exists m', reset (E := E) m action = Ok m' /\ mempool_inv m'.
Proof.
  intros Hm. unfold reset. destruct (enable_at_tip_Ok (E := E) m action Hm) as (m1 & st & -> & Hm1 & Hst & _ & Hs & Hc & Hn).
  cbn [res_bind]. rewrite Hst.
  destruct (retry_all_inv (E := E) (transaction_retry_requests (active_state m)) _ (new_queue (config_max_transaction_bytes m)))
    as (d & -> & Hd). cbn [res_bind]. eexists. split; [done|]. destruct Hm1 as [Hl1 Hn1 _]. split; cbn; [done|done|].
  split; [done|]. split; [done|set_solver].
Qed.

Lemma update_state_Ok {E} m action caught_up v :
  mempool_inv m ->
  exists m' changes changed, update_state (E := E) m action caught_up v = Ok (m', changes, changed) /\ mempool_inv m' /\
    match active_state m' with
    | Disabled => True
    | Enabled st _ _ _ => active_state m' = active_state m \/ forall r k, fresh clock st r k
    end.
Proof.
  intros Hm. unfold update_state.
  assert (Hsame : exists m' changes changed, (Ok (m, [], false) : res E (Mempool * list MempoolChange * bool)) = Ok (m', changes, changed) /\ mempool_inv m' /\
    match active_state m' with
    | Disabled => True
    | Enabled st _ _ _ => active_state m' = active_state m \/ forall r k, fresh clock st r k
    end).
  { eexists m, _, _. split; [done|]. split; [done|]. destruct (active_state m); [done|by left]. }
  destruct caught_up, (is_enabled m) eqn:He.
  - destruct (is_far_enough_to_disable m v); apply Hsame.
  - destruct action as [action|]; [|destruct (is_far_enough_to_disable m v); apply Hsame].
    destruct (enable_at_tip_Ok (E := E) m action Hm) as (m1 & st & Hen & Hm1 & Hst & Hf & _).
    destruct (is_far_enough_to_disable m v); rewrite Hen; cbn [res_bind]; eexists _, _, _; (split; [done|]); (split; [done|]);
      rewrite Hst; by right.
  - destruct (is_far_enough_to_disable m v); [|apply Hsame]. eexists _, _, _. split; [done|].
    destruct Hm as [Hl Hn _]. by split.
  - destruct (is_far_enough_to_disable m v); apply Hsame.
Qed.

Lemma poll_keeps_invariant {E} m e :
  mempool_inv m -> poll_ok m e ->
  exists m' changes requests ready, poll_ready clock (E := E) m e = Ok (m', changes, requests, ready) /\
    (ready = true -> mempool_inv m') /\ (listeners e = true -> ready = true).
Proof using clock_mono.
  intros Hm [Hdr Hh Hb]. unfold poll_ready. set (action := if is_enabled m || _ then tip_change e else None).
  assert (Haction : forall block, action = Some (Grow block) -> tip_change e = Some (Grow block)).
  { unfold action. intros block. by case_match. }
  destruct (update_state_Ok (E := E) m action (is_caught_up_to_start m (view_start e)) (view_disable e) Hm)
    as (m1 & ch & changed & -> & Hm1 & Hst). cbn [res_bind]. destruct (is_enabled m1) eqn:He; cbn [negb]; [|by eexists _, _, _, _].
  assert (Hpoll : exists m' changes requests ready,
    (let? (self, more, requests, ready) := poll_enabled clock m1 e action in Ok (self, ch ++ more, requests, ready) : res E Polled)
      = Ok (m', changes, requests, ready) /\
    (ready = true -> mempool_inv m') /\ (listeners e = true -> ready = true)).
  { destruct (poll_enabled_Ok (E := E) m1 e action Hm1 Hdr Hh) as (m' & more & reqs & ready & -> & Hinv).
    - intros block st d pending hash Hact Hst1 k Hk. rewrite Hst1 in Hst. destruct Hst as [Hst|Hst]; [|apply Hst].
      apply (Hb block st d pending hash); [by apply Haction|done|done].
    - cbn [res_bind]. by eexists _, _, _, _. }
  destruct action as [[block|height hash]|]; [done| |done]. destruct changed; [done|].
  destruct (reset_Ok (E := E) m1 (Reset height hash) Hm1) as (m' & -> & Hm'). cbn [res_bind]. by eexists _, _, _, _.
Qed.

(** ** Requests *)

Lemma should_download_spec st id :
  storage_inv clock st ->
  storage_inv clock (should_download_or_verify clock st id).1 /\
  verified (should_download_or_verify clock st id).1 = verified st.
Proof using clock_mono.
  intros Hs. unfold should_download_or_verify. destruct (contains_transaction_exact st (mined_id id)); [done|].
  pose proof (rejection_error_spec clock clock_mono st id (si_rej _ _ Hs)) as Hr.
  destruct (rejection_error clock st id) as [st' e]. destruct Hr as (Hok & Hq & _). cbn.
  split; [by apply (quiet_inv clock st)|apply Hq].
Qed.

Lemma queue_all_inv {E} l : forall st d,
  storage_inv clock st -> queue_inv d ->
  exists st' d' answers, queue_all clock (E := E) st d l = Ok (st', d', answers) /\ storage_inv clock st' /\ queue_inv d' /\
    verified st' = verified st /\ length answers = length l.
Proof using clock_mono.
  induction l as [|g l IH]; intros st d Hs Hd; cbn [queue_all]; [by eexists _, _, _|].
  pose proof (should_download_spec st (Downloads.gossip_id g) Hs) as [Hs1 Hv1].
  destruct (should_download_or_verify clock st (Downloads.gossip_id g)) as [st1 e]. cbn [fst] in *.
  match goal with |- context [res_bind ?c _] => assert (Hc : exists d1 a, c = Ok (d1, a) /\ queue_inv d1) end.
  { destruct e as [e|].
    - assert (Hsame : forall a : option MempoolError, exists d1 a1, (Ok (d, a) : res E _) = Ok (d1, a1) /\ queue_inv d1) by (intros a; by eexists _, _).
      repeat case_match; apply Hsame.
    - unfold Downloads.download_if_needed_and_verify. destruct Hd as [Hi Hr].
      pose proof (Downloads.queue_spec d g None false Hi) as Hq.
      destruct (Downloads.queue d g None false) as [d1|e|]; [|by eexists _, _|done].
      destruct Hq as (Hi1 & _ & Hres). eexists _, _. split; [done|]. split; [done|]. by rewrite Hres. }
  destruct Hc as (d1 & a & -> & Hd1). cbn [res_bind].
  destruct (IH st1 d1 Hs1 Hd1) as (st' & d' & answers & -> & Hs' & Hd' & Hv' & Hlen). cbn [res_bind].
  eexists _, _, _. split; [done|]. split; [done|]. split; [done|]. split; [congruence|]. cbn. by rewrite Hlen.
Qed.

Lemma queue_from_peer_inv {E} source l : forall st d,
  storage_inv clock st -> queue_inv d ->
  exists st' d', queue_from_peer clock (E := E) st d source l = Ok (st', d') /\ storage_inv clock st' /\ queue_inv d' /\
    verified st' = verified st.
Proof using clock_mono.
  induction l as [|g l IH]; intros st d Hs Hd; cbn [queue_from_peer]; [by eexists _, _|].
  pose proof (should_download_spec st (Downloads.gossip_id g) Hs) as [Hs1 Hv1].
  destruct (should_download_or_verify clock st (Downloads.gossip_id g)) as [st1 e]. cbn [fst] in *.
  assert (Hnext : forall d1, queue_inv d1 -> exists st' d', queue_from_peer clock (E := E) st1 d1 source l = Ok (st', d') /\
    storage_inv clock st' /\ queue_inv d' /\ verified st' = verified st).
  { intros d1 Hd1. destruct (IH st1 d1 Hs1 Hd1) as (st' & d' & -> & Hs' & Hd' & Hv'). eexists _, _.
    split; [done|]. split; [done|]. split; [done|]. congruence. }
  destruct e as [e|]; [by apply Hnext|]. unfold Downloads.download_if_needed_and_verify.
  destruct (try_queue_inv (E := E) d g (Some source) false Hd) as (d1 & -> & Hd1). cbn [res_bind]. by apply Hnext.
Qed.

Lemma rejected_transactions_spec l : forall st,
  storage_inv clock st ->
  storage_inv clock (rejected_transactions clock st l).1 /\ verified (rejected_transactions clock st l).1 = verified st.
Proof using clock_mono.
  induction l as [|id l IH]; intros st Hs; cbn [rejected_transactions]; [done|]. unfold contains_rejected.
  pose proof (rejection_error_spec clock clock_mono st id (si_rej _ _ Hs)) as Hr.
  destruct (rejection_error clock st id) as [st1 e]. destruct Hr as (Hok & Hq & _).
  pose proof (IH st1 (quiet_inv clock st st1 Hs Hok Hq)) as [Hs' Hv'].
  destruct (rejected_transactions clock st1 l) as [st2 ids]. cbn in *. split; [done|]. rewrite Hv'. apply Hq.
Qed.

Lemma take_pending_subset pending limit : (take_pending_gossip pending limit).1 ⊆ pending.
Proof. unfold take_pending_gossip. case_match; cbn; set_solver. Qed.

Lemma call_keeps_invariant m req now :
  mempool_inv m -> exists m', (call clock m req now).1 = Ok m' /\ mempool_inv m'.
Proof using clock_mono.
  intros Hm. unfold call. destruct (active_state m) as [|st d pending hash] eqn:Hst; [by exists m|].
  pose proof (mi_state m Hm) as Hms. rewrite Hst in Hms. destruct Hms as (Hs & Hd & Hp).
  assert (Hstep : exists st' d' pending' response,
    call_enabled clock st d pending hash (peer_cooldowns m) req now = (Ok (st', d', pending'), response) /\
    storage_inv clock st' /\ queue_inv d' /\ verified st' = verified st /\ pending' ⊆ pending).
  { destruct req as [|limit| | |o| | |ids|gossiped_txs|gossiped_txs source| | |]; cbn [call_enabled]; try (by eexists _, _, _, _).
    - pose proof (take_pending_subset pending limit) as Hsub. destruct (take_pending_gossip pending limit).
      by eexists _, _, _, _.
    - destruct (created_output st o).
      + eexists _, _, _, _. split; [done|]. split; [|done]. by apply (set_only_inv clock st); [|apply (si_set _ _ Hs)|].
      + destruct (PendingOutputs.queue _ _). eexists _, _, _, _. split; [done|]. split; [|done].
        by apply (set_only_inv clock st); [|apply (si_set _ _ Hs)|].
    - pose proof (rejected_transactions_spec (hash_iter ids) st Hs) as [Hs' Hv].
      destruct (rejected_transactions clock st (hash_iter ids)). by eexists _, _, _, _.
    - destruct (queue_all_inv (E := RequestError) gossiped_txs st d Hs Hd) as (st' & d' & answers & Hq & Hs' & Hd' & Hv & _).
      rewrite Hq. by eexists _, _, _, _.
    - destruct (match source with Downloads.LegacySocket _ => _ | Downloads.Zakura _ => _ end); [by eexists _, _, _, _|].
      destruct (queue_from_peer_inv (E := RequestError) source gossiped_txs st d Hs Hd) as (st' & d' & -> & Hs' & Hd' & Hv).
      by eexists _, _, _, _. }
  destruct Hstep as (st' & d' & pending' & response & -> & Hs' & Hd' & Hv & Hsub). cbn.
  eexists. split; [done|]. destruct Hm as [Hl Hn _]. split; cbn; [done|done|]. split; [done|]. split; [done|].
  rewrite (tx_ids_same _ _ Hv). set_solver.
Qed.

(** ** Runs of the service *)

(** A task of an enabled mempool finishes. *)
Definition task_finishes (m : Mempool) (i : nat) (answers : option Downloads.Answers) (m' : Mempool) : Prop :=
  exists st d d' pending hash, active_state m = Enabled st d pending hash /\
    Downloads.finish (E := unit) d i answers = Ok d' /\ m' = with_state m (Enabled st d' pending hash).

(** The states of a service that starts disabled, by any order of polls that
    succeed, requests, and tasks that finish. *)
Inductive reachable : Mempool -> Prop :=
| reach_start config bytes network debug ips start disable m :
    0 <= config_tx_cost_limit config < 2 ^ 31 -> Network.net_wf network ->
    Mempool.new (E := unit) config bytes network debug ips start disable = Ok m -> reachable m
| reach_poll m e m' changes requests :
    reachable m -> poll_ok m e -> poll_ready clock (E := unit) m e = Ok (m', changes, requests, true) -> reachable m'
| reach_call m req now m' : reachable m -> (call clock m req now).1 = Ok m' -> reachable m'
| reach_task m i answers m' :
    reachable m -> (forall a, answers = Some a -> answers_valid a) -> task_finishes m i answers m' -> reachable m'.

Lemma service_reachable_inv m : reachable m -> mempool_inv m.
Proof using clock_mono.
  induction 1 as [cfg bytes net debug ips start disable m Hl Hn Hnew|m e m' ch rq _ IH Hok Hp|m req now m' _ IH Hc|m i answers m' _ IH Ha Hf].
  - unfold Mempool.new, update_state in Hnew.
    destruct (is_caught_up_to_start _ start); [|destruct (is_far_enough_to_disable _ disable)];
      cbn in Hnew; simplify_eq; by split.
  - destruct (poll_keeps_invariant (E := unit) m e IH Hok) as (m1 & ch1 & rq1 & ready & Hp1 & Hinv & _).
    rewrite Hp in Hp1. injection Hp1 as <- <- <- <-. by apply Hinv.
  - destruct (call_keeps_invariant m req now IH) as (m1 & Hc1 & Hinv). congruence.
  - destruct Hf as (st & d & d' & pending & hash & Hst & Hd & ->). destruct IH as [Hl Hn Hs]. rewrite Hst in Hs.
    destruct Hs as (Hs & Hq & Hp). destruct (finish_queue (E := unit) d i answers Hq Ha) as (d1 & Hd1 & Hq1).
    split; cbn; [done|done|]. split; [done|]. split; [congruence|done].
Qed.

(** C1: the mempool service, started disabled and driven by any polls, requests and
    task completions: no poll and no request panics, and a poll fails only when its
    listeners are gone.  While it is enabled, its storage and its download queue are well
    formed, the cost of the stored transactions is within the limit, and every id that
    waits to be gossiped is the id of a stored transaction. *)
Theorem mempool_runs_safely m :
  reachable m ->
  (forall e, poll_ok m e -> exists m' changes requests ready,
     poll_ready clock (E := unit) m e = Ok (m', changes, requests, ready) /\ (listeners e = true -> ready = true)) /\
  (forall req now, exists m', (call clock m req now).1 = Ok m') /\
  match active_state m with
  | Disabled => True
  | Enabled st d pending _ =>
      storage_inv clock st /\ VerifiedSet.total_cost (verified st) <= tx_cost_limit st /\ Downloads.inv d /\
      forall id, id ∈ pending -> exists k tx, txs (verified st) !! k = Some tx /\ id = unmined_id tx
  end.
Proof using clock_mono.
  intros Hm%service_reachable_inv. split; [|split].
  - intros e He. destruct (poll_keeps_invariant (E := unit) m e Hm He) as (m' & ch & rq & ready & Hp & _ & Hl). by eexists _, _, _, _.
  - intros req now. destruct (call_keeps_invariant m req now Hm) as (m' & Hc & _). by exists m'.
  - pose proof (mi_state m Hm) as Hs. destruct (active_state m) as [|st d pending hash]; [done|]. destruct Hs as (Hs & [Hd _] & Hp).
    split; [done|]. split; [apply (si_cost _ _ Hs)|]. split; [done|]. intros id Hid. by apply elem_of_tx_ids, Hp.
Qed.

End Poll.

(** ** Gossip *)

Section Gossip.
Context {HO : HashOrder}.

(** The ids handed out by [n] requests in a row. *)
Fixpoint gossiped (n : nat) (pending : gset UnminedTxId) (limit : Z) : list (gset UnminedTxId) :=
  match n with
  | O => []
  | S n => let '(rest, out) := take_pending_gossip pending limit in out :: gossiped n rest limit
  end.

Lemma take_pending_spec pending limit :
  0 < limit ->
  let '(rest, out) := take_pending_gossip pending limit in
  rest ∪ out = pending /\ rest ## out /\ Z.of_nat (size out) = Z.min limit (Z.of_nat (size pending)).
Proof.
  intros Hl. unfold take_pending_gossip. destruct (Z.leb_spec (Z.of_nat (size pending)) limit) as [Hle|Hgt].
  { split; [set_solver|]. split; [set_solver|lia]. }
  assert (Hsub : forall id, id ∈ take (Z.to_nat limit) (hash_iter pending) -> id ∈ pending).
  { intros id Hid. apply elem_of_hash_iter. by apply (subseteq_take (Z.to_nat limit)). }
  split; [|split].
  - apply set_eq. intros id. rewrite elem_of_union, elem_of_difference, elem_of_list_to_set.
    destruct (decide (id ∈ take (Z.to_nat limit) (hash_iter pending))); naive_solver.
  - set_solver.
  - rewrite size_list_to_set by (apply (sublist_NoDup _ (hash_iter pending)); [apply NoDup_hash_iter|apply sublist_take]).
    rewrite length_take. assert (length (hash_iter pending) = size pending) by (by rewrite hash_iter_perm). lia.
Qed.

(** C37: with a positive limit, requests for the ids to gossip hand out every pending id
    within as many requests as batches of that size are needed, at most [limit] ids at a
    time, and no id twice. *)
Theorem gossip_reaches_all limit n pending :
  0 < limit -> Z.of_nat (size pending) <= Z.of_nat n * limit ->
  ⋃ gossiped n pending limit = pending /\
  Forall (fun out => Z.of_nat (size out) <= limit) (gossiped n pending limit) /\
  (forall i j out out', gossiped n pending limit !! i = Some out -> gossiped n pending limit !! j = Some out' ->
     i <> j -> out ## out').
Proof.
  intros Hl. revert pending. induction n as [|n IH]; intros pending Hn; cbn [gossiped].
  { assert (size pending = 0%nat) as ->%size_empty_inv%leibniz_equiv by lia. split; [done|]. split; [constructor|].
    intros i j out out' Hi. by rewrite lookup_nil in Hi. }
  pose proof (take_pending_spec pending limit Hl) as Ht. destruct (take_pending_gossip pending limit) as [rest out] eqn:Htake.
  destruct Ht as (Hu & Hdis & Hsz).
  assert (Hrest : Z.of_nat (size rest) <= Z.of_nat n * limit).
  { rewrite <- Hu, size_union in Hsz by done. rewrite <- Hu, size_union in Hn by done. lia. }
  destruct (IH rest Hrest) as (Hall & Hsizes & Hdisj). split; [|split].
  - cbn. rewrite Hall, <- Hu. apply union_comm_L.
  - constructor; [lia|done].
  - assert (Hin : forall i o, gossiped n rest limit !! i = Some o -> o ⊆ rest).
    { intros i o Hi x Hx. rewrite <- Hall. apply elem_of_union_list. exists o. split; [by apply list_elem_of_lookup_2 in Hi|done]. }
    intros [|i] [|j] o o' Hi Hj Hne; cbn in Hi, Hj; simplify_eq; [..|eapply Hdisj; [exact Hi|exact Hj|lia]].
    + apply Hin in Hj. set_solver.
    + apply Hin in Hi. set_solver.
Qed.
End Gossip.

(** A service that the debug height turns on at the tip. *)
Definition example_mempool : Mempool :=
  mkMempool example_config 250000 Network.Mainnet (Some 0) ∅ Disabled PeerCooldown.default_state.
Definition example_view : View := mkView true (Some 5) (Some 0).
Definition example_poll : Poll := mkPoll example_view example_view example_view (Some (Reset 5 77)) [] true.
Definition example_enabled : Mempool :=
  match poll_ready (HO := elements_order) (ZS := Standard.toy_script) EvictionList.ticking (E := unit) example_mempool example_poll with
  | Ok (m, _, _, _) => m
  | _ => example_mempool
  end.

Lemma example_reachable : reachable (HO := elements_order) (ZS := Standard.toy_script) EvictionList.ticking example_enabled.
Proof.
  apply (reach_poll (HO := elements_order) (ZS := Standard.toy_script) _ example_mempool example_poll _ [] []).
  - apply (reach_start _ example_config 250000 Network.Mainnet (Some 0) [] example_view example_view);
      [cbn; lia|apply Network.mainnet_wf|reflexivity].
  - split; [by intros e i a ?%elem_of_nil|by intros height [= <-]|by intros].
  - vm_compute. reflexivity.
Qed.

Lemma mempool_runs_safely_witness :
  exists st d pending hash m',
    active_state example_enabled = Enabled st d pending hash /\
    VerifiedSet.total_cost (verified st) <= tx_cost_limit st /\ Downloads.inv d /\
    (call (HO := elements_order) EvictionList.ticking example_enabled TransactionIds 0).1 = Ok m'.
Proof.
  destruct (mempool_runs_safely (HO := elements_order) (ZS := Standard.toy_script) EvictionList.ticking
    EvictionList.ticking_mono example_enabled example_reachable) as (_ & Hcall & Hst).
  destruct (Hcall TransactionIds 0) as (m' & Hm').
  destruct (active_state example_enabled) as [|st d pending hash] eqn:He; [exfalso; vm_compute in He; discriminate|].
  destruct Hst as (_ & Hcost & Hd & _). eexists st, d, pending, hash, m'. split; [done|]. split; [exact Hcost|]. split; [exact Hd|exact Hm'].
Defined.

Lemma gossip_reaches_all_witness :
  ⋃ gossiped (HO := elements_order) 2 {[ Legacy 1; Legacy 2; Legacy 3 ]} 2 = {[ Legacy 1; Legacy 2; Legacy 3 ]}.
Proof.
  refine (proj1 (gossip_reaches_all (HO := elements_order) 2 2 {[ Legacy 1; Legacy 2; Legacy 3 ]} _ _)); vm_compute; congruence.
Defined.
End MempoolFacts.
